(* ===== verification/_CoqProject ===== *)
-Q . S2P
Prelude.v
Netip.v
Order.v
Record.v
Geo.v
Rollup.v
Talkers.v
Template.v
Decode.v
Heap.v
Correlate.v
DnsCache.v
Gauges.v
Tables.v
CommunityId.v
GoStrings.v
Enrich.v
IfMap.v
Fifo.v
Repair.v
Processor.v
Framing.v
LogQueue.v
LogSink.v
Limiter.v
LogPipeline.v
OtlpSink.v
GoTime.v
Envelope.v
Filterlog.v
GoRegexp.v
Registry.v
Captured.v
Derive.v
Shape.v
Receiver.v
Parsers.v
Parsers2.v
DhcpParser.v
Programs.v
Labels.v
Bounded.v
LogEvents.v
Scrape.v
EndToEnd.v
PollStore.v
Scheduler.v
Serving.v
ApiClient.v
FlowLog.v
Zenarmor.v
ZenReceiver.v
ZenStore.v
GoJson.v
Polled.v
Sensitive.v
ConfigChange.v
RoutingChange.v
Annotations.v
ConfigState.v
DeviceInventory.v
GoFloat.v
CpuStream.v
