(* ===== verification/Prelude.v ===== *)
(** * A verification library for the core of opnsense2otel

    opnsense2otel exports the state of an OPNsense firewall as OpenTelemetry
    signals.  Its flow lane ([src/internal/flow]) receives NetFlow datagrams from
    the firewall's ng_netflow nodes and connection records from Zenarmor, joins
    them, and turns them into metrics and logs:

      datagram --Decoder--> records --processor/repair--> flow records
        --Correlator--> merged records --Sinks--> rollups, gauges, logs

    Its log lane ([src/internal/logship]) receives syslog and polls logs, and ships
    them:

      bytes --framing/assembler--> messages --envelope/receiver/parsers--> log
        records (and metrics) --gate--> bounded queue --emitter--> sink (OTLP or
        stdout)

    What the log lane counts goes to a log event store ([src/internal/collector/
    logevents.go]) that a scrape turns into metrics.  The rest of the metrics come from
    collectors, which a scheduler polls through an API client with retries and a
    response cache ([src/opnsense]), and whose last snapshots scrapes and export lanes
    replay ([src/internal/collector]).  Zenarmor's own documents come by a server that
    poses as Elasticsearch, or by syslog ([src/internal/logship/zenarmor]): each becomes
    a log record, an observation and, if it is a connection, a flow record.  Other log
    records come from sources that poll: logs the firewall keeps, its configuration and
    its changes, its routes, the devices on its networks.  A watcher writes annotations
    into Grafana ([src/internal/annotations]), and one held connection streams CPU samples
    ([src/internal/cpustream]).

    The decoder reads bytes an attacker can send; the correlator and the rollups
    must not lose or double a byte, whatever the interleaving of their callers;
    everything that is keyed by traffic must stay bounded; a log record must be
    delivered or counted as lost, and a batch must not hold the emitter for ever.
    These are the
    behaviours the library proves.

    ** Files

    - [Prelude]: record update, fixed-width integers and congruence modulo 2^64,
      instants and durations, sums over lists and maps, tactics and the hint
      database [flow].
    - [Netip]: the part of Go's [net/netip] and [strconv] the source uses
      (addresses, unmapping, the order of addresses, [ParseAddr], [ParseUint]).
    - [Order]: classes for the comparison functions handed to [sort.Slice], and
      sorting.
    - [Record]: [record.go] (the flow record, its canonical tuple), the labels of
      [processor.go], sinks as a class ([Sink], [tee.go]).
    - [Geo]: [geo.go] and [geoip.IsGloballyRoutable]: per-endpoint resolution and
      the merge of a Zenarmor record's places.
    - [Rollup]: [rollup.go], the bounded byte/packet/flow accumulator with its
      top-N snapshot and its folded remainder.
    - [Talkers]: [toptalkers.go], the same per LAN host.
    - [Template]: [netflow/template.go], [netflow/types.go]: the template cache, an
      LRU list with a budget of templates and of elements.
    - [Decode]: [netflow/decode.go], the NetFlow v5 and v9 decoder.
    - [Heap]: Go's [container/heap] with elements that track their own position, as
      [corrHeap] has them.
    - [Correlate]: [correlate.go], the join of NetFlow halves and Zenarmor records
      in windows, with expiry, eviction and flush.
    - [DnsCache]: [dnscache.go], the bounded map of recent answers.
    - [Gauges]: [distinctdests.go], [lastseen.go], [deltaratio.go].
    - [Tables]: [routetable.go], [nattable.go], the tables built from pf's states.
    - [CommunityId]: [communityid.go], with SHA-1 and base64.
    - [GoStrings]: the part of Go's [strings] the source uses.
    - [Enrich]: [logship/enrich]: the identity snapshot, its lookups and the table of
      services.
    - [IfMap]: [ifmap.go], the map from ng_netflow interface indices to interfaces; the
      class [IfTopology] is the interface the repair stage sees of it.
    - [Fifo]: the slices with a head index [repair.go] keeps beside its maps.
    - [Repair]: [repair.go]: the hold buffer and de-dup of VLAN copies, the suppression
      of NAT copies, the correction of the egress, of policy routes and of directions.
    - [Processor]: [processor.go], the NetFlow pipeline over all of these.
    - [Framing]: [logship/syslog/framing.go], [assemble.go] and the scan loop of
      [listener.go]: a connection's bytes cut into frames and joined to messages.
    - [LogQueue]: [logship/record.go], [queue.go]: the log record and the queue.
    - [LogSink]: [sink.go], [sink_stdout.go]: the contract of a sink as the class
      [LogSink.Sink], which the pipeline's theorems use and the sinks discharge.
    - [Limiter]: [loglimiter.go].
    - [LogPipeline]: [pipeline.go], [push.go], [metrics.go]: the gate, the emitter's
      loop as a step function, the counters.
    - [OtlpSink]: [sink_otlp.go]: resources, requests, the worker pool and the
      classification of answers.
    - [GoTime]: the part of Go's [time] the log lane uses (calendar dates, zones,
      RFC 3339).
    - [Envelope]: [syslog/envelope.go], both syslog formats.
    - [Filterlog]: [filterlog.go], [geo.go], [filter.go], [filterlog_domain.go]: the
      firewall's rows, their enrichment, the program filter.
    - [GoRegexp]: Go's [regexp] for the patterns of the source: a reader of patterns, a
      backtracking matcher with leftmost-first priorities, and its semantics.
    - [Registry]: [registry.go], [generic.go], [enrichgeneric.go], [tunnels.go]: the
      parsers' registry, the generic record, the enrichment by the text.
    - [Captured]: [captured*.go], [known*.go], [retained_capture.go], [upgrade_boot.go]:
      the rules for lines no parser takes.
    - [Derive]: [derive.go], [sample.go], [logmetrics.go]: the observations a record
      counts as; the metric sink is the class [MetricSink].
    - [Shape]: [capture/dedupe.go]: shapes of messages and their limiter.
    - [Receiver]: [source.go], [freeradius_sanitize.go], [captured_api.go]: a line from
      its receipt to its emission.
    - [Parsers], [Parsers2], [DhcpParser]: the parsers of the programs.
    - [Programs]: the registry the package's initialisation builds; Suricata's parser.
    - [Labels]: the composition of all of these with the metric sink.
    - [Bounded]: [collector/cappedcounter.go], [retainedbytes.go], [boundedinventory.go],
      [filterlog_domain_counter.go]: the bounded families of the log event store.
    - [LogEvents]: [collector/logevents.go], the store: its queue, its clients and its
      owner as a step relation, its snapshots.
    - [Scrape]: the descriptors and the metrics of a scrape of the store, with the panics
      of the metric constructor.
    - [EndToEnd]: a received line to a scraped metric: the store as the metric sink of
      [Derive].
    - [PollStore]: [collector/snapshot.go], [status_tracker.go]: the snapshots and the
      statistics of polls.
    - [Scheduler]: [interval_tiers.go], [poll_lane.go], [subcadence.go] and the intervals,
      deadlines and admission of [scheduler.go].
    - [Serving]: [opnsense/health_check.go], a poll, the health poll and the serving paths
      of [collector.go].
    - [ApiClient]: [opnsense/cache.go] and the request path of [opnsense/client.go].
    - [FlowLog]: [flow/logemit.go], [logship/flowlog]: the log record of a flow and the
      bridge that ships it within a budget.
    - [Zenarmor]: [zenarmor/parse.go], [flowadapt.go], [derive.go], [devicecategory.go],
      [self.go]: what a document becomes.
    - [ZenReceiver]: [zenarmor/source.go], [server.go], [exclude.go], [syslog.go]: the
      processor, the server with its registry and bulk writes, the exclusion rules.
    - [ZenStore]: the log event store as the metric sink of the Zenarmor receiver.
    - [GoJson]: the part of Go's [encoding/json] the sources use: escaping, printing, the
      decoder of a value.
    - [Polled]: [logship/unbound.go], [ids.go], [crowdsec.go]: sources that read a window
      of what the firewall recorded, with the class [Windowed] for what they share.
    - [Sensitive]: [opnsense/config_snapshot.go] and the redaction of
      [logship/configchange.go]: the vocabulary of credentials, rows and diffs.
    - [ConfigChange]: [logship/configchange.go], the bound of [opnsense/backup.go].
    - [RoutingChange]: [logship/routingchange.go].
    - [Annotations]: [annotations/catalog.go], [watcher.go], the answers of [writer.go].
    - [ConfigState]: [logship/configsnapshot/source.go], the firewall family of
      [factory.go], SHA-256.
    - [DeviceInventory]: [configsnapshot/device_inventory.go], the fusion of rows into
      devices and its provider.
    - [GoFloat]: [float64] and [strconv.ParseFloat], with the order and the size of sums,
      products and quotients of non-negative values.
    - [CpuStream]: [cpustream/accumulator.go], [stream.go], [collector/cpu.go]: the event
      stream's reader, the counters, the goroutine with its dials, the collector.

    ** Conventions

    A Go struct is a [Record] with the source's field names (prefixed where two
    structs share one); a method that mutates its receiver is a function that
    returns the new one.  A read out of a slice's range and [heap.Remove] at a wrong
    index are [None], so a theorem that an operation returns [Some] says that it
    does not panic.  Loops that are not structural take fuel and give [None] when
    it runs out, so the same theorems say that they end: the walk over a datagram
    and the record loop get the number of bytes left as fuel (each step consumes at
    least one byte), the eviction loop the length of the LRU list, the sifting of
    the heap its size.  The frame splitter's loop gets three rounds for each byte and
    three more, the scanner's one for each byte and two more; each round consumes a
    byte or leaves a mode it cannot re-enter without consuming one.  The emitter's loop
    gets what [ship_terminates] shows to be enough.  An iteration over a Go map, whose order is not defined,
    takes the order as an argument, or is shown not to depend on it.  Mutexes are
    not modelled: every exported method holds its component's lock from start to
    end, so a concurrent execution is a sequence of operations, which is what the
    theorems quantify over.  The repair stage alone takes and releases its lock
    several times in a call; there the operations of a history are its critical
    sections ([Repair.event]), in any order.  The log event store and the pollers, which
    run as goroutines over channels, are step relations ([LogEvents.step],
    [Scheduler.gstep]).  Unsigned counters are [Z] with their wrap-around; a
    conservation law is a congruence modulo 2^64 ([==64]).

    ** Theorems

    - The decoder, on any sequence of datagrams of arbitrary bytes, returns and
      keeps its cache in bounds ([decode_total]); counts each datagram once under
      its outcome ([decode_outcome]); produces only values within their widths and
      plausible times ([decode_records]); never lets one exporter alter another's
      templates ([decode_isolation]); reads back what an encoder wrote
      ([v9_roundtrip], [v5_roundtrip]).
    - The correlator conserves bytes, packets and fragments ([corr_conservation]),
      never panics and stays within its cap ([corr_total]), evicts the oldest entry
      ([corr_evicts_oldest]), expires exactly what is due ([corr_expire_exact]),
      flushes everything ([corr_flush_complete]) and emits the same record whichever
      half came first ([finalize_order_independent]).  The community id of a record is
      that of its answer and, but for a collision of SHA-1, of no other conversation
      ([community_separates]).
    - The rollups lose nothing to their bounds: every snapshot sums to what was
      observed ([snapshot_exact], [talkers_exact]), the remainder only grows
      ([remainder_monotone]), the largest keys are kept ([snapshot_top]), the size is
      bounded ([bounded]), snapshots are repeatable ([snapshot_idempotent]).
    - The pf tables refine a memory of what the polls said, bounded by the retention
      ([route_refines], [nat_refines]), with an exact account ([route_accounting])
      and both directions of a translation together ([nat_symmetric]).
    - The DNS cache answers only with what was stored, for as long as it may, within
      its size ([dns_sound], [dns_complete], [dns_bound]); the gauges are exact below
      their caps ([dests_exact], [seen_exact], [ratio_exact]).

    - The interface map names at each index the device the ordering lists there
      ([ifmap_exact]), knows exactly the WAN addresses of the listed devices
      ([wan_exact]) and attributes an address to a VLAN child only without ambiguity
      ([vlan_child_exact]).
    - The repair stage loses no record without counting it ([repair_account]), drops
      one only with a reason on record ([vlan_drop_justified], [nat_drop_justified]),
      keeps its tables in bounds ([repair_bounds]) and lets every held record go
      ([hold_complete]).  The processor accounts for every record it receives
      ([proc_account]); its gauge of held records also counts those suppressed when
      they were released ([held_gauge]).

    - A connection's frames do not depend on how its reads cut the bytes
      ([framing_exact]), no input makes the scanner fail or pass an overlong line
      ([framing_safe]), and messages come out as they were sent ([conn_roundtrip]).
    - The log pipeline accounts for every record it is given, per source, over every
      interleaving of producers and delivery attempts ([pipeline_account]), and a batch
      ends ([ship_terminates]); the queue is exact ([queue_exact]).  The OTLP sink sends
      each record in one request with its resource ([otlp_requests]), reacts to each
      kind of answer as the protocol asks ([delivery_errors]) and never runs two
      requests on one exporter ([pool_exclusive]).

    - An envelope is read with its fields in range on any bytes ([envelope_type]) and as
      it was written in both formats ([rfc5424_roundtrip], [bsd_roundtrip]); a firewall
      row means what its fields say ([filterlog_exact]).
    - The receiver ends every line in a record or a counted rejection
      ([receiver_accounts]), lets no API key and nothing of a RADIUS line but its
      outcome through ([receiver_confidential]), and shows the metric sink only labels
      of the listed vocabularies ([labels_closed]); the debug capture is bounded
      ([shape_limits]).

    - The log event store's snapshots are exact counts of what was observed up to then,
      but for what a full queue refused, which is counted ([store_snapshot_exact]), in
      bounded space ([store_bounded]); the ranked domains sum to all observations
      ([domains_exact]).  A scrape is well formed ([scrape_well_formed]) and its counters
      never go back ([scrape_persists]): so a label that is not UTF-8 breaks every later
      scrape.  What a line does to the store is a run of observations
      ([receiver_feeds_store]).
    - A poll replaces its collector's snapshot and counts its failures ([poll_exact]); the
      snapshots and statistics are what the history of polls determines
      ([tables_are_history]); the lanes serve each collector once ([served_exact]).
      The interval of a collector is what its settings say ([cadence_exact]), deadlines
      keep their grid ([deadline_advances]), and fast collectors are not starved by slow
      ones ([admission_sound]).
    - The response cache is bounded and forgets the least recently used
      ([cache_exact]); what it replays is what the call that filled it returned
      ([replay_exact]); a call ends at its first conclusive attempt ([call_decided]).

    - Every document of a bulk write ends in one record or one counted reason
      ([zen_accounts]); a body is read as it was written ([bulk_roundtrip]); the store is
      offered one observation per document kept ([bulk_feeds_store]), under labels of
      small vocabularies ([zen_labels_closed]); the registry is bounded
      ([registry_bounded]); a connection's flow record is what the document says
      ([flow_from_doc_exact]) and its domain was asked for ([domain_asked]).  The flow
      log ships a prefix of each window ([bridge_exact]) and tells conversations apart
      ([log_separates]).

    - A source that polls a log ships every row once, or counts what its window lost
      ([unbound_delivery], [ids_delivery]).  A configuration row or diff is shipped without
      anything under a name of the credentials' vocabulary and otherwise as it is
      ([snapshot_rows_exact], [diff_confidential]); each revision is told once
      ([config_changes_once]); the records of the routing source tell the events of their
      specification and form a chain ([routing_refines], [routing_told]).  An annotation is
      written once ([annotated_once]); the snapshot last shipped of a family is what is
      there ([snapshot_current]); the inventory's devices partition the rows
      ([inventory_partition]) and are new exactly when no committed poll showed them
      ([new_devices_exact]).
    - The CPU stream's body is read as it was written ([sse_exact]); its seconds are the sum
      of exactly the observed intervals, never go down, and are withdrawn when the stream
      falls silent ([cpu_seconds_exact]); a stall is detected within one and a half of its
      bound ([stall_detected]).

    ** Surroundings of the log lane

    A sink's [answer] and an emitter's [round] are what the source reads of the clock,
    of contexts, timers and the wire at that point, in the order it reads them; the
    theorems quantify over them.  The parser of HTTP dates is a parameter of the
    [Retry-After] delay, [html.UnescapeString] of the configuration records,
    [strings.ToLower] of the device inventory, and the order in which a sort leaves equal
    events of the annotation cycle.  What a poll fetches is its argument; a dial of the CPU
    stream is its body, its end and the clock at its frames.

    ** Not modelled

    Sockets, HTTP, files and the wiring of the process; the GeoIP database, which is a
    parameter where it is used; the JSON decoders of Suricata's lines and Zenarmor's
    documents, parameters too; the refresh that fills enrichment snapshots and the store
    through which collectors share results with it; the syslog listener's sockets,
    connection slots and workers; the pipeline's state file; of the API client the
    transport, the decoder, the redaction of error bodies (parameters) and the fetchers of
    the endpoints; the collectors that render a decoded response, but for those of the CPU
    and of the log events; the security-posture family of the configuration snapshots; the
    HTTP client and the dashboard links of the annotations.  [PROJECT.json] lists every
    component with its status. *)

From stdpp Require Import base decidable list gmap strings sorting numbers fin_maps.
From Stdlib Require Import ZArith Lia.

Declare Scope flow_scope.
Delimit Scope flow_scope with flow.
Open Scope Z_scope.

(** ** Functional record update

    Go assigns to struct fields; the model rebuilds the struct.  A record type
    declares its eta expansion once ([Eta]); [Update] finds the setter of any
    field from it, so that [r <| Field := v |>] reads like [r.Field = v]. *)

Class Eta (R : Type) := eta : R -> R.

Class Update {R T : Type} (proj : R -> T) := update : (T -> T) -> R -> R.
#[export] Hint Mode Update - - + : typeclass_instances.

Ltac solve_update :=
  match goal with
  | |- @Update ?R ?T ?proj =>
      let inst := constr:(_ : Eta R) in
      let body := eval red in inst in
      let body := eval cbv beta delta [eta] in body in
      let abstracted := eval pattern proj in body in
      match abstracted with
      | ?g _ =>
          let res := eval cbv beta in
            (fun (f : T -> T) (r : R) => g (fun r0 : R => f (proj r0)) r) in
          exact res
      end
  end.

#[export] Hint Extern 1 (Update _) => solve_update : typeclass_instances.

#[warning="-postfix-notation-not-level-1"]
Notation "r <| proj ::= f |>" := (update (proj := proj) f r)
  (at level 12, left associativity, format "r  <| proj  ::=  f |>") : flow_scope.
#[warning="-postfix-notation-not-level-1"]
Notation "r <| proj := v |>" := (update (proj := proj) (fun _ => v) r)
  (at level 12, left associativity, format "r  <| proj  :=  v |>") : flow_scope.
Open Scope flow_scope.

(** ** Machine integers

    A Go unsigned integer of width [w] is a [Z] in [[0, 2^w)].  The source only
    ever adds, subtracts and converts such values; each of these wraps. *)

Definition M64 : Z := 2 ^ 64.
Definition u8 (z : Z) : Z := z mod 2 ^ 8.
Definition u16 (z : Z) : Z := z mod 2 ^ 16.
Definition u32 (z : Z) : Z := z mod 2 ^ 32.
Definition u64 (z : Z) : Z := z mod M64.

(** uint64 addition and subtraction, with Go's wrap-around. *)
Definition add64 (a b : Z) : Z := u64 (a + b).
(** A counter goes up by one. *)
Definition incr (n : Z) : Z := add64 n 1.
Definition sub64 (a b : Z) : Z := u64 (a - b).

(** Reinterpretation of an exact integer as an int64. *)
Definition s64 (z : Z) : Z :=
  let m := z mod M64 in if m <? 2 ^ 63 then m else m - M64.

Definition is_u8 (z : Z) : Prop := 0 <= z < 2 ^ 8.
Definition is_u16 (z : Z) : Prop := 0 <= z < 2 ^ 16.
Definition is_u32 (z : Z) : Prop := 0 <= z < 2 ^ 32.
Definition is_u64 (z : Z) : Prop := 0 <= z < M64.

(** Congruence modulo [2^64]: the equality under which a counter that wraps is
    still an exact account of what it counted. *)
Definition eq64 (a b : Z) : Prop := u64 a = u64 b.
Infix "==64" := eq64 (at level 70) : flow_scope.

(** ** Instants and durations

    A [time.Time] is the number of nanoseconds since Go's zero time (1 January
    of year 1, UTC), so that the zero value of the type is [0] and [IsZero] is a
    comparison with it.  A [time.Duration] is an int64 count of nanoseconds. *)

Definition Time := Z.
Definition Duration := Z.

Definition zero_time : Time := 0.
Definition IsZero (t : Time) : bool := t =? 0.
Definition Before (a b : Time) : bool := a <? b.
Definition After (a b : Time) : bool := b <? a.
Definition time_Equal (a b : Time) : bool := a =? b.
Definition time_Add (t : Time) (d : Duration) : Time := t + d.

Definition minDuration : Duration := - 2 ^ 63.
Definition maxDuration : Duration := 2 ^ 63 - 1.

(** [Time.Sub] saturates at the ends of the Duration range. *)
Definition time_Sub (a b : Time) : Duration :=
  Z.max minDuration (Z.min maxDuration (a - b)).

Definition Millisecond : Duration := 1000000.
Definition Second : Duration := 1000 * Millisecond.
Definition Minute : Duration := 60 * Second.

(** 1970-01-01T00:00:00Z on the scale above. *)
Definition unix_epoch : Time := 62135596800 * Second.

(** [time.Unix(sec, nsec)], for the non-negative arguments the decoder passes. *)
Definition time_Unix (sec nsec : Z) : Time := unix_epoch + sec * Second + nsec.

(** [Time.UnixNano]: an int64, and therefore wrapped for instants outside
    1678..2262 (the zero time among them). *)
Definition UnixNano (t : Time) : Z := s64 (t - unix_epoch).

(** ** Strings *)

(** Go's [<] on strings is bytewise lexicographic. *)
Definition str_lt (a b : string) : bool := String.ltb a b.
Definition str_eq (a b : string) : bool := String.eqb a b.
Definition str_empty (a : string) : bool := str_eq a "".

(** ** Sums over lists and maps *)

Definition lsum {A : Type} (f : A -> Z) (l : list A) : Z :=
  foldr (fun a s => f a + s) 0 l.

Definition msum {K A : Type} `{Countable K} (f : K -> A -> Z) (m : gmap K A) : Z :=
  map_fold (fun k a s => f k a + s) 0 m.

(** [len(m)] of a Go map. *)
Definition zsize {K A : Type} `{Countable K} (m : gmap K A) : Z := Z.of_nat (size m).
Definition zlen {A : Type} (l : list A) : Z := Z.of_nat (length l).

(** ** Proof automation *)

Create HintDb flow discriminated.

(** Case analysis on the scrutinee of every [match]/[if] of the goal, keeping
    the equations. *)
Ltac case_match_all :=
  repeat match goal with
  | |- context [match ?x with _ => _ end] => destruct x eqn:?
  end.

(** Turn boolean comparisons in hypotheses and goal into propositions. *)
Ltac bool_prop :=
  repeat match goal with
  | H : (_ && _) = true |- _ => apply andb_true_iff in H; destruct H
  | H : (_ || _) = false |- _ => apply orb_false_iff in H; destruct H
  | H : negb _ = true |- _ => apply negb_true_iff in H
  | H : negb _ = false |- _ => apply negb_false_iff in H
  | H : (_ <? _) = true |- _ => apply Z.ltb_lt in H
  | H : (_ <? _) = false |- _ => apply Z.ltb_ge in H
  | H : (_ <=? _) = true |- _ => apply Z.leb_le in H
  | H : (_ <=? _) = false |- _ => apply Z.leb_gt in H
  | H : (_ =? _) = true |- _ => apply Z.eqb_eq in H
  | H : (_ =? _) = false |- _ => apply Z.eqb_neq in H
  | H : str_eq _ _ = true |- _ => apply String.eqb_eq in H
  | H : str_eq _ _ = false |- _ => apply String.eqb_neq in H
  end.

(** Goals that evaluate a comparison. *)
Ltac zbool :=
  first [apply Z.ltb_ge | apply Z.ltb_lt | apply Z.leb_gt | apply Z.leb_le
        | apply Z.eqb_neq | apply Z.eqb_eq | apply Nat.ltb_ge | apply Nat.ltb_lt
        | apply Nat.leb_gt | apply Nat.leb_le]; lia.

(** Linear arithmetic with division and remainder by constants. *)
Ltac zdiv := Z.to_euclidean_division_equations; lia.

(** ** Lemmas on machine integers *)

Lemma u64_range z : is_u64 (u64 z).
Proof. apply Z.mod_pos_bound. reflexivity. Qed.

Lemma u64_small z : is_u64 z -> u64 z = z.
Proof. apply Z.mod_small. Qed.

Lemma u32_small z : is_u32 z -> u32 z = z.
Proof. apply Z.mod_small. Qed.

Lemma u16_small z : is_u16 z -> u16 z = z.
Proof. apply Z.mod_small. Qed.

Lemma u8_small z : is_u8 z -> u8 z = z.
Proof. apply Z.mod_small. Qed.

Lemma u32_range z : is_u32 (u32 z).
Proof. apply Z.mod_pos_bound. reflexivity. Qed.

Lemma u16_range z : is_u16 (u16 z).
Proof. apply Z.mod_pos_bound. reflexivity. Qed.

Lemma u8_range z : is_u8 (u8 z).
Proof. apply Z.mod_pos_bound. reflexivity. Qed.

#[export] Hint Resolve u64_range u32_range u16_range u8_range : flow.

#[export] Instance eq64_equiv : Equivalence eq64.
Proof. split; unfold eq64; congruence. Qed.

#[export] Instance add_proper64 : Proper (eq64 ==> eq64 ==> eq64) Z.add.
Proof.
  intros a b Hab c d Hcd. unfold eq64, u64 in *.
  by rewrite (Z.add_mod a c), Hab, Hcd, <- Z.add_mod.
Qed.

#[export] Instance sub_proper64 : Proper (eq64 ==> eq64 ==> eq64) Z.sub.
Proof.
  intros a b Hab c d Hcd. unfold eq64, u64 in *.
  by rewrite (Zminus_mod a c), Hab, Hcd, <- Zminus_mod.
Qed.

Lemma u64_eq64 z : u64 z ==64 z.
Proof. unfold eq64, u64. by rewrite Z.mod_mod. Qed.

Lemma add64_eq64 a b : add64 a b ==64 a + b.
Proof. apply u64_eq64. Qed.

Lemma incr_eq64 n : incr n ==64 n + 1.
Proof. apply add64_eq64. Qed.

Lemma sub64_eq64 a b : sub64 a b ==64 a - b.
Proof. apply u64_eq64. Qed.

Lemma eq64_of_eq a b : a = b -> a ==64 b.
Proof. by intros ->. Qed.

(** Two in-range values that are congruent are equal. *)
Lemma eq64_exact a b : a ==64 b -> is_u64 a -> is_u64 b -> a = b.
Proof. unfold eq64. intros H Ha Hb. by rewrite (u64_small a), (u64_small b) in H. Qed.

(** ** Lemmas on time *)

Lemma time_Sub_exact a b :
  minDuration <= a - b <= maxDuration -> time_Sub a b = a - b.
Proof. unfold time_Sub. lia. Qed.

(** Saturation does not disturb a comparison with a duration below the top. *)
Lemma time_Sub_gt a b d :
  minDuration <= d < maxDuration -> d < time_Sub a b <-> d < a - b.
Proof. unfold time_Sub. lia. Qed.

Lemma time_Sub_lt a b d :
  minDuration < d <= maxDuration -> time_Sub a b < d <-> a - b < d.
Proof. unfold time_Sub. lia. Qed.

(** ** Lemmas on sums *)

Lemma lsum_nil {A} (f : A -> Z) : lsum f [] = 0.
Proof. done. Qed.

Lemma lsum_cons {A} (f : A -> Z) a l : lsum f (a :: l) = f a + lsum f l.
Proof. done. Qed.

Lemma lsum_app {A} (f : A -> Z) l k : lsum f (l ++ k) = lsum f l + lsum f k.
Proof.
  induction l as [|a l IH]; [done|]. cbn [app]. rewrite !lsum_cons, IH. lia.
Qed.

Lemma lsum_perm {A} (f : A -> Z) l k : l ≡ₚ k -> lsum f l = lsum f k.
Proof. induction 1; rewrite ?lsum_cons; lia. Qed.

Lemma lsum_map {A B} (f : B -> Z) (g : A -> B) l :
  lsum f (map g l) = lsum (fun a => f (g a)) l.
Proof.
  induction l as [|a l IH]; [done|]. cbn [map]. by rewrite !lsum_cons, IH.
Qed.

Lemma lsum_ext {A} (f g : A -> Z) l :
  (forall a, a ∈ l -> f a = g a) -> lsum f l = lsum g l.
Proof.
  induction l as [|a l IH]; intros H; [done|]. rewrite !lsum_cons.
  rewrite (H a), IH; [done| |]; set_solver.
Qed.

Lemma lsum_nonneg {A} (f : A -> Z) l : (forall a, a ∈ l -> 0 <= f a) -> 0 <= lsum f l.
Proof.
  induction l as [|a l IH]; intros H; [done|]. rewrite lsum_cons.
  assert (0 <= f a) by (apply H; set_solver).
  assert (0 <= lsum f l) by (apply IH; set_solver). lia.
Qed.

Lemma lsum_eq64 {A} (f g : A -> Z) l :
  (forall a, a ∈ l -> f a ==64 g a) -> lsum f l ==64 lsum g l.
Proof.
  induction l as [|a l IH]; intros H; [done|]. rewrite !lsum_cons.
  rewrite (H a), IH; [done| |]; set_solver.
Qed.

Lemma lsum_add {A} (f g : A -> Z) l : lsum (fun a => f a + g a) l = lsum f l + lsum g l.
Proof. induction l as [|a l IH]; [done|]. rewrite !lsum_cons, IH. lia. Qed.

Lemma lsum_le {A} (f g : A -> Z) l :
  (forall a, a ∈ l -> f a <= g a) -> lsum f l <= lsum g l.
Proof.
  induction l as [|a l IH]; intros H; [done|]. rewrite !lsum_cons.
  assert (f a <= g a) by (apply H; set_solver).
  assert (lsum f l <= lsum g l) by (apply IH; set_solver). lia.
Qed.

Lemma lsum_one {A} (l : list A) : lsum (fun _ => 1) l = zlen l.
Proof. unfold zlen. induction l as [|a l IH]; [done|]. rewrite lsum_cons, IH. cbn [length]. lia. Qed.

Lemma lsum_take_drop {A} (f : A -> Z) n l :
  lsum f (take n l) + lsum f (drop n l) = lsum f l.
Proof. by rewrite <- lsum_app, take_drop. Qed.

Lemma filter_all {A} (P : A -> Prop) `{forall x, Decision (P x)} (l : list A) :
  Forall P l -> filter P l = l.
Proof. induction 1; [done|]. by rewrite filter_cons_True, IHForall. Qed.

Section msum.
Context {K A : Type} `{Countable K}.
Implicit Types (m : gmap K A) (f g : K -> A -> Z).

Lemma msum_empty f : msum f ∅ = 0.
Proof. apply map_fold_empty. Qed.

Lemma msum_insert_None f m k a :
  m !! k = None -> msum f (<[k:=a]> m) = f k a + msum f m.
Proof.
  intros Hk. unfold msum. rewrite map_fold_insert_L; [done| |done]. lia.
Qed.

Lemma msum_delete f m k a :
  m !! k = Some a -> msum f m = f k a + msum f (delete k m).
Proof.
  intros Hk. rewrite <- (insert_delete_id m k a Hk) at 1.
  apply msum_insert_None, lookup_delete_eq.
Qed.

Lemma msum_insert_Some f m k a b :
  m !! k = Some a -> msum f (<[k:=b]> m) = msum f m - f k a + f k b.
Proof.
  intros Hk. rewrite (msum_delete f m k a Hk).
  rewrite <- insert_delete_eq, msum_insert_None by apply lookup_delete_eq. lia.
Qed.

Lemma msum_list f m : msum f m = lsum (fun p => f (fst p) (snd p)) (map_to_list m).
Proof.
  induction m as [|k a m Hk IH] using map_ind.
  - by rewrite msum_empty, map_to_list_empty.
  - rewrite msum_insert_None by done.
    rewrite (lsum_perm _ _ _ (map_to_list_insert m k a Hk)), lsum_cons. cbn. lia.
Qed.

Lemma msum_one m : msum (fun _ _ => 1) m = zsize m.
Proof. rewrite msum_list, lsum_one. unfold zlen, zsize. by rewrite length_map_to_list. Qed.

Lemma msum_ext f g m :
  (forall k a, m !! k = Some a -> f k a = g k a) -> msum f m = msum g m.
Proof.
  intros E. rewrite !msum_list. apply lsum_ext.
  intros [k a] Hin. apply elem_of_map_to_list in Hin. by apply E.
Qed.

Lemma msum_nonneg f m :
  (forall k a, m !! k = Some a -> 0 <= f k a) -> 0 <= msum f m.
Proof.
  intros E. rewrite msum_list. apply lsum_nonneg.
  intros [k a] Hin. apply elem_of_map_to_list in Hin. by apply E.
Qed.

Lemma msum_eq64 f g m :
  (forall k a, m !! k = Some a -> f k a ==64 g k a) -> msum f m ==64 msum g m.
Proof.
  intros E. rewrite !msum_list. apply lsum_eq64.
  intros [k a] Hin. apply elem_of_map_to_list in Hin. by apply E.
Qed.

Lemma msum_elem_le f m k a :
  (forall k a, m !! k = Some a -> 0 <= f k a) -> m !! k = Some a -> f k a <= msum f m.
Proof.
  intros Hf Hk. rewrite (msum_delete f m k a Hk).
  assert (0 <= msum f (delete k m)); [|lia]. apply msum_nonneg.
  intros k' b Hb. apply lookup_delete_Some in Hb as [_ Hb]. by apply Hf.
Qed.

Lemma msum_zero f m : (forall k a, m !! k = Some a -> f k a = 0) -> msum f m = 0.
Proof.
  intros E. rewrite (msum_ext f (fun _ _ => 0) m E), msum_list.
  induction (map_to_list m) as [|p l IH]; [done|]. by rewrite lsum_cons, IH.
Qed.

(** A sum that only one key contributes to. *)
Lemma msum_single (f : A -> Z) m s :
  msum (fun k a => if decide (k = s) then f a else 0) m
  = match m !! s with Some a => f a | None => 0 end.
Proof.
  destruct (m !! s) as [a|] eqn:E.
  - rewrite (msum_delete _ m s a E), decide_True by done.
    rewrite msum_zero; [lia|]. intros k b Hk. rewrite decide_False; [done|].
    intros ->. by rewrite lookup_delete_eq in Hk.
  - apply msum_zero. intros k b Hk. rewrite decide_False; [done|]. congruence.
Qed.

Lemma zsize_empty : zsize (∅ : gmap K A) = 0.
Proof. unfold zsize. by rewrite map_size_empty. Qed.

Lemma zsize_insert_None m k a : m !! k = None -> zsize (<[k:=a]> m) = zsize m + 1.
Proof. intros Hk. unfold zsize. rewrite map_size_insert_None by done. lia. Qed.

Lemma zsize_insert_Some m k a b : m !! k = Some a -> zsize (<[k:=b]> m) = zsize m.
Proof. intros Hk. unfold zsize. by rewrite map_size_insert_Some by eauto. Qed.

Lemma zsize_delete m k a : m !! k = Some a -> zsize (delete k m) = zsize m - 1.
Proof.
  intros Hk. unfold zsize. rewrite map_size_delete_Some by eauto.
  assert (size m <> 0%nat) by (apply (map_size_ne_0_lookup_2 m k); eauto). lia.
Qed.

Lemma zsize_nonneg m : 0 <= zsize m.
Proof. unfold zsize. lia. Qed.
End msum.

#[export] Hint Resolve zsize_nonneg : flow.
