(* ===== verification/Netip.v ===== *)
(** * Go's [net/netip], [strconv] and [encoding/binary], as the flow lane uses them

    The standard-library operations the flow packages call on addresses, prefixes
    and numbers.  An address is invalid, a 32-bit IPv4 address or a 128-bit IPv6
    address with a zone; everything is executable, so that the state-table rows
    the API serves as text can be run through the model. *)

From stdpp Require Import base decidable list gmap strings pretty numbers.
From Stdlib Require Import ZArith Lia Ascii.
From S2P Require Import Prelude.

(** ** Big-endian integers *)

(** Value of a byte string read big-endian, without a width limit. *)
Definition be_val (l : list Z) : Z := fold_left (fun v x => v * 256 + x) l 0.

(** The [n] low bytes of [v], most significant first. *)
Fixpoint be_bytes (n : nat) (v : Z) : list Z :=
  match n with
  | O => []
  | S n => be_bytes n (v / 256) ++ [v mod 256]
  end.

(** [b[i:j]] of a byte slice. *)
Definition slice (i j : nat) (b : list Z) : list Z := take (j - i) (drop i b).

(** [binary.BigEndian.Uint16(b[off:])] and [Uint32], on slices long enough. *)
Definition Uint16 (off : nat) (b : list Z) : Z := be_val (slice off (off + 2) b).
Definition Uint32 (off : nat) (b : list Z) : Z := be_val (slice off (off + 4) b).

(** ** Addresses *)

Inductive Addr : Type :=
| AddrInvalid
| Addr4 (v : Z)
| Addr6 (v : Z) (zone : string).

#[export] Instance Addr_eq_dec : EqDecision Addr.
Proof. solve_decision. Defined.

#[export] Instance Addr_countable : Countable Addr.
Proof.
  refine (inj_countable'
    (fun a => match a with
              | AddrInvalid => inl tt
              | Addr4 v => inr (inl v)
              | Addr6 v z => inr (inr (v, z))
              end)
    (fun s => match s with
              | inl _ => AddrInvalid
              | inr (inl v) => Addr4 v
              | inr (inr (v, z)) => Addr6 v z
              end) _).
  by intros [].
Defined.

Definition addr_eqb (a b : Addr) : bool := bool_decide (a = b).

Definition IsValid (a : Addr) : bool :=
  match a with AddrInvalid => false | _ => true end.
Definition Is4 (a : Addr) : bool :=
  match a with Addr4 _ => true | _ => false end.
Definition Is4In6 (a : Addr) : bool :=
  match a with Addr6 v _ => v / 2 ^ 32 =? 65535 | _ => false end.

(** [Unmap] removes the IPv4-mapped prefix, and the zone with it. *)
Definition Unmap (a : Addr) : Addr :=
  match a with
  | Addr6 v _ => if Is4In6 a then Addr4 (v mod 2 ^ 32) else a
  | _ => a
  end.

Definition BitLen (a : Addr) : Z :=
  match a with AddrInvalid => 0 | Addr4 _ => 32 | Addr6 _ _ => 128 end.

(** The 128-bit [addr] word: IPv4 addresses are kept in their mapped form. *)
Definition addr_bits (a : Addr) : Z :=
  match a with
  | AddrInvalid => 0
  | Addr4 v => 65535 * 2 ^ 32 + v
  | Addr6 v _ => v
  end.

Definition addr_zone (a : Addr) : string :=
  match a with Addr6 _ z => z | _ => "" end.

(** [Addr.Compare]: by bit length, then by value, then (IPv6) by zone. *)
Definition addr_compare (a b : Addr) : comparison :=
  match BitLen a ?= BitLen b with
  | Eq => match addr_bits a ?= addr_bits b with
          | Eq => String.compare (addr_zone a) (addr_zone b)
          | c => c
          end
  | c => c
  end.

Definition As16 (a : Addr) : list Z := be_bytes 16 (addr_bits a).
Definition As4 (a : Addr) : list Z := be_bytes 4 (addr_bits a mod 2 ^ 32).

(** [netip.AddrFromSlice]. *)
Definition AddrFromSlice (b : list Z) : option Addr :=
  match length b with
  | 4%nat => Some (Addr4 (be_val b))
  | 16%nat => Some (Addr6 (be_val b) "")
  | _ => None
  end.

Definition IsUnspecified (a : Addr) : bool :=
  addr_eqb a (Addr4 0) || addr_eqb a (Addr6 0 "").

(** The class predicates; each looks through an IPv4-mapped address first. *)
Definition IsMulticast (a : Addr) : bool :=
  match Unmap a with
  | Addr4 v => v / 2 ^ 28 =? 14
  | Addr6 v _ => v / 2 ^ 120 =? 255
  | AddrInvalid => false
  end.

Definition IsLinkLocalUnicast (a : Addr) : bool :=
  match Unmap a with
  | Addr4 v => v / 2 ^ 16 =? 169 * 256 + 254
  | Addr6 v _ => Z.land (v / 2 ^ 112) 65472 =? 65152
  | AddrInvalid => false
  end.

Definition IsLinkLocalMulticast (a : Addr) : bool :=
  match Unmap a with
  | Addr4 v => v / 2 ^ 8 =? 224 * 65536
  | Addr6 v _ => Z.land (v / 2 ^ 112) 65295 =? 65282
  | AddrInvalid => false
  end.

Definition IsPrivate (a : Addr) : bool :=
  match Unmap a with
  | Addr4 v => (v / 2 ^ 24 =? 10) || (v / 2 ^ 20 =? 172 * 16 + 1)
               || (v / 2 ^ 16 =? 192 * 256 + 168)
  | Addr6 v _ => Z.land (v / 2 ^ 120) 254 =? 252
  | AddrInvalid => false
  end.

(** ** Prefixes *)

Record Prefix := mkPrefix { pfx_ip : Addr; pfx_bits : Z }.

Definition prefix_IsValid (p : Prefix) : bool :=
  IsValid (pfx_ip p) && str_empty (addr_zone (pfx_ip p))
  && (0 <=? pfx_bits p) && (pfx_bits p <=? BitLen (pfx_ip p)).

(** Keep the [bits] leading bits of a [w]-bit value. *)
Definition mask_bits (w bits v : Z) : Z := Z.shiftl (Z.shiftr v (w - bits)) (w - bits).

Definition Masked (p : Prefix) : Prefix :=
  match pfx_ip p with
  | Addr4 v => mkPrefix (Addr4 (mask_bits 32 (pfx_bits p) v)) (pfx_bits p)
  | Addr6 v _ => mkPrefix (Addr6 (mask_bits 128 (pfx_bits p) v) "") (pfx_bits p)
  | AddrInvalid => p
  end.

(** [Prefix.Contains]: same family, no zone, equal leading bits. *)
Definition Contains (p : Prefix) (a : Addr) : bool :=
  prefix_IsValid p && str_empty (addr_zone a) &&
  match pfx_ip p, a with
  | Addr4 x, Addr4 v => Z.shiftr (Z.lxor x v) (32 - pfx_bits p) =? 0
  | Addr6 x _, Addr6 v _ => Z.shiftr (Z.lxor x v) (128 - pfx_bits p) =? 0
  | _, _ => false
  end.

(** ** Printing *)

(** [strconv.Itoa] on a non-negative number. *)
Definition Itoa (z : Z) : string := pretty (Z.to_N z).

Definition hex_digit (z : Z) : ascii :=
  if z <? 10 then ascii_of_N (Z.to_N (48 + z)) else ascii_of_N (Z.to_N (87 + z)).

(** Lower-case hexadecimal of a 16-bit value, without leading zeros. *)
Definition hex16 (z : Z) : string :=
  let d i := hex_digit (Z.shiftr z (4 * i) mod 16) in
  if z <? 16 then String (d 0) ""
  else if z <? 256 then String (d 1) (String (d 0) "")
  else if z <? 4096 then String (d 2) (String (d 1) (String (d 0) ""))
  else String (d 3) (String (d 2) (String (d 1) (String (d 0) ""))).

Definition group6 (v : Z) (i : nat) : Z := (v / 2 ^ (112 - 16 * Z.of_nat i)) mod 2 ^ 16.

(** End of the run of zero groups starting at [i]. *)
Fixpoint zero_run (v : Z) (fuel i : nat) : nat :=
  match fuel with
  | O => i
  | S fuel => if group6 v i =? 0 then zero_run v fuel (S i) else i
  end.

(** The longest run of at least two zero groups, the leftmost of equals. *)
Definition zero_range (v : Z) : nat * nat :=
  fold_left (fun '(s, e) i =>
    let j := zero_run v (8 - i) i in
    if (2 <=? j - i)%nat && (e - s <? j - i)%nat then (i, j) else (s, e))
    (seq 0 8) (255, 255)%nat.

Fixpoint groups6 (v : Z) (zs ze : nat) (fuel i : nat) : string :=
  match fuel with
  | O => ""
  | S fuel =>
      if (i <? 8)%nat then
        if (i =? zs)%nat then
          if (8 <=? ze)%nat then "::"
          else "::" +:+ hex16 (group6 v ze) +:+ groups6 v zs ze fuel (S ze)
        else (if (0 <? i)%nat then ":" else "") +:+ hex16 (group6 v i)
             +:+ groups6 v zs ze fuel (S i)
      else ""
  end.

Definition string4 (v : Z) : string :=
  Itoa (v / 2 ^ 24 mod 256) +:+ "." +:+ Itoa (v / 2 ^ 16 mod 256) +:+ "."
  +:+ Itoa (v / 2 ^ 8 mod 256) +:+ "." +:+ Itoa (v mod 256).

Definition zone_suffix (z : string) : string := if str_empty z then "" else "%" +:+ z.

(** [Addr.String]. *)
Definition addr_String (a : Addr) : string :=
  match a with
  | AddrInvalid => "invalid IP"
  | Addr4 v => string4 v
  | Addr6 v z =>
      if Is4In6 a then "::ffff:" +:+ string4 (v mod 2 ^ 32) +:+ zone_suffix z
      else let '(zs, ze) := zero_range v in groups6 v zs ze 8 0 +:+ zone_suffix z
  end.

(** ** Parsing *)

Definition digit_of (c : ascii) : option Z :=
  let n := Z.of_N (N_of_ascii c) in
  if (48 <=? n) && (n <=? 57) then Some (n - 48) else None.

Definition hex_of (c : ascii) : option Z :=
  let n := Z.of_N (N_of_ascii c) in
  if (48 <=? n) && (n <=? 57) then Some (n - 48)
  else if (97 <=? n) && (n <=? 102) then Some (n - 87)
  else if (65 <=? n) && (n <=? 70) then Some (n - 55)
  else None.

(** [strconv.ParseUint(s, 10, 16)]: [None] stands for the error. *)
Fixpoint parse_digits (limit acc : Z) (s : string) : option Z :=
  match s with
  | EmptyString => Some acc
  | String c s =>
      match digit_of c with
      | Some d => let v := acc * 10 + d in
                  if v <=? limit then parse_digits limit v s else None
      | None => None
      end
  end.

Definition ParseUint16 (s : string) : option Z :=
  match s with EmptyString => None | _ => parse_digits 65535 0 s end.

(** [parseIPv4Fields]: [fields] are the octets completed so far, [val] and
    [digs] the value and length of the one being read, [dot] whether the last
    character was a dot. *)
Fixpoint parse4 (s : string) (fields : list Z) (val : Z) (digs : nat) : option (list Z) :=
  match s with
  | EmptyString =>
      if (length fields =? 3)%nat && (0 <? digs)%nat then Some (fields ++ [val]) else None
  | String c s =>
      match digit_of c with
      | Some d =>
          if (digs =? 1)%nat && (val =? 0) then None
          else let v := val * 10 + d in
               if v <=? 255 then parse4 s fields v (S digs) else None
      | None =>
          if Ascii.eqb c "." then
            if (digs =? 0)%nat || (length fields =? 3)%nat then None
            else parse4 s (fields ++ [val]) 0 0
          else None
      end
  end.

Definition parseIPv4 (s : string) : option Addr :=
  match parse4 s [] 0 0 with
  | Some fs => Some (Addr4 (be_val fs))
  | None => None
  end.

(** One hexadecimal group: its value, its number of digits and the rest. *)
Fixpoint parse_group (s : string) (acc : Z) (n : nat) : option (Z * nat * string) :=
  match s with
  | EmptyString => Some (acc, n, s)
  | String c s' =>
      match hex_of c with
      | Some d => if (3 <? n)%nat then None
                  else parse_group s' (acc * 16 + d) (S n)
      | None => Some (acc, n, s)
      end
  end.

(** The body of [parseIPv6] after the zone and a leading [::] are removed:
    [gs] are the 16-bit groups read so far, [ell] the group index of the
    ellipsis. *)
Fixpoint parse6_loop (fuel : nat) (s : string) (gs : list Z) (ell : option nat)
  : option (list Z * option nat) :=
  match fuel with
  | O => match s with EmptyString => Some (gs, ell) | _ => None end
  | S fuel =>
      match parse_group s 0 0 with
      | None => None
      | Some (acc, n, rest) =>
          if (n =? 0)%nat then None
          else match rest with
          | String "." _ =>
              if (match ell with None => negb (length gs =? 6)%nat | Some _ => false end)
                 || (6 <? length gs)%nat then None
              else match parse4 s [] 0 0 with
                   | Some fs => Some (gs ++ [be_val (take 2 fs); be_val (drop 2 fs)], ell)
                   | None => None
                   end
          | EmptyString => Some (gs ++ [acc], ell)
          | String ":" EmptyString => None
          | String ":" (String ":" rest') =>
              match ell with
              | Some _ => None
              | None =>
                  let gs := gs ++ [acc] in
                  match rest' with
                  | EmptyString => Some (gs, Some (length gs))
                  | _ => parse6_loop fuel rest' gs (Some (length gs))
                  end
              end
          | String ":" rest' => parse6_loop fuel rest' (gs ++ [acc]) ell
          | _ => None
          end
      end
  end.

Definition val16 (gs : list Z) : Z := fold_left (fun v x => v * 65536 + x) gs 0.

Definition parse6_finish (zone : string) (r : list Z * option nat) : option Addr :=
  let '(gs, ell) := r in
  if (length gs <? 8)%nat then
    match ell with
    | None => None
    | Some e => Some (Addr6 (val16 (take e gs ++ replicate (8 - length gs) 0 ++ drop e gs)) zone)
    end
  else match ell with
       | Some _ => None
       | None => Some (Addr6 (val16 gs) zone)
       end.

(** Split at the first occurrence of a character. *)
Fixpoint cut (c : ascii) (s : string) : string * option string :=
  match s with
  | EmptyString => ("", None)
  | String x s => if Ascii.eqb x c then ("", Some s)
                  else let '(a, b) := cut c s in (String x a, b)
  end.

Definition parseIPv6 (s : string) : option Addr :=
  let '(body, z) := cut "%" s in
  match z with
  | Some EmptyString => None
  | _ =>
      let zone := default "" z in
      match body with
      | String ":" (String ":" rest) =>
          match rest with
          | EmptyString => Some (Addr6 0 zone)
          | _ => parse6_loop 8 rest [] (Some 0%nat) ≫= parse6_finish zone
          end
      | _ => parse6_loop 8 body [] None ≫= parse6_finish zone
      end
  end.

(** [netip.ParseAddr]: the first of [.], [:] and [%] decides the family. *)
Fixpoint parse_kind (s : string) : option ascii :=
  match s with
  | EmptyString => None
  | String c s => if Ascii.eqb c "." || Ascii.eqb c ":" || Ascii.eqb c "%"
                  then Some c else parse_kind s
  end.

Definition ParseAddr (s : string) : option Addr :=
  match parse_kind s with
  | Some "."%char => parseIPv4 s
  | Some ":"%char => parseIPv6 s
  | _ => None
  end.

(** ** Examples *)

Example parse_v4 : ParseAddr "192.0.2.5" = Some (Addr4 3221225989).
Proof. vm_compute. reflexivity. Qed.
Example parse_v4_zero : ParseAddr "192.0.02.5" = None.
Proof. vm_compute. reflexivity. Qed.
Example parse_v6 : ParseAddr "2001:db8::1" = Some (Addr6 42540766411282592856903984951653826561 "").
Proof. vm_compute. reflexivity. Qed.
Example parse_v6_zone : ParseAddr "fe80::1%em0" = Some (Addr6 (65152 * 2 ^ 112 + 1) "em0").
Proof. vm_compute. reflexivity. Qed.
Example print_v6 : addr_String (Addr6 42540766411282592856903984951653826561 "") = "2001:db8::1".
Proof. vm_compute. reflexivity. Qed.
Example print_v6_edges :
  addr_String (Addr6 0 "") = "::" /\ addr_String (Addr6 1 "") = "::1"
  /\ addr_String (Addr6 (2 ^ 112) "") = "1::"
  /\ addr_String (Addr6 (65535 * 2 ^ 32 + 1) "") = "::ffff:0.0.0.1".
Proof. vm_compute. repeat split. Qed.
Example parse_mapped :
  option_map Unmap (ParseAddr "::ffff:192.0.2.5") = ParseAddr "192.0.2.5".
Proof. vm_compute. reflexivity. Qed.
Example parse_uint : ParseUint16 "65535" = Some 65535 /\ ParseUint16 "65536" = None
  /\ ParseUint16 "" = None /\ ParseUint16 "007" = Some 7.
Proof. vm_compute. repeat split. Qed.

(** ** Lemmas on big-endian integers *)

Definition byte_list (l : list Z) : Prop := Forall is_u8 l.

Lemma be_val_snoc l x : be_val (l ++ [x]) = be_val l * 256 + x.
Proof. unfold be_val. by rewrite fold_left_app. Qed.

Lemma length_be_bytes n v : length (be_bytes n v) = n.
Proof.
  revert v. induction n as [|n IH]; intros v; [done|].
  cbn. rewrite length_app, IH. cbn. lia.
Qed.

Lemma be_bytes_byte n v : byte_list (be_bytes n v).
Proof.
  revert v. induction n as [|n IH]; intros v; cbn; [constructor|].
  apply Forall_app. split; [apply IH|]. repeat constructor.
  - apply Z.mod_pos_bound. lia.
  - apply Z.mod_pos_bound. lia.
Qed.

Lemma be_val_bytes n v : be_val (be_bytes n v) = v mod 256 ^ Z.of_nat n.
Proof.
  revert v. induction n as [|n IH]; intros v.
  - cbn. by rewrite Z.mod_1_r.
  - cbn [be_bytes]. rewrite be_val_snoc, IH, Nat2Z.inj_succ, Z.pow_succ_r by lia.
    rewrite (Z.rem_mul_r v 256); [lia|lia|apply Z.pow_pos_nonneg; lia].
Qed.

Lemma be_val_range l : byte_list l -> 0 <= be_val l < 256 ^ zlen l.
Proof.
  unfold zlen. induction l as [|x l IH] using rev_ind; intros H; [done|].
  apply Forall_app in H as [Hl Hx]. apply Forall_cons_1 in Hx as [Hx _].
  rewrite be_val_snoc, length_app. cbn [length].
  rewrite Nat2Z.inj_add, Z.pow_add_r by lia. specialize (IH Hl).
  change (256 ^ Z.of_nat 1) with 256. unfold is_u8 in Hx.
  lia.
Qed.

Lemma be_val_fold_mod n l v0 :
  0 < n -> fold_left (fun v x => (v * 256 + x) mod n) l (v0 mod n)
           = (fold_left (fun v x => v * 256 + x) l v0) mod n.
Proof.
  intros Hn. revert v0. induction l as [|x l IH]; intros v0; [done|].
  cbn. rewrite <- IH. f_equal.
  rewrite <- Zplus_mod_idemp_l, Zmult_mod_idemp_l, Zplus_mod_idemp_l. done.
Qed.

Lemma slice_length i j (b : list Z) :
  (i <= j <= length b)%nat -> length (slice i j b) = (j - i)%nat.
Proof. intros H. unfold slice. rewrite length_take, length_drop. lia. Qed.

Lemma slice_bytes i j b : byte_list b -> byte_list (slice i j b).
Proof. intros H. unfold slice. by apply Forall_take, Forall_drop. Qed.

Lemma be_val_le l n : byte_list l -> (length l <= n)%nat -> 0 <= be_val l < 256 ^ Z.of_nat n.
Proof.
  intros Hl Hn. pose proof (be_val_range l Hl) as [H0 H1]. split; [done|].
  eapply Z.lt_le_trans; [exact H1|]. apply Z.pow_le_mono_r; unfold zlen; lia.
Qed.

Lemma length_slice_le i j (b : list Z) : (length (slice i j b) <= j - i)%nat.
Proof. unfold slice. rewrite length_take. lia. Qed.

Lemma Uint16_range off b : byte_list b -> is_u16 (Uint16 off b).
Proof.
  intros H. unfold Uint16, is_u16. change (2 ^ 16) with (256 ^ Z.of_nat 2).
  apply be_val_le; [by apply slice_bytes|]. pose proof (length_slice_le off (off + 2) b). lia.
Qed.

Lemma Uint32_range off b : byte_list b -> is_u32 (Uint32 off b).
Proof.
  intros H. unfold Uint32, is_u32. change (2 ^ 32) with (256 ^ Z.of_nat 4).
  apply be_val_le; [by apply slice_bytes|]. pose proof (length_slice_le off (off + 4) b). lia.
Qed.

#[export] Hint Resolve slice_bytes Uint16_range Uint32_range : flow.

(** ** Lemmas on addresses *)

(** Well-formed values: those [netip] can construct. *)
Definition addr_wf (a : Addr) : Prop :=
  match a with
  | AddrInvalid => True
  | Addr4 v => is_u32 v
  | Addr6 v _ => 0 <= v < 2 ^ 128
  end.

Lemma Unmap_idemp a : Unmap (Unmap a) = Unmap a.
Proof. destruct a as [|v|v z]; cbn; [done..|]. destruct (v / _ =? _) eqn:E; cbn; by rewrite ?E. Qed.

Lemma Unmap_IsValid a : IsValid (Unmap a) = IsValid a.
Proof. destruct a as [|v|v z]; cbn; [done..|]. by destruct (v / _ =? _). Qed.

Lemma Unmap_wf a : addr_wf a -> addr_wf (Unmap a).
Proof.
  destruct a as [|v|v z]; cbn; [done..|]. intros H.
  destruct (v / _ =? _); cbn; [|done]. apply Z.mod_pos_bound. lia.
Qed.

Lemma AddrFromSlice_wf b a : byte_list b -> AddrFromSlice b = Some a -> addr_wf a.
Proof.
  intros Hb H. unfold AddrFromSlice in H.
  pose proof (be_val_range b Hb) as R. unfold zlen in R.
  repeat case_match; simplify_eq; cbn; exact R.
Qed.

Lemma str_compare_refl s : String.compare s s = Eq.
Proof. pose proof (String.compare_antisym s s) as H. by destruct (String.compare s s). Qed.

Lemma addr_compare_eq a b : addr_compare a b = Eq <-> a = b.
Proof.
  split; [|intros ->; unfold addr_compare; rewrite !Z.compare_refl; apply str_compare_refl].
  unfold addr_compare. intros H.
  destruct (BitLen a ?= BitLen b) eqn:E1; try discriminate.
  destruct (addr_bits a ?= addr_bits b) eqn:E2; try discriminate.
  apply Z.compare_eq in E1, E2. apply String.compare_eq_iff in H.
  destruct a, b; cbn in *; try lia; [done|f_equal; lia|congruence].
Qed.

Lemma addr_compare_antisym a b : addr_compare b a = CompOpp (addr_compare a b).
Proof.
  unfold addr_compare. rewrite (Z.compare_antisym (BitLen a)), (Z.compare_antisym (addr_bits a)).
  rewrite (String.compare_antisym (addr_zone b)).
  by destruct (BitLen a ?= BitLen b), (addr_bits a ?= addr_bits b).
Qed.

Lemma addr_eqb_eq a b : addr_eqb a b = true <-> a = b.
Proof. apply bool_decide_eq_true. Qed.

(** ** Printing and parsing IPv4 are inverse *)

(** The digits of one octet, read on their own. *)
Fixpoint scan_octet (s : string) (val : Z) (digs : nat) : option (Z * nat) :=
  match s with
  | EmptyString => Some (val, digs)
  | String c s =>
      match digit_of c with
      | Some d => if (digs =? 1)%nat && (val =? 0) then None
                  else if val * 10 + d <=? 255 then scan_octet s (val * 10 + d) (S digs) else None
      | None => None
      end
  end.

Lemma parse4_scan s rest fields v d v' d' :
  scan_octet s v d = Some (v', d') ->
  parse4 (s +:+ rest) fields v d = parse4 rest fields v' d'.
Proof.
  revert v d. induction s as [|c s IH]; intros v d H; [by simplify_eq/=|].
  change (String c s +:+ rest) with (String c (s +:+ rest)). cbn [parse4 scan_octet] in *.
  destruct (digit_of c) as [x|]; [|done].
  destruct (_ && _); [done|]. destruct (_ <=? 255); [by apply IH|done].
Qed.

Definition octet_ok (n : Z) : bool :=
  match scan_octet (Itoa n) 0 0 with
  | Some (v, d) => (v =? n) && (0 <? d)%nat
  | None => false
  end.

Lemma octets_ok : forallb octet_ok (seqZ 0 256) = true.
Proof. vm_compute. reflexivity. Qed.

(** Reading the decimal form of an octet, at any point of the address. *)
Lemma parse4_octet n rest fields :
  0 <= n < 256 ->
  exists digs, (0 < digs)%nat /\
    parse4 (Itoa n +:+ rest) fields 0 0 = parse4 rest fields n digs.
Proof.
  intros Hn. pose proof octets_ok as H. rewrite forallb_forall in H.
  specialize (H n). rewrite <- list_elem_of_In, elem_of_seqZ in H.
  specialize (H ltac:(lia)). unfold octet_ok in H.
  destruct (scan_octet _ _ _) as [[v d]|] eqn:E; [|done].
  bool_prop. subst v. exists d. split; [by apply Nat.ltb_lt|]. by apply parse4_scan.
Qed.

Lemma parse4_dot s fields n digs :
  (0 < digs)%nat -> (length fields < 3)%nat ->
  parse4 ("." +:+ s) fields n digs = parse4 s (fields ++ [n]) 0 0.
Proof.
  intros Hd Hf. change ("." +:+ s) with (String "." s). cbn.
  destruct (Nat.eqb_spec digs 0); [lia|].
  destruct (Nat.eqb_spec (length fields) 3); [lia|done].
Qed.

Lemma str_app_nil_r s : s +:+ "" = s.
Proof. induction s as [|c s IH]; [done|]. change (String c (s +:+ "") = String c s). by rewrite IH. Qed.

Lemma octets_of_u32 v :
  is_u32 v ->
  be_val [v / 2 ^ 24 mod 256; v / 2 ^ 16 mod 256; v / 2 ^ 8 mod 256; v mod 256] = v.
Proof.
  unfold is_u32, be_val. cbn [fold_left]. intros H.
  change (2 ^ 24) with 16777216. change (2 ^ 16) with 65536.
  change (2 ^ 8) with 256. change (2 ^ 32) with 4294967296 in H.
  Z.to_euclidean_division_equations. lia.
Qed.

Lemma parse4_string4 v : is_u32 v -> parseIPv4 (string4 v) = Some (Addr4 v).
Proof.
  intros Hv. unfold parseIPv4, string4.
  assert (forall z, 0 <= z mod 256 < 256) as B by (intros; apply Z.mod_pos_bound; lia).
  destruct (parse4_octet _ ("." +:+ Itoa (v / 2 ^ 16 mod 256) +:+ "." +:+
    Itoa (v / 2 ^ 8 mod 256) +:+ "." +:+ Itoa (v mod 256)) [] (B (v / 2 ^ 24))) as (d1 & H1 & ->).
  rewrite parse4_dot by (cbn; lia). cbn [app].
  destruct (parse4_octet _ ("." +:+ Itoa (v / 2 ^ 8 mod 256) +:+ "." +:+ Itoa (v mod 256))
    [v / 2 ^ 24 mod 256] (B (v / 2 ^ 16))) as (d2 & H2 & ->).
  rewrite parse4_dot by (cbn; lia). cbn [app].
  destruct (parse4_octet _ ("." +:+ Itoa (v mod 256))
    [v / 2 ^ 24 mod 256; v / 2 ^ 16 mod 256] (B (v / 2 ^ 8))) as (d3 & H3 & ->).
  rewrite parse4_dot by (cbn; lia). cbn [app].
  destruct (parse4_octet _ "" [v / 2 ^ 24 mod 256; v / 2 ^ 16 mod 256; v / 2 ^ 8 mod 256] (B v))
    as (d4 & H4 & E4).
  rewrite str_app_nil_r in E4. rewrite E4. cbn [parse4 length].
  destruct (Nat.ltb_spec 0 d4); [|lia]. cbn [andb Nat.eqb app].
  by rewrite octets_of_u32.
Qed.

Lemma parse_kind_digit c s x : digit_of c = Some x -> parse_kind (String c s) = parse_kind s.
Proof.
  intros H. cbn.
  destruct (Ascii.eqb_spec c "."), (Ascii.eqb_spec c ":"), (Ascii.eqb_spec c "%"); by subst.
Qed.

Lemma parse_kind_scan s rest v d r :
  scan_octet s v d = Some r -> parse_kind (s +:+ rest) = parse_kind rest.
Proof.
  revert v d. induction s as [|c s IH]; intros v d H; [done|].
  change (String c s +:+ rest) with (String c (s +:+ rest)). cbn [scan_octet] in H.
  destruct (digit_of c) as [x|] eqn:Hc; [|done].
  rewrite (parse_kind_digit c _ x Hc).
  destruct (_ && _); [done|]. destruct (_ <=? 255); [by eapply IH|done].
Qed.

Lemma parse_kind_octet n rest : 0 <= n < 256 -> parse_kind (Itoa n +:+ rest) = parse_kind rest.
Proof.
  intros Hn. pose proof octets_ok as H. rewrite forallb_forall in H.
  specialize (H n). rewrite <- list_elem_of_In, elem_of_seqZ in H.
  specialize (H ltac:(lia)). unfold octet_ok in H.
  destruct (scan_octet _ _ _) as [r|] eqn:E; [|done]. by eapply parse_kind_scan.
Qed.

(** The textual round trip the scope lookups make loses nothing on IPv4. *)
Lemma ParseAddr_String4 v : is_u32 v -> ParseAddr (addr_String (Addr4 v)) = Some (Addr4 v).
Proof.
  intros Hv. unfold ParseAddr. cbn [addr_String].
  assert (parse_kind (string4 v) = Some "."%char) as ->; [|by apply parse4_string4].
  unfold string4. by rewrite parse_kind_octet by (apply Z.mod_pos_bound; lia).
Qed.
