(* ===== verification/Order.v ===== *)
(** * Strict orders and sorting

    Go's [sort.Slice] sorts by a strict "less" predicate.  Every call site in the
    flow lane passes a total order (it breaks ties on the key), so the result does
    not depend on the algorithm: [sort_by] is the stable merge sort of stdpp and
    [sort_by_unique] is the reason why any other correct sort agrees with it. *)

From stdpp Require Import base decidable list sets strings sorting.
From Stdlib Require Import ZArith Lia Ascii.
From S2P Require Import Prelude.

(** ** Interfaces *)

(** What a comparator must satisfy for sorting to be well defined. *)
Class WeakOrder {A : Type} (lt : A -> A -> bool) : Prop := {
  lt_asym a b : lt a b = true -> lt b a = false;
  lt_negtrans a b c : lt a b = false -> lt b c = false -> lt a c = false }.

(** A comparator that in addition separates distinct elements. *)
Class StrictTotal {A : Type} (lt : A -> A -> bool) : Prop := {
  st_irrefl a : lt a a = false;
  st_trans a b c : lt a b = true -> lt b c = true -> lt a c = true;
  st_total a b : lt a b = false -> lt b a = false -> a = b }.

(** [b] need not come before [a]. *)
Definition not_after {A : Type} (lt : A -> A -> bool) (a b : A) : Prop := lt b a = false.
#[export] Instance not_after_dec {A : Type} (lt : A -> A -> bool) a b : Decision (not_after lt a b).
Proof. unfold not_after. apply _. Defined.

Definition sort_by {A : Type} (lt : A -> A -> bool) (l : list A) : list A :=
  merge_sort (not_after lt) l.

(** Lexicographic comparison, as [lessKey] does over the label values. *)
Fixpoint lex_lt {A : Type} `{EqDecision A} (lt : A -> A -> bool) (a b : list A) : bool :=
  match a, b with
  | x :: a, y :: b => if decide (x = y) then lex_lt lt a b else lt x y
  | _, _ => false
  end.

(** ** Facts *)

#[export] Instance StrictTotal_WeakOrder {A} (lt : A -> A -> bool) `{!StrictTotal lt} : WeakOrder lt.
Proof.
  split.
  - intros a b H. destruct (lt b a) eqn:E; [|done].
    pose proof (st_trans a b a H E) as X. by rewrite st_irrefl in X.
  - intros a b c Hab Hbc. destruct (lt a c) eqn:E; [|done].
    destruct (lt c b) eqn:Ecb.
    + pose proof (st_trans a c b E Ecb). congruence.
    + rewrite (st_total b c Hbc Ecb) in Hab. congruence.
Qed.

Section sort.
Context {A : Type} (lt : A -> A -> bool).

Lemma sort_by_perm l : sort_by lt l ≡ₚ l.
Proof. apply merge_sort_Permutation. Qed.

Lemma sort_by_length l : length (sort_by lt l) = length l.
Proof. by rewrite sort_by_perm. Qed.

Lemma sort_by_sorted `{!WeakOrder lt} l :
  StronglySorted (not_after lt) (sort_by lt l).
Proof.
  apply StronglySorted_merge_sort.
  - intros a b c H1 H2. by apply (lt_negtrans c b a).
  - intros a b. destruct (lt b a) eqn:E; [right; by apply lt_asym|by left].
Qed.

(** Any sorted permutation of [l] whose elements the comparator separates is
    the one [sort_by] returns. *)
Lemma sort_by_unique `{!WeakOrder lt} l k :
  (forall a b, a ∈ l -> b ∈ l -> lt a b = false -> lt b a = false -> a = b) ->
  k ≡ₚ l -> StronglySorted (not_after lt) k -> k = sort_by lt l.
Proof.
  intros Hsep Hp Hs. eapply StronglySorted_unique_strong; [|exact Hs|apply sort_by_sorted|].
  - intros x y Hx Hy H1 H2. apply Hsep; [by rewrite <- Hp|by rewrite <- (sort_by_perm l)|done..].
  - by rewrite sort_by_perm.
Qed.
End sort.

(** Sorting commutes with a map the comparator does not see. *)
Lemma StronglySorted_map {A B} (f : A -> B) (R : A -> A -> Prop) (S : B -> B -> Prop) l :
  (forall a b, a ∈ l -> b ∈ l -> R a b -> S (f a) (f b)) ->
  StronglySorted R l -> StronglySorted S (map f l).
Proof.
  intros Hf Hs. induction Hs as [|a l Hs IH Ha]; cbn; constructor.
  - apply IH. intros x y Hx Hy. apply Hf; by right.
  - apply Forall_forall. intros y Hy. apply list_elem_of_In, in_map_iff in Hy as (x & <- & Hx).
    apply list_elem_of_In in Hx. rewrite Forall_forall in Ha.
    apply Hf; [by left|by right|by apply Ha].
Qed.

Lemma StronglySorted_split {A} (R : A -> A -> Prop) n l a b :
  StronglySorted R l -> a ∈ take n l -> b ∈ drop n l -> R a b.
Proof.
  intros Hs. revert n. induction Hs as [|x l Hs IH Hx]; intros n Ha Hb.
  - rewrite take_nil in Ha. set_solver.
  - destruct n as [|n]; [set_solver|]. cbn in *.
    apply elem_of_cons in Ha as [->|Ha]; [|by eapply IH].
    rewrite Forall_forall in Hx. apply Hx.
    rewrite <- (take_drop n l). set_solver.
Qed.

(** ** Strings *)

Lemma ascii_compare_lt_trans a b c :
  Ascii.compare a b = Lt -> Ascii.compare b c = Lt -> Ascii.compare a c = Lt.
Proof. unfold Ascii.compare. rewrite !N.compare_lt_iff. lia. Qed.

Lemma ascii_compare_refl a : Ascii.compare a a = Eq.
Proof. apply N.compare_refl. Qed.

Lemma str_compare_lt_trans a b c :
  String.compare a b = Lt -> String.compare b c = Lt -> String.compare a c = Lt.
Proof.
  revert b c. induction a as [|x a IH]; intros [|y b] [|z c]; cbn; try done.
  destruct (Ascii.compare x y) eqn:Exy; [|intros _|done];
    destruct (Ascii.compare y z) eqn:Eyz; try done.
  - apply Ascii.compare_eq_iff in Exy, Eyz. subst. rewrite ascii_compare_refl. apply IH.
  - apply Ascii.compare_eq_iff in Exy. subst. by rewrite Eyz.
  - apply Ascii.compare_eq_iff in Eyz. subst. by rewrite Exy.
  - by rewrite (ascii_compare_lt_trans x y z).
Qed.

#[export] Instance str_lt_total : StrictTotal str_lt.
Proof.
  split; unfold str_lt, String.ltb.
  - intros a. pose proof (String.compare_antisym a a) as H. by destruct (String.compare a a).
  - intros a b c H1 H2.
    destruct (String.compare a b) eqn:E1; try done.
    destruct (String.compare b c) eqn:E2; try done.
    by rewrite (str_compare_lt_trans a b c).
  - intros a b H1 H2. rewrite String.compare_antisym in H2.
    destruct (String.compare a b) eqn:E; try done. by apply String.compare_eq_iff.
Qed.

(** ** Lexicographic order *)

Section lex.
Context {A : Type} `{EqDecision A} (lt : A -> A -> bool) `{!StrictTotal lt}.

Lemma lex_irrefl a : lex_lt lt a a = false.
Proof. induction a as [|x a IH]; cbn; [done|]. by rewrite decide_True. Qed.

Lemma lex_trans a b c : lex_lt lt a b = true -> lex_lt lt b c = true -> lex_lt lt a c = true.
Proof.
  revert b c. induction a as [|x a IH]; intros [|y b] [|z c]; cbn; try done.
  intros H1 H2. repeat case_decide; simplify_eq; eauto using st_trans.
  exfalso. pose proof (st_trans _ _ _ H1 H2) as H3. by rewrite st_irrefl in H3.
Qed.

Lemma lex_total a b :
  length a = length b -> lex_lt lt a b = false -> lex_lt lt b a = false -> a = b.
Proof.
  revert b. induction a as [|x a IH]; intros [|y b]; cbn; try done. intros [= Hl].
  destruct (decide (x = y)) as [->|Hxy].
  - rewrite decide_True by done. intros. f_equal. by apply IH.
  - rewrite decide_False by done. intros. exfalso. apply Hxy. by apply (st_total x y).
Qed.
End lex.
