(* ===== verification/Record.v ===== *)
(** * The normalized flow record ([internal/flow/record.go])

    The record both lanes produce and every consumer reads, with the projections
    that decide its metric labels ([rollup.go], [processor.go]) and the canonical
    tuple that is its identity across sources. *)

From stdpp Require Import base decidable list gmap strings.
From Stdlib Require Import ZArith Lia.
From S2P Require Import Prelude Netip.

(** ** Enumerations *)

Inductive Source := SourceUnknown | SourceNetflow | SourceZenarmor | SourceMerged.
Inductive Direction := DirectionUnknown | DirectionInbound | DirectionOutbound | DirectionInternal.
Inductive Verdict := VerdictUnknown | VerdictPass | VerdictBlock.

#[export] Instance Source_eq_dec : EqDecision Source.
Proof. solve_decision. Defined.
#[export] Instance Direction_eq_dec : EqDecision Direction.
Proof. solve_decision. Defined.
#[export] Instance Verdict_eq_dec : EqDecision Verdict.
Proof. solve_decision. Defined.

Definition source_eqb (a b : Source) : bool := bool_decide (a = b).
Definition direction_eqb (a b : Direction) : bool := bool_decide (a = b).

Definition Source_String (s : Source) : string :=
  match s with
  | SourceNetflow => "netflow"
  | SourceZenarmor => "zenarmor"
  | SourceMerged => "merged"
  | SourceUnknown => "unknown"
  end.

Definition Direction_String (d : Direction) : string :=
  match d with
  | DirectionInbound => "inbound"
  | DirectionOutbound => "outbound"
  | DirectionInternal => "internal"
  | DirectionUnknown => "unknown"
  end.

Definition Verdict_String (v : Verdict) : string :=
  match v with
  | VerdictPass => "pass"
  | VerdictBlock => "block"
  | VerdictUnknown => ""
  end.

(** ** Parts of a record *)

Record Counters := mkCounters {
  TxBytes : Z; RxBytes : Z; TxPackets : Z; RxPackets : Z; Present : bool }.
#[export] Instance eta_Counters : Eta Counters :=
  fun c => mkCounters (TxBytes c) (RxBytes c) (TxPackets c) (RxPackets c) (Present c).
Definition zeroCounters : Counters := mkCounters 0 0 0 0 false.

Definition Counters_Bytes (c : Counters) : Z := add64 (TxBytes c) (RxBytes c).
Definition Counters_Packets (c : Counters) : Z := add64 (TxPackets c) (RxPackets c).

Record Iface := mkIface {
  Device : string; Name : string; Index : Z; Corrected : bool; Unresolved : bool }.
#[export] Instance eta_Iface : Eta Iface :=
  fun i => mkIface (Device i) (Name i) (Index i) (Corrected i) (Unresolved i).
#[export] Instance Iface_eq_dec : EqDecision Iface.
Proof. solve_decision. Defined.
Definition zeroIface : Iface := mkIface "" "" 0 false false.

Definition UnresolvedInterfaceLabel : string := "unresolved".

Definition Iface_Label (i : Iface) : string :=
  if negb (str_empty (Name i)) then Name i
  else if Unresolved i && negb (str_empty (Device i)) then UnresolvedInterfaceLabel
  else Device i.

Record L7 := mkL7 {
  AppName : string; AppProto : string; AppCategory : string; DomainCat : string;
  Encryption : string }.
#[export] Instance L7_eq_dec : EqDecision L7.
Proof. solve_decision. Defined.
Definition zeroL7 : L7 := mkL7 "" "" "" "" "".

Record Enrichment := mkEnrichment {
  SrcHostname : string; DstHostname : string; SrcScope : string; DstScope : string;
  DstService : string; DstDomain : string }.
#[export] Instance eta_Enrichment : Eta Enrichment :=
  fun e => mkEnrichment (SrcHostname e) (DstHostname e) (SrcScope e) (DstScope e)
             (DstService e) (DstDomain e).
#[export] Instance Enrichment_eq_dec : EqDecision Enrichment.
Proof. solve_decision. Defined.
Definition zeroEnrichment : Enrichment := mkEnrichment "" "" "" "" "" "".

Record Repairs := mkRepairs {
  PayloadByteFallback : bool; VLANSubnetAttributed : bool; PolicyRouteCorrected : bool;
  ZenBytesArePayload : bool; WindowPartial : bool }.
#[export] Instance eta_Repairs : Eta Repairs :=
  fun r => mkRepairs (PayloadByteFallback r) (VLANSubnetAttributed r) (PolicyRouteCorrected r)
             (ZenBytesArePayload r) (WindowPartial r).
Definition zeroRepairs : Repairs := mkRepairs false false false false false.

(** [Repairs.merge]: the union of the markers. *)
Definition Repairs_merge (r o : Repairs) : Repairs :=
  mkRepairs (PayloadByteFallback r || PayloadByteFallback o)
            (VLANSubnetAttributed r || VLANSubnetAttributed o)
            (PolicyRouteCorrected r || PolicyRouteCorrected o)
            (ZenBytesArePayload r || ZenBytesArePayload o)
            (WindowPartial r || WindowPartial o).

(** [GeoEndpoint] and [GeoInfo] of [geo.go]. *)
Record GeoEndpoint := mkGeoEndpoint {
  Country : string; Continent : string; City : string; Region : string;
  ASN : Z; ASOrg : string; CountrySource : string; CitySource : string;
  ZenCountry : string; ZenContinent : string; ZenCity : string; ZenRegion : string }.
#[export] Instance eta_GeoEndpoint : Eta GeoEndpoint :=
  fun g => mkGeoEndpoint (Country g) (Continent g) (City g) (Region g) (ASN g) (ASOrg g)
             (CountrySource g) (CitySource g) (ZenCountry g) (ZenContinent g) (ZenCity g)
             (ZenRegion g).
#[export] Instance GeoEndpoint_eq_dec : EqDecision GeoEndpoint.
Proof. solve_decision. Defined.
Definition zeroGeoEndpoint : GeoEndpoint := mkGeoEndpoint "" "" "" "" 0 "" "" "" "" "" "" "".

Record GeoInfo := mkGeoInfo { GeoSrc : GeoEndpoint; GeoDst : GeoEndpoint }.
#[export] Instance eta_GeoInfo : Eta GeoInfo := fun g => mkGeoInfo (GeoSrc g) (GeoDst g).
Definition zeroGeoInfo : GeoInfo := mkGeoInfo zeroGeoEndpoint zeroGeoEndpoint.

(** ** The record *)

Record Record_ := mkRecord {
  rSource : Source; Start : Time; End_ : Time; Observed : Time;
  Proto : Z; SrcAddr : Addr; DstAddr : Addr; SrcPort : Z; DstPort : Z;
  CommunityIDOf : string;
  NF : Counters; Zen : Counters; Fragments : Z;
  TCPFlags : Z; DSCP : Z; ECN : Z; SrcMask : Z; DstMask : Z;
  In : Iface; Out : Iface; rDirection : Direction; VLANID : string;
  rVerdict : Verdict; rL7 : L7; Enrich : Enrichment; rRepairs : Repairs; Geo : GeoInfo }.
#[export] Instance eta_Record : Eta Record_ := fun r =>
  mkRecord (rSource r) (Start r) (End_ r) (Observed r) (Proto r) (SrcAddr r) (DstAddr r)
    (SrcPort r) (DstPort r) (CommunityIDOf r) (NF r) (Zen r) (Fragments r) (TCPFlags r)
    (DSCP r) (ECN r) (SrcMask r) (DstMask r) (In r) (Out r) (rDirection r) (VLANID r)
    (rVerdict r) (rL7 r) (Enrich r) (rRepairs r) (Geo r).

Definition zeroRecord : Record_ :=
  mkRecord SourceUnknown zero_time zero_time zero_time 0 AddrInvalid AddrInvalid 0 0 ""
    zeroCounters zeroCounters 0 0 0 0 0 0 zeroIface zeroIface DirectionUnknown "" VerdictUnknown
    zeroL7 zeroEnrichment zeroRepairs zeroGeoInfo.

(** ** Canonical identity *)

Record Tuple := mkTuple { tProto : Z; AAddr : Addr; BAddr : Addr; APort : Z; BPort : Z }.

Definition endpointLess (a : Addr) (ap : Z) (b : Addr) (bp : Z) : bool :=
  match addr_compare a b with
  | Eq => ap <? bp
  | Lt => true
  | Gt => false
  end.

Definition CanonicalTuple (r : Record_) : Tuple :=
  let a := Unmap (SrcAddr r) in let ap := SrcPort r in
  let b := Unmap (DstAddr r) in let bp := DstPort r in
  if endpointLess a ap b bp then mkTuple (Proto r) a b ap bp
  else mkTuple (Proto r) b a bp ap.

(** ** Labels and volume *)

(** [interfaceLabel] ([processor.go]): the WAN-facing side of the record. *)
Definition interfaceLabel (r : Record_) : string :=
  if direction_eqb (rDirection r) DirectionInbound then
    let lbl := Iface_Label (In r) in
    if negb (str_empty lbl) then lbl else Iface_Label (Out r)
  else
    let lbl := Iface_Label (Out r) in
    if negb (str_empty lbl) then lbl else Iface_Label (In r).

(** [volumeOf] ([rollup.go]): NetFlow's counters when present, never a sum. *)
Definition volumeOf (r : Record_) : Z * Z :=
  if Present (NF r) then (Counters_Bytes (NF r), Counters_Packets (NF r))
  else (Counters_Bytes (Zen r), Counters_Packets (Zen r)).

Definition transportName (p : Z) : string :=
  match p with
  | 1 => "icmp" | 6 => "tcp" | 17 => "udp" | 47 => "gre" | 50 => "esp"
  | 58 => "icmpv6" | 132 => "sctp" | _ => "other"
  end.

Definition protoName (p : Z) : string :=
  match p with 6 => "tcp" | 17 => "udp" | 132 => "sctp" | _ => "" end.

Definition vlanString (tag : Z) : string := if tag =? 0 then "" else Itoa tag.

Definition isLocalScope (s : string) : bool := str_eq s "local" || str_eq s "self".

(** ** Sinks

    [flow.Sink] is the one-method interface the receiver lanes hold.  A sink is a
    state type with its [Observe]. *)

Class Sink (S : Type) := Observe : S -> Record_ -> S.

(** [teeSink]: two sinks fed in order are a sink on the pair of their states. *)
#[export] Instance tee_sink {S T : Type} `{Sink S} `{Sink T} : Sink (S * T) :=
  fun '(s, t) r => (Observe s r, Observe t r).

(** Feeding a whole sequence. *)
Definition observe_all {S : Type} `{Sink S} (s : S) (rs : list Record_) : S :=
  fold_left Observe rs s.

(** ** Lemmas *)

Lemma endpointLess_antisym a ap b bp :
  (a, ap) <> (b, bp) -> endpointLess b bp a ap = negb (endpointLess a ap b bp).
Proof.
  intros Hne. unfold endpointLess. rewrite (addr_compare_antisym a b).
  destruct (addr_compare a b) eqn:E; cbn; [|done..].
  apply addr_compare_eq in E. subst b.
  destruct (Z.ltb_spec bp ap), (Z.ltb_spec ap bp); cbn; try done; [lia|].
  exfalso. apply Hne. f_equal. lia.
Qed.

Lemma endpointLess_irrefl a p : endpointLess a p a p = false.
Proof.
  unfold endpointLess. assert (addr_compare a a = Eq) as -> by by apply addr_compare_eq.
  apply Z.ltb_irrefl.
Qed.

(** The two halves of a conversation. *)
Definition mirrored (r o : Record_) : Prop :=
  Proto o = Proto r /\ Unmap (SrcAddr o) = Unmap (DstAddr r) /\ SrcPort o = DstPort r
  /\ Unmap (DstAddr o) = Unmap (SrcAddr r) /\ DstPort o = SrcPort r.

Lemma volumeOf_range r : is_u64 (fst (volumeOf r)) /\ is_u64 (snd (volumeOf r)).
Proof. unfold volumeOf. destruct (Present (NF r)); split; apply u64_range. Qed.

Lemma observe_all_tee {S T : Type} `{Sink S} `{Sink T} (s : S) (t : T) rs :
  observe_all (s, t) rs = (observe_all s rs, observe_all t rs).
Proof.
  unfold observe_all. revert s t. induction rs as [|r rs IH]; intros s t; [done|]. apply IH.
Qed.

Lemma observe_all_cons {S : Type} `{Sink S} (s : S) r rs :
  observe_all s (r :: rs) = observe_all (Observe s r) rs.
Proof. done. Qed.

Lemma observe_all_app {S : Type} `{Sink S} (s : S) rs rs' :
  observe_all s (rs ++ rs') = observe_all (observe_all s rs) rs'.
Proof. apply fold_left_app. Qed.

(** The two directional halves of one conversation have the same
    canonical tuple, whichever of them is seen, and whether an IPv4 address is
    written plainly or in its IPv6-mapped form. *)
Lemma CanonicalTuple_mirror r o : mirrored r o -> CanonicalTuple o = CanonicalTuple r.
Proof.
  intros (Hp & Hs & Hsp & Hd & Hdp). unfold CanonicalTuple.
  rewrite Hp, Hs, Hd, Hsp, Hdp.
  destruct (decide ((Unmap (SrcAddr r), SrcPort r) = (Unmap (DstAddr r), DstPort r))) as [E|E].
  - injection E as E1 E2. rewrite E1, E2. by rewrite endpointLess_irrefl.
  - rewrite (endpointLess_antisym _ _ _ _ E). by destruct (endpointLess _ _ _ _).
Qed.
