(* ===== verification/Geo.v ===== *)
(** * Geolocation of a record ([internal/flow/geo.go], [internal/geoip/geoip.go])

    The per-field precedence between our database and Zenarmor's answers, the
    country label of the metric family, and the fold of a Zenarmor record's geo
    onto a merged record.  The database itself (the MaxMind reader) is the
    parameter [lk] of an enricher: a function from addresses to a result. *)

From stdpp Require Import base decidable list strings.
From Stdlib Require Import ZArith Lia Ascii.
From S2P Require Import Prelude Netip Record.

(** ** [geoip.Result] and the address classifier *)

Record GeoResult := mkGeoResult {
  CountryISO : string; ContinentCode : string; resCity : string; RegionISO : string;
  resASN : Z; resASOrg : string }.
Definition zeroGeoResult : GeoResult := mkGeoResult "" "" "" "" 0 "".

Definition IsLoopback (a : Addr) : bool :=
  match Unmap a with
  | Addr4 v => v / 2 ^ 24 =? 127
  | Addr6 v _ => v =? 1
  | AddrInvalid => false
  end.

Definition IsInterfaceLocalMulticast (a : Addr) : bool :=
  match Unmap a with
  | Addr6 v _ => Z.land (v / 2 ^ 112) 65295 =? 65281
  | _ => false
  end.

Definition IsGloballyRoutable (addr : Addr) : bool :=
  let addr := Unmap addr in
  if negb (IsValid addr) then false
  else negb (IsLoopback addr) && negb (IsUnspecified addr) && negb (IsPrivate addr)
       && negb (IsLinkLocalUnicast addr) && negb (IsLinkLocalMulticast addr)
       && negb (IsInterfaceLocalMulticast addr) && negb (IsMulticast addr).

(** ** Text normalisation

    [strings.ToUpper (strings.TrimSpace s)] on ASCII text, which is what a
    two-letter code is; bytes above 0x7f are left as they are. *)

Definition is_space (c : ascii) : bool :=
  let n := N_of_ascii c in ((9 <=? n) && (n <=? 13) || (n =? 32))%N.

Fixpoint trim_left (s : string) : string :=
  match s with
  | String c s' => if is_space c then trim_left s' else s
  | EmptyString => s
  end.

Fixpoint trim_right (s : string) : string :=
  match s with
  | EmptyString => ""
  | String c s' =>
      let t := trim_right s' in
      if str_empty t && is_space c then "" else String c t
  end.

Definition upper_char (c : ascii) : ascii :=
  let n := N_of_ascii c in
  if ((97 <=? n) && (n <=? 122))%N then ascii_of_N (n - 32) else c.

Fixpoint ToUpper (s : string) : string :=
  match s with
  | EmptyString => ""
  | String c s => String (upper_char c) (ToUpper s)
  end.

Definition TrimSpace (s : string) : string := trim_right (trim_left s).

(** ** The enricher *)

Definition GeoSourceMaxMind : string := "maxmind".
Definition GeoSourceZenarmor : string := "zenarmor".

Record GeoEnricher := mkGeoEnricher {
  lk : option (Addr -> GeoResult * bool);
  metricDims : bool;
  enriched : Z; agreements : Z; disagreements : Z; mergeMismatches : Z }.
#[export] Instance eta_GeoEnricher : Eta GeoEnricher := fun e =>
  mkGeoEnricher (lk e) (metricDims e) (enriched e) (agreements e) (disagreements e)
    (mergeMismatches e).

Definition NewGeoEnricher (l : option (Addr -> GeoResult * bool)) (dims : bool) : GeoEnricher :=
  mkGeoEnricher l dims 0 0 0 0.

(** The resolution of one end: the country and continent arms, the city arm and
    the AS arm of [endpoint], in order. *)
Definition resolve_country (res : GeoResult) (private : bool) (g : GeoEndpoint) : GeoEndpoint :=
  if negb (str_empty (CountryISO res)) then
    g <| Country := CountryISO res |> <| CountrySource := GeoSourceMaxMind |>
  else if negb (str_empty (ZenCountry g)) && negb private then
    g <| Country := ZenCountry g |> <| CountrySource := GeoSourceZenarmor |>
  else g.

Definition resolve_continent (res : GeoResult) (private : bool) (g : GeoEndpoint) : GeoEndpoint :=
  if negb (str_empty (ContinentCode res)) then g <| Continent := ContinentCode res |>
  else if negb (str_empty (ZenContinent g)) && negb private then
    g <| Continent := ZenContinent g |>
  else g.

Definition resolve_city (res : GeoResult) (private : bool) (g : GeoEndpoint) : GeoEndpoint :=
  if negb (str_empty (resCity res)) || negb (str_empty (RegionISO res)) then
    g <| City := resCity res |> <| Region := RegionISO res |> <| CitySource := GeoSourceMaxMind |>
  else if (negb (str_empty (ZenCity g)) || negb (str_empty (ZenRegion g))) && negb private then
    g <| City := ZenCity g |> <| Region := ZenRegion g |> <| CitySource := GeoSourceZenarmor |>
  else g.

(** [GeoEnricher.endpoint]: the resolved endpoint, the enricher with its
    agreement counters, and whether our database answered. *)
Definition endpoint (lookup : Addr -> GeoResult * bool) (e : GeoEnricher)
    (g : GeoEndpoint) (addr : Addr) : GeoEndpoint * GeoEnricher * bool :=
  let g := g <| ZenCountry ::= fun s => ToUpper (TrimSpace s) |>
             <| ZenContinent ::= fun s => ToUpper (TrimSpace s) |> in
  let '(res, hit) := if IsValid addr then lookup addr else (zeroGeoResult, false) in
  let private := negb (IsGloballyRoutable addr) in
  let g := resolve_country res private g in
  let g := resolve_continent res private g in
  let g := resolve_city res private g in
  let g := g <| ASN := resASN res |> <| ASOrg := resASOrg res |> in
  let e := if negb (str_empty (CountryISO res)) && negb (str_empty (ZenCountry g)) then
             if str_eq (CountryISO res) (ZenCountry g)
             then e <| agreements ::= fun n => add64 n 1 |>
             else e <| disagreements ::= fun n => add64 n 1 |>
           else e in
  (g, e, hit).

(** [GeoEnricher.Enrich] on the process-wide enricher ([None] is the nil one). *)
Definition Geo_Enrich (oe : option GeoEnricher) (r : Record_) : Record_ * option GeoEnricher :=
  match oe with
  | None => (r, None)
  | Some e =>
      match lk e with
      | None => (r, Some e)
      | Some lookup =>
          let '(gs, e, srcHit) := endpoint lookup e (GeoSrc (Geo r)) (SrcAddr r) in
          let '(gd, e, dstHit) := endpoint lookup e (GeoDst (Geo r)) (DstAddr r) in
          let e := if srcHit || dstHit then e <| enriched ::= fun n => add64 n 1 |> else e in
          (r <| Geo := mkGeoInfo gs gd |>, Some e)
      end
  end.

(** [GeoEnricher.MetricCountry]. *)
Definition MetricCountry (oe : option GeoEnricher) (r : Record_) : string :=
  match oe with
  | None => ""
  | Some e =>
      if negb (metricDims e) then ""
      else if str_eq (DstScope (Enrich r)) "remote" then Country (GeoDst (Geo r))
      else if str_eq (SrcScope (Enrich r)) "remote" then Country (GeoSrc (Geo r))
      else if str_empty (SrcScope (Enrich r)) && str_empty (DstScope (Enrich r)) then
        if negb (str_empty (Country (GeoDst (Geo r)))) then Country (GeoDst (Geo r))
        else Country (GeoSrc (Geo r))
      else ""
  end.

(** ** Folding a Zenarmor record's geo onto a merged record *)

Definition sameEndpointAddr (a b : Addr) : bool :=
  if negb (IsValid a) || negb (IsValid b) then false
  else addr_eqb (Unmap a) (Unmap b).

Definition mergeGeoEndpoint (dst zen : GeoEndpoint) : GeoEndpoint :=
  let dst := dst <| ZenCountry := ZenCountry zen |> <| ZenContinent := ZenContinent zen |>
                 <| ZenCity := ZenCity zen |> <| ZenRegion := ZenRegion zen |> in
  let dst := if negb (str_eq (CountrySource dst) GeoSourceMaxMind) && negb (str_empty (Country zen))
             then dst <| Country := Country zen |> <| CountrySource := CountrySource zen |>
             else dst in
  let dst := if str_empty (Continent dst) then dst <| Continent := Continent zen |> else dst in
  if negb (str_eq (CitySource dst) GeoSourceMaxMind) && negb (str_empty (City zen))
  then dst <| City := City zen |> <| Region := Region zen |> <| CitySource := CitySource zen |>
  else dst.

(** [MergeGeo]; the flag says that the mismatch counter is to be advanced. *)
Definition MergeGeo (dst zen : Record_) : Record_ * bool :=
  if sameEndpointAddr (SrcAddr zen) (SrcAddr dst) && sameEndpointAddr (DstAddr zen) (DstAddr dst) then
    (dst <| Geo := mkGeoInfo (mergeGeoEndpoint (GeoSrc (Geo dst)) (GeoSrc (Geo zen)))
                             (mergeGeoEndpoint (GeoDst (Geo dst)) (GeoDst (Geo zen))) |>, false)
  else if sameEndpointAddr (SrcAddr zen) (DstAddr dst) && sameEndpointAddr (DstAddr zen) (SrcAddr dst) then
    (dst <| Geo := mkGeoInfo (mergeGeoEndpoint (GeoSrc (Geo dst)) (GeoDst (Geo zen)))
                             (mergeGeoEndpoint (GeoDst (Geo dst)) (GeoSrc (Geo zen))) |>, false)
  else (dst, true).

(** ** Lemmas *)

(** What [endpoint] leaves of a resolved field for an address that is not
    publicly routable and that our database does not answer for: nothing of
    Zenarmor's. *)
Definition resolved_fields (g : GeoEndpoint) : list string :=
  [Country g; Continent g; City g; Region g; CountrySource g; CitySource g].

Lemma resolve_private res g :
  resolved_fields (resolve_city res true (resolve_continent res true (resolve_country res true g)))
  = [if str_empty (CountryISO res) then Country g else CountryISO res;
     if str_empty (ContinentCode res) then Continent g else ContinentCode res;
     if str_empty (resCity res) && str_empty (RegionISO res) then City g else resCity res;
     if str_empty (resCity res) && str_empty (RegionISO res) then Region g else RegionISO res;
     if str_empty (CountryISO res) then CountrySource g else GeoSourceMaxMind;
     if str_empty (resCity res) && str_empty (RegionISO res) then CitySource g else GeoSourceMaxMind].
Proof.
  unfold resolve_city, resolve_continent, resolve_country, resolved_fields.
  rewrite !andb_false_r. cbn.
  by destruct (str_empty (CountryISO res)), (str_empty (ContinentCode res)),
    (str_empty (resCity res)), (str_empty (RegionISO res)).
Qed.
