(* ===== verification/Rollup.v ===== *)
(** * The bounded volume rollup ([internal/flow/rollup.go])

    A map of running totals per label set, bounded at insertion ([maxKeys]) and at
    emission ([topN]); everything outside the bounds is folded into one remainder
    per source.  The theorems state that the fold never loses or invents volume,
    that the remainders are monotone counters, and that both bounds hold. *)

From stdpp Require Import base decidable list gmap sets strings sorting.
From Stdlib Require Import ZArith Lia.
From S2P Require Import Prelude Order Netip Record Geo.

Module Rollup.

Definition OtherLabel : string := "__other__".

(** ** Keys and entries *)

Record RollupKey := mkKey {
  kInterface : string; kDirection : string; kTransport : string; kCategory : string;
  kAction : string; kSource : string; kScope : string; kCountry : string }.

#[export] Instance RollupKey_eq_dec : EqDecision RollupKey.
Proof. solve_decision. Defined.

(** [RollupKey.Values]: the label values, in label order. *)
Definition Values (k : RollupKey) : list string :=
  [kInterface k; kDirection k; kTransport k; kCategory k; kAction k; kSource k; kScope k;
   kCountry k].

Definition of_values (l : list string) : RollupKey :=
  match l with
  | [a; b; c; d; e; f; g; h] => mkKey a b c d e f g h
  | _ => mkKey "" "" "" "" "" "" "" ""
  end.

#[export] Instance RollupKey_countable : Countable RollupKey.
Proof. refine (inj_countable' Values of_values _). by intros []. Defined.

Definition lessKey (a b : RollupKey) : bool := lex_lt str_lt (Values a) (Values b).

Record RollupEntry := mkEntry { eKey : RollupKey; eBytes : Z; ePackets : Z; eFlows : Z }.
#[export] Instance eta_RollupEntry : Eta RollupEntry :=
  fun e => mkEntry (eKey e) (eBytes e) (ePackets e) (eFlows e).

(** [RollupEntry.add]. *)
Definition entry_add (e : RollupEntry) (b p f : Z) : RollupEntry :=
  mkEntry (eKey e) (add64 (eBytes e) b) (add64 (ePackets e) p) (add64 (eFlows e) f).

Record rollupCell := mkCell { cum : RollupEntry; folded : RollupEntry }.
#[export] Instance eta_rollupCell : Eta rollupCell := fun c => mkCell (cum c) (folded c).

Record Rollup := mkRollup {
  cells : gmap RollupKey rollupCell;
  other : gmap string RollupEntry;
  topN : Z; maxKeys : Z; capped : Z; foldedKeys : Z }.
#[export] Instance eta_Rollup : Eta Rollup := fun r =>
  mkRollup (cells r) (other r) (topN r) (maxKeys r) (capped r) (foldedKeys r).

Definition NewRollup (topN maxKeys : Z) : Rollup := mkRollup ∅ ∅ topN maxKeys 0 0.

Definition SetBounds (n m : Z) (r : Rollup) : Rollup := r <| topN := n |> <| maxKeys := m |>.

(** [otherKey]: every dimension collapsed to the sentinel except the source. *)
Definition otherKey (source : string) : RollupKey :=
  mkKey OtherLabel OtherLabel OtherLabel OtherLabel OtherLabel source OtherLabel OtherLabel.

Definition zeroEntry (k : RollupKey) : RollupEntry := mkEntry k 0 0 0.

(** [otherFor(source).add(b, p, f)]: the remainder is created on its first fold. *)
Definition otherFor (o : gmap string RollupEntry) (source : string) : RollupEntry :=
  default (zeroEntry (otherKey source)) (o !! source).

Definition other_add (source : string) (b p f : Z) (o : gmap string RollupEntry) :=
  <[source := entry_add (otherFor o source) b p f]> o.

Definition keyFor (geo : option GeoEnricher) (rec : Record_) : RollupKey :=
  mkKey (interfaceLabel rec) (Direction_String (rDirection rec)) (transportName (Proto rec))
    (AppCategory (rL7 rec)) (Verdict_String (rVerdict rec)) (Source_String (rSource rec))
    (DstScope (Enrich rec)) (MetricCountry geo rec).

(** ** Operations *)

(** [Rollup.Observe]. *)
Definition Rollup_Observe (geo : option GeoEnricher) (r : Rollup) (rec : Record_) : Rollup :=
  let k := keyFor geo rec in
  let '(b, p) := volumeOf rec in
  match cells r !! k with
  | Some c => r <| cells ::= <[k := c <| cum ::= fun e => entry_add e b p 1 |>]> |>
  | None =>
      if (0 <? maxKeys r) && (maxKeys r <=? zsize (cells r)) then
        r <| other ::= other_add (kSource k) b p 1 |> <| capped ::= fun n => add64 n 1 |>
      else
        let c := mkCell (zeroEntry k) (zeroEntry (mkKey "" "" "" "" "" "" "" "")) in
        r <| cells ::= <[k := c <| cum ::= fun e => entry_add e b p 1 |>]> |>
  end.

(** The ranking of [Snapshot]: descending by bytes, ties broken on the key. *)
Definition ranked_before (a b : RollupKey * rollupCell) : bool :=
  let ab := eBytes (cum (snd a)) in let bb := eBytes (cum (snd b)) in
  if negb (ab =? bb) then bb <? ab
  else lessKey (eKey (cum (snd a))) (eKey (cum (snd b))).

Definition ranked (m : gmap RollupKey rollupCell) : list (RollupKey * rollupCell) :=
  sort_by ranked_before (map_to_list m).

(** What a cell has not yet handed to the remainder. *)
Definition unfolded (c : rollupCell) : RollupEntry :=
  mkEntry (eKey (cum c)) (sub64 (eBytes (cum c)) (eBytes (folded c)))
    (sub64 (ePackets (cum c)) (ePackets (folded c)))
    (sub64 (eFlows (cum c)) (eFlows (folded c))).

Definition cut_of (topN : Z) (n : nat) : nat :=
  if (0 <? topN) && (topN <? Z.of_nat n) then Z.to_nat topN else n.

(** One iteration of the folding branch: the delta moves to the remainder and the
    watermark advances. *)
Definition fold_cell (r : Rollup) (kc : RollupKey * rollupCell) : Rollup :=
  let '(k, c) := kc in
  let d := unfolded c in
  r <| other ::= other_add (kSource (eKey (cum c))) (eBytes d) (ePackets d) (eFlows d) |>
    <| cells ::= <[k := c <| folded := cum c |>]> |>.

Definition by_source (a b : RollupEntry) : bool := str_lt (kSource (eKey a)) (kSource (eKey b)).

Definition remainders (o : gmap string RollupEntry) : list RollupEntry :=
  sort_by by_source (map snd (map_to_list o)).

(** [Rollup.Snapshot]: the emitted series, and the accumulator after it. *)
Definition Snapshot (r : Rollup) : list RollupEntry * Rollup :=
  let rk := ranked (cells r) in
  let cut := cut_of (topN r) (length rk) in
  let r := r <| foldedKeys := zlen rk - Z.of_nat cut |> in
  let out := map (fun kc => unfolded (snd kc)) (take cut rk) in
  let r := fold_left fold_cell (drop cut rk) r in
  (out ++ remainders (other r), r).

Record RollupStats := mkStats {
  Keys : Z; MaxKeys : Z; TopN : Z; FoldedKeys : Z; Capped : Z }.

(** [Rollup.Stats]. *)
Definition Stats (r : Rollup) : RollupStats :=
  mkStats (zsize (cells r)) (maxKeys r) (topN r) (foldedKeys r) (capped r).

(** ** Histories

    The operations any goroutine may perform, in the order the mutex admits them. *)

Inductive op :=
| OObserve (rec : Record_)
| OSnapshot
| OSetBounds (topN maxKeys : Z).

Definition step (geo : option GeoEnricher) (r : Rollup) (o : op) : Rollup :=
  match o with
  | OObserve rec => Rollup_Observe geo r rec
  | OSnapshot => snd (Snapshot r)
  | OSetBounds n m => SetBounds n m r
  end.

Definition run (geo : option GeoEnricher) (ops : list op) (r : Rollup) : Rollup :=
  fold_left (step geo) ops r.

Definition records (ops : list op) : list Record_ :=
  omap (fun o => match o with OObserve rec => Some rec | _ => None end) ops.

(** The three totals of an entry, and what one record contributes to each. *)
Inductive metric := MBytes | MPackets | MFlows.

Definition get (m : metric) (e : RollupEntry) : Z :=
  match m with MBytes => eBytes e | MPackets => ePackets e | MFlows => eFlows e end.

Definition vol (m : metric) (rec : Record_) : Z :=
  match m with MBytes => fst (volumeOf rec) | MPackets => snd (volumeOf rec) | MFlows => 1 end.

(** Totals of one source: over the emitted series, and over the observed records. *)
Definition out_total (m : metric) (s : string) (out : list RollupEntry) : Z :=
  lsum (fun e => if decide (kSource (eKey e) = s) then get m e else 0) out.

Definition observed_total (m : metric) (s : string) (recs : list Record_) : Z :=
  lsum (fun rec => if decide (Source_String (rSource rec) = s) then vol m rec else 0) recs.

(** ** Well-formedness *)

Record wf (r : Rollup) : Prop := {
  wf_cells k c : cells r !! k = Some c -> eKey (cum c) = k;
  wf_other s e : other r !! s = Some e -> eKey e = otherKey s }.

Definition cell_total (m : metric) (s : string) (r : Rollup) : Z :=
  msum (fun k c => if decide (kSource k = s) then get m (cum c) - get m (folded c) else 0) (cells r).

Definition other_total (m : metric) (s : string) (r : Rollup) : Z := get m (otherFor (other r) s).

Definition state_total (m : metric) (s : string) (r : Rollup) : Z :=
  cell_total m s r + other_total m s r.

Lemma get_zeroEntry m k : get m (zeroEntry k) = 0.
Proof. by destruct m. Qed.

Lemma get_add m e b p f :
  get m (entry_add e b p f)
  = add64 (get m e) (match m with MBytes => b | MPackets => p | MFlows => f end).
Proof. by destruct m. Qed.

Lemma get_unfolded m c : get m (unfolded c) = sub64 (get m (cum c)) (get m (folded c)).
Proof. by destruct m. Qed.

Lemma otherFor_add o s t b p f :
  otherFor (other_add s b p f o) t
  = if decide (s = t) then entry_add (otherFor o s) b p f else otherFor o t.
Proof.
  unfold otherFor at 1, other_add. rewrite lookup_insert. case_decide; [done|].
  unfold otherFor. done.
Qed.

Lemma other_total_add m s t b p f r r' :
  other r' = other_add s b p f (other r) ->
  other_total m t r' ==64
  other_total m t r + (if decide (s = t) then match m with MBytes => b | MPackets => p | MFlows => f end else 0).
Proof.
  intros E. unfold other_total. rewrite E, otherFor_add. case_decide as Hst; [subst t|].
  - rewrite get_add. apply add64_eq64.
  - by rewrite Z.add_0_r.
Qed.

Lemma wf_new n m : wf (NewRollup n m).
Proof. split; cbn; intros ? ?; by rewrite lookup_empty. Qed.

Lemma wf_other_add s b p f o :
  (forall t e, o !! t = Some e -> eKey e = otherKey t) ->
  forall t e, other_add s b p f o !! t = Some e -> eKey e = otherKey t.
Proof.
  intros H t e. unfold other_add. rewrite lookup_insert. case_decide as E; [subst t|by apply H].
  intros [= <-]. cbn. unfold otherFor. destruct (o !! s) eqn:Eo; cbn; [by apply H|done].
Qed.

Lemma wf_observe geo r rec : wf r -> wf (Rollup_Observe geo r rec).
Proof.
  intros W. unfold Rollup_Observe. destruct (volumeOf rec) as [b p].
  destruct (cells r !! _) as [c|] eqn:Ec; [|destruct (_ && _)]; split; cbn;
    try apply W; try (apply wf_other_add; apply W).
  - intros k c'. rewrite lookup_insert. case_decide as E; [|apply W].
    intros [= <-]. cbn. rewrite <- E. by apply W in Ec.
  - intros k c'. rewrite lookup_insert. case_decide as E; [|apply W]. by intros [= <-].
Qed.

Lemma wf_fold_cell r k c : wf r -> eKey (cum c) = k -> wf (fold_cell r (k, c)).
Proof.
  intros W E. split; cbn; [|apply wf_other_add, W].
  intros k' c'. rewrite lookup_insert. case_decide as E'; [|apply W]. intros [= <-]. cbn. congruence.
Qed.

(** ** Accounting *)

Definition pending (m : metric) (s : string) (kc : RollupKey * rollupCell) : Z :=
  if decide (kSource (fst kc) = s) then get m (cum (snd kc)) - get m (folded (snd kc)) else 0.

Lemma cell_total_list m s r : cell_total m s r = lsum (pending m s) (ranked (cells r)).
Proof.
  unfold cell_total, ranked. rewrite msum_list. apply lsum_perm. by rewrite sort_by_perm.
Qed.

Lemma cell_total_insert m s r r' k c c' :
  cells r !! k = Some c -> cells r' = <[k := c']> (cells r) ->
  cell_total m s r' = cell_total m s r - pending m s (k, c) + pending m s (k, c').
Proof. intros Hk E. unfold cell_total. rewrite E, (msum_insert_Some _ _ _ _ _ Hk). done. Qed.

Lemma cell_total_new m s r r' k c' :
  cells r !! k = None -> cells r' = <[k := c']> (cells r) ->
  cell_total m s r' = cell_total m s r + pending m s (k, c').
Proof.
  intros Hk E. unfold cell_total. rewrite E, (msum_insert_None _ _ _ _ Hk). unfold pending. cbn. lia.
Qed.

(** Rewrite with the lemmas above at the state in the goal. *)
Ltac rw_cells r Hk :=
  match goal with |- context [cell_total ?m ?s ?r'] =>
    rewrite (cell_total_insert m s r r' _ _ _ Hk eq_refl) end.
Ltac rw_new r Hk :=
  match goal with |- context [cell_total ?m ?s ?r'] =>
    rewrite (cell_total_new m s r r' _ _ Hk eq_refl) end.
Ltac rw_other r :=
  match goal with |- context [other_total ?m ?s ?r'] =>
    rewrite (other_total_add m _ s _ _ _ r r' eq_refl) end.

Lemma observe_total geo r rec m s :
  wf r ->
  state_total m s (Rollup_Observe geo r rec)
  ==64 state_total m s r + observed_total m s [rec].
Proof.
  intros W. unfold Rollup_Observe. destruct (volumeOf rec) as [b p] eqn:Ev.
  assert (observed_total m s [rec] = if decide (kSource (keyFor geo rec) = s)
    then match m with MBytes => b | MPackets => p | MFlows => 1 end else 0) as ->.
  { unfold observed_total. rewrite lsum_cons, lsum_nil, Z.add_0_r. cbn.
    case_decide; [|done]. destruct m; cbn; by rewrite ?Ev. }
  set (k := keyFor geo rec). unfold state_total.
  destruct (cells r !! k) as [c|] eqn:Ec; [|destruct (_ && _)].
  - rw_cells r Ec.
    change (other_total m s _) with (other_total m s r). unfold pending. cbn.
    case_decide; [|apply eq64_of_eq; lia]. rewrite get_add, add64_eq64. apply eq64_of_eq. lia.
  - rw_other r.
    change (cell_total m s _) with (cell_total m s r). apply eq64_of_eq. lia.
  - rw_new r Ec. change (other_total m s _) with (other_total m s r). unfold pending.
    cbn [fst snd cum folded update]. case_decide; [|apply eq64_of_eq; lia].
    rewrite get_add, !get_zeroEntry, add64_eq64. apply eq64_of_eq. lia.
Qed.

Lemma fold_cell_total r k c m s :
  wf r -> cells r !! k = Some c ->
  state_total m s (fold_cell r (k, c)) ==64 state_total m s r /\
  cell_total m s (fold_cell r (k, c)) = cell_total m s r - pending m s (k, c).
Proof.
  intros W Hk. assert (cell_total m s (fold_cell r (k, c)) = cell_total m s r - pending m s (k, c)) as E.
  { rw_cells r Hk.
    unfold pending. cbn. case_decide; lia. }
  split; [|done]. unfold state_total. rewrite E.
  rw_other r.
  rewrite (wf_cells r W k c Hk). unfold pending. cbn.
  case_decide; [|apply eq64_of_eq; lia].
  destruct m; cbn; rewrite sub64_eq64; apply eq64_of_eq; lia.
Qed.

(** Folding a list of distinct live cells. *)
Lemma fold_cells_total l r m s :
  wf r -> NoDup (map fst l) -> (forall k c, (k, c) ∈ l -> cells r !! k = Some c) ->
  let r' := fold_left fold_cell l r in
  wf r' /\ state_total m s r' ==64 state_total m s r /\
  cell_total m s r' = cell_total m s r - lsum (pending m s) l.
Proof.
  revert r. induction l as [|[k c] l IH]; intros r W Hnd Hl; cbn [fold_left].
  { rewrite lsum_nil. split_and!; [done|done|lia]. }
  apply NoDup_cons in Hnd as [Hk Hnd].
  assert (cells r !! k = Some c) as Hkc by (apply Hl; by left).
  destruct (IH (fold_cell r (k, c))) as (W' & T' & C').
  - apply wf_fold_cell; [done|]. by apply W.
  - done.
  - intros k' c' Hin. cbn. rewrite lookup_insert_ne; [apply Hl; by right|].
    intros ->. apply Hk. apply list_elem_of_fmap. by exists (k', c').
  - destruct (fold_cell_total r k c m s W Hkc) as [T C].
    split_and!; [done|by rewrite T'|]. rewrite C', C, lsum_cons. lia.
Qed.

Lemma ranked_keys_nodup (m : gmap RollupKey rollupCell) : NoDup (map fst (ranked m)).
Proof.
  assert (map fst (ranked m) ≡ₚ map fst (map_to_list m)) as ->.
  { by apply Permutation_map, sort_by_perm. }
  apply NoDup_fst_map_to_list.
Qed.

Lemma elem_of_ranked (m : gmap RollupKey rollupCell) k c : (k, c) ∈ ranked m <-> m !! k = Some c.
Proof. unfold ranked. by rewrite sort_by_perm, elem_of_map_to_list. Qed.

Lemma ranked_tail_ok (m : gmap RollupKey rollupCell) n :
  NoDup (map fst (drop n (ranked m))) /\
  forall k c, (k, c) ∈ drop n (ranked m) -> m !! k = Some c.
Proof.
  pose proof (ranked_keys_nodup m) as H. rewrite <- (take_drop n (ranked m)), map_app in H.
  apply NoDup_app in H as (_ & _ & H). split; [done|].
  intros k c Hin. apply elem_of_ranked. rewrite <- (take_drop n (ranked m)). set_solver.
Qed.

Lemma out_total_remainders m s r : wf r -> out_total m s (remainders (other r)) = other_total m s r.
Proof.
  intros W. unfold out_total, remainders. rewrite (lsum_perm _ _ _ (sort_by_perm _ _)).
  rewrite lsum_map.
  transitivity (msum (fun (_ : string) e => if decide (kSource (eKey e) = s) then get m e else 0)
    (other r)); [by rewrite msum_list|].
  rewrite (msum_ext _ (fun t e => if decide (t = s) then get m e else 0)).
  - rewrite msum_single. unfold other_total, otherFor. destruct (other r !! s); cbn; [done|].
    by rewrite get_zeroEntry.
  - intros t e Hte. by rewrite (wf_other r W t e Hte).
Qed.

(** A snapshot keeps the accumulator's total and emits exactly that total. *)
Lemma snapshot_total r m s :
  wf r -> wf (snd (Snapshot r)) /\
  state_total m s (snd (Snapshot r)) ==64 state_total m s r /\
  out_total m s (fst (Snapshot r)) ==64 state_total m s (snd (Snapshot r)).
Proof.
  intros W. unfold Snapshot.
  set (rk := ranked (cells r)). set (cut := cut_of (topN r) (length rk)).
  set (r1 := r <| foldedKeys := zlen rk - Z.of_nat cut |>).
  assert (wf r1) as W1 by (split; apply W).
  destruct (ranked_tail_ok (cells r) cut) as [Hnd Hin]. fold rk in Hnd, Hin.
  destruct (fold_cells_total (drop cut rk) r1 m s W1 Hnd Hin) as (W' & T & C).
  cbn [fst snd]. split_and!; [done|exact T|].
  unfold out_total. rewrite lsum_app.
  change (lsum _ (remainders ?o)) with (out_total m s (remainders o)).
  rewrite (out_total_remainders m s _ W'). unfold state_total. rewrite C.
  change (cell_total m s r1) with (cell_total m s r). rewrite cell_total_list. fold rk.
  rewrite <- (lsum_take_drop (pending m s) cut rk).
  replace (_ + lsum _ (drop cut rk) - _) with (lsum (pending m s) (take cut rk)) by lia.
  rewrite lsum_map. apply add_proper64; [|done]. apply lsum_eq64. intros [k c] Hkc.
  assert (cells r !! k = Some c) as Hk.
  { apply elem_of_ranked. rewrite <- (take_drop cut (ranked (cells r))). set_solver. }
  unfold pending. cbn. rewrite (wf_cells r W k c Hk). case_decide; [|done].
  rewrite get_unfolded. apply sub64_eq64.
Qed.

Lemma state_total_new n k m s : state_total m s (NewRollup n k) = 0.
Proof. unfold state_total, cell_total. cbn. rewrite msum_empty. by destruct m. Qed.

Lemma observed_total_app m s l k : observed_total m s (l ++ k) = observed_total m s l + observed_total m s k.
Proof. apply lsum_app. Qed.

Lemma records_cons o ops : records (o :: ops) = records [o] ++ records ops.
Proof. by destruct o. Qed.

Lemma run_total geo ops r m s :
  wf r -> wf (run geo ops r) /\
  state_total m s (run geo ops r) ==64 state_total m s r + observed_total m s (records ops).
Proof.
  revert r. induction ops as [|o ops IH]; intros r W.
  { split; [done|]. apply eq64_of_eq. cbn [run fold_left].
    change (observed_total m s (records [])) with 0. lia. }
  assert (wf (step geo r o) /\ state_total m s (step geo r o)
    ==64 state_total m s r + observed_total m s (records [o])) as [W1 T1].
  { destruct o as [rec| |n k]; cbn [step].
    - split; [by apply wf_observe|by apply observe_total].
    - destruct (snapshot_total r m s W) as (Ws & Ts & _). split; [done|].
      rewrite Ts. apply eq64_of_eq. change (observed_total m s (records [OSnapshot])) with 0. lia.
    - split; [split; apply W|]. apply eq64_of_eq.
      change (observed_total m s (records [OSetBounds n k])) with 0.
      change (state_total m s (SetBounds n k r)) with (state_total m s r). lia. }
  destruct (IH _ W1) as [W2 T2]. split; [done|].
  cbn [run fold_left]. rewrite records_cons, observed_total_app. fold (run geo ops (step geo r o)).
  rewrite T2, T1. apply eq64_of_eq. lia.
Qed.

(** [C37] Whatever the interleaving of observations, snapshots and
    bound changes, the series a snapshot emits sum, for every source and for each
    of bytes, packets and flows, to exactly what was observed (as wrapping uint64
    counters). *)
Theorem snapshot_exact geo ops n k m s :
  out_total m s (fst (Snapshot (run geo ops (NewRollup n k))))
  ==64 observed_total m s (records ops).
Proof.
  destruct (run_total geo ops (NewRollup n k) m s (wf_new n k)) as [W T].
  destruct (snapshot_total _ m s W) as (_ & Ts & To). rewrite To, Ts, T.
  by rewrite state_total_new.
Qed.

(** ** Monotone remainders

    As long as fewer than [2^64] bytes, packets and flows have been observed the
    wrap-around is out of reach and the books are exact in [Z]. *)

Record exact (m : metric) (N : Z) (r : Rollup) : Prop := {
  ex_cell k c : cells r !! k = Some c -> 0 <= get m (folded c) <= get m (cum c);
  ex_other s e : other r !! s = Some e -> 0 <= get m e;
  ex_cum : msum (fun _ c => get m (cum c)) (cells r) <= N;
  ex_tot : msum (fun _ c => get m (cum c) - get m (folded c)) (cells r)
           + msum (fun _ e => get m e) (other r) = N }.

Definition amount (m : metric) (b p f : Z) : Z :=
  match m with MBytes => b | MPackets => p | MFlows => f end.

Lemma other_nonneg m N r s : exact m N r -> 0 <= other_total m s r <= msum (fun _ e => get m e) (other r).
Proof.
  intros X. unfold other_total, otherFor. destruct (other r !! s) as [e|] eqn:E; cbn [default].
  - split; [by eapply ex_other|].
    apply (msum_elem_le (fun _ e => get m e) (other r) s e); [|done]. apply X.
  - rewrite get_zeroEntry. split; [done|]. apply msum_nonneg, X.
Qed.

Lemma cell_pending_le m N r k c :
  exact m N r -> cells r !! k = Some c ->
  get m (cum c) - get m (folded c)
  <= msum (fun _ c => get m (cum c) - get m (folded c)) (cells r).
Proof.
  intros X Hk. apply (msum_elem_le (fun _ c => get m (cum c) - get m (folded c)) (cells r) k c); [|done].
  intros k' c' Hc. pose proof (ex_cell m N r X k' c' Hc). lia.
Qed.

Lemma cell_cum_le m N r k c : exact m N r -> cells r !! k = Some c -> get m (cum c) <= N.
Proof.
  intros X Hk. etransitivity; [|apply X].
  apply (msum_elem_le (fun _ c => get m (cum c)) (cells r) k c); [|done].
  intros k' c' Hc. pose proof (ex_cell m N r X k' c' Hc). lia.
Qed.

(** Adding to a remainder, without wrap-around. *)
Lemma exact_other_add m N r s b p f :
  exact m N r -> 0 <= amount m b p f -> other_total m s r + amount m b p f < M64 ->
  let o := other_add s b p f (other r) in
  (forall t e, o !! t = Some e -> 0 <= get m e) /\
  msum (fun _ e => get m e) o = msum (fun _ e => get m e) (other r) + amount m b p f /\
  (forall t, get m (otherFor (other r) t) <= get m (otherFor o t)).
Proof.
  intros X Ha Hlt o.
  assert (get m (entry_add (otherFor (other r) s) b p f) = other_total m s r + amount m b p f) as Eg.
  { rewrite get_add. apply u64_small. pose proof (other_nonneg m N r s X). unfold is_u64.
    fold (other_total m s r). unfold amount in *. lia. }
  split_and!.
  - intros t e. unfold o, other_add. rewrite lookup_insert. case_decide; [|apply X].
    intros [= <-]. rewrite Eg. pose proof (other_nonneg m N r s X). lia.
  - unfold o, other_add. destruct (other r !! s) as [e|] eqn:E.
    + rewrite (msum_insert_Some _ _ _ _ _ E), Eg. unfold other_total, otherFor. rewrite E. cbn. lia.
    + rewrite (msum_insert_None _ _ _ _ E), Eg. unfold other_total, otherFor. rewrite E. cbn.
      rewrite get_zeroEntry. lia.
  - intros t. unfold o. rewrite otherFor_add. case_decide; [subst t|done].
    rewrite Eg. unfold other_total. lia.
Qed.

Lemma fold_cell_cells r k c : cells (fold_cell r (k, c)) = <[k := mkCell (cum c) (cum c)]> (cells r).
Proof. done. Qed.

Lemma fold_cell_other r k c :
  other (fold_cell r (k, c))
  = other_add (kSource (eKey (cum c))) (eBytes (unfolded c)) (ePackets (unfolded c))
      (eFlows (unfolded c)) (other r).
Proof. done. Qed.

Lemma exact_fold_cell m N r k c :
  exact m N r -> N < M64 -> cells r !! k = Some c ->
  exact m N (fold_cell r (k, c)) /\ forall s, other_total m s r <= other_total m s (fold_cell r (k, c)).
Proof.
  intros X HN Hk. set (s := kSource (eKey (cum c))).
  pose proof (ex_cell m N r X k c Hk) as Hc. pose proof (ex_tot m N r X) as Ht.
  pose proof (cell_pending_le m N r k c X Hk) as Hp. pose proof (other_nonneg m N r s X) as Ho.
  pose proof (cell_cum_le m N r k c X Hk) as Hq.
  assert (amount m (eBytes (unfolded c)) (ePackets (unfolded c)) (eFlows (unfolded c))
          = get m (cum c) - get m (folded c)) as Ea.
  { transitivity (get m (unfolded c)); [by destruct m|]. rewrite get_unfolded.
    apply u64_small. unfold is_u64. lia. }
  destruct (exact_other_add m N r s (eBytes (unfolded c)) (ePackets (unfolded c))
    (eFlows (unfolded c)) X ltac:(lia) ltac:(lia)) as (O1 & O2 & O3).
  split; [|exact O3]. split; rewrite ?fold_cell_cells, ?fold_cell_other; [|exact O1| |].
  - intros k' c'. rewrite lookup_insert. case_decide; [|apply X]. intros [= <-]. cbn. lia.
  - rewrite (msum_insert_Some _ _ _ _ _ Hk). cbn. pose proof (ex_cum m N r X). lia.
  - rewrite (msum_insert_Some _ _ _ _ _ Hk). fold s. rewrite O2. cbn [cum folded]. lia.
Qed.

Lemma exact_fold_cells m N l r :
  exact m N r -> N < M64 -> NoDup (map fst l) ->
  (forall k c, (k, c) ∈ l -> cells r !! k = Some c) ->
  exact m N (fold_left fold_cell l r) /\
  forall s, other_total m s r <= other_total m s (fold_left fold_cell l r).
Proof.
  revert r. induction l as [|[k c] l IH]; intros r X HN Hnd Hl; [done|]. cbn [fold_left].
  apply NoDup_cons in Hnd as [Hk Hnd].
  destruct (exact_fold_cell m N r k c X HN) as [X1 M1]; [apply Hl; by left|].
  destruct (IH _ X1 HN Hnd) as [X2 M2].
  - intros k' c' Hin. cbn. rewrite lookup_insert_ne; [apply Hl; by right|].
    intros ->. apply Hk. apply list_elem_of_fmap. by exists (k', c').
  - split; [done|]. intros s. specialize (M1 s). specialize (M2 s). lia.
Qed.

Lemma exact_snapshot m N r :
  exact m N r -> N < M64 ->
  exact m N (snd (Snapshot r)) /\ forall s, other_total m s r <= other_total m s (snd (Snapshot r)).
Proof.
  intros X HN. cbn [Snapshot snd].
  set (cut := cut_of _ _). set (r1 := r <| foldedKeys := _ |>).
  destruct (ranked_tail_ok (cells r) cut) as [Hnd Hin].
  apply (exact_fold_cells m N (drop cut (ranked (cells r))) r1); [|done..]. split; apply X.
Qed.

Lemma exact_observe geo m N r rec :
  exact m N r -> N + vol m rec < M64 ->
  exact m (N + vol m rec) (Rollup_Observe geo r rec) /\
  forall s, other_total m s r <= other_total m s (Rollup_Observe geo r rec).
Proof.
  intros X HN. assert (0 <= vol m rec) as Hv.
  { pose proof (volumeOf_range rec) as [? ?]. unfold is_u64 in *. destruct m; cbn; lia. }
  assert (forall b p, volumeOf rec = (b, p) -> amount m b p 1 = vol m rec) as Ha.
  { intros b p E. unfold amount, vol. rewrite E. by destruct m. }
  unfold Rollup_Observe. destruct (volumeOf rec) as [b p]. specialize (Ha b p eq_refl).
  pose proof (ex_tot m N r X) as Ht. pose proof (ex_cum m N r X) as Hcum.
  set (k := keyFor geo rec).
  destruct (cells r !! k) as [c|] eqn:Ec; [|destruct (_ && _)].
  - pose proof (ex_cell m N r X k c Ec) as Hc. pose proof (cell_cum_le m N r k c X Ec) as Hq.
    assert (get m (entry_add (cum c) b p 1) = get m (cum c) + vol m rec) as Eg.
    { rewrite get_add, <- Ha. apply u64_small. unfold is_u64, amount in *. lia. }
    split; [|intros s; apply Z.le_refl]. split; cbn; [|apply X| |].
    + intros k' c'. rewrite lookup_insert. case_decide; [|apply X]. intros [= <-]. cbn. lia.
    + rewrite (msum_insert_Some _ _ _ _ _ Ec). cbn. lia.
    + rewrite (msum_insert_Some _ _ _ _ _ Ec). cbn. lia.
  - assert (0 <= msum (fun _ c => get m (cum c) - get m (folded c)) (cells r)).
    { apply msum_nonneg. intros k' c' Hc. pose proof (ex_cell m N r X k' c' Hc). lia. }
    pose proof (other_nonneg m N r (kSource k) X).
    destruct (exact_other_add m N r (kSource k) b p 1 X ltac:(lia) ltac:(lia)) as (O1 & O2 & O3).
    split; [|exact O3]. split; [apply X|exact O1| |].
    + change (msum (fun _ c => get m (cum c)) (cells r) <= N + vol m rec). lia.
    + change (msum (fun _ c => get m (cum c) - get m (folded c)) (cells r)
        + msum (fun _ e => get m e) (other_add (kSource k) b p 1 (other r)) = N + vol m rec).
      rewrite O2. lia.
  - assert (get m (entry_add (zeroEntry k) b p 1) = vol m rec) as Eg.
    { rewrite get_add, get_zeroEntry, <- Ha. apply u64_small. unfold is_u64, amount in *.
      assert (0 <= N); [|lia]. rewrite <- Ht. apply Z.add_nonneg_nonneg; apply msum_nonneg; [|apply X].
      intros k' c' Hc. pose proof (ex_cell m N r X k' c' Hc). lia. }
    split; [|intros s; apply Z.le_refl]. split; cbn; [|apply X| |].
    + intros k' c'. rewrite lookup_insert. case_decide; [|apply X]. intros [= <-]. cbn.
      rewrite Eg, get_zeroEntry. lia.
    + rewrite (msum_insert_None _ _ _ _ Ec). cbn. lia.
    + rewrite (msum_insert_None _ _ _ _ Ec). cbn. rewrite Eg, get_zeroEntry. lia.
Qed.

Lemma exact_new m n k : exact m 0 (NewRollup n k).
Proof.
  split; cbn; try (intros ? ?; by rewrite lookup_empty).
  - by rewrite msum_empty.
  - by rewrite !msum_empty.
Qed.

Lemma exact_run geo m ops r N :
  exact m N r -> N + lsum (vol m) (records ops) < M64 ->
  exact m (N + lsum (vol m) (records ops)) (run geo ops r) /\
  forall s, other_total m s r <= other_total m s (run geo ops r).
Proof.
  revert r N. induction ops as [|o ops IH]; intros r N X HN.
  { change (lsum (vol m) (records [])) with 0 in *. by rewrite Z.add_0_r. }
  rewrite records_cons, lsum_app in *. cbn [run fold_left]. fold (run geo ops (step geo r o)).
  assert (0 <= lsum (vol m) (records ops)).
  { apply lsum_nonneg. intros rec _. pose proof (volumeOf_range rec) as [? ?].
    unfold is_u64 in *. destruct m; cbn; lia. }
  assert (exact m (N + lsum (vol m) (records [o])) (step geo r o) /\
    forall s, other_total m s r <= other_total m s (step geo r o)) as [X1 M1].
  { destruct o as [rec| |a b]; cbn [step].
    - change (lsum (vol m) (records [OObserve rec])) with (vol m rec + 0) in *.
      rewrite Z.add_0_r in *. apply exact_observe; [done|lia].
    - change (lsum (vol m) (records [OSnapshot])) with 0 in *. rewrite Z.add_0_r.
      apply exact_snapshot; [done|lia].
    - change (lsum (vol m) (records [OSetBounds a b])) with 0 in *. rewrite Z.add_0_r.
      split; [split; apply X|]. intros s. apply Z.le_refl. }
  destruct (IH _ _ X1) as [X2 M2]; [lia|]. rewrite Z.add_assoc. split; [done|].
  intros s. specialize (M1 s). specialize (M2 s). lia.
Qed.

Lemma run_app geo ops ops' r : run geo (ops ++ ops') r = run geo ops' (run geo ops r).
Proof. apply fold_left_app. Qed.

Lemma records_app ops ops' : records (ops ++ ops') = records ops ++ records ops'.
Proof. apply omap_app. Qed.

(** The folded remainder of every source is a monotone
    counter in bytes, packets and flows, through any top-N churn, as long as the
    observed volume stays below [2^64]. *)
Theorem remainder_monotone geo ops ops' n k m s :
  lsum (vol m) (records (ops ++ ops')) < M64 ->
  other_total m s (run geo ops (NewRollup n k))
  <= other_total m s (run geo (ops ++ ops') (NewRollup n k)).
Proof.
  intros H. rewrite records_app, lsum_app in H. rewrite run_app.
  assert (0 <= lsum (vol m) (records ops')).
  { apply lsum_nonneg. intros rec _. pose proof (volumeOf_range rec) as [? ?].
    unfold is_u64 in *. destruct m; cbn; lia. }
  destruct (exact_run geo m ops (NewRollup n k) 0 (exact_new m n k)) as [X _]; [lia|].
  apply (exact_run geo m ops' _ _ X). lia.
Qed.

(** ** Bounds *)

Lemma observe_size geo r rec :
  zsize (cells (Rollup_Observe geo r rec)) <= zsize (cells r) + 1 /\
  (0 < maxKeys r -> zsize (cells r) <= maxKeys r ->
   zsize (cells (Rollup_Observe geo r rec)) <= maxKeys r) /\
  maxKeys (Rollup_Observe geo r rec) = maxKeys r /\ topN (Rollup_Observe geo r rec) = topN r.
Proof.
  unfold Rollup_Observe. destruct (volumeOf rec) as [b p].
  destruct (cells r !! _) as [c|] eqn:Ec; [|destruct (_ && _) eqn:E]; cbn.
  - rewrite (zsize_insert_Some _ _ _ _ Ec). lia.
  - lia.
  - rewrite (zsize_insert_None _ _ _ Ec). apply andb_false_iff in E.
    split_and!; lia.
Qed.

Lemma fold_cells_size l r :
  (forall k c, (k, c) ∈ l -> is_Some (cells r !! k)) ->
  zsize (cells (fold_left fold_cell l r)) = zsize (cells r) /\
  maxKeys (fold_left fold_cell l r) = maxKeys r /\ topN (fold_left fold_cell l r) = topN r.
Proof.
  revert r. induction l as [|[k c] l IH]; intros r Hl; [done|]. cbn [fold_left].
  destruct (Hl k c) as [c0 Hc]; [by left|].
  destruct (IH (fold_cell r (k, c))) as (-> & -> & ->).
  - intros k' c' Hin. rewrite fold_cell_cells, lookup_insert_is_Some'. right. apply (Hl k' c'). by right.
  - rewrite fold_cell_cells, (zsize_insert_Some _ _ _ _ Hc). done.
Qed.

Lemma snapshot_size r :
  zsize (cells (snd (Snapshot r))) = zsize (cells r) /\
  maxKeys (snd (Snapshot r)) = maxKeys r /\ topN (snd (Snapshot r)) = topN r.
Proof.
  cbn [Snapshot snd]. set (r1 := r <| foldedKeys := _ |>).
  apply (fold_cells_size _ r1). intros k c Hin.
  apply (proj2 (ranked_tail_ok (cells r) _)) in Hin. by exists c.
Qed.

(** Histories that do not retune the bounds. *)
Definition keeps_bounds (o : op) : Prop := match o with OSetBounds _ _ => False | _ => True end.

Lemma run_size geo ops r :
  Forall keeps_bounds ops -> 0 < maxKeys r -> zsize (cells r) <= maxKeys r ->
  zsize (cells (run geo ops r)) <= maxKeys r /\ maxKeys (run geo ops r) = maxKeys r
  /\ topN (run geo ops r) = topN r.
Proof.
  revert r. induction ops as [|o ops IH]; intros r Hk H0 Hs; [done|].
  apply Forall_cons_1 in Hk as [Ho Hk]. cbn [run fold_left]. fold (run geo ops (step geo r o)).
  destruct o as [rec| |]; cbn [step]; [| |done].
  - destruct (observe_size geo r rec) as (_ & Hb & E & E').
    destruct (IH (Rollup_Observe geo r rec)) as (A & B & C); rewrite ?E in *; [done|done|by apply Hb|].
    rewrite <- E'. by split_and!.
  - destruct (snapshot_size r) as (E0 & E & E').
    destruct (IH (snd (Snapshot r))) as (A & B & C); rewrite ?E, ?E0 in *; [done|done|done|].
    rewrite <- E'. by split_and!.
Qed.

Lemma cut_of_le n k : 0 < n -> Z.of_nat (cut_of n k) <= n.
Proof.
  intros H. unfold cut_of. destruct (_ && _) eqn:E; [lia|].
  apply andb_false_iff in E as [E|E]; bool_prop; lia.
Qed.

(** With positive bounds that are not retuned, the live map
    never exceeds [maxKeys] and a snapshot emits at most [topN] series besides
    one remainder per source that folded. *)
Theorem bounded geo ops n k :
  0 < n -> 0 < k -> Forall keeps_bounds ops ->
  let r := run geo ops (NewRollup n k) in
  Keys (Stats r) <= k /\
  zlen (fst (Snapshot r)) <= n + zsize (other (snd (Snapshot r))).
Proof.
  intros Hn Hk Ho r.
  destruct (run_size geo ops (NewRollup n k) Ho Hk) as (A & B & C).
  { change (zsize (cells (NewRollup n k))) with (zsize (∅ : gmap RollupKey rollupCell)).
    rewrite zsize_empty. cbn. lia. }
  split; [exact A|]. cbn [Snapshot fst snd]. fold r. fold r in C. cbn in C. rewrite C.
  unfold zlen. rewrite length_app, length_map, length_take.
  unfold remainders. rewrite sort_by_length, length_map, length_map_to_list.
  pose proof (cut_of_le n (length (ranked (cells r))) Hn). unfold zsize. lia.
Qed.

(** ** Ranking *)

#[export] Instance lessKey_total : StrictTotal lessKey.
Proof.
  split; unfold lessKey.
  - intros a. apply lex_irrefl.
  - intros a b c. apply (lex_trans str_lt).
  - intros a b H1 H2. assert (Values a = Values b) as E by (apply (lex_total str_lt); done).
    by destruct a, b; simplify_eq/=.
Qed.

#[export] Instance ranked_before_weak : WeakOrder ranked_before.
Proof.
  split; unfold ranked_before.
  - intros [k1 c1] [k2 c2]. cbn [snd]. rewrite (Z.eqb_sym (eBytes (cum c2))).
    destruct (Z.eqb_spec (eBytes (cum c1)) (eBytes (cum c2))); cbn [negb].
    + apply lt_asym.
    + rewrite Z.ltb_lt, Z.ltb_ge. lia.
  - intros [k1 c1] [k2 c2] [k3 c3]. cbn [snd].
    destruct (Z.eqb_spec (eBytes (cum c1)) (eBytes (cum c2))),
      (Z.eqb_spec (eBytes (cum c2)) (eBytes (cum c3))),
      (Z.eqb_spec (eBytes (cum c1)) (eBytes (cum c3))); cbn [negb]; try lia; rewrite ?Z.ltb_ge; try lia.
    apply lt_negtrans.
Qed.

(** A snapshot keeps the largest keys: no folded key has carried
    more bytes than an emitted one. *)
Theorem snapshot_top geo ops n k i j ki ci kj cj :
  let rk := ranked (cells (run geo ops (NewRollup n k))) in
  let cut := cut_of (topN (run geo ops (NewRollup n k))) (length rk) in
  (i < cut)%nat -> (cut <= j)%nat -> rk !! i = Some (ki, ci) -> rk !! j = Some (kj, cj) ->
  eBytes (cum cj) <= eBytes (cum ci).
Proof.
  intros rk cut Hi Hj Ei Ej.
  assert (not_after ranked_before (ki, ci) (kj, cj)) as H.
  { apply (StronglySorted_split _ cut rk); [apply sort_by_sorted, _| |].
    - apply list_elem_of_lookup. exists i. by rewrite lookup_take_lt.
    - apply list_elem_of_lookup. exists (j - cut)%nat. rewrite lookup_drop.
      by replace (cut + (j - cut))%nat with j by lia. }
  unfold not_after, ranked_before in H. cbn in H.
  destruct (Z.eqb_spec (eBytes (cum cj)) (eBytes (cum ci))); [lia|]. cbn in H. bool_prop. lia.
Qed.

(** ** Idempotence *)

(** Remainders are always results of a uint64 addition. *)
Definition other_u64 (o : gmap string RollupEntry) : Prop :=
  forall s e, o !! s = Some e -> is_u64 (eBytes e) /\ is_u64 (ePackets e) /\ is_u64 (eFlows e).

Lemma other_u64_add s b p f o : other_u64 o -> other_u64 (other_add s b p f o).
Proof.
  intros H t e. unfold other_add. rewrite lookup_insert. case_decide; [|apply H].
  intros [= <-]. split_and!; apply u64_range.
Qed.

Lemma fold_cells_after l r :
  NoDup (map fst l) -> other_u64 (other r) ->
  let r' := fold_left fold_cell l r in
  other_u64 (other r') /\
  (forall k c, (k, c) ∈ l -> cells r' !! k = Some (mkCell (cum c) (cum c))
                            /\ is_Some (other r' !! kSource (eKey (cum c)))) /\
  (forall k, k ∉ map fst l -> cells r' !! k = cells r !! k) /\
  (forall s, is_Some (other r !! s) -> is_Some (other r' !! s)).
Proof.
  revert r. induction l as [|[k c] l IH]; intros r Hnd Ho; cbn [fold_left].
  { split_and!; try done. intros k c Hin. by apply elem_of_nil in Hin. }
  apply NoDup_cons in Hnd as [Hk Hnd].
  destruct (IH (fold_cell r (k, c)) Hnd) as (U & A & B & C).
  { rewrite fold_cell_other. by apply other_u64_add. }
  split_and!; [done| | |].
  - intros k' c' Hin. apply elem_of_cons in Hin as [[= -> ->]|Hin]; [|by apply A].
    rewrite B by done. rewrite fold_cell_cells, lookup_insert_eq. split; [done|].
    apply C. rewrite fold_cell_other. unfold other_add. rewrite lookup_insert_eq. by eexists.
  - intros k' Hk'. cbn in Hk'. apply not_elem_of_cons in Hk' as [Hne Hk'].
    by rewrite B, fold_cell_cells, lookup_insert_ne.
  - intros s Hs. apply C. rewrite fold_cell_other. unfold other_add.
    rewrite lookup_insert_is_Some'. by right.
Qed.

(** Folding a cell that has nothing left to fold changes nothing. *)
Lemma fold_cell_noop r k c :
  cells r !! k = Some c -> folded c = cum c -> other_u64 (other r) ->
  is_Some (other r !! kSource (eKey (cum c))) -> fold_cell r (k, c) = r.
Proof.
  intros Hk Hf Ho [e He]. destruct (Ho _ _ He) as (U1 & U2 & U3).
  assert (other (fold_cell r (k, c)) = other r) as Eo.
  { rewrite fold_cell_other. unfold other_add, otherFor. rewrite He. cbn [default].
    apply insert_id. rewrite He. f_equal. unfold unfolded. rewrite Hf. cbn [eBytes ePackets eFlows].
    unfold entry_add, sub64, add64. rewrite !Z.sub_diag. change (u64 0) with 0.
    rewrite !Z.add_0_r, !u64_small by done. by destruct e. }
  assert (cells (fold_cell r (k, c)) = cells r) as Ec.
  { rewrite fold_cell_cells. apply insert_id. rewrite Hk. f_equal.
    destruct c as [c1 c2]. cbn in *. by rewrite Hf. }
  transitivity (mkRollup (cells (fold_cell r (k, c))) (other (fold_cell r (k, c)))
    (topN r) (maxKeys r) (capped r) (foldedKeys r)); [done|]. rewrite Eo, Ec. by destruct r.
Qed.

Lemma fold_cells_noop l r :
  other_u64 (other r) ->
  (forall k c, (k, c) ∈ l -> cells r !! k = Some c /\ folded c = cum c
                            /\ is_Some (other r !! kSource (eKey (cum c)))) ->
  fold_left fold_cell l r = r.
Proof.
  intros Ho. induction l as [|[k c] l IH]; intros Hl; [done|]. cbn [fold_left].
  destruct (Hl k c) as (A & B & C); [by left|]. rewrite fold_cell_noop by done.
  apply IH. intros k' c' Hin. apply Hl. by right.
Qed.

(** Marking the cells of a set of keys as folded. *)
Definition mark (ks : list RollupKey) (kc : RollupKey * rollupCell) : RollupKey * rollupCell :=
  if decide (kc.1 ∈ ks) then (kc.1, mkCell (cum kc.2) (cum kc.2)) else kc.

Lemma mark_fst ks kc : (mark ks kc).1 = kc.1.
Proof. unfold mark. by case_decide. Qed.

Lemma mark_cum ks kc : cum (mark ks kc).2 = cum kc.2.
Proof. unfold mark. by case_decide. Qed.

Lemma ranked_after r cut :
  wf r -> other_u64 (other r) ->
  let tl := drop cut (ranked (cells r)) in
  let r' := fold_left fold_cell tl r in
  ranked (cells r') = map (mark (map fst tl)) (ranked (cells r)).
Proof.
  intros W Ho tl r'. destruct (ranked_tail_ok (cells r) cut) as [Hnd Hin].
  destruct (fold_cells_after tl r Hnd Ho) as (_ & A & B & _). fold r' in A, B.
  symmetry. unfold ranked at 2. apply sort_by_unique; [apply _| | |].
  - intros [k1 c1] [k2 c2] H1 H2. rewrite !elem_of_map_to_list in *. unfold ranked_before. cbn [snd].
    assert (wf r') as W'.
    { apply (fold_cells_total tl r MBytes "" W Hnd). done. }
    destruct (Z.eqb_spec (eBytes (cum c1)) (eBytes (cum c2))) as [E|E].
    + rewrite E, Z.eqb_refl. cbn [negb]. intros L1 L2. pose proof (st_total _ _ L1 L2) as Ek.
      rewrite (wf_cells r' W' k1 c1 H1), (wf_cells r' W' k2 c2 H2) in Ek. subst k2. congruence.
    + destruct (Z.eqb_spec (eBytes (cum c2)) (eBytes (cum c1))); [congruence|]. cbn [negb].
      rewrite !Z.ltb_ge. lia.
  - apply NoDup_Permutation; [|apply NoDup_map_to_list|].
    + apply (NoDup_fmap_1 fst).
      change (NoDup (map fst (map (mark (map fst tl)) (ranked (cells r))))).
      rewrite map_map. erewrite map_ext; [apply ranked_keys_nodup|]. intros kc. apply mark_fst.
    + intros [k c]. rewrite elem_of_map_to_list. split.
      * intros Hm. apply list_elem_of_fmap in Hm as ([k0 c0] & E & Hm).
        apply elem_of_ranked in Hm. unfold mark in E. cbn in E. case_decide as D; simplify_eq.
        -- apply list_elem_of_fmap in D as ([k1 c1] & -> & D). cbn in *.
           destruct (A _ _ D) as [-> _]. apply Hin in D. congruence.
        -- by rewrite B.
      * intros Hk. apply list_elem_of_fmap. destruct (decide (k ∈ map fst tl)) as [D|D].
        -- apply list_elem_of_fmap in D as ([k1 c1] & -> & D). cbn in *.
           destruct (A _ _ D) as [E _]. rewrite E in Hk. simplify_eq.
           exists (k1, c1). split.
           ++ unfold mark. cbn. rewrite decide_True; [done|]. apply list_elem_of_fmap. by exists (k1, c1).
           ++ apply elem_of_ranked. by apply Hin.
        -- rewrite B in Hk by done. exists (k, c). split; [|by apply elem_of_ranked].
           unfold mark. cbn. by rewrite decide_False.
  - eapply StronglySorted_map; [|apply (sort_by_sorted ranked_before)].
    intros a b _ _. unfold not_after, ranked_before. by rewrite !mark_cum.
Qed.

Lemma mark_take cut (rk : list (RollupKey * rollupCell)) :
  NoDup (map fst rk) -> map (mark (map fst (drop cut rk))) (take cut rk) = take cut rk.
Proof.
  intros Hnd. rewrite <- (map_id (take cut rk)) at 2. apply map_ext_in.
  intros kc Hin. unfold mark. rewrite decide_False; [done|]. intros Hd.
  rewrite <- (take_drop cut rk), map_app in Hnd. apply NoDup_app in Hnd as (_ & Hnd & _).
  apply (Hnd kc.1); [|done]. apply list_elem_of_fmap. exists kc.
  split; [done|]. by apply list_elem_of_In.
Qed.

Lemma mark_drop cut (rk : list (RollupKey * rollupCell)) k c :
  (k, c) ∈ map (mark (map fst (drop cut rk))) (drop cut rk) ->
  exists c0, (k, c0) ∈ drop cut rk /\ c = mkCell (cum c0) (cum c0).
Proof.
  intros H. apply list_elem_of_fmap in H as ([k0 c0] & E & Hin). unfold mark in E. cbn in E.
  rewrite decide_True in E by (apply list_elem_of_fmap; by exists (k0, c0)).
  simplify_eq. by exists c0.
Qed.

Lemma snapshot_again r :
  wf r -> other_u64 (other r) -> Snapshot (snd (Snapshot r)) = Snapshot r.
Proof.
  intros W Ho. unfold Snapshot at 3. cbv zeta.
  set (rk := ranked (cells r)). set (cut := cut_of (topN r) (length rk)).
  set (r1 := r <| foldedKeys := zlen rk - Z.of_nat cut |>). set (tl := drop cut rk).
  assert (snd (Snapshot r) = fold_left fold_cell tl r1) as -> by done.
  set (r' := fold_left fold_cell tl r1).
  destruct (ranked_tail_ok (cells r) cut) as [Hnd Hin].
  assert (wf r1) as W1 by (split; apply W).
  destruct (fold_cells_after tl r1 Hnd Ho) as (U & A & _ & _). fold r' in U, A.
  pose proof (ranked_after r1 cut W1 Ho) as Er. cbv zeta in Er.
  change (ranked (cells r1)) with rk in Er. fold tl in Er. fold r' in Er.
  destruct (fold_cells_size tl r1) as (_ & _ & Et).
  { intros k c Hk. apply Hin in Hk. by exists c. }
  fold r' in Et. change (topN r1) with (topN r) in Et.
  assert (foldedKeys r' = foldedKeys r1) as Ef.
  { unfold r'. clear. generalize r1. induction tl as [|[k c] l IH]; intros r0; [done|].
    cbn [fold_left]. by rewrite IH. }
  unfold Snapshot. rewrite Er, Et, length_map. fold cut.
  assert (zlen (map (mark (map fst tl)) rk) = zlen rk) as -> by (unfold zlen; by rewrite length_map).
  assert (r' <| foldedKeys := zlen rk - Z.of_nat cut |> = r') as ->.
  { change (zlen rk - Z.of_nat cut) with (foldedKeys r1). rewrite <- Ef. by destruct r'. }
  rewrite firstn_map, skipn_map. fold tl. unfold tl at 1. rewrite mark_take by apply ranked_keys_nodup.
  assert (fold_left fold_cell (map (mark (map fst tl)) tl) r' = r') as ->; [|done].
  apply fold_cells_noop; [done|]. intros k c Hk. apply mark_drop in Hk as (c0 & Hk & ->).
  destruct (A k c0 Hk) as [A1 A2]. done.
Qed.

Lemma other_u64_run geo ops r : wf r -> other_u64 (other r) -> other_u64 (other (run geo ops r)).
Proof.
  revert r. induction ops as [|o ops IH]; intros r W Ho; [done|].
  cbn [run fold_left]. fold (run geo ops (step geo r o)). destruct o as [rec| |n k]; cbn [step].
  - apply IH; [by apply wf_observe|]. unfold Rollup_Observe. destruct (volumeOf rec) as [b p].
    destruct (cells r !! _); [done|]. destruct (_ && _); [|done]. by apply other_u64_add.
  - apply IH; [by apply (snapshot_total r MBytes "" W)|]. cbn [Snapshot snd].
    set (r1 := r <| foldedKeys := _ |>).
    apply (fold_cells_after _ r1); [|done]. apply (ranked_tail_ok (cells r)).
  - apply IH; [split; apply W|done].
Qed.

(** Two snapshots with nothing observed in between emit the same
    series with the same values, and leave the accumulator as it was. *)
Theorem snapshot_idempotent geo ops n k :
  let r := run geo ops (NewRollup n k) in
  fst (Snapshot (snd (Snapshot r))) = fst (Snapshot r) /\
  snd (Snapshot (snd (Snapshot r))) = snd (Snapshot r).
Proof.
  intros r. assert (Snapshot (snd (Snapshot r)) = Snapshot r) as ->; [|done].
  apply snapshot_again.
  - apply (run_total geo ops (NewRollup n k) MBytes "" (wf_new n k)).
  - apply other_u64_run; [apply wf_new|]. intros s e. cbn. by rewrite lookup_empty.
Qed.

(** ** Instances *)

Definition flow_of (app : string) (b : Z) : Record_ :=
  zeroRecord <| rSource := SourceNetflow |> <| rL7 := mkL7 "" "" app "" "" |>
    <| NF := mkCounters b 0 1 0 true |>.

Definition sample_ops : list op :=
  [OObserve (flow_of "web" 900); OObserve (flow_of "dns" 20); OSnapshot; OObserve (flow_of "dns" 5);
   OObserve (flow_of "mail" 300)].

Lemma remainder_monotone_witness :
  lsum (vol MBytes) (records (sample_ops ++ [OSnapshot])) = 1225 /\
  other_total MBytes "netflow" (run None sample_ops (NewRollup 1 2))
  <= other_total MBytes "netflow" (run None (sample_ops ++ [OSnapshot]) (NewRollup 1 2)).
Proof.
  split; [vm_compute; reflexivity|]. apply (remainder_monotone None sample_ops [OSnapshot] 1 2 MBytes).
  vm_compute. reflexivity.
Defined.

Lemma bounded_witness :
  let r := run None sample_ops (NewRollup 1 2) in
  Keys (Stats r) <= 2 /\ zlen (fst (Snapshot r)) <= 1 + zsize (other (snd (Snapshot r))).
Proof. apply (bounded None sample_ops 1 2); [lia|lia|repeat constructor]. Defined.

Lemma snapshot_top_witness :
  exists ki ci kj cj,
    ranked (cells (run None sample_ops (NewRollup 1 2))) !! 0%nat = Some (ki, ci) /\
    ranked (cells (run None sample_ops (NewRollup 1 2))) !! 1%nat = Some (kj, cj) /\
    eBytes (cum cj) <= eBytes (cum ci).
Proof.
  do 4 eexists. split; [vm_compute; reflexivity|]. split; [vm_compute; reflexivity|].
  eapply (snapshot_top None sample_ops 1 2 0 1);
    [apply Nat.ltb_lt; vm_compute; reflexivity|apply Nat.leb_le; vm_compute; reflexivity|
     vm_compute; reflexivity|vm_compute; reflexivity].
Defined.

End Rollup.
