(* ===== verification/Talkers.v ===== *)
(** * Top talkers ([internal/flow/toptalkers.go])

    The opt-in ranking of internal hosts by bytes.  It counts one source only,
    folds what lies outside the top-N into a remainder per direction, and bounds
    the live map at insertion. *)

From stdpp Require Import base decidable list gmap sets strings sorting.
From Stdlib Require Import ZArith Lia.
From S2P Require Import Prelude Order Netip Record Rollup.

Module Talkers.

Definition defaultTopTalkerTopN : Z := 100.
Definition defaultTopTalkerMaxKeys : Z := 10000.

(** [talkerKey]: (host, direction). *)
Definition talkerKey : Type := string * string.

Record talkerCell := mkTalker { tcum : Z; tfolded : Z }.
#[export] Instance eta_talkerCell : Eta talkerCell := fun c => mkTalker (tcum c) (tfolded c).

Record TalkerEntry := mkTalkerEntry { teHost : string; teDirection : string; teBytes : Z }.

Record TopTalkers := mkTopTalkers {
  enabled : bool; primary : Source;
  tcells : gmap (string * string) talkerCell;
  tother : gmap string Z;
  ttopN : Z; tmaxKeys : Z; tcapped : Z }.
#[export] Instance eta_TopTalkers : Eta TopTalkers := fun t =>
  mkTopTalkers (enabled t) (primary t) (tcells t) (tother t) (ttopN t) (tmaxKeys t) (tcapped t).

Definition NewTopTalkers : TopTalkers :=
  mkTopTalkers false SourceUnknown ∅ ∅ defaultTopTalkerTopN defaultTopTalkerMaxKeys 0.

Definition Configure (on : bool) (p : Source) (t : TopTalkers) : TopTalkers :=
  t <| enabled := on |> <| primary := p |>.

(** [talkerOf]: the internal host the record is credited to, and its direction. *)
Definition talkerOf (r : Record_) : option (string * string) :=
  if isLocalScope (SrcScope (Enrich r)) && IsValid (SrcAddr r) then
    Some (addr_String (SrcAddr r), Direction_String (rDirection r))
  else if isLocalScope (DstScope (Enrich r)) && IsValid (DstAddr r) then
    Some (addr_String (DstAddr r), Direction_String (rDirection r))
  else None.

(** [*otherFor(dir) += v]. *)
Definition tother_add (dir : string) (v : Z) (o : gmap string Z) : gmap string Z :=
  <[dir := add64 (default 0 (o !! dir)) v]> o.

(** What [Observe] counts of a record: nothing when it is disabled, from the
    other source, without a local end or without bytes. *)
Definition counted (t : TopTalkers) (r : Record_) : option (string * string * Z) :=
  if negb (enabled t) then None
  else if negb (source_eqb (primary t) SourceUnknown) && negb (source_eqb (rSource r) (primary t))
  then None
  else match talkerOf r with
       | None => None
       | Some k => let b := fst (volumeOf r) in if b =? 0 then None else Some (k, b)
       end.

(** [TopTalkers.Observe]. *)
Definition Talkers_Observe (t : TopTalkers) (r : Record_) : TopTalkers :=
  match counted t r with
  | None => t
  | Some (k, b) =>
      match tcells t !! k with
      | Some c => t <| tcells ::= <[k := c <| tcum ::= fun n => add64 n b |>]> |>
      | None =>
          if (0 <? tmaxKeys t) && (tmaxKeys t <=? zsize (tcells t)) then
            t <| tother ::= tother_add (snd k) b |> <| tcapped ::= fun n => add64 n 1 |>
          else t <| tcells ::= <[k := mkTalker (add64 0 b) 0]> |>
      end
  end.

(** Descending by bytes, ties broken by host and then direction. *)
Definition talker_before (a b : (string * string) * talkerCell) : bool :=
  let '((h1, d1), c1) := a in let '((h2, d2), c2) := b in
  if negb (tcum c1 =? tcum c2) then tcum c2 <? tcum c1
  else if negb (str_eq h1 h2) then str_lt h1 h2
  else str_lt d1 d2.

Definition tranked (m : gmap (string * string) talkerCell) :=
  sort_by talker_before (map_to_list m).

Definition fold_talker (t : TopTalkers) (kc : (string * string) * talkerCell) : TopTalkers :=
  let '(k, c) := kc in
  t <| tother ::= tother_add (snd k) (sub64 (tcum c) (tfolded c)) |>
    <| tcells ::= <[k := c <| tfolded := tcum c |>]> |>.

(** [TopTalkers.Snapshot]. *)
Definition Talkers_Snapshot (t : TopTalkers) : list TalkerEntry * TopTalkers :=
  let rk := tranked (tcells t) in
  let cut := Rollup.cut_of (ttopN t) (length rk) in
  let out := map (fun kc => mkTalkerEntry (fst (fst kc)) (snd (fst kc))
                              (sub64 (tcum (snd kc)) (tfolded (snd kc)))) (take cut rk) in
  let t := fold_left fold_talker (drop cut rk) t in
  (out ++ map (fun dv => mkTalkerEntry Rollup.OtherLabel (fst dv) (snd dv)) (map_to_list (tother t)),
   t).

(** ** Histories *)

Inductive top := TObserve (r : Record_) | TSnapshot.

Definition tstep (t : TopTalkers) (o : top) : TopTalkers :=
  match o with
  | TObserve r => Talkers_Observe t r
  | TSnapshot => snd (Talkers_Snapshot t)
  end.

Definition trun (ops : list top) (t : TopTalkers) : TopTalkers := fold_left tstep ops t.

Definition counted_bytes (t : TopTalkers) (dir : string) (o : top) : Z :=
  match o with
  | TObserve r => match counted t r with
                  | Some (k, b) => if decide (snd k = dir) then b else 0
                  | None => 0
                  end
  | TSnapshot => 0
  end.

Definition entries_total (dir : string) (out : list TalkerEntry) : Z :=
  lsum (fun e => if decide (teDirection e = dir) then teBytes e else 0) out.

(** ** Accounting *)

Definition tpending (dir : string) (kc : (string * string) * talkerCell) : Z :=
  if decide (snd (fst kc) = dir) then tcum (snd kc) - tfolded (snd kc) else 0.

Definition tcell_total (dir : string) (t : TopTalkers) : Z :=
  msum (fun k c => tpending dir (k, c)) (tcells t).

Definition tstate_total (dir : string) (t : TopTalkers) : Z :=
  tcell_total dir t + default 0 (tother t !! dir).

Lemma tother_add_lookup dir d v o :
  default 0 (tother_add d v o !! dir)
  ==64 default 0 (o !! dir) + (if decide (d = dir) then v else 0).
Proof.
  unfold tother_add. rewrite lookup_insert. case_decide as E; [subst d|by rewrite Z.add_0_r].
  apply add64_eq64.
Qed.

Lemma observe_talker dir t r :
  tstate_total dir (Talkers_Observe t r)
  ==64 tstate_total dir t + counted_bytes t dir (TObserve r).
Proof.
  unfold Talkers_Observe, counted_bytes. destruct (counted t r) as [[k b]|]; [|by rewrite Z.add_0_r].
  unfold tstate_total, tcell_total.
  destruct (tcells t !! k) as [c|] eqn:Ec; [|destruct (_ && _)]; cbn [tcells tother update].
  - rewrite (msum_insert_Some _ _ _ _ _ Ec). unfold tpending. cbn.
    case_decide; [|apply eq64_of_eq; lia]. rewrite add64_eq64. apply eq64_of_eq. lia.
  - rewrite tother_add_lookup. apply eq64_of_eq. lia.
  - rewrite (msum_insert_None _ _ _ _ Ec). unfold tpending at 1. cbn.
    case_decide; [|apply eq64_of_eq; lia]. rewrite add64_eq64. apply eq64_of_eq. lia.
Qed.

Lemma fold_talker_total dir t k c :
  tcells t !! k = Some c ->
  tcell_total dir (fold_talker t (k, c)) = tcell_total dir t - tpending dir (k, c) /\
  tstate_total dir (fold_talker t (k, c)) ==64 tstate_total dir t.
Proof.
  intros Hk.
  assert (tcell_total dir (fold_talker t (k, c)) = tcell_total dir t - tpending dir (k, c)) as E.
  { unfold tcell_total. cbn [fold_talker tcells update]. rewrite (msum_insert_Some _ _ _ _ _ Hk).
    unfold tpending. cbn. case_decide; lia. }
  split; [done|]. unfold tstate_total. rewrite E. cbn [fold_talker tother update].
  rewrite tother_add_lookup. unfold tpending. cbn. case_decide; [|apply eq64_of_eq; lia].
  rewrite sub64_eq64. apply eq64_of_eq. lia.
Qed.

Lemma fold_talkers_total dir l t :
  NoDup (map fst l) -> (forall k c, (k, c) ∈ l -> tcells t !! k = Some c) ->
  let t' := fold_left fold_talker l t in
  tcell_total dir t' = tcell_total dir t - lsum (tpending dir) l /\
  tstate_total dir t' ==64 tstate_total dir t.
Proof.
  revert t. induction l as [|[k c] l IH]; intros t Hnd Hl; cbn [fold_left].
  { rewrite lsum_nil, Z.sub_0_r. done. }
  apply NoDup_cons in Hnd as [Hk Hnd].
  destruct (fold_talker_total dir t k c) as [C S]; [apply Hl; by left|].
  destruct (IH (fold_talker t (k, c)) Hnd) as [C' S'].
  - intros k' c' Hin. cbn. rewrite lookup_insert_ne; [apply Hl; by right|].
    intros ->. apply Hk. apply list_elem_of_fmap. by exists (k', c').
  - cbv zeta. rewrite C', C, lsum_cons, S', S. split; [lia|done].
Qed.

Lemma tranked_tail_ok (m : gmap (string * string) talkerCell) n :
  NoDup (map fst (drop n (tranked m))) /\
  forall k c, (k, c) ∈ drop n (tranked m) -> m !! k = Some c.
Proof.
  assert (NoDup (map fst (tranked m))) as H.
  { unfold tranked. rewrite (Permutation_map fst (sort_by_perm talker_before (map_to_list m))).
    apply NoDup_fst_map_to_list. }
  rewrite <- (take_drop n (tranked m)), map_app in H. apply NoDup_app in H as (_ & _ & H).
  split; [done|]. intros k c Hin.
  apply elem_of_map_to_list. rewrite <- (sort_by_perm talker_before (map_to_list m)).
  change (sort_by talker_before (map_to_list m)) with (tranked m).
  rewrite <- (take_drop n (tranked m)). set_solver.
Qed.

Lemma tsnapshot_total dir t :
  tstate_total dir (snd (Talkers_Snapshot t)) ==64 tstate_total dir t /\
  entries_total dir (fst (Talkers_Snapshot t)) ==64 tstate_total dir t.
Proof.
  unfold Talkers_Snapshot. set (rk := tranked (tcells t)).
  set (cut := Rollup.cut_of (ttopN t) (length rk)). cbn [fst snd].
  destruct (tranked_tail_ok (tcells t) cut) as [Hnd Hin]. fold rk in Hnd, Hin.
  destruct (fold_talkers_total dir (drop cut rk) t Hnd Hin) as [C S]. split; [done|].
  rewrite <- S. unfold tstate_total. rewrite C.
  assert (tcell_total dir t = lsum (tpending dir) rk) as ->.
  { unfold tcell_total. rewrite msum_list. apply lsum_perm. unfold rk, tranked. by rewrite sort_by_perm. }
  rewrite <- (lsum_take_drop (tpending dir) cut rk).
  replace (_ + lsum _ (drop cut rk) - _) with (lsum (tpending dir) (take cut rk)) by lia.
  unfold entries_total. rewrite lsum_app, !lsum_map. apply add_proper64.
  - apply lsum_eq64. intros [[h d] c] _. unfold tpending. cbn. case_decide; [|done]. apply sub64_eq64.
  - apply eq64_of_eq. set (o := tother _).
    transitivity (msum (fun d v => if decide (d = dir) then v else 0) o); [by rewrite msum_list|].
    rewrite (msum_single (fun v => v)). by destruct (o !! dir).
Qed.

(** The configuration never changes along a history. *)
Lemma tstep_config t o : enabled (tstep t o) = enabled t /\ primary (tstep t o) = primary t.
Proof.
  destruct o as [r|]; cbn [tstep].
  - unfold Talkers_Observe. destruct (counted t r) as [[k b]|]; [|done].
    destruct (tcells t !! k); [done|]. by destruct (_ && _).
  - cbn [Talkers_Snapshot snd]. set (l := drop _ _). clearbody l. revert t.
    induction l as [|[k c] l IH]; intros t; [done|]. cbn [fold_left].
    destruct (IH (fold_talker t (k, c))) as [-> ->]. done.
Qed.

Lemma counted_bytes_config t t' dir o :
  enabled t' = enabled t -> primary t' = primary t -> counted_bytes t' dir o = counted_bytes t dir o.
Proof. intros E1 E2. destruct o; [|done]. cbn. unfold counted. by rewrite E1, E2. Qed.

Lemma trun_total dir ops t :
  tstate_total dir (trun ops t) ==64 tstate_total dir t + lsum (counted_bytes t dir) ops.
Proof.
  revert t. induction ops as [|o ops IH]; intros t; [by rewrite Z.add_0_r|].
  cbn [trun fold_left]. fold (trun ops (tstep t o)). rewrite IH, lsum_cons.
  destruct (tstep_config t o) as [E1 E2].
  rewrite (lsum_ext _ (counted_bytes t dir) ops)
    by (intros o' _; by apply counted_bytes_config).
  assert (tstate_total dir (tstep t o) ==64 tstate_total dir t + counted_bytes t dir o) as ->.
  { destruct o; cbn [tstep]; [apply observe_talker|].
    rewrite (proj1 (tsnapshot_total dir t)). by rewrite Z.add_0_r. }
  apply eq64_of_eq. lia.
Qed.

(** Per direction, the host series and the remainder of a
    snapshot sum to exactly the bytes of the records the ranking counts, at any
    top-N and through any churn. *)
Theorem talkers_exact ops on p dir :
  let t0 := Configure on p NewTopTalkers in
  entries_total dir (fst (Talkers_Snapshot (trun ops t0)))
  ==64 lsum (counted_bytes t0 dir) ops.
Proof.
  intros t0. rewrite (proj2 (tsnapshot_total dir _)), trun_total.
  assert (tstate_total dir t0 = 0) as ->; [|done]. unfold tstate_total, tcell_total.
  change (tcells t0) with (∅ : gmap (string * string) talkerCell).
  change (tother t0) with (∅ : gmap string Z). by rewrite msum_empty, lookup_empty.
Qed.

End Talkers.
