(* ===== verification/Template.v ===== *)
(** * The NetFlow v9 template cache ([internal/flow/netflow/types.go], [template.go])

    The decoder's data types and its template cache: templates keyed by exporter,
    source id and template id, bounded in number and in total width by an LRU list
    shared by every key.

    Reads past the end of a slice panic in Go.  Here a read returns [option], and
    [None] is the panic (or a loop that would not stop); the totality theorems of
    [Decode] state that it is never reached. *)

From stdpp Require Import base decidable list gmap sets strings.
From Stdlib Require Import ZArith Lia.
From S2P Require Import Prelude Netip.

Module Netflow.

(** ** Constants *)

Definition v9HeaderLen : nat := 20.
Definition v5HeaderLen : nat := 24.
Definition v5RecordLen : nat := 48.
Definition flowsetTemplate : Z := 0.
Definition flowsetOptionsTemplate : Z := 1.
Definition firstDataFlowsetID : Z := 256.
Definition varLenSentinel : Z := 65535.
Definition maxIntWidth : nat := 8.
Definition maxCachedTemplates : Z := 4096.
Definition maxRecordsPerDatagram : Z := 4096.
Definition maxFieldsPerTemplate : Z := 256.
Definition maxCachedTemplateFields : Z := 65536.
Definition maxUnidentifiedPerDatagram : Z := 32.

Definition FieldInBytes : Z := 1.
Definition FieldInPkts : Z := 2.
Definition FieldProtocol : Z := 4.
Definition FieldSrcTOS : Z := 5.
Definition FieldTCPFlags : Z := 6.
Definition FieldL4SrcPort : Z := 7.
Definition FieldIPv4SrcAddr : Z := 8.
Definition FieldSrcMask : Z := 9.
Definition FieldInputSNMP : Z := 10.
Definition FieldL4DstPort : Z := 11.
Definition FieldIPv4DstAddr : Z := 12.
Definition FieldDstMask : Z := 13.
Definition FieldOutputSNMP : Z := 14.
Definition FieldIPv4NextHop : Z := 15.
Definition FieldSrcAS : Z := 16.
Definition FieldDstAS : Z := 17.
Definition FieldLastSwitched : Z := 21.
Definition FieldFirstSwitched : Z := 22.
Definition FieldOutBytes : Z := 23.
Definition FieldOutPkts : Z := 24.
Definition FieldIPv6SrcAddr : Z := 27.
Definition FieldIPv6DstAddr : Z := 28.
Definition FieldSrcVLAN : Z := 58.
Definition FieldDstVLAN : Z := 59.
Definition FieldDirection : Z := 61.
Definition FieldIPv6NextHop : Z := 62.

Definition modelledFields : list Z :=
  [FieldInBytes; FieldInPkts; FieldProtocol; FieldTCPFlags; FieldL4SrcPort; FieldL4DstPort;
   FieldIPv4SrcAddr; FieldIPv4DstAddr; FieldIPv6SrcAddr; FieldIPv6DstAddr;
   FieldInputSNMP; FieldOutputSNMP; FieldSrcAS; FieldDstAS;
   FieldFirstSwitched; FieldLastSwitched; FieldOutBytes; FieldOutPkts;
   FieldSrcVLAN; FieldDstVLAN; FieldSrcTOS; FieldSrcMask; FieldDstMask;
   FieldIPv4NextHop; FieldIPv6NextHop].

(** ** Errors, records, datagrams *)

Inductive nferr := ErrShortPacket | ErrUnsupportedVersion | ErrMalformed | ErrVariableLength.

Record NfRecord := mkNf {
  nProto : Z; nSrcAddr : Addr; nDstAddr : Addr; nSrcPort : Z; nDstPort : Z;
  nBytes : Z; nPackets : Z; InIfIndex : Z; OutIfIndex : Z; First : Time; Last : Time;
  nTCPFlags : Z; nVLANID : Z; nDSCP : Z; nECN : Z; nSrcMask : Z; nDstMask : Z;
  NextHop : Addr; TemplateID : Z }.
#[export] Instance eta_NfRecord : Eta NfRecord := fun r =>
  mkNf (nProto r) (nSrcAddr r) (nDstAddr r) (nSrcPort r) (nDstPort r) (nBytes r) (nPackets r)
    (InIfIndex r) (OutIfIndex r) (First r) (Last r) (nTCPFlags r) (nVLANID r) (nDSCP r) (nECN r)
    (nSrcMask r) (nDstMask r) (NextHop r) (TemplateID r).
Definition zeroNf : NfRecord :=
  mkNf 0 AddrInvalid AddrInvalid 0 0 0 0 0 0 zero_time zero_time 0 0 0 0 0 0 AddrInvalid 0.

Inductive ukind := UnidentifiedField | UnidentifiedOptions | UnidentifiedFlowset.
#[export] Instance ukind_eq_dec : EqDecision ukind.
Proof. solve_decision. Defined.

(** [Unidentified]: a kind of the closed vocabulary and the id it refers to. *)
Definition Unidentified : Type := ukind * Z.

Record Datagram := mkDatagram {
  dVersion : Z; SourceID : Z; Sequence : Z; ExportTime : Time;
  Records : list NfRecord; dUnidentified : list (ukind * Z) }.
#[export] Instance eta_Datagram : Eta Datagram := fun d =>
  mkDatagram (dVersion d) (SourceID d) (Sequence d) (ExportTime d) (Records d) (dUnidentified d).

(** [Datagram.note]: deduplicated and bounded. *)
Definition note (d : Datagram) (u : ukind * Z) : Datagram :=
  if bool_decide (u ∈ dUnidentified d) || (maxUnidentifiedPerDatagram <=? zlen (dUnidentified d))
  then d else d <| dUnidentified ::= fun l => l ++ [u] |>.

Record NfStats := mkNfStats {
  sDatagrams : Z; sRecords : Z; NoTemplate : Z; Malformed : Z; UnsupportedVersion : Z;
  VarLenRejected : Z; TemplatesLearned : Z; TemplatesReplaced : Z; TemplatesEvicted : Z;
  UnexpectedOutBytes : Z; UnexpectedSrcAS : Z; UnexpectedDstAS : Z;
  UnknownFields : Z; OptionsTemplates : Z; UnknownFlowsets : Z }.
#[export] Instance eta_NfStats : Eta NfStats := fun s =>
  mkNfStats (sDatagrams s) (sRecords s) (NoTemplate s) (Malformed s) (UnsupportedVersion s)
    (VarLenRejected s) (TemplatesLearned s) (TemplatesReplaced s) (TemplatesEvicted s)
    (UnexpectedOutBytes s) (UnexpectedSrcAS s) (UnexpectedDstAS s) (UnknownFields s)
    (OptionsTemplates s) (UnknownFlowsets s).
Definition zeroNfStats : NfStats := mkNfStats 0 0 0 0 0 0 0 0 0 0 0 0 0 0 0.
Definition incr (n : Z) : Z := add64 n 1.

(** ** The cache *)

Record templateKey := mkTKey { kExporter : Addr; kSourceID : Z; kId : Z }.
#[export] Instance templateKey_eq_dec : EqDecision templateKey.
Proof. solve_decision. Defined.
#[export] Instance templateKey_countable : Countable templateKey.
Proof.
  refine (inj_countable' (fun k => (kExporter k, kSourceID k, kId k))
            (fun '(a, b, c) => mkTKey a b c) _). by intros [].
Defined.

Record templateField := mkTField { typ : Z; flen : Z }.
#[export] Instance templateField_eq_dec : EqDecision templateField.
Proof. solve_decision. Defined.

Record template := mkTemplate { tfields : list templateField; recLen : Z }.

(** [template.sameShape]. *)
Definition sameShape (t o : template) : bool := bool_decide (tfields t = tfields o).

(** The decoder.  [order] is the LRU list, most recent first; a list node is
    identified with the key it carries, which the list holds at most once. *)
Record Decoder := mkDecoder {
  templates : gmap templateKey template;
  order : list templateKey;
  templateFields : Z;
  stats : NfStats }.
#[export] Instance eta_Decoder : Eta Decoder := fun d =>
  mkDecoder (templates d) (order d) (templateFields d) (stats d).

Definition New : Decoder := mkDecoder ∅ [] 0 zeroNfStats.

(** Unlinking a node of the LRU list. *)
Definition unlink (k : templateKey) (l : list templateKey) : list templateKey :=
  filter (fun x => x <> k) l.

Definition removeTemplate (key : templateKey) (evicted : bool) (d : Decoder) : Decoder :=
  match templates d !! key with
  | None => d
  | Some t =>
      let d := d <| order ::= unlink key |>
                 <| templateFields ::= fun n => n - zlen (tfields t) |>
                 <| templates ::= delete key |> in
      if evicted then d <| stats ::= fun s => s <| TemplatesEvicted ::= incr |> |> else d
  end.

Definition evictLRU (d : Decoder) : Decoder :=
  match last (order d) with
  | None => d
  | Some key => removeTemplate key true d
  end.

(** The two eviction loops of [store]; [None] if the condition never fails. *)
Fixpoint evict_while (fuel : nat) (full : Decoder -> bool) (d : Decoder) : option Decoder :=
  if full d then
    match fuel with
    | O => None
    | S fuel => evict_while fuel full (evictLRU d)
    end
  else Some d.

Definition full_new (t : template) (d : Decoder) : bool :=
  (maxCachedTemplates <=? zsize (templates d))
  || (maxCachedTemplateFields <? templateFields d + zlen (tfields t)).

Definition full_replace (t : template) (d : Decoder) : bool :=
  maxCachedTemplateFields <? templateFields d + zlen (tfields t).

(** [PushFront], the map write and the width account. *)
Definition link (k : templateKey) (t : template) (d : Decoder) : Decoder :=
  d <| order ::= cons k |> <| templates ::= <[k := t]> |>
    <| templateFields ::= fun n => n + zlen (tfields t) |>.

Definition move_front (k : templateKey) (d : Decoder) : Decoder :=
  d <| order ::= fun l => k :: unlink k l |>.

(** [Decoder.store]: whether the shape was taken on, and the new state. *)
Definition store (k : templateKey) (t : template) (d : Decoder) : option (bool * Decoder) :=
  match templates d !! k with
  | None =>
      d ← evict_while (length (order d)) (full_new t) d;
      Some (true, link k t (d <| stats ::= fun s => s <| TemplatesLearned ::= incr |> |>))
  | Some old =>
      if sameShape old t then Some (false, move_front k d)
      else
        let d := d <| stats ::= fun s => s <| TemplatesReplaced ::= incr |> |> in
        let d := removeTemplate k false d in
        d ← evict_while (length (order d)) (full_replace t) d;
        Some (true, link k t d)
  end.

(** [Decoder.lookup]: a hit counts as use. *)
Definition lookup_template (exporter : Addr) (sourceID id : Z) (d : Decoder)
  : option template * Decoder :=
  let k := mkTKey exporter sourceID id in
  match templates d !! k with
  | Some t => (Some t, move_front k d)
  | None => (None, d)
  end.

(** ** Checked reads *)

Definition get16 (off : nat) (b : list Z) : option Z :=
  if (off + 2 <=? length b)%nat then Some (Uint16 off b) else None.
Definition get32 (off : nat) (b : list Z) : option Z :=
  if (off + 4 <=? length b)%nat then Some (Uint32 off b) else None.
Definition subslice (i j : nat) (b : list Z) : option (list Z) :=
  if (i <=? j)%nat && (j <=? length b)%nat then Some (slice i j b) else None.
Definition from (i : nat) (b : list Z) : option (list Z) := subslice i (length b) b.

(** ** Learning templates *)

(** The element list of one definition, from element [i] on. *)
Fixpoint read_fields (set : list Z) (i n : nat) : option (nferr + list templateField) :=
  match n with
  | O => Some (inr [])
  | S n =>
      ty ← get16 (i * 4) set;
      len ← get16 (i * 4 + 2) set;
      if len =? varLenSentinel then Some (inl ErrVariableLength)
      else if len =? 0 then Some (inl ErrMalformed)
      else
        r ← read_fields set (S i) n;
        Some (match r with
              | inl e => inl e
              | inr fs => inr (mkTField ty len :: fs)
              end)
  end.

Definition width (fs : list templateField) : Z := lsum flen fs.

(** The elements of a stored shape the decoder does not model. *)
Definition unknown_of (fs : list templateField) : list (ukind * Z) :=
  map (fun f => (UnidentifiedField, typ f))
      (filter (fun f => typ f ∉ modelledFields) fs).

(** [Decoder.learnTemplates]. *)
Fixpoint learnTemplates (fuel : nat) (set : list Z) (exporter : Addr) (sourceID : Z)
    (unknown : list (ukind * Z)) (d : Decoder)
  : option ((nferr + list (ukind * Z)) * Decoder) :=
  if (length set <? 4)%nat then Some (inr unknown, d)
  else match fuel with
  | O => None
  | S fuel =>
      id ← get16 0 set;
      count ← get16 2 set;
      set ← from 4 set;
      if count =? 0 then Some (inl ErrMalformed, d)
      else if maxFieldsPerTemplate <? count then Some (inl ErrMalformed, d)
      else if zlen set <? count * 4 then Some (inl ErrMalformed, d)
      else
        r ← read_fields set 0 (Z.to_nat count);
        match r with
        | inl e => Some (inl e, d)
        | inr fs =>
            set ← from (Z.to_nat count * 4) set;
            if id <? firstDataFlowsetID then Some (inl ErrMalformed, d)
            else
              '(stored, d) ← store (mkTKey exporter sourceID id) (mkTemplate fs (width fs)) d;
              if (stored : bool) then
                let u := unknown_of fs in
                learnTemplates fuel set exporter sourceID (unknown ++ u)
                  (d <| stats ::= fun s => s <| UnknownFields ::= fun n => add64 n (zlen u) |> |>)
              else learnTemplates fuel set exporter sourceID unknown d
        end
  end.

(** ** The cache invariant *)

Definition field_ok (f : templateField) : Prop := 0 < flen f < varLenSentinel.

Record template_ok (k : templateKey) (t : template) : Prop := {
  tok_id : firstDataFlowsetID <= kId k;
  tok_count : 1 <= zlen (tfields t) <= maxFieldsPerTemplate;
  tok_fields : Forall field_ok (tfields t);
  tok_len : recLen t = width (tfields t) }.

Definition total_fields (m : gmap templateKey template) : Z :=
  msum (fun _ t => zlen (tfields t)) m.

(** Map and list hold the same keys, each once; the width account is exact; every
    template is well formed.  [linked] leaves out the two budgets, which only hold
    between calls of [store]. *)
Record linked (d : Decoder) : Prop := {
  lk_nodup : NoDup (order d);
  lk_keys : forall k, k ∈ order d <-> is_Some (templates d !! k);
  lk_total : templateFields d = total_fields (templates d);
  lk_ok : map_Forall template_ok (templates d) }.

Record cache_ok (d : Decoder) : Prop := {
  co_linked : linked d;
  co_count : zsize (templates d) <= maxCachedTemplates;
  co_width : templateFields d <= maxCachedTemplateFields }.

Lemma New_ok : cache_ok New.
Proof.
  split; [split|done..]; cbn.
  - constructor.
  - intros k. rewrite lookup_empty. split; [set_solver|]. by intros [].
  - unfold total_fields. by rewrite msum_empty.
  - apply map_Forall_empty.
Qed.

(** The statistics are not part of the cache. *)
Lemma cache_ok_stats d f : cache_ok d -> cache_ok (d <| stats ::= f |>).
Proof. intros [[] ? ?]. split; [by split|done..]. Qed.

Lemma linked_stats d f : linked d -> linked (d <| stats ::= f |>).
Proof. intros []. by split. Qed.

Lemma elem_of_unlink k x l : x ∈ unlink k l <-> x ∈ l /\ x <> k.
Proof. unfold unlink. rewrite list_elem_of_filter. tauto. Qed.

Lemma NoDup_unlink k l : NoDup l -> NoDup (unlink k l).
Proof. apply NoDup_filter. Qed.

Lemma linked_remove k ev d : linked d -> linked (removeTemplate k ev d).
Proof.
  intros [Hn Hk Ht Ho]. unfold removeTemplate. destruct (templates d !! k) as [t|] eqn:E; [|done].
  enough (linked (d <| order ::= unlink k |>
                    <| templateFields ::= fun n => n - zlen (tfields t) |>
                    <| templates ::= delete k |>)) as H.
  { destruct ev; [by apply linked_stats|done]. }
  split; cbn.
  - by apply NoDup_unlink.
  - intros x. rewrite elem_of_unlink, Hk, lookup_delete_is_Some. naive_solver.
  - rewrite Ht. unfold total_fields. rewrite (msum_delete _ _ _ _ E). lia.
  - by apply map_Forall_delete.
Qed.

Lemma linked_move k t d : templates d !! k = Some t -> linked d -> linked (move_front k d).
Proof.
  intros E [Hn Hk Ht Ho]. split; cbn; [| |done..].
  - constructor; [|by apply NoDup_unlink]. rewrite elem_of_unlink. tauto.
  - intros x. rewrite elem_of_cons, elem_of_unlink, Hk. split.
    + intros [->|[? _]]; eauto.
    + intros ?. destruct (decide (x = k)); [by left|by right].
Qed.

Lemma linked_link k t d :
  templates d !! k = None -> template_ok k t -> linked d -> linked (link k t d).
Proof.
  intros E Hok [Hn Hk Ht Ho]. split; cbn.
  - constructor; [|done]. rewrite Hk, E. by intros [].
  - intros x. rewrite elem_of_cons, Hk, lookup_insert_is_Some. split.
    + intros [->|?]; [by left|]. destruct (decide (x = k)) as [->|]; [by left|]. by right.
    + intros [->|[_ ?]]; [by left|by right].
  - rewrite Ht. unfold total_fields. rewrite msum_insert_None by done. lia.
  - by apply map_Forall_insert_2.
Qed.

(** ** Eviction

    What the loops of [store] leave is a cache from which only templates at the
    back of the LRU list are missing. *)

Record shrunk (d d' : Decoder) : Prop := {
  sh_order : exists gone, order d = order d' ++ gone;
  sh_templates : forall k, templates d' !! k
                 = if decide (k ∈ order d') then templates d !! k else None }.

Lemma shrunk_refl d : linked d -> shrunk d d.
Proof.
  intros [_ Hk _ _]. split; [exists []; by rewrite app_nil_r|].
  intros k. case_decide as H; [done|]. rewrite Hk in H. by apply eq_None_not_Some.
Qed.

Lemma shrunk_trans d1 d2 d3 : shrunk d1 d2 -> shrunk d2 d3 -> shrunk d1 d3.
Proof.
  intros [[g1 H1] T1] [[g2 H2] T2]. split.
  - exists (g2 ++ g1). by rewrite H1, H2, app_assoc.
  - intros k. rewrite T2. case_decide as Hk; [|done]. rewrite T1, decide_True; [done|].
    rewrite H2. set_solver.
Qed.

Lemma unlink_last l k : NoDup (l ++ [k]) -> unlink k (l ++ [k]) = l.
Proof.
  intros [H1 [H2 _]]%NoDup_app. unfold unlink. rewrite filter_app, filter_cons_False by tauto.
  rewrite filter_nil, app_nil_r. apply filter_all.
  apply Forall_forall. intros x Hx ->. apply (H2 _ Hx). set_solver.
Qed.

(** One eviction takes the template at the back. *)
Lemma evictLRU_spec d k l :
  linked d -> order d = l ++ [k] ->
  order (evictLRU d) = l /\ templates (evictLRU d) = delete k (templates d)
  /\ stats (evictLRU d) = stats d <| TemplatesEvicted ::= incr |>.
Proof.
  intros [Hn Hk _ _] Ho. unfold evictLRU. rewrite Ho, last_snoc. unfold removeTemplate.
  destruct (templates d !! k) as [t|] eqn:E.
  - cbn. rewrite Ho in *. by rewrite unlink_last.
  - exfalso. assert (k ∈ order d) as H by (rewrite Ho; set_solver).
    apply Hk in H as [? ?]. congruence.
Qed.

Lemma evictLRU_shrunk d : linked d -> shrunk d (evictLRU d).
Proof.
  intros Hl. destruct (order d) as [|k l _] eqn:Ho using rev_ind.
  - unfold evictLRU. rewrite Ho. by apply shrunk_refl.
  - destruct (evictLRU_spec d k l Hl Ho) as (H1 & H2 & _). destruct Hl as [Hn Hk _ _].
    split; [exists [k]; congruence|].
    intros x. rewrite H1, H2. rewrite Ho in Hn. apply NoDup_app in Hn as (_ & Hn & _).
    case_decide as Hx.
    + apply lookup_delete_ne. intros ->. apply (Hn _ Hx). set_solver.
    + destruct (decide (x = k)) as [->|Hne]; [by rewrite lookup_delete_eq|].
      rewrite lookup_delete_ne by done. apply eq_None_not_Some. rewrite <- Hk, Ho. set_solver.
Qed.

Lemma evictLRU_linked d : linked d -> linked (evictLRU d).
Proof. unfold evictLRU. destruct (last (order d)); [apply linked_remove|done]. Qed.

Lemma evictLRU_length d : linked d -> length (order (evictLRU d)) = pred (length (order d)).
Proof.
  intros Hl. destruct (order d) as [|k l _] eqn:Ho using rev_ind.
  - unfold evictLRU. rewrite Ho. cbn. by rewrite Ho.
  - destruct (evictLRU_spec d k l Hl Ho) as (-> & _). rewrite length_app. cbn. lia.
Qed.

Lemma linked_empty d : linked d -> order d = [] -> templates d = ∅ /\ templateFields d = 0.
Proof.
  intros [_ Hk Ht _] Ho. assert (templates d = ∅) as E.
  { apply map_eq. intros k. rewrite lookup_empty. apply eq_None_not_Some.
    rewrite <- Hk, Ho. set_solver. }
  split; [done|]. rewrite Ht, E. apply msum_empty.
Qed.

Definition empties (full : Decoder -> bool) : Prop :=
  forall d, templates d = ∅ -> templateFields d = 0 -> full d = false.

(** The loops stop, with the length of the list as their bound. *)
Lemma evict_while_spec full fuel d :
  empties full -> linked d -> (length (order d) <= fuel)%nat ->
  exists d', evict_while fuel full d = Some d' /\ linked d' /\ shrunk d d' /\ full d' = false.
Proof.
  intros Hf. revert d. induction fuel as [|fuel IH]; intros d Hl Hlen; cbn [evict_while];
    destruct (full d) eqn:E; try (exists d; by auto using shrunk_refl).
  - destruct (order d) eqn:Ho; [|cbn in Hlen; lia].
    destruct (linked_empty d Hl Ho). by rewrite Hf in E.
  - destruct (IH (evictLRU d)) as (d' & H1 & H2 & H3 & H4).
    + by apply evictLRU_linked.
    + rewrite evictLRU_length by done. lia.
    + exists d'. eauto 6 using shrunk_trans, evictLRU_shrunk.
Qed.

(** ** [store] and [lookup] *)

(** What [store] does to the cache: the key holds the shape and is the most
    recently used; nothing else changed but templates dropped from the back. *)
Record stored (k : templateKey) (t : template) (d d' : Decoder) : Prop := {
  st_ok : cache_ok d';
  st_here : exists t', templates d' !! k = Some t' /\ tfields t' = tfields t;
  st_front : head (order d') = Some k;
  st_others : exists gone, unlink k (order d) = tail (order d') ++ gone;
  st_same : forall k', k' <> k ->
    templates d' !! k' = if decide (k' ∈ order d') then templates d !! k' else None }.

Lemma full_new_empties k t : template_ok k t -> empties (full_new t).
Proof.
  intros [_ Hc _ _] d E W. unfold full_new. rewrite E, W, zsize_empty.
  unfold maxFieldsPerTemplate, maxCachedTemplates, maxCachedTemplateFields in *.
  apply orb_false_iff. split; lia.
Qed.

Lemma full_replace_empties k t : template_ok k t -> empties (full_replace t).
Proof.
  intros [_ Hc _ _] d E W. unfold full_replace. rewrite W.
  unfold maxFieldsPerTemplate, maxCachedTemplateFields in *. lia.
Qed.

Lemma shrunk_None d d' k : shrunk d d' -> templates d !! k = None -> templates d' !! k = None.
Proof. intros [_ H] E. rewrite H, E. by case_decide. Qed.

(** Linking a key into what an eviction loop left. *)
Lemma link_stored k t d d' :
  templates d !! k = None -> k ∉ order d -> template_ok k t -> linked d' -> shrunk d d' ->
  zsize (templates d') < maxCachedTemplates ->
  templateFields d' + zlen (tfields t) <= maxCachedTemplateFields ->
  stored k t d (link k t d').
Proof.
  intros E Hk Hok Hl Hs Hz Hw. pose proof (shrunk_None _ _ _ Hs E) as E'.
  split.
  - split; [by apply linked_link| |done]. cbn. rewrite zsize_insert_None by done. lia.
  - exists t. cbn. by rewrite lookup_insert_eq.
  - done.
  - destruct Hs as [[gone Hg] _]. exists gone. cbn. rewrite <- Hg. apply filter_all.
    apply Forall_forall. by intros x Hx ->.
  - intros k' Hne. destruct Hs as [_ Hs]. cbn. rewrite lookup_insert_ne, Hs by done.
    destruct (decide (k' ∈ order d')), (decide (k' ∈ k :: order d')); set_solver.
Qed.

(** A decoder with one key taken out, as the replacement path of [store] sees it. *)
Lemma removeTemplate_spec d k t ev :
  templates d !! k = Some t ->
  order (removeTemplate k ev d) = unlink k (order d)
  /\ templates (removeTemplate k ev d) = delete k (templates d)
  /\ templateFields (removeTemplate k ev d) = templateFields d - zlen (tfields t).
Proof. intros E. unfold removeTemplate. rewrite E. by destruct ev. Qed.

Lemma sameShape_fields t o : sameShape t o = true -> tfields t = tfields o.
Proof. apply bool_decide_eq_true. Qed.

Lemma linked_zsize d : linked d -> zsize (templates d) = zlen (order d).
Proof.
  intros [Hn Hk _ _]. unfold zsize, zlen. f_equal.
  rewrite <- (length_map_to_list (templates d)), <- (length_fmap fst).
  apply Permutation_length, NoDup_Permutation; [apply NoDup_fst_map_to_list|done|].
  intros k. rewrite Hk, list_elem_of_fmap. split.
  - intros [[k' t] [-> H]]. apply elem_of_map_to_list in H. by exists t.
  - intros [t H]. exists (k, t). by rewrite elem_of_map_to_list.
Qed.

Lemma store_new k t d :
  cache_ok d -> template_ok k t -> templates d !! k = None ->
  exists d', store k t d = Some (true, d') /\ stored k t d d'.
Proof.
  intros [Hl _ _] Hok E. unfold store. rewrite E.
  destruct (evict_while_spec (full_new t) (length (order d)) d) as (d' & -> & Hl' & Hs & Hf);
    [by eapply full_new_empties|done|done|].
  cbn [mbind option_bind]. eexists. split; [done|].
  unfold full_new in Hf. bool_prop.
  apply (link_stored k t d (d' <| stats ::= _ |>)); try done.
  - rewrite (lk_keys _ Hl), E. by intros [].
  - by apply linked_stats.
  - destruct Hs. by split.
Qed.

Lemma store_refresh k t old d :
  cache_ok d -> templates d !! k = Some old -> sameShape old t = true ->
  exists d', store k t d = Some (false, d') /\ stored k t d d'.
Proof.
  intros [Hl ? ?] E S. unfold store. rewrite E, S. eexists. split; [done|]. split.
  - split; [by eapply linked_move|done..].
  - exists old. by rewrite (sameShape_fields _ _ S).
  - done.
  - exists []. by rewrite app_nil_r.
  - intros k' Hne. case_decide as Hin; [done|]. cbn in Hin. apply eq_None_not_Some.
    rewrite <- (lk_keys _ Hl). rewrite elem_of_cons, elem_of_unlink in Hin. tauto.
Qed.

Lemma store_replace k t old d :
  cache_ok d -> template_ok k t -> templates d !! k = Some old -> sameShape old t = false ->
  exists d', store k t d = Some (true, d') /\ stored k t d d'.
Proof.
  intros [Hl Hz _] Hok E S. unfold store. rewrite E, S.
  set (d1 := d <| stats ::= _ |>). set (d2 := removeTemplate k false d1).
  destruct (removeTemplate_spec d1 k old false E) as (O2 & T2 & _). fold d2 in O2, T2.
  assert (linked d2) as Hl2 by by apply linked_remove, linked_stats.
  destruct (evict_while_spec (full_replace t) (length (order d2)) d2) as (d' & -> & Hl' & Hs & Hf);
    [by eapply full_replace_empties|done|done|].
  cbn [mbind option_bind]. eexists. split; [done|].
  unfold full_replace in Hf. bool_prop.
  assert (stored k t d2 (link k t d')) as [G1 G2 G3 [gone G4] G5].
  { apply link_stored; try done.
    - by rewrite T2, lookup_delete_eq.
    - rewrite O2, elem_of_unlink. tauto.
    - rewrite linked_zsize by done. destruct Hs as [[gone Hg] _].
      apply (f_equal zlen) in Hg. unfold zlen in *. rewrite length_app in Hg.
      assert (zsize (templates d2) = zsize (templates d) - 1) as Hz2.
      { rewrite T2. by apply (zsize_delete _ _ old). }
      rewrite linked_zsize in Hz2 by done. unfold zlen in *. lia. }
  split; [done..| |].
  - exists gone. rewrite <- G4, O2. symmetry. apply filter_all, Forall_forall.
    intros x Hx. apply elem_of_unlink in Hx. tauto.
  - intros k' Hne. rewrite G5, T2 by done. case_decide; [|done]. by apply lookup_delete_ne.
Qed.

(** [store] returns, keeps the invariant, and touches no other key except by
    dropping the least recently used. *)
Lemma store_spec k t d :
  cache_ok d -> template_ok k t -> exists b d', store k t d = Some (b, d') /\ stored k t d d'.
Proof.
  intros Hd Hok. destruct (templates d !! k) as [old|] eqn:E.
  - destruct (sameShape old t) eqn:S.
    + destruct (store_refresh k t old d) as (d' & ? & ?); eauto.
    + destruct (store_replace k t old d) as (d' & ? & ?); eauto.
  - destruct (store_new k t d) as (d' & ? & ?); eauto.
Qed.

Lemma lookup_template_ok exp src id d t d' :
  cache_ok d -> lookup_template exp src id d = (t, d') ->
  cache_ok d' /\ templates d' = templates d /\ t = templates d !! mkTKey exp src id
  /\ stats d' = stats d.
Proof.
  intros [Hl ? ?]. unfold lookup_template. destruct (templates d !! _) as [t0|] eqn:E; intros [= <- <-];
    [|done]. split; [|done]. split; [by eapply linked_move|done..].
Qed.

(** ** Totality of the template reader *)

Lemma get16_Some off b : (off + 2 <= length b)%nat -> get16 off b = Some (Uint16 off b).
Proof. intros H. unfold get16. by apply Nat.leb_le in H as ->. Qed.

Lemma get32_Some off b : (off + 4 <= length b)%nat -> get32 off b = Some (Uint32 off b).
Proof. intros H. unfold get32. by apply Nat.leb_le in H as ->. Qed.

Lemma subslice_Some i j b : (i <= j <= length b)%nat -> subslice i j b = Some (slice i j b).
Proof. intros [H1 H2]. unfold subslice. apply Nat.leb_le in H1, H2. by rewrite H1, H2. Qed.

Lemma from_Some i b : (i <= length b)%nat -> from i b = Some (drop i b).
Proof.
  intros H. unfold from. rewrite subslice_Some by lia. unfold slice. f_equal.
  apply take_ge. rewrite length_drop. lia.
Qed.

Lemma read_fields_spec set i n :
  byte_list set -> ((i + n) * 4 <= length set)%nat ->
  exists r, read_fields set i n = Some r /\
    match r with
    | inl e => e = ErrVariableLength \/ e = ErrMalformed
    | inr fs => length fs = n /\ Forall field_ok fs
    end.
Proof.
  intros Hb. revert i. induction n as [|n IH]; intros i Hlen; [by exists (inr [])|].
  cbn [read_fields]. rewrite !get16_Some by lia. cbn [mbind option_bind].
  destruct (_ =? varLenSentinel) eqn:E1; [eexists; split; [done|by left]|].
  destruct (_ =? 0) eqn:E2; [eexists; split; [done|by right]|].
  destruct (IH (S i)) as (r & -> & Hr); [lia|]. cbn [mbind option_bind]. eexists. split; [done|].
  destruct r as [e|fs]; [done|]. destruct Hr as [Hl Hf]. cbn [length]. split; [congruence|].
  constructor; [|done]. pose proof (Uint16_range (i * 4 + 2) set Hb) as [? ?].
  bool_prop. unfold field_ok, varLenSentinel in *. cbn [flen]. lia.
Qed.

(** The counters that say what became of a datagram, and of its records. *)
Definition outcome (s : NfStats) : Z * Z * Z * Z * Z :=
  (sDatagrams s, Malformed s, UnsupportedVersion s, VarLenRejected s, sRecords s).

Lemma evictLRU_outcome d : outcome (stats (evictLRU d)) = outcome (stats d).
Proof.
  unfold evictLRU. destruct (last _); [|done]. unfold removeTemplate. by destruct (_ !! _).
Qed.

Lemma evict_while_outcome full fuel d d' :
  evict_while fuel full d = Some d' -> outcome (stats d') = outcome (stats d).
Proof.
  revert d. induction fuel as [|fuel IH]; intros d; cbn [evict_while]; destruct (full d);
    intros H; simplify_eq; try done. rewrite (IH _ H). apply evictLRU_outcome.
Qed.

Lemma store_outcome k t d b d' :
  store k t d = Some (b, d') -> outcome (stats d') = outcome (stats d).
Proof.
  unfold store. destruct (templates d !! k) as [old|] eqn:E.
  - destruct (sameShape old t); [by intros [= <- <-]|].
    intros (d1 & H1 & [= <- <-])%bind_Some. apply evict_while_outcome in H1.
    cbn in *. rewrite H1. unfold removeTemplate. cbn. by rewrite E.
  - intros (d1 & H1 & [= <- <-])%bind_Some. by apply evict_while_outcome in H1.
Qed.

(** What a datagram of one observation domain may do to the cache: the templates
    of every other domain are as they were or evicted, never altered. *)
Record advanced (exp : Addr) (src : Z) (d d' : Decoder) : Prop := {
  ad_ok : cache_ok d';
  ad_others : forall k, (kExporter k, kSourceID k) <> (exp, src) ->
    templates d' !! k = templates d !! k \/ templates d' !! k = None }.

Lemma advanced_refl exp src d : cache_ok d -> advanced exp src d d.
Proof. split; auto. Qed.

Lemma advanced_trans exp src d1 d2 d3 :
  advanced exp src d1 d2 -> advanced exp src d2 d3 -> advanced exp src d1 d3.
Proof.
  intros [_ H1] [? H2]. split; [done|]. intros k Hk.
  destruct (H2 k Hk) as [->|]; [|by right]. by apply H1.
Qed.

Lemma advanced_stats exp src d d' f :
  advanced exp src d d' -> advanced exp src d (d' <| stats ::= f |>).
Proof. intros []. split; [by apply cache_ok_stats|done]. Qed.

Lemma stored_advanced exp src id t d d' :
  stored (mkTKey exp src id) t d d' -> advanced exp src d d'.
Proof.
  intros []. split; [done|]. intros k Hk. rewrite st_same0; [case_decide; auto|]. by intros ->.
Qed.

#[export] Hint Resolve advanced_refl advanced_stats advanced_trans : flow.

(** The outcome of [learnTemplates], whatever it returns. *)
Record learned (exp : Addr) (src : Z) (d : Decoder) (r : nferr + list (ukind * Z)) (d' : Decoder)
  : Prop := {
  le_adv : advanced exp src d d';
  le_outcome : outcome (stats d') = outcome (stats d);
  le_err : forall e, r = inl e -> e = ErrVariableLength \/ e = ErrMalformed }.

Lemma learned_err exp src d e :
  cache_ok d -> e = ErrVariableLength \/ e = ErrMalformed ->
  exists r d', Some (inl e, d) = Some (r, d') /\ learned exp src d r d'.
Proof.
  intros Hd He. do 2 eexists. split; [done|]. split; [by auto with flow|done|]. by intros ? [= <-].
Qed.

Lemma learned_step exp src d d1 r d' :
  advanced exp src d d1 -> outcome (stats d1) = outcome (stats d) ->
  learned exp src d1 r d' -> learned exp src d r d'.
Proof.
  intros ? ? []. split; [by eapply advanced_trans|congruence|done].
Qed.

Lemma learnTemplates_spec fuel set exp src unknown d :
  byte_list set -> cache_ok d -> (length set <= fuel)%nat ->
  exists r d', learnTemplates fuel set exp src unknown d = Some (r, d') /\ learned exp src d r d'.
Proof.
  revert set unknown d. induction fuel as [|fuel IH]; intros set unknown d Hb Hd Hlen;
    cbn [learnTemplates]; destruct (length set <? 4)%nat eqn:E4;
    try (do 2 eexists; split; [done|]; by split; auto with flow).
  { apply Nat.ltb_ge in E4. lia. }
  apply Nat.ltb_ge in E4. rewrite !get16_Some, from_Some by lia. cbn [mbind option_bind].
  set (count := Uint16 2 set). set (id := Uint16 0 set).
  pose proof (Uint16_range 2 set Hb) as [Hc1 Hc2]. fold count in Hc1, Hc2.
  destruct (count =? 0) eqn:E1; [by apply learned_err; auto|].
  destruct (maxFieldsPerTemplate <? count) eqn:E2; [by apply learned_err; auto|].
  destruct (zlen (drop 4 set) <? count * 4) eqn:E3; [by apply learned_err; auto|].
  bool_prop. unfold zlen in E3. rewrite length_drop in E3.
  assert (byte_list (drop 4 set)) as Hb4 by by apply Forall_drop.
  destruct (read_fields_spec (drop 4 set) 0 (Z.to_nat count)) as (r & -> & Hr);
    [done|rewrite length_drop; lia|].
  cbn [mbind option_bind]. destruct r as [e|fs]; [by apply learned_err|]. destruct Hr as [Hl Hf].
  rewrite from_Some by (rewrite length_drop; lia). cbn [mbind option_bind].
  destruct (id <? firstDataFlowsetID) eqn:E5; [by apply learned_err; auto|]. bool_prop.
  destruct (store_spec (mkTKey exp src id) (mkTemplate fs (width fs)) d Hd)
    as (b & d1 & Hs & Hst).
  { split; [done| |done|done]. cbn. unfold zlen. lia. }
  rewrite Hs. cbn [mbind option_bind].
  assert (byte_list (drop (Z.to_nat count * 4) (drop 4 set))) by by apply Forall_drop.
  pose proof (stored_advanced _ _ _ _ _ _ Hst). pose proof (store_outcome _ _ _ _ _ Hs).
  destruct b.
  - edestruct IH as (r & d' & -> & Hle); [done|apply cache_ok_stats, Hst|rewrite !length_drop; lia|].
    do 2 eexists. split; [done|]. eapply learned_step; [..|exact Hle]; [by apply advanced_stats|done].
  - edestruct IH as (r & d' & -> & Hle); [done|apply Hst|rewrite !length_drop; lia|].
    do 2 eexists. split; [done|]. by eapply learned_step.
Qed.

End Netflow.
