(* ===== verification/Decode.v ===== *)
(** * The NetFlow v5/v9 decoder ([internal/flow/netflow/decode.go])

    [Decode] walks one datagram against the template cache of [Template].  A slice
    read out of range is a panic in Go and [None] here, and a loop that does not
    stop is [None] as well, so that "[Decode] returns" is a statement: the
    datagrams come from an unauthenticated UDP socket. *)

From stdpp Require Import base decidable list gmap sets strings.
From Stdlib Require Import ZArith Lia.
From S2P Require Import Prelude Netip Template.
Import Netflow.

Module Decode.

Definition V5 : Z := 5.
Definition V9 : Z := 9.

(** ** Element readers *)

Definition num (b : list Z) : Z :=
  if (maxIntWidth <? length b)%nat then 0
  else fold_left (fun v x => Z.lor (u64 (Z.shiftl v 8)) x) b 0.

Definition addrOf (b : list Z) : option Addr :=
  match AddrFromSlice b with
  | None => None
  | Some a => Some (Unmap a)
  end.

Definition switchedAt (exportTime : Time) (sysUpTime switched : Z) : Time :=
  if sysUpTime <=? switched then exportTime
  else time_Add exportTime (- (u32 (sysUpTime - switched)) * Millisecond).

Definition exportTimeOf (secs nsecs : Z) (now : Time) : Time :=
  if secs =? 0 then now else time_Unix secs nsecs.

(** ** One v9 data record *)

(** The locals of [readRecord]; [first, haveFirst] is an option. *)
Record scan := mkScan {
  rec : NfRecord; first : option Z; last_ : option Z;
  outUnexpected : bool; srcASUnexpected : bool; dstASUnexpected : bool }.
#[export] Instance eta_scan : Eta scan := fun s =>
  mkScan (rec s) (first s) (last_ s) (outUnexpected s) (srcASUnexpected s) (dstASUnexpected s).
Definition zeroScan : scan := mkScan zeroNf None None false false false.

(** The body of the field loop: one element, its declared bytes [v]. *)
Definition read_elem (ty : Z) (v : list Z) (s : scan) : scan :=
  let set_rec (f : NfRecord -> NfRecord) := s <| rec ::= f |> in
  if ty =? FieldInBytes then set_rec (fun r => r <| nBytes := num v |>)
  else if ty =? FieldInPkts then set_rec (fun r => r <| nPackets := num v |>)
  else if ty =? FieldProtocol then set_rec (fun r => r <| nProto := u8 (num v) |>)
  else if ty =? FieldTCPFlags then set_rec (fun r => r <| nTCPFlags := u8 (num v) |>)
  else if ty =? FieldL4SrcPort then set_rec (fun r => r <| nSrcPort := u16 (num v) |>)
  else if ty =? FieldL4DstPort then set_rec (fun r => r <| nDstPort := u16 (num v) |>)
  else if (ty =? FieldIPv4SrcAddr) || (ty =? FieldIPv6SrcAddr) then
    match addrOf v with
    | Some a => set_rec (fun r => r <| nSrcAddr := a |>)
    | None => s
    end
  else if (ty =? FieldIPv4DstAddr) || (ty =? FieldIPv6DstAddr) then
    match addrOf v with
    | Some a => set_rec (fun r => r <| nDstAddr := a |>)
    | None => s
    end
  else if ty =? FieldInputSNMP then set_rec (fun r => r <| InIfIndex := u32 (num v) |>)
  else if ty =? FieldOutputSNMP then set_rec (fun r => r <| OutIfIndex := u32 (num v) |>)
  else if (ty =? FieldSrcAS) || (ty =? FieldDstAS) then
    if num v =? 0 then s
    else if ty =? FieldSrcAS then s <| srcASUnexpected := true |>
    else s <| dstASUnexpected := true |>
  else if ty =? FieldFirstSwitched then s <| first := Some (u32 (num v)) |>
  else if ty =? FieldLastSwitched then s <| last_ := Some (u32 (num v)) |>
  else if (ty =? FieldOutBytes) || (ty =? FieldOutPkts) then
    if num v =? 0 then s else s <| outUnexpected := true |>
  else if ty =? FieldSrcTOS then
    let b := u8 (num v) in
    set_rec (fun r => r <| nDSCP := Z.shiftr b 2 |> <| nECN := Z.land b 3 |>)
  else if ty =? FieldSrcMask then set_rec (fun r => r <| nSrcMask := u8 (num v) |>)
  else if ty =? FieldDstMask then set_rec (fun r => r <| nDstMask := u8 (num v) |>)
  else if (ty =? FieldIPv4NextHop) || (ty =? FieldIPv6NextHop) then
    match addrOf v with
    | Some a => if IsUnspecified a then s else set_rec (fun r => r <| NextHop := a |>)
    | None => s
    end
  else if (ty =? FieldSrcVLAN) || (ty =? FieldDstVLAN) then
    if (ty =? FieldSrcVLAN) || (nVLANID (rec s) =? 0)
    then set_rec (fun r => r <| nVLANID := u16 (num v) |>) else s
  else s.

Fixpoint read_elems (buf : list Z) (off : nat) (fs : list templateField) (s : scan) : option scan :=
  match fs with
  | [] => Some s
  | f :: fs =>
      v ← subslice off (off + Z.to_nat (flen f)) buf;
      read_elems buf (off + Z.to_nat (flen f)) fs (read_elem (typ f) v s)
  end.

(** The counters a record may raise after its elements were read. *)
Definition count_unexpected (s : scan) (st : NfStats) : NfStats :=
  let st := if outUnexpected s then st <| UnexpectedOutBytes ::= incr |> else st in
  let st := if srcASUnexpected s then st <| UnexpectedSrcAS ::= incr |> else st in
  if dstASUnexpected s then st <| UnexpectedDstAS ::= incr |> else st.

Definition finish (exportTime : Time) (sysUpTime : Z) (s : scan) : NfRecord :=
  let r := rec s in
  let r := match first s with
           | Some f => r <| First := switchedAt exportTime sysUpTime f |>
           | None => r
           end in
  match last_ s with
  | Some l => r <| Last := switchedAt exportTime sysUpTime l |>
  | None => r
  end.

Definition readRecord (buf : list Z) (t : template) (exportTime : Time) (sysUpTime : Z)
    (d : Decoder) : option (NfRecord * Decoder) :=
  s ← read_elems buf 0 (tfields t) zeroScan;
  Some (finish exportTime sysUpTime s, d <| stats ::= count_unexpected s |>).

(** ** One data flowset *)

Fixpoint read_records (fuel : nat) (dg : Datagram) (set : list Z) (t : template) (id : Z)
    (sysUpTime : Z) (d : Decoder) : option (Datagram * Decoder) :=
  if recLen t <=? zlen set then
    match fuel with
    | O => None
    | S fuel =>
        buf ← subslice 0 (Z.to_nat (recLen t)) set;
        '(rec, d) ← readRecord buf t (ExportTime dg) sysUpTime d;
        let rec := rec <| TemplateID := id |> in
        let dg := dg <| Records ::= fun l => l ++ [rec] |> in
        set ← from (Z.to_nat (recLen t)) set;
        read_records fuel dg set t id sysUpTime d
    end
  else Some (dg, d).

Definition bump_malformed (d : Decoder) : Decoder :=
  d <| stats ::= fun s => s <| Malformed ::= incr |> |>.

Definition readDataFlowset (dg : Datagram) (set : list Z) (exporter : Addr) (id : Z)
    (sysUpTime : Z) (d : Decoder) : option ((nferr + Datagram) * Decoder) :=
  let '(ot, d) := lookup_template exporter (SourceID dg) id d in
  match ot with
  | None => Some (inr dg, d <| stats ::= fun s => s <| NoTemplate ::= incr |> |>)
  | Some t =>
      if recLen t <=? 0 then Some (inr dg, bump_malformed d)
      else if maxRecordsPerDatagram <? zlen (Records dg) + zlen set / recLen t
      then Some (inl ErrMalformed, d)
      else
        '(dg, d) ← read_records (length set) dg set t id sysUpTime d;
        Some (inr dg, d)
  end.

(** ** The flowset walk *)

Definition note_all (dg : Datagram) (us : list (ukind * Z)) : Datagram := fold_left note us dg.

(** One flowset of the loop of [decodeV9]; on an error the matching counter has
    been raised. *)
Definition flowset (id : Z) (set : list Z) (exporter : Addr) (sysUpTime : Z)
    (dg : Datagram) (d : Decoder) : option ((nferr + Datagram) * Decoder) :=
  if id =? flowsetTemplate then
    '(r, d) ← learnTemplates (length set) set exporter (SourceID dg) [] d;
    match r with
    | inl e =>
        Some (inl e, match e with
                     | ErrVariableLength => d <| stats ::= fun s => s <| VarLenRejected ::= incr |> |>
                     | _ => bump_malformed d
                     end)
    | inr unknown => Some (inr (note_all dg unknown), d)
    end
  else if id =? flowsetOptionsTemplate then
    Some (inr (note dg (UnidentifiedOptions, id)),
          d <| stats ::= fun s => s <| OptionsTemplates ::= incr |> |>)
  else if id <? firstDataFlowsetID then
    Some (inr (note dg (UnidentifiedFlowset, id)),
          d <| stats ::= fun s => s <| UnknownFlowsets ::= incr |> |>)
  else
    '(r, d) ← readDataFlowset dg set exporter id sysUpTime d;
    match r with
    | inl e => Some (inl e, bump_malformed d)
    | inr dg => Some (inr dg, d)
    end.

Fixpoint walk (fuel : nat) (body : list Z) (exporter : Addr) (sysUpTime : Z)
    (dg : Datagram) (d : Decoder) : option ((nferr + Datagram) * Decoder) :=
  if (length body <? 4)%nat then Some (inr dg, d)
  else match fuel with
  | O => None
  | S fuel =>
      id ← get16 0 body;
      len ← get16 2 body;
      if (len <? 4) || (zlen body <? len) then Some (inl ErrMalformed, bump_malformed d)
      else
        set ← subslice 4 (Z.to_nat len) body;
        body ← from (Z.to_nat len) body;
        '(r, d) ← flowset id set exporter sysUpTime dg d;
        match r with
        | inl e => Some (inl e, d)
        | inr dg => walk fuel body exporter sysUpTime dg d
        end
  end.

(** The accounting both versions end with. *)
Definition account (dg : Datagram) (d : Decoder) : Decoder :=
  d <| stats ::= fun s =>
    s <| sDatagrams ::= incr |> <| sRecords ::= fun n => add64 n (zlen (Records dg)) |> |>.

Definition decodeV9 (payload : list Z) (exporter : Addr) (now : Time) (d : Decoder)
  : option ((nferr + Datagram) * Decoder) :=
  if (length payload <? v9HeaderLen)%nat then Some (inl ErrShortPacket, bump_malformed d)
  else
    sysUpTime ← get32 4 payload;
    seq ← get32 12 payload;
    src ← get32 16 payload;
    secs ← get32 8 payload;
    body ← from v9HeaderLen payload;
    '(r, d) ← walk (length body) body exporter sysUpTime
                (mkDatagram V9 src seq (exportTimeOf secs 0 now) [] []) d;
    match r with
    | inl e => Some (inl e, d)
    | inr dg => Some (inr dg, account dg d)
    end.

(** ** Version 5 *)

Definition get8 (off : nat) (b : list Z) : option Z := b !! off.

Definition record5 (r : list Z) (exportTime : Time) (sysUpTime : Z) : option NfRecord :=
  inIf ← get16 12 r; outIf ← get16 14 r; pkts ← get32 16 r; bytes ← get32 20 r;
  sport ← get16 32 r; dport ← get16 34 r; flags ← get8 37 r; proto ← get8 38 r;
  fst ← get32 24 r; lst ← get32 28 r; src ← subslice 0 4 r; dst ← subslice 4 8 r;
  let n := zeroNf <| InIfIndex := inIf |> <| OutIfIndex := outIf |> <| nPackets := pkts |>
             <| nBytes := bytes |> <| nSrcPort := sport |> <| nDstPort := dport |>
             <| nTCPFlags := flags |> <| nProto := proto |>
             <| First := switchedAt exportTime sysUpTime fst |>
             <| Last := switchedAt exportTime sysUpTime lst |> in
  let n := match addrOf src with Some a => n <| nSrcAddr := a |> | None => n end in
  Some (match addrOf dst with Some a => n <| nDstAddr := a |> | None => n end).

Fixpoint records5 (body : list Z) (i n : nat) (exportTime : Time) (sysUpTime : Z)
  : option (list NfRecord) :=
  match n with
  | O => Some []
  | S n =>
      r ← subslice (i * v5RecordLen) (S i * v5RecordLen) body;
      rec ← record5 r exportTime sysUpTime;
      rest ← records5 body (S i) n exportTime sysUpTime;
      Some (rec :: rest)
  end.

Definition decodeV5 (payload : list Z) (now : Time) (d : Decoder)
  : option ((nferr + Datagram) * Decoder) :=
  if (length payload <? v5HeaderLen)%nat then Some (inl ErrShortPacket, bump_malformed d)
  else
    count ← get16 2 payload;
    sysUpTime ← get32 4 payload;
    seq ← get32 16 payload;
    secs ← get32 8 payload;
    nsecs ← get32 12 payload;
    let exportTime := exportTimeOf secs nsecs now in
    body ← from v5HeaderLen payload;
    if zlen body <? count * Z.of_nat v5RecordLen then Some (inl ErrMalformed, bump_malformed d)
    else
      recs ← records5 body 0 (Z.to_nat count) exportTime sysUpTime;
      let dg := mkDatagram V5 0 seq exportTime recs [] in
      Some (inr dg, account dg d).

(** ** [Decode] *)

Definition Decode (payload : list Z) (exporter : Addr) (now : Time) (d : Decoder)
  : option ((nferr + Datagram) * Decoder) :=
  if (length payload <? 2)%nat then Some (inl ErrShortPacket, bump_malformed d)
  else
    version ← get16 0 payload;
    if version =? V9 then decodeV9 payload exporter now d
    else if version =? V5 then decodeV5 payload now d
    else Some (inl ErrUnsupportedVersion,
               d <| stats ::= fun s => s <| UnsupportedVersion ::= incr |> |>).

(** ** Numbers and instants *)

Lemma lor_low8 v x : is_u8 x -> Z.lor (Z.shiftl v 8) x = v * 256 + x.
Proof.
  intros [Hx1 Hx2]. pose proof (Z.add_lor_land (Z.shiftl v 8) x) as H.
  assert (Z.land (Z.shiftl v 8) x = 0) as H0.
  { apply Z.bits_inj'. intros n Hn. rewrite Z.land_spec, Z.bits_0.
    destruct (Z.lt_ge_cases n 8); [by rewrite Z.shiftl_spec_low|].
    destruct (Z.eq_dec x 0) as [->|]; [by rewrite Z.bits_0, andb_false_r|].
    assert (Z.log2 x < 8) by (apply Z.log2_lt_pow2; lia).
    rewrite (Z.bits_above_log2 x) by lia. apply andb_false_r. }
  rewrite Z.shiftl_mul_pow2 in * by lia. change (2 ^ 8) with 256 in *. lia.
Qed.

(** [num] is the big-endian value, for every width it accepts. *)
Lemma num_be b : byte_list b -> (length b <= maxIntWidth)%nat -> num b = be_val b.
Proof.
  intros Hb Hl. unfold num. 
  assert ((maxIntWidth <? length b)%nat = false) as -> by by apply Nat.ltb_ge.
  unfold maxIntWidth in Hl. induction b as [|x l IH] using rev_ind; [done|].
  apply Forall_app in Hb as [Hb Hx]. apply Forall_cons_1 in Hx as [Hx _].
  rewrite length_app in Hl. cbn in Hl.
  rewrite fold_left_app, be_val_snoc, IH by (done || lia). cbn [fold_left].
  pose proof (be_val_le l 7 Hb ltac:(lia)) as [? Hv]. change (256 ^ Z.of_nat 7) with (2 ^ 56) in Hv.
  rewrite u64_small; [by apply lor_low8|]. rewrite Z.shiftl_mul_pow2 by lia.
  split; [lia|]. change M64 with (2 ^ 56 * 2 ^ 8). nia.
Qed.

Lemma num_range b : byte_list b -> is_u64 (num b).
Proof.
  intros Hb. destruct (decide (length b <= maxIntWidth)%nat) as [H|H].
  - rewrite num_be by done. by apply (be_val_le b 8).
  - unfold num. assert ((maxIntWidth <? length b)%nat = true) as -> by (apply Nat.ltb_lt; lia).
    done.
Qed.

Lemma switchedAt_bounds et up sw :
  is_u32 up -> is_u32 sw -> et - 2 ^ 32 * Millisecond < switchedAt et up sw <= et.
Proof.
  intros [? ?] [? ?]. unfold switchedAt, Millisecond, time_Add. destruct (up <=? sw) eqn:E; [lia|].
  bool_prop. rewrite u32_small by (split; lia). lia.
Qed.

(** ** Well-formed records *)

(** An address as the rest of the pipeline expects it: in range and never in the
    IPv4-mapped form. *)
Definition addr_clean (a : Addr) : Prop := addr_wf a /\ Unmap a = a.

Record nf_ok (r : NfRecord) : Prop := {
  ok_proto : is_u8 (nProto r);
  ok_src : addr_clean (nSrcAddr r);
  ok_dst : addr_clean (nDstAddr r);
  ok_sport : is_u16 (nSrcPort r);
  ok_dport : is_u16 (nDstPort r);
  ok_bytes : is_u64 (nBytes r);
  ok_packets : is_u64 (nPackets r);
  ok_in : is_u32 (InIfIndex r);
  ok_out : is_u32 (OutIfIndex r);
  ok_flags : is_u8 (nTCPFlags r);
  ok_vlan : is_u16 (nVLANID r);
  ok_dscp : 0 <= nDSCP r < 64;
  ok_ecn : 0 <= nECN r < 4;
  ok_smask : is_u8 (nSrcMask r);
  ok_dmask : is_u8 (nDstMask r);
  ok_hop : addr_clean (NextHop r) /\ IsUnspecified (NextHop r) = false }.

(** A time of a record: absent, or at most one wrap of the uptime counter before
    the export and never after it. *)
Definition time_ok (et t : Time) : Prop :=
  t = zero_time \/ et - 2 ^ 32 * Millisecond < t <= et.

Record record_ok (et : Time) (r : NfRecord) : Prop := {
  ro_nf : nf_ok r;
  ro_first : time_ok et (First r);
  ro_last : time_ok et (Last r) }.

Record scan_ok (s : scan) : Prop := {
  so_rec : nf_ok (rec s);
  so_none : First (rec s) = zero_time /\ Last (rec s) = zero_time;
  so_first : forall t, first s = Some t -> is_u32 t;
  so_last : forall t, last_ s = Some t -> is_u32 t }.

Lemma zeroScan_ok : scan_ok zeroScan.
Proof. split; [|done..]. by split; cbn. Qed.

Lemma addrOf_clean v a : byte_list v -> addrOf v = Some a -> addr_clean a.
Proof.
  intros Hb. unfold addrOf. destruct (AddrFromSlice v) as [b|] eqn:E; [|done].
  intros [= <-]. split; [|by apply Unmap_idemp].
  apply Unmap_wf. by eapply AddrFromSlice_wf.
Qed.

Lemma dscp_range b : is_u8 b -> 0 <= Z.shiftr b 2 < 64.
Proof.
  intros [? ?]. rewrite Z.shiftr_div_pow2 by lia. change (2 ^ 2) with 4.
  change (2 ^ 8) with 256 in *. Z.to_euclidean_division_equations. lia.
Qed.

Lemma ecn_range b : is_u8 b -> 0 <= Z.land b 3 < 4.
Proof. intros _. change 3 with (Z.ones 2). rewrite Z.land_ones by lia. by apply Z.mod_pos_bound. Qed.

#[local] Hint Resolve num_range addrOf_clean dscp_range ecn_range : flow.

Lemma read_elem_ok ty v s : byte_list v -> scan_ok s -> scan_ok (read_elem ty v s).
Proof.
  intros Hb [Hr Hn Hf Hl]. pose proof Hr as []. unfold read_elem.
  repeat case_match; (split; [|done..]) || (split; cbn; [done..| | ]) || done;
    try (split; cbn; by eauto with flow).
  all: try (intros ? [= <-]; by auto with flow). all: done.
Qed.

(** ** Framing, stated without cursors

    The bytes of a record split at the template's widths; [interpret] reads each
    element from its own bytes. *)

Fixpoint elem_bytes (fs : list templateField) (buf : list Z) : list (list Z) :=
  match fs with
  | [] => []
  | f :: fs => take (Z.to_nat (flen f)) buf :: elem_bytes fs (drop (Z.to_nat (flen f)) buf)
  end.

Definition interpret (fs : list templateField) (vs : list (list Z)) : scan :=
  fold_left (fun s p => read_elem (typ (fst p)) (snd p) s) (zip fs vs) zeroScan.

Definition record_of (t : template) (et : Time) (up id : Z) (buf : list Z) : NfRecord :=
  finish et up (interpret (tfields t) (elem_bytes (tfields t) buf)) <| TemplateID := id |>.

Lemma width_cons f fs : width (f :: fs) = flen f + width fs.
Proof. done. Qed.

Lemma width_nonneg fs : Forall field_ok fs -> 0 <= width fs.
Proof.
  induction 1 as [|f fs [Hf _] _ IH]; [done|]. rewrite width_cons. lia.
Qed.

Lemma width_pos fs : Forall field_ok fs -> 1 <= zlen fs -> 0 < width fs.
Proof.
  intros [|f fs' [Hf _] Hfs] Hl; [unfold zlen in Hl; cbn in Hl; lia|].
  rewrite width_cons. pose proof (width_nonneg _ Hfs). lia.
Qed.

Lemma recLen_pos k t : template_ok k t -> 0 < recLen t.
Proof. intros [_ Hc Hf ->]. apply width_pos; [done|lia]. Qed.

Lemma read_elems_fold buf off fs s :
  Forall field_ok fs -> Z.of_nat off + width fs <= zlen buf ->
  read_elems buf off fs s
  = Some (fold_left (fun s p => read_elem (typ (fst p)) (snd p) s)
            (zip fs (elem_bytes fs (drop off buf))) s).
Proof.
  intros Hf. revert off s. induction Hf as [|f fs [Hf _] Hfs IH]; intros off s Hl; [done|].
  pose proof (width_nonneg _ Hfs). rewrite width_cons in Hl. unfold zlen in Hl.
  cbn [read_elems]. rewrite subslice_Some by lia. cbn [mbind option_bind].
  rewrite IH by (unfold zlen; lia). cbn [elem_bytes zip zip_with fold_left fst snd].
  unfold slice. replace (off + Z.to_nat (flen f) - off)%nat with (Z.to_nat (flen f)) by lia.
  by rewrite drop_drop.
Qed.

Lemma elem_bytes_bytes fs buf : byte_list buf -> Forall byte_list (elem_bytes fs buf).
Proof.
  revert buf. induction fs as [|f fs IH]; intros buf Hb; [constructor|]. cbn.
  constructor; [by apply Forall_take|]. by apply IH, Forall_drop.
Qed.

Lemma fold_scan_ok (ps : list (templateField * list Z)) s :
  Forall (fun p => byte_list (snd p)) ps -> scan_ok s ->
  scan_ok (fold_left (fun s p => read_elem (typ (fst p)) (snd p) s) ps s).
Proof. intros H. revert s. induction H; intros s Hs; [done|]. by apply IHForall, read_elem_ok. Qed.

Lemma zip_snd_Forall {A B} (P : B -> Prop) (l : list A) (k : list B) :
  Forall P k -> Forall (fun p => P (snd p)) (zip l k).
Proof. intros H. revert l. induction H as [|b k Hb Hk IH]; intros [|a l]; cbn; constructor; auto. Qed.

Lemma interpret_ok fs buf : byte_list buf -> scan_ok (interpret fs (elem_bytes fs buf)).
Proof.
  intros Hb. apply fold_scan_ok; [|by apply zeroScan_ok].
  by apply zip_snd_Forall, elem_bytes_bytes.
Qed.

Lemma finish_ok et up s : is_u32 up -> scan_ok s -> record_ok et (finish et up s).
Proof.
  intros Hu [[] [H1 H2] Hf Hl]. unfold finish.
  destruct (first s) as [f|], (last_ s) as [l|]; split; try (by split); cbn;
    rewrite ?H1, ?H2; try (by left); right; apply switchedAt_bounds; auto.
Qed.

Lemma record_of_ok t et up id buf :
  is_u32 up -> byte_list buf -> record_ok et (record_of t et up id buf).
Proof.
  intros Hu Hb. destruct (finish_ok et up _ Hu (interpret_ok (tfields t) buf Hb)) as [[] ? ?].
  by split; [split|..].
Qed.

Lemma readRecord_spec buf k t et up d :
  template_ok k t -> zlen buf = recLen t ->
  exists d', readRecord buf t et up d
           = Some (finish et up (interpret (tfields t) (elem_bytes (tfields t) buf)), d')
    /\ exists f, d' = d <| stats ::= f |> /\ (forall s, outcome (f s) = outcome s).
Proof.
  intros [_ _ Hf Hw] Hl. unfold readRecord. rewrite read_elems_fold by (done || lia).
  cbn [mbind option_bind drop]. eexists. split; [done|]. eexists. split; [done|].
  intros s. unfold count_unexpected. by repeat case_match.
Qed.

(** A flowset body is whole records followed by less than one record. *)
Lemma split_chunks (n : nat) (set : list Z) :
  (0 < n)%nat -> exists bs pad, set = concat bs ++ pad
    /\ Forall (fun b => length b = n) bs /\ (length pad < n)%nat.
Proof.
  intros Hn. remember (length set) as m eqn:Hm. revert set Hm.
  induction (lt_wf m) as [m _ IH]. intros set ->.
  destruct (decide (length set < n)%nat) as [H|H]; [by exists [], set|].
  destruct (IH (length (drop n set))) with (set := drop n set) as (bs & pad & E & Hb & Hp);
    [rewrite length_drop; lia|done|].
  exists (take n set :: bs), pad. split; [|split; [|done]].
  - cbn [concat]. by rewrite <- app_assoc, <- E, take_drop.
  - constructor; [|done]. rewrite length_take. lia.
Qed.

Lemma length_concat_chunks (n : nat) (bs : list (list Z)) :
  Forall (fun b => length b = n) bs -> length (concat bs) = (length bs * n)%nat.
Proof. induction 1 as [|b bs Hb _ IH]; [done|]. cbn. rewrite length_app, Hb, IH. lia. Qed.

Lemma chunks_count (n : Z) (bs : list (list Z)) pad :
  0 < n -> Forall (fun b => length b = Z.to_nat n) bs -> (length pad < Z.to_nat n)%nat ->
  zlen (concat bs ++ pad) / n = zlen bs.
Proof.
  intros Hn Hb Hp. unfold zlen. rewrite length_app, (length_concat_chunks (Z.to_nat n)) by done.
  symmetry. apply Z.div_unique with (Z.of_nat (length pad)); lia.
Qed.

Lemma take_app_exact {A} n (l k : list A) : length l = n -> take n (l ++ k) = l.
Proof. intros <-. apply take_app_length. Qed.

Lemma drop_app_exact {A} n (l k : list A) : length l = n -> drop n (l ++ k) = k.
Proof. intros <-. apply drop_app_length. Qed.

Lemma read_records_spec fuel dg bs pad k t id up d :
  template_ok k t ->
  Forall (fun b => length b = Z.to_nat (recLen t)) bs -> (length pad < Z.to_nat (recLen t))%nat ->
  (length bs <= fuel)%nat ->
  exists d', read_records fuel dg (concat bs ++ pad) t id up d
    = Some (dg <| Records ::= fun l => l ++ map (record_of t (ExportTime dg) up id) bs |>, d')
    /\ exists f, d' = d <| stats ::= f |> /\ (forall s, outcome (f s) = outcome s).
Proof.
  intros Ht Hb Hp. pose proof (recLen_pos _ _ Ht) as Hpos. revert fuel dg d.
  induction Hb as [|b bs Hl Hb IH]; intros fuel dg d Hfuel; cbn [concat app].
  - exists d. split; [|exists (fun s => s); by destruct d].
    assert (recLen t <=? zlen pad = false) as E by (unfold zlen; lia).
    destruct fuel; cbn [read_records]; rewrite E; cbn [map]; destruct dg; unfold update;
      cbn; by rewrite app_nil_r.
  - destruct fuel as [|fuel]; [cbn in Hfuel; lia|]. cbn [read_records].
    rewrite <- app_assoc. cbv beta in Hl.
    assert (recLen t <=? zlen (b ++ concat bs ++ pad) = true) as ->.
    { apply Z.leb_le. unfold zlen. rewrite length_app, Hl. clear -Hpos. lia. }
    assert (Z.to_nat (recLen t) <= length (b ++ concat bs ++ pad))%nat.
    { rewrite length_app. lia. }
    rewrite subslice_Some, from_Some by lia. cbn [mbind option_bind].
    unfold slice. rewrite Nat.sub_0_r, drop_0, take_app_exact, drop_app_exact by done.
    destruct (readRecord_spec b k t (ExportTime dg) up d Ht) as (d1 & -> & f & Hd1 & Hf);
      [unfold zlen; lia|].
    cbn [mbind option_bind].
    destruct (IH fuel (dg <| Records ::= fun l => l ++ [record_of t (ExportTime dg) up id b] |>) d1)
      as (d2 & Hr & g & Hd2 & Hg); [cbn in Hfuel; lia|].
    exists d2. split; [etransitivity; [exact Hr|]|exists (fun s => g (f s)); split; [by subst|by intros s; rewrite Hg, Hf]].
    unfold update; cbn. by rewrite <- app_assoc.
Qed.

(** ** The datagram under construction *)

Record dg_ok (dg : Datagram) : Prop := {
  dk_count : zlen (Records dg) <= maxRecordsPerDatagram;
  dk_records : Forall (record_ok (ExportTime dg)) (Records dg);
  dk_notes : NoDup (dUnidentified dg);
  dk_nnotes : zlen (dUnidentified dg) <= maxUnidentifiedPerDatagram }.

(** The header of a datagram does not change while its flowsets are walked. *)
Definition header (dg : Datagram) : Z * Z * Z * Time :=
  (dVersion dg, SourceID dg, Sequence dg, ExportTime dg).

Lemma note_ok dg u : dg_ok dg -> dg_ok (note dg u) /\ header (note dg u) = header dg.
Proof.
  intros [? ? Hn Hl]. unfold note. destruct (_ || _) eqn:E; [done|]. bool_prop.
  apply bool_decide_eq_false in H. split; [|done]. split; cbn; [done..| |].
  - apply NoDup_app. split; [done|]. split; [set_solver|]. apply NoDup_singleton.
  - unfold zlen in *. rewrite length_app. cbn. unfold maxUnidentifiedPerDatagram in *. lia.
Qed.

Lemma note_all_ok us dg : dg_ok dg -> dg_ok (note_all dg us) /\ header (note_all dg us) = header dg.
Proof.
  revert dg. induction us as [|u us IH]; intros dg H; [done|].
  destruct (note_ok dg u H) as [H1 H2]. destruct (IH _ H1) as [H3 H4].
  split; [done|]. by rewrite <- H2.
Qed.

(** The counters after a step that ended in [r]: an error raises exactly the one
    that names it. *)
Definition raised {A} (r : nferr + A) (s : Z * Z * Z * Z * Z) : Z * Z * Z * Z * Z :=
  let '(dgs, mal, ver, var, recs) := s in
  match r with
  | inr _ => s
  | inl ErrVariableLength => (dgs, mal, ver, incr var, recs)
  | inl ErrUnsupportedVersion => (dgs, mal, incr ver, var, recs)
  | inl _ => (dgs, incr mal, ver, var, recs)
  end.

(** What every stage of the walk guarantees of its result. *)
Record stage (exp : Addr) (dg : Datagram) (d : Decoder) (r : nferr + Datagram) (d' : Decoder)
  : Prop := {
  sg_adv : advanced exp (SourceID dg) d d';
  sg_outcome : outcome (stats d') = raised r (outcome (stats d));
  sg_dg : forall dg', r = inr dg' -> dg_ok dg' /\ header dg' = header dg }.

Lemma stage_malformed exp dg d d' e :
  advanced exp (SourceID dg) d d' -> outcome (stats d') = outcome (stats d) ->
  e = ErrMalformed \/ e = ErrShortPacket ->
  stage exp dg d (inl e) (bump_malformed d').
Proof.
  intros Ha Ho He. split; [by apply advanced_stats| |done].
  change (outcome (stats (bump_malformed d'))) with
    (let '(a, b, c, e, f) := outcome (stats d') in (a, incr b, c, e, f)).
  rewrite Ho. by destruct He as [-> | ->].
Qed.

Lemma stage_stats exp dg d dg' d' f :
  advanced exp (SourceID dg) d d' -> outcome (stats d') = outcome (stats d) ->
  (forall s, outcome (f s) = outcome s) -> dg_ok dg' -> header dg' = header dg ->
  stage exp dg d (inr dg') (d' <| stats ::= f |>).
Proof.
  intros Ha Ho Hf Hdg Hh. split; [by apply advanced_stats| |by intros ? [= <-]].
  cbn. by rewrite Hf, Ho.
Qed.

Lemma stage_trans exp dg d dg1 d1 r d2 :
  stage exp dg d (inr dg1) d1 -> stage exp dg1 d1 r d2 -> stage exp dg d r d2.
Proof.
  intros [A1 O1 D1] [A2 O2 D2]. destruct (D1 _ eq_refl) as [_ Hh].
  assert (SourceID dg1 = SourceID dg) as Hs by (injection Hh; congruence). rewrite Hs in A2.
  split; [by eapply advanced_trans| |].
  - rewrite O2, O1. done.
  - intros dg' ->. destruct (D2 _ eq_refl). split; [done|congruence].
Qed.

(** ** The stages *)

(** A data flowset whose template is known: the records are those of its chunks,
    in order. *)
Lemma readDataFlowset_known dg bs pad exp id up d t :
  cache_ok d -> templates d !! mkTKey exp (SourceID dg) id = Some t ->
  Forall (fun b => length b = Z.to_nat (recLen t)) bs -> (length pad < Z.to_nat (recLen t))%nat ->
  zlen (Records dg) + zlen bs <= maxRecordsPerDatagram ->
  exists f, readDataFlowset dg (concat bs ++ pad) exp id up d
    = Some (inr (dg <| Records ::= fun l => l ++ map (record_of t (ExportTime dg) up id) bs |>),
            snd (lookup_template exp (SourceID dg) id d) <| stats ::= f |>)
    /\ (forall s, outcome (f s) = outcome s).
Proof.
  intros Hd E Hb Hp Hn. pose proof (lk_ok _ (co_linked _ Hd) _ _ E) as Ht.
  pose proof (recLen_pos _ _ Ht) as Hpos. unfold readDataFlowset, lookup_template.
  rewrite E. cbn [snd].
  assert (recLen t <=? 0 = false) as -> by (apply Z.leb_gt; lia).
  rewrite chunks_count by done.
  assert (maxRecordsPerDatagram <? _ = false) as -> by (apply Z.ltb_ge; exact Hn).
  destruct (read_records_spec (length (concat bs ++ pad)) dg bs pad _ t id up
              (move_front (mkTKey exp (SourceID dg) id) d) Ht Hb Hp) as (d' & -> & f & -> & Hf).
  { rewrite length_app, (length_concat_chunks (Z.to_nat (recLen t))) by done.
    assert (0 < Z.to_nat (recLen t))%nat by lia. nia. }
  by exists f.
Qed.

Lemma dg_ok_append dg rs :
  dg_ok dg -> zlen (Records dg) + zlen rs <= maxRecordsPerDatagram ->
  Forall (record_ok (ExportTime dg)) rs -> dg_ok (dg <| Records ::= fun l => l ++ rs |>).
Proof.
  intros [] Hl Hr. split; cbn; [|by apply Forall_app|done..].
  unfold zlen in *. rewrite length_app. lia.
Qed.

Lemma Forall_concat_bytes (bs : list (list Z)) pad :
  byte_list (concat bs ++ pad) -> Forall byte_list bs.
Proof.
  intros [H _]%Forall_app. induction bs as [|b bs IH]; [constructor|].
  cbn in H. apply Forall_app in H as [? ?]. constructor; auto.
Qed.

Lemma readDataFlowset_spec dg set exp id up d :
  byte_list set -> is_u32 up -> cache_ok d -> dg_ok dg ->
  exists r d', readDataFlowset dg set exp id up d = Some (r, d') /\
    advanced exp (SourceID dg) d d' /\ outcome (stats d') = outcome (stats d) /\
    match r with
    | inl e => e = ErrMalformed
    | inr dg' => dg_ok dg' /\ header dg' = header dg
    end.
Proof.
  intros Hb Hu Hd Hdg. destruct (lookup_template exp (SourceID dg) id d) as [ot d1] eqn:El.
  destruct (lookup_template_ok _ _ _ _ _ _ Hd El) as (Hd1 & T1 & -> & S1).
  assert (advanced exp (SourceID dg) d d1) as Ha1 by (split; [done|rewrite T1; auto]).
  destruct (templates d !! mkTKey exp (SourceID dg) id) as [t|] eqn:E; cycle 1.
  { unfold readDataFlowset. rewrite El. do 2 eexists. split; [done|].
    split; [by apply advanced_stats|]. cbn. by rewrite S1. }
  pose proof (lk_ok _ (co_linked _ Hd) _ _ E) as Ht. pose proof (recLen_pos _ _ Ht) as Hpos.
  destruct (split_chunks (Z.to_nat (recLen t)) set) as (bs & pad & -> & Hbs & Hp); [lia|].
  destruct (decide (zlen (Records dg) + zlen bs <= maxRecordsPerDatagram)) as [Hn|Hn].
  - destruct (readDataFlowset_known dg bs pad exp id up d t) as (f & -> & Hf); try done.
    rewrite El. do 2 eexists. split; [done|]. split; [by apply advanced_stats|].
    split; [cbn; by rewrite Hf, S1|]. split; [|done].
    apply dg_ok_append; [done| |].
    + unfold zlen in *. by rewrite length_map.
    + apply Forall_map, Forall_forall. intros b Hin. apply record_of_ok; [done|].
      apply Forall_concat_bytes in Hb. rewrite Forall_forall in Hb. by apply Hb.
  - unfold readDataFlowset. rewrite El.
    assert (recLen t <=? 0 = false) as -> by (apply Z.leb_gt; lia).
    rewrite chunks_count by done.
    assert (maxRecordsPerDatagram <? zlen (Records dg) + zlen bs = true) as ->
      by (apply Z.ltb_lt; lia).
    do 2 eexists. split; [done|]. by rewrite S1.
Qed.

Lemma flowset_spec id set exp up dg d :
  byte_list set -> is_u32 up -> cache_ok d -> dg_ok dg ->
  exists r d', flowset id set exp up dg d = Some (r, d') /\ stage exp dg d r d'.
Proof.
  intros Hb Hu Hd Hdg. unfold flowset. destruct (id =? flowsetTemplate).
  { destruct (learnTemplates_spec (length set) set exp (SourceID dg) [] d)
      as (r & d1 & -> & [Ha Ho He]); [done..|]. cbn [mbind option_bind].
    destruct r as [e|unknown].
    - do 2 eexists. split; [done|]. destruct (He e eq_refl) as [-> | ->]; [|by apply stage_malformed; auto].
      split; [by apply advanced_stats| |done].
      change (outcome (stats (d1 <| stats ::= fun s => s <| VarLenRejected ::= incr |> |>))) with
        (let '(a, b, c, e, f) := outcome (stats d1) in (a, b, c, incr e, f)).
      by rewrite Ho.
    - do 2 eexists. split; [done|]. split; [done|done|]. intros ? [= <-]. by apply note_all_ok. }
  destruct (id =? flowsetOptionsTemplate); [|destruct (id <? firstDataFlowsetID)].
  - do 2 eexists. split; [done|].
    apply stage_stats; auto with flow; by apply note_ok.
  - do 2 eexists. split; [done|].
    apply stage_stats; auto with flow; by apply note_ok.
  - destruct (readDataFlowset_spec dg set exp id up d) as (r & d1 & -> & Ha & Ho & Hr); [done..|].
    cbn [mbind option_bind]. destruct r as [e|dg'].
    + do 2 eexists. split; [done|]. apply stage_malformed; auto.
    + do 2 eexists. split; [done|]. split; [done|done|]. by intros ? [= <-].
Qed.

Lemma walk_spec fuel body exp up dg d :
  byte_list body -> is_u32 up -> cache_ok d -> dg_ok dg -> (length body <= fuel)%nat ->
  exists r d', walk fuel body exp up dg d = Some (r, d') /\ stage exp dg d r d'.
Proof.
  intros Hb Hu. revert body dg d Hb. induction fuel as [|fuel IH]; intros body dg d Hb Hd Hdg Hl;
    cbn [walk]; destruct (length body <? 4)%nat eqn:E4;
    try (do 2 eexists; split; [done|]; split; [by auto with flow|done|by intros ? [= <-]]).
  { apply Nat.ltb_ge in E4. lia. }
  apply Nat.ltb_ge in E4. rewrite !get16_Some by lia. cbn [mbind option_bind].
  destruct ((_ <? 4) || _) eqn:E.
  { do 2 eexists. split; [done|]. apply stage_malformed; auto with flow. }
  bool_prop. unfold zlen in *. rewrite subslice_Some, from_Some by lia. cbn [mbind option_bind].
  destruct (flowset_spec (Uint16 0 body) (slice 4 (Z.to_nat (Uint16 2 body)) body) exp up dg d)
    as (r & d1 & -> & Hs); [by apply slice_bytes|done..|]. cbn [mbind option_bind].
  destruct r as [e|dg1]; [by do 2 eexists|]. destruct (sg_dg _ _ _ _ _ Hs _ eq_refl) as [Hdg1 _].
  destruct (IH (drop (Z.to_nat (Uint16 2 body)) body) dg1 d1) as (r & d2 & -> & Hs2).
  - by apply Forall_drop.
  - apply Hs.
  - done.
  - rewrite length_drop. lia.
  - do 2 eexists. split; [done|]. by eapply stage_trans.
Qed.

(** ** What [Decode] guarantees *)

(** The counters after a datagram: exactly one of the four outcomes moves, by one,
    and the record counter moves by the records returned. *)
Definition settled (r : nferr + Datagram) (s : Z * Z * Z * Z * Z) : Z * Z * Z * Z * Z :=
  match r with
  | inl _ => raised r s
  | inr dg => let '(dgs, mal, ver, var, recs) := s in
              (incr dgs, mal, ver, var, add64 recs (zlen (Records dg)))
  end.

(** Every record is well formed; a v9 datagram yields at most
    [maxRecordsPerDatagram], a v5 datagram one per 48 bytes. *)
Record datagram_ok (payload : list Z) (dg : Datagram) : Prop := {
  do_records : Forall (record_ok (ExportTime dg)) (Records dg);
  do_count9 : dVersion dg = V9 -> zlen (Records dg) <= maxRecordsPerDatagram;
  do_count5 : dVersion dg = V5 -> 24 + 48 * zlen (Records dg) <= zlen payload;
  do_version : dVersion dg = V9 \/ dVersion dg = V5;
  do_notes : NoDup (dUnidentified dg) /\ zlen (dUnidentified dg) <= maxUnidentifiedPerDatagram }.

Definition source_of (payload : list Z) : Z := Uint32 16 payload.

Record decoded (payload : list Z) (exp : Addr) (d : Decoder) (r : nferr + Datagram) (d' : Decoder)
  : Prop := {
  dd_adv : advanced exp (source_of payload) d d';
  dd_outcome : outcome (stats d') = settled r (outcome (stats d));
  dd_dg : forall dg, r = inr dg -> datagram_ok payload dg }.

Lemma decoded_stage payload exp dg d r d' :
  SourceID dg = source_of payload -> dVersion dg = V9 -> stage exp dg d r d' ->
  decoded payload exp d r (match r with inl _ => d' | inr dg' => account dg' d' end).
Proof.
  intros Hs Hv [Ha Ho Hd]. rewrite Hs in Ha. destruct r as [e|dg']; [by split|].
  destruct (Hd _ eq_refl) as [[] Hh]. split; [by apply advanced_stats| |].
  - change (outcome (stats (account dg' d'))) with
      (let '(a, b, c, e, f) := outcome (stats d') in (incr a, b, c, e, add64 f (zlen (Records dg')))).
    by rewrite Ho.
  - intros ? [= <-]. assert (dVersion dg' = V9) as Hv' by (injection Hh; congruence).
    split; [done|done|by rewrite Hv'|by left|done].
Qed.

Lemma decodeV9_spec payload exp now d :
  byte_list payload -> cache_ok d ->
  exists r d', decodeV9 payload exp now d = Some (r, d') /\ decoded payload exp d r d'.
Proof.
  intros Hb Hd. unfold decodeV9. destruct (_ <? _)%nat eqn:E.
  { do 2 eexists. split; [done|].
    by split; [apply advanced_stats, advanced_refl|..]. }
  apply Nat.ltb_ge in E. unfold v9HeaderLen in *.
  rewrite !get32_Some, from_Some by lia. cbn [mbind option_bind].
  edestruct walk_spec as (r & d' & -> & Hs); [by apply Forall_drop|by apply Uint32_range|done| |done|].
  - split; cbn; [done|constructor..|done].
  - cbn [mbind option_bind]. apply (decoded_stage payload) in Hs; [|done..].
    by destruct r; do 2 eexists.
Qed.

Lemma record5_ok r et up :
  byte_list r -> is_u32 up -> length r = v5RecordLen ->
  exists n, record5 r et up = Some n /\ record_ok et n.
Proof.
  intros Hb Hu Hl. unfold v5RecordLen in Hl. unfold record5, get8.
  rewrite !get16_Some, !get32_Some, !subslice_Some by lia.
  destruct (lookup_lt_is_Some_2 r 37 ltac:(lia)) as [fl Hfl].
  destruct (lookup_lt_is_Some_2 r 38 ltac:(lia)) as [pr Hpr].
  rewrite Hfl, Hpr. cbn [mbind option_bind]. eexists. split; [done|].
  assert (is_u8 fl /\ is_u8 pr) as [? ?] by (split; eapply Forall_lookup_1; eauto).
  assert (forall o, is_u32 (Uint16 o r)).
  { intros o. destruct (Uint16_range o r Hb). split; [done|]. change (2 ^ 32) with (2 ^ 16 * 2 ^ 16). lia. }
  assert (forall o, is_u64 (Uint32 o r)).
  { intros o. destruct (Uint32_range o r Hb). split; [done|]. change M64 with (2 ^ 32 * 2 ^ 32). lia. }
  assert (forall t, time_ok et (switchedAt et up (Uint32 t r))).
  { intros t. right. by apply switchedAt_bounds; [|apply Uint32_range]. }
  assert (forall i j a, addrOf (slice i j r) = Some a -> addr_clean a).
  { intros i j a. by apply addrOf_clean, slice_bytes. }
  destruct (addrOf (slice 0 4 r)) eqn:E1, (addrOf (slice 4 8 r)) eqn:E2;
    (split; [split|..]);
    cbn [update zeroNf nProto nSrcAddr nDstAddr nSrcPort nDstPort nBytes nPackets InIfIndex OutIfIndex
         First Last nTCPFlags nVLANID nDSCP nECN nSrcMask nDstMask NextHop];
    try done; eauto using Uint16_range.
Qed.

Lemma records5_ok body i n et up :
  byte_list body -> is_u32 up -> ((i + n) * v5RecordLen <= length body)%nat ->
  exists rs, records5 body i n et up = Some rs /\ length rs = n /\ Forall (record_ok et) rs.
Proof.
  intros Hb Hu. revert i. induction n as [|n IH]; intros i Hl; [by exists []|]. cbn [records5].
  rewrite subslice_Some by lia. cbn [mbind option_bind].
  destruct (record5_ok (slice (i * v5RecordLen) (S i * v5RecordLen) body) et up) as (r & -> & Hr);
    [by apply slice_bytes|done|rewrite slice_length; lia|]. cbn [mbind option_bind].
  destruct (IH (S i)) as (rs & -> & Hn & Hrs); [lia|]. cbn [mbind option_bind].
  exists (r :: rs). split; [done|]. cbn. split; [congruence|]. by constructor.
Qed.

Lemma decodeV5_spec payload exp now d :
  byte_list payload -> cache_ok d ->
  exists r d', decodeV5 payload now d = Some (r, d') /\ decoded payload exp d r d'.
Proof.
  intros Hb Hd. unfold decodeV5. destruct (_ <? _)%nat eqn:E.
  { do 2 eexists. split; [done|]. by split; [apply advanced_stats, advanced_refl|..]. }
  apply Nat.ltb_ge in E. unfold v5HeaderLen in *.
  rewrite get16_Some, !get32_Some, from_Some by lia. cbn [mbind option_bind].
  set (count := Uint16 2 payload). destruct (_ <? _) eqn:Ec.
  { do 2 eexists. split; [done|]. by split; [apply advanced_stats, advanced_refl|..]. }
  bool_prop. unfold zlen in Ec. rewrite length_drop in Ec.
  pose proof (Uint16_range 2 payload Hb) as [Hc _]. fold count in Hc.
  edestruct (records5_ok (drop 24 payload) 0 (Z.to_nat count)) as (rs & -> & Hn & Hr);
    [by apply Forall_drop|by apply (Uint32_range 4 payload)|rewrite length_drop; lia|].
  cbn [mbind option_bind]. do 2 eexists. split; [done|].
  split; [by apply advanced_stats, advanced_refl|done|]. intros ? [= <-].
  split; cbn [Records ExportTime dVersion dUnidentified]; [done|done| |by right|by split; [constructor|]].
  intros _. unfold v5RecordLen, zlen in *. lia.
Qed.

Lemma Decode_spec payload exp now d :
  byte_list payload -> cache_ok d ->
  exists r d', Decode payload exp now d = Some (r, d') /\ decoded payload exp d r d'.
Proof.
  intros Hb Hd. unfold Decode. destruct (_ <? 2)%nat eqn:E.
  { do 2 eexists. split; [done|]. by split; [apply advanced_stats, advanced_refl|..]. }
  apply Nat.ltb_ge in E. rewrite get16_Some by lia. cbn [mbind option_bind].
  destruct (_ =? V9); [by apply decodeV9_spec|]. destruct (_ =? V5); [by apply decodeV5_spec|].
  do 2 eexists. split; [done|]. by split; [apply advanced_stats, advanced_refl|..].
Qed.

(** Running the decoder over a sequence of datagrams. *)
Fixpoint decode_all (d : Decoder) (ps : list (list Z * Addr * Time)) : option Decoder :=
  match ps with
  | [] => Some d
  | (payload, exp, now) :: ps =>
      '(_, d) ← Decode payload exp now d;
      decode_all d ps
  end.

(** ** Encoding, for the round trips *)

Definition enc_field (f : templateField) : list Z := be_bytes 2 (typ f) ++ be_bytes 2 (flen f).
Definition enc_template (id : Z) (fs : list templateField) : list Z :=
  be_bytes 2 id ++ be_bytes 2 (zlen fs) ++ concat (map enc_field fs).
Definition enc_flowset (id : Z) (body : list Z) : list Z :=
  be_bytes 2 id ++ be_bytes 2 (4 + zlen body) ++ body.
Definition enc_v9 (count up secs seq src : Z) (body : list Z) : list Z :=
  be_bytes 2 V9 ++ be_bytes 2 count ++ be_bytes 4 up ++ be_bytes 4 secs ++ be_bytes 4 seq
  ++ be_bytes 4 src ++ body.

Lemma slice_at (p l q : list Z) : slice (length p) (length p + length l) (p ++ l ++ q) = l.
Proof.
  unfold slice. rewrite drop_app_length. replace (_ + _ - _)%nat with (length l) by lia.
  apply take_app_length.
Qed.

Lemma Uint16_at p v q off : length p = off -> is_u16 v -> Uint16 off (p ++ be_bytes 2 v ++ q) = v.
Proof.
  intros <- Hv. unfold Uint16. rewrite <- (length_be_bytes 2 v) at 1.
  rewrite slice_at, be_val_bytes. by apply Z.mod_small.
Qed.

Lemma Uint32_at p v q off : length p = off -> is_u32 v -> Uint32 off (p ++ be_bytes 4 v ++ q) = v.
Proof.
  intros <- Hv. unfold Uint32. rewrite <- (length_be_bytes 4 v) at 1.
  rewrite slice_at, be_val_bytes. by apply Z.mod_small.
Qed.

Definition field_enc (f : templateField) : Prop := field_ok f /\ is_u16 (typ f).

Lemma length_enc_field f : length (enc_field f) = 4%nat.
Proof. done. Qed.

Lemma length_enc_fields fs : length (concat (map enc_field fs)) = (length fs * 4)%nat.
Proof.
  rewrite (length_concat_chunks 4), length_map; [done|]. apply Forall_map, Forall_forall. done.
Qed.

Lemma read_fields_enc pre fs q :
  Forall field_enc fs -> (length pre * 4)%nat = length (concat (map enc_field pre)) ->
  read_fields (concat (map enc_field pre) ++ concat (map enc_field fs) ++ q)
    (length pre) (length fs) = Some (inr fs).
Proof.
  intros Hf. revert pre. induction Hf as [|f fs [Hok Hty] Hf IH]; intros pre Hd; [done|].
  set (rest := be_bytes 2 (flen f) ++ concat (map enc_field fs) ++ q).
  assert (concat (map enc_field pre) ++ concat (map enc_field (f :: fs)) ++ q
          = concat (map enc_field pre) ++ be_bytes 2 (typ f) ++ rest) as ->.
  { unfold rest. cbn [map concat]. unfold enc_field at 2. by rewrite <- !app_assoc. }
  cbn [length read_fields].
  assert (is_u16 (flen f)) by (destruct Hok; split; [lia|]; unfold varLenSentinel in *; lia).
  assert (2 <= length rest)%nat by (unfold rest; rewrite length_app, length_be_bytes; lia).
  rewrite !get16_Some by (rewrite !length_app, !length_be_bytes, <- Hd; lia).
  cbn [mbind option_bind]. rewrite (Uint16_at _ (typ f) _ _ (eq_sym Hd)) by done.
  assert (Uint16 (length pre * 4 + 2) (concat (map enc_field pre) ++ be_bytes 2 (typ f) ++ rest)
          = flen f) as ->.
  { unfold rest. rewrite app_assoc. apply Uint16_at; [|done]. rewrite length_app, <- Hd. done. }
  destruct Hok. unfold varLenSentinel in *.
  assert (flen f =? 65535 = false) as -> by lia. assert (flen f =? 0 = false) as -> by lia.
  specialize (IH (pre ++ [f])). rewrite map_app, concat_app, !length_app, Nat.add_1_r in IH.
  cbn [map concat] in IH. rewrite app_nil_r in IH. cbn [length] in IH.
  replace (concat (map enc_field pre) ++ be_bytes 2 (typ f) ++ rest)
    with ((concat (map enc_field pre) ++ enc_field f) ++ concat (map enc_field fs) ++ q).
  - rewrite IH; [by destruct f|]. rewrite length_enc_field. lia.
  - unfold rest, enc_field at 2. by rewrite <- !app_assoc.
Qed.

Lemma length_enc_flowset id body : length (enc_flowset id body) = (4 + length body)%nat.
Proof. unfold enc_flowset. by rewrite !length_app, !length_be_bytes. Qed.

(** The walk takes exactly one flowset off the front. *)
Lemma walk_flowset fuel id body q exp up dg d :
  is_u16 id -> 4 + zlen body < 2 ^ 16 ->
  walk (S fuel) (enc_flowset id body ++ q) exp up dg d
  = ('(r, d) ← flowset id body exp up dg d;
     match r with
     | inl e => Some (inl e, d)
     | inr dg => walk fuel q exp up dg d
     end).
Proof.
  intros Hid Hlen. cbn [walk]. rewrite length_app, length_enc_flowset.
  assert (4 + length body + length q <? 4 = false)%nat as -> by (apply Nat.ltb_ge; lia).
  rewrite !get16_Some by (rewrite length_app, length_enc_flowset; lia). cbn [mbind option_bind].
  assert (Uint16 0 (enc_flowset id body ++ q) = id) as ->.
  { unfold enc_flowset. rewrite <- !app_assoc. by apply (Uint16_at []). }
  assert (Uint16 2 (enc_flowset id body ++ q) = 4 + zlen body) as ->.
  { unfold enc_flowset. rewrite <- !app_assoc. apply Uint16_at; [done|]. unfold is_u16, zlen in *. lia. }
  assert ((4 + zlen body <? 4) || (zlen (enc_flowset id body ++ q) <? 4 + zlen body) = false) as ->.
  { unfold zlen. rewrite length_app, length_enc_flowset. apply orb_false_iff.
    split; apply Z.ltb_ge; lia. }
  replace (Z.to_nat (4 + zlen body)) with (4 + length body)%nat by (unfold zlen; lia).
  rewrite subslice_Some, from_Some by (rewrite length_app, length_enc_flowset; lia).
  cbn [mbind option_bind].
  rewrite (drop_app_exact (4 + length body)) by apply length_enc_flowset.
  replace (slice 4 (4 + length body) (enc_flowset id body ++ q)) with body; [done|].
  unfold enc_flowset. rewrite <- !app_assoc, (app_assoc (be_bytes 2 id)).
  symmetry. apply (slice_at (be_bytes 2 id ++ be_bytes 2 (4 + zlen body))).
Qed.

Lemma learn_enc id fs exp src d :
  is_u16 id -> firstDataFlowsetID <= id -> Forall field_enc fs -> 1 <= zlen fs <= maxFieldsPerTemplate ->
  cache_ok d ->
  exists u d', learnTemplates (length (enc_template id fs)) (enc_template id fs) exp src [] d
    = Some (inr u, d') /\ cache_ok d' /\ templates d' !! mkTKey exp src id = Some (mkTemplate fs (width fs)).
Proof.
  intros Hid Hge Hf Hn Hd. unfold enc_template.
  assert (length (be_bytes 2 id ++ be_bytes 2 (zlen fs) ++ concat (map enc_field fs))
          = 4 + length fs * 4)%nat as El by (by rewrite !length_app, !length_be_bytes, length_enc_fields).
  rewrite El. cbn [Nat.add learnTemplates]. rewrite El.
  assert (4 + length fs * 4 <? 4 = false)%nat as -> by (apply Nat.ltb_ge; lia).
  rewrite !get16_Some, from_Some by lia. cbn [mbind option_bind].
  set (body := concat (map enc_field fs)) in *. unfold maxFieldsPerTemplate in *.
  assert (Uint16 0 (be_bytes 2 id ++ be_bytes 2 (zlen fs) ++ body) = id) as ->
    by by apply (Uint16_at []).
  rewrite (Uint16_at (be_bytes 2 id)) by (try done; split; lia). unfold body.
  rewrite (app_assoc (be_bytes 2 id)), (drop_app_exact 4) by done.
  assert (zlen fs =? 0 = false) as -> by zbool.
  assert (256 <? zlen fs = false) as -> by zbool.
  assert (zlen (concat (map enc_field fs)) <? zlen fs * 4 = false) as ->.
  { unfold zlen. rewrite length_enc_fields. zbool. }
  replace (Z.to_nat (zlen fs)) with (length fs) by (unfold zlen; lia).
  pose proof (read_fields_enc [] fs [] Hf eq_refl) as Hr. cbn [map concat app length] in Hr.
  rewrite app_nil_r in Hr. rewrite Hr. cbn [mbind option_bind].
  rewrite from_Some by (rewrite length_enc_fields; lia). cbn [mbind option_bind].
  rewrite drop_ge by (rewrite length_enc_fields; lia).
  assert (id <? firstDataFlowsetID = false) as -> by zbool.
  destruct (store_spec (mkTKey exp src id) (mkTemplate fs (width fs)) d Hd) as (b & d1 & -> & Hst).
  { split; [done|done| |done]. eapply Forall_impl; [exact Hf|]. by intros f []. }
  cbn [mbind option_bind].
  destruct (st_here _ _ _ _ Hst) as (t' & Ht' & Hfs). pose proof (lk_ok _ (co_linked _ (st_ok _ _ _ _ Hst)) _ _ Ht') as Hok.
  assert (t' = mkTemplate fs (width fs)) as ->.
  { destruct t' as [fs' len]. cbn in Hfs. subst fs'. f_equal. apply Hok. }
  destruct b; do 2 eexists; (split; [done|]); (split; [|done]); [apply cache_ok_stats|]; apply Hst.
Qed.

(** A record given element by element, each of its declared width. *)
Definition fits (fs : list templateField) (vs : list (list Z)) : Prop :=
  Forall2 (fun f v => zlen v = flen f) fs vs.

Lemma elem_bytes_fits fs vs : fits fs vs -> elem_bytes fs (concat vs) = vs.
Proof.
  induction 1 as [|f v fs vs Hv _ IH]; [done|]. cbn [elem_bytes concat]. unfold zlen in Hv.
  by rewrite take_app_exact, drop_app_exact, IH by lia.
Qed.

Lemma length_fits fs vs : fits fs vs -> length (concat vs) = Z.to_nat (width fs).
Proof.
  intros H. enough (Z.of_nat (length (concat vs)) = width fs) by lia.
  induction H as [|f v fs vs Hv _ IH]; [done|]. rewrite width_cons. cbn [concat].
  rewrite length_app. unfold zlen in Hv. lia.
Qed.

Definition record_from (fs : list templateField) (et : Time) (up id : Z) (vs : list (list Z)) : NfRecord :=
  finish et up (interpret fs vs) <| TemplateID := id |>.

Lemma record_of_fits t et up id vs :
  fits (tfields t) vs -> record_of t et up id (concat vs) = record_from (tfields t) et up id vs.
Proof. intros H. unfold record_of, record_from. by rewrite elem_bytes_fits. Qed.

Record v9_parts (id : Z) (fs : list templateField) (recs : list (list (list Z))) (pad : list Z)
    (count up secs seq src : Z) : Prop := {
  v9_id : is_u16 id /\ firstDataFlowsetID <= id;
  v9_fields : Forall field_enc fs /\ 1 <= zlen fs <= maxFieldsPerTemplate;
  v9_recs : Forall (fits fs) recs /\ zlen recs <= maxRecordsPerDatagram;
  v9_pad : zlen pad < width fs;
  v9_size : 4 + zlen (concat (map (@concat Z) recs) ++ pad) < 2 ^ 16;
  v9_header : is_u32 up /\ is_u32 secs /\ is_u32 seq /\ is_u32 src }.

Lemma flowset_data_enc dg recs pad exp id fs up d :
  cache_ok d -> templates d !! mkTKey exp (SourceID dg) id = Some (mkTemplate fs (width fs)) ->
  firstDataFlowsetID <= id -> Forall (fits fs) recs -> zlen pad < width fs ->
  zlen (Records dg) + zlen recs <= maxRecordsPerDatagram ->
  exists d', flowset id (concat (map (@concat Z) recs) ++ pad) exp up dg d
    = Some (inr (dg <| Records ::= fun l => l ++ map (record_from fs (ExportTime dg) up id) recs |>), d').
Proof.
  intros Hd E Hid Hr Hp Hn. unfold flowset, flowsetTemplate, flowsetOptionsTemplate.
  unfold firstDataFlowsetID in *.
  assert (id =? 0 = false) as -> by zbool. assert (id =? 1 = false) as -> by zbool.
  assert (id <? 256 = false) as -> by zbool.
  destruct (readDataFlowset_known dg (map (@concat Z) recs) pad exp id up d _ Hd E) as (f & -> & _).
  - apply Forall_map. eapply Forall_impl; [exact Hr|]. intros vs Hv. by apply length_fits.
  - cbn. unfold zlen in Hp. lia.
  - unfold zlen in *. by rewrite length_map.
  - cbn [mbind option_bind]. eexists.
    assert (map (record_of (mkTemplate fs (width fs)) (ExportTime dg) up id) (map (@concat Z) recs)
            = map (record_from fs (ExportTime dg) up id) recs) as ->; [|done].
    rewrite map_map. apply map_ext_Forall. eapply Forall_impl; [exact Hr|].
    intros vs Hv. by apply record_of_fits.
Qed.

Lemma Decode_enc_v9 count up secs seq src body exp now d :
  is_u32 up -> is_u32 secs -> is_u32 seq -> is_u32 src ->
  Decode (enc_v9 count up secs seq src body) exp now d
  = ('(r, d) ← walk (length body) body exp up
                 (mkDatagram V9 src seq (exportTimeOf secs 0 now) [] []) d;
     match r with
     | inl e => Some (inl e, d)
     | inr dg => Some (inr dg, account dg d)
     end).
Proof.
  intros Hup Hse Hsq Hsr.
  assert (length (enc_v9 count up secs seq src body) = 20 + length body)%nat as El
    by (unfold enc_v9; by rewrite !length_app, !length_be_bytes).
  unfold Decode, decodeV9. rewrite El. unfold v9HeaderLen.
  assert (20 + length body <? 2 = false)%nat as -> by zbool.
  assert (20 + length body <? 20 = false)%nat as -> by zbool.
  rewrite get16_Some, !get32_Some, from_Some by lia. cbn [mbind option_bind].
  assert (Uint16 0 (enc_v9 count up secs seq src body) = V9) as -> by by apply (Uint16_at [] V9).
  cbn [Z.eqb V9 Pos.eqb].
  assert (Uint32 4 (enc_v9 count up secs seq src body) = up) as ->
    by by apply (Uint32_at (be_bytes 2 V9 ++ be_bytes 2 count) up).
  assert (Uint32 8 (enc_v9 count up secs seq src body) = secs) as ->
    by by apply (Uint32_at (be_bytes 2 V9 ++ be_bytes 2 count ++ be_bytes 4 up) secs).
  assert (Uint32 12 (enc_v9 count up secs seq src body) = seq) as ->
    by by apply (Uint32_at (be_bytes 2 V9 ++ be_bytes 2 count ++ be_bytes 4 up ++ be_bytes 4 secs) seq).
  assert (Uint32 16 (enc_v9 count up secs seq src body) = src) as ->
    by by apply (Uint32_at (be_bytes 2 V9 ++ be_bytes 2 count ++ be_bytes 4 up ++ be_bytes 4 secs
                            ++ be_bytes 4 seq) src).
  done.
Qed.

Lemma note_all_header us dg : exists u, note_all dg us = dg <| dUnidentified := u |>.
Proof.
  revert dg. induction us as [|u us IH]; intros dg; [exists (dUnidentified dg); by destruct dg|].
  unfold note_all. cbn [fold_left]. destruct (IH (note dg u)) as [v Hv]. unfold note_all in Hv.
  rewrite Hv. exists v. unfold note. by destruct (_ || _).
Qed.

Lemma flowset_template_enc dg id fs exp up d :
  is_u16 id -> firstDataFlowsetID <= id -> Forall field_enc fs -> 1 <= zlen fs <= maxFieldsPerTemplate ->
  cache_ok d ->
  exists u d', flowset flowsetTemplate (enc_template id fs) exp up dg d
    = Some (inr (dg <| dUnidentified := u |>), d') /\ cache_ok d'
    /\ templates d' !! mkTKey exp (SourceID dg) id = Some (mkTemplate fs (width fs)).
Proof.
  intros Hid Hge Hf Hn Hd. unfold flowset. cbn [Z.eqb flowsetTemplate].
  destruct (learn_enc id fs exp (SourceID dg) d) as (u & d' & -> & ? & ?); [done..|].
  cbn [mbind option_bind]. destruct (note_all_header u dg) as [v ->]. by exists v, d'.
Qed.

(** ** Version 5 records on the wire *)

(** The fields of a v5 record the decoder reads, and the bytes it steps over
    (next hop; pad; ToS, AS numbers, masks and pad). *)
Record flow5 := mkFlow5 {
  f5src : Z; f5dst : Z; f5hop : Z; f5in : Z; f5out : Z; f5pkts : Z; f5bytes : Z;
  f5first : Z; f5last : Z; f5sport : Z; f5dport : Z; f5pad : Z; f5flags : Z; f5proto : Z;
  f5rest : Z }.

Definition enc5 (f : flow5) : list Z :=
  be_bytes 4 (f5src f) ++ be_bytes 4 (f5dst f) ++ be_bytes 4 (f5hop f) ++ be_bytes 2 (f5in f)
  ++ be_bytes 2 (f5out f) ++ be_bytes 4 (f5pkts f) ++ be_bytes 4 (f5bytes f)
  ++ be_bytes 4 (f5first f) ++ be_bytes 4 (f5last f) ++ be_bytes 2 (f5sport f)
  ++ be_bytes 2 (f5dport f) ++ be_bytes 1 (f5pad f) ++ be_bytes 1 (f5flags f)
  ++ be_bytes 1 (f5proto f) ++ be_bytes 9 (f5rest f).

Record flow5_ok (f : flow5) : Prop := {
  f5_addr : is_u32 (f5src f) /\ is_u32 (f5dst f);
  f5_if : is_u16 (f5in f) /\ is_u16 (f5out f);
  f5_vol : is_u32 (f5pkts f) /\ is_u32 (f5bytes f);
  f5_time : is_u32 (f5first f) /\ is_u32 (f5last f);
  f5_port : is_u16 (f5sport f) /\ is_u16 (f5dport f);
  f5_small : is_u8 (f5flags f) /\ is_u8 (f5proto f) }.

Definition nf_of5 (et : Time) (up : Z) (f : flow5) : NfRecord :=
  zeroNf <| InIfIndex := f5in f |> <| OutIfIndex := f5out f |> <| nPackets := f5pkts f |>
    <| nBytes := f5bytes f |> <| nSrcPort := f5sport f |> <| nDstPort := f5dport f |>
    <| nTCPFlags := f5flags f |> <| nProto := f5proto f |>
    <| First := switchedAt et up (f5first f) |> <| Last := switchedAt et up (f5last f) |>
    <| nSrcAddr := Addr4 (f5src f) |> <| nDstAddr := Addr4 (f5dst f) |>.

Definition enc_v5 (count up secs nsecs seq tail : Z) (body : list Z) : list Z :=
  be_bytes 2 V5 ++ be_bytes 2 count ++ be_bytes 4 up ++ be_bytes 4 secs ++ be_bytes 4 nsecs
  ++ be_bytes 4 seq ++ be_bytes 4 tail ++ body.

Lemma length_enc5 f : length (enc5 f) = v5RecordLen.
Proof. unfold enc5. by rewrite !length_app, !length_be_bytes. Qed.

Lemma addrOf_be4 v : is_u32 v -> addrOf (be_bytes 4 v) = Some (Addr4 v).
Proof.
  intros Hv. unfold addrOf, AddrFromSlice. rewrite length_be_bytes, be_val_bytes. cbn.
  f_equal. f_equal. by apply Z.mod_small.
Qed.

(** Byte [off] of a concatenation, when it is the single byte of a field. *)
Lemma lookup_at (p q : list Z) v off :
  length p = off -> is_u8 v -> (p ++ be_bytes 1 v ++ q) !! off = Some v.
Proof.
  intros <- Hv. rewrite lookup_app_r, Nat.sub_diag by lia. cbn. f_equal. by apply Z.mod_small.
Qed.

Lemma record5_enc f et up : flow5_ok f -> record5 (enc5 f) et up = Some (nf_of5 et up f).
Proof.
  intros [[Hs Hd] [Hi Ho] [Hp Hb] [Hf Hl] [Hsp Hdp] [Hfl Hpr]].
  unfold record5, get8.
  rewrite !get16_Some, !get32_Some, !subslice_Some by (rewrite length_enc5; unfold v5RecordLen; lia).
  set (A := be_bytes 4 (f5src f) ++ be_bytes 4 (f5dst f) ++ be_bytes 4 (f5hop f)).
  set (B := A ++ be_bytes 2 (f5in f) ++ be_bytes 2 (f5out f)).
  set (C := B ++ be_bytes 4 (f5pkts f) ++ be_bytes 4 (f5bytes f)).
  set (D := C ++ be_bytes 4 (f5first f) ++ be_bytes 4 (f5last f)).
  set (E := D ++ be_bytes 2 (f5sport f) ++ be_bytes 2 (f5dport f) ++ be_bytes 1 (f5pad f)).
  set (e := enc5 f).
  assert (e = E ++ be_bytes 1 (f5flags f) ++ be_bytes 1 (f5proto f) ++ be_bytes 9 (f5rest f)) as He
    by reflexivity.
  assert (Uint16 12 e = f5in f) as -> by by apply (Uint16_at A).
  assert (Uint16 14 e = f5out f) as -> by by apply (Uint16_at (A ++ be_bytes 2 (f5in f))).
  assert (Uint32 16 e = f5pkts f) as -> by by apply (Uint32_at B).
  assert (Uint32 20 e = f5bytes f) as -> by by apply (Uint32_at (B ++ be_bytes 4 (f5pkts f))).
  assert (Uint32 24 e = f5first f) as -> by by apply (Uint32_at C).
  assert (Uint32 28 e = f5last f) as -> by by apply (Uint32_at (C ++ be_bytes 4 (f5first f))).
  assert (Uint16 32 e = f5sport f) as -> by by apply (Uint16_at D).
  assert (Uint16 34 e = f5dport f) as -> by by apply (Uint16_at (D ++ be_bytes 2 (f5sport f))).
  assert (e !! 37%nat = Some (f5flags f)) as -> by (rewrite He; by apply lookup_at).
  assert (e !! 38%nat = Some (f5proto f)) as ->
    by (rewrite He, app_assoc; by apply (lookup_at (E ++ be_bytes 1 (f5flags f)))).
  assert (slice 0 4 e = be_bytes 4 (f5src f)) as -> by reflexivity.
  assert (slice 4 8 e = be_bytes 4 (f5dst f)) as -> by reflexivity.
  cbn [mbind option_bind]. by rewrite !addrOf_be4.
Qed.

Lemma records5_enc fs et up pre q :
  Forall flow5_ok fs ->
  records5 (concat (map enc5 pre) ++ concat (map enc5 fs) ++ q) (length pre) (length fs) et up
  = Some (map (nf_of5 et up) fs).
Proof.
  intros H. revert pre. induction H as [|f fs Hf _ IH]; intros pre; [done|].
  set (body := concat (map enc5 pre) ++ concat (map enc5 (f :: fs)) ++ q).
  assert (length (concat (map enc5 pre)) = length pre * v5RecordLen)%nat as Hl.
  { rewrite (length_concat_chunks v5RecordLen), length_map; [done|].
    apply Forall_map, Forall_forall. intros. apply length_enc5. }
  assert (body = concat (map enc5 pre) ++ enc5 f ++ concat (map enc5 fs) ++ q) as Hb
    by (unfold body; cbn [map concat]; by rewrite <- app_assoc).
  cbn [length records5]. rewrite subslice_Some, Hb, <- Hl.
  2: { rewrite Hb, !length_app, Hl, length_enc5. lia. }
  replace (S (length pre) * v5RecordLen)%nat
    with (length (concat (map enc5 pre)) + length (enc5 f))%nat by (rewrite length_enc5; lia).
  rewrite slice_at. cbn [mbind option_bind]. rewrite record5_enc by done. cbn [mbind option_bind].
  specialize (IH (pre ++ [f])). rewrite map_app, concat_app, length_app, Nat.add_1_r in IH.
  cbn [map concat] in IH. rewrite app_nil_r, <- app_assoc in IH. by rewrite IH.
Qed.

(** ** Properties *)

(** [C1]  Whatever bytes arrive, from whomever, [Decode] returns: no
    read is out of range and no loop runs away.  After any sequence of datagrams
    the template cache holds at most 4096 templates and 65536 elements, its LRU
    list and map agree, and no cached record width is zero (the width whose
    data loop would never end). *)
Theorem decode_total ps :
  Forall (fun p => byte_list (fst (fst p))) ps ->
  exists d, decode_all New ps = Some d /\ cache_ok d
    /\ map_Forall (fun _ t => 0 < recLen t) (templates d).
Proof.
  intros Hps. enough (forall d, cache_ok d -> exists d', decode_all d ps = Some d' /\ cache_ok d') as H.
  { destruct (H New New_ok) as (d & ? & Hd). exists d. split; [done|]. split; [done|].
    intros k t E. eapply recLen_pos. by apply Hd. }
  induction Hps as [|[[payload exp] now] ps Hb _ IH]; intros d Hd; [by exists d|].
  destruct (Decode_spec payload exp now d Hb Hd) as (r & d1 & E & Hdd).
  cbn [decode_all]. rewrite E. apply IH, Hdd.
Qed.

(**  Every datagram is accounted for exactly once: a decoded one
    raises [Datagrams] by one and [Records] by the records returned, a rejected one
    raises the one counter its error names and contributes no record. *)
Theorem decode_outcome payload exp now d r d' :
  byte_list payload -> cache_ok d -> Decode payload exp now d = Some (r, d') ->
  outcome (stats d') = settled r (outcome (stats d)).
Proof.
  intros Hb Hd E. destruct (Decode_spec payload exp now d Hb Hd) as (r' & d1 & E' & H).
  simplify_eq. apply H.
Qed.

(**  Every record a datagram yields has its fields within their
    widths and its addresses unmapped, and dates no flow after the export nor more
    than one wrap of the uptime counter before it; a v9 datagram yields at most 4096
    records, a v5 datagram no more than its bytes hold. *)
Theorem decode_records payload exp now d dg d' :
  byte_list payload -> cache_ok d -> Decode payload exp now d = Some (inr dg, d') ->
  datagram_ok payload dg.
Proof.
  intros Hb Hd E. destruct (Decode_spec payload exp now d Hb Hd) as (r' & d1 & E' & H).
  simplify_eq. by eapply H.
Qed.

(**  A datagram can change the templates of no observation
    domain but its own: a template of another exporter or source id is afterwards
    what it was, or has been evicted. *)
Theorem decode_isolation payload exp now d r d' k :
  byte_list payload -> cache_ok d -> Decode payload exp now d = Some (r, d') ->
  (kExporter k, kSourceID k) <> (exp, source_of payload) ->
  templates d' !! k = templates d !! k \/ templates d' !! k = None.
Proof.
  intros Hb Hd E Hk. destruct (Decode_spec payload exp now d Hb Hd) as (r' & d1 & E' & H).
  simplify_eq. by apply H.
Qed.

(** [C38]  A datagram that announces a template and then carries records
    of it, each element of its declared width, decodes on any cache to exactly those
    records: every element is read from its own bytes, whatever the widths, and the
    alignment padding is dropped. *)
Theorem v9_roundtrip id fs recs pad count up secs seq src exp now d :
  v9_parts id fs recs pad count up secs seq src -> cache_ok d ->
  exists u d',
    Decode (enc_v9 count up secs seq src
              (enc_flowset flowsetTemplate (enc_template id fs)
               ++ enc_flowset id (concat (map (@concat Z) recs) ++ pad) ++ [])) exp now d
    = Some (inr (mkDatagram V9 src seq (exportTimeOf secs 0 now)
                   (map (record_from fs (exportTimeOf secs 0 now) up id) recs) u), d').
Proof.
  intros [[Hid Hge] [Hf Hn] [Hr Hmax] Hp Hsz (Hup & Hse & Hsq & Hsr)] Hd.
  rewrite Decode_enc_v9 by done. rewrite length_app, length_enc_flowset.
  assert (zlen (enc_template id fs) = 4 + 4 * zlen fs) as Hl.
  { unfold zlen, enc_template. rewrite !length_app, !length_be_bytes, length_enc_fields. lia. }
  unfold maxFieldsPerTemplate in *. cbn [Nat.add]. rewrite walk_flowset by (done || lia).
  destruct (flowset_template_enc (mkDatagram V9 src seq (exportTimeOf secs 0 now) [] []) id fs exp up d)
    as (u & d1 & -> & Hd1 & Ht); [done..|]. cbn [mbind option_bind].
  rewrite walk_flowset by done.
  edestruct (flowset_data_enc (mkDatagram V9 src seq (exportTimeOf secs 0 now) [] u) recs pad exp id fs up d1)
    as (d2 & Hfl); [done..|].
  unfold update in Hfl |- *. cbn in Hfl |- *. rewrite Hfl. cbn. by exists u; eexists.
Qed.

(**  A v5 datagram carrying [fs] decodes to exactly [fs], with the
    two uptime stamps resolved against the export instant, and the cache untouched. *)
Theorem v5_roundtrip fs up secs nsecs seq tail exp now d :
  Forall flow5_ok fs -> is_u16 (zlen fs) ->
  is_u32 up -> is_u32 secs -> is_u32 nsecs -> is_u32 seq ->
  let dg := mkDatagram V5 0 seq (exportTimeOf secs nsecs now)
              (map (nf_of5 (exportTimeOf secs nsecs now) up) fs) [] in
  Decode (enc_v5 (zlen fs) up secs nsecs seq tail (concat (map enc5 fs))) exp now d
  = Some (inr dg, account dg d).
Proof.
  intros Hfs Hn Hup Hse Hns Hsq.
  set (p := enc_v5 (zlen fs) up secs nsecs seq tail (concat (map enc5 fs))).
  assert (length (concat (map enc5 fs)) = length fs * v5RecordLen)%nat as Hl.
  { rewrite (length_concat_chunks v5RecordLen), length_map; [done|].
    apply Forall_map, Forall_forall. intros. apply length_enc5. }
  assert (length p = 24 + length (concat (map enc5 fs)))%nat as El
    by (unfold p, enc_v5; by rewrite !length_app, !length_be_bytes).
  unfold Decode, decodeV5. rewrite El. unfold v5HeaderLen.
  assert (24 + length (concat (map enc5 fs)) <? 2 = false)%nat as -> by zbool.
  assert (24 + length (concat (map enc5 fs)) <? 24 = false)%nat as -> by zbool.
  rewrite !get16_Some, !get32_Some, from_Some by lia. cbn [mbind option_bind].
  set (h := be_bytes 2 V5 ++ be_bytes 2 (zlen fs)).
  assert (Uint16 0 p = V5) as -> by by apply (Uint16_at [] V5). cbn [Z.eqb V5 V9 Pos.eqb].
  assert (Uint16 2 p = zlen fs) as -> by by apply (Uint16_at (be_bytes 2 V5)).
  assert (Uint32 4 p = up) as -> by by apply (Uint32_at h).
  assert (Uint32 8 p = secs) as -> by by apply (Uint32_at (h ++ be_bytes 4 up)).
  assert (Uint32 12 p = nsecs) as ->
    by by apply (Uint32_at (h ++ be_bytes 4 up ++ be_bytes 4 secs)).
  assert (Uint32 16 p = seq) as ->
    by by apply (Uint32_at (h ++ be_bytes 4 up ++ be_bytes 4 secs ++ be_bytes 4 nsecs)).
  assert (drop 24 p = concat (map enc5 fs)) as -> by reflexivity.
  assert (zlen (concat (map enc5 fs)) <? zlen fs * Z.of_nat v5RecordLen = false) as ->
    by (unfold zlen; rewrite Hl; zbool).
  replace (Z.to_nat (zlen fs)) with (length fs) by (unfold zlen; lia).
  pose proof (records5_enc fs (exportTimeOf secs nsecs now) up [] [] Hfs) as Hr.
  cbn [map concat app length] in Hr. rewrite app_nil_r in Hr. by rewrite Hr.
Qed.

(** ** Instances *)

Definition bytesb (l : list Z) : bool := forallb (fun x => (0 <=? x) && (x <? 256)) l.

Lemma bytesb_ok l : bytesb l = true -> byte_list l.
Proof.
  intros H. apply Forall_forall. intros x Hx. unfold bytesb in H. rewrite forallb_forall in H.
  specialize (H x (proj1 (list_elem_of_In _ _) Hx)). bool_prop. done.
Qed.

(** Source, destination, octets and packets; one record and its padding. *)
Definition box_fields : list templateField :=
  [mkTField 8 4; mkTField 12 4; mkTField 1 4; mkTField 2 4; mkTField 4 1].
Definition box_record : list (list Z) :=
  [[10; 0; 0; 1]; [8; 8; 8; 8]; [0; 0; 5; 220]; [0; 0; 0; 1]; [17]].
Definition box_datagram : list Z :=
  enc_v9 2 5000 1700000000 1 7
    (enc_flowset flowsetTemplate (enc_template 256 box_fields)
     ++ enc_flowset 256 (concat (map (@concat Z) [box_record]) ++ [0; 0; 0]) ++ []).

Lemma box_parts : v9_parts 256 box_fields [box_record] [0; 0; 0] 2 5000 1700000000 1 7.
Proof.
  split; try done.
  - split; [|done]. repeat (apply Forall_cons; split; [by repeat split|]). constructor.
  - split; [|done]. constructor; [|constructor]. repeat constructor.
Qed.

Lemma box_bytes : byte_list box_datagram.
Proof. apply bytesb_ok. vm_compute. reflexivity. Qed.

Lemma decode_total_witness :
  exists d, decode_all New [(box_datagram, Addr4 1, 0)] = Some d /\ cache_ok d
    /\ map_Forall (fun _ t => 0 < recLen t) (templates d).
Proof.
  apply (decode_total [(box_datagram, Addr4 1, 0)]). constructor; [apply box_bytes|constructor].
Defined.

Lemma decode_outcome_witness :
  match Decode box_datagram (Addr4 1) 0 New with
  | Some (r, d') => outcome (stats d') = settled r (outcome (stats New))
  | None => False
  end.
Proof.
  destruct (Decode box_datagram (Addr4 1) 0 New) as [[r d']|] eqn:E.
  - apply (decode_outcome box_datagram (Addr4 1) 0 New r d'); [apply box_bytes|apply New_ok|exact E].
  - vm_compute in E. discriminate E.
Defined.

Lemma decode_records_witness :
  match Decode box_datagram (Addr4 1) 0 New with
  | Some (inr dg, d') => zlen (Records dg) = 1 /\ datagram_ok box_datagram dg
  | _ => False
  end.
Proof.
  destruct (Decode box_datagram (Addr4 1) 0 New) as [[[e|dg] d']|] eqn:E;
    [vm_compute in E; discriminate E| |vm_compute in E; discriminate E].
  split.
  - vm_compute in E. injection E as <- _. reflexivity.
  - apply (decode_records box_datagram (Addr4 1) 0 New dg d'); [apply box_bytes|apply New_ok|exact E].
Defined.

(** The same datagram from a second firewall leaves the first one's template. *)
Definition after_one : Decoder :=
  match Decode box_datagram (Addr4 1) 0 New with Some (_, d) => d | None => New end.

Lemma after_one_ok : cache_ok after_one.
Proof.
  unfold after_one. destruct (Decode_spec box_datagram (Addr4 1) 0 New box_bytes New_ok) as (r & d' & -> & H).
  apply H.
Qed.

Lemma decode_isolation_witness :
  match Decode box_datagram (Addr4 2) 0 after_one with
  | Some (r, d') =>
      templates d' !! mkTKey (Addr4 1) 7 256 = templates after_one !! mkTKey (Addr4 1) 7 256
      \/ templates d' !! mkTKey (Addr4 1) 7 256 = None
  | None => False
  end.
Proof.
  destruct (Decode box_datagram (Addr4 2) 0 after_one) as [[r d']|] eqn:E.
  - apply (decode_isolation box_datagram (Addr4 2) 0 after_one r d');
      [apply box_bytes|apply after_one_ok|exact E|done].
  - vm_compute in E. discriminate E.
Defined.

Lemma v9_roundtrip_witness :
  exists u d', Decode box_datagram (Addr4 1) 0 New
    = Some (inr (mkDatagram V9 7 1 (exportTimeOf 1700000000 0 0)
                   (map (record_from box_fields (exportTimeOf 1700000000 0 0) 5000 256) [box_record]) u), d')
    /\ map nBytes (map (record_from box_fields (exportTimeOf 1700000000 0 0) 5000 256) [box_record]) = [1500].
Proof.
  destruct (v9_roundtrip 256 box_fields [box_record] [0; 0; 0] 2 5000 1700000000 1 7 (Addr4 1) 0 New
              box_parts New_ok) as (u & d' & H).
  exists u, d'. split; [exact H|vm_compute; reflexivity].
Defined.

Definition old_flow : flow5 := mkFlow5 167772161 134744072 0 1 2 3 4500 1000 2000 51000 443 0 24 6 0.

Lemma v5_roundtrip_witness :
  let dg := mkDatagram V5 0 9 (exportTimeOf 1700000000 0 0)
              (map (nf_of5 (exportTimeOf 1700000000 0 0) 5000) [old_flow]) [] in
  Decode (enc_v5 (zlen [old_flow]) 5000 1700000000 0 9 0 (concat (map enc5 [old_flow]))) (Addr4 1) 0 New
  = Some (inr dg, account dg New).
Proof.
  apply (v5_roundtrip [old_flow] 5000 1700000000 0 9 0 (Addr4 1) 0 New); try done.
  constructor; [|constructor]. by split.
Defined.

End Decode.
