(* ===== verification/Heap.v ===== *)
(** * Go's [container/heap] over an index-tracking slice

    The correlator's age heap is a slice of pointers, ordered by [Less], in which
    every node also records its own position ([corrHeap] in
    [internal/flow/correlate.go], [heapIndex]); [heap.Remove] is called with that
    recorded position.  [arr] is the slice; [idx] holds the [heapIndex] of the node
    with each key.  [Push], [Remove], [up] and [down] are those of the standard
    library.  The theorems: the heap order and the recorded positions survive every
    operation, and the root is a minimum. *)

From stdpp Require Import base decidable list gmap sets sorting.
From Stdlib Require Import ZArith Lia.
From S2P Require Import Prelude Order.

Record hp (N K : Type) `{Countable K} := mkHp { arr : list N; idx : gmap K Z }.
Arguments mkHp {_ _ _ _} _ _.
Arguments arr {_ _ _ _} _.
Arguments idx {_ _ _ _} _.

Definition parent (i : nat) : nat := (i - 1) / 2.

(** The slice with positions [i] and [j] exchanged. *)
Definition swapped {N : Type} (i j : nat) (l : list N) : list N :=
  match l !! i, l !! j with
  | Some x, Some y => <[j := x]> (<[i := y]> l)
  | _, _ => l
  end.

Section heap.
Context {N K : Type} `{Countable K} (key : N -> K) (less : N -> N -> bool).
Local Abbreviation hp := (hp N K).

Definition empty_heap : hp := mkHp [] ∅.

Definition Less (h : hp) (i j : nat) : bool :=
  match arr h !! i, arr h !! j with
  | Some x, Some y => less x y
  | _, _ => false
  end.

(** [h[i], h[j] = h[j], h[i]], and the two nodes learn their new positions. *)
Definition Swap (i j : nat) (h : hp) : hp :=
  match arr h !! i, arr h !! j with
  | Some x, Some y =>
      mkHp (swapped i j (arr h)) (<[key x := Z.of_nat j]> (<[key y := Z.of_nat i]> (idx h)))
  | _, _ => h
  end.

Fixpoint up (fuel : nat) (j : nat) (h : hp) : hp :=
  match fuel with
  | O => h
  | S fuel =>
      let i := parent j in
      if (i =? j)%nat || negb (Less h j i) then h
      else up fuel i (Swap i j h)
  end.

(** [down] and whether the node moved. *)
Fixpoint down (fuel : nat) (i n : nat) (h : hp) : hp * bool :=
  match fuel with
  | O => (h, false)
  | S fuel =>
      let j1 := (2 * i + 1)%nat in
      if (n <=? j1)%nat then (h, false)
      else
        let j2 := S j1 in
        let j := if (j2 <? n)%nat && Less h j2 j1 then j2 else j1 in
        if negb (Less h j i) then (h, false)
        else (fst (down fuel j n (Swap i j h)), true)
  end.

Definition push_back (x : N) (h : hp) : hp :=
  mkHp (arr h ++ [x]) (<[key x := zlen (arr h)]> (idx h)).

Definition pop_back (h : hp) : hp :=
  match last (arr h) with
  | Some x => mkHp (take (length (arr h) - 1) (arr h)) (<[key x := -1]> (idx h))
  | None => h
  end.

Definition heap_Push (x : N) (h : hp) : hp :=
  let h := push_back x h in
  up (length (arr h)) (length (arr h) - 1) h.

(** [None]: the index is out of range and Go panics. *)
Definition heap_Remove (i : Z) (h : hp) : option hp :=
  if (0 <=? i) && (i <? zlen (arr h)) then
    let i := Z.to_nat i in
    let n := (length (arr h) - 1)%nat in
    let h := if (n =? i)%nat then h
             else let '(h, moved) := down n i n (Swap i n h) in
                  if moved : bool then h else up (S i) i h in
    Some (pop_back h)
  else None.

(** ** Permutations *)

Lemma insert_cons_perm (l : list N) i x y :
  l !! i = Some x -> x :: <[i := y]> l ≡ₚ y :: l.
Proof.
  revert i. induction l as [|z l IH]; intros [|i] E; simplify_eq/=; [constructor|].
  trans (z :: x :: <[i := y]> l); [constructor|]. rewrite (IH i E). constructor.
Qed.

Lemma swapped_perm i j (l : list N) : swapped i j l ≡ₚ l.
Proof.
  unfold swapped. destruct (l !! i) as [x|] eqn:Ei, (l !! j) as [y|] eqn:Ej; try done.
  apply (Permutation_cons_inv (a := y)).
  rewrite insert_cons_perm; [by apply insert_cons_perm|].
  destruct (decide (i = j)) as [->|]; [|by rewrite list_lookup_insert_ne].
  rewrite list_lookup_insert_eq by (apply lookup_lt_is_Some; eauto). congruence.
Qed.

Lemma length_swapped i j (l : list N) : length (swapped i j l) = length l.
Proof. by rewrite swapped_perm. Qed.

Lemma lookup_swapped i j k (l : list N) :
  (i < length l)%nat -> (j < length l)%nat ->
  swapped i j l !! k = l !! (if decide (k = j) then i else if decide (k = i) then j else k).
Proof.
  intros [x Hx]%lookup_lt_is_Some_2 [y Hy]%lookup_lt_is_Some_2. unfold swapped. rewrite Hx, Hy.
  assert (i < length l /\ j < length l)%nat as [? ?] by (split; apply lookup_lt_is_Some; eauto).
  repeat case_decide; subst.
  - rewrite list_lookup_insert_eq; [done|]. by rewrite length_insert.
  - rewrite list_lookup_insert_ne, list_lookup_insert_eq by done. done.
  - by rewrite !list_lookup_insert_ne.
Qed.

Lemma Swap_arr i j (h : hp) : arr (Swap i j h) = swapped i j (arr h).
Proof.
  unfold Swap. destruct (arr h !! i) eqn:Ei, (arr h !! j) eqn:Ej; cbn; unfold swapped;
    rewrite ?Ei, ?Ej; done.
Qed.

Lemma up_perm fuel j h : arr (up fuel j h) ≡ₚ arr h.
Proof.
  revert j h. induction fuel as [|fuel IH]; intros j h; [done|]. cbn.
  destruct (_ || _); [done|]. by rewrite IH, Swap_arr, swapped_perm.
Qed.

Lemma down_perm fuel i n h : arr (fst (down fuel i n h)) ≡ₚ arr h.
Proof.
  revert i h. induction fuel as [|fuel IH]; intros i h; [done|]. cbn [down].
  destruct (n <=? _)%nat; [done|]. destruct (negb _); [done|].
  cbn [fst]. by rewrite IH, Swap_arr, swapped_perm.
Qed.

(** ** Recorded positions *)

Definition tracked (h : hp) : Prop :=
  NoDup (map key (arr h)) /\
  forall i x, arr h !! i = Some x -> idx h !! key x = Some (Z.of_nat i).

Lemma tracked_inj (h : hp) i j x y :
  NoDup (map key (arr h)) -> arr h !! i = Some x -> arr h !! j = Some y -> key x = key y -> i = j.
Proof.
  intros Hn Hi Hj E. eapply (NoDup_lookup _ i j (key x)); [exact Hn| |];
    rewrite list_lookup_fmap; [by rewrite Hi|rewrite Hj; cbn; by rewrite E].
Qed.

Lemma tracked_Swap i j h : tracked h -> tracked (Swap i j h).
Proof.
  intros [Hn Ht]. split; [rewrite Swap_arr; by rewrite swapped_perm|].
  unfold Swap. destruct (arr h !! i) as [x|] eqn:Ei, (arr h !! j) as [y|] eqn:Ej; try done.
  intros k z. cbn [arr idx]. rewrite lookup_swapped by (apply lookup_lt_is_Some; eauto).
  repeat case_decide; subst; intros Hz.
  - simplify_eq. by rewrite lookup_insert_eq.
  - simplify_eq. rewrite lookup_insert_ne, lookup_insert_eq; [done|].
    intros E. assert (i = j) by (eapply (tracked_inj h); eauto). congruence.
  - rewrite !lookup_insert_ne; [by apply Ht| |]; intros E.
    + assert (j = k) by (eapply (tracked_inj h); eauto). congruence.
    + assert (i = k) by (eapply (tracked_inj h); eauto). congruence.
Qed.

Lemma tracked_up fuel j h : tracked h -> tracked (up fuel j h).
Proof.
  revert j h. induction fuel as [|fuel IH]; intros j h Ht; [done|]. cbn.
  destruct (_ || _); [done|]. by apply IH, tracked_Swap.
Qed.

Lemma tracked_down fuel i n h : tracked h -> tracked (fst (down fuel i n h)).
Proof.
  revert i h. induction fuel as [|fuel IH]; intros i h Ht; [done|]. cbn [down].
  destruct (n <=? _)%nat; [done|]. destruct (negb _); [done|]. by apply IH, tracked_Swap.
Qed.
(** ** Heap order *)

Context `{!WeakOrder less}.

(** Node [c] does not come before its parent. *)
Definition above (l : list N) (p c : nat) : Prop :=
  forall x y, l !! c = Some x -> l !! p = Some y -> less x y = false.

Definition heap_upto (n : nat) (l : list N) : Prop :=
  forall c, (0 < c < n)%nat -> above l (parent c) c.

(** Only [j] may come before its parent, and its children respect that parent. *)
Definition up_inv (n j : nat) (l : list N) : Prop :=
  (forall c, (0 < c < n)%nat -> c <> j -> above l (parent c) c) /\
  ((0 < j)%nat -> forall c, (0 < c < n)%nat -> parent c = j -> above l (parent j) c).

(** Only [i]'s children may come before it, and they respect its parent. *)
Definition down_inv (n i : nat) (l : list N) : Prop :=
  (forall c, (0 < c < n)%nat -> c <> i -> parent c <> i -> above l (parent c) c) /\
  ((0 < i)%nat -> forall c, (0 < c < n)%nat -> parent c = i -> above l (parent i) c).

Lemma parent_spec c : (0 < c)%nat -> (c = 2 * parent c + 1 \/ c = 2 * parent c + 2)%nat.
Proof.
  intros Hc. unfold parent. pose proof (Nat.div_mod_eq (c - 1) 2).
  pose proof (Nat.mod_upper_bound (c - 1) 2 ltac:(lia)). lia.
Qed.

Lemma parent_of p c : (c = 2 * p + 1 \/ c = 2 * p + 2)%nat -> parent c = p.
Proof. intros Hc. pose proof (parent_spec c ltac:(lia)). lia. Qed.

Lemma above_trans (l : list N) a b c :
  (b < length l)%nat -> above l a b -> above l b c -> above l a c.
Proof.
  intros [y Hy]%lookup_lt_is_Some_2 H1 H2 x z Hx Hz.
  eapply lt_negtrans; [by eapply H2|by eapply H1].
Qed.

(** [above] of the swapped slice, seen through the exchange of positions. *)
Lemma above_swapped i j (l : list N) p c :
  (i < length l)%nat -> (j < length l)%nat ->
  above l (if decide (p = j) then i else if decide (p = i) then j else p)
          (if decide (c = j) then i else if decide (c = i) then j else c) ->
  above (swapped i j l) p c.
Proof. intros Hi Hj Ha x y. rewrite !lookup_swapped by done. apply Ha. Qed.

Lemma Less_above (h : hp) i j : Less h i j = false -> above (arr h) j i.
Proof. unfold Less. intros E x y Hx Hy. by rewrite Hx, Hy in E. Qed.

Lemma Less_true (h : hp) i j : Less h i j = true -> above (arr h) i j.
Proof.
  unfold Less. intros E x y Hx Hy. rewrite Hx, Hy in E. by apply lt_asym.
Qed.

Ltac swap_cases := apply above_swapped; [lia|lia|]; repeat case_decide; subst; try lia.

Lemma up_step n j (l : list N) :
  (j < n <= length l)%nat -> (0 < j)%nat -> up_inv n j l -> above l j (parent j) ->
  up_inv n (parent j) (swapped (parent j) j l).
Proof.
  intros Hj H0 [Hok Hgp] Hlt. pose proof (parent_spec j H0) as Hp. split.
  - intros c Hc Hne. pose proof (parent_spec c ltac:(lia)) as Hpc. swap_cases;
      first [exact Hlt | solve [apply Hgp; lia || done] | solve [apply Hok; lia || done] | idtac].
    eapply above_trans; [|exact Hlt|]; [lia|].
    match goal with E : parent c = parent j |- _ => rewrite <- E end. apply Hok; lia.
  - intros H1 c Hc Hpar. pose proof (parent_spec c ltac:(lia)) as Hpc.
    pose proof (parent_spec (parent j) H1) as Hpp. swap_cases.
    + apply Hok; lia.
    + eapply above_trans; [|apply Hok; lia|]; [lia|]. rewrite <- Hpar. apply Hok; lia.
Qed.

Lemma up_inv_done n j (l : list N) :
  up_inv n j l -> above l (parent j) j -> heap_upto n l.
Proof.
  intros [Hok _] Hj c Hc. destruct (decide (c = j)) as [->|]; [done|by apply Hok].
Qed.

Lemma up_heap fuel n j h :
  (j < n <= length (arr h))%nat -> (j < fuel)%nat -> up_inv n j (arr h) ->
  heap_upto n (arr (up fuel j h)).
Proof.
  revert j h. induction fuel as [|fuel IH]; intros j h Hj Hf Hi; [lia|]. cbn [up].
  destruct (parent j =? j)%nat eqn:E0; cbn [orb].
  { apply Nat.eqb_eq in E0. intros c Hc. apply Hi; [done|]. intros ->.
    pose proof (parent_spec j ltac:(lia)). lia. }
  apply Nat.eqb_neq in E0. assert (0 < j)%nat as H0.
  { destruct j; [by cbn in E0|lia]. }
  pose proof (parent_spec j H0). destruct (Less h j (parent j)) eqn:E; cbn [negb].
  - apply IH; rewrite ?Swap_arr, ?length_swapped; [lia|lia|].
    apply up_step; [done|done|done|by apply Less_true].
  - eapply up_inv_done; [exact Hi|]. by apply Less_above.
Qed.

Lemma up_beyond fuel j h k :
  (j < k)%nat -> arr (up fuel j h) !! k = arr h !! k.
Proof.
  revert j h. induction fuel as [|fuel IH]; intros j h Hk; [done|]. cbn [up].
  destruct (_ || _) eqn:E; [done|]. apply orb_false_iff in E as [E _]. apply Nat.eqb_neq in E.
  destruct j as [|j]; [by cbn in E|]. pose proof (parent_spec (S j) ltac:(lia)).
  rewrite IH, Swap_arr by lia. unfold swapped.
  destruct (arr h !! parent (S j)), (arr h !! S j); try done. by rewrite !list_lookup_insert_ne by lia.
Qed.

(** The child [down] compares with: the smaller of the two. *)
Definition pick (h : hp) (i n : nat) : nat :=
  if (S (2 * i + 1) <? n)%nat && Less h (S (2 * i + 1)) (2 * i + 1) then S (2 * i + 1)
  else (2 * i + 1)%nat.

Lemma pick_spec h i n :
  (2 * i + 1 < n)%nat ->
  (pick h i n < n)%nat /\ parent (pick h i n) = i /\ (i < pick h i n)%nat /\
  (forall c, (0 < c < n)%nat -> parent c = i -> c <> pick h i n -> above (arr h) (pick h i n) c).
Proof.
  intros Hn. unfold pick. destruct (_ && _) eqn:E.
  - apply andb_true_iff in E as [E1 E2]. apply Nat.ltb_lt in E1.
    split; [done|]. split; [apply parent_of; lia|]. split; [lia|]. intros c Hc Hp Hne.
    pose proof (parent_spec c ltac:(lia)). assert (c = 2 * i + 1)%nat as -> by lia.
    by apply Less_true.
  - split; [lia|]. split; [apply parent_of; lia|]. split; [lia|]. intros c Hc Hp Hne.
    pose proof (parent_spec c ltac:(lia)). assert (c = S (2 * i + 1)) as -> by lia.
    apply andb_false_iff in E as [E|E]; [apply Nat.ltb_ge in E; lia|]. by apply Less_above.
Qed.

Lemma down_step n i j (l : list N) :
  (n <= length l)%nat -> (i < j < n)%nat -> parent j = i -> down_inv n i l ->
  (forall c, (0 < c < n)%nat -> parent c = i -> c <> j -> above l j c) -> above l j i ->
  down_inv n j (swapped i j l) /\ above (swapped i j l) i j.
Proof.
  intros Hn Hj Hp [Hok Hgp] Hsib Hlt. pose proof (parent_spec j ltac:(lia)) as Hpj.
  split; [split|].
  - intros c Hc Hne Hnp. pose proof (parent_spec c ltac:(lia)) as Hpc. swap_cases;
      first [solve [apply Hgp; lia || done] | solve [apply Hok; lia || done]
            | solve [apply Hsib; lia || done] | idtac].
  - intros _ c Hc Hpar. pose proof (parent_spec c ltac:(lia)) as Hpc. swap_cases;
      apply Hok; lia.
  - swap_cases. exact Hlt.
Qed.

Lemma down_eq fuel i n (h : hp) :
  down (S fuel) i n h
  = if (n <=? 2 * i + 1)%nat then (h, false)
    else if negb (Less h (pick h i n) i) then (h, false)
    else (fst (down fuel (pick h i n) n (Swap i (pick h i n) h)), true).
Proof. done. Qed.

(** Nothing below [i] is out of place: [i] itself is all that may be. *)
Lemma down_inv_up n i (l : list N) :
  down_inv n i l -> (forall c, (0 < c < n)%nat -> parent c = i -> above l i c) -> up_inv n i l.
Proof.
  intros [Hok Hgp] Hch. split; [|exact Hgp]. intros c Hc Hne.
  destruct (decide (parent c = i)) as [E|]; [rewrite E; by apply Hch|by apply Hok].
Qed.

Lemma no_children n i (l : list N) :
  (n <= 2 * i + 1)%nat -> forall c, (0 < c < n)%nat -> parent c = i -> above l i c.
Proof. intros Hn c Hc E. pose proof (parent_spec c ltac:(lia)). lia. Qed.

Lemma pick_children n i h :
  (n <= length (arr h))%nat -> (2 * i + 1 < n)%nat -> Less h (pick h i n) i = false ->
  forall c, (0 < c < n)%nat -> parent c = i -> above (arr h) i c.
Proof.
  intros Hn Hi E c Hc Hp. destruct (pick_spec h i n Hi) as (H1 & _ & _ & H4).
  apply Less_above in E. destruct (decide (c = pick h i n)) as [->|Hne]; [done|].
  eapply above_trans; [|exact E|by apply H4]. lia.
Qed.

(** From a node that respects its parent, [down] restores the heap. *)
Lemma down_heap fuel n i h :
  (i < n <= length (arr h))%nat -> (n <= i + fuel)%nat -> down_inv n i (arr h) ->
  above (arr h) (parent i) i -> heap_upto n (arr (fst (down fuel i n h))).
Proof.
  revert i h. induction fuel as [|fuel IH]; intros i h Hi Hf Hd Ha; [lia|]. rewrite down_eq.
  destruct (n <=? 2 * i + 1)%nat eqn:E; [apply Nat.leb_le in E|apply Nat.leb_gt in E].
  { eapply up_inv_done; [|exact Ha]. apply down_inv_up; [done|]. by apply no_children. }
  destruct (Less h (pick h i n) i) eqn:El; cbn [negb fst].
  - destruct (pick_spec h i n E) as (H1 & H2 & H3 & H4).
    destruct (down_step n i (pick h i n) (arr h)) as [Hd' Ha']; [lia|lia|done|done|done|by apply Less_true|].
    apply IH; rewrite ?Swap_arr, ?length_swapped; [lia|lia|done|by rewrite H2].
  - eapply up_inv_done; [|exact Ha]. apply down_inv_up; [done|]. apply pick_children; [lia|done|done].
Qed.

(** From an arbitrary node: if it moved, the heap is restored; if not, only its
    own place is in doubt. *)
Lemma down_first fuel n i h h' moved :
  (i < n <= length (arr h))%nat -> (n <= i + fuel)%nat -> down_inv n i (arr h) ->
  down fuel i n h = (h', moved) ->
  if moved then heap_upto n (arr h') else h' = h /\ up_inv n i (arr h).
Proof.
  intros Hi Hf Hd. destruct fuel as [|fuel]; [lia|]. rewrite down_eq.
  destruct (n <=? 2 * i + 1)%nat eqn:E; [apply Nat.leb_le in E|apply Nat.leb_gt in E].
  { intros [= <- <-]. split; [done|]. apply down_inv_up; [done|]. by apply no_children. }
  destruct (Less h (pick h i n) i) eqn:El; cbn [negb].
  - intros [= <- <-]. destruct (pick_spec h i n E) as (H1 & H2 & H3 & H4).
    destruct (down_step n i (pick h i n) (arr h)) as [Hd' Ha']; [lia|lia|done|done|done|by apply Less_true|].
    apply down_heap; rewrite ?Swap_arr, ?length_swapped; [lia|lia|done|by rewrite H2].
  - intros [= <- <-]. split; [done|]. apply down_inv_up; [done|]. apply pick_children; [lia|done|done].
Qed.

Lemma down_beyond fuel i n h k :
  (i < n <= k)%nat -> arr (fst (down fuel i n h)) !! k = arr h !! k.
Proof.
  revert i h. induction fuel as [|fuel IH]; intros i h Hk; [done|]. rewrite down_eq.
  destruct (n <=? 2 * i + 1)%nat eqn:E; [done|]. apply Nat.leb_gt in E.
  destruct (negb _); [done|]. cbn [fst]. destruct (pick_spec h i n E) as (H1 & _ & H3 & _).
  rewrite IH, Swap_arr by lia. unfold swapped.
  destruct (arr h !! i), (arr h !! pick h i n); try done. by rewrite !list_lookup_insert_ne by lia.
Qed.

(** ** The operations *)

Record heap_inv (h : hp) : Prop := {
  hi_tracked : tracked h;
  hi_order : heap_upto (length (arr h)) (arr h) }.

Lemma empty_inv : heap_inv empty_heap.
Proof. split; [split; [constructor|done]|]. intros c Hc. cbn in Hc. lia. Qed.

(** The root is a minimum. *)
Lemma root_min h r x :
  heap_inv h -> arr h !! 0%nat = Some r -> x ∈ arr h -> less x r = false.
Proof.
  intros [_ Ho] Hr [i Hi]%list_elem_of_lookup. revert i x Hi.
  enough (forall i, (i < length (arr h))%nat -> above (arr h) 0 i) as Hall.
  { intros i x Hi. by apply (Hall i (lookup_lt_Some _ _ _ Hi)). }
  intros i. induction (lt_wf i) as [i _ IH]. intros Hi.
  destruct (decide (i = 0)%nat) as [->|].
  - intros x y Hx Hy. assert (x = y) as -> by congruence.
    destruct (less y y) eqn:E; [|done]. by rewrite (lt_asym _ _ E) in E.
  - pose proof (parent_spec i ltac:(lia)).
    eapply (above_trans _ 0 (parent i)); [lia|apply IH; lia|apply Ho; lia].
Qed.

Lemma tracked_push x h :
  key x ∉ map key (arr h) -> tracked h -> tracked (push_back x h).
Proof.
  intros Hx [Hn Ht]. split; cbn [arr push_back].
  - rewrite map_app. apply NoDup_app. split; [done|]. cbn [map].
    split; [|apply NoDup_singleton]. intros k Hk ->%list_elem_of_singleton. done.
  - intros i y. rewrite lookup_app_Some. intros [Hy|[Hl Hy]].
    + cbn. rewrite lookup_insert_ne; [by apply Ht|]. intros E. apply Hx. rewrite E.
      apply list_elem_of_fmap_2. by eapply list_elem_of_lookup_2.
    + apply list_lookup_singleton_Some in Hy as [Hi ->]. cbn. rewrite lookup_insert_eq.
      unfold zlen. do 2 f_equal. lia.
Qed.

Lemma push_spec x h :
  key x ∉ map key (arr h) -> heap_inv h ->
  heap_inv (heap_Push x h) /\ arr (heap_Push x h) ≡ₚ x :: arr h.
Proof.
  intros Hx [Ht Ho].
  assert (arr (heap_Push x h) ≡ₚ x :: arr h) as Hp.
  { unfold heap_Push. rewrite up_perm. cbn. by rewrite Permutation_app_comm. }
  split; [|done]. split; [by apply tracked_up, tracked_push|].
  rewrite (Permutation_length Hp). cbn [length]. unfold heap_Push.
  assert (length (arr (push_back x h)) = S (length (arr h))) as El
    by (cbn; rewrite length_app; cbn; lia).
  rewrite El. apply up_heap; [lia|lia|]. split; cbn [arr push_back].
  - intros c Hc Hne. pose proof (parent_spec c ltac:(lia)).
    intros a b. rewrite !lookup_app_l by lia. apply Ho. lia.
  - intros H0 c Hc Hpar. pose proof (parent_spec c ltac:(lia)). lia.
Qed.

Lemma tracked_pop h : tracked h -> tracked (pop_back h).
Proof.
  intros [Hn Ht]. unfold pop_back. destruct (last (arr h)) as [x|] eqn:E; [|done].
  apply last_Some in E as [l E]. rewrite E in *. rewrite length_app. cbn [length].
  replace (length l + 1 - 1)%nat with (length l) by lia. rewrite take_app_length.
  rewrite map_app in Hn. apply NoDup_app in Hn as (Hn & Hd & _). split; [done|].
  cbn [arr idx]. intros i y Hy. rewrite lookup_insert_ne; [apply Ht; by apply lookup_app_l_Some|].
  intros Ek. apply (Hd (key y)); [|rewrite <- Ek; set_solver].
  apply list_elem_of_fmap_2. by eapply list_elem_of_lookup_2.
Qed.

(** Removing the last node of a slice ordered up to it. *)
Lemma pop_spec h x n :
  length (arr h) = S n -> arr h !! n = Some x -> tracked h -> heap_upto n (arr h) ->
  heap_inv (pop_back h) /\ x :: arr (pop_back h) ≡ₚ arr h.
Proof.
  intros Hl Hx Ht Ho. assert (last (arr h) = Some x) as E by (rewrite last_lookup, Hl; exact Hx).
  pose proof (tracked_pop h Ht) as Ht'. unfold pop_back in *. rewrite E in *.
  cbn [arr] in *. rewrite Hl, Nat.sub_succ, Nat.sub_0_r in *. split; [split; [done|]|].
  - cbn [arr]. rewrite length_take. intros c Hc y z. pose proof (parent_spec c ltac:(lia)).
    rewrite !lookup_take_lt by lia. apply Ho. lia.
  - rewrite <- (take_drop n (arr h)) at 2. rewrite (drop_S _ x n) by done.
    rewrite drop_ge by lia. by rewrite Permutation_app_comm.
Qed.

Lemma swap_down_inv n i (l : list N) :
  heap_upto (S n) l -> length l = S n -> (i < n)%nat -> down_inv n i (swapped i n l).
Proof.
  intros Ho Hl Hi. split.
  - intros c Hc Hne Hp. pose proof (parent_spec c ltac:(lia)). swap_cases. apply Ho. lia.
  - intros H0 c Hc Hp. pose proof (parent_spec c ltac:(lia)). pose proof (parent_spec i H0).
    swap_cases. eapply above_trans; [|apply Ho; lia|apply Ho; lia]. lia.
Qed.

Lemma remove_spec h i x :
  heap_inv h -> arr h !! i = Some x ->
  exists h', heap_Remove (Z.of_nat i) h = Some h' /\ heap_inv h' /\ x :: arr h' ≡ₚ arr h.
Proof.
  intros [Ht Ho] Hx. pose proof (lookup_lt_Some _ _ _ Hx) as Hi. unfold heap_Remove.
  assert ((0 <=? Z.of_nat i) && (Z.of_nat i <? zlen (arr h)) = true) as ->.
  { apply andb_true_iff. unfold zlen. split; zbool. }
  rewrite Nat2Z.id. destruct (length (arr h)) as [|n] eqn:Hl; [lia|]. rewrite Nat.sub_succ, Nat.sub_0_r.
  destruct (n =? i)%nat eqn:E; [apply Nat.eqb_eq in E as ->|apply Nat.eqb_neq in E].
  { eexists. split; [done|]. apply (pop_spec h x i); [done..|]. intros c Hc. apply Ho. lia. }
  set (h1 := Swap i n h). assert (arr h1 = swapped i n (arr h)) as H1 by apply Swap_arr.
  assert (length (arr h1) = S n) as Hl1 by by rewrite H1, length_swapped.
  assert (arr h1 !! n = Some x) as Hx1 by (rewrite H1, lookup_swapped, decide_True by (done || lia); done).
  destruct (down n i n h1) as [h2 moved] eqn:Ed.
  assert (arr h2 !! n = Some x) as Hx2.
  { replace h2 with (fst (down n i n h1)) by by rewrite Ed. rewrite down_beyond by lia. done. }
  assert (arr h2 ≡ₚ arr h) as Hp2.
  { replace h2 with (fst (down n i n h1)) by by rewrite Ed. by rewrite down_perm, H1, swapped_perm. }
  assert (tracked h2) as Ht2.
  { replace h2 with (fst (down n i n h1)) by by rewrite Ed. by apply tracked_down, tracked_Swap. }
  apply down_first in Ed; [|lia|lia|rewrite H1; apply swap_down_inv; [done|done|lia]].
  assert (length (arr h2) = S n) as Hl2 by by rewrite Hp2.
  eexists. split; [done|]. destruct moved.
  - destruct (pop_spec h2 x n) as [? Hp]; [done..|]. by rewrite Hp.
  - destruct Ed as [-> Hu].
    assert (arr (up (S i) i h1) ≡ₚ arr h1) as Hpu by apply up_perm.
    destruct (pop_spec (up (S i) i h1) x n) as [? Hp].
    + by rewrite Hpu.
    + rewrite up_beyond by lia. done.
    + by apply tracked_up.
    + apply up_heap; [lia|lia|done].
    + split; [done|]. by rewrite Hp, Hpu.
Qed.

End heap.
