(* ===== verification/Correlate.v ===== *)
(** * The correlator ([internal/flow/correlate.go])

    NetFlow fragments of one conversation accumulate under a key (community id and
    window) and leave as one record, when their window has elapsed, when the map is
    full, or at shutdown; a Zenarmor document for the same key is merged onto it.

    [cells] is the map; [order] is the age heap of [Heap], whose nodes carry the
    two immutable fields of an entry the comparator reads.  The operations return
    the records handed to [emit].  [None] is the panic of [heap.Remove] on a wrong
    index.  Go iterates over a map in no fixed order: [Expire] and [Flush] take the
    order of the iteration as an argument, and the theorems hold for all of them. *)

From stdpp Require Import base decidable list gmap sets strings sorting.
From Stdlib Require Import ZArith Lia.
From S2P Require Import Prelude Netip Order Record Geo Heap.

Module Correlate.

Record corrKey := mkCorrKey { community : string; bucket : Z }.
#[export] Instance corrKey_eq_dec : EqDecision corrKey.
Proof. solve_decision. Defined.
#[export] Instance corrKey_countable : Countable corrKey.
Proof.
  refine (inj_countable' (fun k => (community k, bucket k)) (fun '(a, b) => mkCorrKey a b) _).
  by intros [].
Defined.

Record corrEntry := mkEntry {
  ckey : corrKey; nf : Counters; nfMirror : Counters; sample : Record_; mirror : option Record_;
  fragments : Z; estart : Time; eend : Time; firstSeen : Time; zen : option Record_;
  hasNF : bool; tcpFlags : Z; repairs : Repairs }.
#[export] Instance eta_corrEntry : Eta corrEntry := fun e =>
  mkEntry (ckey e) (nf e) (nfMirror e) (sample e) (mirror e) (fragments e) (estart e) (eend e)
    (firstSeen e) (zen e) (hasNF e) (tcpFlags e) (repairs e).

Definition newEntry (k : corrKey) (seen : Time) : corrEntry :=
  mkEntry k zeroCounters zeroCounters zeroRecord None 0 zero_time zero_time seen None false 0 zeroRepairs.

(** ** The age heap *)

(** A node: the two fields of an entry the comparator reads. *)
Definition node_of (e : corrEntry) : corrKey * Time := (ckey e, firstSeen e).

(** [corrHeap.Less]. *)
Definition corr_less (a b : corrKey * Time) : bool :=
  if time_Equal (snd a) (snd b) then
    if bucket (fst a) =? bucket (fst b) then str_lt (community (fst a)) (community (fst b))
    else bucket (fst a) <? bucket (fst b)
  else Before (snd a) (snd b).

Record Correlator := mkCorrelator {
  enabled : bool; window : Duration; maxEntries : Z;
  cells : gmap corrKey corrEntry; order : hp (corrKey * Time) corrKey;
  entries : Z; emitted : Z; matched : Z; evicted : Z; expired : Z;
  enrichmentOverwrites : Z; fragmentDisagreement : Z; fragmentMirrored : Z }.
#[export] Instance eta_Correlator : Eta Correlator := fun c =>
  mkCorrelator (enabled c) (window c) (maxEntries c) (cells c) (order c) (entries c) (emitted c)
    (matched c) (evicted c) (expired c) (enrichmentOverwrites c) (fragmentDisagreement c)
    (fragmentMirrored c).

Definition NewCorrelator (en : bool) (w : Duration) (mx : Z) : Correlator :=
  mkCorrelator en w mx ∅ empty_heap 0 0 0 0 0 0 0 0.

(** ** Keys and comparisons of fragments *)

Definition keyOf (c : Correlator) (r : Record_) : corrKey :=
  mkCorrKey (CommunityIDOf r)
    (if 0 <? window c then Z.quot (UnixNano (End_ r)) (window c) else 0).

Definition fragmentsOf (r : Record_) : Z := if 0 <? Fragments r then Fragments r else 1.

Definition fragmentDisagrees (s r : Record_) : bool :=
  negb (bool_decide (In s = In r)) || negb (bool_decide (Out s = Out r))
  || negb (bool_decide (rDirection s = rDirection r)) || negb (str_eq (VLANID s) (VLANID r))
  || negb (bool_decide (Enrich s = Enrich r)).

Definition isMirrorOf (s r : Record_) : bool :=
  addr_eqb (Unmap (SrcAddr r)) (Unmap (DstAddr s)) && (SrcPort r =? DstPort s)
  && addr_eqb (Unmap (DstAddr r)) (Unmap (SrcAddr s)) && (DstPort r =? SrcPort s).

Definition spansWindows (c : Correlator) (start stop : Time) : bool :=
  if (window c <=? 0) || IsZero start || IsZero stop then false
  else negb (Z.quot (UnixNano start) (window c) =? Z.quot (UnixNano stop) (window c)).

(** ** The record an entry emits *)

(** [orientation]: the chosen half, and whether it is the mirror. *)
Definition orientation (e : corrEntry) : Record_ * bool :=
  match mirror e with
  | None => (sample e, false)
  | Some b =>
      let a := sample e in
      let stated :=
        match zen e with
        | Some z =>
            if direction_eqb (rDirection z) DirectionUnknown then None
            else if direction_eqb (rDirection a) (rDirection z)
                    && negb (direction_eqb (rDirection b) (rDirection z)) then Some false
            else if direction_eqb (rDirection b) (rDirection z)
                    && negb (direction_eqb (rDirection a) (rDirection z)) then Some true
            else None
        | None => None
        end in
      match stated with
      | Some false => (a, false)
      | Some true => (b, true)
      | None =>
          if Before (Start a) (Start b) then (a, false)
          else if Before (Start b) (Start a) then (b, true)
          else
            let localOut r := negb (str_eq (SrcScope (Enrich r)) "remote")
                              && str_eq (DstScope (Enrich r)) "remote" in
            if negb (Bool.eqb (localOut a) (localOut b)) then
              if localOut a then (a, false) else (b, true)
            else if endpointLess (Unmap (SrcAddr a)) (SrcPort a) (Unmap (DstAddr a)) (DstPort a)
            then (a, false) else (b, true)
      end
  end.

(** The chosen orientation's volume is transmitted, the other's received. *)
Definition split_volume (fwd rev : Counters) (present : bool) : Counters :=
  mkCounters (add64 (TxBytes fwd) (RxBytes fwd)) (add64 (TxBytes rev) (RxBytes rev))
             (add64 (TxPackets fwd) (RxPackets fwd)) (add64 (TxPackets rev) (RxPackets rev)) present.

(** What a merged record takes from the Zenarmor document. *)
Definition merge_zen (c : Correlator) (z : Record_) (out : Record_) : Record_ :=
  let out := out <| rSource := SourceMerged |> <| rL7 := rL7 z |> <| rVerdict := rVerdict z |>
                 <| Zen := Zen z |> in
  let out := if str_empty (DstDomain (Enrich out))
             then out <| Enrich ::= fun en => en <| DstDomain := DstDomain (Enrich z) |> |>
             else out in
  let out := fst (MergeGeo out z) in
  out <| rRepairs ::= fun rp =>
         rp <| ZenBytesArePayload := PayloadByteFallback (rRepairs z) |>
            <| WindowPartial := spansWindows c (Start z) (End_ z) |> |>.

Definition finalize (c : Correlator) (e : corrEntry) : option Record_ :=
  if negb (hasNF e) then None
  else
    let '(out, chosenIsMirror) := orientation e in
    let vol := if chosenIsMirror : bool then split_volume (nfMirror e) (nf e) (Present (nf e))
               else split_volume (nf e) (nfMirror e) (Present (nf e)) in
    let out := out <| NF := vol |> <| TCPFlags := tcpFlags e |>
                   <| rRepairs ::= fun rp => Repairs_merge rp (repairs e) |>
                   <| Fragments := fragments e |> <| Start := estart e |> <| End_ := eend e |> in
    Some (match zen e with
          | Some z => merge_zen c z out
          | None => out <| rSource := SourceNetflow |>
          end).

(** ** Removal and eviction *)

(** [removeEntryLocked]: [heap.Remove] at the node's recorded position. *)
Definition removeEntryLocked (e : corrEntry) (c : Correlator) : option Correlator :=
  match cells c !! ckey e with
  | None => Some c
  | Some _ =>
      i ← idx (order c) !! ckey e;
      h ← heap_Remove fst corr_less i (order c);
      Some (c <| cells ::= delete (ckey e) |> <| order := h |> <| entries ::= fun n => n - 1 |>)
  end.

(** The counters of an emission; [windowed] on the expiry path. *)
Definition emit_entry (windowed : bool) (e : corrEntry) (c : Correlator) : list Record_ * Correlator :=
  match finalize c e with
  | None => ([], c)
  | Some rec =>
      let c := c <| emitted ::= fun n => add64 n 1 |> in
      let c := if windowed then c <| expired ::= fun n => add64 n 1 |> else c in
      let c := if source_eqb (rSource rec) SourceMerged
               then c <| matched ::= fun n => add64 n 1 |> else c in
      ([rec], c)
  end.

(** [oldestLocked]: the entry at the root of the age heap. *)
Definition oldestLocked (c : Correlator) : option corrEntry :=
  match arr (order c) with
  | [] => None
  | n :: _ => cells c !! fst n
  end.

Definition evictOldestLocked (c : Correlator) : option (list Record_ * Correlator) :=
  match oldestLocked c with
  | None => Some ([], c)
  | Some victim =>
      let c := c <| evicted ::= fun n => add64 n 1 |> in
      let '(pending, c) := emit_entry false victim c in
      c ← removeEntryLocked victim c;
      Some (pending, c)
  end.

(** ** Observing *)

(** The entry for a key, created (after an eviction when full) if there is none. *)
Definition entryFor (k : corrKey) (r : Record_) (c : Correlator)
  : option (list Record_ * corrEntry * Correlator) :=
  match cells c !! k with
  | Some e => Some ([], e, c)
  | None =>
      '(pending, c) ← (if (0 <? maxEntries c) && (maxEntries c <=? entries c)
                       then evictOldestLocked c else Some ([], c));
      let e := newEntry k (Observed r) in
      Some (pending, e,
            c <| cells ::= <[k := e]> |> <| order ::= heap_Push fst corr_less (node_of e) |>
              <| entries ::= fun n => n + 1 |>)
  end.

Definition add_counters (h r : Counters) : Counters :=
  mkCounters (add64 (TxBytes h) (TxBytes r)) (add64 (RxBytes h) (RxBytes r))
             (add64 (TxPackets h) (TxPackets r)) (add64 (RxPackets h) (RxPackets r)) true.

(** The first representative of each orientation, and what it disagrees with. *)
Definition place (r : Record_) (e : corrEntry) (c : Correlator) : corrEntry * Correlator :=
  if negb (hasNF e) then
    (e <| sample := r |> <| estart := Start r |> <| eend := End_ r |>, c)
  else if isMirrorOf (sample e) r then
    let c := c <| fragmentMirrored ::= fun n => add64 n 1 |> in
    match mirror e with
    | None => (e <| mirror := Some r |>, c)
    | Some m =>
        (e, if fragmentDisagrees m r then c <| fragmentDisagreement ::= fun n => add64 n 1 |> else c)
    end
  else (e, if fragmentDisagrees (sample e) r
           then c <| fragmentDisagreement ::= fun n => add64 n 1 |> else c).

(** The fragment's volume, flags, markers and span. *)
Definition accumulate (r : Record_) (e : corrEntry) : corrEntry :=
  let onMirror := match mirror e with Some _ => isMirrorOf (sample e) r | None => false end in
  let e := if onMirror then e <| nfMirror ::= fun h => add_counters h (NF r) |>
           else e <| nf ::= fun h => add_counters h (NF r) |> in
  let e := e <| nf ::= fun h => h <| Present := true |> |> <| hasNF := true |>
             <| tcpFlags ::= fun f => Z.lor f (TCPFlags r) |>
             <| repairs ::= fun rp => Repairs_merge rp (rRepairs r) |>
             <| fragments ::= fun n => n + fragmentsOf r |> in
  let e := if Before (Start r) (estart e) then e <| estart := Start r |> else e in
  if After (End_ r) (eend e) then e <| eend := End_ r |> else e.

Definition observeNetflowLocked (r : Record_) (c : Correlator) : option (list Record_ * Correlator) :=
  let k := keyOf c r in
  '(pending, e, c) ← entryFor k r c;
  let '(e, c) := place r e c in
  Some (pending, c <| cells ::= <[k := accumulate r e]> |>).

Definition observeZenarmorLocked (r : Record_) (c : Correlator) : option (list Record_ * Correlator) :=
  let k := keyOf c r in
  '(pending, e, c) ← entryFor k r c;
  let c := match zen e with
           | Some _ => c <| enrichmentOverwrites ::= fun n => add64 n 1 |>
           | None => c
           end in
  Some (pending, c <| cells ::= <[k := e <| zen := Some r |>]> |>).

Definition Correlator_Observe (r : Record_) (c : Correlator) : option (list Record_ * Correlator) :=
  if negb (enabled c) then
    if source_eqb (rSource r) SourceNetflow
    then Some ([r], c <| emitted ::= fun n => add64 n 1 |>) else Some ([], c)
  else
    match rSource r with
    | SourceNetflow => observeNetflowLocked r c
    | SourceZenarmor => observeZenarmorLocked r c
    | _ => Some ([], c)
    end.

(** ** Expiry and shutdown *)

Fixpoint Expire (iter : list corrKey) (now : Time) (c : Correlator)
  : option (list Record_ * Correlator) :=
  match iter with
  | [] => Some ([], c)
  | k :: iter =>
      match cells c !! k with
      | None => Expire iter now c
      | Some e =>
          if time_Sub now (firstSeen e) <? window c then Expire iter now c
          else
            let '(out, c) := emit_entry true e c in
            c ← removeEntryLocked e c;
            '(rest, c) ← Expire iter now c;
            Some (out ++ rest, c)
      end
  end.

Fixpoint flush_loop (iter : list corrKey) (c : Correlator) : list Record_ * Correlator :=
  match iter with
  | [] => ([], c)
  | k :: iter =>
      match cells c !! k with
      | None => flush_loop iter c
      | Some e =>
          let '(out, c) := emit_entry false e c in
          let '(rest, c) := flush_loop iter (c <| cells ::= delete k |>) in
          (out ++ rest, c)
      end
  end.

Definition Flush (iter : list corrKey) (c : Correlator) : list Record_ * Correlator :=
  let '(out, c) := flush_loop iter c in
  (out, c <| order := empty_heap |> <| entries := 0 |>).

(** A complete iteration of the map: each key once, in some order. *)
Definition iterates (iter : list corrKey) (c : Correlator) : Prop :=
  iter ≡ₚ map fst (map_to_list (cells c)).

(** ** Histories *)

Inductive op :=
| OpObserve (r : Record_)
| OpExpire (iter : list corrKey) (now : Time)
| OpFlush (iter : list corrKey).

Definition step (o : op) (c : Correlator) : option (list Record_ * Correlator) :=
  match o with
  | OpObserve r => Correlator_Observe r c
  | OpExpire iter now => Expire iter now c
  | OpFlush iter => Some (Flush iter c)
  end.

(** A history, with the records it emitted. *)
Inductive runs : Correlator -> list op -> list Record_ -> Correlator -> Prop :=
| runs_nil c : runs c [] [] c
| runs_cons c o out c1 os outs c2 :
    (forall iter, o = OpFlush iter -> iterates iter c) ->
    step o c = Some (out, c1) -> runs c1 os outs c2 -> runs c (o :: os) (out ++ outs) c2.

(** ** The comparator is a total order *)

Lemma corr_less_cases a b :
  corr_less a b = true <->
  snd a < snd b \/ (snd a = snd b /\
    (bucket (fst a) < bucket (fst b) \/
     (bucket (fst a) = bucket (fst b) /\ str_lt (community (fst a)) (community (fst b)) = true))).
Proof.
  unfold corr_less, time_Equal, Before.
  destruct (Z.eqb_spec (snd a) (snd b)); [|rewrite Z.ltb_lt; lia].
  destruct (Z.eqb_spec (bucket (fst a)) (bucket (fst b))); [|rewrite Z.ltb_lt; lia].
  split; [auto|]. intros [?|[_ [?|[_ ?]]]]; [lia|lia|done].
Qed.

#[export] Instance corr_less_total : StrictTotal corr_less.
Proof.
  split.
  - intros a. apply not_true_is_false. rewrite corr_less_cases.
    intros [?|[_ [?|[_ H]]]]; [lia|lia|]. by rewrite st_irrefl in H.
  - intros a b c. rewrite !corr_less_cases.
    intros [?|[? [?|[? H1]]]] [?|[? [?|[? H2]]]]; try lia.
    right. split; [congruence|]. right. split; [congruence|]. by eapply st_trans.
  - intros [[ca ba] ta] [[cb bb] tb] H1 H2.
    apply not_true_iff_false in H1, H2. rewrite corr_less_cases in H1, H2. cbn in H1, H2.
    assert (ta = tb) as -> by lia. assert (ba = bb) as -> by lia.
    assert (ca = cb) as ->; [|done].
    apply st_total; apply not_true_is_false; intros H; [apply H1|apply H2]; auto.
Qed.

(** ** The invariant *)

Record entry_ok (e : corrEntry) : Prop := {
  eo_empty : hasNF e = false -> nf e = zeroCounters /\ nfMirror e = zeroCounters /\ fragments e = 0;
  eo_present : hasNF e = true -> Present (nf e) = true /\ 0 < fragments e }.

(** Map and heap hold the same entries; the heap is ordered and its recorded
    positions are right. *)
Record corr_ok (c : Correlator) : Prop := {
  co_heap : heap_inv fst corr_less (order c);
  co_nodes : forall k t, (k, t) ∈ arr (order c)
               <-> exists e, cells c !! k = Some e /\ firstSeen e = t;
  co_ckey : forall k e, cells c !! k = Some e -> ckey e = k;
  co_size : entries c = zsize (cells c);
  co_entry : forall k e, cells c !! k = Some e -> entry_ok e }.

Definition within_cap (c : Correlator) : Prop := 0 < maxEntries c -> entries c <= maxEntries c.

(** The part of the state the counters are not part of. *)
Definition core (c : Correlator) :=
  (enabled c, window c, maxEntries c, cells c, order c, entries c).

Lemma corr_ok_core c c' : core c' = core c -> corr_ok c -> corr_ok c'.
Proof.
  intros [= _ _ _ H1 H2 H3] []. split; rewrite ?H1, ?H2, ?H3; done.
Qed.

Lemma NewCorrelator_ok en w mx : corr_ok (NewCorrelator en w mx).
Proof.
  split; cbn [NewCorrelator cells order entries].
  - apply (empty_inv (K:=corrKey) fst corr_less).
  - intros k t. cbn. split; [set_solver|]. intros (e & He & _). by rewrite lookup_empty in He.
  - intros k e He. by rewrite lookup_empty in He.
  - symmetry. apply zsize_empty.
  - intros k e He. by rewrite lookup_empty in He.
Qed.

Lemma emit_entry_core w e c out c' : emit_entry w e c = (out, c') -> core c' = core c.
Proof.
  unfold emit_entry. destruct (finalize c e); intros [= <- <-]; [|done].
  by destruct w, (source_eqb _ _).
Qed.

(** ** Removal *)

Lemma node_key_unique c k t t' :
  corr_ok c -> (k, t) ∈ arr (order c) -> (k, t') ∈ arr (order c) -> t = t'.
Proof. intros [_ Hn _ _ _] (e & ? & <-)%Hn (e' & ? & <-)%Hn. congruence. Qed.

Lemma remove_ok c k e :
  corr_ok c -> cells c !! k = Some e ->
  exists c', removeEntryLocked e c = Some c' /\ corr_ok c' /\ cells c' = delete k (cells c)
    /\ entries c' = entries c - 1 /\ maxEntries c' = maxEntries c /\ enabled c' = enabled c
    /\ window c' = window c.
Proof.
  intros Hc E. pose proof Hc as [[Ht Ho] Hn Hk Hs He]. pose proof (Hk _ _ E) as Ek.
  assert ((k, firstSeen e) ∈ arr (order c)) as Hin by (apply Hn; eauto).
  apply list_elem_of_lookup in Hin as [i Hi]. destruct (remove_spec fst corr_less (order c) i _ (co_heap _ Hc) Hi)
    as (h & Hr & Hh & Hp).
  unfold removeEntryLocked. rewrite Ek, E.
  assert (idx (order c) !! k = Some (Z.of_nat i)) as -> by exact (proj2 Ht i _ Hi).
  cbn [mbind option_bind]. rewrite Hr. cbn [mbind option_bind].
  eexists. split; [done|]. split; [|done]. split; cbn; [done| | | |].
  - intros k' t. destruct Ht as [Hnd _]. split.
    + intros Hin. assert ((k', t) ∈ arr (order c)) as Hin' by (rewrite <- Hp; set_solver).
      assert (k' <> k) as Hne.
      { intros ->. rewrite (node_key_unique c k t (firstSeen e)) in Hin;
          [|done|done|apply Hn; eauto].
        assert (map fst ((k, firstSeen e) :: arr h) ≡ₚ map fst (arr (order c))) as Hm by by rewrite Hp.
        rewrite <- Hm in Hnd. cbn [map fst] in Hnd. apply NoDup_cons in Hnd as [Hnd _]. apply Hnd.
        by apply (list_elem_of_fmap_2 fst _ (k, firstSeen e)). }
      rewrite lookup_delete_ne by done. by apply Hn.
    + intros (e' & He' & <-). apply lookup_delete_Some in He' as [Hne He'].
      assert ((k', firstSeen e') ∈ arr (order c)) as Hin by (apply Hn; eauto).
      rewrite <- Hp in Hin. apply elem_of_cons in Hin as [[=]|]; [congruence|done].
  - intros k' e' [_ He']%lookup_delete_Some. by apply Hk.
  - rewrite Hs. by rewrite (zsize_delete _ _ e).
  - intros k' e' [_ He']%lookup_delete_Some. by eapply He.
Qed.

(** ** What is conserved

    Bytes, packets and raw fragments: each is a quantity of a record, and of an
    entry that has not been emitted yet. *)

Inductive quantity := QBytes | QPackets | QFragments.
#[export] Instance quantity_eq_dec : EqDecision quantity.
Proof. solve_decision. Defined.

Definition counters_q (q : quantity) (c : Counters) : Z :=
  match q with
  | QBytes => TxBytes c + RxBytes c
  | QPackets => TxPackets c + RxPackets c
  | QFragments => 0
  end.

Definition record_q (q : quantity) (r : Record_) : Z :=
  match q with
  | QBytes => Counters_Bytes (NF r)
  | QPackets => Counters_Packets (NF r)
  | QFragments => fragmentsOf r
  end.

Definition entry_q (q : quantity) (e : corrEntry) : Z :=
  match q with
  | QFragments => fragments e
  | _ => counters_q q (nf e) + counters_q q (nfMirror e)
  end.

Definition pending (q : quantity) (c : Correlator) : Z := msum (fun _ e => entry_q q e) (cells c).

Lemma record_q_counters q r : q <> QFragments -> record_q q r ==64 counters_q q (NF r).
Proof. by destruct q; intros; [apply add64_eq64|apply add64_eq64|]. Qed.

Lemma MergeGeo_rest dst z :
  NF (fst (MergeGeo dst z)) = NF dst /\ Fragments (fst (MergeGeo dst z)) = Fragments dst
  /\ rSource (fst (MergeGeo dst z)) = rSource dst.
Proof. unfold MergeGeo. by repeat case_match. Qed.

Lemma merge_zen_rest c z o :
  NF (merge_zen c z o) = NF o /\ Fragments (merge_zen c z o) = Fragments o
  /\ rSource (merge_zen c z o) = SourceMerged.
Proof.
  unfold merge_zen. cbn. destruct (str_empty _); cbn;
    match goal with |- context [MergeGeo ?o ?z] => destruct (MergeGeo_rest o z) as (-> & -> & ->) end;
    done.
Qed.

Lemma finalize_volume c e rec :
  finalize c e = Some rec ->
  Fragments rec = fragments e /\
  NF rec = (if snd (orientation e) then split_volume (nfMirror e) (nf e) (Present (nf e))
            else split_volume (nf e) (nfMirror e) (Present (nf e))) /\
  rSource rec = match zen e with Some _ => SourceMerged | None => SourceNetflow end.
Proof.
  unfold finalize. destruct (negb (hasNF e)); [done|].
  destruct (orientation e) as [o m]. intros [= <-]. cbn [snd].
  destruct (zen e) as [z|]; [|by destruct m].
  match goal with |- context [merge_zen c z ?o] => destruct (merge_zen_rest c z o) as (-> & -> & ->) end.
  by destruct m.
Qed.

Lemma split_volume_q q f r p :
  q <> QFragments -> counters_q q (split_volume f r p) ==64 counters_q q f + counters_q q r.
Proof.
  intros Hq. unfold split_volume. destruct q; [..|done]; cbn; by rewrite !add64_eq64.
Qed.

(** An emitted record carries what its entry had accumulated. *)
Lemma finalize_q q c e rec :
  entry_ok e -> hasNF e = true -> finalize c e = Some rec -> record_q q rec ==64 entry_q q e.
Proof.
  intros [_ He] Hnf E. destruct (finalize_volume _ _ _ E) as (Hf & Hv & _). destruct (He Hnf) as [_ Hp].
  destruct (decide (q = QFragments)) as [->|Hq].
  - apply eq64_of_eq. cbn. unfold fragmentsOf. rewrite Hf. destruct (Z.ltb_spec 0 (fragments e)); lia.
  - rewrite record_q_counters, Hv by done.
    assert (entry_q q e = counters_q q (nf e) + counters_q q (nfMirror e)) as -> by by destruct q.
    destruct (snd (orientation e)); rewrite split_volume_q by done; [|done].
    by rewrite Z.add_comm.
Qed.

Lemma emit_entry_q q w e c out c' :
  entry_ok e -> emit_entry w e c = (out, c') -> lsum (record_q q) out ==64 entry_q q e.
Proof.
  intros He. unfold emit_entry. destruct (hasNF e) eqn:Hnf.
  - destruct (finalize c e) as [rec|] eqn:E.
    + intros [= <- _]. cbn. rewrite (finalize_q q c e rec) by done. by rewrite Z.add_0_r.
    + unfold finalize in E. rewrite Hnf in E. cbn in E. by destruct (orientation e).
  - unfold finalize. rewrite Hnf. intros [= <- _]. destruct He as [He _].
    destruct (He Hnf) as (E1 & E2 & E3). destruct q; cbn; rewrite ?E1, ?E2, ?E3; done.
Qed.

(** Records leave this component only as NetFlow or merged records. *)
Definition emittable (r : Record_) : Prop := rSource r = SourceNetflow \/ rSource r = SourceMerged.

Lemma emit_entry_source w e c out c' : emit_entry w e c = (out, c') -> Forall emittable out.
Proof.
  unfold emit_entry. destruct (finalize c e) as [rec|] eqn:E; intros [= <- _]; [|constructor].
  constructor; [|constructor]. destruct (finalize_volume _ _ _ E) as (_ & _ & H).
  unfold emittable. destruct (zen e); auto.
Qed.

(** ** Steps *)

(** What a step that took in [obs] of each quantity guarantees. *)
Record good (c : Correlator) (obs : quantity -> Z) (out : list Record_) (c' : Correlator) : Prop := {
  g_ok : corr_ok c';
  g_cap : within_cap c -> within_cap c';
  g_cfg : (enabled c', window c', maxEntries c') = (enabled c, window c, maxEntries c);
  g_q : forall q, lsum (record_q q) out + pending q c' ==64 pending q c + obs q;
  g_src : Forall emittable out }.

Definition nothing (q : quantity) : Z := 0.

Lemma good_refl c : corr_ok c -> good c nothing [] c.
Proof.
  intros H. split; [done|done|done| |constructor]. intros q. apply eq64_of_eq. unfold nothing. cbn. lia.
Qed.

Lemma good_trans c o1 out1 c1 o2 out2 c2 :
  good c o1 out1 c1 -> good c1 o2 out2 c2 -> good c (fun q => o1 q + o2 q) (out1 ++ out2) c2.
Proof.
  intros [A1 B1 C1 D1 E1] [A2 B2 C2 D2 E2]. split; [done|auto|congruence| |by apply Forall_app].
  intros q. rewrite lsum_app. specialize (D1 q). specialize (D2 q).
  transitivity (lsum (record_q q) out1 + (lsum (record_q q) out2 + pending q c2)).
  { apply eq64_of_eq. lia. }
  rewrite D2. transitivity (lsum (record_q q) out1 + pending q c1 + o2 q); [apply eq64_of_eq; lia|].
  rewrite D1. apply eq64_of_eq. lia.
Qed.

Lemma good_ext c o o' out c' : (forall q, o q = o' q) -> good c o out c' -> good c o' out c'.
Proof. intros E []. split; try done. intros q. by rewrite <- E. Qed.

Lemma good_core c obs out c' c2 : core c2 = core c' -> good c obs out c' -> good c obs out c2.
Proof.
  intros Hc [A B C D E]. pose proof Hc as [= H1 H2 H3 H4 H5 H6]. split.
  - by eapply corr_ok_core.
  - unfold within_cap in *. rewrite H3, H6. done.
  - by rewrite H1, H2, H3.
  - intros q. unfold pending. rewrite H4. apply D.
  - done.
Qed.

(** Emitting an entry and removing it. *)
Lemma emit_remove_good w c k e out c1 :
  corr_ok c -> cells c !! k = Some e -> emit_entry w e c = (out, c1) ->
  exists c2, removeEntryLocked e c1 = Some c2 /\ good c nothing out c2
    /\ cells c2 = delete k (cells c) /\ entries c2 = entries c - 1.
Proof.
  intros Hc E Hem. pose proof (emit_entry_core _ _ _ _ _ Hem) as Hcore.
  pose proof (corr_ok_core _ _ Hcore Hc) as Hc1. pose proof Hcore as [= H1 H2 H3 H4 H5 H6].
  destruct (remove_ok c1 k e Hc1) as (c2 & Hr & Hok & Hcells & Hent & Hmax & Hen & Hw); [by rewrite H4|].
  exists c2. split; [done|]. rewrite H4 in Hcells. rewrite H6 in Hent.
  split; [|done]. split; [done| |congruence| |by eapply emit_entry_source].
  - unfold within_cap. rewrite Hmax, H3, Hent. intros ? ?. lia.
  - intros q. pose proof (emit_entry_q q w e c out c1 (co_entry _ Hc _ _ E) Hem) as Hq.
    rewrite Hq.
    apply eq64_of_eq. unfold pending, nothing. rewrite Hcells, (msum_delete _ _ _ _ E). lia.
Qed.

Lemma oldest_some c : corr_ok c -> 0 < entries c -> exists k e, oldestLocked c = Some e /\ cells c !! k = Some e.
Proof.
  intros [_ Hn _ Hs _] Hpos. unfold oldestLocked. destruct (arr (order c)) as [|[k t] l] eqn:Ea.
  - exfalso. rewrite Hs in Hpos. destruct (map_choose (cells c)) as (k & e & E).
    { intros Hemp. rewrite Hemp in Hpos. done. }
    assert ((k, firstSeen e) ∈ ([] : list (corrKey * Time))) as Hin by (apply Hn; eauto). set_solver.
  - assert ((k, t) ∈ (k, t) :: l) as (e & He & _)%Hn by set_solver. eauto.
Qed.

Lemma evict_good c :
  corr_ok c -> 0 < entries c ->
  exists out c', evictOldestLocked c = Some (out, c') /\ good c nothing out c'
    /\ entries c' = entries c - 1 /\ cells c' ⊆ cells c.
Proof.
  intros Hc Hpos. destruct (oldest_some c Hc Hpos) as (k & e & Ho & Ek).
  unfold evictOldestLocked. rewrite Ho.
  set (c0 := c <| evicted ::= _ |>). destruct (emit_entry false e c0) as [out c1] eqn:Em.
  destruct (emit_remove_good false c0 k e out c1) as (c2 & -> & Hg & Hcells & Hent);
    [by apply (corr_ok_core c)|done|done|].
  cbn [mbind option_bind]. do 2 eexists. split; [done|].
  split; [destruct Hg; by split|]. split; [done|]. rewrite Hcells. apply delete_subseteq.
Qed.

Lemma newEntry_ok k t : entry_ok (newEntry k t).
Proof. by split. Qed.

(** Adding a fresh entry. *)
Lemma insert_good c k t :
  corr_ok c -> cells c !! k = None -> (0 < maxEntries c -> entries c < maxEntries c) ->
  let e := newEntry k t in
  good c nothing []
    (c <| cells ::= <[k := e]> |> <| order ::= heap_Push fst corr_less (node_of e) |>
       <| entries ::= fun n => n + 1 |>).
Proof.
  intros [Hh Hn Hk Hs He] E Hcap e.
  assert (forall t', (k, t') ∉ arr (order c)) as Hfresh.
  { intros t' (e' & He' & _)%Hn. congruence. }
  destruct (push_spec (K := corrKey) fst corr_less (node_of e) (order c)) as [Hh' Hp]; [|done|].
  { intros ([k' t'] & Ek & Hin)%list_elem_of_fmap. cbn in Ek. subst k'. by apply (Hfresh t'). }
  split; [split|..]; cbn [update cells order entries maxEntries enabled window].
  - exact Hh'.
  - intros k' t'. rewrite Hp, elem_of_cons. split.
    + intros [[= -> ->]|(e' & He' & <-)%Hn].
      * exists e. by rewrite lookup_insert_eq.
      * exists e'. rewrite lookup_insert_ne; [done|]. congruence.
    + intros (e' & He' & <-). apply lookup_insert_Some in He' as [[<- <-]|[Hne He']]; [by left|].
      right. apply Hn. eauto.
  - intros k' e' [[<- <-]|[_ ?]]%lookup_insert_Some; [done|by apply Hk].
  - rewrite zsize_insert_None by done. by rewrite Hs.
  - intros k' e' [[<- <-]|[_ ?]]%lookup_insert_Some; [by apply newEntry_ok|by eapply He].
  - unfold within_cap. cbn. intros _ H. specialize (Hcap H). lia.
  - done.
  - intros q. apply eq64_of_eq. unfold pending, nothing. cbn [update cells].
    rewrite msum_insert_None by done.
    assert (entry_q q e = 0) as -> by by destruct q. cbn. lia.
  - constructor.
Qed.

Lemma entryFor_good c k r :
  corr_ok c -> within_cap c ->
  exists out e c', entryFor k r c = Some (out, e, c') /\ good c nothing out c'
    /\ cells c' !! k = Some e.
Proof.
  intros Hc Hcap. unfold entryFor. destruct (cells c !! k) as [e|] eqn:E.
  { exists [], e, c. eauto using good_refl. }
  destruct ((0 <? maxEntries c) && (maxEntries c <=? entries c)) eqn:Efull.
  - bool_prop. destruct (evict_good c Hc ltac:(lia)) as (out & c1 & -> & Hg & Hent & Hsub).
    cbn [mbind option_bind]. do 3 eexists. split; [done|]. split; [|cbn; by rewrite lookup_insert_eq].
    rewrite <- (app_nil_r out). eapply good_ext; [|eapply good_trans; [exact Hg|]].
    2: { apply insert_good; [apply Hg| |].
         - destruct (cells c1 !! k) as [e'|] eqn:E'; [|done].
           by rewrite (lookup_weaken _ _ _ _ E' Hsub) in E.
         - destruct Hg as [_ _ [= _ _ ->] _ _]. specialize (Hcap ltac:(lia)). lia. }
    done.
  - cbn [mbind option_bind]. do 3 eexists. split; [done|]. split; [|cbn; by rewrite lookup_insert_eq].
    apply insert_good; [done|done|]. intros H. apply andb_false_iff in Efull. destruct Efull; bool_prop; lia.
Qed.

(** Updating an entry in place. *)
Lemma update_good c k e e' obs :
  corr_ok c -> cells c !! k = Some e -> ckey e' = ckey e -> firstSeen e' = firstSeen e ->
  entry_ok e' -> (forall q, entry_q q e' ==64 entry_q q e + obs q) ->
  good c obs [] (c <| cells ::= <[k := e']> |>).
Proof.
  intros [Hh Hn Hk Hs He] E Ek Ef Hok Hq. split; [split|..]; cbn [update cells order entries].
  - done.
  - intros k' t. rewrite Hn. destruct (decide (k' = k)) as [->|Hne].
    + rewrite lookup_insert_eq, E. split; intros (x & [= <-] & <-); eauto.
    + by rewrite lookup_insert_ne.
  - intros k' x [[<- <-]|[_ ?]]%lookup_insert_Some; [rewrite Ek; by apply Hk|by apply Hk].
  - rewrite (zsize_insert_Some _ _ e) by done. done.
  - intros k' x [[<- <-]|[_ ?]]%lookup_insert_Some; [done|by eapply He].
  - done.
  - done.
  - intros q. unfold pending. cbn [update cells lsum foldr]. rewrite (msum_insert_Some _ _ _ e) by done.
    rewrite Z.add_0_l, Hq. apply eq64_of_eq. lia.
  - constructor.
Qed.

(** ** Folding a fragment *)

(** The fields [place] leaves alone. *)
Definition totals (e : corrEntry) := (ckey e, firstSeen e, nf e, nfMirror e, fragments e, hasNF e).

Lemma place_spec r e c e1 c1 :
  place r e c = (e1, c1) -> totals e1 = totals e /\ core c1 = core c.
Proof.
  unfold place. destruct (negb (hasNF e)); [by intros [= <- <-]|].
  destruct (isMirrorOf _ _); [destruct (mirror e) as [m|]|]; intros [= <- <-]; split; try done;
    by destruct (fragmentDisagrees _ _).
Qed.

Lemma add_counters_q q h r :
  q <> QFragments -> counters_q q (add_counters h r) ==64 counters_q q h + counters_q q r.
Proof.
  intros Hq. unfold add_counters. destruct q; [..|done]; cbn; rewrite !add64_eq64;
    apply eq64_of_eq; lia.
Qed.

Lemma fragmentsOf_pos r : 0 < fragmentsOf r.
Proof. unfold fragmentsOf. destruct (Z.ltb_spec 0 (Fragments r)); lia. Qed.

(** The totals after [accumulate]. *)
Lemma accumulate_fields r e :
  let onMirror := match mirror e with Some _ => isMirrorOf (sample e) r | None => false end in
  let nf1 := if onMirror then nf e else add_counters (nf e) (NF r) in
  let mf1 := if onMirror then add_counters (nfMirror e) (NF r) else nfMirror e in
  totals (accumulate r e)
  = (ckey e, firstSeen e, nf1 <| Present := true |>, mf1, fragments e + fragmentsOf r, true).
Proof.
  unfold accumulate, totals. destruct (match mirror e with Some _ => _ | None => _ end); cbn;
    destruct (Before _ _), (After _ _); done.
Qed.

Lemma counters_q_Present q c b : counters_q q (c <| Present := b |>) = counters_q q c.
Proof. by destruct q. Qed.

Lemma accumulate_q q r e : entry_q q (accumulate r e) ==64 entry_q q e + record_q q r.
Proof.
  pose proof (accumulate_fields r e) as Hf. cbv zeta in Hf. injection Hf as Hk Hs Hn Hm Hfr Hh.
  destruct (decide (q = QFragments)) as [->|Hq]; [by apply eq64_of_eq|].
  assert (forall e, entry_q q e = counters_q q (nf e) + counters_q q (nfMirror e)) as Heq
    by (by destruct q).
  rewrite !Heq, Hn, Hm, counters_q_Present, (record_q_counters q r Hq).
  destruct (match mirror e with Some _ => _ | None => _ end); rewrite (add_counters_q q _ _ Hq);
    apply eq64_of_eq; lia.
Qed.

Lemma accumulate_ok r e : entry_ok e -> entry_ok (accumulate r e).
Proof.
  intros [He1 He2]. pose proof (accumulate_fields r e) as Hf. cbv zeta in Hf.
  injection Hf as Hk Hs Hn Hm Hfr Hh. pose proof (fragmentsOf_pos r).
  split; [congruence|]. intros _. rewrite Hn, Hfr. split; [done|].
  destruct (hasNF e) eqn:E; [destruct (He2 eq_refl); lia|destruct (He1 eq_refl) as (_ & _ & ->); lia].
Qed.

Lemma totals_ok e e1 : totals e1 = totals e -> entry_ok e -> entry_ok e1.
Proof. intros [= H1 H2 H3 H4 H5 H6] [A B]. split; rewrite H6, ?H3, ?H4, ?H5; done. Qed.

Lemma totals_q q e e1 : totals e1 = totals e -> entry_q q e1 = entry_q q e.
Proof. intros [= H1 H2 H3 H4 H5 H6]. destruct q; cbn; congruence. Qed.

Definition netflow_q (r : Record_) (q : quantity) : Z :=
  if source_eqb (rSource r) SourceNetflow then record_q q r else 0.

Lemma observeNetflow_good c r :
  corr_ok c -> within_cap c ->
  exists out c', observeNetflowLocked r c = Some (out, c') /\ good c (fun q => record_q q r) out c'.
Proof.
  intros Hc Hcap. unfold observeNetflowLocked.
  destruct (entryFor_good c (keyOf c r) r Hc Hcap) as (out & e & c1 & -> & Hg & E).
  cbn [mbind option_bind]. destruct (place r e c1) as [e1 c2] eqn:Ep.
  destruct (place_spec _ _ _ _ _ Ep) as [Ht Hcore]. do 2 eexists. split; [done|].
  pose proof Hcore as [= _ _ _ Hcells _ _].
  rewrite <- (app_nil_r out). eapply good_ext; [|eapply good_trans; [eapply good_core; [exact Hcore|exact Hg]|]].
  2: { pose proof (accumulate_fields r e1) as Hf. cbv zeta in Hf. injection Hf as Hk Hs _ _ _ _.
       injection Ht as Tk Ts T1 T2 T3 T4.
       eapply (update_good _ _ e (accumulate r e1) (fun q => record_q q r)).
       - eapply corr_ok_core; [exact Hcore|apply Hg].
       - by rewrite Hcells.
       - congruence.
       - congruence.
       - apply accumulate_ok, (totals_ok e); [by unfold totals; congruence|].
         by eapply (co_entry c1); [apply Hg|].
       - intros q. rewrite accumulate_q. rewrite (totals_q q e e1); [done|].
         unfold totals; congruence. }
  intros q. unfold nothing. lia.
Qed.

Lemma observeZenarmor_good c r :
  corr_ok c -> within_cap c ->
  exists out c', observeZenarmorLocked r c = Some (out, c') /\ good c nothing out c'.
Proof.
  intros Hc Hcap. unfold observeZenarmorLocked.
  destruct (entryFor_good c (keyOf c r) r Hc Hcap) as (out & e & c1 & -> & Hg & E).
  cbn [mbind option_bind]. do 2 eexists. split; [done|].
  set (c2 := match zen e with Some _ => _ | None => _ end).
  assert (core c2 = core c1) as Hcore by (unfold c2; by destruct (zen e)).
  pose proof Hcore as [= _ _ _ Hcells _ _].
  rewrite <- (app_nil_r out). eapply good_ext; [|eapply good_trans; [eapply good_core; [exact Hcore|exact Hg]|]].
  2: { assert (entry_ok e) as He by (by eapply (co_entry c1); [apply Hg|]).
       eapply (update_good _ _ e _ nothing); [eapply corr_ok_core; [exact Hcore|apply Hg]|
         by rewrite Hcells|done|done|by apply (totals_ok e)|].
       intros q. rewrite (totals_q q e) by done. apply eq64_of_eq. unfold nothing. lia. }
  done.
Qed.

Lemma Observe_good c r :
  corr_ok c -> within_cap c ->
  exists out c', Correlator_Observe r c = Some (out, c') /\ good c (netflow_q r) out c'.
Proof.
  intros Hc Hcap. unfold Correlator_Observe, netflow_q, source_eqb. destruct (enabled c); cbn [negb].
  - destruct (rSource r) eqn:Es; case_bool_decide; try done.
    + exists [], c. split; [done|]. by apply (good_refl c).
    + by apply observeNetflow_good.
    + by apply observeZenarmor_good.
    + exists [], c. split; [done|]. by apply (good_refl c).
  - case_bool_decide as Es.
    + do 2 eexists. split; [done|]. split; [by apply (corr_ok_core c)|done|done| |].
      * intros q. apply eq64_of_eq. cbn. unfold pending. cbn. lia.
      * constructor; [by left|constructor].
    + exists [], c. split; [done|]. by apply (good_refl c).
Qed.

(** ** Expiry and shutdown *)

Definition young (c : Correlator) (now : Time) (e : corrEntry) : Prop :=
  time_Sub now (firstSeen e) < window c.

Lemma good_window c obs out c' : good c obs out c' -> window c' = window c.
Proof. by intros [_ _ [=] _ _]. Qed.

Lemma Expire_good iter now c :
  corr_ok c ->
  exists out c', Expire iter now c = Some (out, c') /\ good c nothing out c'
    /\ cells c' ⊆ cells c
    /\ (forall k e, cells c' !! k = Some e -> k ∈ iter -> young c now e)
    /\ (forall k e, cells c !! k = Some e -> young c now e -> cells c' !! k = Some e).
Proof.
  revert c. induction iter as [|k iter IH]; intros c Hc; cbn [Expire].
  { exists [], c. split; [done|]. split; [by apply good_refl|]. split; [done|]. set_solver. }
  destruct (cells c !! k) as [e|] eqn:E; cycle 1.
  { destruct (IH c Hc) as (out & c' & -> & Hg & Hsub & Hy & Hkeep). do 2 eexists.
    split; [done|]. split; [done|]. split; [done|]. split; [|done].
    intros k' e' He' [->|Hin]%elem_of_cons; [|by eapply Hy].
    by rewrite (lookup_weaken _ _ _ _ He' Hsub) in E. }
  destruct (time_Sub now (firstSeen e) <? window c) eqn:Ey.
  { bool_prop. destruct (IH c Hc) as (out & c' & -> & Hg & Hsub & Hy & Hkeep). do 2 eexists.
    split; [done|]. split; [done|]. split; [done|]. split; [|done].
    intros k' e' He' [->|Hin]%elem_of_cons; [|by eapply Hy].
    rewrite (lookup_weaken _ _ _ _ He' Hsub) in E. by simplify_eq. }
  bool_prop. destruct (emit_entry true e c) as [out1 c1] eqn:Em.
  destruct (emit_remove_good true c k e out1 c1 Hc E Em) as (c2 & -> & Hg2 & Hcells & _).
  cbn [mbind option_bind].
  destruct (IH c2 (g_ok _ _ _ _ Hg2)) as (out & c' & -> & Hg & Hsub & Hy & Hkeep).
  cbn [mbind option_bind]. do 2 eexists. split; [done|].
  assert (young c2 now = young c now) as Hyeq by (unfold young; by rewrite (good_window _ _ _ _ Hg2)).
  rewrite Hyeq in *. split; [|split; [|split]].
  - eapply good_ext; [|by eapply good_trans]. done.
  - rewrite Hcells in Hsub. etrans; [exact Hsub|]. apply delete_subseteq.
  - intros k' e' He' [->|Hin]%elem_of_cons; [|by eapply Hy].
    pose proof (lookup_weaken _ _ _ _ He' Hsub) as H. by rewrite Hcells, lookup_delete_eq in H.
  - intros k' e' He' Hyoung. apply Hkeep; [|done]. rewrite Hcells, lookup_delete_ne; [done|].
    intros <-. unfold young in Hyoung. simplify_eq. lia.
Qed.

Lemma flush_loop_spec iter c out c' :
  (forall k e, cells c !! k = Some e -> entry_ok e) -> flush_loop iter c = (out, c') ->
  (forall q, lsum (record_q q) out + pending q c' ==64 pending q c) /\ Forall emittable out
  /\ (forall k, cells c' !! k = if decide (k ∈ iter) then None else cells c !! k)
  /\ (enabled c', window c', maxEntries c') = (enabled c, window c, maxEntries c).
Proof.
  revert c out c'. induction iter as [|k iter IH]; intros c out c' He; cbn [flush_loop].
  { intros [= <- <-]. split; [done|]. split; [constructor|]. split; [|done].
    intros k. rewrite decide_False; [done|]. set_solver. }
  destruct (cells c !! k) as [e|] eqn:E; cycle 1.
  { intros Hf. destruct (IH _ _ _ He Hf) as (Hq & Hs & Hc & Hcfg). split; [done|]. split; [done|].
    split; [|done]. intros k'. rewrite Hc. destruct (decide (k' = k)) as [->|].
    - rewrite E. by repeat case_decide.
    - destruct (decide (k' ∈ iter)), (decide (k' ∈ k :: iter)); set_solver. }
  destruct (emit_entry false e c) as [out1 c1] eqn:Em.
  destruct (flush_loop iter (c1 <| cells ::= delete k |>)) as [rest c2] eqn:Ef. intros [= <- <-].
  pose proof (emit_entry_core _ _ _ _ _ Em) as [= H1 H2 H3 H4 H5 H6].
  apply IH in Ef as (Hq & Hs & Hc & Hcfg).
  2: { cbn [update cells]. rewrite H4. intros k' e' [_ ?]%lookup_delete_Some. by eapply He. }
  cbn [update cells enabled window maxEntries] in *. rewrite H4 in Hc. split; [|split; [|split]].
  - intros q. rewrite lsum_app. specialize (Hq q).
    pose proof (emit_entry_q q false e c out1 c1 (He _ _ E) Em) as H. 
    transitivity (lsum (record_q q) out1 + (lsum (record_q q) rest + pending q c2)); [apply eq64_of_eq; lia|].
    rewrite Hq, H. apply eq64_of_eq. unfold pending. cbn [update cells].
    rewrite H4, (msum_delete _ (cells c) _ _ E). lia.
  - apply Forall_app. split; [by eapply emit_entry_source|done].
  - intros k'. rewrite Hc. destruct (decide (k' = k)) as [->|].
    + rewrite lookup_delete_eq. destruct (decide (k ∈ k :: iter)); [by case_decide|set_solver].
    + rewrite lookup_delete_ne by done.
      destruct (decide (k' ∈ iter)), (decide (k' ∈ k :: iter)); set_solver.
  - by rewrite Hcfg, H1, H2, H3.
Qed.

Lemma Flush_good iter c :
  corr_ok c -> iterates iter c ->
  let '(out, c') := Flush iter c in
  good c nothing out c' /\ cells c' = ∅ /\ arr (order c') = [] /\ entries c' = 0.
Proof.
  intros Hc Hit. unfold Flush. destruct (flush_loop iter c) as [out c'] eqn:Ef.
  apply flush_loop_spec in Ef as (Hq & Hs & Hcells & Hcfg); [|by apply Hc].
  assert (cells c' = ∅) as Hemp.
  { apply map_eq. intros k. rewrite Hcells, lookup_empty. case_decide as Hk; [done|].
    apply eq_None_not_Some. intros [e He]. apply Hk. rewrite Hit.
    apply list_elem_of_fmap. exists (k, e). by rewrite elem_of_map_to_list. }
  split; [|done]. split; [split|..]; cbn [update cells order entries enabled window maxEntries];
    rewrite ?Hemp.
  - apply (empty_inv (K := corrKey) fst corr_less).
  - intros k t. cbn. split; [set_solver|]. intros (e & He & _). by rewrite lookup_empty in He.
  - intros k e He. by rewrite lookup_empty in He.
  - done.
  - intros k e He. by rewrite lookup_empty in He.
  - unfold within_cap. cbn. lia.
  - done.
  - intros q. unfold pending in *. cbn [update cells]. rewrite Hq. apply eq64_of_eq. unfold nothing. lia.
  - done.
Qed.

Lemma step_good c o :
  corr_ok c -> within_cap c -> (forall iter, o = OpFlush iter -> iterates iter c) ->
  exists out c', step o c = Some (out, c')
    /\ good c (fun q => match o with OpObserve r => netflow_q r q | _ => 0 end) out c'.
Proof.
  intros Hc Hcap Hit. destruct o as [r|iter now|iter]; cbn [step].
  - by apply Observe_good.
  - destruct (Expire_good iter now c Hc) as (out & c' & -> & Hg & _). by exists out, c'.
  - pose proof (Flush_good iter c Hc (Hit iter eq_refl)) as H. destruct (Flush iter c) as [out c'].
    exists out, c'. split; [done|]. apply H.
Qed.

(** What was fed in, of each quantity: NetFlow fragments only. *)
Definition observed (q : quantity) (os : list op) : Z :=
  lsum (fun o => match o with OpObserve r => netflow_q r q | _ => 0 end) os.

Lemma runs_good c os outs c' :
  runs c os outs c' -> corr_ok c -> within_cap c -> good c (fun q => observed q os) outs c'.
Proof.
  induction 1 as [c|c o out c1 os outs c2 Hit Hst Hr IH]; intros Hc Hcap; [by apply good_refl|].
  destruct (step_good c o Hc Hcap Hit) as (out' & c1' & Hst' & Hg).
  rewrite Hst in Hst'. injection Hst' as <- <-.
  eapply good_ext; [|eapply good_trans; [exact Hg|apply IH; [apply Hg|by apply Hg]]]. done.
Qed.

Lemma runs_New en w mx os outs c :
  runs (NewCorrelator en w mx) os outs c -> good (NewCorrelator en w mx) (fun q => observed q os) outs c.
Proof.
  intros Hr. apply runs_good; [done|apply NewCorrelator_ok|]. unfold within_cap. cbn. lia.
Qed.

(** The entry with its two orientations exchanged, as if the other half had
    arrived first. *)
Definition exchanged (e : corrEntry) : corrEntry :=
  match mirror e with
  | None => e
  | Some m => e <| sample := m |> <| mirror := Some (sample e) |> <| nf := nfMirror e |>
                <| nfMirror := nf e |>
  end.

Lemma isMirrorOf_spec s r :
  isMirrorOf s r = true -> Unmap (SrcAddr r) = Unmap (DstAddr s) /\ SrcPort r = DstPort s
    /\ Unmap (DstAddr r) = Unmap (SrcAddr s) /\ DstPort r = SrcPort s.
Proof.
  unfold isMirrorOf. rewrite !andb_true_iff, !addr_eqb_eq, !Z.eqb_eq. tauto.
Qed.

Definition two_ended (r : Record_) : Prop :=
  (Unmap (SrcAddr r), SrcPort r) <> (Unmap (DstAddr r), DstPort r).

Lemma orientation_exchanged e m :
  mirror e = Some m -> isMirrorOf (sample e) m = true -> two_ended (sample e) ->
  orientation (exchanged e) = (fst (orientation e), negb (snd (orientation e))).
Proof.
  intros Em (Hs & Hsp & Hd & Hdp)%isMirrorOf_spec Htwo. unfold exchanged, orientation. rewrite Em.
  cbn [update mirror sample zen]. rewrite Hs, Hsp, Hd, Hdp.
  rewrite (endpointLess_antisym _ _ _ _ Htwo).
  destruct (zen e) as [z|]; [destruct (direction_eqb (rDirection z) _);
    [|destruct (direction_eqb (rDirection (sample e)) _), (direction_eqb (rDirection m) _)]|];
    cbn [negb andb]; try done;
    unfold Before; destruct (Z.ltb_spec (Start m) (Start (sample e))), (Z.ltb_spec (Start (sample e)) (Start m));
    try lia; try done;
    destruct (negb (str_eq (SrcScope (Enrich m)) "remote") && _),
             (negb (str_eq (SrcScope (Enrich (sample e))) "remote") && _); cbn [Bool.eqb negb]; try done;
    by destruct (endpointLess _ _ _ _).
Qed.

(** ** Properties *)

(** [C2]  Nothing is lost and nothing is counted twice: over every
    history of observations, expiries and flushes, the bytes, the packets and the
    raw fragments of the records emitted, plus those still accumulating, are those
    of the NetFlow records observed (as uint64 counters), whether correlation is
    on or off and however often the map overflowed. *)
Theorem corr_conservation en w mx os outs c q :
  runs (NewCorrelator en w mx) os outs c ->
  lsum (record_q q) outs + pending q c ==64 observed q os.
Proof.
  intros Hr. destruct (runs_New _ _ _ _ _ _ Hr) as [_ _ _ Hq _]. specialize (Hq q).
  rewrite Hq. apply eq64_of_eq. unfold pending. cbn. rewrite msum_empty. lia.
Qed.

(** [C39]  In every reachable state every operation returns: the position
    recorded in an entry is always the one [heap.Remove] needs.  The state keeps
    its cap on live entries, and its age heap and its map hold the same entries. *)
Theorem corr_total en w mx os outs c o :
  runs (NewCorrelator en w mx) os outs c ->
  (forall iter, o = OpFlush iter -> iterates iter c) ->
  (exists out c', step o c = Some (out, c'))
  /\ corr_ok c /\ (0 < mx -> entries c <= mx).
Proof.
  intros Hr Hit. destruct (runs_New _ _ _ _ _ _ Hr) as [Hok Hcap [= _ _ Hmx] _ _].
  assert (within_cap c) as Hc by (apply Hcap; unfold within_cap; cbn; lia).
  split; [|split; [done|unfold within_cap in Hc; rewrite Hmx in Hc; exact Hc]].
  destruct (step_good c o Hok Hc Hit) as (out & c' & ? & _). eauto.
Qed.

(** Under memory pressure the entry forced out is the oldest one:
    no live entry was first seen before it. *)
Theorem corr_evicts_oldest en w mx os outs c victim k e :
  runs (NewCorrelator en w mx) os outs c ->
  oldestLocked c = Some victim -> cells c !! k = Some e -> firstSeen victim <= firstSeen e.
Proof.
  intros Hr Ho He. destruct (runs_New _ _ _ _ _ _ Hr) as [[Hh Hn Hk _ _] _ _ _ _].
  unfold oldestLocked in Ho. destruct (arr (order c)) as [|[k0 t0] l] eqn:Ea; [done|]. cbn in Ho.
  assert (firstSeen victim = t0) as ->.
  { assert ((k0, t0) ∈ (k0, t0) :: l) as (e' & He' & <-)%Hn by set_solver. congruence. }
  assert (corr_less (k, firstSeen e) (k0, t0) = false) as Hm.
  { eapply (root_min (K := corrKey) fst corr_less); [exact Hh|by rewrite Ea|]. rewrite Ea. apply Hn. eauto. }
  apply not_true_iff_false in Hm. rewrite corr_less_cases in Hm. cbn in Hm. lia.
Qed.

(**  Expiry removes exactly the entries whose window has elapsed,
    in whatever order the map is walked; what remains is untouched. *)
Theorem corr_expire_exact en w mx os outs c iter now :
  runs (NewCorrelator en w mx) os outs c -> iterates iter c ->
  exists out c', Expire iter now c = Some (out, c') /\
    forall k e, cells c' !! k = Some e <-> cells c !! k = Some e /\ time_Sub now (firstSeen e) < w.
Proof.
  intros Hr Hit. destruct (runs_New _ _ _ _ _ _ Hr) as [Hok _ [= _ Hw _] _ _].
  destruct (Expire_good iter now c Hok) as (out & c' & E & _ & Hsub & Hy & Hkeep).
  exists out, c'. split; [done|]. intros k e. rewrite <- Hw. split.
  - intros He. pose proof (lookup_weaken _ _ _ _ He Hsub) as He'. split; [done|].
    eapply Hy; [done|]. rewrite Hit. apply list_elem_of_fmap. exists (k, e).
    by rewrite elem_of_map_to_list.
  - intros [He Hyg]. by apply Hkeep.
Qed.

(**  After a flush nothing is pending and everything that was has
    been emitted, as NetFlow or merged records only. *)
Theorem corr_flush_complete en w mx os outs c iter :
  runs (NewCorrelator en w mx) os outs c -> iterates iter c ->
  let '(out, c') := Flush iter c in
  cells c' = ∅ /\ entries c' = 0 /\ Forall emittable (outs ++ out)
  /\ forall q, lsum (record_q q) (outs ++ out) ==64 observed q os.
Proof.
  intros Hr Hit. pose proof (runs_New _ _ _ _ _ _ Hr) as Hg.
  pose proof (Flush_good iter c (g_ok _ _ _ _ Hg) Hit) as H. destruct (Flush iter c) as [out c'].
  destruct H as (Hg' & Hc & _ & He). pose proof (good_trans _ _ _ _ _ _ _ Hg Hg') as [_ _ _ Hq Hs].
  split; [done|]. split; [done|]. split; [done|]. intros q. specialize (Hq q).
  unfold pending in Hq. rewrite Hc in Hq. cbn [NewCorrelator cells] in Hq. rewrite !msum_empty in Hq.
  rewrite !Z.add_0_r in Hq. rewrite Hq. apply eq64_of_eq. unfold nothing. lia.
Qed.

(**  The record a two-way conversation emits does not depend on which
    of its halves arrived first: exchanging the halves (and their volumes) gives the
    same record, with the same split into transmitted and received. *)
Theorem finalize_order_independent c e m :
  mirror e = Some m -> isMirrorOf (sample e) m = true -> two_ended (sample e) ->
  Present (nfMirror e) = Present (nf e) ->
  finalize c (exchanged e) = finalize c e.
Proof.
  intros Em Hm Ht Hp. unfold finalize. rewrite (orientation_exchanged e m) by done.
  destruct (orientation e) as [o b]. cbn [fst snd].
  unfold exchanged. rewrite Em. cbn [update hasNF nf nfMirror tcpFlags repairs fragments estart eend zen].
  rewrite Hp. by destruct b.
Qed.

(** ** Instances

    A conversation in two halves and a second one, later. *)

Definition half (id : string) (seen src dst sp dp b : Z) : Record_ :=
  zeroRecord <| rSource := SourceNetflow |> <| SrcAddr := Addr4 src |> <| DstAddr := Addr4 dst |>
    <| SrcPort := sp |> <| DstPort := dp |> <| CommunityIDOf := id |>
    <| Start := unix_epoch + b |> <| End_ := unix_epoch + 1000 |> <| Observed := unix_epoch + seen |>
    <| NF := mkCounters b 0 1 0 true |>.

Definition sample_history : list op :=
  [OpObserve (half "1:x" 2000 167772161 134744072 1234 443 100);
   OpObserve (half "1:x" 2001 134744072 167772161 443 1234 2000);
   OpObserve (half "1:y" 3000 167772162 134744072 1235 443 7)].

Definition run_history (c : Correlator) (os : list op) : option (list Record_ * Correlator) :=
  foldl (fun acc o => '(out, c) ← acc; '(out', c) ← step o c; Some (out ++ out', c)) (Some ([], c)) os.

Definition sample_state : Correlator :=
  match run_history (NewCorrelator true Minute 2) sample_history with
  | Some (_, c) => c
  | None => NewCorrelator true Minute 2
  end.

Lemma sample_runs : runs (NewCorrelator true Minute 2) sample_history [] sample_state.
Proof.
  do 3 (eapply (runs_cons _ _ [] _ _ []); [done|vm_compute; reflexivity|]).
  assert (forall c, c = sample_state -> runs c [] [] sample_state) as H by (intros c ->; constructor).
  apply H. vm_compute. reflexivity.
Qed.

Definition sample_iter : list corrKey := map fst (map_to_list (cells sample_state)).

Lemma sample_iterates : iterates sample_iter sample_state.
Proof. apply Permutation_refl. Qed.

Lemma flush_iterates i c : iterates i c -> forall iter, OpFlush i = OpFlush iter -> iterates iter c.
Proof. by intros H iter [= <-]. Qed.

Definition keyX : corrKey := mkCorrKey "1:x" 0.
Definition keyY : corrKey := mkCorrKey "1:y" 0.

Definition entry_at (k : corrKey) : corrEntry :=
  match cells sample_state !! k with Some e => e | None => newEntry k 0 end.

Lemma corr_conservation_witness :
  observed QBytes sample_history = 2107 /\
  lsum (record_q QBytes) [] + pending QBytes sample_state ==64 observed QBytes sample_history.
Proof.
  split; [vm_compute; reflexivity|]. apply (corr_conservation true Minute 2 sample_history [] sample_state QBytes).
  apply sample_runs.
Defined.

Lemma corr_total_witness :
  (exists out c', step (OpFlush sample_iter) sample_state = Some (out, c'))
  /\ corr_ok sample_state /\ (0 < 2 -> entries sample_state <= 2).
Proof.
  apply (corr_total true Minute 2 sample_history []); [apply sample_runs|].
  apply flush_iterates, sample_iterates.
Defined.

Lemma corr_evicts_oldest_witness :
  firstSeen (entry_at keyX) <= firstSeen (entry_at keyY).
Proof.
  apply (corr_evicts_oldest true Minute 2 sample_history [] sample_state _ keyY);
    [apply sample_runs|vm_compute; reflexivity|vm_compute; reflexivity].
Defined.

Lemma corr_expire_exact_witness :
  exists out c', Expire sample_iter (unix_epoch + Minute + 2000) sample_state = Some (out, c') /\
    forall k e, cells c' !! k = Some e <-> cells sample_state !! k = Some e
      /\ time_Sub (unix_epoch + Minute + 2000) (firstSeen e) < Minute.
Proof.
  apply (corr_expire_exact true Minute 2 sample_history []); [apply sample_runs|apply sample_iterates].
Defined.

Lemma corr_flush_complete_witness :
  let '(out, c') := Flush sample_iter sample_state in
  cells c' = ∅ /\ entries c' = 0 /\ Forall emittable ([] ++ out)
  /\ forall q, lsum (record_q q) ([] ++ out) ==64 observed q sample_history.
Proof.
  apply (corr_flush_complete true Minute 2 sample_history [] sample_state sample_iter);
    [apply sample_runs|apply sample_iterates].
Defined.

Lemma finalize_order_independent_witness :
  finalize sample_state (exchanged (entry_at keyX)) = finalize sample_state (entry_at keyX)
  /\ finalize sample_state (entry_at keyX) <> None.
Proof.
  split; [|by vm_compute].
  apply (finalize_order_independent sample_state (entry_at keyX)
           (half "1:x" 2001 134744072 167772161 443 1234 2000));
    [vm_compute; reflexivity|vm_compute; reflexivity|by vm_compute|vm_compute; reflexivity].
Defined.

End Correlate.
