(* ===== verification/DnsCache.v ===== *)
(** * The answer cache ([internal/flow/dnscache.go])

    A bounded, expiring map from (client, answered address) to the name asked for.
    At capacity a new key first reclaims expired entries, behind a watermark
    ([nextExpiry]) that spares the scan while nothing can have expired, and is
    refused only if that frees nothing. *)

From stdpp Require Import base decidable list gmap sets strings.
From Stdlib Require Import ZArith Lia.
From S2P Require Import Prelude Netip.

Module Dns.

Record dnsKey := mkDnsKey { client : Addr; answer : Addr }.
#[export] Instance dnsKey_eq_dec : EqDecision dnsKey.
Proof. solve_decision. Defined.
#[export] Instance dnsKey_countable : Countable dnsKey.
Proof.
  refine (inj_countable' (fun k => (client k, answer k)) (fun '(a, b) => mkDnsKey a b) _).
  by intros [].
Defined.

Record dnsEntry := mkDnsEntry { qname : string; added : Time }.

Record DNSCache := mkDNSCache {
  dentries : gmap dnsKey dnsEntry; dsize : Z; ttl : Duration; nextExpiry : Time;
  hits : Z; misses : Z; rejected : Z }.
#[export] Instance eta_DNSCache : Eta DNSCache := fun d =>
  mkDNSCache (dentries d) (dsize d) (ttl d) (nextExpiry d) (hits d) (misses d) (rejected d).

Definition NewDNSCache (size : Z) (t : Duration) : DNSCache := mkDNSCache ∅ size t zero_time 0 0 0.

Definition dns_key (c a : Addr) : dnsKey := mkDnsKey (Unmap c) (Unmap a).

Definition stale (d : DNSCache) (now : Time) (e : dnsEntry) : bool := ttl d <? time_Sub now (added e).

(** [d.nextExpiry] lowered to an entry's expiry. *)
Definition watermark (expires cur : Time) : Time :=
  if IsZero cur || Before expires cur then expires else cur.

(** The body of the reclaiming loop, over an iteration of the map. *)
Definition reclaim_step (now : Time) (d : DNSCache) (ke : dnsKey * dnsEntry) : DNSCache :=
  let '(k, e) := ke in
  if stale d now e then d <| dentries ::= delete k |>
  else d <| nextExpiry ::= watermark (time_Add (added e) (ttl d)) |>.

Definition reclaim (iter : list (dnsKey * dnsEntry)) (now : Time) (d : DNSCache) : DNSCache :=
  fold_left (reclaim_step now) iter (d <| nextExpiry := zero_time |>).

Definition Put (c a : Addr) (q : string) (now : Time) (d : DNSCache) : DNSCache :=
  if dsize d <=? 0 then d
  else
    let key := dns_key c a in
    let insert d :=
      d <| dentries ::= <[key := mkDnsEntry q now]> |>
        <| nextExpiry ::= watermark (time_Add now (ttl d)) |> in
    match dentries d !! key with
    | Some _ => insert d
    | None =>
        if dsize d <=? zsize (dentries d) then
          let d := if After now (nextExpiry d) then reclaim (map_to_list (dentries d)) now d else d in
          if dsize d <=? zsize (dentries d) then d <| rejected ::= fun n => add64 n 1 |>
          else insert d
        else insert d
    end.

Definition Lookup (c a : Addr) (now : Time) (d : DNSCache) : option string * DNSCache :=
  if dsize d <=? 0 then (None, d)
  else
    let key := dns_key c a in
    match dentries d !! key with
    | None => (None, d <| misses ::= fun n => add64 n 1 |>)
    | Some e =>
        if stale d now e
        then (None, d <| dentries ::= delete key |> <| misses ::= fun n => add64 n 1 |>)
        else (Some (qname e), d <| hits ::= fun n => add64 n 1 |>)
    end.

(** ** Histories *)

Inductive dop :=
| DPut (c a : Addr) (q : string) (now : Time)
| DLookup (c a : Addr) (now : Time).

Definition dtime (o : dop) : Time := match o with DPut _ _ _ t => t | DLookup _ _ t => t end.

Definition dstep (d : DNSCache) (o : dop) : DNSCache :=
  match o with
  | DPut c a q now => Put c a q now d
  | DLookup c a now => snd (Lookup c a now d)
  end.

Definition drun (ops : list dop) (d : DNSCache) : DNSCache := fold_left dstep ops d.

(** The last name put for a key, and when. *)
Definition last_put (k : dnsKey) (ops : list dop) : option (string * Time) :=
  fold_left (fun acc o => match o with
                          | DPut c a q now => if decide (dns_key c a = k) then Some (q, now) else acc
                          | DLookup _ _ _ => acc
                          end) ops None.

(** ** The reclaiming loop *)

(** The watermark is set, and not later than the expiry of any entry. *)
Definition early (d : DNSCache) : Prop :=
  map_Forall (fun _ e => 0 < nextExpiry d <= added e + ttl d) (dentries d).

(** Entries put at positive instants expire at positive instants. *)
Definition dated (d : DNSCache) : Prop := map_Forall (fun _ e => 0 < added e) (dentries d).

Definition conf (d : DNSCache) := (dsize d, ttl d, rejected d).

Lemma watermark_le e cur : 0 <= cur -> watermark e cur <= e /\ (cur <> 0 -> watermark e cur <= cur).
Proof.
  unfold watermark, IsZero, Before. intros H. destruct (Z.eqb_spec cur 0), (Z.ltb_spec e cur); cbn; lia.
Qed.

Lemma watermark_pos e cur : 0 < e -> 0 <= cur -> 0 < watermark e cur.
Proof.
  unfold watermark, IsZero, Before. intros. destruct (Z.eqb_spec cur 0), (Z.ltb_spec e cur); cbn; lia.
Qed.

(** After the loop: what is stale is gone, the rest is there, the watermark is
    early for what the loop has visited. *)
Lemma reclaim_loop iter now d :
  0 <= ttl d -> 0 <= nextExpiry d -> NoDup (map fst iter) ->
  Forall (fun ke => 0 < added (snd ke)) iter ->
  let d' := fold_left (reclaim_step now) iter d in
  conf d' = conf d /\ 0 <= nextExpiry d'
  /\ (nextExpiry d <> 0 -> nextExpiry d' <= nextExpiry d /\ nextExpiry d' <> 0)
  /\ Forall (fun ke => stale d now (snd ke) = false -> 0 < nextExpiry d' <= added (snd ke) + ttl d) iter
  /\ (forall k x, dentries d' !! k = Some x <->
        dentries d !! k = Some x /\ forall e, (k, e) ∈ iter -> stale d now e = false).
Proof.
  intros Ht. revert d Ht. induction iter as [|[k e] iter IH]; intros d Ht Hn Hnd Hpos; cbn [fold_left].
  { split; [done|]. split; [done|]. split; [done|]. split; [constructor|]. set_solver. }
  cbn [map fst] in Hnd. apply NoDup_cons in Hnd as [_ Hnd]. apply Forall_cons in Hpos as [He Hpos].
  cbn [snd] in He. set (d1 := reclaim_step now d (k, e)).
  assert (conf d1 = conf d) as Hc1 by (unfold d1, reclaim_step; by destruct (stale d now e)).
  pose proof Hc1 as [= _ Httl _].
  assert (0 <= nextExpiry d1 /\ (nextExpiry d <> 0 -> nextExpiry d1 <= nextExpiry d /\ nextExpiry d1 <> 0)
          /\ (stale d now e = false -> nextExpiry d1 <= added e + ttl d /\ nextExpiry d1 <> 0)) as (N1 & N2 & N3).
  { unfold d1, reclaim_step. destruct (stale d now e); cbn; [by auto|]. unfold time_Add.
    pose proof (watermark_le (added e + ttl d) _ Hn) as [? ?].
    pose proof (watermark_pos (added e + ttl d) _ ltac:(lia) Hn). split; [lia|]. split; intros; lia. }
  destruct (IH d1) as (Hc & Hn' & Hw & Hf & Hl); [congruence|done|done|done|].
  assert (forall x, stale d1 now x = stale d now x) as Hst by (intros x; unfold stale; by rewrite Httl).
  split; [congruence|]. split; [done|]. split; [|split].
  - intros Hz. destruct (N2 Hz). destruct (Hw ltac:(done)). lia.
  - constructor.
    + cbn [snd]. intros Hs. destruct (N3 Hs) as [? Hz]. destruct (Hw Hz). lia.
    + eapply Forall_impl; [exact Hf|]. intros ke. cbv beta. rewrite Hst, Httl. done.
  - intros k' x. rewrite Hl. setoid_rewrite Hst. unfold d1, reclaim_step.
    setoid_rewrite elem_of_cons. destruct (stale d now e) eqn:Es; cbn.
    + rewrite lookup_delete_Some. split.
      * intros [[Hne Hx] Hall]. split; [done|]. intros e' [[= -> ->]|]; [done|by apply Hall].
      * intros [Hx Hall]. split; [split; [|done]|by eauto].
        intros <-. by rewrite (Hall e (or_introl eq_refl)) in Es.
    + split; intros [Hx Hall]; (split; [done|]); [|by eauto].
      intros e' [[= -> ->]|]; [done|by apply Hall].
Qed.

(** The whole loop, over one iteration of the map. *)
Lemma reclaim_spec now d :
  0 <= ttl d -> dated d ->
  let d' := reclaim (map_to_list (dentries d)) now d in
  conf d' = conf d /\ early d' /\ 0 <= nextExpiry d'
  /\ (forall k x, dentries d' !! k = Some x <-> dentries d !! k = Some x /\ stale d now x = false).
Proof.
  intros Ht Hd. unfold reclaim. set (d0 := d <| nextExpiry := zero_time |>).
  destruct (reclaim_loop (map_to_list (dentries d)) now d0) as (Hc & Hn & _ & Hf & Hl);
    [done|done|apply NoDup_fst_map_to_list| |].
  { apply Forall_forall. intros [k e] Hin. apply elem_of_map_to_list in Hin. by apply (Hd k). }
  assert (forall k x, dentries (fold_left (reclaim_step now) (map_to_list (dentries d)) d0) !! k = Some x
            <-> dentries d !! k = Some x /\ stale d now x = false) as Hmem.
  { intros k x. rewrite Hl. split; intros [Hx Hs]; (split; [done|]).
    - apply Hs. by apply elem_of_map_to_list.
    - intros e He. apply elem_of_map_to_list in He. cbn in Hx. by simplify_eq. }
  split; [exact Hc|]. split; [|done]. intros k x Hx. pose proof Hc as [= _ Httl _]. cbn in Httl.
  rewrite Httl. apply Hmem in Hx as [Hx Hs]. rewrite Forall_forall in Hf.
  apply (Hf (k, x)); [|done]. by apply elem_of_map_to_list.
Qed.

(** ** The invariant *)

Record dns_ok (d : DNSCache) : Prop := {
  dn_ttl : 0 <= ttl d < maxDuration;
  dn_next : 0 <= nextExpiry d;
  dn_early : early d;
  dn_dated : dated d;
  dn_size : 0 < dsize d -> zsize (dentries d) <= dsize d }.

Lemma dns_new size t : 0 <= t < maxDuration -> dns_ok (NewDNSCache size t).
Proof.
  intros Ht. split; cbn; [done|done|apply map_Forall_empty|apply map_Forall_empty|].
  intros H. rewrite (zsize_empty (K := dnsKey)). lia.
Qed.

Lemma stale_spec d now e : 0 <= ttl d < maxDuration -> stale d now e = true <-> added e + ttl d < now.
Proof.
  intros Ht. unfold stale. rewrite Z.ltb_lt, time_Sub_gt; [lia|]. unfold minDuration. lia.
Qed.

(** Adding or refreshing an entry. *)
Definition put_entry (k : dnsKey) (q : string) (now : Time) (d : DNSCache) : DNSCache :=
  d <| dentries ::= <[k := mkDnsEntry q now]> |>
    <| nextExpiry ::= watermark (time_Add now (ttl d)) |>.

Lemma put_entry_ok k q now d :
  dns_ok d -> 0 < now ->
  (0 < dsize d -> zsize (<[k := mkDnsEntry q now]> (dentries d)) <= dsize d) ->
  dns_ok (put_entry k q now d).
Proof.
  intros [Ht Hn He Hd Hs] Hnow Hsz.
  pose proof (watermark_le (now + ttl d) _ Hn) as [W1 W2].
  pose proof (watermark_pos (now + ttl d) _ ltac:(lia) Hn) as W3.
  split; cbn [put_entry update ttl nextExpiry dentries dsize]; unfold time_Add; [done|lia| | |done].
  - intros k' x. change (ttl (put_entry k q now d)) with (ttl d).
    change (dentries (put_entry k q now d)) with (<[k := mkDnsEntry q now]> (dentries d)).
    change (nextExpiry (put_entry k q now d)) with (watermark (now + ttl d) (nextExpiry d)).
    intros [[<- <-]|[_ Hx]]%lookup_insert_Some; cbn [added].
    + lia.
    + pose proof (He _ _ Hx) as H. cbn in H. specialize (W2 ltac:(lia)). lia.
  - by apply map_Forall_insert_2.
Qed.

(** What a [Put] at capacity works with: reclaimed behind the watermark. *)
Definition swept (now : Time) (d : DNSCache) : DNSCache :=
  if After now (nextExpiry d) then reclaim (map_to_list (dentries d)) now d else d.

(** Whether or not the loop ran, nothing stale is left and nothing live is gone. *)
Lemma swept_spec now d :
  dns_ok d ->
  dns_ok (swept now d) /\ conf (swept now d) = conf d
  /\ (forall k x, dentries (swept now d) !! k = Some x <-> dentries d !! k = Some x /\ stale d now x = false).
Proof.
  intros [Ht Hn He Hd Hs]. unfold swept, After. destruct (Z.ltb_spec (nextExpiry d) now) as [H|H].
  - destruct (reclaim_spec now d ltac:(lia) Hd) as (Hc & He' & Hn' & Hm). split; [|done].
    pose proof Hc as [= Hsz Htt _]. split; [congruence|done|done| |].
    + intros k x [Hx _]%Hm. by apply (Hd k).
    + rewrite Hsz. intros Hpos. etrans; [|by apply Hs]. unfold zsize. apply inj_le, map_subseteq_size.
      apply map_subseteq_spec. by intros k x [Hx _]%Hm.
  - split; [done|]. split; [done|]. intros k x. split; [|by intros [? _]]. intros Hx. split; [done|].
    apply not_true_is_false. rewrite stale_spec by done. pose proof (He _ _ Hx) as E. cbn in E. lia.
Qed.

Lemma Put_eq c a q now d :
  Put c a q now d =
  if dsize d <=? 0 then d
  else match dentries d !! dns_key c a with
       | Some _ => put_entry (dns_key c a) q now d
       | None =>
           if dsize d <=? zsize (dentries d) then
             if dsize (swept now d) <=? zsize (dentries (swept now d))
             then swept now d <| rejected ::= fun n => add64 n 1 |>
             else put_entry (dns_key c a) q now (swept now d)
           else put_entry (dns_key c a) q now d
       end.
Proof. done. Qed.

Lemma Put_ok c a q now d : dns_ok d -> 0 < now -> dns_ok (Put c a q now d).
Proof.
  intros Hd Hnow. rewrite Put_eq. destruct (dsize d <=? 0) eqn:E0; [done|]. bool_prop.
  destruct (dentries d !! dns_key c a) as [x|] eqn:Ex.
  - apply put_entry_ok; [done|done|]. intros H. rewrite (zsize_insert_Some _ _ x) by done. by apply Hd.
  - destruct (dsize d <=? zsize (dentries d)) eqn:E1; bool_prop.
    + destruct (swept_spec now d Hd) as (Hok & _ & Hm).
      destruct (dsize (swept now d) <=? zsize (dentries (swept now d))) eqn:E2; bool_prop.
      * destruct Hok. by split.
      * apply put_entry_ok; [done|done|]. intros _. rewrite zsize_insert_None; [lia|].
        destruct (dentries (swept now d) !! dns_key c a) as [y|] eqn:Ey; [|done].
        apply Hm in Ey as [Ey _]. congruence.
    + apply put_entry_ok; [done|done|]. intros _. rewrite zsize_insert_None by done. lia.
Qed.

Lemma Lookup_ok c a now d : dns_ok d -> dns_ok (snd (Lookup c a now d)).
Proof.
  intros Hd. unfold Lookup. destruct (dsize d <=? 0); [done|].
  destruct (dentries d !! dns_key c a) as [x|] eqn:Ex; [destruct (stale d now x)|];
    destruct Hd as [Ht Hn He Hda Hs]; split; cbn; try done.
  - by apply map_Forall_delete.
  - by apply map_Forall_delete.
  - intros H. specialize (Hs H). rewrite (zsize_delete _ _ x) by done. lia.
Qed.

Lemma drun_ok ops d : Forall (fun o => 0 < dtime o) ops -> dns_ok d -> dns_ok (drun ops d).
Proof.
  intros H. revert d. induction H as [|o ops Ho _ IH]; intros d Hd; [done|]. apply IH.
  destruct o; [by apply Put_ok|by apply Lookup_ok].
Qed.

(** ** What the cache answers *)

(** Every entry is the last name put for its key. *)
Definition faithful (ops : list dop) (d : DNSCache) : Prop :=
  map_Forall (fun k e => last_put k ops = Some (qname e, added e)) (dentries d).

Lemma last_put_snoc k ops o :
  last_put k (ops ++ [o]) = match o with
                            | DPut c a q now => if decide (dns_key c a = k) then Some (q, now) else last_put k ops
                            | DLookup _ _ _ => last_put k ops
                            end.
Proof. unfold last_put. rewrite fold_left_app. by destruct o. Qed.

Lemma drun_snoc ops o d : drun (ops ++ [o]) d = dstep (drun ops d) o.
Proof. unfold drun. by rewrite fold_left_app. Qed.

(** The entries after a [Put]: the key's own if it was accepted, and those of the
    other keys, except expired ones. *)
Lemma Put_entries c a q now d :
  dns_ok d -> 0 < dsize d ->
  (rejected (Put c a q now d) = rejected d
   /\ dentries (Put c a q now d) !! dns_key c a = Some (mkDnsEntry q now)
   \/ rejected (Put c a q now d) = add64 (rejected d) 1
   /\ dentries (Put c a q now d) !! dns_key c a = None
   /\ dsize d <= zsize (dentries (Put c a q now d))
   /\ map_Forall (fun _ e => stale d now e = false) (dentries (Put c a q now d)))
  /\ forall k x, k <> dns_key c a ->
       (dentries (Put c a q now d) !! k = Some x -> dentries d !! k = Some x)
       /\ (dentries d !! k = Some x -> stale d now x = false -> dentries (Put c a q now d) !! k = Some x).
Proof.
  intros Hd Hpos. rewrite Put_eq. assert (dsize d <=? 0 = false) as -> by zbool.
  set (key := dns_key c a).
  assert (forall d1, rejected (put_entry key q now d1) = rejected d1
    /\ dentries (put_entry key q now d1) !! key = Some (mkDnsEntry q now)
    /\ forall k, k <> key -> dentries (put_entry key q now d1) !! k = dentries d1 !! k) as Hput.
  { intros d1. split; [done|]. cbn. split; [by rewrite lookup_insert_eq|].
    intros k Hk. by rewrite lookup_insert_ne. }
  destruct (swept_spec now d Hd) as (_ & Hc & Hm). pose proof Hc as [= Hsz _ Hr].
  destruct (dentries d !! key) as [y|] eqn:Ey; [|destruct (dsize d <=? zsize (dentries d)) eqn:E1;
    [destruct (dsize (swept now d) <=? zsize (dentries (swept now d))) eqn:E2|]].
  - destruct (Hput d) as (H1 & H2 & H3). split; [by left|]. intros k x Hk. by rewrite H3.
  - bool_prop. rewrite Hsz in E2. split.
    + right. split; [cbn; by rewrite Hr|]. cbn. split; [|split; [done|]].
      * destruct (dentries (swept now d) !! key) as [z|] eqn:Ez; [|done].
        apply Hm in Ez as [Ez _]. congruence.
      * by intros k x [_ Hx]%Hm.
    + intros k x Hk. cbn. rewrite Hm. tauto.
  - destruct (Hput (swept now d)) as (H1 & H2 & H3). split; [left; by rewrite H1, Hr|].
    intros k x Hk. rewrite H3, Hm by done. tauto.
  - destruct (Hput d) as (H1 & H2 & H3). split; [by left|]. intros k x Hk. by rewrite H3.
Qed.

Lemma reclaim_conf now l d :
  dsize (fold_left (reclaim_step now) l d) = dsize d /\ ttl (fold_left (reclaim_step now) l d) = ttl d.
Proof.
  revert d. induction l as [|[k e] l IH]; intros d; [done|]. cbn [fold_left].
  destruct (IH (reclaim_step now d (k, e))) as [-> ->]. unfold reclaim_step. by destruct (stale _ _ _).
Qed.

Lemma swept_conf now d : dsize (swept now d) = dsize d /\ ttl (swept now d) = ttl d.
Proof.
  unfold swept, reclaim. destruct (After now (nextExpiry d)); [|done].
  destruct (reclaim_conf now (map_to_list (dentries d)) (d <| nextExpiry := zero_time |>)) as [-> ->].
  done.
Qed.

Lemma dstep_conf o d : dsize (dstep d o) = dsize d /\ ttl (dstep d o) = ttl d.
Proof.
  destruct o as [c a q now|c a now]; cbn [dstep].
  - rewrite Put_eq. repeat case_match; cbn; try done; apply swept_conf.
  - unfold Lookup. by repeat case_match.
Qed.

Lemma drun_conf ops d : dsize (drun ops d) = dsize d /\ ttl (drun ops d) = ttl d.
Proof.
  revert d. induction ops as [|o ops IH]; intros d; [done|].
  change (drun (o :: ops) d) with (drun ops (dstep d o)).
  destruct (IH (dstep d o)) as [-> ->]. apply dstep_conf.
Qed.

Lemma faithful_run size t ops :
  0 < size -> 0 <= t < maxDuration -> Forall (fun o => 0 < dtime o) ops ->
  faithful ops (drun ops (NewDNSCache size t)).
Proof.
  intros Hs Ht Hops. induction ops as [|o ops IH] using rev_ind; [apply map_Forall_empty|].
  apply Forall_app in Hops as [Hops Ho]. apply Forall_cons in Ho as [Ho _]. specialize (IH Hops).
  rewrite drun_snoc. set (d := drun ops (NewDNSCache size t)) in *.
  assert (dns_ok d) as Hd by (apply drun_ok; [done|by apply dns_new]).
  destruct (drun_conf ops (NewDNSCache size t)) as [Hsz _]. fold d in Hsz. cbn in Hsz.
  intros k x Hx. rewrite last_put_snoc. destruct o as [c a q now|c a now]; cbn [dstep] in Hx.
  - destruct (Put_entries c a q now d Hd ltac:(lia)) as [Hkey Hother].
    destruct (decide (dns_key c a = k)) as [<-|Hne].
    + destruct Hkey as [[_ E]|(_ & E & _)]; rewrite E in Hx; [|done]. by injection Hx as <-.
    + apply IH. by apply Hother in Hx.
  - apply IH. revert Hx. unfold Lookup. repeat case_match; cbn; try done.
    intros [_ Hx]%lookup_delete_Some. done.
Qed.

Lemma faithful_Lookup ops d c a now q :
  faithful ops d -> fst (Lookup c a now d) = Some q ->
  exists t, last_put (dns_key c a) ops = Some (q, t) /\ time_Sub now t <= ttl d.
Proof.
  intros Hf. unfold Lookup. destruct (dsize d <=? 0); [done|].
  destruct (dentries d !! dns_key c a) as [e|] eqn:E; [|done].
  destruct (stale d now e) eqn:Es; [done|]. intros [= <-]. exists (added e).
  split; [by apply Hf|]. unfold stale in Es. bool_prop. lia.
Qed.

(** As long as nothing was refused, the last name put for a key is there until it
    expires. *)
Definition complete (ops : list dop) (now : Time) (d : DNSCache) : Prop :=
  forall k q t, last_put k ops = Some (q, t) -> now <= t + ttl d ->
    dentries d !! k = Some (mkDnsEntry q t).

Lemma complete_run size t ops now :
  0 < size -> 0 <= t < maxDuration -> Forall (fun o => 0 < dtime o <= now) ops ->
  (forall ops1 o, ops1 ++ [o] `prefix_of` ops ->
     rejected (drun (ops1 ++ [o]) (NewDNSCache size t)) = rejected (drun ops1 (NewDNSCache size t))) ->
  complete ops now (drun ops (NewDNSCache size t)).
Proof.
  intros Hs Ht Hops Hrej. induction ops as [|o ops IH] using rev_ind; [done|].
  apply Forall_app in Hops as [Hops Ho]. apply Forall_cons in Ho as [Ho _].
  assert (complete ops now (drun ops (NewDNSCache size t))) as IH'.
  { apply IH; [done|]. intros ops1 o1 Hp. apply Hrej. etrans; [exact Hp|]. by exists [o]. }
  clear IH. specialize (Hrej ops o (reflexivity _)). rewrite drun_snoc in *.
  set (d := drun ops (NewDNSCache size t)) in *.
  assert (dns_ok d) as Hd.
  { apply drun_ok; [|by apply dns_new]. eapply Forall_impl; [exact Hops|]. cbn. lia. }
  destruct (drun_conf ops (NewDNSCache size t)) as [Hsz Htt]. fold d in Hsz, Htt. cbn in Hsz, Htt.
  destruct (dstep_conf o d) as [_ Htt']. intros k q tt Hlast Hage. rewrite Htt' in Hage.
  rewrite last_put_snoc in Hlast. destruct o as [c a q' n|c a n]; cbn [dstep dtime] in *.
  - destruct (Put_entries c a q' n d Hd ltac:(lia)) as [Hkey Hother].
    destruct (decide (dns_key c a = k)) as [<-|Hne].
    + injection Hlast as <- <-. destruct Hkey as [[_ E]|(E & _)]; [done|]. exfalso.
      rewrite E in Hrej. unfold add64, u64 in Hrej.
      pose proof (Z.mod_pos_bound (rejected d + 1) M64 ltac:(done)).
      assert (rejected d mod M64 = rejected d) by (apply Z.mod_small; lia).
      pose proof (f_equal (fun x => (x - rejected d) mod M64) Hrej) as H1. cbn in H1.
      rewrite Zminus_mod_idemp_l, Z.sub_diag in H1. replace (rejected d + 1 - rejected d) with 1 in H1 by lia.
      done.
    + apply Hother; [done|by apply IH'|]. apply not_true_is_false. rewrite stale_spec by lia. cbn. lia.
  - pose proof (IH' _ _ _ Hlast Hage) as Hin. unfold Lookup. repeat case_match; cbn; try done.
    rewrite lookup_delete_ne; [done|]. intros <-. simplify_eq.
    match goal with H : stale _ _ _ = true |- _ => rewrite stale_spec in H by lia; cbn in H end. lia.
Qed.

(** ** Properties *)

(**  A hit is never a stale or a foreign name: it is the last name put
    for that client and address, at most one TTL ago. *)
Theorem dns_sound size t ops c a now q :
  0 < size -> 0 <= t < maxDuration -> Forall (fun o => 0 < dtime o) ops ->
  fst (Lookup c a now (drun ops (NewDNSCache size t))) = Some q ->
  exists at_, last_put (dns_key c a) ops = Some (q, at_) /\ time_Sub now at_ <= t.
Proof.
  intros Hs Ht Hops Hq. destruct (drun_conf ops (NewDNSCache size t)) as [_ Htt]. cbn in Htt.
  destruct (faithful_Lookup _ _ _ _ _ _ (faithful_run size t ops Hs Ht Hops) Hq) as (x & Hx & Hage).
  exists x. by rewrite Htt in Hage.
Qed.

(** With a clock that does not run backwards, and no refused
    insertion, the last name put for a key is found for a whole TTL: reclaiming and
    lookups never drop a live entry. *)
Theorem dns_complete size t ops now c a q at_ :
  0 < size -> 0 <= t < maxDuration -> Forall (fun o => 0 < dtime o <= now) ops ->
  (forall ops1 o, ops1 ++ [o] `prefix_of` ops ->
     rejected (drun (ops1 ++ [o]) (NewDNSCache size t)) = rejected (drun ops1 (NewDNSCache size t))) ->
  last_put (dns_key c a) ops = Some (q, at_) -> now <= at_ + t ->
  fst (Lookup c a now (drun ops (NewDNSCache size t))) = Some q.
Proof.
  intros Hs Ht Hops Hrej Hl Hage. pose proof (complete_run size t ops now Hs Ht Hops Hrej) as Hc.
  destruct (drun_conf ops (NewDNSCache size t)) as [Hsz Htt]. cbn in Hsz, Htt.
  unfold Lookup. rewrite Hsz. assert (size <=? 0 = false) as -> by zbool.
  rewrite (Hc _ _ _ Hl) by (rewrite Htt; done).
  assert (stale (drun ops (NewDNSCache size t)) now (mkDnsEntry q at_) = false) as ->; [|done].
  apply not_true_is_false. rewrite stale_spec by (rewrite Htt; lia). rewrite Htt. cbn. lia.
Qed.

(** The cache never holds more than its size, and refuses a new key
    only when it is full of entries that are all still live: the watermark never
    makes it miss an entry it could have reclaimed. *)
Theorem dns_bound size t ops c a q now :
  0 < size -> 0 <= t < maxDuration -> Forall (fun o => 0 < dtime o) ops -> 0 < now ->
  let d := drun ops (NewDNSCache size t) in
  zsize (dentries d) <= size
  /\ (dentries (Put c a q now d) !! dns_key c a = None ->
      zsize (dentries (Put c a q now d)) = size
      /\ map_Forall (fun _ e => now <= added e + t) (dentries (Put c a q now d))).
Proof.
  intros Hs Ht Hops Hnow d. assert (dns_ok d) as Hd by (apply drun_ok; [done|by apply dns_new]).
  destruct (drun_conf ops (NewDNSCache size t)) as [Hsz Htt]. fold d in Hsz, Htt. cbn in Hsz, Htt.
  split; [rewrite <- Hsz; apply Hd; lia|]. intros Hnone.
  destruct (Put_entries c a q now d Hd ltac:(lia)) as [[[_ E]|(_ & _ & Hfull & Hlive)] _]; [congruence|].
  pose proof (Put_ok c a q now d Hd Hnow) as Hok. destruct (dstep_conf (DPut c a q now) d) as [Hsz' _].
  cbn [dstep] in Hsz'. pose proof (dn_size _ Hok ltac:(lia)). split; [lia|].
  intros k x Hx. pose proof (Hlive _ _ Hx) as E. cbn in E. apply not_true_iff_false in E.
  rewrite stale_spec in E by lia. lia.
Qed.

(** ** Instances *)

Definition sample_dops : list dop :=
  [DPut (Addr4 1) (Addr4 100) "a.example" 10; DPut (Addr4 1) (Addr4 101) "b.example" 20;
   DPut (Addr4 2) (Addr4 102) "c.example" 80].

Lemma sample_dops_dated : Forall (fun o => 0 < dtime o) sample_dops.
Proof. repeat constructor. Qed.

Lemma dns_sound_witness :
  exists at_, last_put (dns_key (Addr4 2) (Addr4 102)) sample_dops = Some ("c.example", at_)
    /\ time_Sub 100 at_ <= 50.
Proof.
  apply (dns_sound 2 50 sample_dops (Addr4 2) (Addr4 102) 100 "c.example");
    [lia|unfold maxDuration; lia|apply sample_dops_dated|vm_compute; reflexivity].
Defined.

(** The third insertion found the cache full and reclaimed the first two. *)
Lemma prefix_cases (ops : list dop) ops1 o :
  ops1 ++ [o] `prefix_of` ops -> exists n, ops1 ++ [o] = take (S n) ops /\ ops1 = take n ops /\ (n < length ops)%nat.
Proof.
  intros [l ->]. exists (length ops1). rewrite !length_app. cbn [length].
  rewrite <- app_assoc. split; [|split; [by rewrite take_app_length|lia]].
  rewrite take_app_ge by lia. replace (S (length ops1) - length ops1)%nat with 1%nat by lia. done.
Qed.

Lemma dns_complete_witness :
  fst (Lookup (Addr4 2) (Addr4 102) 100 (drun sample_dops (NewDNSCache 2 50))) = Some "c.example".
Proof.
  apply (dns_complete 2 50 sample_dops 100 (Addr4 2) (Addr4 102) "c.example" 80);
    [lia|unfold maxDuration; lia|repeat (constructor; [cbn; lia|]); constructor| |vm_compute; reflexivity|lia].
  intros ops1 o Hp. destruct (prefix_cases _ _ _ Hp) as (n & -> & -> & Hn). cbn in Hn.
  do 3 (destruct n as [|n]; [vm_compute; reflexivity|]). lia.
Defined.

Lemma dns_bound_witness :
  let d := drun sample_dops (NewDNSCache 2 50) in
  zsize (dentries d) <= 2
  /\ (dentries (Put (Addr4 3) (Addr4 103) "d.example" 90 d) !! dns_key (Addr4 3) (Addr4 103) = None ->
      zsize (dentries (Put (Addr4 3) (Addr4 103) "d.example" 90 d)) = 2
      /\ map_Forall (fun _ e => 90 <= added e + 50) (dentries (Put (Addr4 3) (Addr4 103) "d.example" 90 d))).
Proof.
  apply (dns_bound 2 50 sample_dops (Addr4 3) (Addr4 103) "d.example" 90);
    [lia|unfold maxDuration; lia|apply sample_dops_dated|lia].
Defined.

End Dns.
