(* ===== verification/Gauges.v ===== *)
(** * The bounded gauges ([distinctdests.go], [lastseen.go], [deltaratio.go])

    Three accumulators beside the rollup: distinct destinations per interface, the
    arrival of the last NetFlow record per interface, and the histogram of the
    ratio between the two sources' byte counts. *)

From stdpp Require Import base decidable list gmap sets strings.
From Stdlib Require Import ZArith Lia SpecFloat.
From S2P Require Import Prelude Netip Record Geo Rollup.

(** ** Distinct destinations *)

Module Dests.

Definition distinctDestsPerIfaceCap : Z := 10000.
Definition distinctDestsMaxInterfaces : Z := 512.
Definition OtherLabel : string := Rollup.OtherLabel.

Record DistinctDests := mkDests { dcells : gmap string (gset Addr); dcapped : Z }.
#[export] Instance eta_DistinctDests : Eta DistinctDests := fun d => mkDests (dcells d) (dcapped d).

Definition NewDistinctDests : DistinctDests := mkDests ∅ 0.

Definition set_size (s : gset Addr) : Z := Z.of_nat (size s).

(** The destination of a record and the interface it counts for. *)
Definition counted_dest (r : Record_) : option (string * Addr) :=
  if negb (IsValid (DstAddr r)) then None
  else if str_empty (interfaceLabel r) then None
  else Some (interfaceLabel r, Unmap (DstAddr r)).

(** The cell an interface's destinations go to. *)
Definition cell_for (d : DistinctDests) (iface : string) : string :=
  match dcells d !! iface with
  | Some _ => iface
  | None => if negb (str_eq iface OtherLabel) && (distinctDestsMaxInterfaces <=? zsize (dcells d))
            then OtherLabel else iface
  end.

Definition Dests_Observe (d : DistinctDests) (r : Record_) : DistinctDests :=
  match counted_dest r with
  | None => d
  | Some (iface, dst) =>
      let cell := cell_for d iface in
      let d := if str_eq cell iface then d else d <| dcapped ::= fun n => add64 n 1 |> in
      let set := default ∅ (dcells d !! cell) in
      let set := if bool_decide (dst ∈ set) then set
                 else if distinctDestsPerIfaceCap <=? set_size set then set
                 else {[dst]} ∪ set in
      d <| dcells ::= <[cell := set]> |>
  end.
#[export] Instance dests_sink : Sink DistinctDests := Dests_Observe.

Definition Dests_Snapshot (d : DistinctDests) : gmap string Z := set_size <$> dcells d.

(** The destinations of one interface in a history. *)
Definition dests_of (iface : string) (rs : list Record_) : gset Addr :=
  list_to_set (omap (fun r => match counted_dest r with
                              | Some (i, dst) => if decide (i = iface) then Some dst else None
                              | None => None
                              end) rs).

Lemma dests_of_snoc iface rs r :
  dests_of iface (rs ++ [r]) =
  match counted_dest r with
  | Some (i, dst) => if decide (i = iface) then {[dst]} ∪ dests_of iface rs else dests_of iface rs
  | None => dests_of iface rs
  end.
Proof.
  unfold dests_of. rewrite omap_app, list_to_set_app_L. cbn.
  destruct (counted_dest r) as [[i dst]|]; [|set_solver]. case_decide; cbn; set_solver.
Qed.

Lemma set_size_add dst (s : gset Addr) : dst ∉ s -> set_size ({[dst]} ∪ s) = set_size s + 1.
Proof. intros H. unfold set_size. rewrite size_union, size_singleton by set_solver. lia. Qed.

Record dests_ok (rs : list Record_) (d : DistinctDests) : Prop := {
  ds_cells : zsize (delete OtherLabel (dcells d)) <= distinctDestsMaxInterfaces;
  ds_sets : map_Forall (fun _ s => set_size s <= distinctDestsPerIfaceCap) (dcells d);
  ds_exact : forall i s, i <> OtherLabel -> dcells d !! i = Some s ->
    s ⊆ dests_of i rs /\ (set_size s < distinctDestsPerIfaceCap -> s = dests_of i rs);
  ds_new : forall i, dcells d !! i = None -> zsize (dcells d) < distinctDestsMaxInterfaces ->
    dests_of i rs = ∅ }.

Lemma zsize_delete_le {A} (m : gmap string A) k : zsize (delete k m) <= zsize m.
Proof. unfold zsize. apply inj_le, map_subseteq_size, delete_subseteq. Qed.

(** The set after one more destination. *)
Lemma grow_set (s : gset Addr) dst :
  set_size s <= distinctDestsPerIfaceCap ->
  let s' := if bool_decide (dst ∈ s) then s
            else if distinctDestsPerIfaceCap <=? set_size s then s else {[dst]} ∪ s in
  set_size s' <= distinctDestsPerIfaceCap /\ s ⊆ s' /\ s' ⊆ {[dst]} ∪ s
  /\ (set_size s' < distinctDestsPerIfaceCap -> set_size s < distinctDestsPerIfaceCap /\ s' = {[dst]} ∪ s).
Proof.
  intros Hs. cbv zeta. case_bool_decide as Hin; [|destruct (distinctDestsPerIfaceCap <=? set_size s) eqn:E].
  - split; [done|]. split; [done|]. split; [set_solver|]. intros ?. split; [done|set_solver].
  - bool_prop. split; [done|]. split; [done|]. split; [set_solver|]. lia.
  - bool_prop. rewrite set_size_add by done. split; [lia|]. split; [set_solver|]. split; [done|].
    intros ?. split; [lia|done].
Qed.

Lemma cell_for_cases d i :
  (cell_for d i = i /\ (is_Some (dcells d !! i) \/ i = OtherLabel \/ zsize (dcells d) < distinctDestsMaxInterfaces))
  \/ (cell_for d i = OtherLabel /\ i <> OtherLabel /\ dcells d !! i = None
      /\ distinctDestsMaxInterfaces <= zsize (dcells d)).
Proof.
  unfold cell_for. destruct (dcells d !! i) as [s|] eqn:E; [left; eauto|].
  destruct (str_eq i OtherLabel) eqn:Eo, (distinctDestsMaxInterfaces <=? zsize (dcells d)) eqn:Ec;
    cbn; bool_prop; auto 6.
Qed.

Lemma Dests_Observe_ok rs d r : dests_ok rs d -> dests_ok (rs ++ [r]) (Dests_Observe d r).
Proof.
  intros [Hc Hs He Hn]. unfold Dests_Observe.
  destruct (counted_dest r) as [[j dst]|] eqn:Er; cycle 1.
  { split; try done; intros; rewrite dests_of_snoc, Er; auto. }
  cbv zeta. set (cell := cell_for d j). set (d1 := if str_eq cell j then d else _).
  assert (dcells d1 = dcells d) as Hd1 by (unfold d1; by destruct (str_eq cell j)).
  rewrite Hd1. set (s := default ∅ (dcells d !! cell)).
  set (s' := if bool_decide (dst ∈ s) then s else _).
  assert (set_size s <= distinctDestsPerIfaceCap) as Hsz.
  { unfold s. destruct (dcells d !! cell) as [x|] eqn:E; cbn; [by apply (Hs cell)|].
    unfold set_size. rewrite size_empty. done. }
  destruct (grow_set s dst Hsz) as (G1 & G2 & G3 & G4). fold s' in G1, G2, G3, G4.
  assert (dcells (d1 <| dcells ::= <[cell := s']> |>) = <[cell := s']> (dcells d)) as Hcells
    by (cbn; by rewrite Hd1).
  pose proof (cell_for_cases d j) as Hcase. fold cell in Hcase.
  split; rewrite ?Hcells.
  - destruct (decide (cell = OtherLabel)) as [->|Hne]; [by rewrite delete_insert_eq|].
    rewrite delete_insert_ne by done. destruct (dcells d !! cell) as [x|] eqn:Ex.
    + rewrite (zsize_insert_Some _ _ x); [done|]. by rewrite lookup_delete_ne.
    + rewrite zsize_insert_None by (by rewrite lookup_delete_ne).
      pose proof (zsize_delete_le (dcells d) OtherLabel).
      destruct Hcase as [[E [[x Hx]|[E'|Hlt]]]|[E _]]; [congruence|congruence|lia|congruence].
  - by apply map_Forall_insert_2.
  - intros i x Hi. rewrite lookup_insert_Some, dests_of_snoc, Er. intros [[<- <-]|[Hne Hx]].
    + assert (cell = j) as Hcj by (destruct Hcase as [[? _]|[? _]]; congruence).
      rewrite decide_True by done.
      assert (s ⊆ dests_of cell rs /\ (set_size s < distinctDestsPerIfaceCap -> s = dests_of cell rs)) as [I1 I2].
      { unfold s. destruct (dcells d !! cell) as [y|] eqn:Ey; cbn; [by apply He|].
        rewrite (Hn cell); [set_solver|done|].
        destruct Hcase as [[_ [[y Hy]|[E'|Hlt]]]|[E _]]; [congruence|congruence|done|congruence]. }
      split; [set_solver|]. intros Hlt. destruct (G4 Hlt) as [Hlt' ->]. by rewrite <- (I2 Hlt').
    + case_decide as Hji; [|by apply He]. subst j. exfalso.
      destruct Hcase as [[E _]|(_ & _ & E & _)]; congruence.
  - intros i. rewrite lookup_insert_None, dests_of_snoc, Er. intros [Hi Hne] Hlt.
    assert (zsize (dcells d) < distinctDestsMaxInterfaces) as Hlt0.
    { destruct (dcells d !! cell) as [x|] eqn:Ex.
      - by rewrite (zsize_insert_Some _ _ x) in Hlt.
      - rewrite zsize_insert_None in Hlt by done. lia. }
    case_decide as Hji; [|by apply Hn]. subst j. exfalso.
    destruct Hcase as [[E _]|(_ & _ & _ & E)]; [congruence|lia].
Qed.

Lemma dests_run_ok rs : dests_ok rs (observe_all NewDistinctDests rs).
Proof.
  induction rs as [|r rs IH] using rev_ind.
  - split; cbn; [done|apply map_Forall_empty| |done].
    intros i s _ Hs. by rewrite lookup_empty in Hs.
  - rewrite observe_all_app. by apply Dests_Observe_ok.
Qed.

(** The gauge is exact until it says otherwise: for every interface with a
    cell of its own, a count below the cap is the number of distinct destinations
    observed on it, however the records of all interfaces were interleaved; a full
    count is a lower bound; and there are never more than 512 such cells. *)
Theorem dests_exact rs i n :
  let d := observe_all NewDistinctDests rs in
  zsize (delete OtherLabel (Dests_Snapshot d)) <= distinctDestsMaxInterfaces /\
  (i <> OtherLabel -> Dests_Snapshot d !! i = Some n ->
   n <= distinctDestsPerIfaceCap /\ n <= set_size (dests_of i rs)
   /\ (n < distinctDestsPerIfaceCap -> n = set_size (dests_of i rs))).
Proof.
  intros d. destruct (dests_run_ok rs) as [Hc Hs He _]. fold d in Hc, Hs, He.
  split; [unfold Dests_Snapshot; rewrite <- fmap_delete; unfold zsize; by rewrite map_size_fmap|].
  intros Hi. unfold Dests_Snapshot. rewrite lookup_fmap_Some. intros (s & <- & E).
  destruct (He i s Hi E) as [H1 H2]. split; [by apply (Hs i)|].
  split; [unfold set_size; by apply inj_le, subseteq_size|]. intros Hlt. by rewrite <- H2.
Qed.

Definition dest_rec (iface : string) (dst : Z) : Record_ :=
  zeroRecord <| Out := mkIface "" iface 1 false false |> <| DstAddr := Addr4 dst |>.

Definition sample_dests : list Record_ :=
  [dest_rec "lan" 1; dest_rec "wan" 2; dest_rec "lan" 1; dest_rec "lan" 3].

Lemma dests_exact_witness :
  let d := observe_all NewDistinctDests sample_dests in
  zsize (delete OtherLabel (Dests_Snapshot d)) <= distinctDestsMaxInterfaces /\
  2 <= distinctDestsPerIfaceCap /\ 2 <= set_size (dests_of "lan" sample_dests)
  /\ (2 < distinctDestsPerIfaceCap -> 2 = set_size (dests_of "lan" sample_dests)).
Proof.
  destruct (dests_exact sample_dests "lan" 2) as [H1 H2]. split; [exact H1|].
  apply H2; [done|vm_compute; reflexivity].
Defined.

End Dests.

(** ** Last seen *)

Module Seen.

Definition lastSeenIfaceCap : Z := 256.

Record LastSeen := mkLastSeen { at_ : gmap string Time }.
#[export] Instance eta_LastSeen : Eta LastSeen := fun l => mkLastSeen (at_ l).
Definition NewLastSeen : LastSeen := mkLastSeen ∅.

Definition Seen_Observe (l : LastSeen) (r : Record_) (now : Time) : LastSeen :=
  if negb (source_eqb (rSource r) SourceNetflow) then l
  else
    let iface := interfaceLabel r in
    if str_empty iface then l
    else match at_ l !! iface with
         | None => if lastSeenIfaceCap <=? zsize (at_ l) then l else l <| at_ ::= <[iface := now]> |>
         | Some _ => l <| at_ ::= <[iface := now]> |>
         end.

Definition seen_all (l : LastSeen) (obs : list (Record_ * Time)) : LastSeen :=
  fold_left (fun l o => Seen_Observe l (fst o) (snd o)) obs l.

(** The arrival of the last NetFlow record of an interface. *)
Definition last_arrival (iface : string) (obs : list (Record_ * Time)) : option Time :=
  fold_left (fun acc o => if bool_decide (rSource (fst o) = SourceNetflow /\ interfaceLabel (fst o) = iface
                                          /\ iface <> "") then Some (snd o) else acc) obs None.

Record seen_ok (obs : list (Record_ * Time)) (l : LastSeen) : Prop := {
  sn_cap : zsize (at_ l) <= lastSeenIfaceCap;
  sn_some : forall i t, at_ l !! i = Some t -> last_arrival i obs = Some t;
  sn_none : forall i, at_ l !! i = None -> zsize (at_ l) < lastSeenIfaceCap -> last_arrival i obs = None }.

Lemma last_arrival_snoc i obs r now :
  last_arrival i (obs ++ [(r, now)])
  = if bool_decide (rSource r = SourceNetflow /\ interfaceLabel r = i /\ i <> "") then Some now
    else last_arrival i obs.
Proof. unfold last_arrival. by rewrite fold_left_app. Qed.

Lemma Seen_Observe_ok obs l r now : seen_ok obs l -> seen_ok (obs ++ [(r, now)]) (Seen_Observe l r now).
Proof.
  intros [Hc Hs Hn]. unfold Seen_Observe, source_eqb.
  case_bool_decide as Es; cbn [negb]; [destruct (str_empty (interfaceLabel r)) eqn:Ee|].
  - split; [done|..]; intros i; rewrite last_arrival_snoc, bool_decide_eq_false_2; eauto;
      intros (_ & <- & H); apply H; by apply String.eqb_eq.
  - assert (interfaceLabel r <> "") as Hne by by apply String.eqb_neq.
    assert (forall l', at_ l' = <[interfaceLabel r := now]> (at_ l) -> zsize (at_ l') <= lastSeenIfaceCap ->
              seen_ok (obs ++ [(r, now)]) l') as Hput.
    { intros l' El Hsz. split; [done|..].
      - intros i t. rewrite El, last_arrival_snoc, lookup_insert_Some. intros [[<- <-]|[Hi Ht]].
        + by rewrite bool_decide_eq_true_2.
        + rewrite bool_decide_eq_false_2 by naive_solver. by apply Hs.
      - intros i. rewrite El, last_arrival_snoc, lookup_insert_None. intros [Hi Hd] Hlt.
        rewrite bool_decide_eq_false_2 by naive_solver. apply Hn; [done|].
        destruct (at_ l !! interfaceLabel r) as [x|] eqn:Ex.
        + by rewrite (zsize_insert_Some _ _ x) in Hlt.
        + rewrite zsize_insert_None in Hlt by done. lia. }
    destruct (at_ l !! interfaceLabel r) as [x|] eqn:Ex; [|destruct (lastSeenIfaceCap <=? zsize (at_ l)) eqn:Ec].
    + apply Hput; [done|]. cbn. by rewrite (zsize_insert_Some _ _ x).
    + bool_prop. split; [done|..].
      * intros i t Ht. rewrite last_arrival_snoc, bool_decide_eq_false_2; [by apply Hs|]. naive_solver.
      * lia.
    + bool_prop. apply Hput; [done|]. cbn. rewrite zsize_insert_None by done. lia.
  - split; [done|..]; intros i; rewrite last_arrival_snoc, bool_decide_eq_false_2 by tauto; eauto.
Qed.

(** A tracked interface carries the arrival of its last NetFlow record,
    never that of another source; while fewer than 256 interfaces are tracked,
    one that is absent has never been named by a NetFlow record. *)
Theorem seen_exact obs i :
  let l := seen_all NewLastSeen obs in
  zsize (at_ l) <= lastSeenIfaceCap /\
  match at_ l !! i with
  | Some t => last_arrival i obs = Some t
  | None => zsize (at_ l) < lastSeenIfaceCap -> last_arrival i obs = None
  end.
Proof.
  intros l. assert (seen_ok obs l) as [Hc Hs Hn].
  { unfold l, seen_all. induction obs as [|[r now] obs IH] using rev_ind.
    - split; cbn; [done| |done]. intros j t Ht. by rewrite lookup_empty in Ht.
    - rewrite fold_left_app. by apply Seen_Observe_ok. }
  split; [done|]. destruct (at_ l !! i) as [t|] eqn:E; [by apply Hs|by apply Hn].
Qed.

Definition seen_rec (src : Source) (iface : string) : Record_ :=
  zeroRecord <| rSource := src |> <| Out := mkIface "" iface 1 false false |>.

Definition sample_seen : list (Record_ * Time) :=
  [(seen_rec SourceNetflow "lan", 10); (seen_rec SourceZenarmor "lan", 20); (seen_rec SourceZenarmor "wan", 30)].

Lemma seen_exact_witness :
  let l := seen_all NewLastSeen sample_seen in
  at_ l !! "lan" = Some 10 /\ last_arrival "lan" sample_seen = Some 10
  /\ at_ l !! "wan" = None /\ last_arrival "wan" sample_seen = None.
Proof.
  pose proof (seen_exact sample_seen "lan") as [_ H1]. pose proof (seen_exact sample_seen "wan") as [_ H2].
  assert (at_ (seen_all NewLastSeen sample_seen) !! "wan" = None) as E by (vm_compute; reflexivity).
  rewrite E in H2. split; [vm_compute; reflexivity|]. split; [exact H1|]. split; [exact E|].
  apply H2. vm_compute. reflexivity.
Defined.

End Seen.

(** ** Delta ratio

    A float64 is a [spec_float] of precision 53; [float64(n)] and [/] round to
    nearest even. *)

Module Ratio.

Definition float64 (z : Z) : spec_float := binary_normalize 53 1024 z 0 false.
Definition fdiv (a b : spec_float) : spec_float := SFdiv 53 1024 a b.
Definition fadd (a b : spec_float) : spec_float := SFadd 53 1024 a b.

(** A decimal constant [n/d] as the compiler rounds it. *)
Definition fconst (n d : Z) : spec_float := fdiv (float64 n) (float64 d).

Definition deltaRatioBounds : list spec_float :=
  [fconst 9 10; fconst 1 1; fconst 105 100; fconst 11 10; fconst 125 100; fconst 15 10; fconst 2 1;
   fconst 3 1; fconst 5 1; fconst 10 1; fconst 100 1].

Record ratioCell := mkRatioCell { rcounts : list Z; rsum : spec_float; rtotal : Z }.
#[export] Instance eta_ratioCell : Eta ratioCell := fun c => mkRatioCell (rcounts c) (rsum c) (rtotal c).

Record DeltaRatio := mkDeltaRatio { rcells : gmap string ratioCell; excluded : Z }.
#[export] Instance eta_DeltaRatio : Eta DeltaRatio := fun d => mkDeltaRatio (rcells d) (excluded d).

Definition NewDeltaRatio : DeltaRatio := mkDeltaRatio ∅ 0.

Definition ratioOf (nf zen : Z) : spec_float :=
  if zen =? 0 then fadd (default (S754_zero false) (last deltaRatioBounds)) (float64 1)
  else fdiv (float64 nf) (float64 zen).

Fixpoint bucket_from (ratio : spec_float) (bounds : list spec_float) (i : nat) : nat :=
  match bounds with
  | [] => i
  | b :: bounds => if SFleb ratio b then i else bucket_from ratio bounds (S i)
  end.
Definition bucketOf (ratio : spec_float) : nat := bucket_from ratio deltaRatioBounds 0.

Definition newCell : ratioCell :=
  mkRatioCell (replicate (S (length deltaRatioBounds)) 0) (S754_zero false) 0.

Definition Ratio_Observe (d : DeltaRatio) (r : Record_) : DeltaRatio :=
  if negb (Present (NF r)) || negb (Present (Zen r)) then d
  else if WindowPartial (rRepairs r) then d <| excluded ::= fun n => add64 n 1 |>
  else
    let ratio := ratioOf (Counters_Bytes (NF r)) (Counters_Bytes (Zen r)) in
    let iface := interfaceLabel r in
    let c := default newCell (rcells d !! iface) in
    let c := c <| rcounts ::= alter (fun n => add64 n 1) (bucketOf ratio) |>
               <| rsum ::= fun s => fadd s ratio |> <| rtotal ::= fun n => add64 n 1 |> in
    d <| rcells ::= <[iface := c]> |>.
#[export] Instance ratio_sink : Sink DeltaRatio := Ratio_Observe.

Record HistogramData := mkHistogram { Count : Z; Sum : spec_float; Buckets : list (spec_float * Z) }.

(** The cumulative counts, bound by bound. *)
Fixpoint cumulate (cum : Z) (bounds : list spec_float) (counts : list Z) : list (spec_float * Z) :=
  match bounds, counts with
  | b :: bounds, n :: counts => (b, add64 cum n) :: cumulate (add64 cum n) bounds counts
  | _, _ => []
  end.

Definition Ratio_Snapshot (d : DeltaRatio) : gmap string HistogramData :=
  (fun c => mkHistogram (rtotal c) (rsum c) (cumulate 0 deltaRatioBounds (rcounts c))) <$> rcells d.

(** ** Which records are compared *)

Definition comparable (iface : string) (r : Record_) : bool :=
  Present (NF r) && Present (Zen r) && negb (WindowPartial (rRepairs r)) && str_eq (interfaceLabel r) iface.

Definition bucket_of (r : Record_) : nat :=
  bucketOf (ratioOf (Counters_Bytes (NF r)) (Counters_Bytes (Zen r))).

(** How many compared records of an interface fell at or below bucket [i]. *)
Definition at_or_below (iface : string) (i : nat) (rs : list Record_) : Z :=
  lsum (fun r => if comparable iface r && (bucket_of r <=? i)%nat then 1 else 0) rs.

Definition compared (iface : string) (rs : list Record_) : Z :=
  lsum (fun r => if comparable iface r then 1 else 0) rs.

Definition in_bucket (iface : string) (i : nat) (rs : list Record_) : Z :=
  lsum (fun r => if comparable iface r && (bucket_of r =? i)%nat then 1 else 0) rs.

Lemma bucket_from_le ratio bounds i : (i <= bucket_from ratio bounds i <= i + length bounds)%nat.
Proof.
  revert i. induction bounds as [|b bounds IH]; intros i; cbn; [lia|].
  destruct (SFleb ratio b); [lia|]. specialize (IH (S i)). lia.
Qed.

Lemma bucketOf_le ratio : (bucketOf ratio <= length deltaRatioBounds)%nat.
Proof. apply (bucket_from_le ratio deltaRatioBounds 0). Qed.

(** What a cell holds after a history. *)
Record cell_ok (iface : string) (rs : list Record_) (c : ratioCell) : Prop := {
  rc_len : length (rcounts c) = S (length deltaRatioBounds);
  rc_counts : forall i n, rcounts c !! i = Some n -> n ==64 in_bucket iface i rs;
  rc_total : rtotal c ==64 compared iface rs }.

Definition ratio_ok (rs : list Record_) (d : DeltaRatio) : Prop :=
  forall iface, cell_ok iface rs (default newCell (rcells d !! iface)).

Lemma ratio_new : ratio_ok [] NewDeltaRatio.
Proof.
  intros iface. cbn [NewDeltaRatio rcells]. rewrite lookup_empty. cbn [default from_option].
  split; [done| |done]. intros i n Hi. apply lookup_replicate in Hi as [-> _]. done.
Qed.

Lemma cell_ok_other iface rs r c :
  comparable iface r = false -> cell_ok iface rs c -> cell_ok iface (rs ++ [r]) c.
Proof.
  intros E [Hl Hc Ht]. split; [done|..].
  - intros i n Hi. unfold in_bucket. rewrite lsum_app, lsum_cons, E. cbn. rewrite Z.add_0_r. by apply Hc.
  - unfold compared. rewrite lsum_app, lsum_cons, E. cbn. by rewrite Z.add_0_r.
Qed.

Lemma Ratio_Observe_ok rs d r : ratio_ok rs d -> ratio_ok (rs ++ [r]) (Ratio_Observe d r).
Proof.
  intros Hd iface. specialize (Hd iface) as Hi. unfold Ratio_Observe.
  destruct (Present (NF r)) eqn:E1, (Present (Zen r)) eqn:E2, (WindowPartial (rRepairs r)) eqn:E3; cbn [negb orb];
    try (apply cell_ok_other; [unfold comparable; by rewrite E1, E2, ?E3|exact Hi]).
  cbn [update rcells]. destruct (decide (interfaceLabel r = iface)) as [<-|Hne].
  2: { rewrite lookup_insert_ne by done. apply cell_ok_other; [|exact Hi].
       unfold comparable. rewrite E1, E2, E3. cbn. by apply String.eqb_neq. }
  rewrite lookup_insert_eq. cbn [default from_option id].
  assert (comparable (interfaceLabel r) r = true) as Ec.
  { unfold comparable. rewrite E1, E2, E3. cbn. by apply String.eqb_eq. }
  destruct Hi as [Hl Hc Ht]. split; cbn [update rcounts rtotal].
  - by rewrite length_alter.
  - intros i n. unfold in_bucket. rewrite lsum_app, lsum_cons, Ec. cbn [andb lsum foldr].
    fold (bucket_of r). destruct (decide (bucket_of r = i)) as [<-|Hb].
    + rewrite list_lookup_alter_eq. intros (m & Hm & ->)%fmap_Some.
      rewrite Nat.eqb_refl, add64_eq64. by rewrite (Hc _ _ Hm).
    + rewrite list_lookup_alter_ne by done. intros Hn. rewrite (proj2 (Nat.eqb_neq _ _) Hb), !Z.add_0_r.
      by apply Hc.
  - unfold compared. rewrite lsum_app, lsum_cons, Ec. cbn. by rewrite add64_eq64, Ht.
Qed.

Lemma ratio_run rs : ratio_ok rs (observe_all NewDeltaRatio rs).
Proof.
  induction rs as [|r rs IH] using rev_ind; [apply ratio_new|].
  rewrite observe_all_app. by apply Ratio_Observe_ok.
Qed.

Lemma at_or_below_S iface i rs : at_or_below iface (S i) rs = at_or_below iface i rs + in_bucket iface (S i) rs.
Proof.
  unfold at_or_below, in_bucket. rewrite <- lsum_add. apply lsum_ext. intros r _.
  destruct (comparable iface r); cbn [andb]; [|done].
  destruct (Nat.leb_spec (bucket_of r) (S i)), (Nat.leb_spec (bucket_of r) i),
    (Nat.eqb_spec (bucket_of r) (S i)); lia.
Qed.

Lemma at_or_below_0 iface rs : at_or_below iface 0 rs = in_bucket iface 0 rs.
Proof.
  apply lsum_ext. intros r _. destruct (comparable iface r); cbn [andb]; [|done].
  destruct (Nat.leb_spec (bucket_of r) 0), (Nat.eqb_spec (bucket_of r) 0); lia.
Qed.

(** The running sum of [cumulate] from bucket [i] on. *)
Lemma cumulate_spec iface rs bounds counts cum i j b n :
  (forall k m, counts !! k = Some m -> m ==64 in_bucket iface (i + k) rs) ->
  cum + in_bucket iface i rs ==64 at_or_below iface i rs ->
  cumulate cum bounds counts !! j = Some (b, n) ->
  bounds !! j = Some b /\ is_u64 n /\ n ==64 at_or_below iface (i + j) rs.
Proof.
  revert counts cum i j. induction bounds as [|b0 bounds IH]; intros [|m counts] cum i j Hc Hcum; try done.
  assert (add64 cum m ==64 at_or_below iface i rs) as Hi.
  { rewrite add64_eq64, (Hc 0%nat m eq_refl), Nat.add_0_r. exact Hcum. }
  destruct j as [|j]; cbn [cumulate].
  - intros [= <- <-]. rewrite Nat.add_0_r. split; [done|]. split; [apply u64_range|exact Hi].
  - intros Hj. rewrite Nat.add_succ_r, <- Nat.add_succ_l. apply (IH counts (add64 cum m)); [| |exact Hj].
    + intros k x Hk. rewrite Nat.add_succ_l, <- Nat.add_succ_r. by apply (Hc (S k)).
    + by rewrite at_or_below_S, Hi.
Qed.

(** The histogram of every interface counts exactly the merged records it
    compared: the count at each bound is the number of records that fell at or below
    it, the total is the number of all of them (as uint64 counters), whatever the
    interleaving across interfaces. *)
Theorem ratio_exact rs iface h :
  Ratio_Snapshot (observe_all NewDeltaRatio rs) !! iface = Some h ->
  Count h ==64 compared iface rs /\
  forall j b n, Buckets h !! j = Some (b, n) ->
    deltaRatioBounds !! j = Some b /\ n ==64 at_or_below iface j rs.
Proof.
  unfold Ratio_Snapshot. rewrite lookup_fmap_Some. intros (c & <- & Ec).
  pose proof (ratio_run rs iface) as [Hl Hc Ht]. rewrite Ec in Hl, Hc, Ht. cbn in Hl, Hc, Ht.
  cbn [Count Buckets]. split; [exact Ht|]. intros j b n Hj.
  destruct (cumulate_spec iface rs deltaRatioBounds (rcounts c) 0 0 j b n) as (H1 & _ & H3); [| |done|done].
  - intros k m. apply Hc.
  - by rewrite at_or_below_0.
Qed.

(** A Zenarmor side without a single byte lands in the overflow bucket, above every
    finite bound. *)
Lemma ratio_blind nf : bucketOf (ratioOf nf 0) = length deltaRatioBounds.
Proof. vm_compute. reflexivity. Qed.

(** Two merged records of one interface: agreement, and a Zenarmor side without bytes. *)
Definition merged_rec (nf zen : Z) : Record_ :=
  zeroRecord <| Out := mkIface "" "lan" 1 false false |> <| NF := mkCounters nf 0 1 0 true |>
    <| Zen := mkCounters zen 0 1 0 true |>.

Definition sample_merged : list Record_ := [merged_rec 1000 1000; merged_rec 5 0; merged_rec 104 100].

Lemma ratio_exact_witness :
  match Ratio_Snapshot (observe_all NewDeltaRatio sample_merged) !! "lan" with
  | Some h => map snd (Buckets h) = [0; 1; 2; 2; 2; 2; 2; 2; 2; 2; 2] /\
      Count h ==64 compared "lan" sample_merged /\
      forall j b n, Buckets h !! j = Some (b, n) ->
        deltaRatioBounds !! j = Some b /\ n ==64 at_or_below "lan" j sample_merged
  | None => False
  end.
Proof.
  destruct (Ratio_Snapshot (observe_all NewDeltaRatio sample_merged) !! "lan") as [h|] eqn:E.
  - split; [|apply (ratio_exact sample_merged "lan" h E)].
    vm_compute in E. injection E as <-. reflexivity.
  - vm_compute in E. discriminate E.
Defined.

End Ratio.
