(* ===== verification/Tables.v ===== *)
(** * The packet filter's state table ([routetable.go], [nattable.go])

    Two immutable tables built from the same polled rows: which device a pre-NAT
    tuple was routed out of, and which conversation a post-NAT tuple belongs to.
    Both carry entries of the previous build forward for a bounded time. *)

From stdpp Require Import base decidable list gmap sets strings.
From Stdlib Require Import ZArith Lia.
From S2P Require Import Prelude Netip.

Module Tables.

Record StateRow := mkRow {
  sProto : string; sDirection : string; sSrcAddr : string; sSrcPort : string;
  sDstAddr : string; sDstPort : string; RouteToDevice : string; NatAddr : string; NatPort : string }.

Record routeKey := mkRouteKey {
  kproto : Z; ksrc : Addr; kdst : Addr; ksport : Z; kdport : Z }.
#[export] Instance routeKey_eq_dec : EqDecision routeKey.
Proof. solve_decision. Defined.
#[export] Instance routeKey_countable : Countable routeKey.
Proof.
  refine (inj_countable' (fun k => (kproto k, ksrc k, kdst k, ksport k, kdport k))
            (fun '(a, b, c, d, e) => mkRouteKey a b c d e) _). by intros [].
Defined.

(** [protoNumbers]. *)
Definition protoNumbers (p : string) : option Z :=
  let table := [("icmp", 1); ("igmp", 2); ("ipencap", 4); ("tcp", 6); ("udp", 17); ("gre", 47);
                ("esp", 50); ("ah", 51); ("ipv6-icmp", 58); ("icmpv6", 58); ("ospf", 89);
                ("sctp", 132)] in
  snd <$> find (fun e => str_eq (fst e) p) table.

Definition parseTuple (proto : Z) (srcAddr srcPort dstAddr dstPort : string) : option routeKey :=
  src ← ParseAddr srcAddr;
  dst ← ParseAddr dstAddr;
  sport ← ParseUint16 srcPort;
  dport ← ParseUint16 dstPort;
  Some (mkRouteKey proto (Unmap src) (Unmap dst) sport dport).

Definition keyOfState (row : StateRow) : option routeKey :=
  proto ← protoNumbers (sProto row);
  parseTuple proto (sSrcAddr row) (sSrcPort row) (sDstAddr row) (sDstPort row).

Definition reverseKey (k : routeKey) : routeKey :=
  mkRouteKey (kproto k) (kdst k) (ksrc k) (kdport k) (ksport k).

(** ** Routes *)

Record routeEntry := mkRouteEntry { device : string; lastSeen : Time }.

Record RouteTableStats := mkRouteStats {
  rEntries : Z; PolicyRouted : Z; rSkipped : Z; rConflicts : Z; rCarried : Z }.
#[export] Instance eta_RouteTableStats : Eta RouteTableStats := fun s =>
  mkRouteStats (rEntries s) (PolicyRouted s) (rSkipped s) (rConflicts s) (rCarried s).

Record RouteTable := mkRouteTable { byTuple : gmap routeKey routeEntry; rbuilt : Time; rstats : RouteTableStats }.
#[export] Instance eta_RouteTable : Eta RouteTable := fun t => mkRouteTable (byTuple t) (rbuilt t) (rstats t).

Definition policy_routed (dev : string) (s : RouteTableStats) : RouteTableStats :=
  if str_empty dev then s else s <| PolicyRouted ::= fun n => n + 1 |>.

(** One row of the fresh pass. *)
Definition route_row (built : Time) (t : RouteTable) (row : StateRow) : RouteTable :=
  if negb (str_eq (sDirection row) "in") then t
  else match keyOfState row with
       | None => t <| rstats ::= fun s => s <| rSkipped ::= fun n => n + 1 |> |>
       | Some key =>
           match byTuple t !! key with
           | Some _ => t <| rstats ::= fun s => s <| rConflicts ::= fun n => n + 1 |> |>
           | None => t <| byTuple ::= <[key := mkRouteEntry (RouteToDevice row) built]> |>
                       <| rstats ::= policy_routed (RouteToDevice row) |>
           end
       end.

(** One entry of the carrying pass. *)
Definition route_carry (built : Time) (retain : Duration) (t : RouteTable) (kp : routeKey * routeEntry)
  : RouteTable :=
  let '(key, prev) := kp in
  match byTuple t !! key with
  | Some _ => t
  | None =>
      if retain <? time_Sub built (lastSeen prev) then t
      else t <| byTuple ::= <[key := prev]> |>
             <| rstats ::= fun s => policy_routed (device prev) (s <| rCarried ::= fun n => n + 1 |>) |>
  end.

(** [BuildRouteTable]; Go ranges over the previous map in some order, which does not
    matter ([route_carry_lookup]). *)
Definition BuildRouteTable (rows : list StateRow) (built : Time) (previous : option RouteTable)
    (retain : Duration) : RouteTable :=
  let t := mkRouteTable ∅ built (mkRouteStats 0 0 0 0 0) in
  let t := fold_left (route_row built) rows t in
  let t := match previous with
           | Some p => if 0 <? retain then fold_left (route_carry built retain) (map_to_list (byTuple p)) t
                       else t
           | None => t
           end in
  t <| rstats ::= fun s => s <| rEntries := zsize (byTuple t) |> |>.

(** [Egress]: [None] is "no state is answerable", [Some ""] "the FIB decided". *)
Definition Egress (ot : option RouteTable) (proto : Z) (src : Addr) (sport : Z) (dst : Addr) (dport : Z)
  : option string :=
  match ot with
  | None => None
  | Some t => device <$> (byTuple t !! mkRouteKey proto (Unmap src) (Unmap dst) sport dport)
  end.

Definition RouteTable_Stats (ot : option RouteTable) : RouteTableStats :=
  match ot with None => mkRouteStats 0 0 0 0 0 | Some t => rstats t end.

Definition RouteTable_Age (ot : option RouteTable) (now : Time) : Duration :=
  match ot with
  | None => 0
  | Some t => if IsZero (rbuilt t) then 0
              else let d := time_Sub now (rbuilt t) in if 0 <? d then d else 0
  end.

(** ** Translations *)

Record natEntry := mkNatEntry { canon : routeKey; nlastSeen : Time }.

Record NATTableStats := mkNatStats { nEntries : Z; nSkipped : Z; nConflicts : Z; nCarried : Z }.
#[export] Instance eta_NATTableStats : Eta NATTableStats := fun s =>
  mkNatStats (nEntries s) (nSkipped s) (nConflicts s) (nCarried s).

Record NATTable := mkNATTable {
  byPost : gmap routeKey natEntry; byPre : gset routeKey; nbuilt : Time; nstats : NATTableStats }.
#[export] Instance eta_NATTable : Eta NATTable := fun t =>
  mkNATTable (byPost t) (byPre t) (nbuilt t) (nstats t).

(** [NATTable.put]: first writer wins. *)
Definition nat_put (post pre : routeKey) (at_ : Time) (t : NATTable) : NATTable :=
  match byPost t !! post with
  | Some e => if decide (canon e = pre) then t
              else t <| nstats ::= fun s => s <| nConflicts ::= fun n => n + 1 |> |>
  | None => t <| byPost ::= <[post := mkNatEntry pre at_]> |> <| byPre ::= fun s => {[pre]} ∪ s |>
  end.

(** The translation a row states, if it states one. *)
Inductive row_kind := RowIrrelevant | RowUnkeyed | RowTranslates (post pre : routeKey).

Definition read_row (row : StateRow) : row_kind :=
  if negb (str_eq (sDirection row) "out") || str_empty (NatAddr row) || str_empty (NatPort row)
  then RowIrrelevant
  else match protoNumbers (sProto row) with
       | None => RowUnkeyed
       | Some proto =>
           match parseTuple proto (sSrcAddr row) (sSrcPort row) (sDstAddr row) (sDstPort row) with
           | None => RowUnkeyed
           | Some post =>
               match parseTuple proto (NatAddr row) (NatPort row) (sDstAddr row) (sDstPort row) with
               | None => RowUnkeyed
               | Some pre => if decide (post = pre) then RowIrrelevant else RowTranslates post pre
               end
           end
       end.

Definition nat_row (built : Time) (t : NATTable) (row : StateRow) : NATTable :=
  match read_row row with
  | RowIrrelevant => t
  | RowUnkeyed => t <| nstats ::= fun s => s <| nSkipped ::= fun n => n + 1 |> |>
  | RowTranslates post pre =>
      nat_put (reverseKey post) (reverseKey pre) built (nat_put post pre built t)
  end.

Definition nat_carry (built : Time) (retain : Duration) (t : NATTable) (kp : routeKey * natEntry) : NATTable :=
  let '(key, prev) := kp in
  match byPost t !! key with
  | Some _ => t
  | None =>
      if retain <? time_Sub built (nlastSeen prev) then t
      else t <| byPost ::= <[key := prev]> |> <| byPre ::= fun s => {[canon prev]} ∪ s |>
             <| nstats ::= fun s => s <| nCarried ::= fun n => n + 1 |> |>
  end.

Definition BuildNATTable (rows : list StateRow) (built : Time) (previous : option NATTable)
    (retain : Duration) : NATTable :=
  let t := mkNATTable ∅ ∅ built (mkNatStats 0 0 0 0) in
  let t := fold_left (nat_row built) rows t in
  let t := match previous with
           | Some p => if 0 <? retain then fold_left (nat_carry built retain) (map_to_list (byPost p)) t
                       else t
           | None => t
           end in
  t <| nstats ::= fun s => s <| nEntries := zsize (byPost t) |> |>.

Definition IsTranslatedPre (ot : option NATTable) (pre : routeKey) : bool :=
  match ot with
  | None => false
  | Some t => bool_decide (pre ∈ byPre t)
  end.

Definition Canonical (ot : option NATTable) (post : routeKey) : option routeKey :=
  match ot with
  | None => None
  | Some t => canon <$> (byPost t !! post)
  end.

Definition NATTable_Stats (ot : option NATTable) : NATTableStats :=
  match ot with None => mkNatStats 0 0 0 0 | Some t => nstats t end.

Definition NATTable_Age (ot : option NATTable) (now : Time) : Duration :=
  match ot with
  | None => 0
  | Some t => if IsZero (nbuilt t) then 0 else time_Sub now (nbuilt t)
  end.

(** ** Specifications *)

(** The first row of a poll that keys to [k]. *)
Definition fresh_route (k : routeKey) (rows : list StateRow) : option StateRow :=
  find (fun row => str_eq (sDirection row) "in" && bool_decide (keyOfState row = Some k)) rows.

(** The answer [BuildRouteTable] promises for a tuple. *)
Definition route_answer (rows : list StateRow) (built : Time) (previous : option RouteTable)
    (retain : Duration) (k : routeKey) : option routeEntry :=
  match fresh_route k rows with
  | Some row => Some (mkRouteEntry (RouteToDevice row) built)
  | None =>
      p ← previous;
      e ← byTuple p !! k;
      if (0 <? retain) && (time_Sub built (lastSeen e) <=? retain) then Some e else None
  end.

(** A history of polls, newest first; every build supersedes the previous one. *)
Record poll := mkPoll { prows : list StateRow; ptime : Time }.

Fixpoint route_polls (retain : Duration) (polls : list poll) : option RouteTable :=
  match polls with
  | [] => None
  | p :: earlier => Some (BuildRouteTable (prows p) (ptime p) (route_polls retain earlier) retain)
  end.

Fixpoint nat_polls (retain : Duration) (polls : list poll) : option NATTable :=
  match polls with
  | [] => None
  | p :: earlier => Some (BuildNATTable (prows p) (ptime p) (nat_polls retain earlier) retain)
  end.

(** The polls happen in order. *)
Fixpoint in_order (polls : list poll) : Prop :=
  match polls with
  | [] => True
  | p :: earlier => Forall (fun q => ptime q <= ptime p) earlier /\ in_order earlier
  end.

(** The newest poll that says something, and what it says. *)
Fixpoint last_said {A} (says : list StateRow -> option A) (polls : list poll) : option (Time * A) :=
  match polls with
  | [] => None
  | p :: earlier =>
      match says (prows p) with
      | Some a => Some (ptime p, a)
      | None => last_said says earlier
      end
  end.

(** ... if that was at most [retain] before the newest poll. *)
Definition remembered {A} (retain : Duration) (says : list StateRow -> option A) (polls : list poll)
  : option (Time * A) :=
  p ← head polls;
  '(at_, a) ← last_said says polls;
  if time_Sub (ptime p) at_ <=? retain then Some (at_, a) else None.

(** The translations a poll states, both directions, in the order they are written. *)
Definition stated (rows : list StateRow) : list (routeKey * routeKey) :=
  flat_map (fun row => match read_row row with
                       | RowTranslates post pre => [(post, pre); (reverseKey post, reverseKey pre)]
                       | _ => []
                       end) rows.

(** What a poll says a post-NAT tuple is: its first statement about it. *)
Definition fresh_nat (post : routeKey) (rows : list StateRow) : option routeKey :=
  snd <$> find (fun w => bool_decide (fst w = post)) (stated rows).

Definition policy_count (m : gmap routeKey routeEntry) : Z :=
  msum (fun _ e => if str_empty (device e) then 0 else 1) m.

(** ** The route table *)

Definition in_rows (rows : list StateRow) : Z :=
  lsum (fun row => if str_eq (sDirection row) "in" then 1 else 0) rows.

(** The account every pass keeps. *)
Record route_ok (seen : Z) (t : RouteTable) : Prop := {
  ro_policy : PolicyRouted (rstats t) = policy_count (byTuple t);
  ro_rows : zsize (byTuple t) - rCarried (rstats t) + rConflicts (rstats t) + rSkipped (rstats t) = seen }.

Lemma policy_routed_count dev s n :
  PolicyRouted s = n -> PolicyRouted (policy_routed dev s) = (if str_empty dev then 0 else 1) + n.
Proof. unfold policy_routed. intros <-. destruct (str_empty dev); cbn; lia. Qed.

Lemma policy_routed_rest dev s :
  rSkipped (policy_routed dev s) = rSkipped s /\ rConflicts (policy_routed dev s) = rConflicts s
  /\ rCarried (policy_routed dev s) = rCarried s.
Proof. unfold policy_routed. by destruct (str_empty dev). Qed.

Lemma fresh_route_cons k row rows :
  fresh_route k (row :: rows) =
  if str_eq (sDirection row) "in" && bool_decide (keyOfState row = Some k) then Some row
  else fresh_route k rows.
Proof. done. Qed.

Lemma route_rows_lookup built rows t k :
  byTuple (fold_left (route_row built) rows t) !! k
  = match byTuple t !! k with
    | Some e => Some e
    | None => (fun row => mkRouteEntry (RouteToDevice row) built) <$> fresh_route k rows
    end.
Proof.
  revert t. induction rows as [|row rows IH]; intros t; [cbn; by destruct (byTuple t !! k)|].
  cbn [fold_left]. rewrite IH, fresh_route_cons. unfold route_row.
  destruct (str_eq (sDirection row) "in"); cbn [negb andb]; [|done].
  destruct (keyOfState row) as [key|] eqn:Ek; [|by rewrite bool_decide_eq_false_2].
  destruct (byTuple t !! key) as [e|] eqn:E; cbn.
  - case_bool_decide as Hk; [|done]. injection Hk as ->. by rewrite E.
  - case_bool_decide as Hk; [injection Hk as ->|].
    + by rewrite lookup_insert_eq, E.
    + rewrite lookup_insert_ne; [done|]. congruence.
Qed.

Lemma route_rows_ok built rows t n :
  route_ok n t -> route_ok (n + in_rows rows) (fold_left (route_row built) rows t).
Proof.
  revert t n. induction rows as [|row rows IH]; intros t n Ht; [cbn; by rewrite Z.add_0_r|].
  cbn [fold_left]. unfold in_rows. rewrite lsum_cons, Z.add_assoc. apply IH. unfold route_row.
  destruct (str_eq (sDirection row) "in"); cbn [negb]; [|by rewrite Z.add_0_r].
  destruct Ht as [Hp Hr]. destruct (keyOfState row) as [key|]; [|split; cbn; [done|lia]].
  destruct (byTuple t !! key) as [e|] eqn:E; [split; cbn; [done|lia]|].
  destruct (policy_routed_rest (RouteToDevice row) (rstats t)) as (E1 & E2 & E3).
  split; cbn [update byTuple rstats].
  - unfold policy_count. rewrite msum_insert_None by done. by apply policy_routed_count.
  - rewrite E1, E2, E3, zsize_insert_None by done. lia.
Qed.

Lemma route_carry_lookup built retain l t :
  NoDup (map fst l) ->
  forall k e, byTuple (fold_left (route_carry built retain) l t) !! k = Some e <->
    byTuple t !! k = Some e \/
    byTuple t !! k = None /\ (k, e) ∈ l /\ time_Sub built (lastSeen e) <= retain.
Proof.
  revert t. induction l as [|[k0 e0] l IH]; intros t Hnd k e.
  { cbn. split; [by left|]. intros [?|(_ & ? & _)]; [done|set_solver]. }
  cbn [map fst] in Hnd. apply NoDup_cons in Hnd as [Hk0 Hnd]. cbn [fold_left]. rewrite (IH _ Hnd).
  assert (forall x, (k0, x) ∉ l) as Hnot.
  { intros x Hx. apply Hk0, list_elem_of_fmap. by exists (k0, x). }
  unfold route_carry. destruct (byTuple t !! k0) as [e1|] eqn:E0.
  { setoid_rewrite elem_of_cons. split; [naive_solver|].
    intros [?|(? & [[= -> ->]|?] & ?)]; [by left|congruence|by right]. }
  destruct (retain <? time_Sub built (lastSeen e0)) eqn:Ea; bool_prop.
  { setoid_rewrite elem_of_cons. split; [naive_solver|].
    intros [?|(? & [[= -> ->]|?] & ?)]; [by left|lia|by right]. }
  cbn [update byTuple]. rewrite elem_of_cons. destruct (decide (k = k0)) as [->|Hne].
  - rewrite lookup_insert_eq. split.
    + intros [[= <-]|[? _]]; [by right; auto|done].
    + intros [?|(_ & [[= <-]|Hin] & _)]; [congruence|by left|]. by apply Hnot in Hin.
  - rewrite lookup_insert_ne by done. split; [tauto|]. intros [?|(? & [[=]|?] & ?)]; [by left|done|by right].
Qed.

Lemma route_carry_ok built retain l t n :
  route_ok n t -> route_ok n (fold_left (route_carry built retain) l t).
Proof.
  revert t. induction l as [|[k e] l IH]; intros t Ht; [done|]. cbn [fold_left]. apply IH. unfold route_carry.
  destruct (byTuple t !! k) as [e1|] eqn:E; [done|]. destruct (retain <? _); [done|].
  destruct Ht as [Hp Hr].
  destruct (policy_routed_rest (device e) (rstats t <| rCarried ::= fun n => n + 1 |>)) as (E1 & E2 & E3).
  split; cbn [update byTuple rstats].
  - unfold policy_count. rewrite msum_insert_None by done. by apply policy_routed_count.
  - rewrite E1, E2, E3, zsize_insert_None by done. cbn. lia.
Qed.

Lemma BuildRouteTable_byTuple rows built previous retain :
  byTuple (BuildRouteTable rows built previous retain)
  = byTuple (match previous with
             | Some p => if 0 <? retain
                         then fold_left (route_carry built retain) (map_to_list (byTuple p))
                                (fold_left (route_row built) rows (mkRouteTable ∅ built (mkRouteStats 0 0 0 0 0)))
                         else fold_left (route_row built) rows (mkRouteTable ∅ built (mkRouteStats 0 0 0 0 0))
             | None => fold_left (route_row built) rows (mkRouteTable ∅ built (mkRouteStats 0 0 0 0 0))
             end).
Proof. done. Qed.

Lemma route_lookup rows built previous retain k :
  byTuple (BuildRouteTable rows built previous retain) !! k = route_answer rows built previous retain k.
Proof.
  rewrite BuildRouteTable_byTuple. unfold route_answer.
  set (t0 := fold_left (route_row built) rows _).
  assert (byTuple t0 !! k = (fun row => mkRouteEntry (RouteToDevice row) built) <$> fresh_route k rows) as H0.
  { unfold t0. rewrite route_rows_lookup. cbn. by rewrite lookup_empty. }
  destruct previous as [p|]; [|rewrite H0; by destruct (fresh_route k rows)]. cbn [mbind option_bind].
  destruct (0 <? retain) eqn:Er; cbn [andb].
  2: { rewrite H0. destruct (fresh_route k rows); [done|]. by destruct (byTuple p !! k). }
  apply option_eq. intros e. rewrite route_carry_lookup by apply NoDup_fst_map_to_list.
  rewrite H0, elem_of_map_to_list. destruct (fresh_route k rows) as [row|]; cbn.
  { split; [|by left]. intros [?|[? _]]; done. }
  destruct (byTuple p !! k) as [e'|] eqn:Ep; cbn.
  - destruct (Z.leb_spec (time_Sub built (lastSeen e')) retain).
    + split; [intros [?|(_ & ? & _)]; congruence|]. intros [= <-]. by right.
    + split; [intros [?|(_ & [= <-] & ?)]; [done|lia]|done].
  - split; [intros [?|(_ & ? & _)]; done|done].
Qed.

Lemma route_stats_ok rows built previous retain :
  let t := BuildRouteTable rows built previous retain in
  route_ok (in_rows rows) t /\ rEntries (rstats t) = zsize (byTuple t).
Proof.
  assert (route_ok (in_rows rows)
            (fold_left (route_row built) rows (mkRouteTable ∅ built (mkRouteStats 0 0 0 0 0)))) as H0.
  { apply (route_rows_ok built rows _ 0). split; [|done]. symmetry. apply msum_empty. }
  unfold BuildRouteTable. split; [|done].
  destruct previous as [p|]; [destruct (0 <? retain)|].
  - destruct (route_carry_ok built retain (map_to_list (byTuple p)) _ _ H0). by split.
  - destruct H0. by split.
  - destruct H0. by split.
Qed.

(** ** The translation table *)

(** A key and its reverse: the two directions of a conversation. *)
Lemma reverse_involutive k : reverseKey (reverseKey k) = k.
Proof. by destruct k. Qed.

Lemma reverse_inj a b : reverseKey a = reverseKey b -> a = b.
Proof. intros H. by rewrite <- (reverse_involutive a), H, reverse_involutive. Qed.

(** [byPre] is the set of pre-NAT tuples the table answers with. *)
Definition image_ok (t : NATTable) : Prop :=
  forall pre, pre ∈ byPre t <-> exists post e, byPost t !! post = Some e /\ canon e = pre.

(** Adding an absent key keeps the image. *)
Lemma image_insert t post e t' :
  byPost t !! post = None -> byPost t' = <[post := e]> (byPost t) -> byPre t' = {[canon e]} ∪ byPre t ->
  image_ok t -> image_ok t'.
Proof.
  intros E Hp Hq Hi pre. rewrite Hp, Hq, elem_of_union, elem_of_singleton, (Hi pre). split.
  - intros [->|(post' & e' & He' & <-)].
    + exists post, e. by rewrite lookup_insert_eq.
    + exists post', e'. rewrite lookup_insert_ne; [done|]. congruence.
  - intros (post' & e' & He' & <-). apply lookup_insert_Some in He' as [[<- <-]|[_ He']]; [by left|].
    right. by exists post', e'.
Qed.

Lemma image_put post pre at_ t : image_ok t -> image_ok (nat_put post pre at_ t).
Proof.
  intros Hi. unfold nat_put. destruct (byPost t !! post) as [e|] eqn:E; [by case_decide|].
  by eapply (image_insert t post (mkNatEntry pre at_)).
Qed.

Lemma put_lookup post pre at_ t k :
  byPost (nat_put post pre at_ t) !! k
  = match byPost t !! k with
    | Some e => Some e
    | None => if decide (k = post) then Some (mkNatEntry pre at_) else None
    end.
Proof.
  unfold nat_put. destruct (byPost t !! post) as [e|] eqn:E.
  - assert (byPost (if decide (canon e = pre) then t
            else t <| nstats ::= fun s => s <| nConflicts ::= fun n => n + 1 |> |>) = byPost t) as ->
      by by case_decide.
    destruct (byPost t !! k) eqn:Ek; [done|]. rewrite decide_False; [done|]. congruence.
  - cbn. destruct (decide (k = post)) as [->|]; [by rewrite lookup_insert_eq, E|].
    rewrite lookup_insert_ne by done. by destruct (byPost t !! k).
Qed.

(** Both directions of a conversation are answered together. *)
Definition sym_ok (t : NATTable) : Prop :=
  forall post e, byPost t !! post = Some e -> reverseKey post <> post ->
    byPost t !! reverseKey post = Some (mkNatEntry (reverseKey (canon e)) (nlastSeen e)).

(** In a symmetric table a key and its reverse are absent together. *)
Lemma sym_None t post :
  sym_ok t -> reverseKey post <> post -> byPost t !! post = None -> byPost t !! reverseKey post = None.
Proof.
  intros Hs Hne E. destruct (byPost t !! reverseKey post) as [e|] eqn:E'; [|done].
  assert (reverseKey (reverseKey post) <> reverseKey post) as Hne' by (rewrite reverse_involutive; congruence).
  pose proof (Hs _ _ E' Hne') as X. rewrite reverse_involutive in X. congruence.
Qed.

(** Both writes of a row, together, keep the symmetry. *)
Lemma sym_put2 post pre at_ t :
  sym_ok t -> sym_ok (nat_put (reverseKey post) (reverseKey pre) at_ (nat_put post pre at_ t)).
Proof.
  intros Hs k e. rewrite !put_lookup. intros Hk Hne.
  destruct (byPost t !! k) as [x|] eqn:Ek.
  { injection Hk as <-. by rewrite (Hs k x Ek Hne). }
  rewrite (sym_None t k Hs Hne Ek). destruct (decide (k = post)) as [->|Hkp].
  - injection Hk as <-. by rewrite decide_False, decide_True by done.
  - destruct (decide (k = reverseKey post)) as [->|]; [|done]. injection Hk as <-.
    rewrite reverse_involutive, decide_True by done. cbn. by rewrite reverse_involutive.
Qed.

Lemma nat_row_ok built t row :
  image_ok t /\ sym_ok t -> image_ok (nat_row built t row) /\ sym_ok (nat_row built t row).
Proof.
  intros [Hi Hs]. unfold nat_row. destruct (read_row row) as [| |post pre]; [done|done|].
  split; [by apply image_put, image_put|by apply sym_put2].
Qed.

Lemma nat_rows_ok built rows t :
  image_ok t /\ sym_ok t ->
  image_ok (fold_left (nat_row built) rows t) /\ sym_ok (fold_left (nat_row built) rows t).
Proof.
  revert t. induction rows as [|row rows IH]; intros t Ht; [done|]. by apply IH, nat_row_ok.
Qed.

Lemma nat_carry_image built retain l t :
  image_ok t -> image_ok (fold_left (nat_carry built retain) l t).
Proof.
  revert t. induction l as [|[k e] l IH]; intros t Ht; [done|]. cbn [fold_left]. apply IH. unfold nat_carry.
  destruct (byPost t !! k) eqn:E; [done|]. destruct (retain <? _); [done|]. by eapply (image_insert t k e).
Qed.

Lemma nat_carry_lookup built retain l t :
  NoDup (map fst l) ->
  forall k e, byPost (fold_left (nat_carry built retain) l t) !! k = Some e <->
    byPost t !! k = Some e \/
    byPost t !! k = None /\ (k, e) ∈ l /\ time_Sub built (nlastSeen e) <= retain.
Proof.
  revert t. induction l as [|[k0 e0] l IH]; intros t Hnd k e.
  { cbn. split; [by left|]. intros [?|(_ & ? & _)]; [done|set_solver]. }
  cbn [map fst] in Hnd. apply NoDup_cons in Hnd as [Hk0 Hnd]. cbn [fold_left]. rewrite (IH _ Hnd).
  assert (forall x, (k0, x) ∉ l) as Hnot.
  { intros x Hx. apply Hk0, list_elem_of_fmap. by exists (k0, x). }
  unfold nat_carry. destruct (byPost t !! k0) as [e1|] eqn:E0.
  { setoid_rewrite elem_of_cons. split; [naive_solver|].
    intros [?|(? & [[= -> ->]|?] & ?)]; [by left|congruence|by right]. }
  destruct (retain <? time_Sub built (nlastSeen e0)) eqn:Ea; bool_prop.
  { setoid_rewrite elem_of_cons. split; [naive_solver|].
    intros [?|(? & [[= -> ->]|?] & ?)]; [by left|lia|by right]. }
  cbn [update byPost]. rewrite elem_of_cons. destruct (decide (k = k0)) as [->|Hne].
  - rewrite lookup_insert_eq. split.
    + intros [[= <-]|[? _]]; [by right; auto|done].
    + intros [?|(_ & [[= <-]|Hin] & _)]; [congruence|by left|]. by apply Hnot in Hin.
  - rewrite lookup_insert_ne by done. split; [tauto|]. intros [?|(? & [[=]|?] & ?)]; [by left|done|by right].
Qed.

Lemma nat_carry_sym built retain p t :
  sym_ok p -> sym_ok t -> sym_ok (fold_left (nat_carry built retain) (map_to_list (byPost p)) t).
Proof.
  intros Hp Ht k e. rewrite !nat_carry_lookup by apply NoDup_fst_map_to_list.
  rewrite !elem_of_map_to_list. intros [Hk|(Hk & Hin & Ha)] Hne; [left; by apply Ht|].
  right. split; [by apply sym_None|]. split; [by apply Hp|done].
Qed.

Lemma nat_row_lookup built t row k :
  byPost (nat_row built t row) !! k
  = match byPost t !! k with
    | Some e => Some e
    | None => (fun pre => mkNatEntry pre built) <$> fresh_nat k [row]
    end.
Proof.
  unfold nat_row, fresh_nat, stated. cbn [flat_map]. rewrite app_nil_r.
  destruct (read_row row) as [| |post pre]; [cbn; by destruct (byPost t !! k)..|].
  rewrite !put_lookup. destruct (byPost t !! k); [done|]. cbn [find fst].
  destruct (decide (k = post)) as [->|]; [by rewrite bool_decide_eq_true_2|].
  rewrite bool_decide_eq_false_2 by congruence.
  destruct (decide (k = reverseKey post)) as [->|]; [by rewrite bool_decide_eq_true_2|].
  by rewrite bool_decide_eq_false_2 by congruence.
Qed.

Lemma fresh_nat_cons k row rows :
  fresh_nat k (row :: rows) = match fresh_nat k [row] with Some pre => Some pre | None => fresh_nat k rows end.
Proof.
  unfold fresh_nat, stated. cbn [flat_map]. rewrite app_nil_r.
  generalize (flat_map (fun row => match read_row row with
                       | RowTranslates post pre => [(post, pre); (reverseKey post, reverseKey pre)]
                       | _ => []
                       end) rows) as rest.
  intros rest. destruct (read_row row) as [| |post pre]; [done..|]. cbn.
  case_bool_decide; [done|]. by case_bool_decide.
Qed.

Lemma nat_rows_lookup built rows t k :
  byPost (fold_left (nat_row built) rows t) !! k
  = match byPost t !! k with
    | Some e => Some e
    | None => (fun pre => mkNatEntry pre built) <$> fresh_nat k rows
    end.
Proof.
  revert t. induction rows as [|row rows IH]; intros t; [cbn; by destruct (byPost t !! k)|].
  cbn [fold_left]. rewrite IH, nat_row_lookup, (fresh_nat_cons k row rows).
  destruct (byPost t !! k); [done|]. by destruct (fresh_nat k [row]).
Qed.

(** The answer [BuildNATTable] promises for a tuple. *)
Lemma nat_lookup rows built previous retain k :
  byPost (BuildNATTable rows built previous retain) !! k
  = match fresh_nat k rows with
    | Some pre => Some (mkNatEntry pre built)
    | None =>
        p ← previous;
        e ← byPost p !! k;
        if (0 <? retain) && (time_Sub built (nlastSeen e) <=? retain) then Some e else None
    end.
Proof.
  unfold BuildNATTable. cbn [update byPost]. set (t0 := fold_left (nat_row built) rows _).
  assert (byPost t0 !! k = (fun pre => mkNatEntry pre built) <$> fresh_nat k rows) as H0.
  { unfold t0. rewrite nat_rows_lookup. cbn. by rewrite lookup_empty. }
  destruct previous as [p|]; [|rewrite H0; by destruct (fresh_nat k rows)]. cbn [mbind option_bind].
  destruct (0 <? retain) eqn:Er; cbn [andb].
  2: { rewrite H0. destruct (fresh_nat k rows); [done|]. by destruct (byPost p !! k). }
  apply option_eq. intros e. rewrite nat_carry_lookup by apply NoDup_fst_map_to_list.
  rewrite H0, elem_of_map_to_list. destruct (fresh_nat k rows) as [row|]; cbn.
  { split; [|by left]. intros [?|[? _]]; done. }
  destruct (byPost p !! k) as [e'|] eqn:Ep; cbn.
  - destruct (Z.leb_spec (time_Sub built (nlastSeen e')) retain).
    + split; [intros [?|(_ & ? & _)]; congruence|]. intros [= <-]. by right.
    + split; [intros [?|(_ & [= <-] & ?)]; [done|lia]|done].
  - split; [intros [?|(_ & ? & _)]; done|done].
Qed.

(** ** Histories of polls *)

Lemma time_Sub_mono a a' b : a <= a' -> time_Sub a b <= time_Sub a' b.
Proof. unfold time_Sub. lia. Qed.

(** One more poll: either it speaks, or the memory of the earlier ones is tested
    again against the later time. *)
Lemma remembered_cons {A} retain (says : list StateRow -> option A) p earlier :
  0 <= retain -> in_order (p :: earlier) ->
  remembered retain says (p :: earlier)
  = match says (prows p) with
    | Some a => Some (ptime p, a)
    | None => '(at_, a) ← remembered retain says earlier;
              if time_Sub (ptime p) at_ <=? retain then Some (at_, a) else None
    end.
Proof.
  intros Hr [Hle Ho]. unfold remembered. cbn [head mbind option_bind last_said].
  destruct (says (prows p)) as [a|]; cbn.
  { destruct (Z.leb_spec (time_Sub (ptime p) (ptime p)) retain) as [|H]; [done|].
    rewrite time_Sub_exact in H; unfold minDuration, maxDuration in *; lia. }
  destruct earlier as [|q l]; [done|]. cbn [head mbind option_bind].
  apply Forall_cons in Hle as [Hq _]. destruct (last_said says (q :: l)) as [[at_ a]|]; cbn; [|done].
  pose proof (time_Sub_mono (ptime q) (ptime p) at_ Hq).
  destruct (Z.leb_spec (time_Sub (ptime p) at_) retain), (Z.leb_spec (time_Sub (ptime q) at_) retain);
    cbn; try done; try lia.
  - by rewrite (proj2 (Z.leb_le _ _)) by lia.
  - by rewrite (proj2 (Z.leb_gt _ _)) by lia.
Qed.

Lemma route_polls_lookup retain polls k t :
  0 < retain -> in_order polls -> route_polls retain polls = Some t ->
  byTuple t !! k = (fun '(at_, row) => mkRouteEntry (RouteToDevice row) at_)
                     <$> remembered retain (fresh_route k) polls.
Proof.
  intros Hr. revert t. induction polls as [|p l IH]; intros t Ho Ht; [done|].
  cbn in Ht. injection Ht as <-. rewrite route_lookup. unfold route_answer.
  rewrite remembered_cons by (try done; lia). destruct Ho as [_ Ho].
  destruct (fresh_route k (prows p)); [done|].
  destruct (route_polls retain l) as [t'|] eqn:El; cbn [mbind option_bind].
  - rewrite (IH t' Ho eq_refl). destruct (remembered retain (fresh_route k) l) as [[at_ row]|]; cbn; [|done].
    rewrite (proj2 (Z.ltb_lt _ _) Hr). cbn. by destruct (_ <=? retain).
  - by destruct l.
Qed.

Lemma nat_polls_lookup retain polls k t :
  0 < retain -> in_order polls -> nat_polls retain polls = Some t ->
  byPost t !! k = (fun '(at_, pre) => mkNatEntry pre at_) <$> remembered retain (fresh_nat k) polls.
Proof.
  intros Hr. revert t. induction polls as [|p l IH]; intros t Ho Ht; [done|].
  cbn in Ht. injection Ht as <-. rewrite nat_lookup.
  rewrite remembered_cons by (try done; lia). destruct Ho as [_ Ho].
  destruct (fresh_nat k (prows p)); [done|].
  destruct (nat_polls retain l) as [t'|] eqn:El; cbn [mbind option_bind].
  - rewrite (IH t' Ho eq_refl). destruct (remembered retain (fresh_nat k) l) as [[at_ pre]|]; cbn; [|done].
    rewrite (proj2 (Z.ltb_lt _ _) Hr). cbn. by destruct (_ <=? retain).
  - by destruct l.
Qed.

Lemma nat_polls_ok retain polls t :
  nat_polls retain polls = Some t -> image_ok t /\ sym_ok t.
Proof.
  revert t. induction polls as [|p l IH]; intros t Ht; [done|]. cbn in Ht. injection Ht as <-.
  unfold BuildNATTable.
  destruct (nat_rows_ok (ptime p) (prows p) (mkNATTable ∅ ∅ (ptime p) (mkNatStats 0 0 0 0))) as [Hi Hs].
  { split.
    - intros pre. cbn. split; [set_solver|]. intros (? & ? & H & _). by rewrite lookup_empty in H.
    - intros ? ? H. cbn in H. by rewrite lookup_empty in H. }
  destruct (nat_polls retain l) as [t'|]; [|done]. destruct (IH t' eq_refl) as [_ Hs'].
  destruct (0 <? retain); [|done].
  pose proof (nat_carry_image (ptime p) retain (map_to_list (byPost t')) _ Hi).
  pose proof (nat_carry_sym (ptime p) retain t' _ Hs' Hs). done.
Qed.

(** ** Properties *)

(** The route table refines a memory of pf's answers: after any sequence of
    polls made in order, a tuple is answered for exactly when the newest poll that
    listed it was at most [retain] before the last one, with the device of the first
    row keyed to it there. *)
Theorem route_refines retain polls proto src sport dst dport :
  0 < retain -> in_order polls ->
  Egress (route_polls retain polls) proto src sport dst dport
  = (fun '(_, row) => RouteToDevice row)
      <$> remembered retain (fresh_route (mkRouteKey proto (Unmap src) (Unmap dst) sport dport)) polls.
Proof.
  intros Hr Ho. unfold Egress. destruct (route_polls retain polls) as [t|] eqn:E; [|by destruct polls].
  rewrite (route_polls_lookup _ _ _ _ Hr Ho E). by destruct (remembered _ _ _) as [[??]|].
Qed.

(** The published account of a build is exact: [Entries] counts the tuples,
    [PolicyRouted] those with a device, and every inbound row of the poll is a fresh
    entry, a conflict or a skip. *)
Theorem route_accounting rows built previous retain :
  let t := BuildRouteTable rows built previous retain in
  let s := RouteTable_Stats (Some t) in
  rEntries s = zsize (byTuple t) /\ PolicyRouted s = policy_count (byTuple t)
  /\ (rEntries s - rCarried s) + rConflicts s + rSkipped s = in_rows rows.
Proof.
  destruct (route_stats_ok rows built previous retain) as [[Hp Hr] He]. cbn zeta in *. cbn [RouteTable_Stats].
  split; [done|]. split; [done|]. by rewrite He.
Qed.

(** The translation table refines the same memory: a post-NAT tuple is
    canonicalised to the pre-NAT tuple of the newest poll that stated a translation for
    it, in either direction, if that poll is recent enough, and to nothing otherwise. *)
Theorem nat_refines retain polls post :
  0 < retain -> in_order polls ->
  Canonical (nat_polls retain polls) post = snd <$> remembered retain (fresh_nat post) polls.
Proof.
  intros Hr Ho. unfold Canonical. destruct (nat_polls retain polls) as [t|] eqn:E; [|by destruct polls].
  rewrite (nat_polls_lookup _ _ _ _ Hr Ho E). by destruct (remembered _ _ _) as [[??]|].
Qed.

(** After any sequence of polls both directions of a translated conversation
    are canonicalised together, to the two directions of one pre-NAT conversation, and
    [IsTranslatedPre] accepts exactly the tuples [Canonical] answers with. *)
Theorem nat_symmetric retain polls :
  (forall post pre, Canonical (nat_polls retain polls) post = Some pre -> reverseKey post <> post ->
     Canonical (nat_polls retain polls) (reverseKey post) = Some (reverseKey pre))
  /\ forall pre, IsTranslatedPre (nat_polls retain polls) pre = true <->
       exists post, Canonical (nat_polls retain polls) post = Some pre.
Proof.
  destruct (nat_polls retain polls) as [t|] eqn:E; cbn [Canonical IsTranslatedPre].
  2: { split; [done|]. intros pre. split; [done|]. by intros [? [=]]. }
  destruct (nat_polls_ok _ _ _ E) as [Hi Hs]. split.
  - intros post pre Hp Hne. apply fmap_Some in Hp as (e & He & ->). by rewrite (Hs _ _ He Hne).
  - intros pre. rewrite bool_decide_eq_true, (Hi pre). setoid_rewrite fmap_Some. naive_solver.
Qed.

(** ** Witnesses *)

Definition out_row : StateRow :=
  mkRow "tcp" "out" "203.0.113.9" "40001" "198.51.100.7" "443" "" "10.0.0.5" "51000".
Definition in_row : StateRow :=
  mkRow "tcp" "in" "10.0.0.5" "51000" "198.51.100.7" "443" "pppoe0" "" "".
Definition two_polls : list poll := [mkPoll [] (unix_epoch + 60); mkPoll [in_row; out_row] unix_epoch].

Lemma two_polls_in_order : in_order two_polls.
Proof.
  cbn. split; [|by split; [apply Forall_nil|]]. apply Forall_cons. split; [cbn; lia|by apply Forall_nil].
Qed.

Lemma route_refines_witness :
  0 < 100 /\ in_order two_polls /\
  Egress (route_polls 100 two_polls) 6 (Addr4 0x0A000005) 51000 (Addr4 0xC6336407) 443 = Some "pppoe0"
  /\ Egress (route_polls 100 two_polls) 6 (Addr4 0x0A000005) 51000 (Addr4 0xC6336407) 443
     = (fun '(_, row) => RouteToDevice row)
         <$> remembered 100 (fresh_route (mkRouteKey 6 (Unmap (Addr4 0x0A000005)) (Unmap (Addr4 0xC6336407)) 51000 443))
               two_polls.
Proof.
  split; [lia|]. split; [exact two_polls_in_order|]. split; [vm_compute; reflexivity|].
  apply (route_refines 100 two_polls); [lia|exact two_polls_in_order].
Defined.

Lemma nat_refines_witness :
  0 < 100 /\ in_order two_polls /\
  Canonical (nat_polls 100 two_polls) (mkRouteKey 6 (Addr4 0xC6336407) (Addr4 0xCB007109) 443 40001)
  = Some (mkRouteKey 6 (Addr4 0xC6336407) (Addr4 0x0A000005) 443 51000)
  /\ Canonical (nat_polls 100 two_polls) (mkRouteKey 6 (Addr4 0xC6336407) (Addr4 0xCB007109) 443 40001)
     = snd <$> remembered 100 (fresh_nat (mkRouteKey 6 (Addr4 0xC6336407) (Addr4 0xCB007109) 443 40001)) two_polls.
Proof.
  split; [lia|]. split; [exact two_polls_in_order|]. split; [vm_compute; reflexivity|].
  apply (nat_refines 100 two_polls); [lia|exact two_polls_in_order].
Defined.

Lemma nat_symmetric_witness :
  exists post pre, Canonical (nat_polls 100 two_polls) post = Some pre /\ reverseKey post <> post
    /\ Canonical (nat_polls 100 two_polls) (reverseKey post) = Some (reverseKey pre)
    /\ IsTranslatedPre (nat_polls 100 two_polls) pre = true.
Proof.
  exists (mkRouteKey 6 (Addr4 0xC6336407) (Addr4 0xCB007109) 443 40001),
    (mkRouteKey 6 (Addr4 0xC6336407) (Addr4 0x0A000005) 443 51000).
  assert (Canonical (nat_polls 100 two_polls) (mkRouteKey 6 (Addr4 0xC6336407) (Addr4 0xCB007109) 443 40001)
  = Some (mkRouteKey 6 (Addr4 0xC6336407) (Addr4 0x0A000005) 443 51000)) as H by (vm_compute; reflexivity).
  split; [exact H|]. split; [discriminate|].
  split; [by apply (nat_symmetric 100 two_polls)|]. apply (nat_symmetric 100 two_polls). eexists. exact H.
Defined.

End Tables.
