(* ===== verification/CommunityId.v ===== *)
(** * The community id ([communityid.go])

    The join key of the correlator: SHA-1 over the canonical tuple, in base64.
    Go's [crypto/sha1] and [encoding/base64] are modelled, so that the published
    reference vectors evaluate. *)

From stdpp Require Import base decidable list strings.
From Stdlib Require Import ZArith Lia Ascii.
From S2P Require Import Prelude Netip Record.

Module Community.

(** ** SHA-1 *)

Definition rotl (n x : Z) : Z := u32 (Z.lor (Z.shiftl x n) (Z.shiftr x (32 - n))).

(** The message, a one bit, zeros, and the bit length, in blocks of 64 bytes. *)
Definition sha_pad (m : list Z) : list Z :=
  m ++ 128 :: replicate (Z.to_nat ((55 - zlen m) mod 64)) 0 ++ be_bytes 8 (8 * zlen m).

Fixpoint words (b : list Z) : list Z :=
  match b with
  | w :: x :: y :: z :: b => be_val [w; x; y; z] :: words b
  | _ => []
  end.

(** The message schedule, newest word first. *)
Fixpoint schedule (n : nat) (ws : list Z) : list Z :=
  match n with
  | O => ws
  | S n =>
      let at_ i := nth i ws 0 in
      schedule n (rotl 1 (Z.lxor (Z.lxor (at_ 2%nat) (at_ 7%nat)) (Z.lxor (at_ 13%nat) (at_ 15%nat))) :: ws)
  end.

Definition hash := (Z * Z * Z * Z * Z)%type.

Definition sha_round (st : nat * hash) (w : Z) : nat * hash :=
  let '(t, (a, b, c, d, e)) := st in
  let '(f, k) :=
    if (t <? 20)%nat then (Z.lor (Z.land b c) (Z.land (Z.lxor b 0xFFFFFFFF) d), 0x5A827999)
    else if (t <? 40)%nat then (Z.lxor (Z.lxor b c) d, 0x6ED9EBA1)
    else if (t <? 60)%nat then (Z.lor (Z.lor (Z.land b c) (Z.land b d)) (Z.land c d), 0x8F1BBCDC)
    else (Z.lxor (Z.lxor b c) d, 0xCA62C1D6) in
  (S t, (u32 (rotl 5 a + f + e + k + w), a, rotl 30 b, c, d)).

Definition sha_block (h : hash) (block : list Z) : hash :=
  let ws := rev (schedule 64 (rev (words block))) in
  let '(h0, h1, h2, h3, h4) := h in
  let '(_, (a, b, c, d, e)) := fold_left sha_round ws (0%nat, h) in
  (u32 (h0 + a), u32 (h1 + b), u32 (h2 + c), u32 (h3 + d), u32 (h4 + e)).

Fixpoint sha_blocks (n : nat) (h : hash) (m : list Z) : hash :=
  match n with
  | O => h
  | S n => sha_blocks n (sha_block h (take 64 m)) (drop 64 m)
  end.

Definition sha1 (m : list Z) : list Z :=
  let p := sha_pad m in
  let '(a, b, c, d, e) :=
    sha_blocks (length p / 64) (0x67452301, 0xEFCDAB89, 0x98BADCFE, 0x10325476, 0xC3D2E1F0) p in
  be_bytes 4 a ++ be_bytes 4 b ++ be_bytes 4 c ++ be_bytes 4 d ++ be_bytes 4 e.

(** ** Base64 (standard alphabet, padded) *)

Definition b64_char (v : Z) : ascii :=
  ascii_of_nat (Z.to_nat (if v <? 26 then 65 + v else if v <? 52 then 71 + v else if v <? 62 then v - 4
                          else if v =? 62 then 43 else 47)).

Fixpoint EncodeToString (b : list Z) : string :=
  match b with
  | [] => ""
  | [x] => String (b64_char (x / 4)) (String (b64_char (x mod 4 * 16)) "==")
  | [x; y] => String (b64_char (x / 4)) (String (b64_char (x mod 4 * 16 + y / 16))
                (String (b64_char (y mod 16 * 4)) "="))
  | x :: y :: z :: b =>
      String (b64_char (x / 4)) (String (b64_char (x mod 4 * 16 + y / 16))
        (String (b64_char (y mod 16 * 4 + z / 64)) (String (b64_char (z mod 64)) (EncodeToString b))))
  end.

(** ** The id *)

Definition communityIDVersion : string := "1:".

(** The bytes written to the hash, in order. *)
Definition message (t : Tuple) (seed : Z) : list Z :=
  be_bytes 2 seed
  ++ (if Is4 (AAddr t) && Is4 (BAddr t) then As4 (AAddr t) ++ As4 (BAddr t)
      else As16 (AAddr t) ++ As16 (BAddr t))
  ++ [tProto t; 0] ++ be_bytes 2 (APort t) ++ be_bytes 2 (BPort t).

Definition CommunityID (t : Tuple) (seed : Z) : string :=
  communityIDVersion +:+ EncodeToString (sha1 (message t seed)).

(** ** Base64 loses nothing *)

Definition b64_val (c : ascii) : Z :=
  let n := Z.of_nat (nat_of_ascii c) in
  if (65 <=? n) && (n <=? 90) then n - 65 else if (97 <=? n) && (n <=? 122) then n - 71
  else if (48 <=? n) && (n <=? 57) then n + 4 else if n =? 43 then 62 else 63.

Lemma b64_val_char v : 0 <= v < 64 -> b64_val (b64_char v) = v.
Proof.
  intros Hv. assert (forallb (fun v => b64_val (b64_char v) =? v) (seqZ 0 64) = true) as H
    by (vm_compute; reflexivity).
  apply Z.eqb_eq. rewrite forallb_forall in H. apply H. apply list_elem_of_In, elem_of_seqZ. lia.
Qed.

Lemma b64_char_inj u v : 0 <= u < 64 -> 0 <= v < 64 -> b64_char u = b64_char v -> u = v.
Proof. intros Hu Hv H. by rewrite <- (b64_val_char u), <- (b64_val_char v), H. Qed.

(** The sextets of a group of bytes determine it. *)
Lemma sextet_head x x' : is_u8 x -> is_u8 x' -> b64_char (x / 4) = b64_char (x' / 4) -> x / 4 = x' / 4.
Proof. unfold is_u8. intros Hx Hx'. apply b64_char_inj; zdiv. Qed.

Lemma sextet_mid4 x y x' y' :
  is_u8 x -> is_u8 y -> is_u8 x' -> is_u8 y' ->
  b64_char (x mod 4 * 16 + y / 16) = b64_char (x' mod 4 * 16 + y' / 16) ->
  x mod 4 = x' mod 4 /\ y / 16 = y' / 16.
Proof. unfold is_u8. intros Hx Hy Hx' Hy' H. apply b64_char_inj in H; zdiv. Qed.

Lemma sextet_mid16 x y x' y' :
  is_u8 x -> is_u8 y -> is_u8 x' -> is_u8 y' ->
  b64_char (x mod 16 * 4 + y / 64) = b64_char (x' mod 16 * 4 + y' / 64) ->
  x mod 16 = x' mod 16 /\ y / 64 = y' / 64.
Proof. unfold is_u8. intros Hx Hy Hx' Hy' H. apply b64_char_inj in H; zdiv. Qed.

Lemma div_mod_eq n x y : 0 < n -> x / n = y / n -> x mod n = y mod n -> x = y.
Proof. intros Hn Hd Hm. rewrite (Z.div_mod x n), (Z.div_mod y n) by lia. congruence. Qed.

Lemma triple_inj x y z x' y' z' :
  is_u8 x -> is_u8 y -> is_u8 z -> is_u8 x' -> is_u8 y' -> is_u8 z' ->
  b64_char (x / 4) = b64_char (x' / 4) ->
  b64_char (x mod 4 * 16 + y / 16) = b64_char (x' mod 4 * 16 + y' / 16) ->
  b64_char (y mod 16 * 4 + z / 64) = b64_char (y' mod 16 * 4 + z' / 64) ->
  b64_char (z mod 64) = b64_char (z' mod 64) -> x = x' /\ y = y' /\ z = z'.
Proof.
  intros Hx Hy Hz Hx' Hy' Hz' E1 E2 E3 E4.
  apply sextet_head in E1; [|done..].
  apply sextet_mid4 in E2 as [E2 E2']; [|done..]. apply sextet_mid16 in E3 as [E3 E3']; [|done..].
  apply b64_char_inj in E4; [|apply Z.mod_pos_bound; lia..].
  split; [by apply (div_mod_eq 4)|]. split; [by apply (div_mod_eq 16)|by apply (div_mod_eq 64)].
Qed.

Lemma EncodeToString_inj a b :
  byte_list a -> byte_list b -> length a = length b -> EncodeToString a = EncodeToString b -> a = b.
Proof.
  remember (length a) as n eqn:En. revert a b En. induction (lt_wf n) as [n _ IH].
  intros a b En Ha Hb Hl H.
  destruct a as [|x [|y [|z a]]], b as [|x' [|y' [|z' b]]]; cbn in En, Hl; try (exfalso; lia).
  - done.
  - apply Forall_inv in Ha, Hb. cbn in H. injection H as E1 E2. apply sextet_head in E1; [|done..].
    apply b64_char_inj in E2; [|pose proof (Z.mod_pos_bound x 4); lia|pose proof (Z.mod_pos_bound x' 4); lia].
    f_equal. apply (div_mod_eq 4); lia.
  - pose proof Ha as [Hx [Hy _]%Forall_cons]%Forall_cons. pose proof Hb as [Hx' [Hy' _]%Forall_cons]%Forall_cons.
    cbn in H. injection H as E1 E2 E3. apply sextet_head in E1; [|done..].
    apply sextet_mid4 in E2 as [E2 E2']; [|done..].
    apply b64_char_inj in E3; [|pose proof (Z.mod_pos_bound y 16); lia|pose proof (Z.mod_pos_bound y' 16); lia].
    assert (x = x') as -> by by apply (div_mod_eq 4). do 2 f_equal. apply (div_mod_eq 16); lia.
  - apply Forall_cons in Ha as [Hx [Hy [Hz Ha]%Forall_cons]%Forall_cons].
    apply Forall_cons in Hb as [Hx' [Hy' [Hz' Hb]%Forall_cons]%Forall_cons].
    cbn [EncodeToString] in H. injection H as E1 E2 E3 E4 E.
    destruct (triple_inj x y z x' y' z') as (-> & -> & ->); [done..|]. do 3 f_equal.
    apply (IH (length a)); [lia|done|done|done|lia|done].
Qed.

Lemma sha1_shape m : length (sha1 m) = 20%nat /\ byte_list (sha1 m).
Proof.
  unfold sha1. destruct (sha_blocks _ _ _) as [[[[a b] c] d] e].
  split; [by rewrite !length_app, !length_be_bytes|].
  unfold byte_list. rewrite !Forall_app. by repeat split; apply be_bytes_byte.
Qed.

(** ** The message determines the tuple *)

(** Among valid, unmapped, zone-free addresses the 128-bit form is faithful. *)
Definition plain (a : Addr) : Prop :=
  addr_wf a /\ IsValid a = true /\ addr_zone a = "" /\ Unmap a = a.

Record tuple_ok (t : Tuple) : Prop := {
  tk_proto : is_u8 (tProto t);
  tk_aport : is_u16 (APort t);
  tk_bport : is_u16 (BPort t);
  tk_a : plain (AAddr t);
  tk_b : plain (BAddr t) }.

Lemma be_bytes_inj n v w :
  0 <= v < 256 ^ Z.of_nat n -> 0 <= w < 256 ^ Z.of_nat n -> be_bytes n v = be_bytes n w -> v = w.
Proof.
  intros Hv Hw H. apply (f_equal be_val) in H. rewrite !be_val_bytes in H.
  by rewrite !Z.mod_small in H.
Qed.

Lemma plain_bits_range a : plain a -> 0 <= addr_bits a < 2 ^ 128.
Proof. intros (Hw & Hv & _). destruct a; cbn in *; unfold is_u32 in *; try done; zdiv. Qed.

Lemma plain_bits_inj a b : plain a -> plain b -> addr_bits a = addr_bits b -> a = b.
Proof.
  intros (Hwa & Hva & Hza & Hua) (Hwb & Hvb & Hzb & Hub) H.
  destruct a as [|u|u zu], b as [|v|v zv]; try done; cbn in *; unfold is_u32 in *.
  - f_equal. lia.
  - exfalso. destruct (Z.eqb_spec (v / 2 ^ 32) 65535) as [|Hn]; [done|]. apply Hn. zdiv.
  - exfalso. destruct (Z.eqb_spec (u / 2 ^ 32) 65535) as [|Hn]; [done|]. apply Hn. zdiv.
  - congruence.
Qed.

Lemma As16_inj a b : plain a -> plain b -> As16 a = As16 b -> a = b.
Proof.
  intros Ha Hb H. apply plain_bits_inj; [done..|].
  apply (be_bytes_inj 16); [by apply plain_bits_range..|done].
Qed.

Lemma As4_inj a b : plain a -> plain b -> Is4 a = true -> Is4 b = true -> As4 a = As4 b -> a = b.
Proof.
  intros (Ha & _) (Hb & _) Ea Eb H. destruct a as [|u|]; [done| |done]. destruct b as [|v|]; [done| |done].
  unfold As4 in H. cbn [addr_bits addr_wf] in *. unfold is_u32 in *.
  apply be_bytes_inj in H; [|apply Z.mod_pos_bound; reflexivity..]. f_equal. zdiv.
Qed.

Lemma app_inj_len {A} (a a' b b' : list A) : length a = length a' -> a ++ b = a' ++ b' -> a = a' /\ b = b'.
Proof. intros Hl H. by apply app_inj_1. Qed.

(** What follows the addresses. *)
Lemma tail_inj t1 t2 :
  tuple_ok t1 -> tuple_ok t2 ->
  [tProto t1; 0] ++ be_bytes 2 (APort t1) ++ be_bytes 2 (BPort t1)
  = [tProto t2; 0] ++ be_bytes 2 (APort t2) ++ be_bytes 2 (BPort t2) ->
  tProto t1 = tProto t2 /\ APort t1 = APort t2 /\ BPort t1 = BPort t2.
Proof.
  intros [? Ha Hb _ _] [? Ha' Hb' _ _] H. apply app_inj_len in H as [E H]; [|done]. injection E as E.
  apply app_inj_len in H as [E1 E2]; [|by rewrite !length_be_bytes].
  split; [done|]. split; by apply (be_bytes_inj 2).
Qed.

Lemma tuple_eq t1 t2 :
  AAddr t1 = AAddr t2 -> BAddr t1 = BAddr t2 ->
  tProto t1 = tProto t2 /\ APort t1 = APort t2 /\ BPort t1 = BPort t2 -> t1 = t2.
Proof. destruct t1, t2; cbn. naive_solver. Qed.

Lemma message_inj t1 t2 seed :
  tuple_ok t1 -> tuple_ok t2 -> message t1 seed = message t2 seed -> t1 = t2.
Proof.
  intros H1 H2 H. pose proof H1 as [_ _ _ Ha Hb]. pose proof H2 as [_ _ _ Ha' Hb'].
  unfold message in H. apply app_inj_len in H as [_ H]; [|done].
  destruct (Is4 (AAddr t1) && Is4 (BAddr t1)) eqn:E1, (Is4 (AAddr t2) && Is4 (BAddr t2)) eqn:E2; bool_prop.
  - apply app_inj_len in H as [E H]; [|by rewrite !length_app; unfold As4; rewrite !length_be_bytes].
    apply app_inj_len in E as [Ea Eb]; [|by unfold As4; rewrite !length_be_bytes].
    apply As4_inj in Ea, Eb; [|done..]. apply tuple_eq; auto using tail_inj.
  - apply (f_equal length) in H. rewrite !length_app in H. unfold As4, As16 in H.
    rewrite !length_be_bytes in H. done.
  - apply (f_equal length) in H. rewrite !length_app in H. unfold As4, As16 in H.
    rewrite !length_be_bytes in H. done.
  - apply app_inj_len in H as [E H]; [|by rewrite !length_app; unfold As16; rewrite !length_be_bytes].
    apply app_inj_len in E as [Ea Eb]; [|by unfold As16; rewrite !length_be_bytes].
    apply As16_inj in Ea, Eb; [|done..]. apply tuple_eq; auto using tail_inj.
Qed.

(** ** Records *)

(** What the lanes put in a record: widths, and addresses without a zone. *)
Record endpoints_ok (r : Record_) : Prop := {
  en_proto : is_u8 (Proto r);
  en_sport : is_u16 (SrcPort r);
  en_dport : is_u16 (DstPort r);
  en_src : addr_wf (SrcAddr r) /\ IsValid (SrcAddr r) = true /\ addr_zone (SrcAddr r) = "";
  en_dst : addr_wf (DstAddr r) /\ IsValid (DstAddr r) = true /\ addr_zone (DstAddr r) = "" }.

Lemma Unmap_plain a : addr_wf a -> IsValid a = true -> addr_zone a = "" -> plain (Unmap a).
Proof.
  intros Hw Hv Hz. split; [by apply Unmap_wf|]. rewrite Unmap_IsValid, Unmap_idemp.
  split; [done|]. split; [|done]. destruct a as [| |v z]; cbn in *; [done..|]. by destruct (_ =? _).
Qed.

Lemma canonical_ok r : endpoints_ok r -> tuple_ok (CanonicalTuple r).
Proof.
  intros [Hp Hs Hd (? & ? & ?) (? & ? & ?)]. unfold CanonicalTuple.
  destruct (endpointLess _ _ _ _); split; cbn; auto using Unmap_plain.
Qed.

(** Two records of one direction of one conversation. *)
Definition aligned (r o : Record_) : Prop :=
  Proto o = Proto r /\ Unmap (SrcAddr o) = Unmap (SrcAddr r) /\ SrcPort o = SrcPort r
  /\ Unmap (DstAddr o) = Unmap (DstAddr r) /\ DstPort o = DstPort r.

Lemma canonical_eq r o : CanonicalTuple o = CanonicalTuple r <-> aligned r o \/ mirrored r o.
Proof.
  split.
  - unfold CanonicalTuple, aligned, mirrored. repeat case_match; naive_solver.
  - intros [(Hp & Hs & Hsp & Hd & Hdp)|H]; [|by apply CanonicalTuple_mirror].
    unfold CanonicalTuple. by rewrite Hp, Hs, Hsp, Hd, Hdp.
Qed.

(** Two messages SHA-1 does not tell apart. *)
Definition collision (m m' : list Z) : Prop := m <> m' /\ sha1 m = sha1 m'.

(** Two records carry the same community id exactly when they belong to the
    same conversation, in the same direction or in opposite ones, unless SHA-1
    collides on their messages: neither the canonical order, nor the encoding of
    addresses and ports, nor base64 merges or splits a conversation. *)
Theorem community_separates r o seed :
  endpoints_ok r -> endpoints_ok o ->
  CommunityID (CanonicalTuple o) seed = CommunityID (CanonicalTuple r) seed <->
  aligned r o \/ mirrored r o
  \/ collision (message (CanonicalTuple o) seed) (message (CanonicalTuple r) seed).
Proof.
  intros Hr Ho. split.
  - intros H. apply (inj (String.append _)) in H.
    destruct (sha1_shape (message (CanonicalTuple o) seed)) as [L1 B1].
    destruct (sha1_shape (message (CanonicalTuple r) seed)) as [L2 B2].
    apply EncodeToString_inj in H; [|done|done|congruence].
    destruct (decide (message (CanonicalTuple o) seed = message (CanonicalTuple r) seed)) as [E|E].
    + apply message_inj in E; [|by apply canonical_ok..]. apply canonical_eq in E. tauto.
    + right; right. by split.
  - unfold CommunityID. intros [H|[H|[_ ->]]]; [| |done].
    + by rewrite (proj2 (canonical_eq r o) (or_introl H)).
    + by rewrite (proj2 (canonical_eq r o) (or_intror H)).
Qed.

(** The reference vector of the community-id specification, and the answer to it. *)
Definition ref_flow : Record_ :=
  zeroRecord <| Proto := 6 |> <| SrcAddr := Addr4 0x80E86E78 |> <| DstAddr := Addr4 0x4223FACC |>
    <| SrcPort := 34855 |> <| DstPort := 80 |>.
Definition ref_answer : Record_ :=
  zeroRecord <| Proto := 6 |> <| SrcAddr := Addr6 0xFFFF4223FACC "" |> <| DstAddr := Addr4 0x80E86E78 |>
    <| SrcPort := 80 |> <| DstPort := 34855 |>.

Example ref_vector : CommunityID (CanonicalTuple ref_flow) 0 = "1:LQU9qZlK+B5F3KDmev6m5PMibrg=".
Proof. vm_compute. reflexivity. Qed.

Lemma ref_ok : endpoints_ok ref_flow /\ endpoints_ok ref_answer.
Proof. split; (split; [done..| |]); (split; [done|by split]). Qed.

Lemma community_separates_witness :
  endpoints_ok ref_flow /\ endpoints_ok ref_answer /\ mirrored ref_flow ref_answer
  /\ CommunityID (CanonicalTuple ref_answer) 0 = CommunityID (CanonicalTuple ref_flow) 0.
Proof.
  assert (mirrored ref_flow ref_answer) as Hm by (vm_compute; auto).
  split; [apply ref_ok|]. split; [apply ref_ok|]. split; [exact Hm|].
  apply (community_separates ref_flow ref_answer 0); [apply ref_ok|apply ref_ok|].
  right. left. exact Hm.
Defined.

End Community.
