(* ===== verification/GoStrings.v ===== *)
(** * Go's [strings], as the flow lane uses it

    Strings are byte strings; the operations below only compare bytes, or recognise
    white space by its UTF-8 encodings. *)

From stdpp Require Import base decidable list strings.
From Stdlib Require Import ZArith Lia Ascii.
From S2P Require Import Prelude.

(** [s[:n]] and [s[n:]]. *)
Fixpoint str_take (n : nat) (s : string) : string :=
  match n, s with
  | S n, String c s => String c (str_take n s)
  | _, _ => ""
  end.

Fixpoint str_drop (n : nat) (s : string) : string :=
  match n, s with
  | S n, String _ s => str_drop n s
  | _, _ => s
  end.

Definition HasPrefix (s pre : string) : bool := String.prefix pre s.

Definition HasSuffix (s suf : string) : bool :=
  (String.length suf <=? String.length s)%nat
  && str_eq (str_drop (String.length s - String.length suf) s) suf.

(** [strings.LastIndex]; [None] is -1. *)
Fixpoint LastIndex (s sub : string) : option nat :=
  match s with
  | EmptyString => if HasPrefix s sub then Some 0%nat else None
  | String _ s' =>
      match LastIndex s' sub with
      | Some i => Some (S i)
      | None => if HasPrefix s sub then Some 0%nat else None
      end
  end.

(** The encodings of Unicode white space. *)
Definition bytes_string (l : list nat) : string :=
  foldr (fun n s => String (ascii_of_nat n) s) "" l.

Definition spaces : list string :=
  map bytes_string
    ([[9]; [10]; [11]; [12]; [13]; [32]; [194; 133]; [194; 160]; [225; 154; 128]]
     ++ map (fun n => [226; 128; n]) [128; 129; 130; 131; 132; 133; 134; 135; 136; 137; 138; 168; 169; 175]
     ++ [[226; 129; 159]; [227; 128; 128]])%nat.

Fixpoint str_rev_app (s acc : string) : string :=
  match s with
  | EmptyString => acc
  | String c s => str_rev_app s (String c acc)
  end.
Definition str_rev (s : string) : string := str_rev_app s "".

(** Drop leading members of [sps]; every step drops at least one byte, so the
    length of the string is enough fuel. *)
Fixpoint trim_left (fuel : nat) (sps : list string) (s : string) : string :=
  match fuel with
  | O => s
  | S fuel =>
      match find (HasPrefix s) sps with
      | Some sp => trim_left fuel sps (str_drop (String.length sp) s)
      | None => s
      end
  end.

Definition TrimSpace (s : string) : string :=
  let l := trim_left (String.length s) spaces s in
  str_rev (trim_left (String.length l) (map str_rev spaces) (str_rev l)).

(** ** Lemmas *)

Lemma str_app_cons c a b : String c a +:+ b = String c (a +:+ b).
Proof. done. Qed.

Lemma str_app_nil_l b : "" +:+ b = b.
Proof. done. Qed.

Lemma str_length_app a b : String.length (a +:+ b) = (String.length a + String.length b)%nat.
Proof. induction a as [|c a IH]; [done|]. rewrite str_app_cons. cbn. by rewrite IH. Qed.

Lemma str_app_assoc a b c : (a +:+ b) +:+ c = a +:+ (b +:+ c).
Proof. induction a as [|x a IH]; [done|]. by rewrite !str_app_cons, IH. Qed.

Lemma str_take_app a b : str_take (String.length a) (a +:+ b) = a.
Proof. induction a as [|c a IH]; [by destruct b|]. rewrite str_app_cons. cbn. by rewrite IH. Qed.

Lemma str_drop_app a b : str_drop (String.length a) (a +:+ b) = b.
Proof. induction a as [|c a IH]; [by destruct b|]. by rewrite str_app_cons. Qed.

Lemma HasPrefix_app p s : HasPrefix (p +:+ s) p = true.
Proof.
  unfold HasPrefix. induction p as [|c p IH]; [by destruct s|]. rewrite str_app_cons. cbn.
  by destruct (ascii_dec c c).
Qed.

Lemma HasPrefix_spec s p : HasPrefix s p = true -> exists t, s = p +:+ t.
Proof.
  unfold HasPrefix. revert s. induction p as [|c p IH]; intros s H; [by exists s|].
  destruct s as [|d s]; [done|]. cbn in H. destruct (ascii_dec c d) as [->|]; [|done].
  destruct (IH _ H) as [t ->]. by exists t.
Qed.

Lemma HasSuffix_app s suf : HasSuffix (s +:+ suf) suf = true.
Proof.
  unfold HasSuffix. rewrite str_length_app. apply andb_true_iff. split; [zbool|].
  replace (String.length s + String.length suf - String.length suf)%nat with (String.length s) by lia.
  rewrite str_drop_app. apply String.eqb_refl.
Qed.

(** When no later occurrence is possible, the last one is the visible one. *)
Lemma LastIndex_app a sub t :
  (forall n, (0 < n)%nat -> HasPrefix (str_drop n (sub +:+ t)) sub = false) -> sub <> "" ->
  LastIndex (a +:+ sub +:+ t) sub = Some (String.length a).
Proof.
  intros Hno Hne.
  assert (forall s, (forall n, HasPrefix (str_drop n s) sub = false) -> LastIndex s sub = None) as Hnone.
  { intros s. induction s as [|c s IH]; intros H.
    - pose proof (H 0%nat) as H0. cbn [str_drop] in H0. cbn [LastIndex]. by rewrite H0.
    - pose proof (H 0%nat) as H0. cbn [str_drop] in H0. cbn [LastIndex].
      rewrite (IH (fun n => H (S n))). by rewrite H0. }
  induction a as [|c a IH].
  - rewrite str_app_nil_l. destruct sub as [|d sub]; [done|]. rewrite str_app_cons in *. cbn [LastIndex].
    rewrite (Hnone (sub +:+ t)) by (intros n; apply (Hno (S n)); lia).
    by rewrite (HasPrefix_app (String d sub) t : HasPrefix (String d (sub +:+ t)) _ = true).
  - rewrite str_app_cons. cbn. by rewrite IH.
Qed.
