(* ===== verification/Enrich.v ===== *)
(** * Enrichment snapshots ([logship/enrich/snapshot.go], [services.go])

    The immutable view of the firewall's identity tables the record path reads: names,
    addresses and topology.  Building a snapshot from the API's answers is not
    modelled; reading one is. *)

From stdpp Require Import base decidable list gmap sets strings.
From Stdlib Require Import ZArith Lia Ascii.
From S2P Require Import Prelude Netip.

Module Enrich.

Record IfaceInfo := mkIfaceInfo {
  iDevice : string; iName : string; iIdentifier : string; iVlanTag : string; iVlanParent : string;
  iAddrs : list Addr; iPrefixes : list Prefix; iIsWAN : bool }.

Definition IsVLAN (i : IfaceInfo) : bool := negb (str_empty (iVlanTag i)) || negb (str_empty (iVlanParent i)).

Record Snapshot := mkSnapshot {
  RuleLabels : gmap string string; IfaceNames : gmap string string; Hostnames : gmap string string;
  MACs : gmap string string; LocalNets : list Prefix; SelfIPs : gmap Addr bool;
  LastRefresh : gmap string Time; Ifaces : list IfaceInfo; IfaceOrder : list string;
  IfaceStatedIndex : gmap string Z; Tunnels : gmap string string; VPNInstances : gmap string string }.

Definition emptySnapshot : Snapshot := mkSnapshot ∅ ∅ ∅ ∅ [] ∅ ∅ [] [] ∅ ∅ ∅.

(** A table lookup that reports a blank value as a miss. *)
Definition named (m : gmap string string) (k : string) : option string :=
  match m !! k with
  | Some v => if str_empty v then None else Some v
  | None => None
  end.

Definition RuleLabel (s : Snapshot) (rid : string) : option string := named (RuleLabels s) rid.
Definition InterfaceName (s : Snapshot) (dev : string) : option string := named (IfaceNames s) dev.
Definition Tunnel (s : Snapshot) (uuid : string) : option string := named (Tunnels s) uuid.
Definition VPNInstance (s : Snapshot) (uuid : string) : option string := named (VPNInstances s) uuid.
Definition Hostname (s : Snapshot) (ip : string) : option string := named (Hostnames s) ip.
Definition MAC (s : Snapshot) (ip : string) : option string := named (MACs s) ip.

Definition Scope (s : Snapshot) (ip : string) : string :=
  match ParseAddr ip with
  | None => ""
  | Some addr =>
      let addr := Unmap addr in
      if (zsize (SelfIPs s) =? 0) && (zlen (LocalNets s) =? 0) then ""
      else if default false (SelfIPs s !! addr) then "self"
      else if existsb (fun p => Contains p addr) (LocalNets s) then "local"
      else "remote"
  end.

(** [services], keyed by ["port/proto"]. *)
Definition services : list (string * string) :=
  [("22/tcp", "ssh"); ("23/tcp", "telnet"); ("3389/tcp", "rdp"); ("5900/tcp", "vnc"); ("53/tcp", "domain");
   ("53/udp", "domain"); ("853/tcp", "dns-over-tls"); ("5353/udp", "mdns"); ("137/udp", "netbios-ns");
   ("138/udp", "netbios-dgm"); ("139/tcp", "netbios-ssn"); ("445/tcp", "smb"); ("80/tcp", "http");
   ("443/tcp", "https"); ("443/udp", "quic"); ("8080/tcp", "http-alt"); ("8443/tcp", "https-alt");
   ("25/tcp", "smtp"); ("110/tcp", "pop3"); ("143/tcp", "imap"); ("465/tcp", "smtps");
   ("587/tcp", "submission"); ("993/tcp", "imaps"); ("995/tcp", "pop3s"); ("67/udp", "dhcp");
   ("68/udp", "dhcp"); ("69/udp", "tftp"); ("123/udp", "ntp"); ("161/udp", "snmp");
   ("162/udp", "snmp-trap"); ("514/udp", "syslog"); ("514/tcp", "syslog"); ("546/udp", "dhcpv6");
   ("547/udp", "dhcpv6"); ("389/tcp", "ldap"); ("636/tcp", "ldaps"); ("88/tcp", "kerberos");
   ("1812/udp", "radius"); ("1813/udp", "radius-acct"); ("500/udp", "isakmp"); ("4500/udp", "ipsec-nat-t");
   ("1194/udp", "openvpn"); ("1701/udp", "l2tp"); ("1723/tcp", "pptp"); ("51820/udp", "wireguard");
   ("3306/tcp", "mysql"); ("5432/tcp", "postgresql"); ("6379/tcp", "redis"); ("27017/tcp", "mongodb");
   ("11211/tcp", "memcached"); ("9200/tcp", "elasticsearch"); ("21/tcp", "ftp"); ("179/tcp", "bgp");
   ("631/tcp", "ipp"); ("1900/udp", "ssdp"); ("3128/tcp", "http-proxy"); ("5060/udp", "sip");
   ("5060/tcp", "sip"); ("9100/tcp", "jetdirect")].

(** [strings.ToLower] on ASCII; a non-ASCII name is in no key. *)
Definition lower (c : ascii) : ascii :=
  let n := nat_of_ascii c in if (65 <=? n)%nat && (n <=? 90)%nat then ascii_of_nat (n + 32) else c.

Fixpoint ToLower (s : string) : string :=
  match s with
  | EmptyString => EmptyString
  | String c s => String (lower c) (ToLower s)
  end.

Definition ServiceName (port proto : string) : option string :=
  if str_empty port || str_empty proto then None
  else snd <$> find (fun e => str_eq (fst e) (port +:+ "/" +:+ ToLower proto)) services.

Example services_distinct : NoDup (map fst services).
Proof. apply (bool_decide_unpack _). vm_compute. exact I. Qed.

(** The scope of an IPv4 address, by its value: the text round trip of [Scope] loses
    nothing. *)
Lemma Scope_addr4 s v :
  is_u32 v ->
  Scope s (addr_String (Addr4 v)) =
  if (zsize (SelfIPs s) =? 0) && (zlen (LocalNets s) =? 0) then ""
  else if default false (SelfIPs s !! Addr4 v) then "self"
  else if existsb (fun p => Contains p (Addr4 v)) (LocalNets s) then "local"
  else "remote".
Proof. intros Hv. unfold Scope. by rewrite ParseAddr_String4. Qed.

(** The cache: what [Load] answers before and after a [Store]. *)
Definition Cache := option Snapshot.
Definition NewCache : Cache := Some emptySnapshot.
Definition Load (c : Cache) : Snapshot := default emptySnapshot c.
Definition Store (s : option Snapshot) (c : Cache) : Cache := Some (default emptySnapshot s).

End Enrich.
