(* ===== verification/IfMap.v ===== *)
(** * The interface map ([ifmap.go])

    A NetFlow ifIndex is a position in the box's own interface list.  The map is built
    from that list, from metadata joined by device name, and from the operator's
    overrides; it also answers the topology questions of the repair stage. *)

From stdpp Require Import base decidable list gmap sets strings.
From Stdlib Require Import ZArith Lia Ascii.
From S2P Require Import Prelude Netip Order Record GoStrings Enrich.
Import Enrich.

(** [flow.ifTopology], with the optional [wanKnower] and [deviceResolver] the
    repair stage asks for: what an interface map promises to its readers. *)
Class IfTopology (M : Type) := {
  WANFor : M -> Addr -> option Iface;
  ParentOf : M -> string -> option string;
  HasVLANChildren : M -> string -> bool;
  VLANChildFor : M -> string -> Addr -> option Iface;
  IsWAN : option (M -> string -> bool);
  IfaceForDevice : option (M -> string -> option Iface) }.

(** What the readers of a topology may rely on. *)
Record topology_ok {M : Type} `{IfTopology M} (m : M) : Prop := {
  parent_has_children child p : ParentOf m child = Some p -> HasVLANChildren m p = true;
  parent_nonempty child p : ParentOf m child = Some p -> child <> "" /\ p <> "";
  child_of_parent p a i : VLANChildFor m p a = Some i -> ParentOf m (Device i) = Some p }.

Module IfMap.

Definition LocalOriginName : string := "locally-originated".
Definition vlanInfix : string := "_vlan".

Record childNet := mkChildNet { prefix : Prefix; iface : Iface; parent : string }.

Record IfMap := mkIfMap {
  byIndex : gmap Z Iface; byDevice : gmap string Iface; wanAddr : gmap Addr Iface;
  wanDev : gset string; parents : gmap string string; trunks : gset string;
  childNets : list childNet; stated : gmap string Z; overriddenIdx : gset Z; built : Time;
  overridden : Z; conflictsDiffering : Z; conflictsAbsent : Z; disagreements : Z;
  unlisted : Z; nNamed : Z }.
#[export] Instance eta_IfMap : Eta IfMap := fun m =>
  mkIfMap (byIndex m) (byDevice m) (wanAddr m) (wanDev m) (parents m) (trunks m) (childNets m)
    (stated m) (overriddenIdx m) (built m) (overridden m) (conflictsDiffering m)
    (conflictsAbsent m) (disagreements m) (unlisted m) (nNamed m).

Record IfMapInput := mkInput {
  inOrder : list string; inIfaces : list IfaceInfo; inStated : gmap string Z;
  inOverride : gmap Z string; inBuilt : Time }.

Definition is_digit (c : ascii) : bool :=
  let n := nat_of_ascii c in ((48 <=? n) && (n <=? 57))%nat.

Fixpoint all_digits (s : string) : bool :=
  match s with
  | EmptyString => true
  | String c s => is_digit c && all_digits s
  end.

Definition parseVLANParent (device : string) : string :=
  match LastIndex device vlanInfix with
  | None | Some O => ""
  | Some i =>
      let tag := str_drop (i + String.length vlanInfix) device in
      if str_empty tag then "" else if all_digits tag then str_take i device else ""
  end.

Definition parentOfIface (info : IfaceInfo) : string :=
  if negb (str_empty (iVlanParent info)) then iVlanParent info else parseVLANParent (iDevice info).

(** ** [BuildIfMap], loop by loop *)

(** The metadata loop: what it has gathered. *)
Record metaAcc := mkMeta {
  aParents : gmap string string; aTrunks : gset string; meta : gmap string IfaceInfo;
  metadataReady : bool; aWanDev : gset string }.
#[export] Instance eta_metaAcc : Eta metaAcc := fun a =>
  mkMeta (aParents a) (aTrunks a) (meta a) (metadataReady a) (aWanDev a).

Definition meta_row (a : metaAcc) (info : IfaceInfo) : metaAcc :=
  let p := parentOfIface info in
  let a := if str_empty p then a
           else a <| aParents ::= <[iDevice info := p]> |> <| aTrunks ::= fun s => {[p]} ∪ s |> in
  if str_empty (iDevice info) then a
  else
    let a := a <| meta ::= <[iDevice info := info]> |> in
    let a := if str_empty (iName info) then a else a <| metadataReady := true |> in
    if iIsWAN info then a <| aWanDev ::= fun s => {[iDevice info]} ∪ s |> else a.

Definition zeroInfo : IfaceInfo := mkIfaceInfo "" "" "" "" "" [] [] false.

(** The addresses a WAN interface claims; the first claim stands. *)
Definition claim_addr (i : Iface) (m : gmap Addr Iface) (a : Addr) : gmap Addr Iface :=
  let a := Unmap a in
  if negb (IsValid a) then m else match m !! a with Some _ => m | None => <[a := i]> m end.

Definition claim_addrs (info : IfaceInfo) (i : Iface) (m : gmap Addr Iface) : gmap Addr Iface :=
  if iIsWAN info then fold_left (claim_addr i) (iAddrs info) m else m.

(** The interface of one slot of the ordering. *)
Definition slot_iface (a : metaAcc) (idx : Z) (device : string) : Iface :=
  let info := default zeroInfo (meta a !! device) in
  let i := mkIface device (iName info) idx false false in
  if negb (metadataReady a) && str_empty (Name i) then i <| Unresolved := true |> else i.

(** The ordering loop keeps, beside the map, the first interface of each name. *)
Definition order_row (a : metaAcc) (st : IfMap * gmap string Iface) (slot : nat * string)
  : IfMap * gmap string Iface :=
  let '(m, byName) := st in
  let '(i, device) := slot in
  let idx := u32 (Z.of_nat i + 1) in
  if str_empty device then st
  else
    let m := match stated m !! device with
             | Some s => if negb (s =? 0) && negb (s =? idx) then m <| disagreements ::= fun n => n + 1 |> else m
             | None => m
             end in
    let info := default zeroInfo (meta a !! device) in
    let ifc := slot_iface a idx device in
    let m := m <| byIndex ::= <[idx := ifc]> |> <| byDevice ::= <[device := ifc]> |>
               <| wanAddr ::= claim_addrs info ifc |> in
    let byName := if str_empty (iName info) then byName
                  else match byName !! iName info with
                       | Some _ => byName
                       | None => <[iName info := ifc]> byName
                       end in
    (m, byName).

Definition child_rows (m : IfMap) (info : IfaceInfo) : list childNet :=
  let p := default "" (parents m !! iDevice info) in
  if str_empty (iDevice info) || (zlen (iPrefixes info) =? 0) || str_empty p then []
  else
    let ifc := default (mkIface (iDevice info) (iName info) 0 false false) (byDevice m !! iDevice info) in
    map (fun pfx => mkChildNet (Masked pfx) ifc p) (filter (fun pfx => prefix_IsValid pfx) (iPrefixes info)).

(** The interface an override value names. *)
Definition resolve_override (m : IfMap) (byName : gmap string Iface) (value : string) (idx : Z) : Iface :=
  let r := match byDevice m !! value with
           | Some i => i
           | None => default (mkIface "" value 0 false false) (byName !! value)
           end in
  let r := r <| Index := idx |> in
  if str_empty (Name r) then r else r <| Unresolved := false |>.

Definition override_row (byName : gmap string Iface) (m : IfMap) (ov : Z * string) : IfMap :=
  let '(idx, raw) := ov in
  let value := TrimSpace raw in
  if str_empty value then m
  else
    let r := resolve_override m byName value idx in
    let m := match byIndex m !! idx with
             | None => m <| conflictsAbsent ::= fun n => n + 1 |>
             | Some prev => if negb (str_eq (Device prev) (Device r)) || negb (str_eq (Name prev) (Name r))
                            then m <| conflictsDiffering ::= fun n => n + 1 |> else m
             end in
    m <| byIndex ::= <[idx := r]> |> <| overriddenIdx ::= fun s => {[idx]} ∪ s |>
      <| overridden ::= fun n => n + 1 |>.

Definition gather (infos : list IfaceInfo) : metaAcc :=
  fold_left meta_row infos (mkMeta ∅ ∅ ∅ false ∅).

Definition named_count (m : gmap Z Iface) : Z :=
  msum (fun idx i => if (idx =? 0) || str_empty (Name i) then 0 else 1) m.

Definition BuildIfMap (inp : IfMapInput) : IfMap :=
  let a := gather (inIfaces inp) in
  let m := mkIfMap {[0 := mkIface "" LocalOriginName 0 false false]} ∅ ∅ (aWanDev a) (aParents a) (aTrunks a)
             [] (inStated inp) ∅ (inBuilt inp) 0 0 0 0 0 0 in
  let '(m, byName) := fold_left (order_row a) (imap pair (inOrder inp)) (m, ∅) in
  let m := m <| unlisted := zsize (filter (fun kv => fst kv ∉ inOrder inp) (meta a)) |> in
  let m := m <| childNets := flat_map (child_rows m) (inIfaces inp) |> in
  let m := fold_left (override_row byName) (map_to_list (inOverride inp)) m in
  m <| nNamed := named_count (byIndex m) |>.

(** ** Lookups.  [None] is the nil map. *)

(** [Iface], with the counter of misses it advances. *)
Definition IfMap_Iface (om : option IfMap) (idx : Z) (unmapped : Z) : Iface * Z :=
  match om with
  | None => (zeroIface, unmapped)
  | Some m => match byIndex m !! idx with
              | Some i => (i, unmapped)
              | None => (zeroIface, add64 unmapped 1)
              end
  end.

Definition map_WANFor (m : IfMap) (addr : Addr) : option Iface :=
  let addr := Unmap addr in if negb (IsValid addr) then None else wanAddr m !! addr.

Definition map_IsWAN (m : IfMap) (device : string) : bool :=
  if str_empty device then false else bool_decide (device ∈ wanDev m).

Definition map_IfaceForDevice (m : IfMap) (device : string) : option Iface :=
  if str_empty device then None else byDevice m !! device.

Definition map_ParentOf (m : IfMap) (device : string) : option string :=
  if str_empty device then None
  else match parents m !! device with
       | Some p => if str_empty p then None else Some p
       | None => None
       end.

Definition map_HasVLANChildren (m : IfMap) (device : string) : bool :=
  if str_empty device then false else bool_decide (device ∈ trunks m).

(** The scan of [VLANChildFor]; [None] is the early return on ambiguity. *)
Fixpoint child_scan (p : string) (addr : Addr) (found : Iface) (device : string) (cns : list childNet)
  : option Iface :=
  match cns with
  | [] => Some found
  | cn :: cns =>
      if negb (Contains (prefix cn) addr) then child_scan p addr found device cns
      else if negb (str_empty device) && negb (str_eq (Device (iface cn)) device) then None
      else child_scan p addr (if str_eq (parent cn) p then iface cn else zeroIface) (Device (iface cn)) cns
  end.

Definition map_VLANChildFor (m : IfMap) (p : string) (addr : Addr) : option Iface :=
  if str_empty p || negb (IsValid addr) then None
  else match child_scan p (Unmap addr) zeroIface "" (childNets m) with
       | None => None
       | Some found => if str_empty (Device found) then None else Some found
       end.

#[export] Instance ifmap_topology : IfTopology IfMap := {|
  WANFor := map_WANFor; ParentOf := map_ParentOf; HasVLANChildren := map_HasVLANChildren;
  VLANChildFor := map_VLANChildFor; IsWAN := Some map_IsWAN; IfaceForDevice := Some map_IfaceForDevice |}.

Definition IfMap_Age (om : option IfMap) (now : Time) : Duration :=
  match om with
  | None => 0
  | Some m => if IsZero (built m) then 0 else let d := time_Sub now (built m) in if d <? 0 then 0 else d
  end.

(** [Stats]; [unmapped] is the counter the map is attached to. *)
Record IfMapStats := mkMapStats {
  sEntries : Z; sOverridden : Z; Conflicts : Z; ConflictsDiffering : Z; ConflictsAbsent : Z;
  StatedIndexDisagreements : Z; UnlistedDevices : Z; UnmappedLookups : Z; sNamed : Z }.

Definition IfMap_Stats (om : option IfMap) (unmapped : Z) : IfMapStats :=
  match om with
  | None => mkMapStats 0 0 0 0 0 0 0 0 0
  | Some m =>
      mkMapStats (zsize (byIndex m)) (overridden m) (conflictsDiffering m + conflictsAbsent m)
        (conflictsDiffering m) (conflictsAbsent m) (disagreements m) (unlisted m) unmapped (nNamed m)
  end.

Definition BuiltAt (om : option IfMap) : Time := match om with None => zero_time | Some m => built m end.

(** [Entries]: the map rendered in index order. *)
Record IfaceEntry := mkEntry {
  xIndex : Z; xDevice : string; xName : string; xOverridden : bool; xStated : Z; xDisagrees : bool }.

Definition entry_of (m : IfMap) (ki : Z * Iface) : IfaceEntry :=
  let '(idx, i) := ki in
  let e := mkEntry idx (Device i) (Name i) (bool_decide (idx ∈ overriddenIdx m)) in
  match stated m !! Device i with
  | Some s => if s =? 0 then e 0 false else e s (negb (s =? idx))
  | None => e 0 false
  end.

Definition Entries (m : IfMap) : list IfaceEntry :=
  sort_by (fun a b => xIndex a <? xIndex b) (map (entry_of m) (map_to_list (byIndex m))).

(** ** The ordering decides the index *)

(** The ordering loop over a prefix of the ordering. *)
Definition placed (a : metaAcc) (m : IfMap) (order : list string) : IfMap * gmap string Iface :=
  fold_left (order_row a) (imap pair order) (m, ∅).

Lemma imap_pair_snoc {A} (l : list A) x : imap pair (l ++ [x]) = imap pair l ++ [(length l, x)].
Proof. rewrite imap_app. cbn. by rewrite Nat.add_0_r. Qed.

Lemma placed_snoc a m order d :
  placed a m (order ++ [d]) = order_row a (placed a m order) (length order, d).
Proof. unfold placed. by rewrite imap_pair_snoc, fold_left_app. Qed.

(** The device of a slot. *)
Definition slot (order : list string) (idx : Z) : option string :=
  if 1 <=? idx then
    match order !! Z.to_nat (idx - 1) with
    | Some d => if str_empty d then None else Some d
    | None => None
    end
  else None.

Lemma slot_snoc order d idx :
  slot (order ++ [d]) idx =
  if idx =? zlen order + 1 then (if str_empty d then None else Some d) else slot order idx.
Proof.
  unfold slot, zlen. destruct (Z.leb_spec 1 idx).
  2: { by rewrite (proj2 (Z.eqb_neq _ _)) by lia. }
  destruct (Z.eqb_spec idx (Z.of_nat (length order) + 1)) as [->|Hne].
  - replace (Z.to_nat _) with (length order) by lia. by rewrite list_lookup_middle.
  - destruct (decide (Z.to_nat (idx - 1) < length order)%nat) as [Hlt|Hge].
    + by rewrite lookup_app_l.
    + rewrite !lookup_ge_None_2; [done|lia|]. rewrite length_app. cbn. lia.
Qed.

(** What every row leaves alone, and what it writes. *)
Lemma order_row_byIndex a m n i d k :
  byIndex (fst (order_row a (m, n) (i, d))) !! k
  = if negb (str_empty d) && (k =? u32 (Z.of_nat i + 1))
    then Some (slot_iface a (u32 (Z.of_nat i + 1)) d) else byIndex m !! k.
Proof.
  unfold order_row. destruct (str_empty d) eqn:E; cbn [negb andb fst]; [done|].
  cbn [update byIndex]. destruct (Z.eqb_spec k (u32 (Z.of_nat i + 1))) as [->|Hne].
  - by rewrite lookup_insert_eq.
  - rewrite lookup_insert_ne by done. repeat case_match; done.
Qed.

Lemma placed_byIndex a m order idx :
  zlen order < 2 ^ 32 - 1 -> byIndex m = {[0 := mkIface "" LocalOriginName 0 false false]} ->
  byIndex (fst (placed a m order)) !! idx
  = if idx =? 0 then Some (mkIface "" LocalOriginName 0 false false)
    else slot_iface a idx <$> slot order idx.
Proof.
  intros Hlen Hm. induction order as [|d order IH] using rev_ind.
  - cbn. rewrite Hm. unfold slot. cbn. destruct (Z.eqb_spec idx 0) as [->|]; [by rewrite lookup_singleton_eq|].
    rewrite lookup_singleton_ne by done. by destruct (1 <=? idx).
  - unfold zlen in Hlen. rewrite length_app in Hlen. cbn in Hlen.
    rewrite placed_snoc. destruct (placed a m order) as [m' n'] eqn:E. rewrite order_row_byIndex.
    cbn [fst] in IH. rewrite IH, slot_snoc by (unfold zlen; lia). unfold zlen.
    rewrite u32_small by (unfold is_u32; lia).
    destruct (Z.eqb_spec idx (Z.of_nat (length order) + 1)) as [->|Hne].
    + rewrite (proj2 (Z.eqb_neq _ _)) by lia. destruct (str_empty d); cbn [negb andb]; [|done].
      cbn. unfold slot. rewrite lookup_ge_None_2 by lia. by destruct (1 <=? _).
    + by rewrite andb_false_r.
Qed.

Lemma order_row_rest a m n i d :
  let m' := fst (order_row a (m, n) (i, d)) in
  wanDev m' = wanDev m /\ parents m' = parents m /\ trunks m' = trunks m /\ childNets m' = childNets m
  /\ stated m' = stated m /\ overriddenIdx m' = overriddenIdx m.
Proof. unfold order_row. destruct (str_empty d); [done|]. cbn. repeat case_match; done. Qed.

(** The two indices the overrides use hold interfaces that answer to their key. *)
Definition index_ok (st : IfMap * gmap string Iface) : Prop :=
  (forall d i, byDevice (fst st) !! d = Some i -> Device i = d /\ d <> "")
  /\ (forall n i, snd st !! n = Some i -> Name i = n /\ n <> "").

Lemma slot_iface_fields a idx d :
  Device (slot_iface a idx d) = d /\ Index (slot_iface a idx d) = idx
  /\ Name (slot_iface a idx d) = iName (default zeroInfo (meta a !! d)) /\ Corrected (slot_iface a idx d) = false.
Proof. unfold slot_iface. by destruct (_ && _). Qed.

Lemma order_row_byDevice a m n i d k :
  byDevice (fst (order_row a (m, n) (i, d))) !! k
  = if negb (str_empty d) && str_eq k d then Some (slot_iface a (u32 (Z.of_nat i + 1)) d) else byDevice m !! k.
Proof.
  unfold order_row. destruct (str_empty d) eqn:E; cbn [negb andb fst]; [done|].
  cbn [update byDevice]. destruct (str_eq k d) eqn:Ek; bool_prop.
  - subst. by rewrite lookup_insert_eq.
  - rewrite lookup_insert_ne by done. repeat case_match; done.
Qed.

Lemma order_row_index_ok a m n i d : index_ok (m, n) -> index_ok (order_row a (m, n) (i, d)).
Proof.
  intros [Hd Hn]. split.
  - intros k x. rewrite order_row_byDevice. destruct (negb (str_empty d) && str_eq k d) eqn:E; [|apply Hd].
    bool_prop. subst. intros [= <-]. split; [apply slot_iface_fields|]. by apply String.eqb_neq.
  - unfold order_row. destruct (str_empty d); [exact Hn|]. cbn [snd].
    destruct (str_empty (iName _)) eqn:E; [exact Hn|]. destruct (n !! iName _) eqn:En; [exact Hn|].
    intros k x. rewrite lookup_insert_Some. intros [[<- <-]|[_ H]]; [|by apply Hn].
    split; [apply slot_iface_fields|by apply String.eqb_neq].
Qed.

Lemma placed_index_ok a m order : byDevice m = ∅ -> index_ok (placed a m order).
Proof.
  intros Hm. induction order as [|d order IH] using rev_ind.
  - split; cbn; [rewrite Hm|]; intros ? ? H; by rewrite lookup_empty in H.
  - rewrite placed_snoc. destruct (placed a m order) as [m' n']. by apply order_row_index_ok.
Qed.

(** ** Overrides win, each for its own index *)

(** The value an override states, if it states one. *)
Definition override_of (ov : gmap Z string) (idx : Z) : option string :=
  raw ← ov !! idx;
  let v := TrimSpace raw in if str_empty v then None else Some v.

Lemma override_row_byIndex byName m k raw j :
  byIndex (override_row byName m (k, raw)) !! j
  = if negb (str_empty (TrimSpace raw)) && (j =? k)
    then Some (resolve_override m byName (TrimSpace raw) k) else byIndex m !! j.
Proof.
  unfold override_row. destruct (str_empty (TrimSpace raw)); cbn [negb andb]; [done|].
  cbn [update byIndex]. destruct (Z.eqb_spec j k) as [->|Hne].
  - by rewrite lookup_insert_eq.
  - rewrite lookup_insert_ne by done. repeat case_match; done.
Qed.

Lemma override_row_rest byName m kv :
  let m' := override_row byName m kv in
  byDevice m' = byDevice m /\ wanAddr m' = wanAddr m /\ wanDev m' = wanDev m /\ parents m' = parents m
  /\ trunks m' = trunks m /\ childNets m' = childNets m.
Proof. destruct kv as [k raw]. unfold override_row. repeat case_match; done. Qed.

Lemma overrides_rest byName l m :
  let m' := fold_left (override_row byName) l m in
  byDevice m' = byDevice m /\ wanAddr m' = wanAddr m /\ wanDev m' = wanDev m /\ parents m' = parents m
  /\ trunks m' = trunks m /\ childNets m' = childNets m.
Proof.
  cbv zeta. revert m. induction l as [|kv l IH]; intros m; [done|]. cbn [fold_left].
  destruct (IH (override_row byName m kv)) as (-> & -> & -> & -> & -> & ->). apply override_row_rest.
Qed.

Lemma overrides_byIndex byName l m j :
  NoDup l.*1 ->
  byIndex (fold_left (override_row byName) l m) !! j
  = match override_of (list_to_map l) j with
    | Some v => Some (resolve_override m byName v j)
    | None => byIndex m !! j
    end.
Proof.
  revert m. induction l as [|[k raw] l IH]; intros m Hnd; [done|].
  cbn in Hnd. apply NoDup_cons in Hnd as [Hk Hnd]. cbn [fold_left list_to_map foldr].
  rewrite (IH _ Hnd), override_row_byIndex. unfold override_of. cbn [uncurry curry fst snd list_to_map].
  assert (forall v i, resolve_override (override_row byName m (k, raw)) byName v i = resolve_override m byName v i)
    as Hres.
  { intros v i. unfold resolve_override. by destruct (override_row_rest byName m (k, raw)) as (-> & _). }
  destruct (Z.eqb_spec j k) as [->|Hne].
  - rewrite not_elem_of_list_to_map_1 by done. rewrite lookup_insert_eq. cbn.
    by destruct (str_empty (TrimSpace raw)).
  - rewrite lookup_insert_ne by done. rewrite andb_false_r.
    destruct (list_to_map l !! j) as [r|]; cbn; [|done]. destruct (str_empty (TrimSpace r)); [done|].
    by rewrite Hres.
Qed.

(** The map before the overrides. *)
Definition derived (inp : IfMapInput) : IfMap * gmap string Iface :=
  let a := gather (inIfaces inp) in
  placed a (mkIfMap {[0 := mkIface "" LocalOriginName 0 false false]} ∅ ∅ (aWanDev a) (aParents a) (aTrunks a)
              [] (inStated inp) ∅ (inBuilt inp) 0 0 0 0 0 0) (inOrder inp).

Lemma build_fields inp :
  let m := BuildIfMap inp in let d := fst (derived inp) in
  byDevice m = byDevice d /\ wanAddr m = wanAddr d /\ wanDev m = wanDev d /\ parents m = parents d
  /\ trunks m = trunks d /\ childNets m = flat_map (child_rows d) (inIfaces inp).
Proof.
  cbv zeta. unfold BuildIfMap, derived, placed.
  destruct (fold_left (order_row _) _ _) as [m n]. cbn [fst].
  set (m1 := m <| unlisted := _ |>). set (m2 := m1 <| childNets := _ |>).
  destruct (overrides_rest n (map_to_list (inOverride inp)) m2) as (H1 & H2 & H3 & H4 & H5 & H6).
  cbn [update byDevice wanAddr wanDev parents trunks childNets]. by rewrite H1, H2, H3, H4, H5, H6.
Qed.

Lemma build_byIndex inp j :
  byIndex (BuildIfMap inp) !! j
  = match override_of (inOverride inp) j with
    | Some v => Some (resolve_override (fst (derived inp)) (snd (derived inp)) v j)
    | None => byIndex (fst (derived inp)) !! j
    end.
Proof.
  unfold BuildIfMap, derived, placed. destruct (fold_left (order_row _) _ _) as [m n]. cbn [fst snd].
  cbn [update byIndex]. rewrite overrides_byIndex by apply NoDup_fst_map_to_list.
  by rewrite list_to_map_to_list.
Qed.

Lemma derived_byIndex inp idx :
  zlen (inOrder inp) < 2 ^ 32 - 1 ->
  byIndex (fst (derived inp)) !! idx
  = if idx =? 0 then Some (mkIface "" LocalOriginName 0 false false)
    else slot_iface (gather (inIfaces inp)) idx <$> slot (inOrder inp) idx.
Proof. intros H. by apply placed_byIndex. Qed.

Lemma derived_index_ok inp : index_ok (derived inp).
Proof. by apply placed_index_ok. Qed.

(** Metadata is joined by device name: the last row of a device is the one that
    counts, wherever the others are. *)
Definition row_of (infos : list IfaceInfo) (dev : string) : option IfaceInfo :=
  last (filter (fun i => iDevice i = dev) infos).

Lemma gather_snoc infos info : gather (infos ++ [info]) = meta_row (gather infos) info.
Proof. unfold gather. by rewrite fold_left_app. Qed.

Lemma meta_row_meta a info :
  meta (meta_row a info) = if str_empty (iDevice info) then meta a else <[iDevice info := info]> (meta a).
Proof. unfold meta_row. by destruct (str_empty (parentOfIface info)), (str_empty (iDevice info)),
    (str_empty (iName info)), (iIsWAN info). Qed.

Lemma gather_meta infos dev : dev <> "" -> meta (gather infos) !! dev = row_of infos dev.
Proof.
  intros Hd. unfold row_of. induction infos as [|info infos IH] using rev_ind; [done|].
  rewrite gather_snoc, meta_row_meta, filter_app. unfold str_empty.
  destruct (str_eq (iDevice info) "") eqn:E; bool_prop.
  - rewrite filter_cons_False by congruence. by rewrite filter_nil, app_nil_r.
  - destruct (decide (iDevice info = dev)) as [<-|Hne].
    + rewrite filter_cons_True, filter_nil, last_snoc by done. by rewrite lookup_insert_eq.
    + rewrite filter_cons_False, filter_nil, app_nil_r by done. by rewrite lookup_insert_ne.
Qed.

Lemma resolve_override_spec inp v idx :
  let r := resolve_override (fst (derived inp)) (snd (derived inp)) v idx in
  Index r = idx /\
  if bool_decide (is_Some (byDevice (fst (derived inp)) !! v)) then Device r = v
  else Name r = v.
Proof.
  cbv zeta. unfold resolve_override. destruct (derived_index_ok inp) as [Hd Hn].
  destruct (byDevice (fst (derived inp)) !! v) as [i|] eqn:E.
  - rewrite bool_decide_eq_true_2 by done. destruct (Hd _ _ E) as [Hi _].
    destruct i. unfold update. cbn in *. by case_match.
  - rewrite bool_decide_eq_false_2 by (intros [? [=]]).
    destruct (snd (derived inp) !! v) as [i|] eqn:E'; cbn [default from_option id].
    + destruct (Hn _ _ E') as [Hi _]. destruct i. unfold update. cbn in *. by case_match.
    + unfold update. cbn. by case_match.
Qed.

(** ** WAN addresses *)

(** A listed device whose metadata claims the address. *)
Definition claims (a : metaAcc) (x : Addr) (slot : nat * string) : bool :=
  let info := default zeroInfo (meta a !! snd slot) in
  negb (str_empty (snd slot)) && iIsWAN info && IsValid x && bool_decide (x ∈ map Unmap (iAddrs info)).

Lemma claim_addr_lookup i m y x :
  claim_addr i m y !! x
  = match m !! x with
    | Some e => Some e
    | None => if IsValid x && bool_decide (x = Unmap y) then Some i else None
    end.
Proof.
  unfold claim_addr. case_bool_decide as Hx.
  - subst x. destruct (IsValid (Unmap y)); cbn; [|by destruct (m !! Unmap y)].
    destruct (m !! Unmap y) as [e|] eqn:E; [by rewrite E|]. by rewrite lookup_insert_eq.
  - rewrite andb_false_r. destruct (negb (IsValid (Unmap y))); [by destruct (m !! x)|].
    destruct (m !! Unmap y); [by destruct (m !! x)|]. rewrite lookup_insert_ne by done. by destruct (m !! x).
Qed.

Lemma claim_addrs_lookup info i m x :
  claim_addrs info i m !! x
  = match m !! x with
    | Some e => Some e
    | None => if iIsWAN info && IsValid x && bool_decide (x ∈ map Unmap (iAddrs info)) then Some i else None
    end.
Proof.
  unfold claim_addrs. destruct (iIsWAN info); cbn [andb]; [|by destruct (m !! x)].
  generalize (iAddrs info) as l. intros l. revert m. induction l as [|y l IH]; intros m.
  - cbn. rewrite andb_false_r. by destruct (m !! x).
  - cbn [fold_left]. rewrite IH, claim_addr_lookup. destruct (m !! x); [done|].
    destruct (IsValid x); cbn [andb]; [|done]. cbn [map]. destruct (decide (x = Unmap y)) as [H1|H1].
    + rewrite (bool_decide_eq_true_2 (x = _)) by done.
      rewrite (bool_decide_eq_true_2 (x ∈ _ :: _)); [done|]. subst. set_solver.
    + rewrite (bool_decide_eq_false_2 (x = _)) by done. rewrite (bool_decide_ext (x ∈ Unmap y :: map Unmap l) (x ∈ map Unmap l)); [done|].
      rewrite elem_of_cons. naive_solver.
Qed.

Lemma find_snoc {A} (f : A -> bool) l x :
  find f (l ++ [x]) = match find f l with Some y => Some y | None => if f x then Some x else None end.
Proof. induction l as [|y l IH]; [done|]. cbn. by destruct (f y). Qed.

Lemma order_row_wanAddr a m n i d x :
  wanAddr (fst (order_row a (m, n) (i, d))) !! x
  = match wanAddr m !! x with
    | Some e => Some e
    | None => if claims a x (i, d) then Some (slot_iface a (u32 (Z.of_nat i + 1)) d) else None
    end.
Proof.
  unfold order_row, claims. cbn [snd]. destruct (str_empty d) eqn:E; cbn [negb andb fst].
  - by destruct (wanAddr m !! x).
  - cbn [update wanAddr]. rewrite claim_addrs_lookup.
    destruct (stated m !! d) as [s|]; [destruct (_ && _)|]; done.
Qed.

Lemma placed_wanAddr a m order x :
  wanAddr m = ∅ ->
  wanAddr (fst (placed a m order)) !! x
  = (fun '(k, d) => slot_iface a (u32 (Z.of_nat k + 1)) d) <$> find (claims a x) (imap pair order).
Proof.
  intros Hm. induction order as [|d order IH] using rev_ind.
  - cbn. by rewrite Hm.
  - rewrite placed_snoc, imap_pair_snoc, find_snoc. destruct (placed a m order) as [m' n'].
    rewrite order_row_wanAddr. cbn [fst] in IH. rewrite IH.
    destruct (find _ (imap pair order)) as [[k e]|]; cbn; [done|].
    by destruct (claims a x (length order, d)).
Qed.

(** ** VLAN children *)

(** The configured child subnets that contain an address. *)
Definition owners (m : IfMap) (addr : Addr) : list childNet :=
  filter (fun cn => Contains (prefix cn) (Unmap addr)) (childNets m).

Definition verdict_of (p : string) (cn : childNet) : Iface := if str_eq (parent cn) p then iface cn else zeroIface.

Lemma child_scan_some p addr found d cns :
  d <> "" -> Forall (fun cn => Device (iface cn) <> "") cns ->
  let ms := filter (fun cn => Contains (prefix cn) addr) cns in
  child_scan p addr found d cns
  = if forallb (fun cn => str_eq (Device (iface cn)) d) ms
    then Some (match last ms with Some cn => verdict_of p cn | None => found end) else None.
Proof.
  cbv zeta. intros Hd Hne. revert found. induction cns as [|cn cns IH]; intros found; [done|].
  apply Forall_cons in Hne as [_ Hne]. cbn [child_scan].
  destruct (Contains (prefix cn) addr) eqn:Ec; cbn [negb].
  - rewrite filter_cons_True by (rewrite Ec; exact I). cbn [forallb].
    assert (str_empty d = false) as -> by by apply String.eqb_neq. cbn [negb andb].
    destruct (str_eq (Device (iface cn)) d) eqn:Ed; cbn [negb andb]; [|done]. bool_prop. subst d.
    rewrite (IH Hne). destruct (forallb _ _); [|done]. f_equal.
    destruct (filter _ cns) as [|x l] eqn:Ef; [done|]. rewrite last_cons_cons. by destruct (last (x :: l)) eqn:El;
      [|apply last_None in El].
  - rewrite filter_cons_False by (rewrite Ec; exact id). by apply IH.
Qed.

Lemma child_scan_spec p addr cns :
  Forall (fun cn => Device (iface cn) <> "") cns ->
  child_scan p addr zeroIface "" cns
  = match filter (fun cn => Contains (prefix cn) addr) cns with
    | [] => Some zeroIface
    | cn :: ms =>
        if forallb (fun x => str_eq (Device (iface x)) (Device (iface cn))) ms
        then Some (verdict_of p (default cn (last ms))) else None
    end.
Proof.
  induction cns as [|cn cns IH]; intros Hne; [done|]. apply Forall_cons in Hne as [Hcn Hne].
  cbn [child_scan]. destruct (Contains (prefix cn) addr) eqn:Ec; cbn [negb].
  - rewrite filter_cons_True by (rewrite Ec; exact I). cbn [str_empty negb andb].
    change (str_empty "") with true. cbn [negb andb].
    rewrite child_scan_some by done. by destruct (last _).
  - rewrite filter_cons_False by (rewrite Ec; exact id). by apply IH.
Qed.

(** Every child subnet belongs to a device with a recorded parent. *)
Definition nets_ok (m : IfMap) : Prop :=
  Forall (fun cn => Device (iface cn) <> "" /\ parent cn <> ""
                    /\ parents m !! Device (iface cn) = Some (parent cn)) (childNets m).

Lemma build_nets_ok inp : nets_ok (BuildIfMap inp).
Proof.
  destruct (build_fields inp) as (_ & _ & _ & Hp & _ & Hc). unfold nets_ok. rewrite Hp, Hc.
  apply Forall_forall. intros cn Hin. apply list_elem_of_In, in_flat_map in Hin as (info & _ & Hin).
  apply list_elem_of_In in Hin. unfold child_rows in Hin.
  destruct (str_empty (iDevice info) || _ || _) eqn:E; [by apply elem_of_nil in Hin|].
  bool_prop. apply list_elem_of_fmap in Hin as (pfx & -> & _). cbn [iface parent].
  destruct (parents (fst (derived inp)) !! iDevice info) as [p|] eqn:Ep; [|done]. cbn [default from_option id] in *.
  assert (Device (default (mkIface (iDevice info) (iName info) 0 false false)
            (byDevice (fst (derived inp)) !! iDevice info)) = iDevice info) as ->.
  { destruct (byDevice _ !! _) as [i|] eqn:Ei; [|done]. by apply (derived_index_ok inp). }
  split; [by apply String.eqb_neq|]. split; [by apply String.eqb_neq|done].
Qed.

(** Every parent is a trunk. *)
Lemma meta_row_trunks a info :
  (forall c p, aParents a !! c = Some p -> p ∈ aTrunks a) ->
  forall c p, aParents (meta_row a info) !! c = Some p -> p ∈ aTrunks (meta_row a info).
Proof.
  intros H c p.
  assert (aParents (meta_row a info) = (if str_empty (parentOfIface info) then aParents a
            else <[iDevice info := parentOfIface info]> (aParents a))
          /\ aTrunks (meta_row a info) = if str_empty (parentOfIface info) then aTrunks a
            else {[parentOfIface info]} ∪ aTrunks a) as [-> ->].
  { unfold meta_row. by destruct (str_empty (parentOfIface info)), (str_empty (iDevice info)),
      (str_empty (iName info)), (iIsWAN info). }
  destruct (str_empty (parentOfIface info)); [apply H|].
  rewrite lookup_insert_Some. intros [[_ <-]|[_ Hp]]; [set_solver|]. apply H in Hp. set_solver.
Qed.

Lemma build_trunks inp c p : parents (BuildIfMap inp) !! c = Some p -> p ∈ trunks (BuildIfMap inp).
Proof.
  destruct (build_fields inp) as (_ & _ & _ & -> & -> & _).
  assert (parents (fst (derived inp)) = aParents (gather (inIfaces inp))
          /\ trunks (fst (derived inp)) = aTrunks (gather (inIfaces inp))) as [-> ->].
  { unfold derived. induction (inOrder inp) as [|d order IH] using rev_ind; [done|].
    rewrite placed_snoc. destruct (placed _ _ order) as [m n].
    destruct (order_row_rest (gather (inIfaces inp)) m n (length order) d) as (_ & -> & -> & _). exact IH. }
  revert c p. induction (inIfaces inp) as [|info infos IH] using rev_ind.
  - cbn. intros c p H. by rewrite lookup_empty in H.
  - rewrite gather_snoc. by apply meta_row_trunks.
Qed.

Lemma vlan_child_cases inp p a :
  p <> "" -> IsValid a = true ->
  match map_VLANChildFor (BuildIfMap inp) p a with
  | Some i =>
      (exists cn, cn ∈ owners (BuildIfMap inp) a /\ iface cn = i /\ parent cn = p)
      /\ forall cn, cn ∈ owners (BuildIfMap inp) a -> Device (iface cn) = Device i
  | None =>
      (exists cn cn', cn ∈ owners (BuildIfMap inp) a /\ cn' ∈ owners (BuildIfMap inp) a
                      /\ Device (iface cn) <> Device (iface cn'))
      \/ forall cn, cn ∈ owners (BuildIfMap inp) a -> parent cn <> p
  end.
Proof.
  intros Hp Ha. pose proof (build_nets_ok inp) as Hok. unfold map_VLANChildFor.
  assert (str_empty p = false) as -> by by apply String.eqb_neq. rewrite Ha. cbn [negb orb].
  assert (forall cn, cn ∈ owners (BuildIfMap inp) a -> Device (iface cn) <> ""
            /\ parents (BuildIfMap inp) !! Device (iface cn) = Some (parent cn)) as Hown.
  { intros cn [_ Hin]%list_elem_of_filter. unfold nets_ok in Hok. rewrite Forall_forall in Hok.
    destruct (Hok _ Hin) as (? & _ & ?). done. }
  rewrite child_scan_spec by (eapply Forall_impl; [exact Hok|]; cbn; by intros ? (? & _)).
  fold (owners (BuildIfMap inp) a). destruct (owners (BuildIfMap inp) a) as [|cn ms] eqn:Eo.
  { cbn. right. set_solver. }
  destruct (forallb _ ms) eqn:Ef.
  2: { left. apply not_true_iff_false in Ef. rewrite forallb_forall in Ef.
       destruct (decide (Exists (fun x => Device (iface x) <> Device (iface cn)) ms)) as [Hex|Hno].
       - apply Exists_exists in Hex as (x & Hx & Hne). exists x, cn. set_solver.
       - exfalso. apply Ef. intros x Hx. apply String.eqb_eq. apply list_elem_of_In in Hx.
         destruct (decide (Device (iface x) = Device (iface cn))); [done|].
         exfalso. apply Hno, Exists_exists. eauto. }
  rewrite forallb_forall in Ef. set (l := default cn (last ms)).
  assert (l ∈ cn :: ms) as Hl.
  { unfold l. destruct (last ms) as [x|] eqn:El; cbn; [|set_solver]. apply last_Some_elem_of in El. set_solver. }
  assert (forall x, x ∈ cn :: ms -> Device (iface x) = Device (iface cn)) as Hsame.
  { intros x [->|Hx]%elem_of_cons; [done|]. apply String.eqb_eq, Ef. by apply list_elem_of_In. }
  unfold verdict_of. destruct (str_eq (parent l) p) eqn:El; bool_prop.
  - assert (str_empty (Device (iface l)) = false) as -> by (apply String.eqb_neq, Hown; done).
    split; [by exists l|]. intros x Hx. by rewrite (Hsame x), (Hsame l).
  - cbn. right. intros x Hx Hpx. apply El. destruct (Hown x Hx) as [_ H1]. destruct (Hown l Hl) as [_ H2].
    rewrite (Hsame x Hx) in H1. rewrite (Hsame l Hl) in H2. congruence.
Qed.

(** ** Properties *)

(** The position of a device in the box's own list, and nothing else, decides
    the index it is resolved from: an index with no effective override resolves to the
    device listed at that position, named by the metadata of that device wherever its
    rows are; an index without a device is a counted miss with an empty interface; and
    an override resolves to the listed device or, failing that, to the interface name
    it states. *)
Theorem ifmap_exact inp idx n :
  zlen (inOrder inp) < 2 ^ 32 - 1 -> 0 < idx ->
  let '(i, n') := IfMap_Iface (Some (BuildIfMap inp)) idx n in
  match override_of (inOverride inp) idx, slot (inOrder inp) idx with
  | Some v, _ => n' = n /\ Index i = idx /\ (Device i = v \/ Name i = v)
  | None, Some dev =>
      n' = n /\ Index i = idx /\ Device i = dev
      /\ Name i = default "" (iName <$> row_of (inIfaces inp) dev) /\ Corrected i = false
  | None, None => n' = add64 n 1 /\ i = zeroIface
  end.
Proof.
  intros Hlen Hidx. cbn [IfMap_Iface]. rewrite build_byIndex.
  destruct (override_of (inOverride inp) idx) as [v|].
  - destruct (resolve_override_spec inp v idx) as [H1 H2]. split; [done|]. split; [done|].
    case_bool_decide; auto.
  - rewrite derived_byIndex by done. rewrite (proj2 (Z.eqb_neq _ _)) by lia.
    destruct (slot (inOrder inp) idx) as [dev|] eqn:E; cbn; [|done].
    destruct (slot_iface_fields (gather (inIfaces inp)) idx dev) as (H1 & H2 & H3 & H4).
    rewrite H1, H2, H3, H4. rewrite gather_meta.
    + by destruct (row_of (inIfaces inp) dev).
    + unfold slot in E. repeat case_match; simplify_eq. by apply String.eqb_neq.
Qed.

(** [WANFor] answers exactly for the addresses, plain or mapped, of the WAN
    devices the ordering lists, with the interface of the first such device. *)
Theorem wan_exact inp addr :
  WANFor (BuildIfMap inp) addr
  = (fun '(k, d) => slot_iface (gather (inIfaces inp)) (u32 (Z.of_nat k + 1)) d)
      <$> find (claims (gather (inIfaces inp)) (Unmap addr)) (imap pair (inOrder inp)).
Proof.
  cbn [WANFor ifmap_topology]. unfold map_WANFor.
  destruct (build_fields inp) as (_ & -> & _).
  assert (wanAddr (fst (derived inp)) !! Unmap addr
    = (fun '(k, d) => slot_iface (gather (inIfaces inp)) (u32 (Z.of_nat k + 1)) d)
        <$> find (claims (gather (inIfaces inp)) (Unmap addr)) (imap pair (inOrder inp))) as H
    by by apply placed_wanAddr.
  destruct (IsValid (Unmap addr)) eqn:Ev; cbn [negb]; [exact H|].
  destruct (find _ _) as [[k d]|] eqn:Ef; [|done]. apply find_some in Ef as [_ Ef].
  unfold claims in Ef. rewrite Ev in Ef. rewrite andb_false_r in Ef. done.
Qed.

(** [VLANChildFor] answers exactly when the evidence is unambiguous: some
    subnet of a child of that parent contains the address and no subnet of any other
    device does; every refusal is an ambiguity, or no child of that parent at all. *)
Theorem vlan_child_exact inp p a :
  p <> "" -> IsValid a = true ->
  match VLANChildFor (BuildIfMap inp) p a with
  | Some i =>
      (exists cn, cn ∈ owners (BuildIfMap inp) a /\ iface cn = i /\ parent cn = p)
      /\ forall cn, cn ∈ owners (BuildIfMap inp) a -> Device (iface cn) = Device i
  | None =>
      (exists cn cn', cn ∈ owners (BuildIfMap inp) a /\ cn' ∈ owners (BuildIfMap inp) a
                      /\ Device (iface cn) <> Device (iface cn'))
      \/ forall cn, cn ∈ owners (BuildIfMap inp) a -> parent cn <> p
  end.
Proof. apply vlan_child_cases. Qed.

(** Every map the builder makes keeps the promises of [topology_ok]. *)
Lemma build_topology_ok inp : topology_ok (BuildIfMap inp).
Proof.
  split; cbn.
  - intros child p. unfold map_ParentOf, map_HasVLANChildren. intros H. repeat case_match; simplify_eq; [congruence|].
    apply bool_decide_eq_true. by eapply build_trunks.
  - intros child p. unfold map_ParentOf. intros H. repeat case_match; simplify_eq.
    split; by apply String.eqb_neq.
  - intros p a i H.
    assert (p <> "" /\ IsValid a = true) as [Hp Ha].
    { unfold map_VLANChildFor in H. destruct (str_empty p || negb (IsValid a)) eqn:E; [done|].
      bool_prop. split; [by apply String.eqb_neq|done]. }
    pose proof (vlan_child_cases inp p a Hp Ha) as Hc. rewrite H in Hc.
    destruct Hc as [(cn & Hin & <- & <-) _]. apply list_elem_of_filter in Hin as [_ Hin].
    pose proof (build_nets_ok inp) as Hok. unfold nets_ok in Hok. rewrite Forall_forall in Hok.
    destruct (Hok _ Hin) as (Hd & Hpe & Hpar). unfold map_ParentOf.
    assert (str_empty (Device (iface cn)) = false) as -> by by apply String.eqb_neq.
    rewrite Hpar. by assert (str_empty (parent cn) = false) as -> by by apply String.eqb_neq.
Qed.

(** The device-name convention is read back: the parent of ["<parent>_vlan<tag>"]. *)
Fixpoint no_underscore (s : string) : bool :=
  match s with
  | EmptyString => true
  | String c s => negb (Ascii.eqb c "_") && no_underscore s
  end.

Lemma no_underscore_drop s n : no_underscore s = true -> HasPrefix (str_drop n s) vlanInfix = false.
Proof.
  revert n. induction s as [|c s IH]; intros n H; [by destruct n|].
  cbn in H. apply andb_true_iff in H as [Hc H]. destruct n as [|n]; [|by apply IH].
  cbn [str_drop]. unfold HasPrefix, vlanInfix. cbn -[ascii_dec].
  destruct (ascii_dec "_" c) as [<-|]; [discriminate Hc|done].
Qed.

Lemma digits_no_underscore s : all_digits s = true -> no_underscore s = true.
Proof.
  induction s as [|c s IH]; [done|]. cbn. intros H. apply andb_true_iff in H as [Hc H].
  rewrite (IH H), andb_true_r. apply negb_true_iff. apply Ascii.eqb_neq. by intros ->.
Qed.

Lemma parseVLANParent_name p tag :
  p <> "" -> tag <> "" -> all_digits tag = true -> parseVLANParent (p +:+ vlanInfix +:+ tag) = p.
Proof.
  intros Hp Ht Hd. unfold parseVLANParent. rewrite LastIndex_app; [| |done].
  2: { intros [|n] Hn; [lia|]. unfold vlanInfix at 1. rewrite str_app_cons. cbn [str_drop].
       apply no_underscore_drop. rewrite !str_app_cons, str_app_nil_l. cbn. by apply digits_no_underscore. }
  destruct (String.length p) as [|n] eqn:El; [by destruct p|]. rewrite <- El.
  rewrite <- str_length_app, <- (str_app_assoc p), str_drop_app.
  assert (str_empty tag = false) as -> by by apply String.eqb_neq. rewrite Hd.
  by rewrite str_app_assoc, str_take_app.
Qed.

(** ** Witnesses *)

(** A box where the metadata is in another order, and omits [pfsync0]. *)
Definition sample_input : IfMapInput :=
  mkInput ["ixl0"; "pfsync0"; "ixl0_vlan50"; "pppoe0"]
    [mkIfaceInfo "pppoe0" "WAN" "wan" "" "" [Addr4 0xCB007109] [] true;
     mkIfaceInfo "ixl0_vlan50" "IOT" "opt1" "50" "" [] [mkPrefix (Addr4 0x0A003201) 24] false;
     mkIfaceInfo "ixl0" "LAN" "lan" "" "" [] [mkPrefix (Addr4 0x0A000001) 24] false]
    ∅ {[2 := " WAN "]} unix_epoch.

Lemma ifmap_exact_witness :
  zlen (inOrder sample_input) < 2 ^ 32 - 1 /\ 0 < 4
  /\ IfMap_Iface (Some (BuildIfMap sample_input)) 4 0 = (mkIface "pppoe0" "WAN" 4 false false, 0)
  /\ let '(i, n') := IfMap_Iface (Some (BuildIfMap sample_input)) 4 0 in
     n' = 0 /\ Index i = 4 /\ Device i = "pppoe0" /\ Name i = "WAN" /\ Corrected i = false.
Proof.
  split; [vm_compute; reflexivity|]. split; [lia|]. split; [vm_compute; reflexivity|].
  assert (H : zlen (inOrder sample_input) < 2 ^ 32 - 1) by (vm_compute; reflexivity).
  exact (ifmap_exact sample_input 4 0 H ltac:(lia)).
Defined.

Lemma vlan_child_exact_witness :
  "ixl0" <> "" /\ IsValid (Addr4 0x0A003242) = true
  /\ VLANChildFor (BuildIfMap sample_input) "ixl0" (Addr4 0x0A003242)
     = Some (mkIface "ixl0_vlan50" "IOT" 3 false false)
  /\ exists cn, cn ∈ owners (BuildIfMap sample_input) (Addr4 0x0A003242) /\ parent cn = "ixl0".
Proof.
  split; [discriminate|]. split; [reflexivity|].
  assert (VLANChildFor (BuildIfMap sample_input) "ixl0" (Addr4 0x0A003242)
     = Some (mkIface "ixl0_vlan50" "IOT" 3 false false)) as E by (vm_compute; reflexivity).
  split; [exact E|].
  pose proof (vlan_child_exact sample_input "ixl0" (Addr4 0x0A003242)) as H.
  rewrite E in H. destruct H as [(cn & Hin & _ & Hp) _]; [discriminate|reflexivity|].
  exists cn. split; [exact Hin|exact Hp].
Defined.

End IfMap.
