(* ===== verification/Fifo.v ===== *)
(** * Bounded tables in order of insertion ([repair.go])

    The repair stage keeps beside each of its maps a slice of keys, consumed from a
    head index and compacted now and then.  This file has the slice, and the two
    relations between a map and its slice the stage maintains. *)

From stdpp Require Import base decidable list gmap.
From Stdlib Require Import ZArith Lia.
From S2P Require Import Prelude.

(** ** FIFO order

    A slice consumed from [hd]; the prefix before it is dropped now and then. *)

Record fifo (K : Type) := mkFifo { items : list K; hd : nat }.
Arguments mkFifo {K}.
Arguments items {K}.
Arguments hd {K}.

Definition pending {K} (q : fifo K) : list K := drop (hd q) (items q).
Definition push {K} (k : K) (q : fifo K) : fifo K := mkFifo (items q ++ [k]) (hd q).
Definition advance {K} (q : fifo K) : fifo K := mkFifo (items q) (S (hd q)).
Definition trim {K} (q : fifo K) : fifo K := mkFifo (pending q) 0.

(** [compact] and [compactHold]; [natCompact] trims at half. *)
Definition compact {K} (q : fifo K) : fifo K :=
  if (hd q =? 0)%nat then q
  else if ((hd q <? length (items q) / 2) && (hd q <? 1024))%nat then q
  else trim q.

Definition natCompact {K} (q : fifo K) : fifo K :=
  if (hd q =? 0)%nat then q else if (hd q <? length (items q) / 2)%nat then q else trim q.

(** ** Tables with an order of insertion *)

(** Every key of the table still has a slot ahead of the head. *)
Definition tracked {K A} `{Countable K} (m : gmap K A) (q : fifo K) : Prop :=
  (hd q <= length (items q))%nat /\ forall k, is_Some (m !! k) -> k ∈ pending q.

(** ... exactly one slot, and no other key has one. *)
Definition lined {K A} `{Countable K} (m : gmap K A) (q : fifo K) : Prop :=
  (hd q <= length (items q))%nat /\ NoDup (pending q) /\ forall k, k ∈ pending q <-> is_Some (m !! k).

Section fifo.
Context {K A : Type} `{Countable K}.
Implicit Types (m : gmap K A) (q : fifo K) (k : K).

Lemma pending_push k q : (hd q <= length (items q))%nat -> pending (push k q) = pending q ++ [k].
Proof. intros Hl. unfold pending, push. cbn. by rewrite drop_app_le. Qed.

Lemma pending_advance k ks q : pending q = k :: ks -> pending (advance q) = ks.
Proof. unfold pending, advance. cbn. intros E. by rewrite <- Nat.add_1_r, <- drop_drop, E. Qed.

Lemma advance_le k ks q : pending q = k :: ks -> (hd (advance q) <= length (items (advance q)))%nat.
Proof.
  unfold pending, advance. cbn. intros E. apply (f_equal length) in E. rewrite length_drop in E. cbn in E. lia.
Qed.

Lemma pending_trim q : pending (trim q) = pending q.
Proof. done. Qed.

Lemma pending_compact q : pending (compact q) = pending q.
Proof. unfold compact. by destruct (_ =? _)%nat; [|destruct (_ && _)]. Qed.

Lemma pending_natCompact q : pending (natCompact q) = pending q.
Proof. unfold natCompact. by destruct (_ =? _)%nat; [|destruct (_ <? _)%nat]. Qed.

Lemma compact_le q : (hd q <= length (items q))%nat -> (hd (compact q) <= length (items (compact q)))%nat.
Proof. unfold compact. intros ?. destruct (_ =? _)%nat; [|destruct (_ && _)]; cbn; lia. Qed.

Lemma natCompact_le q : (hd q <= length (items q))%nat -> (hd (natCompact q) <= length (items (natCompact q)))%nat.
Proof. unfold natCompact. intros ?. destruct (_ =? _)%nat; [|destruct (_ <? _)%nat]; cbn; lia. Qed.

Lemma ordered_push m q k x : tracked m q -> tracked (<[k := x]> m) (push k q).
Proof.
  intros [Hl Hm]. split; [cbn; rewrite length_app; lia|]. intros k'. rewrite pending_push by done.
  rewrite elem_of_app, list_elem_of_singleton. destruct (decide (k = k')) as [->|Hne]; [by right|].
  rewrite lookup_insert_ne by done. left. by apply Hm.
Qed.

Lemma tracked_advance m q k ks : pending q = k :: ks -> m !! k = None -> tracked m q -> tracked m (advance q).
Proof.
  intros E Hk [Hl Hm]. split; [by eapply advance_le|]. intros k' Hk'. rewrite (pending_advance _ _ _ E).
  specialize (Hm k' Hk'). rewrite E in Hm. apply elem_of_cons in Hm as [->|]; [|done].
  rewrite Hk in Hk'. by destruct Hk'.
Qed.

Lemma tracked_delete m q k : tracked m q -> tracked (delete k m) q.
Proof. intros [Hl Hm]. split; [done|]. intros k' [x Hx]. apply lookup_delete_Some in Hx as [_ Hx]. apply Hm. eauto. Qed.

Lemma ordered_pop m q k ks : pending q = k :: ks -> tracked m q -> tracked (delete k m) (advance q).
Proof. intros E Hm. eapply tracked_advance; [done|apply lookup_delete_eq|by apply tracked_delete]. Qed.

Lemma tracked_compact m q : tracked m q -> tracked m (compact q).
Proof. intros [Hl Hm]. split; [by apply compact_le|]. by rewrite pending_compact. Qed.

Lemma tracked_natCompact m q : tracked m q -> tracked m (natCompact q).
Proof. intros [Hl Hm]. split; [by apply natCompact_le|]. by rewrite pending_natCompact. Qed.

Lemma tracked_empty m q : tracked m q -> pending q = [] -> m = ∅.
Proof.
  intros [_ Hm] E. apply map_empty. intros k. apply eq_None_not_Some. intros Hk. apply Hm in Hk.
  rewrite E in Hk. by apply elem_of_nil in Hk.
Qed.

Lemma lined_push m q k x : m !! k = None -> lined m q -> lined (<[k := x]> m) (push k q).
Proof.
  intros Hk (Hl & Hnd & Hm). split; [cbn; rewrite length_app; lia|]. rewrite pending_push by done. split.
  - apply NoDup_app. split; [done|]. split; [|apply NoDup_singleton]. intros k' Hk' [= ->]%list_elem_of_singleton.
    apply Hm in Hk'. rewrite Hk in Hk'. by destruct Hk'.
  - intros k'. rewrite elem_of_app, list_elem_of_singleton, Hm.
    destruct (decide (k = k')) as [->|Hne]; [rewrite lookup_insert_eq; naive_solver|].
    rewrite lookup_insert_ne by done. naive_solver.
Qed.

Lemma lined_head m q k ks : pending q = k :: ks -> lined m q -> is_Some (m !! k) /\ k ∉ ks.
Proof.
  intros E (_ & Hnd & Hm). rewrite E in Hnd. apply NoDup_cons in Hnd as [Hk _]. split; [|done].
  apply Hm. rewrite E. set_solver.
Qed.

Lemma lined_pop m q k ks : pending q = k :: ks -> lined m q -> lined (delete k m) (advance q).
Proof.
  intros E (Hl & Hnd & Hm). split; [by eapply advance_le|]. rewrite (pending_advance _ _ _ E).
  rewrite E in Hnd, Hm. apply NoDup_cons in Hnd as [Hk Hnd]. split; [done|]. intros k'.
  destruct (decide (k' = k)) as [->|Hne].
  - rewrite lookup_delete_eq. split; [done|]. by intros [? [=]].
  - rewrite lookup_delete_ne by done. rewrite <- Hm, elem_of_cons. naive_solver.
Qed.

Lemma lined_compact m q : lined m q -> lined m (compact q).
Proof. intros (Hl & Hnd & Hm). split; [by apply compact_le|]. by rewrite pending_compact. Qed.

Lemma lined_update m q k x : is_Some (m !! k) -> lined m q -> lined (<[k := x]> m) q.
Proof.
  intros Hk (Hl & Hnd & Hm). split; [done|]. split; [done|]. intros k'. rewrite Hm.
  destruct (decide (k = k')) as [->|Hne]; [rewrite lookup_insert_eq; naive_solver|]. by rewrite lookup_insert_ne.
Qed.

End fifo.
