(* ===== verification/Repair.v ===== *)
(** * The repair stage ([repair.go])

    Five corrections on a NetFlow record: VLAN/parent de-duplication with a hold
    buffer, egress correction, policy-route correction, direction, and NAT-pair
    de-duplication.  The stage is generic in the interface topology ([IfTopology]).
    [admit_], [natAdmit] and the popping of held records each run under the stage's
    lock; they are the atomic steps of the theorems, so these hold for every
    interleaving of concurrent calls.  Go passes the record by pointer: the functions
    return it, repaired. *)

From stdpp Require Import base decidable list gmap sets strings sorting.
From Stdlib Require Import ZArith Lia.
From S2P Require Import Prelude Netip Record GoStrings Enrich IfMap Tables Fifo.
Import Enrich Tables.

Module Repair.

Definition dedupeTTL : Duration := 2 * Minute.
Definition vlanHoldWindow : Duration := 2 * Second.
Definition natConversationTTL : Duration := 15 * Minute.
Definition natConvSweepInterval : Duration := Second.

(** ** Keys *)

Record instanceKey := mkInstance {
  iproto : Z; isrc : Addr; idst : Addr; isport : Z; idport : Z;
  ifirst : Z; ilast : Z; ibytes : Z; ipackets : Z }.
#[export] Instance instanceKey_eq_dec : EqDecision instanceKey.
Proof. solve_decision. Defined.
#[export] Instance instanceKey_countable : Countable instanceKey.
Proof.
  refine (inj_countable' (fun k => ((iproto k, isrc k, idst k, isport k, idport k),
                                    (ifirst k, ilast k, ibytes k, ipackets k)))
            (fun '((a, b, c, d, e), (f, g, h, i)) => mkInstance a b c d e f g h i) _). by intros [].
Defined.

Definition keyOf (rec : Record_) : instanceKey :=
  let '(bytes, packets) := volumeOf rec in
  mkInstance (Proto rec) (Unmap (SrcAddr rec)) (Unmap (DstAddr rec)) (SrcPort rec) (DstPort rec)
    (UnixNano (Start rec)) (UnixNano (End_ rec)) bytes packets.

Record natKey := mkNatKey { ncanon : routeKey; nbytes : Z; npkts : Z }.
#[export] Instance natKey_eq_dec : EqDecision natKey.
Proof. solve_decision. Defined.
#[export] Instance natKey_countable : Countable natKey.
Proof.
  refine (inj_countable' (fun k => (ncanon k, nbytes k, npkts k)) (fun '(a, b, c) => mkNatKey a b c) _).
  by intros [].
Defined.

(** ** State *)

Record dedupeEntry := mkDedupe { din : string; dout : string; dseen : Time }.

Inductive natRole := natRolePre | natRolePost.
#[export] Instance natRole_eq_dec : EqDecision natRole.
Proof. solve_decision. Defined.
Record natSeenEntry := mkNatSeen { role : natRole; nseen : Time }.

Inductive RepairVerdict := RepairEmit | RepairDrop | RepairHold.
#[export] Instance RepairVerdict_eq_dec : EqDecision RepairVerdict.
Proof. solve_decision. Defined.

Section repair.
Context {M : Type} `{IfTopology M}.

Record heldRecord := mkHeld { hrec : Record_; hm : option M; hsnap : option Snapshot; arrived : Time }.

Definition deadline (h : heldRecord) : Time := time_Add (arrived h) vlanHoldWindow.

Record Repairer := mkRepairer {
  seen : gmap instanceKey dedupeEntry; order : fifo instanceKey;
  held : gmap instanceKey heldRecord; holdOrder : fifo instanceKey; dueEarly : list heldRecord;
  routes : option RouteTable; nats : option NATTable;
  natSeen : gmap natKey natSeenEntry; natOrder : fifo natKey; natCapped : Z;
  natConv : gmap routeKey Time; natConvSwept : Time; natConvCapped : Z;
  maxEntries : Z; maxHeld : Z;
  vlanDropped : Z; egressCorrected : Z; evicted : Z; capped : Z; childPreferred : Z;
  holdOverflow : Z; subnetAttrib : Z; lateChildCopies : Z;
  policyRouteCorrected : Z; policyRouteNoState : Z; policyRouteUnresolved : Z;
  policyRouteNoStateBy : gmap string Z; policyRouteUnresolvedBy : gmap string Z;
  natDuplicates : Z; natConvDuplicates : Z; natUnpaired : Z; natLatePreCopies : Z;
  prNotWANEgress : Z; prPostNAT : Z; prFIBAgreed : Z; prAlreadyOnWAN : Z }.
#[export] Instance eta_Repairer : Eta Repairer := fun r =>
  mkRepairer (seen r) (order r) (held r) (holdOrder r) (dueEarly r) (routes r) (nats r) (natSeen r)
    (natOrder r) (natCapped r) (natConv r) (natConvSwept r) (natConvCapped r) (maxEntries r) (maxHeld r)
    (vlanDropped r) (egressCorrected r) (evicted r) (capped r) (childPreferred r) (holdOverflow r)
    (subnetAttrib r) (lateChildCopies r) (policyRouteCorrected r) (policyRouteNoState r)
    (policyRouteUnresolved r) (policyRouteNoStateBy r) (policyRouteUnresolvedBy r) (natDuplicates r)
    (natConvDuplicates r) (natUnpaired r) (natLatePreCopies r) (prNotWANEgress r) (prPostNAT r)
    (prFIBAgreed r) (prAlreadyOnWAN r).

Definition NewRepairer (maxDedupeEntries maxHeld : Z) : Repairer :=
  mkRepairer ∅ (mkFifo [] 0) ∅ (mkFifo [] 0) [] None None ∅ (mkFifo [] 0) 0 ∅ zero_time 0
    maxDedupeEntries maxHeld 0 0 0 0 0 0 0 0 0 0 0 ∅ ∅ 0 0 0 0 0 0 0 0.

Definition SetRouteTable (t : option RouteTable) (r : Repairer) : Repairer := r <| routes := t |>.
Definition SetNATTable (t : option NATTable) (r : Repairer) : Repairer := r <| nats := t |>.

(** [bumpByInterface]; the nil map is the empty one. *)
Definition bumpByInterface (ifc : Iface) (counts : gmap string Z) : gmap string Z :=
  let name := if str_empty (Name ifc) then "unresolved" else Name ifc in
  <[name := add64 (default 0 (counts !! name)) 1]> counts.

(** ** VLAN topology tests *)

Definition isChildOf (child parent : string) (om : option M) : bool :=
  match om with
  | None => false
  | Some m =>
      if str_empty child || str_empty parent || str_eq child parent then false
      else match ParentOf m child with Some p => str_eq p parent | None => false end
  end.

Definition isVLANPair (a b : string) (om : option M) : bool :=
  match om with
  | None => false
  | Some m =>
      if str_empty a || str_empty b || str_eq a b then false
      else if match ParentOf m a with Some p => str_eq p b | None => false end then true
      else match ParentOf m b with Some p => str_eq p a | None => false end
  end.

Definition sideMatches (a b : string) (om : option M) : bool := str_eq a b || isVLANPair a b om.

Definition isDuplicateOf (aIn aOut bIn bOut : string) (om : option M) : bool :=
  sideMatches aIn bIn om && sideMatches aOut bOut om.

Definition moreSpecific (aIn aOut bIn bOut : string) (om : option M) : bool :=
  let better := isChildOf aIn bIn om || isChildOf aOut bOut om in
  let worse := isChildOf bIn aIn om || isChildOf bOut aOut om in
  better && negb worse.

Definition isVLANParentCopy (rec : Record_) (om : option M) : bool :=
  match om with
  | None => false
  | Some m =>
      let tag := VLANID rec in
      let dev := Device (In rec) in
      if str_empty tag || str_eq tag "0" || str_empty dev then false
      else
        let suffix := IfMap.vlanInfix +:+ tag in
        if HasSuffix dev suffix then false
        else match ParentOf m (dev +:+ suffix) with Some p => str_eq p dev | None => false end
  end.

Definition canBeBeaten (om : option M) (inn out : string) : bool :=
  match om with
  | None => false
  | Some m => HasVLANChildren m inn || HasVLANChildren m out
  end.

(** [attributeSide]: the child the side should name, if the evidence names one. *)
Definition attributeSide (side : Iface) (addr : Addr) (m : M) : option Iface :=
  if str_empty (Device side) || negb (IsValid addr) || negb (HasVLANChildren m (Device side)) then None
  else match VLANChildFor m (Device side) addr with
       | Some child => if str_eq (Device child) (Device side) then None else Some child
       | None => None
       end.

Definition attributed_mark (rec : Record_) : Record_ :=
  rec <| rRepairs ::= fun rp => rp <| VLANSubnetAttributed := true |> |>.

Definition attributeBySubnet (rec : Record_) (om : option M) : bool * Record_ :=
  match om with
  | None => (false, rec)
  | Some m =>
      let '(ingress, rec) := match attributeSide (In rec) (SrcAddr rec) m with
                             | Some c => (true, attributed_mark (rec <| In := c |>))
                             | None => (false, rec)
                             end in
      let '(egress, rec) := match attributeSide (Out rec) (DstAddr rec) m with
                            | Some c => (true, attributed_mark (rec <| Out := c |>))
                            | None => (false, rec)
                            end in
      (ingress || egress, rec)
  end.

(** ** The de-dup table *)

(** The scan of [expire] over the pending part of [order]. *)
Fixpoint expire_loop (cutoff : Time) (ks : list instanceKey) (r : Repairer) : Repairer :=
  match ks with
  | [] => r
  | k :: ks =>
      match seen r !! k with
      | Some e => if After (dseen e) cutoff then r
                  else expire_loop cutoff ks (r <| seen ::= delete k |> <| evicted ::= incr |>
                                                <| order ::= advance |>)
      | None => expire_loop cutoff ks (r <| order ::= advance |>)
      end
  end.

Definition expire (now : Time) (r : Repairer) : Repairer :=
  expire_loop (time_Add now (- dedupeTTL)) (pending (order r)) r <| order ::= compact |>.

Fixpoint dropOldest_loop (ks : list instanceKey) (r : Repairer) : Repairer :=
  match ks with
  | [] => r
  | k :: ks =>
      let r := r <| order ::= advance |> in
      match seen r !! k with
      | Some _ => r <| seen ::= delete k |>
      | None => dropOldest_loop ks r
      end
  end.

Definition dropOldest (r : Repairer) : Repairer := dropOldest_loop (pending (order r)) r.

Definition insert_ (k : instanceKey) (inn out : string) (now : Time) (r : Repairer) : Repairer :=
  let r := if (0 <? maxEntries r) && (maxEntries r <=? zsize (seen r))
           then dropOldest r <| capped ::= incr |> else r in
  r <| seen ::= <[k := mkDedupe inn out now]> |> <| order ::= push k |>.

(** A held record leaving the buffer is remembered as of its arrival. *)
Definition settle (k : instanceKey) (h : heldRecord) (r : Repairer) : Repairer :=
  insert_ k (Device (In (hrec h))) (Device (Out (hrec h))) (arrived h) (r <| held ::= delete k |>).

Fixpoint releaseOldest_loop (ks : list instanceKey) (r : Repairer) : Repairer :=
  match ks with
  | [] => r
  | k :: ks =>
      let r := r <| holdOrder ::= advance |> in
      match held r !! k with
      | None => releaseOldest_loop ks r
      | Some h => settle k h r <| dueEarly ::= fun l => l ++ [h] |> <| holdOverflow ::= incr |>
      end
  end.

Definition releaseOldestHeld (r : Repairer) : Repairer := releaseOldest_loop (pending (holdOrder r)) r.

Definition hold (k : instanceKey) (rec : Record_) (om : option M) (snap : option Snapshot) (now : Time)
    (r : Repairer) : Repairer :=
  let r := if (0 <? maxHeld r) && (maxHeld r <=? zsize (held r)) then releaseOldestHeld r else r in
  r <| held ::= <[k := mkHeld rec om snap now]> |> <| holdOrder ::= push k |>.

(** [admit_], under the lock. *)
Definition admit_ (rec : Record_) (om : option M) (snap : option Snapshot) (now : Time) (r : Repairer)
  : RepairVerdict * Record_ * Repairer :=
  let parentCopy := isVLANParentCopy rec om in
  let '(attributed, rec) := if parentCopy then (false, rec) else attributeBySubnet rec om in
  let key := keyOf rec in
  let inn := Device (In rec) in let out := Device (Out rec) in
  let r := expire now r in
  if parentCopy then (RepairDrop, rec, r <| vlanDropped ::= incr |>)
  else
    let r := if attributed then r <| subnetAttrib ::= incr |> else r in
    match held r !! key with
    | Some h =>
        let hIn := Device (In (hrec h)) in let hOut := Device (Out (hrec h)) in
        if negb (isDuplicateOf hIn hOut inn out om) then (RepairEmit, rec, r)
        else
          let r := r <| vlanDropped ::= incr |> in
          let r := if moreSpecific inn out hIn hOut om
                   then r <| held ::= <[key := mkHeld rec om snap (arrived h)]> |> <| childPreferred ::= incr |>
                   else r in
          (RepairDrop, rec, r)
    | None =>
        match seen r !! key with
        | Some prev =>
            if isDuplicateOf (din prev) (dout prev) inn out om then
              let r := r <| vlanDropped ::= incr |> in
              let r := if moreSpecific inn out (din prev) (dout prev) om
                       then r <| lateChildCopies ::= incr |> else r in
              (RepairDrop, rec, r)
            else (RepairEmit, rec, r)
        | None =>
            if canBeBeaten om inn out then (RepairHold, rec, hold key rec om snap now r)
            else (RepairEmit, rec, insert_ key inn out now r)
        end
    end.

(** ** The NAT-pair table *)

Definition couldBeTranslated (rec : Record_) : bool :=
  negb (Bool.eqb (IsPrivate (Unmap (SrcAddr rec))) (IsPrivate (Unmap (DstAddr rec)))).

Definition tupleOfRecord (rec : Record_) : option routeKey :=
  let src := Unmap (SrcAddr rec) in let dst := Unmap (DstAddr rec) in
  if negb (IsValid src) || negb (IsValid dst) then None
  else Some (mkRouteKey (Proto rec) src dst (SrcPort rec) (DstPort rec)).

Fixpoint natExpire_loop (cutoff : Time) (ks : list natKey) (r : Repairer) : Repairer :=
  match ks with
  | [] => r
  | k :: ks =>
      match natSeen r !! k with
      | Some e => if After (nseen e) cutoff then r
                  else natExpire_loop cutoff ks (r <| natSeen ::= delete k |> <| natOrder ::= advance |>)
      | None => natExpire_loop cutoff ks (r <| natOrder ::= advance |>)
      end
  end.

Definition natExpire (now : Time) (r : Repairer) : Repairer :=
  natExpire_loop (time_Add now (- dedupeTTL)) (pending (natOrder r)) r <| natOrder ::= natCompact |>.

Fixpoint natDropOldest_loop (ks : list natKey) (r : Repairer) : Repairer :=
  match ks with
  | [] => r
  | k :: ks =>
      let r := r <| natOrder ::= advance |> in
      match natSeen r !! k with
      | Some _ => r <| natSeen ::= delete k |>
      | None => natDropOldest_loop ks r
      end
  end.

Definition natDropOldest (r : Repairer) : Repairer := natDropOldest_loop (pending (natOrder r)) r.

Definition natRemember (k : natKey) (rl : natRole) (now : Time) (r : Repairer) : Repairer :=
  match natSeen r !! k with
  | Some _ => r
  | None =>
      let r := if (0 <? maxEntries r) && (maxEntries r <=? zsize (natSeen r))
               then natDropOldest r <| natCapped ::= incr |> else r in
      r <| natSeen ::= <[k := mkNatSeen rl now]> |> <| natOrder ::= push k |>
  end.

Definition natConvRemember (canon : routeKey) (now : Time) (r : Repairer) : Repairer :=
  match natConv r !! canon with
  | Some _ => r <| natConv ::= <[canon := now]> |>
  | None => if (0 <? maxEntries r) && (maxEntries r <=? zsize (natConv r))
            then r <| natConvCapped ::= incr |> else r <| natConv ::= <[canon := now]> |>
  end.

Definition natConvExpire (now : Time) (r : Repairer) : Repairer :=
  if zsize (natConv r) =? 0 then r
  else if negb (IsZero (natConvSwept r)) && (time_Sub now (natConvSwept r) <? natConvSweepInterval) then r
  else
    let cutoff := time_Add now (- natConversationTTL) in
    r <| natConvSwept := now |> <| natConv ::= filter (fun kv => After (snd kv) cutoff = true) |>.

(** [natAdmit]: [false] suppresses the record. *)
Definition natAdmit (rec : Record_) (now : Time) (r : Repairer) : bool * Repairer :=
  match nats r with
  | None => (true, r)
  | Some t =>
      match tupleOfRecord rec with
      | None => (true, r)
      | Some own =>
          let '(bytes, packets) := volumeOf rec in
          let r := natConvExpire now (natExpire now r) in
          match Canonical (Some t) own with
          | Some canon =>
              let k := mkNatKey canon bytes packets in
              if match natSeen r !! k with Some e => bool_decide (role e = natRolePre) | None => false end
              then (false, r <| natSeen ::= delete k |> <| natDuplicates ::= incr |>)
              else match natConv r !! canon with
                   | Some _ => (false, r <| natConvDuplicates ::= incr |>)
                   | None => (true, natRemember k natRolePost now r <| natUnpaired ::= incr |>)
                   end
          | None =>
              if negb (couldBeTranslated rec) then (true, r)
              else
                let r := if IsTranslatedPre (Some t) own then natConvRemember own now r else r in
                let k := mkNatKey own bytes packets in
                if match natSeen r !! k with Some e => bool_decide (role e = natRolePost) | None => false end
                then (true, r <| natSeen ::= delete k |> <| natLatePreCopies ::= incr |>)
                else (true, natRemember k natRolePre now r)
          end
      end
  end.

(** ** Egress, policy route, direction *)

Definition sameIface (observed deduced : Iface) : bool :=
  if negb (str_empty (Device observed)) && negb (str_empty (Device deduced))
  then str_eq (Device observed) (Device deduced)
  else negb (Index observed =? 0) && (Index observed =? Index deduced).

Definition correctEgress (rec : Record_) (om : option M) (r : Repairer) : Record_ * Repairer :=
  match om with
  | None => (rec, r)
  | Some m =>
      if negb (IsValid (SrcAddr rec)) then (rec, r)
      else match WANFor m (SrcAddr rec) with
           | None => (rec, r)
           | Some wan => if sameIface (Out rec) wan then (rec, r)
                         else (rec <| Out := wan <| Corrected := true |> |>, r <| egressCorrected ::= incr |>)
           end
  end.

Definition ifaceIsWAN (om : option M) (ifc : Iface) (selfAddr : Addr) : bool :=
  if Corrected ifc then true
  else match om with
       | None => false
       | Some m =>
           if str_empty (Device ifc) then false
           else match @IsWAN M _ with
                | Some isWAN => isWAN m (Device ifc)
                | None =>
                    if negb (IsValid selfAddr) then false
                    else match WANFor m selfAddr with
                         | Some w => negb (str_empty (Device w)) && str_eq (Device w) (Device ifc)
                         | None => false
                         end
                end
       end.

Definition correctPolicyRoute (rec : Record_) (om : option M) (r : Repairer) : Record_ * Repairer :=
  match routes r, om with
  | Some table, Some m =>
      if negb (IsValid (SrcAddr rec)) then (rec, r)
      else if negb (ifaceIsWAN (Some m) (Out rec) (SrcAddr rec)) then (rec, r <| prNotWANEgress ::= incr |>)
      else match WANFor m (SrcAddr rec) with
           | Some _ => (rec, r <| prPostNAT ::= incr |>)
           | None =>
               match Egress (Some table) (Proto rec) (SrcAddr rec) (SrcPort rec) (DstAddr rec) (DstPort rec) with
               | None => (rec, r <| policyRouteNoState ::= incr |>
                                 <| policyRouteNoStateBy ::= bumpByInterface (Out rec) |>)
               | Some device =>
                   if str_empty device then (rec, r <| prFIBAgreed ::= incr |>)
                   else if str_eq device (Device (Out rec)) then (rec, r <| prAlreadyOnWAN ::= incr |>)
                   else match @IfaceForDevice M _ with
                        | None => (rec, r)
                        | Some resolve =>
                            match resolve m device with
                            | None => (rec, r <| policyRouteUnresolved ::= incr |>
                                              <| policyRouteUnresolvedBy ::= bumpByInterface (Out rec) |>)
                            | Some ifc =>
                                (rec <| Out := ifc |>
                                     <| rRepairs ::= fun rp => rp <| PolicyRouteCorrected := true |> |>,
                                 r <| policyRouteCorrected ::= incr |>)
                            end
                        end
               end
           end
  | _, _ => (rec, r)
  end.

Definition netflowDirection (rec : Record_) (om : option M) : Direction :=
  let dst := DstAddr rec in
  if IsMulticast dst || IsLinkLocalUnicast dst || IsLinkLocalMulticast dst || IsUnspecified dst
  then DirectionInternal
  else
    let remote := "remote" in
    let src := SrcScope (Enrich rec) in let dstScope := DstScope (Enrich rec) in
    let both := negb (str_empty src) && negb (str_empty dstScope) in
    if both && negb (str_eq src remote) && negb (str_eq dstScope remote) then DirectionInternal
    else if ifaceIsWAN om (Out rec) (SrcAddr rec) then DirectionOutbound
    else if ifaceIsWAN om (In rec) (DstAddr rec) then DirectionInbound
    else if both then
      if str_eq dstScope remote && negb (str_eq src remote) then DirectionOutbound
      else if str_eq src remote && negb (str_eq dstScope remote) then DirectionInbound
      else DirectionUnknown
    else DirectionUnknown.

Definition setDirection (rec : Record_) (om : option M) (snap : option Snapshot) : Record_ :=
  let rec := match snap with
             | None => rec
             | Some s =>
                 let rec := if str_empty (SrcScope (Enrich rec))
                            then rec <| Enrich ::= fun e => e <| SrcScope := Scope s (addr_String (SrcAddr rec)) |> |>
                            else rec in
                 if str_empty (DstScope (Enrich rec))
                 then rec <| Enrich ::= fun e => e <| DstScope := Scope s (addr_String (DstAddr rec)) |> |>
                 else rec
             end in
  rec <| rDirection := netflowDirection rec om |>.

(** The repairs an admitted record gets. *)
Definition correct (rec : Record_) (om : option M) (snap : option Snapshot) (r : Repairer)
  : Record_ * Repairer :=
  let '(rec, r) := correctEgress rec om r in
  let '(rec, r) := correctPolicyRoute rec om r in
  (setDirection rec om snap, r).

(** ** The entry points *)

Definition repairWith (rec : Record_) (om : option M) (snap : option Snapshot) (now : Time) (r : Repairer)
  : RepairVerdict * Record_ * Repairer :=
  let '(v, rec, r) := admit_ rec om snap now r in
  match v with
  | RepairDrop | RepairHold => (v, rec, r)
  | RepairEmit =>
      let '(ok, r) := natAdmit rec now r in
      if negb ok then (RepairDrop, rec, r)
      else let '(rec, r) := correct rec om snap r in (RepairEmit, rec, r)
  end.

(** The popping loop of [release], under the lock. *)
Fixpoint pop_loop (now : Time) (all : bool) (ks : list instanceKey) (due : list heldRecord) (r : Repairer)
  : list heldRecord * Repairer :=
  match ks with
  | [] => (due, r)
  | k :: ks =>
      match held r !! k with
      | Some h =>
          if negb all && Before now (deadline h) then (due, r)
          else pop_loop now all ks (due ++ [h]) (settle k h (r <| holdOrder ::= advance |>))
      | None => pop_loop now all ks due (r <| holdOrder ::= advance |>)
      end
  end.

Definition pop_due (now : Time) (all : bool) (r : Repairer) : list heldRecord * Repairer :=
  let '(due, r) := pop_loop now all (pending (holdOrder r)) (dueEarly r) (r <| dueEarly := [] |>) in
  (due, r <| holdOrder ::= compact |>).

(** The repairs of the popped records. *)
Fixpoint finish_due (now : Time) (due : list heldRecord) (r : Repairer) : list Record_ * Repairer :=
  match due with
  | [] => ([], r)
  | h :: due =>
      let '(ok, r) := natAdmit (hrec h) now r in
      if negb ok then finish_due now due r
      else
        let '(rec, r) := correct (hrec h) (hm h) (hsnap h) r in
        let '(out, r) := finish_due now due r in
        (rec :: out, r)
  end.

Definition release (now : Time) (all : bool) (r : Repairer) : list Record_ * Repairer :=
  let '(due, r) := pop_due now all r in finish_due now due r.

Definition Release (now : Time) (r : Repairer) : list Record_ * Repairer := release now false r.
Definition Flush (r : Repairer) : list Record_ * Repairer := release zero_time true r.

Definition HeldEntries (r : Repairer) : Z := zsize (held r) + zlen (dueEarly r).

(** [StatsAt]: the published account.  A nil map of counts is the empty one. *)
Record RepairStats := mkRepairStats {
  VLANDuplicatesDropped : Z; EgressCorrected : Z; VLANChildPreferred : Z; VLANSubnetAttributed : Z;
  VLANLateChildCopies : Z;
  PolicyRouteCorrected : Z; PolicyRouteNoState : Z; PolicyRouteUnresolvedDevice : Z;
  PolicyRouteSkippedNotWANEgress : Z; PolicyRouteSkippedPostNAT : Z; PolicyRouteSkippedFIBAgreed : Z;
  PolicyRouteSkippedAlreadyOnWAN : Z;
  PolicyRouteNoStateByInterface : gmap string Z; PolicyRouteUnresolvedDeviceByInterface : gmap string Z;
  RouteTableEntries : Z; RouteTablePolicyRouted : Z; RouteTableSkipped : Z; RouteTableConflicts : Z;
  RouteTableCarried : Z; RouteTableAge : Duration;
  NATDuplicatesDropped : Z; NATConversationDuplicates : Z; NATUnpaired : Z; NATLatePreNATCopies : Z;
  NATSeenEntries : Z; NATSeenCapped : Z; NATConversationEntries : Z; NATConversationCapped : Z;
  NATTableEntries : Z; NATTableCarried : Z; NATTableConflicts : Z; NATTableSkipped : Z;
  sHeldEntries : Z; HoldOverflow : Z; DedupeEntries : Z; DedupeEvicted : Z; DedupeCapped : Z }.

Definition copyCounts (counts : gmap string Z) : gmap string Z := counts.

Definition StatsAt (now : Time) (r : Repairer) : RepairStats :=
  let rt := RouteTable_Stats (routes r) in
  let nt := NATTable_Stats (nats r) in
  mkRepairStats (vlanDropped r) (egressCorrected r) (childPreferred r) (subnetAttrib r) (lateChildCopies r)
    (policyRouteCorrected r) (policyRouteNoState r) (policyRouteUnresolved r)
    (prNotWANEgress r) (prPostNAT r) (prFIBAgreed r) (prAlreadyOnWAN r)
    (copyCounts (policyRouteNoStateBy r)) (copyCounts (policyRouteUnresolvedBy r))
    (rEntries rt) (PolicyRouted rt) (rSkipped rt) (rConflicts rt) (rCarried rt) (RouteTable_Age (routes r) now)
    (natDuplicates r) (natConvDuplicates r) (natUnpaired r) (natLatePreCopies r)
    (zsize (natSeen r)) (natCapped r) (zsize (natConv r)) (natConvCapped r)
    (nEntries nt) (nCarried nt) (nConflicts nt) (nSkipped nt)
    (HeldEntries r) (holdOverflow r) (zsize (seen r)) (evicted r) (capped r).

(** ** What each operation writes *)

Definition set_seen (r : Repairer) (s : gmap instanceKey dedupeEntry) (q : fifo instanceKey) (n c : Z) : Repairer :=
  r <| seen := s |> <| order := q |> <| evicted := n |> <| capped := c |>.

Lemma set_seen_id r : set_seen r (seen r) (order r) (evicted r) (capped r) = r.
Proof. by destruct r. Qed.

Lemma expire_loop_spec cutoff ks r :
  pending (order r) = ks -> tracked (seen r) (order r) ->
  exists s q n, expire_loop cutoff ks r = set_seen r s q n (capped r) /\ s ⊆ seen r /\ tracked s q.
Proof.
  revert r. induction ks as [|k ks IH]; intros r E Ht; cbn [expire_loop].
  { exists (seen r), (order r), (evicted r). by rewrite set_seen_id. }
  destruct (seen r !! k) as [e|] eqn:Ek.
  - destruct (After (dseen e) cutoff).
    { exists (seen r), (order r), (evicted r). by rewrite set_seen_id. }
    destruct (IH (r <| seen ::= delete k |> <| evicted ::= incr |> <| order ::= advance |>))
      as (s & q & n & -> & Hs & Hq); [by apply (pending_advance k)|by eapply ordered_pop|].
    exists s, q, n. split; [done|]. split; [|done]. etransitivity; [exact Hs|]. apply delete_subseteq.
  - destruct (IH (r <| order ::= advance |>)) as (s & q & n & -> & Hs & Hq);
      [by apply (pending_advance k)|by eapply tracked_advance|].
    by exists s, q, n.
Qed.

Lemma expire_spec now r :
  tracked (seen r) (order r) ->
  exists s q n, expire now r = set_seen r s q n (capped r) /\ s ⊆ seen r /\ tracked s q.
Proof.
  intros Ht. unfold expire.
  destruct (expire_loop_spec (time_Add now (- dedupeTTL)) _ r eq_refl Ht) as (s & q & n & -> & Hs & Hq).
  exists s, (compact q), n. split; [done|]. split; [done|]. by apply tracked_compact.
Qed.

Lemma dropOldest_loop_spec ks r :
  pending (order r) = ks -> tracked (seen r) (order r) ->
  exists s q, dropOldest_loop ks r = set_seen r s q (evicted r) (capped r) /\ s ⊆ seen r /\ tracked s q
    /\ (seen r = ∅ \/ zsize s = zsize (seen r) - 1).
Proof.
  revert r. induction ks as [|k ks IH]; intros r E Ht; cbn [dropOldest_loop].
  { exists (seen r), (order r). rewrite set_seen_id. split; [done|]. split; [done|]. split; [done|].
    left. by eapply tracked_empty. }
  cbn [update seen]. destruct (seen r !! k) as [e|] eqn:Ek.
  - exists (delete k (seen r)), (advance (order r)). split; [by destruct r|].
    split; [apply delete_subseteq|]. split; [by eapply ordered_pop|]. right. by apply (zsize_delete _ _ e).
  - destruct (IH (r <| order ::= advance |>)) as (s & q & -> & Hs & Hq & Hz);
      [by apply (pending_advance k)|by eapply tracked_advance|].
    by exists s, q.
Qed.

(** The bound is kept by an insertion, and what is in the table was there or is the
    new entry. *)
Definition within {K A} `{Countable K} (mx : Z) (m : gmap K A) : Prop := 0 < mx -> zsize m <= mx.

Lemma within_subseteq {K A} `{Countable K} mx (m m' : gmap K A) : m' ⊆ m -> within mx m -> within mx m'.
Proof.
  intros Hs Hm Hmx. specialize (Hm Hmx). unfold zsize in *. apply map_subseteq_size in Hs. lia.
Qed.

Lemma insert_spec k inn out now r :
  tracked (seen r) (order r) -> within (maxEntries r) (seen r) ->
  exists s q c, insert_ k inn out now r = set_seen r (<[k := mkDedupe inn out now]> s) q (evicted r) c
    /\ s ⊆ seen r /\ tracked (<[k := mkDedupe inn out now]> s) q
    /\ (seen r !! k = None -> within (maxEntries r) (<[k := mkDedupe inn out now]> s)).
Proof.
  intros Ht Hw. unfold insert_. destruct ((0 <? maxEntries r) && (maxEntries r <=? zsize (seen r))) eqn:E.
  - destruct (dropOldest_loop_spec _ r eq_refl Ht) as (s & q & Heq & Hs & Hq & Hz).
    unfold dropOldest. rewrite Heq. bool_prop.
    exists s, (push k q), (incr (capped r)). split; [done|]. split; [done|]. split; [by apply ordered_push|].
    intros Hk Hmx. specialize (Hw Hmx). rewrite zsize_insert_None.
    + destruct Hz as [Hz|Hz]; [|lia]. rewrite Hz in *. change (zsize ∅) with 0 in *. lia.
    + destruct (s !! k) eqn:Es; [|done]. eapply lookup_weaken in Es; [|done]. congruence.
  - exists (seen r), (push k (order r)), (capped r). split; [by destruct r|]. split; [done|].
    split; [by apply ordered_push|]. intros Hk Hmx. specialize (Hw Hmx). rewrite zsize_insert_None by done.
    apply andb_false_iff in E as [E|E]; bool_prop; lia.
Qed.

(** ** The invariant of the tables *)

Record tables_ok (r : Repairer) : Prop := {
  tk_seen : tracked (seen r) (order r);
  tk_held : lined (held r) (holdOrder r);
  tk_nat : tracked (natSeen r) (natOrder r);
  tk_disj : forall k, is_Some (held r !! k) -> seen r !! k = None;
  tk_wseen : within (maxEntries r) (seen r);
  tk_wheld : within (maxHeld r) (held r);
  tk_wnat : within (maxEntries r) (natSeen r);
  tk_wconv : within (maxEntries r) (natConv r);
  tk_hkey : map_Forall (fun k h => keyOf (hrec h) = k) (held r) }.

(** The invariant reads nothing but the tables: counters may change freely. *)
Definition tables (r : Repairer) :=
  (seen r, order r, held r, holdOrder r, (natSeen r, natOrder r, natConv r, maxEntries r, maxHeld r)).

Lemma tables_ok_ext r r' : tables r' = tables r -> tables_ok r -> tables_ok r'.
Proof.
  unfold tables. intros E []. injection E as E1 E2 E3 E4 E5 E6 E7 E8 E9.
  split; rewrite ?E1, ?E2, ?E3, ?E4, ?E5, ?E6, ?E7, ?E8, ?E9; assumption.
Qed.

(** The fields the VLAN side never writes. *)
Definition nat_side (r : Repairer) :=
  (nats r, natSeen r, natOrder r, natConv r, maxEntries r, maxHeld r, natDuplicates r, natConvDuplicates r).

(** Writing the de-dup table within its invariant keeps the whole one. *)
Lemma tables_ok_set_seen r s q n c :
  tracked s q -> within (maxEntries r) s -> (forall k, is_Some (held r !! k) -> s !! k = None) ->
  tables_ok r -> tables_ok (set_seen r s q n c).
Proof. intros Ht Hw Hd []. by split. Qed.

Lemma expire_ok now r :
  tables_ok r ->
  tables_ok (expire now r) /\ exists s q n, expire now r = set_seen r s q n (capped r) /\ s ⊆ seen r.
Proof.
  intros Hr. destruct (expire_spec now r (tk_seen _ Hr)) as (s & q & n & -> & Hs & Hq).
  split; [|by exists s, q, n]. apply tables_ok_set_seen; [done|..|done].
  - eapply within_subseteq; [done|apply Hr].
  - intros k Hk. apply (tk_disj _ Hr) in Hk. destruct (s !! k) eqn:Es; [|done].
    eapply lookup_weaken in Es; [|done]. congruence.
Qed.

(** A key that is in neither table enters the de-dup table. *)
Lemma insert_ok k inn out now r :
  tables_ok r -> seen r !! k = None -> held r !! k = None ->
  tables_ok (insert_ k inn out now r)
  /\ exists s q c, insert_ k inn out now r = set_seen r (<[k := mkDedupe inn out now]> s) q (evicted r) c
                    /\ s ⊆ seen r.
Proof.
  intros Hr Hk Hh. destruct (insert_spec k inn out now r (tk_seen _ Hr) (tk_wseen _ Hr))
    as (s & q & c & -> & Hs & Hq & Hw).
  split; [|by exists s, q, c]. apply tables_ok_set_seen; [done|by apply Hw|..|done].
  intros k' Hk'. destruct (decide (k = k')) as [<-|Hne]; [rewrite Hh in Hk'; by destruct Hk'|].
  rewrite lookup_insert_ne by done. apply (tk_disj _ Hr) in Hk'. destruct (s !! k') eqn:Es; [|done].
  eapply lookup_weaken in Es; [|done]. congruence.
Qed.

(** The interfaces a record was seen on. *)
Definition sides (rec : Record_) : string * string := (Device (In rec), Device (Out rec)).

(** The record at the head of the hold order leaves the buffer. *)
Lemma settle_ok k ks h r :
  tables_ok r -> pending (holdOrder r) = k :: ks -> held r !! k = Some h ->
  let r' := settle k h (r <| holdOrder ::= advance |>) in
  tables_ok r' /\ held r' = delete k (held r) /\ pending (holdOrder r') = ks
  /\ dueEarly r' = dueEarly r /\ vlanDropped r' = vlanDropped r /\ nat_side r' = nat_side r
  /\ forall k' e, seen r' !! k' = Some e -> (k' = k /\ (din e, dout e) = sides (hrec h)) \/ seen r !! k' = Some e.
Proof.
  intros Hr E Hk. cbv zeta. unfold settle.
  set (r0 := r <| holdOrder ::= advance |> <| held ::= delete k |>).
  assert (tables_ok r0) as Hr0.
  { pose proof Hr as []. split; try done; cbn.
    - by eapply lined_pop.
    - intros k' [x Hx]. apply lookup_delete_Some in Hx as [_ Hx]. eauto.
    - eapply within_subseteq; [apply delete_subseteq|done].
    - by apply map_Forall_delete. }
  destruct (insert_ok k (Device (In (hrec h))) (Device (Out (hrec h))) (arrived h) r0 Hr0)
    as [Hok (s & q & c & Heq & Hs)]; [apply Hr; eauto|apply lookup_delete_eq|].
  split; [exact Hok|]. rewrite Heq. split; [done|]. split; [by apply (pending_advance k)|].
  split; [done|]. split; [done|]. split; [done|].
  intros k' x Hx. cbn in Hx. apply lookup_insert_Some in Hx as [[<- <-]|[_ Hx]]; [by left|].
  right. by eapply lookup_weaken.
Qed.

Lemma releaseOldest_cases r :
  tables_ok r ->
  (held r = ∅ /\ releaseOldestHeld r = r) \/
  exists k ks h, pending (holdOrder r) = k :: ks /\ held r !! k = Some h
    /\ releaseOldestHeld r = settle k h (r <| holdOrder ::= advance |>)
                              <| dueEarly ::= fun l => l ++ [h] |> <| holdOverflow ::= incr |>.
Proof.
  intros Hr. unfold releaseOldestHeld. destruct (pending (holdOrder r)) as [|k ks] eqn:E.
  - left. split; [|done]. destruct (tk_held _ Hr) as (_ & _ & Hm). apply map_empty. intros k.
    apply eq_None_not_Some. rewrite <- Hm, E. apply not_elem_of_nil.
  - right. destruct (lined_head _ _ _ _ E (tk_held _ Hr)) as [[h Hh] _].
    exists k, ks, h. split; [done|]. split; [done|]. cbn [releaseOldest_loop]. cbn [update held]. by rewrite Hh.
Qed.

(** The instances either table knows, with the interfaces they were seen on. *)
Definition known (r : Repairer) (k : instanceKey) (p : string * string) : Prop :=
  (exists e, seen r !! k = Some e /\ (din e, dout e) = p) \/ (exists h, held r !! k = Some h /\ sides (hrec h) = p).

(** What a step on the VLAN side may do. *)
Record vlan_step (r r' : Repairer) (new : instanceKey -> string * string -> Prop) : Prop := {
  vs_ok : tables_ok r';
  vs_nat : nat_side r' = nat_side r;
  vs_known : forall k p, known r' k p -> new k p \/ known r k p }.

(** What the hold buffer holds, in any measure of an instance: its number, its
    bytes, its packets. *)
Section weight.
Context (w : instanceKey -> Z).

Definition heldWeight (r : Repairer) : Z :=
  msum (fun k _ => w k) (held r) + lsum (fun h => w (keyOf (hrec h))) (dueEarly r).

Lemma heldWeight_app r h :
  heldWeight (r <| dueEarly ::= fun l => l ++ [h] |>) = heldWeight r + w (keyOf (hrec h)).
Proof. unfold heldWeight. cbn [update held dueEarly]. rewrite lsum_app. cbn. lia. Qed.

(** Making room in the hold buffer. *)
Lemma releaseOldest_ok r :
  tables_ok r ->
  let r' := releaseOldestHeld r in
  vlan_step r r' (fun _ _ => False) /\ heldWeight r' = heldWeight r /\ vlanDropped r' = vlanDropped r
  /\ (held r = ∅ \/ zsize (held r') = zsize (held r) - 1) /\ held r' ⊆ held r.
Proof.
  intros Hr. cbv zeta. destruct (releaseOldest_cases r Hr) as [[Hh ->]|(k & ks & h & E & Hk & ->)].
  - split; [split; [done|done|tauto]|]. auto.
  - destruct (settle_ok k ks h r Hr E Hk) as (Hok & Hheld & Hq & Hdue & Hv & Hn & Hs). cbv zeta in *.
    generalize dependent (settle k h (r <| holdOrder ::= advance |>)). intros r1 Hok Hheld Hq Hdue Hv Hn Hs.
    assert (held (r1 <| dueEarly ::= fun l => l ++ [h] |> <| holdOverflow ::= incr |>) = delete k (held r)) as Eh
      by exact Hheld.
    split; [|split; [|split; [|split]]].
    + split; [apply (tables_ok_ext r1); [reflexivity|exact Hok]|exact Hn|]. intros k' p [(e & He & <-)|(h' & Hh' & <-)]; right.
      * destruct (Hs k' e He) as [[-> ->]|He']; [right|left]; eauto.
      * right. rewrite Eh in Hh'. apply lookup_delete_Some in Hh' as [_ Hh']. eauto.
    + change (heldWeight (r1 <| dueEarly ::= fun l => l ++ [h] |>) = heldWeight r).
      rewrite heldWeight_app. unfold heldWeight. rewrite Hheld, Hdue, (msum_delete _ (held r) k h) by done.
      rewrite (tk_hkey _ Hr _ _ Hk). lia.
    + exact Hv.
    + right. rewrite Eh. by apply (zsize_delete _ _ h).
    + rewrite Eh. apply delete_subseteq.
Qed.

Lemma hold_ok k rec om snap now r :
  tables_ok r -> seen r !! k = None -> held r !! k = None -> keyOf rec = k ->
  let r' := hold k rec om snap now r in
  vlan_step r r' (fun k' p => k' = k /\ p = sides rec) /\ heldWeight r' = heldWeight r + w k /\ vlanDropped r' = vlanDropped r.
Proof.
  intros Hr Hks0 Hkh0 Hrec. cbv zeta. unfold hold.
  set (r1 := if (0 <? maxHeld r) && (maxHeld r <=? zsize (held r)) then releaseOldestHeld r else r).
  assert (vlan_step r r1 (fun _ _ => False) /\ heldWeight r1 = heldWeight r /\ vlanDropped r1 = vlanDropped r
          /\ (0 < maxHeld r -> zsize (held r1) < maxHeld r)) as (Hs & Hh & Hv & Hroom).
  { unfold r1. destruct ((0 <? maxHeld r) && (maxHeld r <=? zsize (held r))) eqn:E.
    - destruct (releaseOldest_ok r Hr) as (Hs & Hh & Hv & Hz & _). split; [done|]. split; [done|]. split; [done|].
      intros Hmx. pose proof (tk_wheld _ Hr Hmx). bool_prop. destruct Hz as [Hz|Hz]; [|lia].
      rewrite Hz in *. change (zsize ∅) with 0 in *. lia.
    - split; [split; [done|done|tauto]|]. split; [done|]. split; [done|]. intros Hmx.
      apply andb_false_iff in E as [E|E]; bool_prop; lia. }
  clearbody r1. destruct Hs as [Hok Hn Hkn].
  assert (seen r1 !! k = None /\ held r1 !! k = None) as [Hks Hkh].
  { assert (forall p, ~ known r k p) as Hk by (intros p [(? & ? & _)|(? & ? & _)]; congruence).
    split; apply eq_None_not_Some; intros [x Hx].
    - destruct (Hkn k (din x, dout x)) as [[]|Hp]; [left; eauto|by apply Hk in Hp].
    - destruct (Hkn k (sides (hrec x))) as [[]|Hp]; [right; eauto|by apply Hk in Hp]. }
  assert (maxEntries r1 = maxEntries r /\ maxHeld r1 = maxHeld r) as [Hme Hmh] by by injection Hn.
  split; [split|split].
  - destruct Hok. split; cbn; try assumption.
    + by apply lined_push.
    + intros k' Hk'. destruct (decide (k = k')) as [<-|Hne]; [done|]. rewrite lookup_insert_ne in Hk' by done. auto.
    + intros Hmx. rewrite zsize_insert_None by done. rewrite Hmh in *. specialize (Hroom Hmx). lia.
    + by apply map_Forall_insert_2.
  - exact Hn.
  - intros k' p [Hk'|(h & Hh' & <-)]; [destruct (Hkn k' p); [by left|done|by right]|].
    cbn in Hh'. apply lookup_insert_Some in Hh' as [[<- <-]|[_ Hh']]; [by left|].
    right. destruct (Hkn k' (sides (hrec h))); [right; eauto|done|done].
  - rewrite <- Hh. unfold heldWeight. cbn [update held dueEarly]. rewrite msum_insert_None by done. lia.
  - exact Hv.
Qed.

Lemma attribute_key rec om : keyOf (snd (attributeBySubnet rec om)) = keyOf rec.
Proof.
  unfold attributeBySubnet. destruct om as [m|]; [|done].
  destruct (attributeSide (In rec) (SrcAddr rec) m) as [c|]; cbn [snd fst].
  - destruct (attributeSide _ _ m); done.
  - destruct (attributeSide _ _ m); done.
Qed.

(** A step that writes counters only. *)
Lemma vlan_step_ext r0 r r' new :
  tables r' = tables r -> nat_side r' = nat_side r -> vlan_step r0 r new -> vlan_step r0 r' new.
Proof.
  intros Et En [Hok Hn Hk]. split; [by eapply tables_ok_ext|congruence|].
  unfold tables in Et. injection Et as E1 _ E2. intros k p. unfold known. rewrite E1, E2. apply Hk.
Qed.

Lemma vlan_step_weaken r r' (new new' : instanceKey -> string * string -> Prop) :
  (forall k p, new k p -> new' k p) -> vlan_step r r' new -> vlan_step r r' new'.
Proof. intros Hn [Ho Hs Hk]. split; [done|done|]. intros k p Hk'. destruct (Hk k p Hk'); auto. Qed.

Lemma expire_step now r :
  tables_ok r ->
  vlan_step r (expire now r) (fun _ _ => False) /\ heldWeight (expire now r) = heldWeight r
  /\ vlanDropped (expire now r) = vlanDropped r /\ held (expire now r) = held r.
Proof.
  intros Hr. destruct (expire_ok now r Hr) as [Hok (s & q & n & E & Hs)]. rewrite E in *.
  split; [|done]. split; [exact Hok|done|]. intros k p [(x & Hx & Hp)|Hk]; right; [left|by right].
  exists x. split; [by eapply lookup_weaken|done].
Qed.

(** What [admit_] promises, by verdict. *)
Definition admit_post (rec : Record_) (om : option M) (r : Repairer) (v : RepairVerdict) (rec' : Record_)
    (r' : Repairer) : Prop :=
  match v with
  | RepairEmit => vlan_step r r' (fun k p => k = keyOf rec /\ p = sides rec') /\ heldWeight r' = heldWeight r
                  /\ vlanDropped r' = vlanDropped r
  | RepairDrop => vlan_step r r' (fun k p => k = keyOf rec /\ p = sides rec' /\ exists p', known r k p')
                  /\ heldWeight r' = heldWeight r /\ vlanDropped r' = incr (vlanDropped r)
                  /\ (isVLANParentCopy rec om = true
                      \/ exists p, known r (keyOf rec) p
                                 /\ isDuplicateOf (fst p) (snd p) (Device (In rec')) (Device (Out rec')) om = true)
  | RepairHold => vlan_step r r' (fun k p => k = keyOf rec /\ p = sides rec')
                  /\ heldWeight r' = heldWeight r + w (keyOf rec) /\ vlanDropped r' = vlanDropped r
  end.

(** The three outcomes once the scan for expired entries is done; [r1] is the state
    after it. *)
Lemma replace_held_ok k h h' r0 r1 new :
  held r1 !! k = Some h -> keyOf (hrec h') = k -> new k (sides (hrec h')) -> vlan_step r0 r1 new ->
  vlan_step r0 (r1 <| held ::= <[k := h']> |>) new
  /\ heldWeight (r1 <| held ::= <[k := h']> |>) = heldWeight r1.
Proof.
  intros Hk Hkey Hnew [Hok Hn Hkn]. split.
  - split; [|exact Hn|].
    + destruct Hok. split; cbn; try assumption.
      * apply lined_update; [eauto|done].
      * intros k' Hk'. destruct (decide (k = k')) as [<-|Hne]; [eauto|]. rewrite lookup_insert_ne in Hk' by done. auto.
      * intros Hmx. rewrite (zsize_insert_Some _ _ h) by done. auto.
      * by apply map_Forall_insert_2.
    + intros k' p [Hk'|(x & Hx & <-)]; [apply Hkn; by left|]. cbn in Hx.
      apply lookup_insert_Some in Hx as [[<- <-]|[_ Hx]]; [by left|]. apply Hkn. right. eauto.
  - unfold heldWeight. cbn [update held dueEarly]. rewrite (msum_insert_Some _ _ _ h) by done. lia.
Qed.

Lemma admit_ok rec om snap now r :
  tables_ok r ->
  let '(v, rec', r') := admit_ rec om snap now r in keyOf rec' = keyOf rec /\ admit_post rec om r v rec' r'.
Proof.
  intros Hr. unfold admit_. destruct (expire_step now r Hr) as (Hs & Hh & Hv & Hheld).
  destruct (isVLANParentCopy rec om) eqn:Ep.
  { split; [done|]. split; [eapply (vlan_step_ext r (expire now r)); [done|done|by eapply vlan_step_weaken; [|exact Hs]]|].
    split; [exact Hh|]. split; [exact (f_equal incr Hv)|by left]. }
  pose proof (attribute_key rec om) as Hkey. destruct (attributeBySubnet rec om) as [attributed rec'].
  cbn [snd] in Hkey. rewrite Hkey.
  set (r1 := if attributed then expire now r <| subnetAttrib ::= incr |> else expire now r).
  assert (vlan_step r r1 (fun _ _ => False) /\ heldWeight r1 = heldWeight r /\ vlanDropped r1 = vlanDropped r)
    as (Hs1 & Hh1 & Hv1).
  { unfold r1. destruct attributed; [|done]. split; [by apply (vlan_step_ext r (expire now r))|done]. }
  clearbody r1. clear Hs Hh Hv Hheld. pose proof (vs_known _ _ _ Hs1) as Hkn.
  assert (forall new, vlan_step r r1 new) as Hs1' by (intros; by eapply vlan_step_weaken; [|exact Hs1]).
  destruct (held r1 !! keyOf rec) as [h|] eqn:Eh.
  - assert (known r (keyOf rec) (sides (hrec h))) as Hk
      by (destruct (Hkn (keyOf rec) (sides (hrec h))); [right; eauto|done|done]).
    destruct (isDuplicateOf _ _ _ _ om) eqn:Ed; cbn [negb]; [|by split; [|split; [apply Hs1'|]]].
    destruct (moreSpecific _ _ _ _ om).
    + split; [done|].
      destruct (replace_held_ok (keyOf rec) h (mkHeld rec' om snap (arrived h)) r r1
                  (fun k p => k = keyOf rec /\ p = sides rec' /\ exists p', known r k p') Eh Hkey) as [Hr' Hhe];
        [by eauto|by apply Hs1'|].
      split; [by apply (vlan_step_ext r (r1 <| held ::= <[keyOf rec := mkHeld rec' om snap (arrived h)]> |>))|].
      split; [by rewrite <- Hh1, <- Hhe|]. split; [exact (f_equal incr Hv1)|right; by exists (sides (hrec h))].
    + split; [done|]. split; [by apply (vlan_step_ext r r1)|]. split; [exact Hh1|].
      split; [exact (f_equal incr Hv1)|right; by exists (sides (hrec h))].
  - destruct (seen r1 !! keyOf rec) as [prev|] eqn:Es.
    + assert (known r (keyOf rec) (din prev, dout prev)) as Hk
        by (destruct (Hkn (keyOf rec) (din prev, dout prev)); [left; eauto|done|done]).
      destruct (isDuplicateOf _ _ _ _ om) eqn:Ed; [|by split; [|split; [apply Hs1'|]]].
      destruct (moreSpecific _ _ _ _ om); (split; [done|]); (split; [by apply (vlan_step_ext r r1)|]);
        (split; [exact Hh1|]); (split; [exact (f_equal incr Hv1)|right; by exists (din prev, dout prev)]).
    + destruct (canBeBeaten om _ _).
      * destruct (hold_ok (keyOf rec) rec' om snap now r1 (vs_ok _ _ _ Hs1) Es Eh Hkey) as ([Ho Hn2 Hk2] & Hh2 & Hv2).
        split; [done|]. split; [|split; congruence]. split; [done|by rewrite Hn2, (vs_nat _ _ _ Hs1)|].
        intros k p Hk. destruct (Hk2 k p Hk) as [?|Hk']; [by left|]. right. by destruct (Hkn k p Hk').
      * destruct (insert_ok (keyOf rec) (Device (In rec')) (Device (Out rec')) now r1 (vs_ok _ _ _ Hs1) Es Eh)
          as [Hok (s & q & c & E & Hsub)].
        rewrite E in *. split; [done|]. split; [|done]. split; [exact Hok|exact (vs_nat _ _ _ Hs1)|].
        intros k p [(x & Hx & <-)|Hk]; [|right; destruct (Hkn k p); [by right|done|done]].
        cbn in Hx. apply lookup_insert_Some in Hx as [[<- <-]|[_ Hx]]; [by left|]. right.
        eapply lookup_weaken in Hx; [|exact Hsub]. destruct (Hkn k (din x, dout x)); [left; eauto|done|done].
Qed.

(** ** Releasing *)

(** Hold order is arrival order. *)
Definition hold_sorted (r : Repairer) : Prop :=
  StronglySorted (fun k k' => forall h h', held r !! k = Some h -> held r !! k' = Some h' -> arrived h <= arrived h')
    (pending (holdOrder r)).

Lemma lined_nil {K A} `{Countable K} (m : gmap K A) q : lined m q -> pending q = [] -> m = ∅.
Proof.
  intros (_ & _ & Hm) E. apply map_empty. intros k. apply eq_None_not_Some. rewrite <- Hm, E. apply not_elem_of_nil.
Qed.

Lemma sorted_impl {A} (R S : A -> A -> Prop) l :
  (forall a b, a ∈ l -> b ∈ l -> R a b -> S a b) -> StronglySorted R l -> StronglySorted S l.
Proof.
  intros HRS. induction 1 as [|a l Hl IH Hf]; constructor.
  - apply IH. intros x y Hx Hy. apply HRS; by apply elem_of_cons; right.
  - rewrite Forall_forall in *. intros x Hx. apply HRS; [set_solver|set_solver|auto].
Qed.

Lemma hold_sorted_pop r r' k ks :
  hold_sorted r -> pending (holdOrder r) = k :: ks -> held r' = delete k (held r) ->
  pending (holdOrder r') = ks -> hold_sorted r'.
Proof.
  unfold hold_sorted. intros Hs E Eh Ep. rewrite E in Hs. rewrite Eh, Ep.
  apply StronglySorted_inv in Hs as [Hs _]. eapply sorted_impl; [|exact Hs].
  intros a b _ _ Hab h h' H1 H2. apply lookup_delete_Some in H1 as [_ H1], H2 as [_ H2]. by eapply Hab.
Qed.

(** The first record not yet due ends the scan, and nothing behind it is due. *)
Lemma hold_sorted_head r k ks h now :
  tables_ok r -> hold_sorted r -> pending (holdOrder r) = k :: ks -> held r !! k = Some h ->
  Before now (deadline h) = true -> forall k' h', held r !! k' = Some h' -> Before now (deadline h') = true.
Proof.
  unfold Before, deadline, time_Add. intros Hr Hs E Hk Hb k' h' Hk'. apply Z.ltb_lt in Hb. apply Z.ltb_lt.
  destruct (tk_held _ Hr) as (_ & _ & Hm). unfold hold_sorted in Hs. rewrite E in Hs, Hm.
  assert (k' ∈ k :: ks) as Hin by (apply Hm; eauto). apply elem_of_cons in Hin as [->|Hin].
  - rewrite Hk in Hk'. injection Hk' as <-. done.
  - apply StronglySorted_inv in Hs as [_ Hf]. rewrite Forall_forall in Hf. specialize (Hf k' Hin h h' Hk Hk'). lia.
Qed.

Lemma pop_loop_ok now all ks due r :
  tables_ok r -> pending (holdOrder r) = ks ->
  let '(due', r') := pop_loop now all ks due r in
  vlan_step r r' (fun _ _ => False) /\ vlanDropped r' = vlanDropped r /\ dueEarly r' = dueEarly r
  /\ (exists l, due' = due ++ l
        /\ msum (fun k _ => w k) (held r') + lsum (fun h => w (keyOf (hrec h))) l = msum (fun k _ => w k) (held r))
  /\ held r' ⊆ held r /\ (all = true -> held r' = ∅)
  /\ (hold_sorted r -> hold_sorted r' /\ (all = false -> forall k h, held r' !! k = Some h -> Before now (deadline h) = true)).
Proof.
  revert due r. induction ks as [|k ks IH]; intros due r Hr E; cbn [pop_loop].
  { pose proof (lined_nil _ _ (tk_held _ Hr) E) as Hh.
    split; [by split; auto|]. split; [done|]. split; [done|]. split; [exists []; rewrite app_nil_r; cbn; split; [done|lia]|].
    split; [done|]. split; [done|]. intros Hs. split; [done|]. intros _ k h. by rewrite Hh, lookup_empty. }
  destruct (lined_head _ _ _ _ E (tk_held _ Hr)) as [[h Hh] _]. rewrite Hh.
  destruct (negb all && Before now (deadline h)) eqn:Eb.
  - bool_prop. subst all. split; [by split; auto|]. split; [done|]. split; [done|].
    split; [exists []; rewrite app_nil_r; cbn; split; [done|lia]|]. split; [done|]. split; [done|]. intros Hs. split; [done|].
    intros _. by eapply hold_sorted_head.
  - destruct (settle_ok k ks h r Hr E Hh) as (Hok & Hheld & Hq & Hdue & Hv & Hn & Hk). cbv zeta in *.
    generalize dependent (settle k h (r <| holdOrder ::= advance |>)). intros r1 Hok Hheld Hq Hdue Hv Hn Hk.
    specialize (IH (due ++ [h]) r1 Hok Hq). destruct (pop_loop now all ks (due ++ [h]) r1) as [due' r'].
    destruct IH as ([Ho' Hn' Hk'] & Hv' & Hd' & (l & -> & Hsum) & Hsub & Hall & Hsort).
    split; [split; [done|congruence|]|].
    { intros x p Hx. destruct (Hk' x p Hx) as [[]|[(e & He & <-)|(y & Hy & <-)]]; right.
      - destruct (Hk x e He) as [[-> ->]|]; [right|left]; eauto.
      - right. rewrite Hheld in Hy. apply lookup_delete_Some in Hy as [_ Hy]. eauto. }
    split; [congruence|]. split; [congruence|]. split.
    { exists (h :: l). rewrite <- app_assoc. split; [done|]. rewrite (msum_delete _ (held r) k h) by done.
      rewrite Hheld in Hsum. rewrite lsum_cons, (tk_hkey _ Hr _ _ Hh). lia. }
    split; [etransitivity; [exact Hsub|]; rewrite Hheld; apply delete_subseteq|].
    split; [done|]. intros Hs. apply Hsort. by eapply hold_sorted_pop.
Qed.

Lemma pop_due_ok now all r :
  tables_ok r ->
  let '(due, r') := pop_due now all r in
  vlan_step r r' (fun _ _ => False) /\ vlanDropped r' = vlanDropped r
  /\ heldWeight r' + lsum (fun h => w (keyOf (hrec h))) due = heldWeight r /\ dueEarly r' = []
  /\ held r' ⊆ held r /\ (all = true -> held r' = ∅)
  /\ (hold_sorted r -> hold_sorted r' /\ (all = false -> forall k h, held r' !! k = Some h -> Before now (deadline h) = true)).
Proof.
  intros Hr. unfold pop_due.
  assert (tables_ok (r <| dueEarly := [] |>)) as Hr0 by by apply (tables_ok_ext r).
  pose proof (pop_loop_ok now all (pending (holdOrder r)) (dueEarly r) _ Hr0 eq_refl) as Hp.
  destruct (pop_loop now all _ _ _) as [due r1].
  destruct Hp as ([Ho Hn Hk] & Hv & Hd & (l & -> & Hsum) & Hsub & Hall & Hsort).
  split; [split|].
  - destruct Ho. split; cbn; try assumption. by apply lined_compact.
  - exact Hn.
  - exact Hk.
  - split; [exact Hv|]. split; [|split; [exact Hd|split; [exact Hsub|split; [exact Hall|]]]].
    + unfold heldWeight. cbn [update held dueEarly] in *. rewrite Hd, lsum_app. cbn. lia.
    + intros Hs. destruct (Hsort Hs) as [H1 H2]. split; [|exact H2].
      unfold hold_sorted in *. cbn [update held holdOrder] in *. by rewrite pending_compact.
Qed.

End weight.

(** ** The NAT side *)

Definition vlan_side (r : Repairer) :=
  (seen r, order r, held r, holdOrder r, dueEarly r, (vlanDropped r, maxEntries r, maxHeld r, nats r)).

Definition set_nat (r : Repairer) (s : gmap natKey natSeenEntry) (q : fifo natKey) : Repairer :=
  r <| natSeen := s |> <| natOrder := q |>.

Lemma set_nat_id r : set_nat r (natSeen r) (natOrder r) = r.
Proof. by destruct r. Qed.

Lemma natExpire_spec now r :
  tracked (natSeen r) (natOrder r) ->
  exists s q, natExpire now r = set_nat r s q /\ s ⊆ natSeen r /\ tracked s q.
Proof.
  unfold natExpire. generalize (time_Add now (- dedupeTTL)) as cutoff. intros cutoff Ht.
  assert (forall ks r, pending (natOrder r) = ks -> tracked (natSeen r) (natOrder r) ->
    exists s q, natExpire_loop cutoff ks r = set_nat r s q /\ s ⊆ natSeen r /\ tracked s q) as Hloop.
  { clear r Ht. intros ks. induction ks as [|k ks IH]; intros r E Ht; cbn [natExpire_loop].
    { exists (natSeen r), (natOrder r). by rewrite set_nat_id. }
    destruct (natSeen r !! k) as [e|] eqn:Ek; [destruct (After (nseen e) cutoff)|].
    - exists (natSeen r), (natOrder r). by rewrite set_nat_id.
    - destruct (IH (r <| natSeen ::= delete k |> <| natOrder ::= advance |>)) as (s & q & -> & Hs & Hq);
        [by apply (pending_advance k)|by eapply ordered_pop|].
      exists s, q. split; [done|]. split; [|done]. etransitivity; [exact Hs|]. apply delete_subseteq.
    - destruct (IH (r <| natOrder ::= advance |>)) as (s & q & -> & Hs & Hq);
        [by apply (pending_advance k)|by eapply tracked_advance|].
      by exists s, q. }
  destruct (Hloop _ r eq_refl Ht) as (s & q & -> & Hs & Hq).
  exists s, (natCompact q). split; [done|]. split; [done|]. by apply tracked_natCompact.
Qed.

Lemma natDropOldest_spec r :
  tracked (natSeen r) (natOrder r) ->
  exists s q, natDropOldest r = set_nat r s q /\ s ⊆ natSeen r /\ tracked s q
    /\ (natSeen r = ∅ \/ zsize s = zsize (natSeen r) - 1).
Proof.
  unfold natDropOldest. generalize (eq_refl (pending (natOrder r))).
  generalize (pending (natOrder r)) at 2 3 as ks. intros ks. revert r.
  induction ks as [|k ks IH]; intros r E Ht; cbn [natDropOldest_loop].
  { exists (natSeen r), (natOrder r). rewrite set_nat_id. split; [done|]. split; [done|]. split; [done|].
    left. by eapply tracked_empty. }
  cbn [update natSeen]. destruct (natSeen r !! k) as [e|] eqn:Ek.
  - exists (delete k (natSeen r)), (advance (natOrder r)). split; [by destruct r|].
    split; [apply delete_subseteq|]. split; [by eapply ordered_pop|]. right. by apply (zsize_delete _ _ e).
  - destruct (IH (r <| natOrder ::= advance |>)) as (s & q & -> & Hs & Hq & Hz);
      [by apply (pending_advance k)|by eapply tracked_advance|].
    by exists s, q.
Qed.

(** A step of the NAT side: [pre] says what evidence it may add. *)
Record nat_step (r r' : Repairer) (new : natKey -> natSeenEntry -> Prop) (conv : routeKey -> Time -> Prop) : Prop := {
  ns_ok : tables_ok r';
  ns_vlan : vlan_side r' = vlan_side r;
  ns_seen : forall k e, natSeen r' !! k = Some e -> new k e \/ natSeen r !! k = Some e;
  ns_conv : forall c t, natConv r' !! c = Some t -> conv c t \/ natConv r !! c = Some t }.

(** Writing the NAT tables within their invariant keeps the whole one. *)
Lemma tables_ok_nat r r' :
  vlan_side r' = vlan_side r -> tracked (natSeen r') (natOrder r') ->
  within (maxEntries r) (natSeen r') -> within (maxEntries r) (natConv r') -> tables_ok r -> tables_ok r'.
Proof.
  unfold vlan_side. intros E Ht Hw Hc []. injection E as E1 E2 E3 E4 E5 E6 E7 E8 E9.
  split; rewrite ?E1, ?E2, ?E3, ?E4, ?E7, ?E8; assumption.
Qed.

Lemma natRemember_ok k rl now r :
  tables_ok r ->
  nat_step r (natRemember k rl now r) (fun k' e => k' = k /\ e = mkNatSeen rl now) (fun _ _ => False)
  /\ natDuplicates (natRemember k rl now r) = natDuplicates r
  /\ natConvDuplicates (natRemember k rl now r) = natConvDuplicates r.
Proof.
  intros Hr. unfold natRemember. destruct (natSeen r !! k) as [e|] eqn:Ek; [split; [by split; auto|done]|].
  assert (exists s q n, (if (0 <? maxEntries r) && (maxEntries r <=? zsize (natSeen r))
             then natDropOldest r <| natCapped ::= incr |> else r) = set_nat r s q <| natCapped := n |>
           /\ s ⊆ natSeen r /\ tracked s q /\ (0 < maxEntries r -> zsize s < maxEntries r)) as (s & q & n & -> & Hs & Hq & Hz).
  { destruct ((0 <? maxEntries r) && (maxEntries r <=? zsize (natSeen r))) eqn:E.
    - destruct (natDropOldest_spec r (tk_nat _ Hr)) as (s & q & -> & Hs & Hq & Hz).
      exists s, q, (incr (natCapped r)). split; [done|]. split; [done|]. split; [done|]. intros Hmx.
      pose proof (tk_wnat _ Hr Hmx). bool_prop. destruct Hz as [Hz|Hz]; [|lia].
      rewrite Hz in *. change (zsize ∅) with 0 in *. lia.
    - exists (natSeen r), (natOrder r), (natCapped r). split; [by destruct r|]. split; [done|].
      split; [apply Hr|]. intros Hmx. apply andb_false_iff in E as [E|E]; bool_prop; lia. }
  assert (s !! k = None) as Hk.
  { destruct (s !! k) eqn:Es; [|done]. eapply lookup_weaken in Es; [|done]. congruence. }
  split; [|done]. split.
  - apply (tables_ok_nat r); [done|by apply ordered_push| |apply Hr|done].
    intros Hmx. cbn. rewrite zsize_insert_None by done. specialize (Hz Hmx). lia.
  - done.
  - cbn. intros k' e. rewrite lookup_insert_Some. intros [[<- <-]|[_ Hx]]; [by left|]. right. by eapply lookup_weaken.
  - auto.
Qed.

Lemma natConvRemember_ok c now r :
  tables_ok r ->
  nat_step r (natConvRemember c now r) (fun _ _ => False) (fun c' t => c' = c /\ t = now)
  /\ natDuplicates (natConvRemember c now r) = natDuplicates r
  /\ natConvDuplicates (natConvRemember c now r) = natConvDuplicates r.
Proof.
  intros Hr.
  assert (within (maxEntries r) (<[c := now]> (natConv r)) ->
          nat_step r (r <| natConv ::= <[c := now]> |>) (fun _ _ => False) (fun c' t => c' = c /\ t = now)) as Hput.
  { intros Hw. split; [by apply (tables_ok_nat r); try apply Hr|done|auto|].
    cbn. intros c' t. rewrite lookup_insert_Some. naive_solver. }
  unfold natConvRemember. destruct (natConv r !! c) as [t|] eqn:Ec.
  - split; [|done]. apply Hput. intros Hmx. rewrite (zsize_insert_Some _ _ t) by done. by apply (tk_wconv _ Hr).
  - destruct ((0 <? maxEntries r) && (maxEntries r <=? zsize (natConv r))) eqn:E.
    + split; [|done]. split; [by apply (tables_ok_ext r)|done|auto|auto].
    + split; [|done]. apply Hput. intros Hmx. rewrite zsize_insert_None by done.
      apply andb_false_iff in E as [E|E]; bool_prop; lia.
Qed.

Lemma natConvExpire_sub now r :
  natConv (natConvExpire now r) ⊆ natConv r /\ natSeen (natConvExpire now r) = natSeen r
  /\ natOrder (natConvExpire now r) = natOrder r /\ vlan_side (natConvExpire now r) = vlan_side r
  /\ natDuplicates (natConvExpire now r) = natDuplicates r
  /\ natConvDuplicates (natConvExpire now r) = natConvDuplicates r.
Proof.
  unfold natConvExpire. destruct (zsize (natConv r) =? 0); [done|]. destruct (_ && _); [done|].
  split; [|done]. apply map_filter_subseteq.
Qed.

(** The expiry both branches of [natAdmit] start with. *)
Lemma nat_swept now r :
  tables_ok r ->
  let r' := natConvExpire now (natExpire now r) in
  nat_step r r' (fun _ _ => False) (fun _ _ => False)
  /\ natDuplicates r' = natDuplicates r /\ natConvDuplicates r' = natConvDuplicates r.
Proof.
  intros Hr. cbv zeta. destruct (natExpire_spec now r (tk_nat _ Hr)) as (s & q & -> & Hs & Hq).
  destruct (natConvExpire_sub now (set_nat r s q)) as (Hc & E1 & E2 & E3 & E4 & E5).
  split; [|by rewrite E4, E5]. split.
  - apply (tables_ok_nat r); [exact E3|by rewrite E1, E2|..|done].
    + rewrite E1. eapply within_subseteq; [exact Hs|apply Hr].
    + eapply within_subseteq; [exact Hc|apply Hr].
  - exact E3.
  - rewrite E1. cbn. intros k e Hk. right. by eapply lookup_weaken.
  - intros c t Hx. right. by eapply lookup_weaken in Hx; [|exact Hc].
Qed.

Lemma nat_step_trans r r1 r2 new conv new' conv' :
  nat_step r r1 new conv -> nat_step r1 r2 new' conv' ->
  nat_step r r2 (fun k e => new k e \/ new' k e) (fun c t => conv c t \/ conv' c t).
Proof.
  intros [O1 V1 S1 C1] [O2 V2 S2 C2]. split; [done|congruence|..].
  - intros k e Hk. destruct (S2 k e Hk) as [?|Hk']; [auto|]. destruct (S1 k e Hk'); auto.
  - intros c t Hc. destruct (C2 c t Hc) as [?|Hc']; [auto|]. destruct (C1 c t Hc'); auto.
Qed.

Lemma nat_step_weaken r r' (new new' : natKey -> natSeenEntry -> Prop) (conv conv' : routeKey -> Time -> Prop) :
  (forall k e, new k e -> new' k e) -> (forall c t, conv c t -> conv' c t) ->
  nat_step r r' new conv -> nat_step r r' new' conv'.
Proof.
  intros Hn Hc [O V S C]. split; [done|done|..].
  - intros k e Hk. destruct (S k e Hk); auto.
  - intros c t Ht. destruct (C c t Ht); auto.
Qed.

(** Deleting an entry, and moving counters that are not tables. *)
Lemma nat_step_delete r k r' :
  tables_ok r -> vlan_side r' = vlan_side r -> natSeen r' = delete k (natSeen r) -> natOrder r' = natOrder r ->
  natConv r' = natConv r -> nat_step r r' (fun _ _ => False) (fun _ _ => False).
Proof.
  intros Hr Ev Es Eo Ec. split.
  - apply (tables_ok_nat r); [done|..|done].
    + rewrite Es, Eo. apply tracked_delete, Hr.
    + rewrite Es. eapply within_subseteq; [apply delete_subseteq|apply Hr].
    + rewrite Ec. apply Hr.
  - done.
  - rewrite Es. intros k' e Hk'. apply lookup_delete_Some in Hk' as [_ Hk']. by right.
  - rewrite Ec. auto.
Qed.

Lemma nat_step_ext r r' :
  tables_ok r -> tables r' = tables r -> vlan_side r' = vlan_side r ->
  nat_step r r' (fun _ _ => False) (fun _ _ => False).
Proof.
  intros Hr Et Ev. split; [by eapply tables_ok_ext|done|..]; unfold tables in Et;
    injection Et as _ _ _ _ E1 _ E2 _ _; rewrite ?E1, ?E2; auto.
Qed.

(** The evidence an admitted record leaves: its own tuple and volume, as the pre-NAT
    copy. *)
Definition leaves (rec : Record_) (now : Time) (k : natKey) (e : natSeenEntry) : Prop :=
  role e = natRolePost \/
  (e = mkNatSeen natRolePre now /\ tupleOfRecord rec = Some (ncanon k) /\ volumeOf rec = (nbytes k, npkts k)).

Definition leaves_conv (rec : Record_) (now : Time) (c : routeKey) (t : Time) : Prop :=
  t = now /\ tupleOfRecord rec = Some c.

(** The evidence a suppression needs. *)
Definition suppressible (rec : Record_) (r : Repairer) : Prop :=
  exists t own canon, nats r = Some t /\ tupleOfRecord rec = Some own /\ Canonical (Some t) own = Some canon
    /\ ((exists e, natSeen r !! mkNatKey canon (fst (volumeOf rec)) (snd (volumeOf rec)) = Some e /\ role e = natRolePre)
        \/ exists tm, natConv r !! canon = Some tm).

Definition nat_drops (r : Repairer) : Z := natDuplicates r + natConvDuplicates r.

Lemma natAdmit_ok rec now r :
  tables_ok r ->
  let '(ok, r') := natAdmit rec now r in
  if ok then nat_step r r' (leaves rec now) (leaves_conv rec now) /\ nat_drops r' = nat_drops r
  else nat_step r r' (fun _ _ => False) (fun _ _ => False) /\ nat_drops r' ==64 nat_drops r + 1
       /\ suppressible rec r.
Proof.
  intros Hr. unfold natAdmit. destruct (nats r) as [t|] eqn:En; [|split; [by split; auto|done]].
  destruct (tupleOfRecord rec) as [own|] eqn:Eo; [|split; [by split; auto|done]].
  destruct (volumeOf rec) as [bytes packets] eqn:Ev.
  destruct (nat_swept now r Hr) as (Hs & Hd1 & Hd2). cbv zeta in *.
  generalize dependent (natConvExpire now (natExpire now r)). intros r1 Hs Hd1 Hd2.
  assert (nat_drops r1 = nat_drops r) as Hd by (unfold nat_drops; congruence).
  pose proof (ns_ok _ _ _ _ Hs) as Hr1.
  assert (forall r' new conv, nat_step r1 r' new conv -> nat_step r r' new conv) as Htr.
  { intros r' new conv H1. eapply nat_step_weaken; [..|exact (nat_step_trans _ _ _ _ _ _ _ Hs H1)]; cbn; tauto. }
  destruct (Canonical (Some t) own) as [canon|] eqn:Ec.
  - destruct (match natSeen r1 !! _ with Some e => _ | None => _ end) eqn:E1.
    + split; [apply Htr; by eapply (nat_step_delete r1 (mkNatKey canon bytes packets))|]. split.
      * unfold nat_drops. cbn. rewrite incr_eq64, <- Hd1, <- Hd2. apply eq64_of_eq. lia.
      * exists t, own, canon. repeat (split; [done|]). left. rewrite Ev. cbn [fst snd].
        destruct (natSeen r1 !! mkNatKey canon bytes packets) as [e|] eqn:Ee; [|done].
        apply bool_decide_eq_true in E1. exists e. destruct (ns_seen _ _ _ _ Hs _ _ Ee); done.
    + destruct (natConv r1 !! canon) as [tm|] eqn:Ecv.
      * split; [apply Htr; by apply nat_step_ext|]. split.
        -- unfold nat_drops. cbn. rewrite incr_eq64, <- Hd1, <- Hd2. apply eq64_of_eq. lia.
        -- exists t, own, canon. repeat (split; [done|]). right. exists tm.
           destruct (ns_conv _ _ _ _ Hs _ _ Ecv); done.
      * destruct (natRemember_ok (mkNatKey canon bytes packets) natRolePost now r1 Hr1) as (H2 & F1 & F2).
        split; [|unfold nat_drops; cbn; congruence]. apply Htr.
        eapply nat_step_weaken;
          [..|eapply (nat_step_trans _ _ _ _ _ (fun _ _ => False) (fun _ _ => False) H2), nat_step_ext; [apply H2|done|done]].
        -- intros k e [[-> ->]|[]]. by left.
        -- cbn; tauto.
  - destruct (couldBeTranslated rec); cbn [negb].
    2: { split; [|done]. eapply nat_step_weaken; [..|exact Hs]; cbn; tauto. }
    set (r2 := if IsTranslatedPre (Some t) own then natConvRemember own now r1 else r1).
    assert (nat_step r1 r2 (fun _ _ => False) (leaves_conv rec now) /\ nat_drops r2 = nat_drops r) as [Hs2 Hd2'].
    { unfold r2. destruct (IsTranslatedPre (Some t) own).
      - destruct (natConvRemember_ok own now r1 Hr1) as (H2 & F1 & F2). split; [|unfold nat_drops in *; congruence].
        eapply nat_step_weaken; [..|exact H2]; [cbn; tauto|]. intros c tm [-> ->]. by split.
      - split; [|done]. split; auto. }
    clearbody r2. destruct (match natSeen r2 !! _ with Some e => _ | None => _ end).
    + split; [|unfold nat_drops in *; cbn; congruence]. apply Htr.
      eapply nat_step_weaken;
        [..|eapply (nat_step_trans _ _ _ _ _ (fun _ _ => False) (fun _ _ => False) Hs2),
              (nat_step_delete r2 (mkNatKey own bytes packets)); [apply Hs2|done..]]; cbn; tauto.
    + destruct (natRemember_ok (mkNatKey own bytes packets) natRolePre now r2 (ns_ok _ _ _ _ Hs2)) as (H3 & F1 & F2).
      split; [|unfold nat_drops in *; cbn; congruence]. apply Htr.
      eapply nat_step_weaken; [..|exact (nat_step_trans _ _ _ _ _ _ _ Hs2 H3)]; [|cbn; tauto].
      intros k e [[]|[-> ->]]. right. by rewrite Eo, Ev.
Qed.

(** ** Hold order under a clock that does not run backwards *)

Definition timely (now : Time) (r : Repairer) : Prop :=
  hold_sorted r /\ forall k h, held r !! k = Some h -> arrived h <= now.

Lemma timely_ext now r r' : held r' = held r -> holdOrder r' = holdOrder r -> timely now r -> timely now r'.
Proof. unfold timely, hold_sorted. by intros -> ->. Qed.

Lemma timely_later now now' r : now <= now' -> timely now r -> timely now' r.
Proof. intros Hn [Hs Ha]. split; [done|]. intros k h Hk. specialize (Ha k h Hk). lia. Qed.

Lemma timely_replace now r k h h' :
  held r !! k = Some h -> arrived h' = arrived h -> timely now r -> timely now (r <| held ::= <[k := h']> |>).
Proof.
  intros Hk Ha [Hs Hn].
  assert (forall k0 h0, <[k := h']> (held r) !! k0 = Some h0 -> exists h1, held r !! k0 = Some h1 /\ arrived h1 = arrived h0)
    as Hback.
  { intros k0 h0. rewrite lookup_insert_Some. intros [[<- <-]|[_ Hk0]]; eauto. }
  split.
  - unfold hold_sorted in *. cbn [update held holdOrder]. eapply sorted_impl; [|exact Hs].
    intros a b _ _ Hab x y Hx Hy. destruct (Hback a x Hx) as (x' & Hx' & <-), (Hback b y Hy) as (y' & Hy' & <-).
    by eapply Hab.
  - cbn. intros k0 h0 H0. destruct (Hback k0 h0 H0) as (x' & Hx' & <-). by eapply Hn.
Qed.

Lemma timely_settle now r r' k ks :
  pending (holdOrder r) = k :: ks -> held r' = delete k (held r) -> pending (holdOrder r') = ks ->
  timely now r -> timely now r'.
Proof.
  intros E Eh Ep [Hs Hn]. split; [by eapply hold_sorted_pop|].
  rewrite Eh. intros k' h Hk. apply lookup_delete_Some in Hk as [_ Hk]. by eapply Hn.
Qed.

Lemma timely_push now r k rec om snap :
  tables_ok r -> held r !! k = None -> timely now r ->
  timely now (r <| held ::= <[k := mkHeld rec om snap now]> |> <| holdOrder ::= push k |>).
Proof.
  intros Hr Hk [Hs Hn]. destruct (tk_held _ Hr) as (Hl & _ & Hm). split.
  - unfold hold_sorted in *. cbn [update held holdOrder]. rewrite pending_push by done.
    assert (forall a, a ∈ pending (holdOrder r) -> a <> k) as Hne.
    { intros a Ha ->. apply Hm in Ha. rewrite Hk in Ha. by destruct Ha. }
    apply StronglySorted_app_2; [| |constructor; constructor].
    + intros a b Ha Hb h h'. apply list_elem_of_singleton in Hb as ->.
      rewrite lookup_insert_ne, lookup_insert_eq by (symmetry; by apply Hne). intros Ha' [= <-]. cbn. by eapply Hn.
    + eapply sorted_impl; [|exact Hs]. intros a b Ha Hb Hab h h'.
      rewrite !lookup_insert_ne by (symmetry; by apply Hne). apply Hab.
  - cbn. intros k' h. rewrite lookup_insert_Some. intros [[<- <-]|[_ Hx]]; [cbn; lia|by eapply Hn].
Qed.

Lemma hold_timely k rec om snap now r :
  tables_ok r -> held r !! k = None -> timely now r -> timely now (hold k rec om snap now r).
Proof.
  intros Hr Hk Ht. unfold hold.
  destruct ((0 <? maxHeld r) && (maxHeld r <=? zsize (held r))).
  - destruct (releaseOldest_ok (fun _ => 0) r Hr) as ([Ho _ _] & _ & _ & _ & Hsub).
    assert (timely now (releaseOldestHeld r)) as Ht1.
    { destruct (releaseOldest_cases r Hr) as [[_ ->]|(k0 & ks & h & E & Hk0 & ->)]; [done|].
      destruct (settle_ok k0 ks h r Hr E Hk0) as (_ & Hheld & Hq & _).
      apply (timely_ext _ (settle k0 h (r <| holdOrder ::= advance |>))); [done|done|].
      by eapply timely_settle. }
    apply timely_push; [done| |done]. apply eq_None_not_Some. intros [x Hx].
    eapply lookup_weaken in Hx; [|exact Hsub]. congruence.
  - by apply timely_push.
Qed.

Lemma admit_timely rec om snap now r :
  tables_ok r -> timely now r -> timely now (snd (admit_ rec om snap now r)).
Proof.
  intros Hr Ht. unfold admit_. destruct (expire_ok now r Hr) as [Hok (s & q & n & E & Hs)].
  assert (timely now (expire now r)) as Ht1 by (rewrite E; by apply (timely_ext _ r)).
  destruct (isVLANParentCopy rec om); [by apply (timely_ext _ (expire now r))|].
  destruct (attributeBySubnet rec om) as [attributed rec'].
  set (r1 := if attributed then expire now r <| subnetAttrib ::= incr |> else expire now r).
  assert (tables_ok r1 /\ timely now r1) as [Hok1 Ht2].
  { unfold r1. destruct attributed; [|done]. split; [by apply (tables_ok_ext (expire now r))|].
    by apply (timely_ext _ (expire now r)). }
  clearbody r1. destruct (held r1 !! keyOf rec') as [h|] eqn:Eh.
  - destruct (isDuplicateOf _ _ _ _ om); [|done]. destruct (moreSpecific _ _ _ _ om); cbn [negb snd].
    + apply (timely_ext _ (r1 <| held ::= <[keyOf rec' := mkHeld rec' om snap (arrived h)]> |>)); [done|done|].
      by eapply timely_replace.
    + by apply (timely_ext _ r1).
  - destruct (seen r1 !! keyOf rec') as [prev|] eqn:Es.
    + destruct (isDuplicateOf _ _ _ _ om); [|done]. destruct (moreSpecific _ _ _ _ om); by apply (timely_ext _ r1).
    + destruct (canBeBeaten om _ _).
      * by apply hold_timely.
      * cbn [snd]. destruct (insert_ok (keyOf rec') (Device (In rec')) (Device (Out rec')) now r1 Hok1 Es Eh)
          as [_ (s' & q' & c & -> & _)]. by apply (timely_ext _ r1).
Qed.

(** ** Histories

    The critical sections of the stage, in any order in which concurrent calls may
    interleave them, with the trail of what they decided. *)

Inductive event :=
| EvAdmit (rec : Record_) (om : option M) (snap : option Snapshot) (now : Time)
| EvNat (rec : Record_) (now : Time)
| EvPop (now : Time) (all : bool)
| EvCorrect (rec : Record_) (om : option M) (snap : option Snapshot)
| EvRoutes (t : option RouteTable)
| EvNats (t : option NATTable).

Record trail := mkTrail {
  admits : list (Record_ * RepairVerdict); tests : list (Record_ * Time * bool); pops : list heldRecord }.

Definition exec (st : trail * Repairer) (e : event) : trail * Repairer :=
  let '(g, r) := st in
  match e with
  | EvAdmit rec om snap now =>
      let '(v, rec, r) := admit_ rec om snap now r in (mkTrail (admits g ++ [(rec, v)]) (tests g) (pops g), r)
  | EvNat rec now =>
      let '(ok, r) := natAdmit rec now r in (mkTrail (admits g) (tests g ++ [(rec, now, ok)]) (pops g), r)
  | EvPop now all =>
      let '(due, r) := pop_due now all r in (mkTrail (admits g) (tests g) (pops g ++ due), r)
  | EvCorrect rec om snap => let '(_, r) := correct rec om snap r in (g, r)
  | EvRoutes t => (g, SetRouteTable t r)
  | EvNats t => (g, SetNATTable t r)
  end.

Definition history (maxDedupe maxHold : Z) (es : list event) : trail * Repairer :=
  fold_left exec es (mkTrail [] [] [], NewRepairer maxDedupe maxHold).

(** The repairs touch counters only. *)
Lemma correct_frame rec om snap r :
  let r' := snd (correct rec om snap r) in
  tables r' = tables r /\ vlan_side r' = vlan_side r /\ nat_side r' = nat_side r.
Proof.
  cbv zeta. unfold correct.
  assert (forall rec r, tables (snd (correctEgress rec om r)) = tables r
            /\ vlan_side (snd (correctEgress rec om r)) = vlan_side r
            /\ nat_side (snd (correctEgress rec om r)) = nat_side r) as H1.
  { intros rec0 r0. unfold correctEgress. repeat case_match; done. }
  assert (forall rec r, tables (snd (correctPolicyRoute rec om r)) = tables r
            /\ vlan_side (snd (correctPolicyRoute rec om r)) = vlan_side r
            /\ nat_side (snd (correctPolicyRoute rec om r)) = nat_side r) as H2.
  { intros rec0 r0. unfold correctPolicyRoute. repeat case_match; done. }
  specialize (H1 rec r). destruct (correctEgress rec om r) as [rec1 r1]. cbn [snd] in H1.
  specialize (H2 rec1 r1). destruct (correctPolicyRoute rec1 om r1) as [rec2 r2]. cbn [snd] in *.
  destruct H1 as (E1 & E2 & E3), H2 as (E4 & E5 & E6). repeat split; congruence.
Qed.

(** The measure of the admissions with one verdict. *)
Definition weigh (w : instanceKey -> Z) (v : RepairVerdict) (l : list (Record_ * RepairVerdict)) : Z :=
  lsum (fun p => if decide (snd p = v) then w (keyOf (fst p)) else 0) l.

Definition suppressed (l : list (Record_ * Time * bool)) : Z := lsum (fun p : Record_ * Time * bool => if snd p then 0 else 1) l.

Record history_ok (w : instanceKey -> Z) (g : trail) (r : Repairer) : Prop := {
  ho_tables : tables_ok r;
  ho_drops : vlanDropped r ==64 weigh (fun _ => 1) RepairDrop (admits g);
  ho_held : weigh w RepairHold (admits g) = lsum (fun h => w (keyOf (hrec h))) (pops g) + heldWeight w r;
  ho_tests : nat_drops r ==64 suppressed (tests g);
  ho_known : forall k p, known r k p ->
    (exists rec v, (rec, v) ∈ admits g /\ keyOf rec = k /\ sides rec = p)
    /\ (exists rec v, (rec, v) ∈ admits g /\ keyOf rec = k /\ v <> RepairDrop);
  ho_pre : forall k e, natSeen r !! k = Some e -> role e = natRolePre -> exists rec,
    (rec, nseen e, true) ∈ tests g /\ tupleOfRecord rec = Some (ncanon k) /\ volumeOf rec = (nbytes k, npkts k);
  ho_conv : forall c t, natConv r !! c = Some t -> exists rec,
    (rec, t, true) ∈ tests g /\ tupleOfRecord rec = Some c }.

Lemma weigh_snoc w v l rec v' :
  weigh w v (l ++ [(rec, v')]) = weigh w v l + (if decide (v' = v) then w (keyOf rec) else 0).
Proof. unfold weigh. rewrite lsum_app. cbn. lia. Qed.

Lemma suppressed_snoc l rec now ok : suppressed (l ++ [(rec, now, ok)]) = suppressed l + (if ok then 0 else 1).
Proof. unfold suppressed. rewrite lsum_app. cbn. lia. Qed.

(** The NAT evidence survives a step of the VLAN side, and conversely. *)
Lemma nat_side_fields r r' :
  nat_side r' = nat_side r ->
  natSeen r' = natSeen r /\ natConv r' = natConv r /\ nat_drops r' = nat_drops r.
Proof.
  unfold nat_side, nat_drops. intros E. injection E as _ E1 _ E2 _ _ E3 E4. by rewrite E1, E2, E3, E4.
Qed.

Lemma vlan_side_fields w r r' :
  vlan_side r' = vlan_side r ->
  vlanDropped r' = vlanDropped r /\ heldWeight w r' = heldWeight w r /\ forall k p, known r' k p <-> known r k p.
Proof.
  unfold vlan_side, heldWeight, known. intros E. injection E as E1 _ E2 _ E3 E4 _ _ _.
  by rewrite E1, E2, E3, E4.
Qed.

Lemma history_vlan w g r r' v rec :
  history_ok w g r -> nat_side r' = nat_side r -> tables_ok r' ->
  vlanDropped r' = (if decide (v = RepairDrop) then incr (vlanDropped r) else vlanDropped r) ->
  heldWeight w r' = heldWeight w r + (if decide (v = RepairHold) then w (keyOf rec) else 0) ->
  (forall k p, known r' k p ->
     (k = keyOf rec /\ p = sides rec /\ (v = RepairDrop -> exists p', known r k p')) \/ known r k p) ->
  history_ok w (mkTrail (admits g ++ [(rec, v)]) (tests g) (pops g)) r'.
Proof.
  intros [Ht Hd Hh Hts Hk Hp Hc] Hn Hok Hv Hw Hkn. destruct (nat_side_fields _ _ Hn) as (E1 & E2 & E3).
  split; cbn [admits tests pops]; rewrite ?E1, ?E2, ?E3; [done|..|done|done].
  - rewrite weigh_snoc, Hv. destruct (decide (v = RepairDrop)).
    + by rewrite incr_eq64, Hd.
    + by rewrite Z.add_0_r.
  - rewrite weigh_snoc, Hw, Hh. lia.
  - done.
  - assert (forall x, x ∈ admits g -> x ∈ admits g ++ [(rec, v)]) as Hsub by set_solver.
    intros k p Hk'. destruct (Hkn k p Hk') as [(-> & -> & Hv')|Hk0].
    + assert ((rec, v) ∈ admits g ++ [(rec, v)]) as Hin by set_solver. split; [by exists rec, v|].
      destruct (decide (v = RepairDrop)) as [E|E]; [|by exists rec, v].
      destruct (Hv' E) as [p' Hp']. destruct (Hk _ _ Hp') as [_ (rec' & v' & ? & ? & ?)]. exists rec', v'. auto.
    + destruct (Hk k p Hk0) as [(rec1 & v1 & ? & ? & ?) (rec2 & v2 & ? & ? & ?)].
      split; [exists rec1, v1|exists rec2, v2]; auto.
Qed.

Lemma history_admit w g r rec om snap now :
  history_ok w g r ->
  let '(v, rec', r') := admit_ rec om snap now r in
  history_ok w (mkTrail (admits g ++ [(rec', v)]) (tests g) (pops g)) r'.
Proof.
  intros Hg. pose proof (admit_ok w rec om snap now r (ho_tables _ _ _ Hg)) as Ha.
  destruct (admit_ rec om snap now r) as [[v rec'] r']. destruct Ha as [Hkey Hpost].
  destruct v; cbn [admit_post] in Hpost.
  - destruct Hpost as ([Ho Hn Hk] & Hw & Hv).
    apply (history_vlan w g r); [done|done|done|exact Hv|change (heldWeight w r' = heldWeight w r + 0); lia|].
    intros k p Hk'. destruct (Hk k p Hk') as [[-> ->]|]; [left|by right]. by rewrite Hkey.
  - destruct Hpost as ([Ho Hn Hk] & Hw & Hv & _).
    apply (history_vlan w g r); [done|done|done|exact Hv|change (heldWeight w r' = heldWeight w r + 0); lia|].
    intros k p Hk'. destruct (Hk k p Hk') as [(-> & -> & ?)|]; [left|by right]. by rewrite Hkey.
  - destruct Hpost as ([Ho Hn Hk] & Hw & Hv). apply (history_vlan w g r); [done|done|done|exact Hv|by rewrite Hkey|].
    intros k p Hk'. destruct (Hk k p Hk') as [[-> ->]|]; [left|by right]. by rewrite Hkey.
Qed.

Lemma history_nat w g r rec now :
  history_ok w g r ->
  let '(ok, r') := natAdmit rec now r in
  history_ok w (mkTrail (admits g) (tests g ++ [(rec, now, ok)]) (pops g)) r'.
Proof.
  intros [Ht Hd Hh Hts Hk Hp Hc]. pose proof (natAdmit_ok rec now r Ht) as Hn.
  destruct (natAdmit rec now r) as [ok r'].
  assert (nat_step r r' (fun k e => ok = true /\ leaves rec now k e) (fun c t => ok = true /\ leaves_conv rec now c t)
          /\ nat_drops r' ==64 nat_drops r + (if ok then 0 else 1)) as [[Ho Hv Hs Hcv] Hdr].
  { destruct ok; [destruct Hn as [Hn E]|destruct Hn as (Hn & E & _)].
    - split; [|rewrite E; apply eq64_of_eq; lia]. eapply nat_step_weaken; [..|exact Hn]; auto.
    - split; [|done]. eapply nat_step_weaken; [..|exact Hn]; cbn; tauto. }
  destruct (vlan_side_fields w _ _ Hv) as (E1 & E2 & E3).
  split; cbn [admits tests pops]; rewrite ?E1, ?E2; [done|done|done|..].
  - by rewrite suppressed_snoc, Hdr, Hts.
  - intros k p Hk'. apply Hk. by apply E3.
  - intros k e He Hr. destruct (Hs k e He) as [[-> [Hl|(-> & Hl)]]|He'].
    + congruence.
    + exists rec. split; [set_solver|done].
    + destruct (Hp k e He' Hr) as (rec' & Hin & ?). exists rec'. split; [set_solver|done].
  - intros c t Hx. destruct (Hcv c t Hx) as [[-> [-> Hl]]|Hx'].
    + exists rec. split; [set_solver|done].
    + destruct (Hc c t Hx') as (rec' & Hin & ?). exists rec'. split; [set_solver|done].
Qed.

Lemma history_pop w g r now all :
  history_ok w g r ->
  let '(due, r') := pop_due now all r in
  history_ok w (mkTrail (admits g) (tests g) (pops g ++ due)) r'.
Proof.
  intros [Ht Hd Hh Hts Hk Hp Hc]. pose proof (pop_due_ok w now all r Ht) as Hq.
  destruct (pop_due now all r) as [due r']. destruct Hq as ([Ho Hn Hkn] & Hv & Hw & _).
  destruct (nat_side_fields _ _ Hn) as (E1 & E2 & E3).
  split; cbn [admits tests pops]; rewrite ?E1, ?E2, ?E3, ?Hv; [done|done| |done| |done|done].
  - rewrite lsum_app, Hh. lia.
  - intros k p Hk'. destruct (Hkn k p Hk') as [[]|]. by apply Hk.
Qed.

(** Counters and published tables are outside the invariant. *)
Lemma history_frame w g r r' :
  tables r' = tables r -> (seen r', held r', dueEarly r', vlanDropped r') = (seen r, held r, dueEarly r, vlanDropped r) ->
  (natSeen r', natConv r', nat_drops r') = (natSeen r, natConv r, nat_drops r) ->
  history_ok w g r -> history_ok w g r'.
Proof.
  intros Et Ev En [Ht Hd Hh Hts Hk Hp Hc]. injection Ev as E1 E2 E3 E4. injection En as E5 E6 E7.
  split; [by eapply tables_ok_ext|..]; unfold heldWeight, known; rewrite ?E1, ?E2, ?E3, ?E4, ?E5, ?E6, ?E7; done.
Qed.

Lemma exec_ok w g r e : history_ok w g r -> history_ok w (fst (exec (g, r) e)) (snd (exec (g, r) e)).
Proof.
  intros Hg. destruct e as [rec om snap now|rec now|now all|rec om snap|t|t]; cbn [exec].
  - pose proof (history_admit w g r rec om snap now Hg) as Ha. by destruct (admit_ rec om snap now r) as [[v rec'] r'].
  - pose proof (history_nat w g r rec now Hg) as Ha. by destruct (natAdmit rec now r) as [ok r'].
  - pose proof (history_pop w g r now all Hg) as Ha. by destruct (pop_due now all r) as [due r'].
  - destruct (correct_frame rec om snap r) as (E1 & E2 & E3). destruct (correct rec om snap r) as [rec' r'].
    cbn [snd fst] in *. destruct (nat_side_fields _ _ E3) as (F1 & F2 & F3).
    unfold vlan_side in E2. injection E2 as G1 _ G2 _ G3 G4 _ _ _.
    apply (history_frame w g r); congruence.
  - by apply (history_frame w g r).
  - by apply (history_frame w g r).
Qed.

Lemma tables_ok_new mx mh : tables_ok (NewRepairer mx mh).
Proof.
  assert (forall K A (E : EqDecision K) (C : Countable K), @tracked K A E C ∅ (mkFifo [] 0)) as Ht.
  { intros. split; [done|]. intros k [x Hx]. by rewrite lookup_empty in Hx. }
  split; cbn; try apply Ht; try (intros Hmx; change (zsize ∅) with 0; lia).
  - split; [done|]. split; [apply NoDup_nil_2|]. intros k. rewrite lookup_empty. cbn.
    split; [by intros ?%elem_of_nil|by intros [? [=]]].
  - intros k _. apply lookup_empty.
  - apply map_Forall_empty.
Qed.

Lemma history_spec w mx mh es :
  history_ok w (fst (history mx mh es)) (snd (history mx mh es)).
Proof.
  unfold history. induction es as [|e es IH] using rev_ind.
  - cbn. split; [apply tables_ok_new|done|done|done|..].
    + intros k p [(x & Hx & _)|(x & Hx & _)]; cbn in Hx; by rewrite lookup_empty in Hx.
    + cbn. intros k e Hx. by rewrite lookup_empty in Hx.
    + cbn. intros c t Hx. by rewrite lookup_empty in Hx.
  - rewrite fold_left_app. cbn [fold_left]. destruct (fold_left exec es _) as [g r]. by apply exec_ok.
Qed.

(** The calls are runs of their critical sections. *)
Lemma repairWith_exec rec om snap now g r :
  let '(_, _, r') := repairWith rec om snap now r in
  exists es, snd (fold_left exec es (g, r)) = r'.
Proof.
  unfold repairWith. destruct (admit_ rec om snap now r) as [[v rec1] r1] eqn:Ea.
  assert (forall es, fold_left exec (EvAdmit rec om snap now :: es) (g, r)
            = fold_left exec es (mkTrail (admits g ++ [(rec1, v)]) (tests g) (pops g), r1)) as Hfirst.
  { intros es. cbn [fold_left exec]. by rewrite Ea. }
  destruct v; [|exists [EvAdmit rec om snap now]; by rewrite Hfirst..].
  destruct (natAdmit rec1 now r1) as [ok r2] eqn:En. destruct ok; cbn [negb].
  - destruct (correct rec1 om snap r2) as [rec3 r3] eqn:Ec.
    exists [EvAdmit rec om snap now; EvNat rec1 now; EvCorrect rec1 om snap].
    rewrite Hfirst. cbn [fold_left exec]. rewrite En. cbn [fold_left exec]. by rewrite Ec.
  - exists [EvAdmit rec om snap now; EvNat rec1 now]. rewrite Hfirst. cbn [fold_left exec]. by rewrite En.
Qed.

Lemma finish_due_exec now due g r :
  let '(_, r') := finish_due now due r in exists es, snd (fold_left exec es (g, r)) = r'.
Proof.
  revert g r. induction due as [|h due IH]; intros g r; [by exists []|]. cbn [finish_due].
  destruct (natAdmit (hrec h) now r) as [ok r1] eqn:En. destruct ok; cbn [negb].
  - destruct (correct (hrec h) (hm h) (hsnap h) r1) as [rec r2] eqn:Ec.
    set (g' := mkTrail (admits g) (tests g ++ [(hrec h, now, true)]) (pops g)).
    specialize (IH g' r2). destruct (finish_due now due r2) as [out r3]. destruct IH as [es Hes].
    exists (EvNat (hrec h) now :: EvCorrect (hrec h) (hm h) (hsnap h) :: es). cbn [fold_left exec]. rewrite En. cbn [fold_left exec]. by rewrite Ec.
  - set (g' := mkTrail (admits g) (tests g ++ [(hrec h, now, false)]) (pops g)).
    specialize (IH g' r1). destruct (finish_due now due r1) as [out r3]. destruct IH as [es Hes].
    exists (EvNat (hrec h) now :: es). cbn [fold_left exec]. by rewrite En.
Qed.

Lemma release_exec now all g r :
  let '(_, r') := release now all r in exists es, snd (fold_left exec es (g, r)) = r'.
Proof.
  unfold release. destruct (pop_due now all r) as [due r1] eqn:Ep.
  pose proof (finish_due_exec now due (mkTrail (admits g) (tests g) (pops g ++ due)) r1) as Hf.
  destruct (finish_due now due r1) as [out r']. destruct Hf as [es Hes].
  exists (EvPop now all :: es). cbn [fold_left exec]. by rewrite Ep.
Qed.

(** The times of the admissions. *)
Definition admit_times (es : list event) : list Time :=
  omap (fun e => match e with EvAdmit _ _ _ now => Some now | _ => None end) es.

Lemma history_timely mx mh es now :
  StronglySorted Z.le (admit_times es) -> Forall (fun t => t <= now) (admit_times es) ->
  timely now (snd (history mx mh es)).
Proof.
  revert now. induction es as [|e es IH] using rev_ind; intros now Hs Hf.
  { split; [constructor|]. cbn. intros k h Hk. by rewrite lookup_empty in Hk. }
  unfold admit_times in Hs, Hf. rewrite omap_app in Hs, Hf. fold (admit_times es) in Hs, Hf.
  pose proof (history_spec (fun _ => 0) mx mh es) as Hok. unfold history in *. rewrite fold_left_app.
  cbn [fold_left]. apply Forall_app in Hf as [Hf Hlast]. pose proof (StronglySorted_app_1_l _ _ _ Hs) as Hs'.
  destruct (fold_left exec es _) as [g r]. cbn [fst snd] in *.
  destruct e as [rec om snap t|rec t|t all|rec om snap|t|t]; cbn [exec].
  - pose proof (admit_timely rec om snap t r (ho_tables _ _ _ Hok)) as Ha.
    destruct (admit_ rec om snap t r) as [[v rec'] r']. cbn [snd] in *.
    apply Forall_cons in Hlast as [Hlast _]. eapply timely_later; [exact Hlast|]. apply Ha, IH; [done|].
    apply Forall_forall. intros x Hx. eapply StronglySorted_app_1_elem_of; [exact Hs|done|set_solver].
  - pose proof (natAdmit_ok rec t r (ho_tables _ _ _ Hok)) as Ha. destruct (natAdmit rec t r) as [ok r'].
    cbn [snd]. assert (vlan_side r' = vlan_side r) as E by (destruct ok; apply Ha).
    unfold vlan_side in E. injection E as _ _ E1 E2 _ _ _ _ _. apply (timely_ext _ r); [done|done|by apply IH].
  - pose proof (pop_due_ok (fun _ => 0) t all r (ho_tables _ _ _ Hok)) as Ha.
    destruct (pop_due t all r) as [due r']. cbn [snd]. destruct Ha as (_ & _ & _ & _ & Hsub & _ & Hsort).
    destruct (IH now Hs' Hf) as [H1 H2]. split; [by apply Hsort|].
    intros k h Hk. apply (H2 k). by eapply lookup_weaken.
  - destruct (correct_frame rec om snap r) as (_ & E & _). destruct (correct rec om snap r) as [rec' r'].
    cbn [snd] in *. unfold vlan_side in E. injection E as _ _ E1 E2 _ _ _ _ _.
    apply (timely_ext _ r); [done|done|by apply IH].
  - apply (timely_ext _ r); [done|done|by apply IH].
  - apply (timely_ext _ r); [done|done|by apply IH].
Qed.

Lemma foldr_max_le (l : list Z) : Forall (fun t => t <= foldr Z.max 0 l) l.
Proof.
  induction l as [|a l IH]; [constructor|]. constructor; cbn; [lia|]. eapply Forall_impl; [exact IH|]. cbn. lia.
Qed.

Lemma history_config mx mh es :
  maxEntries (snd (history mx mh es)) = mx /\ maxHeld (snd (history mx mh es)) = mh.
Proof.
  induction es as [|e es IH] using rev_ind; [done|].
  pose proof (history_spec (fun _ => 0) mx mh es) as Hok. unfold history in *. rewrite fold_left_app.
  cbn [fold_left]. destruct (fold_left exec es _) as [g r]. cbn [fst snd] in *. pose proof (ho_tables _ _ _ Hok) as Ht.
  destruct e as [rec om snap t|rec t|t all|rec om snap|t|t]; cbn [exec]; [..|done|done].
  - pose proof (admit_ok (fun _ => 0) rec om snap t r Ht) as Ha. destruct (admit_ rec om snap t r) as [[v rec'] r'].
    destruct Ha as [_ Ha]. assert (nat_side r' = nat_side r) as E by (destruct v; apply Ha).
    cbn [snd]. unfold nat_side in E. injection E as _ _ _ _ E1 E2 _ _. by rewrite E1, E2.
  - pose proof (natAdmit_ok rec t r Ht) as Ha. destruct (natAdmit rec t r) as [ok r'].
    assert (vlan_side r' = vlan_side r) as E by (destruct ok; apply Ha).
    cbn [snd]. unfold vlan_side in E. injection E as _ _ _ _ _ _ E1 E2 _. by rewrite E1, E2.
  - pose proof (pop_due_ok (fun _ => 0) t all r Ht) as Ha. destruct (pop_due t all r) as [due r'].
    destruct Ha as ([_ E _] & _). cbn [snd]. unfold nat_side in E. injection E as _ _ _ _ E1 E2 _ _. by rewrite E1, E2.
  - destruct (correct_frame rec om snap r) as (_ & _ & E). destruct (correct rec om snap r) as [rec' r'].
    cbn [snd] in *. unfold nat_side in E. injection E as _ _ _ _ E1 E2 _ _. by rewrite E1, E2.
Qed.

(** ** Whole calls *)

Lemma correct_key rec om snap r : keyOf (fst (correct rec om snap r)) = keyOf rec.
Proof.
  unfold correct.
  assert (forall rec r, keyOf (fst (correctEgress rec om r)) = keyOf rec) as H1.
  { intros rec0 r0. unfold correctEgress. repeat case_match; reflexivity. }
  assert (forall rec r, keyOf (fst (correctPolicyRoute rec om r)) = keyOf rec) as H2.
  { intros rec0 r0. unfold correctPolicyRoute. repeat case_match; reflexivity. }
  specialize (H1 rec r). destruct (correctEgress rec om r) as [rec1 r1].
  specialize (H2 rec1 r1). destruct (correctPolicyRoute rec1 om r1) as [rec2 r2]. cbn [fst] in *.
  rewrite <- H1, <- H2. unfold setDirection. repeat case_match; reflexivity.
Qed.

(** All the records the stage has dropped. *)
Definition drops (r : Repairer) : Z := vlanDropped r + nat_drops r.

Lemma correct_ok w rec om snap r :
  tables_ok r ->
  let '(rec', r') := correct rec om snap r in
  tables_ok r' /\ keyOf rec' = keyOf rec /\ drops r' = drops r /\ heldWeight w r' = heldWeight w r.
Proof.
  intros Hr. pose proof (correct_key rec om snap r) as Hk. destruct (correct_frame rec om snap r) as (E1 & E2 & E3).
  destruct (correct rec om snap r) as [rec' r']. cbn [fst snd] in *.
  destruct (nat_side_fields _ _ E3) as (_ & _ & F). destruct (vlan_side_fields w _ _ E2) as (G & G' & _).
  split; [by eapply tables_ok_ext|]. split; [done|]. split; [unfold drops; congruence|done].
Qed.

Lemma natAdmit_whole w rec now r :
  tables_ok r ->
  let '(ok, r') := natAdmit rec now r in
  tables_ok r' /\ drops r' ==64 drops r + (if ok then 0 else 1) /\ heldWeight w r' = heldWeight w r.
Proof.
  intros Hr. pose proof (natAdmit_ok rec now r Hr) as Hn. destruct (natAdmit rec now r) as [ok r'].
  assert (tables_ok r' /\ vlan_side r' = vlan_side r /\ nat_drops r' ==64 nat_drops r + (if ok then 0 else 1))
    as (Ho & Hv & Hd).
  { destruct ok; [destruct Hn as [[Ho Hv _ _] E]|destruct Hn as ([Ho Hv _ _] & E & _)]; (split; [done|]); (split; [done|]);
      [rewrite E; apply eq64_of_eq; lia|done]. }
  destruct (vlan_side_fields w _ _ Hv) as (G & G' & _). split; [done|]. split; [|done].
  unfold drops. rewrite G, Hd. apply eq64_of_eq. lia.
Qed.

(** One call of [Repair]: where its record went. *)
Lemma repairWith_ok w rec om snap now r :
  tables_ok r ->
  let '(v, rec', r') := repairWith rec om snap now r in
  tables_ok r' /\ keyOf rec' = keyOf rec
  /\ drops r' ==64 drops r + (if decide (v = RepairDrop) then 1 else 0)
  /\ heldWeight w r' = heldWeight w r + (if decide (v = RepairHold) then w (keyOf rec) else 0).
Proof.
  intros Hr. unfold repairWith. pose proof (admit_ok w rec om snap now r Hr) as Ha.
  destruct (admit_ rec om snap now r) as [[v rec1] r1]. destruct Ha as [Hk Hp].
  destruct v; cbn [admit_post] in Hp.
  - destruct Hp as ([Ho Hn _] & Hw & Hv). destruct (nat_side_fields _ _ Hn) as (_ & _ & F).
    pose proof (natAdmit_whole w rec1 now r1 Ho) as Hn1. destruct (natAdmit rec1 now r1) as [ok r2].
    destruct Hn1 as (Ho2 & Hd2 & Hw2). assert (drops r1 = drops r) as E by (unfold drops; congruence).
    rewrite E in Hd2. destruct ok; cbn [negb].
    + pose proof (correct_ok w rec1 om snap r2 Ho2) as Hc. destruct (correct rec1 om snap r2) as [rec3 r3].
      destruct Hc as (Ho3 & Hk3 & Hd3 & Hw3). split; [done|]. split; [congruence|].
      rewrite Hd3, Hd2, Hw3, Hw2, Hw. split; [done|]. rewrite decide_False by done. lia.
    + split; [done|]. split; [done|]. split; [done|]. rewrite Hw2, Hw, decide_False by done. lia.
  - destruct Hp as ([Ho Hn _] & Hw & Hv & _). destruct (nat_side_fields _ _ Hn) as (_ & _ & F).
    split; [done|]. split; [done|]. split; [|rewrite Hw, decide_False by done; lia].
    unfold drops. rewrite F, Hv, incr_eq64, decide_True by done. apply eq64_of_eq. lia.
  - destruct Hp as ([Ho Hn _] & Hw & Hv). destruct (nat_side_fields _ _ Hn) as (_ & _ & F).
    split; [done|]. split; [done|]. split; [|done]. unfold drops. rewrite F, Hv, decide_False by done. apply eq64_of_eq. lia.
Qed.

Lemma finish_due_ok now due r :
  tables_ok r ->
  let '(out, r') := finish_due now due r in
  exists lost, tables_ok r' /\ drops r' ==64 drops r + zlen lost
    /\ (forall w, heldWeight w r' = heldWeight w r)
    /\ (forall w, lsum (fun h => w (keyOf (hrec h))) due
                 = lsum (fun rec => w (keyOf rec)) out + lsum (fun rec => w (keyOf rec)) lost).
Proof.
  revert r. induction due as [|h due IH]; intros r Hr; cbn [finish_due].
  { exists []. split; [done|]. split; [apply eq64_of_eq; unfold zlen; cbn; lia|done]. }
  pose proof (fun w => natAdmit_whole w (hrec h) now r Hr) as Hn. destruct (natAdmit (hrec h) now r) as [ok r1].
  destruct (Hn (fun _ => 0)) as (Ho & Hd & _). assert (forall w, heldWeight w r1 = heldWeight w r) as Hw by apply Hn. clear Hn.
  destruct ok; cbn [negb].
  - pose proof (fun w => correct_ok w (hrec h) (hm h) (hsnap h) r1 Ho) as Hc.
    destruct (correct (hrec h) (hm h) (hsnap h) r1) as [rec r2]. destruct (Hc (fun _ => 0)) as (Ho2 & Hk2 & Hd2 & _).
    assert (forall w, heldWeight w r2 = heldWeight w r1) as Hw2 by apply Hc. clear Hc.
    specialize (IH r2 Ho2). destruct (finish_due now due r2) as [out r']. destruct IH as (lost & Ho' & Hd' & Hw' & Hs).
    exists lost. split; [done|]. split; [rewrite Hd', Hd2, Hd; apply eq64_of_eq; lia|].
    split; [intros w; by rewrite Hw', Hw2|]. intros w. rewrite !lsum_cons, Hk2, Hs. lia.
  - specialize (IH r1 Ho). destruct (finish_due now due r1) as [out r']. destruct IH as (lost & Ho' & Hd' & Hw' & Hs).
    exists (hrec h :: lost). split; [done|].
    split; [rewrite Hd', Hd; apply eq64_of_eq; unfold zlen; cbn; lia|].
    split; [intros w; by rewrite Hw'|]. intros w. rewrite !lsum_cons, Hs. lia.
Qed.

(** One release: where the records that were waiting went. *)
Lemma release_ok now all r :
  tables_ok r ->
  let '(out, r') := release now all r in
  exists lost, tables_ok r' /\ drops r' ==64 drops r + zlen lost
    /\ forall w, heldWeight w r
                = heldWeight w r' + lsum (fun rec => w (keyOf rec)) out + lsum (fun rec => w (keyOf rec)) lost.
Proof.
  intros Hr. unfold release. pose proof (fun w => pop_due_ok w now all r Hr) as Hp. destruct (pop_due now all r) as [due r1].
  destruct (Hp (fun _ => 0)) as ([Ho Hn _] & Hv & _ & _). destruct (nat_side_fields _ _ Hn) as (_ & _ & F).
  pose proof (finish_due_ok now due r1 Ho) as Hf. destruct (finish_due now due r1) as [out r'].
  destruct Hf as (lost & Ho' & Hd' & Hw' & Hs). exists lost. split; [done|].
  split; [rewrite Hd'; unfold drops; by rewrite F, Hv|]. intros w. destruct (Hp w) as (_ & _ & Hw & _).
  rewrite Hw', <- Hw, Hs. lia.
Qed.

(** ** Properties *)

(** [C6] Whatever the interleaving of concurrent calls, the stage accounts for every
    record it admitted, in any measure of an instance (number, bytes, packets): passed
    on, dropped as a VLAN copy, handed back by a release, or still in the hold buffer;
    and the counters of VLAN and NAT duplicates are the numbers of records dropped. *)
Theorem repair_account w mx mh es :
  let '(g, r) := history mx mh es in
  lsum (fun p => w (keyOf (fst p))) (admits g)
  = weigh w RepairEmit (admits g) + weigh w RepairDrop (admits g)
    + lsum (fun h => w (keyOf (hrec h))) (pops g) + heldWeight w r
  /\ vlanDropped r ==64 weigh (fun _ => 1) RepairDrop (admits g)
  /\ natDuplicates r + natConvDuplicates r ==64 suppressed (tests g).
Proof.
  pose proof (history_spec w mx mh es) as Hg. destruct (history mx mh es) as [g r]. destruct Hg as [_ Hd Hh Hts _ _ _].
  cbn [fst snd] in *. split; [|done]. rewrite <- Z.add_assoc, <- Hh. unfold weigh. rewrite <- !lsum_add.
  apply lsum_ext. intros [rec v] _. cbn [fst snd]. by destruct v; repeat case_decide; try done; lia.
Qed.

(** Every table of the stage stays within its configured bound. *)
Theorem repair_bounds mx mh es :
  let r := snd (history mx mh es) in
  (0 < mx -> zsize (seen r) <= mx /\ zsize (natSeen r) <= mx /\ zsize (natConv r) <= mx)
  /\ (0 < mh -> zsize (held r) <= mh).
Proof.
  cbv zeta.
  assert (maxEntries (snd (history mx mh es)) = mx /\ maxHeld (snd (history mx mh es)) = mh) as [E1 E2]
    by apply history_config.
  destruct (ho_tables _ _ _ (history_spec (fun _ => 0) mx mh es)) as [_ _ _ _ W1 W2 W3 W4 _].
  unfold within in *. rewrite E1 in *. rewrite E2 in *. auto.
Qed.

(** [C4] Nothing is dropped as a VLAN duplicate on suspicion: a record that is
    dropped is tagged and sits on the parent of its own VLAN interface, or a record of
    the same instance (same tuple, times, bytes and packets) came before on the same
    interfaces or on the parent or the child of one, and one of that instance was
    passed on or held. *)
Theorem vlan_drop_justified mx mh es rec om snap now rec' r' :
  let '(g, r) := history mx mh es in
  admit_ rec om snap now r = (RepairDrop, rec', r') ->
  isVLANParentCopy rec om = true
  \/ (exists rec0 v0, (rec0, v0) ∈ admits g /\ keyOf rec0 = keyOf rec
       /\ isDuplicateOf (Device (In rec0)) (Device (Out rec0)) (Device (In rec')) (Device (Out rec')) om = true)
     /\ (exists rec1 v1, (rec1, v1) ∈ admits g /\ keyOf rec1 = keyOf rec /\ v1 <> RepairDrop).
Proof.
  pose proof (history_spec (fun _ => 0) mx mh es) as Hg. destruct (history mx mh es) as [g r]. cbn [fst snd] in Hg.
  intros E. pose proof (admit_ok (fun _ => 0) rec om snap now r (ho_tables _ _ _ Hg)) as Ha. rewrite E in Ha.
  destruct Ha as (_ & _ & _ & _ & [?|(p & Hk & Hd)]); [by left|]. right.
  destruct (ho_known _ _ _ Hg _ _ Hk) as [(rec0 & v0 & Hin & Hkey & <-) Hkept]. split; [|exact Hkept].
  exists rec0, v0. by repeat split.
Qed.

(** [C5] A record is suppressed as a post-NAT copy only when pf states its
    translation and a record carrying the pre-NAT tuple has been let through; traffic
    the firewall does not translate is never suppressed. *)
Theorem nat_drop_justified mx mh es rec now r' :
  let '(g, r) := history mx mh es in
  natAdmit rec now r = (false, r') ->
  exists t own canon rec0 at_,
    nats r = Some t /\ tupleOfRecord rec = Some own /\ Canonical (Some t) own = Some canon
    /\ (rec0, at_, true) ∈ tests g /\ tupleOfRecord rec0 = Some canon.
Proof.
  pose proof (history_spec (fun _ => 0) mx mh es) as Hg. destruct (history mx mh es) as [g r]. cbn [fst snd] in Hg.
  intros E. pose proof (natAdmit_ok rec now r (ho_tables _ _ _ Hg)) as Ha. rewrite E in Ha.
  destruct Ha as (_ & _ & t & own & canon & Hn & Ho & Hc & [(e & He & Hrole)|(tm & Htm)]).
  - destruct (ho_pre _ _ _ Hg _ _ He Hrole) as (rec0 & Hin & Htup & _). by exists t, own, canon, rec0, (nseen e).
  - destruct (ho_conv _ _ _ Hg _ _ Htm) as (rec0 & Hin & Htup). by exists t, own, canon, rec0, tm.
Qed.

(** [C7] No record is parked past its window or at shutdown: with a clock that does
    not run backwards a release leaves only records whose deadline is still to come,
    and a flush leaves none. *)
Theorem hold_complete mx mh es now :
  StronglySorted Z.le (admit_times es) ->
  let r := snd (history mx mh es) in
  (forall k h, held (snd (pop_due now false r)) !! k = Some h -> now < deadline h)
  /\ HeldEntries (snd (pop_due zero_time true r)) = 0.
Proof.
  intros Hs. cbv zeta. pose proof (ho_tables _ _ _ (history_spec (fun _ => 0) mx mh es)) as Hok.
  assert (hold_sorted (snd (history mx mh es))) as Hsort.
  { apply (history_timely mx mh es (foldr Z.max 0 (admit_times es)) Hs), foldr_max_le. }
  split.
  - pose proof (pop_due_ok (fun _ => 0) now false _ Hok) as Hp. destruct (pop_due now false _) as [due r'].
    destruct Hp as (_ & _ & _ & _ & _ & _ & Hp). destruct (Hp Hsort) as [_ Hd].
    intros k h Hk. apply Z.ltb_lt. by apply (Hd eq_refl k).
  - pose proof (pop_due_ok (fun _ => 0) zero_time true _ Hok) as Hp. destruct (pop_due zero_time true _) as [due r'].
    destruct Hp as (_ & _ & _ & Hd & _ & Hall & _). cbn [snd]. unfold HeldEntries. rewrite Hd, (Hall eq_refl).
    unfold zsize. by rewrite map_size_empty.
Qed.

End repair.

(** ** Witnesses *)

#[export] Existing Instance IfMap.ifmap_topology.

(** A trunk record twice, then a NAT pair. *)
Definition trunk_rec : Record_ :=
  zeroRecord <| Proto := 17 |> <| SrcAddr := Addr4 0x0A090909 |> <| DstAddr := Addr4 0x08080808 |>
    <| SrcPort := 5353 |> <| DstPort := 53 |> <| NF := mkCounters 100 0 2 0 true |>
    <| In := mkIface "ixl0" "LAN" 1 false false |> <| Out := mkIface "pppoe0" "WAN" 4 false false |>.
Definition pre_rec : Record_ :=
  zeroRecord <| Proto := 6 |> <| SrcAddr := Addr4 0x0A000005 |> <| DstAddr := Addr4 0xC6336407 |>
    <| SrcPort := 51000 |> <| DstPort := 443 |> <| NF := mkCounters 1000 0 9 0 true |>.
Definition post_rec : Record_ := pre_rec <| SrcAddr := Addr4 0xCB007109 |> <| SrcPort := 40001 |>.

Definition sample_map : option IfMap.IfMap := Some (IfMap.BuildIfMap IfMap.sample_input).

Definition sample_events : list (event (M := IfMap.IfMap)) :=
  [EvNats (nat_polls 100 two_polls); EvAdmit trunk_rec sample_map None 1000; EvNat pre_rec 2000].

Lemma vlan_drop_justified_witness :
  let '(g, r) := history 10 10 sample_events in
  fst (fst (admit_ trunk_rec sample_map None 3000 r)) = RepairDrop
  /\ isVLANParentCopy trunk_rec sample_map = false
  /\ exists rec1 v1, (rec1, v1) ∈ admits g /\ keyOf rec1 = keyOf trunk_rec /\ v1 <> RepairDrop.
Proof.
  pose proof (vlan_drop_justified 10 10 sample_events trunk_rec sample_map None 3000) as Hj.
  assert (fst (fst (admit_ trunk_rec sample_map None 3000 (snd (history 10 10 sample_events)))) = RepairDrop) as E
    by (vm_compute; reflexivity).
  destruct (history 10 10 sample_events) as [g r]. cbn [snd] in E.
  split; [exact E|]. split; [vm_compute; reflexivity|].
  destruct (admit_ trunk_rec sample_map None 3000 r) as [[v rec'] r']. cbn [fst] in E. subst v.
  destruct (Hj rec' r' eq_refl) as [X|X]; [vm_compute in X; discriminate X|exact (proj2 X)].
Defined.

Lemma nat_drop_justified_witness :
  let '(g, r) := history 10 10 sample_events in
  fst (natAdmit post_rec 4000 r) = false
  /\ exists t own canon rec0 at_,
       nats r = Some t /\ tupleOfRecord post_rec = Some own /\ Canonical (Some t) own = Some canon
       /\ (rec0, at_, true) ∈ tests g /\ tupleOfRecord rec0 = Some canon.
Proof.
  pose proof (nat_drop_justified 10 10 sample_events post_rec 4000) as Hj.
  assert (fst (natAdmit post_rec 4000 (snd (history 10 10 sample_events))) = false) as E
    by (vm_compute; reflexivity).
  destruct (history 10 10 sample_events) as [g r]. cbn [snd] in E. split; [exact E|].
  destruct (natAdmit post_rec 4000 r) as [ok r']. cbn [fst] in E. subst ok. exact (Hj r' eq_refl).
Defined.

Lemma hold_complete_witness :
  StronglySorted Z.le (admit_times sample_events)
  /\ zsize (held (snd (history 10 10 sample_events))) = 1
  /\ HeldEntries (snd (pop_due zero_time true (snd (history 10 10 sample_events)))) = 0.
Proof.
  assert (StronglySorted Z.le (admit_times sample_events)) as Hs by (cbn; constructor; constructor).
  split; [exact Hs|]. split; [vm_compute; reflexivity|]. apply (hold_complete 10 10 sample_events 0 Hs).
Defined.

End Repair.
