(* ===== verification/Processor.v ===== *)
(** * The NetFlow pipeline ([processor.go])

    Decoded datagrams to flow records: normalise, resolve interfaces, repair, enrich,
    hand to the sink.  The sink is any [Sink]; the repair stage, the DNS cache and the
    enrichment snapshots are the components of the other files. *)

From stdpp Require Import base decidable list gmap sets strings sorting.
From Stdlib Require Import ZArith Lia.
From S2P Require Import Prelude Netip Record Geo Template GoStrings Enrich IfMap Tables DnsCache Fifo Repair CommunityId.

Module Processor.

Definition IfMap := IfMap.IfMap.
Definition Repairer := Repair.Repairer (M := IfMap).
#[export] Existing Instance IfMap.ifmap_topology.

(** ** Records *)

Definition normalizeNetflow (nr : Netflow.NfRecord) (now : Time) : option Record_ :=
  if negb (IsValid (Netflow.nSrcAddr nr)) || negb (IsValid (Netflow.nDstAddr nr)) then None
  else
    let r := zeroRecord <| rSource := SourceNetflow |> <| Observed := now |>
               <| Start := Netflow.First nr |> <| End_ := Netflow.Last nr |> <| Proto := Netflow.nProto nr |>
               <| SrcAddr := Unmap (Netflow.nSrcAddr nr) |> <| DstAddr := Unmap (Netflow.nDstAddr nr) |>
               <| SrcPort := Netflow.nSrcPort nr |> <| DstPort := Netflow.nDstPort nr |>
               <| VLANID := vlanString (Netflow.nVLANID nr) |>
               <| NF := mkCounters (Netflow.nBytes nr) 0 (Netflow.nPackets nr) 0 true |>
               <| TCPFlags := Netflow.nTCPFlags nr |> <| DSCP := Netflow.nDSCP nr |> <| ECN := Netflow.nECN nr |>
               <| SrcMask := Netflow.nSrcMask nr |> <| DstMask := Netflow.nDstMask nr |> <| Fragments := 1 |> in
    let r := if IsZero (End_ r) then r <| End_ := Start r |> else r in
    Some (r <| CommunityIDOf := Community.CommunityID (CanonicalTuple r) 0 |>).

Definition markColdInterface (i : Iface) : Iface :=
  if negb (str_empty (Name i)) then i <| Unresolved := false |>
  else if negb (str_empty (Device i)) then i <| Unresolved := true |> else i.

Definition resolveInterface (i : Iface) (snap : Enrich.Snapshot) : Iface :=
  let i := if negb (str_empty (Device i)) && str_empty (Name i)
           then match Enrich.InterfaceName snap (Device i) with
                | Some name => i <| Name := name |>
                | None => i
                end
           else i in
  if negb (str_empty (Device i)) || negb (str_empty (Name i)) then i <| Unresolved := false |> else i.

(** The part of [enrichRecord] that reads the snapshot. *)
Definition enrich_with (snap : Enrich.Snapshot) (r : Record_) : Record_ :=
  let src := addr_String (SrcAddr r) in let dst := addr_String (DstAddr r) in
  let r := r <| Enrich ::= fun e => e <| SrcScope := Enrich.Scope snap src |>
                                      <| DstScope := Enrich.Scope snap dst |> |> in
  let r := match Enrich.Hostname snap src with
           | Some h => r <| Enrich ::= fun e => e <| SrcHostname := h |> |>
           | None => r
           end in
  let r := match Enrich.Hostname snap dst with
           | Some h => r <| Enrich ::= fun e => e <| DstHostname := h |> |>
           | None => r
           end in
  if DstPort r =? 0 then r
  else match Enrich.ServiceName (Itoa (DstPort r)) (protoName (Proto r)) with
       | Some svc => r <| Enrich ::= fun e => e <| DstService := svc |> |>
       | None => r
       end.

(** [enrichRecord], with the DNS cache and the process-wide enricher it may write. *)
Definition enrichRecord (r : Record_) (snap : option Enrich.Snapshot) (cache : option Dns.DNSCache) (now : Time)
    (geo : option GeoEnricher) : Record_ * option Dns.DNSCache * option GeoEnricher :=
  let '(r, cache) :=
    match cache with
    | Some d =>
        if str_empty (DstDomain (Enrich r)) then
          let '(dom, d) := Dns.Lookup (SrcAddr r) (DstAddr r) now d in
          (match dom with Some q => r <| Enrich ::= fun e => e <| DstDomain := q |> |> | None => r end, Some d)
        else (r, cache)
    | None => (r, None)
    end in
  let metadataReady := match snap with Some s => 0 <? zsize (Enrich.IfaceNames s) | None => false end in
  let r := if metadataReady then r else r <| In ::= markColdInterface |> <| Out ::= markColdInterface |> in
  let r := match snap with
           | None => r
           | Some s =>
               let r := if metadataReady
                        then r <| In ::= fun i => resolveInterface i s |> <| Out ::= fun i => resolveInterface i s |>
                        else r in
               enrich_with s r
           end in
  let '(r, geo) := Geo_Enrich geo r in
  (r, cache, geo).

(** ** The pipeline *)

Section processor.
Context {S : Type} `{Sink S}.

Record Processor := mkProcessor {
  sink : option S; rep : option Repairer; cache : option Enrich.Cache; ifmap : option IfMap;
  dnsCache : option Dns.DNSCache; geoEnrichment : option GeoEnricher; unmapped : Z;
  datagrams : Z; recordsIn : Z; emitted : Z; dropped : Z; noAddress : Z; noIfaceMap : Z; held : Z }.
#[export] Instance eta_Processor : Eta Processor := fun p =>
  mkProcessor (sink p) (rep p) (cache p) (ifmap p) (dnsCache p) (geoEnrichment p) (unmapped p) (datagrams p)
    (recordsIn p) (emitted p) (dropped p) (noAddress p) (noIfaceMap p) (held p).

(** [geo] is the process-wide [GeoEnrichment]. *)
Definition NewProcessor (s : option S) (r : option Repairer) (c : option Enrich.Cache) (geo : option GeoEnricher)
  : Processor :=
  mkProcessor s r c None None geo 0 0 0 0 0 0 0 0.

Definition SetIfMap (m : option IfMap) (p : Processor) : Processor := p <| ifmap := m |>.
Definition SetDNSCache (c : option Dns.DNSCache) (p : Processor) : Processor := p <| dnsCache := c |>.

Definition current (p : Processor) : option Enrich.Snapshot := Enrich.Load <$> cache p.

Definition emit (rec : Record_) (snap : option Enrich.Snapshot) (now : Time) (p : Processor) : Processor :=
  let '(rec, dns, geo) := enrichRecord rec snap (dnsCache p) now (geoEnrichment p) in
  p <| dnsCache := dns |> <| geoEnrichment := geo |> <| emitted ::= incr |>
    <| sink ::= fmap (fun s => Observe s rec) |>.

(** The interfaces of a record, with the counter of unmapped indices. *)
Definition resolve (m : option IfMap) (nr : Netflow.NfRecord) (rec : Record_) (n : Z) : Record_ * Z :=
  match m with
  | None => (rec, n)
  | Some _ =>
      let '(i, n) := IfMap.IfMap_Iface m (Netflow.InIfIndex nr) n in
      let '(o, n) := IfMap.IfMap_Iface m (Netflow.OutIfIndex nr) n in
      (rec <| In := i |> <| Out := o |>, n)
  end.

(** One record of the loop of [ObserveDatagram]. *)
Definition observe_record (snap : option Enrich.Snapshot) (m : option IfMap) (now : Time) (p : Processor)
    (nr : Netflow.NfRecord) : Processor :=
  let p := p <| recordsIn ::= incr |> in
  match normalizeNetflow nr now with
  | None => p <| noAddress ::= incr |>
  | Some rec =>
      let '(rec, n) := resolve m nr rec (unmapped p) in
      let p := p <| unmapped := n |> in
      let p := if str_empty (Device (In rec)) && str_empty (Device (Out rec)) then p <| noIfaceMap ::= incr |> else p in
      match rep p with
      | None => emit rec snap now p
      | Some r =>
          let '(v, rec, r) := Repair.repairWith rec m snap now r in
          let p := p <| rep := Some r |> in
          match v with
          | Repair.RepairDrop => p <| dropped ::= incr |>
          | Repair.RepairHold => p <| held ::= fun n => s64 (n + 1) |>
          | Repair.RepairEmit => emit rec snap now p
          end
      end
  end.

Definition emit_released (snap : option Enrich.Snapshot) (now : Time) (p : Processor) (rec : Record_) : Processor :=
  emit rec snap now (p <| held ::= fun n => s64 (n - 1) |>).

Definition emitReleased (recs : list Record_) (now : Time) (p : Processor) : Processor :=
  fold_left (emit_released (current p) now) recs p.

Definition ReleaseDue (now : Time) (p : Processor) : Processor :=
  match rep p with
  | None => p
  | Some r => let '(recs, r) := Repair.Release now r in emitReleased recs now (p <| rep := Some r |>)
  end.

Definition Flush (now : Time) (p : Processor) : Processor :=
  match rep p with
  | None => p
  | Some r => let '(recs, r) := Repair.Flush r in emitReleased recs now (p <| rep := Some r |>)
  end.

Definition ObserveDatagram (dg : option Netflow.Datagram) (now : Time) (p : Processor) : Processor :=
  match dg with
  | None => p
  | Some d =>
      let p := p <| datagrams ::= incr |> in
      let snap := current p in
      let m := ifmap p in
      ReleaseDue now (fold_left (observe_record snap m now) (Netflow.Records d) p)
  end.

Record ProcessorStats := mkStats {
  sDatagrams : Z; RecordsIn : Z; RecordsEmitted : Z; RecordsDropped : Z; RecordsNoAddr : Z; RecordsUnmapped : Z;
  RecordsHeld : Z }.

Definition Stats (p : Processor) : ProcessorStats :=
  mkStats (datagrams p) (recordsIn p) (emitted p) (dropped p) (noAddress p) (noIfaceMap p) (held p).

(** ** Histories *)

Inductive op :=
| OpDatagram (dg : option Netflow.Datagram) (now : Time)
| OpRelease (now : Time)
| OpFlush (now : Time)
| OpIfMap (m : option IfMap)
| OpDNS (c : option Dns.DNSCache)
| OpSnapshot (s : option Enrich.Snapshot)
| OpTables (rt : option Tables.RouteTable) (nt : option Tables.NATTable).

Definition step (p : Processor) (o : op) : Processor :=
  match o with
  | OpDatagram dg now => ObserveDatagram dg now p
  | OpRelease now => ReleaseDue now p
  | OpFlush now => Flush now p
  | OpIfMap m => SetIfMap m p
  | OpDNS c => SetDNSCache c p
  | OpSnapshot s => p <| cache ::= fmap (Enrich.Store s) |>
  | OpTables rt nt => p <| rep ::= fmap (fun r => Repair.SetNATTable nt (Repair.SetRouteTable rt r)) |>
  end.

Definition run (p : Processor) (os : list op) : Processor := fold_left step os p.

(** What was received, and the records with both endpoints among it. *)
Definition received (o : op) : list (Netflow.NfRecord * Time) :=
  match o with
  | OpDatagram (Some d) now => map (fun nr => (nr, now)) (Netflow.Records d)
  | _ => []
  end.

Definition normalized (l : list (Netflow.NfRecord * Time)) : list Record_ :=
  omap (fun '(nr, now) => normalizeNetflow nr now) l.

(** ** Nothing on the way changes an instance *)

Lemma enrich_key r snap cache now geo :
  Repair.keyOf (fst (fst (enrichRecord r snap cache now geo))) = Repair.keyOf r.
Proof.
  unfold enrichRecord.
  set (rc := match cache with Some d => _ | None => _ end).
  assert (Repair.keyOf (fst rc) = Repair.keyOf r) as H1.
  { unfold rc. destruct cache as [d|]; [|done]. destruct (str_empty _); [|done].
    destruct (Dns.Lookup _ _ _ d) as [[q|] d']; done. }
  destruct rc as [r1 c1]. cbn [fst] in H1. rewrite <- H1. clear H1.
  set (mr := match snap with Some s => _ | None => false end).
  set (r2 := if mr then r1 else _).
  assert (Repair.keyOf r2 = Repair.keyOf r1) as H2 by by unfold r2; destruct mr.
  rewrite <- H2. clearbody r2. clear H2.
  set (r3 := match snap with Some s => _ | None => r2 end).
  assert (Repair.keyOf r3 = Repair.keyOf r2) as H3.
  { unfold r3. destruct snap as [s|]; [|done]. set (r4 := if mr then _ else r2).
    assert (Repair.keyOf r4 = Repair.keyOf r2) as H4 by by unfold r4; destruct mr.
    rewrite <- H4. clearbody r4. unfold enrich_with.
    destruct (Enrich.Hostname s (addr_String (SrcAddr r4))), (Enrich.Hostname s (addr_String (DstAddr r4)));
      cbn [update DstPort Proto]; (destruct (_ =? 0); [done|]); destruct (Enrich.ServiceName _ _); done. }
  rewrite <- H3. clearbody r3. unfold Geo_Enrich. destruct geo as [e|]; [|done]. destruct (lk e) as [f|]; [|done].
  destruct (endpoint f e _ _) as [[gs e1] h1]. destruct (endpoint f e1 _ _) as [[gd e2] h2]. done.
Qed.

Lemma resolve_key m nr rec n : Repair.keyOf (fst (resolve m nr rec n)) = Repair.keyOf rec.
Proof.
  unfold resolve. destruct m as [m|]; [|done].
  destruct (IfMap.IfMap_Iface _ _ n) as [i n1]. by destruct (IfMap.IfMap_Iface _ _ n1) as [o n2].
Qed.

(** ** The account *)

Definition total (w : Repair.instanceKey -> Z) (l : list Record_) : Z := lsum (fun rec => w (Repair.keyOf rec)) l.

Section account.
Context (s0 : S).

(** [got] is what was received so far. *)
Record account_ok (got : list (Netflow.NfRecord * Time)) (p : Processor) (r : Repairer) (outs lost : list Record_)
  : Prop := {
  ac_rep : rep p = Some r;
  ac_tables : Repair.tables_ok r;
  ac_sink : sink p = Some (observe_all s0 outs);
  ac_emitted : emitted p ==64 zlen outs;
  ac_in : recordsIn p ==64 zlen got;
  ac_noaddr : noAddress p ==64 zlen got - zlen (normalized got);
  ac_identity : recordsIn p ==64 emitted p + dropped p + noAddress p + held p;
  ac_total w : total w (normalized got) = total w outs + total w lost + Repair.heldWeight w r;
  ac_lost : Repair.drops r ==64 zlen lost }.

Lemma s64_eq64 z : s64 z ==64 z.
Proof.
  unfold s64, eq64, u64. destruct (_ <? _).
  - by rewrite Z.mod_mod.
  - rewrite Zminus_mod, Z.mod_mod, Z.mod_same, Z.sub_0_r, Z.mod_mod by done. done.
Qed.

Lemma total_snoc w l rec : total w (l ++ [rec]) = total w l + w (Repair.keyOf rec).
Proof. unfold total. rewrite lsum_app. cbn. lia. Qed.

Lemma zlen_snoc {A} (l : list A) a : zlen (l ++ [a]) = zlen l + 1.
Proof. unfold zlen. rewrite length_app. cbn. lia. Qed.

Lemma observe_snoc l rec : observe_all s0 (l ++ [rec]) = Observe (observe_all s0 l) rec.
Proof. by rewrite observe_all_app. Qed.

(** What an emission does to the processor. *)
Lemma emit_fields rec snap now p s :
  sink p = Some s ->
  exists rec' dns geo, Repair.keyOf rec' = Repair.keyOf rec
    /\ emit rec snap now p = p <| dnsCache := dns |> <| geoEnrichment := geo |> <| emitted ::= incr |>
                               <| sink := Some (Observe s rec') |>.
Proof.
  intros Hs. unfold emit. pose proof (enrich_key rec snap (dnsCache p) now (geoEnrichment p)) as Hk.
  destruct (enrichRecord rec snap (dnsCache p) now (geoEnrichment p)) as [[rec' dns] geo]. cbn [fst] in Hk.
  exists rec', dns, geo. split; [done|]. unfold update. cbn. by rewrite Hs.
Qed.

Lemma released_fields rec snap now p s :
  sink p = Some s ->
  exists rec' dns geo, Repair.keyOf rec' = Repair.keyOf rec
    /\ emit_released snap now p rec
       = p <| held ::= fun n => s64 (n - 1) |> <| dnsCache := dns |> <| geoEnrichment := geo |> <| emitted ::= incr |>
           <| sink := Some (Observe s rec') |>.
Proof. intros Hs. by apply emit_fields. Qed.

Lemma normalized_snoc got nr now :
  normalized (got ++ [(nr, now)])
  = normalized got ++ match normalizeNetflow nr now with Some rec => [rec] | None => [] end.
Proof. unfold normalized. rewrite omap_app. cbn. by destruct (normalizeNetflow nr now). Qed.

(** One more record, by where it went. *)
Lemma observe_record_ok got p r outs lost snap m now nr :
  account_ok got p r outs lost ->
  exists r' outs' lost', account_ok (got ++ [(nr, now)]) (observe_record snap m now p nr) r' outs' lost'.
Proof.
  intros [Hrep Ht Hsink Hem Hin Hno Hid Htot Hlost]. unfold observe_record.
  destruct (normalizeNetflow nr now) as [rec|] eqn:En.
  2: { exists r, outs, lost. split; cbn [update rep sink emitted recordsIn noAddress dropped held]; try done;
       rewrite ?normalized_snoc, ?En, ?app_nil_r, ?zlen_snoc, ?incr_eq64; [by rewrite Hin|..|done].
       - rewrite Hno. apply eq64_of_eq. lia.
       - rewrite Hid. apply eq64_of_eq. lia. }
  cbn [update unmapped]. destruct (resolve m nr rec (unmapped p)) as [rec1 n1] eqn:Er.
  assert (Repair.keyOf rec1 = Repair.keyOf rec) as Hk1.
  { pose proof (resolve_key m nr rec (unmapped p)) as Hk. by rewrite Er in Hk. }
  set (p1 := if str_empty (Device (In rec1)) && str_empty (Device (Out rec1)) then _ else _).
  assert (rep p1 = Some r /\ sink p1 = sink p /\ emitted p1 = emitted p /\ recordsIn p1 = incr (recordsIn p)
          /\ noAddress p1 = noAddress p /\ dropped p1 = dropped p /\ held p1 = held p) as (E1 & E2 & E3 & E4 & E5 & E6 & E7).
  { unfold p1. by destruct (_ && _). }
  clearbody p1. rewrite E1.
  pose proof (fun w => Repair.repairWith_ok w rec1 m snap now r Ht) as Hr.
  destruct (Repair.repairWith rec1 m snap now r) as [[v rec2] r2].
  destruct (Hr (fun _ => 0)) as (Ht2 & Hk2 & Hd2 & _). pose proof (fun w => proj2 (proj2 (proj2 (Hr w)))) as Hw2. clear Hr.
  assert (recordsIn p1 ==64 zlen (got ++ [(nr, now)])) as Hin'
    by (rewrite E4, incr_eq64, zlen_snoc; by rewrite Hin).
  assert (noAddress p1 ==64 zlen (got ++ [(nr, now)]) - zlen (normalized (got ++ [(nr, now)]))) as Hno'.
  { rewrite E5, normalized_snoc, En, !zlen_snoc, Hno. apply eq64_of_eq. lia. }
  assert (forall w, total w (normalized (got ++ [(nr, now)]))
                    = total w outs + total w lost + Repair.heldWeight w r + w (Repair.keyOf rec))
    as Htot' by (intros w; by rewrite normalized_snoc, En, total_snoc, Htot).
  destruct v; cbn [negb].
  - destruct (emit_fields rec2 snap now (p1 <| rep := Some r2 |>) (observe_all s0 outs)) as (rec' & dns & geo & Hk' & ->);
      [cbn; by rewrite E2|].
    exists r2, (outs ++ [rec']), lost.
    split; cbn [update rep sink emitted recordsIn noAddress dropped held]; rewrite ?E3, ?E4, ?E5, ?E6, ?E7 in *; try done.
    + by rewrite observe_snoc.
    + by rewrite incr_eq64, zlen_snoc, Hem.
    + rewrite !incr_eq64, Hid. apply eq64_of_eq. lia.
    + intros w. rewrite Htot', total_snoc, Hw2, Hk', Hk2, Hk1. rewrite decide_False by done. lia.
    + rewrite Hd2, Hlost, decide_False by done. apply eq64_of_eq. lia.
  - exists r2, outs, (lost ++ [rec]).
    split; cbn [update rep sink emitted recordsIn noAddress dropped held]; rewrite ?E2, ?E3, ?E4, ?E5, ?E6, ?E7 in *; try done.
    + rewrite !incr_eq64, Hid. apply eq64_of_eq. lia.
    + intros w. rewrite Htot', total_snoc, Hw2, decide_False by done. lia.
    + by rewrite zlen_snoc, Hd2, Hlost, decide_True by done.
  - exists r2, outs, lost.
    split; cbn [update rep sink emitted recordsIn noAddress dropped held]; rewrite ?E2, ?E3, ?E4, ?E5, ?E6, ?E7 in *; try done.
    + rewrite s64_eq64, incr_eq64, Hid. apply eq64_of_eq. lia.
    + intros w. rewrite Htot', Hw2, decide_True, Hk1 by done. lia.
    + rewrite Hd2, Hlost, decide_False by done. apply eq64_of_eq. lia.
Qed.

Lemma observe_records_ok got p r outs lost snap m now nrs :
  account_ok got p r outs lost ->
  exists r' outs' lost', account_ok (got ++ map (fun nr => (nr, now)) nrs)
                           (fold_left (observe_record snap m now) nrs p) r' outs' lost'.
Proof.
  revert got p r outs lost. induction nrs as [|nr nrs IH]; intros got p r outs lost Ha.
  - exists r, outs, lost. cbn. by rewrite app_nil_r.
  - destruct (observe_record_ok got p r outs lost snap m now nr Ha) as (r1 & outs1 & lost1 & Ha1).
    destruct (IH _ _ _ _ _ Ha1) as (r2 & outs2 & lost2 & Ha2). exists r2, outs2, lost2.
    cbn [map fold_left]. by rewrite <- app_assoc in Ha2.
Qed.

(** The released records, emitted in turn. *)
Lemma emit_all_ok snap now recs p outs :
  sink p = Some (observe_all s0 outs) ->
  let p' := fold_left (emit_released snap now) recs p in
  exists outs', sink p' = Some (observe_all s0 (outs ++ outs')) /\ (forall w, total w outs' = total w recs) /\ zlen outs' = zlen recs
    /\ emitted p' ==64 emitted p + zlen recs /\ held p' ==64 held p - zlen recs
    /\ rep p' = rep p /\ recordsIn p' = recordsIn p /\ noAddress p' = noAddress p /\ dropped p' = dropped p.
Proof.
  cbv zeta. revert p outs. induction recs as [|rec recs IH]; intros p outs Hs; cbn [fold_left].
  { exists []. rewrite app_nil_r. unfold zlen. cbn. rewrite Z.add_0_r, Z.sub_0_r. done. }
  destruct (released_fields rec snap now p _ Hs) as (rec' & dns & geo & Hk & Ep).
  set (p1 := emit_released snap now p rec) in *. clearbody p1. destruct (IH p1 (outs ++ [rec'])) as (outs' & H1 & H2 & H2' & H3 & H4 & H5 & H6 & H7 & H8).
  { rewrite Ep. cbn. by rewrite observe_snoc. }
  exists (rec' :: outs'). rewrite <- app_assoc in H1.
  assert (zlen (rec :: recs) = zlen recs + 1 /\ zlen (rec' :: outs') = zlen outs' + 1) as [Z1 Z2].
  { unfold zlen. cbn. lia. }
  split; [exact H1|]. split; [intros w; specialize (H2 w); unfold total in *; rewrite !lsum_cons, Hk, H2; done|]. split; [lia|].
  rewrite H3, H4, H5, H6, H7, H8, Z1, Ep. cbn [update rep emitted recordsIn noAddress dropped held].
  split; [rewrite incr_eq64; apply eq64_of_eq; lia|]. split; [rewrite s64_eq64; apply eq64_of_eq; lia|done].
Qed.

Lemma released_ok got p r outs lost now all :
  account_ok got p r outs lost ->
  let '(recs, r') := Repair.release now all r in
  forall now', exists outs' lost', account_ok got (emitReleased recs now' (p <| rep := Some r' |>)) r' outs' lost'.
Proof.
  intros [Hrep Ht Hsink Hem Hin Hno Hid Htot Hlost].
  pose proof (Repair.release_ok now all r Ht) as Hr. destruct (Repair.release now all r) as [recs r'].
  destruct Hr as (more & Ht' & Hd & Hw). intros now'. unfold emitReleased.
  match goal with |- context[fold_left (emit_released ?sn _) _ ?q] =>
    destruct (emit_all_ok sn now' recs q outs Hsink) as (outs' & H1 & H2 & H2' & H3 & H4 & H5 & H6 & H7 & H8) end.
  exists (outs ++ outs'), (lost ++ more).
  split; [by rewrite H5|done|done|..]; rewrite ?H6, ?H7, ?H8; cbn [update recordsIn noAddress dropped emitted held] in *; try done.
  - rewrite H3, Hem. unfold zlen in *. rewrite length_app. apply eq64_of_eq. lia.
  - rewrite H3, H4, Hid. apply eq64_of_eq. lia.
  - intros w. specialize (H2 w). specialize (Htot w). specialize (Hw w). unfold total in *.
    rewrite !lsum_app, H2, Htot, Hw. lia.
  - rewrite Hd, Hlost. unfold zlen. rewrite length_app. apply eq64_of_eq. lia.
Qed.

Lemma account_frame got p p' r r' outs lost :
  rep p' = Some r' -> Repair.tables r' = Repair.tables r -> Repair.drops r' = Repair.drops r ->
  (forall w, Repair.heldWeight w r' = Repair.heldWeight w r) ->
  (sink p', emitted p', recordsIn p', noAddress p', dropped p', held p')
  = (sink p, emitted p, recordsIn p, noAddress p, dropped p, held p) ->
  account_ok got p r outs lost -> account_ok got p' r' outs lost.
Proof.
  intros Hrep Ht Hd Hw E [_ Ht0 Hsink Hem Hin Hno Hid Htot Hlost]. injection E as E1 E2 E3 E4 E5 E6.
  split; rewrite ?E1, ?E2, ?E3, ?E4, ?E5, ?E6, ?Hd; try assumption.
  - by eapply Repair.tables_ok_ext.
  - intros w. by rewrite Hw.
Qed.

Lemma release_step got p r outs lost now :
  account_ok got p r outs lost ->
  exists r' outs' lost', account_ok got (ReleaseDue now p) r' outs' lost'.
Proof.
  intros Ha. unfold ReleaseDue. rewrite (ac_rep _ _ _ _ _ Ha). pose proof (released_ok got p r outs lost now false Ha) as Hr.
  unfold Repair.Release. destruct (Repair.release now false r) as [recs r'].
  destruct (Hr now) as (outs' & lost' & H1). by exists r', outs', lost'.
Qed.

Lemma step_ok got p r outs lost o :
  account_ok got p r outs lost ->
  exists r' outs' lost', account_ok (got ++ received o) (step p o) r' outs' lost'.
Proof.
  intros Ha. pose proof (ac_rep _ _ _ _ _ Ha) as Hrep.
  destruct o as [[d|] now|now|now|m|c|sn|rt nt]; cbn [step received]; rewrite ?app_nil_r.
  - cbn [ObserveDatagram].
    match goal with |- context[fold_left (observe_record ?sn ?m now) _ ?q] =>
      destruct (observe_records_ok got q r outs lost sn m now (Netflow.Records d)) as (r1 & outs1 & lost1 & H1) end.
    { by eapply account_frame; [exact Hrep|..|exact Ha]. }
    exact (release_step _ _ _ _ _ now H1).
  - by exists r, outs, lost.
  - by apply release_step with r outs lost.
  - unfold Flush. rewrite Hrep. pose proof (released_ok got p r outs lost zero_time true Ha) as Hr.
    unfold Repair.Flush. destruct (Repair.release zero_time true r) as [recs r'].
    destruct (Hr now) as (outs' & lost' & H1). by exists r', outs', lost'.
  - exists r, outs, lost. by eapply account_frame; [exact Hrep|..|exact Ha].
  - exists r, outs, lost. by eapply account_frame; [exact Hrep|..|exact Ha].
  - exists r, outs, lost. by eapply account_frame; [exact Hrep|..|exact Ha].
  - exists (Repair.SetNATTable nt (Repair.SetRouteTable rt r)), outs, lost.
    eapply account_frame; [cbn; by rewrite Hrep|..|exact Ha]; reflexivity.
Qed.

Lemma run_ok os got p r outs lost :
  account_ok got p r outs lost ->
  exists r' outs' lost', account_ok (got ++ flat_map received os) (run p os) r' outs' lost'.
Proof.
  revert got p r outs lost. induction os as [|o os IH]; intros got p r outs lost Ha; cbn [flat_map].
  - rewrite app_nil_r. by exists r, outs, lost.
  - destruct (step_ok got p r outs lost o Ha) as (r1 & outs1 & lost1 & H1).
    rewrite app_assoc. exact (IH _ _ _ _ _ H1).
Qed.

Lemma new_ok mx mh c geo :
  account_ok [] (NewProcessor (Some s0) (Some (Repair.NewRepairer mx mh)) c geo) (Repair.NewRepairer mx mh) [] [].
Proof. split; try reflexivity. apply Repair.tables_ok_new. Qed.

Lemma run_spec mx mh c geo os :
  exists r outs lost, account_ok (flat_map received os)
                        (run (NewProcessor (Some s0) (Some (Repair.NewRepairer mx mh)) c geo) os) r outs lost.
Proof. exact (run_ok os [] _ _ _ _ (new_ok mx mh c geo)). Qed.

End account.

Lemma heldWeight_count (r : Repairer) : Repair.heldWeight (fun _ => 1) r = Repair.HeldEntries r.
Proof. unfold Repair.heldWeight, Repair.HeldEntries. by rewrite lsum_one, msum_one. Qed.

(** [C3] The four-term identity of the pipeline holds after any sequence of
    datagrams, releases, flushes and table updates (the counters are 64-bit), and it is
    about the records that came in: what was received with two valid endpoints is, in
    any measure of an instance, what reached the sink, what the repair stage dropped
    and what it still holds.  The records of the sink are counted by
    [RecordsEmitted]. *)
Theorem proc_account s0 mx mh c geo os :
  let p := run (NewProcessor (Some s0) (Some (Repair.NewRepairer mx mh)) c geo) os in
  let st := Stats p in
  RecordsIn st ==64 RecordsEmitted st + RecordsDropped st + RecordsNoAddr st + RecordsHeld st
  /\ RecordsIn st ==64 zlen (flat_map received os)
  /\ exists r outs lost,
       rep p = Some r /\ sink p = Some (observe_all s0 outs) /\ RecordsEmitted st ==64 zlen outs
       /\ Repair.drops r ==64 zlen lost
       /\ forall w, total w (normalized (flat_map received os)) = total w outs + total w lost + Repair.heldWeight w r.
Proof.
  cbv zeta. destruct (run_spec s0 mx mh c geo os) as (r & outs & lost & []).
  split; [done|]. split; [done|]. by exists r, outs, lost.
Qed.

(** The [RecordsHeld] gauge is the number of records the repair stage holds
    plus the drops of the repair stage that [RecordsDropped] does not count: a record
    suppressed as a NAT duplicate when it leaves the hold buffer is neither emitted nor
    released, so it stays in the gauge. *)
Theorem held_gauge s0 mx mh c geo os :
  let p := run (NewProcessor (Some s0) (Some (Repair.NewRepairer mx mh)) c geo) os in
  exists r, rep p = Some r
    /\ RecordsHeld (Stats p) ==64 Repair.HeldEntries r + (Repair.drops r - RecordsDropped (Stats p)).
Proof.
  cbv zeta. destruct (run_spec s0 mx mh c geo os) as (r & outs & lost & [Hrep Ht Hsink Hem Hin Hno Hid Htot Hlost]).
  exists r. split; [done|]. specialize (Htot (fun _ => 1)). rewrite heldWeight_count in Htot.
  unfold total in Htot. rewrite !lsum_one in Htot. cbn [Stats RecordsHeld RecordsDropped].
  set (p := run _ os) in *. clearbody p.
  transitivity (emitted p + dropped p + noAddress p + held p - emitted p - dropped p - noAddress p);
    [apply eq64_of_eq; lia|].
  rewrite <- Hid, Hin, Hem, Hno, Hlost. apply eq64_of_eq. lia.
Qed.

End processor.

(** ** A run *)

#[local] Instance list_sink : Sink (list Record_) := fun l r => l ++ [r].

(** The two copies of one translated conversation: the first on a VLAN child, the
    second on the trunk, where it waits for a better copy. *)
Definition nf_of (src : Addr) (sport inIdx outIdx : Z) : Netflow.NfRecord :=
  Netflow.mkNf 6 src (Addr4 0xC6336407) sport 443 1000 9 inIdx outIdx zero_time zero_time 0 0 0 0 0 0 AddrInvalid 256.
Definition pre_nf : Netflow.NfRecord := nf_of (Addr4 0x0A000005) 51000 3 4.
Definition post_nf : Netflow.NfRecord := nf_of (Addr4 0xCB007109) 40001 3 1.

Definition datagram_of (nrs : list Netflow.NfRecord) : option Netflow.Datagram :=
  Some (Netflow.mkDatagram 9 0 0 unix_epoch nrs []).

Definition nat_run : Processor (S := list Record_) :=
  run (NewProcessor (Some []) (Some (Repair.NewRepairer 10 10)) None None)
    [OpIfMap Repair.sample_map; OpTables None (Tables.nat_polls 100 Tables.two_polls);
     OpDatagram (datagram_of [pre_nf]) 1000; OpDatagram (datagram_of [post_nf]) 2000; OpFlush 3000].

(** After the flush nothing waits, and the gauge still reads one. *)
Example held_gauge_drift :
  (Repair.HeldEntries <$> rep nat_run) = Some 0 /\ RecordsHeld (Stats nat_run) = 1
  /\ RecordsDropped (Stats nat_run) = 0 /\ zlen (default [] (sink nat_run)) = 1.
Proof. vm_compute. repeat split. Qed.

End Processor.
