(* ===== verification/Framing.v ===== *)
(** * Syslog framing over a stream ([logship/syslog/framing.go], [assemble.go])

    The splitter that cuts a connection's bytes into frames, octet counted or ended by
    a newline; the part of [bufio.Scanner] that drives it; the assembler that rejoins
    the lines of one message; and the loop of [serveConn] that composes them. *)

From stdpp Require Import base decidable list sets.
From Stdlib Require Import ZArith Lia.
From S2P Require Import Prelude.

Module Framing.

(** ** Frames in a buffer *)

Definition maxMessageBytes : Z := 65536.
Definition scannerHeadroom : Z := 32.
Definition maxLenDigits : nat := 10.

(** [bytes.IndexByte]; [None] is -1. *)
Fixpoint IndexByte (data : list Z) (c : Z) : option nat :=
  match data with
  | [] => None
  | b :: data => if b =? c then Some 0%nat else S <$> IndexByte data c
  end.

Definition NL : Z := 10.
Definition CR : Z := 13.
Definition SP : Z := 32.

Definition is_digit (c : Z) : bool := (48 <=? c) && (c <=? 57).

Definition dropCR (b : list Z) : list Z :=
  match last b with
  | Some c => if c =? CR then take (length b - 1) b else b
  | None => b
  end.

(** The scan for the space that ends a length prefix; [n] bytes are still to be looked
    at. *)
Inductive lenScan := NotLength | SpaceAt (sp : nat) | NoSpace.

Fixpoint scan_len (n : nat) (data : list Z) : lenScan :=
  match n, data with
  | S n, c :: data =>
      if c =? SP then SpaceAt 0
      else if negb (is_digit c) then NotLength
      else match scan_len n data with SpaceAt i => SpaceAt (S i) | x => x end
  | _, _ => NoSpace
  end.

Definition decimal (ds : list Z) : Z := fold_left (fun n c => n * 10 + (c - 48)) ds 0.

(** [scanOctetCounted]: advance, token, bytes still to skip, oversized; [None] is
    [ok = false]. *)
Definition scanOctetCounted (data : list Z) (atEOF : bool) : option (Z * option (list Z) * Z * bool) :=
  match scan_len (S maxLenDigits) data with
  | NotLength => None
  | NoSpace =>
      if Z.of_nat maxLenDigits <? zlen data then None
      else if atEOF then None
      else Some (0, None, 0, false)
  | SpaceAt sp =>
      let n := decimal (take sp data) in
      let pre := Z.of_nat sp + 1 in
      if maxMessageBytes <? n then
        if pre + n <=? zlen data then Some (pre + n, None, 0, true)
        else Some (zlen data, None, pre + n - zlen data, true)
      else if zlen data <? pre + n then
        if atEOF then Some (zlen data, Some (drop (S sp) data), 0, false)
        else Some (0, None, 0, false)
      else Some (pre + n, Some (take (Z.to_nat n) (drop (S sp) data)), 0, false)
  end.

(** [scanNewline]: advance, token, oversized, partial. *)
Definition scanNewline (data : list Z) (atEOF : bool) : Z * option (list Z) * bool * bool :=
  match IndexByte data NL with
  | Some i =>
      let body := dropCR (take i data) in
      if maxMessageBytes <? zlen body then (Z.of_nat i + 1, None, true, false)
      else (Z.of_nat i + 1, Some body, false, false)
  | None =>
      if maxMessageBytes <? zlen data then (zlen data, None, true, true)
      else if atEOF then (zlen data, Some (dropCR data), false, false)
      else (0, None, false, true)
  end.

Record scanned := mkScanned {
  advance : Z; token : option (list Z); more : Z; oversized : bool; byCount : bool; partial : bool }.

Definition scanFrame (data : list Z) (atEOF : bool) : scanned :=
  match data with
  | [] => mkScanned 0 None 0 false false false
  | c :: _ =>
      match (if is_digit c then scanOctetCounted data atEOF else None) with
      | Some (a, tok, sk, over) => mkScanned a tok sk over true false
      | None => let '(a, tok, over, part) := scanNewline data atEOF in mkScanned a tok 0 over false part
      end
  end.

(** ** The splitter of a connection *)

Record frameSplitter := mkSplitter {
  skip : Z; lineSkip : bool; accum : bool; pending : list Z; octet : bool; rejected : Z }.
#[export] Instance eta_frameSplitter : Eta frameSplitter := fun f =>
  mkSplitter (skip f) (lineSkip f) (accum f) (pending f) (octet f) (rejected f).

Definition newFrameSplitter : frameSplitter := mkSplitter 0 false false [] false 0.

(** [onOversized]: the listener counts. *)
Definition onOversized (f : frameSplitter) : frameSplitter := f <| rejected ::= fun n => n + 1 |>.

(** The four cases of the loop of [split]; [next] is the next round. *)
Section rounds.
Context (next : frameSplitter -> Z -> list Z -> option (Z * option (list Z) * frameSplitter)) (atEOF : bool).

Definition skip_round (f : frameSplitter) (off : Z) (data : list Z) : option (Z * option (list Z) * frameSplitter) :=
  match data with
  | [] => Some (off, None, f)
  | _ =>
      let n := Z.min (skip f) (zlen data) in
      let f := f <| skip ::= fun k => k - n |> in
      if 0 <? skip f then Some (off + n, None, f)
      else next f (off + n) (drop (Z.to_nat n) data)
  end.

Definition line_skip_round (f : frameSplitter) (off : Z) (data : list Z) : option (Z * option (list Z) * frameSplitter) :=
  match IndexByte data NL with
  | Some i => next (f <| lineSkip := false |>) (off + Z.of_nat i + 1) (drop (S i) data)
  | None => Some (off + zlen data, None, if atEOF then f <| lineSkip := false |> else f)
  end.

Definition accum_round (f : frameSplitter) (off : Z) (data : list Z) : option (Z * option (list Z) * frameSplitter) :=
  match IndexByte data NL with
  | Some i =>
      let body := dropCR (pending f ++ take i data) in
      let f := f <| accum := false |> <| pending := [] |> in
      if maxMessageBytes <? zlen body then next (onOversized f) (off + Z.of_nat i + 1) (drop (S i) data)
      else Some (off + Z.of_nat i + 1, Some body, f <| octet := false |>)
  | None =>
      if maxMessageBytes <? zlen (pending f) + zlen data
      then next (onOversized (f <| accum := false |> <| pending := [] |>) <| lineSkip := true |>) off data
      else
        let f := f <| pending ::= fun p => p ++ data |> in
        let off := off + zlen data in
        if atEOF then
          let body := dropCR (pending f) in
          let f := f <| accum := false |> <| pending := [] |> in
          match body with
          | [] => Some (off, None, f)
          | _ => Some (off, Some body, f <| octet := false |>)
          end
        else Some (off, None, f)
  end.

Definition scan_round (f : frameSplitter) (off : Z) (data : list Z) : option (Z * option (list Z) * frameSplitter) :=
  let s := scanFrame data atEOF in
  if oversized s then
    let f := onOversized f in
    let f := if byCount s then f <| skip := more s |>
             else if partial s then f <| lineSkip := true |> else f in
    next f (off + advance s) (drop (Z.to_nat (advance s)) data)
  else if partial s then next (f <| accum := true |>) off data
  else
    let f := match token s with Some _ => f <| octet := byCount s |> | None => f end in
    Some (off + advance s, token s, f).

End rounds.

(** The loop of [split]; [None] is out of fuel. *)
Fixpoint split_loop (fuel : nat) (f : frameSplitter) (off : Z) (data : list Z) (atEOF : bool)
  : option (Z * option (list Z) * frameSplitter) :=
  match fuel with
  | O => None
  | S fuel =>
      let next f off data := split_loop fuel f off data atEOF in
      if 0 <? skip f then skip_round next f off data
      else if lineSkip f then line_skip_round next atEOF f off data
      else if accum f then accum_round next atEOF f off data
      else scan_round next atEOF f off data
  end.

(** A round consumes a byte, or takes custody of a line, or gives it up. *)
Definition split_fuel (data : list Z) : nat := 3 * length data + 3.

Definition split (f : frameSplitter) (data : list Z) (atEOF : bool) : option (Z * option (list Z) * frameSplitter) :=
  split_loop (split_fuel data) f 0 data atEOF.

(** ** [bufio.Scanner]

    What [Scan] does with a split function, as far as it reads its input: [data] is the
    part of the buffer that is not consumed.  The reads of the connection are given;
    how many bytes each returned does not matter to the theorems. *)

Inductive scanError := ErrTooLong | ErrAdvanceTooFar | ErrOutOfFuel.

(** The calls of [Scan] that need no further read. *)
Fixpoint scan_buffered (fuel : nat) (f : frameSplitter) (data : list Z) (atEOF : bool) (out : list (list Z * bool))
  : scanError + (frameSplitter * list Z * list (list Z * bool)) :=
  match fuel with
  | O => inl ErrOutOfFuel
  | S fuel =>
      match split f data atEOF with
      | None => inl ErrOutOfFuel
      | Some (adv, tok, f) =>
          if zlen data <? adv then inl ErrAdvanceTooFar
          else
            let data := drop (Z.to_nat adv) data in
            match tok with
            | Some t => match data with
                        | [] => if atEOF then scan_buffered fuel f data atEOF (out ++ [(t, octet f)])
                                else inr (f, data, out ++ [(t, octet f)])
                        | _ => scan_buffered fuel f data atEOF (out ++ [(t, octet f)])
                        end
            | None => inr (f, data, out)
            end
      end
  end.

Definition scan_fuel (data : list Z) : nat := length data + 2.

Definition maxTokenSize : Z := maxMessageBytes + scannerHeadroom.

(** One read after another, then the end of the connection. *)
Fixpoint scan_reads (f : frameSplitter) (data : list Z) (reads : list (list Z)) (out : list (list Z * bool))
  : scanError + (frameSplitter * list (list Z * bool)) :=
  match reads with
  | [] =>
      match scan_buffered (scan_fuel data) f data true out with
      | inl e => inl e
      | inr (f, _, out) => inr (f, out)
      end
  | r :: reads =>
      if maxTokenSize <=? zlen data then inl ErrTooLong
      else match r with
           | [] => scan_reads f data reads out
           | _ => match scan_buffered (scan_fuel (data ++ r)) f (data ++ r) false out with
                  | inl e => inl e
                  | inr (f, data, out) => scan_reads f data reads out
                  end
           end
  end.

(** The lines [serveConn] hands on: empty ones are skipped. *)
Definition serve_lines (reads : list (list Z)) : scanError + (list (list Z * bool) * Z) :=
  match scan_reads newFrameSplitter [] reads [] with
  | inl e => inl e
  | inr (f, out) => inr (filter (fun p => fst p <> []) out, rejected f)
  end.

(** ** The assembler *)

Definition continuationWait : Duration := 250 * Millisecond.

(** [sent_] are the messages given to [emit], [truncated] the calls of [onTruncate]. *)
Record assembler := mkAssembler {
  buf : list Z; lastAt : Time; full : bool; sent_ : list (list Z); truncated : Z }.
#[export] Instance eta_assembler : Eta assembler := fun a =>
  mkAssembler (buf a) (lastAt a) (full a) (sent_ a) (truncated a).

Definition newAssembler : assembler := mkAssembler [] zero_time false [] 0.

Definition isContinuation (line : list Z) : bool := match line with [] => true | c :: _ => negb (c =? 60) end.

Definition flushLocked (a : assembler) : assembler :=
  match buf a with
  | [] => a
  | _ => a <| sent_ ::= fun l => l ++ [buf a] |> <| buf := [] |> <| full := false |>
  end.

Definition appendLocked (line : list Z) (now : Time) (a : assembler) : assembler :=
  if maxMessageBytes <? zlen (buf a) + 1 + zlen line
  then if full a then a else a <| full := true |> <| truncated ::= fun n => n + 1 |>
  else a <| buf ::= fun b => b ++ NL :: line |> <| lastAt := now |>.

Definition asm_add (line : list Z) (counted : bool) (now : Time) (a : assembler) : assembler :=
  if counted then flushLocked a <| sent_ ::= fun l => l ++ [line] |>
  else if (0 <? zlen (buf a)) && isContinuation line then appendLocked line now a
  else flushLocked a <| buf := line |> <| lastAt := now |>.

Definition flushIdle (d : Duration) (now : Time) (a : assembler) : assembler :=
  if (0 <? zlen (buf a)) && (d <=? time_Sub now (lastAt a)) then flushLocked a else a.

Definition asm_close (a : assembler) : assembler := flushLocked a.

(** What reaches the assembler of a connection: its lines, and the ticks of the timer
    that [serveConn] starts beside it. *)
Inductive asm_event := AddLine (line : list Z) (counted : bool) (now : Time) | Idle (now : Time).

Definition asm_step (a : assembler) (e : asm_event) : assembler :=
  match e with
  | AddLine line counted now => asm_add line counted now a
  | Idle now => flushIdle continuationWait now a
  end.

Definition asm_run (evs : list asm_event) : assembler := fold_left asm_step evs newAssembler.

(** ** The frames of a whole stream

    What the bytes of a connection mean, read at leisure. *)

Inductive frame := Counted (body : list Z) | Line (raw : list Z) | Over.

Definition line_frame (raw : list Z) : frame := if maxMessageBytes <? zlen (dropCR raw) then Over else Line raw.

Definition next_line (s : list Z) : frame * list Z :=
  match IndexByte s NL with
  | Some i => (line_frame (take i s), drop (S i) s)
  | None => (if maxMessageBytes <? zlen s then Over else Line s, [])
  end.

Definition next_frame (s : list Z) : frame * list Z :=
  match (if match s with c :: _ => is_digit c | [] => false end then scan_len (S maxLenDigits) s else NotLength) with
  | SpaceAt sp =>
      let n := decimal (take sp s) in
      let body := drop (S sp) s in
      (if maxMessageBytes <? n then Over else Counted (take (Z.to_nat n) body), drop (Z.to_nat n) body)
  | _ => next_line s
  end.

Fixpoint frames_fuel (n : nat) (s : list Z) : list frame :=
  match n, s with
  | S n, _ :: _ => let '(fr, s) := next_frame s in fr :: frames_fuel n s
  | _, _ => []
  end.

Definition frames (s : list Z) : list frame := frames_fuel (length s) s.

(** The line a frame is delivered as, and whether it was counted. *)
Definition deliver (fr : frame) : option (list Z * bool) :=
  match fr with
  | Counted body => Some (body, true)
  | Line raw => Some (dropCR raw, false)
  | Over => None
  end.

Definition is_over (fr : frame) : Z := match fr with Over => 1 | _ => 0 end.

(** A line fits with its carriage return. *)
Definition fits (fr : frame) : Prop := match fr with Line raw => zlen raw <= maxMessageBytes | _ => True end.

(** ** Lemmas on bytes *)

Lemma IndexByte_Some data c i :
  IndexByte data c = Some i ->
  exists l r, data = l ++ c :: r /\ c ∉ l /\ take i data = l /\ drop (S i) data = r /\ (i < length data)%nat.
Proof.
  revert i. induction data as [|b data IH]; intros i; cbn [IndexByte]; [done|]. destruct (b =? c) eqn:E.
  - intros [= <-]. bool_prop. subst. exists [], data. cbn. repeat split; [set_solver|lia].
  - destruct (IndexByte data c) as [j|]; [|done]. intros [= <-]. destruct (IH j eq_refl) as (l & r & -> & Hl & H1 & H2 & H3).
    bool_prop. exists (b :: l), r. cbn. rewrite H1. split; [done|]. split; [set_solver|]. split; [done|]. split; [exact H2|lia].
Qed.

Lemma IndexByte_None data c : IndexByte data c = None <-> c ∉ data.
Proof.
  induction data as [|b data IH]; cbn [IndexByte]; [by split; [set_solver|]|]. destruct (b =? c) eqn:E; bool_prop.
  - subst. split; [done|set_solver].
  - rewrite fmap_None, IH. set_solver.
Qed.

Lemma IndexByte_cut l c r : c ∉ l -> IndexByte (l ++ c :: r) c = Some (length l).
Proof.
  induction l as [|b l IH]; cbn; intros Hl; [by rewrite Z.eqb_refl|].
  replace (b =? c) with false by (symmetry; apply Z.eqb_neq; set_solver). rewrite IH by set_solver. done.
Qed.

Lemma IndexByte_app_l data fut c i : IndexByte data c = Some i -> IndexByte (data ++ fut) c = Some i.
Proof.
  intros H. destruct (IndexByte_Some _ _ _ H) as (l & r & -> & Hl & Ht & _ & _). rewrite IndexByte_cut in H by done.
  rewrite <- app_assoc. cbn [app]. by rewrite IndexByte_cut.
Qed.

Lemma IndexByte_app_r data fut c : c ∉ data -> IndexByte (data ++ fut) c = (fun i => length data + i)%nat <$> IndexByte fut c.
Proof.
  induction data as [|b data IH]; cbn; intros Hl; [by destruct (IndexByte fut c)|].
  replace (b =? c) with false by (symmetry; apply Z.eqb_neq; set_solver). rewrite IH by set_solver.
  by destruct (IndexByte fut c).
Qed.

Lemma zlen_app {A} (a b : list A) : zlen (a ++ b) = zlen a + zlen b.
Proof. unfold zlen. rewrite length_app. lia. Qed.

Lemma zlen_nonneg {A} (a : list A) : 0 <= zlen a.
Proof. unfold zlen. lia. Qed.

Lemma dropCR_cases l : dropCR l = l \/ l = dropCR l ++ [CR].
Proof.
  unfold dropCR. destruct (last l) as [c|] eqn:E; [|by left]. destruct (c =? CR) eqn:Ec; [|by left]. right. bool_prop. subst.
  apply last_Some in E as [l' ->]. rewrite length_app. cbn [length].
  by rewrite Nat.add_sub, take_app_length.
Qed.

Lemma dropCR_len l : zlen (dropCR l) <= zlen l <= zlen (dropCR l) + 1.
Proof.
  destruct (dropCR_cases l) as [E|E]; [rewrite E; lia|]. rewrite E at 2 3. rewrite zlen_app. change (zlen [CR]) with 1. lia.
Qed.

Lemma drop_add_app {A} (n : nat) (l k : list A) : (n <= length l)%nat -> drop n (l ++ k) = drop n l ++ k.
Proof. intros Hn. rewrite drop_app. replace (n - length l)%nat with 0%nat by lia. done. Qed.

(** ** Lemmas on frames *)

Lemma scan_len_digits n data sp : scan_len n data = SpaceAt sp -> (sp < n)%nat /\ (sp < length data)%nat.
Proof.
  revert data sp. induction n as [|n IH]; intros [|c data] sp; cbn [scan_len]; try done.
  destruct (c =? SP); [intros [= <-]; cbn; lia|]. destruct (negb (is_digit c)); [done|].
  destruct (scan_len n data) as [|i|] eqn:E; try done. intros [= <-]. destruct (IH _ _ E). cbn. lia.
Qed.

(** More bytes do not change a verdict, unless it was that more are needed. *)
Lemma scan_len_app n data fut :
  scan_len n data <> NoSpace \/ (n <= length data)%nat -> scan_len n (data ++ fut) = scan_len n data.
Proof.
  revert data. induction n as [|n IH]; intros data Hd; [by destruct data, fut|].
  destruct data as [|c data]; cbn [scan_len app]; [destruct Hd as [Hd|Hd]; [done|cbn in Hd; lia]|].
  destruct (c =? SP) eqn:E1; [done|]. destruct (negb (is_digit c)) eqn:E2; [done|].
  cbn [scan_len] in Hd. rewrite E1, E2 in Hd. rewrite IH; [done|]. cbn [length] in Hd.
  destruct (scan_len n data); destruct Hd as [Hd|Hd]; try (left; done); right; lia.
Qed.

Lemma decimal_from ds a : 0 <= a -> Forall (fun c => is_digit c = true) ds -> 0 <= fold_left (fun n c => n * 10 + (c - 48)) ds a.
Proof.
  revert a. induction ds as [|c ds IH]; intros a Ha Hf; [done|]. cbn [fold_left]. apply Forall_cons in Hf as [Hc Hf].
  apply IH; [|done]. unfold is_digit in Hc. bool_prop. lia.
Qed.

Lemma scan_len_take n data sp : scan_len n data = SpaceAt sp -> Forall (fun c => is_digit c = true) (take sp data).
Proof.
  revert data sp. induction n as [|n IH]; intros [|c data] sp; cbn [scan_len]; try done.
  destruct (c =? SP); [intros [= <-]; constructor|]. destruct (is_digit c) eqn:Ed; cbn [negb]; [|done].
  destruct (scan_len n data) as [|i|] eqn:E; try done. intros [= <-]. cbn [take]. constructor; [done|]. by apply IH.
Qed.

Lemma next_frame_shorter s : s <> [] -> (length (next_frame s).2 < length s)%nat.
Proof.
  intros Hs. assert (length (next_line s).2 < length s)%nat as Hl.
  { unfold next_line. destruct (IndexByte s NL) as [i|] eqn:E; cbn [snd]; [|destruct s; cbn; [done|lia]].
    destruct (IndexByte_Some _ _ _ E) as (? & ? & _ & _ & _ & _ & ?). rewrite length_drop. lia. }
  unfold next_frame. destruct s as [|c s]; [done|]. destruct (is_digit c); [|done].
  destruct (scan_len _ _) as [|sp|]; [done| |done]. cbn [snd]. rewrite !length_drop. cbn [length]. lia.
Qed.

Lemma frames_fuel_enough n m s : (length s <= n)%nat -> (length s <= m)%nat -> frames_fuel n s = frames_fuel m s.
Proof.
  revert m s. induction n as [|n IH]; intros m s Hn Hm; [by destruct s, m; cbn in *; try lia|].
  destruct m as [|m]; [by destruct s; cbn in *; try lia|]. destruct s as [|c s]; [done|]. cbn [frames_fuel].
  pose proof (next_frame_shorter (c :: s) ltac:(done)) as H. destruct (next_frame (c :: s)) as [fr r]. cbn [snd] in H.
  f_equal. cbn in *. apply IH; lia.
Qed.

Lemma frames_step s : s <> [] -> frames s = (next_frame s).1 :: frames (next_frame s).2.
Proof.
  intros Hs. pose proof (next_frame_shorter s Hs) as H. unfold frames. destruct s as [|c s]; [done|].
  cbn [length frames_fuel]. destruct (next_frame (c :: s)) as [fr r]. cbn [fst snd] in *. f_equal. cbn in H. apply frames_fuel_enough; lia.
Qed.

(** The line of a complete stream, from the part that has arrived. *)
Lemma next_line_found p data fut i :
  NL ∉ p -> IndexByte data NL = Some i ->
  next_line (p ++ data ++ fut) = (line_frame (p ++ take i data), drop (S i) data ++ fut).
Proof.
  intros Hp Hi. destruct (IndexByte_Some _ _ _ Hi) as (l & r & -> & Hl & -> & -> & Hlen). unfold next_line.
  rewrite <- app_assoc. cbn [app]. rewrite app_assoc. rewrite IndexByte_cut by set_solver.
  rewrite take_app_length. f_equal. rewrite cons_middle, app_assoc. apply drop_app_length'. rewrite !length_app. cbn. lia.
Qed.

(** A line that is too long already is too long in the end, or does not fit. *)
Lemma next_line_over s :
  maxMessageBytes < zlen (match IndexByte s NL with Some i => take i s | None => s end) -> fits (next_line s).1 ->
  (next_line s).1 = Over.
Proof.
  unfold next_line. destruct (IndexByte s NL) as [i|]; cbn [fst]; intros Hl Hf.
  - unfold line_frame in *. destruct (maxMessageBytes <? zlen (dropCR (take i s))); [done|]. cbn in Hf. lia.
  - by replace (maxMessageBytes <? zlen s) with true by (symmetry; zbool).
Qed.

(** ** One scan of a buffer *)

(** The octet path, on the part of the stream [data ++ fut] that has arrived. *)
Lemma octet_none c data fut atEOF :
  (is_digit c = false \/ scanOctetCounted (c :: data) atEOF = None) -> (atEOF = true -> fut = []) ->
  next_frame ((c :: data) ++ fut) = next_line ((c :: data) ++ fut).
Proof.
  intros Ho Hf. unfold next_frame. cbn [app]. destruct (is_digit c); [|done]. destruct Ho as [|Ho]; [done|].
  unfold scanOctetCounted in Ho. change (c :: data ++ fut) with ((c :: data) ++ fut).
  destruct (scan_len (S maxLenDigits) (c :: data)) as [|sp|] eqn:E.
  - by rewrite scan_len_app, E by (left; by rewrite E).
  - cbv zeta in Ho. by repeat case_match.
  - destruct (Z.of_nat maxLenDigits <? zlen (c :: data)) eqn:El.
    + rewrite scan_len_app, E; [done|]. right. bool_prop. unfold zlen in El. lia.
    + destruct atEOF; [|done]. rewrite Hf, app_nil_r, E by done. done.
Qed.

Lemma octet_some c data fut atEOF a tok sk over :
  is_digit c = true -> scanOctetCounted (c :: data) atEOF = Some (a, tok, sk, over) -> (atEOF = true -> fut = []) ->
  let s := (c :: data) ++ fut in
  0 <= a <= zlen (c :: data) /\ 0 <= sk /\
  match tok, over with
  | _, true => tok = None /\ 1 <= a /\ (sk = 0 \/ a = zlen (c :: data))
               /\ next_frame s = (Over, drop (Z.to_nat sk) (drop (Z.to_nat a) s))
  | Some t, false => 1 <= a /\ zlen t <= maxMessageBytes /\ next_frame s = (Counted t, drop (Z.to_nat a) s)
  | None, false => a = 0 /\ atEOF = false /\ zlen (c :: data) <= maxMessageBytes + 10
  end.
Proof.
  intros Hd Ho Hf. cbv zeta. unfold scanOctetCounted in Ho. set (d := c :: data) in *.
  destruct (scan_len (S maxLenDigits) d) as [|sp|] eqn:E; [done| |].
  2:{ destruct (_ <? zlen d) eqn:El; [done|]. destruct atEOF; [done|]. injection Ho as <- <- <- <-. bool_prop.
      pose proof (zlen_nonneg d). unfold maxMessageBytes. change (Z.of_nat maxLenDigits) with 10 in El. split; [lia|]. split; [lia|]. repeat split. lia. }
  destruct (scan_len_digits _ _ _ E) as [Hsp Hsp']. unfold maxLenDigits in Hsp.
  pose proof (decimal_from (take sp d) 0 ltac:(lia) (scan_len_take _ _ _ E)) as Hn. fold (decimal (take sp d)) in Hn.
  set (n := decimal (take sp d)) in *.
  assert (next_frame (d ++ fut)
          = (if maxMessageBytes <? n then Over else Counted (take (Z.to_nat n) (drop (S sp) (d ++ fut))),
             drop (Z.to_nat n) (drop (S sp) (d ++ fut)))) as Hnext.
  { unfold next_frame. replace (match d ++ fut with c' :: _ => is_digit c' | [] => false end) with true by (symmetry; exact Hd).
    rewrite scan_len_app, E by (left; by rewrite E). rewrite take_app_le by lia. done. }
  assert (Z.of_nat sp + 1 <= zlen d) as Hz by (unfold zlen; lia).
  assert (zlen (drop (S sp) d) = zlen d - Z.of_nat sp - 1) as Hbody by (unfold zlen; rewrite length_drop; lia).
  assert (forall k, 0 <= k -> drop (Z.to_nat k) (drop (S sp) (d ++ fut)) = drop (Z.to_nat (Z.of_nat sp + 1 + k)) (d ++ fut)) as Hdrop.
  { intros k Hk. rewrite drop_drop. f_equal. lia. }
  destruct (maxMessageBytes <? n) eqn:Eo.
  - destruct (Z.of_nat sp + 1 + n <=? zlen d) eqn:Ea; injection Ho as <- <- <- <-; bool_prop.
    + split; [lia|]. split; [lia|]. split; [done|]. split; [lia|]. split; [by left|]. by rewrite Hnext, Hdrop.
    + split; [lia|]. split; [lia|]. split; [done|]. split; [lia|]. split; [by right|].
      rewrite Hnext, Hdrop, drop_drop by lia. do 2 f_equal. lia.
  - bool_prop. destruct (zlen d <? Z.of_nat sp + 1 + n) eqn:Ea; bool_prop.
    + destruct atEOF; injection Ho as <- <- <- <-; [|split; [lia|]; split; [lia|]; repeat split; lia].
      change (drop sp data) with (drop (S sp) d). split; [lia|]. split; [lia|]. split; [lia|]. split; [rewrite Hbody; lia|]. rewrite Hf, app_nil_r in * by done.
      rewrite Hnext. rewrite take_ge by (unfold zlen in *; rewrite length_drop; lia). f_equal.
      rewrite !drop_ge; [done|unfold zlen; lia|rewrite length_drop; unfold zlen in *; lia].
    + injection Ho as <- <- <- <-. change (drop sp data) with (drop (S sp) d). split; [lia|]. split; [lia|]. split; [lia|].
      split; [unfold zlen; rewrite length_take; lia|]. rewrite Hnext, Hdrop by lia. do 2 f_equal.
      rewrite drop_add_app by lia. apply take_app_le. unfold zlen in *. rewrite length_drop. lia.
Qed.

(** ** What the splitter has still to say *)

Definition after_nl (s : list Z) : list Z := match IndexByte s NL with Some i => drop (S i) s | None => [] end.

(** The frames a splitter in the middle of a connection owes for the bytes [s] to come. *)
Definition rem (f : frameSplitter) (s : list Z) : list frame :=
  if 0 <? skip f then frames (drop (Z.to_nat (skip f)) s)
  else if lineSkip f then frames (after_nl s)
  else if accum f then (next_line (pending f ++ s)).1 :: frames (next_line (pending f ++ s)).2
  else frames s.

Definition vis (l : list frame) : list (list Z * bool) := filter (fun p => fst p <> []) (omap deliver l).
Definition overs (l : list frame) : Z := lsum is_over l.

Record wf (f : frameSplitter) : Prop := {
  wf_skip : 0 <= skip f;
  wf_skip_only : 0 < skip f -> lineSkip f = false /\ accum f = false;
  wf_line_only : lineSkip f = true -> accum f = false;
  wf_empty : accum f = false -> pending f = [];
  wf_nl : NL ∉ pending f;
  wf_len : zlen (pending f) <= maxMessageBytes }.

(** Two states owe the same, the frames already rejected included. *)
Definition owes (f : frameSplitter) (s : list Z) (f' : frameSplitter) (s' : list Z) (out : list (list Z * bool)) : Prop :=
  Forall fits (rem f s) ->
  Forall fits (rem f' s') /\ overs (rem f s) + rejected f = overs (rem f' s') + rejected f'
  /\ vis (rem f s) = filter (fun p => fst p <> []) out ++ vis (rem f' s').

Definition said (tok : option (list Z)) (f : frameSplitter) : list (list Z * bool) :=
  match tok with Some t => [(t, octet f)] | None => [] end.

(** What a call of [split] promises for the bytes [data], when [fut] is still to come. *)
Definition answers (f : frameSplitter) (off : Z) (data fut : list Z) (atEOF : bool)
    (res : option (Z * option (list Z) * frameSplitter)) : Prop :=
  exists adv tok f',
    res = Some (off + adv, tok, f') /\ 0 <= adv <= zlen data /\ wf f' /\ (accum f' = true -> pending f' <> [])
    /\ match tok with
       | Some t => zlen t <= maxMessageBytes /\ accum f' = false /\ (1 <= adv \/ (data = [] /\ accum f = true))
       | None => zlen data - adv <= maxMessageBytes + 10 /\ (atEOF = true -> adv = zlen data /\ accum f' = false)
       end
    /\ owes f (data ++ fut) f' (drop (Z.to_nat adv) (data ++ fut)) (said tok f').

Lemma frames_nil : frames [] = [].
Proof. done. Qed.

Lemma rem_nil f : accum f = false -> rem f [] = [].
Proof. intros E. unfold rem. rewrite E, drop_nil. by destruct (0 <? skip f), (lineSkip f). Qed.

Lemma vis_cons fr l : vis (fr :: l) = filter (fun p => fst p <> []) (omap deliver [fr]) ++ vis l.
Proof. unfold vis. rewrite <- filter_app. cbn. by destruct (deliver fr). Qed.

Lemma owes_refl f s : owes f s f s [].
Proof. intros Hf. done. Qed.

Lemma owes_trans f s f1 s1 f2 s2 out out' :
  owes f s f1 s1 out -> owes f1 s1 f2 s2 out' -> owes f s f2 s2 (out ++ out').
Proof.
  intros H1 H2 Hf. destruct (H1 Hf) as (Hf1 & E1 & V1). destruct (H2 Hf1) as (Hf2 & E2 & V2).
  split; [done|]. split; [lia|]. by rewrite V1, V2, filter_app, app_assoc.
Qed.

(** A round of the loop that goes on. *)
Lemma answers_step f f1 off (n : nat) data fut atEOF res :
  (n <= length data)%nat -> (1 <= n)%nat \/ (n = 0%nat /\ (accum f1 = true -> data <> [])) ->
  owes f (data ++ fut) f1 (drop n data ++ fut) [] ->
  answers f1 (off + Z.of_nat n) (drop n data) fut atEOF res -> answers f off data fut atEOF res.
Proof.
  intros Hn Hp Ho (adv & tok & f' & -> & Ha & Hwf & Hpe & Ht & Hs).
  assert (zlen (drop n data) = zlen data - Z.of_nat n) as Hz by (unfold zlen; rewrite length_drop; lia).
  exists (Z.of_nat n + adv), tok, f'. split; [do 3 f_equal; lia|]. split; [lia|]. split; [done|]. split; [done|]. split.
  - destruct tok as [t|].
    + destruct Ht as (H1 & H2 & H3). split; [done|]. split; [done|]. destruct H3 as [H3|[H3 H4]]; [left; lia|].
      destruct Hp as [Hp|[-> Hp]]; [left; lia|]. by destruct (Hp H4).
    + destruct Ht as [H1 H2]. split; [lia|]. intros E. destruct (H2 E). split; [lia|done].
  - rewrite <- (drop_add_app n data fut) in Hs, Ho by lia. rewrite drop_drop in Hs.
    replace (Z.to_nat (Z.of_nat n + adv)) with (n + Z.to_nat adv)%nat by lia.
    change (said tok f') with ([] ++ said tok f'). by eapply owes_trans.
Qed.

Lemma next_line_rest p s : NL ∉ p -> (next_line (p ++ s)).2 = after_nl s.
Proof.
  intros Hp. unfold next_line, after_nl. rewrite IndexByte_app_r by done. destruct (IndexByte s NL) as [i|]; cbn; [|done].
  rewrite drop_app, drop_ge by lia. cbn [app]. f_equal. lia.
Qed.

Lemma after_nl_app data fut : NL ∉ data -> after_nl (data ++ fut) = after_nl fut.
Proof.
  intros Hd. unfold after_nl. rewrite IndexByte_app_r by done. destruct (IndexByte fut NL) as [i|]; cbn; [|done].
  rewrite drop_app, drop_ge by lia. cbn [app]. f_equal. lia.
Qed.

Lemma drop_data {A} (data fut : list A) : drop (Z.to_nat (zlen data)) (data ++ fut) = fut.
Proof. unfold zlen. by rewrite Nat2Z.id, drop_app_length. Qed.

(** A line known to be too long. *)
Lemma long_line p data fut :
  NL ∉ p -> NL ∉ data -> maxMessageBytes < zlen p + zlen data -> fits (next_line (p ++ data ++ fut)).1 ->
  (next_line (p ++ data ++ fut)).1 = Over.
Proof.
  intros Hp Hd Hl. apply next_line_over. rewrite app_assoc, IndexByte_app_r by set_solver.
  pose proof (zlen_nonneg fut). destruct (IndexByte fut NL) as [i|]; cbn.
  - rewrite take_app, zlen_app, take_ge, zlen_app by lia. pose proof (zlen_nonneg (take (length (p ++ data) + i - length (p ++ data)) fut)). lia.
  - rewrite !zlen_app. lia.
Qed.

Section branch.
Context (f : frameSplitter) (off : Z) (data fut : list Z) (atEOF : bool).
Hypothesis (Hwf : wf f) (Hfut : atEOF = true -> fut = []).

(** Everything is consumed and nothing is said. *)
Lemma answers_all f' :
  wf f' -> (accum f' = true -> pending f' <> []) -> (atEOF = true -> accum f' = false) ->
  owes f (data ++ fut) f' fut [] -> answers f off data fut atEOF (Some (off + zlen data, None, f')).
Proof.
  intros H1 H2 H3 H4. pose proof (zlen_nonneg data). exists (zlen data), None, f'. rewrite drop_data.
  split; [done|]. split; [lia|]. split; [done|]. split; [done|]. split; [|done]. split; [unfold maxMessageBytes; lia|auto].
Qed.

Lemma skip_rest :
  0 < skip f -> zlen data < skip f ->
  answers f off data fut atEOF (Some (off + zlen data, None, f <| skip ::= fun k => k - zlen data |>)).
Proof.
  intros Hs Hl. destruct (wf_skip_only _ Hwf Hs) as [Hls Hac]. apply answers_all.
  - destruct Hwf. split; cbn; try done; lia.
  - cbn. congruence.
  - done.
  - unfold owes, rem. cbn [update skip lineSkip accum pending rejected].
    replace (0 <? skip f) with true by (symmetry; zbool). replace (0 <? skip f - zlen data) with true by (symmetry; zbool).
    replace (drop (Z.to_nat (skip f)) (data ++ fut)) with (drop (Z.to_nat (skip f - zlen data)) fut); [done|].
    rewrite drop_app, (drop_ge data) by (unfold zlen in *; lia). cbn [app]. f_equal. unfold zlen in *. lia.
Qed.

Lemma skip_done :
  0 < skip f -> skip f <= zlen data ->
  let n := Z.to_nat (skip f) in owes f (data ++ fut) (f <| skip ::= fun k => k - skip f |>) (drop n data ++ fut) [].
Proof.
  intros Hs Hl. cbv zeta. destruct (wf_skip_only _ Hwf Hs) as [Hls Hac]. unfold owes, rem.
  cbn [update skip lineSkip accum pending rejected]. rewrite Hls, Hac.
  replace (0 <? skip f) with true by (symmetry; zbool). rewrite Z.sub_diag. cbn [Z.ltb Z.compare].
  rewrite drop_add_app by (unfold zlen in *; lia). done.
Qed.

Lemma line_skip_done i :
  skip f = 0 -> lineSkip f = true -> IndexByte data NL = Some i ->
  owes f (data ++ fut) (f <| lineSkip := false |>) (drop (S i) data ++ fut) [].
Proof.
  intros Hs Hl Hi. pose proof (wf_line_only _ Hwf Hl) as Hac. unfold owes, rem.
  cbn [update skip lineSkip accum pending rejected]. rewrite Hs, Hl, Hac. cbn [Z.ltb Z.compare].
  unfold after_nl. rewrite (IndexByte_app_l _ _ _ _ Hi). destruct (IndexByte_Some _ _ _ Hi) as (_ & _ & _ & _ & _ & _ & Hlen).
  rewrite drop_add_app by lia. done.
Qed.

Lemma line_skip_rest :
  skip f = 0 -> lineSkip f = true -> NL ∉ data ->
  answers f off data fut atEOF (Some (off + zlen data, None, if atEOF then f <| lineSkip := false |> else f)).
Proof.
  intros Hs Hl Hi. pose proof (wf_line_only _ Hwf Hl) as Hac. apply answers_all.
  - destruct atEOF; [|done]. destruct Hwf. by split.
  - destruct atEOF; cbn; congruence.
  - by destruct atEOF.
  - unfold owes, rem. rewrite Hs, Hl. cbn [Z.ltb Z.compare]. rewrite after_nl_app by done.
    destruct atEOF; cbn [update skip lineSkip accum pending rejected]; rewrite ?Hs, ?Hac, ?Hl; cbn [Z.ltb Z.compare]; [|done].
    by rewrite Hfut.
Qed.

Lemma accum_only : accum f = true -> skip f = 0 /\ lineSkip f = false.
Proof.
  intros Ha. destruct Hwf as [H0 H1 H2 _ _ _]. split; [|by destruct (lineSkip f); [rewrite H2 in Ha|]].
  destruct (decide (0 < skip f)) as [Hs|]; [|lia]. destruct (H1 Hs). congruence.
Qed.

Lemma rem_accum s : accum f = true -> rem f s = (next_line (pending f ++ s)).1 :: frames (next_line (pending f ++ s)).2.
Proof. intros Ha. unfold rem. destruct (accum_only Ha) as [-> ->]. by rewrite Ha. Qed.

(** A line in custody that is given up, and one that is handed over. *)
Lemma rem_gave_up (b : Z -> Z) s :
  accum f = true -> rem (f <| accum := false |> <| pending := [] |> <| rejected ::= b |>) s = frames s.
Proof. intros Ha. unfold rem. cbn [update skip lineSkip accum pending]. by destruct (accum_only Ha) as [-> ->]. Qed.

Lemma wf_gave_up (b : Z -> Z) l o :
  accum f = true -> wf (f <| accum := false |> <| pending := [] |> <| rejected ::= b |> <| lineSkip := l |> <| octet := o |>).
Proof.
  intros Ha. destruct (accum_only Ha) as [E1 E2]. clear Hfut.
  split; cbn; try done; [by rewrite E1|by rewrite E1|apply not_elem_of_nil].
Qed.

Lemma accum_found i :
  accum f = true -> IndexByte data NL = Some i ->
  rem f (data ++ fut) = line_frame (pending f ++ take i data) :: frames (drop (S i) data ++ fut).
Proof. intros Ha Hi. rewrite rem_accum by done. rewrite (next_line_found _ _ _ i) by (done || apply Hwf). done. Qed.

Lemma accum_over i :
  accum f = true -> IndexByte data NL = Some i -> maxMessageBytes < zlen (dropCR (pending f ++ take i data)) ->
  owes f (data ++ fut) (onOversized (f <| accum := false |> <| pending := [] |>)) (drop (S i) data ++ fut) [].
Proof.
  intros Ha Hi Hl. unfold owes. rewrite (accum_found i) by done. unfold line_frame, onOversized.
  replace (maxMessageBytes <? _) with true by (symmetry; zbool). rewrite rem_gave_up by done.
  intros [_ Hf]%Forall_cons. split; [done|]. split; [|done]. unfold overs. rewrite lsum_cons. cbn. lia.
Qed.

Lemma accum_line i :
  accum f = true -> IndexByte data NL = Some i ->
  let body := dropCR (pending f ++ take i data) in
  zlen body <= maxMessageBytes ->
  answers f off data fut atEOF
    (Some (off + Z.of_nat i + 1, Some body, f <| accum := false |> <| pending := [] |> <| octet := false |>)).
Proof.
  intros Ha Hi. cbv zeta. intros Hl. destruct (IndexByte_Some _ _ _ Hi) as (_ & _ & _ & _ & _ & _ & Hlen).
  exists (Z.of_nat i + 1), (Some (dropCR (pending f ++ take i data))),
    (f <| accum := false |> <| pending := [] |> <| octet := false |>).
  split; [do 3 f_equal; lia|]. split; [unfold zlen; lia|]. split; [exact (wf_gave_up (fun n => n) (lineSkip f) false Ha)|].
  split; [done|]. split; [split; [done|]; split; [done|left; lia]|].
  replace (Z.to_nat (Z.of_nat i + 1)) with (S i) by lia. rewrite drop_add_app by lia.
  unfold owes. rewrite (accum_found i) by done. unfold line_frame. replace (maxMessageBytes <? _) with false by (symmetry; zbool).
  change (rem (f <| accum := false |> <| pending := [] |> <| octet := false |>) (drop (S i) data ++ fut))
    with (rem (f <| accum := false |> <| pending := [] |> <| rejected ::= fun n => n |>) (drop (S i) data ++ fut)).
  rewrite rem_gave_up by done.
  intros [_ Hf]%Forall_cons. split; [done|]. split; [|apply vis_cons]. unfold overs. rewrite lsum_cons. cbn. lia.
Qed.

Lemma accum_long :
  accum f = true -> NL ∉ data -> maxMessageBytes < zlen (pending f) + zlen data ->
  owes f (data ++ fut) (onOversized (f <| accum := false |> <| pending := [] |>) <| lineSkip := true |>) (data ++ fut) [].
Proof.
  intros Ha Hi Hl. unfold owes. rewrite rem_accum by done.
  assert (rem (onOversized (f <| accum := false |> <| pending := [] |>) <| lineSkip := true |>) (data ++ fut)
          = frames (next_line (pending f ++ data ++ fut)).2) as ->.
  { unfold rem, onOversized. cbn [update skip lineSkip]. destruct (accum_only Ha) as [-> _].
    rewrite next_line_rest by apply Hwf. done. }
  intros [Hf1 Hf]%Forall_cons. rewrite (long_line _ _ _) by (done || apply Hwf).
  split; [done|]. split; [|done]. unfold overs. rewrite lsum_cons. unfold onOversized. cbn. lia.
Qed.

Lemma accum_more :
  accum f = true -> pending f ++ data <> [] -> NL ∉ data -> zlen (pending f) + zlen data <= maxMessageBytes -> atEOF = false ->
  answers f off data fut atEOF (Some (off + zlen data, None, f <| pending ::= fun p => p ++ data |>)).
Proof.
  intros Ha Hne Hi Hl He. destruct (accum_only Ha) as [E1 E2]. apply answers_all.
  - destruct Hwf. split; cbn; try done; try congruence; [set_solver|by rewrite zlen_app].
  - done.
  - by rewrite He.
  - unfold owes. rewrite rem_accum by done. unfold rem. cbn [update skip lineSkip accum pending rejected].
    rewrite E1, E2, Ha. cbn [Z.ltb Z.compare]. rewrite <- app_assoc. done.
Qed.

Lemma accum_end :
  accum f = true -> NL ∉ data -> zlen (pending f) + zlen data <= maxMessageBytes -> atEOF = true ->
  let body := dropCR (pending f ++ data) in
  let f' := f <| pending ::= fun p => p ++ data |> <| accum := false |> <| pending := [] |> in
  answers f off data fut atEOF
    (match body with [] => Some (off + zlen data, None, f') | _ => Some (off + zlen data, Some body, f' <| octet := false |>) end).
Proof.
  intros Ha Hi Hl He. cbv zeta. pose proof (Hfut He) as Ef.
  assert (rem f (data ++ fut) = [Line (pending f ++ data)]) as Hrem.
  { rewrite rem_accum, Ef, app_nil_r by done. unfold next_line.
    rewrite (proj2 (IndexByte_None _ _)) by (pose proof (wf_nl _ Hwf); set_solver). cbn [fst snd]. rewrite zlen_app.
    by replace (maxMessageBytes <? _) with false by (symmetry; zbool). }
  assert (zlen (dropCR (pending f ++ data)) <= maxMessageBytes) as Hb
    by (pose proof (dropCR_len (pending f ++ data)) as D; rewrite zlen_app in D; lia).
  destruct (dropCR (pending f ++ data)) as [|b body] eqn:Eb.
  - apply answers_all; [exact (wf_gave_up (fun n => n) (lineSkip f) (octet f) Ha)|done|done|].
    unfold owes. rewrite Hrem, Ef, rem_nil by done. intros _. split; [done|]. split; [done|].
    unfold vis. cbn. rewrite Eb. done.
  - exists (zlen data), (Some (b :: body)), (f <| pending ::= fun p => p ++ data |> <| accum := false |> <| pending := [] |> <| octet := false |>).
    pose proof (zlen_nonneg data). rewrite drop_data.
    split; [done|]. split; [lia|]. split; [exact (wf_gave_up (fun n => n) (lineSkip f) false Ha)|]. split; [done|].
    split; [split; [done|]; split; [done|destruct data; [by right|left; unfold zlen; cbn; lia]]|].
    unfold owes. rewrite Hrem, Ef, rem_nil by done. intros _. split; [done|]. split; [done|].
    unfold vis. cbn. rewrite Eb. done.
Qed.

(** ** The idle splitter *)

Definition idle : Prop := skip f = 0 /\ lineSkip f = false /\ accum f = false.

Lemma rem_idle s : idle -> rem f s = frames s.
Proof. intros (E1 & E2 & E3). unfold rem. by rewrite E1, E2, E3. Qed.

Lemma wf_set_skip sk b : idle -> 0 <= sk -> wf (f <| rejected ::= b |> <| skip := sk |>).
Proof. intros (E1 & E2 & E3) Hsk. destruct Hwf. by split. Qed.

(** A frame ends here. *)
Lemma idle_token n t cnt fr :
  idle -> (1 <= n <= length data)%nat -> next_frame (data ++ fut) = (fr, drop n data ++ fut) ->
  deliver fr = Some (t, cnt) -> zlen t <= maxMessageBytes ->
  answers f off data fut atEOF (Some (off + Z.of_nat n, Some t, f <| octet := cnt |>)).
Proof.
  intros Hid Hn Hnext Hd Ht. exists (Z.of_nat n), (Some t), (f <| octet := cnt |>).
  destruct Hid as (E1 & E2 & E3). split; [done|]. split; [unfold zlen; lia|].
  split; [destruct Hwf; by split|]. split; [cbn; congruence|]. split; [split; [done|]; split; [done|left; lia]|].
  rewrite Nat2Z.id, drop_add_app by lia.
  assert (forall s, rem (f <| octet := cnt |>) s = frames s) as Hr
    by (intros s; unfold rem; cbn [update skip lineSkip accum]; by rewrite E1, E2, E3).
  unfold owes. rewrite (rem_idle (data ++ fut)) by by split. rewrite frames_step, Hnext, Hr by (destruct data; [cbn in Hn; lia|done]).
  cbn [fst snd]. intros [_ Hf]%Forall_cons. split; [done|]. split.
  - unfold overs. rewrite lsum_cons. cbn [update rejected]. destruct fr; cbn [is_over]; [lia|lia|done].
  - rewrite vis_cons. cbn [omap list_omap]. by rewrite Hd.
Qed.

(** A frame that is too long starts here. *)
Lemma idle_over n rest sk :
  idle -> 0 <= sk -> (1 <= n <= length data)%nat ->
  next_frame (data ++ fut) = (Over, rest) -> rest = drop (Z.to_nat sk) (drop n data ++ fut) ->
  owes f (data ++ fut) (onOversized f <| skip := sk |>) (drop n data ++ fut) [].
Proof.
  intros Hid Hsk Hn Hnext Hrest. unfold owes. rewrite (rem_idle (data ++ fut)) by done.
  rewrite frames_step, Hnext by (destruct data; [cbn in Hn; lia|done]). cbn [fst snd].
  assert (rem (onOversized f <| skip := sk |>) (drop n data ++ fut) = frames rest) as ->.
  { unfold rem, onOversized. cbn [update skip lineSkip accum]. destruct Hid as (_ & -> & ->). rewrite Hrest.
    destruct (0 <? sk) eqn:E; [done|]. bool_prop. by replace sk with 0 by lia. }
  intros [_ Hf]%Forall_cons. split; [done|]. split; [|done]. unfold overs. rewrite lsum_cons. unfold onOversized. cbn. lia.
Qed.

Lemma idle_long :
  idle -> data <> [] -> NL ∉ data -> maxMessageBytes < zlen data -> next_frame (data ++ fut) = next_line (data ++ fut) ->
  owes f (data ++ fut) (onOversized f <| lineSkip := true |>) fut [].
Proof.
  clear Hwf Hfut. intros Hid Hne Hi Hl Hnext. unfold owes. rewrite (rem_idle (data ++ fut)) by done. rewrite frames_step by (by destruct data).
  rewrite Hnext. assert (rem (onOversized f <| lineSkip := true |>) fut = frames (next_line (data ++ fut)).2) as ->.
  { unfold rem, onOversized. cbn [update skip lineSkip]. destruct Hid as (-> & _). cbn [Z.ltb Z.compare].
    change (data ++ fut) with ([] ++ data ++ fut). rewrite next_line_rest by set_solver. by rewrite after_nl_app. }
  intros [Hf1 Hf]%Forall_cons. change (data ++ fut) with ([] ++ data ++ fut) in Hf1 |- *.
  rewrite (long_line [] data fut) by (done || set_solver). split; [done|]. split; [|done].
  unfold overs. rewrite lsum_cons. unfold onOversized. cbn. lia.
Qed.

Lemma idle_custody :
  idle -> data <> [] -> next_frame (data ++ fut) = next_line (data ++ fut) ->
  owes f (data ++ fut) (f <| accum := true |>) (data ++ fut) [].
Proof.
  intros Hid Hne Hnext. unfold owes. rewrite (rem_idle (data ++ fut)) by done. rewrite frames_step by (by destruct data).
  rewrite Hnext. destruct Hid as (E1 & E2 & E3). unfold rem. cbn [update skip lineSkip accum pending rejected].
  rewrite E1, E2, (wf_empty _ Hwf E3). done.
Qed.

End branch.

(** ** A call of [split] *)

Definition rank (f : frameSplitter) : nat :=
  if 0 <? skip f then 0 else if lineSkip f then 0 else if accum f then 1 else 2.

Lemma rank_le f : (rank f <= 2)%nat.
Proof. unfold rank. repeat case_match; lia. Qed.

Section round.
Context (fuel : nat) (fut : list Z) (atEOF : bool).
Hypothesis (Hfut : atEOF = true -> fut = []).
Let next f off data := split_loop fuel f off data atEOF.
Hypothesis (IH : forall f off data, wf f -> (accum f = true -> pending f ++ data <> []) ->
  (rank f + 3 * length data < fuel)%nat -> answers f off data fut atEOF (next f off data)).
Context (f : frameSplitter) (off : Z) (data : list Z).
Hypothesis (Hwf : wf f) (Hfuel : (rank f + 3 * length data < S fuel)%nat).

Lemma match_nonempty {A B} (l : list A) (a b : B) : l <> [] -> match l with [] => a | _ => b end = b.
Proof. by destruct l. Qed.

(** A round that consumed something. *)
Lemma round_step f' (n : nat) :
  (1 <= n <= length data)%nat -> wf f' -> (accum f' = true -> pending f' <> []) ->
  owes f (data ++ fut) f' (drop n data ++ fut) [] ->
  answers f off data fut atEOF (next f' (off + Z.of_nat n) (drop n data)).
Proof.
  intros Hn Hw Hp Ho. apply (answers_step _ f' _ n); [lia|left; lia|exact Ho|].
  apply IH; [done| |rewrite length_drop; pose proof (rank_le f'); lia]. intros Ha. specialize (Hp Ha). by destruct (pending f').
Qed.

Lemma skip_round_ok : 0 < skip f -> answers f off data fut atEOF (skip_round next f off data).
Proof.
  intros Es. destruct (wf_skip_only _ Hwf Es) as [El Ea]. destruct (decide (data = [])) as [Ed|Hd].
  - replace (skip_round next f off data) with (Some (off + zlen data, @None (list Z), f))
      by (rewrite Ed; cbn [skip_round]; change (zlen (@nil Z)) with 0; do 3 f_equal; lia).
    apply answers_all; [done|congruence|done|]. rewrite Ed. apply owes_refl.
  - unfold skip_round. rewrite (match_nonempty data) by done. cbn [update skip].
    destruct (decide (zlen data < skip f)) as [Hl|Hl].
    + replace (Z.min (skip f) (zlen data)) with (zlen data) by lia.
      replace (0 <? skip f - zlen data) with true by (symmetry; zbool). by apply skip_rest.
    + replace (Z.min (skip f) (zlen data)) with (skip f) by lia. rewrite Z.sub_diag. cbn [Z.ltb Z.compare].
      replace (off + skip f) with (off + Z.of_nat (Z.to_nat (skip f))) by lia. apply round_step; [unfold zlen in *; lia|..].
      * destruct Hwf. split; cbn; try done; lia.
      * cbn. congruence.
      * apply skip_done; [done|done|lia].
Qed.

Lemma line_skip_round_ok :
  skip f = 0 -> lineSkip f = true -> answers f off data fut atEOF (line_skip_round next atEOF f off data).
Proof.
  intros Es El. unfold line_skip_round.
  destruct (IndexByte data NL) as [i|] eqn:Ei; [|apply IndexByte_None in Ei; by apply line_skip_rest].
  destruct (IndexByte_Some _ _ _ Ei) as (_ & _ & _ & _ & _ & _ & Hlen).
  replace (off + Z.of_nat i + 1) with (off + Z.of_nat (S i)) by lia. apply round_step; [lia|..].
  - destruct Hwf as [? H1 ? ? ? ?]. split; cbn; try done. intros Hx. by destruct (H1 Hx).
  - pose proof (wf_line_only _ Hwf El). cbn. congruence.
  - by apply line_skip_done.
Qed.

Lemma accum_round_ok :
  accum f = true -> pending f ++ data <> [] -> answers f off data fut atEOF (accum_round next atEOF f off data).
Proof.
  intros Ea Hne. destruct (accum_only f Hwf Ea) as [Es0 El]. unfold accum_round. destruct (IndexByte data NL) as [i|] eqn:Ei.
  - destruct (IndexByte_Some _ _ _ Ei) as (_ & _ & _ & _ & _ & _ & Hlen).
    destruct (maxMessageBytes <? zlen (dropCR (pending f ++ take i data))) eqn:Eo; bool_prop; [|by apply accum_line].
    replace (off + Z.of_nat i + 1) with (off + Z.of_nat (S i)) by lia. apply round_step; [lia|..].
    + exact (wf_gave_up f Hwf (fun n => n + 1) (lineSkip f) (octet f) Ea).
    + done.
    + by apply accum_over.
  - apply IndexByte_None in Ei. destruct (maxMessageBytes <? zlen (pending f) + zlen data) eqn:Eo; bool_prop.
    + eapply (answers_step _ _ _ 0); [lia| |by apply accum_long|]; [by right|].
      rewrite Z.add_0_r. apply IH; [exact (wf_gave_up f Hwf (fun n => n + 1) true (octet f) Ea)|done|].
      unfold rank, onOversized in *. cbn [update skip lineSkip]. rewrite Es0, El, Ea in Hfuel. rewrite Es0. cbn in *. lia.
    + destruct atEOF; [by apply accum_end|by apply accum_more].
Qed.

(** The idle splitter meets an octet count. *)
Lemma counted_round_ok c data' a tok sk over :
  idle f -> data = c :: data' -> is_digit c = true -> scanOctetCounted data atEOF = Some (a, tok, sk, over) ->
  answers f off data fut atEOF (scan_round next atEOF f off data).
Proof.
  intros Hid Edata Ed Eo. rewrite Edata in Eo. pose proof (octet_some c data' fut atEOF a tok sk over Ed Eo Hfut) as Ho.
  assert (scanFrame data atEOF = mkScanned a tok sk over true false) as E by (rewrite Edata; cbn [scanFrame]; by rewrite Ed, Eo).
  rewrite <- Edata in Ho. clear Edata Eo Ed. unfold scan_round. rewrite E. destruct Ho as (Ha & Hsk & Ho). destruct Hid as (E1 & E2 & E3).
  cbn [oversized byCount partial token advance more]. destruct over.
  - destruct tok as [t|]; [by destruct Ho|]. destruct Ho as (_ & Ha1 & Hcase & Hnext).
    replace (off + a) with (off + Z.of_nat (Z.to_nat a)) by lia. apply round_step; [unfold zlen in *; lia|..].
    + by apply (wf_set_skip f Hwf).
    + cbn. congruence.
    + rewrite drop_add_app in Hnext by (unfold zlen in *; lia). eapply idle_over; [done|done|unfold zlen in *; lia|exact Hnext|done].
  - destruct tok as [t|].
    + destruct Ho as (Ha1 & Ht & Hnext). rewrite drop_add_app in Hnext by (unfold zlen in *; lia).
      replace (off + a) with (off + Z.of_nat (Z.to_nat a)) by lia.
      eapply idle_token; [done|done|unfold zlen in *; lia|exact Hnext|done|done].
    + destruct Ho as (-> & He & Hl). exists 0, None, f. pose proof (zlen_nonneg data).
      split; [done|]. split; [lia|]. split; [done|]. split; [congruence|]. split; [split; [lia|by rewrite He]|apply owes_refl].
Qed.

(** It meets a line. *)
Lemma found_round_ok i :
  idle f -> next_frame (data ++ fut) = next_line (data ++ fut) -> IndexByte data NL = Some i ->
  let over := maxMessageBytes <? zlen (dropCR (take i data)) in
  scanFrame data atEOF = mkScanned (Z.of_nat i + 1) (if over then None else Some (dropCR (take i data))) 0 over false false ->
  answers f off data fut atEOF (scan_round next atEOF f off data).
Proof.
  intros Hid Hnext Ei. cbv zeta. unfold scan_round. intros ->. cbn [oversized byCount partial token advance more].
  destruct (IndexByte_Some _ _ _ Ei) as (_ & _ & _ & _ & _ & _ & Hlen).
  pose proof (next_line_found [] data fut i ltac:(apply not_elem_of_nil) Ei) as Hl. cbn [app] in Hl. rewrite Hl in Hnext.
  unfold line_frame in Hnext. replace (off + (Z.of_nat i + 1)) with (off + Z.of_nat (S i)) by lia.
  destruct (maxMessageBytes <? zlen (dropCR (take i data))) eqn:Eo.
  - replace (Z.to_nat (Z.of_nat i + 1)) with (S i) by lia. apply round_step; [lia|..].
    + destruct Hwf. by split.
    + destruct Hid as (_ & _ & E3). cbn. congruence.
    + pose proof (idle_over f data fut (S i) (drop (S i) data ++ fut) 0 Hid ltac:(lia) ltac:(lia) Hnext eq_refl) as H.
      destruct Hid as (Hs0 & _). unfold owes, rem, onOversized in *. cbn [update skip lineSkip accum pending rejected] in *.
      by rewrite Hs0 in *.
  - bool_prop. eapply idle_token; [done|done|lia|exact Hnext|done|done].
Qed.

(** It meets a part of a line. *)
Lemma open_round_ok :
  idle f -> data <> [] -> next_frame (data ++ fut) = next_line (data ++ fut) -> NL ∉ data ->
  let over := maxMessageBytes <? zlen data in
  scanFrame data atEOF
  = (if over then mkScanned (zlen data) None 0 true false true
     else if atEOF then mkScanned (zlen data) (Some (dropCR data)) 0 false false false
     else mkScanned 0 None 0 false false true) ->
  answers f off data fut atEOF (scan_round next atEOF f off data).
Proof.
  intros Hid Hd Hnext Ei. cbv zeta. unfold scan_round. intros ->. pose proof Hid as (E1 & E2 & E3).
  assert (1 <= length data)%nat as Hd1 by (destruct data; [done|cbn; lia]).
  destruct (maxMessageBytes <? zlen data) eqn:Eo; bool_prop; [|destruct atEOF]; cbn [oversized byCount partial token advance more];
    try change (off + zlen data) with (off + Z.of_nat (length data)).
  - unfold zlen. rewrite Nat2Z.id. apply round_step; [lia|..].
    + destruct Hwf. split; cbn; first [done|lia|congruence].
    + cbn. congruence.
    + rewrite drop_all. by apply idle_long.
  - pose proof (dropCR_len data). eapply (idle_token f off data fut true Hwf (length data) _ false (Line data)); [done|lia| |done|lia].
    rewrite Hnext, drop_all, Hfut, app_nil_r by done. unfold next_line. rewrite (proj2 (IndexByte_None _ _)) by done.
    by replace (maxMessageBytes <? zlen data) with false by (symmetry; zbool).
  - eapply (answers_step _ _ _ 0); [lia| |by apply idle_custody|]; [by right|]. rewrite Z.add_0_r. cbn [drop].
    apply IH; [|intros _; cbn; by destruct (pending f)|].
    + destruct Hwf. split; cbn; first [done|lia|congruence].
    + unfold rank in *. cbn [update skip lineSkip accum]. rewrite E1, E2, E3 in *. cbn in *. lia.
Qed.

Lemma scan_round_ok : idle f -> answers f off data fut atEOF (scan_round next atEOF f off data).
Proof.
  intros Hid. destruct (decide (data = [])) as [Ed|Hd].
  { replace (scan_round next atEOF f off data) with (Some (off + zlen data, @None (list Z), f))
      by (rewrite Ed; unfold scan_round; cbn [scanFrame oversized partial advance token]; done).
    destruct Hid as (_ & _ & E3). apply answers_all; [done|congruence|done|]. rewrite Ed. apply owes_refl. }
  assert (exists c data', data = c :: data') as (c & data' & Edata) by (destruct data; [done|eauto]).
  destruct (if is_digit c then scanOctetCounted data atEOF else None) as [[[[a tok] sk] over]|] eqn:Eo.
  { destruct (is_digit c) eqn:Edig; [|done]. by eapply counted_round_ok. }
  assert (next_frame (data ++ fut) = next_line (data ++ fut)) as Hnext.
  { rewrite Edata in Eo |- *. apply (octet_none c data' fut atEOF); [|done]. destruct (is_digit c); [by right|by left]. }
  assert (scanFrame data atEOF
          = let '(a, tok, over, part) := scanNewline data atEOF in mkScanned a tok 0 over false part) as Hs.
  { rewrite Edata in Eo |- *. cbn [scanFrame]. by rewrite Eo. }
  unfold scanNewline in Hs. destruct (IndexByte data NL) as [i|] eqn:Ei.
  - apply (found_round_ok i); [done|done|done|]. rewrite Hs. by destruct (maxMessageBytes <? _).
  - apply IndexByte_None in Ei. apply open_round_ok; [done|done|done|done|]. rewrite Hs. by destruct (maxMessageBytes <? _), atEOF.
Qed.

End round.

Lemma split_loop_ok fuel f off data fut atEOF :
  wf f -> (accum f = true -> pending f ++ data <> []) -> (atEOF = true -> fut = []) ->
  (rank f + 3 * length data < fuel)%nat ->
  answers f off data fut atEOF (split_loop fuel f off data atEOF).
Proof.
  revert f off data. induction fuel as [|fuel IH]; intros f off data Hwf Hne Hfut Hfuel; [lia|]. cbn [split_loop].
  assert (forall f off data, wf f -> (accum f = true -> pending f ++ data <> []) -> (rank f + 3 * length data < fuel)%nat ->
            answers f off data fut atEOF (split_loop fuel f off data atEOF)) as IH' by auto.
  destruct (0 <? skip f) eqn:Es; bool_prop; [by apply skip_round_ok|].
  assert (skip f = 0) as Es0 by (pose proof (wf_skip _ Hwf); lia).
  destruct (lineSkip f) eqn:El; [by apply line_skip_round_ok|].
  destruct (accum f) eqn:Ea; [by apply accum_round_ok; auto|by apply scan_round_ok].
Qed.

Lemma split_ok f data fut atEOF :
  wf f -> (accum f = true -> pending f <> []) -> (atEOF = true -> fut = []) ->
  answers f 0 data fut atEOF (split f data atEOF).
Proof.
  intros Hwf Hp Hfut. apply split_loop_ok; [done| |done|unfold split_fuel; pose proof (rank_le f); lia].
  intros Ha. specialize (Hp Ha). by destruct (pending f).
Qed.

(** ** A connection *)

Definition small (p : list Z * bool) : Prop := zlen (fst p) <= maxMessageBytes.

Lemma scan_buffered_ok fuel f data fut atEOF out :
  wf f -> (accum f = true -> pending f <> []) -> (atEOF = true -> fut = []) ->
  (length data + (if accum f then 1 else 0) < fuel)%nat ->
  exists f' data' out',
    scan_buffered fuel f data atEOF out = inr (f', data', out ++ out')
    /\ wf f' /\ (accum f' = true -> pending f' <> []) /\ zlen data' <= maxMessageBytes + 10 /\ Forall small out'
    /\ (atEOF = true -> data' = [] /\ accum f' = false) /\ owes f (data ++ fut) f' (data' ++ fut) out'.
Proof.
  revert f data out. induction fuel as [|fuel IH]; intros f data out Hwf Hp Hfut Hfuel; [lia|]. cbn [scan_buffered].
  destruct (split_ok f data fut atEOF Hwf Hp Hfut) as (adv & tok & f' & E & Ha & Hwf' & Hp' & Ht & Ho).
  rewrite E, Z.add_0_l. replace (zlen data <? adv) with false by (symmetry; zbool).
  rewrite drop_add_app in Ho by (unfold zlen in *; lia). set (d := drop (Z.to_nat adv) data) in *.
  assert (zlen d = zlen data - adv) as Hz by (unfold d, zlen in *; rewrite length_drop; lia).
  destruct tok as [t|]; cbn [said] in Ho.
  - destruct Ht as (Hl & Hac & Hprog).
    assert (length d + (if accum f' then 1 else 0) < fuel)%nat as Hfuel'.
    { rewrite Hac. destruct Hprog as [?|[Ed ?]]; [unfold zlen in *; lia|]. unfold d. rewrite Ed, drop_nil. cbn.
      destruct (accum f); [rewrite Ed in Hfuel; cbn in Hfuel; lia|done]. }
    destruct (IH f' d (out ++ [(t, octet f')]) Hwf' Hp' Hfut Hfuel') as (f2 & d2 & out2 & E2 & H1 & H2 & H3 & H4 & H5 & H6).
    assert (exists f2 d2 out2, scan_buffered fuel f' d atEOF (out ++ [(t, octet f')]) = inr (f2, d2, out ++ (t, octet f') :: out2)
            /\ wf f2 /\ (accum f2 = true -> pending f2 <> []) /\ zlen d2 <= maxMessageBytes + 10
            /\ Forall small ((t, octet f') :: out2) /\ (atEOF = true -> d2 = [] /\ accum f2 = false)
            /\ owes f (data ++ fut) f2 (d2 ++ fut) ((t, octet f') :: out2)) as Hgo.
    { exists f2, d2, out2. rewrite E2, <- app_assoc. split; [done|]. split; [done|]. split; [done|]. split; [done|].
      split; [by constructor|]. split; [done|]. exact (owes_trans _ _ _ _ _ _ _ _ Ho H6). }
    destruct d as [|c d'] eqn:Ed; [|destruct Hgo as (f3 & d3 & out3 & ?); by exists f3, d3, ((t, octet f') :: out3)].
    destruct atEOF; [destruct Hgo as (f3 & d3 & out3 & ?); by exists f3, d3, ((t, octet f') :: out3)|].
    exists f', [], [(t, octet f')]. split; [done|]. split; [done|]. split; [done|].
    split; [vm_compute; discriminate|]. split; [by constructor|]. by split.
  - destruct Ht as [Hl He]. exists f', d, []. rewrite app_nil_r. split; [done|]. split; [done|]. split; [done|].
    split; [lia|]. split; [constructor|]. split; [|done]. intros Hx. destruct (He Hx) as [E1 E2]. split; [|done].
    apply nil_length_inv. unfold zlen in *. lia.
Qed.

Lemma scan_reads_ok f data reads out :
  wf f -> (accum f = true -> pending f <> []) -> zlen data <= maxMessageBytes + 10 ->
  exists f' out',
    scan_reads f data reads out = inr (f', out ++ out') /\ Forall small out'
    /\ let l := rem f (data ++ concat reads) in
       Forall fits l -> filter (fun p => fst p <> []) out' = vis l /\ rejected f' = rejected f + overs l.
Proof.
  revert f data out. induction reads as [|r reads IH]; intros f data out Hwf Hp Hl; cbn [scan_reads concat].
  - destruct (scan_buffered_ok (scan_fuel data) f data [] true out Hwf Hp ltac:(done)) as
      (f' & d & out' & E & _ & _ & _ & Hsm & He & Ho); [unfold scan_fuel; destruct (accum f); lia|].
    rewrite E. exists f', out'. split; [done|]. split; [done|]. intros Hf. destruct (He eq_refl) as [-> Hac].
    destruct (Ho Hf) as (_ & Hov & Hv). cbn [app] in Hov, Hv. rewrite rem_nil in Hov, Hv by done.
    split; [rewrite Hv; unfold vis; cbn; by rewrite app_nil_r|]. unfold overs in *. cbn in Hov. lia.
  - unfold maxTokenSize, scannerHeadroom. replace (maxMessageBytes + 32 <=? zlen data) with false by (symmetry; zbool).
    destruct r as [|c r'] eqn:Er; [cbn [app]; by apply IH|]. rewrite <- Er. clear c r' Er.
    destruct (scan_buffered_ok (scan_fuel (data ++ r)) f (data ++ r) (concat reads) false out Hwf Hp ltac:(done)) as
      (f1 & d1 & out1 & E & Hwf1 & Hp1 & Hl1 & Hsm & _ & Ho); [unfold scan_fuel; destruct (accum f); lia|].
    rewrite E. destruct (IH f1 d1 (out ++ out1) Hwf1 Hp1 Hl1) as (f2 & out2 & E2 & Hsm2 & Hr).
    exists f2, (out1 ++ out2). rewrite E2, <- app_assoc. split; [done|]. split; [by apply Forall_app|].
    cbv zeta in *. rewrite app_assoc. intros Hf. destruct (Ho Hf) as (Hf1 & Hov & Hv). destruct (Hr Hf1) as [Hv2 Hov2].
    split; [by rewrite filter_app, Hv2, Hv|lia].
Qed.

Lemma splitter_wf_new : wf newFrameSplitter.
Proof. split; cbn; try done; [apply not_elem_of_nil]. Qed.

Lemma serve_ok reads :
  exists lines n, serve_lines reads = inr (lines, n) /\ Forall small lines
    /\ let l := frames (concat reads) in Forall fits l -> lines = vis l /\ n = overs l.
Proof.
  unfold serve_lines.
  destruct (scan_reads_ok newFrameSplitter [] reads [] splitter_wf_new ltac:(done)) as (f' & out' & E & Hsm & Hr);
    [vm_compute; discriminate|].
  rewrite E. cbn [app]. exists (filter (fun p => fst p <> []) out'), (rejected f'). split; [done|].
  split; [apply Forall_forall; intros x Hx; apply list_elem_of_filter in Hx as [_ Hx]; by rewrite Forall_forall in Hsm; apply Hsm|]. cbv zeta in *. intros Hf. destruct (Hr Hf) as [H1 H2].
  split; [exact H1|]. rewrite H2. done.
Qed.

(** ** Encoding *)

(** The decimal digits of a number below 10^[n]. *)
Fixpoint count_digits (n : nat) (k : Z) : list Z :=
  match n with
  | O => []
  | S n => (if k / 10 =? 0 then [] else count_digits n (k / 10)) ++ [48 + k mod 10]
  end.

(** A message sent with a count of its bytes, or ended by a newline. *)
Definition encode (m : list Z * bool) : list Z :=
  let '(body, counted) := m in
  if counted then count_digits maxLenDigits (zlen body) ++ [SP] ++ body else body ++ [NL].

(** A message a sender may frame that way. *)
Definition sendable (m : list Z * bool) : Prop :=
  let '(body, counted) := m in
  body <> [] /\ zlen body <= maxMessageBytes
  /\ (counted = false -> NL ∉ body /\ dropCR body = body /\ forall c, head body = Some c -> is_digit c = false).

Lemma count_digits_ok n k :
  0 <= k < 10 ^ Z.of_nat n -> (1 <= n)%nat ->
  let ds := count_digits n k in
  decimal ds = k /\ Forall (fun c => is_digit c = true) ds /\ (1 <= length ds <= n)%nat.
Proof.
  cbv zeta. revert k. induction n as [|n IH]; intros k Hk Hn; [lia|]. cbn [count_digits].
  assert (is_digit (48 + k mod 10) = true) as Hd.
  { unfold is_digit. pose proof (Z.mod_pos_bound k 10). apply andb_true_iff. split; zbool. }
  destruct (k / 10 =? 0) eqn:E; bool_prop.
  - cbn [app length]. split; [unfold decimal; cbn [fold_left]; zdiv|]. split; [by constructor|lia].
  - assert (0 < k / 10) as Hk' by zdiv. replace (10 ^ Z.of_nat (S n)) with (10 * 10 ^ Z.of_nat n) in Hk
      by (rewrite Nat2Z.inj_succ, Z.pow_succ_r by lia; done).
    assert (1 <= n)%nat as Hn1 by (destruct n; [cbn in Hk; zdiv|lia]).
    destruct (IH (k / 10) ltac:(split; [lia|apply Z.div_lt_upper_bound; lia]) Hn1) as (H1 & H2 & H3).
    split; [unfold decimal in *; rewrite fold_left_app, H1; cbn [fold_left]; zdiv|].
    split; [apply Forall_app; split; [done|by constructor]|rewrite length_app; cbn; lia].
Qed.

Lemma scan_len_number n ds rest :
  Forall (fun c => is_digit c = true) ds -> (length ds < n)%nat -> scan_len n (ds ++ SP :: rest) = SpaceAt (length ds).
Proof.
  revert n. induction ds as [|c ds IH]; intros [|n] Hd Hn; cbn in Hn; try lia; [done|]. cbn [app scan_len].
  apply Forall_cons in Hd as [Hc Hd]. rewrite Hc. cbn [negb]. rewrite IH by (done || lia).
  replace (c =? SP) with false; [done|]. symmetry. unfold is_digit in Hc. unfold SP. bool_prop. zbool.
Qed.

Definition sent (m : list Z * bool) : frame := if snd m then Counted (fst m) else Line (fst m).

Lemma next_frame_encode m rest :
  sendable m -> next_frame (encode m ++ rest) = (sent m, rest).
Proof.
  destruct m as [body counted]. unfold sent. cbn [fst snd]. intros (Hne & Hl & Hline). destruct counted; cbn [encode].
  - pose proof (zlen_nonneg body). unfold maxMessageBytes in Hl.
    destruct (count_digits_ok maxLenDigits (zlen body) ltac:(change (10 ^ Z.of_nat maxLenDigits) with 10000000000; lia) ltac:(unfold maxLenDigits; lia)) as (H1 & H2 & H3).
    set (ds := count_digits maxLenDigits (zlen body)) in *. unfold next_frame.
    replace ((ds ++ [SP] ++ body) ++ rest) with (ds ++ SP :: body ++ rest) by (rewrite <- !app_assoc; done).
    assert (match ds ++ SP :: body ++ rest with c :: _ => is_digit c | [] => false end = true) as ->.
    { destruct ds as [|c ds']; [cbn in H3; lia|]. by apply Forall_cons in H2 as [? _]. }
    rewrite scan_len_number by (done || lia). rewrite take_app_length, H1.
    replace (drop (S (length ds)) (ds ++ SP :: body ++ rest)) with (body ++ rest)
      by (rewrite cons_middle, app_assoc, drop_app_length' by (rewrite length_app; cbn; lia); done).
    replace (maxMessageBytes <? zlen body) with false by (symmetry; unfold maxMessageBytes; zbool).
    unfold zlen. by rewrite Nat2Z.id, take_app_length, drop_app_length.
  - destruct (Hline eq_refl) as (Hnl & Hcr & Hdig). rewrite <- app_assoc. cbn [app].
    replace (next_frame (body ++ NL :: rest)) with (next_line (body ++ NL :: rest)).
    + unfold next_line. rewrite IndexByte_cut by done. rewrite take_app_length. f_equal.
      * unfold line_frame. by rewrite Hcr, (proj2 (Z.ltb_ge _ _) Hl).
      * by rewrite cons_middle, app_assoc, drop_app_length' by (rewrite length_app; cbn; lia).
    + unfold next_frame. destruct body as [|c body]; [done|]. cbn [app]. by rewrite (Hdig c eq_refl).
Qed.

Lemma frames_encode ms :
  Forall sendable ms -> frames (flat_map encode ms) = map sent ms.
Proof.
  induction 1 as [|m ms Hm Hms IH]; [done|]. cbn [flat_map map]. rewrite frames_step.
  - rewrite next_frame_encode by done. cbn [fst snd]. by rewrite IH.
  - destruct m as [body counted]. destruct Hm as [Hne _]. intros [Hm _]%app_nil. destruct counted; cbn [encode] in Hm.
    + apply app_nil in Hm as [_ Hm]. done.
    + apply app_nil in Hm as [? _]. done.
Qed.

(** ** Theorems *)

(** Whatever a peer sends and however the reads of the connection cut it, the
    scanner never fails (the loop of [split] ends, no token is too long for its buffer,
    no advance is past the data), so no peer can end a connection by its framing; and no
    line handed on exceeds [maxMessageBytes]. *)
Theorem framing_safe reads :
  exists lines n, serve_lines reads = inr (lines, n) /\ Forall small lines.
Proof. destruct (serve_ok reads) as (lines & n & H1 & H2 & _). by exists lines, n. Qed.


(** Messages sent with an octet count or ended by a newline, in any mixture and
    however the network cuts the stream, are handed on exactly as they were sent. *)
Lemma framing_roundtrip ms reads :
  Forall sendable ms -> concat reads = flat_map encode ms -> serve_lines reads = inr (ms, 0).
Proof.
  intros Hm E. destruct (serve_ok reads) as (lines & n & -> & _ & H). cbv zeta in H. rewrite E, frames_encode in H by done.
  destruct H as [-> ->].
  - apply Forall_map, (Forall_impl _ _ _ Hm). intros [body counted] (_ & Hl & _). by destruct counted.
  - do 2 f_equal.
    + clear E. induction Hm as [|m ms Hm Hms IH]; [done|]. cbn [map]. rewrite vis_cons, IH. cbn [omap list_omap].
      destruct m as [body counted]. destruct Hm as (Hne & _ & Hline). unfold sent. cbn [fst snd].
      destruct counted; cbn [deliver]; [|destruct (Hline eq_refl) as (_ & -> & _)]; by rewrite filter_cons_True.
    + clear. unfold overs. induction ms as [|[body []] ms IH]; [done| |]; cbn [map]; rewrite lsum_cons, IH; done.
Qed.

(** ** Messages of several lines *)

(** A message with an octet count, or lines ended by newlines of which the first alone
    starts with a header. *)
Inductive message := Whole (body : list Z) | Lines (first : list Z) (more_ : list (list Z)).

Definition lines_of (m : message) : list (list Z * bool) :=
  match m with
  | Whole body => [(body, true)]
  | Lines first more_ => map (fun l => (l, false)) (first :: more_)
  end.

Definition text_of (m : message) : list Z :=
  match m with
  | Whole body => body
  | Lines first more_ => fold_left (fun acc l => acc ++ NL :: l) more_ first
  end.

Record message_ok (m : message) : Prop := {
  mo_lines : Forall sendable (lines_of m);
  mo_text : zlen (text_of m) <= maxMessageBytes;
  mo_heads : match m with
             | Whole _ => True
             | Lines first more_ => isContinuation first = false /\ Forall (fun l => isContinuation l = true) more_
             end }.

(** The events that bring the lines of messages, in order: a tick may fall anywhere, but
    inside a message not [continuationWait] after its last line. *)
Inductive rest_of : Time -> list (list Z) -> list asm_event -> Prop :=
| rest_nil t : rest_of t [] []
| rest_idle t ls evs now : time_Sub now t < continuationWait -> rest_of t ls evs -> rest_of t ls (Idle now :: evs)
| rest_line t l ls evs now : rest_of now ls evs -> rest_of t (l :: ls) (AddLine l false now :: evs).

Inductive plays : list message -> list asm_event -> Prop :=
| plays_nil : plays [] []
| plays_idle ms evs now : plays ms evs -> plays ms (Idle now :: evs)
| plays_whole body ms evs now : plays ms evs -> plays (Whole body :: ms) (AddLine body true now :: evs)
| plays_lines first more_ ms evs evs' now :
    rest_of now more_ evs -> plays ms evs' -> plays (Lines first more_ :: ms) (AddLine first false now :: evs ++ evs').

Definition lines_in (evs : list asm_event) : list (list Z * bool) :=
  omap (fun e => match e with AddLine l c _ => Some (l, c) | Idle _ => None end) evs.

(** [msgs] are complete, the last of them possibly still in the buffer. *)
Record settled (a : assembler) (msgs : list (list Z)) : Prop := {
  se_sent : sent_ (flushLocked a) = msgs;
  se_full : full a = false;
  se_trunc : truncated a = 0 }.

Lemma flush_settled a msgs : settled a msgs -> settled (flushLocked a) msgs /\ buf (flushLocked a) = [].
Proof.
  intros [H1 H2 H3]. unfold flushLocked in *. destruct (buf a) as [|c b] eqn:E; [split; [split; unfold flushLocked; by rewrite ?E|done]|].
  split; [split; [exact H1|done|exact H3]|done].
Qed.

Lemma idle_settled a msgs d now : settled a msgs -> settled (flushIdle d now a) msgs.
Proof. intros Ha. unfold flushIdle. destruct (_ && _); [by apply flush_settled|done]. Qed.

Lemma whole_settled a msgs body now : settled a msgs -> settled (asm_add body true now a) (msgs ++ [body]).
Proof.
  intros Ha. destruct (flush_settled a msgs Ha) as [[H1 H2 H3] Hb]. cbn [asm_add].
  unfold flushLocked at 1 in H1. rewrite Hb in H1. split; unfold flushLocked; cbn [update buf sent_ full truncated];
    fold (flushLocked a); rewrite ?Hb; cbn [update sent_]; [by rewrite H1|done|done].
Qed.

(** The rest of a message joins its first lines. *)
Lemma rest_settled t ls evs a msgs acc :
  rest_of t ls evs -> Forall (fun l => isContinuation l = true) ls -> acc <> [] ->
  buf a = acc -> lastAt a = t -> sent_ a = msgs -> full a = false -> truncated a = 0 ->
  let text := fold_left (fun acc l => acc ++ NL :: l) ls acc in
  zlen text <= maxMessageBytes -> settled (fold_left asm_step evs a) (msgs ++ [text]).
Proof.
  intros Hr. revert a acc. induction Hr as [t|t ls evs now Hn Hr IH|t l ls evs now Hr IH]; intros a acc Hc Hne Hb Hl Hs Hf Ht.
  - cbn. intros _. split; [|done|done]. unfold flushLocked. rewrite Hb. destruct acc; [done|]. cbn. by rewrite Hs.
  - cbn [fold_left asm_step]. replace (flushIdle continuationWait now a) with a; [by apply IH|].
    unfold flushIdle. rewrite Hl. by replace (continuationWait <=? time_Sub now t) with false by (symmetry; zbool); rewrite andb_false_r.
  - apply Forall_cons in Hc as [Hc Hcs]. cbn [fold_left asm_step]. cbv zeta. intros Hlen.
    assert (zlen (acc ++ NL :: l) <= maxMessageBytes) as Hl1.
    { etransitivity; [|exact Hlen]. generalize (acc ++ NL :: l). clear. induction ls as [|x ls IH]; intros b; cbn [fold_left]; [done|].
      etransitivity; [|apply IH]. rewrite zlen_app. pose proof (zlen_nonneg (NL :: x)). lia. }
    assert (asm_add l false now a = a <| buf ::= fun b => b ++ NL :: l |> <| lastAt := now |>) as ->.
    { unfold asm_add. rewrite Hb, Hc. replace (0 <? zlen acc) with true by (symmetry; apply Z.ltb_lt; destruct acc; [done|unfold zlen; cbn; lia]).
      cbn [andb]. unfold appendLocked. rewrite Hb. rewrite zlen_app in Hl1. change (zlen (NL :: l)) with (zlen ([NL] ++ l)) in Hl1.
      rewrite zlen_app in Hl1. change (zlen [NL]) with 1 in Hl1.
      by replace (maxMessageBytes <? zlen acc + 1 + zlen l) with false by (symmetry; zbool). }
    apply (IH _ (acc ++ NL :: l)); try done; [by destruct acc|cbn; by rewrite Hb].
Qed.

Lemma plays_settled ms evs a msgs :
  plays ms evs -> Forall message_ok ms -> settled a msgs -> settled (fold_left asm_step evs a) (msgs ++ map text_of ms).
Proof.
  intros Hp. revert a msgs. induction Hp as [|ms evs now Hp IH|body ms evs now Hp IH|first more_ ms evs evs' now Hr Hp IH];
    intros a msgs Hok Ha; cbn [fold_left map].
  - by rewrite app_nil_r.
  - by apply IH, idle_settled.
  - apply Forall_cons in Hok as [_ Hok]. rewrite cons_middle, app_assoc. by apply IH, whole_settled.
  - apply Forall_cons in Hok as [[Hl Ht [Hf Hc]] Hok]. rewrite fold_left_app, cons_middle, app_assoc. apply IH; [done|].
    cbn [asm_step text_of] in *. destruct (flush_settled a msgs Ha) as [[H1 H2 H3] Hb].
    unfold asm_add. rewrite Hf, andb_false_r. apply (rest_settled now more_ evs _ msgs first); try done.
    + cbn [lines_of map] in Hl. by apply Forall_cons in Hl as [[? _] _].
    + cbn [update sent_]. unfold flushLocked at 1 in H1. by rewrite Hb in H1.
Qed.

(** What a peer sends is what the parsers get: messages with an octet count, and
    messages of one or more lines of which only the first starts with a header, in any
    mixture, come out of the assembler as they were sent, newlines included, however the
    network cuts the stream and wherever the ticks fall between messages; nothing is
    counted as oversized. *)
Theorem conn_roundtrip ms reads :
  Forall message_ok ms -> concat reads = flat_map encode (flat_map lines_of ms) ->
  serve_lines reads = inr (flat_map lines_of ms, 0)
  /\ forall evs, plays ms evs ->
       lines_in evs = flat_map lines_of ms
       /\ let a := asm_close (asm_run evs) in sent_ a = map text_of ms /\ truncated a = 0.
Proof.
  intros Hok Hr. split.
  - apply framing_roundtrip; [|done]. clear Hr. induction Hok as [|m ms Hm Hms IH]; [constructor|].
    cbn [flat_map]. apply Forall_app. split; [apply Hm|done].
  - intros evs Hp. split.
    + clear Hr Hok. assert (forall t ls evs, rest_of t ls evs -> lines_in evs = map (fun l => (l, false)) ls) as Hrest.
      { induction 1; cbn [lines_in map] in *; [done|done|]. unfold lines_in in *. cbn. by f_equal. }
      induction Hp; unfold lines_in in *; cbn [flat_map lines_of map app]; [done|done|cbn; by f_equal|].
      cbn. f_equal. rewrite omap_app. f_equal; [by eapply Hrest|done].
    + destruct (plays_settled ms evs newAssembler [] Hp Hok) as [H1 H2 H3]; [by split|].
      cbv zeta. unfold asm_close, asm_run. split; [exact H1|]. unfold flushLocked. by destruct (buf _).
Qed.

(** ** Concrete streams *)

(** "<13>a", "  b" as one message of two lines, then "<14>c" with a count. *)
Definition two_messages : list message :=
  [Lines [60; 49; 51; 62; 97] [[32; 32; 98]]; Whole [60; 49; 52; 62; 99]].

(** Their bytes, cut inside the first line, inside the count and at the end. *)
Definition two_reads : list (list Z) :=
  [[60; 49; 51]; [62; 97; 10; 32; 32; 98; 10; 53]; []; [32; 60; 49; 52; 62; 99]].

Lemma conn_roundtrip_witness :
  Forall message_ok two_messages /\ concat two_reads = flat_map encode (flat_map lines_of two_messages)
  /\ serve_lines two_reads = inr (flat_map lines_of two_messages, 0).
Proof.
  assert (Forall message_ok two_messages) as Hok.
  { repeat constructor; try done; try (vm_compute; discriminate); cbn; try (intros c [= <-]; reflexivity);
      rewrite !not_elem_of_cons; repeat split; try discriminate; apply not_elem_of_nil. }
  split; [exact Hok|]. split; [vm_compute; reflexivity|].
  apply (conn_roundtrip two_messages two_reads Hok). vm_compute; reflexivity.
Defined.


(** A line of exactly the maximal length, ended by CR LF: accepted when the two bytes
    arrive together, rejected when a read ends between them. *)
Lemma scanFrame_line data atEOF :
  match data with c :: _ => is_digit c = false | [] => False end ->
  scanFrame data atEOF = let '(a, tok, over, part) := scanNewline data atEOF in mkScanned a tok 0 over false part.
Proof. destruct data as [|c data]; [done|]. intros Hd. cbn [scanFrame]. by rewrite Hd. Qed.

Lemma crlf_cut body :
  zlen body = maxMessageBytes -> NL ∉ body -> (forall c, head body = Some c -> is_digit c = false) ->
  split newFrameSplitter (body ++ [CR; NL]) false = Some (zlen body + 2, Some body, newFrameSplitter)
  /\ split newFrameSplitter (body ++ [CR]) false
     = Some (zlen body + 1, None, onOversized newFrameSplitter <| lineSkip := true |>).
Proof.
  intros Hl Hi Hd. destruct body as [|c body]; [vm_compute in Hl; discriminate|]. specialize (Hd c eq_refl).
  assert (dropCR ((c :: body) ++ [CR]) = c :: body) as Hcr.
  { unfold dropCR. rewrite last_snoc. cbn [Z.eqb]. rewrite length_app. by rewrite Nat.add_sub, take_app_length. }
  set (b := c :: body) in *. assert (NL ∉ b ++ [CR]) as Hi' by (rewrite not_elem_of_app, list_elem_of_singleton; by split).
  unfold split, split_fuel. rewrite !(Nat.add_comm _ 3). cbn [Nat.add split_loop newFrameSplitter skip lineSkip accum Z.ltb Z.compare].
  unfold scan_round. split.
  - replace (scanFrame (b ++ [CR; NL]) false) with (mkScanned (zlen b + 2) (Some b) 0 false false false).
    { cbn [oversized partial token byCount advance]. by rewrite Z.add_0_l. }
    rewrite scanFrame_line by done. unfold scanNewline.
    replace (b ++ [CR; NL]) with ((b ++ [CR]) ++ NL :: []) by by rewrite <- app_assoc.
    rewrite IndexByte_cut, take_app_length, Hcr by done. replace (maxMessageBytes <? zlen b) with false by (symmetry; zbool).
    rewrite length_app. cbn [length]. f_equal. unfold zlen. lia.
  - replace (scanFrame (b ++ [CR]) false) with (mkScanned (zlen b + 1) None 0 true false true).
    { cbn [oversized byCount partial more advance]. rewrite Z.add_0_l.
      replace (Z.to_nat (zlen b + 1)) with (length (b ++ [CR])) by (rewrite length_app; unfold zlen; cbn [length]; lia).
      rewrite drop_all. unfold line_skip_round. cbn. by rewrite Z.add_0_r. }
    rewrite scanFrame_line by done. unfold scanNewline. rewrite (proj2 (IndexByte_None _ _)) by done.
    rewrite zlen_app. change (zlen [CR]) with 1. by replace (maxMessageBytes <? zlen b + 1) with true by (symmetry; zbool).
Qed.

(** A continuation line that starts with a number and a space is read as a count: "<13>a",
    "3 left", "<14>b" comes out as three other lines. *)
Example digits_continue :
  serve_lines [[60; 49; 51; 62; 97; 10] ++ [51; 32; 108; 101; 102; 116; 10] ++ [60; 49; 52; 62; 98; 10]]
  = inr ([([60; 49; 51; 62; 97], false); ([108; 101; 102], true); ([116], false); ([60; 49; 52; 62; 98], false)], 0).
Proof. vm_compute. reflexivity. Qed.

End Framing.
