(* ===== verification/LogQueue.v ===== *)
(** * Log records and the bounded queue ([logship/record.go], [queue.go])

    The buffer between the log sources and the emitter: bounded by a number of records
    and by a number of bytes, dropping the oldest. *)

From stdpp Require Import base decidable list gmap strings.
From Stdlib Require Import ZArith Lia.
From S2P Require Import Prelude.

Module Queue.

Inductive Severity := SeverityInfo | SeverityTrace | SeverityDebug | SeverityWarn | SeverityError | SeverityFatal.

Record LogRecord := mkLog {
  Timestamp : Time; Body : string; Attributes : gmap string string; lSeverity : Severity; lSource : string }.
#[export] Instance eta_LogRecord : Eta LogRecord := fun r =>
  mkLog (Timestamp r) (Body r) (Attributes r) (lSeverity r) (lSource r).

Record Entry := mkEntry { eSource : string; eRecord : LogRecord; Received : Time }.
#[export] Instance eta_Entry : Eta Entry := fun e => mkEntry (eSource e) (eRecord e) (Received e).

(** The keys the pipeline owns. *)
Definition reservedAttributeKeys : list string := ["opnsense.source"; "service.name"; "service.instance.id"].

Definition sanitizeAttributes (attrs : gmap string string) : gmap string string :=
  if existsb (fun k => bool_decide (is_Some (attrs !! k))) reservedAttributeKeys
  then fold_left (fun out k => delete k out) reservedAttributeKeys attrs
  else attrs.

Definition recordEntryOverheadBytes : Z := 128.
Definition recordAttrOverheadBytes : Z := 48.

(** [len(s)]. *)
Definition slen (s : string) : Z := Z.of_nat (String.length s).

Definition recordBytes (r : LogRecord) : Z :=
  recordEntryOverheadBytes + slen (Body r) + slen (lSource r)
  + msum (fun k v => recordAttrOverheadBytes + slen k + slen v) (Attributes r).

(** ** The queue *)

Record queuedEntry := mkQueued { entry : Entry; qsize : Z }.

Record boundedQueue := mkQueue {
  qbuf : list queuedEntry; qcap : Z; maxBytes : Z; qbytes : Z; closed : bool }.
#[export] Instance eta_boundedQueue : Eta boundedQueue := fun q =>
  mkQueue (qbuf q) (qcap q) (maxBytes q) (qbytes q) (closed q).

Definition newBoundedQueueBytes (capacity maxB : Z) : boundedQueue :=
  let capacity := if capacity <? 1 then 1 else capacity in
  let maxB := if maxB <? 0 then 0 else maxB in
  mkQueue [] capacity maxB 0 false.

(** [evictOldestLocked]; the entry goes to [onDrop]. *)
Definition evictOldestLocked (q : boundedQueue) : boundedQueue * list Entry :=
  match qbuf q with
  | [] => (q, [])
  | e :: buf => (q <| qbuf := buf |> <| qbytes ::= fun n => if n - qsize e <? 0 then 0 else n - qsize e |>, [entry e])
  end.

(** [for cond { evictOldestLocked }]; the length of the buffer is enough fuel. *)
Fixpoint evict_loop (fuel : nat) (cond : boundedQueue -> bool) (q : boundedQueue) : boundedQueue * list Entry :=
  match fuel with
  | O => (q, [])
  | S fuel =>
      if cond q then
        let '(q, d) := evictOldestLocked q in
        let '(q, ds) := evict_loop fuel cond q in (q, d ++ ds)
      else (q, [])
  end.

Definition over_count (q : boundedQueue) : bool := qcap q <=? zlen (qbuf q).
Definition over_bytes (q : boundedQueue) : bool :=
  (0 <? maxBytes q) && (maxBytes q <? qbytes q) && (0 <? zlen (qbuf q)).

(** [push], with the entries it reported to [onDrop]. *)
Definition push (e : Entry) (q : boundedQueue) : boundedQueue * list Entry :=
  if closed q then (q, [])
  else
    let size := recordBytes (eRecord e) in
    let '(q, ds) := evict_loop (S (length (qbuf q))) over_count q in
    let q := q <| qbuf ::= fun b => b ++ [mkQueued e size] |> <| qbytes ::= fun n => n + size |> in
    let '(q, ds') := evict_loop (S (length (qbuf q))) over_bytes q in
    (q, ds ++ ds').

(** How many of the first entries fit the byte bound; the first always does. *)
Fixpoint fit (i : nat) (acc maxB : Z) (l : list queuedEntry) : nat :=
  match l with
  | [] => 0
  | e :: l => let next := acc + qsize e in
              if (0 <? Z.of_nat i) && (maxB <? next) then 0%nat else S (fit (S i) next maxB l)
  end.

(** [drainUpTo]; [None] is the wait for an entry, the flag is [ok]. *)
Definition drainUpTo (mx maxB : Z) (q : boundedQueue) : option (list Entry * bool * boundedQueue) :=
  match qbuf q with
  | [] => if closed q then Some ([], false, q) else None
  | buf =>
      let mx := if mx <? 1 then 1 else mx in
      let n := Z.to_nat (Z.min (zlen buf) mx) in
      let n := if 0 <? maxB then fit 0 0 maxB (take n buf) else n in
      let freed := lsum qsize (take n buf) in
      Some (map entry (take n buf), true,
            q <| qbytes ::= fun b => if b - freed <? 0 then 0 else b - freed |> <| qbuf := drop n buf |>)
  end.

Definition close (q : boundedQueue) : boundedQueue := q <| closed := true |>.
Definition length_ (q : boundedQueue) : Z := zlen (qbuf q).
Definition queuedBytes (q : boundedQueue) : Z := qbytes q.

(** ** The account of the queue *)

Record queue_ok (q : boundedQueue) : Prop := {
  qo_cap : 1 <= qcap q;
  qo_max : 0 <= maxBytes q;
  qo_bytes : qbytes q = lsum qsize (qbuf q);
  qo_size : Forall (fun x => qsize x = recordBytes (eRecord (entry x))) (qbuf q);
  qo_count : zlen (qbuf q) <= qcap q;
  qo_within : 0 < maxBytes q -> qbytes q <= maxBytes q }.

(** What the queue may hold. *)
Definition holds (q : boundedQueue) (l : list queuedEntry) : Prop :=
  zlen l <= qcap q /\ (0 < maxBytes q -> lsum qsize l <= maxBytes q).

Lemma recordBytes_pos r : 0 < recordBytes r.
Proof.
  unfold recordBytes, recordEntryOverheadBytes, slen.
  assert (0 <= msum (fun k v => recordAttrOverheadBytes + slen k + slen v) (Attributes r)); [|unfold slen in *; lia].
  apply msum_nonneg. intros k v _. unfold recordAttrOverheadBytes, slen. lia.
Qed.

Definition sized (l : list queuedEntry) : Prop := Forall (fun x => 0 <= qsize x) l.

Lemma lsum_sized l : sized l -> 0 <= lsum qsize l.
Proof. intros H. apply lsum_nonneg. intros x Hx. unfold sized in H. rewrite Forall_forall in H. auto. Qed.

(** Evicting while a condition on the buffer holds. *)
Definition with_buf (q : boundedQueue) (l : list queuedEntry) : boundedQueue :=
  q <| qbuf := l |> <| qbytes := lsum qsize l |>.

Lemma evict_loop_spec fuel cond q :
  qbytes q = lsum qsize (qbuf q) -> sized (qbuf q) -> (length (qbuf q) < fuel)%nat ->
  exists d l, qbuf q = d ++ l /\ evict_loop fuel cond q = (with_buf q l, map entry d)
    /\ (cond (with_buf q l) = false \/ l = [])
    /\ (forall d1 d2, d = d1 ++ d2 -> d2 <> [] -> cond (with_buf q (d2 ++ l)) = true).
Proof.
  revert q. induction fuel as [|fuel IH]; intros q Hb Hs Hf; [lia|]. cbn [evict_loop].
  assert (with_buf q (qbuf q) = q) as Hid by (unfold with_buf; rewrite <- Hb; by destruct q).
  destruct (cond q) eqn:Ec.
  2:{ exists [], (qbuf q). rewrite Hid. split; [done|]. split; [done|]. split; [by left|].
      intros d1 d2 E Hne. symmetry in E. apply app_nil in E as [_ E]. done. }
  unfold evictOldestLocked. destruct (qbuf q) as [|e buf] eqn:Eq.
  - exists [], []. cbn [app map]. rewrite Hid.
    assert (forall fuel, evict_loop fuel cond q = (q, [])) as Hnil.
    { clear -Eq. induction fuel as [|fuel IH]; [done|]. cbn [evict_loop]. destruct (cond q); [|done].
      unfold evictOldestLocked. by rewrite Eq, IH. }
    rewrite Hnil. split; [done|]. split; [done|]. split; [by right|].
    intros d1 d2 E Hne. symmetry in E. apply app_nil in E as [_ E]. done.
  - unfold sized in Hs. apply Forall_cons in Hs as [He Hs]. rewrite lsum_cons in Hb.
    set (q1 := q <| qbuf := buf |> <| qbytes ::= _ |>).
    assert (q1 = with_buf q buf) as Eq1.
    { unfold q1, with_buf. unfold update. cbn. rewrite Hb. replace (qsize e + lsum qsize buf - qsize e) with (lsum qsize buf) by lia.
      pose proof (lsum_sized buf Hs). by replace (lsum qsize buf <? 0) with false by (symmetry; zbool). }
    rewrite Eq1. destruct (IH (with_buf q buf)) as (d & l & E & -> & Hc & Hd); [done|done|cbn in *; lia|].
    change (qbuf (with_buf q buf)) with buf in E. change (with_buf (with_buf q buf) l) with (with_buf q l) in *.
    exists (e :: d), l. split; [by rewrite E|]. split; [done|]. split; [done|].
    intros [|x d1] d2 Ed Hne; cbn in Ed.
    + subst d2. cbn [app]. rewrite <- E. rewrite Hid. exact Ec.
    + injection Ed as _ Ed. exact (Hd d1 d2 Ed Hne).
Qed.

Lemma queue_sized q : queue_ok q -> sized (qbuf q).
Proof.
  intros H. eapply Forall_impl; [apply H|]. intros x ->. pose proof (recordBytes_pos (eRecord (entry x))). lia.
Qed.

(** A push keeps the longest suffix that the bounds allow. *)
Lemma queue_push_spec e q :
  queue_ok q -> closed q = false ->
  let x := mkQueued e (recordBytes (eRecord e)) in
  exists d l, qbuf q ++ [x] = d ++ l /\ push e q = (with_buf q l, map entry d) /\ holds q l
    /\ (forall d1 d2, d = d1 ++ d2 -> d2 <> [] -> ~ holds q (d2 ++ l)).
Proof.
  intros Hq Hc. cbv zeta. unfold push. rewrite Hc. set (x := mkQueued e (recordBytes (eRecord e))).
  pose proof (queue_sized q Hq) as Hs.
  destruct (evict_loop_spec (S (length (qbuf q))) over_count q (qo_bytes _ Hq) Hs ltac:(lia)) as (d0 & l0 & E0 & -> & C0 & D0).
  assert (sized l0) as Hs0 by (rewrite E0 in Hs; by apply Forall_app in Hs as [_ ?]).
  set (q1 := with_buf q l0 <| qbuf ::= _ |> <| qbytes ::= _ |>).
  assert (q1 = with_buf q (l0 ++ [x])) as Eq1.
  { unfold q1, with_buf. unfold update. cbn. f_equal. rewrite lsum_app. cbn. lia. }
  clearbody q1. subst q1. change (qbuf (with_buf q (l0 ++ [x]))) with (l0 ++ [x]).
  pose proof (recordBytes_pos (eRecord e)) as Hx.
  destruct (evict_loop_spec (S (length (l0 ++ [x]))) over_bytes (with_buf q (l0 ++ [x]))) as (d & l & E & -> & C & D);
    [done|apply Forall_app; split; [done|]; constructor; [cbn; lia|constructor]|cbn; lia|].
  change (qbuf (with_buf q (l0 ++ [x]))) with (l0 ++ [x]) in E. exists (d0 ++ d), l.
  split; [by rewrite E0, <- app_assoc, E, app_assoc|]. split; [by rewrite map_app|].
  assert (zlen l0 + 1 <= qcap q) as H0.
  { destruct C0 as [C0| ->]; [|pose proof (qo_cap _ Hq); unfold zlen; cbn; lia].
    unfold over_count in C0. cbn in C0. bool_prop. lia. }
  assert (zlen (l0 ++ [x]) = zlen l0 + 1) as Hz by (unfold zlen; rewrite length_app; cbn; lia).
  split; [split|].
  - rewrite E in Hz. unfold zlen in *. rewrite length_app in Hz. lia.
  - intros Hm. destruct C as [C| ->]; [|cbn; apply Hq]. unfold over_bytes in C. cbn in C.
    apply andb_false_iff in C as [C|C]; [apply andb_false_iff in C as [C|C]; bool_prop; lia|].
    destruct l; [cbn; apply Hq|]. unfold zlen in C. cbn in C. bool_prop. lia.
  - intros d1 d2 Ed Hne [Hh1 Hh2]. apply app_eq_app in Ed as (m & [[Em1 Em2]|[Em1 Em2]]).
    + destruct m as [|y m].
      * rewrite app_nil_l in Em2. subst d2. specialize (D [] d eq_refl Hne). unfold over_bytes in D. cbn in D. bool_prop. lia.
      * specialize (D0 d1 (y :: m) Em1 ltac:(done)). unfold over_count in D0. cbn [with_buf update qcap qbuf] in D0. bool_prop.
        subst d2. rewrite <- app_assoc, <- E in Hh1. unfold zlen in *. rewrite !length_app in *. cbn in *. lia.
    + specialize (D m d2 Em2 Hne). unfold over_bytes in D. cbn in D. bool_prop. lia.
Qed.

Lemma fit_spec i acc maxB l :
  let k := fit i acc maxB l in
  (k <= length l)%nat /\ (i = 0%nat -> l <> [] -> (1 <= k)%nat)
  /\ ((0 < k)%nat -> (i = 0%nat /\ k = 1%nat) \/ acc + lsum qsize (take k l) <= maxB)
  /\ (k = length l \/ maxB < acc + lsum qsize (take (S k) l)).
Proof.
  cbv zeta. revert i acc. induction l as [|e l IH]; intros i acc; cbn [fit]; [split; [done|]; split; [done|]; split; [lia|by left]|].
  destruct ((0 <? Z.of_nat i) && (maxB <? acc + qsize e)) eqn:E.
  - bool_prop. split; [lia|]. split; [lia|]. split; [lia|]. right. cbn [take]. rewrite lsum_cons. change (take 0 l) with (@nil queuedEntry). cbn. lia.
  - destruct (IH (S i) (acc + qsize e)) as (H1 & _ & H3 & H4). cbn [length]. split; [lia|]. split; [lia|].
    cbn [take]. rewrite !lsum_cons. split.
    + intros _. destruct (fit (S i) (acc + qsize e) maxB l) as [|k] eqn:Ek.
      * apply andb_false_iff in E as [E|E]; [left; split; [|done]; bool_prop; lia|]. right. change (take 0 l) with (@nil queuedEntry). cbn.
        bool_prop. lia.
      * destruct H3 as [[? _]|H3]; [lia|done|]. right. lia.
    + destruct H4 as [H4|H4]; [left; lia|]. right. rewrite <- Z.add_assoc in H4. exact H4.
Qed.

(** A drain takes a prefix: at least one entry, as many as the two caps allow. *)
Lemma drain_spec mx maxB q :
  queue_ok q -> qbuf q <> [] ->
  exists n, (1 <= n <= length (qbuf q))%nat
    /\ drainUpTo mx maxB q = Some (map entry (take n (qbuf q)), true, with_buf q (drop n (qbuf q)))
    /\ Z.of_nat n <= Z.max 1 mx /\ (0 < maxB -> n = 1%nat \/ lsum qsize (take n (qbuf q)) <= maxB)
    /\ (n = length (qbuf q) \/ Z.of_nat n = Z.max 1 mx \/ (0 < maxB /\ maxB < lsum qsize (take (S n) (qbuf q)))).
Proof.
  intros Hq Hne. unfold drainUpTo. destruct (qbuf q) as [|e buf] eqn:Eq; [done|]. rewrite <- Eq in *. clear Eq e buf.
  set (m := Z.to_nat (Z.min (zlen (qbuf q)) (if mx <? 1 then 1 else mx))).
  assert (Z.of_nat m = Z.min (zlen (qbuf q)) (Z.max 1 mx)) as Hm.
  { unfold m. assert (1 <= zlen (qbuf q)) by (unfold zlen; destruct (qbuf q); [done|cbn; lia]). destruct (mx <? 1) eqn:E; bool_prop; lia. }
  assert (1 <= m <= length (qbuf q))%nat as Hm1 by (unfold zlen in Hm; destruct (qbuf q); [done|cbn [length] in *; lia]).
  set (n := if 0 <? maxB then fit 0 0 maxB (take m (qbuf q)) else m).
  assert ((1 <= n <= m)%nat /\ (0 < maxB -> n = 1%nat \/ lsum qsize (take n (qbuf q)) <= maxB)
          /\ (n = m \/ (0 < maxB /\ maxB < lsum qsize (take (S n) (qbuf q))))) as (Hn & Hbound & Hgreedy).
  { unfold n. destruct (0 <? maxB) eqn:E; bool_prop; [|split; [lia|]; split; [lia|by left]].
    destruct (fit_spec 0 0 maxB (take m (qbuf q))) as (H1 & H2 & H3 & H4). rewrite length_take in *.
    assert (1 <= fit 0 0 maxB (take m (qbuf q)))%nat as Hk by (apply H2; [done|]; destruct (qbuf q); [done|destruct m; [lia|done]]).
    split; [lia|]. split.
    - intros _. destruct (H3 ltac:(lia)) as [[_ ?]|H3']; [by left|right]. rewrite take_take in H3'.
      by replace (fit 0 0 maxB (take m (qbuf q)) `min` m)%nat with (fit 0 0 maxB (take m (qbuf q))) in H3' by lia.
    - destruct H4 as [H4|H4]; [left; lia|]. destruct (decide (fit 0 0 maxB (take m (qbuf q)) = m)) as [|Hlt]; [by left|right].
      rewrite take_take in H4. by replace (S (fit 0 0 maxB (take m (qbuf q))) `min` m)%nat with (S (fit 0 0 maxB (take m (qbuf q)))) in H4 by lia. }
  clearbody n. exists n. split; [lia|]. split.
  - f_equal. f_equal. unfold with_buf. unfold update. cbn.
    assert (qbytes q - lsum qsize (take n (qbuf q)) = lsum qsize (drop n (qbuf q))) as ->.
    { pose proof (lsum_take_drop qsize n (qbuf q)). rewrite (qo_bytes _ Hq). lia. }
    pose proof (queue_sized q Hq) as Hs. rewrite <- (take_drop n (qbuf q)) in Hs. apply Forall_app in Hs as [_ Hs].
    pose proof (lsum_sized _ Hs). by replace (_ <? 0) with false by (symmetry; zbool).
  - split; [lia|]. split; [done|]. destruct Hgreedy as [->|?]; [|by auto]. unfold zlen in Hm.
    destruct (decide (m = length (qbuf q))); [by left|]. right. left. lia.
Qed.

Lemma with_buf_ok q l :
  queue_ok q -> holds q l -> Forall (fun x => qsize x = recordBytes (eRecord (entry x))) l -> queue_ok (with_buf q l).
Proof. intros [] [H1 H2] H3. by split. Qed.

Lemma new_queue_ok capacity maxB : queue_ok (newBoundedQueueBytes capacity maxB).
Proof.
  unfold newBoundedQueueBytes. split; cbn; try done; try (constructor); unfold zlen; cbn.
  - destruct (capacity <? 1) eqn:E; bool_prop; lia.
  - destruct (maxB <? 0) eqn:E; bool_prop; lia.
  - destruct (capacity <? 1) eqn:E; bool_prop; lia.
  - destruct (maxB <? 0) eqn:E; bool_prop; lia.
Qed.

Lemma push_ok e q : queue_ok q -> queue_ok (push e q).1.
Proof.
  intros Hq. destruct (closed q) eqn:Ec; [unfold push; by rewrite Ec|].
  destruct (queue_push_spec e q Hq Ec) as (d & l & E & -> & Hh & _). cbn [fst]. apply with_buf_ok; [done|done|].
  assert (Forall (fun x => qsize x = recordBytes (eRecord (entry x))) (d ++ l)) as Hf; [|by apply Forall_app in Hf as [_ ?]].
  rewrite <- E. apply Forall_app. split; [apply Hq|]. by repeat constructor.
Qed.

Lemma push_closed e q q' ds : closed q = false -> push e q = (q', ds) -> closed q' = false.
Proof.
  unfold push. intros Hc. rewrite Hc.
  assert (forall fuel cond q q' ds, evict_loop fuel cond q = (q', ds) -> closed q' = closed q) as He.
  { clear. induction fuel as [|fuel IH]; intros cond q q' ds; cbn [evict_loop]; [by intros [= <- <-]|].
    destruct (cond q); [|by intros [= <- <-]]. destruct (evictOldestLocked q) as [q1 d] eqn:E.
    destruct (evict_loop fuel cond q1) as [q2 ds2] eqn:E2. intros [= <- <-]. rewrite (IH _ _ _ _ E2).
    unfold evictOldestLocked in E. destruct (qbuf q); by injection E as <- <-. }
  destruct (evict_loop _ over_count q) as [q1 ds1] eqn:E1. destruct (evict_loop _ over_bytes _) as [q2 ds2] eqn:E2.
  intros [= <- <-]. rewrite (He _ _ _ _ _ E2). cbn. rewrite (He _ _ _ _ _ E1). done.
Qed.

Lemma drain_ok mx maxB q batch ok q' : queue_ok q -> drainUpTo mx maxB q = Some (batch, ok, q') -> queue_ok q'.
Proof.
  intros Hq E. destruct (qbuf q) as [|x buf] eqn:Eb.
  - unfold drainUpTo in E. rewrite Eb in E. destruct (closed q); [|done]. by injection E as <- <- <-.
  - destruct (drain_spec mx maxB q Hq ltac:(by rewrite Eb)) as (n & Hn & Ed & _). rewrite Ed in E. injection E as <- <- <-.
    pose proof (queue_sized q Hq) as Hs. pose proof (lsum_take_drop qsize n (qbuf q)) as Hsum.
    apply with_buf_ok; [done| |eapply Forall_drop; apply Hq].
    rewrite <- (take_drop n (qbuf q)) in Hs. apply Forall_app in Hs as [Hs _]. pose proof (lsum_sized _ Hs).
    destruct Hq. split; [unfold zlen in *; rewrite length_drop; lia|]. intros Hm. specialize (qo_within0 Hm). lia.
Qed.

(** ** Histories *)

Inductive qop := QPush (e : Entry) | QDrain (mx maxB : Z) | QClose.

(** The entries offered to the open queue, and those that left it, with whether they
    were drained. *)
Record qtrail := mkQTrail { offered : list Entry; gone : list (Entry * bool); queue : boundedQueue }.

Definition qstep (t : qtrail) (o : qop) : qtrail :=
  match o with
  | QPush e =>
      let '(q, ds) := push e (queue t) in
      mkQTrail (if closed (queue t) then offered t else offered t ++ [e]) (gone t ++ map (fun d => (d, false)) ds) q
  | QDrain mx maxB =>
      match drainUpTo mx maxB (queue t) with
      | None => t
      | Some (batch, _, q) => mkQTrail (offered t) (gone t ++ map (fun d => (d, true)) batch) q
      end
  | QClose => mkQTrail (offered t) (gone t) (close (queue t))
  end.

Definition qrun (capacity maxB : Z) (os : list qop) : qtrail :=
  fold_left qstep os (mkQTrail [] [] (newBoundedQueueBytes capacity maxB)).

Lemma qrun_ok capacity maxB os :
  let t := qrun capacity maxB os in
  queue_ok (queue t) /\ map fst (gone t) ++ map entry (qbuf (queue t)) = offered t.
Proof.
  cbv zeta. unfold qrun. induction os as [|o os IH] using rev_ind; [split; [apply new_queue_ok|done]|].
  rewrite fold_left_app. cbn [fold_left]. destruct (fold_left qstep os _) as [off gn q]. cbn [queue gone offered] in IH.
  destruct IH as [Hq Hf]. destruct o as [e|mx mb|]; cbn [qstep queue gone offered].
  - pose proof (push_ok e q Hq) as Hq'. destruct (closed q) eqn:Ec.
    + unfold push. rewrite Ec. cbn [queue gone offered map]. by rewrite app_nil_r.
    + destruct (queue_push_spec e q Hq Ec) as (d & l & E & Hp & _ & _). rewrite Hp in *. cbn [fst queue gone offered] in *.
      split; [done|]. apply (f_equal (map entry)) in E. rewrite !map_app in E. cbn [map entry] in E.
      rewrite map_app, map_map. cbn [fst]. rewrite map_id, <- app_assoc. change (qbuf (with_buf q l)) with l.
      rewrite <- E, app_assoc. by rewrite Hf.
  - destruct (drainUpTo mx mb q) as [[[batch ok] q']|] eqn:Ed; [|done]. cbn [queue gone offered].
    split; [by eapply drain_ok|]. destruct (qbuf q) as [|x buf] eqn:Eb.
    + unfold drainUpTo in Ed. rewrite Eb in Ed. destruct (closed q); [|done]. injection Ed as <- <- <-. cbn [map].
      by rewrite app_nil_r, Eb.
    + destruct (drain_spec mx mb q Hq ltac:(by rewrite Eb)) as (n & Hn & Ed' & _). rewrite Ed' in Ed. injection Ed as <- <- <-.
      rewrite map_app, map_map. cbn [fst]. rewrite map_id, <- app_assoc. change (qbuf (with_buf q (drop n (qbuf q)))) with (drop n (qbuf q)).
      rewrite <- map_app, take_drop, Eb. exact Hf.
  - split; [|done]. destruct Hq. by split.
Qed.

(** The queue is first in, first out and loses only what its bounds force it to:
    after any operations the entries that left it, drained or dropped, followed by those
    it holds are the entries offered to it in order; it holds no more entries and no more
    bytes than it may, and accounts its bytes exactly; and a push drops the oldest
    entries just until the rest fits. *)
Theorem queue_exact capacity maxB os :
  let t := qrun capacity maxB os in
  let q := queue t in
  map fst (gone t) ++ map entry (qbuf q) = offered t
  /\ qbytes q = lsum (fun x => recordBytes (eRecord (entry x))) (qbuf q) /\ holds q (qbuf q)
  /\ forall e, closed q = false ->
       exists d l, qbuf q ++ [mkQueued e (recordBytes (eRecord e))] = d ++ l
         /\ push e q = (with_buf q l, map entry d) /\ holds q l
         /\ (forall d1 d2, d = d1 ++ d2 -> d2 <> [] -> ~ holds q (d2 ++ l)).
Proof.
  cbv zeta. destruct (qrun_ok capacity maxB os) as [Hq Hf]. split; [exact Hf|].
  split; [|split; [split; [apply Hq|rewrite <- (qo_bytes _ Hq); apply Hq]|]].
  - rewrite (qo_bytes _ Hq). apply lsum_ext. intros x Hx. pose proof (qo_size _ Hq) as Hs. rewrite Forall_forall in Hs. auto.
  - intros e Hc. by apply queue_push_spec.
Qed.

End Queue.
