(* ===== verification/LogSink.v ===== *)
(** * What a log sink promises ([logship/sink.go], [sink_stdout.go])

    The result of one [Emit], the errors it carries, the contract the pipeline relies on
    as a class, and the sink that writes JSON lines. *)

From stdpp Require Import base decidable list gmap strings.
From Stdlib Require Import ZArith Lia.
From S2P Require Import Prelude LogQueue.
Import Queue.

Module LogSink.

(** ** Errors

    What [errors.Is] and [errors.As] can tell apart: an error with a text, one that
    wraps another ([%w]), a refusal by a rate limit, several joined. *)
Inductive error :=
| ErrText (msg : string)
| ErrWrap (msg : string) (inner : error)
| rateLimitError (retryAfter : Duration) (inner : option error)
| ErrJoin (errs : list error).

(** [errors.Join] of two: a nil one is left out, and two of them give nil. *)
Definition Join (a b : option error) : option error :=
  match a, b with
  | None, None => None
  | Some a, None => Some (ErrJoin [a])
  | None, Some b => Some (ErrJoin [b])
  | Some a, Some b => Some (ErrJoin [a; b])
  end.

(** [errors.As] for a [*rateLimitError]: the first in pre-order. *)
Fixpoint asRateLimit (e : error) : option Duration :=
  match e with
  | ErrText _ => None
  | ErrWrap _ e => asRateLimit e
  | rateLimitError d _ => Some d
  | ErrJoin es =>
      (fix first (es : list error) : option Duration :=
         match es with
         | [] => None
         | e :: es => match asRateLimit e with Some d => Some d | None => first es end
         end) es
  end.

Definition rateLimitDelay (err : option error) : option Duration :=
  match err with None => None | Some e => asRateLimit e end.

(** ** The result of an [Emit] *)

Record SinkResult := mkResult {
  Acked : list Entry; Rejected : list Entry; Retry : list Entry; Err : option error }.
#[export] Instance eta_SinkResult : Eta SinkResult := fun r =>
  mkResult (Acked r) (Rejected r) (Retry r) (Err r).

Definition ackedResult (batch : list Entry) : SinkResult := mkResult batch [] [] None.
Definition retryResult (batch : list Entry) (err : option error) : SinkResult := mkResult [] [] batch err.

(** The three lists partition the batch. *)
Definition covers (r : SinkResult) (batch : list Entry) : Prop :=
  Acked r ++ Rejected r ++ Retry r ≡ₚ batch.

(** A sink: [answer] is what its surroundings (the writer, the wire, the clock) do
    during one call. *)
Class Sink (S : Type) := {
  answer : Type;
  Emit : S -> answer -> list Entry -> S * SinkResult;
  Emit_covers : forall s a batch, covers (Emit s a batch).2 batch }.

(** ** The stdout sink *)

Definition Severity_String (sv : Severity) : string :=
  match sv with
  | SeverityTrace => "trace"
  | SeverityDebug => "debug"
  | SeverityWarn => "warn"
  | SeverityError => "error"
  | SeverityFatal => "fatal"
  | SeverityInfo => "info"
  end.

Record stdoutLine := mkLine {
  lnTimestamp : Time; lnSource : string; lnSeverity : string; lnBody : string; lnAttributes : gmap string string }.

(** The lines on the writer, and the error a [json.Encoder] keeps: once a write has
    failed, every later [Encode] returns that error. *)
Record stdoutSink := mkStdout { written : list stdoutLine; encErr : option error }.

Definition newStdoutSinkTo : stdoutSink := mkStdout [] None.

(** [Time.MarshalJSON] refuses a year outside 0..9999. *)
Definition day : Duration := 86400 * Second.
Definition marshals (t : Time) : bool := (- (366 * day) <=? t) && (t <? 3652059 * day).

(** [Encode] of one line, with the writer's answer. *)
Definition Encode (line : stdoutLine) (write : option error) (s : stdoutSink) : stdoutSink * option error :=
  match encErr s with
  | Some e => (s, Some e)
  | None =>
      if marshals (lnTimestamp line) then
        match write with
        | Some e => (mkStdout (written s) (Some e), Some e)
        | None => (mkStdout (written s ++ [line]) None, None)
        end
      else (s, Some (ErrText "json: error calling MarshalJSON"))
  end.

Definition stdout_line (now : Time) (e : Entry) : stdoutLine :=
  let ts := Timestamp (eRecord e) in
  mkLine (if IsZero ts then now else ts) (eSource e) (Severity_String (lSeverity (eRecord e)))
    (Body (eRecord e)) (Attributes (eRecord e)).

(** For each entry the clock and the writer's answer. *)
Definition stdout_answer : Type := nat -> Time * option error.

Fixpoint stdout_loop (a : stdout_answer) (i : nat) (todo batch : list Entry) (s : stdoutSink) : stdoutSink * SinkResult :=
  match todo with
  | [] => (s, ackedResult batch)
  | e :: todo =>
      let '(now, write) := a i in
      let '(s, err) := Encode (stdout_line now e) write s in
      match err with
      | Some _ => (s, retryResult batch err)
      | None => stdout_loop a (S i) todo batch s
      end
  end.

Definition stdout_Emit (s : stdoutSink) (a : stdout_answer) (batch : list Entry) : stdoutSink * SinkResult :=
  stdout_loop a 0 batch batch s.

(** All or nothing. *)
Lemma stdout_loop_result a i todo batch s :
  let r := (stdout_loop a i todo batch s).2 in
  r = ackedResult batch \/ exists e, r = retryResult batch (Some e).
Proof.
  cbv zeta. revert i s. induction todo as [|e todo IH]; intros i s; cbn [stdout_loop]; [by left|].
  destruct (a i) as [now w]. destruct (Encode _ _ s) as [s' [err|]]; [right; by exists err|apply IH].
Qed.

#[export] Instance stdout_is_sink : Sink stdoutSink.
Proof.
  refine {| answer := stdout_answer; Emit := stdout_Emit |}. intros s a batch. unfold covers, stdout_Emit.
  destruct (stdout_loop_result a 0 batch batch s) as [-> | [e ->]]; cbn; by rewrite ?app_nil_r.
Defined.

(** The batch acknowledged is the batch written, one line per entry in order. *)
Lemma stdout_loop_written a i todo batch s :
  Acked (stdout_loop a i todo batch s).2 <> [] ->
  written (stdout_loop a i todo batch s).1
  = written s ++ imap (fun j e => stdout_line (a (i + j)%nat).1 e) todo.
Proof.
  revert i s. induction todo as [|e todo IH]; intros i s; cbn [stdout_loop imap]; [by rewrite app_nil_r|].
  destruct (a i) as [now w] eqn:Ea. unfold Encode. destruct (encErr s) as [err|]; [done|].
  destruct (marshals _); [|done]. destruct w as [err|]; [done|]. intros H. rewrite IH; [|done]. cbn [written].
  rewrite <- app_assoc. cbn [app]. rewrite Nat.add_0_r, Ea. do 2 f_equal.
  apply imap_ext. intros j x _. cbn. by rewrite Nat.add_succ_r.
Qed.

(** A failed write is for ever: the encoder returns the same error to every retry and
    every later batch, and writes nothing more. *)
Lemma stdout_latched s a batch e :
  encErr s = Some e -> batch <> [] -> stdout_Emit s a batch = (s, retryResult batch (Some e)).
Proof.
  intros He Hne. unfold stdout_Emit. destruct batch as [|x batch]; [done|]. cbn [stdout_loop].
  destruct (a 0%nat) as [now w]. unfold Encode. by rewrite He.
Qed.

(** A record dated past the year 9999 is never written, nor is anything batched with it. *)
Lemma stdout_year s a e batch :
  encErr s = None -> marshals (Timestamp (eRecord e)) = false -> IsZero (Timestamp (eRecord e)) = false ->
  Acked (stdout_Emit s a (e :: batch)).2 = [].
Proof.
  intros He Hm Hz. unfold stdout_Emit. cbn [stdout_loop]. destruct (a 0%nat) as [now w]. unfold Encode.
  rewrite He. unfold stdout_line. cbn [lnTimestamp]. by rewrite Hz, Hm.
Qed.

End LogSink.
