(* ===== verification/Limiter.v ===== *)
(** * The log limiter ([logship/loglimiter.go])

    At most one line per key and interval, over a bounded set of keys. *)

From stdpp Require Import base decidable list gmap strings.
From Stdlib Require Import ZArith Lia.
From S2P Require Import Prelude.

Module Limiter.

Record LogLimiter := mkLimiter { last : gmap string Time; interval : Duration; maxKeys : Z }.
#[export] Instance eta_LogLimiter : Eta LogLimiter := fun l => mkLimiter (last l) (interval l) (maxKeys l).

Definition NewLogLimiter (interval : Duration) (maxKeys : Z) : LogLimiter := mkLimiter ∅ interval maxKeys.

Definition purgeExpired (now : Time) (l : LogLimiter) : LogLimiter :=
  l <| last ::= filter (fun kt => ~ interval l <= time_Sub now kt.2) |>.

(** [now] is the clock at the call. *)
Definition Allow (now : Time) (key : string) (l : LogLimiter) : LogLimiter * bool :=
  let grant l := (l <| last ::= <[key := now]> |>, true) in
  match last l !! key with
  | Some t => if time_Sub now t <? interval l then (l, false) else grant l
  | None =>
      if maxKeys l <=? zsize (last l) then
        let l := purgeExpired now l in
        if maxKeys l <=? zsize (last l) then (l, false) else grant l
      else grant l
  end.

(** The calls of a history, each with whether it was allowed. *)
Fixpoint allows (calls : list (Time * string)) (l : LogLimiter) : list (Time * string * bool) * LogLimiter :=
  match calls with
  | [] => ([], l)
  | (now, key) :: calls =>
      let '(l, ok) := Allow now key l in
      let '(rest, l) := allows calls l in ((now, key, ok) :: rest, l)
  end.

(** The clock does not go back. *)
Fixpoint forward (t : Time) (calls : list (Time * string)) : Prop :=
  match calls with
  | [] => True
  | (now, _) :: calls => t <= now /\ forward now calls
  end.

(** A key stays silent until [u]: it is not allowed before. *)
Definition silent_until (key : string) (u : Time) (rs : list (Time * string * bool)) : Prop :=
  forall now, (now, key, true) ∈ rs -> u <= now.

Lemma purge_size now l : zsize (last (purgeExpired now l)) <= zsize (last l).
Proof. unfold purgeExpired, zsize. cbn. apply inj_le, map_subseteq_size, map_filter_subseteq. Qed.

Lemma Allow_fixed now key l : interval (Allow now key l).1 = interval l /\ maxKeys (Allow now key l).1 = maxKeys l.
Proof. unfold Allow. by repeat case_match. Qed.

Lemma Allow_bound now key l : zsize (last l) <= Z.max 0 (maxKeys l) -> zsize (last (Allow now key l).1) <= Z.max 0 (maxKeys l).
Proof.
  intros Hb. unfold Allow. pose proof (purge_size now l) as Hp. destruct (last l !! key) as [t|] eqn:Ek.
  - case_match; [done|]. unfold update. cbn. by rewrite (zsize_insert_Some _ _ t).
  - destruct (maxKeys l <=? zsize (last l)) eqn:E1; bool_prop.
    + destruct (_ <=? zsize (last (purgeExpired now l))) eqn:E2; bool_prop; cbn [fst]; [lia|].
      change (maxKeys (purgeExpired now l)) with (maxKeys l) in E2. unfold update. cbn [last].
      rewrite zsize_insert_None; [cbn in *; lia|]. unfold purgeExpired. cbn. apply map_lookup_filter_None. by left.
    + unfold update. cbn. rewrite zsize_insert_None by done. lia.
Qed.

(** While a key's last line is less than an interval old it is remembered, or expired. *)
Lemma Allow_remembers (now : Time) key k (u : Time) l :
  0 < interval l <= maxDuration -> last l !! k = Some u -> u <= now ->
  let '(l', ok) := Allow now key l in
  (last l' !! k = Some u /\ (key = k -> ok = false)) \/ u + interval l <= now.
Proof.
  intros Hi Hk Hu. unfold Allow. destruct (decide (u + interval l <= now)) as [|Hlt]; [by case_match_all; right|].
  assert (time_Sub now u < interval l) as Hs by (apply time_Sub_lt; unfold minDuration; lia).
  destruct (decide (key = k)) as [->|Hne].
  { rewrite Hk. replace (_ <? _) with true by (symmetry; zbool). left. auto. }
  assert (last (purgeExpired now l) !! k = Some u) as Hp.
  { unfold purgeExpired. cbn. apply map_lookup_filter_Some. split; [done|]. cbn. lia. }
  repeat case_match; simplify_eq; left; (split; [|congruence]); cbn [update last]; rewrite ?lookup_insert_ne by done; done.
Qed.

Lemma allows_silent calls : forall l k (u t : Time),
  0 < interval l <= maxDuration -> last l !! k = Some u -> u <= t -> forward t calls ->
  silent_until k (u + interval l) (allows calls l).1.
Proof.
  induction calls as [|[now key] calls IH]; intros l k u t Hi Hk Hu Hf; cbn [allows]; [by intros ? ?%elem_of_nil|].
  destruct Hf as [Ht Hf]. pose proof (Allow_remembers now key k u l Hi Hk ltac:(lia)) as Ha. pose proof (Allow_fixed now key l) as [Ei _].
  destruct (Allow now key l) as [l' ok]. cbn [fst] in Ei. destruct (allows calls l') as [rest l2] eqn:Er. cbn [fst].
  assert (forall t calls rs l', forward t calls -> allows calls l' = (rs, l2) -> forall now k, (now, k, true) ∈ rs -> t <= now) as Hlate.
  { clear. intros t calls. revert t l2. induction calls as [|[n k] calls IH]; intros t l2 rs l' Hf; cbn [allows].
    - intros [= <- <-] now k ?%elem_of_nil. done.
    - destruct Hf as [Ht Hf]. destruct (Allow n k l') as [l1 ok]. destruct (allows calls l1) as [rest l3] eqn:E.
      intros [= <- <-] now k' [[= -> -> <-]|Hin]%elem_of_cons; [done|]. pose proof (IH _ _ _ _ Hf E _ _ Hin). lia. }
  intros n Hin. destruct Ha as [[Hk' Hno]|Hexp].
  - apply elem_of_cons in Hin as [[= -> -> <-]|Hin]; [by specialize (Hno eq_refl)|].
    assert (interval l' = interval l) by done. pose proof (IH l' k u now ltac:(lia) Hk' ltac:(lia) Hf) as Hs. rewrite Er in Hs.
    rewrite <- Ei. by apply Hs.
  - apply elem_of_cons in Hin as [[= -> -> <-]|Hin]; [done|]. pose proof (Hlate _ _ _ _ Hf Er _ _ Hin). lia.
Qed.

(** The limiter holds no more keys than it may, and between two lines it allows for one
    key an interval passes. *)
Lemma limiter_spaced interval maxKeys calls1 now key calls2 :
  0 < interval <= maxDuration -> forward now calls2 ->
  let l := (allows calls1 (NewLogLimiter interval maxKeys)).2 in
  zsize (last (Allow now key l).1) <= Z.max 0 maxKeys
  /\ ((Allow now key l).2 = true -> silent_until key (now + interval) (allows calls2 (Allow now key l).1).1).
Proof.
  intros Hi Hf. cbv zeta.
  assert (forall calls l, zsize (last l) <= Z.max 0 (Limiter.maxKeys l) ->
    Limiter.interval (allows calls l).2 = Limiter.interval l /\ Limiter.maxKeys (allows calls l).2 = Limiter.maxKeys l
    /\ zsize (last (allows calls l).2) <= Z.max 0 (Limiter.maxKeys l)) as Hinv.
  { clear. induction calls as [|[n k] calls IH]; intros l Hb; cbn [allows]; [done|].
    pose proof (Allow_bound n k l Hb) as Hb'. pose proof (Allow_fixed n k l) as [E1 E2]. destruct (Allow n k l) as [l1 ok]. cbn [fst] in *.
    rewrite <- E2 in Hb'. specialize (IH l1 Hb'). destruct (allows calls l1) as [rest l2]. cbn [snd] in *. by rewrite <- E1, <- E2. }
  destruct (Hinv calls1 (NewLogLimiter interval maxKeys)) as (E1 & E2 & Hb); [unfold NewLogLimiter; cbn [last]; rewrite zsize_empty; lia|].
  set (l := (allows calls1 _).2) in *. clearbody l. cbn in E1, E2, Hb. rewrite <- E2. split; [apply Allow_bound; by rewrite E2|].
  intros Hok. pose proof (Allow_fixed now key l) as [E3 _].
  assert (last (Allow now key l).1 !! key = Some now) as Hk.
  { revert Hok. unfold Allow. repeat case_match; cbn [fst snd]; try done; intros _; cbn [update last]; by rewrite lookup_insert_eq. }
  rewrite <- E1, <- E3. eapply allows_silent; [by rewrite E3, E1|done|reflexivity|done].
Qed.

End Limiter.
