(* ===== verification/LogPipeline.v ===== *)
(** * The log pipeline ([logship/pipeline.go], [push.go], [metrics.go])

    Sources put records into the queue through one gate; one emitter drains it in batches
    and ships each with bounded retry.  The emitter's loop is a step function, so that a
    history interleaves it with the producers at each delivery attempt. *)

From stdpp Require Import base decidable list gmap strings.
From Stdlib Require Import ZArith Lia.
From S2P Require Import Prelude LogQueue LogSink.
Import Queue LogSink.

Module Pipeline.

Record LogsConfig := mkConfig {
  BatchMax : Z; BufferSize : Z; BufferMaxBytes : Z; MaxRecordBytes : Z; MaxExportBytes : Z;
  ShipMaxAttempts : Z; ShipMaxElapsed : Duration }.

Definition DefaultShipMaxElapsed : Duration := 15 * Minute.

(** ** Self-metrics *)

Definition dropReasonOverflow : string := "overflow".
Definition dropReasonShipFailed : string := "ship_failed".
Definition dropReasonShipFailedPermanent : string := "ship_failed_permanent".
Definition dropReasonRecordTooLarge : string := "record_too_large".
Definition dropReasonRejected : string := "rejected".
Definition reasons : list string :=
  [dropReasonOverflow; dropReasonShipFailed; dropReasonShipFailedPermanent; dropReasonRecordTooLarge; dropReasonRejected].

(** The counters by label, the gauges as instants, and the console's raw totals. *)
Record metrics := mkMetrics {
  shipped : gmap string Z; dropped : gmap (string * string) Z; shipErrors : Z; pollErrors : gmap string Z;
  lastReceived : gmap string Time; lastExported : gmap string Time;
  consoleShipped : Z; consoleDropped : Z }.
#[export] Instance eta_metrics : Eta metrics := fun m =>
  mkMetrics (shipped m) (dropped m) (shipErrors m) (pollErrors m) (lastReceived m) (lastExported m)
    (consoleShipped m) (consoleDropped m).

(** A labelled counter: a label never counted reads zero. *)
Definition count {K} `{Countable K} (k : K) (m : gmap K Z) : Z := default 0 (m !! k).
Definition Inc {K} `{Countable K} (k : K) (m : gmap K Z) : gmap K Z := <[k := count k m + 1]> m.

Definition newMetrics : metrics := mkMetrics ∅ ∅ 0 ∅ ∅ ∅ 0 0.

(** One drop counted for each entry, and on the console. *)
Definition drop_all (reason : string) (es : list Entry) (m : metrics) : metrics :=
  m <| dropped ::= fun d => fold_left (fun d e => Inc (eSource e, reason) d) es d |>
    <| consoleDropped ::= fun n => add64 n (zlen es) |>.

Definition noteOverflow (e : Entry) (m : metrics) : metrics :=
  m <| dropped ::= Inc (eSource e, dropReasonOverflow) |> <| consoleDropped ::= fun n => add64 n 1 |>.

Definition noteAcked (ackedAt : Time) (acked : list Entry) (m : metrics) : metrics :=
  match acked with
  | [] => m
  | _ =>
      fold_left (fun m e => m <| shipped ::= Inc (eSource e) |> <| lastExported ::= <[eSource e := ackedAt]> |>) acked m
      <| consoleShipped ::= fun n => add64 n (zlen acked) |>
  end.

Definition noteRejected (rejected : list Entry) (m : metrics) : metrics :=
  match rejected with
  | [] => m
  | _ => drop_all dropReasonRejected rejected m
  end.

(** ** Sizes and delays *)

Definition maxExportBytes : Z := 32 * 2 ^ 20.
Definition shipRetryBase : Duration := 200 * Millisecond.
Definition shipRetryMax : Duration := 5 * Second.
Definition shipRateLimitPause : Duration := 2 * Second.
Definition shipRateLimitMinChunk : Z := 32.

Definition exportByteBound (cfg : LogsConfig) : Z :=
  let n := MaxExportBytes cfg in
  if (n <=? 0) || (maxExportBytes <? n) then maxExportBytes else n.

Definition splitChunk (n : Z) : Z :=
  let half := Z.quot n 2 in
  if half <? shipRateLimitMinChunk then
    if n <=? shipRateLimitMinChunk then 1 else shipRateLimitMinChunk
  else half.

Definition pacingFor (advertised : Duration) : Duration :=
  if advertised <? shipRateLimitPause then shipRateLimitPause else advertised.

Definition shipBackoff (attempt : Z) : Duration :=
  let attempt := if attempt <? 1 then 1 else attempt in
  if 8 <? attempt then shipRetryMax
  else
    let d := Z.shiftl shipRetryBase (attempt - 1) in
    if shipRetryMax <? d then shipRetryMax else d.

Definition joinPending (retry tail : list Entry) : list Entry :=
  match retry, tail with
  | [], _ => tail
  | _, [] => retry
  | _, _ => retry ++ tail
  end.

(** ** The account of the counters *)

(** How many of the entries are a source's. *)
Definition by_source (s : string) (es : list Entry) : Z := lsum (fun e => if decide (eSource e = s) then 1 else 0) es.

(** What is counted for a source: shipped, or dropped for any of the reasons. *)
Definition accounted (m : metrics) (s : string) : Z :=
  count s (shipped m) + lsum (fun r => count (s, r) (dropped m)) reasons.

(** The console shows the sums of the labelled counters. *)
Definition console_ok (m : metrics) : Prop :=
  consoleShipped m ==64 msum (fun _ n => n) (shipped m) /\ consoleDropped m ==64 msum (fun _ n => n) (dropped m).

(** The counters went up by one for each of the entries. *)
Definition charged (es : list Entry) (m m' : metrics) : Prop :=
  (forall s, accounted m' s = accounted m s + by_source s es) /\ (console_ok m -> console_ok m').

Section Counter.
Context {K : Type} `{Countable K}.
Implicit Types (k : K) (m : gmap K Z).

Lemma count_Inc k k' m : count k (Inc k' m) = count k m + if decide (k' = k) then 1 else 0.
Proof.
  unfold count, Inc. destruct (decide (k' = k)) as [->|Hne]; [by rewrite lookup_insert_eq|].
  rewrite lookup_insert_ne by done. lia.
Qed.

Lemma msum_Inc k m : msum (fun _ n => n) (Inc k m) = msum (fun _ n => n) m + 1.
Proof.
  unfold Inc, count. destruct (m !! k) as [n|] eqn:E; cbn.
  - rewrite (msum_insert_Some _ m k n) by done. lia.
  - rewrite msum_insert_None by done. lia.
Qed.

Context {A : Type} (key : A -> K).

Lemma count_Inc_all k l m :
  count k (fold_left (fun m a => Inc (key a) m) l m) = count k m + lsum (fun a => if decide (key a = k) then 1 else 0) l.
Proof.
  revert m. induction l as [|a l IH]; intros m; cbn [fold_left]; [cbn; lia|]. rewrite IH, count_Inc, lsum_cons. lia.
Qed.

Lemma msum_Inc_all l m : msum (fun _ n => n) (fold_left (fun m a => Inc (key a) m) l m) = msum (fun _ n => n) m + zlen l.
Proof.
  revert m. induction l as [|a l IH]; intros m; cbn [fold_left]; [unfold zlen; cbn; lia|].
  rewrite IH, msum_Inc. unfold zlen. cbn [length]. lia.
Qed.

End Counter.

Lemma by_source_app s l k : by_source s (l ++ k) = by_source s l + by_source s k.
Proof. apply lsum_app. Qed.

Lemma by_source_perm s l k : l ≡ₚ k -> by_source s l = by_source s k.
Proof. apply lsum_perm. Qed.

Lemma charged_refl m : charged [] m m.
Proof. split; [intros s; cbn; lia|done]. Qed.

Lemma charged_trans es es' m m' m'' : charged es m m' -> charged es' m' m'' -> charged (es ++ es') m m''.
Proof. intros [H1 C1] [H2 C2]. split; [intros s; rewrite H2, H1, by_source_app; lia|auto]. Qed.

Lemma charged_perm es es' m m' : es ≡ₚ es' -> charged es m m' -> charged es' m m'.
Proof. intros P [H1 C1]. split; [intros s; by rewrite H1, (by_source_perm s _ _ P)|done]. Qed.

(** A change of the other metrics counts nothing. *)
Lemma charged_other m m' :
  shipped m' = shipped m -> dropped m' = dropped m -> consoleShipped m' = consoleShipped m ->
  consoleDropped m' = consoleDropped m -> charged [] m m'.
Proof.
  intros E1 E2 E3 E4. split; [|unfold console_ok; by rewrite E1, E2, E3, E4].
  intros s. unfold accounted. rewrite E1, E2. cbn. lia.
Qed.

(** A drop counts once among the reasons. *)
Lemma reasons_once (n : Z) r :
  r ∈ reasons -> lsum (fun r' => if decide (r = r') then n else 0) reasons = n.
Proof.
  unfold reasons, dropReasonOverflow, dropReasonShipFailed, dropReasonShipFailedPermanent,
    dropReasonRecordTooLarge, dropReasonRejected.
  intros Hr. repeat (apply elem_of_cons in Hr as [->|Hr]; [vm_compute; by destruct n|]). by apply elem_of_nil in Hr.
Qed.

Lemma charged_drop reason es m : reason ∈ reasons -> charged es m (drop_all reason es m).
Proof.
  intros Hr. split.
  - intros s. unfold accounted, drop_all. cbn [update shipped dropped].
    rewrite (lsum_ext _ (fun r => count (s, r) (dropped m) + (if decide (reason = r) then by_source s es else 0))).
    + rewrite lsum_add, (reasons_once _ _ Hr). lia.
    + intros r _. rewrite (count_Inc_all (fun e => (eSource e, reason))). f_equal. unfold by_source.
      destruct (decide (reason = r)) as [->|Hne].
      * apply lsum_ext. intros e _. destruct (decide (eSource e = s)) as [->|Hne]; [by rewrite decide_True|].
        rewrite decide_False; [done|congruence].
      * rewrite (lsum_ext _ (fun _ => 0)); [induction es; [done|by rewrite lsum_cons]|].
        intros e _. rewrite decide_False; [done|congruence].
  - intros [H1 H2]. split; [done|]. unfold drop_all. cbn [update consoleDropped dropped].
    rewrite (msum_Inc_all (fun e => (eSource e, reason))), add64_eq64. by rewrite H2.
Qed.

Lemma charged_acked t es m : charged es m (noteAcked t es m).
Proof.
  unfold noteAcked. destruct es as [|e0 es0]; [apply charged_refl|]. set (es := e0 :: es0). clearbody es.
  set (m' := fold_left _ es m).
  assert (shipped m' = fold_left (fun c e => Inc (eSource e) c) es (shipped m) /\ dropped m' = dropped m
          /\ consoleShipped m' = consoleShipped m /\ consoleDropped m' = consoleDropped m) as (E1 & E2 & E3 & E4).
  { unfold m'. clear m'. revert m. induction es as [|e es IH]; intros m; [done|]. cbn [fold_left].
    destruct (IH (m <| shipped ::= Inc (eSource e) |> <| lastExported ::= <[eSource e := t]> |>)) as (-> & -> & -> & ->). done. }
  clearbody m'. split.
  - intros s. unfold accounted. cbn [update shipped dropped]. rewrite E1, E2, (count_Inc_all eSource). unfold by_source. lia.
  - intros [H1 H2]. unfold console_ok. cbn [update consoleShipped consoleDropped shipped dropped].
    rewrite E1, E2, E3, E4, (msum_Inc_all eSource), add64_eq64. split; [by rewrite H1|done].
Qed.

Lemma charged_rejected es m : charged es m (noteRejected es m).
Proof. unfold noteRejected. destruct es; [apply charged_refl|apply charged_drop]. unfold reasons. set_solver. Qed.

Lemma charged_one reason e m :
  reason ∈ reasons ->
  charged [e] m (m <| dropped ::= Inc (eSource e, reason) |> <| consoleDropped ::= fun n => add64 n 1 |>).
Proof. exact (charged_drop reason [e] m). Qed.

Lemma charged_overflows ds m : charged ds m (fold_left (fun m d => noteOverflow d m) ds m).
Proof.
  revert m. induction ds as [|d ds IH]; intros m; [apply charged_refl|]. cbn [fold_left].
  apply (charged_trans [d] ds _ (noteOverflow d m)); [|apply IH]. apply charged_one. unfold reasons. set_solver.
Qed.

Lemma joinPending_app retry tail : joinPending retry tail = retry ++ tail.
Proof. destruct retry, tail; cbn; by rewrite ?app_nil_r. Qed.

Section Run.
Context {S : Type} {snk : Sink S}.
Variable cfg : LogsConfig.

Record pipeline := mkPipeline { sink : S; pqueue : boundedQueue; pmetrics : metrics; shipChunk : Z }.
#[local] Instance eta_pipeline : Eta pipeline := fun p =>
  mkPipeline (sink p) (pqueue p) (pmetrics p) (shipChunk p).

Definition newPipeline (s : S) : pipeline :=
  mkPipeline s (newBoundedQueueBytes (BufferSize cfg) (BufferMaxBytes cfg)) newMetrics 0.

(** ** The gate

    [now] is the clock at the stamp.  The queue reports each eviction to [noteOverflow]. *)
Definition enqueue (e : Entry) (now : Time) (p : pipeline) : pipeline * (Time * bool) :=
  if (0 <? MaxRecordBytes cfg) && (MaxRecordBytes cfg <? recordBytes (eRecord e)) then
    (p <| pmetrics ::= fun m => m <| dropped ::= Inc (eSource e, dropReasonRecordTooLarge) |>
                                  <| consoleDropped ::= fun n => add64 n 1 |> |>,
     (zero_time, false))
  else
    let e := e <| Received := now |> in
    let '(q, ds) := push e (pqueue p) in
    (p <| pqueue := q |> <| pmetrics ::= fun m => fold_left (fun m d => noteOverflow d m) ds m |>,
     (now, true)).

Definition sanitized (r : LogRecord) : LogRecord := r <| Attributes ::= sanitizeAttributes |>.

(** The loop of [pollOnce] over the records, each with the clock at its stamp. *)
Fixpoint poll_records (name : string) (rs : list (LogRecord * Time)) (lastAdmitted : Time) (p : pipeline)
  : pipeline * Time :=
  match rs with
  | [] => (p, lastAdmitted)
  | (r, now) :: rs =>
      let '(p, (recv, ok)) := enqueue (mkEntry name (sanitized r) zero_time) now p in
      poll_records name rs (if ok then recv else lastAdmitted) p
  end.

(** [pollOnce]; [None] is a [Poll] that failed. *)
Definition pollOnce (name : string) (result : option (list (LogRecord * Time))) (p : pipeline) : pipeline :=
  match result with
  | None => p <| pmetrics ::= fun m => m <| pollErrors ::= Inc name |> |>
  | Some records =>
      let '(p, lastAdmitted) := poll_records name records zero_time p in
      if negb (IsZero lastAdmitted)
      then p <| pmetrics ::= fun m => m <| lastReceived ::= <[name := lastAdmitted]> |> |>
      else p
  end.

(** The source a push source's record is filed under. *)
Definition push_source (name : string) (r : LogRecord) : string :=
  if negb (str_empty (lSource r)) && negb (str_eq (lSource r) name) then lSource r else name.

(** The [emit] callback [runPushSource] hands to a push source. *)
Definition push_emit (name : string) (r : LogRecord) (now : Time) (p : pipeline) : pipeline :=
  let src := push_source name r in
  let '(p, (recv, ok)) := enqueue (mkEntry src (sanitized r) zero_time) now p in
  if ok then p <| pmetrics ::= fun m => m <| lastReceived ::= <[src := recv]> |> |> else p.

(** The callback [Start] binds the self-log handler to. *)
Definition self_emit (e : Entry) (now : Time) (p : pipeline) : pipeline * bool :=
  let '(p, (_, ok)) := enqueue (e <| eRecord ::= sanitized |>) now p in (p, ok).

(** ** One batch *)

Definition relaxShipChunk (p : pipeline) : pipeline :=
  if shipChunk p <=? 0 then p
  else
    let next := shipChunk p * 2 in
    if (BatchMax cfg <=? 0) || (BatchMax cfg <=? next) then p <| shipChunk := 0 |> else p <| shipChunk := next |>.

(** [stopping]: whether the producers' context is cancelled when it is read. *)
Definition abandonDelivery (stopping : bool) (pending : list Entry) (p : pipeline) : pipeline :=
  let reason := if stopping then dropReasonShipFailed else dropReasonShipFailedPermanent in
  p <| pmetrics ::= drop_all reason pending |>.

(** Which case of the [select] fired, with what is read of the two contexts after it. *)
Inductive wake :=
| DeliveryDone (stopping : bool)
| ProducersDone (ended : bool)
| TimerFired (ended stopping : bool).

Definition waitOrAbandon (w : wake) (pending : list Entry) (p : pipeline) : pipeline * bool :=
  match w with
  | DeliveryDone stopping => (abandonDelivery stopping pending p, false)
  | ProducersDone ended => if ended then (abandonDelivery true pending p, false) else (p, true)
  | TimerFired ended stopping => if ended then (abandonDelivery stopping pending p, false) else (p, true)
  end.

(** The variables of [shipBatch]. *)
Record delivery := mkDelivery {
  deadline : Time; pending : list Entry; chunk : Z; pace : Duration; attempt : Z; limited : bool }.
#[local] Instance eta_delivery : Eta delivery := fun d =>
  mkDelivery (deadline d) (pending d) (chunk d) (pace d) (attempt d) (limited d).

(** What one round of the loop reads: the clock at the top and after the attempt, the
    waits, the sink's answer, the clock of the acknowledgement, the two contexts after
    the attempt, and the producers' context when the batch is abandoned. *)
Record round := mkRound {
  rNow : Time; rPace : wake; rAnswer : answer; rAckedAt : Time;
  rStopping : bool; rEnded : bool; rNow' : Time; rBackoff : wake; rAbandon : bool }.

Definition maxElapsed : Duration := if ShipMaxElapsed cfg <=? 0 then DefaultShipMaxElapsed else ShipMaxElapsed cfg.

Definition startDelivery (now : Time) (batch : list Entry) (p : pipeline) : delivery :=
  let chunk := shipChunk p in
  let chunk := if (chunk <=? 0) || (zlen batch <? chunk) then zlen batch else chunk in
  mkDelivery (time_Add now maxElapsed) batch chunk 0 0 false.

Definition ended_by (now : Time) (d : delivery) : bool := time_Sub (deadline d) now <=? 0.

(** The size of the next attempt. *)
Definition next_size (d : delivery) : Z :=
  let n := chunk d in
  let n := if n <? 1 then 1 else n in
  if zlen (pending d) <? n then zlen (pending d) else n.

(** [pace /= 2], and nothing below 100 ms. *)
Definition relax_pace (p : Duration) : Duration :=
  let p := Z.quot p 2 in if p <? 100 * Millisecond then 0 else p.

(** One round of the loop, from a non-empty pending set; [None]: [shipBatch] returned. *)
Definition ship_round (r : round) (d : delivery) (p : pipeline) : pipeline * option delivery :=
  if ended_by (rNow r) d then (abandonDelivery (rAbandon r) (pending d) p, None)
  else
    let '(p, go) := if 0 <? pace d then waitOrAbandon (rPace r) (pending d) p else (p, true) in
    if negb go then (p, None)
    else
      let n := next_size d in
      let head := take (Z.to_nat n) (pending d) in
      let rest := drop (Z.to_nat n) (pending d) in
      let '(s, res) := Emit (sink p) (rAnswer r) head in
      let p := p <| sink := s |>
                 <| pmetrics ::= fun m => noteRejected (Rejected res) (noteAcked (rAckedAt r) (Acked res) m) |> in
      if (zlen (Retry res) =? 0) && (zlen (Rejected res) =? 0) then
        (p, Some (d <| pace ::= relax_pace |> <| pending := rest |>))
      else
        let attempt' := attempt d + 1 in
        let p := p <| pmetrics ::= fun m => m <| shipErrors ::= Z.add 1 |> |> in
        let pending' := joinPending (Retry res) rest in
        let d := d <| attempt := attempt' |> <| pending := pending' |> in
        if zlen pending' =? 0 then (p, None)
        else if rStopping r || rEnded r || ended_by (rNow' r) d then
          (abandonDelivery (rStopping r || rAbandon r) pending' p, None)
        else if (0 <? ShipMaxAttempts cfg) && (ShipMaxAttempts cfg <=? attempt') then
          (p <| pmetrics ::= drop_all dropReasonShipFailedPermanent pending' |>, None)
        else
          match rateLimitDelay (Err res) with
          | Some delay =>
              let chunk' := splitChunk n in
              (p <| shipChunk := chunk' |>,
               Some (d <| limited := true |> <| chunk := chunk' |> <| pace := pacingFor delay |>))
          | None =>
              let '(p, go) := waitOrAbandon (rBackoff r) pending' p in
              (p, if go then Some d else None)
          end.

(** What follows the loop. *)
Definition ship_end (d : delivery) (p : pipeline) : pipeline := if limited d then p else relaxShipChunk p.

Fixpoint ship_loop (fuel : nat) (env : nat -> round) (i : nat) (d : delivery) (p : pipeline) : option pipeline :=
  match fuel with
  | O => None
  | Datatypes.S fuel =>
      if zlen (pending d) <=? 0 then Some (ship_end d p)
      else
        match ship_round (env i) d p with
        | (p, None) => Some p
        | (p, Some d) => ship_loop fuel env (Datatypes.S i) d p
        end
  end.

Definition shipBatch (fuel : nat) (env : nat -> round) (now : Time) (batch : list Entry) (p : pipeline) : option pipeline :=
  ship_loop fuel env 0 (startDelivery now batch p) p.

(** ** No entry is lost or counted twice *)

(** A step of the emitter that charges [es], leaves the queue and keeps the rest pending. *)
Definition charges (es : list Entry) (p p' : pipeline) : Prop :=
  charged es (pmetrics p) (pmetrics p') /\ pqueue p' = pqueue p.

Lemma abandon_charges b es p : charges es p (abandonDelivery b es p).
Proof. split; [|done]. apply charged_drop. unfold reasons. destruct b; set_solver. Qed.

Lemma wait_charges w es p p' go :
  waitOrAbandon w es p = (p', go) -> (go = true /\ p' = p) \/ (go = false /\ charges es p p').
Proof.
  destruct w as [b|[]|[] b]; cbn [waitOrAbandon]; intros [= <- <-]; auto; right; split; auto; apply abandon_charges.
Qed.

Lemma charges_trans es es' p p' p'' : charges es p p' -> charges es' p' p'' -> charges (es ++ es') p p''.
Proof. intros [H1 E1] [H2 E2]. split; [by eapply charged_trans|congruence]. Qed.

Lemma ship_round_charges r d p p' d' :
  ship_round r d p = (p', d') ->
  exists es, charges es p p' /\ es ++ from_option pending [] d' ≡ₚ pending d.
Proof.
  unfold ship_round. destruct (ended_by (rNow r) d).
  { intros [= <- <-]. exists (pending d). cbn. rewrite app_nil_r. split; [apply abandon_charges|done]. }
  destruct (if 0 <? pace d then _ else _) as [p1 go] eqn:Ew.
  assert ((go = true /\ p1 = p) \/ (go = false /\ charges (pending d) p p1)) as Hw.
  { destruct (0 <? pace d); [by apply wait_charges in Ew|]. injection Ew as <- <-. auto. }
  clear Ew. destruct Hw as [[-> ->]|[-> Hw]].
  2:{ cbn [negb]. intros [= <- <-]. exists (pending d). cbn. by rewrite app_nil_r. }
  cbn [negb]. set (n := next_size d). pose proof (Emit_covers (sink p) (rAnswer r) (take (Z.to_nat n) (pending d))) as Hc.
  destruct (Emit _ _ _) as [s res]. cbn [snd] in Hc. unfold covers in Hc.
  set (p2 := p <| sink := s |> <| pmetrics ::= _ |>).
  assert (charges (Acked res ++ Rejected res) p p2) as H2.
  { split; [|done]. unfold p2. cbn [update pmetrics]. eapply charged_trans; [apply charged_acked|apply charged_rejected]. }
  clearbody p2. destruct ((zlen (Retry res) =? 0) && (zlen (Rejected res) =? 0)) eqn:Eok.
  { intros [= <- <-]. exists (Acked res ++ Rejected res). split; [done|]. cbn [from_option update pending].
    bool_prop. destruct (Retry res); [|done]. rewrite app_nil_r in Hc. by rewrite Hc, take_drop. }
  set (p3 := p2 <| pmetrics ::= _ |>).
  assert (charges (Acked res ++ Rejected res) p p3) as H3.
  { destruct H2 as [H2 Eq]. split; [|done]. rewrite <- (app_nil_r (_ ++ _)). eapply charged_trans; [apply H2|]. by apply charged_other. }
  clearbody p3. clear p2 H2 Eok. rewrite joinPending_app. set (pend := Retry res ++ drop (Z.to_nat n) (pending d)).
  assert ((Acked res ++ Rejected res) ++ pend ≡ₚ pending d) as Hp.
  { unfold pend. rewrite !app_assoc, <- (app_assoc (Acked res)), <- app_assoc.
    rewrite <- (take_drop (Z.to_nat n) (pending d)) at 2. rewrite <- Hc. by rewrite !app_assoc. }
  assert (forall p', charges pend p3 p' -> exists es, charges es p p' /\ es ++ [] ≡ₚ pending d) as Hdone.
  { intros p4 H4. exists ((Acked res ++ Rejected res) ++ pend). rewrite app_nil_r. split; [by eapply charges_trans|done]. }
  destruct (zlen pend =? 0) eqn:Ez.
  { intros [= <- <-]. exists (Acked res ++ Rejected res). split; [done|]. bool_prop. destruct pend; [|done]. done. }
  destruct (rStopping r || _ || _).
  { intros [= <- <-]. apply Hdone, abandon_charges. }
  destruct (_ && _).
  { intros [= <- <-]. apply Hdone. split; [|done]. apply charged_drop. unfold reasons. set_solver. }
  destruct (rateLimitDelay (Err res)) as [delay|].
  { intros [= <- <-]. exists (Acked res ++ Rejected res). by split. }
  destruct (waitOrAbandon (rBackoff r) pend p3) as [p4 go] eqn:Ew. intros [= <- <-].
  apply wait_charges in Ew as [[-> ->]|[-> Hw]]; [|by apply Hdone]. exists (Acked res ++ Rejected res). by split.
Qed.

(** ** Histories *)

Inductive op :=
| OpPoll (name : string) (result : option (list (LogRecord * Time)))
| OpPush (name : string) (r : LogRecord) (now : Time)
| OpSelf (e : Entry) (now : Time)
| OpDrain (now : Time)
| OpRound (r : round)
| OpClose.

(** The pipeline with the batch the emitter holds; what was submitted to the gate, and
    what of it the queue, being closed, took no notice of. *)
Record trail := mkTrail { pipe : pipeline; inflight : option delivery; submitted : list Entry; ignored : list Entry }.

Definition oversize (e : Entry) : bool := (0 <? MaxRecordBytes cfg) && (MaxRecordBytes cfg <? recordBytes (eRecord e)).

Definition submissions (o : op) : list Entry :=
  match o with
  | OpPoll name (Some rs) => map (fun rt => mkEntry name (sanitized rt.1) zero_time) rs
  | OpPush name r _ => [mkEntry (push_source name r) (sanitized r) zero_time]
  | OpSelf e _ => [e <| eRecord ::= sanitized |>]
  | _ => []
  end.

Definition unnoticed (p : pipeline) (es : list Entry) : list Entry :=
  if closed (pqueue p) then List.filter (fun e => negb (oversize e)) es else [].

(** The producers' steps, the two halves of [runEmitter]'s loop, and [queue.close]. *)
Definition step_pipe (o : op) (p : pipeline) (d : option delivery) : pipeline * option delivery :=
  match o, d with
  | OpPoll name result, _ => (pollOnce name result p, d)
  | OpPush name r now, _ => (push_emit name r now p, d)
  | OpSelf e now, _ => ((self_emit e now p).1, d)
  | OpDrain now, None =>
      match drainUpTo (BatchMax cfg) (exportByteBound cfg) (pqueue p) with
      | Some (batch, true, q) => let p := p <| pqueue := q |> in (p, Some (startDelivery now batch p))
      | _ => (p, None)
      end
  | OpRound r, Some d => if zlen (pending d) <=? 0 then (ship_end d p, None) else ship_round r d p
  | OpClose, _ => (p <| pqueue ::= close |>, d)
  | _, _ => (p, d)
  end.

Definition step (t : trail) (o : op) : trail :=
  let '(p, d) := step_pipe o (pipe t) (inflight t) in
  mkTrail p d (submitted t ++ submissions o) (ignored t ++ unnoticed (pipe t) (submissions o)).

Definition run (s : S) (os : list op) : trail := fold_left step os (mkTrail (newPipeline s) None [] []).

(** What a source's entries have come to, but for the batch in flight. *)
Definition queued (s : string) (p : pipeline) : Z := by_source s (map entry (qbuf (pqueue p))).
Definition balance (s : string) (p : pipeline) : Z := accounted (pmetrics p) s + queued s p.

(** A step of a producer that submits [es]. *)
Record takes (es : list Entry) (p p' : pipeline) : Prop := {
  tk_queue : queue_ok (pqueue p) -> queue_ok (pqueue p');
  tk_closed : closed (pqueue p') = closed (pqueue p);
  tk_console : console_ok (pmetrics p) -> console_ok (pmetrics p');
  tk_balance : queue_ok (pqueue p) -> forall s,
    balance s p' + by_source s (unnoticed p es) = balance s p + by_source s es }.

Lemma unnoticed_eq p p' es : closed (pqueue p') = closed (pqueue p) -> unnoticed p' es = unnoticed p es.
Proof. unfold unnoticed. by intros ->. Qed.

Lemma unnoticed_app p es es' : unnoticed p (es ++ es') = unnoticed p es ++ unnoticed p es'.
Proof. unfold unnoticed. destruct (closed _); [|done]. by rewrite List.filter_app. Qed.

Lemma takes_refl p : takes [] p p.
Proof. split; auto. intros _ s. unfold unnoticed. by destruct (closed _). Qed.

Lemma takes_trans es es' p p' p'' : takes es p p' -> takes es' p' p'' -> takes (es ++ es') p p''.
Proof.
  intros [Q1 C1 O1 B1] [Q2 C2 O2 B2]. split; auto; [congruence|]. intros Hq s. specialize (B1 Hq s). specialize (B2 (Q1 Hq) s).
  rewrite unnoticed_app, !by_source_app. rewrite (unnoticed_eq p p' es' C1) in B2. lia.
Qed.

Lemma takes_other es p p1 m :
  takes es p p1 -> charged [] (pmetrics p1) m -> takes es p (p1 <| pmetrics := m |>).
Proof.
  intros [Q1 C1 O1 B1] [H Hc]. split; cbn [update pqueue pmetrics]; auto. intros Hq s. specialize (B1 Hq s). specialize (H s).
  unfold balance, queued in *. cbn [update pqueue pmetrics]. cbn in H. lia.
Qed.

Lemma enqueue_takes e now p p' x : enqueue e now p = (p', x) -> takes [e] p p'.
Proof.
  unfold enqueue. fold (oversize e). destruct (oversize e) eqn:Eo.
  - intros [= <- <-]. assert (charged [e] (pmetrics p) (pmetrics p <| dropped ::= Inc (eSource e, dropReasonRecordTooLarge) |>
      <| consoleDropped ::= fun n => add64 n 1 |>)) as [H1 H2] by (apply charged_one; unfold reasons; set_solver).
    split; cbn [update pqueue pmetrics]; auto. intros _ s. specialize (H1 s). unfold balance, queued, unnoticed. cbn [update pqueue pmetrics].
    cbn [List.filter]. rewrite Eo. cbn [negb]. rewrite H1. destruct (closed _); cbn; lia.
  - set (e' := e <| Received := now |>). destruct (push e' (pqueue p)) as [q ds] eqn:Ep. intros [= <- <-].
    destruct (charged_overflows ds (pmetrics p)) as [H1 H2].
    assert (closed q = closed (pqueue p)
      /\ (queue_ok (pqueue p) -> queue_ok q /\ forall s, by_source s ds + by_source s (map entry (qbuf q)) + by_source s (unnoticed p [e])
            = by_source s (map entry (qbuf (pqueue p))) + by_source s [e])) as [Hc Hq].
    { destruct (closed (pqueue p)) eqn:Ec.
      - unfold push in Ep. rewrite Ec in Ep. injection Ep as <- <-. split; [done|]. intros Hq. split; [done|]. intros s.
        unfold unnoticed. rewrite Ec. cbn [List.filter]. rewrite Eo. cbn. lia.
      - split; [exact (push_closed e' _ _ _ Ec Ep)|]. intros Hq. pose proof (push_ok e' _ Hq) as Hok. rewrite Ep in Hok. split; [done|].
        destruct (queue_push_spec e' _ Hq Ec) as (d & l & E & Ep' & _). rewrite Ep in Ep'. injection Ep' as -> ->. intros s.
        apply (f_equal (map entry)), (f_equal (by_source s)) in E. rewrite !map_app, !by_source_app in E.
        unfold unnoticed. rewrite Ec. change (by_source s (map entry [mkQueued e' (recordBytes (eRecord e'))])) with (by_source s [e]) in E.
        change (qbuf (with_buf (pqueue p) l)) with l. change (by_source s []) with 0. lia. }
    split; cbn [update pqueue pmetrics]; auto; [by intros [? _]%Hq|]. intros [_ Hb]%Hq s. specialize (Hb s). specialize (H1 s).
    unfold balance, queued. cbn [update pqueue pmetrics]. lia.
Qed.

Lemma poll_takes name rs last p p' x :
  poll_records name rs last p = (p', x) -> takes (map (fun rt => mkEntry name (sanitized rt.1) zero_time) rs) p p'.
Proof.
  revert last p. induction rs as [|[r now] rs IH]; intros last p; cbn [poll_records map].
  { intros [= <- <-]. apply takes_refl. }
  destruct (enqueue _ now p) as [p1 [recv ok]] eqn:E. intros Hr.
  eapply (takes_trans [_]); [by eapply enqueue_takes|by eapply IH].
Qed.

Lemma relax_charges p : charges [] p (relaxShipChunk p).
Proof. unfold relaxShipChunk. case_match_all; by split; [apply charged_refl|]. Qed.

Definition held (d : option delivery) : list Entry := from_option pending [] d.

Record balanced (t : trail) : Prop := {
  bl_queue : queue_ok (pqueue (pipe t));
  bl_console : console_ok (pmetrics (pipe t));
  bl_open : closed (pqueue (pipe t)) = false -> ignored t = [];
  bl_sum : forall s, by_source s (submitted t)
    = balance s (pipe t) + by_source s (held (inflight t)) + by_source s (ignored t) }.

(** A producer's step keeps the balance. *)
Lemma balanced_takes t es p' :
  balanced t -> takes es (pipe t) p' ->
  balanced (mkTrail p' (inflight t) (submitted t ++ es) (ignored t ++ unnoticed (pipe t) es)).
Proof.
  intros [Q C O B] [Q1 C1 O1 B1]. split; cbn [pipe inflight submitted ignored]; auto.
  - rewrite C1. intros Hc. rewrite (O Hc). unfold unnoticed. by rewrite Hc.
  - intros s. specialize (B s). specialize (B1 Q s). rewrite !by_source_app. lia.
Qed.

(** So does a step of the emitter that charges what it lets go. *)
Lemma balanced_charges t es p' d' :
  balanced t -> charges es (pipe t) p' -> es ++ held d' ≡ₚ held (inflight t) ->
  balanced (mkTrail p' d' (submitted t ++ []) (ignored t ++ unnoticed (pipe t) [])).
Proof.
  intros [Q C O B] [[H1 H2] E] P. assert (unnoticed (pipe t) [] = []) as -> by (unfold unnoticed; by destruct (closed _)).
  rewrite !app_nil_r. split; cbn [pipe inflight submitted ignored]; rewrite ?E; auto.
  intros s. specialize (B s). specialize (H1 s). apply (by_source_perm s) in P. rewrite by_source_app in P.
  unfold balance, queued in *. rewrite E. lia.
Qed.

Lemma push_takes name r now p : takes (submissions (OpPush name r now)) p (push_emit name r now p).
Proof.
  unfold push_emit. cbn [submissions]. destruct (enqueue _ now p) as [p' [recv ok]] eqn:E. apply enqueue_takes in E.
  destruct ok; [|done]. apply takes_other; [done|]. by apply charged_other.
Qed.

Lemma pollOnce_takes name result p : takes (submissions (OpPoll name result)) p (pollOnce name result p).
Proof.
  unfold pollOnce. destruct result as [rs|]; cbn [submissions].
  2:{ apply takes_other; [apply takes_refl|]. by apply charged_other. }
  destruct (poll_records name rs zero_time p) as [p' last] eqn:E. apply poll_takes in E.
  destruct (negb (IsZero last)); [|done]. apply takes_other; [done|]. by apply charged_other.
Qed.

Lemma self_takes e now p : takes (submissions (OpSelf e now)) p (self_emit e now p).1.
Proof. unfold self_emit. cbn [submissions]. destruct (enqueue _ now p) as [p' [recv ok]] eqn:E. by apply enqueue_takes in E. Qed.

(** A drain moves entries from the queue to the batch in flight. *)
Lemma balanced_drain t now :
  balanced t -> balanced (step t (OpDrain now)).
Proof.
  intros Hb. pose proof Hb as [Q C O B]. unfold step, step_pipe. cbn [submissions].
  assert (balanced (mkTrail (pipe t) (inflight t) (submitted t ++ []) (ignored t ++ unnoticed (pipe t) []))) as Hid
    by (apply balanced_takes; [done|apply takes_refl]).
  destruct (inflight t) as [d|] eqn:Ei; [done|].
  destruct (drainUpTo _ _ _) as [[[batch []] q]|] eqn:Ed; try done.
  assert (unnoticed (pipe t) [] = []) as -> by (unfold unnoticed; by destruct (closed _)). rewrite !app_nil_r.
  pose proof (drain_ok _ _ _ _ _ _ Q Ed) as Q'. destruct (qbuf (pqueue (pipe t))) as [|x buf] eqn:Eb.
  { unfold drainUpTo in Ed. rewrite Eb in Ed. by destruct (closed _). }
  destruct (drain_spec (BatchMax cfg) (exportByteBound cfg) _ Q ltac:(by rewrite Eb)) as (n & _ & Ed' & _).
  rewrite Ed' in Ed. injection Ed as <- <-. split; cbn [pipe inflight submitted ignored update pqueue pmetrics]; auto.
  intros s. specialize (B s). unfold balance, queued in *. cbn [update pqueue pmetrics held from_option startDelivery pending].
  change (qbuf (with_buf (pqueue (pipe t)) (drop n (qbuf (pqueue (pipe t)))))) with (drop n (qbuf (pqueue (pipe t)))).
  rewrite <- (take_drop n (qbuf (pqueue (pipe t)))) in B at 1. rewrite map_app, by_source_app in B. cbn in B. lia.
Qed.

Lemma balanced_round t r : balanced t -> balanced (step t (OpRound r)).
Proof.
  intros Hb. unfold step, step_pipe. cbn [submissions].
  destruct (inflight t) as [d|] eqn:Ei; [|rewrite <- Ei; apply balanced_takes; [done|apply takes_refl]].
  destruct (zlen (pending d) <=? 0) eqn:Ez.
  - apply (balanced_charges t []); [done| |].
    + unfold ship_end. destruct (limited d); [split; [apply charged_refl|done]|apply relax_charges].
    + rewrite Ei. cbn. bool_prop. unfold zlen in Ez. destruct (pending d); [done|cbn in Ez; lia].
  - destruct (ship_round r d (pipe t)) as [p' d'] eqn:Er. apply ship_round_charges in Er as (es & Hc & Hp).
    apply (balanced_charges t es); [done|done|]. by rewrite Ei.
Qed.

Lemma balanced_step t o : balanced t -> balanced (step t o).
Proof.
  intros Hb. destruct o as [name result|name r now|e now|now|r|].
  - exact (balanced_takes t _ _ Hb (pollOnce_takes name result _)).
  - exact (balanced_takes t _ _ Hb (push_takes name r now _)).
  - exact (balanced_takes t _ _ Hb (self_takes e now _)).
  - by apply balanced_drain.
  - by apply balanced_round.
  - destruct Hb as [Q C O B]. unfold step, step_pipe. cbn [submissions].
    assert (unnoticed (pipe t) [] = []) as -> by (unfold unnoticed; by destruct (closed _)). rewrite !app_nil_r.
    split; cbn [pipe inflight submitted ignored]; try done. by destruct Q.
Qed.

Lemma run_balanced s os : balanced (run s os).
Proof.
  unfold run. set (t := mkTrail _ _ _ _). assert (balanced t) as Hb; [|clearbody t; revert t Hb].
  - split; cbn; [apply new_queue_ok|split; reflexivity|done|done].
  - induction os as [|o os IH]; intros t Hb; [done|]. cbn [fold_left]. apply IH, balanced_step, Hb.
Qed.

(** [C8] No log record is lost without being counted, whatever the interleaving of
    producers, drains and delivery attempts and whatever a sink that keeps its contract
    answers: for every source, the records submitted to the gate are those queued, those
    in the batch in flight, those counted as shipped and those counted as dropped under
    one of the five reasons, and the ones submitted after the queue was closed.  The
    console's totals are the sums of the counters. *)
Theorem pipeline_account s os src :
  let t := run s os in
  let m := pmetrics (pipe t) in
  by_source src (submitted t)
    = by_source src (map entry (qbuf (pqueue (pipe t)))) + by_source src (held (inflight t))
      + count src (shipped m) + lsum (fun r => count (src, r) (dropped m)) reasons + by_source src (ignored t)
  /\ (closed (pqueue (pipe t)) = false -> ignored t = [])
  /\ consoleShipped m ==64 msum (fun _ n => n) (shipped m)
  /\ consoleDropped m ==64 msum (fun _ n => n) (dropped m).
Proof.
  cbv zeta. destruct (run_balanced s os) as [Q [C1 C2] O B]. split; [|done]. specialize (B src).
  unfold balance, accounted, queued in B. lia.
Qed.

(** ** A batch ends *)

Lemma ship_loop_charges fuel env i d p p' : ship_loop fuel env i d p = Some p' -> charges (pending d) p p'.
Proof.
  revert i d p. induction fuel as [|fuel IH]; intros i d p; cbn [ship_loop]; [done|].
  destruct (zlen (pending d) <=? 0) eqn:Ez.
  - intros [= <-]. unfold zlen in Ez. destruct (pending d); [|cbn in Ez; bool_prop; lia].
    unfold ship_end. destruct (limited d); [split; [apply charged_refl|done]|apply relax_charges].
  - destruct (ship_round (env i) d p) as [p1 [d1|]] eqn:Er; apply ship_round_charges in Er as (es & [H1 E1] & P); cbn [from_option] in P.
    + intros [H2 E2]%IH. split; [|congruence]. eapply charged_perm; [exact P|]. by eapply charged_trans.
    + intros [= <-]. rewrite app_nil_r in P. split; [|done]. by eapply charged_perm.
Qed.

Definition pace_ok (d : delivery) : Prop := pace d = 0 \/ 100 * Millisecond <= pace d.

(** How a round that goes on leaves the loop's variables. *)
Lemma ship_round_goes_on r d p p' d' :
  pending d <> [] -> pace_ok d -> ship_round r d p = (p', Some d') ->
  pace_ok d' /\ deadline d' = deadline d
  /\ (0 < pace d -> rPace r = ProducersDone false \/ exists b, rPace r = TimerFired false b)
  /\ ((length (pending d') < length (pending d))%nat /\ attempt d' = attempt d /\ (0 < pace d' -> 0 < pace d)
      \/ (length (pending d') <= length (pending d))%nat /\ attempt d' = attempt d + 1
         /\ (0 < ShipMaxAttempts cfg -> attempt d' < ShipMaxAttempts cfg)
         /\ rStopping r = false /\ rNow' r < deadline d
         /\ (0 < pace d'
             \/ pace d' = pace d /\ (rBackoff r = ProducersDone false \/ exists b, rBackoff r = TimerFired false b))).
Proof.
  intros Hne Hp. unfold ship_round. destruct (ended_by (rNow r) d); [done|].
  destruct (if 0 <? pace d then _ else _) as [p1 go] eqn:Ew. destruct go; [|done]. cbn [negb].
  assert (0 < pace d -> rPace r = ProducersDone false \/ exists b, rPace r = TimerFired false b) as Hw.
  { intros Hpos. replace (0 <? pace d) with true in Ew by (symmetry; zbool). unfold waitOrAbandon in Ew.
    destruct (rPace r) as [|[]|[] b]; try done; eauto. }
  clear Ew. assert (1 <= next_size d <= zlen (pending d)) as Hn.
  { unfold next_size. assert (1 <= zlen (pending d)) by (unfold zlen; destruct (pending d); [done|cbn; lia]).
    destruct (chunk d <? 1) eqn:E1; [destruct (zlen (pending d) <? 1) eqn:E2|destruct (zlen (pending d) <? chunk d) eqn:E2]; bool_prop; lia. }
  pose proof (Emit_covers (sink p1) (rAnswer r) (take (Z.to_nat (next_size d)) (pending d))) as Hc.
  destruct (Emit _ _ _) as [s res]. cbn [snd] in Hc. unfold covers in Hc. apply Permutation_length in Hc.
  rewrite !length_app, length_take in Hc. unfold zlen in Hn. cbv zeta. destruct (_ && _).
  { intros [= <- <-]. unfold pace_ok. cbn [update pace deadline pending attempt]. rewrite length_drop. unfold relax_pace.
    assert (0 < Z.quot (pace d) 2 -> 0 < pace d) as Hq.
    { unfold pace_ok, Millisecond in Hp. destruct Hp as [-> |Hp]; [done|lia]. }
    unfold pace_ok, Millisecond in *.
    destruct (Z.quot (pace d) 2 <? _) eqn:Eq; bool_prop; (split; [lia|split; [done|split; [done|left; split; [lia|split; [done|lia]]]]]). }
  rewrite joinPending_app. set (pend := Retry res ++ _).
  assert (length pend <= length (pending d))%nat as Hl by (unfold pend; rewrite length_app, length_drop; lia).
  clearbody pend. destruct (zlen pend =? 0); [done|]. destruct (rStopping r || rEnded r || _) eqn:Es; [done|].
  bool_prop. unfold ended_by, time_Sub in *. cbn [update deadline] in *. bool_prop.
  destruct ((0 <? ShipMaxAttempts cfg) && _) eqn:Ea; [done|].
  assert (0 < ShipMaxAttempts cfg -> attempt d + 1 < ShipMaxAttempts cfg) as Hmax.
  { intros Hpos. apply andb_false_iff in Ea as [Ea|Ea]; bool_prop; lia. }
  unfold minDuration, maxDuration in *. destruct (rateLimitDelay (Err res)) as [delay|].
  - intros [= <- <-]. unfold pace_ok. cbn [update pace deadline pending attempt limited].
    assert (2 * Second <= pacingFor delay) as Hd by (unfold pacingFor, shipRateLimitPause; destruct (delay <? _) eqn:E; bool_prop; lia).
    unfold Second, Millisecond in *. split; [lia|]. split; [done|]. split; [done|]. right. split; [done|]. split; [done|].
    split; [done|]. split; [done|]. split; [lia|]. left. lia.
  - destruct (waitOrAbandon (rBackoff r) pend _) as [p2 go] eqn:Eb. destruct go; [|done]. intros [= <- <-].
    unfold pace_ok in *. cbn [update pace deadline pending attempt limited].
    split; [done|]. split; [done|]. split; [done|]. right. split; [done|]. split; [done|]. split; [done|]. split; [done|].
    split; [lia|]. right. split; [done|].
    unfold waitOrAbandon in Eb. destruct (rBackoff r) as [|[]|[] b]; try done; eauto.
Qed.

(** Every failed attempt that is not the last counts towards the cap. *)
Lemma ship_loop_attempts fuel env i d p :
  0 < ShipMaxAttempts cfg -> pace_ok d -> 0 <= attempt d ->
  (length (pending d) + Z.to_nat (ShipMaxAttempts cfg - attempt d) < fuel)%nat -> is_Some (ship_loop fuel env i d p).
Proof.
  intros Hmax. revert i d p. induction fuel as [|fuel IH]; intros i d p Hp Ha Hf; [lia|]. cbn [ship_loop].
  destruct (zlen (pending d) <=? 0) eqn:Ez; [done|]. destruct (ship_round (env i) d p) as [p1 [d1|]] eqn:Er; [|done].
  assert (pending d <> []) as Hne by (intros E; rewrite E in Ez; done).
  apply ship_round_goes_on in Er as (Hp1 & _ & _ & [(Hl & E & _)|(Hl & E & Hm & _)]); [| |done|done]; apply IH; try done; lia.
Qed.

(** The clock goes forward; a timer that fired took at least the shortest wait; a
    wait ended by the producers' cancellation, and every round after it, finds them
    cancelled.  (A wait a round does not make is not constrained: [DeliveryDone].) *)
Record clocked (env : nat -> round) : Prop := {
  ck_round : forall i, rNow (env i) <= rNow' (env i);
  ck_next : forall i, rNow' (env i) <= rNow (env (Datatypes.S i));
  ck_pace : forall i b b', rPace (env i) = TimerFired b b' -> rNow (env i) + 100 * Millisecond <= rNow' (env i);
  ck_backoff : forall i b b', rBackoff (env i) = TimerFired b b' ->
    rNow' (env i) + 100 * Millisecond <= rNow (env (Datatypes.S i));
  ck_stop : forall i, rStopping (env i) = true -> rStopping (env (Datatypes.S i)) = true;
  ck_pace_stop : forall i b, rPace (env i) = ProducersDone b -> rStopping (env i) = true;
  ck_backoff_stop : forall i b, rBackoff (env i) = ProducersDone b -> rStopping (env (Datatypes.S i)) = true }.

(** The time left for failures at the start of a round; a pace to wait out is spent. *)
Definition credit (env : nat -> round) (i : nat) (d : delivery) : Z :=
  deadline d - rNow (env i) - (if 0 <? pace d then 100 * Millisecond else 0).

Lemma credit_spends env i d d' :
  clocked env -> rStopping (env i) = false -> deadline d' = deadline d ->
  (0 < pace d -> rPace (env i) = ProducersDone false \/ exists b, rPace (env i) = TimerFired false b) ->
  deadline d - rNow' (env i) <= credit env i d
  /\ credit env (Datatypes.S i) d' <= deadline d - rNow (env (Datatypes.S i)) - (if 0 <? pace d' then 100 * Millisecond else 0).
Proof.
  intros Hck Hs E Hw. unfold credit. rewrite E. split; [|lia]. destruct (0 <? pace d) eqn:Ep.
  - bool_prop. destruct (Hw Ep) as [Hpd|[b Ht]]; [apply (ck_pace_stop _ Hck) in Hpd; congruence|].
    apply (ck_pace _ Hck) in Ht. lia.
  - pose proof (ck_round _ Hck i). lia.
Qed.

Lemma ship_loop_clock env (Hck : clocked env) fuel i d p k :
  pace_ok d -> rStopping (env i) = true \/ credit env i d <= Z.of_nat k * (100 * Millisecond) ->
  (length (pending d) + k < fuel)%nat -> is_Some (ship_loop fuel env i d p).
Proof.
  revert i d p k. induction fuel as [|fuel IH]; intros i d p k Hp Hb Hf; [lia|]. cbn [ship_loop].
  destruct (zlen (pending d) <=? 0) eqn:Ez; [done|]. destruct (ship_round (env i) d p) as [p1 [d1|]] eqn:Er; [|done].
  assert (pending d <> []) as Hne by (intros E; rewrite E in Ez; done).
  apply ship_round_goes_on in Er as (Hp1 & Ed & Hw & Hcase); [|done|done].
  pose proof (ck_next _ Hck i) as Hnext. destruct (rStopping (env i)) eqn:Hs.
  { destruct Hcase as [(Hl & _)|(_ & _ & _ & Hs' & _)]; [|congruence].
    apply (IH _ _ _ k); [done|left; by apply (ck_stop _ Hck)|lia]. }
  destruct Hb as [Hb|Hb]; [done|]. destruct (credit_spends env i d d1 Hck Hs Ed Hw) as [H1 H2].
  destruct Hcase as [(Hl & _ & Hpace)|(Hl & _ & _ & _ & Hlate & Hwait)].
  - apply (IH _ _ _ k); [done|right|lia]. destruct (0 <? pace d1) eqn:E1; bool_prop; [|lia].
    unfold credit in *. replace (0 <? pace d) with true in * by (symmetry; zbool). pose proof (ck_round _ Hck i). lia.
  - assert (1 <= k)%nat as Hk by (unfold Millisecond in *; destruct k; lia).
    apply (IH _ _ _ (k - 1)%nat); [done| |lia]. unfold Millisecond in *.
    destruct Hwait as [Hlim|[Epace [Hstop|[b Ht]]]].
    + right. replace (0 <? pace d1) with true in H2 by (symmetry; zbool). lia.
    + left. by apply (ck_backoff_stop _ Hck) in Hstop.
    + right. apply (ck_backoff _ Hck) in Ht. unfold Millisecond in Ht. destruct (0 <? pace d1); lia.
Qed.

(** [C9] Shipping a batch ends, with every entry of it counted exactly once: with an
    attempt cap after at most one round for each entry and each allowed attempt, whatever
    the sink and the clock do; and without one, if the clock goes forward and timers take
    their time, after at most one for each entry and each 100 ms of the delivery window. *)
Theorem ship_terminates env now batch p :
  (0 < ShipMaxAttempts cfg ->
   exists p', shipBatch (Datatypes.S (length batch + Z.to_nat (ShipMaxAttempts cfg))) env now batch p = Some p'
     /\ charged batch (pmetrics p) (pmetrics p') /\ pqueue p' = pqueue p)
  /\ (clocked env /\ now <= rNow (env 0%nat) ->
   exists p', shipBatch (Datatypes.S (length batch + Z.to_nat (maxElapsed / (100 * Millisecond) + 1))) env now batch p = Some p'
     /\ charged batch (pmetrics p) (pmetrics p') /\ pqueue p' = pqueue p).
Proof.
  assert (0 < maxElapsed) as Hm.
  { unfold maxElapsed. destruct (ShipMaxElapsed cfg <=? 0) eqn:E; bool_prop; [done|lia]. }
  unfold shipBatch. set (d := startDelivery now batch p). assert (pace_ok d) as Hp by (by left).
  split.
  - intros Ha. destruct (ship_loop_attempts (Datatypes.S (length batch + Z.to_nat (ShipMaxAttempts cfg))) env 0 d p Ha Hp) as [p' E];
      [done|cbn; lia|]. exists p'. split; [done|]. by apply ship_loop_charges in E.
  - intros [Hck Hnow].
    destruct (ship_loop_clock env Hck (Datatypes.S (length batch + Z.to_nat (maxElapsed / (100 * Millisecond) + 1))) 0 d p
                (Z.to_nat (maxElapsed / (100 * Millisecond) + 1)) Hp) as [p' E]; [|cbn; lia|].
    + right. unfold credit. cbn [d startDelivery deadline pace]. unfold time_Add. change (0 <? 0) with false. cbn match.
      unfold Millisecond in *. zdiv.
    + exists p'. split; [done|]. by apply ship_loop_charges in E.
Qed.

End Run.

Lemma splitChunk_shrinks n : 2 <= n -> 1 <= splitChunk n < n.
Proof.
  intros Hn. unfold splitChunk, shipRateLimitMinChunk. rewrite Z.quot_div_nonneg by lia.
  destruct (n / 2 <? 32) eqn:E1; [destruct (n <=? 32) eqn:E2|]; bool_prop; zdiv.
Qed.

Lemma shipBackoff_range n : shipRetryBase <= shipBackoff n <= shipRetryMax.
Proof.
  unfold shipBackoff. set (k := if n <? 1 then 1 else n).
  assert (1 <= k) by (unfold k; destruct (n <? 1) eqn:E; bool_prop; lia). clearbody k.
  destruct (8 <? k) eqn:E; [done|]. bool_prop. rewrite Z.shiftl_mul_pow2 by lia.
  assert (1 <= 2 ^ (k - 1)) by (pose proof (Z.pow_pos_nonneg 2 (k - 1)); lia).
  unfold shipRetryBase, shipRetryMax, Second, Millisecond. destruct (_ <? _ * _) eqn:E'; bool_prop; lia.
Qed.

(** ** A batch through the stdout sink *)

Definition demo_cfg : LogsConfig := mkConfig 10 100 0 1000 0 0 (500 * Millisecond).
Definition demo_entry (src body : string) : Entry := mkEntry src (mkLog unix_epoch body ∅ SeverityInfo "") unix_epoch.
Definition demo_pipeline : @pipeline stdoutSink := newPipeline demo_cfg newStdoutSinkTo.

(** Rounds 100 ms apart, with a writer that fails at the start. *)
Definition demo_env (i : nat) : round :=
  let t := unix_epoch + Z.of_nat i * (100 * Millisecond) in
  mkRound t (DeliveryDone false) (fun _ => (t, if (i <? 3)%nat then Some (ErrText "write: broken pipe") else None))
    t false false t (TimerFired false false) false.

Lemma ship_terminates_witness :
  exists p', shipBatch demo_cfg 9 demo_env unix_epoch [demo_entry "syslog" "one"; demo_entry "flow" "two"] demo_pipeline = Some p'
    /\ charged [demo_entry "syslog" "one"; demo_entry "flow" "two"] (pmetrics demo_pipeline) (pmetrics p')
    /\ pqueue p' = pqueue demo_pipeline.
Proof.
  apply (proj2 (ship_terminates demo_cfg demo_env unix_epoch [demo_entry "syslog" "one"; demo_entry "flow" "two"] demo_pipeline)).
  split; [|reflexivity].
  split; unfold demo_env; cbn [rNow rNow' rPace rBackoff rStopping]; unfold Second, Millisecond; intros; try lia; discriminate.
Defined.

(** A poll of two records, one of them too large, drained and shipped. *)
Definition demo_run : list (op (S := stdoutSink)) :=
  [OpPoll "ids" (Some [(mkLog unix_epoch "alert" {["opnsense.source" := "forged"; "k" := "v"]} SeverityWarn "", unix_epoch);
                       (mkLog unix_epoch (String.concat "" (replicate 1000 "x")) ∅ SeverityWarn "", unix_epoch)]);
   OpDrain unix_epoch; OpRound (demo_env 3); OpRound (demo_env 3); OpClose].

Example demo_account :
  let t := run demo_cfg newStdoutSinkTo demo_run in
  let m := pmetrics (pipe t) in
  (count "ids" (shipped m), count ("ids", dropReasonRecordTooLarge) (dropped m), consoleShipped m, consoleDropped m)
    = (1, 1, 1, 1)
  /\ map lnAttributes (written (sink (pipe t))) = [{["k" := "v"]}].
Proof. vm_compute. by split. Qed.

End Pipeline.
