(* ===== verification/OtlpSink.v ===== *)
(** * The OTLP log sink ([logship/sink_otlp.go])

    One resource per combination of the hoisted attributes, one request per resource and
    batch, and the classification of what the destination answered.  The SDK's exporter
    and the wire are the surroundings: for each request they give the exchanges the
    transport hook saw and the error the exporter returned. *)

From stdpp Require Import base decidable list gmap strings sorting.
From Stdlib Require Import ZArith Lia Ascii.
From S2P Require Import Prelude Netip Order GoStrings LogQueue LogSink.
Import Queue LogSink.

Module Otlp.

(** ** What the transport hook observed *)

Inductive deliveryOutcome :=
| outcomeUnknown | outcomeAccepted | outcomePartial | outcomePermanent | outcomeRetryable | outcomeRateLimited.

Record deliveryObservation := mkObs { outcome : deliveryOutcome; rejected : Z; obsRetryAfter : Duration }.

Definition obs_new : deliveryObservation := mkObs outcomeUnknown 0 0.
Definition record (o : deliveryOutcome) (n : Z) (_ : deliveryObservation) : deliveryObservation := mkObs o n 0.
Definition recordRateLimited (d : Duration) (_ : deliveryObservation) : deliveryObservation := mkObs outcomeRateLimited 0 d.
Definition throttle (o : deliveryObservation) : Duration := obsRetryAfter o.
Definition obs_result (o : deliveryObservation) : deliveryOutcome * Z := (outcome o, rejected o).

(** A decoded [partial_success]: the rejected count and the message. *)
Definition partialSuccess : Type := Z * string.

(** What the hook reads of an HTTP response.  [bodyLen] is what [io.ReadAll] of the
    limited reader returned, [decoded] what [proto.Unmarshal] makes of it. *)
Record http_response := mkResponse {
  StatusCode : Z; RetryAfter : string; hasBody : bool; bodyLen : option Z; ContentType : string;
  decoded : option (option partialSuccess) }.

Definition maxObservedResponseBytes : Z := 2 ^ 20.

Definition observeHTTPSuccessBody (resp : http_response) : deliveryOutcome * Z :=
  if negb (hasBody resp) then (outcomeAccepted, 0)
  else
    match bodyLen resp with
    | None => (outcomeAccepted, 0)
    | Some len =>
        if (len =? 0) || (maxObservedResponseBytes <=? len) then (outcomeAccepted, 0)
        else if negb (str_eq (ContentType resp) "application/x-protobuf") then (outcomeAccepted, 0)
        else
          match decoded resp with
          | None | Some None => (outcomeAccepted, 0)
          | Some (Some (n, msg)) =>
              if (n =? 0) && str_empty msg then (outcomeAccepted, 0) else (outcomePartial, n)
          end
    end.

Definition maxRetryAfter : Duration := 30 * Second.
Definition clampRetryAfter (d : Duration) : Duration := if maxRetryAfter <? d then maxRetryAfter else d.

(** [strconv.Atoi] on a 64-bit platform. *)
Definition Atoi (s : string) : option Z :=
  let digits s limit := match s with EmptyString => None | _ => parse_digits limit 0 s end in
  match s with
  | String "-"%char s => option_map Z.opp (digits s (2 ^ 63))
  | String "+"%char s => digits s (2 ^ 63 - 1)
  | _ => digits s (2 ^ 63 - 1)
  end.

(** gRPC status codes. *)
Inductive code :=
| OK | Canceled | Unknown | InvalidArgument | DeadlineExceeded | NotFound | AlreadyExists | PermissionDenied
| ResourceExhausted | FailedPrecondition | Aborted | OutOfRange | Unimplemented | Internal | Unavailable
| DataLoss | Unauthenticated.

(** One exchange with the destination: a round trip with the clock after it, [None]
    being one that failed without a response; or a unary call. *)
Inductive exchange :=
| RoundTrip (resp : option http_response) (now : Time)
| UnaryCall (reply : option partialSuccess) (status : code).

Section Observe.
(** [http.ParseTime], the date form of [Retry-After]. *)
Variable ParseTime : string -> option Time.

Definition retryAfterDelay (v : string) (now : Time) : Duration :=
  let v := TrimSpace v in
  if str_empty v then 0
  else
    match Atoi v with
    | Some secs => if secs <=? 0 then 0 else clampRetryAfter (s64 (secs * Second))
    | None =>
        match ParseTime v with
        | Some t => let d := time_Sub t now in if 0 <? d then clampRetryAfter d else 0
        | None => 0
        end
    end.

(** [observingTransport.RoundTrip]. *)
Definition observe_http (resp : option http_response) (now : Time) (o : deliveryObservation) : deliveryObservation :=
  match resp with
  | None => record outcomeRetryable 0 o
  | Some resp =>
      let st := StatusCode resp in
      if (200 <=? st) && (st <=? 299) then let '(oc, n) := observeHTTPSuccessBody resp in record oc n o
      else if st =? 429 then recordRateLimited (retryAfterDelay (RetryAfter resp) now) o
      else if (st =? 502) || (st =? 503) || (st =? 504) then record outcomeRetryable 0 o
      else record outcomePermanent 0 o
  end.

(** [observingUnaryInterceptor]. *)
Definition observe_grpc (reply : option partialSuccess) (status : code) (o : deliveryObservation) : deliveryObservation :=
  let by_code :=
    match status with
    | OK => record outcomeAccepted 0 o
    | ResourceExhausted => recordRateLimited 0 o
    | Canceled | DeadlineExceeded | Aborted | OutOfRange | Unavailable | DataLoss => record outcomeRetryable 0 o
    | _ => record outcomePermanent 0 o
    end in
  match reply with
  | Some (n, msg) => if negb (n =? 0) || negb (str_empty msg) then record outcomePartial n o else by_code
  | None => by_code
  end.

Definition observe (x : exchange) (o : deliveryObservation) : deliveryObservation :=
  match x with
  | RoundTrip resp now => observe_http resp now o
  | UnaryCall reply status => observe_grpc reply status o
  end.

Definition observe_all (xs : list exchange) : deliveryObservation := fold_left (fun o x => observe x o) xs obs_new.

(** ** The verdict on a partition *)

Definition classifyPartition (entries : list Entry) (obs : deliveryObservation) (err : option error) (res : SinkResult) : SinkResult :=
  if zlen entries =? 0 then res
  else
    let '(oc, rej) := obs_result obs in
    match oc with
    | outcomePartial =>
        let n := rej in
        let n := if n <? 0 then 0 else n in
        let n := if zlen entries <? n then zlen entries else n in
        let split := Z.to_nat (zlen entries - n) in
        res <| Acked ::= fun l => l ++ take split entries |> <| Rejected ::= fun l => l ++ drop split entries |>
            <| Err ::= fun e => Join e err |>
    | outcomePermanent => res <| Rejected ::= fun l => l ++ entries |> <| Err ::= fun e => Join e err |>
    | outcomeRateLimited =>
        res <| Retry ::= fun l => l ++ entries |> <| Err ::= fun e => Join e (Some (rateLimitError (throttle obs) err)) |>
    | outcomeAccepted => res <| Acked ::= fun l => l ++ entries |>
    | outcomeUnknown =>
        match err with
        | None => res <| Acked ::= fun l => l ++ entries |>
        | Some _ => res <| Retry ::= fun l => l ++ entries |> <| Err ::= fun e => Join e err |>
        end
    | outcomeRetryable => res <| Retry ::= fun l => l ++ entries |> <| Err ::= fun e => Join e err |>
    end.

End Observe.

(** ** Resources *)

Definition attrSource : string := "opnsense.source".
Definition AttrSubsystem : string := "opnsense.subsystem".
Definition AttrAction : string := "opnsense.action".
Definition AttrDeviceCategory : string := "opnsense.device_category".
Definition AttrInterface : string := "opnsense.interface".

Record resourceKey := mkKey { rkSource : string; subsystem : string; action : string; deviceCategory : string; iface : string }.
#[export] Instance resourceKey_eq_dec : EqDecision resourceKey.
Proof. solve_decision. Defined.
#[export] Instance resourceKey_countable : Countable resourceKey.
Proof.
  refine (inj_countable' (fun k => (rkSource k, subsystem k, action k, deviceCategory k, iface k))
            (fun '(a, b, c, d, e) => mkKey a b c d e) _). by intros [].
Defined.

Definition baseKey : resourceKey := mkKey "" "" "" "" "".

(** A missing attribute reads as the empty string. *)
Definition attr (e : Entry) (k : string) : string := default "" (Attributes (eRecord e) !! k).
Definition keyOf (e : Entry) : resourceKey :=
  mkKey (eSource e) (attr e AttrSubsystem) (attr e AttrAction) (attr e AttrDeviceCategory) (attr e AttrInterface).

Definition key_fields (k : resourceKey) : list string := [rkSource k; subsystem k; action k; deviceCategory k; iface k].
Definition key_lt (a b : resourceKey) : bool := lex_lt str_lt (key_fields a) (key_fields b).
Definition sortResourceKeys (keys : list resourceKey) : list resourceKey := sort_by key_lt keys.

#[export] Instance key_lt_total : StrictTotal key_lt.
Proof.
  split; unfold key_lt.
  - intros a. apply lex_irrefl.
  - intros a b c. apply lex_trans, _.
  - intros [] [] H1 H2. apply lex_total in H1; [by injection H1 as -> -> -> -> ->|apply _|done|done].
Qed.

(** The attributes of a resource besides the base ones: those that are set. *)
Definition resourceAttributes (k : resourceKey) : list (string * string) :=
  List.filter (fun kv => negb (str_empty kv.2))
    [(attrSource, rkSource k); (AttrSubsystem, subsystem k); (AttrAction, action k);
     (AttrDeviceCategory, deviceCategory k); (AttrInterface, iface k)].

(** ** The request *)

(** OTLP severity numbers. *)
Definition otlpSeverity (sv : Severity) : Z :=
  match sv with
  | SeverityTrace => 1 | SeverityDebug => 5 | SeverityWarn => 13 | SeverityError => 17 | SeverityFatal => 21
  | SeverityInfo => 9
  end.
Definition otlpSeverityText (sv : Severity) : string :=
  match sv with
  | SeverityTrace => "TRACE" | SeverityDebug => "DEBUG" | SeverityWarn => "WARN" | SeverityError => "ERROR"
  | SeverityFatal => "FATAL" | SeverityInfo => "INFO"
  end.

Record logRecord := mkRec {
  oTimestamp : Time; oObserved : Time; oBody : string; oSeverity : Z; oSeverityText : string; oAttributes : gmap string string }.

Definition hoisted : list string := [AttrSubsystem; attrSource; AttrAction; AttrDeviceCategory; AttrInterface].

Definition toRecord (now : Time) (e : Entry) : logRecord :=
  let observed := if IsZero (Received e) then now else Received e in
  let ts := Timestamp (eRecord e) in
  let ts := if IsZero ts then observed else ts in
  mkRec ts observed (Body (eRecord e)) (otlpSeverity (lSeverity (eRecord e))) (otlpSeverityText (lSeverity (eRecord e)))
    (filter (fun kv => kv.1 ∉ hoisted) (Attributes (eRecord e))).

(** ** The sink *)

(** A provider is its processor's buffer.  [sent] is the trace of the requests. *)
Record otlpSink := mkOtlp {
  providers : gmap resourceKey (list logRecord); order : list resourceKey; resourceCapped : Z;
  sent : list (resourceKey * list logRecord) }.
#[export] Instance eta_otlpSink : Eta otlpSink := fun s => mkOtlp (providers s) (order s) (resourceCapped s) (sent s).

Definition newOTLPSink : otlpSink := mkOtlp ∅ [] 0 [].

Definition maxLogResources : Z := 256.

(** [loggerFor]: the effective key, or the error of building the resource. *)
Definition loggerFor (build : option error) (key : resourceKey) (s : otlpSink) : otlpSink * (resourceKey + error) :=
  match providers s !! key with
  | Some _ => (s, inl key)
  | None =>
      let '(s, key, found) :=
        if maxLogResources <=? zsize (providers s) + 1 then
          let s := s <| resourceCapped ::= Z.add 1 |> in
          (s, baseKey, bool_decide (is_Some (providers s !! baseKey)))
        else (s, key, false) in
      if found then (s, inl key)
      else
        match build with
        | Some err => (s, inr (ErrWrap "build otlp log resource" err))
        | None => (s <| providers ::= <[key := []]> |> <| order ::= fun l => l ++ [key] |>, inl key)
        end
  end.

(** [syncBatchProcessor.OnEmit] and [export]; an empty buffer makes no request. *)
Definition OnEmit (key : resourceKey) (r : logRecord) (s : otlpSink) : otlpSink :=
  s <| providers ::= fun m => match m !! key with Some buf => <[key := buf ++ [r]]> m | None => m end |>.

Definition export (wire : list logRecord -> list exchange * option error) (key : resourceKey) (s : otlpSink)
  : otlpSink * (list exchange * option error) :=
  match providers s !! key with
  | Some buf =>
      let s := s <| providers ::= <[key := []]> |> in
      match buf with
      | [] => (s, ([], None))
      | _ => (s <| sent ::= fun l => l ++ [(key, buf)] |>, wire buf)
      end
  | None => (s, ([], None))
  end.

(** The surroundings of one [Emit]: the clock, whether building the resource for the
    i-th entry fails, and the wire for the i-th partition. *)
Record otlp_answer := mkAnswer {
  aNow : Time; aBuild : nat -> option error; aWire : nat -> list logRecord -> list exchange * option error }.

(** The first loop of [Emit]: the partitions, their keys in order of appearance, and the
    entries whose resource could not be built. *)
Fixpoint partition_loop (a : otlp_answer) (i : nat) (batch : list Entry) (s : otlpSink)
    (parts : gmap resourceKey (list Entry)) (keys : list resourceKey) (res : SinkResult)
  : otlpSink * gmap resourceKey (list Entry) * list resourceKey * SinkResult :=
  match batch with
  | [] => (s, parts, keys, res)
  | e :: batch =>
      match loggerFor (aBuild a i) (keyOf e) s with
      | (s, inr err) =>
          partition_loop a (S i) batch s parts keys (res <| Retry ::= fun l => l ++ [e] |> <| Err ::= fun x => Join x (Some err) |>)
      | (s, inl eff) =>
          match parts !! eff with
          | Some es => partition_loop a (S i) batch s (<[eff := es ++ [e]]> parts) keys res
          | None => partition_loop a (S i) batch s (<[eff := [e]]> parts) (keys ++ [eff]) res
          end
      end
  end.

Section Emit.
Variable ParseTime : string -> option Time.

Definition noResult : SinkResult := mkResult [] [] [] None.

(** The second loop: buffer the partition's records, flush, classify into a slot. *)
Fixpoint flush_loop (a : otlp_answer) (i : nat) (keys : list resourceKey) (parts : gmap resourceKey (list Entry)) (s : otlpSink)
  : otlpSink * list SinkResult :=
  match keys with
  | [] => (s, [])
  | key :: keys =>
      let entries := default [] (parts !! key) in
      let s := fold_left (fun s e => OnEmit key (toRecord (aNow a) e) s) entries s in
      let '(s, (xs, err)) := export (aWire a i) key s in
      let slot := classifyPartition entries (observe_all ParseTime xs) err noResult in
      let '(s, slots) := flush_loop a (S i) keys parts s in
      (s, slot :: slots)
  end.

Definition merge (res slot : SinkResult) : SinkResult :=
  mkResult (Acked res ++ Acked slot) (Rejected res ++ Rejected slot) (Retry res ++ Retry slot) (Join (Err res) (Err slot)).

Definition otlp_Emit (s : otlpSink) (a : otlp_answer) (batch : list Entry) : otlpSink * SinkResult :=
  match batch with
  | [] => (s, noResult)
  | _ =>
      let '(s, parts, keys, res) := partition_loop a 0 batch s ∅ [] noResult in
      let '(s, slots) := flush_loop a 0 (sortResourceKeys keys) parts s in
      (s, fold_left merge slots res)
  end.

(** [Shutdown]: each provider flushes what it buffered, in the order they were built. *)
Definition otlp_Shutdown (wire : resourceKey -> list logRecord -> list exchange * option error) (s : otlpSink) : otlpSink :=
  let s' := fold_left (fun s k => (export (wire k) k s).1) (order s) s in
  s' <| providers := ∅ |> <| order := [] |>.

End Emit.

(** ** The verdict covers the partition *)

(** A partition of [entries] with nothing else in the slot. *)
Lemma classify_covers entries obs err : covers (classifyPartition entries obs err noResult) entries.
Proof.
  unfold covers, classifyPartition. destruct (zlen entries =? 0) eqn:Ez.
  { unfold zlen in Ez. destruct entries; [done|]. cbn in Ez. bool_prop. lia. }
  unfold obs_result, noResult. destruct (outcome obs); try destruct err as [err|]; unfold update; cbn [Acked Rejected Retry app];
    rewrite ?app_nil_r, ?take_drop; reflexivity.
Qed.

(** ** Routing: the effective key of each entry *)

Fixpoint route (a : otlp_answer) (i : nat) (batch : list Entry) (s : otlpSink) : otlpSink * list (Entry * (resourceKey + error)) :=
  match batch with
  | [] => (s, [])
  | e :: batch =>
      let '(s, k) := loggerFor (aBuild a i) (keyOf e) s in
      let '(s, rs) := route a (S i) batch s in (s, (e, k) :: rs)
  end.

Definition goes_to (k : resourceKey) (x : Entry * (resourceKey + error)) : bool :=
  match x.2 with inl k' => bool_decide (k' = k) | inr _ => false end.
Definition unbuilt (x : Entry * (resourceKey + error)) : bool :=
  match x.2 with inl _ => false | inr _ => true end.

(** The entries routed to a resource, in the order of the batch. *)
Definition routed (k : resourceKey) (rs : list (Entry * (resourceKey + error))) : list Entry :=
  map fst (List.filter (goes_to k) rs).

Definition share (parts : gmap resourceKey (list Entry)) (k : resourceKey) : list Entry := default [] (parts !! k).

Lemma routed_inl e eff k rs : routed k ((e, inl eff) :: rs) = (if decide (eff = k) then [e] else []) ++ routed k rs.
Proof.
  unfold routed. cbn [List.filter goes_to snd]. destruct (decide (eff = k)) as [Hk|Hk];
    [rewrite bool_decide_true by done|rewrite bool_decide_false by done]; done.
Qed.

Lemma partition_loop_spec a i batch s parts keys res s' parts' keys' res' :
  partition_loop a i batch s parts keys res = (s', parts', keys', res') ->
  NoDup keys -> (forall k, k ∈ keys <-> is_Some (parts !! k)) ->
  let '(s1, rs) := route a i batch s in
  s1 = s' /\ NoDup keys' /\ (forall k, k ∈ keys' <-> is_Some (parts' !! k))
  /\ (forall k, share parts' k = share parts k ++ routed k rs)
  /\ (forall k, k ∈ keys' -> k ∈ keys \/ routed k rs <> [])
  /\ Acked res' = Acked res /\ Rejected res' = Rejected res
  /\ Retry res' = Retry res ++ map fst (List.filter unbuilt rs).
Proof.
  revert i s parts keys res. induction batch as [|e batch IH]; intros i s parts keys res; cbn [partition_loop route].
  { intros [= <- <- <- <-] Hnd Hdom. repeat split; try done; try by rewrite ?app_nil_r. all: intros; rewrite ?app_nil_r; try apply Hdom; auto. }
  destruct (loggerFor (aBuild a i) (keyOf e) s) as [s1 [eff|err]].
  - pose proof (routed_inl e eff) as Hrt.
    destruct (parts !! eff) as [es|] eqn:Ep; intros Hl Hnd Hdom.
    + apply IH in Hl; [|done|].
      2:{ intros k. rewrite lookup_insert_is_Some, Hdom. destruct (decide (eff = k)) as [<-|]; [rewrite Ep|]; naive_solver. }
      destruct (route a (S i) batch s1) as [s2 rs]. destruct Hl as (-> & Hnd' & Hdom' & Hsh & Hk & HA & HR & HT).
      repeat split; try done; try apply Hdom'.
      * intros k. rewrite Hsh, Hrt. unfold share. destruct (decide (eff = k)) as [<-|Hne].
        -- rewrite lookup_insert_eq, Ep. cbn. by rewrite <- app_assoc.
        -- by rewrite lookup_insert_ne.
      * intros k Hk'. destruct (Hk k Hk') as [|Hr]; [by left|]. right. rewrite Hrt. destruct (routed k rs); [done|].
        by destruct (decide (eff = k)).
    + apply IH in Hl.
      2:{ apply NoDup_app. split; [done|]. split; [|apply NoDup_singleton]. intros k Hk Hk'%list_elem_of_singleton.
          subst k. apply Hdom in Hk. rewrite Ep in Hk. by destruct Hk. }
      2:{ intros k. rewrite lookup_insert_is_Some, elem_of_app, list_elem_of_singleton, Hdom.
          destruct (decide (eff = k)); naive_solver. }
      destruct (route a (S i) batch s1) as [s2 rs]. destruct Hl as (-> & Hnd' & Hdom' & Hsh & Hk & HA & HR & HT).
      repeat split; try done; try apply Hdom'.
      * intros k. rewrite Hsh, Hrt. unfold share. destruct (decide (eff = k)) as [<-|Hne].
        -- by rewrite lookup_insert_eq, Ep.
        -- by rewrite lookup_insert_ne.
      * intros k Hk'. destruct (Hk k Hk') as [[Hk0|Hk0%list_elem_of_singleton]%elem_of_app|Hr]; [by left| |]; right; rewrite Hrt.
        -- subst k. by rewrite decide_True.
        -- destruct (routed k rs); [done|]. by destruct (decide (eff = k)).
  - intros Hl Hnd Hdom. apply IH in Hl; [|done|done].
    destruct (route a (S i) batch s1) as [s2 rs]. destruct Hl as (-> & Hnd' & Hdom' & Hsh & Hk & HA & HR & HT).
    repeat split; try done; try apply Hdom'. rewrite HT. cbn [update Retry List.filter unbuilt snd map fst].
    by rewrite <- app_assoc.
Qed.

Lemma route_fst a i batch s : map fst (route a i batch s).2 = batch.
Proof.
  revert i s. induction batch as [|e batch IH]; intros i s; cbn [route]; [done|].
  destruct (loggerFor _ _ s) as [s1 k]. specialize (IH (S i) s1). destruct (route a (S i) batch s1) as [s2 rs]. cbn. by f_equal.
Qed.

(** The partitions and the unbuilt entries are the batch. *)
Lemma routed_all rs keys :
  NoDup keys -> (forall k, k ∉ keys -> routed k rs = []) ->
  List.concat (map (fun k => routed k rs) keys) ++ map fst (List.filter unbuilt rs) ≡ₚ map fst rs.
Proof.
  intros Hnd. induction rs as [|[e x] rs IH]; intros Hk.
  { cbn. clear. induction keys as [|k keys IH]; [done|]. cbn. exact IH. }
  destruct x as [k0|err].
  - pose proof (fun k => routed_inl e k0 k rs) as Hrt.
    assert (forall k, k ∉ keys -> routed k rs = []) as Hk'.
    { intros k Hn. specialize (Hk k Hn). rewrite Hrt in Hk. by apply app_nil in Hk as [_ ?]. }
    assert (k0 ∈ keys) as Hin.
    { destruct (decide (k0 ∈ keys)) as [|Hn]; [done|]. specialize (Hk k0 Hn). rewrite Hrt, decide_True in Hk; done. }
    cbn [List.filter unbuilt snd map fst]. rewrite <- (IH Hk'). clear IH Hk Hk'.
    change (e :: List.concat (map (fun k => routed k rs) keys) ++ map fst (List.filter unbuilt rs))
      with ((e :: List.concat (map (fun k => routed k rs) keys)) ++ map fst (List.filter unbuilt rs)).
    f_equiv. apply list_elem_of_split in Hin as (l1 & l2 & ->). apply NoDup_app in Hnd as (_ & Hl1 & Hl2).
    apply NoDup_cons in Hl2 as [Hl2 _].
    assert (forall l, k0 ∉ l -> map (fun k => routed k ((e, inl k0) :: rs)) l = map (fun k => routed k rs) l) as Hsame.
    { intros l Hn. apply map_ext_in. intros k Hk%list_elem_of_In. rewrite Hrt, decide_False; [done|congruence]. }
    rewrite !map_app, !List.concat_app. cbn [map List.concat].
    rewrite Hsame by (intros Hk; apply (Hl1 k0 Hk); set_solver). rewrite Hsame by done.
    rewrite Hrt, decide_True by done. cbn [app].
    by rewrite <- Permutation_middle.
  - cbn [List.filter unbuilt snd map fst]. rewrite <- Permutation_middle. f_equiv. apply IH. exact Hk.
Qed.

(** ** The flushes *)

(** Between batches every buffer is empty. *)
Definition idle (s : otlpSink) : Prop := forall k buf, providers s !! k = Some buf -> buf = [].

Lemma OnEmit_all now key entries s buf :
  providers s !! key = Some buf ->
  fold_left (fun s e => OnEmit key (toRecord now e) s) entries s
  = s <| providers ::= <[key := buf ++ map (toRecord now) entries]> |>.
Proof.
  revert s buf. induction entries as [|e entries IH]; intros s buf Hs; cbn [fold_left map].
  - rewrite app_nil_r. destruct s. unfold update. cbn in *. by rewrite insert_id.
  - rewrite (IH _ (buf ++ [toRecord now e])); unfold OnEmit, update; cbn; rewrite Hs; cbn.
    + by rewrite insert_insert_eq, <- app_assoc.
    + by rewrite lookup_insert_eq.
Qed.

Section Emit.
Variable ParseTime : string -> option Time.

(** What one partition's flush comes to. *)
Definition flushed (a : otlp_answer) (i : nat) (entries : list Entry) : SinkResult :=
  let '(xs, err) := aWire a i (map (toRecord (aNow a)) entries) in
  classifyPartition entries (observe_all ParseTime xs) err noResult.

Lemma flushes_spec a keys parts : forall i s,
  idle s -> NoDup keys -> (forall k, k ∈ keys -> is_Some (providers s !! k) /\ share parts k <> []) ->
  exists s', flush_loop ParseTime a i keys parts s = (s', imap (fun j k => flushed a (i + j) (share parts k)) keys)
    /\ idle s' /\ order s' = order s /\ dom (providers s') = dom (providers s)
    /\ sent s' = sent s ++ map (fun k => (k, map (toRecord (aNow a)) (share parts k))) keys.
Proof.
  induction keys as [|k keys IH]; intros i s Hi Hnd Hk; cbn [flush_loop imap map].
  { exists s. by rewrite app_nil_r. }
  apply NoDup_cons in Hnd as [Hnk Hnd]. destruct (Hk k ltac:(set_solver)) as [[buf Hb] Hne].
  fold (share parts k). rewrite (OnEmit_all _ _ _ _ buf) by done. rewrite (Hi k buf Hb) in *. cbn [app].
  unfold export. cbn [update providers]. rewrite lookup_insert_eq.
  destruct (map (toRecord (aNow a)) (share parts k)) as [|x xs] eqn:Em; [by destruct (share parts k)|]. rewrite <- Em.
  destruct (aWire a i (map (toRecord (aNow a)) (share parts k))) as [ex err] eqn:Ew.
  set (s1 := _ <| sent ::= _ |>). destruct (IH (S i) s1) as (s' & -> & Hi' & Ho & Hd & Hs).
  { intros k' buf'. unfold s1, update. cbn. rewrite insert_insert_eq. destruct (decide (k = k')) as [<-|]; [rewrite lookup_insert_eq; by intros [= <-]|].
    rewrite lookup_insert_ne by done. apply Hi. }
  { done. }
  { intros k' Hk'. destruct (Hk k' ltac:(set_solver)) as [Hp Hs]. split; [|done]. unfold s1, update. cbn. rewrite insert_insert_eq.
    apply lookup_insert_is_Some'. by right. }
  exists s'. split; [|split; [done|split; [done|split]]].
  - do 2 f_equal.
    + unfold flushed. by rewrite Nat.add_0_r, Ew.
    + apply imap_ext. intros j k' _. cbn. by rewrite Nat.add_succ_r.
  - rewrite Hd. unfold s1, update. cbn. rewrite insert_insert_eq, dom_insert_L. apply elem_of_dom_2 in Hb. set_solver.
  - rewrite Hs. unfold s1, update. cbn. by rewrite <- app_assoc.
Qed.

Lemma merge_all slots res :
  let r := fold_left merge slots res in
  Acked r = Acked res ++ List.concat (map Acked slots) /\ Rejected r = Rejected res ++ List.concat (map Rejected slots)
  /\ Retry r = Retry res ++ List.concat (map Retry slots).
Proof.
  cbv zeta. revert res. induction slots as [|x slots IH]; intros res; cbn [fold_left map List.concat]; [by rewrite !app_nil_r|].
  destruct (IH (merge res x)) as (-> & -> & ->). cbn [merge Acked Rejected Retry]. by rewrite <- !app_assoc.
Qed.

(** Slots that cover their shares cover all of them together. *)
Lemma slots_cover slots shares :
  Forall2 covers slots shares ->
  List.concat (map Acked slots) ++ List.concat (map Rejected slots) ++ List.concat (map Retry slots) ≡ₚ List.concat shares.
Proof.
  induction 1 as [|x es slots shares Hc Hf IH]; [done|]. cbn [map List.concat]. rewrite <- IH, <- Hc.
  solve_Permutation.
Qed.

Lemma flush_loop_covers a keys parts : forall i s,
  Forall2 covers (flush_loop ParseTime a i keys parts s).2 (map (share parts) keys).
Proof.
  induction keys as [|k keys IH]; intros i s; cbn [flush_loop map]; [constructor|]. fold (share parts k).
  destruct (export _ _ _) as [s1 [xs err]]. specialize (IH (S i) s1).
  destruct (flush_loop ParseTime a (S i) keys parts s1) as [s2 slots]. constructor; [apply classify_covers|exact IH].
Qed.

(** The sink keeps the contract whatever the wire does. *)
Lemma otlp_covers s a batch : covers (otlp_Emit ParseTime s a batch).2 batch.
Proof.
  unfold otlp_Emit. destruct batch as [|e0 batch0]; [exact (Permutation_refl [])|]. set (batch := e0 :: batch0). clearbody batch. clear e0 batch0.
  destruct (partition_loop a 0 batch s ∅ [] noResult) as [[[s1 parts] keys] res] eqn:Ep.
  apply partition_loop_spec in Ep; [|constructor|intros k; rewrite lookup_empty; split; [by intros ?%elem_of_nil|by intros []]].
  pose proof (route_fst a 0 batch s) as Hr. destruct (route a 0 batch s) as [s1' rs]. cbn [snd] in Hr.
  destruct Ep as (_ & Hnd & Hdom & Hsh & _ & HA & HR & HT).
  pose proof (flush_loop_covers a (sortResourceKeys keys) parts 0 s1) as Hc.
  destruct (flush_loop ParseTime a 0 (sortResourceKeys keys) parts s1) as [s2 slots]. cbn [snd] in Hc |- *.
  unfold covers. destruct (merge_all slots res) as (-> & -> & ->). rewrite HA, HR, HT. cbn [noResult Acked Rejected Retry app].
  rewrite (Permutation_app_comm (map fst _)), !app_assoc, <- (app_assoc (List.concat (map Acked slots))), (slots_cover _ _ Hc).
  assert (sortResourceKeys keys ≡ₚ keys) as Hp by apply sort_by_perm.
  rewrite (map_ext (share parts) (fun k => routed k rs)) by (intros k; rewrite Hsh; unfold share; by rewrite lookup_empty).
  rewrite <- Hr. apply routed_all; [by rewrite Hp|]. intros k Hk. rewrite Hp, Hdom in Hk.
  pose proof (Hsh k) as Hs. unfold share in Hs. rewrite lookup_empty in Hs. cbn in Hs. rewrite <- Hs.
  destruct (parts !! k); [|done]. exfalso. apply Hk. eauto.
Qed.

Definition otlp_is_sink : Sink otlpSink :=
  {| answer := otlp_answer; Emit := otlp_Emit ParseTime; Emit_covers := otlp_covers |}.

(** ** Between batches *)

(** The buffers are empty; the resources are listed, and at most [maxLogResources]. *)
Record sink_ok (s : otlpSink) : Prop := {
  so_idle : idle s;
  so_order : NoDup (order s);
  so_dom : forall k, k ∈ order s <-> is_Some (providers s !! k);
  so_cap : zsize (providers s) < maxLogResources
           \/ zsize (providers s) <= maxLogResources /\ is_Some (providers s !! baseKey) }.

Lemma sink_ok_add s k n :
  sink_ok s -> providers s !! k = None ->
  zsize (providers s) + 1 < maxLogResources \/ k = baseKey /\ zsize (providers s) < maxLogResources ->
  sink_ok (mkOtlp (<[k := []]> (providers s)) (order s ++ [k]) n (sent s)).
Proof.
  intros [Hi Ho Hd _] Hk Hz. split; cbn [providers order].
  - intros k' buf. cbn [providers]. destruct (decide (k = k')) as [<-|]; [rewrite lookup_insert_eq; by intros [= <-]|].
    rewrite lookup_insert_ne by done. apply Hi.
  - apply NoDup_app. split; [done|]. split; [|apply NoDup_singleton]. intros k' Hk' ->%list_elem_of_singleton.
    apply Hd in Hk'. rewrite Hk in Hk'. by destruct Hk'.
  - intros k'. rewrite elem_of_app, list_elem_of_singleton, lookup_insert_is_Some, Hd. destruct (decide (k = k')); naive_solver.
  - rewrite zsize_insert_None by done. destruct Hz as [Hz|[-> Hz]]; [left; lia|right]. split; [lia|].
    rewrite lookup_insert_eq. eauto.
Qed.

(** [loggerFor] files a key under itself, or, when the resources are used up, under the
    base resource. *)
Lemma loggerFor_spec build key s s' r :
  sink_ok s -> loggerFor build key s = (s', r) ->
  sink_ok s' /\ sent s' = sent s /\ (forall k, is_Some (providers s !! k) -> is_Some (providers s' !! k))
  /\ match r with
     | inl eff => is_Some (providers s' !! eff)
         /\ (eff = key \/ eff = baseKey /\ maxLogResources <= zsize (providers s) + 1 /\ providers s !! key = None)
     | inr _ => is_Some build
     end.
Proof.
  intros Hs. unfold loggerFor. destruct (providers s !! key) as [b|] eqn:Ek.
  { intros [= <- <-]. split; [done|]. split; [done|]. split; [done|]. split; [eauto|by left]. }
  destruct (maxLogResources <=? zsize (providers s) + 1) eqn:Ec; bool_prop.
  - cbn [update providers]. destruct (providers s !! baseKey) as [b|] eqn:Eb.
    + rewrite bool_decide_true by eauto. intros [= <- <-]. split; [by destruct Hs|]. split; [done|]. split; [done|].
      split; [cbn; rewrite Eb; eauto|]. right. auto.
    + rewrite bool_decide_false by (intros []; congruence). destruct build as [err|]; intros [= <- <-].
      { split; [by destruct Hs|]. split; [done|]. split; [done|eauto]. }
      split; [refine (sink_ok_add s baseKey (1 + resourceCapped s) Hs Eb _)|].
      { right. split; [done|]. destruct (so_cap _ Hs) as [|[_ [b Hb]]]; [done|congruence]. }
      split; [done|]. cbn [update providers]. split; [intros k [b Hb]; apply lookup_insert_is_Some'; right; eauto|].
      split; [rewrite lookup_insert_eq; eauto|]. right. auto.
  - destruct build as [err|]; intros [= <- <-].
    { split; [done|]. split; [done|]. split; [done|eauto]. }
    split; [refine (sink_ok_add s key (resourceCapped s) Hs Ek _); by left|]. split; [done|]. cbn [update providers].
    split; [intros k [b Hb]; apply lookup_insert_is_Some'; right; eauto|]. split; [rewrite lookup_insert_eq; eauto|by left].
Qed.

(** Where an entry may be filed. *)
Definition filed (s : otlpSink) (e : Entry) (k : resourceKey) : Prop :=
  k = keyOf e \/ k = baseKey /\ maxLogResources <= zsize (providers s) + 1.

Lemma zsize_grows (s s' : otlpSink) :
  (forall k, is_Some (providers s !! k) -> is_Some (providers s' !! k)) -> zsize (providers s) <= zsize (providers s').
Proof.
  intros Hm. unfold zsize. rewrite <- !size_dom. apply inj_le, subseteq_size. intros k. rewrite !elem_of_dom. apply Hm.
Qed.

Lemma route_spec a batch : forall i s s' rs,
  sink_ok s -> route a i batch s = (s', rs) ->
  sink_ok s' /\ sent s' = sent s /\ (forall k, is_Some (providers s !! k) -> is_Some (providers s' !! k))
  /\ (forall e k, (e, inl k) ∈ rs -> is_Some (providers s' !! k) /\ filed s' e k).
Proof.
  induction batch as [|e batch IH]; intros i s s' rs Hs; cbn [route].
  { intros [= <- <-]. split; [done|]. split; [done|]. split; [done|]. by intros e k ?%elem_of_nil. }
  destruct (loggerFor (aBuild a i) (keyOf e) s) as [s1 r] eqn:El. destruct (loggerFor_spec _ _ _ _ _ Hs El) as (Hs1 & E1 & Hm1 & Hr).
  destruct (route a (S i) batch s1) as [s2 rs2] eqn:Er. destruct (IH _ _ _ _ Hs1 Er) as (Hs2 & E2 & Hm2 & Hall).
  intros [= <- <-]. split; [done|]. split; [congruence|]. split; [auto|]. intros e' k [[= -> <-]|Hin]%elem_of_cons; [|by apply Hall].
  destruct Hr as [Hk Hf]. split; [auto|]. destruct Hf as [->|(-> & Hz & _)]; [by left|right]. split; [done|].
  pose proof (zsize_grows s s2). assert (zsize (providers s) <= zsize (providers s2)) by auto. lia.
Qed.

Lemma routed_elem k rs e : e ∈ routed k rs <-> (e, inl k) ∈ rs.
Proof.
  unfold routed. rewrite !list_elem_of_In, in_map_iff. split.
  - intros ([e' x] & <- & [Hin Hg]%List.filter_In). cbn. unfold goes_to in Hg. cbn in Hg. destruct x as [k'|]; [|done].
    by apply bool_decide_eq_true in Hg as ->.
  - intros Hin. exists (e, inl k). split; [done|]. apply List.filter_In. split; [done|]. unfold goes_to. cbn. by apply bool_decide_eq_true.
Qed.

(** The requests of one batch and its result. *)
Lemma emit_spec s a batch :
  sink_ok s -> batch <> [] ->
  let s' := (otlp_Emit ParseTime s a batch).1 in
  let r := (otlp_Emit ParseTime s a batch).2 in
  let rs := (route a 0 batch s).2 in
  sink_ok s' /\ (forall e k, (e, inl k) ∈ rs -> filed s' e k)
  /\ exists ks, NoDup ks /\ StronglySorted (not_after key_lt) ks /\ (forall k, k ∈ ks <-> routed k rs <> [])
    /\ sent s' = sent s ++ map (fun k => (k, map (toRecord (aNow a)) (routed k rs))) ks
    /\ Acked r = List.concat (imap (fun i k => Acked (flushed a i (routed k rs))) ks)
    /\ Rejected r = List.concat (imap (fun i k => Rejected (flushed a i (routed k rs))) ks)
    /\ Retry r = map fst (List.filter unbuilt rs) ++ List.concat (imap (fun i k => Retry (flushed a i (routed k rs))) ks).
Proof.
  intros Hs Hne. unfold otlp_Emit. destruct batch as [|e0 batch0] eqn:Eb; [done|]. rewrite <- Eb. clear Hne Eb e0 batch0.
  destruct (partition_loop a 0 batch s ∅ [] noResult) as [[[s1 parts] keys] res] eqn:Ep.
  apply partition_loop_spec in Ep; [|constructor|intros k; rewrite lookup_empty; split; [by intros ?%elem_of_nil|by intros []]].
  destruct (route a 0 batch s) as [s1' rs] eqn:Er. cbn [snd]. destruct (route_spec _ _ _ _ _ _ Hs Er) as (Hs1 & Esent & Hmono & Hfiled).
  destruct Ep as (-> & Hnd & Hdom & Hsh & Hk & HA & HR & HT).
  assert (sortResourceKeys keys ≡ₚ keys) as Hp by apply sort_by_perm.
  assert (forall k, share parts k = routed k rs) as Hsh' by (intros k; rewrite Hsh; unfold share; by rewrite lookup_empty).
  assert (forall k, k ∈ sortResourceKeys keys <-> routed k rs <> []) as Hks.
  { intros k. rewrite Hp. split; [intros [?%elem_of_nil|]%Hk; done|]. intros Hr. apply Hdom. rewrite <- Hsh' in Hr. unfold share in Hr.
    destruct (parts !! k); [eauto|done]. }
  destruct (flushes_spec a (sortResourceKeys keys) parts 0 s1 (so_idle _ Hs1)) as (s2 & -> & Hi2 & Ho2 & Hd2 & Hs2).
  { by rewrite Hp. }
  { intros k Hin%Hks. rewrite Hsh'. split; [|done]. destruct (routed k rs) as [|e l] eqn:Ek; [done|].
    destruct (Hfiled e k) as [Hf _]; [|done]. apply routed_elem. rewrite Ek. set_solver. }
  destruct (merge_all (imap (fun j k => flushed a (0 + j) (share parts k)) (sortResourceKeys keys)) res) as (EA & ER & ET).
  assert (sink_ok s2) as Hok2.
  { assert (forall k, is_Some (providers s2 !! k) <-> is_Some (providers s1 !! k)) as Hdm by (intros k; by rewrite <- !elem_of_dom, Hd2).
    assert (zsize (providers s2) = zsize (providers s1)) as Hz by (unfold zsize; by rewrite <- !size_dom, Hd2).
    destruct Hs1 as [H1 H2 H3 H4]. split; [done|by rewrite Ho2|intros k; by rewrite Ho2, Hdm|by rewrite Hz, Hdm]. }
  cbn [fst snd]. split; [done|]. split.
  { intros e k Hin. destruct (Hfiled e k Hin) as [_ [->|[-> Hz]]]; [by left|right]. split; [done|].
    assert (zsize (providers s2) = zsize (providers s1)) as -> by (unfold zsize; by rewrite <- !size_dom, Hd2). done. }
  exists (sortResourceKeys keys). split; [by rewrite Hp|]. split; [apply sort_by_sorted, _|]. split; [done|].
  rewrite EA, ER, ET, HA, HR, HT, Hs2, Esent. cbn [noResult Acked Rejected Retry app].
  assert (forall (f : SinkResult -> list Entry) ks, map f (imap (fun j k => flushed a (0 + j) (share parts k)) ks)
           = imap (fun i k => f (flushed a i (routed k rs))) ks) as Hf.
  { intros f ks. rewrite fmap_imap. apply imap_ext. intros j k _. cbn. by rewrite Hsh'. }
  rewrite !Hf. split; [|done]. f_equal. apply map_ext. intros k. by rewrite Hsh'.
Qed.

(** ** Histories *)

Inductive otlp_op :=
| DoEmit (a : otlp_answer) (batch : list Entry)
| DoShutdown (wire : resourceKey -> list logRecord -> list exchange * option error).

Definition otlp_step (s : otlpSink) (o : otlp_op) : otlpSink :=
  match o with
  | DoEmit a batch => (otlp_Emit ParseTime s a batch).1
  | DoShutdown wire => otlp_Shutdown wire s
  end.
Definition otlp_run (os : list otlp_op) : otlpSink := fold_left otlp_step os newOTLPSink.

Lemma otlp_empty_ok s : providers s = ∅ -> order s = [] -> sink_ok s.
Proof.
  intros Ep Eo. split; unfold idle; rewrite ?Ep, ?Eo; [done|constructor| |by left].
  intros k. rewrite lookup_empty. split; [by intros ?%elem_of_nil|by intros []].
Qed.

Lemma otlp_run_ok os : sink_ok (otlp_run os).
Proof.
  unfold otlp_run. induction os as [|o os IH] using rev_ind; [by apply otlp_empty_ok|].
  rewrite fold_left_app. cbn [fold_left]. destruct o as [a batch|wire]; cbn [otlp_step]; [|by apply otlp_empty_ok].
  destruct batch as [|e batch]; [done|]. by apply (emit_spec _ a (e :: batch)).
Qed.

(** Hoisting moves an attribute to the resource, it does not lose it. *)
Lemma hoist_lossless now e name v :
  Attributes (eRecord e) !! name = Some v -> v <> "" -> name <> attrSource ->
  oAttributes (toRecord now e) !! name = Some v \/ (name, v) ∈ resourceAttributes (keyOf e).
Proof.
  intros Hv Hne Hsrc. destruct (decide (name ∈ hoisted)) as [Hh|Hh].
  2:{ left. unfold toRecord. cbn [oAttributes]. by apply map_lookup_filter_Some. }
  right. unfold resourceAttributes. apply list_elem_of_In, List.filter_In. split.
  - unfold hoisted in Hh. unfold keyOf, attr. cbn [rkSource subsystem action deviceCategory iface]. apply list_elem_of_In.
    repeat (apply elem_of_cons in Hh as [->|Hh]; [try done; rewrite Hv; set_solver|]). by apply elem_of_nil in Hh.
  - cbn. apply negb_true_iff. by apply String.eqb_neq.
Qed.


(** ** Errors *)

Lemma observe_all_last xs x : observe_all ParseTime (xs ++ [x]) = observe ParseTime x (observe_all ParseTime xs).
Proof. unfold observe_all. by rewrite fold_left_app. Qed.

Lemma retryAfterDelay_le v now : retryAfterDelay ParseTime v now <= maxRetryAfter.
Proof.
  unfold retryAfterDelay, clampRetryAfter, maxRetryAfter, Second, Millisecond.
  repeat case_match; bool_prop; lia.
Qed.

(** A populated partial success. *)
Definition partial_of (x : exchange) : option Z :=
  match x with
  | RoundTrip (Some resp) _ =>
      if (200 <=? StatusCode resp) && (StatusCode resp <=? 299) then
        match observeHTTPSuccessBody resp with (outcomePartial, n) => Some n | _ => None end
      else None
  | RoundTrip None _ => None
  | UnaryCall (Some (n, msg)) _ => if negb (n =? 0) || negb (str_empty msg) then Some n else None
  | UnaryCall None _ => None
  end.

(** The answers that say that the destination took the request. *)
Definition success (x : exchange) : bool :=
  match x with
  | RoundTrip (Some resp) _ => (200 <=? StatusCode resp) && (StatusCode resp <=? 299)
  | UnaryCall _ OK => true
  | _ => false
  end.
Definition rate_limited (x : exchange) : bool :=
  match x with
  | RoundTrip (Some resp) _ => StatusCode resp =? 429
  | UnaryCall _ ResourceExhausted => true
  | _ => false
  end.
Definition transient (x : exchange) : bool :=
  match x with
  | RoundTrip None _ => true
  | RoundTrip (Some resp) _ => (StatusCode resp =? 502) || (StatusCode resp =? 503) || (StatusCode resp =? 504)
  | UnaryCall _ (Canceled | DeadlineExceeded | Aborted | OutOfRange | Unavailable | DataLoss) => true
  | _ => false
  end.

(** The observation after an exchange, by what the answer was. *)
Lemma observe_cases x o :
  match partial_of x with
  | Some n => observe ParseTime x o = mkObs outcomePartial n 0
  | None =>
      if success x then observe ParseTime x o = mkObs outcomeAccepted 0 0
      else if rate_limited x then exists d, observe ParseTime x o = mkObs outcomeRateLimited 0 d /\ d <= maxRetryAfter
      else if transient x then observe ParseTime x o = mkObs outcomeRetryable 0 0
      else observe ParseTime x o = mkObs outcomePermanent 0 0
  end.
Proof.
  destruct x as [[resp|] now|[[n msg]|] st]; cbn [partial_of success rate_limited transient observe observe_http]; [|done| |].
  - destruct ((200 <=? StatusCode resp) && (StatusCode resp <=? 299)).
    + unfold observeHTTPSuccessBody. repeat case_match; simplify_eq; done.
    + destruct (StatusCode resp =? 429); [|by destruct (_ || _)].
      eexists. split; [reflexivity|apply retryAfterDelay_le].
  - unfold observe_grpc. destruct (negb (n =? 0) || negb (str_empty msg)); [done|].
    destruct st; try done. eexists. split; [reflexivity|done].
  - unfold observe_grpc. destruct st; try done. eexists. split; [reflexivity|done].
Qed.

(** [C40] What a failed delivery leads to, by the last answer the destination gave
    in it.  A partial success is final: as many entries as it names are rejected, the
    others acknowledged, none sent again.  After a success every entry is acknowledged,
    whatever the SDK made of it.  A rate limit (429, RESOURCE_EXHAUSTED) returns all for
    retry with an error that says so and a delay of at most 30 s; a transient failure
    (no response, 502, 503, 504, the retryable codes) returns all for retry.  Any other
    answer rejects all, for good.  Without any answer the exporter's error decides. *)
Theorem delivery_errors entries xs x err (Hne : entries <> []) :
  let r := classifyPartition entries (observe_all ParseTime (xs ++ [x])) err noResult in
  match partial_of x with
  | Some n => Retry r = [] /\ Acked r ++ Rejected r = entries /\ zlen (Rejected r) = Z.max 0 (Z.min n (zlen entries))
  | None =>
      if success x then Acked r = entries /\ Rejected r = [] /\ Retry r = []
      else if rate_limited x then
        Retry r = entries /\ Acked r = [] /\ Rejected r = [] /\ exists d, rateLimitDelay (Err r) = Some d /\ d <= 30 * Second
      else if transient x then
        Retry r = entries /\ Acked r = [] /\ Rejected r = [] /\ rateLimitDelay (Err r) = rateLimitDelay err
      else Rejected r = entries /\ Acked r = [] /\ Retry r = []
  end
  /\ (let r0 := classifyPartition entries (observe_all ParseTime []) err noResult in
     match err with
     | None => Acked r0 = entries /\ Rejected r0 = [] /\ Retry r0 = []
     | Some _ => Retry r0 = entries /\ Acked r0 = [] /\ Rejected r0 = []
     end).
Proof.
  cbv zeta. assert (zlen entries =? 0 = false) as Hz by (unfold zlen; destruct entries; [done|cbn; zbool]).
  split; [|unfold classifyPartition; rewrite Hz; destruct err; done].
  rewrite observe_all_last. pose proof (observe_cases x (observe_all ParseTime xs)) as Ho.
  unfold classifyPartition. rewrite Hz. destruct (partial_of x) as [n|].
  - rewrite Ho. unfold update. cbn [obs_result outcome rejected Acked Rejected Retry noResult app].
    split; [done|]. rewrite take_drop. split; [done|]. unfold zlen in *. rewrite length_drop.
    destruct (n <? 0) eqn:E1; bool_prop; case_match; bool_prop; lia.
  - destruct (success x); [by rewrite Ho|]. destruct (rate_limited x).
    { destruct Ho as (d & -> & Hd). unfold update. cbn. split; [done|]. split; [done|]. split; [done|]. by exists d. }
    destruct (transient x); rewrite Ho; [|done]. unfold update. cbn. split; [done|]. split; [done|]. split; [done|].
    destruct err as [err|]; [|done]. cbn. by destruct (asRateLimit err).
Qed.

End Emit.

Lemma delivery_errors_witness :
  let e := mkEntry "syslog" (mkLog unix_epoch "x" ∅ SeverityInfo "") unix_epoch in
  let x := RoundTrip (Some (mkResponse 429 "7" false None "" None)) unix_epoch in
  let r := classifyPartition [e] (observe_all (fun _ => None) ([RoundTrip None unix_epoch] ++ [x])) None noResult in
  Retry r = [e] /\ rateLimitDelay (Err r) = Some (7 * Second).
Proof.
  cbv zeta. set (e := mkEntry _ _ _).
  pose proof (proj1 (delivery_errors (fun _ => None) [e] [RoundTrip None unix_epoch]
    (RoundTrip (Some (mkResponse 429 "7" false None "" None)) unix_epoch) None ltac:(discriminate))) as H.
  split; [exact (proj1 H)|]. vm_compute. reflexivity.
Defined.

(** A delay that does not fit in a Duration wraps before it is clamped: a server that
    asks for 585 years is read as asking for 290 ms. *)
Example retry_after_wraps : retryAfterDelay (fun _ => None) "18446744074" unix_epoch = 290448384.
Proof. vm_compute. reflexivity. Qed.

(** Once the resources are used up, entries of different sources share the base
    resource, and so a partition: the one a partial success is booked on need not be of
    the source the server rejected. *)
Lemma capped_mixes PT s now wire e1 e2 :
  maxLogResources <= zsize (providers s) + 1 -> providers s !! baseKey = Some [] ->
  providers s !! keyOf e1 = None -> providers s !! keyOf e2 = None ->
  let a := mkAnswer now (fun _ => None) (fun _ recs => ([UnaryCall (Some (1, "")) OK], wire recs)) in
  let r := (otlp_Emit PT s a [e1; e2]).2 in
  Acked r = [e1] /\ Rejected r = [e2].
Proof.
  intros Hz Hb H1 H2. cbv zeta. unfold otlp_Emit. cbn [partition_loop aBuild].
  assert (forall s e, maxLogResources <= zsize (providers s) + 1 -> providers s !! baseKey = Some [] ->
            providers s !! keyOf e = None -> loggerFor None (keyOf e) s = (s <| resourceCapped ::= Z.add 1 |>, inl baseKey)) as Hl.
  { intros s' e Hz' Hb' He. unfold loggerFor. rewrite He. replace (maxLogResources <=? _) with true by (symmetry; zbool).
    cbn [update providers]. rewrite bool_decide_true by (rewrite Hb'; eauto). done. }
  rewrite Hl by done. rewrite lookup_empty, Hl by done. rewrite lookup_insert_eq. cbn [partition_loop app].
  assert (sortResourceKeys [baseKey] = [baseKey]) as -> by reflexivity. cbn [flush_loop]. rewrite insert_insert_eq, lookup_insert_eq.
  cbn [default]. rewrite (OnEmit_all _ _ _ _ []) by done. unfold export. cbn [update providers]. rewrite lookup_insert_eq. done.
Qed.

(** ** The worker pool of a flush

    The tokens of the channel are exporter indices; a flush holds one from its start to
    its end.  Flushes start in the order of the partitions, and end in any order. *)
Record pool := mkPool { tokens : list nat; running : list (nat * nat); started : nat }.

Definition poolSize (concurrency : Z) (partitions : nat) : nat :=
  let n := if concurrency <? 1 then 1 else concurrency in
  if Z.of_nat partitions <? n then partitions else Z.to_nat n.

Definition newPool (concurrency : Z) (partitions : nat) : pool := mkPool (seq 0 (poolSize concurrency partitions)) [] 0.

Inductive pool_step (partitions : nat) : pool -> pool -> Prop :=
| PoolStart tok ts rs n : (n < partitions)%nat ->
    pool_step partitions (mkPool (tok :: ts) rs n) (mkPool ts (rs ++ [(n, tok)]) (S n))
| PoolDone ts l1 l2 slot tok n :
    pool_step partitions (mkPool ts (l1 ++ (slot, tok) :: l2) n) (mkPool (ts ++ [tok]) (l1 ++ l2) n).

Definition pool_ok (size : nat) (p : pool) : Prop :=
  tokens p ++ map snd (running p) ≡ₚ seq 0 size /\ NoDup (map fst (running p))
  /\ Forall (fun x => x.1 < started p)%nat (running p).

Lemma pool_step_ok size partitions p p' : pool_ok size p -> pool_step partitions p p' -> pool_ok size p'.
Proof.
  intros (Hp & Hn & Hf) Hs. destruct Hs as [tok ts rs n Hlt|ts l1 l2 slot tok n]; unfold pool_ok in *; cbn [tokens running started] in *.
  - split; [|split].
    + rewrite <- Hp, map_app. cbn. solve_Permutation.
    + rewrite map_app. apply NoDup_app. split; [done|]. split; [|apply NoDup_singleton]. cbn.
      intros x Hx ->%list_elem_of_singleton. apply list_elem_of_In, in_map_iff in Hx as ([i t] & <- & Hin).
      rewrite Forall_forall in Hf. apply list_elem_of_In, Hf in Hin. cbn in Hin. lia.
    + apply Forall_app. split; [eapply Forall_impl; [exact Hf|]; cbn; lia|]. repeat constructor.
  - rewrite map_app in *. cbn in *. split; [|split].
    + rewrite <- Hp. solve_Permutation.
    + apply NoDup_app in Hn as (H1 & H2 & H3). apply NoDup_cons in H3 as [_ H3]. rewrite map_app. apply NoDup_app. set_solver.
    + apply Forall_app in Hf as [H1 H2]. apply Forall_cons in H2 as [_ H2]. by apply Forall_app.
Qed.

(** No two concurrent flushes share an exporter or a partition, at most as many
    run as the sink may run, and as long as a partition is left to flush a step can be
    made, whatever the order in which flushes end. *)
Theorem pool_exclusive concurrency partitions p (Hreach : rtc (pool_step partitions) (newPool concurrency partitions) p) :
  NoDup (map snd (running p)) /\ NoDup (map fst (running p))
  /\ Forall (fun tok => Z.of_nat tok < Z.max 1 concurrency) (map snd (running p))
  /\ Z.of_nat (length (running p)) <= Z.max 1 concurrency
  /\ ((started p < partitions)%nat -> exists p', pool_step partitions p p').
Proof.
  set (size := poolSize concurrency partitions).
  assert (Z.of_nat size <= Z.max 1 concurrency /\ (size = 0 -> partitions = 0)%nat) as [Hsize Hzero].
  { unfold size, poolSize. destruct (concurrency <? 1) eqn:E; bool_prop; case_match; bool_prop; lia. }
  assert (pool_ok size p) as (Hp & Hn & Hf).
  { assert (pool_ok size (newPool concurrency partitions)) as H0.
    { split; [cbn; by rewrite app_nil_r|]. split; constructor. }
    clear -Hreach H0. induction Hreach as [|p1 p2 p3 H1 _ IH]; [done|]. apply IH. by eapply pool_step_ok. }
  assert (NoDup (tokens p ++ map snd (running p))) as Hnd by (rewrite Hp; apply NoDup_seq).
  apply NoDup_app in Hnd as (_ & _ & Hnd). split; [done|]. split; [done|]. split; [|split].
  - apply Forall_forall. intros tok Htok. assert (tok ∈ seq 0 size) as Hin%elem_of_seq by (rewrite <- Hp; set_solver). lia.
  - apply Permutation_length in Hp. rewrite length_app, length_map, length_seq in Hp. lia.
  - intros Hlt. destruct p as [[|tok ts] rs n]; cbn [started tokens running] in *; [|eexists; by constructor].
    destruct rs as [|[slot tok] rs]; [|eexists; by apply (PoolDone _ [] [])].
    cbn in Hp. apply Permutation_length in Hp. rewrite length_seq in Hp. cbn in Hp. exfalso. lia.
Qed.

Lemma pool_exclusive_witness :
  let p := mkPool [] [(0%nat, 0%nat); (1%nat, 1%nat)] 2 in
  rtc (pool_step 3) (newPool 2 3) p /\ NoDup (map snd (running p)).
Proof.
  assert (rtc (pool_step 3) (newPool 2 3) (mkPool [] [(0%nat, 0%nat); (1%nat, 1%nat)] 2)) as H.
  { eapply rtc_l; [apply (PoolStart 3 0 [1%nat] [] 0); lia|]. eapply rtc_l; [apply (PoolStart 3 1 [] [(0%nat, 0%nat)] 1); lia|].
    apply rtc_refl. }
  split; [exact H|]. exact (proj1 (pool_exclusive 2 3 _ H)).
Defined.

End Otlp.
