(* ===== verification/GoTime.v ===== *)
(** * Go's calendar ([time.Date], [Time.Date], [Time.AddDate], RFC 3339)

    What the syslog envelope uses of package [time]: civil dates on the proleptic
    Gregorian calendar, locations, and [time.Parse] for the layout RFC3339Nano. *)

From stdpp Require Import base decidable list strings.
From Stdlib Require Import ZArith Lia Ascii.
From S2P Require Import Prelude Netip GoStrings.

Module GoTime.

(** ** Days *)

Definition is_leap (y : Z) : bool := (y mod 4 =? 0) && (negb (y mod 100 =? 0) || (y mod 400 =? 0)).

(** Days from 1 January of year 1 to 1 January of year [y]. *)
Definition days_before_year (y : Z) : Z := let p := y - 1 in 365 * p + p / 4 - p / 100 + p / 400.

Definition month_lengths (leap : bool) : list Z := [31; if leap then 29 else 28; 31; 30; 31; 30; 31; 31; 30; 31; 30; 31].

Definition days_in (m y : Z) : Z := nth (Z.to_nat (m - 1)) (month_lengths (is_leap y)) 0.

Definition days_before_month (m y : Z) : Z := lsum id (take (Z.to_nat (m - 1)) (month_lengths (is_leap y))).

(** The day number of a date; a day past the end of its month runs into the next. *)
Definition day_number (y m d : Z) : Z := days_before_year y + days_before_month m y + (d - 1).

Definition year_of (n : Z) : Z :=
  let y := n * 400 / 146097 + 1 in
  if n <? days_before_year y then y - 1
  else if days_before_year (y + 1) <=? n then y + 1
  else y.

(** Month and day from the day of the year, both counted from zero on the way. *)
Fixpoint month_day (lens : list Z) (m n : Z) : Z * Z :=
  match lens with
  | [] => (m, n + 1)
  | l :: lens => if n <? l then (m, n + 1) else month_day lens (m + 1) (n - l)
  end.

Definition civil (n : Z) : Z * Z * Z :=
  let y := year_of n in
  let '(m, d) := month_day (month_lengths (is_leap y)) 1 (n - days_before_year y) in (y, m, d).

(** ** Locations

    [lookup] gives for an instant, in seconds since 1970, the offset to UTC and the
    range of instants it holds for. *)
Record Location := mkLocation { lookup_zone : Z -> Z * Z * Z }.

Definition unix_days : Z := 719162.

(** Seconds since 1970 of an instant. *)
Definition Unix (t : Time) : Z := (t - unix_epoch) / Second.

Definition offset_at (loc : Location) (sec : Z) : Z := (lookup_zone loc sec).1.1.

(** [time.Date] for a month in 1..12; the other arguments may be out of range. *)
Definition Date (loc : Location) (y m d hh mm ss ns : Z) : Time :=
  let unix := (day_number y m d - unix_days) * 86400 + hh * 3600 + mm * 60 + ss in
  let '(offset, start, end_) := lookup_zone loc unix in
  let unix :=
    if offset =? 0 then unix
    else
      let utc := unix - offset in
      let offset := if (utc <? start) || (end_ <=? utc) then offset_at loc utc else offset in
      unix - offset in
  time_Unix unix ns.

(** Seconds of the local clock since 1 January of year 1. *)
Definition local (loc : Location) (t : Time) : Z := Unix t + offset_at loc (Unix t) + unix_days * 86400.

Definition date_of (loc : Location) (t : Time) : Z * Z * Z := civil (local loc t / 86400).
Definition Year (loc : Location) (t : Time) : Z := (date_of loc t).1.1.

(** [AddDate(years, 0, 0)]. *)
Definition AddYears (loc : Location) (years : Z) (t : Time) : Time :=
  let '(y, m, d) := date_of loc t in
  let s := local loc t mod 86400 in
  Date loc (y + years) m d (s / 3600) (s / 60 mod 60) (s mod 60) ((t - unix_epoch) mod Second).

(** A zone without transitions, such as UTC. *)
Definition FixedZone (offset : Z) : Location := mkLocation (fun _ => (offset, - 2 ^ 63, 2 ^ 63 - 1)).
Definition UTC : Location := FixedZone 0.

(** ** [Format] of RFC3339Nano in UTC *)

Fixpoint zeros (n : nat) : string := match n with O => "" | S n => String "0" (zeros n) end.
(** [appendInt]: at least [w] digits. *)
Definition pad (w : nat) (z : Z) : string :=
  let s := Itoa (Z.abs z) in
  (if z <? 0 then "-" else "") +:+ zeros (w - String.length s) +:+ s.

Fixpoint trim_zeros (fuel : nat) (z : Z) (w : nat) : Z * nat :=
  match fuel with O => (z, w) | S fuel => if z mod 10 =? 0 then trim_zeros fuel (z / 10) (pred w) else (z, w) end.
(** [.999999999]: the fraction without its trailing zeros. *)
Definition fraction_text (ns : Z) : string :=
  if ns =? 0 then "" else let '(z, w) := trim_zeros 9 ns 9 in String "." (pad w z).

Definition FormatRFC3339Nano (t : Time) : string :=
  let '(y, m, d) := date_of UTC t in
  let s := local UTC t mod 86400 in
  pad 4 y +:+ "-" +:+ pad 2 m +:+ "-" +:+ pad 2 d +:+ "T" +:+ pad 2 (s / 3600) +:+ ":" +:+ pad 2 (s / 60 mod 60) +:+ ":"
  +:+ pad 2 (s mod 60) +:+ fraction_text ((t - unix_epoch) mod Second) +:+ "Z".

Example format_demo : FormatRFC3339Nano (time_Unix 1784058601 120000000) = "2026-07-14T19:50:01.12Z".
Proof. vm_compute. reflexivity. Qed.

(** ** [time.Parse] of RFC3339Nano *)

(** [getnum]: one or two digits, two when [fixed]. *)
Definition getnum (s : string) (fixed : bool) : option (Z * string) :=
  match s with
  | String a s' =>
      match digit_of a with
      | None => None
      | Some x =>
          match s' with
          | String b s'' =>
              match digit_of b with
              | Some y => Some (x * 10 + y, s'')
              | None => if fixed then None else Some (x, s')
              end
          | EmptyString => if fixed then None else Some (x, s')
          end
      end
  | EmptyString => None
  end.

Definition skip_char (c : ascii) (s : string) : option string :=
  match s with String c' s => if Ascii.eqb c' c then Some s else None | EmptyString => None end.

(** A run of digits. *)
Fixpoint digit_run (s : string) : list Z * string :=
  match s with
  | String c s' =>
      match digit_of c with Some d => let '(ds, r) := digit_run s' in (d :: ds, r) | None => ([], s) end
  | EmptyString => ([], s)
  end.

(** Nanoseconds of the first nine digits of a fraction. *)
Definition nanoseconds (ds : list Z) : Z :=
  let ds := take 9 ds in
  fold_left (fun n d => n * 10 + d) ds 0 * 10 ^ (9 - zlen ds).

Definition commaOrPeriod (c : ascii) : bool := Ascii.eqb c "." || Ascii.eqb c ",".

(** The optional fraction. *)
Definition fraction (s : string) : Z * string :=
  match s with
  | String c (String d _ as s') =>
      if commaOrPeriod c && bool_decide (is_Some (digit_of d))
      then let '(ds, r) := digit_run s' in (nanoseconds ds, r)
      else (0, s)
  | _ => (0, s)
  end.

(** [Z07:00]: the offset in seconds; nothing may follow. *)
Definition zone_offset (s : string) : option Z :=
  match s with
  | String "Z" EmptyString => Some 0
  | String sign s' =>
      match getnum s' true with
      | Some (hh, s1) =>
          match skip_char ":" s1 with
          | Some s2 =>
              match getnum s2 true with
              | Some (mm, EmptyString) =>
                  if (24 <? hh) || (60 <? mm) then None
                  else if Ascii.eqb sign "+" then Some ((hh * 60 + mm) * 60)
                  else if Ascii.eqb sign "-" then Some (- ((hh * 60 + mm) * 60))
                  else None
              | _ => None
              end
          | None => None
          end
      | None => None
      end
  | EmptyString => None
  end.

Definition year4 (s : string) : option (Z * string) :=
  match getnum s true with
  | Some (a, s) => match getnum s true with Some (b, s) => Some (a * 100 + b, s) | None => None end
  | None => None
  end.

Definition ParseRFC3339 (s : string) : option Time :=
  '(y, s) ← year4 s; s ← skip_char "-" s;
  '(m, s) ← getnum s true; s ← skip_char "-" s;
  '(d, s) ← getnum s true; s ← skip_char "T" s;
  '(hh, s) ← getnum s false; s ← skip_char ":" s;
  '(mm, s) ← getnum s true; s ← skip_char ":" s;
  '(ss, s) ← getnum s true;
  let '(ns, s) := fraction s in
  off ← zone_offset s;
  if (m <? 1) || (12 <? m) || (23 <? hh) || (59 <? mm) || (59 <? ss) || (d <? 1) || (days_in m y <? d) then None
  else Some (time_Unix ((day_number y m d - unix_days) * 86400 + hh * 3600 + mm * 60 + ss - off) ns).

Example rfc3339_utc : ParseRFC3339 "2024-02-29T19:50:01.25Z" = Some (time_Unix 1709236201 250000000).
Proof. vm_compute. reflexivity. Qed.
Example rfc3339_offset : ParseRFC3339 "2026-07-14T19:50:01+01:00" = Some (time_Unix 1784055001 0).
Proof. vm_compute. reflexivity. Qed.
Example rfc3339_bad_day : ParseRFC3339 "2023-02-29T00:00:00Z" = None.
Proof. vm_compute. reflexivity. Qed.

(** ** The calendar is consistent *)

Lemma year_length y : days_before_year (y + 1) = days_before_year y + (if is_leap y then 366 else 365).
Proof.
  unfold days_before_year, is_leap. replace (y + 1 - 1) with y by lia.
  destruct (y mod 4 =? 0) eqn:E4, (y mod 100 =? 0) eqn:E100, (y mod 400 =? 0) eqn:E400; cbn; bool_prop; zdiv.
Qed.

Lemma year_of_spec n : days_before_year (year_of n) <= n < days_before_year (year_of n + 1).
Proof.
  unfold year_of. set (y := n * 400 / 146097 + 1).
  assert (days_before_year (y - 1) <= n /\ n < days_before_year (y + 2)) as [H1 H2].
  { unfold days_before_year, y. split; zdiv. }
  destruct (n <? days_before_year y) eqn:E1; bool_prop; [replace (y - 1 + 1) with y by lia; lia|].
  destruct (days_before_year (y + 1) <=? n) eqn:E2; bool_prop; [|lia]. replace (y + 1 + 1) with (y + 2) by lia. lia.
Qed.

Lemma days_before_year_mono a b : a <= b -> days_before_year a <= days_before_year b.
Proof. intros H. unfold days_before_year. zdiv. Qed.

Lemma year_of_unique n y : days_before_year y <= n < days_before_year (y + 1) -> year_of n = y.
Proof.
  intros H. pose proof (year_of_spec n) as Hs.
  destruct (Z.lt_trichotomy (year_of n) y) as [Hlt|[->|Hlt]]; [|done|]; exfalso.
  - pose proof (days_before_year_mono (year_of n + 1) y). lia.
  - pose proof (days_before_year_mono (y + 1) (year_of n)). lia.
Qed.

(** A date that exists. *)
Definition valid_date (y m d : Z) : Prop := 1 <= m <= 12 /\ 1 <= d <= days_in m y.

Lemma month_cases (m : Z) (P : Z -> Prop) :
  1 <= m <= 12 -> P 1 -> P 2 -> P 3 -> P 4 -> P 5 -> P 6 -> P 7 -> P 8 -> P 9 -> P 10 -> P 11 -> P 12 -> P m.
Proof.
  intros Hm. intros. assert (m = 1 \/ m = 2 \/ m = 3 \/ m = 4 \/ m = 5 \/ m = 6 \/ m = 7 \/ m = 8 \/ m = 9 \/ m = 10 \/ m = 11 \/ m = 12) as Hc by lia.
  decompose [or] Hc; by subst.
Qed.

(** Evaluate the month tables for a known month and kind of year. *)
Ltac eval_months :=
  repeat match goal with
  | H : context [nth ?n (month_lengths ?b) ?z] |- _ =>
      let v := eval vm_compute in (nth n (month_lengths b) z) in change (nth n (month_lengths b) z) with v in H
  | |- context [nth ?n (month_lengths ?b) ?z] =>
      let v := eval vm_compute in (nth n (month_lengths b) z) in change (nth n (month_lengths b) z) with v
  | |- context [lsum id (take ?n (month_lengths ?b))] =>
      let v := eval vm_compute in (lsum id (take n (month_lengths b))) in change (lsum id (take n (month_lengths b))) with v
  end.

Lemma valid_in_year y m d :
  valid_date y m d -> 0 <= days_before_month m y + (d - 1) < (if is_leap y then 366 else 365).
Proof.
  intros [Hm Hd]. unfold days_in, days_before_month in *. revert Hd. destruct (is_leap y);
    apply (month_cases m); try done; eval_months; lia.
Qed.

Lemma month_day_step l lens m n : month_day (l :: lens) m n = if n <? l then (m, n + 1) else month_day lens (m + 1) (n - l).
Proof. done. Qed.

Lemma civil_day_number y m d : valid_date y m d -> civil (day_number y m d) = (y, m, d).
Proof.
  intros Hv. pose proof (valid_in_year y m d Hv) as Hr. pose proof (year_length y) as Hl. destruct Hv as [Hm Hd].
  unfold civil. assert (year_of (day_number y m d) = y) as -> by (apply year_of_unique; unfold day_number; lia).
  replace (day_number y m d - days_before_year y) with (days_before_month m y + (d - 1)) by (unfold day_number; lia).
  clear Hr Hl. unfold days_in, days_before_month in *. revert Hd.
  destruct (is_leap y); apply (month_cases m); try done; eval_months; intros Hd; unfold month_lengths;
    repeat (rewrite month_day_step; match goal with |- context [?a <? ?b] => destruct (a <? b) eqn:?; bool_prop; [try lia|try lia] end);
    repeat f_equal; lia.
Qed.

(** ** Zones without transitions *)

Lemma Date_fixed off y m d hh mm ss ns :
  Date (FixedZone off) y m d hh mm ss ns
  = time_Unix ((day_number y m d - unix_days) * 86400 + hh * 3600 + mm * 60 + ss - off) ns.
Proof.
  unfold Date, FixedZone, offset_at. cbn [lookup_zone fst]. destruct (off =? 0) eqn:E; bool_prop; [f_equal; lia|]. by destruct (_ || _).
Qed.

Lemma Unix_time s : Unix (time_Unix s 0) = s.
Proof. unfold Unix, time_Unix. replace (unix_epoch + s * Second + 0 - unix_epoch) with (s * Second) by lia. by apply Z.div_mul. Qed.

Section Fixed.
Variables off y m d hh mm ss : Z.
Hypothesis Hdate : valid_date y m d.
Hypothesis Htime : 0 <= hh < 24 /\ 0 <= mm < 60 /\ 0 <= ss < 60.

Lemma local_Date : local (FixedZone off) (Date (FixedZone off) y m d hh mm ss 0) = day_number y m d * 86400 + (hh * 3600 + mm * 60 + ss).
Proof. rewrite Date_fixed. unfold local, offset_at. rewrite Unix_time. cbn [FixedZone lookup_zone fst]. lia. Qed.

Lemma date_of_Date : date_of (FixedZone off) (Date (FixedZone off) y m d hh mm ss 0) = (y, m, d).
Proof.
  unfold date_of. rewrite local_Date. replace (_ / 86400) with (day_number y m d) by zdiv. by apply civil_day_number.
Qed.

(** [AddDate] keeps the clock. *)
Lemma AddYears_Date k :
  AddYears (FixedZone off) k (Date (FixedZone off) y m d hh mm ss 0) = Date (FixedZone off) (y + k) m d hh mm ss 0.
Proof.
  unfold AddYears. rewrite date_of_Date, local_Date.
  replace ((day_number y m d * 86400 + (hh * 3600 + mm * 60 + ss)) mod 86400) with (hh * 3600 + mm * 60 + ss) by zdiv.
  replace ((hh * 3600 + mm * 60 + ss) / 3600) with hh by zdiv.
  replace ((hh * 3600 + mm * 60 + ss) / 60 mod 60) with mm by zdiv.
  replace ((hh * 3600 + mm * 60 + ss) mod 60) with ss by zdiv.
  f_equal. rewrite Date_fixed. unfold time_Unix. set (k' := (_ - _) * 86400 + _ + _ + _ - _).
  replace (unix_epoch + k' * Second + 0 - unix_epoch) with (k' * Second) by lia. by apply Z.mod_mul.
Qed.

End Fixed.

(** A year later is 365 or 366 days later, and exists unless it is a leap day. *)
Lemma next_year y m d :
  valid_date y m d -> ~ (m = 2 /\ d = 29) ->
  valid_date (y + 1) m d /\ 365 <= day_number (y + 1) m d - day_number y m d <= 366.
Proof.
  intros [Hm Hd] Hleap. pose proof (year_length y) as Hl. unfold valid_date, day_number. rewrite Hl.
  assert (~ (is_leap y = true /\ is_leap (y + 1) = true)) as Hnl.
  { unfold is_leap. intros [H1 H2]. apply andb_true_iff in H1 as [H1 _], H2 as [H2 _]. bool_prop. zdiv. }
  unfold days_in, days_before_month in *. revert Hd Hleap.
  destruct (is_leap y), (is_leap (y + 1)); try (exfalso; by apply Hnl); apply (month_cases m); try done; eval_months; lia.
Qed.

End GoTime.
