(* ===== verification/Envelope.v ===== *)
(** * The syslog envelope ([logship/syslog/envelope.go])

    RFC 5424 and the legacy BSD format.  Lines are strings of bytes; an index out of a
    line's range is [Panic], so that a theorem about what a parse returns also says that
    it does not panic. *)

From stdpp Require Import base decidable list gmap strings.
From Stdlib Require Import ZArith Lia Ascii.
From S2P Require Import Prelude Netip GoStrings GoTime.
Import GoTime.

Module Envelope.

Record Envelope := mkEnv {
  eTimestamp : Time; Hostname : string; Program : string; PID : string; Facility : Z; eSeverity : Z; Message : string }.
#[export] Instance eta_Envelope : Eta Envelope := fun e =>
  mkEnv (eTimestamp e) (Hostname e) (Program e) (PID e) (Facility e) (eSeverity e) (Message e).

Inductive parseError := errEmpty | errNoPRI | errBadPRI | errTruncated | errBadTime.

Inductive outcome (A : Type) := Ok (a : A) | Fails (err : parseError) | Panic.
Arguments Ok {A} a.
Arguments Fails {A} err.
Arguments Panic {A}.

Definition bind {A B} (x : outcome A) (f : A -> outcome B) : outcome B :=
  match x with Ok a => f a | Fails e => Fails e | Panic => Panic end.
Notation "'let*' p ':=' x 'in' y" := (bind x (fun p => y)) (at level 61, p pattern, y at level 61) : flow_scope.

(** [ok] of a comma-ok call, with the error the caller returns. *)
Definition ok_or {A} (e : parseError) (x : option A) : outcome A := match x with Some a => Ok a | None => Fails e end.

Definition slen (s : string) : nat := String.length s.

(** [b[i]] and [b[i:j]]. *)
Definition at_ (b : string) (i : nat) : outcome ascii := match String.get i b with Some c => Ok c | None => Panic end.
Definition sub (b : string) (i j : nat) : outcome string :=
  if (i <=? j)%nat && (j <=? slen b)%nat then Ok (str_take (j - i) (str_drop i b)) else Panic.

Definition eqc (c : ascii) (d : ascii) : bool := Ascii.eqb c d.

(** ** PRI *)

(** The scan from [i]: [None] is a byte that is neither a digit nor the end; the inner
    option is the end, if there is one. *)
Fixpoint pri_end (fuel i : nat) (line : string) : outcome (option (option nat)) :=
  match fuel with
  | O => Ok (Some None)
  | S fuel =>
      if (i <? slen line)%nat && (i <=? 4)%nat then
        let* c := at_ line i in
        if eqc c ">" then Ok (Some (Some i))
        else match digit_of c with
             | Some _ => pri_end fuel (S i) line
             | None => Ok None
             end
      else Ok (Some None)
  end.

Definition Atoi3 (s : string) : option Z := match s with EmptyString => None | _ => parse_digits (2 ^ 63 - 1) 0 s end.

Definition parsePRI (line : string) : outcome (string * Z) :=
  let* c := at_ line 0 in
  if negb (eqc c "<") then Fails errNoPRI
  else
    let* e := pri_end 4 1 line in
    match e with
    | Some (Some end_) =>
        if (end_ <? 2)%nat then Fails errNoPRI
        else
          let* ds := sub line 1 end_ in
          match Atoi3 ds with
          | None => Fails errNoPRI
          | Some pri =>
              if (pri <? 0) || (191 <? pri) then Fails errBadPRI
              else let* rest := sub line (S end_) (slen line) in Ok (rest, pri)
          end
    | _ => Fails errNoPRI
    end.

(** ** Fields *)

Definition nilStr (b : string) : string := if str_eq b "-" then "" else b.

Definition field (b : string) : option (string * string) :=
  match b with
  | EmptyString => None
  | _ => match cut " " b with (tok, Some rest) => Some (tok, rest) | (_, None) => None end
  end.

(** ** Structured data *)

(** The rest after the bracket that closes the element; a backslash hides a byte. *)
Fixpoint sd_close (b : string) : option string :=
  match b with
  | EmptyString => None
  | String c b' =>
      if eqc c "\" then match b' with EmptyString => None | String _ b'' => sd_close b'' end
      else if eqc c "]" then Some b'
      else sd_close b'
  end.

(** The elements; [fuel] bounds their number. *)
Fixpoint sd_elements (fuel : nat) (b : string) : option string :=
  match fuel, b with
  | S fuel, String c b' =>
      if eqc c "[" then match sd_close b' with Some r => sd_elements fuel r | None => None end else Some b
  | _, _ => Some b
  end.

Definition skipStructuredData (b : string) : outcome string :=
  match b with
  | EmptyString => Fails errTruncated
  | String c b' =>
      if eqc c "-" then
        match b' with
        | EmptyString => Ok ""
        | String d msg => if eqc d " " then Ok msg else Fails errTruncated
        end
      else if eqc c "[" then
        let* rest := ok_or errTruncated (sd_elements (slen b) b) in
        match rest with
        | EmptyString => Ok ""
        | String d msg => if eqc d " " then Ok msg else Fails errTruncated
        end
      else Fails errTruncated
  end.

Definition parse5424 (b : string) (env : Envelope) : outcome Envelope :=
  let* (ts, b) := ok_or errTruncated (field b) in
  let* t := if str_eq ts "-" then Ok zero_time else ok_or errBadTime (ParseRFC3339 ts) in
  let env := env <| eTimestamp := t |> in
  let* (host, b) := ok_or errTruncated (field b) in
  let env := env <| Hostname := nilStr host |> in
  let* (app, b) := ok_or errTruncated (field b) in
  let env := env <| Program := nilStr app |> in
  let* (procid, b) := ok_or errTruncated (field b) in
  let env := env <| PID := nilStr procid |> in
  let* (_, b) := ok_or errTruncated (field b) in
  let* msg := skipStructuredData b in
  Ok (env <| Message := msg |>).

(** ** The BSD format *)

Definition bsdMonths : list string :=
  ["Jan"; "Feb"; "Mar"; "Apr"; "May"; "Jun"; "Jul"; "Aug"; "Sep"; "Oct"; "Nov"; "Dec"].

Fixpoint index_of (s : string) (l : list string) (i : Z) : option Z :=
  match l with [] => None | x :: l => if str_eq x s then Some i else index_of s l (i + 1) end.
Definition month_of (s : string) : option Z := index_of s bsdMonths 1.

Fixpoint atoi_loop (b : string) (n : Z) (seen : bool) : option Z :=
  match b with
  | EmptyString => if seen then Some n else None
  | String c b =>
      if eqc c " " && negb seen then atoi_loop b n seen
      else match digit_of c with
           | Some d => atoi_loop b (n * 10 + d) true
           | None => None
           end
  end.
Definition atoiSpace (b : string) : option Z := atoi_loop b 0 false.

(** [now] with its location. *)
Definition parseBSDTime (b : string) (now : Time) (loc : Location) : outcome Time :=
  if (slen b <? 15)%nat then Fails errBadTime
  else
    let* mon := sub b 0 3 in
    match month_of mon with
    | None => Fails errBadTime
    | Some mon =>
        let* dd := sub b 4 6 in
        match atoiSpace dd with
        | None => Fails errBadTime
        | Some day =>
            if (day <? 1) || (31 <? day) then Fails errBadTime
            else
              let* c3 := at_ b 3 in let* c6 := at_ b 6 in let* c9 := at_ b 9 in let* c12 := at_ b 12 in
              if negb (eqc c3 " ") || negb (eqc c6 " ") || negb (eqc c9 ":") || negb (eqc c12 ":") then Fails errBadTime
              else
                let* h := sub b 7 9 in let* m := sub b 10 12 in let* s := sub b 13 15 in
                match atoiSpace h, atoiSpace m, atoiSpace s with
                | Some hh, Some mm, Some ss =>
                    if (23 <? hh) || (59 <? mm) || (60 <? ss) then Fails errBadTime
                    else
                      let t := Date loc (Year loc now) mon day hh mm ss 0 in
                      Ok (if 24 * 60 * Minute <? time_Sub t now then AddYears loc (-1) t else t)
                | _, _, _ => Fails errBadTime
                end
        end
    end.

(** The last bracket before [i], down to 1. *)
Fixpoint open_bracket (i : nat) (tag : string) : outcome (option nat) :=
  match i with
  | O => Ok None
  | S i' => let* c := at_ tag i in if eqc c "[" then Ok (Some i) else open_bracket i' tag
  end.

Definition splitTagPID (tag : string) : outcome (string * string) :=
  let n := slen tag in
  let* last := if (2 <? n)%nat then let* c := at_ tag (n - 1) in Ok (eqc c "]") else Ok false in
  if last then
    let* o := open_bracket (n - 2) tag in
    match o with
    | Some i => let* prog := sub tag 0 i in let* pid := sub tag (S i) (n - 1) in Ok (prog, pid)
    | None => Ok (tag, "")
    end
  else Ok (tag, "").

Definition stampLen : nat := 15.

Definition parse3164 (b : string) (env : Envelope) (now : Time) (loc : Location) : outcome Envelope :=
  if (slen b <? stampLen + 1)%nat then Fails errTruncated
  else
    let* c := at_ b stampLen in
    if negb (eqc c " ") then Fails errTruncated
    else
      let* stamp := sub b 0 stampLen in
      let* ts := parseBSDTime stamp now loc in
      let env := env <| eTimestamp := ts |> in
      let* b := sub b (stampLen + 1) (slen b) in
      let* (host, b) := ok_or errTruncated (field b) in
      let env := env <| Hostname := host |> in
      let* (tag, b) := ok_or errTruncated (field b) in
      let n := slen tag in
      let* colon := if (0 <? n)%nat then let* c := at_ tag (n - 1) in Ok (eqc c ":") else Ok false in
      let* tag := if colon then sub tag 0 (n - 1) else Ok tag in
      let* (prog, pid) := splitTagPID tag in
      Ok (env <| Program := prog |> <| PID := pid |> <| Message := b |>).

Definition noEnv : Envelope := mkEnv zero_time "" "" "" 0 0 "".

Definition ParseEnvelope (line : string) (now : Time) (loc : Location) : outcome Envelope :=
  if (slen line =? 0)%nat then Fails errEmpty
  else
    let* (rest, pri) := parsePRI line in
    let env := noEnv <| Facility := Z.quot pri 8 |> <| eSeverity := Z.rem pri 8 |> in
    let* v := if (2 <=? slen rest)%nat then
                let* c0 := at_ rest 0 in let* c1 := at_ rest 1 in Ok (eqc c0 "1" && eqc c1 " ")
              else Ok false in
    if v then let* b := sub rest 2 (slen rest) in parse5424 b env
    else parse3164 rest env now loc.

Definition demo_now : Time := Date UTC 2026 1 1 0 0 30 0.
Example demo_bsd :
  ParseEnvelope "<134>Dec 31 23:59:58 fw filterlog[19325]: 16,,,0" demo_now UTC
  = Ok (mkEnv (Date UTC 2025 12 31 23 59 58 0) "fw" "filterlog" "19325" 16 6 "16,,,0").
Proof. vm_compute. reflexivity. Qed.
Example demo_5424 :
  ParseEnvelope "<38>1 2026-07-14T19:50:01Z fw - 77 - [a b=x\]][c] hello" demo_now UTC
  = Ok (mkEnv (time_Unix 1784058601 0) "fw" "" "77" 4 6 "hello").
Proof. vm_compute. reflexivity. Qed.

(** ** Reads of a line *)

(** Whether a byte occurs in a string. *)
Fixpoint has (c : ascii) (s : string) : bool :=
  match s with EmptyString => false | String d s => Ascii.eqb d c || has c s end.

Lemma has_app c a b : has c (a +:+ b) = has c a || has c b.
Proof. induction a as [|d a IH]; [done|]. rewrite str_app_cons. cbn [has]. by rewrite IH, orb_assoc. Qed.

Lemma eqc_true c d : eqc c d = true <-> c = d.
Proof. apply Ascii.eqb_eq. Qed.

Lemma at_app a c b : at_ (a +:+ String c b) (slen a) = Ok c.
Proof. unfold at_. induction a as [|x a IH]; [done|]. rewrite str_app_cons. exact IH. Qed.

Lemma at_some b i : (i < slen b)%nat -> exists c, at_ b i = Ok c.
Proof.
  unfold at_, slen. revert i. induction b as [|x b IH]; intros i Hi; [cbn in Hi; lia|]. destruct i as [|i]; [by exists x|].
  cbn in Hi. destruct (IH i) as [c Hc]; [lia|]. exists c. cbn. destruct (String.get i b); congruence.
Qed.

Lemma take_drop_str n s : str_take n s +:+ str_drop n s = s.
Proof. revert s. induction n as [|n IH]; intros [|c s]; try done. cbn. by rewrite str_app_cons, IH. Qed.

Lemma take_all_str n s : (slen s <= n)%nat -> str_take n s = s.
Proof. unfold slen. revert s. induction n as [|n IH]; intros [|c s] H; cbn in *; [done|lia|done|]. rewrite IH; [done|lia]. Qed.

Lemma drop_length_str n s : slen (str_drop n s) = (slen s - n)%nat.
Proof. unfold slen. revert s. induction n as [|n IH]; intros [|c s]; try done. cbn. by rewrite IH. Qed.

Lemma sub_app a b c : sub (a +:+ b +:+ c) (slen a) (slen a + slen b) = Ok b.
Proof.
  unfold sub, slen. rewrite !str_length_app.
  replace (_ && _) with true by (symmetry; apply andb_true_iff; split; zbool).
  replace (String.length a + String.length b - String.length a)%nat with (String.length b) by lia.
  by rewrite str_drop_app, str_take_app.
Qed.

Lemma sub_prefix a b : sub (a +:+ b) 0 (slen a) = Ok a.
Proof. exact (sub_app "" a b). Qed.

Lemma sub_suffix a b : sub (a +:+ b) (slen a) (slen (a +:+ b)) = Ok b.
Proof.
  pose proof (sub_app a b "") as H. replace (b +:+ "") with b in H; [|clear; induction b as [|c b IH]; [done|]; by rewrite str_app_cons, <- IH].
  unfold slen in *. by rewrite str_length_app.
Qed.

Lemma sub_some b i j : (i <= j <= slen b)%nat -> exists r, sub b i j = Ok r.
Proof. intros H. unfold sub. replace (_ && _) with true by (symmetry; apply andb_true_iff; split; zbool). eauto. Qed.

Lemma sub_rest b i r : sub b i (slen b) = Ok r -> b = str_take i b +:+ r.
Proof.
  unfold sub. destruct (_ && _); [|done]. intros [= <-].
  rewrite (take_all_str _ (str_drop i b)); [by rewrite take_drop_str|]. by rewrite drop_length_str.
Qed.

Lemma cut_spec c s a r : cut c s = (a, Some r) -> s = a +:+ String c r /\ has c a = false.
Proof.
  revert a. induction s as [|x s IH]; intros a; cbn [cut]; [done|]. destruct (Ascii.eqb x c) eqn:E.
  - intros [= <- <-]. apply Ascii.eqb_eq in E as ->. done.
  - destruct (cut c s) as [a' b']. intros [= <- ->]. destruct (IH a' eq_refl) as [-> Hh]. rewrite str_app_cons. cbn [has]. by rewrite E, Hh.
Qed.

Lemma cut_app c a r : has c a = false -> cut c (a +:+ String c r) = (a, Some r).
Proof.
  induction a as [|x a IH]; intros H; [rewrite str_app_nil_l; cbn [cut]; by rewrite Ascii.eqb_refl|]. rewrite str_app_cons. cbn [has cut] in *.
  apply orb_false_iff in H as [-> H]. by rewrite (IH H).
Qed.

Lemma field_spec b tok r : field b = Some (tok, r) -> b = tok +:+ String " " r /\ has " " tok = false.
Proof.
  unfold field. destruct b as [|c b]; [done|]. destruct (cut " " (String c b)) as [a [x|]] eqn:E; [|done].
  intros [= <- <-]. by apply cut_spec in E.
Qed.

Lemma field_app tok r : has " " tok = false -> field (tok +:+ String " " r) = Some (tok, r).
Proof. intros H. unfold field. rewrite (cut_app _ _ _ H). by destruct tok. Qed.

(** ** What a parse returns *)

(** A result that is not a panic, and satisfies [P] if there is one. *)
Definition sound {A} (P : A -> Prop) (x : outcome A) : Prop := match x with Ok a => P a | Fails _ => True | Panic => False end.

Lemma sound_bind {A B} (P : A -> Prop) (Q : B -> Prop) (x : outcome A) (f : A -> outcome B) :
  sound P x -> (forall a, P a -> sound Q (f a)) -> sound Q (bind x f).
Proof. destruct x; cbn; auto. Qed.

Lemma sound_impl {A} (P Q : A -> Prop) (x : outcome A) : (forall a, P a -> Q a) -> sound P x -> sound Q x.
Proof. destruct x; cbn; auto. Qed.

Lemma sound_ok_or {A} (P : A -> Prop) e x : (forall a, x = Some a -> P a) -> sound P (ok_or e x).
Proof. destruct x; cbn; auto. Qed.

Lemma sound_at b i : (i < slen b)%nat -> sound (fun _ => True) (at_ b i).
Proof. intros H. destruct (at_some b i H) as [c ->]. done. Qed.

Lemma sound_sub b i j : (i <= j <= slen b)%nat -> sound (fun _ => True) (sub b i j).
Proof. intros H. destruct (sub_some b i j H) as [r ->]. done. Qed.

Lemma sound_rest b i : (i <= slen b)%nat -> sound (fun r => b = str_take i b +:+ r) (sub b i (slen b)).
Proof. intros H. destruct (sub_some b i (slen b)) as [r E]; [lia|]. rewrite E. by apply sub_rest. Qed.

Definition suffix_of (m s : string) : Prop := exists p, s = p +:+ m.

Lemma suffix_trans a b c : suffix_of a b -> suffix_of b c -> suffix_of a c.
Proof. intros [p ->] [q ->]. exists (q +:+ p). by rewrite str_app_assoc. Qed.

Lemma suffix_field tok r b : b = tok +:+ String " " r -> suffix_of r b.
Proof. intros ->. exists (tok +:+ " "). by rewrite str_app_assoc. Qed.

Lemma sd_close_suffix b r : sd_close b = Some r -> suffix_of r b.
Proof.
  assert (forall n b, (slen b <= n)%nat -> sd_close b = Some r -> suffix_of r b) as H; [|by apply (H (slen b))].
  unfold slen. induction n as [|n IH]; intros [|c b0] Hn; cbn in Hn; try lia; try done. cbn [sd_close].
  destruct (eqc c "\").
  - destruct b0 as [|d b0]; [done|]. intros [p ->]%IH; [exists (String c (String d p)); done|cbn in Hn; lia].
  - destruct (eqc c "]"); [intros [= <-]; by exists (String c "")|]. intros [p ->]%IH; [by exists (String c p)|lia].
Qed.

Lemma sd_elements_suffix n b r : sd_elements n b = Some r -> suffix_of r b.
Proof.
  revert b. induction n as [|n IH]; intros b; cbn [sd_elements]; [intros [= <-]; by exists ""|].
  destruct b as [|c b]; [intros [= <-]; by exists ""|]. destruct (eqc c "["); [|intros [= <-]; by exists ""].
  destruct (sd_close b) as [x|] eqn:E; [|done]. intros Hr%IH. eapply suffix_trans; [exact Hr|].
  apply sd_close_suffix in E. eapply suffix_trans; [exact E|]. by exists (String c "").
Qed.

(** The fuel never runs out: every element takes two bytes. *)
Lemma sd_elements_done n b r : (slen b <= n)%nat -> sd_elements n b = Some r -> match r with String "[" _ => False | _ => True end.
Proof.
  revert b. induction n as [|n IH]; intros b Hn; cbn [sd_elements].
  { intros [= <-]. by destruct b; [|unfold slen in Hn; cbn in Hn; lia]. }
  destruct b as [|c b]; [by intros [= <-]|]. destruct (eqc c "[") eqn:Ec.
  - destruct (sd_close b) as [x|] eqn:E; [|done]. apply IH. apply sd_close_suffix in E as [p ->]. unfold slen in *. cbn in Hn.
    rewrite str_length_app in Hn. lia.
  - intros [= <-]. destruct c as [[] [] [] [] [] [] [] []]; done.
Qed.

Lemma take_drop_has c n s : has c s = false -> has c (str_take n s) = false /\ has c (str_drop n s) = false.
Proof. intros H. rewrite <- (take_drop_str n s), has_app in H. by apply orb_false_iff in H. Qed.

Lemma sound_sub_has c b i j : (i <= j <= slen b)%nat -> has c b = false -> sound (fun r => has c r = false) (sub b i j).
Proof.
  intros H Hc. unfold sub. replace (_ && _) with true by (symmetry; apply andb_true_iff; split; zbool). cbn.
  by apply take_drop_has, take_drop_has.
Qed.

Lemma sound_pri_end fuel i line :
  sound (fun e => match e with Some (Some j) => (i <= j < slen line)%nat | _ => True end) (pri_end fuel i line).
Proof.
  revert i. induction fuel as [|fuel IH]; intros i; cbn [pri_end]; [done|].
  destruct (i <? slen line)%nat eqn:E1; [|done]. destruct (i <=? 4)%nat; [|done]. cbn [andb]. apply Nat.ltb_lt in E1.
  eapply sound_bind; [by apply sound_at|]. intros c _. destruct (eqc c ">"); [cbn; lia|]. destruct (digit_of c); [|done].
  eapply sound_impl; [|apply IH]. intros [[j|]|]; try done. lia.
Qed.

Lemma parse_digits_range limit acc s n : 0 <= acc -> parse_digits limit acc s = Some n -> 0 <= n.
Proof.
  revert acc. induction s as [|c s IH]; intros acc Ha; cbn [parse_digits]; [by intros [= <-]|].
  destruct (digit_of c) as [d|] eqn:Ed; [|done]. destruct (_ <=? limit); [|done]. apply IH.
  unfold digit_of in Ed. destruct (_ && _) eqn:E; [|done]. injection Ed as <-. bool_prop. lia.
Qed.

Lemma sound_parsePRI line :
  line <> "" -> sound (fun '(rest, pri) => 0 <= pri <= 191 /\ suffix_of rest line) (parsePRI line).
Proof.
  intros Hne. assert (0 < slen line)%nat as Hl by (destruct line; [done|unfold slen; cbn; lia]).
  unfold parsePRI. eapply sound_bind; [by apply sound_at|]. intros c _. destruct (negb (eqc c "<")); [done|].
  eapply sound_bind; [apply sound_pri_end|]. intros [[j|]|] Hj; try done. destruct (j <? 2)%nat; [done|].
  eapply sound_bind; [apply sound_sub; lia|]. intros ds _. unfold Atoi3. destruct ds as [|d ds]; [done|].
  destruct (parse_digits _ 0 _) as [pri|] eqn:Ep; [|done]. apply parse_digits_range in Ep; [|done].
  destruct ((pri <? 0) || (191 <? pri)) eqn:Er; [done|]. bool_prop.
  eapply sound_bind; [apply sound_rest; lia|]. intros rest E. cbn. split; [lia|]. by exists (str_take (S j) line).
Qed.

Lemma sound_skip b : sound (fun m => suffix_of m b) (skipStructuredData b).
Proof.
  unfold skipStructuredData. destruct b as [|c b]; [done|]. destruct (eqc c "-").
  { destruct b as [|d b]; [by exists (String c "")|]. destruct (eqc d " "); [|done]. by exists (String c (String d "")). }
  destruct (eqc c "["); [|done].
  apply (sound_bind (fun r => suffix_of r (String c b))); [apply sound_ok_or; intros r; apply sd_elements_suffix|].
  intros r Hr. destruct r as [|d r]; [exact Hr|]. destruct (eqc d " "); [|done]. eapply suffix_trans; [|exact Hr].
  by exists (String d "").
Qed.

(** A well-formed envelope of a line. *)
Record env_ok (line : string) (env : Envelope) : Prop := {
  ek_facility : 0 <= Facility env <= 23;
  ek_severity : 0 <= eSeverity env <= 7;
  ek_tokens : has " " (Hostname env) = false /\ has " " (Program env) = false /\ has " " (PID env) = false;
  ek_message : suffix_of (Message env) line }.

Lemma nilStr_has c b : has c b = false -> has c (nilStr b) = false.
Proof. unfold nilStr. by destruct (str_eq b "-"). Qed.

Lemma sound_field b : sound (fun '(tok, r) => has " " tok = false /\ suffix_of r b) (ok_or errTruncated (field b)).
Proof. apply sound_ok_or. intros [tok r] [E H]%field_spec. split; [done|]. by eapply suffix_field. Qed.

Lemma sound_5424 b line env :
  0 <= Facility env <= 23 -> 0 <= eSeverity env <= 7 -> suffix_of b line -> sound (env_ok line) (parse5424 b env).
Proof.
  intros Hf Hs Hb. unfold parse5424.
  eapply sound_bind; [apply sound_field|]. intros [ts b1] [_ H1].
  apply (sound_bind (fun _ => True)); [destruct (str_eq ts "-"); [done|by apply sound_ok_or]|]. intros t _.
  eapply sound_bind; [apply sound_field|]. intros [host b2] [Hh H2].
  eapply sound_bind; [apply sound_field|]. intros [app b3] [Ha H3].
  eapply sound_bind; [apply sound_field|]. intros [procid b4] [Hp H4].
  eapply sound_bind; [apply sound_field|]. intros [msgid b5] [_ H5].
  eapply sound_bind; [apply sound_skip|]. intros msg H6. cbn.
  split; cbn [Facility eSeverity Hostname Program PID Message update]; try done.
  - split; [by apply nilStr_has|]. split; by apply nilStr_has.
  - exact (suffix_trans _ _ _ H6 (suffix_trans _ _ _ H5 (suffix_trans _ _ _ H4 (suffix_trans _ _ _ H3
      (suffix_trans _ _ _ H2 (suffix_trans _ _ _ H1 Hb)))))).
Qed.

Lemma sound_bsd b now loc : sound (fun _ => True) (parseBSDTime b now loc).
Proof.
  unfold parseBSDTime. destruct (slen b <? 15)%nat eqn:El; [done|]. apply Nat.ltb_ge in El.
  eapply sound_bind; [apply sound_sub; lia|]. intros mon _. destruct (month_of mon); [|done].
  eapply sound_bind; [apply sound_sub; lia|]. intros dd _. destruct (atoiSpace dd) as [day|]; [|done]. destruct (_ || _); [done|].
  repeat (eapply sound_bind; [apply sound_at; lia|]; intros ? _). destruct (_ || _); [done|].
  repeat (eapply sound_bind; [apply sound_sub; lia|]; intros ? _). repeat (case_match; try done).
Qed.

Lemma sound_open i tag : (i < slen tag)%nat -> sound (fun o => match o with Some j => (1 <= j <= i)%nat | None => True end) (open_bracket i tag).
Proof.
  induction i as [|i IH]; intros Hi; cbn [open_bracket]; [done|].
  eapply sound_bind; [by apply sound_at|]. intros c _. destruct (eqc c "["); [cbn; lia|].
  eapply sound_impl; [|apply IH; lia]. intros [j|] ?; [lia|done].
Qed.

Lemma sound_tag tag :
  has " " tag = false -> sound (fun '(prog, pid) => has " " prog = false /\ has " " pid = false) (splitTagPID tag).
Proof.
  intros Ht. unfold splitTagPID. destruct (2 <? slen tag)%nat eqn:En; [apply Nat.ltb_lt in En|done].
  eapply (sound_bind (fun _ => True)).
  { eapply sound_bind; [apply sound_at; lia|]. done. }
  intros last _. destruct last; [|done].
  eapply sound_bind; [apply sound_open; lia|]. intros [j|] Hj; [|done].
  eapply sound_bind; [apply (sound_sub_has " "); [lia|done]|]. intros prog Hp.
  eapply sound_bind; [apply (sound_sub_has " "); [lia|done]|]. intros pid Hq. done.
Qed.

Lemma sound_3164 b line env now loc :
  0 <= Facility env <= 23 -> 0 <= eSeverity env <= 7 -> suffix_of b line -> sound (env_ok line) (parse3164 b env now loc).
Proof.
  intros Hf Hs Hb. unfold parse3164, stampLen. destruct (slen b <? 15 + 1)%nat eqn:El; [done|]. apply Nat.ltb_ge in El.
  eapply sound_bind; [apply sound_at; lia|]. intros c _. destruct (negb (eqc c " ")); [done|].
  eapply sound_bind; [apply sound_sub; lia|]. intros stamp _.
  eapply sound_bind; [apply sound_bsd|]. intros ts _.
  eapply sound_bind; [apply sound_rest; lia|]. intros b1 E1.
  eapply sound_bind; [apply sound_field|]. intros [host b2] [Hh H2].
  eapply sound_bind; [apply sound_field|]. intros [tag b3] [Ht H3].
  eapply (sound_bind (fun v => v = true -> (1 <= slen tag)%nat)).
  { destruct (0 <? slen tag)%nat eqn:En; [apply Nat.ltb_lt in En|done]. eapply sound_bind; [apply sound_at; lia|]. intros d _. cbn. lia. }
  intros colon Hc. eapply (sound_bind (fun t => has " " t = false)).
  { destruct colon; [|done]. specialize (Hc eq_refl). apply sound_sub_has; [lia|done]. }
  intros tag' Ht'. eapply sound_bind; [by apply sound_tag|]. intros [prog pid] [Hp Hq]. cbn.
  split; cbn [Facility eSeverity Hostname Program PID Message update]; try done.
  eapply suffix_trans; [exact H3|]. eapply suffix_trans; [exact H2|]. eapply suffix_trans; [|exact Hb]. rewrite E1. by eexists.
Qed.

Lemma envelope_sound line now loc : sound (env_ok line) (ParseEnvelope line now loc).
Proof.
  unfold ParseEnvelope. destruct line as [|c0 l0]; [done|]. set (line := String c0 l0).
  replace (slen line =? 0)%nat with false by done.
  eapply sound_bind; [by apply sound_parsePRI|]. intros [rest pri] [Hp Hr].
  set (env := noEnv <| Facility := _ |> <| eSeverity := _ |>).
  assert (0 <= Facility env <= 23 /\ 0 <= eSeverity env <= 7) as [Hf Hs].
  { unfold env. cbn [update Facility eSeverity]. zdiv. }
  eapply (sound_bind (fun v => v = true -> (2 <= slen rest)%nat)).
  { destruct (2 <=? slen rest)%nat eqn:En; [apply Nat.leb_le in En|done].
    eapply sound_bind; [apply sound_at; lia|]. intros a _. eapply sound_bind; [apply sound_at; lia|]. intros b _. intros _. exact En. }
  intros v Hv. destruct v; [|by apply sound_3164]. specialize (Hv eq_refl).
  eapply sound_bind; [by apply sound_rest|]. intros b E. apply sound_5424; [done|done|].
  eapply suffix_trans; [|exact Hr]. rewrite E. by eexists.
Qed.

(** On any bytes, at any time and in any location, parsing an envelope does
    not panic, and an envelope it returns is well formed: facility 0 to 23, severity 0 to
    7, no space in the host, the program or the process id, and a message that is the end
    of the line, unaltered. *)
Theorem envelope_type line now loc :
  match ParseEnvelope line now loc with
  | Ok env => 0 <= Facility env <= 23 /\ 0 <= eSeverity env <= 7
      /\ has " " (Hostname env) = false /\ has " " (Program env) = false /\ has " " (PID env) = false
      /\ exists header, line = header +:+ Message env
  | Fails _ => True
  | Panic => False
  end.
Proof.
  pose proof (envelope_sound line now loc) as H.
  destruct (ParseEnvelope line now loc); [|done|done]. destruct H as [? ? [? [? ?]] ?]. auto 10.
Qed.

(** ** The BSD time stamp *)

Definition digit (n : Z) : ascii := ascii_of_N (Z.to_N (48 + n)).
Definition two_digits (pad : ascii) (n : Z) : string :=
  if n <? 10 then String pad (String (digit n) "") else String (digit (n / 10)) (String (digit (n mod 10)) "").

Definition stamp (m d hh mm ss : Z) : string :=
  nth (Z.to_nat (m - 1)) bsdMonths "" +:+ " " +:+ two_digits " " d +:+ " " +:+ two_digits "0" hh +:+ ":" +:+ two_digits "0" mm
  +:+ ":" +:+ two_digits "0" ss.

(** A fact about the numbers below a bound, by evaluation. *)
Lemma below (n : nat) (f : Z -> bool) :
  forallb f (map Z.of_nat (seq 0 n)) = true -> forall z, 0 <= z < Z.of_nat n -> f z = true.
Proof.
  intros H z Hz. rewrite forallb_forall in H. apply H. rewrite in_map_iff. exists (Z.to_nat z). split; [lia|].
  apply in_seq. lia.
Qed.

Lemma atoiSpace_two pad n : pad = " "%char \/ pad = "0"%char -> 0 <= n < 100 -> atoiSpace (two_digits pad n) = Some n.
Proof.
  intros Hp Hn. set (f pad n := match atoiSpace (two_digits pad n) with Some k => k =? n | None => false end).
  assert (f pad n = true) as Hf.
  { apply (below 100 (f pad)); [|lia]. destruct Hp as [-> | ->]; vm_compute; reflexivity. }
  unfold f in Hf. destruct (atoiSpace (two_digits pad n)); [|done]. bool_prop. by subst.
Qed.

Lemma two_digits_shape pad n : exists a b, two_digits pad n = String a (String b "").
Proof. unfold two_digits. destruct (n <? 10); eauto. Qed.

Lemma month_shape m : 1 <= m <= 12 -> exists a b c, nth (Z.to_nat (m - 1)) bsdMonths "" = String a (String b (String c ""))
  /\ month_of (String a (String b (String c ""))) = Some m /\ eqc a "1" = false.
Proof. intros Hm. apply (month_cases m); [done|..]; vm_compute; do 3 eexists; split; reflexivity || (split; reflexivity). Qed.

(** The stamp resolved against the clock. *)
Definition resolved (loc : Location) (now : Time) (m d hh mm ss : Z) : Time :=
  let t := Date loc (Year loc now) m d hh mm ss 0 in
  if 24 * 60 * Minute <? time_Sub t now then AddYears loc (-1) t else t.

Lemma parse_stamp m d hh mm ss now loc :
  1 <= m <= 12 -> 1 <= d <= 31 -> 0 <= hh < 24 -> 0 <= mm < 60 -> 0 <= ss < 60 ->
  slen (stamp m d hh mm ss) = stampLen /\ parseBSDTime (stamp m d hh mm ss) now loc = Ok (resolved loc now m d hh mm ss).
Proof.
  intros Hm Hd Hh Hmm Hs. unfold stamp.
  pose proof (atoiSpace_two " " d ltac:(auto) ltac:(lia)) as Ad. pose proof (atoiSpace_two "0" hh ltac:(auto) ltac:(lia)) as Ah.
  pose proof (atoiSpace_two "0" mm ltac:(auto) ltac:(lia)) as Am. pose proof (atoiSpace_two "0" ss ltac:(auto) ltac:(lia)) as As.
  destruct (month_shape m Hm) as (c1 & c2 & c3 & -> & Em & _).
  destruct (two_digits_shape " " d) as (d1 & d2 & Ed). destruct (two_digits_shape "0" hh) as (h1 & h2 & Eh).
  destruct (two_digits_shape "0" mm) as (m1 & m2 & Emm). destruct (two_digits_shape "0" ss) as (s1 & s2 & Es).
  rewrite Ed, Eh, Emm, Es in *. clear Ed Eh Emm Es. split; [done|].
  set (b := _ +:+ _).
  assert (b = (String c1 (String c2 (String c3 (String " " (String d1 (String d2 (String " " (String h1 (String h2 (String ":" (String m1 (String m2 (String ":" (String s1 (String s2 "")))))))))))))))) as -> by done.
  unfold parseBSDTime. change (slen _ <? 15)%nat with false. cbn match.
  change (sub _ 0 3) with (Ok (String c1 (String c2 (String c3 "")))). cbn [bind]. rewrite Em.
  change (sub _ 4 6) with (Ok (String d1 (String d2 ""))). cbn [bind]. rewrite Ad.
  replace ((d <? 1) || (31 <? d)) with false by (symmetry; apply orb_false_iff; split; zbool).
  change (sub _ 7 9) with (Ok (String h1 (String h2 ""))). change (sub _ 10 12) with (Ok (String m1 (String m2 ""))).
  change (sub _ 13 15) with (Ok (String s1 (String s2 ""))). unfold at_. cbn [String.get bind].
  change (negb (eqc " " " ") || negb (eqc " " " ") || negb (eqc ":" ":") || negb (eqc ":" ":")) with false. cbn match.
  rewrite Ah, Am, As. replace ((23 <? hh) || (59 <? mm) || (60 <? ss)) with false; [done|].
  symmetry. rewrite !orb_false_iff. repeat split; zbool.
Qed.

(** The year is found when the stamp is of this year or of the last. *)
Lemma resolved_exact off now y m d hh mm ss :
  let loc := FixedZone off in
  let t := Date loc y m d hh mm ss 0 in
  valid_date y m d -> 0 <= hh < 24 /\ 0 <= mm < 60 /\ 0 <= ss < 60 ->
  y <= Year loc now -> now - 364 * 24 * 60 * Minute < t <= now + 24 * 60 * Minute -> Year loc now = y \/ ~ (m = 2 /\ d = 29) ->
  resolved loc now m d hh mm ss = t.
Proof.
  cbv zeta. intros Hv Ht Hy Hwin Hleap. set (loc := FixedZone off) in *. set (t := Date loc y m d hh mm ss 0) in *.
  unfold resolved. cbv zeta.
  assert (Unix now * Second <= now - unix_epoch < Unix now * Second + Second) as Hnow by (unfold Unix, Second, Millisecond; zdiv).
  assert (t = unix_epoch + ((day_number y m d - unix_days) * 86400 + hh * 3600 + mm * 60 + ss - off) * Second) as Et.
  { unfold t, loc. rewrite Date_fixed. unfold time_Unix. lia. }
  destruct (Z.eq_dec (Year loc now) y) as [->|Hne].
  { fold t. rewrite time_Sub_exact by (unfold minDuration, maxDuration, Minute, Second, Millisecond in *; lia).
    by replace (_ <? _) with false by (symmetry; zbool). }
  destruct Hleap as [?|Hleap]; [done|]. destruct (next_year y m d Hv Hleap) as [Hv' Hd].
  assert (Year loc now = y + 1) as ->.
  { assert (~ (y + 2 <= Year loc now)); [|lia]. intros Hge. unfold Year, date_of, civil in Hge.
    destruct (month_day _ _ _) as [m' d']. cbn [fst] in Hge. set (N := local loc now / 86400) in *.
    pose proof (year_of_spec N) as [HN _]. pose proof (days_before_year_mono _ _ Hge) as Hmono. pose proof (valid_in_year y m d Hv) as Hin.
    pose proof (year_length y) as L1. pose proof (year_length (y + 1)) as L2. replace (y + 1 + 1) with (y + 2) in L2 by lia.
    assert (365 <= days_before_year (y + 2) - days_before_year (y + 1)) by (rewrite L2; destruct (is_leap (y + 1)); lia).
    assert (N * 86400 <= Unix now + off + unix_days * 86400) as HNl.
    { unfold N, local, offset_at, loc. cbn [FixedZone lookup_zone fst]. zdiv. }
    unfold day_number in Et. unfold Minute, Second, Millisecond in *. lia. }
  assert (Date loc (y + 1) m d hh mm ss 0 = t + (day_number (y + 1) m d - day_number y m d) * (86400 * Second)) as E'.
  { rewrite Et. unfold loc. rewrite Date_fixed. unfold time_Unix. lia. }
  rewrite time_Sub_exact by (rewrite E'; unfold minDuration, maxDuration, Minute, Second, Millisecond in *; lia).
  replace (_ <? _) with true by (symmetry; rewrite E'; unfold Minute, Second, Millisecond in *; zbool).
  unfold loc, t. rewrite AddYears_Date by done. by replace (y + 1 + -1) with y by lia.
Qed.

(** ** Lines and what they mean *)

Definition is_num (s : string) : bool :=
  (fix go s := match s with EmptyString => true | String c s => bool_decide (is_Some (digit_of c)) && go s end) s.

Lemma pri_text pri :
  0 <= pri < 192 -> (1 <= slen (Itoa pri) <= 3)%nat /\ is_num (Itoa pri) = true /\ Atoi3 (Itoa pri) = Some pri.
Proof.
  intros Hp.
  set (f n := (1 <=? slen (Itoa n))%nat && (slen (Itoa n) <=? 3)%nat && is_num (Itoa n)
              && match Atoi3 (Itoa n) with Some k => k =? n | None => false end).
  assert (f pri = true) as Hf by (apply (below 192 f); [vm_compute; reflexivity|lia]).
  unfold f in Hf. bool_prop. destruct (Atoi3 (Itoa pri)); [|done]. bool_prop. subst. split; [|done].
  split; by apply Nat.leb_le.
Qed.

Lemma digit_not_end c d : digit_of c = Some d -> eqc c ">" = false.
Proof. intros H. destruct (eqc c ">") eqn:E; [|done]. apply eqc_true in E as ->. done. Qed.

Lemma pri_end_digits ds : forall fuel pre rest,
  is_num ds = true -> (slen ds < fuel)%nat -> (slen pre + slen ds <= 4)%nat ->
  pri_end fuel (slen pre) (pre +:+ ds +:+ String ">" rest) = Ok (Some (Some (slen pre + slen ds)%nat)).
Proof.
  induction ds as [|c ds IH]; intros fuel pre rest Hn Hf Hl; (destruct fuel as [|fuel]; [lia|]); cbn [pri_end].
  - rewrite str_app_nil_l. unfold slen at 1. rewrite str_length_app. fold (slen pre). cbn [String.length].
    replace (slen pre <? _)%nat with true by (symmetry; zbool). replace (slen pre <=? 4)%nat with true by (symmetry; change (slen "") with 0%nat in *; zbool).
    cbn [andb]. rewrite at_app. cbn [bind]. rewrite (proj2 (eqc_true ">" ">") eq_refl). by rewrite Nat.add_0_r.
  - unfold slen in Hf, Hl. cbn in Hf, Hl. fold (slen ds) in Hf, Hl. fold (slen pre) in Hl.
    cbn [is_num] in Hn. apply andb_true_iff in Hn as [Hc Hn]. apply bool_decide_eq_true in Hc as [d Hd].
    rewrite str_app_cons. unfold slen at 2. rewrite str_length_app. fold (slen pre). cbn [String.length].
    replace (slen pre <? _)%nat with true by (symmetry; zbool). replace (slen pre <=? 4)%nat with true by (symmetry; zbool).
    cbn [andb]. rewrite at_app. cbn [bind]. rewrite (digit_not_end c d Hd), Hd.
    assert (slen (pre +:+ String c "") = S (slen pre)) as El by (unfold slen; rewrite str_length_app; cbn; lia).
    specialize (IH fuel (pre +:+ String c "") rest Hn ltac:(lia) ltac:(lia)). rewrite El, str_app_assoc in IH.
    change (String c "" +:+ ds +:+ String ">" rest) with (String c (ds +:+ String ">" rest)) in IH. rewrite IH.
    do 3 f_equal. unfold slen. cbn. lia.
Qed.

Lemma parsePRI_text pri rest :
  0 <= pri < 192 -> parsePRI ("<" +:+ Itoa pri +:+ String ">" rest) = Ok (rest, pri).
Proof.
  intros Hp. destruct (pri_text pri Hp) as (Hl & Hn & Ha). unfold parsePRI.
  change (at_ ("<" +:+ Itoa pri +:+ String ">" rest) 0) with (Ok "<"%char). cbn [bind].
  rewrite (proj2 (eqc_true "<" "<") eq_refl). cbn [negb].
  pose proof (pri_end_digits (Itoa pri) 4 "<" rest Hn ltac:(lia) ltac:(change (slen "<") with 1%nat; lia)) as He.
  change (slen "<") with 1%nat in He. rewrite He. cbn [bind]. replace (1 + slen (Itoa pri) <? 2)%nat with false by (symmetry; zbool).
  pose proof (sub_app "<" (Itoa pri) (String ">" rest)) as Hs. change (slen "<") with 1%nat in Hs. rewrite Hs. cbn [bind]. rewrite Ha.
  replace ((pri <? 0) || (191 <? pri)) with false by (symmetry; apply orb_false_iff; split; zbool).
  pose proof (sub_suffix ("<" +:+ Itoa pri +:+ ">") rest) as Hr. rewrite !str_app_assoc in Hr.
  change (">" +:+ rest) with (String ">" rest) in Hr.
  replace (slen ("<" +:+ Itoa pri +:+ ">")) with (S (1 + slen (Itoa pri))) in Hr by (unfold slen; rewrite !str_length_app; cbn; lia).
  by rewrite Hr.
Qed.

Lemma at_app_r a b i : at_ (a +:+ b) (slen a + i) = at_ b i.
Proof. unfold at_. induction a as [|x a IH]; [done|]. rewrite str_app_cons. exact IH. Qed.

Lemma at_app_l a b i : (i < slen a)%nat -> at_ (a +:+ b) i = at_ a i.
Proof.
  unfold at_, slen. revert i. induction a as [|x a IH]; intros i Hi; [cbn in Hi; lia|]. rewrite str_app_cons.
  destruct i as [|i]; [done|]. apply IH. cbn in Hi. lia.
Qed.

Lemma has_at c s i : has c s = false -> (i < slen s)%nat -> exists d, at_ s i = Ok d /\ eqc d c = false.
Proof.
  unfold at_, slen. revert i. induction s as [|x s IH]; intros i H Hi; [cbn in Hi; lia|]. cbn [has] in H. apply orb_false_iff in H as [Hx H].
  destruct i as [|i]; [by exists x|]. apply (IH i H). cbn in Hi. lia.
Qed.

Lemma open_bracket_at tag k n :
  (1 <= k)%nat -> at_ tag k = Ok "["%char -> (forall j, (k < j <= k + n)%nat -> exists c, at_ tag j = Ok c /\ eqc c "[" = false) ->
  open_bracket (k + n) tag = Ok (Some k).
Proof.
  intros Hk Ek. induction n as [|n IH]; intros Hno.
  - rewrite Nat.add_0_r. destruct k; [lia|]. cbn [open_bracket]. rewrite Ek. done.
  - rewrite Nat.add_succ_r. cbn [open_bracket]. destruct (Hno (S (k + n))) as (c & -> & Hc); [lia|]. cbn [bind]. rewrite Hc.
    apply IH. intros j Hj. apply Hno. lia.
Qed.

(** A tag with a process id is taken apart at its last bracket. *)
Lemma splitTagPID_text prog pid :
  prog <> "" -> has "[" pid = false -> splitTagPID (prog +:+ "[" +:+ pid +:+ "]") = Ok (prog, pid).
Proof.
  intros Hne Hp. assert (0 < slen prog)%nat as Hl by (destruct prog; [done|unfold slen; cbn; lia]). set (tag := prog +:+ _).
  assert (slen tag = slen prog + slen pid + 2)%nat as Et by (unfold tag, slen; rewrite !str_length_app; cbn; lia).
  unfold splitTagPID. rewrite Et. replace (2 <? _)%nat with true by (symmetry; zbool).
  replace (slen prog + slen pid + 2 - 1)%nat with (slen prog + (1 + slen pid))%nat by lia.
  assert (forall i, at_ tag (slen prog + (1 + i)) = at_ (pid +:+ "]") i) as Hat by (intros i; unfold tag; by rewrite at_app_r).
  rewrite Hat, at_app. cbn [bind]. rewrite (proj2 (eqc_true "]" "]") eq_refl).
  replace (slen prog + slen pid + 2 - 2)%nat with (slen prog + slen pid)%nat by lia.
  rewrite open_bracket_at; [|lia|unfold tag; apply at_app|].
  2:{ intros j Hj. replace j with (slen prog + (1 + (j - slen prog - 1)))%nat by lia. rewrite Hat, at_app_l by lia. apply has_at; [done|lia]. }
  cbn [bind]. unfold tag at 1. rewrite sub_prefix. cbn [bind].
  pose proof (sub_app (prog +:+ "[") pid "]") as Hs. rewrite !str_app_assoc in Hs. fold tag in Hs.
  replace (slen (prog +:+ "[")) with (S (slen prog)) in Hs by (unfold slen; rewrite str_length_app; cbn; lia).
  replace (slen prog + (1 + slen pid))%nat with (S (slen prog) + slen pid)%nat by lia. rewrite Hs. done.
Qed.

(** The legacy line a daemon sends. *)
Definition bsd_line (pri m d hh mm ss : Z) (host prog pid msg : string) : string :=
  "<" +:+ Itoa pri +:+ String ">" (stamp m d hh mm ss +:+ String " " (host +:+ String " " ((prog +:+ "[" +:+ pid +:+ "]") +:+ ":" +:+ String " " msg))).

Lemma stamp_start m d hh mm ss : 1 <= m <= 12 -> exists c r, stamp m d hh mm ss = String c r /\ eqc c "1" = false.
Proof. intros Hm. unfold stamp. destruct (month_shape m Hm) as (a & b & c & -> & _ & Ha). by exists a; eexists. Qed.

(** A legacy BSD line says what its sender meant.  In a zone without transitions,
    a line stamped with the civil time of an instant, no more than a day ahead of the
    clock and less than 364 days behind it, in the clock's year or the one before, parses
    to that instant, host, program, process id, facility, severity and message, unless
    it is last year's 29 February. *)
Theorem bsd_roundtrip off now y m d hh mm ss pri host prog pid msg
  (loc := FixedZone off) (t := Date loc y m d hh mm ss 0)
  (Hdate : valid_date y m d) (Htime : 0 <= hh < 24 /\ 0 <= mm < 60 /\ 0 <= ss < 60)
  (Hyear : y <= Year loc now) (Hwindow : now - 364 * 24 * 60 * Minute < t <= now + 24 * 60 * Minute)
  (Hleap : Year loc now = y \/ ~ (m = 2 /\ d = 29))
  (Hpri : 0 <= pri < 192) (Hhost : has " " host = false) (Hprog : prog <> "" /\ has " " prog = false)
  (Hpid : has " " pid = false /\ has "[" pid = false) :
  ParseEnvelope (bsd_line pri m d hh mm ss host prog pid msg) now loc
  = Ok (mkEnv t host prog pid (Z.quot pri 8) (Z.rem pri 8) msg).
Proof.
  assert (1 <= m <= 12 /\ 1 <= d <= 31) as [Hm Hd].
  { destruct Hdate as [Hm Hd]. split; [done|]. revert Hd. unfold days_in. destruct (is_leap y); apply (month_cases m); try done; eval_months; lia. }
  destruct (parse_stamp m d hh mm ss now loc) as [Hlen Hparse]; [done|done|lia|lia|lia|].
  destruct (stamp_start m d hh mm ss Hm) as (c & r & Est & Hc).
  unfold ParseEnvelope, bsd_line. change (slen _ =? 0)%nat with false. cbn match. rewrite parsePRI_text by done. cbn [bind].
  set (tag := prog +:+ "[" +:+ pid +:+ "]"). set (body := host +:+ _). set (rest := stamp _ _ _ _ _ +:+ _).
  assert (slen rest = 16 + slen body)%nat as Hr.
  { unfold rest, slen. rewrite str_length_app. fold (slen (stamp m d hh mm ss)). rewrite Hlen. cbn. lia. }
  replace (2 <=? slen rest)%nat with true by (symmetry; zbool).
  assert (at_ rest 0 = Ok c) as -> by (unfold rest; rewrite Est; done). cbn [bind].
  destruct (at_some rest 1) as [c1 ->]; [lia|]. cbn [bind]. rewrite Hc. cbn [andb].
  unfold parse3164. rewrite Hr. replace (16 + slen body <? stampLen + 1)%nat with false by (symmetry; unfold stampLen; zbool).
  assert (at_ rest stampLen = Ok " "%char) as -> by (unfold rest; rewrite <- Hlen; apply at_app). cbn [bind].
  rewrite (proj2 (eqc_true " " " ") eq_refl). cbn [negb].
  assert (sub rest 0 stampLen = Ok (stamp m d hh mm ss)) as -> by (unfold rest; rewrite <- Hlen; apply sub_prefix). cbn [bind].
  rewrite Hparse. cbn [bind]. unfold loc. rewrite (resolved_exact off now y m d hh mm ss) by done. fold loc t.
  assert (sub rest (stampLen + 1) (16 + slen body) = Ok body) as ->.
  { pose proof (sub_suffix (stamp m d hh mm ss +:+ " ") body) as Hs. rewrite str_app_assoc in Hs.
    change (" " +:+ body) with (String " " body) in Hs. fold rest in Hs. rewrite Hr in Hs.
    replace (slen (stamp m d hh mm ss +:+ " ")) with (stampLen + 1)%nat in Hs; [done|].
    unfold slen. rewrite str_length_app. fold (slen (stamp m d hh mm ss)). by rewrite Hlen. }
  cbn [bind]. unfold body. rewrite (field_app host) by done. cbn [ok_or bind].
  change (":" +:+ String " " msg) with (String ":" "" +:+ String " " msg). rewrite <- str_app_assoc.
  assert (has " " (tag +:+ ":") = false) as Htag.
  { unfold tag. rewrite !has_app. destruct Hprog as [_ ->], Hpid as [-> _]. done. }
  rewrite (field_app _ _ Htag). cbn [ok_or bind].
  assert (slen (tag +:+ ":") = S (slen tag)) as El by (unfold slen; rewrite str_length_app; cbn; lia). rewrite El.
  change (0 <? S (slen tag))%nat with true. replace (S (slen tag) - 1)%nat with (slen tag) by lia. rewrite at_app. cbn [bind].
  rewrite (proj2 (eqc_true ":" ":") eq_refl), sub_prefix. cbn [bind]. unfold tag.
  rewrite splitTagPID_text by tauto. done.
Qed.

Lemma bsd_roundtrip_witness :
  ParseEnvelope (bsd_line 134 12 31 23 59 58 "fw" "filterlog" "19325" "16,,,0") demo_now (FixedZone 0)
  = Ok (mkEnv (Date (FixedZone 0) 2025 12 31 23 59 58 0) "fw" "filterlog" "19325" 16 6 "16,,,0").
Proof.
  apply (bsd_roundtrip 0 demo_now 2025 12 31 23 59 58 134 "fw" "filterlog" "19325" "16,,,0");
    vm_compute; intuition congruence.
Defined.

(** The two stamps whose year is not found: last year's leap day, and a clock that is a
    second ahead of the receiver's at the turn of the year. *)
Example leap_day_moves :
  parseBSDTime "Feb 29 12:00:00" (Date UTC 2025 1 10 0 0 0 0) UTC = Ok (Date UTC 2024 3 1 12 0 0 0).
Proof. vm_compute. reflexivity. Qed.
Example new_year_ahead :
  parseBSDTime "Jan  1 00:00:00" (Date UTC 2025 12 31 23 59 59 0) UTC = Ok (Date UTC 2025 1 1 0 0 0 0).
Proof. vm_compute. reflexivity. Qed.

(** ** RFC 5424 *)

(** A byte of a parameter, hidden where it must be. *)
Fixpoint escape (s : string) : string :=
  match s with
  | EmptyString => ""
  | String c s => if eqc c "\" || eqc c "]" then String "\" (String c (escape s)) else String c (escape s)
  end.

Lemma sd_close_escape s rest : sd_close (escape s +:+ String "]" rest) = Some rest.
Proof.
  induction s as [|c s IH]; [done|]. cbn [escape]. destruct (eqc c "\") eqn:E1; [exact IH|].
  destruct (eqc c "]") eqn:E2; [exact IH|]. cbn [orb]. rewrite str_app_cons. cbn [sd_close]. by rewrite E1, E2.
Qed.

Fixpoint sd_text (params : list string) : string :=
  match params with [] => "" | p :: ps => String "[" (escape p +:+ String "]" (sd_text ps)) end.

Lemma sd_elements_text params : forall n rest,
  (length params < n)%nat -> match rest with String "[" _ => False | _ => True end ->
  sd_elements n (sd_text params +:+ rest) = Some rest.
Proof.
  induction params as [|p ps IH]; intros n rest Hn Hr; (destruct n as [|n]; [lia|]); cbn [sd_text].
  - rewrite str_app_nil_l. destruct rest as [|c rest]; [done|]. cbn [sd_elements].
    destruct (eqc c "[") eqn:E; [|done]. apply eqc_true in E as ->. done.
  - rewrite str_app_cons. cbn [sd_elements]. rewrite (proj2 (eqc_true "[" "[") eq_refl), str_app_assoc, str_app_cons, sd_close_escape.
    apply IH; [cbn in Hn; lia|done].
Qed.

Lemma sd_text_length params : (length params <= slen (sd_text params))%nat.
Proof.
  induction params as [|p ps IH]; [cbn; lia|]. cbn [sd_text]. unfold slen in *. cbn [String.length]. rewrite str_length_app. cbn. lia.
Qed.

(** The element of a list of parameters, the nil value for none. *)
Definition structured (params : list string) : string := match params with [] => "-" | _ => sd_text params end.

Lemma skip_text params msg : skipStructuredData (structured params +:+ String " " msg) = Ok msg.
Proof.
  destruct params as [|p ps]; [done|]. cbn [structured]. set (params := p :: ps). unfold skipStructuredData.
  assert (sd_text params +:+ String " " msg = String "[" ((escape p +:+ String "]" (sd_text ps)) +:+ String " " msg)) as E by done.
  rewrite E at 1. change (eqc "[" "-") with false. change (eqc "[" "[") with true. cbn match.
  rewrite sd_elements_text; [done| |done]. unfold slen. rewrite str_length_app.
  pose proof (sd_text_length params). unfold slen in *. cbn [String.length]. lia.
Qed.

Definition line5424 (pri : Z) (ts host app procid msgid : string) (params : list string) (msg : string) : string :=
  "<" +:+ Itoa pri +:+ String ">" ("1 " +:+ (ts +:+ String " " (host +:+ String " " (app +:+ String " " (procid +:+ String " "
    (msgid +:+ String " " (structured params +:+ String " " msg))))))).

(** An RFC 5424 line is read back: with a time stamp that reads as an instant (or
    the nil one), tokens without spaces, any number of elements of structured data with
    any bytes in them escaped as the format asks, and any message, the envelope has
    exactly these parts, the nil value being the empty string. *)
Theorem rfc5424_roundtrip now loc pri ts t host app procid msgid params msg
  (Hpri : 0 <= pri < 192)
  (Hts : ts = "-" /\ t = zero_time \/ ts <> "-" /\ ParseRFC3339 ts = Some t)
  (Htok : has " " ts = false /\ has " " host = false /\ has " " app = false /\ has " " procid = false /\ has " " msgid = false) :
  ParseEnvelope (line5424 pri ts host app procid msgid params msg) now loc
  = Ok (mkEnv t (nilStr host) (nilStr app) (nilStr procid) (Z.quot pri 8) (Z.rem pri 8) msg).
Proof.
  destruct Htok as (H1 & H2 & H3 & H4 & H5). unfold ParseEnvelope, line5424. change (slen _ =? 0)%nat with false. cbn match.
  rewrite parsePRI_text by done. cbn [bind]. set (b := ts +:+ _).
  change (2 <=? slen ("1 " +:+ b))%nat with true. change (at_ ("1 " +:+ b) 0) with (Ok "1"%char). change (at_ ("1 " +:+ b) 1) with (Ok " "%char).
  cbn [bind]. change (eqc "1" "1" && eqc " " " ") with true. cbn match. rewrite (sub_suffix "1 " b : sub ("1 " +:+ b) 2 _ = Ok b). cbn [bind].
  unfold parse5424, b. rewrite field_app by done. cbn [ok_or bind].
  assert ((if str_eq ts "-" then Ok zero_time else ok_or errBadTime (ParseRFC3339 ts)) = Ok t) as ->.
  { destruct Hts as [[-> ->]|[Hne ->]]; [done|]. unfold str_eq. by rewrite (proj2 (String.eqb_neq ts "-") Hne). }
  cbn [bind]. rewrite field_app by done. cbn [ok_or bind]. rewrite field_app by done. cbn [ok_or bind].
  rewrite field_app by done. cbn [ok_or bind]. rewrite field_app by done. cbn [ok_or bind]. rewrite skip_text. done.
Qed.

Lemma rfc5424_roundtrip_witness :
  ParseEnvelope (line5424 38 "2026-07-14T19:50:01Z" "fw" "sshd" "-" "-" ["a k=]"; "b"] "hello [x]") demo_now UTC
  = Ok (mkEnv (time_Unix 1784058601 0) "fw" "sshd" "" 4 6 "hello [x]").
Proof.
  apply (rfc5424_roundtrip demo_now UTC 38 "2026-07-14T19:50:01Z" (time_Unix 1784058601 0) "fw" "sshd" "-" "-" ["a k=]"; "b"] "hello [x]").
  - lia.
  - right. split; [discriminate|vm_compute; reflexivity].
  - repeat split; reflexivity.
Defined.

End Envelope.
