(* ===== verification/Filterlog.v ===== *)
(** * Firewall log rows ([logship/syslog/filterlog.go], [geo.go], [filterlog_domain.go], [filter.go])

    The CSV payload of filterlog parsed into a log record with the identities the
    enrichment snapshot knows; the program and severity filter. *)

From stdpp Require Import base decidable list gmap strings.
From Stdlib Require Import ZArith Lia Ascii.
From S2P Require Import Prelude Netip GoStrings Geo Enrich DnsCache LogQueue OtlpSink Envelope.
Import Queue Envelope.

Module Filterlog.

(** ** [strings.Split] and [strings.Join] on commas *)

Fixpoint Split (s : string) : list string :=
  match s with
  | EmptyString => [""]
  | String c s =>
      if Ascii.eqb c "," then "" :: Split s
      else match Split s with [] => [String c ""] | f :: fs => String c f :: fs end
  end.

Fixpoint Join (l : list string) : string :=
  match l with
  | [] => ""
  | [f] => f
  | f :: l => f +:+ String "," (Join l)
  end.

(** ** Attributes *)

(** [set]: an empty value is not set. *)
Definition set (m : gmap string string) (kv : string * string) : gmap string string :=
  if str_empty kv.2 then m else <[kv.1 := kv.2]> m.

Definition ActionPass : string := "pass".
Definition ActionBlock : string := "block".
Definition MapFilterlogAction (v : string) : string :=
  if str_eq v "pass" then ActionPass else if str_eq v "block" || str_eq v "reject" then ActionBlock else "".

Definition networkType (v : string) : string := if str_eq v "4" then "ipv4" else if str_eq v "6" then "ipv6" else "".
Definition networkTransport (proto : string) : string := if str_eq proto "tcp" || str_eq proto "udp" then proto else "".

Definition ruleRef (rulenr subrulenr : string) : string :=
  if str_empty rulenr then ""
  else if str_empty subrulenr then "rule #" +:+ rulenr
  else "rule #" +:+ rulenr +:+ "." +:+ subrulenr.

Definition at_index (l : list string) (i : nat) : string := default "" (l !! i).

Definition endpoint (ip port : string) : string := if str_empty port then ip else ip +:+ ":" +:+ port.

Definition renderFilterlogBody (action dir ifName ifDev src dst srcPort dstPort proto : string) : string :=
  let name := if str_empty ifName then ifDev else ifName in
  action +:+ (if str_empty dir then "" else " " +:+ dir) +:+ (if str_empty name then "" else " on " +:+ name)
  +:+ ": " +:+ endpoint src srcPort +:+ " -> " +:+ endpoint dst dstPort
  +:+ (if str_empty proto then "" else " (" +:+ proto +:+ ")").

(** A lookup that adds nothing on a miss. *)
Definition found (k : string) (v : option string) : list (string * string) :=
  match v with Some v => [(k, v)] | None => [] end.

Definition enrichEndpoint (snap : option Enrich.Snapshot) (side ip port proto : string) : list (string * string) :=
  if str_empty ip then []
  else
    match snap with
    | Some s =>
        found (side +:+ ".hostname") (Enrich.Hostname s ip) ++ found (side +:+ ".mac") (Enrich.MAC s ip)
        ++ [(side +:+ ".scope", Enrich.Scope s ip)]
    | None => []
    end
    ++ (if str_empty port then [] else found (side +:+ ".service") (Enrich.ServiceName port proto)).

Definition geoSourceMaxMind : string := "maxmind".

(** [geoAttrs]; the database is a parameter, [None] when it is not configured. *)
Definition geoAttrs (geo : option (Addr -> GeoResult * bool)) (side ip : string) : list (string * string) :=
  match geo with
  | None => []
  | Some lookup =>
      if str_empty ip then []
      else
        match ParseAddr ip with
        | None => []
        | Some addr =>
            let '(res, hit) := lookup addr in
            if negb hit then []
            else
              (if str_empty (CountryISO res) then []
               else [(side +:+ ".geo.country", CountryISO res); (side +:+ ".geo.country_source", geoSourceMaxMind)])
              ++ (if str_empty (ContinentCode res) then [] else [(side +:+ ".geo.continent", ContinentCode res)])
              ++ (if resASN res =? 0 then [] else [(side +:+ ".geo.asn", "AS" +:+ Itoa (resASN res))])
              ++ (if str_empty (resASOrg res) then [] else [(side +:+ ".geo.as_org", resASOrg res)])
        end
  end.

(** ** The row *)

(** What both IP versions carry after the header. *)
Record ipBody := mkBody { protoNum : string; protoName : string; src : string; dst : string; tail : list string }.

(** The nine fields of the header, by position. *)
Record header := mkHeader {
  rulenr : string; subrulenr : string; anchorname : string; rid : string; hInterface : string; reason : string;
  haction : string; hdir : string; ipversion : string }.

Definition split_header (f : list string) : option (header * list string) :=
  match f with
  | a :: b :: c :: d :: e :: g :: h :: i :: v :: rest => Some (mkHeader a b c d e g h i v, rest)
  | _ => None
  end.

(** The protocol's name comes before its number on IPv6, after it on IPv4. *)
Definition ip_body (version : string) (f : list string) : option ipBody :=
  if str_eq version "4" then
    match f with
    | tos :: ecn :: ttl :: id :: offset :: ipflags :: protonum :: protoname :: len :: s :: d :: tail => Some (mkBody protonum protoname s d tail)
    | _ => None
    end
  else if str_eq version "6" then
    match f with
    | class :: flow :: hoplimit :: protoname :: protonum :: len :: s :: d :: tail => Some (mkBody protonum protoname s d tail)
    | _ => None
    end
  else None.

Definition ruleLabel (snap : option Enrich.Snapshot) (rid : string) : option string :=
  match snap with None => None | Some s => Enrich.RuleLabel s rid end.
Definition ifaceName (snap : option Enrich.Snapshot) (dev : string) : option string :=
  match snap with None => None | Some s => if str_empty dev then None else Enrich.InterfaceName s dev end.

Definition no_rule (rid : string) : bool := str_empty rid || str_eq rid "0".

(** The rule's identity, and whether the rules table missed. *)
Definition rule_attrs (snap : option Enrich.Snapshot) (h : header) : list (string * string) * bool :=
  if no_rule (rid h) then ([("rule.ref", ruleRef (rulenr h) (subrulenr h))], false)
  else
    match ruleLabel snap (rid h) with
    | Some descr => ([("rule.id", rid h); ("rule.description", descr)], false)
    | None => ([("rule.id", rid h)], true)
    end.

Definition tcp_names : list string :=
  ["src.port"; "dst.port"; ""; "tcp.flags"; "tcp.seq"; "tcp.ack"; "tcp.window"; "tcp.urg"; "tcp.options"].

(** The named fields of the tail that are there. *)
Definition tcp_attrs (tail : list string) : list (string * string) :=
  List.filter (fun kv => negb (str_empty kv.1)) (zip tcp_names tail).

(** The protocol's tail, with the ports. *)
Definition tail_attrs (b : ipBody) : list (string * string) * (string * string) :=
  let ports := (at_index (tail b) 0, at_index (tail b) 1) in
  if str_eq (protoNum b) "6" then (tcp_attrs (tail b), ports)
  else if str_eq (protoNum b) "17" then ([("src.port", ports.1); ("dst.port", ports.2)], ports)
  else if str_eq (protoNum b) "112" then ([], ("", ""))
  else ([("icmp_extra", Join (tail b))], ("", "")).

(** The calls of [set], in order. *)
Definition row_attrs (geo : option (Addr -> GeoResult * bool)) (snap : option Enrich.Snapshot) (h : header) (b : ipBody)
  : list (string * string) :=
  let '(tails, (srcPort, dstPort)) := tail_attrs b in
  [("action", haction h); (Otlp.AttrAction, MapFilterlogAction (haction h)); ("direction", hdir h); ("interface", hInterface h);
   ("ip.version", ipversion h); ("network.type", networkType (ipversion h)); ("protocol", protoName b);
   ("network.transport", networkTransport (protoName b)); ("src.ip", src b); ("dst.ip", dst b)]
  ++ (rule_attrs snap h).1 ++ tails ++ found "interface.name" (ifaceName snap (hInterface h))
  ++ enrichEndpoint snap "src" (src b) srcPort (protoName b) ++ enrichEndpoint snap "dst" (dst b) dstPort (protoName b)
  ++ geoAttrs geo "src" (src b) ++ geoAttrs geo "dst" (dst b).

(** [parseFilterlog], with whether it reported a miss of the rules table; [None] is
    [ok = false]. *)
Definition parseFilterlog (geo : option (Addr -> GeoResult * bool)) (env : Envelope) (snap : option Enrich.Snapshot)
  : option (LogRecord * bool) :=
  '(h, rest) ← split_header (Split (Message env));
  b ← ip_body (ipversion h) rest;
  let attrs := fold_left set (row_attrs geo snap h b) ∅ in
  let '(_, (srcPort, dstPort)) := tail_attrs b in
  let sev := if str_eq (haction h) "block" then SeverityWarn else SeverityInfo in
  Some (mkLog (eTimestamp env)
          (renderFilterlogBody (haction h) (hdir h) (default "" (attrs !! "interface.name")) (hInterface h) (src b) (dst b)
             srcPort dstPort (protoName b))
          attrs sev "", (rule_attrs snap h).2).

(** The join with the DNS answers of the flow lane. *)
Definition enrichFilterlogDomain (cache : option Dns.DNSCache) (now : Time) (rec : LogRecord)
  : LogRecord * string * option Dns.DNSCache :=
  match cache with
  | None => (rec, "", None)
  | Some c =>
      match ParseAddr (default "" (Attributes rec !! "src.ip")), ParseAddr (default "" (Attributes rec !! "dst.ip")) with
      | Some s, Some d =>
          let '(domain, c) := Dns.Lookup s d now c in
          match domain with
          | Some domain =>
              if str_empty domain then (rec, "", Some c)
              else (rec <| Attributes ::= <["dst.domain" := domain]> |>, domain, Some c)
          | None => (rec, "", Some c)
          end
      | _, _ => (rec, "", Some c)
      end
  end.

(** ** The filter *)

Record Filter := mkFilter { include : gmap string bool; exclude : gmap string bool; minSeverity : Z; hasSeverity : bool }.

Definition name_set (l : list string) : gmap string bool :=
  fold_left (fun m p => let p := GoStrings.TrimSpace p in if str_empty p then m else <[p := true]> m) l ∅.

Definition NewFilter (include exclude : list string) (minSeverity : Z) (hasSeverity : bool) : Filter :=
  mkFilter (name_set include) (name_set exclude) minSeverity hasSeverity.

Definition filter_Allow (f : option Filter) (program : string) (severity : Z) : bool :=
  match f with
  | None => true
  | Some f =>
      if hasSeverity f && (minSeverity f <? severity) then false
      else if 0 <? zsize (include f) then default false (include f !! program)
      else negb (default false (exclude f !! program))
  end.

Definition filter_Enabled (f : option Filter) : bool :=
  match f with
  | None => false
  | Some f => (0 <? zsize (include f)) || (0 <? zsize (exclude f)) || hasSeverity f
  end.

Definition demo_env (msg : string) : Envelope := mkEnv zero_time "fw" "filterlog" "1" 16 6 msg.
Example demo_row :
  option_map (fun r => (Body r.1, Attributes r.1 !! "dst.service", Attributes r.1 !! "tcp.window", lSeverity r.1, r.2))
    (parseFilterlog None (demo_env "16,115,,0,igb0,match,block,in,4,0x0,,64,0,0,DF,6,tcp,60,10.0.0.6,10.0.0.114,57920,22,0,S,1,0,512,,mss") None)
  = Some ("block in on igb0: 10.0.0.6:57920 -> 10.0.0.114:22 (tcp)", Some "ssh", Some "512", SeverityWarn, false).
Proof. vm_compute. reflexivity. Qed.

(** ** Rows are read back *)

Lemma Split_nonempty s : Split s <> [].
Proof. destruct s as [|c s]; [done|]. cbn [Split]. destruct (Ascii.eqb c ","); [done|]. by destruct (Split s). Qed.

Lemma Split_app f s : has "," f = false -> Split (f +:+ String "," s) = f :: Split s.
Proof.
  induction f as [|c f IH]; intros H; [done|]. cbn [has] in H. apply orb_false_iff in H as [Hc H].
  rewrite str_app_cons. cbn [Split]. by rewrite Hc, (IH H).
Qed.

Lemma Split_last f : has "," f = false -> Split f = [f].
Proof.
  induction f as [|c f IH]; intros H; [done|]. cbn [has] in H. apply orb_false_iff in H as [Hc H].
  cbn [Split]. by rewrite Hc, (IH H).
Qed.

Lemma Split_Join l : l <> [] -> Forall (fun f => has "," f = false) l -> Split (Join l) = l.
Proof.
  intros Hne Hf. induction Hf as [|f l Hf Hl IH]; [done|]. destruct l as [|g l]; [by apply Split_last|].
  change (Join (f :: g :: l)) with (f +:+ String "," (Join (g :: l))). rewrite Split_app, IH by done. done.
Qed.

(** The keys a row can set, in the order of the code. *)
Definition endpoint_keys (side : string) : list string :=
  [side +:+ ".hostname"; side +:+ ".mac"; side +:+ ".scope"; side +:+ ".service"].
Definition geo_keys (side : string) : list string :=
  [side +:+ ".geo.country"; side +:+ ".geo.country_source"; side +:+ ".geo.continent"; side +:+ ".geo.asn"; side +:+ ".geo.as_org"].
Definition all_keys : list string :=
  ["action"; Otlp.AttrAction; "direction"; "interface"; "ip.version"; "network.type"; "protocol"; "network.transport"; "src.ip"; "dst.ip"]
  ++ ["rule.ref"; "rule.id"; "rule.description"]
  ++ ["src.port"; "dst.port"; "tcp.flags"; "tcp.seq"; "tcp.ack"; "tcp.window"; "tcp.urg"; "tcp.options"; "icmp_extra"]
  ++ ["interface.name"] ++ endpoint_keys "src" ++ endpoint_keys "dst" ++ geo_keys "src" ++ geo_keys "dst".

Lemma all_keys_nodup : NoDup all_keys.
Proof. apply (bool_decide_unpack _). vm_compute. exact I. Qed.

Lemma found_keys k v : map fst (found k v) `sublist_of` [k].
Proof. destruct v; cbn; [done|]. apply sublist_nil_l. Qed.

Lemma endpoint_sub snap side ip port proto : map fst (enrichEndpoint snap side ip port proto) `sublist_of` endpoint_keys side.
Proof.
  unfold enrichEndpoint, endpoint_keys. destruct (str_empty ip); [apply sublist_nil_l|]. rewrite map_app.
  apply (sublist_app _ [_; _; _] _ [_]).
  - destruct snap as [s|]; [|apply sublist_nil_l]. rewrite !map_app. apply (sublist_app _ [_] _ [_; _]); [apply found_keys|].
    by apply (sublist_app _ [_] _ [_]); [apply found_keys|].
  - destruct (str_empty port); [apply sublist_nil_l|apply found_keys].
Qed.

Lemma geo_sub geo side ip : map fst (geoAttrs geo side ip) `sublist_of` geo_keys side.
Proof.
  unfold geoAttrs, geo_keys. destruct geo as [lookup|]; [|apply sublist_nil_l]. destruct (str_empty ip); [apply sublist_nil_l|].
  destruct (ParseAddr ip) as [addr|]; [|apply sublist_nil_l]. destruct (lookup addr) as [res hit]. destruct (negb hit); [apply sublist_nil_l|].
  rewrite !map_app. apply (sublist_app _ [_; _] _ [_; _; _]); [by destruct (str_empty _); [apply sublist_nil_l|]|].
  apply (sublist_app _ [_] _ [_; _]); [by destruct (str_empty _); [apply sublist_nil_l|]|].
  apply (sublist_app _ [_] _ [_]); [by destruct (_ =? 0); [apply sublist_nil_l|]|by destruct (str_empty _); [apply sublist_nil_l|]].
Qed.

Ltac sub_keys := repeat first [apply sublist_nil_l | apply sublist_skip | apply sublist_cons].

Lemma tail_sub b : map fst (tail_attrs b).1 `sublist_of`
  ["src.port"; "dst.port"; "tcp.flags"; "tcp.seq"; "tcp.ack"; "tcp.window"; "tcp.urg"; "tcp.options"; "icmp_extra"].
Proof.
  unfold tail_attrs. destruct (str_eq (protoNum b) "6").
  - destruct (tail b) as [|a0 [|a1 [|a2 [|a3 [|a4 [|a5 [|a6 [|a7 [|a8 r]]]]]]]]]; cbn; sub_keys.
  - destruct (str_eq (protoNum b) "17"); [cbn; sub_keys|]. destruct (str_eq (protoNum b) "112"); cbn; sub_keys.
Qed.

Lemma rule_sub snap h : map fst (rule_attrs snap h).1 `sublist_of` ["rule.ref"; "rule.id"; "rule.description"].
Proof. unfold rule_attrs. destruct (no_rule (rid h)); [cbn; sub_keys|]. destruct (ruleLabel snap (rid h)); cbn; sub_keys. Qed.

(** No attribute is set twice. *)
Lemma row_attrs_nodup geo snap h b : NoDup (map fst (row_attrs geo snap h b)).
Proof.
  eapply sublist_NoDup; [apply all_keys_nodup|]. unfold row_attrs, all_keys. pose proof (tail_sub b) as Ht.
  destruct (tail_attrs b) as [tails [sp dp]]. cbn [fst] in Ht. rewrite !map_app.
  apply sublist_app; [done|]. apply sublist_app; [apply rule_sub|]. apply sublist_app; [done|]. apply sublist_app; [apply found_keys|].
  apply sublist_app; [apply endpoint_sub|]. apply sublist_app; [apply endpoint_sub|]. apply sublist_app; apply geo_sub.
Qed.

(** A value that is there. *)
Definition present (v : string) : option string := if str_empty v then None else Some v.

Lemma set_other l : forall m k, k ∉ map fst l -> fold_left set l m !! k = m !! k.
Proof.
  induction l as [|[k' v] l IH]; intros m k Hk; cbn [fold_left]; [done|]. cbn in Hk. apply not_elem_of_cons in Hk as [Hne Hk].
  rewrite IH by done. unfold set. cbn [fst snd]. destruct (str_empty v); [done|]. by rewrite lookup_insert_ne.
Qed.

Lemma set_in l : forall m k v, NoDup (map fst l) -> m !! k = None -> (k, v) ∈ l -> fold_left set l m !! k = present v.
Proof.
  induction l as [|[k' v'] l IH]; intros m k v Hnd Hm Hin; [by apply elem_of_nil in Hin|]. cbn in Hnd. apply NoDup_cons in Hnd as [Hk Hnd].
  cbn [fold_left]. apply elem_of_cons in Hin as [[= <- <-]|Hin].
  - rewrite set_other by done. unfold set, present. cbn [fst snd]. destruct (str_empty v); [done|]. by rewrite lookup_insert_eq.
  - apply IH; [done| |done]. assert (k' <> k) by (intros ->; apply Hk, list_elem_of_In, in_map_iff; exists (k, v); split; [done|by apply list_elem_of_In]).
    unfold set. cbn [fst snd]. destruct (str_empty v'); [done|]. by rewrite lookup_insert_ne.
Qed.

(** A key the row does not set. *)
Lemma set_absent l k : k ∉ map fst l -> fold_left set l ∅ !! k = None.
Proof. intros H. rewrite set_other by done. apply lookup_empty. Qed.

(** ** The meaning of a row *)

Definition header_list (h : header) : list string :=
  [rulenr h; subrulenr h; anchorname h; rid h; hInterface h; reason h; haction h; hdir h; ipversion h].

(** The fields of a row of either version. *)
Inductive row_of (h : header) (b : ipBody) : list string -> Prop :=
| Row4 tos ecn ttl id offset ipflags len : ipversion h = "4" ->
    row_of h b (header_list h ++ [tos; ecn; ttl; id; offset; ipflags; protoNum b; protoName b; len; src b; dst b] ++ tail b)
| Row6 class flow hoplimit len : ipversion h = "6" ->
    row_of h b (header_list h ++ [class; flow; hoplimit; protoName b; protoNum b; len; src b; dst b] ++ tail b).

Lemma row_parses h b f : row_of h b f -> exists rest, split_header f = Some (h, rest) /\ ip_body (ipversion h) rest = Some b /\ f <> [].
Proof. intros [tos ecn ttl id offset ipflags len E|class flow hop len E]; destruct h, b; cbn in *; subst; eexists; done. Qed.

(** The ports of a row, where its protocol has them. *)
Definition ports_of (b : ipBody) : string * string :=
  if str_eq (protoNum b) "6" || str_eq (protoNum b) "17" then (at_index (tail b) 0, at_index (tail b) 1) else ("", "").

Lemma set_local l : forall m m' k, m !! k = m' !! k -> fold_left set l m !! k = fold_left set l m' !! k.
Proof.
  induction l as [|[k' v] l IH]; intros m m' k Hm; cbn [fold_left]; [done|]. apply IH. unfold set. cbn [fst snd].
  destruct (str_empty v); [done|]. destruct (decide (k' = k)) as [->|]; [by rewrite !lookup_insert_eq|by rewrite !lookup_insert_ne].
Qed.

Lemma not_in_sub (k : string) l keys : map fst l `sublist_of` keys -> bool_decide (k ∈ keys) = false -> k ∉ map (@fst string string) l.
Proof. intros Hs Hk Hin. apply bool_decide_eq_false in Hk. by apply Hk, (elem_of_sublist _ _ _ Hin). Qed.

(** A key only the protocol's tail sets. *)
Lemma tail_only geo snap h b k :
  k = "src.port" \/ k = "dst.port" ->
  fold_left set (row_attrs geo snap h b) ∅ !! k = fold_left set (tail_attrs b).1 ∅ !! k.
Proof.
  intros Hk. unfold row_attrs. destruct (tail_attrs b) as [tails [sp dp]]. cbn [fst]. set (A := [_; _; _; _; _; _; _; _; _; _]).
  rewrite (fold_left_app _ A), (fold_left_app _ (rule_attrs snap h).1), (fold_left_app _ tails), set_other.
  - apply set_local. rewrite lookup_empty. rewrite <- fold_left_app. apply set_absent. rewrite map_app, not_elem_of_app. split.
    + unfold A. cbn. destruct Hk as [-> | ->]; apply (bool_decide_unpack _); vm_compute; exact I.
    + eapply not_in_sub; [apply rule_sub|]. by destruct Hk as [-> | ->].
  - eapply not_in_sub with (keys := ["interface.name"] ++ endpoint_keys "src" ++ endpoint_keys "dst" ++ geo_keys "src" ++ geo_keys "dst").
    + rewrite !map_app. apply sublist_app; [apply found_keys|]. apply sublist_app; [apply endpoint_sub|].
      apply sublist_app; [apply endpoint_sub|]. apply sublist_app; apply geo_sub.
    + by destruct Hk as [-> | ->].
Qed.

Lemma tail_ports b :
  (tail_attrs b).2 = ports_of b
  /\ fold_left set (tail_attrs b).1 ∅ !! "src.port" = present (ports_of b).1
  /\ fold_left set (tail_attrs b).1 ∅ !! "dst.port" = present (ports_of b).2.
Proof.
  pose proof (tail_sub b) as Hs. assert (NoDup (map fst (tail_attrs b).1)) as Hnd.
  { eapply sublist_NoDup; [|exact Hs]. apply (bool_decide_unpack _). vm_compute. exact I. }
  revert Hs Hnd. unfold tail_attrs, ports_of. destruct (str_eq (protoNum b) "6"); cbn [orb].
  - destruct (tail b) as [|a0 [|a1 r]]; intros Hs Hnd; (split; [done|]); split;
      first [done | apply (set_in _ _ _ _ Hnd (lookup_empty _)); cbn; set_solver | apply set_absent; cbn; set_solver].
  - destruct (str_eq (protoNum b) "17"); [intros Hs Hnd; split; [done|]; split; apply set_in; try done; cbn; set_solver|].
    destruct (str_eq (protoNum b) "112"); intros _ _; (split; [done|]); split; apply set_absent; cbn; set_solver.
Qed.

(** Which field lists are rows. *)
Lemma short_rows f :
  (length f < 9)%nat \/ (f !! 8%nat = Some "4" /\ (length f < 20)%nat) \/ (f !! 8%nat = Some "6" /\ (length f < 17)%nat)
    \/ (f !! 8%nat <> Some "4" /\ f !! 8%nat <> Some "6")
  <-> ('(h, rest) ← split_header f; ip_body (ipversion h) rest) = None.
Proof.
  destruct f as [|x0 [|x1 [|x2 [|x3 [|x4 [|x5 [|x6 [|x7 [|v rest]]]]]]]]]; cbn -[ip_body]; try (split; [done|intros _; left; lia]).
  unfold ip_body. cbn [ipversion]. destruct (str_eq v "4") eqn:E4; bool_prop.
  - subst v. destruct rest as [|y0 [|y1 [|y2 [|y3 [|y4 [|y5 [|y6 [|y7 [|y8 [|y9 [|y10 rest]]]]]]]]]]]; cbn;
      (split; [intuition (done || lia || congruence)|intros H; first [discriminate H | right; left; split; [done|lia]]]).
  - destruct (str_eq v "6") eqn:E6; bool_prop.
    + subst v. destruct rest as [|y0 [|y1 [|y2 [|y3 [|y4 [|y5 [|y6 [|y7 rest]]]]]]]]; cbn;
        (split; [intuition (done || lia || congruence)|intros H; first [discriminate H | right; right; left; split; [done|lia]]]).
    + split; [done|]. intros _. right. right. right. split; congruence.
Qed.

Lemma mapped_action v x : present (MapFilterlogAction v) = Some x -> x = "pass" \/ x = "block".
Proof.
  unfold MapFilterlogAction. destruct (str_eq v "pass"); [intros [= <-]; by left|].
  destruct (_ || _); [intros [= <-]; by right|done].
Qed.

Lemma rule_missed snap h : (rule_attrs snap h).2 = true <-> rid h <> "" /\ rid h <> "0" /\ ruleLabel snap (rid h) = None.
Proof.
  unfold rule_attrs, no_rule, str_empty. destruct (str_eq (rid h) "") eqn:E1; [bool_prop; cbn; naive_solver|].
  destruct (str_eq (rid h) "0") eqn:E2; bool_prop; cbn [orb]; [naive_solver|]. destruct (ruleLabel snap (rid h)); cbn; naive_solver.
Qed.

Lemma row_read geo env snap h b f :
  row_of h b f -> Forall (fun x => has "," x = false) f -> Message env = Join f ->
  exists rec missed, parseFilterlog geo env snap = Some (rec, missed)
    /\ Timestamp rec = eTimestamp env
    /\ Attributes rec !! "src.ip" = present (src b) /\ Attributes rec !! "dst.ip" = present (dst b)
    /\ Attributes rec !! "protocol" = present (protoName b) /\ Attributes rec !! "ip.version" = present (ipversion h)
    /\ Attributes rec !! "src.port" = present (ports_of b).1 /\ Attributes rec !! "dst.port" = present (ports_of b).2
    /\ Attributes rec !! "action" = present (haction h)
    /\ Attributes rec !! "opnsense.action" = present (MapFilterlogAction (haction h))
    /\ (forall v, Attributes rec !! "opnsense.action" = Some v -> v = "pass" \/ v = "block")
    /\ (lSeverity rec = SeverityWarn <-> haction h = "block")
    /\ (missed = true <-> rid h <> "" /\ rid h <> "0" /\ ruleLabel snap (rid h) = None).
Proof.
  intros Hrow Hf Hmsg. destruct (row_parses h b f Hrow) as (rest & Eh & Eb & Hne).
  unfold parseFilterlog. rewrite Hmsg, (Split_Join f Hne Hf), Eh. cbn [mbind option_bind]. rewrite Eb. cbn [mbind option_bind].
  pose proof (tail_ports b) as (_ & Hsp & Hdp). pose proof (row_attrs_nodup geo snap h b) as Hnd.
  rewrite <- (tail_only geo snap h b) in Hsp by auto. rewrite <- (tail_only geo snap h b) in Hdp by auto.
  assert (forall k v, (k, v) ∈ [("action", haction h); (Otlp.AttrAction, MapFilterlogAction (haction h)); ("direction", hdir h);
    ("interface", hInterface h); ("ip.version", ipversion h); ("network.type", networkType (ipversion h)); ("protocol", protoName b);
    ("network.transport", networkTransport (protoName b)); ("src.ip", src b); ("dst.ip", dst b)] ->
    fold_left set (row_attrs geo snap h b) ∅ !! k = present v) as Hget.
  { intros k v Hin. apply set_in; [done|apply lookup_empty|]. unfold row_attrs. destruct (tail_attrs b) as [tails [sp dp]].
    apply elem_of_app. by left. }
  destruct (tail_attrs b) as [tails [sp dp]]. do 2 eexists. split; [reflexivity|]. cbn [Timestamp Attributes lSeverity].
  assert (fold_left set (row_attrs geo snap h b) ∅ !! "opnsense.action" = present (MapFilterlogAction (haction h))) as Hact
    by (apply Hget; set_solver).
  split; [done|]. do 4 (split; [apply Hget; set_solver|]). split; [done|]. split; [done|]. split; [apply Hget; set_solver|].
  split; [done|]. split; [intros v Hv; rewrite Hact in Hv; by eapply mapped_action|]. split; [|apply rule_missed].
  destruct (str_eq (haction h) "block") eqn:E; bool_prop; naive_solver.
Qed.

(** A firewall log row means what its fields say.  A message that is the
    comma-joined row of either IP version is parsed: the record has the envelope's time,
    the source and destination, the protocol's name (which trades places with its number
    between the versions), the ports where the protocol has them, the action with its
    label, which is pass or block or absent, a warning exactly when it is a block; the
    rules table is reported as missed exactly when the row names a rule that has no
    label.  A row that is too short or of another version is not parsed. *)
Theorem filterlog_exact geo env snap :
  (forall h b f, row_of h b f -> Forall (fun x => has "," x = false) f -> Message env = Join f ->
     exists rec missed, parseFilterlog geo env snap = Some (rec, missed)
       /\ Timestamp rec = eTimestamp env
       /\ Attributes rec !! "src.ip" = present (src b) /\ Attributes rec !! "dst.ip" = present (dst b)
       /\ Attributes rec !! "protocol" = present (protoName b) /\ Attributes rec !! "ip.version" = present (ipversion h)
       /\ Attributes rec !! "src.port" = present (ports_of b).1 /\ Attributes rec !! "dst.port" = present (ports_of b).2
       /\ Attributes rec !! "action" = present (haction h)
       /\ Attributes rec !! "opnsense.action" = present (MapFilterlogAction (haction h))
       /\ (forall v, Attributes rec !! "opnsense.action" = Some v -> v = "pass" \/ v = "block")
       /\ (lSeverity rec = SeverityWarn <-> haction h = "block")
       /\ (missed = true <-> rid h <> "" /\ rid h <> "0" /\ ruleLabel snap (rid h) = None))
  /\ (let f := Split (Message env) in
      (length f < 9)%nat \/ (f !! 8%nat = Some "4" /\ (length f < 20)%nat) \/ (f !! 8%nat = Some "6" /\ (length f < 17)%nat)
        \/ (f !! 8%nat <> Some "4" /\ f !! 8%nat <> Some "6")
      <-> parseFilterlog geo env snap = None).
Proof.
  split; [intros h b f Hrow Hf Hmsg; by eapply row_read|]. cbv zeta. unfold parseFilterlog.
  pose proof (short_rows (Split (Message env))) as Hs. rewrite Hs.
  destruct (split_header (Split (Message env))) as [[h rest]|]; cbn; [|done]. destruct (ip_body (ipversion h) rest); cbn; [|done].
  by destruct (tail_attrs _) as [? []].
Qed.

Lemma filterlog_exact_witness :
  let h := mkHeader "16" "115" "" "0" "igb0" "match" "block" "in" "6" in
  let b := mkBody "17" "udp" "fe80::1" "ff02::fb" ["5353"; "5353"; "88"] in
  let f := header_list h ++ ["0x00"; "0x0"; "255"; "udp"; "17"; "88"; "fe80::1"; "ff02::fb"] ++ ["5353"; "5353"; "88"] in
  exists rec missed, parseFilterlog None (demo_env (Join f)) None = Some (rec, missed)
    /\ Attributes rec !! "protocol" = Some "udp" /\ lSeverity rec = SeverityWarn.
Proof.
  intros h b f.
  destruct (proj1 (filterlog_exact None (demo_env (Join f)) None) h b f) as (rec & missed & E & _ & _ & _ & Hp & _ & _ & _ & _ & _ & _ & Hs & _).
  - apply (Row6 h b "0x00" "0x0" "255" "88"). reflexivity.
  - repeat (constructor; [reflexivity|]). constructor.
  - reflexivity.
  - exists rec, missed. split; [exact E|]. split; [exact Hp|]. apply Hs. reflexivity.
Defined.

(** A filter that is not enabled passes everything; one with a severity floor drops only
    what is less severe. *)
Lemma filter_default f program severity : filter_Enabled f = false -> filter_Allow f program severity = true.
Proof.
  destruct f as [f|]; [|done]. cbn. intros H. bool_prop. rewrite H0. cbn [andb].
  replace (0 <? zsize (include f)) with false by (symmetry; zbool).
  assert (exclude f = ∅) as ->; [|by rewrite lookup_empty].
  pose proof (zsize_nonneg (exclude f)). apply map_size_empty_iff. unfold zsize in *. lia.
Qed.

End Filterlog.
