(* ===== verification/GoRegexp.v ===== *)
(** * Regular expressions ([regexp] of the standard library)

    The fragment the sources use: literals, classes, groups, alternation, greedy and lazy
    repetition, the anchors and word boundaries, with the leftmost-first matches and the
    captures the package documents.  Patterns are given as the sources spell them. *)

From stdpp Require Import base decidable list gmap strings.
From Stdlib Require Import ZArith Lia Ascii.
From S2P Require Import Prelude Netip GoStrings.

Module Regexp.

(** ** Runes *)

(** A rune with the bytes it was read from; a byte that begins no valid encoding is the
    replacement rune. *)
Definition token : Type := Z * string.

Definition byte_of (c : ascii) : Z := Z.of_N (N_of_ascii c).
Definition in_range (lo hi x : Z) : bool := (lo <=? x) && (x <=? hi).
Definition RuneError : Z := 65533.

(** The range of the second byte, by the first. *)
Definition second_range (b : Z) : Z * Z :=
  if b =? 224 then (160, 191) else if b =? 237 then (128, 159)
  else if b =? 240 then (144, 191) else if b =? 244 then (128, 143) else (128, 191).

Definition cont (b : Z) : bool := in_range 128 191 b.

(** The width of the encoding a string begins with, 1 when it is not valid. *)
Definition rune_of (s : string) : option (Z * nat) :=
  match s with
  | EmptyString => None
  | String c0 s =>
      let b0 := byte_of c0 in
      Some
        (if b0 <? 128 then (b0, 1%nat)
         else
           match s with
           | EmptyString => (RuneError, 1%nat)
           | String c1 s =>
               let b1 := byte_of c1 in
               let ok1 := in_range (second_range b0).1 (second_range b0).2 b1 in
               if in_range 194 223 b0 && ok1 then ((b0 - 192) * 64 + (b1 - 128), 2%nat)
               else
                 match s with
                 | EmptyString => (RuneError, 1%nat)
                 | String c2 s =>
                     let b2 := byte_of c2 in
                     if in_range 224 239 b0 && ok1 && cont b2 then ((b0 - 224) * 4096 + (b1 - 128) * 64 + (b2 - 128), 3%nat)
                     else
                       match s with
                       | EmptyString => (RuneError, 1%nat)
                       | String c3 _ =>
                           let b3 := byte_of c3 in
                           if in_range 240 244 b0 && ok1 && cont b2 && cont b3
                           then ((b0 - 240) * 262144 + (b1 - 128) * 4096 + (b2 - 128) * 64 + (b3 - 128), 4%nat)
                           else (RuneError, 1%nat)
                       end
                 end
           end)
  end.

Fixpoint runes_fuel (fuel : nat) (s : string) : list token :=
  match fuel with
  | O => []
  | S fuel =>
      match rune_of s with
      | None => []
      | Some (r, w) => (r, str_take w s) :: runes_fuel fuel (str_drop w s)
      end
  end.
Definition runes (s : string) : list token := runes_fuel (String.length s) s.

(** The bytes of a run of tokens. *)
Definition text (l : list token) : string := foldr (fun t s => t.2 +:+ s) "" l.

(** ** Syntax *)

Definition ranges : Type := list (Z * Z).

Inductive re : Type :=
| Eps
| Lit (s : string)
| Cls (neg : bool) (rs : ranges)
| Cat (a b : re)
| Alt (a b : re)
| Star (greedy : bool) (r : re)
| Cap (i : nat) (r : re)
| Bol | Eol | WordB.

Definition Opt (greedy : bool) (r : re) : re := if greedy then Alt r Eps else Alt Eps r.
Definition Plus (greedy : bool) (r : re) : re := Cat r (Star greedy r).

Fixpoint upto (greedy : bool) (m : nat) (r : re) : re :=
  match m with O => Eps | S O => Opt greedy r | S m => Opt greedy (Cat r (upto greedy m r)) end.

(** Sequences, with the literals that touch made one. *)
Fixpoint cats (l : list re) : re :=
  match l with
  | [] => Eps
  | r :: l =>
      match r, cats l with
      | Eps, q => q
      | r, Eps => r
      | Lit s, Lit t => Lit (s +:+ t)
      | Lit s, Cat (Lit t) q => Cat (Lit (s +:+ t)) q
      | r, q => Cat r q
      end
  end.

Fixpoint alts (l : list re) : re :=
  match l with [] => Eps | [r] => r | r :: l => Alt r (alts l) end.

Definition repeat_re (greedy : bool) (r : re) (n : nat) (m : option nat) : re :=
  match m with
  | None => cats (repeat r n ++ [Star greedy r])
  | Some m => cats (repeat r n ++ [upto greedy (m - n) r])
  end.

Fixpoint in_ranges (rs : ranges) (c : Z) : bool :=
  match rs with [] => false | (lo, hi) :: rs => in_range lo hi c || in_ranges rs c end.
Definition in_class (neg : bool) (rs : ranges) (c : Z) : bool := xorb neg (in_ranges rs c).

Fixpoint nullable (r : re) : bool :=
  match r with
  | Eps | Star _ _ | Bol | Eol | WordB => true
  | Lit s => str_empty s
  | Cls _ _ => false
  | Cat a b => nullable a && nullable b
  | Alt a b => nullable a || nullable b
  | Cap _ r => nullable r
  end.

(** No loop over a body that can match nothing. *)
Fixpoint loops_ok (r : re) : bool :=
  match r with
  | Cat a b | Alt a b => loops_ok a && loops_ok b
  | Star _ r => negb (nullable r) && loops_ok r
  | Cap _ r => loops_ok r
  | _ => true
  end.

(** ** Reading a pattern *)

Definition digit_class : ranges := [(48, 57)].
Definition space_class : ranges := [(9, 10); (12, 13); (32, 32)].
Definition word_class : ranges := [(48, 57); (65, 90); (95, 95); (97, 122)].
Definition maxRune : Z := 1114111.
Definition not_digit : ranges := [(0, 47); (58, maxRune)].
Definition not_space : ranges := [(0, 8); (11, 11); (14, 31); (33, maxRune)].
Definition not_word : ranges := [(0, 47); (58, 64); (91, 94); (96, 96); (123, maxRune)].

(** The class a letter after a backslash names. *)
Definition escape_class (c : ascii) : option ranges :=
  match c with
  | "d"%char => Some digit_class | "s"%char => Some space_class | "w"%char => Some word_class
  | "D"%char => Some not_digit | "S"%char => Some not_space | "W"%char => Some not_word
  | _ => None
  end.

(** The byte another escape stands for; letters and digits other than these are not in
    the fragment. *)
Definition escape_byte (c : ascii) : option Z :=
  match c with
  | "t"%char => Some 9 | "n"%char => Some 10 | "r"%char => Some 13 | "f"%char => Some 12
  | _ => let b := byte_of c in
         if (b <? 128) && negb (in_ranges [(48, 57); (65, 90); (97, 122)] b) then Some b else None
  end.

Definition hex_digit (c : ascii) : option Z :=
  let b := byte_of c in
  if in_range 48 57 b then Some (b - 48) else if in_range 97 102 b then Some (b - 87)
  else if in_range 65 70 b then Some (b - 55) else None.

(** The escape after a backslash: a class, or one byte. *)
Definition read_escape (s : string) : option ((ranges + Z) * string) :=
  match s with
  | String "x" (String a (String b s)) =>
      x ← hex_digit a; y ← hex_digit b;
      if x <? 8 then Some (inr (16 * x + y), s) else None
  | String c s =>
      match escape_class c with
      | Some rs => Some (inl rs, s)
      | None => b ← escape_byte c; Some (inr b, s)
      end
  | EmptyString => None
  end.

(** The items of a bracket expression, after its caret. *)
Fixpoint read_items (fuel : nat) (first : bool) (s : string) (acc : ranges) : option (ranges * string) :=
  match fuel with
  | O => None
  | S fuel =>
      match s with
      | EmptyString => None
      | String c s' =>
          if Ascii.eqb c "]" && negb first then Some (acc, s')
          else
            '(item, s') ← (if Ascii.eqb c "\" then read_escape s' else if byte_of c <? 128 then Some (inr (byte_of c), s') else None);
            match item with
            | inl rs => read_items fuel false s' (acc ++ rs)
            | inr lo =>
                match s' with
                | String d (String e s'') =>
                    if Ascii.eqb d "-" && negb (Ascii.eqb e "]") then
                      '(hi, s'') ← (if Ascii.eqb e "\" then read_escape s'' else Some (inr (byte_of e), s''));
                      match hi with
                      | inr hi => if lo <=? hi then read_items fuel false s'' (acc ++ [(lo, hi)]) else None
                      | inl _ => None
                      end
                    else read_items fuel false s' (acc ++ [(lo, lo)])
                | _ => read_items fuel false s' (acc ++ [(lo, lo)])
                end
            end
      end
  end.

Definition read_class (s : string) : option (re * string) :=
  let '(neg, s) := match s with String "^" s => (true, s) | _ => (false, s) end in
  '(rs, s) ← read_items (S (String.length s)) true s [];
  Some (Cls neg rs, s).

Fixpoint read_number (s : string) (acc : option nat) : option nat * string :=
  match s with
  | String c s' =>
      if in_range 48 57 (byte_of c) then read_number s' (Some (default O acc * 10 + Z.to_nat (byte_of c - 48))%nat)
      else (acc, s)
  | EmptyString => (acc, s)
  end.

(** [{n}], [{n,}] or [{n,m}] after the brace. *)
Definition read_bounds (s : string) : option (nat * option nat * string) :=
  match read_number s None with
  | (Some n, String "}" s) => Some (n, Some n, s)
  | (Some n, String "," s) =>
      match read_number s None with
      | (None, String "}" s) => Some (n, None, s)
      | (Some m, String "}" s) => if (n <=? m)%nat then Some (n, Some m, s) else None
      | _ => None
      end
  | _ => None
  end.

Definition lazy_mark (s : string) : bool * string :=
  match s with String "?" s => (false, s) | _ => (true, s) end.

(** The repetition after an atom. *)
Definition read_repeat (r : re) (s : string) : re * string :=
  match s with
  | String "*" s => let '(g, s) := lazy_mark s in (Star g r, s)
  | String "+" s => let '(g, s) := lazy_mark s in (Plus g r, s)
  | String "?" s => let '(g, s) := lazy_mark s in (Opt g r, s)
  | String "{" s' =>
      match read_bounds s' with
      | Some (n, m, s') => let '(g, s') := lazy_mark s' in (repeat_re g r n m, s')
      | None => (r, s)
      end
  | _ => (r, s)
  end.

(** An alternation, up to the parenthesis that closes it: the alternatives and the atoms
    read so far are in reverse, [n] is the next group. *)
Fixpoint read (fuel : nat) (dotall : bool) (n : nat) (alt : list re) (cat : list re) (s : string) : option (re * nat * string) :=
  match fuel with
  | O => None
  | S fuel =>
      let done := Some (alts (rev (cats (rev cat) :: alt)), n, s) in
      let atom r s := let '(r, s) := read_repeat r s in read fuel dotall n alt (r :: cat) s in
      match s with
      | EmptyString => done
      | String c s' =>
          match c with
          | ")"%char => done
          | "|"%char => read fuel dotall n (cats (rev cat) :: alt) [] s'
          | "("%char =>
              match s' with
              | String "?" (String ":" s') =>
                  '(r, n, s') ← read fuel dotall n [] [] s';
                  match s' with
                  | String ")" s' => let '(r, s') := read_repeat r s' in read fuel dotall n alt (r :: cat) s'
                  | _ => None
                  end
              | String "?" _ => None
              | _ =>
                  '(r, n', s') ← read fuel dotall (S n) [] [] s';
                  match s' with
                  | String ")" s' => let '(r, s') := read_repeat (Cap n r) s' in read fuel dotall n' alt (r :: cat) s'
                  | _ => None
                  end
              end
          | "["%char => '(r, s') ← read_class s'; atom r s'
          | "\"%char =>
              match s' with
              | String "b" s' => read fuel dotall n alt (WordB :: cat) s'
              | _ =>
                  '(e, s') ← read_escape s';
                  match e with
                  | inl rs => atom (Cls false rs) s'
                  | inr b => atom (Lit (String (ascii_of_N (Z.to_N b)) "")) s'
                  end
              end
          | "."%char => atom (Cls true (if dotall then [] else [(10, 10)])) s'
          | "^"%char => read fuel dotall n alt (Bol :: cat) s'
          | "$"%char => read fuel dotall n alt (Eol :: cat) s'
          | "*"%char | "+"%char | "?"%char => None
          | c => if byte_of c <? 128 then atom (Lit (String c "")) s' else None
          end
      end
  end.

(** A compiled pattern with the number of its groups. *)
Record Regexp := mkRegexp { prog : re; groups : nat }.

Definition Compile (pattern : string) : option Regexp :=
  let '(dotall, s) := match pattern with
                      | String "(" (String "?" (String "s" (String ")" s))) => (true, s)
                      | _ => (false, pattern)
                      end in
  '(r, n, rest) ← read (S (String.length s)) dotall 1 [] [] s;
  if str_empty rest && loops_ok r then Some (mkRegexp r (n - 1)) else None.

(** [MustCompile]; a pattern outside the fragment matches nothing, so every pattern the
    sources use is checked to be in it. *)
Definition nothing : Regexp := mkRegexp (Cls false []) 0.
Definition MustCompile (pattern : string) : Regexp := default nothing (Compile pattern).
Definition compiles (pattern : string) : bool := bool_decide (is_Some (Compile pattern)).

(** ** Matching *)

Record state := mkState { before : option Z; rest : list token; caps : list (nat * string) }.

Definition at_word (c : option Z) : bool := match c with Some c => in_ranges word_class c | None => false end.
Definition next_rune (st : state) : option Z := option_map fst (head (rest st)).

(** One token of the input. *)
Definition step (ok : Z -> bool) (st : state) : option state :=
  match rest st with
  | (c, _) :: ts => if ok c then Some (mkState (Some c) ts (caps st)) else None
  | [] => None
  end.

Fixpoint steps (s : string) (st : state) : option state :=
  match s with
  | EmptyString => Some st
  | String c s => st ← step (Z.eqb (byte_of c)) st; steps s st
  end.

Definition save (i : nat) (st st' : state) : state :=
  mkState (before st') (rest st') ((i, text (take (length (rest st) - length (rest st')) (rest st))) :: caps st').

Section Match.
Context {A : Type}.

(** The first result in the order of preference. *)
Fixpoint m (r : re) (st : state) (k : state -> option A) : option A :=
  match r with
  | Eps => k st
  | Lit s => match steps s st with Some st => k st | None => None end
  | Cls neg rs => match step (in_class neg rs) st with Some st => k st | None => None end
  | Cat a b => m a st (fun st => m b st k)
  | Alt a b => match m a st k with Some x => Some x | None => m b st k end
  | Star greedy r =>
      let fix loop (n : nat) (st : state) : option A :=
        match n with
        | O => k st
        | S n =>
            let again := fun _ : unit => m r st (fun st' => if (length (rest st') <? length (rest st))%nat then loop n st' else None) in
            if greedy then match again tt with Some x => Some x | None => k st end
            else match k st with Some x => Some x | None => again tt end
        end in
      loop (length (rest st)) st
  | Cap i r => m r st (fun st' => k (save i st st'))
  | Bol => match before st with None => k st | Some _ => None end
  | Eol => match rest st with [] => k st | _ => None end
  | WordB => if xorb (at_word (before st)) (at_word (next_rune st)) then k st else None
  end.
End Match.

(** The leftmost match from a position, with the state it begins in. *)
Fixpoint find (r : re) (prev : option Z) (ts : list token) : option (state * state) :=
  let st := mkState prev ts [] in
  match m r st Some with
  | Some st' => Some (st, st')
  | None => match ts with [] => None | (c, _) :: ts => find r (Some c) ts end
  end.

Definition matched (st st' : state) : string := text (take (length (rest st) - length (rest st')) (rest st)).

Fixpoint assoc (i : nat) (l : list (nat * string)) : option string :=
  match l with [] => None | (j, s) :: l => if (i =? j)%nat then Some s else assoc i l end.

Definition submatches (n : nat) (st st' : state) : list string :=
  matched st st' :: map (fun i => default "" (assoc i (caps st'))) (seq 1 n).

Definition FindStringSubmatch (re : Regexp) (s : string) : option (list string) :=
  option_map (fun '(st, st') => submatches (groups re) st st') (find (prog re) None (runes s)).

Definition MatchString (re : Regexp) (s : string) : bool :=
  match find (prog re) None (runes s) with Some _ => true | None => false end.

(** [FindAllString] of a pattern that does not match the empty string; [limit] is its
    [n], without one when it is [None]. *)
Fixpoint find_all (fuel : nat) (r : Regexp) (limit : option nat) (prev : option Z) (ts : list token) : list (list string) :=
  match fuel, limit with
  | O, _ | _, Some O => []
  | S fuel, _ =>
      match find (prog r) prev ts with
      | None => []
      | Some (st, st') => submatches (groups r) st st' :: find_all fuel r (option_map pred limit) (before st') (rest st')
      end
  end.
Definition FindAllStringSubmatch (r : Regexp) (s : string) (limit : option nat) : list (list string) :=
  find_all (S (String.length s)) r limit None (runes s).
Definition FindAllString (r : Regexp) (s : string) (limit : option nat) : list string :=
  map (fun l => default "" (head l)) (FindAllStringSubmatch r s limit).

(** The [i]-th submatch, [m[i]]. *)
Definition group (l : list string) (i : nat) : string := default "" (l !! i).

Example find_demo :
  FindStringSubmatch (MustCompile "^(Accepted|Failed) (\S+) for (invalid user )?(\S+) from (\S+) port (\d+)")
    "Failed password for root from 10.0.0.6 port 4711 ssh2"
  = Some ["Failed password for root from 10.0.0.6 port 4711"; "Failed"; "password"; ""; "root"; "10.0.0.6"; "4711"].
Proof. vm_compute. reflexivity. Qed.

Example find_all_demo :
  FindAllString (MustCompile "\b(?:(?:\d{1,3}\.){3}\d{1,3}|(?:[0-9a-fA-F]{1,4}:){2,7}[0-9a-fA-F]{0,4})\b")
    "from 10.0.0.6[4500] to 2001:db8:0:0:0:0:0:1 v26.1.11" None
  = ["10.0.0.6"; "2001:db8:0:0:0:0:0:1"].
Proof. vm_compute. reflexivity. Qed.

(** ** What a match is *)

(** The matches of an expression, whatever the preference among them. *)
Inductive sem : re -> state -> state -> Prop :=
| SemEps st : sem Eps st st
| SemLit s st st' : steps s st = Some st' -> sem (Lit s) st st'
| SemCls neg rs st st' : step (in_class neg rs) st = Some st' -> sem (Cls neg rs) st st'
| SemCat a b st st1 st2 : sem a st st1 -> sem b st1 st2 -> sem (Cat a b) st st2
| SemAltL a b st st' : sem a st st' -> sem (Alt a b) st st'
| SemAltR a b st st' : sem b st st' -> sem (Alt a b) st st'
| SemNil g r st : sem (Star g r) st st
| SemCons g r st st1 st2 :
    sem r st st1 -> (length (rest st1) < length (rest st))%nat -> sem (Star g r) st1 st2 -> sem (Star g r) st st2
| SemCap i r st st' : sem r st st' -> sem (Cap i r) st (save i st st')
| SemBol st : before st = None -> sem Bol st st
| SemEol st : rest st = [] -> sem Eol st st
| SemWordB st : xorb (at_word (before st)) (at_word (next_rune st)) = true -> sem WordB st st.

#[local] Hint Constructors sem : core.

Lemma m_sound {A} r : forall st (k : state -> option A) x, m r st k = Some x -> exists st', sem r st st' /\ k st' = Some x.
Proof.
  induction r as [|s|neg rs|a IHa b IHb|a IHa b IHb|g r IH|i r IH| | |]; intros st k x H; cbn [m] in H.
  - eauto.
  - destruct (steps s st) eqn:E; [eauto|done].
  - destruct (step _ st) eqn:E; [eauto|done].
  - apply IHa in H as (st1 & H1 & H). apply IHb in H as (st2 & H2 & H). eauto.
  - destruct (m a st k) eqn:E; [simplify_eq; apply IHa in E as (st' & ? & ?); eauto|]. apply IHb in H as (st' & ? & ?). eauto.
  - revert H. generalize (length (rest st)). intros n. revert st. induction n as [|n IHn]; intros st H; [eauto|].
    set (again := m r st _) in H.
    assert (again = Some x -> exists st', sem (Star g r) st st' /\ k st' = Some x) as Hagain.
    { intros E. apply IH in E as (st1 & H1 & E). destruct (length (rest st1) <? length (rest st))%nat eqn:El; [|done].
      apply IHn in E as (st2 & H2 & E). apply Nat.ltb_lt in El. eauto. }
    destruct g; [destruct again; [auto|eauto]|]. destruct (k st) eqn:Ek; [simplify_eq; eauto|auto].
  - apply IH in H as (st' & ? & ?). eauto.
  - destruct (before st) eqn:E; [done|]. eauto.
  - destruct (rest st) eqn:E; [eauto|done].
  - destruct (xorb _ _) eqn:E; [eauto|done].
Qed.

Lemma sem_shorter r st st' : sem r st st' -> (length (rest st') <= length (rest st))%nat.
Proof.
  induction 1 as [|s st st' H|neg rs st st' H| | | | | | | | |]; cbn; try lia.
  - revert st H. induction s as [|c s IH]; intros st H; cbn in H; [simplify_eq; lia|]. unfold step in H.
    destruct (rest st) as [|[d b] ts] eqn:E; [done|]. destruct (byte_of c =? d); [|done]. apply IH in H. cbn in *. lia.
  - unfold step in H. destruct (rest st) as [|[d b] ts]; [done|]. destruct (in_class neg rs d); simplify_eq. cbn. lia.
Qed.

Lemma m_complete {A} r st st' : sem r st st' -> forall k : state -> option A, k st' <> None -> m r st k <> None.
Proof.
  assert (forall g r (loop_k : state -> option A) st st', sem (Star g r) st st' ->
    (forall st st', sem r st st' -> forall k : state -> option A, k st' <> None -> m r st k <> None) -> loop_k st' <> None ->
    m (Star g r) st loop_k <> None) as Hstar.
  { clear. intros g r k st st' H IH Hk. cbn [m]. assert (exists n, n = length (rest st)) as [n En] by eauto. rewrite <- En.
    assert (length (rest st) <= n)%nat as Hn by lia. clear En. revert n Hn. remember (Star g r) as q eqn:Eq.
    induction H as [| | | | | |g' r' st|g' r' st st1 st2 H1 _ Hlt H2 IH2| | | |]; simplify_eq; intros n Hn.
    - destruct n as [|n]; [done|]. destruct g; [by destruct (m r st _)|by destruct (k st)].
    - destruct n as [|n]; [lia|]. specialize (IH2 eq_refl Hk n ltac:(lia)).
      set (again := m r st _). assert (again <> None) as Ha.
      { apply (IH st st1 H1). destruct (Nat.ltb_spec (length (rest st1)) (length (rest st))); [done|lia]. }
      destruct g; [by destruct again|]. by destruct (k st). }
  revert st st'. induction r as [|s|neg rs|a IHa b IHb|a IHa b IHb|g r IH|i r IH| | |]; intros st st' H k Hk; try (by eapply Hstar); cbn [m]; inv H.
  - done.
  - by case_match; simplify_eq.
  - by case_match; simplify_eq.
  - eapply IHa; [done|]. by eapply IHb.
  - assert (m a st k <> None) by by eapply IHa. by destruct (m a st k).
  - assert (m b st k <> None) by by eapply IHb. by destruct (m a st k).
  - by eapply IH.
  - by case_match.
  - by case_match.
  - by case_match.
Qed.

(** [MatchString] is whether the pattern matches somewhere. *)
Lemma find_matches r : forall prev ts,
  find r prev ts <> None <->
  exists pre post, ts = pre ++ post /\ exists st', sem r (mkState (from_option (fun t => Some t.1) prev (last pre)) post []) st'.
Proof.
  intros prev ts. revert prev. induction ts as [|[c b] ts IH]; intros prev; cbn [find].
  - destruct (m r _ Some) as [st'|] eqn:E.
    + apply m_sound in E as (st & H & _). split; [|done]. intros _. exists [], []. eauto.
    + split; [done|]. intros (pre & post & Hts & st' & H). symmetry in Hts. apply app_nil in Hts as [-> ->].
      by apply (m_complete _ _ _ H Some) in E.
  - destruct (m r _ Some) as [st'|] eqn:E.
    + apply m_sound in E as (st & H & _). split; [|done]. intros _. exists [], ((c, b) :: ts). eauto.
    + rewrite IH. split.
      * intros (pre & post & -> & st' & H). exists ((c, b) :: pre), post. split; [done|]. exists st'.
        rewrite last_cons. by destruct (last pre).
      * intros ([|t pre] & post & Hts & st' & H); cbn in Hts.
        -- subst post. by apply (m_complete _ _ _ H Some) in E.
        -- simplify_eq. exists pre, post. split; [done|]. exists st'. rewrite last_cons in H. by destruct (last pre).
Qed.

(** ** Runes of a string *)

Lemma byte_range c : 0 <= byte_of c < 256.
Proof. unfold byte_of. pose proof (N_ascii_bounded c). lia. Qed.

Lemma second_low b : 128 <= (second_range b).1.
Proof. unfold second_range. repeat case_match; cbn; lia. Qed.

Lemma in_range_low lo hi x : x < lo -> in_range lo hi x = false.
Proof. intros H. unfold in_range. destruct (Z.leb_spec lo x); [lia|done]. Qed.

(** The shape of what is read. *)
Lemma rune_of_spec s : match rune_of s with
  | None => s = ""
  | Some (r, w) => (1 <= w <= String.length s)%nat /\ (128 <= r <= maxRune \/ exists c t, s = String c t /\ r = byte_of c /\ r < 128 /\ w = 1%nat)
  end.
Proof.
  destruct s as [|c0 s]; [done|]. unfold rune_of. cbv zeta. pose proof (byte_range c0) as H0.
  destruct (Z.ltb_spec (byte_of c0) 128) as [Ha|Ha]; [split; [cbn; lia|right; by exists c0, s]|].
  destruct s as [|c1 s]; [split; [cbn; lia|left; unfold RuneError, maxRune; lia]|]. pose proof (byte_range c1) as H1.
  pose proof (second_low (byte_of c0)) as H2. set (ok := in_range (second_range _).1 _ _).
  assert (ok = true -> 128 <= byte_of c1 <= 191) as Hok.
  { unfold ok, in_range. intros E. apply andb_true_iff in E as [E E']. bool_prop. split; [lia|].
    revert E'. unfold second_range. repeat case_match; cbn [snd]; lia. }
  assert (byte_of c0 = 224 -> ok = true -> 160 <= byte_of c1) as H224.
  { intros Eb. unfold ok, in_range, second_range. rewrite Eb. cbn [Z.eqb fst snd Pos.eqb]. intros E. bool_prop. lia. }
  assert (byte_of c0 = 240 -> ok = true -> 144 <= byte_of c1) as H240.
  { intros Eb. unfold ok, in_range, second_range. rewrite Eb. cbn [Z.eqb fst snd Pos.eqb]. intros E. bool_prop. lia. }
  assert (byte_of c0 = 244 -> ok = true -> byte_of c1 <= 143) as H244.
  { intros Eb. unfold ok, in_range, second_range. rewrite Eb. cbn [Z.eqb fst snd Pos.eqb]. intros E. bool_prop. lia. }
  unfold cont, maxRune, RuneError. destruct (in_range 194 223 (byte_of c0) && ok) eqn:E2.
  { unfold in_range in E2. bool_prop. split; [cbn; lia|]. left. destruct ok; [specialize (Hok eq_refl); lia|done]. }
  destruct s as [|c2 s]; [split; [cbn; lia|left; lia]|]. pose proof (byte_range c2).
  destruct (in_range 224 239 (byte_of c0) && ok && in_range 128 191 (byte_of c2)) eqn:E3.
  { unfold in_range in E3. bool_prop. split; [cbn; lia|]. left. destruct ok; [specialize (Hok eq_refl)|done].
    destruct (Z.eq_dec (byte_of c0) 224); [specialize (H224 ltac:(lia) eq_refl)|]; lia. }
  destruct s as [|c3 s]; [split; [cbn; lia|left; lia]|]. pose proof (byte_range c3).
  destruct (in_range 240 244 (byte_of c0) && ok && in_range 128 191 (byte_of c2) && in_range 128 191 (byte_of c3)) eqn:E4.
  { unfold in_range in E4. bool_prop. split; [cbn; lia|]. left. destruct ok; [specialize (Hok eq_refl)|done].
    destruct (Z.eq_dec (byte_of c0) 240); [specialize (H240 ltac:(lia) eq_refl)|]; [lia|].
    destruct (Z.eq_dec (byte_of c0) 244); [specialize (H244 ltac:(lia) eq_refl)|]; lia. }
  split; [cbn; lia|left; lia].
Qed.

Lemma str_split n s : str_take n s +:+ str_drop n s = s.
Proof. revert s. induction n as [|n IH]; intros [|c s]; cbn; try done. change (String c (str_take n s +:+ str_drop n s) = String c s). by rewrite IH. Qed.

Lemma str_drop_length n s : String.length (str_drop n s) = (String.length s - n)%nat.
Proof. revert s. induction n as [|n IH]; intros [|c s]; try done. apply IH. Qed.

Lemma runes_fuel_enough n : forall s n', (String.length s <= n)%nat -> (String.length s <= n')%nat -> runes_fuel n s = runes_fuel n' s.
Proof.
  induction n as [|n IH]; intros s n' Hn Hn'; pose proof (rune_of_spec s) as Hs.
  - destruct s; [|cbn in Hn; lia]. by destruct n'.
  - destruct n' as [|n']; [by destruct s; [|cbn in Hn'; lia]|]. cbn [runes_fuel]. destruct (rune_of s) as [[r w]|]; [|done].
    f_equal. apply IH; rewrite str_drop_length; lia.
Qed.

Lemma runes_eq s : runes s = match rune_of s with None => [] | Some (r, w) => (r, str_take w s) :: runes (str_drop w s) end.
Proof.
  unfold runes. pose proof (rune_of_spec s) as Hs. destruct s as [|c s]; [done|]. cbn [String.length].
  change (runes_fuel (S (String.length s)) (String c s)) with
    (match rune_of (String c s) with None => [] | Some (r, w) => (r, str_take w (String c s)) :: runes_fuel (String.length s) (str_drop w (String c s)) end).
  destruct (rune_of (String c s)) as [[r w]|]; [|done]. f_equal. apply runes_fuel_enough; rewrite str_drop_length; cbn in *; lia.
Qed.

(** Induction along the runes. *)
Lemma runes_ind (P : string -> Prop) :
  P "" -> (forall s r w, rune_of s = Some (r, w) -> P (str_drop w s) -> P s) -> forall s, P s.
Proof.
  intros H0 HS s. remember (String.length s) as n eqn:En. assert (String.length s <= n)%nat as Hn by lia. clear En.
  revert s Hn. induction n as [|n IH]; intros s Hn; [by destruct s; [|cbn in Hn; lia]|].
  pose proof (rune_of_spec s) as Hs. destruct (rune_of s) as [[r w]|] eqn:E; [|by subst].
  apply (HS s r w E), IH. rewrite str_drop_length. lia.
Qed.

Lemma text_runes s : text (runes s) = s.
Proof.
  induction s as [|s r w E IH] using runes_ind; [done|]. rewrite runes_eq, E. cbn [text foldr snd].
  change (str_take w s +:+ text (runes (str_drop w s)) = s). rewrite IH. apply str_split.
Qed.

Lemma text_app a b : text (a ++ b) = text a +:+ text b.
Proof. induction a as [|[c t] a IH]; [done|]. change (t +:+ text (a ++ b) = (t +:+ text a) +:+ text b). by rewrite IH, str_app_assoc. Qed.

Lemma runes_ascii c s : byte_of c < 128 -> runes (String c s) = (byte_of c, String c "") :: runes s.
Proof.
  intros H. rewrite runes_eq. unfold rune_of. cbv zeta. rewrite (proj2 (Z.ltb_lt _ _) H). cbn [str_take str_drop]. by destruct s.
Qed.

(** An ASCII byte is a rune of its own, whatever comes before it. *)
Lemma rune_of_sep f c s : byte_of c < 128 -> f <> "" -> rune_of (f +:+ String c s) = rune_of f.
Proof.
  intros Hc Hf. destruct f as [|c0 f]; [done|]. rewrite str_app_cons. unfold rune_of. cbv zeta.
  pose proof (second_low (byte_of c0)). destruct (byte_of c0 <? 128); [done|].
  assert (forall hi, in_range (second_range (byte_of c0)).1 hi (byte_of c) = false) as Hs by (intros; apply in_range_low; lia).
  assert (cont (byte_of c) = false) as Hcont by (apply in_range_low; lia).
  destruct f as [|c1 f]; [rewrite str_app_nil_l, Hs, !andb_false_r; cbn [andb]; by repeat case_match|]. rewrite str_app_cons.
  destruct f as [|c2 f]; [rewrite str_app_nil_l, Hcont, !andb_false_r; cbn [andb]; by repeat case_match|]. rewrite str_app_cons.
  destruct f as [|c3 f]; [rewrite str_app_nil_l, Hcont, !andb_false_r; by repeat case_match|]. by rewrite str_app_cons.
Qed.

Lemma str_take_short w f g : (w <= String.length f)%nat -> str_take w (f +:+ g) = str_take w f /\ str_drop w (f +:+ g) = str_drop w f +:+ g.
Proof.
  revert w. induction f as [|c f IH]; intros [|w] H; cbn in H; try done; try lia. rewrite str_app_cons. cbn [str_take str_drop].
  destruct (IH w ltac:(lia)) as [-> ->]. done.
Qed.

Lemma runes_sep f c s : byte_of c < 128 -> runes (f +:+ String c s) = runes f ++ (byte_of c, String c "") :: runes s.
Proof.
  intros Hc. induction f as [|f r w E IH] using runes_ind; [by apply runes_ascii|].
  pose proof (rune_of_spec f) as Hf. rewrite E in Hf. destruct Hf as [Hw _].
  assert (f <> "") by (intros ->; cbn in Hw; lia). rewrite (runes_eq (f +:+ _)), rune_of_sep, E by done. rewrite (runes_eq f), E.
  destruct (str_take_short w f (String c s) ltac:(lia)) as [-> ->]. rewrite IH. done.
Qed.

(** A literal of ASCII bytes. *)
Definition is_ascii (s : string) : bool := forallb (fun c => byte_of c <? 128) (String.list_ascii_of_string s).
Definition tokens (s : string) : list token := map (fun c => (byte_of c, String c "")) (String.list_ascii_of_string s).

Lemma runes_lit a s : is_ascii a = true -> runes (a +:+ s) = tokens a ++ runes s.
Proof.
  induction a as [|c a IH]; intros H; [done|]. unfold is_ascii in H. cbn in H. apply andb_true_iff in H as [Hc H]. bool_prop.
  rewrite str_app_cons, runes_ascii by done. cbn. f_equal. by apply IH.
Qed.

Lemma runes_then f a s : is_ascii a = true -> a <> "" -> runes (f +:+ a +:+ s) = runes f ++ tokens a ++ runes s.
Proof.
  intros Ha Hne. destruct a as [|c a]; [done|]. unfold is_ascii in Ha. cbn in Ha. apply andb_true_iff in Ha as [Hc H]. bool_prop.
  rewrite str_app_cons, runes_sep by done. do 2 f_equal. rewrite runes_lit by done. done.
Qed.

(** ** What a group can hold *)

(** The words of an expression without loops and classes. *)
Fixpoint lang (r : re) : option (list string) :=
  match r with
  | Eps | Bol | Eol | WordB => Some [""]
  | Lit s => Some [s]
  | Cat a b => la ← lang a; lb ← lang b; Some (concat (map (fun x => map (fun y => x +:+ y) lb) la))
  | Alt a b => la ← lang a; lb ← lang b; Some (la ++ lb)
  | Cap _ r => lang r
  | Cls _ _ | Star _ _ => None
  end.

(** The words of the group [i], if they are finitely many. *)
Fixpoint cap_lang (i : nat) (r : re) : option (list string) :=
  match r with
  | Cat a b | Alt a b => la ← cap_lang i a; lb ← cap_lang i b; Some (la ++ lb)
  | Star _ r => cap_lang i r
  | Cap j r => l ← cap_lang i r; if (i =? j)%nat then (l' ← lang r; Some (l' ++ l)) else Some l
  | _ => Some []
  end.

(** ASCII tokens hold their byte. *)
Definition wf_token (t : token) : Prop := forall c, t.1 = byte_of c -> byte_of c < 128 -> t.2 = String c "".

Lemma byte_of_inj c d : byte_of c = byte_of d -> c = d.
Proof. unfold byte_of. intros H. apply N2Z.inj in H. rewrite <- (ascii_N_embedding c), <- (ascii_N_embedding d). by rewrite H. Qed.

Lemma runes_wf s : Forall wf_token (runes s).
Proof.
  induction s as [|s r w E IH] using runes_ind; [constructor|]. rewrite runes_eq, E. constructor; [|done].
  pose proof (rune_of_spec s) as Hs. rewrite E in Hs. destruct Hs as [_ [Hr|(c & t & -> & -> & Hc & ->)]]; intros d Hd Hlt; cbn in *; [lia|].
  apply byte_of_inj in Hd as <-. by destruct t.
Qed.

Lemma step_rest ok st st' : step ok st = Some st' -> exists t, rest st = t :: rest st' /\ ok t.1 = true /\ caps st' = caps st.
Proof.
  unfold step. destruct (rest st) as [|[c b] ts]; [done|]. destruct (ok c) eqn:E; intros [= <-]. by exists (c, b).
Qed.

Lemma steps_rest s : forall st st', steps s st = Some st' ->
  exists l, rest st = l ++ rest st' /\ caps st' = caps st /\ (Forall wf_token (rest st) -> is_ascii s = true -> text l = s).
Proof.
  induction s as [|c s IH]; intros st st' H; cbn in H; [simplify_eq; by exists []|].
  destruct (step _ st) as [st1|] eqn:E; [|done]. cbn in H. apply step_rest in E as (t & Et & Hc & Hk).
  apply IH in H as (l & El & Hk' & Ht). exists (t :: l). rewrite Et, El. split; [done|]. split; [congruence|].
  intros Hwf Ha. inv Hwf. unfold is_ascii in Ha. cbn in Ha. apply andb_true_iff in Ha as [Ha1 Ha2]. bool_prop.
  change (t.2 +:+ text l = String c s). rewrite (H1 c) by (done || congruence). rewrite Ht; [done| |done]. by rewrite El.
Qed.

(** A match consumes a prefix of what is left. *)
Lemma sem_prefix r st st' : sem r st st' -> exists l, rest st = l ++ rest st'.
Proof.
  induction 1 as [|s st st' H|neg rs st st' H|a b st st1 st2 _ [l1 E1] _ [l2 E2]| | | |g r st st1 st2 _ [l1 E1] _ _ [l2 E2]|i r st st' _ [l E]| | |];
    try (by exists []); try done.
  - apply steps_rest in H as (l & -> & _). by exists l.
  - apply step_rest in H as (t & -> & _). by exists [t].
  - exists (l1 ++ l2). by rewrite E1, E2, app_assoc.
  - exists (l1 ++ l2). by rewrite E1, E2, app_assoc.
  - exists l. by rewrite E.
Qed.

Lemma taken_app (l ts ts' : list token) : ts = l ++ ts' -> take (length ts - length ts') ts = l.
Proof. intros ->. rewrite length_app. replace (length l + length ts' - length ts')%nat with (length l) by lia. apply take_app_length. Qed.

Definition all_ascii (o : option (list string)) : bool := match o with Some l => forallb is_ascii l | None => true end.

Fixpoint lits_ascii (r : re) : bool :=
  match r with
  | Lit s => is_ascii s
  | Cat a b | Alt a b => lits_ascii a && lits_ascii b
  | Star _ r | Cap _ r => lits_ascii r
  | _ => true
  end.

Lemma Forall_rest (P : token -> Prop) (l ts ts' : list token) : ts = l ++ ts' -> Forall P ts -> Forall P ts'.
Proof. intros -> H. by apply Forall_app in H as [_ H]. Qed.

Lemma lang_sound r st st' : sem r st st' -> forall ws, lang r = Some ws -> lits_ascii r = true -> Forall wf_token (rest st) ->
  exists l, rest st = l ++ rest st' /\ text l ∈ ws.
Proof.
  induction 1 as [st|s st st' H|neg rs st st' H|a b st st1 st2 Ha IHa Hb IHb|a b st st' H IH|a b st st' H IH|g r st|g r st st1 st2 H1 IH1 Hl H2 IH2|i r st st' H IH|st H|st H|st H];
    intros ws Hws Has Hwf; cbn in Hws, Has; try done.
  - simplify_eq. exists []. split; [done|]. set_solver.
  - simplify_eq. apply steps_rest in H as (l & El & _ & Ht). exists l. split; [done|]. rewrite Ht by done. set_solver.
  - apply andb_true_iff in Has as [Hx Hy]. destruct (lang a) as [la|] eqn:La; [|done]. destruct (lang b) as [lb|] eqn:Lb; [|done]. cbn in Hws. simplify_eq.
    destruct (IHa la eq_refl Hx Hwf) as (l1 & E1 & T1). destruct (IHb lb eq_refl Hy) as (l2 & E2 & T2); [by eapply Forall_rest|].
    exists (l1 ++ l2). rewrite E1, E2, app_assoc. split; [done|]. rewrite text_app. apply list_elem_of_In, in_concat.
    exists (map (fun y => text l1 +:+ y) lb). rewrite !in_map_iff. split; [exists (text l1)|exists (text l2)]; (split; [done|by apply list_elem_of_In]).
  - apply andb_true_iff in Has as [Hx Hy]. destruct (lang a) as [la|]; [|done]. destruct (lang b) as [lb|]; [|done]. cbn in Hws. simplify_eq.
    destruct (IH la eq_refl Hx Hwf) as (l & E & T). exists l. split; [done|]. set_solver.
  - apply andb_true_iff in Has as [Hx Hy]. destruct (lang a) as [la|]; [|done]. destruct (lang b) as [lb|]; [|done]. cbn in Hws. simplify_eq.
    destruct (IH lb eq_refl Hy Hwf) as (l & E & T). exists l. split; [done|]. set_solver.
  - destruct (IH ws Hws Has Hwf) as (l & E & T). by exists l.
  - simplify_eq. exists []. split; [done|]. set_solver.
  - simplify_eq. exists []. split; [done|]. set_solver.
  - simplify_eq. exists []. split; [done|]. set_solver.
Qed.

(** What is saved for a group of finitely many words is one of them. *)
Lemma caps_sound r st st' : sem r st st' -> forall i ws, cap_lang i r = Some ws -> lits_ascii r = true -> Forall wf_token (rest st) ->
  forall s, (i, s) ∈ caps st' -> (i, s) ∈ caps st \/ s ∈ ws.
Proof.
  induction 1 as [st|s0 st st' H|neg rs st st' H|a b st st1 st2 Ha IHa Hb IHb|a b st st' H IH|a b st st' H IH|g r st|g r st st1 st2 H1 IH1 Hl H2 IH2|j r st st' H IH|st H|st H|st H];
    intros i ws Hws Has Hwf s Hs; cbn in Hws, Has; try (by left).
  - apply steps_rest in H as (_ & _ & Hk & _). rewrite Hk in Hs. by left.
  - apply step_rest in H as (_ & _ & _ & Hk). rewrite Hk in Hs. by left.
  - apply andb_true_iff in Has as [Hx Hy]. destruct (cap_lang i a) as [la|] eqn:La; [|done]. destruct (cap_lang i b) as [lb|] eqn:Lb; [|done]. cbn in Hws. simplify_eq.
    destruct (sem_prefix _ _ _ Ha) as [l E]. destruct (IHb i lb Lb Hy) with (s := s) as [Hc|Hc]; [by eapply Forall_rest|done| |set_solver].
    destruct (IHa i la La Hx Hwf s Hc) as [?|?]; [by left|set_solver].
  - apply andb_true_iff in Has as [Hx Hy]. destruct (cap_lang i a) as [la|] eqn:La; [|done]. destruct (cap_lang i b) as [lb|] eqn:Lb; [|done]. cbn in Hws. simplify_eq.
    destruct (IH i la La Hx Hwf s Hs) as [?|?]; [by left|set_solver].
  - apply andb_true_iff in Has as [Hx Hy]. destruct (cap_lang i a) as [la|] eqn:La; [|done]. destruct (cap_lang i b) as [lb|] eqn:Lb; [|done]. cbn in Hws. simplify_eq.
    destruct (IH i lb Lb Hy Hwf s Hs) as [?|?]; [by left|set_solver].
  - destruct (sem_prefix _ _ _ H1) as [l E]. destruct (IH2 i ws Hws Has) with (s := s) as [Hc|Hc]; [by eapply Forall_rest|done| |by right].
    by destruct (IH1 i ws Hws Has Hwf s Hc) as [?|?]; [left|right].
  - destruct (cap_lang i r) as [l|] eqn:Lr; [|done]. cbn in Hws. cbn [save caps] in Hs. apply elem_of_cons in Hs as [Heq|Hs].
    + injection Heq as <- Heq. rewrite Nat.eqb_refl in Hws. destruct (lang r) as [l'|] eqn:Ll; [|done]. cbn in Hws. simplify_eq.
      destruct (lang_sound r st st' H l' Ll Has Hwf) as (c & Ec & Tc). rewrite (taken_app c) by done. right. set_solver.
    + assert (exists l', ws = l' ++ l) as [l' ->].
      { destruct (i =? j)%nat; [|simplify_eq; by exists []]. destruct (lang r) as [l'|]; [|done]. cbn in Hws. simplify_eq. by exists l'. }
      destruct (IH i l Lr Has Hwf s Hs) as [?|?]; [by left|set_solver].
Qed.

Lemma find_sem r : forall prev ts st st', find r prev ts = Some (st, st') -> sem r st st' /\ caps st = [] /\ (Forall wf_token ts -> Forall wf_token (rest st)).
Proof.
  intros prev ts. revert prev. induction ts as [|[c b] ts IH]; intros prev st st' H; cbn [find] in H;
    (destruct (m r _ Some) as [st1|] eqn:E; [apply m_sound in E as (st2 & Hs & [= ->]); by simplify_eq|]); [done|].
  apply IH in H as (Hs & Hc & Hw). split; [done|]. split; [done|]. intros Hf. inv Hf. by apply Hw.
Qed.

Lemma assoc_in i l s : assoc i l = Some s -> (i, s) ∈ l.
Proof.
  induction l as [|[j t] l IH]; [done|]. cbn. destruct (Nat.eqb_spec i j) as [->|]; intros H; [simplify_eq; constructor|].
  apply elem_of_cons. right. by apply IH.
Qed.

(** A group of finitely many words holds one of them, or nothing. *)
Lemma group_words re s ms i ws : FindStringSubmatch re s = Some ms -> (1 <= i <= groups re)%nat -> cap_lang i (prog re) = Some ws ->
  lits_ascii (prog re) = true -> group ms i ∈ "" :: ws.
Proof.
  unfold FindStringSubmatch. destruct (find _ _ _) as [[st st']|] eqn:E; [|done]. intros [= <-] Hi Hw Ha.
  apply find_sem in E as (Hs & Hc & Hf). unfold group, submatches. destruct i as [|i]; [lia|].
  set (fn := fun i => default "" (assoc i (caps st'))). change (default "" ((fn <$> seq 1 (groups re)) !! i) ∈ "" :: ws).
  rewrite list_lookup_fmap, lookup_seq_lt by lia. cbn. unfold fn. change (1 + i)%nat with (S i). destruct (assoc (S i) (caps st')) as [t|] eqn:Et; [|constructor].
  apply assoc_in in Et. destruct (caps_sound _ _ _ Hs (S i) ws Hw Ha (Hf (runes_wf s)) t Et) as [Hin|Hin]; [by rewrite Hc in Hin; apply elem_of_nil in Hin|].
  cbn. by apply elem_of_cons; right.
Qed.

End Regexp.
