(* ===== verification/Registry.v ===== *)
(** * The parser registry and the generic record ([logship/syslog/registry.go],
      [generic.go], [enrichgeneric.go], [tunnels.go], [captured.go], [known.go])

    Parsers are functions registered by program or by prefix of a program's name; a line no
    parser takes becomes a generic record, enriched by what its text mentions. *)

From stdpp Require Import base decidable list gmap strings.
From Stdlib Require Import ZArith Lia Ascii.
From S2P Require Import Prelude Netip GoStrings Geo Enrich LogQueue OtlpSink GoTime Envelope Filterlog GoRegexp.
Import Queue Envelope Filterlog Regexp.

Module Registry.

(** ** The state the parsers share *)

(** [pidIfaceMemory] of [dhclient.go]: the interface a client's process last named, for
    at most [pmax] processes. *)
Record pidIfaceMemory := mkMemory { pmax : nat; byPID : gmap string string; pidOrder : list string }.
#[export] Instance eta_memory : Eta pidIfaceMemory := fun p => mkMemory (pmax p) (byPID p) (pidOrder p).

Definition newPIDIfaceMemory (max : nat) : pidIfaceMemory := mkMemory max ∅ [].

Definition remember (pid iface : string) (p : pidIfaceMemory) : pidIfaceMemory :=
  if str_empty pid || str_empty iface then p
  else
    let p :=
      match byPID p !! pid with
      | Some _ => p
      | None =>
          let p :=
            if (pmax p <=? length (pidOrder p))%nat then
              match pidOrder p with
              | oldest :: order => p <| pidOrder := order |> <| byPID ::= delete oldest |>
              | [] => p
              end
            else p in
          p <| pidOrder ::= fun o => o ++ [pid] |>
      end in
    p <| byPID ::= <[pid := iface]> |>.

Definition mem_lookup (pid : string) (p : pidIfaceMemory) : string :=
  if str_empty pid then "" else default "" (byPID p !! pid).

(** The package's variables the parsers write, and the tables reported as missed. *)
Record globals := mkGlobals { dhcpClientIfaces : pidIfaceMemory; dhcp6cIfaces : pidIfaceMemory; missed : list string }.
#[export] Instance eta_globals : Eta globals := fun g => mkGlobals (dhcpClientIfaces g) (dhcp6cIfaces g) (missed g).

Definition Parser : Type := Envelope -> option Enrich.Snapshot -> globals -> option LogRecord * globals.

(** A parser that keeps no state. *)
Definition stateless (p : Envelope -> option Enrich.Snapshot -> option LogRecord) : Parser := fun env snap g => (p env snap, g).

(** ** Tables *)

(** [longestPrefixMatch], over the entries in the order the map yields them. *)
Definition longest_step {T} (s : string) (best : option (string * T)) (kv : string * T) : option (string * T) :=
  let n := match best with Some (k, _) => String.length k | None => O end in
  if (n <? String.length kv.1)%nat && HasPrefix s kv.1 then Some kv else best.
Definition longest {T} (l : list (string * T)) (s : string) : option (string * T) := fold_left (longest_step s) l None.
Definition longestPrefixMatch {T} (table : gmap string T) (s : string) : option (string * T) := longest (map_to_list table) s.

Record registry := mkRegistry {
  parsers : gmap string Parser; parserPrefixes : gmap string Parser;
  bodyEnrichedPrograms : gmap string bool; bodyEnrichedPrefixes : gmap string bool }.
#[export] Instance eta_registry : Eta registry := fun r =>
  mkRegistry (parsers r) (parserPrefixes r) (bodyEnrichedPrograms r) (bodyEnrichedPrefixes r).

(** [RegisterParser] and its variants; [None] is the panic on a duplicate or an empty
    prefix. *)
Fixpoint RegisterParser (p : Parser) (programs : list string) (r : registry) : option registry :=
  match programs with
  | [] => Some r
  | prog :: programs =>
      match parsers r !! prog with
      | Some _ => None
      | None => RegisterParser p programs (r <| parsers ::= <[prog := p]> |>)
      end
  end.

Fixpoint RegisterParserPrefix (p : Parser) (prefixes : list string) (r : registry) : option registry :=
  match prefixes with
  | [] => Some r
  | prefix :: prefixes =>
      if str_empty prefix then None
      else match parserPrefixes r !! prefix with
           | Some _ => None
           | None => RegisterParserPrefix p prefixes (r <| parserPrefixes ::= <[prefix := p]> |>)
           end
  end.

Definition mark (l : list string) (m : gmap string bool) : gmap string bool := fold_left (fun m k => <[k := true]> m) l m.

Definition RegisterParserWithBodyEnrichment (p : Parser) (programs : list string) (r : registry) : option registry :=
  r ← RegisterParser p programs r; Some (r <| bodyEnrichedPrograms ::= mark programs |>).
Definition RegisterParserPrefixWithBodyEnrichment (p : Parser) (prefixes : list string) (r : registry) : option registry :=
  r ← RegisterParserPrefix p prefixes r; Some (r <| bodyEnrichedPrefixes ::= mark prefixes |>).

Definition parserFor (r : registry) (program : string) : option Parser :=
  match parsers r !! program with
  | Some p => Some p
  | None => option_map snd (longestPrefixMatch (parserPrefixes r) program)
  end.

Definition parserEnrichesBody (r : registry) (program : string) : bool :=
  match parsers r !! program with
  | Some _ => default false (bodyEnrichedPrograms r !! program)
  | None =>
      match longestPrefixMatch (parserPrefixes r) program with
      | Some (prefix, _) => default false (bodyEnrichedPrefixes r !! prefix)
      | None => false
      end
  end.

(** ** Subsystems *)

Definition subsystems : gmap string string := list_to_map
  [("filterlog", "firewall"); ("firewall", "firewall"); ("pf", "firewall"); ("audit", "audit"); ("configd.py", "audit");
   ("configd", "audit"); ("config", "audit"); ("configctl", "audit"); ("sshd", "auth"); ("sshd-session", "auth"); ("su", "auth");
   ("sudo", "auth"); ("radiusd", "auth"); ("unbound", "dns"); ("dnsmasq", "dns"); ("dnsmasq-dhcp", "dhcp"); ("kea-dhcp4", "dhcp");
   ("kea-dhcp6", "dhcp"); ("kea-ctrl-agent", "dhcp"); ("kea-dhcp-ddns", "dhcp"); ("dhcpd", "dhcp"); ("dhcrelay", "dhcp");
   ("dhcp6c", "dhcp"); ("DhcpLFC", "dhcp"); ("dhclient", "dhcp"); ("radvd", "dhcp"); ("ppp", "wan"); ("charon", "ipsec");
   ("openvpn", "vpn"); ("wireguard", "vpn"); ("netbird", "vpn"); ("/usr/local/bin/netbird", "vpn"); ("tailscaled", "vpn");
   ("tailscale", "vpn"); ("suricata", "ids"); ("crowdsec", "ids"); ("rule-updater.py", "ids"); ("haproxy", "proxy");
   ("nginx", "proxy"); ("relayd", "proxy"); ("lighttpd", "proxy"); ("bgpd", "routing"); ("ospfd", "routing"); ("ospf6d", "routing");
   ("ripd", "routing"); ("zebra", "routing"); ("staticd", "routing"); ("dpinger", "gateways"); ("upsmon", "ups"); ("upsd", "ups");
   ("apcupsd", "ups"); ("monit", "monitoring"); ("ntpd", "ntp"); ("chronyd", "ntp"); ("clamd", "antivirus"); ("freshclam", "antivirus");
   ("captiveportal", "captiveportal"); ("pkg", "packages"); ("pkg-static", "packages"); ("cron", "cron"); ("/usr/sbin/cron", "cron");
   ("syslog-ng", "logging"); ("kernel", "kernel"); ("acme.sh", "certificates"); ("squid", "proxy"); ("miniupnpd", "upnp");
   ("unbound-control", "dns")].

Definition subsystemFor (program : string) : string :=
  match subsystems !! program with
  | Some s => s
  | None =>
      if HasPrefix program "openvpn" then "vpn"
      else if HasPrefix program "kea-" then "dhcp"
      else if HasPrefix program "wg" then "vpn"
      else ""
  end.

(** The closed vocabulary, as a set ([buildSubsystemVocabulary] sorts it). *)
Definition Subsystems : gset string :=
  {[ "" ]} ∪ list_to_set (map snd (map_to_list subsystems))
  ∪ list_to_set (map subsystemFor ["openvpn_dynamic"; "kea-dynamic"; "wg-dynamic"]).

(** ** The generic record *)

Definition syslogSeverity (sev : Z) : Severity :=
  if (0 <=? sev) && (sev <=? 2) then SeverityFatal
  else if sev =? 3 then SeverityError
  else if sev =? 4 then SeverityWarn
  else if (sev =? 5) || (sev =? 6) then SeverityInfo
  else if sev =? 7 then SeverityDebug
  else SeverityInfo.

(** [strconv.Itoa] and [FormatInt]. *)
Definition FormatInt (z : Z) : string := if z <? 0 then "-" +:+ Itoa (- z) else Itoa z.

Definition genericRecord (env : Envelope) : LogRecord :=
  let attrs := fold_left set [("program", Program env); ("host", Hostname env); ("pid", PID env)] ∅ in
  mkLog (eTimestamp env) (Message env)
    (<["severity" := FormatInt (eSeverity env)]> (<["facility" := FormatInt (Facility env)]> attrs))
    (syslogSeverity (eSeverity env)) "".

(** Calls of [set] on a record. *)
Definition sets (l : list (string * string)) (rec : LogRecord) : LogRecord := rec <| Attributes ::= fold_left set l |>.

(** [newRecord] with the calls of its [set]. *)
Definition newRecord (env : Envelope) (l : list (string * string)) : LogRecord := sets l (genericRecord env).

(** ** Enrichment by the text *)

Definition maxEnrichedIPs : nat := 3.
Definition maxEnrichedDevices : nat := 2.

Definition ipRe : Regexp := Eval vm_compute in
  MustCompile "\b(?:(?:\d{1,3}\.){3}\d{1,3}|(?:[0-9a-fA-F]{1,4}:){2,7}[0-9a-fA-F]{0,4})\b".
Definition macLikeRe : Regexp := Eval vm_compute in MustCompile "^(?:[0-9a-fA-F]{2}:){5}[0-9a-fA-F]{2}$".
Definition deviceRe : Regexp := Eval vm_compute in
  MustCompile "\b(?:vtnet|igb|em|ix|ixl|re|bge|lagg|vlan|pppoe|ovpn[cs]|wg|bridge|enc|gif|gre|tun|tap)\d+\b".
Definition uuidRe : Regexp := Eval vm_compute in
  MustCompile "[0-9a-fA-F]{8}-[0-9a-fA-F]{4}-[0-9a-fA-F]{4}-[0-9a-fA-F]{4}-[0-9a-fA-F]{12}".

Definition peerKey (n : nat) : string := match n with O => "peer" | S O => "peer.2" | _ => "peer.3" end.

(** The loop over the addresses: [seen] are the ones surfaced. *)
Fixpoint peers (s : Enrich.Snapshot) (ips : list string) (seen : list string) (n : nat) : list (string * string) :=
  match ips with
  | [] => []
  | ip :: ips =>
      if (maxEnrichedIPs <=? n)%nat then []
      else if bool_decide (ip ∈ seen) || MatchString macLikeRe ip then peers s ips seen n
      else
        let host := Enrich.Hostname s ip in
        let mac := Enrich.MAC s ip in
        let scope := Enrich.Scope s ip in
        if negb (bool_decide (is_Some host)) && negb (bool_decide (is_Some mac)) && str_empty scope then peers s ips seen n
        else
          let p := peerKey n in
          [(p +:+ ".ip", ip)] ++ found (p +:+ ".hostname") host ++ found (p +:+ ".mac") mac ++ [(p +:+ ".scope", scope)]
          ++ peers s ips (ip :: seen) (S n)
  end.

Fixpoint devices (s : Enrich.Snapshot) (devs : list string) (seen : list string) (d : nat) : list (string * string) :=
  match devs with
  | [] => []
  | dev :: devs =>
      if (maxEnrichedDevices <=? d)%nat || bool_decide (dev ∈ seen) then devices s devs seen d
      else
        match Enrich.InterfaceName s dev with
        | None => devices s devs seen d
        | Some name =>
            (if (d =? 0)%nat then [("interface", dev); ("interface.name", name)]
             else [("interface.2", dev); ("interface.2.name", name)])
            ++ devices s devs (dev :: seen) (S d)
        end
  end.

Definition enrichMessage (msg : string) (snap : option Enrich.Snapshot) : list (string * string) :=
  match snap with
  | None => []
  | Some s =>
      if str_empty msg then []
      else peers s (FindAllString ipRe msg None) [] 0 ++ devices s (FindAllString deviceRe msg None) [] 0
  end.

Fixpoint tunnel_of (s : Enrich.Snapshot) (ids : list string) : list (string * string) :=
  match ids with
  | [] => []
  | id :: ids =>
      match Enrich.Tunnel s id with
      | Some name => [("ipsec.connection", name); ("ipsec.connection_id", id)]
      | None =>
          match Enrich.VPNInstance s id with
          | Some name => [("openvpn.instance", name); ("openvpn.instance_id", id)]
          | None => tunnel_of s ids
          end
      end
  end.

Definition enrichTunnels (program msg : string) (snap : option Enrich.Snapshot) : list (string * string) :=
  match snap with
  | None => []
  | Some s =>
      if str_empty msg then []
      else if negb (str_eq (subsystemFor program) "ipsec") && negb (str_eq (subsystemFor program) "vpn") then []
      else tunnel_of s (FindAllString uuidRe msg (Some 2%nat))
  end.

Definition addCommon (rec : LogRecord) (env : Envelope) (snap : option Enrich.Snapshot) (enrichBody : bool) : LogRecord :=
  sets ([(Otlp.AttrSubsystem, subsystemFor (Program env))]
        ++ (if enrichBody then enrichMessage (Message env) snap else [])
        ++ enrichTunnels (Program env) (Message env) snap) rec.

(** A compressed IPv6 address is not found in a text, or only its beginning is: the word
    boundary does not hold between two colons. *)
Example ipv6_missed :
  (FindAllString ipRe "from 2001:db8::1 port 22" None, FindAllString ipRe "on fe80::1" None, FindAllString ipRe "peer 2001:db8:1:2::5" None,
   FindAllString ipRe "peer 2001:db8:1:2:3:4:5:6" None)
  = ([], [], ["2001:db8:1:2"], ["2001:db8:1:2:3:4:5:6"]).
Proof. vm_compute. reflexivity. Qed.

End Registry.
