(* ===== verification/Captured.v ===== *)
(** * The captured and the known grammars ([logship/syslog/captured.go], [known.go] and
      the files of rules)

    Program-scoped patterns that take a line after the program's parser declined it: a
    captured rule makes it a structured record, a known rule only tells it from an unknown
    one.  The tables are spelled as in the sources, with the escape of the double quote
    for the character. *)

From stdpp Require Import base decidable list gmap strings.
From Stdlib Require Import ZArith Lia Ascii.
From S2P Require Import Prelude Netip GoStrings Geo Enrich LogQueue OtlpSink GoTime Envelope Filterlog GoRegexp Registry.
Import Queue Envelope Filterlog Regexp Registry.

Module Captured.

(** A call of [capturedEvent] or of [knownMessage]. *)
Inductive rule :=
| captured (program event pattern : string) (fields : list string)
| known (program reason pattern : string).

(** [regexp.QuoteMeta]. *)
Definition is_meta (c : ascii) : bool := has c "\.+*?()|[]{}^$".
Fixpoint QuoteMeta (s : string) : string :=
  match s with
  | EmptyString => ""
  | String c s => if is_meta c then String "\" (String c (QuoteMeta s)) else String c (QuoteMeta s)
  end.

Definition captured_api_rules : list rule :=
  [ captured "api" "api_authentication_failed" "uri (/api/[\w/-]+) authentication failed for api key \[REDACTED\]" ["url.path"] ].

Definition captured_events_rules : list rule :=
  [ captured "/usr/sbin/cron" "cron_parse_failed" "\(([^\s()]+)\) PARSE \((bad minute)\)" ["cron.user"; "cron.error"];
    captured "cron" "cron_parse_failed" "\(([^\s()]+)\) PARSE \((bad minute)\)" ["cron.user"; "cron.error"];
    captured "configd.py" "config_command_timeout" "Timeout \((\d+)\) executing : ([^\r\n]+)" ["config.timeout_seconds"; "config.command"];
    captured "configd.py" "config_disconnected" "Configd disconnected while executing : ([^\r\n]+)" ["config.command"];
    captured "configd.py" "config_unavailable" "failed waiting for configd \(doesn't seem to be running\)" [];
    captured "configd.py" "config_socket_failed" "Failed to connect to configd socket: ([^\r\n]*) while executing ([^\r\n]+)" ["error.message"; "config.command"];
    captured "configctl" "config_socket_failed" "unable to connect to configd socket \((@/var/run/[^\s()]+)\)" ["config.socket"];
    captured "php" "backup_connection_failed" "error connecting to (Google Drive)" ["backup.provider"] ]
  ++ concat (map (fun program => [ captured program "package_upgraded" "(\S+) upgraded: (\S+) -> (\S+)" ["package.name"; "package.version.previous"; "package.version"] ])
    [ "pkg";
      "pkg-static" ])
  ++ [ captured "audit" "firmware_update_executed" "\[Firmware\] User (\S+) executed a firmware update" ["audit.user"];
    captured "shutdown" "reboot_requested" "reboot by ([^\s:]+):" ["audit.user"];
    captured "dnsmasq" "dns_query" "query\[([A-Z0-9]+)\] (\S+) from (\S+)" ["dns.query_type"; "dns.query_name"; "src.ip"];
    captured "dnsmasq" "dns_config_answer" "config (\S+) is (\S+)" ["dns.query_name"; "dns.answer"];
    captured "dnsmasq" "dns_upstream_missing" "warning: no upstream servers configured" [];
    captured "dnsmasq-dhcp" "dhcp_send_failed" "Error sending DHCP packet to (\S+): ([^\r\n]+)" ["dst.ip"; "error.message"];
    captured "dhclient" "dhcp_packet_length_mismatch" "ip length (\d+) disagrees with bytes received (\d+)\." ["network.ip_length"; "network.received_bytes"];
    captured "dhclient" "dhcp_packet_trailing_data" "accepting packet with data after udp payload\." [];
    captured "dhcp6c" "dhcp6_address_remove_failed" "failed to remove an address on ([\w.-]+): ([^\r\n]+)" ["interface"; "error.message"];
    captured "dhcp6c" "dhcp6_prefix_removed" "remove a site prefix ([0-9A-Fa-f:]+/\d+)" ["dhcp6c.prefix"];
    captured "dhcp6c" "dhcp6_restarting" "restarting" [];
    captured "dhcp6c" "dhcp6_release_started" "Start address release" [];
    captured "dhcp6c" "dhcp6_reload_requested" "rtsold_script: reloading dhcp6c" [];
    captured "lldpd" "lldp_send_failed" "unable to send packet on real device for ([\w.-]+): ([^\r\n]+)" ["interface"; "error.message"];
    captured "lldpd" "lldp_control_socket_missing" "no control socket path registered" [];
    captured "firewall" "geoip_update_failed" "geoip update failed : ([^\r\n]+) \[http_code: (\d{3})\]" ["error.message"; "http.response.status_code"];
    captured "miniupnpd" "upnp_interface_address_failed" "failed to get address for interface ([\w.-]+)" ["interface"];
    captured "radvd" "router_advertisement_send_failed" "sendmsg: ([^\r\n]+)" ["error.message"];
    captured "sshd-session" "ssh_transport_failed" "Read error from remote host (\S+) port (\d+): ([^\r\n]+)" ["src.ip"; "src.port"; "error.message"];
    captured "sshd-session" "ssh_key_exchange_failed" "error: kex_exchange_identification: read: ([^\r\n]+) \[preauth\]" ["error.message"];
    captured "syslog-ng" "syslog_connection_failed" "Syslog connection failed; fd='(\d+)', server='AF_INET\(([^\s']+):(\d+)\)', error='([^'\r\n]+)', time_reopen='(\d+)'" ["syslogng.fd"; "dst.ip"; "dst.port"; "error.message"; "syslogng.time_reopen_seconds"];
    captured "dpinger" "gateway_send_failed" "(\S+) (\S+): sendto error: (\d+)" ["gateway.name"; "gateway.address"; "error.code"];
    captured "kernel" "interface_link_changed" "(?:<\d+>)?(?:\[\d+\] )?([\w.-]+): link state changed to (UP|DOWN)" ["interface"; "interface.link_state"];
    captured "devd" "interface_notification" "Processing event '!system=IFNET subsystem=([\w.-]+) type=(LINK_UP|LINK_DOWN|ADDR_ADD|ADDR_DEL)(?: (?:inet|inet6)=(\S+))?'" ["interface"; "interface.notification"; "interface.address"];
    captured "ntpd" "clock_unsynchronized" "kernel reports TIME_ERROR: (0x[0-9a-fA-F]+): Clock Unsynchronized" ["ntp.status"];
    captured "ntpd" "clock_kernel_sync_changed" "(\S+) [0-9a-fA-F]+ [0-9a-fA-F]+ kern kernel time sync (enabled|disabled)" ["ntp.peer"; "ntp.kernel_sync"];
    captured "ntpd" "clock_peer_event" "(\S+) [0-9a-fA-F]+ [0-9a-fA-F]+ (sys_peer|no_sys_peer|clock_sync|reachable|restart)" ["ntp.peer"; "ntp.event"];
    captured "ntpd" "clock_peer_demobilized" "(\S+) [0-9a-fA-F]+ [0-9a-fA-F]+ demobilize assoc (\d+)" ["ntp.peer"; "ntp.association"];
    captured "ntpd" "clock_peer_mobilized" "(\S+) [0-9a-fA-F]+ [0-9a-fA-F]+ mobilize assoc (\d+)" ["ntp.peer"; "ntp.association"];
    captured "ntpd" "clock_offset_spike" "(\S+) [0-9a-fA-F]+ [0-9a-fA-F]+ popcorn ([+-]?\d+\.\d+) s" ["ntp.peer"; "ntp.offset_seconds"];
    captured "ntpd" "clock_frequency_set" "(\S+) [0-9a-fA-F]+ [0-9a-fA-F]+ freq_set kernel ([+-]?\d+\.\d+) PPM" ["ntp.peer"; "ntp.frequency_ppm"];
    captured "ppp" "ppp_protocol_event" "\[([\w.-]+)\] (LCP|IPCP|IPV6CP): (Up|Down|Open|Close) event" ["ppp.link"; "ppp.protocol"; "ppp.transition"];
    captured "ppp" "ppp_protocol_layer" "\[([\w.-]+)\] (LCP|IPCP|IPV6CP): (LayerUp|LayerDown|LayerStart|LayerFinish)" ["ppp.link"; "ppp.protocol"; "ppp.transition"];
    captured "ppp" "ppp_bundle_joined" "\[([\w.-]+)\] Link: Join bundle \x22([\w.-]+)\x22" ["ppp.link"; "ppp.bundle"];
    captured "ppp" "ppp_bundle_left" "\[([\w.-]+)\] Link: Leave bundle \x22([\w.-]+)\x22" ["ppp.link"; "ppp.bundle"];
    captured "ppp" "ppp_bundle_closing" "\[([\w.-]+)\] Bundle: No NCPs left\. Closing links\.\.\." ["ppp.bundle"];
    captured "ppp" "ppp_interface_renamed" "\[([\w.-]+)\] IFACE: Rename interface ([\w.-]+) to ([\w.-]+)" ["ppp.bundle"; "interface.previous"; "interface"];
    captured "ppp" "ppp_chap_result" "\[([\w.-]+)\] CHAP: rec'd (SUCCESS|FAILURE) #(\d+) len: (\d+)" ["ppp.link"; "ppp.chap_result"; "ppp.packet_id"; "ppp.packet_length"];
    captured "dnsmasq" "dns_hosts_answer" "(/[\w/.-]+) (\S+) is (\S+)" ["dns.hosts_file"; "dns.query_name"; "dns.answer"] ].

Definition opnsenseScript : string := "/usr/local/(?:etc/rc\.[\w.-]+(?:\.d/monitor/\d+-recover)?|sbin/pluginctl): ".
Definition lighttpdLocation : string := "\(/usr/obj/usr/ports/www/lighttpd/work/lighttpd-[\w.+-]+/src/[\w.-]+\.c\.\d+\) ".
Definition captured_system_rules : list rule :=
  [ captured "lighttpd" "web_backend_connection_failed" (lighttpdLocation +:+ "connect\(\) (/var/lib/php/tmp/[\w.-]+): ([^\r\n]+)") ["web.backend_socket"; "error.message"];
    captured "lighttpd" "web_tls_failed" (lighttpdLocation +:+ "SSL: addr:(\S+) ssl_err:(\d+) rd:(-?\d+) ([^\r\n]+)") ["web.client_address"; "tls.error_code"; "web.read_result"; "error.message"];
    known "lighttpd" "web_server_lifecycle" (lighttpdLocation +:+ "(?:server stopped by UID = \d+ PID = \d+|\[note\] graceful shutdown started|server started \(lighttpd/[\w.+-]+\))");
    captured "devd" "interface_notification" "Processing event '!system=IFNET subsystem=([\w.-]+) type=(ADDR_ADD|ADDR_DEL) (?:address|inet|inet6)=(\S+)'" ["interface"; "interface.notification"; "interface.address"];
    captured "devd" "interface_notification" "Processing event '!system=IFNET subsystem=([\w.-]+) type=(ATTACH|DETACH)'" ["interface"; "interface.notification"];
    captured "devd" "interface_renamed" "Processing event '!system=IFNET subsystem=([\w.-]+) type=RENAME name=([\w.-]+)'" ["interface.previous"; "interface"];
    known "devd" "device_node_notice" "Processing event '!system=DEVFS subsystem=CDEV type=(?:CREATE|DESTROY) cdev=[\w.-]+'";
    known "devd" "device_dispatch_trace" "check_clients:  dropping disconnected client";
    captured "opnsense" "interface_attachment_changed" (opnsenseScript +:+ "DEVD: Ethernet (attached|detached) event for ([\w.-]+)\(([\w.-]+)\)") ["interface.attachment"; "interface.name"; "interface"];
    captured "opnsense" "interface_address_detection_failed" (opnsenseScript +:+ "Failed to detect IP for interface ([\w.-]+)") ["interface.name"];
    captured "opnsense" "interface_address_renewal_started" (opnsenseScript +:+ "IP renewal starting \(new: (\S+), old: (\S+), interface: ([\w.-]+), device: ([\w.-]+), force: (yes|no)\)") ["interface.address"; "interface.address.previous"; "interface.name"; "interface"; "interface.force"];
    captured "opnsense" "interface_address_renewal_started" (opnsenseScript +:+ "IP renewal starting \(reason: (force|request), address: (\S+) interface: ([\w.-]+), device: ([\w.-]+)\)") ["interface.reason"; "interface.address"; "interface.name"; "interface"];
    captured "opnsense" "default_route_set" (opnsenseScript +:+ "ROUTING: setting (inet6?) default route to (\S+)") ["route.address_family"; "route.gateway"];
    captured "opnsense" "gateway_ignored_down" (opnsenseScript +:+ "ROUTING: ignoring down gateways: ([\w.-]+)") ["gateway.name"];
    captured "opnsense" "gateway_states_killed" (opnsenseScript +:+ "ROUTING: killing states for unreachable gateway ([\w.-]+) \[([0-9a-fA-F-]+)\]") ["gateway.name"; "gateway.id"];
    captured "opnsense" "gateway_bind_fallback" (opnsenseScript +:+ "Chose to bind ([\w.-]+) on (\S+) since we could not find a proper match\.") ["gateway.name"; "gateway.bind_address"];
    captured "opnsense" "tunable_missing" (opnsenseScript +:+ "warning: ignoring missing default tunable request: ([\w.]+)") ["system.tunable"];
    captured "opnsense" "router_advertisement_address_missing" (opnsenseScript +:+ "radvd_configure_do\(auto\) found no suitable IPv6 address on ([\w.-]+)\(([\w.-]+)\)") ["interface.name"; "interface"];
    known "opnsense" "plugin_dispatch_trace" (opnsenseScript +:+ "plugins_configure [\w:]+ \((?:execute task : [\w]+\()?[-\w,\[\]]*\)?\)");
    known "opnsense" "route_configuration_progress" (opnsenseScript +:+ "ROUTING: entering configure using (?:defaults|[\w.-]+(?:, [\w.-]+)*)");
    known "opnsense" "route_configuration_progress" (opnsenseScript +:+ "ROUTING: treating '[\da-fA-F:.]+' as far gateway for '[\da-fA-F:./]+'");
    known "opnsense" "route_configuration_progress" (opnsenseScript +:+ "ROUTING: configuring inet6? default gateway on [\w.-]+");
    known "opnsense" "route_configuration_progress" (opnsenseScript +:+ "ROUTING: keeping inet6? default route to [\da-fA-F:.%a-z_0-9-]+");
    known "opnsense" "upnp_listener_lifecycle" (opnsenseScript +:+ "miniupnpd: Starting service on interface: [\w.-]+(?:, [\w.-]+)*");
    known "opnsense" "trust_intermediate_skip" "\(system local trust\) skip intermediate certificate /[^\r\n]+ from [^\r\n]+ \(ACME Client\)";
    known "ntpd" "ntp_lifecycle" "ntpd exiting on signal \d+ \(Terminated\)";
    known "ntpd" "ntp_build_banner" "ntpd [\w.@+-]+ [A-Z][a-z]{2} [A-Z][a-z]{2} +\d+ \d{2}:\d{2}:\d{2} UTC \d{4} \(\d+\): Starting";
    known "ntpd" "ntp_configuration" "Command line: /usr/local/sbin/ntpd -g -c /var/etc/[\w.-]+";
    known "ntpd" "ntp_build_banner" "(?:----------------------------------------------------|ntp-4 is maintained by Network Time Foundation,|Inc\. \(NTF\), a non-profit 501\(c\)\(3\) public-benefit|corporation\.  Support and training for ntp-4 are|available at https://www\.nwtime\.org/support)";
    known "ntpd" "ntp_configuration" "(?:proto: precision = \d+\.\d+ usec \(-?\d+\)|basedate set to \d{4}-\d{2}-\d{2}|gps base set to \d{4}-\d{2}-\d{2} \(week \d+\)|initial drift restored to [+-]?\d+\.\d+)";
    known "ntpd" "ntp_listener_notice" "Listen normally on \d+ [\w.-]+ (?:[\da-fA-F:.%a-z_-]+|\[[\da-fA-F:.%a-z_-]+\]:\d+)";
    known "ntpd" "ntp_listener_notice" "Listening on routing socket on fd #\d+ for interface updates";
    known "ppp" "ppp_negotiation_detail" "\[[\w.-]+\] (?:LCP|IPCP|IPV6CP): (?:SendConfigReq|SendConfigAck|SendTerminateAck) #\d+";
    known "ppp" "ppp_negotiation_detail" "\[[\w.-]+\] (?:LCP|IPCP|IPV6CP): rec'd Configure (?:Request|Reject|Ack|Nak) #\d+ \((?:Req-Sent|Ack-Sent|Ack-Rcvd)\)";
    known "ppp" "ppp_negotiation_detail" "\[[\w.-]+\]   (?:PROTOCOMP|MRU \d+|MAGICNUM 0x[0-9a-fA-F]+|AUTHPROTO CHAP MD5|IPADDR [\d.]+|COMPPROTO VJCOMP, \d+ comp\. channels, no comp-cid)";
    known "ppp" "ppp_negotiation_detail" "\[[\w.-]+\]     [\d.]+ is OK";
    known "ppp" "ppp_negotiation_detail" "\[[\w.-]+\] LCP: auth: peer wants CHAP, I want nothing";
    known "ppp" "ppp_negotiation_detail" "\[[\w.-]+\] PPPoE: (?:Set PPP-Max-Payload to '\d+'|rec'd PPP-Max-Payload '\d+'|Connecting to '[^'\r\n]*')";
    known "ppp" "ppp_peer_text" "PPPoE: rec'd ACNAME \x22[^\x22\r\n]+\x22";
    known "ppp" "ppp_peer_text" "\[[\w.-]+\]   (?:Name: \x22[^\x22\r\n]+\x22|MESG: [^\r\n]+)";
    known "ppp" "ppp_negotiation_detail" "\[[\w.-]+\] CHAP: (?:rec'd CHALLENGE|sending RESPONSE) #\d+ len: \d+";
    known "ppp" "ppp_peer_text" "\[[\w.-]+\] CHAP: Using authname \x22[^\x22\r\n]+\x22";
    known "ppp" "ppp_negotiation_detail" "\[[\w.-]+\] Link: Matched action 'bundle \x22[\w.-]+\x22 \x22\x22'";
    known "ppp" "ppp_negotiation_detail" "\[[\w.-]+\]   [\da-fA-F:.]+ -> [\da-fA-F:.]+" ].

Definition known_rules : list rule :=
  [ known "dhclient" "dhclient_script_side_effect" "dhclient-script: Creating resolv\.conf";
    known "dhclient" "dhclient_script_side_effect" "dhclient-script: New Hostname \([\w.-]+\): [\w.-]+";
    known "configd.py" "template_generation" "generate template container OPNsense/[\w/-]+";
    known "configd.py" "template_generation" " OPNsense/[\w/*-]+ generated //[\w/.*-]+";
    known "configctl" "forwarded_config_event" "event @ \d+\.\d+ msg: [A-Z][a-z]{2} [ \d]\d \d{2}:\d{2}:\d{2} \S+ config\[\d+\]: config-event: new_config /conf/backup/config-\d+\.\d+\.xml" ]
  ++ concat (map (fun p => [ known "syslog-ng" "logging_lifecycle" (QuoteMeta p) ])
    [ "Configuration reload requested over control channel;";
      "Loading the new configuration;";
      "Configuration reload finished;" ])
  ++ [ known "syslog-ng" "logging_lifecycle" "syslog-ng (?:starting up|shutting down); version='[\w.+-]+'";
    known "unbound" "resolver_housekeeping" "Database auto restore from /var/cache/[\w./-]+ for cleanup reasons in \d+(?:\.\d+)? seconds";
    known "unbound" "resolver_housekeeping" "(?:Closing logger|Backgrounding unbound logging backend\.)";
    known "unbound" "resolver_module_start" "\[\d+:\d+\] notice: init module \d+: (?:python|iterator)";
    known "unbound" "resolver_stats_dump" "\[\d+:\d+\] info: server stats for thread \d+: \d+ queries, \d+ answers from cache, \d+ recursions, \d+ prefetch, \d+ rejected by ip ratelimiting";
    known "unbound" "resolver_stats_dump" "\[\d+:\d+\] info: server stats for thread \d+: requestlist max \d+ avg \d+(?:\.\d+)? exceeded \d+ jostled \d+";
    known "unbound" "resolver_stats_dump" "\[\d+:\d+\] info: average recursion processing time \d+\.\d+ sec";
    known "unbound" "resolver_stats_dump" "\[\d+:\d+\] info: (?:histogram of recursion processing times|lower\(secs\) upper\(secs\) recursions)";
    known "unbound" "resolver_stats_dump" "\[\d+:\d+\] info: \[25%\]=\d+\.\d+ median\[50%\]=\d+\.\d+ \[75%\]=\d+\.\d+";
    known "unbound" "resolver_stats_dump" "\[\d+:\d+\] info: +\d+\.\d+ +\d+\.\d+ +\d+";
    known "dnsmasq" "dns_configuration" "using only locally-known addresses for \S+";
    known "dnsmasq" "dns_configuration" "(?:read /[\w/.-]+ - \d+ names|started, version [\w.+-]+ cachesize \d+|exiting on receipt of SIGTERM|daemonize dnsmasq dhcpd watcher\.)";
    known "dnsmasq" "dns_build_features" "compile time options: (?:IPv[46]|GNU-getopt|no-DBus|no-UBus|no-i18n|no-IDN|DHCP|DHCPv6|no-Lua|TFTP|no-conntrack|ipset|no-nftset|auth|DNSSEC|loop-detect|inotify|dumpfile)(?: (?:IPv[46]|GNU-getopt|no-DBus|no-UBus|no-i18n|no-IDN|DHCP|DHCPv6|no-Lua|TFTP|no-conntrack|ipset|no-nftset|auth|DNSSEC|loop-detect|inotify|dumpfile))*";
    known "dnsmasq-dhcp" "dhcp_range_configuration" "DHCP, IP range [\d.]+ -- [\d.]+, lease time \d+[hms]";
    known "kea-dhcp6" "dhcp_helper_start" "startup kea prefix watcher";
    known "sshd" "ssh_listener_lifecycle" "(?:Server listening on [\da-fA-F:.%a-z_-]+ port \d+\.|Received signal \d+; terminating\.)";
    known "devd" "device_dispatch_trace" "(?:Pushing table|Processing notify event|Popping table|Testing media type of [\w.-]+ against (?:\d+|0x[0-9a-fA-F]+)|[\w.-]+ has media type (?:\d+|0x[0-9a-fA-F]+))";
    known "devd" "device_dispatch_trace" "Executing '/usr/local/sbin/configctl interface linkup (?:start|stop) \$'[\w.-]+''";
    known "miniupnpd" "upnp_listener_lifecycle" "(?:shutting down MiniUPnPd|Listening for NAT-PMP/PCP traffic on port \d+)";
    known "radvd" "router_advertisement_lifecycle" "(?:attempting to reread config file|config file, /var/etc/[\w.-]+, syntax ok|resuming normal operation|exiting, \d+ sigterm\(s\) received|sending stop adverts|removing /var/run/[\w.-]+|returning from radvd main|version [\d.]+ started)";
    known "rtsold" "router_solicitation_probe" "<rtsock_input_ifannounce> interface [\w.-]+ (?:removed|inserted)";
    known "rtsold" "router_solicitation_probe" "<autoifprobe> probing [\w.-]+";
    known "rtsold" "router_solicitation_probe" "<make_packet> link-layer address option has null length on [\w.-]+\. Treat as not included\.";
    known "charon" "ipsec_host_interface_notice" "\d+\[KNL\] [\da-fA-F:.%a-z_-]+ (?:appeared on|disappeared from) [\w.-]+";
    known "charon" "ipsec_host_interface_notice" "\d+\[KNL\] interface [\w.-]+ (?:activated|deactivated|appeared|disappeared)";
    known "root" "bogon_update_progress" "(?:bogons update starting|update bogons is ending the update cycle|Bogons V[46] file updated: no changes\.|Bogons V[46] file updated: \d+ addresses (?:added|deleted)\.)";
    known "firewall" "alias_cleanup" "remove old alias [\w.-]+" ].

Definition known_kernel_rules : list rule :=
  concat (map (fun pattern => [ known "kernel" "boot_inventory" ("(?:<\d+>)?(?:\[\d+\] )?" +:+ pattern) ])
    [ "---<<BOOT>>---";
      "Copyright \(c\) \d{4}-\d{4} The FreeBSD Project\.";
      "Copyright \(c\) \d{4}(?:, \d{4})*";
      "\tThe Regents of the University of California\. All rights reserved\.";
      "The Regents of the University of California\. All rights reserved\.";
      "FreeBSD is a registered trademark of The FreeBSD Foundation\.";
      "FreeBSD [^\r\n]+ (?:SMP|GENERIC) amd64";
      "FreeBSD clang version [\w.]+ \(https://github\.com/llvm/llvm-project\.git [\w.-]+\)";
      "VT\(efifb\): resolution \d+x\d+";
      "CPU: [^\r\n]+ \(\d+\.\d+-MHz K8-class CPU\)";
      " +Origin=\x22[\w]+\x22 +Id=0x[0-9a-f]+ +Family=0x[0-9a-f]+ +Model=0x[0-9a-f]+ +Stepping=\d+";
      " +(?:Features2?|AMD Features2?|Structured Extended Features[23]?|XSAVE Features)=0x[0-9a-f]+<[\w.,]+>";
      " +VT-x: [\w,]+";
      " +TSC: P-state invariant, performance statistics";
      "(?:real|avail) memory += \d+ \(\d+ MB\)";
      "Event timer \x22[\w-]+\x22 quality \d+";
      "ACPI APIC Table: <[\w ]+>";
      "FreeBSD/SMP: Multiprocessor System Detected: \d+ CPUs";
      "FreeBSD/SMP: \d+ package\(s\) x \d+ core\(s\) x \d+ hardware threads";
      "random: (?:registering fast source Intel Secure Key (?:RNG|Seed)|fast provider: \x22Intel Secure Key (?:RNG|Seed)\x22|unblocking device\.|entropy device external interface)";
      "ioapic\d+ <Version \d+\.\d+> irqs \d+-\d+";
      "Launching APs: \d+(?: \d+)*";
      "wlan: mac acl policy registered";
      "kbd\d+ at kbdmux\d+";
      "(?:[\w]+\d+|uart): <[^>\r\n]+>(?: (?:port|mem|iomem|irq|at|on|flags) [\w .,:()/+-]+)?";
      "(?:efirtc|atrtc)\d+: registered as a time-of-day clock, resolution \d+(?:\.\d+)?(?:us|s)";
      "smbios\d+: Entry point: v\d+ \(\d+-bit\), Version: \d+\.\d+(?:, BCD Revision: \d+\.\d+)?";
      "acpi\d+: Power Button \(fixed\)";
      "Timecounter \x22[\w-]+\x22 frequency \d+ Hz quality -?\d+";
      "Event timer \x22[\w-]+\x22 frequency \d+ Hz quality -?\d+";
      "Timecounters tick every \d+\.\d+ msec";
      "(?:ixl|igb)\d+: fw [\w.]+ api [\w.]+ nvm [\w.]+ etid [0-9a-fA-F]+(?: oem [\w.]+)?";
      "ixl\d+: PF-ID\[\d+\]: VFs \d+, MSI-X \d+, VF MSI-X \d+, QPs \d+, (?:I2C|(?:AV|RSS) [\w, ]+)";
      "(?:ixl|igb)\d+: Using \d+ (?:TX descriptors and \d+ RX descriptors|RX queues \d+ TX queues)";
      "(?:ixl|igb)\d+: Using MSI-X interrupts with \d+ vectors";
      "(?:ixl|igb)\d+: Ethernet address: [0-9a-fA-F:]+";
      "ixl\d+: Allocating \d+ queues for PF LAN VSI; \d+ queues active";
      "ixl\d+: PCI Express Bus: Speed \d+\.\d+GT/s Width x\d+";
      "ixl\d+: SR-IOV ready";
      "(?:ixl|igb)\d+: netmap queues/slots: TX \d+/\d+, RX \d+/\d+";
      "xhci\d+: \d+ bytes context size, \d+-bit DMA";
      "xhci\d+: xECP capabilities <[\w(),]+>";
      "usbus\d+ on xhci\d+";
      "usbus\d+: \d+\.\d+Gbps Super Speed USB v\d+\.\d+";
      "ahci\d+: AHCI v?\d+\.\d+ with \d+ \d+Gbps ports, Port Multiplier (?:not )?supported";
      "igb\d+: EEPROM V\d+\.\d+-\d+ eTrack 0x[0-9a-fA-F]+";
      "vgapci\d+: Boot video device";
      "atrtc\d+: <AT realtime clock> at port 0x[0-9a-f]+ on isa\d+";
      "ZFS filesystem version: \d+";
      "ZFS storage pool version: features support \(\d+\)";
      "Trying to mount root from zfs:[\w/-]+ \[\]\.\.\.";
      "uhub\d+ on usbus\d+";
      "ada\d+ at ahcich\d+ bus \d+ scbus\d+ target \d+ lun \d+";
      "ada\d+: Serial Number [\w-]+";
      "ada\d+: \d+\.\d+MB/s transfers \(SATA \d+\.[\dx]+, UDMA\d+, PIO \d+bytes\)";
      "ada\d+: Command Queueing enabled";
      "ada\d+: \d+MB \(\d+ \d+ byte sectors\)";
      "ada\d+: quirks=0x[0-9a-f]+<[\w,]+>";
      "ses\d+ at ahciem\d+ bus \d+ scbus\d+ target \d+ lun \d+";
      "ses\d+: SEMB SES Device";
      "ses\d+: ada\d+,pass\d+ in 'Slot \d+', SATA Slot: scbus\d+ target \d+";
      "uhub\d+: \d+ ports with \d+ removable, self powered";
      "Mounting filesystems\.\.\.";
      "no pools available to import";
      "Setting hostuuid: [0-9a-fA-F-]+\.";
      "Setting hostid: 0x[0-9a-fA-F]+\.";
      ">>> Invoking (?:import|early) script '[\w.-]+'";
      "Configuring crash dump device: /dev/[\w]+";
      "swapon: adding /dev/[\w]+ as swap device";
      "\.ELF ldconfig path: /lib(?: /[\w./-]+)*";
      "ugen\d+\.\d+: <[^>\r\n]+> at usbus\d+";
      "ada\d+: <[^>\r\n]+> ACS-\d+ ATA SATA \d+\.[\dx]+ device";
      "ses\d+: <[^>\r\n]+> SEMB S-E-S \d+\.\d+ device";
      "32-bit compatibility ldconfig path:";
      "done\.";
      "Starting configd\.";
      "Generating configuration: templates\.\.\.done";
      "CARP event system: OK";
      "";
      "Launching the init system\.\.\.done\.";
      "Initializing\.{10}done\.";
      "Starting device manager\.\.\.";
      "ig4iic\d+: Using MSI";
      "acpi_wmi\d+: Embedded MOF found";
      "Configuring login behaviour\.\.\.done\.";
      "Configuring loopback interface\.\.\.";
      "Configuring kernel modules\.\.\.";
      "Setting up extended sysctls\.\.\.done\.";
      "Setting timezone: [\w/+-]+";
      "Writing firmware settings: [\w ]+";
      "Writing trust files\.\.\.done\.";
      "Scanning /(?:usr/share/certs/(?:untrusted|trusted)|usr/local/share/certs) for certificates\.\.\.";
      "certctl: No changes to trust store(?: were made\.)?" ])
  ++ concat (map (fun pattern => [ captured "kernel" "kernel_boot_diagnostic" ("(?:<\d+>)?(?:\[\d+\] )?(" +:+ pattern +:+ ")") ["error.message"] ])
    [ "WARNING: Device \x22spkr\x22 is Giant locked(?: and may be deleted before FreeBSD \d+\.\d+\.)?";
      "atrtc\d+: Warning: Couldn't map I/O\.";
      "atrtc\d+: Can't map interrupt\.";
      "igb\d+: PHY reset is blocked due to SOL/IDER session\.";
      "uart: ns8250: UART FCR is broken(?: \(0x[0-9a-f]+\))?";
      "acpi_wmi\d+: cannot find EC device" ])
  ++ [ captured "kernel" "interface_driver_link_up" "(?:<\d+>)?(?:\[\d+\] )?([\w.-]+): Link is up, (\d+) Gbps Full Duplex, Requested FEC: (\w+), Negotiated FEC: (\w+), Autoneg: (\w+), Flow Control: (\w+)" ["interface"; "interface.speed_gbps"; "interface.fec.requested"; "interface.fec.negotiated"; "interface.autoneg"; "interface.flow_control"];
    captured "kernel" "interface_renamed" "(?:<\d+>)?(?:\[\d+\] )?([\w.-]+): changing name to '([\w.-]+)'" ["interface.previous"; "interface"];
    captured "kernel" "ipv6_dad_diagnostic" "(?:<\d+>)?(?:\[\d+\] )?nd6_dad_timer: called with non-tentative address (\S+)" ["interface.address"];
    captured "kernel" "process_signal_exit" "(?:<\d+>)?(?:\[\d+\] )?pid (\d+) \(([^)\r\n]+)\), jid (\d+), uid (\d+): exited on signal (\d+) \(no core dump - denied by ([\w.]+)\)" ["process.pid"; "process.name"; "process.jail_id"; "process.uid"; "process.signal"; "process.core_policy"];
    captured "kernel" "netmap_free_diagnostic" "(?:<\d+>)?(?:\[\d+\] )?\d+\.\d+ \[ *\d+\] netmap_extra_free +breaking with head ([0-9a-fA-F]+)" ["netmap.head"] ].

Definition acmeTimestamp : string := "\[(?:Mon|Tue|Wed|Thu|Fri|Sat|Sun) (?:Jan|Feb|Mar|Apr|May|Jun|Jul|Aug|Sep|Oct|Nov|Dec) +\d{1,2} \d{2}:\d{2}:\d{2} [A-Z]{2,5} \d{4}\] ".
Definition retained_capture_rules : list rule :=
  [ known "configd.py" "config_daemon_lifecycle" "Starting daemon\.";
    known "root" "bogon_update_progress" "Bogons V[46] file updated: \d+ addresses changed\.";
    captured "miniupnpd" "upnp_interface_address_failed" "Failed to get IP for interface ([\w.-]+)" ["interface"];
    captured "miniupnpd" "upnp_pcp_invalid" "PCP: Invalid PCP v(\d+) (MAP) message\." ["pcp.version"; "pcp.opcode"];
    captured "unbound" "resolver_upstream_failed" "\[\d+:\d+\] error: SERVFAIL <([^\s<>]+) ([A-Z][A-Z0-9]*) (IN)>: all the configured stub or forward servers failed, at zone (\S+) (upstream server timeout|no server to query nameserver addresses not usable have no nameserver names)" ["dns.query_name"; "dns.query_type"; "dns.query_class"; "dns.zone"; "error.message"];
    captured "dhcp6c" "dhcp6_transmit_failed" "transmit failed: (Can't assign requested address)" ["error.message"];
    known "sasldblistusers2" "sasl_library_trace" "DIGEST-MD5 common mech free";
    known "saslpasswd2" "sasl_library_trace" "DIGEST-MD5 common mech free";
    known "saslpasswd2" "sasl_library_trace" "_plug_EVP_MD_CTX_(?:new|free)\(\)";
    captured "saslpasswd2" "sasl_otp_password_set" "Setpass for (OTP) successful" ["sasl.mechanism"];
    known "charon" "ipsec_daemon_lifecycle" "\d+\[DMN\] SIGTERM received, shutting down";
    captured "ppp" "ppp_signal_received" "caught fatal signal (TERM)" ["process.signal"];
    captured "ppp" "ppp_interface_close_requested" "\[([\w.-]+)\] IFACE: Close event" ["ppp.bundle"];
    captured "ppp" "ppp_echo_reply_missing" "\[([\w.-]+)\] LCP: no reply to (\d+) echo request\(s\)" ["ppp.link"; "ppp.echo_requests"];
    captured "ppp" "ppp_peer_not_responding" "\[([\w.-]+)\] LCP: peer not responding to echo requests" ["ppp.link"];
    known "ppp" "ppp_negotiation_trace" "\[[\w.-]+\] LCP: SendTerminateReq #\d+";
    captured "ppp" "ppp_hook_remove_failed" "\[([\w.-]+)\] can't remove hook ([\w.-]+) from node \x22([^\x22\r\n]+)\x22: (No such file or directory)" ["ppp.link"; "ppp.hook"; "ppp.node"; "error.message"];
    captured "ppp" "pppoe_connection_timeout" "\[([\w.-]+)\] PPPoE connection timeout after (\d+) seconds" ["ppp.link"; "pppoe.timeout_seconds"];
    captured "kernel" "icmp6_unreachable_rate_limited" "(?:<\d+>)?(?:\[\d+\] )?Limiting ICMPv6 destination unreachable output from (\d+) to (\d+) packets/sec" ["icmp6.rate.previous"; "icmp6.rate.current"];
    known "kernel" "shutdown_progress" "(?:<\d+>)?(?:\[\d+\] )?Waiting \(max \d+ seconds\) for system process `(?:vnlru|syncer)' to stop\.\.\. (?:done)?";
    known "kernel" "shutdown_progress" "(?:<\d+>)?(?:\[\d+\] )?Syncing disks, vnodes remaining\.\.\. \d+(?: \d+)* ?";
    known "kernel" "shutdown_progress" "(?:<\d+>)?(?:\[\d+\] )?(?:done|All buffers synced\.|Uptime: (?:\d+d)?(?:\d+h)?(?:\d+m)?\d+s)";
    known "kernel" "device_detached" "(?:<\d+>)?(?:\[\d+\] )?uhub\d+: detached";
    known "kernel" "boot_configuration_progress" "(?:<\d+>)?(?:\[\d+\] )?(?:Configuring (?:loopback interface|LAGG interfaces)\.\.\.done\.|Setting up routes\.\.\.|Configuring firewall\.|\.{6}done\.)";
    captured "kernel" "firmware_lldp_disable_failed" "(?:<\d+>)?(?:\[\d+\] )?([\w.-]+): Disabling FW LLDP agent failed: error: (I40E_ERR_ADMIN_QUEUE_ERROR), (I40E_AQ_RC_ERANGE)" ["interface"; "error.code"; "firmware.error_code"];
    captured "opnsense" "interface_configuration_started" "/usr/local/etc/rc\.[\w.]+: Device ([\w.-]+) required for ([\w.-]+), configuring now" ["interface"; "interface.name"];
    captured "opnsense" "interface_configuration_failed" "/usr/local/etc/rc\.[\w.]+: Unable to configure nonexistent interface ([\w.-]+) \(([\w.-]+)\)" ["interface.name"; "interface"];
    captured "opnsense" "certificate_renewal_requested" "AcmeClient: renew certificate: ([\w*.-]+)" ["certificate.name"];
    captured "lldpd" "lldp_firmware_disable_failed" "unable to disable LLDP in firmware for ([\w.-]+) via (dev\.[\w.]+\.fw_lldp): (Invalid argument)" ["interface"; "sysctl.name"; "error.message"];
    captured "lighttpd" "tls_protocol_unsupported" "\((/[\w/.-]+/mod_openssl\.c\.\d+)\) SSL: addr:(\S+) ssl_err:(\d+) error:([0-9A-Fa-f]+):SSL routines::(unsupported protocol)" [""; "src.ip"; "tls.error_number"; "tls.error_code"; "error.message"];
    captured "ddclient" "dynamic_dns_address_missing" "Account (\S+) \[([\w.-]+) - ([\w.-]+)\]  (no global IP address detected, check config if warning persists)" [""; "ddclient.service"; "ddclient.protocol"; "error.message"] ]
  ++ concat (map (fun pattern => [ known "acme.sh" "certificate_automation_progress" (acmeTimestamp +:+ pattern) ])
    [ "Renew: [\w*.-]+";
      "Renewing: '[\w*.-]+'";
      "Renewing using Le_API=https://[A-Za-z0-9.-]+(?::\d+)?/[A-Za-z0-9_./?=&%+-]*";
      "Current renewal time: \d{4}-\d{2}-\d{2}T\d{2}:\d{2}:\d{2}Z";
      "ARI suggestedWindow: \d{4}-\d{2}-\d{2}T\d{2}:\d{2}:\d{2}Z to \d{4}-\d{2}-\d{2}T\d{2}:\d{2}:\d{2}Z";
      "Updating renewal time picked from ARI window: \d{4}-\d{2}-\d{2}T\d{2}:\d{2}:\d{2}Z";
      "ARI suggested renewal has passed \(\d{4}-\d{2}-\d{2}T\d{2}:\d{2}:\d{2}Z\), proceeding with renewal\.";
      "Single domain='[\w*.-]+'";
      "Getting webroot for domain='[\w*.-]+'";
      "Adding record";
      "Added, OK";
      "The TXT record has been successfully added\.";
      "Sleeping for \d+ seconds to wait for the the TXT records to take effect";
      "Verifying: [\w*.-]+";
      "Removing DNS records\.";
      "Successfully removed";
      "Let's finalize the order\.";
      "Le_OrderFinalize='https://[A-Za-z0-9.-]+(?::\d+)?/[A-Za-z0-9_./?=&%+-]*'";
      "Downloading cert\.";
      "Le_LinkCert='https://[A-Za-z0-9.-]+(?::\d+)?/[A-Za-z0-9_./?=&%+-]*'";
      "Your cert is in: /[\w/.-]+";
      "Your cert key is in: /[\w/.-]+";
      "The intermediate CA cert is in: /[\w/.-]+";
      "And the full-chain cert is in: /[\w/.-]+";
      "Next renewal time picked from ARI window: \d{4}-\d{2}-\d{2}T\d{2}:\d{2}:\d{2}Z";
      "Installing key to: /[\w/.-]+" ])
  ++ [ captured "config" "certificate_updated" "AcmeClient: updated ACME ([\w.-]+) certificate: ([\w*.-]+) \(([0-9a-f]+)\)" [""; "certificate.name"; ""];
    captured "config" "certificate_automation_requested" "AcmeClient: running automations for certificate: ([\w*.-]+)" ["certificate.name"];
    captured "config" "certificate_action_requested" "AcmeClient: running automation \((configd)\): ([\w.-]+)" ["automation.backend"; "automation.action"] ].

Definition prefix : string := "(?:<\d+>)?(?:\[\d+\] )?".
Definition upgradeConsoleRules : list rule :=
  concat (map (fun pattern => [ known "kernel" "boot_configuration_progress" (prefix +:+ pattern) ])
    [ "certctl: Modified \d+ trust store links?\.";
      "Writing trust bundles\.\.\.done\.";
      "Setting hostname: [\w.-]+";
      "Generating /etc/[\w.-]+\.\.\.done\.";
      "Configuring (?:system logging|hardware interfaces|tailscale interface|zenoverlay interface|LAN interface|OpenSSH)\.\.\.done\.";
      "Configuring firewall\.{2,7}(?:done\.)?";
      "Configuring [\w.-]+ interface\.\.\.";
      "Starting (?:web GUI|router advertisement service|Dnsmasq|Unbound DNS|UPnP IGD & PCP/NAT-PMP service|NTP service)\.\.\.done\.";
      "Setting up (?:routes|gateway monitor)\.\.\.done\.";
      "Syncing OpenVPN settings\.\.\.done\.";
      "Sync KEA DHCP config\.\.\.done\.";
      "Configuring IPsec VPN\.\.\.done\.";
      "\.{5}done\.";
      ">>> Invoking start script '[\w.-]+'";
      "Reconfiguring IPv[46] on [\w.-]+";
      "setup [\w.-]+(?: \[egress only\])?";
      "Starting (?:kea|tailscaled|alloy|senpai|eastpect|ddclient_opn|elasticsearch|snmpd|acme_http_challenge|lldpd|unbound_exporter)\.";
      "INFO/[\w.-]+: Starting /usr/local/sbin/kea-dhcp[46] -c /[\w/.-]+";
      "/dev/[\w]+: \d+\.\d+MB \(\d+ sectors\) block size \d+, fragment size \d+";
      "\tusing \d+ cylinder groups of \d+\.\d+MB, \d+ blks, \d+ inodes\.";
      "\twith soft updates";
      "super-block backups \(for fsck_ffs -b #\) at:";
      " \d+(?:, \d+)+";
      "Service \x60sysctl' has been restarted\.";
      "load feed [\w.-]+ \[\d+ addresses added\.\]";
      "Root file system: zroot/[\w/-]+";
      "(?:Mon|Tue|Wed|Thu|Fri|Sat|Sun) (?:Jan|Feb|Mar|Apr|May|Jun|Jul|Aug|Sep|Oct|Nov|Dec) +\d+ \d{2}:\d{2}:\d{2} [A-Z]+ \d{4}";
      "\*\*\* [\w.-]+: OPNsense [\w.+-]+ \(amd64\) \*\*\*";
      " +[\w.-]+ \([\w.-]+\) +-> v[46](?:/(?:DHCP[46]|SLAAC|PPPoE))?: [\da-fA-F:.]+(?:%[\w.-]+)?/\d+";
      " +v6/(?:DHCP6|SLAAC|t6): [\da-fA-F:.]+(?:%[\w.-]+)?/\d+";
      "OK" ])
  ++ [ captured "kernel" "interface_promiscuous_enabled" (prefix +:+ "([\w.-]+): permanently promiscuous mode enabled") ["interface"];
    captured "kernel" "listen_queue_overflow" (prefix +:+ "sonewconn: pcb (0x[\da-f]+) \(([^\r\n]+)\): Listen queue overflow: (\d+) already in queue awaiting acceptance \((\d+) occurrences\), euid (\d+), rgid (\d+), jail (\d+)") ["socket.pcb"; "socket.description"; "socket.pending"; "socket.overflow_occurrences"; "process.euid"; "process.rgid"; "process.jail_id"];
    captured "kernel" "advertised_routes_ignored" (prefix +:+ "(Some peers are advertising routes but --accept-routes is false)") ["error.message"];
    captured "kernel" "java_home_ignored" (prefix +:+ "warning: ignoring JAVA_HOME=(/[\w/.-]+); using ES_JAVA_HOME") ["java.home.ignored"];
    captured "kernel" "netmap_interface_configuration" (prefix +:+ "\d+\.\d+ \[ *\d+\] iflib_netmap_config +txr (\d+) rxr (\d+) txd (\d+) rxd (\d+) rbufsz (\d+)") ["netmap.tx_rings"; "netmap.rx_rings"; "netmap.tx_descriptors"; "netmap.rx_descriptors"; "netmap.receive_buffer_size"];
    captured "kernel" "elasticsearch_log" (prefix +:+ "\[(\d{4}-\d{2}-\d{2}T\d{2}:\d{2}:\d{2},\d{3})\]\[(INFO |WARN |ERROR|DEBUG|TRACE)\]\[([\w.$]+) *\] \[([^\]\r\n]+)\] ([^\r\n]+)") ["elasticsearch.timestamp"; "elasticsearch.level"; "log.logger"; "elasticsearch.node"; "elasticsearch.message"] ].

Definition upgrade_boot_rules : list rule :=
  concat (map (fun p => [ captured p "package_reinstalled" "([\w.+-]+) reinstalled: ([\w.+,~-]+) -> ([\w.+,~-]+)" ["package.name"; "package.version.previous"; "package.version"];
      captured p "package_installed" "([\w.+-]+)-(\d[\w.+,~]*) installed" ["package.name"; "package.version"];
      captured p "package_deinstalled" "([\w.+-]+)-(\d[\w.+,~]*) deinstalled" ["package.name"; "package.version"] ])
    [ "pkg";
      "pkg-static" ])
  ++ [ known "configd.py" "config_daemon_lifecycle" "Stopping daemon\.";
    captured "configd.py" "config_response_failed" "unable to sendback response for ([\da-fA-F-]+), message was (Traceback \(most recent call last\):[^\r\n]+)" ["config.request"; "error.message"];
    known "zenoverlay" "overlay_lifecycle" "zenoverlay instance zenoverlay \(zen\d+\) started";
    captured "opnsense" "interface_command_failed" (opnsenseScript +:+ "The command <([^>\r\n]+)> returned exit code (\d+) and the output was \x22([^\r\n]+)\x22") ["process.command"; "process.exit_code"; "error.message"];
    captured "opnsense" "interface_configuration_started" (opnsenseScript +:+ "Device ([\w.-]+) required by ([\w.-]+)\(([\w.-]*)\), configuring now") ["interface"; "interface.name"; "interface.id"];
    captured "opnsense" "interface_configuration_started" (opnsenseScript +:+ "Device ([\w.-]+) required by \((loopback)\)\(\), configuring now") ["interface"; "interface.name"];
    known "opnsense" "boot_renewal_deferred" (opnsenseScript +:+ "IP renewal deferred during boot on '[\w.-]+'");
    captured "opnsense" "interface_address_renewal_started" (opnsenseScript +:+ "IP renewal starting \(new: (\S+), old: , interface: ([\w.-]+), device: ([\w.-]+), force: (yes|no)\)") ["interface.address"; "interface.name"; "interface"; "interface.force"];
    captured "dhclient" "dhcp_script_address_configuration" "dhclient-script: New (IP Address|Subnet Mask|Broadcast Address|Routers) \(([\w.-]+)\): ([\d.]+)" ["dhcp.script_field"; "interface"; "interface.address"];
    known "dhcp6c" "dhcp_helper_start" "rtsold_script: starting dhcp6c";
    known "ppp" "ppp_daemon_lifecycle" "(?:Multi-link PPP daemon for FreeBSD|process \d+ started, version [\w.-]+|web: web is not running|)";
    captured "ppp" "ppp_interface_created" "\[([\w.-]+)\] Bundle: Interface ([\w.-]+) created" ["ppp.bundle"; "interface"];
    captured "ppp" "ppp_interface_mtu_failed" "\[([\w.-]+)\] GetSystemIfaceMTU: SIOCGIFMTU failed: (Device not configured)" ["ppp.link"; "error.message"];
    captured "ppp" "ppp_link_open_requested" "\[([\w.-]+)\] Link: OPEN event" ["ppp.link"];
    known "devd" "device_node_notice" "Processing event '!system=ETHERNET subsystem=[\w.-]+ type=IFATTACH'";
    known "devd" "device_node_notice" "Processing event '!system=(?:GEOM subsystem=DEV|DEVFS subsystem=CDEV) type=(?:CREATE|DESTROY|MEDIACHANGE) cdev=[\w./-]+'";
    known "devd" "filesystem_mount_notice" "Processing event '!system=VFS subsystem=FS type=MOUNT mount-point=\x22/[\w/.-]*\x22 mount-dev=\x22[\w/.-]+\x22 mount-type=\x22(?:devfs|nullfs|ufs|tmpfs)\x22 fsid=0x[\da-f]+ owner=\d+ flags=\x22(?:local|multilabel|read-only|soft-updates|noexec)(?:;(?:local|multilabel|read-only|soft-updates|noexec))*;\x22'";
    known "devd" "device_dispatch_trace" "Executing '/usr/sbin/automount -c'";
    captured "daemon" "daemon_file_missing" "daemon: (/[\w/.-]+): (No such file or directory)" ["file.path"; "error.message"];
    known "daemon" "ipsec_optional_include_empty" "\d+\[LIB\] no files found matching '/[\w/.*-]+'";
    known "charon" "ipsec_daemon_configuration" "\d+\[DMN\] Starting IKE charon daemon \(strongSwan [\w.-]+, FreeBSD [\w.-]+, amd64\)";
    known "charon" "ipsec_daemon_configuration" "\d+\[LIB\] providers loaded by OpenSSL: default legacy";
    known "charon" "ipsec_daemon_configuration" "\d+\[CFG\] using '/[\w/.-]+' to install DNS servers";
    captured "charon" "ipsec_radius_configuration_skipped" "\d+\[CFG\] RADIUS server '([^'\r\n]+)' misses address, skipped" ["radius.server"];
    known "charon" "ipsec_daemon_configuration" "\d+\[CFG\] loaded \d+ RADIUS server configurations";
    known "charon" "ipsec_daemon_configuration" "\d+\[LIB\] loaded plugins: [\w-]+(?: [\w-]+)*";
    known "charon" "ipsec_daemon_configuration" "\d+\[JOB\] spawning \d+ worker threads";
    known "charon" "ipsec_credential_inventory" "\d+\[CFG\] loaded certificate '[^\r\n]+'";
    known "charon" "ipsec_credential_inventory" "\d+\[CFG\] loaded IKE shared key with id 'ike-[^'\r\n]+' for: '[^'\r\n]+'";
    captured "lldpd" "lldp_os_information_unavailable" "could not open either (/etc/[\w.-]+) or (/usr/lib/[\w.-]+)" ["file.path"; "file.alternative_path"];
    known "lldpd" "lldp_daemon_configuration" "(?:lsb_release information not available|no libcap support, running monitor as root|/[\w/.-]+ copied to chroot|protocol (?:LLDP|CDPv[12]|SONMP|EDP|FDP) (?:enabled|disabled)|libevent [\w.-]+ initialized with kqueue method|enable SNMP subagent|ixl driver detected for ixl\d+, disabling LLDP in firmware)";
    known "lldpcli" "lldp_daemon_lifecycle" "lldpd should resume operations";
    known "eastpect" "packet_capture_interface_mode" "nm\d+::[\w.-]+(?::\d+|\^): permanently promiscuous mode enabled";
    known "unbound" "resolver_stats_dump" "\[\d+:\d+\] info: \[25%\]=\d+(?:\.\d+)? median\[50%\]=\d+(?:\.\d+)? \[75%\]=\d+(?:\.\d+)?" ].

(** The rules in the order the files of the package are initialised. *)
Definition rules : list rule :=
  captured_api_rules ++ captured_events_rules ++ captured_system_rules ++ known_rules ++ known_kernel_rules
  ++ retained_capture_rules ++ upgrade_boot_rules ++ upgradeConsoleRules.

Record capturedRule := mkCaptured { cPattern : Regexp; event : string; fields : list string }.
Record knownRule := mkKnown { kPattern : Regexp; kReason : string }.

Definition anchored (pattern : string) : string := "^(?:" +:+ pattern +:+ ")[ \t]*$".

(** The entries of [capturedRules] and of [knownRules] for a program. *)
Definition capturedRules (program : string) : list capturedRule :=
  omap (fun r => match r with
                 | captured p e pat fs => if str_eq p program then Some (mkCaptured (MustCompile (anchored pat)) e fs) else None
                 | known _ _ _ => None
                 end) rules.
Definition knownRules (program : string) : list knownRule :=
  omap (fun r => match r with
                 | known p reason pat => if str_eq p program then Some (mkKnown (MustCompile (anchored pat)) reason) else None
                 | captured _ _ _ _ => None
                 end) rules.

(** Whether a program has captured rules ([len(capturedRules[program]) > 0]). *)
Definition has_captured (program : string) : bool :=
  existsb (fun r => match r with captured p _ _ _ => str_eq p program | known _ _ _ => false end) rules.

(** [validCapturedField] *)
(** [netip.ParsePrefix] *)
Definition ParsePrefix (s : string) : option Prefix :=
  i ← LastIndex s "/";
  ip ← ParseAddr (str_take i s);
  if (match ip with Addr6 _ z => negb (str_empty z) | _ => false end) then None
  else
    let bits := str_drop (S i) s in
    if (match bits with String c (String _ _) => negb (in_range 49 57 (byte_of c)) | _ => false end) then None
    else
      n ← Otlp.Atoi bits;
      let max := match ip with Addr6 _ _ => 128 | _ => 32 end in
      if (n <? 0) || (max <? n) then None else Some (mkPrefix ip n).

Definition valid_prefix6 (value : string) : bool :=
  match ParsePrefix value with Some p => match pfx_ip p with Addr6 _ _ => true | _ => false end | None => false end.
Definition validCapturedField (key value : string) : bool :=
  if HasSuffix key ".ip" then bool_decide (is_Some (ParseAddr value))
  else if HasSuffix key ".port" then bool_decide (is_Some (ParseUint16 value))
  else if str_eq key "dhcp6c.prefix" then valid_prefix6 value
  else true.

(** ** The records of captured rules *)

(** The level of an Elasticsearch line is its own. *)
Definition elastic (rec : LogRecord) : LogRecord :=
  let level := TrimSpace (default "" (Attributes rec !! "elasticsearch.level")) in
  let rec := rec <| Attributes ::= <["elasticsearch.level" := level]> |> in
  if str_eq level "INFO" then rec <| lSeverity := SeverityInfo |>
  else if str_eq level "ERROR" then rec <| lSeverity := SeverityError |>
  else if str_eq level "WARN" then rec <| lSeverity := SeverityWarn |>
  else if str_eq level "DEBUG" || str_eq level "TRACE" then rec <| lSeverity := SeverityDebug |>
  else rec.

Definition endpoint_attrs (snap : option Enrich.Snapshot) (rec : LogRecord) (prefix : string) : LogRecord :=
  let ip := default "" (Attributes rec !! (prefix +:+ ".ip")) in
  if str_empty ip then rec else sets (enrichEndpoint snap prefix ip "" "") rec.

(** The record of a rule whose pattern matched with the submatches [m]. *)
Definition captured_record (env : Envelope) (snap : option Enrich.Snapshot) (r : capturedRule) (m : list string) : LogRecord :=
  let rec := newRecord env (("syslog.event", event r)
               :: List.filter (fun kv => negb (str_empty kv.1)) (zip (fields r) (List.tl m))) in
  let rec := fold_left (endpoint_attrs snap) ["src"; "dst"] rec in
  let rec := if str_eq (event r) "elasticsearch_log" then elastic rec else rec in
  addCommon rec env snap true.

Fixpoint try_captured (env : Envelope) (snap : option Enrich.Snapshot) (l : list capturedRule) : option LogRecord :=
  match l with
  | [] => None
  | r :: l =>
      match FindStringSubmatch (cPattern r) (Message env) with
      | Some m =>
          if forallb (fun kv => validCapturedField kv.1 kv.2) (zip (fields r) (List.tl m)) then Some (captured_record env snap r m)
          else try_captured env snap l
      | None => try_captured env snap l
      end
  end.
Definition parseCapturedRecord (env : Envelope) (snap : option Enrich.Snapshot) : option LogRecord :=
  try_captured env snap (capturedRules (Program env)).

(** ** The known lines *)

Definition reUnboundQueryLog : Regexp := Eval vm_compute in MustCompile "^\[(\d+):(\d+)\] query: (\S+) (\S+) (\S+) (\S+)$".
Definition reUnboundReplyLog : Regexp := Eval vm_compute in
  MustCompile ("^\[(\d+):(\d+)\] reply: (\S+) (\S+) (\S+) (\S+) (\S+) (\d+\.\d{6}|-) (\d+|-) (\d+|-)"
               +:+ "(?: on (udp|tcp|dot|doh|unix|raw) (\S+) (\d+))?$").

(** [perQuery] is the option [perQueryRouteEnabled] reads. *)
Definition knownPassThrough (perQuery : bool) (env : Envelope) : string :=
  if str_eq (Program env) "unbound" && negb perQuery
     && (MatchString reUnboundQueryLog (Message env) || MatchString reUnboundReplyLog (Message env))
  then "unbound_per_query_disabled"
  else
    match List.find (fun r => MatchString (kPattern r) (Message env)) (knownRules (Program env)) with
    | Some r => kReason r
    | None => ""
    end.

(** ** Registration *)

(** [capturedEvent] and [knownMessage] compile their pattern and [capturedEvent] compares
    the number of its groups with the fields. *)
Definition rule_ok (r : rule) : bool :=
  match r with
  | captured _ _ pat fs =>
      match Compile (anchored pat) with Some re => (groups re =? length fs)%nat | None => false end
  | known _ _ pat => bool_decide (is_Some (Compile (anchored pat)))
  end.

Lemma rules_ok : forallb rule_ok rules = true.
Proof. vm_compute. reflexivity. Qed.

End Captured.
