(* ===== verification/Derive.v ===== *)
(** * Metrics derived from log lines ([logship/syslog/derive.go], [sample.go],
      [logship/logmetrics.go])

    What a record's attributes count as, by the family of its program, and which lines
    sampling may drop once they are counted.  The metric sink is an interface: what is
    proved holds for every implementation of it. *)

From stdpp Require Import base decidable list gmap strings.
From Stdlib Require Import ZArith Lia Ascii.
From S2P Require Import Prelude Netip GoStrings LogQueue OtlpSink Envelope Filterlog Registry.
Import Queue Envelope Filterlog Registry.

Module Derive.

(** ** The sink *)

(** The calls of [MetricSink] the receiver makes.  Timestamps are the integers (for
    [ObservePPPLink] the text) before their conversion to [float64]. *)
Inductive Observation :=
| ObservePPPLink (iface event : string) (timestamp : string)
| ObserveGatewayStatesKilled (gateway : string)
| ObserveFirewall (action iface ruleID ruleName scope : string)
| ObserveHAProxy (event backend server state statusClass : string)
| ObserveSSHD (result method scope : string)
| ObserveDHCP (action iface server : string)
| ObserveAudit (event result : string)
| ObserveIDS (eventType action category severity : string)
| ObserveGateway (event gateway : string)
| ObserveRADIUS (event result clientScope : string)
| ObserveVPN (backend event result connection : string)
| ObserveCARP (event from to iface vhid : string)
| ObserveNetmapRingFull (device : string)
| ObserveARPMove (iface : string)
| ObserveDHCPClient (iface msgType : string)
| ObserveDHCPClientScript (iface reason : string)
| ObserveDHCPClientLease (iface : string) (bound renewal : Z)
| ObserveDHCP6CMessage (iface direction msgType : string)
| ObserveDHCP6CEvent (iface event reason : string)
| ObserveDHCP6CPrefix (iface prefixLength : string) (updated preferredExpiry validExpiry : Z)
| ObserveDHCP6CAddress (iface : string) (updated preferredExpiry validExpiry : Z)
| ClearDHCP6CAddress (iface : string)
| ObserveDHCP6AllocFail (reason : string)
| ObserveUPnP (event result protocol : string)
| ObserveFilterlogDomain (domain : string).

(** An observation the sink takes or refuses; a refusal is [false], and so is a call of
    the optional [ObserveFilterlogDomain] on a sink without it. *)
Class MetricSink (S : Type) := observe : Observation -> S -> bool * S.

(** [NopMetricSink] takes everything and lacks the optional method for domains. *)
Definition NopMetricSink : MetricSink unit := fun o s =>
  (match o with ObserveFilterlogDomain _ => false | _ => true end, s).

(** ** Families *)

Inductive family :=
| familyPPP | familyOPNsense | familyFirewall | familyHAProxy | familySSHD | familyDHCP | familyAudit | familyIDS
| familyGateway | familyRADIUS | familyVPN | familyKernel | familyUPnP | familyDHCPClient | familyDHCP6C.

Definition programFamily : gmap string family := list_to_map
  [("ppp", familyPPP); ("opnsense", familyOPNsense); ("filterlog", familyFirewall); ("haproxy", familyHAProxy);
   ("sshd", familySSHD); ("sshd-session", familySSHD); ("dhcpd", familyDHCP); ("dnsmasq", familyDHCP);
   ("dnsmasq-dhcp", familyDHCP); ("kea-dhcp4", familyDHCP); ("kea-dhcp6", familyDHCP); ("dhcrelay", familyDHCP);
   ("audit", familyAudit); ("configd.py", familyAudit); ("suricata", familyIDS); ("dpinger", familyGateway);
   ("radiusd", familyRADIUS); ("charon", familyVPN); ("kernel", familyKernel); ("miniupnpd", familyUPnP);
   ("dhclient", familyDHCPClient); ("dhcp6c", familyDHCP6C)].

Definition programPrefixFamily : gmap string family := list_to_map [("openvpn", familyVPN)].

Definition deriveFamily (program : string) : option family :=
  match programFamily !! program with
  | Some f => Some f
  | None => option_map snd (longestPrefixMatch programPrefixFamily program)
  end.

(** ** Labels *)

Definition firstNonEmpty (a b : string) : string := if str_empty a then b else a.

Definition statusClass (status : string) : string :=
  if str_empty status then ""
  else match Otlp.Atoi status with
       | None => ""
       | Some code => if (code <? 100) || (599 <? code) then "" else Itoa (Z.quot code 100) +:+ "xx"
       end.

Definition parseUnixSeconds (s : string) : option Z := if str_empty s then None else Otlp.Atoi s.

Definition eveOther : string := "other".
Definition mapEveEventType (v : string) : string :=
  if str_empty v then "" else if bool_decide (v ∈ ["alert"; "anomaly"; "drop"; "stats"]) then v else eveOther.
Definition mapEveSeverity (v : string) : string :=
  if str_empty v then "" else if bool_decide (v ∈ ["1"; "2"; "3"; "4"]) then v else eveOther.

(** [attrs[k]] *)
Definition attr (attrs : gmap string string) (k : string) : string := default "" (attrs !! k).

(** ** What a record is counted as *)

(** The calls [observeDerived] makes, in order. *)
Definition kernel_calls (a : gmap string string) : list Observation :=
  if negb (str_empty (attr a "netmap.event")) then [ObserveNetmapRingFull (attr a "netmap.device")]
  else if negb (str_empty (attr a "arp.event")) then [ObserveARPMove (attr a "arp.interface")]
  else if str_empty (attr a "carp.event") then []
  else [ObserveCARP (attr a "carp.event") (attr a "carp.state.previous") (attr a "carp.state.current")
          (attr a "carp.interface") (attr a "carp.vhid")].

Definition dhcp_client_calls (a : gmap string string) : list Observation :=
  let iface := attr a "dhcp_client.interface" in
  let t := attr a "dhcp_client.type" in
  let reason := attr a "dhcp_client.script.reason" in
  (if str_empty t then [] else [ObserveDHCPClient iface t])
  ++ match parseUnixSeconds (attr a "dhcp_client.lease.bound_timestamp"), parseUnixSeconds (attr a "dhcp_client.lease.renewal_timestamp") with
     | Some bound, Some renewal => [ObserveDHCPClientLease iface bound renewal]
     | _, _ => []
     end
  ++ (if str_empty reason then [] else [ObserveDHCPClientScript iface reason]).

Definition dhcp_calls (a : gmap string string) : list Observation :=
  (if str_empty (attr a "dhcp.action") then []
   else [ObserveDHCP (attr a "dhcp.action") (firstNonEmpty (attr a "interface.name") (attr a "interface")) (attr a "dhcp.server_ip")])
  ++ (if str_empty (attr a "dhcp.alloc_fail_reason") then [] else [ObserveDHCP6AllocFail (attr a "dhcp.alloc_fail_reason")]).

Definition dhcp6c_calls (a : gmap string string) : list Observation :=
  let iface := attr a "dhcp6c.interface" in
  (if str_empty (attr a "dhcp6c.direction") then [] else [ObserveDHCP6CMessage iface (attr a "dhcp6c.direction") (attr a "dhcp6c.type")])
  ++ (if str_empty (attr a "dhcp6c.event") then [] else [ObserveDHCP6CEvent iface (attr a "dhcp6c.event") (attr a "dhcp6c.script.reason")])
  ++ match parseUnixSeconds (attr a "dhcp6c.prefix.updated_timestamp"), parseUnixSeconds (attr a "dhcp6c.prefix.preferred_expiry_timestamp"),
           parseUnixSeconds (attr a "dhcp6c.prefix.valid_expiry_timestamp") with
     | Some updated, Some preferred, Some valid => [ObserveDHCP6CPrefix iface (attr a "dhcp6c.prefix_length") updated preferred valid]
     | _, _, _ => []
     end
  ++ match parseUnixSeconds (attr a "dhcp6c.address_lease.updated_timestamp"),
           parseUnixSeconds (attr a "dhcp6c.address_lease.preferred_expiry_timestamp"),
           parseUnixSeconds (attr a "dhcp6c.address_lease.valid_expiry_timestamp") with
     | Some updated, Some preferred, Some valid => [ObserveDHCP6CAddress iface updated preferred valid]
     | _, _, _ => []
     end
  ++ (if str_eq (attr a "dhcp6c.event") "address_lease_removed" then [ClearDHCP6CAddress iface] else []).

Definition derived_calls (program : string) (a : gmap string string) : list Observation :=
  match deriveFamily program with
  | None => []
  | Some familyPPP =>
      let iface := attr a "ppp.bundle" in
      let event := attr a "ppp.event" in
      if str_empty iface || (negb (str_eq event "iface_up") && negb (str_eq event "iface_down")) then []
      else [ObservePPPLink iface (if str_eq event "iface_up" then "link_up" else "link_down") (attr a "ppp.edge_timestamp")]
  | Some familyOPNsense =>
      if negb (str_eq (attr a "syslog.event") "gateway_states_killed") || str_empty (attr a "gateway.name") then []
      else [ObserveGatewayStatesKilled (attr a "gateway.name")]
  | Some familyFirewall =>
      if str_empty (attr a "action") then []
      else [ObserveFirewall (attr a Otlp.AttrAction) (firstNonEmpty (attr a "interface.name") (attr a "interface"))
              (firstNonEmpty (attr a "rule.id") (attr a "rule.ref")) (attr a "rule.description") (attr a "src.scope")]
  | Some familyHAProxy =>
      if str_empty (attr a "haproxy.event") then []
      else [ObserveHAProxy (attr a "haproxy.event") (attr a "haproxy.backend") (attr a "haproxy.server") (attr a "haproxy.state")
              (statusClass (attr a "http.response.status_code"))]
  | Some familySSHD =>
      if str_empty (attr a "auth.result") then []
      else [ObserveSSHD (attr a "auth.result") (attr a "auth.method") (attr a "src.scope")]
  | Some familyDHCP => dhcp_calls a
  | Some familyAudit =>
      if str_empty (attr a "event") then [] else [ObserveAudit (attr a "event") (attr a "audit.result")]
  | Some familyIDS =>
      if str_empty (attr a "event_type") then []
      else [ObserveIDS (mapEveEventType (attr a "event_type")) (attr a Otlp.AttrAction) (attr a "alert_category")
              (mapEveSeverity (attr a "alert_severity"))]
  | Some familyGateway =>
      if str_empty (attr a "gateway.event") || str_empty (attr a "gateway.name") then []
      else [ObserveGateway (attr a "gateway.event") (attr a "gateway.name")]
  | Some familyRADIUS =>
      if str_empty (attr a "radius.event") || str_empty (attr a "radius.result") || str_empty (attr a "radius.client_scope") then []
      else [ObserveRADIUS (attr a "radius.event") (attr a "radius.result") (attr a "radius.client_scope")]
  | Some familyVPN =>
      if str_empty (attr a "vpn.backend") || str_empty (attr a "vpn.event") || str_empty (attr a "vpn.result") then []
      else [ObserveVPN (attr a "vpn.backend") (attr a "vpn.event") (attr a "vpn.result")
              (firstNonEmpty (attr a "ipsec.connection") (attr a "openvpn.instance"))]
  | Some familyKernel => kernel_calls a
  | Some familyDHCPClient => dhcp_client_calls a
  | Some familyDHCP6C => dhcp6c_calls a
  | Some familyUPnP =>
      if str_empty (attr a "upnp.event") || str_empty (attr a "upnp.result") then []
      else [ObserveUPnP (attr a "upnp.event") (attr a "upnp.result") (attr a "upnp.protocol")]
  end.

Section Sink.
Context {S : Type} `{!MetricSink S}.

(** [counted = sink.Observe(…) || counted] *)
Definition call (acc : bool * S) (o : Observation) : bool * S :=
  let '(counted, s) := acc in
  let '(b, s) := observe o s in
  (b || counted, s).

Definition observeDerived (program : string) (attrs : gmap string string) (s : S) : bool * S :=
  fold_left call (derived_calls program attrs) (false, s).

(** A line is counted only when the sink took an observation of it. *)
Lemma call_counted l : forall acc, (fold_left call l acc).1 = true ->
  acc.1 = true \/ exists o s s', o ∈ l /\ observe o s = (true, s').
Proof.
  induction l as [|o l IH]; intros [c s] H; cbn [fold_left] in H; [by left|].
  destruct (IH _ H) as [Hc|(o' & s1 & s2 & Ho & E)].
  - unfold call in Hc. destruct (observe o s) as [b s'] eqn:E. cbn in Hc. destruct b; [|by left].
    right. exists o, s, s'. split; [constructor|done].
  - right. exists o', s1, s2. split; [by constructor|done].
Qed.
End Sink.

(** ** Sampling *)

Definition severity_rank (s : Severity) : Z :=
  match s with SeverityInfo => 0 | SeverityTrace => 1 | SeverityDebug => 2 | SeverityWarn => 3 | SeverityError => 4 | SeverityFatal => 5 end.

Definition sampleKeep (program : string) (rec : LogRecord) (counted : bool) : bool :=
  if negb counted then true
  else
    match deriveFamily program with
    | None => true
    | Some familyFirewall => negb (str_eq (attr (Attributes rec) "action") "pass")
    | Some familyHAProxy => severity_rank SeverityWarn <=? severity_rank (lSeverity rec)
    | Some _ => true
    end.

End Derive.
