(* ===== verification/Shape.v ===== *)
(** * Shapes of captured lines ([logship/capture/dedupe.go])

    The reduction of a message to its shape and the limiter that keeps one example of a
    shape per window. *)

From stdpp Require Import base decidable list gmap strings.
From Stdlib Require Import ZArith Lia Ascii.
From S2P Require Import Prelude Netip GoStrings GoTime Envelope GoRegexp.
Import Envelope Regexp.

Module Shape.

Definition shapePlaceholder : ascii := "#".
Definition maxShapeLen : nat := 120.
Definition minHexRun : nat := 8.

Definition isDigit (c : ascii) : bool := in_range 48 57 (byte_of c).
Definition isAlnum (c : ascii) : bool := isDigit c || in_range 97 122 (byte_of c) || in_range 65 90 (byte_of c).
Definition isHex (c : ascii) : bool := isDigit c || in_range 97 102 (byte_of c) || in_range 65 70 (byte_of c).
Definition isSpace (c : ascii) : bool := in_ranges [(9, 13); (32, 32)] (byte_of c).

Fixpoint str_forall (p : ascii -> bool) (s : string) : bool :=
  match s with EmptyString => true | String c s => p c && str_forall p s end.
Fixpoint str_exists (p : ascii -> bool) (s : string) : bool :=
  match s with EmptyString => false | String c s => p c || str_exists p s end.

Definition allHex (s : string) : bool := negb (str_empty s) && str_forall isHex s.
Definition hasDigit (s : string) : bool := str_exists isDigit s.

(** The longest prefix of bytes of a kind. *)
Fixpoint run (p : ascii -> bool) (s : string) : string :=
  match s with EmptyString => "" | String c s => if p c then String c (run p s) else "" end.

Definition zero_x (tok : string) : bool :=
  match tok with String z (String x rest) => Ascii.eqb z "0" && (Ascii.eqb x "x" || Ascii.eqb x "X") && allHex rest | _ => false end.

(** [hexTokenLen] of the rest of the message. *)
Definition hexTokenLen (s : string) : nat :=
  let tok := run isAlnum s in
  if (3 <=? String.length tok)%nat && zero_x tok then String.length tok
  else if (minHexRun <=? String.length tok)%nat && allHex tok && hasDigit tok then String.length tok
  else O.

(** [truncateRunes] *)
Definition truncateRunes (s : string) (max : nat) : string :=
  if (String.length s <=? max)%nat then s else text (take max (runes s)).

(** The loop of [NormaliseShape]: [prev] is the byte before the rest, [out] whether a byte
    was written. *)
Fixpoint shape_loop (fuel : nat) (prev : option ascii) (out pending : bool) (s : string) : string :=
  match fuel, s with
  | S fuel, String c s' =>
      if isSpace c then shape_loop fuel (Some c) out out s'
      else
        let sep := if pending then String " " else fun r => r in
        let start := match prev with None => true | Some p => negb (isAlnum p) end in
        let n := if start then hexTokenLen s else O in
        let jump n := String shapePlaceholder (shape_loop fuel (String.get (pred n) s) true false (str_drop n s)) in
        sep (if (0 <? n)%nat then jump n
             else if isDigit c then jump (String.length (run isDigit s))
             else String c (shape_loop fuel (Some c) true false s'))
  | _, _ => ""
  end.
Definition NormaliseShape (s : string) : string := truncateRunes (shape_loop (String.length s) None false false s) maxShapeLen.

Example shape_demo : NormaliseShape "[367655] peer 198.51.100.106  id 0x1F deadbeef1 ixl1" = "[#] peer #.#.#.# id # # ixl#".
Proof. vm_compute. reflexivity. Qed.

(** ** The limiter *)

Definition DefaultShapeWindow : Duration := 15 * Minute.
Definition DefaultMaxShapeKeys : Z := 256.
Definition foldedShapeKey : string := String "000" "folded".

Record ShapeLimiter := mkShapes { window : Duration; smax : Z; seen : gmap string Time }.
#[export] Instance eta_ShapeLimiter : Eta ShapeLimiter := fun l => mkShapes (window l) (smax l) (seen l).

Definition NewShapeLimiter (window : Duration) (max : Z) : ShapeLimiter :=
  mkShapes (if window <=? 0 then DefaultShapeWindow else window) (if max <=? 0 then DefaultMaxShapeKeys else max) ∅.

Definition shape_Allow (key : string) (now : Time) (l : ShapeLimiter) : bool * ShapeLimiter :=
  let key := if negb (bool_decide (is_Some (seen l !! key))) && (smax l <=? zsize (seen l)) then foldedShapeKey else key in
  match seen l !! key with
  | Some last => if time_Sub now last <? window l then (false, l) else (true, l <| seen ::= <[key := now]> |>)
  | None => (true, l <| seen ::= <[key := now]> |>)
  end.

(** A key that was never seen is suppressed once the limiter is full and its folded slot
    was used within the window. *)
Example novel_suppressed :
  let l := NewShapeLimiter 0 1 in
  let l := (shape_Allow "a" (time_Unix 0 0) l).2 in
  let l := (shape_Allow "b" (time_Unix 1 0) l).2 in
  (shape_Allow "c" (time_Unix 2 0) l).1 = false.
Proof. vm_compute. reflexivity. Qed.

(** ** What a shape and the limiter guarantee *)

Lemma exists_app p a b : str_exists p (a +:+ b) = str_exists p a || str_exists p b.
Proof. induction a as [|c a IH]; [done|]. rewrite str_app_cons. cbn [str_exists]. by rewrite IH, orb_assoc. Qed.

Lemma loop_no_digit fuel : forall prev out pending s, str_exists isDigit (shape_loop fuel prev out pending s) = false.
Proof.
  induction fuel as [|fuel IH]; intros prev out pending s; [done|]. destruct s as [|c s']; [done|]. cbn [shape_loop].
  destruct (isSpace c); [apply IH|]. cbv zeta. destruct pending.
  all: destruct (0 <? _)%nat; [cbn [str_exists]; by rewrite IH|].
  all: destruct (isDigit c) eqn:Ed; cbn [str_exists]; rewrite IH, ?Ed; done.
Qed.

Lemma truncate_prefix s n : exists rest, s = truncateRunes s n +:+ rest.
Proof.
  unfold truncateRunes. destruct (_ <=? _)%nat; [exists ""; by rewrite str_app_nil_r|]. exists (text (drop n (runes s))).
  rewrite <- (text_runes s) at 1. rewrite <- (take_drop n (runes s)) at 1. apply text_app.
Qed.

Definition allows (l : ShapeLimiter) (ops : list (string * Time)) : ShapeLimiter := fold_left (fun l '(k, t) => (shape_Allow k t l).2) ops l.

Lemma allow_const k t l : smax (shape_Allow k t l).2 = smax l /\ window (shape_Allow k t l).2 = window l.
Proof. unfold shape_Allow. repeat case_match; done. Qed.

(** A key other than the one offered and the shared slot is left alone. *)
Lemma allow_other k k' t l : k <> k' -> k <> foldedShapeKey -> seen (shape_Allow k' t l).2 !! k = seen l !! k.
Proof.
  intros Hk Hf. unfold shape_Allow. set (key := if _ && _ then foldedShapeKey else k').
  assert (key <> k) by (unfold key; destruct (_ && _); congruence). cbv zeta.
  repeat case_match; cbn [snd]; unfold update; cbn [seen]; by rewrite ?lookup_insert_ne.
Qed.

Definition bounded (l : ShapeLimiter) : Prop :=
  zsize (seen l) <= smax l + 1 /\ (smax l < zsize (seen l) -> is_Some (seen l !! foldedShapeKey)).

Lemma insert_bounded l k t : (is_Some (seen l !! k) \/ zsize (seen l) < smax l \/ k = foldedShapeKey /\ zsize (seen l) <= smax l) ->
  bounded l -> bounded (l <| seen ::= <[k := t]> |>).
Proof.
  intros H [Hs Hf]. unfold bounded, update. cbn [seen smax].
  assert (is_Some (seen l !! foldedShapeKey) -> is_Some (<[k := t]> (seen l) !! foldedShapeKey)) as Hk.
  { intros Hi. destruct (decide (k = foldedShapeKey)) as [->|]; [rewrite lookup_insert_eq; eauto|by rewrite lookup_insert_ne]. }
  destruct (seen l !! k) as [x|] eqn:E; [rewrite (zsize_insert_Some _ _ _ _ E); auto|]. rewrite (zsize_insert_None _ _ _ E).
  destruct H as [[? ?]|[H|[-> H]]]; [done| |].
  - split; [lia|]. intros. apply Hk, Hf. lia.
  - split; [lia|]. intros. rewrite lookup_insert_eq. eauto.
Qed.

Lemma allow_bounded k t l : bounded l -> bounded (shape_Allow k t l).2.
Proof.
  intros Hb. unfold shape_Allow. destruct (bool_decide (is_Some (seen l !! k))) eqn:Ek; cbn [negb andb].
  - apply bool_decide_eq_true in Ek. repeat case_match; cbn [snd]; [done| |]; (apply insert_bounded; [by left|done]).
  - destruct (smax l <=? zsize (seen l)) eqn:Es.
    + destruct (seen l !! foldedShapeKey) as [x|] eqn:Ef.
      * destruct (_ <? _); [done|]. apply insert_bounded; [left; eauto|done].
      * destruct Hb as [Hs Hf]. apply insert_bounded; [|done]. right. right. split; [done|].
        apply Z.le_ngt. intros Hgt. destruct (Hf Hgt) as [? Hx]. congruence.
    + apply bool_decide_eq_false in Ek. destruct (seen l !! k) eqn:E; [exfalso; eauto|]. apply insert_bounded; [|done]. bool_prop. right. by left.
Qed.

Lemma allows_bounded ops : forall l, bounded l -> bounded (allows l ops).
Proof. induction ops as [|[k t] ops IH]; intros l Hb; [done|]. apply IH. by apply allow_bounded. Qed.

Lemma allows_smax ops : forall l, smax (allows l ops) = smax l /\ window (allows l ops) = window l.
Proof.
  induction ops as [|[k t] ops IH]; intros l; [done|]. destruct (IH (shape_Allow k t l).2) as [H1 H2]. destruct (allow_const k t l) as [H3 H4].
  change (allows l ((k, t) :: ops)) with (allows (shape_Allow k t l).2 ops). split; congruence.
Qed.

Lemma allows_other k ops : k <> foldedShapeKey -> Forall (fun op => op.1 <> k) ops -> forall l, seen (allows l ops) !! k = seen l !! k.
Proof.
  intros Hf. induction 1 as [|[k' t] ops Hk _ IH]; intros l; [done|]. etransitivity; [apply (IH (shape_Allow k' t l).2)|]. apply allow_other; [|done].
  cbn in Hk. congruence.
Qed.

(** The debug capture cannot be flooded.  A shape holds no decimal digit, so lines
    that differ in their numbers share it; whatever keys are offered, the limiter keeps at
    most one more than its bound; and once it let a tracked key through, it lets the key
    through again exactly when the window has elapsed since, whatever was offered in
    between. *)
Theorem shape_limits :
  (forall s, str_exists isDigit (NormaliseShape s) = false)
  /\ (forall w max ops (l := allows (NewShapeLimiter w max) ops), zsize (seen l) <= (if max <=? 0 then DefaultMaxShapeKeys else max) + 1)
  /\ (forall l k t1 ops t2, k <> foldedShapeKey -> seen l !! k = Some t1 -> Forall (fun op => op.1 <> k) ops ->
      (shape_Allow k t2 (allows l ops)).1 = negb (time_Sub t2 t1 <? window l)).
Proof.
  split; [|split].
  - intros s. unfold NormaliseShape. destruct (truncate_prefix (shape_loop (String.length s) None false false s) maxShapeLen) as [rest H].
    pose proof (loop_no_digit (String.length s) None false false s) as Hd. rewrite H, exists_app in Hd. by apply orb_false_iff in Hd as [Hd _].
  - intros w max ops l. pose proof (allows_bounded ops (NewShapeLimiter w max)) as H. destruct (allows_smax ops (NewShapeLimiter w max)) as [Hm _].
    destruct H as [H _]; [split; cbn [seen smax NewShapeLimiter]; change (zsize ∅) with 0; unfold DefaultMaxShapeKeys; destruct (max <=? 0) eqn:E; bool_prop; lia|].
    rewrite Hm in H. exact H.
  - intros l k t1 ops t2 Hk Hs Ho. pose proof (allows_other k ops Hk Ho l) as H. rewrite Hs in H. destruct (allows_smax ops l) as [_ Hw].
    unfold shape_Allow. rewrite (bool_decide_eq_true_2 (is_Some _)) by (rewrite H; eauto). cbn [negb andb]. rewrite H, Hw. by destruct (_ <? _).
Qed.

End Shape.
