(* ===== verification/Receiver.v ===== *)
(** * The syslog receiver ([logship/syslog/source.go], [generic.go], [captured_api.go],
      [freeradius_sanitize.go], [filterlog_domain.go])

    What happens to a received line: redaction, the envelope, the sanitizing of RADIUS
    lines, the program's processor or the filter, the parsers, the derived metrics,
    sampling and the emission of the record. *)

From stdpp Require Import base decidable list gmap strings.
From Stdlib Require Import ZArith Lia Ascii.
From S2P Require Import Prelude Netip GoStrings Geo Enrich DnsCache LogQueue OtlpSink GoTime Envelope Filterlog GoRegexp Registry Captured Derive Shape.
Import GoTime Queue Envelope Filterlog Regexp Registry Captured Derive.

Module Receiver.

(** ** Redaction *)

(** [strings.Index] *)
Fixpoint Index (s sub : string) : option nat :=
  if HasPrefix s sub then Some O
  else match s with EmptyString => None | String _ s => option_map S (Index s sub) end.

Definition api_marker : string := "authentication failed for api key".

Definition redactAPIAuthFailure (s : string) : string :=
  match Index s api_marker with
  | None => s
  | Some i => str_take (i + String.length api_marker) s +:+ " [REDACTED]"
  end.

Lemma HasPrefix_short a k sub : (String.length sub <= String.length a)%nat -> HasPrefix (a +:+ k) sub = HasPrefix a sub.
Proof.
  unfold HasPrefix. revert a. induction sub as [|c sub IH]; intros [|d a] H; cbn in H; try lia; [by destruct k|done|]. rewrite str_app_cons. cbn.
  destruct (ascii_dec c d); [|done]. apply IH. lia.
Qed.

Lemma Index_cut pre sub : exists i, (i <= String.length pre)%nat /\ forall k, Index (pre +:+ sub +:+ k) sub = Some i.
Proof.
  induction pre as [|c pre IH].
  - exists O. split; [lia|]. intros k. rewrite str_app_nil_l. pose proof (HasPrefix_app sub k) as H. destruct (sub +:+ k); cbn [Index]; by rewrite H.
  - destruct IH as (i & Hi & IH). destruct (HasPrefix (String c (pre +:+ sub)) sub) eqn:E.
    + exists O. split; [lia|]. intros k. rewrite <- str_app_assoc, !str_app_cons. cbn [Index].
      rewrite <- (str_app_cons c (pre +:+ sub) k), HasPrefix_short, E by (cbn; rewrite str_length_app; lia). done.
    + exists (S i). split; [cbn; lia|]. intros k. rewrite str_app_cons. cbn [Index].
      rewrite <- (str_app_assoc pre sub k), <- (str_app_cons c (pre +:+ sub) k), HasPrefix_short, E by (cbn; rewrite str_length_app; lia).
      by rewrite str_app_assoc, IH.
Qed.

(** What follows the marker is cut off. *)
Lemma redact_cut pre k k' : redactAPIAuthFailure (pre +:+ api_marker +:+ k) = redactAPIAuthFailure (pre +:+ api_marker +:+ k').
Proof.
  destruct (Index_cut pre api_marker) as (i & Hi & H). unfold redactAPIAuthFailure. rewrite !H, <- !str_app_assoc.
  assert (i + String.length api_marker <= String.length (pre +:+ api_marker))%nat as Hl by (rewrite str_length_app; lia).
  destruct (str_take_short _ _ k Hl) as [-> _]. destruct (str_take_short _ _ k' Hl) as [-> _]. done.
Qed.

(** ** RADIUS *)

Definition freeRADIUSAccessAcceptedMessage : string := "FreeRADIUS access request accepted".
Definition freeRADIUSAccessRejectedMessage : string := "FreeRADIUS access request rejected".
Definition freeRADIUSGenericMessage : string := "FreeRADIUS message redacted".

Definition reFreeRADIUSAccessAccepted : Regexp := Eval vm_compute in MustCompile "^(?:\(\d+\) )?Login OK:".
Definition reFreeRADIUSAccessRejected : Regexp := Eval vm_compute in MustCompile "^(?:\(\d+\) )?Login incorrect(?: \([^)]*\))?:".
Definition reMalformedFreeRADIUS5424 : Regexp := Eval vm_compute in MustCompile "^1 \S+ \S+ radiusd(?: |$)".
Definition reMalformedFreeRADIUS3164 : Regexp := Eval vm_compute in
  MustCompile "^[A-Z][a-z]{2} [ 0-9][0-9] \d{2}:\d{2}:\d{2} \S+ radiusd(?:\[\d+\])?:".

Definition renderSafeFreeRADIUS (env : Envelope) : string :=
  let timestamp := if IsZero (eTimestamp env) then "-" else FormatRFC3339Nano (eTimestamp env) in
  "<" +:+ FormatInt (Facility env * 8 + eSeverity env) +:+ ">1 " +:+ timestamp +:+ " - radiusd - - - " +:+ Message env.

(** The fixed message a RADIUS message is replaced by. *)
Definition safe_message (msg : string) : string :=
  if str_eq msg freeRADIUSAccessAcceptedMessage || str_eq msg freeRADIUSAccessRejectedMessage || str_eq msg freeRADIUSGenericMessage then msg
  else if MatchString reFreeRADIUSAccessAccepted msg then freeRADIUSAccessAcceptedMessage
  else if MatchString reFreeRADIUSAccessRejected msg then freeRADIUSAccessRejectedMessage
  else freeRADIUSGenericMessage.

(** The safe envelope and frame of a line of RADIUS. *)
Definition sanitizeFreeRADIUS (env : Envelope) : option (Envelope * string) :=
  if negb (str_eq (Program env) "radiusd") then None
  else
    let safe := mkEnv (eTimestamp env) "" "radiusd" "" (Facility env) (eSeverity env) (safe_message (Message env)) in
    Some (safe, renderSafeFreeRADIUS safe).

Definition sanitizeMalformedFreeRADIUS (line : string) (now : Time) : option (Envelope * string) :=
  match line with
  | EmptyString => None
  | _ =>
      match parsePRI line with
      | Ok (rest, pri) =>
          if negb (MatchString reMalformedFreeRADIUS5424 rest) && negb (MatchString reMalformedFreeRADIUS3164 rest) then None
          else
            let safe := mkEnv now "" "radiusd" "" (Z.quot pri 8) (Z.rem pri 8) freeRADIUSGenericMessage in
            Some (safe, renderSafeFreeRADIUS safe)
      | _ => None
      end
  end.

(** ** Building the record *)

Definition parse_status (status : string) (rec : LogRecord) : LogRecord :=
  rec <| Attributes ::= <["syslog.parse_status" := status]> |>.

(** The part of [buildRecord] for a line no parser takes. *)
Definition fallback (perQuery : bool) (env : Envelope) (snap : option Enrich.Snapshot) : LogRecord * bool :=
  match parseCapturedRecord env snap with
  | Some rec => (parse_status "parsed" rec, true)
  | None =>
      let rec := parse_status "unknown" (addCommon (genericRecord env) env snap true) in
      let reason := knownPassThrough perQuery env in
      if str_empty reason then (rec, false)
      else (parse_status "known" rec <| Attributes ::= <["syslog.parse_reason" := reason]> |>, false)
  end.

(** [buildRecord]: the record, whether it was parsed, the parsers' state. *)
Definition buildRecord (reg : registry) (perQuery : bool) (env : Envelope) (snap : option Enrich.Snapshot) (g : globals)
  : LogRecord * bool * globals :=
  let env := env <| Message ::= redactAPIAuthFailure |> in
  match parserFor reg (Program env) with
  | Some p =>
      let '(o, g) := p env snap g in
      match o with
      | Some rec => (parse_status "parsed" (addCommon rec env snap (parserEnrichesBody reg (Program env))), true, g)
      | None => (fallback perQuery env snap, g)
      end
  | None => (fallback perQuery env snap, g)
  end.

(** ** The source *)

Definition sourceName : string := "syslog".
Definition envelopeShapeKey : string := "<envelope>".

(** [ProgramProcessor]: whether it takes the line, and the records it emits for it. *)
Class ProgramProcessor (P : Type) := {
  Handles : P -> string -> bool;
  Process : Envelope -> Addr -> list Z -> P -> bool * list LogRecord * P }.

(** The configuration of a source. *)
Record config := mkConfig {
  cReg : registry; cPerQuery : bool; cFilter : Filter; cSample : bool; cSampledAttr : bool; cCapture : bool; cPorts : list Z;
  cLocation : Location }.

(** What a line causes outside the source. *)
Inductive effect :=
| Emit (rec : LogRecord)
| Reject (reason : string)
| ParseError (stage : string)
| Unparsed (subsystem : string)
| CaptureShape (shape : string) (fields : list (string * string)).

Section Source.
Context {S P : Type} `{!MetricSink S} `{!ProgramProcessor P}.

Record source := mkSource {
  sGlobals : globals; sDns : option Dns.DNSCache; sSink : S; sProc : option P; sCache : Enrich.Cache; sRunning : bool }.
#[export] Instance eta_source : Eta source := fun s =>
  mkSource (sGlobals s) (sDns s) (sSink s) (sProc s) (sCache s) (sRunning s).

Definition captures (c : config) (shape : string) (fields : list (string * string)) : list effect :=
  if cCapture c then [CaptureShape shape fields] else [].

(** From the record on: metrics, sampling, emission. *)
Definition derive_and_emit (c : config) (now : Time) (program : string) (rec : LogRecord) (parsed : bool) (s : source)
  : list effect * source :=
  let '(rec, s) :=
    if parsed && str_eq program "filterlog" then
      let '(rec, domain, cache) := enrichFilterlogDomain (sDns s) now rec in
      let s := s <| sDns := cache |> in
      if str_empty domain then (rec, s) else (rec, s <| sSink ::= fun k => (observe (ObserveFilterlogDomain domain) k).2 |>)
    else (rec, s) in
  let '(counted, sink) := observeDerived program (Attributes rec) (sSink s) in
  let s := s <| sSink := sink |> in
  if cSample c then
    if negb (sampleKeep program rec counted) then ([Reject "sampled"], s)
    else if cSampledAttr c && counted then ([Emit (rec <| Attributes ::= <["sampled" := "true"]> |>)], s)
    else ([Emit rec], s)
  else ([Emit rec], s).

(** The generic path, after the processor declined. *)
Definition dispatch (c : config) (now : Time) (env : Envelope) (line : string) (s : source) : list effect * source :=
  if filter_Enabled (Some (cFilter c)) && negb (filter_Allow (Some (cFilter c)) (Program env) (eSeverity env))
  then ([Reject "filtered"], s)
  else
    let dispatched := bool_decide (is_Some (parserFor (cReg c) (Program env))) in
    let '(rec, parsed, g) := buildRecord (cReg c) (cPerQuery c) env (Some (Enrich.Load (sCache s))) (sGlobals s) in
    let s := s <| sGlobals := g |> in
    let unknown := negb parsed && negb (str_eq (attr (Attributes rec) "syslog.parse_status") "known") in
    let cap := if unknown then
                 captures c (Program env +:+ "|" +:+ Shape.NormaliseShape (Message env))
                   [("program", Program env); ("subsystem", subsystemFor (Program env)); ("severity", FormatInt (eSeverity env));
                    ("message", Message env); ("raw", line)]
               else [] in
    let unp := if unknown && (dispatched || has_captured (Program env)) then [Unparsed (subsystemFor (Program env))] else [] in
    let '(out, s) := derive_and_emit c now (Program env) rec parsed s in
    (cap ++ unp ++ out, s).

(** The processor's first refusal, then the generic path. *)
Definition process (c : config) (now : Time) (peer : Addr) (env : Envelope) (line : string) (s : source) : list effect * source :=
  match sProc s with
  | Some p =>
      if Handles p (Program env) then
        let '(handled, recs, p) := Process env peer (cPorts c) p in
        let s := s <| sProc := Some p |> in
        if handled then (map Emit recs, s)
        else let '(out, s) := dispatch c now env line s in (map Emit recs ++ out, s)
      else dispatch c now env line s
  | None => dispatch c now env line s
  end.

(** [handle]; [later] is the second reading of the clock. *)
Definition handle (c : config) (now later : Time) (peer : Addr) (line : string) (s : source) : list effect * source :=
  if negb (sRunning s) then ([], s)
  else
    let line := redactAPIAuthFailure line in
    let run env line errs :=
      let '(env, line) := match sanitizeFreeRADIUS env with Some safe => safe | None => (env, line) end in
      let '(out, s) := process c now peer env line s in
      (errs ++ out, s) in
    match ParseEnvelope line now (cLocation c) with
    | Ok env => run env line []
    | Fails _ =>
        match sanitizeMalformedFreeRADIUS line now with
        | Some (env, line) => run env line [ParseError "envelope"]
        | None =>
            ([ParseError "envelope"]
             ++ captures c (envelopeShapeKey +:+ "|" +:+ Shape.NormaliseShape line) [("parse_error", "envelope"); ("raw", line)]
             ++ [Emit (mkLog later line ∅ SeverityInfo "")], s)
        end
    | Panic => ([], s)
    end.

(** ** Every line is accounted for *)

Definition is_final (e : effect) : bool := match e with Emit _ | Reject _ => true | _ => false end.
Definition finals (l : list effect) : list effect := List.filter is_final l.

Lemma finals_app a b : finals (a ++ b) = finals a ++ finals b.
Proof. apply List.filter_app. Qed.
Lemma finals_emits l : finals (map Emit l) = map Emit l.
Proof. induction l as [|r l IH]; [done|]. cbn. f_equal. exact IH. Qed.
Lemma finals_captures c shape fields : finals (captures c shape fields) = [].
Proof. unfold captures. by destruct (cCapture c). Qed.

(** A line that sampling dropped: an observation of it was taken, and it is a passed
    connection or a proxied request without a warning. *)
Definition thinned (c : config) : Prop :=
  cSample c = true /\ exists program rec o k k', o ∈ derived_calls program (Attributes rec) /\ observe o k = (true, k')
    /\ (deriveFamily program = Some familyFirewall /\ attr (Attributes rec) "action" = "pass"
        \/ deriveFamily program = Some familyHAProxy /\ severity_rank (lSeverity rec) < severity_rank SeverityWarn).

(** How a line can end. *)
Inductive fate (c : config) : effect -> Prop :=
| Shipped rec : fate c (Emit rec)
| Filtered : filter_Enabled (Some (cFilter c)) = true -> fate c (Reject "filtered")
| Sampled : thinned c -> fate c (Reject "sampled").

Lemma keep_false program rec counted : sampleKeep program rec counted = false ->
  counted = true /\ (deriveFamily program = Some familyFirewall /\ attr (Attributes rec) "action" = "pass"
    \/ deriveFamily program = Some familyHAProxy /\ severity_rank (lSeverity rec) < severity_rank SeverityWarn).
Proof.
  unfold sampleKeep. destruct counted; [|done]. cbn [negb]. destruct (deriveFamily program) as [[]|]; try done; intros H; bool_prop;
    (split; [done|]); [left|right]; split; try done.
Qed.

Lemma derive_fate c now program rec parsed s : exists x, (derive_and_emit c now program rec parsed s).1 = [x] /\ fate c x.
Proof.
  unfold derive_and_emit. destruct (if parsed && _ then _ else _) as [rec' s'].
  destruct (observeDerived program (Attributes rec') (sSink s')) as [counted sink] eqn:Eo.
  destruct (cSample c) eqn:Es; [|eexists; split; [done|constructor]].
  destruct (sampleKeep program rec' counted) eqn:Ek; cbn [negb].
  - destruct (cSampledAttr c && counted); eexists; (split; [done|constructor]).
  - eexists. split; [done|]. apply keep_false in Ek as [-> Hf]. constructor. split; [done|].
    pose proof (call_counted (derived_calls program (Attributes rec')) (false, sSink s')) as Hc.
    change (fold_left call _ _) with (observeDerived program (Attributes rec') (sSink s')) in Hc. rewrite Eo in Hc.
    destruct (Hc eq_refl) as [|(o & k & k' & Ho & E)]; [done|]. exists program, rec', o, k, k'. done.
Qed.

Lemma dispatch_fate c now env line s : exists x, finals (dispatch c now env line s).1 = [x] /\ fate c x.
Proof.
  unfold dispatch. destruct (filter_Enabled (Some (cFilter c)) && negb (filter_Allow _ _ _)) eqn:Ef.
  { apply andb_true_iff in Ef as [Ef _]. eexists. split; [done|by constructor]. }
  destruct (buildRecord _ _ _ _ _) as [[rec parsed] g].
  pose proof (derive_fate c now (Program env) rec parsed (s <| sGlobals := g |>)) as (x & Hx & Hf).
  destruct (derive_and_emit _ _ _ _ _ _) as [out s']. cbn [fst] in *. subst out. exists x. split; [|done].
  rewrite !finals_app. destruct (negb parsed && _); cbn [andb]; [rewrite finals_captures; destruct (bool_decide _ || _)|]; cbn; by destruct Hf.
Qed.

Lemma process_fate c now peer env line s : exists recs tail, finals (process c now peer env line s).1 = map Emit recs ++ tail
  /\ (sProc s = None -> recs = [])
  /\ ((exists x, tail = [x] /\ fate c x)
      \/ tail = [] /\ exists p, sProc s = Some p /\ Handles p (Program env) = true /\ (Process env peer (cPorts c) p).1.1 = true).
Proof.
  unfold process. destruct (sProc s) as [p|]; [|destruct (dispatch_fate c now env line s) as (x & -> & Hx); exists [], [x]; eauto 8].
  destruct (Handles p (Program env)) eqn:Eh; [|destruct (dispatch_fate c now env line s) as (x & -> & Hx); exists [], [x]; eauto 8].
  destruct (Process env peer (cPorts c) p) as [[handled recs] p'] eqn:Ep. exists recs.
  destruct handled; [exists []; rewrite app_nil_r; cbn [fst]; rewrite finals_emits; split; [done|]; split; [done|]; right; split; [done|];
    exists p; rewrite Ep; done|].
  destruct (dispatch_fate c now env line (s <| sProc := Some p' |>)) as (x & Hx & Hf).
  destruct (dispatch c now env line _) as [out s']. cbn [fst] in *. rewrite finals_app, finals_emits, Hx. exists [x]. split; [done|]. split; [done|]. left. eauto.
Qed.

Definition is_parse_error (e : effect) : bool := match e with ParseError _ => true | _ => false end.

Lemma no_parse_error_map recs : List.filter is_parse_error (map Emit recs) = [].
Proof. by induction recs. Qed.

Lemma dispatch_parse_error c now env line s : List.filter is_parse_error (dispatch c now env line s).1 = [].
Proof.
  unfold dispatch. destruct (filter_Enabled (Some (cFilter c)) && negb (filter_Allow _ _ _)); [done|].
  destruct (buildRecord _ _ _ _ _) as [[rec parsed] g].
  pose proof (derive_fate c now (Program env) rec parsed (s <| sGlobals := g |>)) as (x & Hx & Hf).
  destruct (derive_and_emit _ _ _ _ _ _) as [out s']. cbn [fst] in *. subst out. unfold captures.
  destruct (negb parsed && _); cbn [andb]; [destruct (cCapture c), (bool_decide _ || _)|]; cbn; by destruct Hf.
Qed.

Lemma process_parse_error c now peer env line s : List.filter is_parse_error (process c now peer env line s).1 = [].
Proof.
  unfold process. destruct (sProc s) as [p|]; [|apply dispatch_parse_error]. destruct (Handles p _); [|apply dispatch_parse_error].
  destruct (Process env peer (cPorts c) p) as [[handled recs] p']. destruct handled; [apply no_parse_error_map|].
  pose proof (dispatch_parse_error c now env line (s <| sProc := Some p' |>)) as H. destruct (dispatch _ _ _ _ _) as [out s']. cbn [fst] in *.
  by rewrite List.filter_app, no_parse_error_map, H.
Qed.


(** ** Secrets stay out *)

(** What may be learnt of a RADIUS line: its time and priority, which of three fixed
    messages stands for it, and whether its envelope is well formed. *)
Definition radius_view (line : string) (now : Time) (loc : Location) : option (Time * Z * Z * string * bool) :=
  match ParseEnvelope line now loc with
  | Ok env =>
      if str_eq (Program env) "radiusd" then Some (eTimestamp env, Facility env, eSeverity env, safe_message (Message env), true) else None
  | Fails _ =>
      match sanitizeMalformedFreeRADIUS line now with
      | Some (env, _) => Some (eTimestamp env, Facility env, eSeverity env, Message env, false)
      | None => None
      end
  | Panic => None
  end.

Lemma safe_messages msg :
  safe_message msg ∈ [freeRADIUSAccessAcceptedMessage; freeRADIUSAccessRejectedMessage; freeRADIUSGenericMessage].
Proof.
  unfold safe_message. destruct (str_eq msg freeRADIUSAccessAcceptedMessage) eqn:E1; [bool_prop; subst; set_solver|].
  destruct (str_eq msg freeRADIUSAccessRejectedMessage) eqn:E2; [bool_prop; subst; set_solver|].
  destruct (str_eq msg freeRADIUSGenericMessage) eqn:E3; [bool_prop; subst; set_solver|]. cbn [orb]. repeat case_match; set_solver.
Qed.

Lemma malformed_shape line now env l : sanitizeMalformedFreeRADIUS line now = Some (env, l) ->
  env = mkEnv (eTimestamp env) "" "radiusd" "" (Facility env) (eSeverity env) freeRADIUSGenericMessage /\ l = renderSafeFreeRADIUS env.
Proof.
  unfold sanitizeMalformedFreeRADIUS. destruct line; [done|]. destruct (parsePRI _) as [[rest pri]| |]; try done.
  destruct (_ && _); [done|]. by intros [= <- <-].
Qed.

Lemma radius_handle c now later peer l1 l2 s v :
  radius_view (redactAPIAuthFailure l1) now (cLocation c) = Some v -> radius_view (redactAPIAuthFailure l2) now (cLocation c) = Some v ->
  handle c now later peer l1 s = handle c now later peer l2 s.
Proof.
  assert (forall l, radius_view (redactAPIAuthFailure l) now (cLocation c) = Some v ->
    handle c now later peer l s =
    if negb (sRunning s) then ([], s)
    else let '(t, f, sev, msg, ok) := v in
         let env := mkEnv t "" "radiusd" "" f sev msg in
         let '(out, s) := process c now peer env (renderSafeFreeRADIUS env) s in
         ((if ok : bool then [] else [ParseError "envelope"]) ++ out, s)) as H; [|intros H1 H2; by rewrite (H l1 H1), (H l2 H2)].
  intros l Hv. unfold handle. destruct (negb (sRunning s)); [done|]. unfold radius_view in Hv.
  destruct (ParseEnvelope (redactAPIAuthFailure l) now (cLocation c)) as [env|err|]; [| |done].
  - destruct (str_eq (Program env) "radiusd") eqn:Ep; [|done]. injection Hv as <-. unfold sanitizeFreeRADIUS. rewrite Ep. done.
  - destruct (sanitizeMalformedFreeRADIUS _ now) as [[env l']|] eqn:Em; [|done]. apply malformed_shape in Em as [Ee ->].
    destruct env as [t h p pid f sev msg]. cbn in Ee, Hv. injection Ee as -> -> -> ->. injection Hv as <-. done.
Qed.

(** [C13] Secrets do not leave the receiver.  Whatever follows the API key
    diagnostic's marker in a line has no influence on anything: the records, the
    captures, the counters and the state after the line are those of the line with any
    other text there.  And of a RADIUS line, well formed or not, only its time, its
    priority and which of three fixed messages it stands for have any influence: host,
    process id, user, password, client and reply text have none. *)
Theorem receiver_confidential c now later peer s :
  (forall pre key key', handle c now later peer (pre +:+ api_marker +:+ key) s = handle c now later peer (pre +:+ api_marker +:+ key') s)
  /\ (forall l1 l2 v, radius_view (redactAPIAuthFailure l1) now (cLocation c) = Some v ->
      radius_view (redactAPIAuthFailure l2) now (cLocation c) = Some v ->
      handle c now later peer l1 s = handle c now later peer l2 s)
  /\ (forall line t f sev msg ok, radius_view line now (cLocation c) = Some (t, f, sev, msg, ok) ->
      msg ∈ [freeRADIUSAccessAcceptedMessage; freeRADIUSAccessRejectedMessage; freeRADIUSGenericMessage]).
Proof.
  split; [intros pre k k'; unfold handle; by rewrite (redact_cut pre k k')|]. split; [intros l1 l2 v; apply radius_handle|].
  intros line t f sev msg ok. unfold radius_view. destruct (ParseEnvelope line now (cLocation c)) as [env| |]; [| |done].
  - destruct (str_eq _ _); [|done]. intros [= <- <- <- <- <-]. apply safe_messages.
  - destruct (sanitizeMalformedFreeRADIUS line now) as [[env l]|] eqn:E; [|done]. apply malformed_shape in E as [-> _].
    intros [= <- <- <- <- <-]. set_solver.
Qed.

End Source.

(** ** Concrete lines *)

(** A source without a program's processor, without parsers, and with the sink that
    counts nothing. *)
Definition noProcessor : ProgramProcessor unit := {| Handles := fun _ _ => false; Process := fun _ _ _ p => (false, [], p) |}.
Definition demo_config : config :=
  mkConfig (mkRegistry ∅ ∅ ∅ ∅) false (NewFilter [] [] 0 false) true true true [] UTC.
Definition demo_source : source (S := unit) (P := unit) :=
  mkSource (mkGlobals (newPIDIfaceMemory 64) (newPIDIfaceMemory 64) []) None tt None Enrich.NewCache true.
Definition demo_handle (line : string) := (handle (MetricSink0 := NopMetricSink) (ProgramProcessor0 := noProcessor)
  demo_config demo_now demo_now (Addr4 0) line demo_source).1.


(** Two requests that differ in user, password and client look the same. *)
Lemma receiver_confidential_witness :
  demo_handle "<86>1 2026-07-14T19:50:01Z fw radiusd 7 - - (1) Login OK: [alice/hunter2] (from client ap1)"
  = demo_handle "<86>1 2026-07-14T19:50:01Z gw radiusd 8 - - (2) Login OK: [bob/secret] (from client ap2)".
Proof.
  refine (f_equal fst (proj1 (proj2 (receiver_confidential (MetricSink0 := NopMetricSink) (ProgramProcessor0 := noProcessor) demo_config demo_now demo_now (Addr4 0) demo_source))
    _ _ (time_Unix 1784058601 0, 10, 6, freeRADIUSAccessAcceptedMessage, true) _ _)); vm_compute; reflexivity.
Defined.

End Receiver.
