(* ===== verification/Parsers.v ===== *)
(** * Parsers of the network daemons ([logship/syslog/sshd.go], [kernel.go], [carp.go],
      [charon.go], [openvpn.go], [wireguard.go], [tailscaled.go], [netbird.go],
      [miniupnpd.go], [ppp.go], [dpinger.go], [freeradius.go], [dhclient.go],
      [dhcp6c.go], [filterlog.go])

    One function per program.  The patterns are spelled as in the sources, with the
    escape of the double quote for the character. *)

From stdpp Require Import base decidable list gmap strings.
From Stdlib Require Import ZArith Lia Ascii.
From S2P Require Import Prelude Netip GoStrings Geo Enrich LogQueue OtlpSink GoTime Envelope Filterlog GoRegexp Registry Receiver.
Import GoTime Queue Envelope Filterlog Regexp Registry.

Module Parsers.

(** [if m := re.FindStringSubmatch(msg); m != nil { return … }], one after the other. *)
Fixpoint cases {A} (msg : string) (l : list (Regexp * (list string -> option A))) : option A :=
  match l with
  | [] => None
  | (re, k) :: l => match FindStringSubmatch re msg with Some m => k m | None => cases msg l end
  end.

(** A table from wire words to the words of a vocabulary. *)
Fixpoint word (table : list (string * string)) (w : string) : option string :=
  match table with [] => None | (k, v) :: table => if str_eq k w then Some v else word table w end.

(** [strconv.ParseInt(s, 10, 64)]. *)
Definition ParseInt64 : string -> option Z := Otlp.Atoi.

(** Addition of [int64]s. *)
Definition addInt64 (a b : Z) : Z := s64 (a + b).

Definition Warn_if (b : bool) (rec : LogRecord) : LogRecord :=
  if b && (match lSeverity rec with SeverityInfo | SeverityDebug => true | _ => false end) then rec <| lSeverity := SeverityWarn |> else rec.

(** ** sshd *)

Section Geo.
  (** The GeoIP database, when it is configured. *)
  Context (geo : option (Addr -> GeoResult * bool)).

Definition reSSHDAuthAttempt : Regexp := Eval vm_compute in
  MustCompile "^(Accepted|Failed) (\S+) for (invalid user )?(\S+) from (\S+) port (\d+)".
Definition reSSHDKey : Regexp := Eval vm_compute in MustCompile "ssh2:\s+(\S+)\s+(\S+)\s*$".
Definition reSSHDInvalidUser : Regexp := Eval vm_compute in MustCompile "^Invalid user (\S+) from (\S+) port (\d+)".
Definition reSSHDDisconnect : Regexp := Eval vm_compute in
  MustCompile "^(?:Connection closed by|Disconnected from)(?: (?:(invalid|authenticating) )?user (\S+))? (\S+) port (\d+)".
Definition reSSHDReceivedDisconnect : Regexp := Eval vm_compute in MustCompile "^Received disconnect from (\S+) port (\d+)".

Record sshdFields := mkSSHD {
  sResult : string; sUser : string; sMethod : string; sKeyType : string; sKeyFP : string; sIP : string; sPort : string;
  sSawUser : bool; sInvalid : bool }.

Definition sshd_fields (msg : string) : option sshdFields :=
  cases msg
    [ (reSSHDAuthAttempt, fun m =>
         let '(keyType, keyFP) := match FindStringSubmatch reSSHDKey msg with Some k => (group k 1, group k 2) | None => ("", "") end in
         Some (mkSSHD (if str_eq (group m 1) "Accepted" then "accepted" else "failed") (group m 4) (group m 2) keyType keyFP
                 (group m 5) (group m 6) true (negb (str_empty (group m 3)))));
      (reSSHDInvalidUser, fun m => Some (mkSSHD "invalid-user" (group m 1) "" "" "" (group m 2) (group m 3) true true));
      (reSSHDDisconnect, fun m =>
         let saw := negb (str_empty (group m 2)) in
         Some (mkSSHD "disconnected" (group m 2) "" "" "" (group m 3) (group m 4) saw (saw && str_eq (group m 1) "invalid")));
      (reSSHDReceivedDisconnect, fun m => Some (mkSSHD "disconnected" "" "" "" "" (group m 1) (group m 2) false false)) ].

Definition parseSSHD (env : Envelope) (snap : option Enrich.Snapshot) : option LogRecord :=
  f ← sshd_fields (Message env);
  let rec := newRecord env
    ([("auth.result", sResult f); ("auth.user", sUser f); ("user.name", sUser f); ("auth.method", sMethod f);
      ("auth.key_type", sKeyType f); ("auth.key_fingerprint", sKeyFP f)]
     ++ (if sSawUser f then [("auth.valid", if sInvalid f then "false" else "true")] else [])
     ++ [("src.ip", sIP f); ("src.port", sPort f)]
     ++ enrichEndpoint snap "src" (sIP f) "" "" ++ geoAttrs geo "src" (sIP f)) in
  Some (Warn_if (str_eq (sResult f) "failed" || str_eq (sResult f) "invalid-user") rec).

(** [parseFilterlog] as a registered parser. *)
Definition filterlog_parser : Parser := fun env snap g =>
  match parseFilterlog geo env snap with
  | Some (rec, miss) => (Some rec, if miss then g <| missed ::= cons "rules" |> else g)
  | None => (None, g)
  end.

End Geo.

(** ** The kernel *)

Definition carpKernelPrefix : string := "^(?:<\d+>)?(?:\[\d+\] )?".
Definition reCARPStateChange : Regexp := Eval vm_compute in
  MustCompile (carpKernelPrefix +:+ "carp: (\d+)@([0-9A-Za-z._-]+): (MASTER|BACKUP|INIT) -> (MASTER|BACKUP|INIT) \((.+)\)$").
Definition reCARPDemotion : Regexp := Eval vm_compute in
  MustCompile (carpKernelPrefix +:+ "carp: demoted by (-?\d+) to (-?\d+) \((.+)\)$").

Definition carpStates : list (string * string) := [("MASTER", "master"); ("BACKUP", "backup"); ("INIT", "init")].

Definition carpDemotionEvent (delta : string) : string :=
  match Otlp.Atoi delta with Some n => if n <? 0 then "promoted" else "demoted" | None => "demoted" end.

Definition parseCARP (env : Envelope) : option LogRecord :=
  cases (Message env)
    [ (reCARPStateChange, fun m =>
         match word carpStates (group m 3), word carpStates (group m 4) with
         | Some from, Some to =>
             Some (newRecord env [("carp.event", "state_changed"); ("carp.state.previous", from); ("carp.state.current", to);
                                  ("carp.interface", group m 2); ("carp.vhid", group m 1); ("carp.reason", group m 5)])
         | _, _ => None
         end);
      (reCARPDemotion, fun m =>
         Some (newRecord env [("carp.event", carpDemotionEvent (group m 1)); ("carp.demotion.delta", group m 1);
                              ("carp.demotion.total", group m 2); ("carp.reason", group m 3)])) ].

Definition kernelPrefix : string := "^(?:<\d+>)?(?:\[\d+\] )?".
Definition reNetmapRingFull : Regexp := Eval vm_compute in
  MustCompile "(?:\[ *\d+\] )?(?:[0-9.]+ )?(?:\[ *\d+\] )?netmap_transmit +([0-9A-Za-z._-]+) full hwcur (\d+) hwtail (\d+) qlen (\d+)$".
Definition reARPMoved : Regexp := Eval vm_compute in
  MustCompile (kernelPrefix +:+ "arp: (\S+) moved from (\S+) to (\S+) on ([0-9A-Za-z._-]+)$").
Definition rePromiscuous : Regexp := Eval vm_compute in
  MustCompile (kernelPrefix +:+ "([0-9A-Za-z._-]+): promiscuous mode (enabled|disabled)$").

Definition parseNetmap (env : Envelope) : option LogRecord :=
  cases (Message env) [ (reNetmapRingFull, fun m =>
    Some (newRecord env [("netmap.event", "ring_full"); ("netmap.device", group m 1); ("netmap.hwcur", group m 2);
                         ("netmap.hwtail", group m 3); ("netmap.qlen", group m 4)])) ].

Definition parseARPMove (env : Envelope) : option LogRecord :=
  cases (Message env) [ (reARPMoved, fun m =>
    Some (newRecord env [("arp.event", "address_moved"); ("arp.address", group m 1); ("arp.mac.previous", group m 2);
                         ("arp.mac.current", group m 3); ("arp.interface", group m 4)])) ].

Definition parsePromiscuous (env : Envelope) : option LogRecord :=
  cases (Message env) [ (rePromiscuous, fun m =>
    Some (newRecord env [("kernel.event", if str_eq (group m 2) "enabled" then "promiscuous_enabled" else "promiscuous_disabled");
                         ("interface.device", group m 1)])) ].

Definition or_else (a b : option LogRecord) : option LogRecord := match a with Some r => Some r | None => b end.

Definition parseKernel (env : Envelope) (_ : option Enrich.Snapshot) : option LogRecord :=
  or_else (parseCARP env) (or_else (parseNetmap env) (or_else (parseARPMove env) (parsePromiscuous env))).

(** ** Tunnels *)

(** The [vpn.*] triple. *)
Definition vpn_record (env : Envelope) (backend : string) (er : string * string) : LogRecord :=
  newRecord env [("vpn.backend", backend); ("vpn.event", er.1); ("vpn.result", er.2)].

(** A [switch] of patterns, each with the event and the result it stands for. *)
Definition vpn_cases (env : Envelope) (backend : string) (l : list (Regexp * (string * string))) : option LogRecord :=
  cases (Message env) (map (fun '(re, er) => (re, fun _ => Some (vpn_record env backend er))) l).

Definition charonThreadPrefix : string := "^\d+\[[A-Z]+\] (?:<[^>]*> )?".
Definition reCharonAuthFailed : Regexp := Eval vm_compute in
  MustCompile (charonThreadPrefix +:+ "generating IKE_AUTH response \d+ \[(?: [^ \]]+)* N\(AUTH_FAILED\)(?: [^ \]]+)* \]$").
Definition reCharonEstablished : Regexp := Eval vm_compute in
  MustCompile (charonThreadPrefix +:+ "IKE_SA \S+\[\d+\] established between .+$").
Definition reCharonLiveness : Regexp := Eval vm_compute in MustCompile (charonThreadPrefix +:+ "giving up after \d+ retransmits$").
Definition reCharonTerminated : Regexp := Eval vm_compute in MustCompile (charonThreadPrefix +:+ "IKE_SA deleted$").

Definition parseCharon (env : Envelope) (_ : option Enrich.Snapshot) : option LogRecord :=
  vpn_cases env "ipsec"
    [ (reCharonEstablished, ("established", "success")); (reCharonTerminated, ("terminated", "success"));
      (reCharonAuthFailed, ("authentication_failed", "failure")); (reCharonLiveness, ("liveness_failed", "failure")) ].

Definition openvpnPeerContext : string := "^\S+ (?:\[[^\]]*\] )?".
Definition reOpenVPNEstablished : Regexp := Eval vm_compute in
  MustCompile (openvpnPeerContext +:+ "Peer Connection Initiated with \[AF_INET6?\]\S+$").
Definition reOpenVPNAuthFailed : Regexp := Eval vm_compute in
  MustCompile (openvpnPeerContext +:+ "SENT CONTROL \[[^\]]*\]: 'AUTH_FAILED' \(status=\d+\)$").
Definition reOpenVPNCertFailed : Regexp := Eval vm_compute in MustCompile (openvpnPeerContext +:+ "VERIFY ERROR: depth=\d+, error=.+$").
Definition reOpenVPNTerminated : Regexp := Eval vm_compute in
  MustCompile (openvpnPeerContext +:+ "SIGUSR1\[soft,ping-restart\] received, client-instance restarting$").

Definition parseOpenVPN (env : Envelope) (_ : option Enrich.Snapshot) : option LogRecord :=
  vpn_cases env "openvpn"
    [ (reOpenVPNEstablished, ("established", "success")); (reOpenVPNTerminated, ("terminated", "success"));
      (reOpenVPNAuthFailed, ("authentication_failed", "failure")); (reOpenVPNCertFailed, ("certificate_failed", "failure")) ].

Definition wireguardInstance : string := "^wireguard instance .+ \(\S+\) ".
Definition reWireGuardStarted : Regexp := Eval vm_compute in MustCompile (wireguardInstance +:+ "started$").
Definition reWireGuardStopped : Regexp := Eval vm_compute in MustCompile (wireguardInstance +:+ "stopped$").
Definition reWireGuardSwitching : Regexp := Eval vm_compute in MustCompile (wireguardInstance +:+ "switching to (UP|DOWN)$").

Definition parseWireGuard (env : Envelope) (_ : option Enrich.Snapshot) : option LogRecord :=
  cases (Message env)
    [ (reWireGuardStarted, fun _ => Some (vpn_record env "wireguard" ("established", "success")));
      (reWireGuardStopped, fun _ => Some (vpn_record env "wireguard" ("terminated", "success")));
      (reWireGuardSwitching, fun m =>
         Some (vpn_record env "wireguard" (if str_eq (group m 1) "UP" then "established" else "terminated", "success"))) ].

Definition tailscaledGoTimestamp : string := "^(?:\d{4}/\d{2}/\d{2} \d{2}:\d{2}:\d{2}(?:\.\d+)? )?".
Definition reTailscaledIPNState : Regexp := Eval vm_compute in
  MustCompile (tailscaledGoTimestamp +:+ "Switching ipn state (\w+) -> (\w+) \(WantRunning=(?:true|false), nm=(?:true|false)\)$").
Definition reTailscaledDestroyed : Regexp := Eval vm_compute in MustCompile (tailscaledGoTimestamp +:+ "Destroying \S+ adapter$").
Definition ipnStates : list string :=
  ["NoState"; "InUseOtherUser"; "NeedsLogin"; "NeedsMachineAuth"; "Stopped"; "Starting"; "Running"].
Definition ipnStateRunning : string := "Running".

Definition parseTailscaled (env : Envelope) (_ : option Enrich.Snapshot) : option LogRecord :=
  cases (Message env)
    [ (reTailscaledDestroyed, fun _ => Some (vpn_record env "tailscale" ("terminated", "success")));
      (reTailscaledIPNState, fun m =>
         let from := group m 1 in
         let to := group m 2 in
         if negb (bool_decide (from ∈ ipnStates)) || negb (bool_decide (to ∈ ipnStates)) then None
         else if str_eq to ipnStateRunning then Some (vpn_record env "tailscale" ("established", "success"))
         else if str_eq from ipnStateRunning then Some (vpn_record env "tailscale" ("terminated", "success"))
         else None) ].

Definition netbirdDaemonProgram : string := "/usr/local/bin/netbird".
Definition netbirdEngineStartedPrefix : string := "Netbird engine started, the IP is: ".
Definition netbirdClientStopped : string := "stopped NetBird client".

Definition parseNetbird (env : Envelope) (_ : option Enrich.Snapshot) : option LogRecord :=
  if HasPrefix (Message env) netbirdEngineStartedPrefix then Some (vpn_record env "netbird" ("established", "success"))
  else if str_eq (Message env) netbirdClientStopped then Some (vpn_record env "netbird" ("terminated", "success"))
  else None.

(** ** miniupnpd *)

Definition reUPnPExpired : Regexp := Eval vm_compute in MustCompile "^remove port mapping (\d+) (TCP|UDP) because it has expired$".
Definition reUPnPNATCleanupFailed : Regexp := Eval vm_compute in
  MustCompile "^could not find nat rule to delete iport=(\d+)(?: addr= *\S+)?$".
Definition reUPnPRedirectCleanupFailed : Regexp := Eval vm_compute in MustCompile "^could not find redirect rule to delete eport=(\d+)$".
Definition reUPnPUnauthorized : Regexp := Eval vm_compute in
  MustCompile "^Unauthorized to remove PCP mapping internal port (\d+), protocol (TCP|UDP)$".
Definition reUPnPLeaseFileError : Regexp := Eval vm_compute in MustCompile "^could not open lease file: \S+$".
Definition upnpProtocols : list (string * string) := [("TCP", "tcp"); ("UDP", "udp")].

Definition parseMiniUPnPd (env : Envelope) (_ : option Enrich.Snapshot) : option LogRecord :=
  cases (Message env)
    [ (reUPnPExpired, fun m =>
         proto ← word upnpProtocols (group m 2);
         Some (newRecord env [("upnp.event", "expired"); ("upnp.result", "ok"); ("upnp.protocol", proto); ("upnp.port.external", group m 1)]));
      (reUPnPNATCleanupFailed, fun m =>
         Some (newRecord env [("upnp.event", "cleanup_failed"); ("upnp.result", "failure"); ("upnp.port.internal", group m 1)]));
      (reUPnPRedirectCleanupFailed, fun m =>
         Some (newRecord env [("upnp.event", "cleanup_failed"); ("upnp.result", "failure"); ("upnp.port.external", group m 1)]));
      (reUPnPUnauthorized, fun m =>
         proto ← word upnpProtocols (group m 2);
         Some (newRecord env [("upnp.event", "unauthorized"); ("upnp.result", "failure"); ("upnp.protocol", proto);
                              ("upnp.port.internal", group m 1)]));
      (reUPnPLeaseFileError, fun _ => Some (newRecord env [("upnp.event", "lease_file_error"); ("upnp.result", "failure")])) ].

(** ** RADIUS *)

Definition parseFreeRADIUS (env : Envelope) (_ : option Enrich.Snapshot) : option LogRecord :=
  let record result := Some (newRecord env [("radius.event", "access"); ("radius.result", result); ("radius.client_scope", "configured")]) in
  if str_eq (Message env) Receiver.freeRADIUSAccessAcceptedMessage then record "accepted"
  else if str_eq (Message env) Receiver.freeRADIUSAccessRejectedMessage then record "rejected"
  else None.

(** ** ppp *)

Definition reBracket : Regexp := Eval vm_compute in MustCompile "^\[(\S+)\]\s+(.*)$".
Definition rePPPLinkUpDown : Regexp := Eval vm_compute in MustCompile "^Link: (UP|DOWN) event$".
Definition rePPPIfaceUpDown : Regexp := Eval vm_compute in MustCompile "^IFACE: (Up|Down) event$".
Definition rePPPReconnect : Regexp := Eval vm_compute in MustCompile "^Link: reconnection attempt (\d+)(?: in (\d+) seconds)?$".
Definition rePPPBundleStatus : Regexp := Eval vm_compute in
  MustCompile "^Bundle: Status update: up (\d+) links?, total bandwidth (\d+) bps$".
Definition rePPPStateChange : Regexp := Eval vm_compute in MustCompile "^(LCP|IPCP|IPV6CP): state change (\S+) --> (\S+)$".
Definition rePPPTerminateRecv : Regexp := Eval vm_compute in MustCompile "^LCP: rec'd Terminate Request #(\d+) \((\S+)\)$".
Definition rePPPSendTerminateReq : Regexp := Eval vm_compute in MustCompile "^(IPCP|IPV6CP): SendTerminateReq #(\d+)$".
Definition rePPPoESuccess : Regexp := Eval vm_compute in MustCompile "^PPPoE: connection successful$".
Definition rePPPoEClosed : Regexp := Eval vm_compute in MustCompile "^PPPoE: connection closed$".
Definition rePPPoEFailed : Regexp := Eval vm_compute in MustCompile "^PPPoE: (can't connect .+)$".
Definition rePPPAuthSuccess : Regexp := Eval vm_compute in MustCompile "^LCP: authorization successful$".
Definition rePPPAddress : Regexp := Eval vm_compute in MustCompile "^(\S+) -> (\S+)$".
Definition rePPPLinkupLinkdownScript : Regexp := Eval vm_compute in
  MustCompile "^ppp-link(up|down): executing on (\S+) for (inet6?)$".

Definition setPPPScope (protocol bracket : string) : list (string * string) :=
  if str_eq protocol "LCP" then [("ppp.link", bracket)] else [("ppp.bundle", bracket)].

(** The line after its bracket. *)
Definition ppp_bracketed (env : Envelope) (bracket rest : string) : option LogRecord :=
  let rec l := Some (newRecord env l) in
  cases rest
    [ (rePPPLinkUpDown, fun m => rec [("ppp.event", if str_eq (group m 1) "DOWN" then "link_down" else "link_up"); ("ppp.link", bracket)]);
      (rePPPIfaceUpDown, fun m =>
         rec ([("ppp.event", if str_eq (group m 1) "Down" then "iface_down" else "iface_up"); ("ppp.bundle", bracket)]
              ++ (if IsZero (eTimestamp env) then [] else [("ppp.edge_timestamp", FormatInt (Unix (eTimestamp env)))])));
      (rePPPReconnect, fun m =>
         rec [("ppp.event", "reconnecting"); ("ppp.link", bracket); ("ppp.retry_attempt", group m 1); ("ppp.retry_delay_seconds", group m 2)]);
      (rePPPBundleStatus, fun m =>
         rec [("ppp.event", "bundle_status"); ("ppp.bundle", bracket); ("ppp.links_up", group m 1); ("ppp.bandwidth_bps", group m 2)]);
      (rePPPStateChange, fun m =>
         rec ([("ppp.event", "negotiation_state_change"); ("ppp.protocol", group m 1)] ++ setPPPScope (group m 1) bracket
              ++ [("ppp.state.previous", group m 2); ("ppp.state.current", group m 3)]));
      (rePPPTerminateRecv, fun m =>
         rec [("ppp.event", "terminate_requested"); ("ppp.protocol", "LCP"); ("ppp.link", bracket); ("ppp.state.previous", group m 2)]);
      (rePPPSendTerminateReq, fun m =>
         rec [("ppp.event", "terminate_requested"); ("ppp.protocol", group m 1); ("ppp.bundle", bracket)]);
      (rePPPoESuccess, fun _ => rec [("ppp.event", "session_established"); ("ppp.link", bracket)]);
      (rePPPoEClosed, fun _ => rec [("ppp.event", "session_closed"); ("ppp.link", bracket)]);
      (rePPPoEFailed, fun m => rec [("ppp.event", "session_failed"); ("ppp.link", bracket); ("ppp.error", group m 1)]);
      (rePPPAuthSuccess, fun _ => rec [("ppp.event", "auth_success"); ("ppp.link", bracket)]);
      (rePPPAddress, fun m =>
         match ParseAddr (group m 1), ParseAddr (group m 2) with
         | Some _, Some _ =>
             rec [("ppp.event", "address_assigned"); ("ppp.bundle", bracket); ("ppp.address.local", group m 1); ("ppp.address.peer", group m 2)]
         | _, _ => None
         end) ].

Definition parsePPP (env : Envelope) (_ : option Enrich.Snapshot) : option LogRecord :=
  cases (Message env)
    [ (rePPPLinkupLinkdownScript, fun m =>
         Some (newRecord env [("ppp.event", if str_eq (group m 1) "down" then "iface_down" else "iface_up"); ("ppp.interface", group m 2);
                              ("ppp.address_family", group m 3)]));
      (reBracket, fun m => ppp_bracketed env (group m 1) (group m 2)) ].

(** ** dpinger *)

Definition reDPingerTransition : Regexp := Eval vm_compute in
  MustCompile "^(?:MONITOR|ALERT): (\S+) \(Addr: (\S+) Alarm: (none|down|delay|loss) -> (none|down|delay|loss) RTT: ([0-9]+(?:\.[0-9]+)?) ms RTTd: ([0-9]+(?:\.[0-9]+)?) ms Loss: ([0-9]+(?:\.[0-9]+)?) %\)$".
Definition reDPingerExiting : Regexp := Eval vm_compute in MustCompile "^exiting on signal (\d+)$".
Definition reDPingerSIGHUP : Regexp := Eval vm_compute in MustCompile "^Reloaded gateway watcher configuration on SIGHUP$".
Definition reDPingerStartup : Regexp := Eval vm_compute in
  MustCompile "^send_interval \d+ms  loss_interval \d+ms  time_period \d+ms  report_interval \d+ms  data_len \d+  alert_interval \d+ms  latency_alarm (\d+)ms  loss_alarm (\d+)%  alarm_hold (\d+)ms  dest_addr (\S+)  bind_addr (\S+)  identifier \x22(.*)\x22$".

(** [strings.TrimSuffix] and [strings.TrimPrefix]. *)
Definition TrimSuffix (s suf : string) : string := if HasSuffix s suf then str_take (String.length s - String.length suf) s else s.
Definition TrimPrefix (s pre : string) : string := if HasPrefix s pre then str_drop (String.length pre) s else s.

Definition dpinger_event (from to : string) : option string :=
  word [("none>down", "alarm_started"); ("none>delay", "alarm_started"); ("none>loss", "alarm_started");
        ("down>none", "alarm_cleared"); ("delay>none", "alarm_cleared"); ("loss>none", "alarm_cleared");
        ("loss>down", "alarm_changed"); ("down>loss", "alarm_changed")] (from +:+ ">" +:+ to).

Definition dpingerRecord (env : Envelope) (name addr rtt rttd loss previous current event : string) : LogRecord :=
  newRecord env [("gateway.event", event); ("gateway.name", name); ("gateway.address", addr); ("gateway.alarm.previous", previous);
                 ("gateway.alarm.current", current); ("gateway.rtt_ms", rtt); ("gateway.rttd_ms", rttd); ("gateway.loss_percent", loss)].

Definition parseDPinger (env : Envelope) (_ : option Enrich.Snapshot) : option LogRecord :=
  cases (Message env)
    [ (reDPingerTransition, fun m =>
         event ← dpinger_event (group m 3) (group m 4);
         Some (dpingerRecord env (group m 1) (group m 2) (group m 5) (group m 6) (group m 7) (group m 3) (group m 4) event));
      (reDPingerExiting, fun m => Some (newRecord env [("gateway.event", "watcher_stopped"); ("gateway.signal", group m 1)]));
      (reDPingerSIGHUP, fun _ => Some (newRecord env [("gateway.event", "watcher_reloaded")]));
      (reDPingerStartup, fun m =>
         Some (newRecord env [("gateway.event", "watcher_started"); ("gateway.name", TrimSuffix (group m 6) " "); ("gateway.address", group m 4);
                              ("gateway.bind_address", group m 5); ("gateway.latency_alarm_ms", group m 1);
                              ("gateway.loss_alarm_percent", group m 2); ("gateway.alarm_hold_ms", group m 3)])) ].

(** ** dhclient *)

Definition reDHCPClientSent : Regexp := Eval vm_compute in
  MustCompile "^DHCP(DISCOVER|REQUEST|RELEASE|DECLINE|INFORM|LEASEQUERY) on ([0-9A-Za-z._-]+) to (\S+) port (\d+)(?: interval \d+)?$".
Definition reDHCPClientReceived : Regexp := Eval vm_compute in MustCompile "^DHCP(ACK|NAK|OFFER) from (\S+)$".
Definition reDHCPClientBound : Regexp := Eval vm_compute in MustCompile "^bound to (\S+) -- renewal in (\d+) seconds\.?$".
Definition reDHCPClientScript : Regexp := Eval vm_compute in
  MustCompile "^dhclient-script: Reason ([A-Z0-9]+) on ([0-9A-Za-z._-]+) executing$".

Definition dhcpClientTypes : list (string * string) :=
  [("DISCOVER", "discover"); ("REQUEST", "request"); ("ACK", "ack"); ("NAK", "nak"); ("OFFER", "offer"); ("DECLINE", "decline");
   ("RELEASE", "release"); ("INFORM", "inform")].
Definition dhcpClientReasons : list (string * string) :=
  [("MEDIUM", "medium"); ("PREINIT", "preinit"); ("ARPCHECK", "arpcheck"); ("ARPSEND", "arpsend"); ("BOUND", "bound"); ("RENEW", "renew");
   ("REBIND", "rebind"); ("REBOOT", "reboot"); ("EXPIRE", "expire"); ("FAIL", "fail"); ("TIMEOUT", "timeout"); ("STOP", "stop");
   ("RELEASE", "release"); ("NBI", "nbi")].

Definition maxDHCPClientPIDs : nat := 64.

(** The absolute times of a lease, when they can be told: from the line's own stamp and
    the seconds the line names. *)
Definition lease_times (env : Envelope) (names : list string) (seconds : list string) : list (string * string) :=
  match mapM ParseInt64 seconds with
  | Some secs =>
      if IsZero (eTimestamp env) then []
      else zip names (map (fun n => FormatInt (addInt64 (Unix (eTimestamp env)) n)) (0 :: secs))
  | None => []
  end.

Definition dhcpClientBoundRecord (env : Envelope) (g : globals) (address renewalSeconds : string) : LogRecord :=
  newRecord env
    ([("dhcp_client.address", address); ("dhcp_client.lease.renewal_seconds", renewalSeconds);
      ("dhcp_client.interface", mem_lookup (PID env) (dhcpClientIfaces g))]
     ++ lease_times env ["dhcp_client.lease.bound_timestamp"; "dhcp_client.lease.renewal_timestamp"] [renewalSeconds]).

(** The parser with its effect on the memory. *)
Definition parseDHCPClient : Parser := fun env _ g =>
  match cases (Message env)
    [ (reDHCPClientSent, fun m =>
         Some (t ← word dhcpClientTypes (group m 1);
               Some (newRecord env [("dhcp_client.type", t); ("dhcp_client.interface", group m 2); ("dhcp_client.server", group m 3)], Some (group m 2))));
      (reDHCPClientReceived, fun m =>
         Some (t ← word dhcpClientTypes (group m 1);
               Some (newRecord env [("dhcp_client.type", t); ("dhcp_client.interface", mem_lookup (PID env) (dhcpClientIfaces g));
                                    ("dhcp_client.server", group m 2)], None)));
      (reDHCPClientBound, fun m => Some (Some (dhcpClientBoundRecord env g (group m 1) (group m 2), None)));
      (reDHCPClientScript, fun m =>
         Some (r ← word dhcpClientReasons (group m 1);
               Some (newRecord env [("dhcp_client.script.reason", r); ("dhcp_client.interface", group m 2)], None))) ]
  with
  | Some (Some (rec, Some iface)) => (Some rec, g <| dhcpClientIfaces ::= remember (PID env) iface |>)
  | Some (Some (rec, None)) => (Some rec, g)
  | _ => (None, g)
  end.

(** ** dhcp6c *)

Definition reDHCP6CScript : Regexp := Eval vm_compute in
  MustCompile "^dhcp6c_script: ([A-Z][A-Z0-9_]*) on ([0-9A-Za-z._-]+) (executing|connected to server|ignored)$".
Definition reDHCP6CScriptPrefix : Regexp := Eval vm_compute in
  MustCompile "^dhcp6c_script: ([A-Z][A-Z0-9_]*) on ([0-9A-Za-z._-]+) prefix now (\S.*)$".
Definition reDHCP6CFuncPrefix : Regexp := Eval vm_compute in MustCompile "^[A-Za-z_][A-Za-z0-9_]*: ".
Definition reDHCP6CSending : Regexp := Eval vm_compute in
  MustCompile "^Sending (Solicit|Request|Renew|Rebind|Release|Information Request) on ([0-9A-Za-z._-]+)$".
Definition reDHCP6CReply : Regexp := Eval vm_compute in
  MustCompile "^Received REPLY for (SOLICIT|REQUEST|RENEW|REBIND|RELEASE|INFOREQ)$".
Definition reDHCP6CPrefix : Regexp := Eval vm_compute in
  MustCompile "^(create|update) a prefix ([0-9a-fA-F:]+)/(\d+) pltime=(\d+), vltime=(\d+)$".
Definition reDHCP6CAddress : Regexp := Eval vm_compute in
  MustCompile "^(add|remove) an address ([0-9a-fA-F:]+)/(\d+) on ([0-9A-Za-z._-]+)$".
Definition reDHCP6CAddressLease : Regexp := Eval vm_compute in
  MustCompile "^(create|update) an address ([0-9a-fA-F:]+) pltime=(\d+), vltime=(\d+)$".
Definition reDHCP6CAddressLeaseRemove : Regexp := Eval vm_compute in MustCompile "^remove an address ([0-9a-fA-F:]+)$".

Definition dhcp6cSentTypes : list (string * string) :=
  [("Solicit", "solicit"); ("Request", "request"); ("Renew", "renew"); ("Rebind", "rebind"); ("Release", "release");
   ("Information Request", "information_request")].
Definition dhcp6cReplyTypes : list (string * string) :=
  [("SOLICIT", "solicit"); ("REQUEST", "request"); ("RENEW", "renew"); ("REBIND", "rebind"); ("RELEASE", "release");
   ("INFOREQ", "information_request")].
Definition dhcp6cScriptReasons : list (string * string) := dhcp6cReplyTypes ++ [("EXIT", "exit")].
Definition dhcp6cPrefixEvents : list (string * string) := [("create", "prefix_created"); ("update", "prefix_updated")].
Definition dhcp6cAddressEvents : list (string * string) := [("add", "address_added"); ("remove", "address_removed")].
Definition dhcp6cAddressLeaseEvents : list (string * string) :=
  [("create", "address_lease_created"); ("update", "address_lease_updated")].
Definition dhcp6cScriptEvents : list (string * string) :=
  [("executing", "script_executing"); ("connected to server", "script_connected"); ("ignored", "script_ignored")].

Definition setDHCP6CInterface (snap : option Enrich.Snapshot) (dev : string) : list (string * string) :=
  [("dhcp6c.interface", dev)]
  ++ (if str_empty dev then [] else [("interface", dev)] ++ found "interface.name" (ifaceName snap dev)).

Definition dhcp6cPrefixRecord (env : Envelope) (snap : option Enrich.Snapshot) (g : globals) (verb prefix plen pltime vltime : string)
  : option LogRecord :=
  event ← word dhcp6cPrefixEvents verb;
  Some (newRecord env
    ([("dhcp6c.event", event); ("dhcp6c.prefix", prefix +:+ "/" +:+ plen); ("dhcp6c.prefix_length", plen);
      ("dhcp6c.prefix.pltime_seconds", pltime); ("dhcp6c.prefix.vltime_seconds", vltime)]
     ++ setDHCP6CInterface snap (mem_lookup (PID env) (dhcp6cIfaces g))
     ++ lease_times env ["dhcp6c.prefix.updated_timestamp"; "dhcp6c.prefix.preferred_expiry_timestamp"; "dhcp6c.prefix.valid_expiry_timestamp"]
          [pltime; vltime])).

Definition dhcp6cAddressLeaseRecord (env : Envelope) (snap : option Enrich.Snapshot) (g : globals) (verb addr pltime vltime : string)
  : option LogRecord :=
  event ← word dhcp6cAddressLeaseEvents verb;
  Some (newRecord env
    ([("dhcp6c.event", event); ("dhcp6c.address", addr); ("dhcp6c.address_lease.pltime_seconds", pltime);
      ("dhcp6c.address_lease.vltime_seconds", vltime)]
     ++ setDHCP6CInterface snap (mem_lookup (PID env) (dhcp6cIfaces g))
     ++ lease_times env ["dhcp6c.address_lease.updated_timestamp"; "dhcp6c.address_lease.preferred_expiry_timestamp";
                         "dhcp6c.address_lease.valid_expiry_timestamp"] [pltime; vltime])).

(** [ReplaceAllString(s, "")] of a pattern anchored at the beginning. *)
Definition strip (re : Regexp) (s : string) : string :=
  match find (prog re) None (runes s) with Some (_, st') => text (rest st') | None => s end.

(** The line is tried as a script's, then without its function's name. *)
Definition parseDHCP6C : Parser := fun env snap g =>
  let msg := strip reDHCP6CFuncPrefix (Message env) in
  let iface := mem_lookup (PID env) (dhcp6cIfaces g) in
  let rec l := Some (newRecord env l, None : option string) in
  match
    match cases (Message env)
      [ (reDHCP6CScript, fun m =>
           Some (event ← word dhcp6cScriptEvents (group m 3);
                 rec ([("dhcp6c.event", event); ("dhcp6c.script.reason", default "" (word dhcp6cScriptReasons (group m 1)))]
                      ++ setDHCP6CInterface snap (group m 2))));
        (reDHCP6CScriptPrefix, fun m =>
           Some (rec ([("dhcp6c.event", "script_prefix_updated"); ("dhcp6c.script.reason", default "" (word dhcp6cScriptReasons (group m 1)))]
                      ++ setDHCP6CInterface snap (group m 2) ++ [("dhcp6c.prefix", group m 3)]))) ]
    with
    | Some r => Some r
    | None =>
        cases msg
          [ (reDHCP6CSending, fun m =>
               Some (t ← word dhcp6cSentTypes (group m 1);
                     Some (newRecord env ([("dhcp6c.direction", "sent"); ("dhcp6c.type", t)] ++ setDHCP6CInterface snap (group m 2)), Some (group m 2))));
            (reDHCP6CReply, fun m =>
               Some (t ← word dhcp6cReplyTypes (group m 1);
                     rec ([("dhcp6c.direction", "received"); ("dhcp6c.type", t)] ++ setDHCP6CInterface snap iface)));
            (reDHCP6CPrefix, fun m =>
               Some (r ← dhcp6cPrefixRecord env snap g (group m 1) (group m 2) (group m 3) (group m 4) (group m 5); Some (r, None)));
            (reDHCP6CAddressLease, fun m =>
               Some (r ← dhcp6cAddressLeaseRecord env snap g (group m 1) (group m 2) (group m 3) (group m 4); Some (r, None)));
            (reDHCP6CAddressLeaseRemove, fun m =>
               Some (rec ([("dhcp6c.event", "address_lease_removed"); ("dhcp6c.address", group m 1)] ++ setDHCP6CInterface snap iface)));
            (reDHCP6CAddress, fun m =>
               Some (event ← word dhcp6cAddressEvents (group m 1);
                     rec ([("dhcp6c.event", event); ("dhcp6c.address", group m 2); ("dhcp6c.prefix_length", group m 3)]
                          ++ setDHCP6CInterface snap (group m 4)))) ]
    end
  with
  | Some (Some (rec, Some iface)) => (Some rec, g <| dhcp6cIfaces ::= remember (PID env) iface |>)
  | Some (Some (rec, None)) => (Some rec, g)
  | _ => (None, g)
  end.

End Parsers.
