(* ===== verification/Parsers2.v ===== *)
(** * Parsers of the system's services ([logship/syslog/cron.go], [radvd.go], [sudo.go],
      [firewallalias.go], [ruleupdater.go], [syslogng.go], [acme.go], [audit.go],
      [haproxy.go], [unbound.go])

    One function per program, as in [Parsers]. *)

From stdpp Require Import base decidable list gmap strings.
From Stdlib Require Import ZArith Lia Ascii.
From S2P Require Import Prelude Netip GoStrings Geo Enrich LogQueue OtlpSink GoTime Envelope Filterlog GoRegexp Registry Captured Parsers.
Import Queue Envelope Filterlog Regexp Registry Parsers.

Module Parsers2.

(** ** cron, radvd, sudo *)

Definition reCron : Regexp := Eval vm_compute in MustCompile "(?s)^\((\S+)\)\s+(CMD|MAIL)\s+\((.*)$".

Definition newline : string := String "010" "".
Definition trimCronDetail (detail : string) : string := TrimSuffix (TrimSuffix detail ")") newline.

Definition parseCron (env : Envelope) (_ : option Enrich.Snapshot) : option LogRecord :=
  cases (Message env) [ (reCron, fun m =>
    if str_eq (group m 2) "CMD" then
      Some (newRecord env [("cron.user", group m 1); ("cron.action", "cmd"); ("cron.command", trimCronDetail (group m 3))])
    else if str_eq (group m 2) "MAIL" then Some (newRecord env [("cron.user", group m 1); ("cron.action", "mail")])
    else None) ].

Definition reRadvdPolling : Regexp := Eval vm_compute in MustCompile "^polling for (\S+) second\(s\), next iface is (\S+)$".
Definition reRadvdTimer : Regexp := Eval vm_compute in MustCompile "^timer_handler called for (\S+)$".

Definition parseRadvd (env : Envelope) (snap : option Enrich.Snapshot) : option LogRecord :=
  let iface dev := ("interface", dev) :: found "interface.name" (ifaceName snap dev) in
  cases (Message env)
    [ (reRadvdPolling, fun m =>
         Some (newRecord env ([("radvd.event", "polling")] ++ iface (group m 2) ++ [("radvd.interval_seconds", group m 1)])));
      (reRadvdTimer, fun m => Some (newRecord env ([("radvd.event", "timer")] ++ iface (group m 1)))) ].

Definition reSudoAllowed : Regexp := Eval vm_compute in
  MustCompile "^\s*(\S+) : (?:TTY=(\S+) ; )?PWD=(\S+) ; USER=(\S+) ; COMMAND=(.+)$".
Definition reSudoNotInSudoers : Regexp := Eval vm_compute in
  MustCompile "^\s*(\S+) : user NOT in sudoers ; (?:TTY=(\S+) ; )?PWD=(\S+) ; USER=(\S+) ; COMMAND=(.+)$".
Definition reSudoBadPassword : Regexp := Eval vm_compute in
  MustCompile "^\s*(\S+) : \d+ incorrect password attempts? ; (?:TTY=(\S+) ; )?PWD=(\S+) ; USER=(\S+) ; COMMAND=(.+)$".

Definition sudo_record (env : Envelope) (result : string) (m : list string) : option LogRecord :=
  Some (Warn_if (str_eq result "failed")
    (newRecord env [("auth.result", result); ("auth.user", group m 1); ("auth.target_user", group m 4); ("auth.command", group m 5);
                    ("auth.pwd", group m 3); ("auth.tty", group m 2)])).

Definition parseSudo (env : Envelope) (_ : option Enrich.Snapshot) : option LogRecord :=
  cases (Message env)
    [ (reSudoAllowed, sudo_record env "allowed"); (reSudoNotInSudoers, sudo_record env "failed");
      (reSudoBadPassword, sudo_record env "failed") ].

(** ** The firewall's aliases, the rule updater *)

Definition reFirewallAliasResolved : Regexp := Eval vm_compute in
  MustCompile "^resolving (\d+) hostnames \((\d+) addresses\) for (\S+) took ([0-9]+(?:\.[0-9]+)?) seconds$".
Definition reFirewallAliasFetchedBytes : Regexp := Eval vm_compute in MustCompile "^fetch alias url (\S+) \(bytes: (\d+)\)$".
Definition reFirewallAliasFetchedLines : Regexp := Eval vm_compute in MustCompile "^fetch alias url (\S+) \(lines: (\d+)\)$".
Definition reFirewallAliasProcessed : Regexp := Eval vm_compute in
  MustCompile "^processing alias url (\S+) took ([0-9]+(?:\.[0-9]+)?)s$".
Definition reFirewallAliasGeoIPUpdated : Regexp := Eval vm_compute in MustCompile "^geoip updated \(files: (\d+) lines: (\d+)\)$".
Definition reFirewallAliasArchiveDetected : Regexp := Eval vm_compute in MustCompile "^found \.zip format, process$".

Definition parseFirewallAlias (env : Envelope) (_ : option Enrich.Snapshot) : option LogRecord :=
  let rec l := Some (newRecord env l) in
  cases (Message env)
    [ (reFirewallAliasResolved, fun m =>
         rec [("alias.event", "resolved"); ("alias.name", group m 3); ("alias.hostnames", group m 1); ("alias.addresses", group m 2);
              ("alias.duration_seconds", group m 4)]);
      (reFirewallAliasFetchedBytes, fun m => rec [("alias.event", "fetched"); ("alias.url", group m 1); ("alias.bytes", group m 2)]);
      (reFirewallAliasFetchedLines, fun m => rec [("alias.event", "fetched"); ("alias.url", group m 1); ("alias.lines", group m 2)]);
      (reFirewallAliasProcessed, fun m => rec [("alias.event", "processed"); ("alias.url", group m 1); ("alias.duration_seconds", group m 2)]);
      (reFirewallAliasGeoIPUpdated, fun m => rec [("alias.event", "geoip_updated"); ("geoip.files", group m 1); ("geoip.lines", group m 2)]);
      (reFirewallAliasArchiveDetected, fun _ => rec [("alias.event", "archive_detected")]) ].

Definition reRuleUpdaterDownloadCompleted : Regexp := Eval vm_compute in MustCompile "^download completed for (\S+)$".
Definition reRuleUpdaterVersionResponse : Regexp := Eval vm_compute in MustCompile "^version response for (\S+) : (.+)$".
Definition reRuleUpdaterSkipped : Regexp := Eval vm_compute in MustCompile "^download skipped (\S+), same version$".
Definition reRuleUpdaterFailedHTTP : Regexp := Eval vm_compute in MustCompile "^download failed for (\S+) \(http_code: (\d+)\)$".
Definition reRuleUpdaterFailedGeneric : Regexp := Eval vm_compute in MustCompile "^download failed for (\S+) \(.+\)$".
Definition reRuleUpdaterUnsupportedType : Regexp := Eval vm_compute in MustCompile "^unsupported download type for (\S+)$".
Definition reRuleUpdaterCannotWrite : Regexp := Eval vm_compute in MustCompile "^cannot write to (.+)$".
Definition reRuleUpdaterDecodeError : Regexp := Eval vm_compute in MustCompile "^unable to read (.+) from (.+) \(decode error\)$".

Definition parseRuleUpdater (env : Envelope) (_ : option Enrich.Snapshot) : option LogRecord :=
  let rec l := Some (newRecord env l) in
  cases (Message env)
    [ (reRuleUpdaterDownloadCompleted, fun m => rec [("ids.event", "ruleset_downloaded"); ("ids.ruleset_url", group m 1)]);
      (reRuleUpdaterVersionResponse, fun m =>
         rec ([("ids.event", "ruleset_version"); ("ids.ruleset_url", group m 1)]
              ++ match Otlp.Atoi (group m 2) with Some _ => [("ids.ruleset_version", group m 2)] | None => [] end));
      (reRuleUpdaterSkipped, fun m => rec [("ids.event", "ruleset_skipped"); ("ids.ruleset_file", group m 1)]);
      (reRuleUpdaterFailedHTTP, fun m =>
         rec [("ids.event", "ruleset_download_failed"); ("ids.ruleset_url", group m 1); ("ids.http_status", group m 2)]);
      (reRuleUpdaterFailedGeneric, fun m => rec [("ids.event", "ruleset_download_failed"); ("ids.ruleset_url", group m 1)]);
      (reRuleUpdaterUnsupportedType, fun m => rec [("ids.event", "ruleset_unsupported_type"); ("ids.ruleset_url", group m 1)]);
      (reRuleUpdaterCannotWrite, fun m => rec [("ids.event", "ruleset_write_failed"); ("ids.ruleset_path", group m 1)]);
      (reRuleUpdaterDecodeError, fun m => rec [("ids.event", "ruleset_decode_error"); ("ids.ruleset_path", group m 1)]) ].

(** ** syslog-ng *)

Definition reSyslogngEstablished : Regexp := Eval vm_compute in
  MustCompile "^Syslog connection established; fd='(\d+)', server='AF_INET\((.+):(\d+)\)', local='AF_INET\([^)]*\)'$".
Definition reSyslogngClosed : Regexp := Eval vm_compute in
  MustCompile "^Syslog connection closed; fd='(\d+)', server='AF_INET\((.+):(\d+)\)', time_reopen='(\d+)'$".
Definition reSyslogngBroken : Regexp := Eval vm_compute in
  MustCompile "^Syslog connection broken; fd='(\d+)', server='AF_INET\((.+):(\d+)\)', time_reopen='(\d+)'$".
Definition reSyslogngEOF : Regexp := Eval vm_compute in MustCompile "^EOF occurred; fd='(\d+)'$".
Definition reSyslogngChildExited : Regexp := Eval vm_compute in
  MustCompile "^Child program exited, restarting; cmdline='(.+)', status='(\d+)'$".
Definition reSyslogngReadError : Regexp := Eval vm_compute in MustCompile "^Error reading data; fd='(\d+)', error='(.+)'$".
Definition reSyslogngStatsLine : Regexp := Eval vm_compute in MustCompile "^Log statistics;".
Definition reSyslogngDropped : Regexp := Eval vm_compute in MustCompile "dropped='[^']*=(\d+)'".
Definition reSyslogngTruncatedCount : Regexp := Eval vm_compute in MustCompile "truncated_count='[^']*=(\d+)'".

(** The sum of the counters; [int] is 64 bits wide. *)
Definition sumSyslogngCounters (re : Regexp) (msg : string) : Z :=
  fold_left (fun total m => match Otlp.Atoi (group m 1) with Some n => addInt64 total n | None => total end)
    (FindAllStringSubmatch re msg None) 0.

Definition parseSyslogNG (env : Envelope) (_ : option Enrich.Snapshot) : option LogRecord :=
  let rec l := Some (newRecord env l) in
  let conn event m := rec [("syslogng.event", event); ("syslogng.fd", group m 1); ("dst.ip", group m 2); ("dst.port", group m 3);
                           ("syslogng.time_reopen_seconds", group m 4)] in
  cases (Message env)
    [ (reSyslogngEstablished, fun m =>
         rec [("syslogng.event", "connection_established"); ("syslogng.fd", group m 1); ("dst.ip", group m 2); ("dst.port", group m 3)]);
      (reSyslogngClosed, conn "connection_closed"); (reSyslogngBroken, conn "connection_broken");
      (reSyslogngEOF, fun m => rec [("syslogng.event", "eof"); ("syslogng.fd", group m 1)]);
      (reSyslogngChildExited, fun m =>
         rec [("syslogng.event", "child_exited"); ("syslogng.cmdline", group m 1); ("syslogng.exit_status", group m 2)]);
      (reSyslogngReadError, fun m => rec [("syslogng.event", "read_error"); ("syslogng.fd", group m 1); ("syslogng.error", group m 2)]);
      (reSyslogngStatsLine, fun _ =>
         rec [("syslogng.event", "statistics"); ("syslogng.dropped_total", FormatInt (sumSyslogngCounters reSyslogngDropped (Message env)));
              ("syslogng.truncated_total", FormatInt (sumSyslogngCounters reSyslogngTruncatedCount (Message env)))]) ].

(** ** ACME *)

Definition acmeShTimestamp : Regexp := Eval vm_compute in MustCompile "^\[[^\]]+\] ".
Definition reAcmeOpnRenewalNotRequired : Regexp := Eval vm_compute in
  MustCompile "^AcmeClient: issue/renewal not required for certificate: (\S+)$".
Definition reAcmeOpnRenewalRequired : Regexp := Eval vm_compute in MustCompile "^AcmeClient: certificate must be issued/renewed: (\S+)$".
Definition reAcmeOpnIssueStarted : Regexp := Eval vm_compute in MustCompile "^AcmeClient: issue certificate: (\S+)$".
Definition reAcmeOpnIssueSucceeded : Regexp := Eval vm_compute in
  MustCompile "^AcmeClient: successfully issued/renewed certificate: (\S+)$".
Definition reAcmeOpnConfigWiped : Regexp := Eval vm_compute in MustCompile "^AcmeClient: wiping certificate config: (\S+)$".
Definition reAcmeOpnRemovalFailed : Regexp := Eval vm_compute in MustCompile "^AcmeClient: error removing certificate (\S+)$".
Definition reAcmeOpnUsingCA : Regexp := Eval vm_compute in MustCompile "^AcmeClient: using CA: (\S+)$".
Definition reAcmeOpnAccountRegistered : Regexp := Eval vm_compute in MustCompile "^AcmeClient: account is registered: .+$".
Definition reAcmeOpnChallengeType : Regexp := Eval vm_compute in MustCompile "^AcmeClient: using challenge type: (.+)$".
Definition reAcmeOpnCAImported : Regexp := Eval vm_compute in MustCompile "^AcmeClient: imported ACME CA: (.+)$".
Definition reAcmeOpnShellCommand : Regexp := Eval vm_compute in
  MustCompile "^AcmeClient: AcmeClient: The shell command returned exit code '(\d+)':".
Definition reAcmeShDomainSkipped : Regexp := Eval vm_compute in MustCompile "^(\S+) is not an issued domain, skipping\.$".
Definition reAcmeShUsingCA : Regexp := Eval vm_compute in MustCompile "^Using CA: (\S+)$".
Definition reAcmeShRegistered : Regexp := Eval vm_compute in MustCompile "^Registered$".
Definition reAcmeShTXTAdded : Regexp := Eval vm_compute in MustCompile "^Adding TXT value: \S+ for domain: (\S+)$".
Definition reAcmeShPending : Regexp := Eval vm_compute in
  MustCompile "^Pending\. The CA is processing your order, please wait\. \((\d+)/(\d+)\)$".
Definition reAcmeShSuccess : Regexp := Eval vm_compute in MustCompile "^Success$".
Definition reAcmeShTXTRemoved : Regexp := Eval vm_compute in MustCompile "^Removing txt: \S+ for domain: (\S+)$".
Definition reAcmeShSigningStarted : Regexp := Eval vm_compute in MustCompile "^Verification finished, beginning signing\.$".
Definition reAcmeShCertSuccess : Regexp := Eval vm_compute in MustCompile "^Cert success\.$".
Definition reAcmeShInstalling : Regexp := Eval vm_compute in MustCompile "^Installing (?:cert|CA|full chain) to: ".

Definition acmeOpnRecord (env : Envelope) (event domain : string) : LogRecord :=
  newRecord env [("cert.source", "plugin"); ("cert.event", event); ("cert.domain", domain)].

Definition parseACMEOpnsense (env : Envelope) : option LogRecord :=
  let rec event l := Some (newRecord env ([("cert.source", "plugin"); ("cert.event", event)] ++ l)) in
  cases (Message env)
    [ (reAcmeOpnShellCommand, fun m =>
         rec "shell_command" [("cert.exit_code", group m 1); ("cert.result", if str_eq (group m 1) "0" then "success" else "failure")]);
      (reAcmeOpnRenewalNotRequired, fun m => Some (acmeOpnRecord env "renewal_not_required" (group m 1)));
      (reAcmeOpnRenewalRequired, fun m => Some (acmeOpnRecord env "renewal_required" (group m 1)));
      (reAcmeOpnIssueStarted, fun m => Some (acmeOpnRecord env "issue_started" (group m 1)));
      (reAcmeOpnIssueSucceeded, fun m => rec "issue_succeeded" [("cert.domain", group m 1); ("cert.result", "success")]);
      (reAcmeOpnConfigWiped, fun m => Some (acmeOpnRecord env "config_wiped" (group m 1)));
      (reAcmeOpnRemovalFailed, fun m => rec "removal_failed" [("cert.domain", group m 1); ("cert.result", "failure")]);
      (reAcmeOpnUsingCA, fun m => rec "ca_selected" [("cert.ca", group m 1)]);
      (reAcmeOpnAccountRegistered, fun _ => rec "account_registered" []);
      (reAcmeOpnChallengeType, fun m => rec "challenge_type_selected" [("cert.challenge_type", group m 1)]);
      (reAcmeOpnCAImported, fun m => rec "ca_imported" [("cert.ca", group m 1)]) ].

Definition parseACMEShellClient (env : Envelope) : option LogRecord :=
  let rec event l := Some (newRecord env ([("cert.source", "acme.sh"); ("cert.event", event)] ++ l)) in
  cases (strip acmeShTimestamp (Message env))
    [ (reAcmeShDomainSkipped, fun m => rec "domain_skipped" [("cert.domain", group m 1)]);
      (reAcmeShUsingCA, fun m => rec "ca_selected" [("cert.ca", group m 1)]);
      (reAcmeShRegistered, fun _ => rec "account_registered" []);
      (reAcmeShTXTAdded, fun m => rec "challenge_added" [("cert.challenge_domain", group m 1)]);
      (reAcmeShPending, fun m => rec "validation_pending" [("cert.attempt", group m 1); ("cert.attempt_max", group m 2)]);
      (reAcmeShSuccess, fun _ => rec "validation_succeeded" [("cert.result", "success")]);
      (reAcmeShTXTRemoved, fun m => rec "challenge_removed" [("cert.challenge_domain", group m 1)]);
      (reAcmeShSigningStarted, fun _ => rec "signing_started" []);
      (reAcmeShCertSuccess, fun _ => rec "cert_downloaded" [("cert.result", "success")]);
      (reAcmeShInstalling, fun _ => rec "cert_installed" []) ].

Definition parseACME (env : Envelope) (_ : option Enrich.Snapshot) : option LogRecord :=
  if str_eq (Program env) "opnsense" then parseACMEOpnsense env
  else if str_eq (Program env) "acme.sh" then parseACMEShellClient env
  else None.

(** ** The audit log *)

Section Geo.
  Context (geo : option (Addr -> GeoResult * bool)).

Definition auditConfigChange : Regexp := Eval vm_compute in MustCompile "^\s*user (\S+) changed configuration to (\S+) in (\S+)".
Definition configdAuthorization : Regexp := Eval vm_compute in MustCompile "^\s*action (allowed|denied) (\S+) for user (\S+)\s*$".
Definition configdRPC : Regexp := Eval vm_compute in
  MustCompile "^\s*\[([0-9a-fA-F]{8}-[0-9a-fA-F]{4}-[0-9a-fA-F]{4}-[0-9a-fA-F]{4}-[0-9a-fA-F]{12})\]\s+(\S.*)$".
Definition configdActionNotFound : Regexp := Eval vm_compute in MustCompile "^\s*action (\S+) not found for user (\S+)\s*$".
Definition configdMessageResult : Regexp := Eval vm_compute in
  MustCompile "^\s*message ([0-9a-fA-F]{8}-[0-9a-fA-F]{4}-[0-9a-fA-F]{4}-[0-9a-fA-F]{4}-[0-9a-fA-F]{12}) \[([^\]]*)\] returned\s*(.*)$".
Definition reWebGUIAuthBackend : Regexp := Eval vm_compute in
  MustCompile "^\s*user (\S+) (authenticated successfully|failed authentication|could not authenticate) for WebGui\b".
Definition reWebGUIIndexPHP : Regexp := Eval vm_compute in
  MustCompile "^\s*/index\.php: (Successful login for user|Web GUI authentication error for) '(\S+)' from:?\s+(\S+)\s*$".
Definition reWebGUISessionExpired : Regexp := Eval vm_compute in
  MustCompile "^\s*no active session, user not found \(called \x22([^\x22]+)\x22 @ (\S+)\)\s*$".
Definition configEventNewConfig : Regexp := Eval vm_compute in MustCompile "^\s*config-event: new_config (\S+)\s*$".
Definition configEventVersion : Regexp := Eval vm_compute in MustCompile "config-(\d+)\.\d+\.xml$".

Definition configd_result (r : string) : list (string * string) :=
  let r := TrimSpace r in
  if negb (str_empty r) && (String.length r <=? 32)%nat && negb (HasPrefix r "{") && negb (HasPrefix r "[") then [("configd.result", r)] else [].

Definition parseAudit (env : Envelope) (snap : option Enrich.Snapshot) : option LogRecord :=
  let rec l := Some (newRecord env l) in
  let peer addr := enrichEndpoint snap "src" addr "" "" ++ geoAttrs geo "src" addr in
  cases (Message env)
    [ (auditConfigChange, fun m =>
         rec [("event", "config_change"); ("config_user", group m 1); ("user.name", group m 1); ("config_revision", group m 2);
              ("config_uri", group m 3)]);
      (reWebGUIIndexPHP, fun m =>
         rec ([("event", "webgui_login"); ("audit.user", group m 2); ("user.name", group m 2);
               ("audit.result", if str_eq (group m 1) "Successful login for user" then "success" else "failure"); ("src.ip", group m 3)]
              ++ peer (group m 3)));
      (reWebGUIAuthBackend, fun m =>
         rec [("event", "webgui_auth_backend"); ("audit.user", group m 1); ("user.name", group m 1);
              ("audit.result", if str_eq (group m 2) "authenticated successfully" then "success" else "failure")]);
      (reWebGUISessionExpired, fun m =>
         rec ([("event", "webgui_session_expired"); ("audit.resource", group m 1); ("src.ip", group m 2)] ++ peer (group m 2)));
      (configdAuthorization, fun m =>
         let r := newRecord env [("event", "authorization"); ("audit.result", group m 1); ("audit.action", group m 2); ("audit.user", group m 3);
                                 ("user.name", group m 3)] in
         Some (if str_eq (group m 1) "denied" then r <| lSeverity := SeverityWarn |> else r));
      (configdRPC, fun m =>
         let cmd := TrimSpace (group m 2) in
         if str_empty cmd then None
         else rec [("event", "configd_rpc"); ("configd.task_id", group m 1); ("configd.command", cmd)]);
      (configdActionNotFound, fun m =>
         rec [("event", "authorization"); ("audit.result", "not_found"); ("audit.action", group m 1); ("audit.user", group m 2);
              ("user.name", group m 2)]);
      (configEventNewConfig, fun m =>
         rec ([("config.event", "new_config"); ("config.backup_path", group m 1)]
              ++ match FindStringSubmatch configEventVersion (group m 1) with Some v => [("config.version", group v 1)] | None => [] end));
      (configdMessageResult, fun m =>
         let cmd := TrimSpace (group m 2) in
         if str_empty cmd then None
         else rec ([("event", "configd_result"); ("configd.task_id", group m 1); ("configd.command", cmd)] ++ configd_result (group m 3))) ].

End Geo.

(** ** HAProxy *)

Definition haproxyServerStateRE : Regexp := Eval vm_compute in
  MustCompile ("^Server ([^/\s]+)/(\S+) is (UP|DOWN)" +:+ "(?:, reason: ([^,]+))?" +:+ "(?:, code: (\d+))?"
               +:+ "(?:, info: \x22([^\x22]*)\x22)?" +:+ "(?:, check duration: (\d+)ms)?").
Definition haproxyNoServerRE : Regexp := Eval vm_compute in MustCompile "^(?:backend|proxy) (\S+) has no server available!?$".
Definition haproxyConnectRE : Regexp := Eval vm_compute in
  MustCompile "^Connect from (.+):(\d+) to (.+):(\d+) \(([^/()]+)/([^()]+)\)$".
Definition haproxyHTTPLogRE : Regexp := Eval vm_compute in
  MustCompile ("^(\S+):(\d+) \[([^\]]+)\] (\S+) (\S+)/(\S+) "
               +:+ "([-+]?\d+)/([-+]?\d+)/([-+]?\d+)/([-+]?\d+)/([-+]?\d+) "
               +:+ "(\d{3}) ([-+]?\d+) (\S+) (\S+) (\S{4}) "
               +:+ "(\d+)/(\d+)/(\d+)/(\d+)/(\d+) (\d+)/(\d+)"
               +:+ "(?:\s+\{[^}]*\})*"
               +:+ "(?:\s+\x22([^\x22]*)\x22)?\s*$").
Definition haproxyRequestRE : Regexp := Eval vm_compute in MustCompile "^(\S+) (\S+)(?: (\S+))?$".

Definition haproxyStatusSeverity (status : string) : Severity :=
  match Otlp.Atoi status with
  | None => SeverityInfo
  | Some code => if 500 <=? code then SeverityError else if 400 <=? code then SeverityWarn else SeverityInfo
  end.

Definition parseHAProxyServerState (env : Envelope) (msg : string) : option LogRecord :=
  m ← FindStringSubmatch haproxyServerStateRE msg;
  let rec := newRecord env
    [("haproxy.event", "server_state"); ("haproxy.backend", group m 1); ("haproxy.server", group m 2);
     ("haproxy.state", Enrich.ToLower (group m 3)); ("haproxy.reason", TrimSpace (group m 4)); ("haproxy.check_code", group m 5);
     ("haproxy.info", group m 6); ("haproxy.check_duration_ms", group m 7)] in
  Some (rec <| lSeverity := if str_eq (Enrich.ToLower (group m 3)) "down" then SeverityWarn else SeverityInfo |>).

Definition parseHAProxyNoServer (env : Envelope) (msg : string) : option LogRecord :=
  m ← FindStringSubmatch haproxyNoServerRE msg;
  Some (newRecord env [("haproxy.event", "no_server_available"); ("haproxy.backend", group m 1); ("haproxy.state", "no-servers")]
          <| lSeverity := SeverityError |>).

Definition parseHAProxyConnect (env : Envelope) (msg : string) (snap : option Enrich.Snapshot) : option LogRecord :=
  m ← FindStringSubmatch haproxyConnectRE msg;
  Some (newRecord env
          ([("haproxy.event", "connect"); ("src.ip", group m 1); ("src.port", group m 2); ("dst.ip", group m 3); ("dst.port", group m 4);
            ("haproxy.frontend", group m 5); ("haproxy.mode", group m 6)]
           ++ enrichEndpoint snap "src" (group m 1) (group m 2) "tcp" ++ enrichEndpoint snap "dst" (group m 3) (group m 4) "tcp")
          <| lSeverity := SeverityInfo |>).

Definition parseHAProxyHTTPLog (env : Envelope) (msg : string) (snap : option Enrich.Snapshot) : option LogRecord :=
  m ← FindStringSubmatch haproxyHTTPLogRE msg;
  Some (newRecord env
          ([("haproxy.event", "http_request"); ("src.ip", group m 1); ("src.port", group m 2); ("haproxy.accept_date", group m 3);
            ("haproxy.frontend", group m 4); ("haproxy.backend", group m 5); ("haproxy.server", group m 6);
            ("haproxy.timers.tq_ms", group m 7); ("haproxy.timers.tw_ms", group m 8); ("haproxy.timers.tc_ms", group m 9);
            ("haproxy.timers.tr_ms", group m 10); ("haproxy.timers.tt_ms", group m 11); ("http.response.status_code", group m 12);
            ("bytes_read", group m 13); ("haproxy.termination_state", group m 16); ("haproxy.conn.actconn", group m 17);
            ("haproxy.conn.feconn", group m 18); ("haproxy.conn.beconn", group m 19); ("haproxy.conn.srv_conn", group m 20);
            ("haproxy.conn.retries", group m 21); ("haproxy.queue.server", group m 22); ("haproxy.queue.backend", group m 23)]
           ++ match FindStringSubmatch haproxyRequestRE (group m 24) with
              | Some req => [("http.request.method", group req 1); ("url.path", group req 2);
                             ("network.protocol.version", TrimPrefix (group req 3) "HTTP/")]
              | None => []
              end
           ++ enrichEndpoint snap "src" (group m 1) (group m 2) "tcp")
          <| lSeverity := haproxyStatusSeverity (group m 12) |>).

Definition parseHAProxy (env : Envelope) (snap : option Enrich.Snapshot) : option LogRecord :=
  let msg := TrimSpace (Message env) in
  if str_empty msg then None
  else if HasPrefix msg "Server " then parseHAProxyServerState env msg
  else if HasPrefix msg "backend " || HasPrefix msg "proxy " then parseHAProxyNoServer env msg
  else if HasPrefix msg "Connect from " then parseHAProxyConnect env msg snap
  else parseHAProxyHTTPLog env msg snap.

(** ** unbound *)

Definition reUnboundQuery : Regexp := Eval vm_compute in
  MustCompile "^\[\d+:\d+\]\s+info:\s+(\S+)\s+(\S+)\s+(\S+)@(\d+)\s+(\S+)\s+(\S+)\s+(\S+)\s*$".
Definition reUnboundServfail : Regexp := Eval vm_compute in
  MustCompile "^\[\d+:\d+\]\s+error:\s+SERVFAIL\s+<(\S+)\s+(\S+)\s+(\S+)>:\s+.*?,\s+at zone\s+(\S+)\s+from\s+(\S+)\s+(.*?)\s*$".
Definition reUnboundServfailCached : Regexp := Eval vm_compute in
  MustCompile "^\[\d+:\d+\]\s+error:\s+SERVFAIL\s+<(\S+)\s+(\S+)\s+(\S+)>:\s+SERVFAIL in cache\s*$".
Definition reDnsblUpdating : Regexp := Eval vm_compute in
  MustCompile "^\[\d+:(\d+)\]\s+info:\s+dnsbl_module:\s+updating blocklist\.\s*$".
Definition reDnsblLoaded : Regexp := Eval vm_compute in
  MustCompile "^\[\d+:(\d+)\]\s+info:\s+dnsbl_module:\s+blocklist loaded\. length is (\d+)\s*$".
Definition reDnsblParsed : Regexp := Eval vm_compute in
  MustCompile "^blocklist parsing done in ([\d.]+) seconds \((\d+) records\)\s*$".
Definition reDnsblPipeOpening : Regexp := Eval vm_compute in
  MustCompile "^\[\d+:(\d+)\]\s+info:\s+dnsbl_module:\s+attempting to open pipe\s*$".
Definition reDnsblPipeOpened : Regexp := Eval vm_compute in
  MustCompile "^\[\d+:(\d+)\]\s+info:\s+dnsbl_module:\s+successfully opened pipe\s*$".
Definition reDnsblBackendMissing : Regexp := Eval vm_compute in
  MustCompile "^\[\d+:(\d+)\]\s+info:\s+dnsbl_module:\s+no logging backend found\.\s*$".
Definition reDnsblPipeClosed : Regexp := Eval vm_compute in
  MustCompile "^\[\d+:(\d+)\]\s+info:\s+dnsbl_module:\s+Logging backend closed connection\. Closing pipe and continuing\.\s*$".
Definition reUnboundServiceStarted : Regexp := Eval vm_compute in
  MustCompile "^\[\d+:(\d+)\]\s+info:\s+start of service \(unbound ([\d.]+)\)\.\s*$".
Definition reUnboundServiceStopped : Regexp := Eval vm_compute in
  MustCompile "^\[\d+:(\d+)\]\s+info:\s+service stopped \(unbound ([\d.]+)\)\.\s*$".
Definition reUnboundPerQueryTag : Regexp := Eval vm_compute in MustCompile "^\[\d+:\d+\] (?:query|reply): ".

Definition isUnboundPerQueryLine (msg : string) : bool := MatchString reUnboundPerQueryTag msg.
Definition setOrDash (k v : string) : list (string * string) := if str_eq v "-" then [] else [(k, v)].

(** [perQuery] is the option [perQueryRouteEnabled] reads; the warning about two active
    routes is not modelled. *)
Definition parseUnbound (perQuery : bool) (env : Envelope) (snap : option Enrich.Snapshot) : option LogRecord :=
  let rec l := Some (newRecord env l) in
  let peer ip := enrichEndpoint snap "src" ip "" "" in
  if isUnboundPerQueryLine (Message env) && negb perQuery then None
  else
  cases (Message env)
    [ (Captured.reUnboundReplyLog, fun m =>
         rec ([("dns.event", "reply")] ++ setOrDash "dns.query_name" (group m 4) ++ setOrDash "dns.query_type" (group m 5)
              ++ setOrDash "dns.query_class" (group m 6) ++ setOrDash "dns.rcode" (group m 7)
              ++ setOrDash "dns.resolve_time_seconds" (group m 8)
              ++ (if str_eq (group m 9) "1" then [("dns.cached", "true")] else if str_eq (group m 9) "0" then [("dns.cached", "false")] else [])
              ++ setOrDash "dns.response_size_bytes" (group m 10) ++ [("src.ip", group m 3); ("unbound.thread", group m 2)] ++ peer (group m 3)
              ++ (if str_empty (group m 11) then []
                  else [("net.transport", group m 11); ("dst.ip", group m 12); ("dst.port", group m 13)])));
      (Captured.reUnboundQueryLog, fun m =>
         rec ([("dns.event", "query"); ("dns.query_name", group m 4); ("dns.query_type", group m 5); ("dns.query_class", group m 6);
               ("src.ip", group m 3); ("unbound.thread", group m 2)] ++ peer (group m 3)));
      (reUnboundServfail, fun m =>
         rec [("dns.query_name", group m 1); ("dns.query_type", group m 2); ("dns.query_class", group m 3); ("dns.rcode", "SERVFAIL");
              ("dns.error_zone", group m 4); ("dns.upstream", group m 5); ("dns.error", group m 6)]);
      (reUnboundServfailCached, fun m =>
         rec [("dns.query_name", group m 1); ("dns.query_type", group m 2); ("dns.query_class", group m 3); ("dns.rcode", "SERVFAIL");
              ("dns.cached", "true")]);
      (reUnboundQuery, fun m =>
         rec ([("dns.query_name", group m 5); ("dns.query_type", group m 6); ("dns.query_class", group m 7); ("dns.local_zone", group m 1);
               ("dns.local_action", group m 2); ("src.ip", group m 3); ("src.port", group m 4)] ++ peer (group m 3)));
      (reDnsblUpdating, fun m => rec [("dnsbl.event", "blocklist_updating"); ("unbound.thread", group m 1)]);
      (reDnsblLoaded, fun m => rec [("dnsbl.event", "blocklist_loaded"); ("dnsbl.entries", group m 2); ("unbound.thread", group m 1)]);
      (reDnsblParsed, fun m =>
         rec [("dnsbl.event", "blocklist_parsed"); ("dnsbl.parse_duration_seconds", group m 1); ("dnsbl.entries", group m 2)]);
      (reDnsblPipeOpening, fun m => rec [("dnsbl.event", "pipe_opening"); ("unbound.thread", group m 1)]);
      (reDnsblPipeOpened, fun m => rec [("dnsbl.event", "pipe_opened"); ("unbound.thread", group m 1)]);
      (reDnsblBackendMissing, fun m => rec [("dnsbl.event", "backend_missing"); ("unbound.thread", group m 1)]);
      (reDnsblPipeClosed, fun m => rec [("dnsbl.event", "pipe_closed"); ("unbound.thread", group m 1)]);
      (reUnboundServiceStarted, fun m =>
         rec [("dns.event", "service_started"); ("dns.version", group m 2); ("unbound.thread", group m 1)]);
      (reUnboundServiceStopped, fun m =>
         rec [("dns.event", "service_stopped"); ("dns.version", group m 2); ("unbound.thread", group m 1)]) ].

End Parsers2.
