(* ===== verification/DhcpParser.v ===== *)
(** * The DHCP servers' parser ([logship/syslog/dhcp.go], [dhcplfc.go])

    The lines of ISC dhcpd, of dnsmasq, of Kea and of its lease file cleanup. *)

From stdpp Require Import base decidable list gmap strings.
From Stdlib Require Import ZArith Lia Ascii.
From S2P Require Import Prelude Netip GoStrings Geo Enrich LogQueue OtlpSink Envelope Filterlog GoRegexp Registry Parsers.
Import Queue Envelope Filterlog Regexp Registry Parsers.

Module DhcpParser.

Definition iscActions : list (string * string) :=
  [("DHCPDISCOVER", "discover"); ("DHCPOFFER", "offer"); ("DHCPREQUEST", "request"); ("DHCPACK", "ack"); ("DHCPNAK", "nak");
   ("DHCPRELEASE", "release"); ("DHCPEXPIRE", "expire"); ("DHCPDECLINE", "decline"); ("DHCPINFORM", "inform")].
Definition keaActions : list (string * string) :=
  [("ALLOC", "alloc"); ("OFFER", "offer"); ("REUSE", "reuse"); ("RENEW", "request"); ("EXPIRE", "expire"); ("ADVERT", "advertise")].

Definition dnsmasqLineRE : Regexp := Eval vm_compute in MustCompile "^(DHCP[A-Z]+)\(([^)]*)\)\s*(.*)$".
Definition dnsmasqConflictRE : Regexp := Eval vm_compute in MustCompile "^not giving name (\S+) to the DHCP lease of (\S+)".
Definition dnsmasqAbandonRE : Regexp := Eval vm_compute in MustCompile "^abandoning lease to (\S+) of (\S+)".
Definition macRE : Regexp := Eval vm_compute in MustCompile "^(?:[0-9a-fA-F]{2}:){5}[0-9a-fA-F]{2}$".
Definition keaLevelRE : Regexp := Eval vm_compute in MustCompile "^(?:INFO|WARN|WARNING|ERROR|FATAL|DEBUG)\s+".
Definition keaLoggerRE : Regexp := Eval vm_compute in MustCompile "^\[[^\]]*\]\s+".
Definition keaMsgIDRE : Regexp := Eval vm_compute in MustCompile "^DHCP[46]_LEASE_([A-Z]+)$".
Definition keaPacketRE : Regexp := Eval vm_compute in MustCompile "^DHCP[46]_(PACKET_RECEIVED|PACKET_SEND|QUERY_LABEL)$".
Definition keaDUIDRE : Regexp := Eval vm_compute in MustCompile "duid=\[([0-9a-fA-F:]+)]".
Definition keaTIDRE : Regexp := Eval vm_compute in MustCompile "tid=(0x[0-9a-fA-F]+)".
Definition keaMsgTypeRE : Regexp := Eval vm_compute in MustCompile ":\s*([A-Z][A-Z0-9-]*)\s*$".
Definition keaCommandRE : Regexp := Eval vm_compute in MustCompile "command '([^']+)'".
Definition keaHWRE : Regexp := Eval vm_compute in MustCompile "\[hwtype=\d+\s+((?:[0-9a-fA-F]{2}:){5}[0-9a-fA-F]{2})]".
Definition keaLeaseRE : Regexp := Eval vm_compute in MustCompile "lease (?:for address )?([^\s,]+)".
Definition keaSecsRE : Regexp := Eval vm_compute in MustCompile "\bfor (\d+) (?:s|secs?|seconds?)\b".
Definition keaAllocFailV6RE : Regexp := Eval vm_compute in
  MustCompile "^ALLOC_ENGINE_V6_ALLOC_FAIL(|_SHARED_NETWORK|_SUBNET|_NO_POOLS|_CLASSES)$".
Definition keaAllocFailSubnetRE : Regexp := Eval vm_compute in MustCompile "in the subnet (\S+), subnet-id (\d+)".
Definition keaAllocFailClassesRE : Regexp := Eval vm_compute in MustCompile "with classes: (\S.*)$".
Definition keaReleaseNARE : Regexp := Eval vm_compute in MustCompile "^DHCP6_RELEASE_NA(_EXPIRED)?$".
Definition keaBindingAddrRE : Regexp := Eval vm_compute in MustCompile "binding for address (\S+) and iaid=(\d+)".
Definition keaEnvelopeRE : Regexp := Eval vm_compute in
  MustCompile "^(?:INFO|WARN|WARNING|ERROR|FATAL|DEBUG)\s+\[([^\]]+)\]\s+([A-Z][A-Z0-9_]*)\s*(.*)$".
Definition keaComponentSuffixRE : Regexp := Eval vm_compute in MustCompile "^(.*)\.0x[0-9a-fA-F]+$".
Definition keaLFCStatsRE : Regexp := Eval vm_compute in MustCompile "^Leases:\s*(\d+),\s*attempts:\s*(\d+),\s*errors:\s*(\d+)\.?$".

Definition keaAllocFailLines : list (string * string) :=
  [("_SUBNET", "subnet"); ("_SHARED_NETWORK", "shared_network"); ("_NO_POOLS", "no_pools"); ("", "exhausted"); ("_CLASSES", "classes")].
Definition keaAllocFailCountedReasons : list (string * string) := [("no_pools", "no_pools"); ("exhausted", "exhausted")].

Record dhcpFields := mkDhcp {
  daction : string; dip : string; dmac : string; hostname : string; diface : string; serverIP : string; leaseSeconds : string;
  duid : string; tid : string; messageType : string; keaCommand : string; keaEvent : string;
  allocFailLine : string; allocFailReason : string; allocFailSubnet : string; allocFailSubnetID : string; allocFailClasses : string;
  iaid : string; keaMsgID : string; keaComponent : string; keaLFCLeases : string; keaLFCAttempts : string; keaLFCErrors : string;
  keaLFCPhase : string }.
#[export] Instance eta_dhcpFields : Eta dhcpFields := fun f =>
  mkDhcp (daction f) (dip f) (dmac f) (hostname f) (diface f) (serverIP f) (leaseSeconds f) (duid f) (tid f) (messageType f)
    (keaCommand f) (keaEvent f) (allocFailLine f) (allocFailReason f) (allocFailSubnet f) (allocFailSubnetID f) (allocFailClasses f)
    (iaid f) (keaMsgID f) (keaComponent f) (keaLFCLeases f) (keaLFCAttempts f) (keaLFCErrors f) (keaLFCPhase f).

Definition noFields : dhcpFields := mkDhcp "" "" "" "" "" "" "" "" "" "" "" "" "" "" "" "" "" "" "" "" "" "" "" "".

Definition isMAC (s : string) : bool := MatchString macRE s.
Definition isIPAddr (s : string) : bool := bool_decide (is_Some (ParseAddr s)).

(** [if f.x == "" { f.x = v }] *)
Definition or_set (old v : string) : string := if str_empty old then v else old.

(** ** [strings.Fields] *)

Definition space_runes : ranges :=
  [(9, 13); (32, 32); (133, 133); (160, 160); (5760, 5760); (8192, 8202); (8232, 8233); (8239, 8239); (8287, 8287); (12288, 12288)].
Fixpoint fields_of (ts : list token) : string * list string :=
  match ts with
  | [] => ("", [])
  | (c, b) :: ts =>
      let '(cur, done) := fields_of ts in
      if in_ranges space_runes c then ("", if str_empty cur then done else cur :: done) else (b +:+ cur, done)
  end.
Definition Fields (s : string) : list string := let '(cur, done) := fields_of (runes s) in if str_empty cur then done else cur :: done.

(** ** ISC dhcpd *)

Definition first_word (msg : string) : string := (cut " " msg).1.
Definition isISCDHCPLine (msg : string) : bool := bool_decide (is_Some (word iscActions (first_word msg))).

Definition parenthesised (t : string) : option string :=
  if HasPrefix t "(" && HasSuffix t ")" then Some (TrimSuffix (TrimPrefix t "(") ")") else None.

Definition preposition (t : string) : bool := bool_decide (t ∈ ["on"; "for"; "of"; "to"; "from"]).

(** The loop over the tokens after the first. *)
Fixpoint isc_loop (tok : list string) (afterMAC : bool) (f : dhcpFields) : dhcpFields :=
  match tok with
  | [] => f
  | t :: tok' =>
      match parenthesised t with
      | Some v =>
          isc_loop tok' afterMAC
            (if isIPAddr v then f <| serverIP ::= fun x => or_set x v |>
             else if isMAC v then f <| dmac ::= fun x => or_set x v |>
             else if afterMAC && str_empty (hostname f) then f <| hostname := v |>
             else f)
      | None =>
          match tok' with
          | v :: tok'' =>
              if str_eq t "via" then isc_loop tok'' false (f <| diface := v |>)
              else if preposition t then
                if isMAC v then isc_loop tok'' true (f <| dmac ::= fun x => or_set x v |>)
                else if isIPAddr v then isc_loop tok'' false (f <| dip ::= fun x => or_set x v |>)
                else isc_loop tok' false f
              else isc_loop tok' false f
          | [] => f
          end
      end
  end.

Definition parseISCDHCP (msg : string) : option dhcpFields :=
  match Fields msg with
  | [] => None
  | t :: tok =>
      action ← word iscActions t;
      let f := isc_loop tok false (noFields <| daction := action |>) in
      if str_empty (dip f) && str_empty (dmac f) then None else Some f
  end.

(** ** dnsmasq *)

Definition dnsmasq_token (f : dhcpFields) (t : string) : dhcpFields :=
  if isMAC t then f <| dmac ::= fun x => or_set x t |>
  else if isIPAddr t then f <| dip ::= fun x => or_set x t |>
  else f <| hostname ::= fun x => or_set x t |>.

Definition parseDnsmasqDHCP (msg : string) : option dhcpFields :=
  m ← FindStringSubmatch dnsmasqLineRE msg;
  action ← word iscActions (group m 1);
  let f := fold_left dnsmasq_token (Fields (group m 3)) (noFields <| daction := action |> <| diface := group m 2 |>) in
  if str_empty (dip f) && str_empty (dmac f) then None else Some f.

Definition parseDnsmasqConflict (msg : string) : option dhcpFields :=
  m ← FindStringSubmatch dnsmasqConflictRE msg;
  let f := noFields <| daction := "name_conflict" |> <| hostname := group m 1 |> in
  Some (if isIPAddr (group m 2) then f <| dip := group m 2 |> else f).

Definition parseDnsmasqAbandon (msg : string) : option dhcpFields :=
  m ← FindStringSubmatch dnsmasqAbandonRE msg;
  let f := noFields <| daction := "abandoned" |> in
  let f := if isMAC (group m 1) then f <| dmac := group m 1 |> else f in
  let f := if isIPAddr (group m 2) then f <| dip := group m 2 |> else f in
  if str_empty (dip f) && str_empty (dmac f) then None else Some f.

(** ** Kea *)

Definition parseKeaEnvelope (msg : string) : option dhcpFields :=
  m ← FindStringSubmatch keaEnvelopeRE msg;
  let f := noFields <| keaMsgID := group m 2 |> in
  let f := f <| keaComponent := match FindStringSubmatch keaComponentSuffixRE (group m 1) with Some c => group c 1 | None => group m 1 end |> in
  Some (if str_eq (group m 2) "LFC_READ_STATS" || str_eq (group m 2) "LFC_WRITE_STATS" then
          match FindStringSubmatch keaLFCStatsRE (group m 3) with
          | Some s => f <| keaLFCLeases := group s 1 |> <| keaLFCAttempts := group s 2 |> <| keaLFCErrors := group s 3 |>
                        <| keaLFCPhase := if str_eq (group m 2) "LFC_READ_STATS" then "read" else "write" |>
          | None => f
          end
        else f).

(** The first group of a match, for a field. *)
Definition grab (re : Regexp) (s : string) : string := match FindStringSubmatch re s with Some m => group m 1 | None => "" end.

Definition kea_lease (rest : string) (m : list string) : option dhcpFields :=
  action ← word keaActions (group m 1);
  let ip := grab keaLeaseRE rest in
  let f := noFields <| daction := action |> <| dmac := grab keaHWRE rest |> <| dip := if isIPAddr ip then ip else "" |>
             <| leaseSeconds := grab keaSecsRE rest |> in
  if str_empty (dip f) && str_empty (dmac f) then None else Some f.

Definition kea_packet (rest : string) (m : list string) : option dhcpFields :=
  let f := noFields <| keaEvent := Enrich.ToLower (group m 1) |> <| duid := grab keaDUIDRE rest |> <| tid := grab keaTIDRE rest |>
             <| messageType := grab keaMsgTypeRE rest |> in
  if str_empty (duid f) && str_empty (messageType f) then None else Some f.

Definition kea_alloc_fail (rest : string) (m : list string) : option dhcpFields :=
  line ← word keaAllocFailLines (group m 1);
  let '(subnet, id) := match FindStringSubmatch keaAllocFailSubnetRE rest with Some s => (group s 1, group s 2) | None => ("", "") end in
  Some (noFields <| keaEvent := "alloc_fail" |> <| allocFailLine := line |>
          <| allocFailReason := default "" (word keaAllocFailCountedReasons line) |>
          <| duid := grab keaDUIDRE rest |> <| tid := grab keaTIDRE rest |>
          <| allocFailSubnet := subnet |> <| allocFailSubnetID := id |> <| allocFailClasses := grab keaAllocFailClassesRE rest |>).

Definition kea_release (rest : string) (m : list string) : option dhcpFields :=
  let f := noFields <| duid := grab keaDUIDRE rest |> <| tid := grab keaTIDRE rest |> in
  let f := match FindStringSubmatch keaBindingAddrRE rest with
           | Some b => if isIPAddr (group b 1) then f <| dip := group b 1 |> <| iaid := group b 2 |> else f
           | None => f
           end in
  let f := if str_empty (group m 1) then f <| daction := "release" |> else f <| keaEvent := "release_expired" |> in
  if str_empty (duid f) && str_empty (dip f) then None else Some f.

Definition parseKeaDHCP (msg : string) : option dhcpFields :=
  let s := strip keaLoggerRE (strip keaLevelRE msg) in
  let '(id, rest) := cut " " s in
  let rest := default "" rest in
  match cases id
    [ (keaMsgIDRE, fun m => Some (kea_lease rest m)); (keaPacketRE, fun m => Some (kea_packet rest m));
      (keaAllocFailV6RE, fun m => Some (kea_alloc_fail rest m)); (keaReleaseNARE, fun m => Some (kea_release rest m)) ]
  with
  | Some r => r
  | None =>
      match (if str_eq id "COMMAND_RECEIVED" then FindStringSubmatch keaCommandRE rest else None) with
      | Some c => Some (noFields <| keaEvent := "command_received" |> <| keaCommand := group c 1 |>)
      | None => parseKeaEnvelope msg
      end
  end.

(** ** The record *)

Definition dhcp_fields (msg : string) : option dhcpFields :=
  if MatchString dnsmasqConflictRE msg then parseDnsmasqConflict msg
  else if MatchString dnsmasqAbandonRE msg then parseDnsmasqAbandon msg
  else if MatchString dnsmasqLineRE msg then parseDnsmasqDHCP msg
  else if isISCDHCPLine msg then parseISCDHCP msg
  else parseKeaDHCP msg.

Definition dhcp_identity (snap : option Enrich.Snapshot) (f : dhcpFields) : list (string * string) :=
  match snap with
  | Some s =>
      if str_empty (dip f) then []
      else (if str_empty (hostname f) then found "dhcp.hostname" (Enrich.Hostname s (dip f)) else [])
           ++ (if str_empty (dmac f) then found "dhcp.mac" (Enrich.MAC s (dip f)) else [])
           ++ [("dhcp.scope", Enrich.Scope s (dip f))]
  | None => []
  end.

Definition parseDHCP (env : Envelope) (snap : option Enrich.Snapshot) : option LogRecord :=
  let msg := TrimSpace (Message env) in
  if str_empty msg then None
  else
    f ← dhcp_fields msg;
    Some (newRecord env
      ([("dhcp.action", daction f); ("dhcp.ip", dip f); ("dhcp.mac", dmac f); ("dhcp.hostname", hostname f); ("dhcp.server_ip", serverIP f);
        ("dhcp.lease_seconds", leaseSeconds f); ("interface", diface f); ("dhcp.duid", duid f); ("dhcp.tid", tid f);
        ("dhcp.message_type", messageType f); ("dhcp.kea_command", keaCommand f); ("dhcp.kea_event", keaEvent f);
        ("dhcp.alloc_fail_line", allocFailLine f); ("dhcp.alloc_fail_reason", allocFailReason f);
        ("dhcp.alloc_fail_subnet", allocFailSubnet f); ("dhcp.alloc_fail_subnet_id", allocFailSubnetID f);
        ("dhcp.alloc_fail_classes", allocFailClasses f); ("dhcp.iaid", iaid f); ("kea.msg_id", keaMsgID f);
        ("kea.component", keaComponent f); ("kea.lfc_leases", keaLFCLeases f); ("kea.lfc_attempts", keaLFCAttempts f);
        ("kea.lfc_errors", keaLFCErrors f); ("kea.lfc_phase", keaLFCPhase f)]
       ++ found "interface.name" (ifaceName snap (diface f)) ++ dhcp_identity snap f)).

Example isc_demo :
  option_map (fun f => (daction f, dip f, dmac f, hostname f, diface f))
    (dhcp_fields "DHCPACK on 192.168.1.50 to aa:bb:cc:dd:ee:ff (phone) via igb1")
  = Some ("ack", "192.168.1.50", "aa:bb:cc:dd:ee:ff", "phone", "igb1").
Proof. vm_compute. reflexivity. Qed.

End DhcpParser.
