(* ===== verification/Programs.v ===== *)
(** * The registered parsers ([init] of the parser files, [suricata.go], [action.go])

    The registry as the package's initialisation builds it, and Suricata's parser, whose
    JSON decoder is a parameter. *)

From stdpp Require Import base decidable list gmap strings.
From Stdlib Require Import ZArith Lia Ascii.
From S2P Require Import Prelude Netip GoStrings Geo Enrich LogQueue OtlpSink Envelope Filterlog GoRegexp Registry Captured Derive Parsers Parsers2 DhcpParser.
Import Queue Envelope Filterlog Registry Derive Parsers Parsers2.

Module Programs.

(** ** Suricata *)

Record eveAlert := mkAlert { aAction : string; SignatureID : Z; Signature : string; Category : string; aSeverity : Z }.
Record eveRecord := mkEve {
  EventType : string; SrcIP : string; SrcPort : Z; DestIP : string; DestPort : Z; Proto : string; InIface : string; Alert : option eveAlert }.

Definition MapSuricataAction (v : string) : string :=
  if str_eq v "allowed" then ActionPass else if str_eq v "blocked" then ActionBlock else "".

Definition eveProto (p : string) : string := Enrich.ToLower p.

Definition nonzero (k : string) (n : Z) : list (string * string) := if n =? 0 then [] else [(k, FormatInt n)].

Section Programs.
(** [json.Unmarshal] into an [eveRecord], the GeoIP database when it is configured, and
    the option for the resolver's per-query lines. *)
Context (unmarshal : string -> option eveRecord) (geo : option (Addr -> GeoResult * bool)) (perQuery : bool).

Definition alert_attrs (a : eveAlert) : list (string * string) :=
  [("signature", Signature a); ("alert_action", aAction a); (Otlp.AttrAction, MapSuricataAction (aAction a)); ("alert_category", Category a)]
  ++ nonzero "alert_sid" (SignatureID a) ++ nonzero "alert_severity" (aSeverity a).

Definition parseSuricata (env : Envelope) (snap : option Enrich.Snapshot) : option LogRecord :=
  if negb (HasPrefix (Message env) "{") then None
  else
    e ← unmarshal (Message env);
    if str_empty (EventType e) then None
    else
      let rec := newRecord env
        ([("event_type", EventType e); ("src_ip", SrcIP e); ("dest_ip", DestIP e); ("proto", Proto e); ("in_iface", InIface e)]
         ++ nonzero "src_port" (SrcPort e) ++ nonzero "dest_port" (DestPort e)
         ++ match Alert e with Some a => alert_attrs a | None => [] end
         ++ enrichEndpoint snap "src" (SrcIP e) (FormatInt (SrcPort e)) (eveProto (Proto e))
         ++ enrichEndpoint snap "dst" (DestIP e) (FormatInt (DestPort e)) (eveProto (Proto e))
         ++ geoAttrs geo "src" (SrcIP e) ++ geoAttrs geo "dst" (DestIP e)) in
      Some (match Alert e with
            | Some a => if str_eq (aAction a) "blocked" then rec <| lSeverity := SeverityWarn |> else rec
            | None => rec
            end).

(** ** Registration *)

(** The parsers that are registered. *)
Inductive parser_id :=
| ACME | Audit | Charon | Cron | DHCPClient | DHCP | DHCP6C | DPinger | FilterLog | FirewallAlias | FreeRADIUS | HAProxy | Kernel
| MiniUPnPd | Netbird | OpenVPN | PPP | Radvd | RuleUpdater | SSHD | Sudo | Suricata | SyslogNG | Tailscaled | Unbound | WireGuard.

Definition parser_of (id : parser_id) : Parser :=
  match id with
  | ACME => stateless parseACME
  | Audit => stateless (parseAudit geo)
  | Charon => stateless parseCharon
  | Cron => stateless parseCron
  | DHCPClient => parseDHCPClient
  | DHCP => stateless DhcpParser.parseDHCP
  | DHCP6C => parseDHCP6C
  | DPinger => stateless parseDPinger
  | FilterLog => filterlog_parser geo
  | FirewallAlias => stateless parseFirewallAlias
  | FreeRADIUS => stateless parseFreeRADIUS
  | HAProxy => stateless parseHAProxy
  | Kernel => stateless parseKernel
  | MiniUPnPd => stateless parseMiniUPnPd
  | Netbird => stateless parseNetbird
  | OpenVPN => stateless parseOpenVPN
  | PPP => stateless parsePPP
  | Radvd => stateless parseRadvd
  | RuleUpdater => stateless parseRuleUpdater
  | SSHD => stateless (parseSSHD geo)
  | Sudo => stateless parseSudo
  | Suricata => stateless parseSuricata
  | SyslogNG => stateless parseSyslogNG
  | Tailscaled => stateless parseTailscaled
  | Unbound => stateless (parseUnbound perQuery)
  | WireGuard => stateless parseWireGuard
  end.
End Programs.

(** Which function a file's [init] calls. *)
Inductive how := Exact | ExactBody | PrefixBody.

Definition register (h : how) : Parser -> list string -> registry -> option registry :=
  match h with
  | Exact => RegisterParser
  | ExactBody => RegisterParserWithBodyEnrichment
  | PrefixBody => RegisterParserPrefixWithBodyEnrichment
  end.

(** The calls, in the order of the files. *)
Definition registrations : list (how * parser_id * list string) :=
  [ (Exact, ACME, ["acme.sh"; "opnsense"]);
    (Exact, Audit, ["audit"; "configd.py"; "config"]);
    (ExactBody, Charon, ["charon"]);
    (Exact, Cron, ["cron"; "/usr/sbin/cron"]);
    (ExactBody, DHCPClient, ["dhclient"]);
    (Exact, DHCP, ["dhcpd"; "dnsmasq"; "dnsmasq-dhcp"; "kea-dhcp4"; "kea-dhcp6"; "dhcrelay"; "DhcpLFC"]);
    (ExactBody, DHCP6C, ["dhcp6c"]);
    (Exact, DPinger, ["dpinger"]);
    (Exact, FilterLog, ["filterlog"]);
    (Exact, FirewallAlias, ["firewall"]);
    (Exact, FreeRADIUS, ["radiusd"]);
    (Exact, HAProxy, ["haproxy"]);
    (ExactBody, Kernel, ["kernel"]);
    (ExactBody, MiniUPnPd, ["miniupnpd"]);
    (ExactBody, Netbird, [netbirdDaemonProgram]);
    (PrefixBody, OpenVPN, ["openvpn"]);
    (Exact, PPP, ["ppp"]);
    (Exact, Radvd, ["radvd"]);
    (Exact, RuleUpdater, ["rule-updater.py"]);
    (Exact, SSHD, ["sshd"; "sshd-session"]);
    (Exact, Sudo, ["sudo"]);
    (Exact, Suricata, ["suricata"]);
    (Exact, SyslogNG, ["syslog-ng"]);
    (ExactBody, Tailscaled, ["tailscaled"]);
    (Exact, Unbound, ["unbound"]);
    (ExactBody, WireGuard, ["wireguard"]) ].

Definition noParsers : registry := mkRegistry ∅ ∅ ∅ ∅.

(** The package's initialisation; [None] is a panic. *)
Definition init_parsers (f : parser_id -> Parser) : option registry :=
  fold_left (fun r '(h, id, names) => r ← r; register h (f id) names r) registrations (Some noParsers).

Definition exact_table : list (string * parser_id) :=
  concat (map (fun '(h, id, names) => match h with PrefixBody => [] | _ => map (fun n => (n, id)) names end) registrations).
Definition body_programs : list string :=
  concat (map (fun '(h, _, names) => match h with ExactBody => names | _ => [] end) registrations).

(** Initialisation does not panic, and binds every program to its parser. *)
Lemma init_parsers_ok f : init_parsers f =
  Some (mkRegistry (list_to_map (map (fun '(k, id) => (k, f id)) exact_table)) {["openvpn" := f OpenVPN]} (mark body_programs ∅) (mark ["openvpn"] ∅)).
Proof. vm_compute. reflexivity. Qed.

(** ** Family decisions *)

Definition nonDerivedPrograms : list string :=
  ["cron"; "/usr/sbin/cron"; "radvd"; "unbound"; "firewall"; "acme.sh"; "DhcpLFC"; "syslog-ng"; "config"; "rule-updater.py"; "sudo";
   "wireguard"; "tailscaled"; netbirdDaemonProgram].

(** Every program with a parser has a family, or is listed as having none. *)
Lemma family_decided : Forall (fun '(k, _) => xorb (bool_decide (is_Some (programFamily !! k))) (bool_decide (k ∈ nonDerivedPrograms)) = true) exact_table.
Proof. repeat (constructor; [vm_compute; reflexivity|]). constructor. Qed.

End Programs.
