(* ===== verification/Labels.v ===== *)
(** * The labels of derived metrics are closed

    Whatever arrives on the wire, the attributes that become metric labels hold words of
    vocabularies written in the source: the composition of the parsers, the captured
    rules, the enrichment and [observeDerived]. *)

From stdpp Require Import base decidable list gmap strings.
From Stdlib Require Import ZArith Lia Ascii.
From S2P Require Import Prelude Netip GoStrings Geo Enrich DnsCache GoTime LogQueue OtlpSink Envelope Filterlog GoRegexp Registry Captured Derive Receiver Parsers Parsers2 DhcpParser Programs.
Import GoTime Queue Envelope Filterlog Regexp Registry Captured Derive Receiver Parsers Parsers2 Programs.

Module Labels.

(** ** Vocabularies *)

(** Programs that write the tunnel attributes and are not counted. *)
Definition uncounted_tunnels : list string := ["wireguard"; "tailscaled"; netbirdDaemonProgram].

Definition vpn_backends (program : string) : list string :=
  if bool_decide (program ∈ uncounted_tunnels) then ["wireguard"; "tailscale"; "netbird"] else ["ipsec"; "openvpn"].

Definition words : list (string * list string) :=
  [ (Otlp.AttrAction, ["pass"; "block"]);
    ("haproxy.event", ["server_state"; "no_server_available"; "connect"; "http_request"]);
    ("haproxy.state", ["up"; "down"; "no-servers"]);
    ("auth.result", ["accepted"; "failed"; "invalid-user"; "disconnected"; "allowed"]);
    ("dhcp.action", ["discover"; "offer"; "request"; "ack"; "nak"; "release"; "expire"; "decline"; "inform"; "alloc"; "reuse"; "advertise";
                     "name_conflict"; "abandoned"]);
    ("dhcp.alloc_fail_reason", ["no_pools"; "exhausted"]);
    ("event", ["config_change"; "webgui_login"; "webgui_auth_backend"; "webgui_session_expired"; "authorization"; "configd_rpc"; "configd_result"]);
    ("audit.result", ["success"; "failure"; "allowed"; "denied"; "not_found"]);
    ("gateway.event", ["alarm_started"; "alarm_cleared"; "alarm_changed"; "watcher_stopped"; "watcher_reloaded"; "watcher_started"]);
    ("radius.event", ["access"]); ("radius.result", ["accepted"; "rejected"]); ("radius.client_scope", ["configured"]);
    ("vpn.event", ["established"; "terminated"; "authentication_failed"; "liveness_failed"; "certificate_failed"]);
    ("vpn.result", ["success"; "failure"]);
    ("carp.event", ["state_changed"; "demoted"; "promoted"]);
    ("carp.state.previous", ["master"; "backup"; "init"]); ("carp.state.current", ["master"; "backup"; "init"]);
    ("upnp.event", ["expired"; "cleanup_failed"; "unauthorized"; "lease_file_error"]); ("upnp.result", ["ok"; "failure"]);
    ("upnp.protocol", ["tcp"; "udp"]);
    ("dhcp_client.type", ["discover"; "request"; "ack"; "nak"; "offer"; "decline"; "release"; "inform"]);
    ("dhcp_client.script.reason", ["medium"; "preinit"; "arpcheck"; "arpsend"; "bound"; "renew"; "rebind"; "reboot"; "expire"; "fail"; "timeout";
                                   "stop"; "release"; "nbi"]);
    ("dhcp6c.direction", ["sent"; "received"]);
    ("dhcp6c.type", ["solicit"; "request"; "renew"; "rebind"; "release"; "information_request"]);
    ("dhcp6c.event", ["prefix_created"; "prefix_updated"; "address_added"; "address_removed"; "script_executing"; "script_connected";
                      "script_prefix_updated"; "script_ignored"; "address_lease_created"; "address_lease_updated"; "address_lease_removed"]);
    ("dhcp6c.script.reason", ["solicit"; "request"; "renew"; "rebind"; "release"; "information_request"; "exit"]) ].

Fixpoint lookup_words (l : list (string * list string)) (k : string) : option (list string) :=
  match l with [] => None | (k', vs) :: l => if str_eq k' k then Some vs else lookup_words l k end.

Definition vocab (program k : string) : option (list string) :=
  if str_eq k "vpn.backend" then Some (vpn_backends program) else lookup_words words k.

(** An attribute holds a word of its vocabulary, if it has one. *)
Definition kv_ok (p : string) (kv : string * string) : Prop := forall vs, vocab p kv.1 = Some vs -> kv.2 ∈ "" :: vs.
Definition attrs_ok (p : string) (m : gmap string string) : Prop := forall k vs, vocab p k = Some vs -> attr m k ∈ "" :: vs.

Lemma kv_none p k v : vocab p k = None -> kv_ok p (k, v).
Proof. intros H vs. cbn. by rewrite H. Qed.
Lemma kv_some p k v vs : vocab p k = Some vs -> v ∈ "" :: vs -> kv_ok p (k, v).
Proof. intros H Hv vs'. cbn. rewrite H. by intros [= <-]. Qed.

Lemma empty_ok p : attrs_ok p ∅.
Proof. intros k vs _. unfold attr. rewrite lookup_empty. constructor. Qed.

Lemma insert_label_ok p k v m : kv_ok p (k, v) -> attrs_ok p m -> attrs_ok p (<[k := v]> m).
Proof.
  intros Hv Hm k' vs Hk. unfold attr. destruct (decide (k = k')) as [<-|]; [rewrite lookup_insert_eq; by apply Hv|].
  rewrite lookup_insert_ne by done. by apply Hm.
Qed.

Lemma set_ok p kv m : kv_ok p kv -> attrs_ok p m -> attrs_ok p (set m kv).
Proof. intros Hv Hm. unfold set. destruct (str_empty kv.2); [done|]. apply insert_label_ok; [by destruct kv|done]. Qed.

Lemma fold_set_ok p l : forall m, Forall (kv_ok p) l -> attrs_ok p m -> attrs_ok p (fold_left set l m).
Proof. induction l as [|kv l IH]; intros m Hl Hm; [done|]. inv Hl. cbn. apply IH; [done|]. by apply set_ok. Qed.

Lemma sets_ok p l rec : Forall (kv_ok p) l -> attrs_ok p (Attributes rec) -> attrs_ok p (Attributes (sets l rec)).
Proof. intros Hl Hr. by apply fold_set_ok. Qed.

(** Keys without a vocabulary. *)
Lemma keys_ok p l keys : map fst l `sublist_of` keys -> Forall (fun k => forall p, vocab p k = None) keys -> Forall (kv_ok p) l.
Proof.
  intros Hs Hk. apply Forall_forall. intros [k v] Hin. apply kv_none. rewrite Forall_forall in Hk. apply (Hk k).
  eapply elem_of_sublist; [|exact Hs]. apply list_elem_of_In, in_map_iff. exists (k, v). split; [done|by apply list_elem_of_In].
Qed.

Ltac no_vocab := repeat (constructor; [intros ?; reflexivity|]); constructor.

Lemma found_ok p k v : (forall p, vocab p k = None) -> Forall (kv_ok p) (found k v).
Proof. intros H. eapply keys_ok; [apply found_keys|]. by constructor. Qed.

Lemma endpoint_ok p snap side ip port proto : side = "src" \/ side = "dst" -> Forall (kv_ok p) (enrichEndpoint snap side ip port proto).
Proof. intros [-> | ->]; (eapply keys_ok; [apply endpoint_sub|no_vocab]). Qed.

Lemma geo_ok p geo side ip : side = "src" \/ side = "dst" -> Forall (kv_ok p) (geoAttrs geo side ip).
Proof. intros [-> | ->]; (eapply keys_ok; [apply geo_sub|no_vocab]). Qed.

Lemma generic_ok p env : attrs_ok p (Attributes (genericRecord env)).
Proof.
  unfold genericRecord. cbn [Attributes]. apply insert_label_ok; [by apply kv_none|]. apply insert_label_ok; [by apply kv_none|].
  apply fold_set_ok; [|apply empty_ok]. repeat (constructor; [by apply kv_none|]). constructor.
Qed.

Lemma new_label_ok p env l : Forall (kv_ok p) l -> attrs_ok p (Attributes (newRecord env l)).
Proof. intros H. apply sets_ok; [done|apply generic_ok]. Qed.

Lemma warn_ok p b rec : attrs_ok p (Attributes rec) -> attrs_ok p (Attributes (Warn_if b rec)).
Proof. intros H. unfold Warn_if. by destruct (b && _). Qed.

Lemma severity_ok p (f : Severity -> Severity) rec : attrs_ok p (Attributes rec) -> attrs_ok p (Attributes (rec <| lSeverity ::= f |>)).
Proof. done. Qed.

(** ** Words *)

Lemma word_in table w v : word table w = Some v -> v ∈ map snd table.
Proof.
  induction table as [|[k x] table IH]; [done|]. cbn. destruct (str_eq k w); intros H; [simplify_eq; constructor|].
  apply elem_of_cons. right. by apply IH.
Qed.

Lemma word_sub table w v vs : word table w = Some v -> bool_decide (map snd table ⊆ vs) = true -> v ∈ "" :: vs.
Proof. intros H Hs. apply bool_decide_eq_true in Hs. apply elem_of_cons. right. apply Hs. by eapply word_in. Qed.

Lemma word_default table w vs : bool_decide (map snd table ⊆ vs) = true -> default "" (word table w) ∈ "" :: vs.
Proof. intros Hs. destruct (word table w) as [v|] eqn:E; [by eapply word_sub|constructor]. Qed.

(** A group whose pattern lists its words. *)
Lemma group_in re msg m i ws vs : FindStringSubmatch re msg = Some m -> (1 <= i <= groups re)%nat -> cap_lang i (prog re) = Some ws ->
  lits_ascii (prog re) = true -> bool_decide (ws ⊆ vs) = true -> group m i ∈ "" :: vs.
Proof. intros Hm Hi Hw Ha Hs. apply bool_decide_eq_true in Hs. 
  pose proof (group_words _ _ _ _ _ Hm Hi Hw Ha) as H. apply elem_of_cons in H as [->|H]; [constructor|]. apply elem_of_cons. right. by apply Hs.
Qed.

Ltac member := lazymatch goal with
  | |- String _ _ ∈ _ => apply (bool_decide_unpack _); vm_compute; exact I
  | |- "" ∈ _ => constructor
  | |- default "" (word _ _) ∈ _ => apply word_default; vm_compute; reflexivity
  | H : word _ _ = Some ?v |- ?v ∈ _ => eapply word_sub; [exact H|vm_compute; reflexivity]
  | H : FindStringSubmatch _ _ = Some ?m |- group ?m _ ∈ _ =>
      eapply (group_in _ _ _ _ _ _ H); [vm_compute; lia|vm_compute; reflexivity|vm_compute; reflexivity|vm_compute; reflexivity]
  | |- (if ?b then _ else _) ∈ _ => destruct b; member
  | |- match ?o with Some _ => _ | None => _ end ∈ _ => destruct o; member
  end.

(** One pair of a list of attributes. *)
Ltac kv := first [apply kv_none; reflexivity | eapply kv_some; [reflexivity|member]].

Lemma zip_ok p names vs : Forall (fun k => forall p, vocab p k = None) names -> Forall (kv_ok p) (zip names vs).
Proof. intros H. revert vs. induction H as [|k names Hk _ IH]; intros [|v vs]; cbn; constructor; [by apply kv_none|apply IH]. Qed.

Lemma lease_ok p env names secs : Forall (fun k => forall p, vocab p k = None) names -> Forall (kv_ok p) (lease_times env names secs).
Proof. intros H. unfold lease_times. destruct (mapM _ _); [|constructor]. destruct (IsZero _); [constructor|by apply zip_ok]. Qed.

Lemma Forall_filter_stdlib {A} (P : A -> Prop) f l : Forall P l -> Forall P (List.filter f l).
Proof. induction 1; cbn; [done|]. case_match; auto. Qed.

Ltac attrs := repeat lazymatch goal with
  | |- Forall _ [] => apply Forall_nil_2
  | |- Forall _ (_ ++ _) => apply Forall_app_2
  | |- Forall _ (_ :: _) => apply Forall_cons_2; [kv|]
  | |- Forall _ (enrichEndpoint _ _ _ _ _) => apply endpoint_ok; auto
  | |- Forall _ (geoAttrs _ _ _) => apply geo_ok; auto
  | |- Forall _ (found _ _) => apply found_ok; intros; reflexivity
  | |- Forall _ (lease_times _ _ _) => apply lease_ok; no_vocab
  | |- Forall _ (if ?b then _ else _) => destruct b
  | |- Forall _ (match ?o with Some _ => _ | None => _ end) => destruct o
  end.

(** ** The parsers *)

(** What is returned, if anything is, has a property. *)
Definition holds {A} (P : A -> Prop) (o : option A) : Prop := forall a, o = Some a -> P a.
Abbreviation good p := (holds (fun rec => attrs_ok p (Attributes rec))).

Lemma holds_some {A} (P : A -> Prop) a : P a -> holds P (Some a).
Proof. by intros H b [= <-]. Qed.
Lemma holds_none {A} (P : A -> Prop) : holds P None.
Proof. done. Qed.
Lemma holds_bind {A B} (P : B -> Prop) (o : option A) k : (forall a, o = Some a -> holds P (k a)) -> holds P (o ≫= k).
Proof. intros H. destruct o; [by apply H|done]. Qed.
Lemma holds_or_else P a b : holds P a -> holds P b -> holds P (or_else a b).
Proof. unfold or_else. by destruct a. Qed.
Lemma holds_cases {A} (P : A -> Prop) msg l : Forall (fun c : Regexp * (list string -> option A) =>
  forall m, FindStringSubmatch c.1 msg = Some m -> holds P (c.2 m)) l -> holds P (cases msg l).
Proof.
  induction 1 as [|[re k] l Hc _ IH]; [done|]. cbn [cases]. destruct (FindStringSubmatch re msg) as [m|] eqn:E; [by apply Hc|done].
Qed.

(** The result of a parser, on every path. *)
Ltac good := cbv zeta; repeat lazymatch goal with
  | |- holds _ None => apply holds_none
  | |- holds _ (Some _) => apply holds_some; cbv beta
  | |- attrs_ok _ (Attributes (Warn_if _ _)) => apply warn_ok
  | |- attrs_ok _ (Attributes (newRecord _ _)) => apply new_label_ok; attrs
  | |- attrs_ok _ (Attributes (update (proj := lSeverity) _ _)) => apply severity_ok
  | |- attrs_ok _ (Attributes (if ?b then _ else _)) => destruct b
  | |- attrs_ok _ (Attributes (match ?o with Some _ => _ | None => _ end)) => destruct o
  | H : ?x = Some ?r |- attrs_ok ?p (Attributes ?r) => revert r H; change (good p x)
  | |- holds _ (or_else _ _) => apply holds_or_else
  | |- holds _ (_ ≫= _) => apply holds_bind; intros ? ?
  | |- holds _ (cases _ _) => apply holds_cases; repeat (apply Forall_cons_2; [cbn [fst snd]; intros ? ?|]); [..|apply Forall_nil_2]
  | |- holds _ (if ?b then _ else _) => destruct b
  | |- holds _ (match ?o with Some _ => _ | None => _ end) => destruct o eqn:?
  end.

Section Parsers.
Context (geo : option (Addr -> GeoResult * bool)) (p : string) (env : Envelope) (snap : option Enrich.Snapshot).

Lemma kernel_good : good p (parseKernel env snap).
Proof. unfold parseKernel, parseCARP, parseNetmap, parseARPMove, parsePromiscuous, carpDemotionEvent. good. Qed.

Lemma upnp_good : good p (parseMiniUPnPd env snap).
Proof. unfold parseMiniUPnPd. good. Qed.
Lemma radius_good : good p (parseFreeRADIUS env snap).
Proof. unfold parseFreeRADIUS. good. Qed.
Lemma dpinger_good : good p (parseDPinger env snap).
Proof. unfold parseDPinger, dpingerRecord, dpinger_event. good. Qed.
Lemma ppp_good : good p (parsePPP env snap).
Proof. unfold parsePPP, ppp_bracketed, setPPPScope. good. Qed.
Lemma cron_good : good p (parseCron env snap).
Proof. unfold parseCron. good. Qed.
Lemma radvd_good : good p (parseRadvd env snap).
Proof. unfold parseRadvd. good. Qed.
Lemma sudo_good : good p (parseSudo env snap).
Proof. unfold parseSudo, sudo_record. good. Qed.
Lemma alias_good : good p (parseFirewallAlias env snap).
Proof. unfold parseFirewallAlias. good. Qed.
Lemma updater_good : good p (parseRuleUpdater env snap).
Proof. unfold parseRuleUpdater. good. Qed.
Lemma syslogng_good : good p (parseSyslogNG env snap).
Proof. unfold parseSyslogNG. good. Qed.
Lemma acme_good : good p (parseACME env snap).
Proof. unfold parseACME, parseACMEOpnsense, parseACMEShellClient, acmeOpnRecord. good. Qed.
Lemma unbound_good perQuery : good p (parseUnbound perQuery env snap).
Proof. unfold parseUnbound, setOrDash. good. Qed.
Lemma sshd_good : good p (parseSSHD geo env snap).
Proof.
  unfold parseSSHD. apply holds_bind. intros f Hf. apply holds_some; apply warn_ok, new_label_ok.
  assert (sResult f ∈ "" :: ["accepted"; "failed"; "invalid-user"; "disconnected"; "allowed"]) as Hr.
  { revert f Hf. change (holds (fun f => sResult f ∈ "" :: ["accepted"; "failed"; "invalid-user"; "disconnected"; "allowed"]) (sshd_fields (Message env))).
    unfold sshd_fields. good; repeat case_match; good; cbn [sResult]; member. }
  apply Forall_cons_2; [eapply kv_some; [reflexivity|exact Hr]|]. attrs.
Qed.

Lemma audit_good : good p (parseAudit geo env snap).
Proof.
  unfold parseAudit, configd_result. good.
Qed.

Lemma haproxy_state m msg : FindStringSubmatch haproxyServerStateRE msg = Some m -> Enrich.ToLower (group m 3) ∈ ["" ; "up"; "down"; "no-servers"].
Proof.
  intros H. assert (group m 3 ∈ "" :: ["UP"; "DOWN"]) as Hg by member. apply list_elem_of_In in Hg. cbn in Hg.
  destruct Hg as [<-|[<-|[<-|[]]]]; vm_compute; set_solver.
Qed.

Lemma haproxy_good : good p (parseHAProxy env snap).
Proof.
  unfold parseHAProxy, parseHAProxyServerState, parseHAProxyNoServer, parseHAProxyConnect, parseHAProxyHTTPLog. good.
  apply Forall_cons_2; [eapply kv_some; [reflexivity|by eapply haproxy_state]|]. attrs.
Qed.

Lemma vpn_ok backend er : backend ∈ vpn_backends p -> er.1 ∈ ["established"; "terminated"; "authentication_failed"; "liveness_failed"; "certificate_failed"] ->
  er.2 ∈ ["success"; "failure"] -> attrs_ok p (Attributes (vpn_record env backend er)).
Proof.
  intros Hb He Hr. apply new_label_ok. repeat (apply Forall_cons_2; [eapply kv_some; [reflexivity|by apply elem_of_cons; right]|]). apply Forall_nil_2.
Qed.

Ltac vpn := repeat lazymatch goal with
  | |- attrs_ok _ (Attributes (vpn_record _ _ _)) => apply vpn_ok; [done|cbn [fst]; try case_match; set_solver|cbn; set_solver]
  | _ => progress good
  end.

Lemma charon_good : "ipsec" ∈ vpn_backends p -> good p (parseCharon env snap).
Proof. intros Hp. unfold parseCharon, vpn_cases. cbn [map]. vpn. Qed.
Lemma openvpn_good : "openvpn" ∈ vpn_backends p -> good p (parseOpenVPN env snap).
Proof. intros Hp. unfold parseOpenVPN, vpn_cases. cbn [map]. vpn. Qed.
Lemma wireguard_good : "wireguard" ∈ vpn_backends p -> good p (parseWireGuard env snap).
Proof. intros Hp. unfold parseWireGuard. vpn. Qed.
Lemma tailscale_good : "tailscale" ∈ vpn_backends p -> good p (parseTailscaled env snap).
Proof. intros Hp. unfold parseTailscaled. vpn. Qed.
Lemma netbird_good : "netbird" ∈ vpn_backends p -> good p (parseNetbird env snap).
Proof. intros Hp. unfold parseNetbird. vpn. Qed.

(** The parsers with a memory. *)
Abbreviation keeps := (holds (fun r : LogRecord * option string => attrs_ok p (Attributes r.1))).
Abbreviation kept := (holds keeps).

(** What is done with the outcome does not touch the record. *)
Lemma kept_good {G} x (f : string -> G) (g : G) : kept x ->
  good p (match x with Some (Some (rec, Some i)) => (Some rec, f i) | Some (Some (rec, None)) => (Some rec, g) | _ => (None, g) end).1.
Proof. intros H. destruct x as [[[rec o]|]|]; [|done|done]. pose proof (H _ eq_refl _ eq_refl). destruct o; by apply holds_some. Qed.

Lemma client_good g : good p (parseDHCPClient env snap g).1.
Proof. apply kept_good. unfold dhcpClientBoundRecord. good; cbn [fst]; good. Qed.

Lemma client6_good g : good p (parseDHCP6C env snap g).1.
Proof.
  apply kept_good. unfold dhcp6cPrefixRecord, dhcp6cAddressLeaseRecord, setDHCP6CInterface.
  match goal with |- kept (match ?c with _ => _ end) => assert (kept c) as H by (good; cbn [fst]; good); destruct c; [by intros x [= <-]; apply H|clear H] end.
  good; cbn [fst]; good.
Qed.

(** A row of the filter. *)
Lemma filterlog_good g : good p (filterlog_parser geo env snap g).1.
Proof.
  unfold filterlog_parser, parseFilterlog. destruct (split_header _) as [[h rest]|]; [|done]. cbn [mbind option_bind].
  destruct (ip_body _ _) as [b|]; [|done]. cbn [mbind option_bind].
  assert (attrs_ok p (fold_left set (row_attrs geo snap h b) ∅)) as H; [|destruct (tail_attrs b) as [? [? ?]]; by apply holds_some].
  apply fold_set_ok; [|apply empty_ok]. unfold row_attrs.
  assert (Forall (kv_ok p) (tail_attrs b).1) as Ht.
  { unfold tail_attrs. repeat case_match; cbn [fst]; attrs. unfold tcp_attrs. apply Forall_filter_stdlib, zip_ok. no_vocab. }
  destruct (tail_attrs b) as [tails [sp dp]]. cbn [fst] in Ht. unfold MapFilterlogAction, rule_attrs, ActionPass, ActionBlock.
  attrs; try done; repeat case_match; cbn [fst]; attrs.
Qed.

Lemma suricata_good unmarshal : good p (parseSuricata unmarshal geo env snap).
Proof. unfold parseSuricata, alert_attrs, nonzero, MapSuricataAction, ActionPass, ActionBlock. good. Qed.

(** What a DHCP line says of the action. *)
Definition actions : list string :=
  ["discover"; "offer"; "request"; "ack"; "nak"; "release"; "expire"; "decline"; "inform"; "alloc"; "reuse"; "advertise"; "name_conflict"; "abandoned"].
Definition dhcp_ok (f : DhcpParser.dhcpFields) : Prop :=
  DhcpParser.daction f ∈ "" :: actions /\ DhcpParser.allocFailReason f ∈ "" :: ["no_pools"; "exhausted"].

Lemma isc_loop_keeps tok : forall after f, dhcp_ok f -> dhcp_ok (DhcpParser.isc_loop tok after f).
Proof.
  induction tok as [tok IH] using (induction_ltof1 _ (@length string)). unfold ltof in IH. destruct tok as [|t tok]; intros after f H; [done|].
  cbn [DhcpParser.isc_loop]. destruct (DhcpParser.parenthesised t) as [v|]; [apply IH; [cbn; lia|]; by repeat case_match|].
  destruct tok as [|v tok]; [done|]. repeat case_match; (apply IH; [cbn; lia|]); done.
Qed.

Lemma dnsmasq_keeps l : forall f, dhcp_ok f -> dhcp_ok (fold_left DhcpParser.dnsmasq_token l f).
Proof. induction l as [|t l IH]; intros f H; [done|]. cbn [fold_left]. apply IH. unfold DhcpParser.dnsmasq_token. by repeat case_match. Qed.

Ltac dhcp := repeat lazymatch goal with
  | |- dhcp_ok (if ?b then _ else _) => destruct b
  | |- dhcp_ok (match ?o with Some _ => _ | None => _ end) => destruct o
  | |- dhcp_ok (DhcpParser.isc_loop _ _ _) => apply isc_loop_keeps
  | |- dhcp_ok (fold_left DhcpParser.dnsmasq_token _ _) => apply dnsmasq_keeps
  | |- dhcp_ok _ => split; lazy beta iota delta [update DhcpParser.daction DhcpParser.allocFailReason DhcpParser.noFields]; [unfold actions; member|member]
  | _ => progress good
  end.

Lemma kea_envelope_holds msg : holds dhcp_ok (DhcpParser.parseKeaEnvelope msg).
Proof. unfold DhcpParser.parseKeaEnvelope. dhcp. Qed.

Lemma isc_holds msg : holds dhcp_ok (DhcpParser.parseISCDHCP msg).
Proof. unfold DhcpParser.parseISCDHCP. destruct (DhcpParser.Fields msg); dhcp. Qed.

Lemma dnsmasq_holds msg : holds dhcp_ok (DhcpParser.parseDnsmasqDHCP msg).
Proof. unfold DhcpParser.parseDnsmasqDHCP. dhcp. Qed.

Lemma kea_holds msg : holds dhcp_ok (DhcpParser.parseKeaDHCP msg).
Proof.
  unfold DhcpParser.parseKeaDHCP. destruct (cut " " _) as [id rest]. set (rest' := default "" rest). cbv zeta.
  match goal with |- holds _ (match ?c with _ => _ end) => assert (holds (holds dhcp_ok) c) as H; [|destruct c as [r|]; [by apply H|]] end.
  - apply holds_cases; repeat (apply Forall_cons_2; [cbn [fst snd]; intros ? ?; apply holds_some|]); [..|apply Forall_nil_2].
    + unfold DhcpParser.kea_lease. dhcp.
    + unfold DhcpParser.kea_packet. dhcp.
    + unfold DhcpParser.kea_alloc_fail. apply holds_bind. intros line Hl. destruct (match FindStringSubmatch _ _ with Some _ => _ | None => _ end) as [? ?]. dhcp.
    + unfold DhcpParser.kea_release. destruct (FindStringSubmatch DhcpParser.keaBindingAddrRE rest') as [b|]; [destruct (DhcpParser.isIPAddr (group b 1))|]; dhcp.
  - destruct (if str_eq id "COMMAND_RECEIVED" then _ else _); [dhcp|apply kea_envelope_holds].
Qed.

Lemma dhcp_fields_holds msg : holds dhcp_ok (DhcpParser.dhcp_fields msg).
Proof.
  unfold DhcpParser.dhcp_fields, DhcpParser.parseDnsmasqConflict, DhcpParser.parseDnsmasqAbandon.
  repeat case_match; [| |apply dnsmasq_holds|apply isc_holds|apply kea_holds]; apply holds_bind; intros m Hm; [dhcp|].
  destruct (DhcpParser.isMAC (group m 1)), (DhcpParser.isIPAddr (group m 2)); dhcp.
Qed.

Lemma dhcp_good : good p (DhcpParser.parseDHCP env snap).
Proof.
  unfold DhcpParser.parseDHCP. cbv zeta. destruct (str_empty _); [good|]. apply holds_bind. intros f Hf.
  apply dhcp_fields_holds in Hf as [Ha Hr]. apply holds_some. apply new_label_ok. unfold DhcpParser.dhcp_identity. apply Forall_app_2; [|attrs].
  repeat (apply Forall_cons_2; [first [apply kv_none; reflexivity|eapply kv_some; [reflexivity|done]]|]). apply Forall_nil_2.
Qed.

End Parsers.

(** ** Every registered parser *)

(** The name a parser gives its tunnels. *)
Definition backend_of (id : parser_id) : option string :=
  match id with
  | Charon => Some "ipsec" | OpenVPN => Some "openvpn" | WireGuard => Some "wireguard" | Tailscaled => Some "tailscale" | Netbird => Some "netbird"
  | _ => None
  end.
Definition names_of (p : string) (id : parser_id) : Prop := forall b, backend_of id = Some b -> b ∈ vpn_backends p.

Lemma table_names p id : (p, id) ∈ exact_table -> names_of p id.
Proof.
  assert (forallb (fun '(p, id) => match backend_of id with Some b => bool_decide (b ∈ vpn_backends p) | None => true end) exact_table = true) as H
    by (vm_compute; reflexivity).
  intros Hin b Hb. rewrite forallb_forall in H. specialize (H (p, id)). rewrite <- list_elem_of_In in H. specialize (H Hin). rewrite Hb in H. by apply bool_decide_eq_true in H.
Qed.

Lemma openvpn_names p : HasPrefix p "openvpn" = true -> names_of p OpenVPN.
Proof.
  intros Hp b [= <-]. unfold vpn_backends. case_bool_decide as Hu; [|set_solver].
  apply list_elem_of_In in Hu. cbn in Hu. destruct Hu as [Hu|[Hu|[Hu|[]]]]; rewrite <- Hu in Hp; done.
Qed.

Lemma parser_good unmarshal geo perQuery id p env snap g : names_of p id -> good p (parser_of unmarshal geo perQuery id env snap g).1.
Proof.
  intros H. destruct id; cbn [parser_of]; unfold stateless; cbn [fst]; auto using acme_good, audit_good, cron_good, client_good, dhcp_good, client6_good,
    dpinger_good, filterlog_good, alias_good, radius_good, haproxy_good, kernel_good, upnp_good, ppp_good, radvd_good, updater_good, sshd_good, sudo_good,
    suricata_good, syslogng_good, unbound_good.
  all: first [apply charon_good|apply openvpn_good|apply wireguard_good|apply tailscale_good|apply netbird_good]; by apply H.
Qed.

(** ** The captured rules and the common attributes *)

Lemma rule_keys : forallb (fun r => match r with captured _ _ _ fs => forallb (fun k => bool_decide (lookup_words words k = None)
  && negb (str_eq k "vpn.backend")) fs | known _ _ _ => true end) rules = true.
Proof. vm_compute. reflexivity. Qed.

Lemma rule_fields program r k : r ∈ capturedRules program -> k ∈ fields r -> forall p, vocab p k = None.
Proof.
  unfold capturedRules. rewrite list_elem_of_omap. intros (x & Hx & E) Hk p. pose proof rule_keys as H. rewrite forallb_forall in H.
  apply list_elem_of_In in Hx. specialize (H x Hx). destruct x as [p' ev pat fs|]; [|done]. destruct (str_eq p' program); [|done]. injection E as <-.
  cbn in Hk. rewrite forallb_forall in H. apply list_elem_of_In in Hk. specialize (H k Hk). apply andb_true_iff in H as [Hn Hv].
  apply bool_decide_eq_true in Hn. apply negb_true_iff in Hv. unfold vocab. by rewrite Hv.
Qed.

Lemma peers_ok p s ips : forall seen n, Forall (kv_ok p) (peers s ips seen n).
Proof.
  induction ips as [|ip ips IH]; intros seen n; [constructor|]. cbn [peers]. destruct (_ <=? _)%nat; [constructor|].
  destruct (_ || _); [apply IH|]. destruct (_ && _); [apply IH|]. repeat apply Forall_app_2; try apply IH;
    destruct n as [|[|n]]; cbn [peerKey]; attrs.
Qed.

Lemma devices_ok p s devs : forall seen d, Forall (kv_ok p) (devices s devs seen d).
Proof.
  induction devs as [|dev devs IH]; intros seen d; [constructor|]. cbn [devices]. destruct (_ || _); [apply IH|].
  destruct (Enrich.InterfaceName s dev); [|apply IH]. apply Forall_app_2; [|apply IH]. destruct (d =? 0)%nat; attrs.
Qed.

Lemma tunnel_ok p s ids : Forall (kv_ok p) (tunnel_of s ids).
Proof. induction ids as [|id ids IH]; [constructor|]. cbn [tunnel_of]. destruct (Enrich.Tunnel s id); [attrs|]. destruct (Enrich.VPNInstance s id); [attrs|done]. Qed.

Lemma common_ok p rec env snap b : attrs_ok p (Attributes rec) -> attrs_ok p (Attributes (addCommon rec env snap b)).
Proof.
  intros H. apply sets_ok; [|done]. repeat apply Forall_app_2; [attrs| |].
  - destruct b; [|constructor]. unfold enrichMessage. destruct snap as [s|]; [|constructor]. destruct (str_empty _); [constructor|].
    apply Forall_app_2; [apply peers_ok|apply devices_ok].
  - unfold enrichTunnels. destruct snap as [s|]; [|constructor]. destruct (str_empty _); [constructor|]. destruct (_ && _); [constructor|apply tunnel_ok].
Qed.

Lemma endpoint_attrs_ok p snap rec side : side = "src" \/ side = "dst" -> attrs_ok p (Attributes rec) -> attrs_ok p (Attributes (endpoint_attrs snap rec side)).
Proof. intros Hs H. unfold endpoint_attrs. destruct (str_empty _); [done|]. apply sets_ok; [by apply endpoint_ok|done]. Qed.

Lemma elastic_ok p rec : attrs_ok p (Attributes rec) -> attrs_ok p (Attributes (elastic rec)).
Proof. intros H. unfold elastic. repeat case_match; (apply insert_label_ok; [by apply kv_none|done]). Qed.

Lemma captured_good p env snap : good p (parseCapturedRecord env snap).
Proof.
  unfold parseCapturedRecord. assert (Forall (fun r => forall k, k ∈ fields r -> forall p, vocab p k = None) (capturedRules (Program env))) as H
    by (apply Forall_forall; intros r Hr k Hk; by eapply rule_fields).
  induction H as [|r l Hr _ IH]; [done|]. cbn [try_captured]. destruct (FindStringSubmatch _ _) as [m|]; [|done]. destruct (forallb _ _); [|done].
  apply holds_some. unfold captured_record. apply common_ok. destruct (str_eq (event r) _); [apply elastic_ok|]; cbn [fold_left];
    (apply endpoint_attrs_ok; [by right|]; apply endpoint_attrs_ok; [by left|]; apply new_label_ok; apply Forall_cons_2; [kv|]; apply Forall_filter_stdlib, zip_ok;
     apply Forall_forall; auto).
Qed.

(** ** The record of a line *)

Lemma status_ok p st rec : attrs_ok p (Attributes rec) -> attrs_ok p (Attributes (parse_status st rec)).
Proof. intros H. apply insert_label_ok; [by apply kv_none|done]. Qed.

Lemma fallback_ok pq p env snap : attrs_ok p (Attributes (fallback pq env snap).1).
Proof.
  unfold fallback. destruct (parseCapturedRecord env snap) as [rec|] eqn:E; [apply status_ok; by eapply captured_good|]. cbv zeta.
  destruct (str_empty _); [|apply insert_label_ok; [by apply kv_none|apply status_ok]]; apply status_ok, common_ok, generic_ok.
Qed.

Lemma prefix_parser unmarshal geo perQuery program (f := parser_of unmarshal geo perQuery) q :
  option_map snd (longestPrefixMatch {["openvpn" := f OpenVPN]} program) = Some q -> q = f OpenVPN /\ HasPrefix program "openvpn" = true.
Proof.
  unfold longestPrefixMatch. rewrite map_to_list_singleton. unfold longest. cbn [fold_left]. unfold longest_step. cbn [fst].
  destruct (HasPrefix program "openvpn"); [|done]. by intros [= <-].
Qed.

Lemma build_ok unmarshal geo perQuery reg pq env snap g : init_parsers (parser_of unmarshal geo perQuery) = Some reg ->
  attrs_ok (Program env) (Attributes (buildRecord reg pq env snap g).1.1).
Proof.
  rewrite init_parsers_ok. intros Hreg. apply (inj Some) in Hreg. subst reg. unfold buildRecord. set (env' := env <| Message ::= redactAPIAuthFailure |>).
  pose proof (fallback_ok pq (Program env) env' snap) as Hg.
  destruct (parserFor _ (Program env')) as [q|] eqn:Ep; [|apply Hg].
  assert (good (Program env) (q env' snap g).1) as Hq.
  { unfold parserFor in Ep. cbn [parsers parserPrefixes] in Ep. change (Program env') with (Program env) in Ep.
    destruct (list_to_map _ !! Program env) as [q'|] eqn:El.
    - injection Ep as <-. apply elem_of_list_to_map_2, list_elem_of_In, in_map_iff in El as ([k id] & Heq & Hin).
      apply pair_equal_spec in Heq as [-> <-].
      apply parser_good, table_names. by apply list_elem_of_In.
    - apply prefix_parser in Ep as [-> Hp]. by apply parser_good, openvpn_names. }
  destruct (q env' snap g) as [[rec|] g']; [|apply Hg]. cbn [fst] in Hq |- *. apply status_ok, common_ok. by apply Hq.
Qed.

(** ** Closed observations *)

(** The words the metric labels may hold.  Names (of interfaces, rules, backends, servers,
    gateways, connections), the method of a login and the category of an alert are
    taken from the line or the configuration as they are, and are left open. *)
Definition closed (o : Observation) : Prop :=
  let among k v := exists vs, lookup_words words k = Some vs /\ v ∈ "" :: vs in
  match o with
  | ObservePPPLink _ event _ => event ∈ ["link_up"; "link_down"]
  | ObserveFirewall action _ _ _ _ => action ∈ ["" ; "pass"; "block"]
  | ObserveHAProxy event _ _ state class =>
      among "haproxy.event" event /\ among "haproxy.state" state /\ class ∈ [""; "1xx"; "2xx"; "3xx"; "4xx"; "5xx"]
  | ObserveSSHD result _ _ => among "auth.result" result
  | ObserveDHCP action _ _ => among "dhcp.action" action
  | ObserveAudit event result => among "event" event /\ among "audit.result" result
  | ObserveIDS eventType action _ severity =>
      eventType ∈ [""; "alert"; "anomaly"; "drop"; "stats"; "other"] /\ action ∈ [""; "pass"; "block"] /\ severity ∈ [""; "1"; "2"; "3"; "4"; "other"]
  | ObserveGateway event _ => among "gateway.event" event
  | ObserveRADIUS event result scope => among "radius.event" event /\ among "radius.result" result /\ among "radius.client_scope" scope
  | ObserveVPN backend event result _ => backend ∈ ["ipsec"; "openvpn"] /\ among "vpn.event" event /\ among "vpn.result" result
  | ObserveCARP event from to _ _ => among "carp.event" event /\ among "carp.state.previous" from /\ among "carp.state.current" to
  | ObserveDHCPClient _ t => among "dhcp_client.type" t
  | ObserveDHCPClientScript _ reason => among "dhcp_client.script.reason" reason
  | ObserveDHCP6CMessage _ direction t => among "dhcp6c.direction" direction /\ among "dhcp6c.type" t
  | ObserveDHCP6CEvent _ event reason => among "dhcp6c.event" event /\ among "dhcp6c.script.reason" reason
  | ObserveDHCP6AllocFail reason => among "dhcp.alloc_fail_reason" reason
  | ObserveUPnP event result protocol => among "upnp.event" event /\ among "upnp.result" result /\ among "upnp.protocol" protocol
  | _ => True
  end.

Lemma statusClass_closed st : statusClass st ∈ [""; "1xx"; "2xx"; "3xx"; "4xx"; "5xx"].
Proof.
  unfold statusClass. destruct (str_empty st); [constructor|]. destruct (Otlp.Atoi st) as [code|]; [|constructor].
  destruct ((code <? 100) || (599 <? code)) eqn:E; [constructor|]. bool_prop.
  assert (Z.quot code 100 = 1 \/ Z.quot code 100 = 2 \/ Z.quot code 100 = 3 \/ Z.quot code 100 = 4 \/ Z.quot code 100 = 5) as Hq
    by (rewrite Z.quot_div_nonneg by lia; pose proof (Z.div_mod code 100); pose proof (Z.mod_pos_bound code 100); lia).
  destruct Hq as [->|[->|[->|[->| ->]]]]; apply (bool_decide_unpack _); vm_compute; exact I.
Qed.

Lemma family_vpn p : deriveFamily p = Some familyVPN -> vpn_backends p = ["ipsec"; "openvpn"].
Proof.
  intros H. unfold vpn_backends. case_bool_decide as Hu; [|done]. exfalso. apply list_elem_of_In in Hu. cbn in Hu.
  destruct Hu as [Hu|[Hu|[Hu|[]]]]; rewrite <- Hu in H; vm_compute in H; done.
Qed.

Lemma closed_or_other v l : (if str_empty v then "" else if bool_decide (v ∈ l) then v else eveOther) ∈ "" :: l ++ ["other"].
Proof.
  destruct (str_empty v); [constructor|]. apply elem_of_cons. right. apply elem_of_app. case_bool_decide; [by left|right; constructor].
Qed.
Lemma eve_type_closed v : mapEveEventType v ∈ [""; "alert"; "anomaly"; "drop"; "stats"; "other"].
Proof. apply (closed_or_other v ["alert"; "anomaly"; "drop"; "stats"]). Qed.
Lemma eve_severity_closed v : mapEveSeverity v ∈ [""; "1"; "2"; "3"; "4"; "other"].
Proof. apply (closed_or_other v ["1"; "2"; "3"; "4"]). Qed.

Ltac calls := repeat lazymatch goal with
  | |- Forall _ [] => apply Forall_nil_2
  | |- Forall _ (_ ++ _) => apply Forall_app_2
  | |- Forall _ (_ :: _) => apply Forall_cons_2; [cbn [closed]|]
  | |- Forall _ (if ?b then _ else _) => let Ec := fresh "Ec" in destruct b eqn:Ec
  | |- Forall _ (match ?o with Some _ => _ | None => _ end) => destruct o
  end.

Lemma derived_closed p a : attrs_ok p a -> Forall closed (derived_calls p a).
Proof.
  intros H. assert (forall k vs, lookup_words words k = Some vs -> str_eq k "vpn.backend" = false ->
    exists vs, lookup_words words k = Some vs /\ attr a k ∈ "" :: vs) as Hw.
  { intros k vs Hk Hn. exists vs. split; [done|]. apply H. unfold vocab. by rewrite Hn. }
  unfold derived_calls. destruct (deriveFamily p) as [f|] eqn:Ef; [|constructor].
  destruct f; unfold dhcp_calls, kernel_calls, dhcp_client_calls, dhcp6c_calls; cbv zeta; calls; repeat split; try (eapply Hw; reflexivity).
  all: try exact (H Otlp.AttrAction _ eq_refl).
  - destruct (str_eq _ _); repeat constructor.
  - apply statusClass_closed.
  - apply eve_type_closed.
  - apply eve_severity_closed.
  - pose proof (H "vpn.backend" _ eq_refl) as Hb. rewrite (family_vpn p Ef) in Hb. apply elem_of_cons in Hb as [Hb|]; [|done].
    rewrite Hb in Ec. done.
Qed.

(** ** What the metric sink sees *)

Section Source.
Context {K P : Type} `{!MetricSink K} `{!ProgramProcessor P}.
(** A property of the sink that closed observations preserve. *)
Context (Inv : K -> Prop).

Lemma calls_inv l : (forall o k, closed o -> Inv k -> Inv (observe o k).2) -> Forall closed l -> forall acc : bool * K, Inv acc.2 -> Inv (fold_left call l acc).2.
Proof.
  intros Hs. induction 1 as [|o l Ho _ IH]; intros acc Ha; [done|]. cbn [fold_left]. apply IH. destruct acc as [b k]. unfold call.
  specialize (Hs o k Ho Ha). by destruct (observe o k).
Qed.

Lemma domain_ok p cache now rec : attrs_ok p (Attributes rec) -> attrs_ok p (Attributes (enrichFilterlogDomain cache now rec).1.1).
Proof.
  intros H. unfold enrichFilterlogDomain. destruct cache as [c|]; [|done]. destruct (ParseAddr _); [|done]. destruct (ParseAddr _); [|done].
  destruct (Dns.Lookup _ _ _ _) as [[d|] c']; [|done]. destruct (str_empty d); [done|]. apply insert_label_ok; [by apply kv_none|done].
Qed.

Lemma emit_inv c now p rec parsed (s : source (S := K) (P := P)) : (forall o k, closed o -> Inv k -> Inv (observe o k).2) ->
  attrs_ok p (Attributes rec) -> Inv (sSink s) -> Inv (sSink (derive_and_emit c now p rec parsed s).2).
Proof.
  intros Hs Ha Hi. unfold derive_and_emit.
  assert (forall rec' (s' : source (S := K) (P := P)), attrs_ok p (Attributes rec') -> Inv (sSink s') ->
    Inv (sSink (let '(counted, sink) := observeDerived p (Attributes rec') (sSink s') in
      let s := s' <| sSink := sink |> in
      if cSample c then
        if negb (sampleKeep p rec' counted) then ([Reject "sampled"], s)
        else if cSampledAttr c && counted then ([Emit (rec' <| Attributes ::= <["sampled" := "true"]> |>)], s) else ([Emit rec'], s)
      else ([Emit rec'], s)).2)) as Hd.
  { intros rec' s' Ha' Hi'. pose proof (calls_inv (derived_calls p (Attributes rec')) Hs (derived_closed _ _ Ha') (false, sSink s') Hi') as Hf.
    unfold observeDerived. destruct (fold_left call _ _) as [counted sink]. cbv zeta. repeat case_match; done. }
  destruct (parsed && str_eq p "filterlog"); [|by apply Hd]. pose proof (domain_ok p (sDns s) now rec Ha) as Hdom.
  destruct (enrichFilterlogDomain (sDns s) now rec) as [[rec' domain] cache]. cbn [fst] in Hdom. destruct (str_empty domain); apply Hd; try done.
  by apply Hs.
Qed.

Lemma dispatch_inv unmarshal geo perQuery c now env line (s : source (S := K) (P := P)) :
  init_parsers (parser_of unmarshal geo perQuery) = Some (cReg c) -> (forall o k, closed o -> Inv k -> Inv (observe o k).2) ->
  Inv (sSink s) -> Inv (sSink (dispatch c now env line s).2).
Proof.
  intros Hr Hs Hi. unfold dispatch. destruct (_ && _); [done|].
  pose proof (build_ok unmarshal geo perQuery (cReg c) (cPerQuery c) env (Some (Enrich.Load (sCache s))) (sGlobals s) Hr) as Hb.
  destruct (buildRecord _ _ _ _ _) as [[rec parsed] g]. cbn [fst] in Hb. cbv zeta.
  match goal with |- context [derive_and_emit c now ?p rec parsed ?s'] => pose proof (emit_inv c now p rec parsed s' Hs Hb Hi) as H end.
  by destruct (derive_and_emit _ _ _ _ _ _).
Qed.

(** [C14] The labels of the derived metrics are closed.  Whatever line arrives, from
    whatever peer, every observation the receiver makes holds, in each position that
    names an action, an event, a result, a state, a reason, a status class or a tunnel's
    backend, one of the words the source lists for it, or nothing; so any property of
    the metric sink that such observations preserve, a bound on the number of its
    series for one, survives every line.  It holds for every content of the Suricata
    decoder, the GeoIP database, the snapshot, the parsers' memory and the options. *)
Theorem labels_closed unmarshal geo perQuery c now later peer line (s : source (S := K) (P := P)) :
  init_parsers (parser_of unmarshal geo perQuery) = Some (cReg c) ->
  (forall o k, closed o -> Inv k -> Inv (observe o k).2) ->
  Inv (sSink s) -> Inv (sSink (handle c now later peer line s).2).
Proof.
  intros Hr Hs Hi. unfold handle. destruct (negb (sRunning s)); [done|]. cbv zeta.
  assert (forall env l, Inv (sSink (process c now peer env l s).2)) as Hp.
  { intros env l. unfold process. destruct (sProc s) as [p|]; [|by eapply dispatch_inv]. destruct (Handles p _); [|by eapply dispatch_inv].
    destruct (Process env peer (cPorts c) p) as [[handled recs] p']. destruct handled; [done|].
    cbv zeta. match goal with |- context [dispatch c now env l ?s'] =>
      pose proof (dispatch_inv unmarshal geo perQuery c now env l s' Hr Hs Hi) as H; destruct (dispatch c now env l s') end. exact H. }
  destruct (ParseEnvelope _ _ _) as [env|err|]; [|destruct (sanitizeMalformedFreeRADIUS _ _) as [[env l]|]; [|done]|done].
  - destruct (match sanitizeFreeRADIUS env with Some safe => safe | None => _ end) as [env' l'].
    specialize (Hp env' l'). by destruct (process _ _ _ _ _ _).
  - destruct (match sanitizeFreeRADIUS env with Some safe => safe | None => _ end) as [env' l'].
    specialize (Hp env' l'). by destruct (process _ _ _ _ _ _).
Qed.

End Source.

(** ** A sink that keeps what it sees *)

Definition recorder : MetricSink (list Observation) := fun o l => (true, o :: l).
Definition no_eve : string -> option eveRecord := fun _ => None.
Definition full_registry : registry := default (mkRegistry ∅ ∅ ∅ ∅) (init_parsers (parser_of no_eve None false)).
Definition full_config : config := mkConfig full_registry false (NewFilter [] [] 0 false) false false false [] UTC.
Definition recording_source : source (S := list Observation) (P := unit) :=
  mkSource (mkGlobals (newPIDIfaceMemory 64) (newPIDIfaceMemory 64) []) None [] None Enrich.NewCache true.
Definition seen (line : string) : list Observation :=
  sSink (handle (MetricSink0 := recorder) (ProgramProcessor0 := noProcessor) full_config demo_now demo_now (Addr4 0) line recording_source).2.

Definition ssh_line : string := "<38>1 2026-07-14T19:50:01Z fw sshd 77 - - Accepted publickey for root from 10.0.0.1 port 22 ssh2".

Lemma labels_closed_witness : seen ssh_line = [ObserveSSHD "accepted" "publickey" ""] /\ Forall closed (seen ssh_line).
Proof.
  split; [vm_compute; reflexivity|].
  refine (labels_closed (MetricSink0 := recorder) (ProgramProcessor0 := noProcessor) (Forall closed) no_eve None false full_config demo_now demo_now (Addr4 0)
    ssh_line recording_source _ _ _).
  - unfold full_config, full_registry. cbn [cReg]. by rewrite init_parsers_ok.
  - intros o k Ho Hk. by constructor.
  - constructor.
Defined.

End Labels.
