(* ===== verification/Bounded.v ===== *)
(** * Bounded metric families ([collector/cappedcounter.go], [retainedbytes.go],
      [boundedinventory.go], [filterlog_domain_counter.go], [cappedGauge] of
      [logevents.go])

    Maps keyed by values a sender chooses, with a budget of keys and of bytes, and an
    account of what the budget turned away.  A count is a [float64]; as it starts at
    zero and only ever goes up by one it is an integer, and [rnd] is the rounding of the
    additions. *)

From stdpp Require Import base decidable list gmap strings sorting.
From Stdlib Require Import ZArith Lia Ascii.
From S2P Require Import Prelude Netip Order GoStrings GoTime.
Import GoTime.

Module Bounded.

(** ** Counts *)

(** Round to nearest, ties to even, on 53 bits. *)
Definition rnd_pos (x : Z) : Z :=
  if x <=? 2 ^ 53 then x
  else
    let e := Z.log2 x - 52 in
    let q := x / 2 ^ e in
    let r := x mod 2 ^ e in
    let half := 2 ^ (e - 1) in
    (if r <? half then q else if half <? r then q + 1 else if Z.even q then q else q + 1) * 2 ^ e.
Definition rnd (x : Z) : Z := if x <? 0 then - rnd_pos (- x) else rnd_pos x.
Definition fadd (a b : Z) : Z := rnd (a + b).
Definition fsub (a b : Z) : Z := rnd (a - b).
Definition finc (a : Z) : Z := fadd a 1.

Lemma rnd_exact x : - 2 ^ 53 <= x <= 2 ^ 53 -> rnd x = x.
Proof.
  intros H. unfold rnd, rnd_pos. destruct (x <? 0) eqn:E; bool_prop.
  - destruct (- x <=? 2 ^ 53) eqn:E2; bool_prop; lia.
  - destruct (x <=? 2 ^ 53) eqn:E2; bool_prop; lia.
Qed.

Lemma finc_exact n : 0 <= n < 2 ^ 53 -> finc n = n + 1.
Proof. intros H. apply rnd_exact. lia. Qed.

(** The counter of a [float64] stops at 2^53. *)
Example finc_top : finc (2 ^ 53) = 2 ^ 53.
Proof. vm_compute. reflexivity. Qed.

(** ** Bytes *)

Definition maxRetainedKeyBytes : Z := 4096.
Definition maxRetainedFamilyBytes : Z := 8 * 2 ^ 20.

Definition str_len (s : string) : Z := Z.of_nat (String.length s).

(** [retainedStringBytes] of values whose strings are [l], in order: the bytes, and
    whether every string is short enough. *)
Fixpoint retained (l : list string) (total : Z) : Z * bool :=
  match l with
  | [] => (total, true)
  | s :: l =>
      if maxRetainedKeyBytes <? str_len s then (total, false)
      else
        let total := total + str_len s in
        if total <=? maxRetainedFamilyBytes then retained l total else (total, false)
  end.
Definition retainedStringBytes (l : list string) : Z * bool := retained l 0.

(** A label tuple: the fields of the key's struct, in order. *)
Definition Key : Type := list string.
Definition cost_of (k : Key) : Z := (retainedStringBytes k).1.

Lemma retained_nonneg l : forall t, 0 <= t -> 0 <= (retained l t).1.
Proof.
  induction l as [|s l IH]; intros t Ht; cbn [retained]; [done|]. destruct (_ <? _); [done|]. cbv zeta.
  assert (0 <= t + str_len s) by (unfold str_len; lia). destruct (_ <=? _); [by apply IH|done].
Qed.
Lemma cost_nonneg k : 0 <= cost_of k.
Proof. by apply retained_nonneg. Qed.

(** ** [cappedCounter] *)

Record cappedCounter := mkCounter { cm : gmap Key Z; cmax : Z; cbytes : Z; coverflow : Z }.
#[export] Instance eta_cappedCounter : Eta cappedCounter := fun c => mkCounter (cm c) (cmax c) (cbytes c) (coverflow c).

Definition newCappedCounter (max : Z) : cappedCounter := mkCounter ∅ max 0 0.

Definition inc (k : Key) (c : cappedCounter) : cappedCounter :=
  match cm c !! k with
  | Some n => c <| cm ::= <[k := finc n]> |>
  | None =>
      let '(cost, valid) := retainedStringBytes k in
      if negb valid || (maxRetainedFamilyBytes <? cbytes c + cost) || ((0 <? cmax c) && (cmax c <=? zsize (cm c)))
      then c <| coverflow ::= finc |>
      else c <| cbytes := cbytes c + cost |> <| cm ::= <[k := finc 0]> |>
  end.

Definition setMax (max : Z) (c : cappedCounter) : cappedCounter := c <| cmax := max |>.

(** What the counter holds. *)
Definition series_total (c : cappedCounter) : Z := msum (fun _ n => n) (cm c).
Definition counted_total (c : cappedCounter) : Z := series_total c + coverflow c.

(** ** [cappedGauge] *)

(** The values of a gauge are numbers, which cost nothing. *)
Record cappedGauge := mkGauge { gm : gmap Key (list Z); gmax : Z; goverflow : Z; gbytes : Z }.
#[export] Instance eta_cappedGauge : Eta cappedGauge := fun g => mkGauge (gm g) (gmax g) (goverflow g) (gbytes g).

Definition newCappedGauge (max : Z) : cappedGauge := mkGauge ∅ max 0 0.

Definition gauge_set (k : Key) (v : list Z) (g : cappedGauge) : cappedGauge :=
  let known := bool_decide (is_Some (gm g !! k)) in
  let oldCost := if known then cost_of k else 0 in
  let '(cost, valid) := retainedStringBytes k in
  if negb valid || (maxRetainedFamilyBytes <? gbytes g - oldCost + cost) || (negb known && (0 <? gmax g) && (gmax g <=? zsize (gm g)))
  then g <| goverflow ::= finc |>
  else g <| gm ::= <[k := v]> |> <| gbytes := gbytes g - oldCost + cost |>.

Definition gauge_unset (k : Key) (g : cappedGauge) : cappedGauge :=
  match gm g !! k with
  | Some _ => g <| gbytes ::= fun b => b - cost_of k |> <| gm ::= delete k |>
  | None => g
  end.

Definition gauge_setMax (max : Z) (g : cappedGauge) : cappedGauge := g <| gmax := max |>.

(** ** Invariants *)

Definition costs {A} (m : gmap Key A) : Z := msum (fun k _ => cost_of k) m.
Definition valid_keys {A} (m : gmap Key A) : Prop := forall k, is_Some (m !! k) -> (retainedStringBytes k).2 = true.

(** The bytes are those of the keys, and within the budget. *)
Definition bytes_ok {A} (m : gmap Key A) (bytes : Z) : Prop := bytes = costs m /\ bytes <= maxRetainedFamilyBytes /\ valid_keys m.

Section Invariants.
Context {A : Type}.
Implicit Types (m : gmap Key A).

Lemma bytes_insert m bytes k v : bytes_ok m bytes -> m !! k = None -> (retainedStringBytes k).2 = true ->
  bytes + cost_of k <= maxRetainedFamilyBytes -> bytes_ok (<[k := v]> m) (bytes + cost_of k).
Proof.
  intros (Hb & Hc & Hv) Hk Hr Hle. unfold bytes_ok, costs. rewrite msum_insert_None by done. split; [unfold costs in Hb; lia|]. split; [done|].
  intros k' Hk'. destruct (decide (k = k')) as [<-|Hne]; [done|]. rewrite lookup_insert_ne in Hk' by done. by apply Hv.
Qed.

Lemma bytes_update m bytes k v w : bytes_ok m bytes -> m !! k = Some v -> bytes_ok (<[k := w]> m) bytes.
Proof.
  intros (Hb & Hc & Hv) Hk. unfold bytes_ok, costs in *. rewrite (msum_insert_Some _ _ _ _ _ Hk). split; [lia|]. split; [done|].
  intros k' Hk'. destruct (decide (k = k')) as [<-|Hne]; [by apply Hv; eauto|]. rewrite lookup_insert_ne in Hk' by done. by apply Hv.
Qed.

Lemma bytes_delete m bytes k v : bytes_ok m bytes -> m !! k = Some v -> bytes_ok (delete k m) (bytes - cost_of k).
Proof.
  intros (Hb & Hc & Hv) Hk. unfold bytes_ok, costs in *. pose proof (msum_delete (fun k _ => cost_of k) _ _ _ Hk) as Hd. cbv beta in Hd. pose proof (cost_nonneg k). split; [lia|]. split; [lia|].
  intros k' [x Hk']. apply lookup_delete_Some in Hk' as [_ Hk']. apply Hv. eauto.
Qed.

End Invariants.

(** ** The counter *)

(** The three ways an observation is recorded. *)
Inductive recorded (k : Key) (c : cappedCounter) : cappedCounter -> Prop :=
| Known n : cm c !! k = Some n -> recorded k c (c <| cm ::= <[k := finc n]> |>)
| Refused : cm c !! k = None -> recorded k c (c <| coverflow ::= finc |>)
| Novel : cm c !! k = None -> (retainedStringBytes k).2 = true -> cbytes c + cost_of k <= maxRetainedFamilyBytes ->
    (0 < cmax c -> zsize (cm c) < cmax c) ->
    recorded k c (c <| cbytes := cbytes c + cost_of k |> <| cm ::= <[k := finc 0]> |>).

Lemma inc_recorded k c : recorded k c (inc k c).
Proof.
  unfold inc. destruct (cm c !! k) as [n|] eqn:E; [by constructor|]. destruct (retainedStringBytes k) as [cost valid] eqn:Er.
  destruct (negb valid || _ || _) eqn:Eg; [by constructor|]. bool_prop.
  assert (cost = cost_of k) as -> by (unfold cost_of; by rewrite Er). apply Novel; [done|by rewrite Er|done|].
  intros Hp. destruct (0 <? cmax c) eqn:E0; bool_prop; [|lia]. cbn [andb] in *. bool_prop. lia.
Qed.

(** After [n] observations, none of them lost: the series and the overflow sum to [n]. *)
Definition accounts (n : Z) (c : cappedCounter) : Prop :=
  counted_total c = n /\ 0 <= coverflow c /\ forall k x, cm c !! k = Some x -> 0 < x.

Lemma entry_le c k x : (forall k x, cm c !! k = Some x -> 0 < x) -> cm c !! k = Some x -> x <= series_total c.
Proof. intros Hp Hk. apply (msum_elem_le (fun _ n => n) (cm c) k x); [|done]. intros k' a Ha. specialize (Hp k' a Ha). lia. Qed.

Lemma series_nonneg c : (forall k x, cm c !! k = Some x -> 0 < x) -> 0 <= series_total c.
Proof. intros Hp. apply msum_nonneg. intros k a Ha. specialize (Hp k a Ha). lia. Qed.

Lemma inc_accounts n k c : n < 2 ^ 53 -> accounts n c -> accounts (n + 1) (inc k c).
Proof.
  intros Hn (Ht & Ho & Hp). pose proof (series_nonneg c Hp) as Hs. unfold accounts, counted_total, series_total in *.
  destruct (inc_recorded k c) as [x Hk|Hk|Hk Hr Hb Hz]; unfold update; cbn [cm coverflow].
  - pose proof (entry_le c k x Hp Hk) as Hx. unfold series_total in Hx. specialize (Hp k x Hk) as Hpx. rewrite finc_exact by lia.
    rewrite (msum_insert_Some _ _ _ _ _ Hk). split; [lia|]. split; [done|]. intros k' y Hy. apply lookup_insert_Some in Hy as [[_ <-]|[_ Hy]]; [lia|by eapply Hp].
  - rewrite finc_exact by lia. split; [lia|]. split; [lia|done].
  - rewrite finc_exact by lia. rewrite msum_insert_None by done. split; [lia|]. split; [done|].
    intros k' y Hy. apply lookup_insert_Some in Hy as [[_ <-]|[_ Hy]]; [lia|by eapply Hp].
Qed.

Lemma inc_bytes k c : bytes_ok (cm c) (cbytes c) -> bytes_ok (cm (inc k c)) (cbytes (inc k c)).
Proof.
  intros H. destruct (inc_recorded k c) as [x Hk|Hk|Hk Hr Hb Hz]; unfold update; cbn [cm cbytes]; [by eapply bytes_update|done|by apply bytes_insert].
Qed.

(** With a budget, the keys stay within it. *)
Lemma inc_keys top k c : 0 < cmax c <= top -> zsize (cm c) <= top -> zsize (cm (inc k c)) <= top /\ cmax (inc k c) = cmax c.
Proof.
  intros Hm Hs. destruct (inc_recorded k c) as [x Hk|Hk|Hk Hr Hb Hz]; unfold update; cbn [cm cmax]; (split; [|done]); [|done|].
  - by rewrite (zsize_insert_Some _ _ _ _ Hk).
  - rewrite zsize_insert_None by done. lia.
Qed.

(** A known key keeps counting; other keys are left alone. *)
Lemma inc_other k k' c : k <> k' -> cm (inc k c) !! k' = cm c !! k'.
Proof. intros H. destruct (inc_recorded k c); unfold update; cbn [cm]; by rewrite ?lookup_insert_ne. Qed.

(** ** The gauge *)

Lemma gauge_bytes k v g : bytes_ok (gm g) (gbytes g) -> bytes_ok (gm (gauge_set k v g)) (gbytes (gauge_set k v g)).
Proof.
  intros H. unfold gauge_set. destruct (retainedStringBytes k) as [cost valid] eqn:Er. assert (cost = cost_of k) as -> by (unfold cost_of; by rewrite Er).
  case_bool_decide as Hk; destruct (negb valid || _ || _) eqn:Eg; unfold update; cbn [gm gbytes]; try done.
  - destruct Hk as [x Hk]. replace (gbytes g - cost_of k + cost_of k) with (gbytes g) by lia. by eapply bytes_update.
  - bool_prop. rewrite Z.sub_0_r in *. apply bytes_insert; [done| |by rewrite Er|done]. by apply eq_None_not_Some.
Qed.

Lemma unset_bytes k g : bytes_ok (gm g) (gbytes g) -> bytes_ok (gm (gauge_unset k g)) (gbytes (gauge_unset k g)).
Proof. intros H. unfold gauge_unset. destruct (gm g !! k) as [v|] eqn:E; [|done]. unfold update. cbn [gm gbytes]. by eapply bytes_delete. Qed.

Lemma gauge_keys top k v g : 0 < gmax g <= top -> zsize (gm g) <= top -> zsize (gm (gauge_set k v g)) <= top /\ gmax (gauge_set k v g) = gmax g.
Proof.
  intros Hm Hs. unfold gauge_set. destruct (retainedStringBytes k) as [cost valid]. case_bool_decide as Hk; destruct (negb valid || _ || _) eqn:Eg;
    unfold update; cbn [gm gmax]; (split; [|done]); try done.
  - destruct Hk as [x Hk]. by rewrite (zsize_insert_Some _ _ _ _ Hk).
  - apply eq_None_not_Some in Hk. rewrite zsize_insert_None by done. bool_prop.
    destruct (0 <? gmax g) eqn:E0; bool_prop; [|lia]. cbn [negb andb] in *. bool_prop. lia.
Qed.

Lemma unset_keys k g : zsize (gm (gauge_unset k g)) <= zsize (gm g) /\ gmax (gauge_unset k g) = gmax g.
Proof.
  unfold gauge_unset. destruct (gm g !! k) as [v|] eqn:E; [|done]. unfold update. cbn [gm gmax]. rewrite (zsize_delete _ _ _ E). split; [lia|done].
Qed.

(** The last value of a key. *)
Lemma gauge_last k v g : gm (gauge_set k v g) !! k = Some v \/ gauge_set k v g = g <| goverflow ::= finc |>.
Proof.
  unfold gauge_set. destruct (retainedStringBytes k) as [cost valid]. case_bool_decide; destruct (negb valid || _ || _); auto;
    left; unfold update; cbn [gm]; by rewrite lookup_insert_eq.
Qed.

(** ** [boundedInventory] *)

(** An entity is known by its name; what was observed of it is its value. *)
Record inventoryRecord := mkInv { ival : list string; ilast : Time; icost : Z }.
Record boundedInventory := mkInventory {
  im : gmap string inventoryRecord; imax : Z; ittl : Duration; refusals : Z; ibytes : Z; nextExpiry : Time }.
#[export] Instance eta_inventory : Eta boundedInventory := fun b => mkInventory (im b) (imax b) (ittl b) (refusals b) (ibytes b) (nextExpiry b).

Definition newBoundedInventory (max : Z) (ttl : Duration) : boundedInventory := mkInventory ∅ max ttl 0 0 0.

(** [if b.nextExpiry.IsZero() || expiry.Before(b.nextExpiry)] *)
Definition sooner (expiry : Time) (b : boundedInventory) : boundedInventory :=
  if IsZero (nextExpiry b) || (expiry <? nextExpiry b) then b <| nextExpiry := expiry |> else b.

Definition prune_step (now : Time) (b : boundedInventory) (e : string * inventoryRecord) : boundedInventory :=
  if ittl b <=? time_Sub now (ilast e.2) then b <| ibytes := ibytes b - icost e.2 |> <| im ::= delete e.1 |>
  else sooner (time_Add (ilast e.2) (ittl b)) b.
Definition prune (now : Time) (b : boundedInventory) : boundedInventory :=
  fold_left (prune_step now) (map_to_list (im b)) (b <| nextExpiry := 0 |>).

Definition old_cost (k : string) (b : boundedInventory) : Z := match im b !! k with Some r => icost r | None => 0 end.
(** Whether the budget turns a sighting away. *)
Definition over (k : string) (cost : Z) (b : boundedInventory) : bool :=
  (maxRetainedFamilyBytes <? ibytes b - old_cost k b + cost)
  || (negb (bool_decide (is_Some (im b !! k))) && (0 <? imax b) && (imax b <=? zsize (im b))).

Definition inv_seen (k : string) (v : list string) (now : Time) (b : boundedInventory) : boundedInventory :=
  let '(cost, valid) := retainedStringBytes (k :: v) in
  if negb valid then b <| refusals ::= finc |>
  else
    let b := if over k cost b && negb (now <? nextExpiry b) then prune now b else b in
    if over k cost b then b <| refusals ::= finc |>
    else sooner (time_Add now (ittl b))
           (b <| ibytes := ibytes b - old_cost k b + cost |> <| im ::= <[k := mkInv v now cost]> |>).

Definition name_before (x y : string * list string) : bool := str_lt x.1 y.1.
Definition live (now : Time) (b : boundedInventory) : list (string * list string) * boundedInventory :=
  let b := prune now b in
  (sort_by name_before (map (fun e => (e.1, ival e.2)) (map_to_list (im b))), b).

(** *** What an inventory holds *)

Definition expired (now : Time) (ttl : Duration) (r : inventoryRecord) : bool := ttl <=? time_Sub now (ilast r).

(** The bytes are those of the entries, both budgets hold, and no entry expires before
    the watermark. *)
Record inventory_ok (b : boundedInventory) : Prop := {
  io_bytes : ibytes b = msum (fun _ r => icost r) (im b);
  io_budget : ibytes b <= maxRetainedFamilyBytes;
  io_entries : forall k r, im b !! k = Some r -> icost r = cost_of (k :: ival r) /\ 0 < ilast r;
  io_keys : 0 < imax b -> zsize (im b) <= imax b;
  io_ttl : 0 <= ittl b < maxDuration;
  io_next : 0 <= nextExpiry b;
  io_soon : forall k r, im b !! k = Some r -> 0 < nextExpiry b <= ilast r + ittl b }.

Lemma sooner_next e b : 0 < e -> 0 <= nextExpiry b ->
  0 < nextExpiry (sooner e b) <= e /\ (0 < nextExpiry b -> nextExpiry (sooner e b) <= nextExpiry b).
Proof.
  intros He Hn. unfold sooner, IsZero. destruct (Z.eqb_spec (nextExpiry b) 0), (Z.ltb_spec e (nextExpiry b)); unfold update; cbn; lia.
Qed.
Lemma sooner_same e b : im (sooner e b) = im b /\ ibytes (sooner e b) = ibytes b /\ (imax (sooner e b), ittl (sooner e b), refusals (sooner e b)) = (imax b, ittl b, refusals b).
Proof. unfold sooner. by destruct (_ || _). Qed.

(** The loop, over any part of the map. *)
Lemma prune_loop now l : forall b, 0 <= ittl b -> 0 <= nextExpiry b -> NoDup (map fst l) ->
  (forall k r, (k, r) ∈ l -> im b !! k = Some r /\ 0 < ilast r) ->
  let b' := fold_left (prune_step now) l b in
  (imax b', ittl b', refusals b') = (imax b, ittl b, refusals b)
  /\ ibytes b' - msum (fun _ r => icost r) (im b') = ibytes b - msum (fun _ r => icost r) (im b)
  /\ 0 <= nextExpiry b' /\ (0 < nextExpiry b -> 0 < nextExpiry b' <= nextExpiry b)
  /\ (forall k r, (k, r) ∈ l -> expired now (ittl b) r = false -> 0 < nextExpiry b' <= ilast r + ittl b)
  /\ (forall k x, im b' !! k = Some x <-> im b !! k = Some x /\ ((k, x) ∈ l -> expired now (ittl b) x = false)).
Proof.
  induction l as [|[k r] l IH]; intros b Ht Hn Hd Hl; cbn [fold_left].
  { split; [done|]. split; [done|]. split; [done|]. split; [lia|]. split; set_solver. }
  cbn [map fst] in Hd. apply NoDup_cons in Hd as [Hk Hd]. destruct (Hl k r ltac:(constructor)) as [Hr Hpos].
  assert (forall x, (k, x) ∉ l) as Hkl by (intros x Hx; apply Hk; apply (list_elem_of_fmap_2 fst) in Hx; exact Hx).
  set (b1 := prune_step now b (k, r)).
  assert ((imax b1, ittl b1, refusals b1) = (imax b, ittl b, refusals b) /\ ibytes b1 - msum (fun _ r => icost r) (im b1) = ibytes b - msum (fun _ r => icost r) (im b)
    /\ 0 <= nextExpiry b1 /\ (0 < nextExpiry b -> 0 < nextExpiry b1 <= nextExpiry b) /\ (expired now (ittl b) r = false -> 0 < nextExpiry b1 <= ilast r + ittl b)
    /\ (forall k' x, im b1 !! k' = Some x <-> im b !! k' = Some x /\ (k' = k -> expired now (ittl b) r = false))) as (C1 & B1 & N1 & N2 & N3 & M1).
  { unfold b1, prune_step. change (ittl b <=? time_Sub now (ilast (k, r).2)) with (expired now (ittl b) r). destruct (expired now (ittl b) r) eqn:Ee.
    - pose proof (msum_delete (fun _ r => icost r) _ _ _ Hr) as Hm. cbv beta in Hm. unfold update; cbn [fst snd im imax ittl refusals ibytes nextExpiry].
      split; [done|]. split; [lia|]. split; [done|]. split; [lia|]. split; [done|]. intros k' x. rewrite lookup_delete_Some. naive_solver.
    - cbn [snd]. unfold time_Add. destruct (sooner_next (ilast r + ittl b) b ltac:(lia) Hn) as [H1 H2]. destruct (sooner_same (ilast r + ittl b) b) as (E1 & E2 & E3).
      rewrite E1, E2. split; [done|]. split; [done|]. split; [lia|]. split; [intros Hz; specialize (H2 Hz); lia|]. split; [done|]. naive_solver. }
  pose proof C1 as [= C2 C3 C4]. destruct (IH b1) as (C5 & B2 & N4 & N5 & N6 & M2); [lia|done|done| |].
  { intros k' x Hx. destruct (Hl k' x ltac:(by constructor)) as [Hx1 Hx2]. split; [|done]. apply M1. split; [done|]. intros ->. by destruct (Hkl x). }
  rewrite C3 in N6, M2. split; [congruence|]. split; [lia|]. split; [done|]. split; [intros Hz; specialize (N2 Hz); specialize (N5 ltac:(lia)); lia|]. split.
  - intros k' x [[= -> ->]|Hx]%elem_of_cons Hx2; [specialize (N3 Hx2); specialize (N5 ltac:(lia)); lia|by apply (N6 k' x)].
  - intros k' x. rewrite M2, M1, elem_of_cons. split.
    + intros [[Hx Hx1] Hx2]. split; [done|]. intros [[= -> ->]|Hx3]; auto.
    + intros [Hx Hx1]. split; [split; [done|]|auto]. intros ->. rewrite Hr in Hx. injection Hx as ->. apply Hx1. by left.
Qed.

Lemma msum_subseteq {K A} `{Countable K} (f : K -> A -> Z) (m m' : gmap K A) : (forall k a, m' !! k = Some a -> 0 <= f k a) -> m ⊆ m' -> msum f m <= msum f m'.
Proof.
  intros Hp Hs. revert m' Hp Hs. induction m as [|k a m Hk IH] using map_ind; intros m' Hp Hs; [by apply msum_nonneg|].
  rewrite msum_insert_None by done. assert (m' !! k = Some a) as Hk' by (eapply lookup_weaken; [apply lookup_insert_eq|done]).
  pose proof (msum_delete f _ _ _ Hk') as Hd. cbv beta in Hd. specialize (IH (delete k m')).
  assert (msum f m <= msum f (delete k m')); [|lia]. apply IH.
  - intros k' x Hx. apply lookup_delete_Some in Hx as [_ Hx]. by apply Hp.
  - apply map_subseteq_spec. intros k' x Hx. apply lookup_delete_Some. split; [congruence|]. eapply lookup_weaken; [|done]. rewrite lookup_insert_ne; [done|congruence].
Qed.

Lemma prune_spec now b : inventory_ok b -> let b' := prune now b in
  inventory_ok b' /\ (imax b', ittl b', refusals b') = (imax b, ittl b, refusals b)
  /\ forall k x, im b' !! k = Some x <-> im b !! k = Some x /\ expired now (ittl b) x = false.
Proof.
  intros [Hb Hc He Hm Ht Hn Hs]. unfold prune. set (b0 := b <| nextExpiry := 0 |>).
  destruct (prune_loop now (map_to_list (im b)) b0) as (C & B & N & _ & S & M); [apply Ht|done|apply NoDup_fst_map_to_list| |].
  { intros k r Hr. apply elem_of_map_to_list in Hr. split; [done|]. by apply (He k r). }
  set (b' := fold_left (prune_step now) (map_to_list (im b)) b0) in *. change (im b0) with (im b) in *. change (ibytes b0) with (ibytes b) in *. change (ittl b0) with (ittl b) in *.
  assert (forall k x, im b' !! k = Some x <-> im b !! k = Some x /\ expired now (ittl b) x = false) as M'.
  { intros k x. rewrite M. split; intros [Hx Hx']; (split; [done|]); [apply Hx'; by apply elem_of_map_to_list|done]. }
  assert (im b' ⊆ im b) as Hsub by (apply map_subseteq_spec; intros k x Hx; by apply M').
  pose proof C as [= C1 C2 C3]. cbn [imax ittl refusals b0 update] in C1, C2, C3. split; [|split; [exact C|done]]. split.
  - lia.
  - assert (msum (fun _ r => icost r) (im b') <= msum (fun _ r => icost r) (im b)); [|lia]. apply (msum_subseteq (fun _ r => icost r)); [|done].
    intros k r Hr. destruct (He k r Hr) as [-> _]. apply cost_nonneg.
  - intros k r Hr. apply M' in Hr as [Hr _]. by apply (He k r).
  - intros H. change (imax b0) with (imax b) in C1. rewrite C1 in *. specialize (Hm H). pose proof (subseteq_size _ _ (subseteq_dom _ _ Hsub)) as Hz. rewrite !size_dom in Hz. unfold zsize in *. lia.
  - change (ittl b0) with (ittl b) in C2. by rewrite C2.
  - done.
  - intros k r Hr. change (ittl b0) with (ittl b) in C2. rewrite C2. apply M' in Hr as [Hr Hx]. apply (S k r); [by apply elem_of_map_to_list|done].
Qed.

Lemma new_inventory_ok max ttl : 0 <= ttl < maxDuration -> inventory_ok (newBoundedInventory max ttl).
Proof. 
  intros Ht. split; try done; try (intros k r Hr; cbn in Hr; by apply lookup_empty_Some in Hr).
  intros H. change (zsize (im (newBoundedInventory max ttl))) with 0. lia.
Qed.

Lemma inventory_lookup b k : old_cost k b = 0 /\ im b !! k = None \/ exists r, im b !! k = Some r /\ old_cost k b = icost r.
Proof. unfold old_cost. destruct (im b !! k) as [r|]; eauto. Qed.

(** An entry the budgets have room for. *)
Lemma enter_ok k v now b : inventory_ok b -> 0 < now -> over k (cost_of (k :: v)) b = false ->
  inventory_ok (sooner (time_Add now (ittl b)) (b <| ibytes := ibytes b - old_cost k b + cost_of (k :: v) |> <| im ::= <[k := mkInv v now (cost_of (k :: v))]> |>)).
Proof.
  intros [Hb Hc He Hm Ht Hn Hs] Hnow Ho. unfold over in Ho. bool_prop. set (b1 := b <| ibytes := _ |> <| im ::= _ |>).
  destruct (sooner_next (time_Add now (ittl b)) b1) as [H1 H2]; [unfold time_Add; lia|done|]. destruct (sooner_same (time_Add now (ittl b)) b1) as (E1 & E2 & [= E3 E4 _]).
  change (ibytes b1) with (ibytes b - old_cost k b + cost_of (k :: v)) in *. change (im b1) with (<[k := mkInv v now (cost_of (k :: v))]> (im b)) in *.
  change (imax b1) with (imax b) in *. change (ittl b1) with (ittl b) in *. change (nextExpiry b1) with (nextExpiry b) in *. unfold time_Add in *.
  split; rewrite ?E1, ?E2, ?E3, ?E4; [| | | | |lia|].
  - destruct (inventory_lookup b k) as [[-> Hk]|(r & Hk & ->)]; [rewrite msum_insert_None by done|rewrite (msum_insert_Some _ _ _ _ _ Hk)]; cbn [icost]; lia.
  - done.
  - intros k' r Hr. apply lookup_insert_Some in Hr as [[<- <-]|[_ Hr]]; [done|by apply He].
  - intros Hp. specialize (Hm Hp). destruct (im b !! k) as [r|] eqn:Ek; [by rewrite (zsize_insert_Some _ _ _ _ Ek)|]. rewrite zsize_insert_None by done.
    rewrite bool_decide_eq_false_2 in * by (by intros [? ?]). cbn [negb andb] in *. destruct (0 <? imax b) eqn:E0; bool_prop; [|lia]. cbn [andb] in *. bool_prop. lia.
  - done.
  - intros k' r Hr. apply lookup_insert_Some in Hr as [[<- <-]|[_ Hr]]; [cbn [ilast]; lia|]. destruct (Hs k' r Hr) as [Hs1 Hs2]. specialize (H2 Hs1). lia.
Qed.

Lemma refuse_ok b : inventory_ok b -> inventory_ok (b <| refusals ::= finc |>).
Proof. intros [Hb Hc He Hm Ht Hn Hs]. by split. Qed.

(** Before the watermark nothing has expired. *)
Lemma prune_early now b : inventory_ok b -> now < nextExpiry b -> im (prune now b) = im b /\ ibytes (prune now b) = ibytes b.
Proof.
  intros Hb Hn. destruct (prune_spec now b Hb) as (Hb1 & _ & M). assert (im (prune now b) = im b) as E.
  { apply map_eq. intros k. apply option_eq. intros x. rewrite M. split; [by intros [? _]|]. intros Hx. split; [done|]. unfold expired, time_Sub.
    destruct (io_soon b Hb k x Hx) as [_ Hs]. pose proof (io_ttl b Hb). apply Z.leb_gt. unfold maxDuration, minDuration in *. lia. }
  split; [done|]. by rewrite (io_bytes _ Hb1), (io_bytes _ Hb), E.
Qed.

Lemma over_ext k cost b b' : im b' = im b -> ibytes b' = ibytes b -> imax b' = imax b -> over k cost b' = over k cost b.
Proof. intros E1 E2 E3. unfold over, old_cost. by rewrite E1, E2, E3. Qed.

(** The inventory the budgets are tried against the second time. *)
Definition retried (k : string) (cost : Z) (now : Time) (b : boundedInventory) : boundedInventory :=
  if over k cost b && negb (now <? nextExpiry b) then prune now b else b.

Lemma retried_spec k cost now b (b2 := retried k cost now b) : inventory_ok b ->
  inventory_ok b2 /\ (imax b2, ittl b2, refusals b2) = (imax b, ittl b, refusals b)
  /\ (over k cost b2 = true -> over k cost (prune now b) = true)
  /\ (forall k' x, im b2 !! k' = Some x -> im b !! k' = Some x)
  /\ (forall k' x, im b !! k' = Some x -> expired now (ittl b) x = false -> im b2 !! k' = Some x).
Proof.
  intros Hb. destruct (prune_spec now b Hb) as (Hb1 & Hc & M). unfold b2, retried. destruct (over k cost b) eqn:Eo; cbn [andb].
  - destruct (Z.ltb_spec now (nextExpiry b)) as [Hn|Hn]; cbn [negb].
    + split; [done|]. split; [done|]. split; [|by auto]. intros _. destruct (prune_early now b Hb Hn) as [E1 E2]. rewrite <- Eo. apply over_ext; [done|done|]. congruence.
    + split; [done|]. split; [done|]. split; [done|]. split; [intros k' x Hx; by apply M|]. intros k' x Hx He. by apply M.
  - split; [done|]. split; [done|]. split; [congruence|]. by auto.
Qed.

(** A sighting: the entry is recorded, or the budgets are full with entries that are
    still live (or a string is too long) and the refusal is counted. *)
Lemma seen_spec k v now b (b' := inv_seen k v now b) : inventory_ok b -> 0 < now ->
  inventory_ok b' /\ (imax b', ittl b') = (imax b, ittl b)
  /\ (refusals b' = refusals b /\ im b' !! k = Some (mkInv v now (cost_of (k :: v)))
        /\ (forall k' x, k' <> k -> im b' !! k' = Some x -> im b !! k' = Some x)
        /\ (forall k' x, k' <> k -> im b !! k' = Some x -> expired now (ittl b) x = false -> im b' !! k' = Some x)
      \/ refusals b' = finc (refusals b) /\ ((retainedStringBytes (k :: v)).2 = false \/ over k (cost_of (k :: v)) (prune now b) = true)
        /\ forall k' x, im b' !! k' = Some x -> im b !! k' = Some x).
Proof.
  intros Hb Hnow. unfold b', inv_seen. destruct (retainedStringBytes (k :: v)) as [cost valid] eqn:Er.
  assert (cost = cost_of (k :: v)) as -> by (unfold cost_of; by rewrite Er). destruct valid; cbn [negb].
  - cbv zeta. fold (retried k (cost_of (k :: v)) now b). destruct (retried_spec k (cost_of (k :: v)) now b Hb) as (Hb2 & [= C1 C2 C3] & Ho & M1 & M2).
    set (b2 := retried k (cost_of (k :: v)) now b) in *. clearbody b2. destruct (over k (cost_of (k :: v)) b2) eqn:Eo.
    + split; [by apply refuse_ok|]. split; [cbn; congruence|]. right. split; [cbn; congruence|]. split; [right; by apply Ho|]. exact M1.
    + split; [by apply enter_ok|]. set (b3 := b2 <| ibytes := _ |> <| im ::= _ |>). destruct (sooner_same (time_Add now (ittl b2)) b3) as (E1 & _ & [= E2 E3 E4]).
      split; [by rewrite E2, E3, <- C1, <- C2|]. left. split; [by rewrite E4, <- C3|]. rewrite E1. change (im b3) with (<[k := mkInv v now (cost_of (k :: v))]> (im b2)).
      split; [apply lookup_insert_eq|]. split; intros k' x Hk; rewrite lookup_insert_ne by done; auto.
  - split; [by apply refuse_ok|]. split; [done|]. right. split; [done|]. split; [by left|]. done.
Qed.

#[export] Instance name_before_weak : WeakOrder name_before.
Proof. split; intros *; unfold name_before; [apply lt_asym|apply lt_negtrans]. Qed.

Lemma live_spec now b : inventory_ok b -> let '(l, b') := live now b in
  inventory_ok b' /\ (imax b', ittl b', refusals b') = (imax b, ittl b, refusals b)
  /\ zlen l = zsize (im b') /\ NoDup (map fst l) /\ StronglySorted (not_after name_before) l
  /\ forall k v, (k, v) ∈ l <-> exists r, im b !! k = Some r /\ ival r = v /\ expired now (ittl b) r = false.
Proof.
  intros Hb. unfold live. destruct (prune_spec now b Hb) as (Hb' & Hc & M). split; [done|]. split; [done|].
  set (l := map (fun e => (e.1, ival e.2)) (map_to_list (im (prune now b)))).
  assert (map fst l = map fst (map_to_list (im (prune now b)))) as Hl by (unfold l; rewrite map_map; done).
  split; [|split; [|split]].
  - unfold zlen, zsize. rewrite sort_by_length. unfold l. by rewrite length_map, length_map_to_list.
  - rewrite (Permutation_map fst (sort_by_perm name_before l)), Hl. apply NoDup_fst_map_to_list.
  - apply (sort_by_sorted name_before).
  - intros k v. rewrite sort_by_perm. unfold l. rewrite list_elem_of_fmap. split.
    + intros ([k' r] & [= -> ->] & Hr). apply elem_of_map_to_list, M in Hr as [Hr He]. eauto.
    + intros (r & Hr & <- & He). exists (k, r). split; [done|]. apply elem_of_map_to_list, M. done.
Qed.

(** ** [filterlogDomainCounter] *)

Definition maxFilterlogDomainMetricSeries : nat := 50.
Definition maxFilterlogDomainCandidates : Z := 4096.
Definition filterlogDomainOther : string := "other".

Record filterlogDomainCounter := mkDomains { dm : gmap string Z; dmax : Z; dtotal : Z; dbytes : Z }.
#[export] Instance eta_domains : Eta filterlogDomainCounter := fun c => mkDomains (dm c) (dmax c) (dtotal c) (dbytes c).

Definition newFilterlogDomainCounter (max : Z) : filterlogDomainCounter := mkDomains ∅ max 0 0.

(** [least], over the candidates in the order the map yields them. *)
Definition less (a b : string * Z) : bool := (a.2 <? b.2) || ((a.2 =? b.2) && str_lt a.1 b.1).
Definition least_step (best : option (string * Z)) (e : string * Z) : option (string * Z) :=
  match best with None => Some e | Some b => if less e b then Some e else best end.
Definition least (c : filterlogDomainCounter) : option (string * Z) := fold_left least_step (map_to_list (dm c)) None.

Definition domain_inc (domain : string) (c : filterlogDomainCounter) : filterlogDomainCounter :=
  let c := c <| dtotal ::= finc |> in
  if str_eq domain filterlogDomainOther then c
  else
    match dm c !! domain with
    | Some count => c <| dm ::= <[domain := finc count]> |>
    | None =>
        let '(cost, valid) := retainedStringBytes [domain] in
        if negb valid then c
        else if ((dmax c <=? 0) || (zsize (dm c) <? dmax c)) && (dbytes c + cost <=? maxRetainedFamilyBytes) then
          c <| dm ::= <[domain := 1]> |> <| dbytes := dbytes c + cost |>
        else
          match least c with
          | None => c
          | Some (victim, _) =>
              let victimCost := cost_of [victim] in
              if maxRetainedFamilyBytes <? dbytes c - victimCost + cost then c
              else c <| dm ::= fun m => <[domain := 1]> (delete victim m) |> <| dbytes := dbytes c - victimCost + cost |>
          end
    end.

(** [topFilterlogDomains] *)
Definition busier (a b : string * Z) : bool := if a.2 =? b.2 then str_lt a.1 b.1 else b.2 <? a.2.
Definition points (c : filterlogDomainCounter) : list (string * Z) :=
  take maxFilterlogDomainMetricSeries (sort_by busier (map_to_list (dm c))).
Definition other_of (c : filterlogDomainCounter) : Z := fsub (dtotal c) (fold_left (fun s p => fadd s p.2) (points c) 0).
Definition topFilterlogDomains (c : filterlogDomainCounter) : list (string * Z) :=
  points c ++ (if 0 <? other_of c then [(filterlogDomainOther, other_of c)] else []).

(** A domain that was evicted starts again at one: its series goes backwards. *)
Example domain_reset :
  let c := domain_inc "a" (domain_inc "a" (newFilterlogDomainCounter 1)) in
  (topFilterlogDomains c, topFilterlogDomains (domain_inc "a" (domain_inc "b" c))) = ([("a", 2)], [("a", 1); ("other", 3)]).
Proof. vm_compute. reflexivity. Qed.

(** ** The busiest domains *)

#[export] Instance busier_total : StrictTotal busier.
Proof.
  split; unfold busier.
  - intros [d n]. cbn. rewrite Z.eqb_refl. apply st_irrefl.
  - intros [d1 n1] [d2 n2] [d3 n3]. cbn. destruct (n1 =? n2) eqn:E1; destruct (n2 =? n3) eqn:E2; destruct (n1 =? n3) eqn:E3; intros; bool_prop; try lia;
      try (by eapply st_trans); apply Z.ltb_lt; lia.
  - intros [d1 n1] [d2 n2]. cbn. rewrite (Z.eqb_sym n2 n1). destruct (n1 =? n2) eqn:E; intros; bool_prop; [|lia]. subst. f_equal. by apply (st_total d1 d2).
Qed.

(** Of any pairs of a list, as many as are taken of the sorted list sum to no more. *)
Lemma take_largest (l : list (string * Z)) : StronglySorted (not_after busier) l -> (forall e, e ∈ l -> 0 <= e.2) ->
  forall n s, s ⊆+ l -> (length s <= n)%nat -> lsum snd s <= lsum snd (take n l).
Proof.
  induction 1 as [|x l Hs IH Hx]; intros Hp n s Hsub Hn; [apply submseteq_nil_r in Hsub as ->; by rewrite take_nil|].
  destruct n as [|n]; [destruct s; [done|cbn in Hn; lia]|]. cbn [take]. rewrite lsum_cons.
  assert (forall e, e ∈ l -> 0 <= e.2) as Hpl by (intros e He; apply Hp; by constructor).
  apply submseteq_cons_r in Hsub as [Hsub|(s' & Hs' & Hsub)].
  - etransitivity; [by apply (IH Hpl (S n) s)|]. destruct (decide (n < length l)%nat) as [Hlt|Hge].
    + destruct (lookup_lt_is_Some_2 l n Hlt) as [y Hy]. rewrite (take_S_r l n y Hy), lsum_app. change (lsum snd [y]) with (y.2 + 0).
      apply list_elem_of_lookup_2 in Hy. rewrite Forall_forall in Hx. specialize (Hx y Hy). unfold not_after, busier in Hx.
      destruct (y.2 =? x.2) eqn:E; bool_prop; lia.
    + rewrite !take_ge by lia. assert (0 <= x.2) by (apply Hp; constructor). lia.
  - rewrite (lsum_perm snd _ _ Hs'), lsum_cons. assert (length s' <= n)%nat by (apply Permutation_length in Hs'; cbn in Hs'; lia).
    pose proof (IH Hpl n s' Hsub ltac:(done)). lia.
Qed.

Definition positive (m : gmap string Z) : Prop := forall d x, m !! d = Some x -> 0 < x.
Definition top_sum (m : gmap string Z) : Z := lsum snd (take maxFilterlogDomainMetricSeries (sort_by busier (map_to_list m))).

Lemma entries_positive m e : positive m -> e ∈ sort_by busier (map_to_list m) -> 0 < e.2.
Proof. intros Hp He. rewrite sort_by_perm in He. destruct e as [d x]. apply elem_of_map_to_list in He. by eapply Hp. Qed.

Lemma top_sum_max m s : positive m -> s ⊆+ map_to_list m -> (length s <= maxFilterlogDomainMetricSeries)%nat -> lsum snd s <= top_sum m.
Proof.
  intros Hp Hs Hn. apply take_largest; [apply sort_by_sorted; apply _| |by rewrite sort_by_perm|done].
  intros e He. apply entries_positive in He; [lia|done].
Qed.

Lemma top_sum_le m : positive m -> 0 <= top_sum m <= msum (fun _ x => x) m.
Proof.
  intros Hp. unfold top_sum. set (l := sort_by busier (map_to_list m)). assert (forall e, e ∈ l -> 0 <= e.2) as He
    by (intros e He; apply entries_positive in He; [lia|done]).
  split; [apply lsum_nonneg; intros e H; apply He; rewrite <- (take_drop maxFilterlogDomainMetricSeries l); apply elem_of_app; by left|].
  rewrite msum_list. change (lsum _ (map_to_list m)) with (lsum snd (map_to_list m)).
  rewrite <- (lsum_perm snd l (map_to_list m)) by (unfold l; apply sort_by_perm). rewrite <- (lsum_take_drop snd maxFilterlogDomainMetricSeries l).
  assert (0 <= lsum snd (drop maxFilterlogDomainMetricSeries l)); [|lia]. apply lsum_nonneg. intros e H. apply He.
  rewrite <- (take_drop maxFilterlogDomainMetricSeries l). apply elem_of_app. by right.
Qed.

(** The pairs of the same keys in another map. *)
Definition restrict (m : gmap string Z) (t : list (string * Z)) : list (string * Z) :=
  omap (fun e => option_map (pair e.1) (m !! e.1)) t.

Lemma restrict_keys m t d x : (d, x) ∈ restrict m t -> m !! d = Some x /\ d ∈ map fst t.
Proof.
  unfold restrict. rewrite list_elem_of_omap. intros ([k y] & He & H). cbn in H. destruct (m !! k) as [z|] eqn:E; [|done]. injection H as <- <-.
  split; [done|]. apply list_elem_of_In, in_map_iff. exists (k, y). split; [done|by apply list_elem_of_In].
Qed.

Lemma restrict_sub m t : NoDup (map fst t) -> restrict m t ⊆+ map_to_list m.
Proof.
  intros Hn. apply NoDup_submseteq.
  - induction t as [|[k x] t IH]; [constructor|]. cbn in Hn. apply NoDup_cons in Hn as [Hk Hn]. unfold restrict. cbn.
    destruct (m !! k) as [y|]; [|by apply IH]. cbn. constructor; [|by apply IH]. intros Hin. by apply (restrict_keys m t k y) in Hin as [_ Hin].
  - intros [d x] He. apply restrict_keys in He as [He _]. by apply elem_of_map_to_list.
Qed.

Lemma restrict_length m t : (length (restrict m t) <= length t)%nat.
Proof. induction t as [|[k x] t IH]; [done|]. unfold restrict in *. cbn. destruct (m !! k); cbn in *; lia. Qed.

Lemma restrict_sum m t d : NoDup (map fst t) -> (forall e, e ∈ t -> 0 < e.2 /\ (e.1 <> d -> m !! e.1 = Some e.2) /\ (e.1 = d -> e.2 = default 0 (m !! d) + 1)) ->
  lsum snd t <= lsum snd (restrict m t) + (if bool_decide (d ∈ map fst t) then 1 else 0).
Proof.
  induction t as [|[k x] t IH]; intros Hn He; [done|]. cbn [map] in *. apply NoDup_cons in Hn as [Hk Hn].
  destruct (He (k, x) ltac:(constructor)) as (Hx & Hne & Heq). cbn [fst snd] in *. specialize (IH Hn (fun e H => He e (list_elem_of_further _ _ _ H))).
  rewrite lsum_cons. cbn [snd]. unfold restrict. cbn [omap list_omap fst]. destruct (decide (k = d)) as [->|Hkd].
  - rewrite (bool_decide_eq_true_2 (d ∈ d :: _)) by constructor. rewrite bool_decide_eq_false_2 in IH by done. specialize (Heq eq_refl).
    destruct (m !! d) as [y|]; cbn [option_map default] in *; [rewrite lsum_cons; cbn [snd]|]; unfold restrict in IH; cbn in Heq; lia.
  - rewrite (Hne Hkd). cbn [option_map]. rewrite lsum_cons. cbn [snd]. unfold restrict in IH.
    rewrite (bool_decide_ext (d ∈ k :: map fst t) (d ∈ map fst t)) by (rewrite elem_of_cons; split; [by intros [?|?]|by right]). lia.
Qed.

(** The sum of the busiest grows by at most one. *)
Lemma top_sum_step m m' d : positive m -> positive m' -> (forall k x, m' !! k = Some x -> k <> d -> m !! k = Some x) ->
  (forall x, m' !! d = Some x -> x = default 0 (m !! d) + 1) -> top_sum m' <= top_sum m + 1.
Proof.
  intros Hp Hp' Ho Hd. unfold top_sum at 1. set (t := take maxFilterlogDomainMetricSeries (sort_by busier (map_to_list m'))).
  assert (forall e, e ∈ t -> m' !! e.1 = Some e.2) as Ht.
  { intros [k x] He. apply elem_of_map_to_list. cbn [fst snd]. rewrite <- (sort_by_perm busier).
    rewrite <- (take_drop maxFilterlogDomainMetricSeries (sort_by busier (map_to_list m'))). apply elem_of_app. by left. }
  assert (NoDup (map fst t)) as Hn.
  { pose proof (NoDup_fst_map_to_list m') as Hn. rewrite <- (Permutation_map fst (sort_by_perm busier (map_to_list m'))) in Hn.
    rewrite <- (take_drop maxFilterlogDomainMetricSeries (sort_by busier (map_to_list m'))), map_app in Hn. by apply NoDup_app in Hn as [Hn _]. }
  assert (lsum snd (restrict m t) <= top_sum m).
  { apply top_sum_max; [done|by apply restrict_sub|]. etransitivity; [apply restrict_length|]. unfold t. rewrite length_take. lia. }
  assert (lsum snd t <= lsum snd (restrict m t) + (if bool_decide (d ∈ map fst t) then 1 else 0)); [|case_bool_decide; lia].
  apply restrict_sum; [done|]. intros e He. specialize (Ht e He). split; [by eapply Hp'|]. split; [by apply Ho|]. intros Hed. rewrite Hed in Ht. by apply Hd.
Qed.

(** After [n] observations. *)
Definition domains_ok (n : Z) (c : filterlogDomainCounter) : Prop :=
  dtotal c = n /\ positive (dm c) /\ msum (fun _ x => x) (dm c) <= n /\ dm c !! filterlogDomainOther = None
  /\ dbytes c = msum (fun d _ => cost_of [d]) (dm c) /\ dbytes c <= maxRetainedFamilyBytes /\ (0 < dmax c -> zsize (dm c) <= dmax c).

Lemma least_in c v x : least c = Some (v, x) -> dm c !! v = Some x.
Proof.
  unfold least. intros H. apply elem_of_map_to_list.
  assert (forall l best, fold_left least_step l best = Some (v, x) -> (v, x) ∈ l \/ best = Some (v, x)) as Hl.
  { clear H. induction l as [|e l IH]; intros best H; [by right|]. cbn in H. destruct (IH _ H) as [Hin|Hb]; [left; by constructor|].
    unfold least_step in Hb. destruct best as [b|]; [destruct (less e b)|]; simplify_eq; auto; left; constructor. }
  by destruct (Hl _ _ H) as [|].
Qed.

(** What one observation does to the candidates. *)
Inductive replaced (d : string) (c : filterlogDomainCounter) : gmap string Z -> Z -> Prop :=
| Folded : replaced d c (dm c) (dbytes c)
| Counted x : dm c !! d = Some x -> replaced d c (<[d := finc x]> (dm c)) (dbytes c)
| Joined : d <> filterlogDomainOther -> dm c !! d = None -> (0 < dmax c -> zsize (dm c) < dmax c) -> dbytes c + cost_of [d] <= maxRetainedFamilyBytes ->
    replaced d c (<[d := 1]> (dm c)) (dbytes c + cost_of [d])
| Swapped v x : d <> filterlogDomainOther -> dm c !! d = None -> dm c !! v = Some x -> dbytes c - cost_of [v] + cost_of [d] <= maxRetainedFamilyBytes ->
    replaced d c (<[d := 1]> (delete v (dm c))) (dbytes c - cost_of [v] + cost_of [d]).

Lemma domain_replaced d c : replaced d c (dm (domain_inc d c)) (dbytes (domain_inc d c)) /\ dtotal (domain_inc d c) = finc (dtotal c)
  /\ dmax (domain_inc d c) = dmax c.
Proof.
  unfold domain_inc. set (c' := c <| dtotal ::= finc |>). destruct (str_eq d filterlogDomainOther) eqn:Eo; [split; [exact (Folded d c)|done]|].
  change (dm c') with (dm c). change (dbytes c') with (dbytes c). change (dmax c') with (dmax c).
  destruct (dm c !! d) as [x|] eqn:Ed; [split; [exact (Counted d c x Ed)|done]|].
  destruct (retainedStringBytes [d]) as [cost valid] eqn:Er. assert (cost = cost_of [d]) as -> by (unfold cost_of; by rewrite Er).
  destruct (negb valid); [split; [exact (Folded d c)|done]|]. bool_prop. destruct (((dmax c <=? 0) || _) && _) eqn:Eg.
  - split; [|done]. apply andb_true_iff in Eg as [Eg Eb]. bool_prop. apply Joined; try done. intros Hm. apply orb_true_iff in Eg as [Eg|Eg]; bool_prop; lia.
  - destruct (least c') as [[v x]|] eqn:El; [|split; [exact (Folded d c)|done]]. apply least_in in El. change (dm c') with (dm c) in El. cbv zeta.
    destruct (maxRetainedFamilyBytes <? _) eqn:Eb; [split; [exact (Folded d c)|done]|]. bool_prop. split; [|done]. by apply (Swapped d c v x).
Qed.

Lemma domain_inc_ok n d c : n < 2 ^ 53 -> domains_ok n c -> domains_ok (n + 1) (domain_inc d c) /\ top_sum (dm (domain_inc d c)) <= top_sum (dm c) + 1.
Proof.
  intros Hn (Ht & Hp & Hs & Ho & Hb & Hc & Hm). unfold domains_ok. destruct (domain_replaced d c) as (Hr & -> & ->).
  pose proof (msum_nonneg (fun _ x => x) (dm c) (fun k a H => Z.lt_le_incl _ _ (Hp k a H))) as H0.
  rewrite finc_exact by lia. set (m' := dm (domain_inc d c)) in *. set (b' := dbytes (domain_inc d c)) in *.
  enough ((positive m' /\ msum (fun _ x => x) m' <= n + 1 /\ m' !! filterlogDomainOther = None
    /\ b' = msum (fun d _ => cost_of [d]) m' /\ b' <= maxRetainedFamilyBytes /\ (0 < dmax c -> zsize m' <= dmax c))
    /\ ((forall k x, m' !! k = Some x -> k <> d -> dm c !! k = Some x) /\ (forall x, m' !! d = Some x -> x = default 0 (dm c !! d) + 1)
        \/ m' = dm c)) as ((Hp' & Hrest) & Hcase).
  { split; [split; [lia|]; split; [done|exact Hrest]|]. destruct Hcase as [[H1 H2]|H2]; [by eapply top_sum_step|rewrite H2; lia]. }
  clearbody m' b'. destruct Hr as [|x Hx|Hd Hx Hz Hle|v x Hd Hx Hv Hle].
  - split; [|by right]. split; [done|]. split; [lia|]. done.
  - pose proof (msum_elem_le (fun _ x => x) (dm c) d x (fun k a H => Z.lt_le_incl _ _ (Hp k a H)) Hx) as Hxle. cbv beta in Hxle. specialize (Hp d x Hx) as Hxp.
    rewrite finc_exact by lia. rewrite !(msum_insert_Some _ _ _ _ _ Hx), (zsize_insert_Some _ _ _ _ Hx). split; [split; [|split; [lia|split; [|split; [lia|done]]]]|].
    + intros k y Hy. apply lookup_insert_Some in Hy as [[_ <-]|[_ Hy]]; [lia|by eapply Hp].
    + rewrite lookup_insert_ne; [done|]. intros ->. congruence.
    + left. split; [intros k y Hy Hk; by rewrite lookup_insert_ne in Hy|]. intros y Hy. rewrite lookup_insert_eq in Hy. injection Hy as <-. rewrite Hx. done.
  - rewrite !msum_insert_None, zsize_insert_None by done. split; [split; [|split; [lia|split; [|split; [lia|split; [lia|lia]]]]]|].
    + intros k y Hy. apply lookup_insert_Some in Hy as [[_ <-]|[_ Hy]]; [lia|by eapply Hp].
    + by rewrite lookup_insert_ne.
    + left. split; [intros k y Hy Hk; by rewrite lookup_insert_ne in Hy|]. intros y Hy. rewrite lookup_insert_eq in Hy. injection Hy as <-. rewrite Hx. done.
  - assert (delete v (dm c) !! d = None) as Hdel by (apply lookup_delete_None; by right).
    pose proof (msum_delete (fun _ x => x) _ _ _ Hv) as Hd1. pose proof (msum_delete (fun d _ => cost_of [d]) _ _ _ Hv) as Hd2. cbv beta in Hd1, Hd2.
    specialize (Hp v x Hv) as Hxp. rewrite !msum_insert_None, zsize_insert_None, (zsize_delete _ _ _ Hv) by done.
    split; [split; [|split; [lia|split; [|split; [lia|split; [lia|lia]]]]]|].
    + intros k y Hy. apply lookup_insert_Some in Hy as [[_ <-]|[_ Hy]]; [lia|]. apply lookup_delete_Some in Hy as [_ Hy]. by eapply Hp.
    + rewrite lookup_insert_ne by done. apply lookup_delete_None. by right.
    + left. split; [intros k y Hy Hk; rewrite lookup_insert_ne in Hy by done; by apply lookup_delete_Some in Hy as [_ Hy]|].
      intros y Hy. rewrite lookup_insert_eq in Hy. injection Hy as <-. rewrite Hx. done.
Qed.

Lemma fold_fadd l : forall acc, 0 <= acc -> (forall e : string * Z, e ∈ l -> 0 <= e.2) -> acc + lsum snd l <= 2 ^ 53 ->
  fold_left (fun s p => fadd s p.2) l acc = acc + lsum snd l.
Proof.
  induction l as [|e l IH]; intros acc Ha Hp Hs; [cbn; lia|]. cbn [fold_left]. rewrite lsum_cons in *.
  assert (0 <= e.2) by (apply Hp; constructor). assert (0 <= lsum snd l) by (apply lsum_nonneg; intros a Hin; apply Hp; by constructor).
  unfold fadd at 2. rewrite rnd_exact by lia. rewrite IH; [lia|lia| |lia]. intros a Hin. apply Hp. by constructor.
Qed.

Lemma other_exact n c : n <= 2 ^ 53 -> domains_ok n c -> other_of c = n - top_sum (dm c) /\ 0 <= n - top_sum (dm c).
Proof.
  intros Hn (Ht & Hp & Hs & _). destruct (top_sum_le (dm c) Hp) as [H0 Hle]. unfold other_of. fold (top_sum (dm c)) in *.
  rewrite fold_fadd; [|lia| |].
  - change (lsum snd (points c)) with (top_sum (dm c)). unfold fsub. rewrite Ht, rnd_exact by lia. lia.
  - intros e He. assert (e ∈ sort_by busier (map_to_list (dm c))) as Hin.
    { rewrite <- (take_drop maxFilterlogDomainMetricSeries (sort_by busier (map_to_list (dm c)))). apply elem_of_app. by left. }
    apply entries_positive in Hin; [lia|done].
  - change (lsum snd (points c)) with (top_sum (dm c)). lia.
Qed.

Definition domain_run (ds : list string) (c : filterlogDomainCounter) : filterlogDomainCounter := fold_left (fun c d => domain_inc d c) ds c.

Lemma domain_run_ok ds : forall n c, n + zlen ds <= 2 ^ 53 -> domains_ok n c ->
  domains_ok (n + zlen ds) (domain_run ds c) /\ top_sum (dm (domain_run ds c)) <= top_sum (dm c) + zlen ds.
Proof.
  induction ds as [|d ds IH]; intros n c Hn Hc; [rewrite !Z.add_0_r; split; [done|cbn; lia]|]. change (zlen (d :: ds)) with (Z.of_nat (S (length ds))) in *.
  unfold zlen in *. destruct (domain_inc_ok n d c) as [H1 H2]; [lia|done|].
  destruct (IH (n + 1) (domain_inc d c)) as [H3 H4]; [lia|done|]. change (domain_run (d :: ds) c) with (domain_run ds (domain_inc d c)).
  replace (n + Z.of_nat (S (length ds))) with (n + 1 + Z.of_nat (length ds)) by lia. split; [done|lia].
Qed.

Lemma new_domains_ok max : domains_ok 0 (newFilterlogDomainCounter max).
Proof.
  split; [done|]. split; [intros d x H; cbn in H; by apply lookup_empty_Some in H|]. split; [done|]. split; [done|]. split; [done|]. split; [done|].
  intros H. change (zsize _) with 0. lia.
Qed.

Lemma domain_run_max ds : forall c, dmax (domain_run ds c) = dmax c.
Proof.
  induction ds as [|d ds IH]; intros c; [done|]. change (domain_run (d :: ds) c) with (domain_run ds (domain_inc d c)). rewrite IH. apply domain_replaced.
Qed.

Lemma top_nodup c : dm c !! filterlogDomainOther = None -> NoDup (map fst (topFilterlogDomains c)).
Proof.
  intros Hoth. unfold topFilterlogDomains. rewrite map_app. apply NoDup_app.
  assert (map fst (points c) `sublist_of` map fst (sort_by busier (map_to_list (dm c)))) as Hsub.
  { rewrite <- (take_drop maxFilterlogDomainMetricSeries (sort_by busier (map_to_list (dm c)))), map_app. apply sublist_inserts_r. done. }
  split; [|split; [|destruct (0 <? other_of c); repeat constructor; set_solver]].
  - eapply sublist_NoDup; [|exact Hsub]. rewrite (Permutation_map fst (sort_by_perm busier (map_to_list (dm c)))). apply NoDup_fst_map_to_list.
  - intros d Hd Hin. assert (d = filterlogDomainOther) as -> by (destruct (0 <? other_of c); [by apply list_elem_of_singleton in Hin|by apply not_elem_of_nil in Hin]).
    eapply elem_of_sublist in Hd; [|exact Hsub]. rewrite (Permutation_map fst (sort_by_perm busier (map_to_list (dm c)))) in Hd.
    apply list_elem_of_In, in_map_iff in Hd as ([k x] & Hk & Hkx). cbn in Hk. subst. apply list_elem_of_In, elem_of_map_to_list in Hkx. congruence.
Qed.

(** The ranking of the domains loses nothing and stays bounded.  After any
    observations (fewer than 2^53), the series a scrape emits for the domains, the folded
    remainder among them, sum exactly to the number of observations; there are at most
    fifty-one of them, no two of the same name; the candidates stay within their
    number and the family's bytes; and the remainder never goes down between two
    scrapes, whatever domains are evicted or enter the ranking. *)
Theorem domains_exact max ds ds' (c := domain_run ds (newFilterlogDomainCounter max)) (c' := domain_run ds' c) : zlen ds + zlen ds' <= 2 ^ 53 ->
  lsum snd (topFilterlogDomains c) = zlen ds
  /\ (length (topFilterlogDomains c) <= 51)%nat /\ NoDup (map fst (topFilterlogDomains c))
  /\ (0 < max -> zsize (dm c) <= max) /\ msum (fun d _ => cost_of [d]) (dm c) <= maxRetainedFamilyBytes
  /\ other_of c <= other_of c'.
Proof.
  intros Hn. assert (0 <= zlen ds /\ 0 <= zlen ds') as [Hl Hl'] by (unfold zlen; lia).
  destruct (domain_run_ok ds 0 (newFilterlogDomainCounter max) ltac:(lia) (new_domains_ok max)) as [Hc _].
  destruct (domain_run_ok ds' (0 + zlen ds) c ltac:(lia) Hc) as [Hc' Ht']. rewrite Z.add_0_l in Hc, Hc'.
  destruct (other_exact (zlen ds) c ltac:(lia) Hc) as [Ho Ho0]. destruct (other_exact (zlen ds + zlen ds') c' ltac:(lia) Hc') as [Ho' Ho0'].
  assert (dmax c = max) as Hmax by apply domain_run_max.
  change (domain_run ds (newFilterlogDomainCounter max)) with c in Hc. change (domain_run ds' c) with c' in Ht'. clearbody c'. clearbody c. clear Hc'.
  destruct Hc as (Ht & Hp & Hs & Hoth & Hb & Hcb & Hm). rewrite Hmax in Hm. unfold topFilterlogDomains.
  split; [|split; [|split; [|split; [done|split; [lia|lia]]]]].
  - rewrite lsum_app. change (lsum snd (points c)) with (top_sum (dm c)). destruct (0 <? other_of c) eqn:E; bool_prop; cbn [lsum foldr snd]; lia.
  - rewrite length_app. unfold points. rewrite length_take. unfold maxFilterlogDomainMetricSeries. destruct (0 <? other_of c); cbn [length]; lia.
  - by apply top_nodup.
Qed.

Definition demo_domains : list string := ["a"; "b"; "a"].
Lemma domains_exact_witness :
  let c := domain_run demo_domains (newFilterlogDomainCounter 1) in
  topFilterlogDomains c = [("a", 1); ("other", 2)] /\ other_of c <= other_of (domain_run ["b"; "b"] c).
Proof. split; [vm_compute; reflexivity|]. refine (proj2 (proj2 (proj2 (proj2 (proj2 (domains_exact 1 demo_domains ["b"; "b"] _)))))). vm_compute. done. Defined.

End Bounded.
