(* ===== verification/LogEvents.v ===== *)
(** * The log event store ([collector/logevents.go])

    The totals of everything the log receivers observe.  Observations are handed over
    on a bounded queue without waiting; one goroutine owns the families and applies the
    commands in order; a scrape asks for a snapshot on the same queue and turns it into
    metrics.  The queue's clients and the owner interleave freely: [step] is one action
    of any of them. *)

From stdpp Require Import base decidable list gmap strings sorting.
From Stdlib Require Import ZArith Lia Ascii.
From S2P Require Import Prelude Netip Order GoStrings GoTime OtlpSink Derive Bounded.
Import Bounded.

Module LogEvents.

(** ** Families *)

(** The counters, the gauges, the inventory of devices and the ranked domains. *)
Inductive counterFamily :=
| fw | ha | ssh | dhcp | audit | ids | gateway | gatewayKills | ppp | radius | vpn | carp | upnp | netmap | arp
| dhcpCli | dhcpScr | dhcp6cMsg | dhcp6cEvt | dhcp6AllocFail | zen.
Inductive gaugeFamily := pppLastUp | dhcpLease | dhcp6cPrefix | dhcp6cAddr.
#[export] Instance counterFamily_dec : EqDecision counterFamily.
Proof. solve_decision. Defined.
#[export] Instance gaugeFamily_dec : EqDecision gaugeFamily.
Proof. solve_decision. Defined.

(** The number of labels of a family's tuple: the fields of its key. *)
Definition arity (f : counterFamily) : nat :=
  match f with
  | gatewayKills | netmap | arp | dhcp6AllocFail => 1
  | audit | gateway | ppp | dhcpCli | dhcpScr => 2
  | ssh | dhcp | radius | upnp | dhcp6cMsg | dhcp6cEvt => 3
  | ids | vpn => 4
  | fw | ha | carp => 5
  | zen => 7
  end.
Definition gauge_arity (g : gaugeFamily) : nat := match g with dhcp6cPrefix => 2 | _ => 1 end.
(** The numbers of a gauge's value. *)
Definition gauge_width (g : gaugeFamily) : nat := match g with pppLastUp => 1 | dhcpLease => 2 | dhcp6cPrefix | dhcp6cAddr => 3 end.

Definition counter_name (f : counterFamily) : string :=
  match f with
  | fw => "firewall" | ha => "haproxy" | ssh => "sshd" | dhcp => "dhcp" | audit => "audit" | ids => "ids"
  | gateway => "gateway" | gatewayKills => "gateway_states_killed" | ppp => "ppp" | radius => "radius" | vpn => "vpn"
  | carp => "carp" | upnp => "upnp" | netmap => "netmap" | arp => "arp" | dhcpCli => "dhcp_client"
  | dhcpScr => "dhcp_client_script" | dhcp6cMsg => "dhcp6c_message" | dhcp6cEvt => "dhcp6c_event"
  | dhcp6AllocFail => "dhcp6_alloc_fail" | zen => "zenarmor"
  end.
Definition gauge_name (g : gaugeFamily) : string :=
  match g with
  | pppLastUp => "ppp_last_link_up" | dhcpLease => "dhcp_client_lease" | dhcp6cPrefix => "dhcp6c_prefix" | dhcp6cAddr => "dhcp6c_address"
  end.
Definition logFamilyZenarmorDevice : string := "zenarmor_device".

Definition defaultMaxLogEventKeys : Z := 5000.
Definition logEventHandoffCapacity : Z := 65536.
Definition maxZenarmorDevices : Z := 512.
Definition zenarmorDeviceTTL : Duration := 24 * 60 * Minute.
Definition logEventObservationDropReasonHandoffFull : string := "handoff_full".

(** ** Commands *)

Inductive logEventCommandKind :=
| logEventObserve (f : counterFamily)
| logEventObserveGauge (g : gaugeFamily)
| logEventClearDHCP6CAddress
| logEventObserveZenarmorDevice
| logEventObserveFilterlogDomain
| logEventSetMaxKeys
| logEventTakeSnapshot
| logEventSync.

(** The array of seven strings is the list of those that are set; the others are
    empty, and no key reads them.  The numbers are [float64]. *)
Record logEventCommand := mkCommand { kind : logEventCommandKind; values : list string; nums : list Z; maxKeys : Z }.

Definition command (k : logEventCommandKind) (v : list string) (n : list Z) : logEventCommand := mkCommand k v n 0.

(** ** The families' state *)

Record families := mkFamilies {
  counters : counterFamily -> cappedCounter;
  gauges : gaugeFamily -> cappedGauge;
  zenDevs : boundedInventory;
  filterlogDomains : filterlogDomainCounter }.
#[export] Instance eta_families : Eta families := fun s => mkFamilies (counters s) (gauges s) (zenDevs s) (filterlogDomains s).

Definition newFamilies : families :=
  mkFamilies (fun _ => newCappedCounter defaultMaxLogEventKeys) (fun _ => newCappedGauge defaultMaxLogEventKeys)
    (newBoundedInventory maxZenarmorDevices zenarmorDeviceTTL) (newFilterlogDomainCounter maxFilterlogDomainCandidates).

Definition on_counter (f : counterFamily) (h : cappedCounter -> cappedCounter) (s : families) : families :=
  s <| counters ::= fun cs f' => if decide (f' = f) then h (cs f') else cs f' |>.
Definition on_gauge (g : gaugeFamily) (h : cappedGauge -> cappedGauge) (s : families) : families :=
  s <| gauges ::= fun gs g' => if decide (g' = g) then h (gs g') else gs g' |>.

Definition valueAt (i : nat) (cmd : logEventCommand) : string := nth i (values cmd) "".
Definition numAt (i : nat) (cmd : logEventCommand) : Z := nth i (nums cmd) 0.

(** [apply], of the commands that change the families.  [now] is the inventory's clock. *)
Definition apply (now : Time) (cmd : logEventCommand) (s : families) : families :=
  match kind cmd with
  | logEventObserve f =>
      let s := on_counter f (inc (map (fun i => valueAt i cmd) (seq 0 (arity f)))) s in
      match f with
      | ppp => if str_eq (valueAt 1 cmd) "link_up" && (0 <? numAt 0 cmd) then on_gauge pppLastUp (gauge_set [valueAt 0 cmd] [numAt 0 cmd]) s else s
      | _ => s
      end
  | logEventObserveGauge g =>
      on_gauge g (gauge_set (map (fun i => valueAt i cmd) (seq 0 (gauge_arity g))) (map (fun i => numAt i cmd) (seq 0 (gauge_width g)))) s
  | logEventClearDHCP6CAddress => on_gauge dhcp6cAddr (gauge_unset [valueAt 0 cmd]) s
  | logEventObserveZenarmorDevice => s <| zenDevs ::= inv_seen (valueAt 0 cmd) [valueAt 1 cmd; valueAt 2 cmd] now |>
  | logEventObserveFilterlogDomain => s <| filterlogDomains ::= domain_inc (valueAt 0 cmd) |>
  | logEventSetMaxKeys =>
      s <| counters ::= fun cs f => setMax (maxKeys cmd) (cs f) |> <| gauges ::= fun gs g => gauge_setMax (maxKeys cmd) (gs g) |>
  | logEventTakeSnapshot | logEventSync => s
  end.

(** ** Snapshots *)

Record familySaturation := mkSat { family : string; capped : Z; keys : Z }.
Record logEventSnapshot := mkSnapshot {
  counted : counterFamily -> list (Key * Z);
  current : gaugeFamily -> list (Key * list Z);
  devices : list (string * list string);
  filterlogDom : list (string * Z);
  sat : list familySaturation;
  dropped : Z }.

Definition drainFamily (f : counterFamily) (c : cappedCounter) : list (Key * Z) * familySaturation :=
  (map_to_list (cm c), mkSat (counter_name f) (coverflow c) (zsize (cm c))).
Definition copyGaugeFamily (g : gaugeFamily) (c : cappedGauge) : list (Key * list Z) * familySaturation :=
  (map_to_list (gm c), mkSat (gauge_name g) (goverflow c) (zsize (gm c))).

(** The order the saturations are listed in. *)
Definition sat_order : list (counterFamily + gaugeFamily) :=
  map inl [fw; ha; ssh; dhcp; audit; ids; gatewayKills; ppp] ++ [inr pppLastUp]
  ++ map inl [gateway; radius; vpn; carp; upnp; netmap; arp; dhcpCli; dhcpScr] ++ [inr dhcpLease]
  ++ map inl [dhcp6cMsg; dhcp6cEvt] ++ [inr dhcp6cPrefix; inr dhcp6cAddr] ++ map inl [dhcp6AllocFail; zen].

Definition buildSnapshot (now : Time) (drops : Z) (s : families) : logEventSnapshot * families :=
  let '(devs, inventory) := live now (zenDevs s) in
  (mkSnapshot (fun f => (drainFamily f (counters s f)).1) (fun g => (copyGaugeFamily g (gauges s g)).1) devs
     (topFilterlogDomains (filterlogDomains s))
     (map (fun x => match x with inl f => (drainFamily f (counters s f)).2 | inr g => (copyGaugeFamily g (gauges s g)).2 end) sat_order
      ++ [mkSat logFamilyZenarmorDevice (refusals inventory) (zlen devs)])
     drops,
   s <| zenDevs := inventory |>).

(** ** The store *)

(** The queue, in the order the commands are received; [stopped] is the closed channel
    [stop], [running] that the owner's goroutine has not returned. *)
Record LogEventStore := mkStore {
  capacity : Z; commands : list logEventCommand; stopped : bool; running : bool; observationDrops : Z; fams : families }.
#[export] Instance eta_store : Eta LogEventStore := fun s =>
  mkStore (capacity s) (commands s) (stopped s) (running s) (observationDrops s) (fams s).

Definition newLogEventStoreWithCapacity (cap : Z) : LogEventStore := mkStore cap [] false true 0 newFamilies.
Definition newLogEventStore : LogEventStore := newLogEventStoreWithCapacity logEventHandoffCapacity.

Definition room (s : LogEventStore) : bool := zlen (commands s) <? capacity s.
Definition push (cmd : logEventCommand) (s : LogEventStore) : LogEventStore := s <| commands ::= fun q => q ++ [cmd] |>.

(** The non-blocking send of [observe], after its look at [stop]. *)
Definition handoff (cmd : logEventCommand) (s : LogEventStore) : bool * LogEventStore :=
  if room s then (true, push cmd s) else (false, s <| observationDrops ::= fun n => u64 (n + 1) |>).
Definition observe (cmd : logEventCommand) (s : LogEventStore) : bool * LogEventStore :=
  if stopped s then (false, s) else handoff cmd s.

(** One command taken by the owner, with its reply to a snapshot request. *)
Definition take (now : Time) (cmd : logEventCommand) (s : LogEventStore) : option logEventSnapshot * LogEventStore :=
  match kind cmd with
  | logEventTakeSnapshot =>
      let '(snap, fs) := buildSnapshot now (observationDrops s) (fams s) in (Some snap, s <| fams := fs |>)
  | _ => (None, s <| fams ::= apply now cmd |>)
  end.

(** ** The observations *)

(** The methods of [MetricSink]; an empty domain is not an observation.  The text of a
    link's timestamp is absent or what [FormatInt] wrote of a time's seconds. *)
Definition timestamp (text : string) : Z := rnd (default 0 (Otlp.Atoi text)).
Definition command_of (o : Derive.Observation) : option logEventCommand :=
  let obs f l := Some (command (logEventObserve f) l []) in
  match o with
  | Derive.ObservePPPLink iface event ts => Some (command (logEventObserve ppp) [iface; event] [timestamp ts])
  | Derive.ObserveGatewayStatesKilled g => obs gatewayKills [g]
  | Derive.ObserveFirewall action iface ruleID ruleName scope => obs fw [action; iface; ruleID; ruleName; scope]
  | Derive.ObserveHAProxy event backend server state statusClass => obs ha [event; backend; server; state; statusClass]
  | Derive.ObserveSSHD result method scope => obs ssh [result; method; scope]
  | Derive.ObserveDHCP action iface server => obs dhcp [action; iface; server]
  | Derive.ObserveAudit event result => obs audit [event; result]
  | Derive.ObserveIDS eventType action category severity => obs ids [eventType; action; category; severity]
  | Derive.ObserveGateway event g => obs gateway [event; g]
  | Derive.ObserveRADIUS event result clientScope => obs radius [event; result; clientScope]
  | Derive.ObserveVPN backend event result connection => obs vpn [backend; event; result; connection]
  | Derive.ObserveCARP event from to iface vhid => obs carp [event; from; to; iface; vhid]
  | Derive.ObserveUPnP event result protocol => obs upnp [event; result; protocol]
  | Derive.ObserveNetmapRingFull device => obs netmap [device]
  | Derive.ObserveARPMove iface => obs arp [iface]
  | Derive.ObserveDHCPClient iface msgType => obs dhcpCli [iface; msgType]
  | Derive.ObserveDHCPClientScript iface reason => obs dhcpScr [iface; reason]
  | Derive.ObserveDHCPClientLease iface bound renewal => Some (command (logEventObserveGauge dhcpLease) [iface] [rnd bound; rnd renewal])
  | Derive.ObserveDHCP6CMessage iface direction msgType => obs dhcp6cMsg [iface; direction; msgType]
  | Derive.ObserveDHCP6CEvent iface event reason => obs dhcp6cEvt [iface; event; reason]
  | Derive.ObserveDHCP6CPrefix iface prefixLength updated preferredExpiry validExpiry =>
      Some (command (logEventObserveGauge dhcp6cPrefix) [iface; prefixLength] [rnd updated; rnd preferredExpiry; rnd validExpiry])
  | Derive.ObserveDHCP6CAddress iface updated preferredExpiry validExpiry =>
      Some (command (logEventObserveGauge dhcp6cAddr) [iface] [rnd updated; rnd preferredExpiry; rnd validExpiry])
  | Derive.ClearDHCP6CAddress iface => Some (command logEventClearDHCP6CAddress [iface] [])
  | Derive.ObserveDHCP6AllocFail reason => obs dhcp6AllocFail [reason]
  | Derive.ObserveFilterlogDomain domain => if str_empty domain then None else Some (command logEventObserveFilterlogDomain [domain] [])
  end.

#[export] Instance LogEventSink : Derive.MetricSink LogEventStore := fun o s =>
  match command_of o with Some cmd => observe cmd s | None => (false, s) end.

(** What only the Zenarmor receiver observes. *)
Definition ObserveZenarmor (Family Action Category Interface RCode Severity StatusClass : string) : LogEventStore -> bool * LogEventStore :=
  observe (command (logEventObserve zen) [Family; Action; Category; Interface; RCode; Severity; StatusClass] []).
Definition ObserveZenarmorDevice (name category iface : string) (s : LogEventStore) : bool * LogEventStore :=
  if str_empty name then (false, s) else observe (command logEventObserveZenarmorDevice [name; category; iface] []) s.

(** ** Runs *)

Inductive outcome := Accepted | Full | Stopped.
Inductive label :=
| LObserve (cmd : logEventCommand) (o : outcome)
| LControl (cmd : logEventCommand) (sent : bool)
| LTake (cmd : logEventCommand) (reply : option logEventSnapshot)
| LStop
| LReturn.

Definition outcome_of (b : bool) : outcome := if b then Accepted else Full.

(** One action.  An observation looks at [stop] before it sends, so one whose look was
    early may still be handed over after the stop ([Step_late]).  [sendControl] waits
    for room or for the stop.  The owner takes commands until it sees the stop. *)
Inductive step : LogEventStore -> label -> LogEventStore -> Prop :=
| Step_observe s cmd : stopped s = false -> step s (LObserve cmd (outcome_of (observe cmd s).1)) (observe cmd s).2
| Step_late s cmd : stopped s = true -> step s (LObserve cmd (outcome_of (handoff cmd s).1)) (handoff cmd s).2
| Step_refused s cmd : stopped s = true -> step s (LObserve cmd Stopped) (observe cmd s).2
| Step_control s cmd : room s = true -> step s (LControl cmd true) (push cmd s)
| Step_control_refused s cmd : stopped s = true -> step s (LControl cmd false) s
| Step_take s cmd q now : running s = true -> commands s = cmd :: q -> 0 < now ->
    step s (LTake cmd (take now cmd (s <| commands := q |>)).1) (take now cmd (s <| commands := q |>)).2
| Step_stop s : step s LStop (s <| stopped := true |>)
| Step_return s : stopped s = true -> step s LReturn (s <| running := false |>).

Inductive steps : LogEventStore -> list label -> LogEventStore -> Prop :=
| Steps_nil s : steps s [] s
| Steps_snoc s tr s1 l s2 : steps s tr s1 -> step s1 l s2 -> steps s (tr ++ [l]) s2.

(** What the queue took, what the owner took off it, and the calls it had no room for. *)
Definition accepted : list label -> list logEventCommand :=
  omap (fun l => match l with LObserve cmd Accepted | LControl cmd true => Some cmd | _ => None end).
Definition taken : list label -> list logEventCommand := omap (fun l => match l with LTake cmd _ => Some cmd | _ => None end).
Definition fulls (tr : list label) : Z := zlen (List.filter (fun l => match l with LObserve _ Full => true | _ => false end) tr).

(** The observations of a family. *)
Definition is_observation (f : counterFamily) (cmd : logEventCommand) : Prop := kind cmd = logEventObserve f.
#[export] Instance is_observation_dec f cmd : Decision (is_observation f cmd).
Proof. unfold is_observation. destruct (kind cmd) as [f'| | | | | | |]; try (right; discriminate). destruct (decide (f' = f)) as [->|]; [by left|right; congruence]. Defined.
Definition is_domain (cmd : logEventCommand) : Prop := kind cmd = logEventObserveFilterlogDomain.
#[export] Instance is_domain_dec cmd : Decision (is_domain cmd).
Proof. unfold is_domain. destruct (kind cmd); (by left) || (right; discriminate). Defined.

Definition observed (f : counterFamily) (l : list logEventCommand) : Z := zlen (filter (is_observation f) l).
Definition observed_domains (l : list logEventCommand) : Z := zlen (filter is_domain l).

(** ** Facts of the families *)

Section Families.
Variable top : Z.
Hypothesis Htop : defaultMaxLogEventKeys <= top.

(** Every budget the store was given is one, and at most [top]. *)
Definition budgets (l : list logEventCommand) : Prop := forall cmd, cmd ∈ l -> kind cmd = logEventSetMaxKeys -> 0 < maxKeys cmd <= top.

Record counter_ok (f : counterFamily) (n : Z) (c : cappedCounter) : Prop := {
  co_count : accounts n c;
  co_bytes : bytes_ok (cm c) (cbytes c);
  co_shape : forall k, is_Some (cm c !! k) -> length k = arity f }.

Record gauge_ok (g : gaugeFamily) (c : cappedGauge) : Prop := {
  go_bytes : bytes_ok (gm c) (gbytes c);
  go_shape : forall k x, gm c !! k = Some x -> length k = gauge_arity g /\ length x = gauge_width g }.

(** After the commands [l]. *)
Record families_ok (l : list logEventCommand) (s : families) : Prop := {
  fo_counters : forall f, counter_ok f (observed f l) (counters s f);
  fo_gauges : forall g, gauge_ok g (gauges s g);
  fo_keys : budgets l -> (forall f, 0 < cmax (counters s f) <= top /\ zsize (cm (counters s f)) <= top)
                         /\ forall g, 0 < gmax (gauges s g) <= top /\ zsize (gm (gauges s g)) <= top;
  fo_devices : inventory_ok (zenDevs s) /\ imax (zenDevs s) = maxZenarmorDevices
               /\ forall k r, im (zenDevs s) !! k = Some r -> length (ival r) = 2%nat;
  fo_domains : domains_ok (observed_domains l) (filterlogDomains s) /\ dmax (filterlogDomains s) = maxFilterlogDomainCandidates }.

Lemma bytes_empty {A} : bytes_ok (∅ : gmap Key A) 0.
Proof. split; [done|]. split; [done|]. intros k [x Hx]. by apply lookup_empty_Some in Hx. Qed.

Lemma new_families_ok : families_ok [] newFamilies.
Proof.
  split.
  - intros f. split; [split; [done|]; split; [done|]; intros k x Hx|apply bytes_empty|intros k [x Hx]]; cbn in Hx; by apply lookup_empty_Some in Hx.
  - intros g. split; [apply bytes_empty|]. intros k x Hx. cbn in Hx. by apply lookup_empty_Some in Hx.
  - intros _. unfold defaultMaxLogEventKeys in Htop. split; intros f; cbn [counters gauges newFamilies cmax gmax newCappedCounter newCappedGauge cm gm];
      change (zsize ∅) with 0; unfold defaultMaxLogEventKeys; lia.
  - split; [by apply new_inventory_ok|]. split; [done|]. intros k r Hr. cbn in Hr. by apply lookup_empty_Some in Hr.
  - split; [apply new_domains_ok|done].
Qed.

Lemma observed_snoc f l cmd : observed f (l ++ [cmd]) = observed f l + (if decide (is_observation f cmd) then 1 else 0).
Proof. unfold observed, zlen. rewrite filter_app, length_app, filter_cons, filter_nil. case_decide; cbn; lia. Qed.
Lemma domains_snoc l cmd : observed_domains (l ++ [cmd]) = observed_domains l + (if decide (is_domain cmd) then 1 else 0).
Proof. unfold observed_domains, zlen. rewrite filter_app, length_app, filter_cons, filter_nil. case_decide; cbn; lia. Qed.
Lemma observed_le f l : observed f l <= zlen l.
Proof. unfold observed, zlen. pose proof (length_filter (is_observation f) l). lia. Qed.
Lemma domains_le l : observed_domains l <= zlen l.
Proof. unfold observed_domains, zlen. pose proof (length_filter is_domain l). lia. Qed.
Lemma budgets_snoc l cmd : budgets (l ++ [cmd]) -> budgets l /\ (kind cmd = logEventSetMaxKeys -> 0 < maxKeys cmd <= top).
Proof. intros H. split; [intros c Hc|]; [apply H; apply elem_of_app; by left|]. apply H. apply elem_of_app. right. constructor. Qed.

Lemma inc_counter_ok f n k c : n < 2 ^ 53 -> length k = arity f -> counter_ok f n c -> counter_ok f (n + 1) (inc k c).
Proof.
  intros Hn Hk [Hc Hb Hs]. split; [by apply inc_accounts|by apply inc_bytes|]. intros k' Hk'.
  destruct (decide (k = k')) as [<-|Hne]; [done|]. rewrite inc_other in Hk' by done. by apply Hs.
Qed.

Lemma set_gauge_ok g k x c : length k = gauge_arity g -> length x = gauge_width g -> gauge_ok g c -> gauge_ok g (gauge_set k x c).
Proof.
  intros Hk Hx [Hb Hs]. split; [by apply gauge_bytes|]. intros k' y Hy. unfold gauge_set in Hy. destruct (retainedStringBytes k) as [cost valid].
  case_bool_decide; destruct (negb valid || _ || _); unfold update in Hy; cbn [gm] in Hy; try by apply Hs.
  all: apply lookup_insert_Some in Hy as [[<- <-]|[_ Hy]]; [done|by apply Hs].
Qed.

Lemma unset_gauge_ok g k c : gauge_ok g c -> gauge_ok g (gauge_unset k c).
Proof.
  intros [Hb Hs]. split; [by apply unset_bytes|]. intros k' y Hy. unfold gauge_unset in Hy. destruct (gm c !! k); [|by apply Hs].
  unfold update in Hy. cbn [gm] in Hy. apply lookup_delete_Some in Hy as [_ Hy]. by apply Hs.
Qed.

(** What a command does to one family. *)
Definition counter_after (cmd : logEventCommand) (f : counterFamily) (c : cappedCounter) : cappedCounter :=
  match kind cmd with
  | logEventObserve f' => if decide (f = f') then inc (map (fun i => valueAt i cmd) (seq 0 (arity f))) c else c
  | logEventSetMaxKeys => setMax (maxKeys cmd) c
  | _ => c
  end.

Lemma apply_counters now cmd s f : counters (apply now cmd s) f = counter_after cmd f (counters s f).
Proof.
  unfold apply, counter_after. destruct (kind cmd) as [f'| | | | | | |]; try done.
  assert (counters (on_counter f' (inc (map (fun i => valueAt i cmd) (seq 0 (arity f')))) s) f
    = if decide (f = f') then inc (map (fun i => valueAt i cmd) (seq 0 (arity f))) (counters s f) else counters s f) as H.
  { unfold on_counter, update. cbn [counters]. destruct (decide (f = f')) as [->|]; done. }
  destruct f'; try exact H. cbv zeta. destruct (_ && _); exact H.
Qed.

(** A gauge is left alone, set, unset, or given a budget. *)
Inductive gauge_moved (cmd : logEventCommand) (g : gaugeFamily) (c : cappedGauge) : cappedGauge -> Prop :=
| GSame : kind cmd <> logEventSetMaxKeys -> gauge_moved cmd g c c
| GSet k x : kind cmd <> logEventSetMaxKeys -> length k = gauge_arity g -> length x = gauge_width g -> gauge_moved cmd g c (gauge_set k x c)
| GUnset k : kind cmd <> logEventSetMaxKeys -> gauge_moved cmd g c (gauge_unset k c)
| GMax : kind cmd = logEventSetMaxKeys -> gauge_moved cmd g c (gauge_setMax (maxKeys cmd) c).

Lemma apply_gauges now cmd s g : gauge_moved cmd g (gauges s g) (gauges (apply now cmd s) g).
Proof.
  unfold apply. destruct (kind cmd) as [f|g'| | | | | |] eqn:Ek; try (by apply GSame; congruence).
  - destruct f; try (by apply GSame; congruence). cbv zeta. destruct (_ && _); [|by apply GSame; congruence].
    unfold on_gauge, update. cbn [gauges on_counter]. destruct (decide (g = pppLastUp)) as [->|]; [by apply GSet; [congruence|..]|by apply GSame; congruence].
  - unfold on_gauge, update. cbn [gauges]. destruct (decide (g = g')) as [->|]; [|by apply GSame; congruence].
    apply GSet; [congruence|by rewrite length_map, length_seq..].
  - unfold on_gauge, update. cbn [gauges]. destruct (decide (g = dhcp6cAddr)) as [->|]; [by apply GUnset; congruence|by apply GSame; congruence].
  - by apply GMax.
Qed.

Lemma apply_ok now cmd l s : families_ok l s -> zlen l < 2 ^ 53 -> 0 < now -> families_ok (l ++ [cmd]) (apply now cmd s).
Proof.
  intros [Hc Hg Hk (Hd & Hdm & Hda) [Ho Hom]] Hl Hnow. split.
  - intros f. rewrite apply_counters, observed_snoc. unfold counter_after. specialize (Hc f). pose proof (observed_le f l) as Hle.
    destruct (kind cmd) as [f'| | | | | | |] eqn:Ek; try (rewrite decide_False, Z.add_0_r by (unfold is_observation; congruence); done).
    + destruct (decide (f = f')) as [->|Hne]; [rewrite decide_True by done|rewrite decide_False, Z.add_0_r by (unfold is_observation; congruence); done].
      apply inc_counter_ok; [lia|by rewrite length_map, length_seq|done].
    + rewrite decide_False, Z.add_0_r by (unfold is_observation; congruence). destruct Hc as [H1 H2 H3]. by split.
  - intros g. specialize (Hg g). destruct (apply_gauges now cmd s g) as [_|k x _ Hlk Hlx|k _|_]; [done|by apply set_gauge_ok|by apply unset_gauge_ok|].
    destruct Hg as [H1 H2]. by split.
  - intros Hb. apply budgets_snoc in Hb as [Hb Hm]. destruct (Hk Hb) as [Hk1 Hk2]. split.
    + intros f. rewrite apply_counters. unfold counter_after. destruct (Hk1 f) as [H1 H2]. destruct (kind cmd) as [f'| | | | | | |]; try done.
      * case_decide; [|done]. destruct (inc_keys top (map (fun i => valueAt i cmd) (seq 0 (arity f))) (counters s f)) as [H3 H4]; [done..|]. by rewrite H4.
      * split; [by apply Hm|done].
    + intros g. destruct (Hk2 g) as [H1 H2]. destruct (apply_gauges now cmd s g) as [_|k x _ _ _|k _|Hs]; [done| | |].
      * destruct (gauge_keys top k x (gauges s g)) as [H3 H4]; [done..|]. by rewrite H4.
      * destruct (unset_keys k (gauges s g)) as [H3 H4]. rewrite H4. split; [done|lia].
      * split; [by apply Hm|done].
  - unfold apply. destruct (kind cmd) as [f| | | | | | |]; try done; [destruct f; try done; cbv zeta; by destruct (_ && _)|].
    unfold update. cbn [zenDevs]. destruct (seen_spec (valueAt 0 cmd) [valueAt 1 cmd; valueAt 2 cmd] now (zenDevs s) Hd Hnow) as (H1 & [= H2 _] & H3). split; [done|]. split; [congruence|].
    intros k r Hr. destruct H3 as [(_ & He & Hs & _)|(_ & _ & Hs)]; [|by eapply Hda, Hs].
    destruct (decide (k = valueAt 0 cmd)) as [->|Hne]; [rewrite He in Hr; by injection Hr as <-|by eapply Hda, Hs].
  - rewrite domains_snoc. pose proof (domains_le l). unfold apply. destruct (kind cmd) as [f| | | | | | |] eqn:Ek;
      try (rewrite decide_False, Z.add_0_r by (unfold is_domain; congruence); done).
    + rewrite decide_False, Z.add_0_r by (unfold is_domain; congruence). destruct f; try done. cbv zeta. by destruct (_ && _).
    + rewrite decide_True by done. unfold update. cbn [filterlogDomains]. destruct (domain_inc_ok (observed_domains l) (valueAt 0 cmd) (filterlogDomains s)) as [H1 _]; [lia|done|].
      split; [done|]. destruct (domain_replaced (valueAt 0 cmd) (filterlogDomains s)) as (_ & _ & H2). congruence.
Qed.

Lemma snapshot_ok now drops cmd l s : kind cmd = logEventTakeSnapshot -> families_ok l s -> families_ok (l ++ [cmd]) (buildSnapshot now drops s).2.
Proof.
  intros Hk [Hc Hg Hkeys (Hd & Hdm & Hda) Ho]. unfold buildSnapshot. destruct (prune_spec now (zenDevs s) Hd) as (_ & _ & Hp).
  assert ((live now (zenDevs s)).2 = prune now (zenDevs s)) as Hlive by done. pose proof (live_spec now (zenDevs s) Hd) as Hl. destruct (live now (zenDevs s)) as [devs inv].
  destruct Hl as (H1 & [= H2 _ _] & _). split.
  - intros f. rewrite observed_snoc, decide_False, Z.add_0_r by (unfold is_observation; congruence). exact (Hc f).
  - exact Hg.
  - intros Hb. apply budgets_snoc in Hb as [Hb _]. exact (Hkeys Hb).
  - split; [exact H1|]. split; [cbn; congruence|]. intros k r Hr. cbn in Hr, Hlive. rewrite Hlive in Hr. apply Hp in Hr as [Hr _]. by eapply Hda.
  - rewrite domains_snoc, decide_False, Z.add_0_r by (unfold is_domain; congruence). exact Ho.
Qed.

End Families.

(** ** Facts of the runs *)

Section Runs.
Variables (top cap : Z).
Hypothesis Htop : defaultMaxLogEventKeys <= top.
Hypothesis Hcap : 0 <= cap.

(** After the run [tr]: the queue holds what was accepted and not yet taken, in order. *)
Record store_ok (tr : list label) (s : LogEventStore) : Prop := {
  so_fifo : accepted tr = taken tr ++ commands s;
  so_queue : capacity s = cap /\ zlen (commands s) <= cap;
  so_drops : observationDrops s = u64 (fulls tr);
  so_families : families_ok top (taken tr) (fams s) }.

Lemma accepted_snoc tr l : accepted (tr ++ [l]) = accepted tr ++ accepted [l].
Proof. apply omap_app. Qed.
Lemma taken_snoc tr l : taken (tr ++ [l]) = taken tr ++ taken [l].
Proof. apply omap_app. Qed.
Lemma fulls_snoc tr l : fulls (tr ++ [l]) = fulls tr + fulls [l].
Proof. unfold fulls, zlen. rewrite List.filter_app, length_app. lia. Qed.

(** An action that takes nothing off the queue. *)
Lemma store_ok_put tr s l cmds drops (s' : LogEventStore) : store_ok tr s -> taken [l] = [] -> accepted [l] = cmds ->
  commands s' = commands s ++ cmds -> zlen (commands s') <= cap -> capacity s' = capacity s -> fams s' = fams s ->
  fulls [l] = drops -> observationDrops s' = u64 (observationDrops s + drops) -> store_ok (tr ++ [l]) s'.
Proof.
  intros [H1 [H2 H3] H4 H5] Ht Ha Hc Hl Hk Hf Hu Hd. split.
  - rewrite accepted_snoc, taken_snoc, Ht, Ha, Hc, H1, app_nil_r. by rewrite app_assoc.
  - split; [congruence|done].
  - rewrite Hd, H4, fulls_snoc, Hu. unfold u64. by rewrite Zplus_mod_idemp_l.
  - by rewrite taken_snoc, Ht, app_nil_r, Hf.
Qed.

Lemma drops_mod tr s : store_ok tr s -> observationDrops s = u64 (observationDrops s + 0).
Proof. intros H. rewrite Z.add_0_r, (so_drops tr s H). unfold u64. by rewrite Zmod_mod. Qed.

Lemma handoff_ok tr s cmd : store_ok tr s -> store_ok (tr ++ [LObserve cmd (outcome_of (handoff cmd s).1)]) (handoff cmd s).2.
Proof.
  intros H. pose proof (so_queue tr s H) as [Hc Hl]. unfold handoff. destruct (room s) eqn:Er; cbn [fst snd outcome_of].
  - unfold room in Er. bool_prop. eapply (store_ok_put tr s _ [cmd] 0); try done; [|exact (drops_mod tr s H)].
    unfold push, update. cbn [commands]. unfold zlen in *. rewrite length_app. cbn. lia.
  - eapply (store_ok_put tr s _ [] 1); try done. unfold update. cbn. by rewrite app_nil_r.
Qed.

Lemma take_store now cmd s : let '(r, s') := take now cmd s in
  (commands s', capacity s', observationDrops s') = (commands s, capacity s, observationDrops s)
  /\ (kind cmd = logEventTakeSnapshot /\ Some (buildSnapshot now (observationDrops s) (fams s)).1 = r /\ fams s' = (buildSnapshot now (observationDrops s) (fams s)).2
      \/ kind cmd <> logEventTakeSnapshot /\ r = None /\ fams s' = apply now cmd (fams s)).
Proof.
  unfold take. destruct (kind cmd) eqn:Ek; try (split; [done|]; right; split; [congruence|]; done).
  destruct (buildSnapshot now (observationDrops s) (fams s)) as [snap fs]. split; [done|]. by left.
Qed.

Lemma store_step_ok tr s l s' : store_ok tr s -> zlen (taken tr) < 2 ^ 53 -> step s l s' -> store_ok (tr ++ [l]) s'.
Proof.
  intros H Hn Hs. pose proof (so_queue tr s H) as [Hc Hl]. destruct Hs as [s cmd Hst|s cmd Hst|s cmd Hst|s cmd Hr|s cmd Hst|s cmd q now Hrun Hq Hnow|s|s Hst].
  - unfold observe. rewrite Hst. by apply handoff_ok.
  - by apply handoff_ok.
  - unfold observe. rewrite Hst. eapply (store_ok_put tr s _ [] 0); try done; [by rewrite app_nil_r|exact (drops_mod tr s H)].
  - unfold room in Hr. bool_prop. eapply (store_ok_put tr s _ [cmd] 0); try done; [|exact (drops_mod tr s H)].
    unfold push, update. cbn [commands]. unfold zlen in *. rewrite length_app. cbn. lia.
  - eapply (store_ok_put tr s _ [] 0); try done; [by rewrite app_nil_r|exact (drops_mod tr s H)].
  - destruct H as [H1 _ H3 H4]. pose proof (take_store now cmd (s <| commands := q |>)) as Ht. destruct (take now cmd (s <| commands := q |>)) as [r s'].
    destruct Ht as [[= E1 E2 E3] Hf]. cbn [fst snd]. split.
    + rewrite accepted_snoc, taken_snoc, E1, H1, Hq. cbn. by rewrite app_nil_r, <- app_assoc.
    + rewrite E1, E2. cbn [commands capacity update]. split; [done|]. rewrite Hq in Hl. unfold zlen in *. cbn in *. lia.
    + rewrite E3, fulls_snoc. change (fulls [LTake cmd r]) with 0. rewrite Z.add_0_r. exact H3.
    + rewrite taken_snoc. change (taken [LTake cmd r]) with [cmd]. destruct Hf as [(Hk & _ & ->)|(_ & _ & ->)]; [by apply snapshot_ok|by apply apply_ok].
  - eapply (store_ok_put tr s _ [] 0); try done; [cbn; by rewrite app_nil_r|exact (drops_mod tr s H)].
  - eapply (store_ok_put tr s _ [] 0); try done; [cbn; by rewrite app_nil_r|exact (drops_mod tr s H)].
Qed.

Lemma taken_length tr s : store_ok tr s -> zlen (taken tr) <= zlen (accepted tr).
Proof. intros H. rewrite (so_fifo tr s H). unfold zlen. rewrite length_app. lia. Qed.

Lemma accepted_prefix tr l : zlen (accepted tr) <= zlen (accepted (tr ++ [l])).
Proof. rewrite accepted_snoc. unfold zlen. rewrite length_app. lia. Qed.

Lemma steps_ok tr s : steps (newLogEventStoreWithCapacity cap) tr s -> zlen (accepted tr) < 2 ^ 53 -> store_ok tr s.
Proof.
  remember (newLogEventStoreWithCapacity cap) as s0 eqn:E. intros Hs. induction Hs as [s|s tr s1 l s2 Hs IH Hstep]; intros Hn; subst s.
  - split; [done|by split|done|by apply new_families_ok].
  - pose proof (accepted_prefix tr l) as Hp. specialize (IH eq_refl ltac:(lia)). eapply store_step_ok; [done| |done].
    pose proof (taken_length tr s1 IH). lia.
Qed.

End Runs.

Lemma steps_app s tr1 tr2 s2 : steps s (tr1 ++ tr2) s2 -> exists s1, steps s tr1 s1 /\ steps s1 tr2 s2.
Proof.
  revert s2. induction tr2 as [|l tr2 IH] using rev_ind; intros s2 H; [rewrite app_nil_r in H; exists s2; split; [done|constructor]|].
  rewrite app_assoc in H. inversion H as [s0 E|s0 tr s1 l' s2' Hs Hl E1 E2]; subst; [by destruct (tr1 ++ tr2)|].
  apply app_inj_tail in E2 as [-> ->]. destruct (IH s1 Hs) as (s0 & H1 & H2). exists s0. split; [done|]. by econstructor.
Qed.
Lemma steps_one s l s2 : steps s [l] s2 -> step s l s2.
Proof.
  intros H. inversion H as [|s0 tr s1 l' s2' Hs Hl E1 E2]; subst. destruct tr as [|x tr]; [|by destruct tr]. cbn in E2. injection E2 as ->.
  inversion Hs as [|s0 tr s3 l' s2' Hs' Hl' E1' E2']; subst; [done|by destruct tr].
Qed.

(** A snapshot in a run, and the store it was taken from. *)
Lemma snapshot_taken s cmd snap s' : step s (LTake cmd (Some snap)) s' -> exists q now, commands s = cmd :: q /\ 0 < now
  /\ kind cmd = logEventTakeSnapshot /\ snap = (buildSnapshot now (observationDrops s) (fams s)).1.
Proof.
  remember (LTake cmd (Some snap)) as l eqn:El. intros H. destruct H as [| | | | |s c q now Hrun Hq Hnow| |]; try discriminate.
  injection El as -> Er. exists q, now. split; [done|]. split; [done|].
  pose proof (take_store now cmd (s <| commands := q |>)) as Ht. destruct (take now cmd (s <| commands := q |>)) as [r s']. cbn in Er. subst r.
  destruct Ht as [_ [(Hk & Hr & _)|(_ & ? & _)]]; [|done]. split; [done|]. injection Hr as <-. done.
Qed.

Lemma domains_total n c : n <= 2 ^ 53 -> domains_ok n c -> lsum snd (topFilterlogDomains c) = n.
Proof.
  intros Hn Hc. destruct (other_exact n c Hn Hc) as [Ho H0]. unfold topFilterlogDomains. rewrite lsum_app.
  change (lsum snd (points c)) with (top_sum (dm c)). destruct (0 <? other_of c) eqn:E; bool_prop; cbn [lsum foldr snd]; lia.
Qed.

Lemma sat_listed f : inl f ∈ sat_order.
Proof. apply list_elem_of_In. destruct f; cbn; tauto. Qed.

(** [C19] A scrape sees exactly what was accepted before it asked.  In any
    interleaving of the receivers, the scrapes, the configuration and the owner, a
    snapshot that is delivered was requested behind exactly the commands applied before
    it; for every family, the series of the snapshot and the overflow it reports sum to
    the number of observations of the family accepted before the request; so do the
    series of the ranked domains; and the drops it reports are the observations that
    found the queue full, modulo 2^64.  Nothing accepted is lost and nothing is counted
    twice, whatever the budgets turn away. *)
Theorem store_snapshot_exact cap tr cmd snap tr' s (before := taken tr) : 0 <= cap ->
  steps (newLogEventStoreWithCapacity cap) (tr ++ LTake cmd (Some snap) :: tr') s -> zlen (accepted tr) < 2 ^ 53 ->
  kind cmd = logEventTakeSnapshot /\ (exists later, accepted tr = before ++ cmd :: later)
  /\ (forall f, exists overflow, mkSat (counter_name f) overflow (zlen (counted snap f)) ∈ sat snap
        /\ lsum snd (counted snap f) + overflow = observed f before)
  /\ lsum snd (filterlogDom snap) = observed_domains before
  /\ dropped snap = u64 (fulls tr).
Proof.
  intros Hcap H Hn. apply steps_app in H as (s1 & H1 & H2). change (LTake cmd (Some snap) :: tr') with ([LTake cmd (Some snap)] ++ tr') in H2.
  apply steps_app in H2 as (s2 & H2 & _). apply steps_one, snapshot_taken in H2 as (q & now & Hq & Hnow & Hk & ->).
  pose proof (steps_ok defaultMaxLogEventKeys cap ltac:(done) Hcap tr s1 H1 Hn) as Hok. pose proof (taken_length _ _ _ _ Hok) as Hl.
  destruct Hok as [F1 _ F3 [F4 _ _ (F5 & _ & _) [F6 _]]]. split; [done|]. split; [exists q; by rewrite F1, Hq|].
  unfold buildSnapshot. destruct (live now (zenDevs (fams s1))) as [devs inv]. cbn [fst counted sat filterlogDom dropped]. split; [|split].
  - intros f. exists (coverflow (counters (fams s1) f)). destruct (co_count _ _ _ (F4 f)) as (Hc & _). cbn [drainFamily fst]. split.
    + apply elem_of_app. left. replace (zlen (map_to_list (cm (counters (fams s1) f)))) with (zsize (cm (counters (fams s1) f)))
        by (unfold zlen, zsize; by rewrite length_map_to_list).
      apply (list_elem_of_fmap_2 (fun x => match x with inl f => (drainFamily f (counters (fams s1) f)).2 | inr g => (copyGaugeFamily g (gauges (fams s1) g)).2 end)
        sat_order (inl f)), sat_listed.
    + unfold counted_total, series_total in Hc. rewrite msum_list in Hc. exact Hc.
  - apply domains_total; [|done]. pose proof (domains_le before). unfold before in *. lia.
  - exact F3.
Qed.

(** ** Series persist *)

(** Every series of [s] is one of [s'], with at least its value. *)
Definition grows (s s' : families) : Prop :=
  forall f k n, cm (counters s f) !! k = Some n -> exists n', cm (counters s' f) !! k = Some n' /\ n <= n'.
#[export] Instance grows_preorder : PreOrder grows.
Proof.
  split; [intros s f k n H; exists n; split; [done|lia]|]. intros s1 s2 s3 H1 H2 f k n H. destruct (H1 f k n H) as (n' & H' & ?). destruct (H2 f k n' H') as (n'' & H'' & ?).
  exists n''. split; [done|lia].
Qed.

Lemma counter_grows n k k' x c : n < 2 ^ 53 -> accounts n c -> cm c !! k' = Some x -> exists x', cm (inc k c) !! k' = Some x' /\ x <= x'.
Proof.
  intros Hn (Ht & Ho & Hp) Hk. destruct (decide (k = k')) as [<-|Hne]; [|exists x; split; [by rewrite inc_other|lia]].
  pose proof (entry_le c k x Hp Hk) as Hx. specialize (Hp k x Hk) as Hxp. unfold counted_total in Ht.
  exists (finc x). unfold inc. rewrite Hk. unfold update. cbn [cm]. rewrite lookup_insert_eq. split; [done|]. rewrite finc_exact by lia. lia.
Qed.

Lemma apply_grows top now cmd l s : families_ok top l s -> zlen l < 2 ^ 53 -> grows s (apply now cmd s).
Proof.
  intros H Hl f k n Hk. rewrite apply_counters. unfold counter_after. destruct (kind cmd) as [f'| | | | | | |]; try (exists n; split; [done|lia]).
  case_decide; [|exists n; split; [done|lia]]. eapply counter_grows; [|apply (fo_counters _ _ _ H f)|done]. pose proof (observed_le f l). lia.
Qed.

Lemma step_grows top cap tr s l s' : store_ok top cap tr s -> zlen (taken tr) < 2 ^ 53 -> step s l s' -> grows (fams s) (fams s').
Proof.
  intros H Hn Hs. destruct Hs as [s cmd Hst|s cmd Hst|s cmd Hst|s cmd Hr|s cmd Hst|s cmd q now Hrun Hq Hnow|s|s Hst]; try reflexivity.
  - unfold observe, handoff. rewrite Hst. by destruct (room s).
  - unfold handoff. by destruct (room s).
  - unfold observe. by rewrite Hst.
  - pose proof (take_store now cmd (s <| commands := q |>)) as Ht. destruct (take now cmd (s <| commands := q |>)) as [r s'].
    cbn [snd]. destruct Ht as [_ [(_ & _ & ->)|(_ & _ & ->)]]; [unfold buildSnapshot; destruct (live now _); intros f k n Hk; exists n; split; [exact Hk|lia]|eapply apply_grows; [exact (so_families _ _ _ _ H)|done]].
Qed.

Lemma steps_grows top cap tr tr' s s' : defaultMaxLogEventKeys <= top -> 0 <= cap -> steps (newLogEventStoreWithCapacity cap) tr s -> steps s tr' s' ->
  zlen (accepted (tr ++ tr')) < 2 ^ 53 -> grows (fams s) (fams s').
Proof.
  intros Htop Hcap H H' Hn. induction H' as [s|s tr' s1 l s2 Hs IH Hstep]; [reflexivity|]. rewrite app_assoc in Hn. pose proof (accepted_prefix (tr ++ tr') l) as Hp.
  etransitivity; [apply IH; [done|lia]|]. assert (steps (newLogEventStoreWithCapacity cap) (tr ++ tr') s1) as Hall.
  { clear -H Hs. induction Hs as [s|s tr' s1 l s2 Hs IH Hstep]; [by rewrite app_nil_r|]. rewrite app_assoc. econstructor; [by apply IH|done]. }
  pose proof (steps_ok top cap Htop Hcap _ _ Hall ltac:(lia)) as Hok. pose proof (taken_length _ _ _ _ Hok). eapply step_grows; [done|lia|done].
Qed.

(** [C22] The store is bounded whatever is sent to it.  In any run whose budgets are
    at most [top], the queue never holds more than its capacity; every counter and
    every gauge keeps at most [top] series; the devices are at most 512 and the
    candidate domains at most 4096; and the strings of each family are at most
    8 MiB. *)
Theorem store_bounded cap top tr s : defaultMaxLogEventKeys <= top -> 0 <= cap -> steps (newLogEventStoreWithCapacity cap) tr s ->
  zlen (accepted tr) < 2 ^ 53 -> budgets top (taken tr) ->
  zlen (commands s) <= cap
  /\ (forall f, zsize (cm (counters (fams s) f)) <= top /\ costs (cm (counters (fams s) f)) <= maxRetainedFamilyBytes)
  /\ (forall g, zsize (gm (gauges (fams s) g)) <= top /\ costs (gm (gauges (fams s) g)) <= maxRetainedFamilyBytes)
  /\ zsize (im (zenDevs (fams s))) <= maxZenarmorDevices /\ msum (fun k r => cost_of (k :: ival r)) (im (zenDevs (fams s))) <= maxRetainedFamilyBytes
  /\ zsize (dm (filterlogDomains (fams s))) <= maxFilterlogDomainCandidates
  /\ msum (fun d _ => cost_of [d]) (dm (filterlogDomains (fams s))) <= maxRetainedFamilyBytes.
Proof.
  intros Htop Hcap H Hn Hb. destruct (steps_ok top cap Htop Hcap tr s H Hn) as [_ [_ Hq] _ [Hc Hg Hk (Hd & Hdm & _) [Ho Hom]]]. destruct (Hk Hb) as [Hk1 Hk2].
  split; [done|]. split; [|split; [|split; [|split; [|split]]]].
  - intros f. split; [apply Hk1|]. destruct (co_bytes _ _ _ (Hc f)) as (<- & Hle & _). done.
  - intros g. split; [apply Hk2|]. destruct (go_bytes _ _ (Hg g)) as (<- & Hle & _). done.
  - rewrite <- Hdm. apply Hd. rewrite Hdm. done.
  - rewrite (msum_ext _ (fun _ r => icost r)); [rewrite <- (io_bytes _ Hd); apply Hd|]. intros k r Hr. symmetry. by apply (io_entries _ Hd).
  - destruct Ho as (_ & _ & _ & _ & _ & _ & Hz). rewrite <- Hom. apply Hz. rewrite Hom. done.
  - destruct Ho as (_ & _ & _ & _ & <- & Hle & _). done.
Qed.

(** ** A concrete run *)

(** One observation of a device that is not UTF-8, then two scrapes. *)
Definition demo_observation : logEventCommand := command (logEventObserve netmap) [String (ascii_of_nat 255) ""] [].
Definition demo_request : logEventCommand := command logEventTakeSnapshot [] [].
Definition demo0 : LogEventStore := push demo_request (push demo_request (observe demo_observation (newLogEventStoreWithCapacity 4)).2).
Definition demo1 : LogEventStore := (take 1 demo_observation (demo0 <| commands := [demo_request; demo_request] |>)).2.
Definition demo2 : LogEventStore := (take 2 demo_request (demo1 <| commands := [demo_request] |>)).2.
Definition demo3 : LogEventStore := (take 3 demo_request (demo2 <| commands := [] |>)).2.
Definition demo_snapshot1 : logEventSnapshot := (buildSnapshot 2 0 (fams demo1)).1.
Definition demo_snapshot2 : logEventSnapshot := (buildSnapshot 3 0 (fams demo2)).1.
Definition demo_start : list label :=
  [LObserve demo_observation Accepted; LControl demo_request true; LControl demo_request true; LTake demo_observation None].

Lemma demo_run : steps (newLogEventStoreWithCapacity 4)
  (demo_start ++ LTake demo_request (Some demo_snapshot1) :: [LTake demo_request (Some demo_snapshot2)]) demo3.
Proof.
  change (demo_start ++ _) with ((((((([] ++ [LObserve demo_observation Accepted]) ++ [LControl demo_request true]) ++ [LControl demo_request true])
    ++ [LTake demo_observation None]) ++ [LTake demo_request (Some demo_snapshot1)]) ++ [LTake demo_request (Some demo_snapshot2)])).
  eapply Steps_snoc; [eapply Steps_snoc; [eapply Steps_snoc; [eapply Steps_snoc; [eapply Steps_snoc; [eapply Steps_snoc; [apply Steps_nil|]|]|]|]|]|].
  - exact (Step_observe (newLogEventStoreWithCapacity 4) demo_observation eq_refl).
  - by apply Step_control.
  - by apply Step_control.
  - exact (Step_take demo0 demo_observation [demo_request; demo_request] 1 eq_refl eq_refl eq_refl).
  - exact (Step_take demo1 demo_request [demo_request] 2 eq_refl eq_refl eq_refl).
  - exact (Step_take demo2 demo_request [] 3 eq_refl eq_refl eq_refl).
Qed.

Lemma store_snapshot_exact_witness : counted demo_snapshot1 netmap = [([String (ascii_of_nat 255) ""], 1)] /\ observed netmap (taken demo_start) = 1
  /\ dropped demo_snapshot1 = u64 (fulls demo_start).
Proof.
  split; [vm_compute; reflexivity|]. split; [vm_compute; reflexivity|].
  exact (proj2 (proj2 (proj2 (proj2 (store_snapshot_exact 4 demo_start demo_request demo_snapshot1 _ demo3 ltac:(done) demo_run eq_refl))))).
Defined.

Lemma store_bounded_witness : zlen (commands demo3) <= 4.
Proof.
  refine (proj1 (store_bounded 4 defaultMaxLogEventKeys _ demo3 _ _ demo_run _ _)); [done|done|done|].
  intros cmd Hcmd Hk. cbn in Hcmd. repeat (apply elem_of_cons in Hcmd as [->|Hcmd]; [discriminate|]). by apply not_elem_of_nil in Hcmd.
Defined.

End LogEvents.
