(* ===== verification/Scrape.v ===== *)
(** * A scrape of the log events ([logEventsCollector] of [collector/logevents.go])

    The descriptors, the metrics one snapshot turns into, and when building them
    panics. *)

From stdpp Require Import base decidable list gmap strings sorting.
From Stdlib Require Import ZArith Lia Ascii.
From S2P Require Import Prelude Netip Order GoStrings GoTime OtlpSink Derive Bounded LogEvents.
Import Bounded LogEvents.

Module Scrape.

(** ** [utf8.ValidString] *)

(** The range of the next byte, and how many continuation bytes follow it. *)
Definition first_byte (b : Z) : option (Z * Z * nat) :=
  if (0xC2 <=? b) && (b <=? 0xDF) then Some (0x80, 0xBF, 0%nat)
  else if b =? 0xE0 then Some (0xA0, 0xBF, 1%nat)
  else if b =? 0xED then Some (0x80, 0x9F, 1%nat)
  else if (0xE1 <=? b) && (b <=? 0xEF) then Some (0x80, 0xBF, 1%nat)
  else if b =? 0xF0 then Some (0x90, 0xBF, 2%nat)
  else if (0xF1 <=? b) && (b <=? 0xF3) then Some (0x80, 0xBF, 2%nat)
  else if b =? 0xF4 then Some (0x80, 0x8F, 2%nat)
  else None.

Fixpoint valid_from (next : option (Z * Z * nat)) (s : string) : bool :=
  match s with
  | EmptyString => match next with None => true | Some _ => false end
  | String c s =>
      let b := Z.of_nat (nat_of_ascii c) in
      match next with
      | None => if b <? 0x80 then valid_from None s else match first_byte b with Some n => valid_from (Some n) s | None => false end
      | Some (lo, hi, more) =>
          (lo <=? b) && (b <=? hi) && valid_from (match more with O => None | S m => Some (0x80, 0xBF, m) end) s
      end
  end.
Definition ValidString : string -> bool := valid_from None.

(** ** Descriptors *)

(** The names [Register] gives the descriptors of a family and the labels it declares;
    [buildPrometheusDesc] adds the instance's label. *)
Definition counter_desc (f : counterFamily) : string * list string :=
  match f with
  | fw => ("firewall_total", ["action"; "interface"; "rule_id"; "rule_name"; "scope"])
  | ha => ("haproxy_total", ["event"; "backend"; "server"; "state"; "status_class"])
  | ssh => ("sshd_total", ["result"; "method"; "scope"])
  | dhcp => ("dhcp_total", ["action"; "interface"; "server"])
  | audit => ("audit_total", ["event"; "result"])
  | ids => ("ids_total", ["event_type"; "action"; "category"; "severity"])
  | gateway => ("gateway_total", ["event"; "gateway"])
  | gatewayKills => ("gateway_states_killed_total", ["gateway"])
  | ppp => ("ppp_link_total", ["interface"; "event"])
  | radius => ("radius_total", ["event"; "result"; "client_scope"])
  | vpn => ("vpn_total", ["backend"; "event"; "result"; "connection"])
  | carp => ("carp_total", ["event"; "from"; "to"; "interface"; "vhid"])
  | upnp => ("upnp_total", ["event"; "result"; "protocol"])
  | netmap => ("netmap_ring_full_events_total", ["device"])
  | arp => ("arp_address_moves_total", ["interface"])
  | dhcpCli => ("dhcp_client_total", ["interface"; "type"])
  | dhcpScr => ("dhcp_client_script_total", ["interface"; "reason"])
  | dhcp6cMsg => ("dhcp6c_message_total", ["interface"; "direction"; "type"])
  | dhcp6cEvt => ("dhcp6c_event_total", ["interface"; "event"; "reason"])
  | dhcp6AllocFail => ("dhcp6_alloc_fail_total", ["reason"])
  | zen => ("zenarmor_total", ["family"; "action"; "category"; "interface"; "rcode"; "severity"; "status_class"])
  end.
(** A gauge has a descriptor for each number of its value. *)
Definition gauge_desc (g : gaugeFamily) : list string * list string :=
  match g with
  | pppLastUp => (["ppp_last_link_up_timestamp_seconds"], ["interface"])
  | dhcpLease => (["dhcp_client_lease_bound_timestamp_seconds"; "dhcp_client_lease_renewal_timestamp_seconds"], ["interface"])
  | dhcp6cPrefix =>
      (["dhcp6c_prefix_updated_timestamp_seconds"; "dhcp6c_prefix_preferred_expiry_timestamp_seconds"; "dhcp6c_prefix_valid_expiry_timestamp_seconds"],
       ["interface"; "prefix_length"])
  | dhcp6cAddr =>
      (["dhcp6c_address_updated_timestamp_seconds"; "dhcp6c_address_preferred_expiry_timestamp_seconds"; "dhcp6c_address_valid_expiry_timestamp_seconds"],
       ["interface"])
  end.

(** ** Metrics *)

Inductive ValueType := CounterValue | GaugeValue.
(** A call of [MustNewConstMetric]: the descriptor's name and number of labels, the
    instance's included, and the values. *)
Record Metric := mkMetric { mName : string; mDeclared : nat; mType : ValueType; mValue : Z; mLabels : list string }.

(** A loop over a family's rows: one metric for each descriptor and number of a row. *)
Record block := mkBlock { bNames : list (string * ValueType); bLabels : list string; bRows : list (list string * list Z) }.

Definition emit_block (instance : string) (b : block) : list Metric :=
  flat_map (fun row => zip_with (fun n x => mkMetric n.1 (S (length (bLabels b))) n.2 x (row.1 ++ [instance])) (bNames b) row.2) (bRows b).

Definition counter_block (snap : logEventSnapshot) (f : counterFamily) : block :=
  mkBlock [((counter_desc f).1, CounterValue)] (counter_desc f).2 (map (fun p => (p.1, [p.2])) (counted snap f)).
Definition gauge_block (snap : logEventSnapshot) (g : gaugeFamily) : block :=
  mkBlock (map (fun n => (n, GaugeValue)) (gauge_desc g).1) (gauge_desc g).2 (current snap g).
Definition sat_block (snap : logEventSnapshot) : block :=
  mkBlock [("cardinality_capped_total", CounterValue); ("cardinality_keys", GaugeValue)] ["family"]
    (map (fun f => ([family f], [capped f; keys f])) (sat snap)).
Definition dropped_block (snap : logEventSnapshot) : block :=
  mkBlock [("observation_dropped_total", CounterValue)] ["reason"] [([logEventObservationDropReasonHandoffFull], [rnd (dropped snap)])].
Definition domain_block (snap : logEventSnapshot) : block :=
  mkBlock [("filterlog_domain_total", CounterValue)] ["domain"] (map (fun p => ([p.1], [p.2])) (filterlogDom snap)).
Definition device_block (snap : logEventSnapshot) : block :=
  mkBlock [("zenarmor_device_info", GaugeValue)] ["device_name"; "device_category"; "interface"] (map (fun d => (d.1 :: d.2, [1])) (devices snap)).

(** The loops of [Update], in order. *)
Definition blocks (snap : logEventSnapshot) : list block :=
  let c := counter_block snap in
  let g := gauge_block snap in
  [sat_block snap; dropped_block snap; c fw; domain_block snap; c ha; c ssh; c dhcp; c audit; c ids; c gatewayKills; c ppp; g pppLastUp;
   c gateway; c radius; c vpn; c carp; c upnp; c netmap; c arp; c dhcpCli; c dhcpScr; g dhcpLease; c dhcp6cMsg; c dhcp6cEvt; g dhcp6cPrefix;
   g dhcp6cAddr; c dhcp6AllocFail; c zen; device_block snap].
Definition calls (instance : string) (snap : logEventSnapshot) : list Metric := flat_map (emit_block instance) (blocks snap).

(** [NewConstMetric] refuses a wrong number of labels and a label that is not UTF-8, and
    [MustNewConstMetric] panics on what it refuses. *)
Definition accepts (m : Metric) : bool := (length (mLabels m) =? mDeclared m)%nat && forallb ValidString (mLabels m).

(** What reaches the channel, and whether [Update] returns. *)
Fixpoint send (l : list Metric) : list Metric * bool :=
  match l with
  | [] => ([], true)
  | m :: l => if accepts m then let '(out, ok) := send l in (m :: out, ok) else ([], false)
  end.
Definition Update (instance : string) (snap : logEventSnapshot) : list Metric * bool := send (calls instance snap).

(** ** Series *)

Definition series (m : Metric) : string * list string := (mName m, mLabels m).

(** A block whose rows have distinct tuples of the declared length. *)
Definition block_ok (b : block) : Prop :=
  NoDup (map fst (bNames b)) /\ NoDup (map fst (bRows b)) /\ forall row, row ∈ bRows b -> length row.1 = length (bLabels b).

Definition row_metrics (instance : string) (b : block) (row : list string * list Z) : list Metric :=
  zip_with (fun n x => mkMetric n.1 (S (length (bLabels b))) n.2 x (row.1 ++ [instance])) (bNames b) row.2.

Lemma row_spec instance b row m : m ∈ row_metrics instance b row ->
  mName m ∈ map fst (bNames b) /\ mLabels m = row.1 ++ [instance] /\ mDeclared m = S (length (bLabels b)).
Proof.
  unfold row_metrics. intros (n & x & E & Hn & _)%elem_of_zip_with. rewrite E. cbn. split; [|done]. by apply list_elem_of_fmap_2.
Qed.

Lemma row_nodup instance b row : NoDup (map fst (bNames b)) -> NoDup (map series (row_metrics instance b row)).
Proof.
  unfold row_metrics. generalize row.2. generalize (bNames b). induction l as [|n l IH]; intros vals Hn; [constructor|]. destruct vals as [|x vals]; [constructor|].
  cbn [map] in Hn. apply NoDup_cons in Hn as [Hx Hn]. cbn [zip_with map]. constructor; [|by apply IH].
  intros Hin. apply Hx. apply list_elem_of_fmap in Hin as (m & E & Hm). apply elem_of_zip_with in Hm as (n' & y & -> & Hn' & _).
  unfold series in E. cbn in E. injection E as ->. by apply list_elem_of_fmap_2.
Qed.

Lemma nodup_flat {A B C D} (g : A -> list B) (f : B -> C) (key : A -> D) l :
  NoDup (map key l) -> (forall a, a ∈ l -> NoDup (map f (g a))) ->
  (forall a a' b b', a ∈ l -> a' ∈ l -> b ∈ g a -> b' ∈ g a' -> f b = f b' -> key a = key a') -> NoDup (map f (flat_map g l)).
Proof.
  induction l as [|a l IH]; intros Hk Hn Hd; [constructor|]. cbn [map] in Hk. apply NoDup_cons in Hk as [Ha Hk]. cbn [flat_map]. rewrite map_app. apply NoDup_app.
  split; [apply Hn; constructor|]. split.
  - intros c Hc Hc'. apply list_elem_of_fmap in Hc as (b & -> & Hb). apply list_elem_of_fmap in Hc' as (b' & E & Hb'). apply list_elem_of_In, in_flat_map in Hb' as (a' & Ha' & Hb').
    apply list_elem_of_In in Ha', Hb'. apply Ha. rewrite (Hd a a' b b'); [by apply list_elem_of_fmap_2|constructor|by constructor|done..].
  - apply IH; [done|intros a' Ha'; apply Hn; by constructor|]. intros a1 a2 b b' H1 H2. apply Hd; by constructor.
Qed.

Lemma emit_nodup instance b : block_ok b -> NoDup (map series (emit_block instance b)).
Proof.
  intros (Hn & Hr & Hl). apply (nodup_flat (row_metrics instance b) series fst); [done|intros row _; by apply row_nodup|].
  intros r r' m m' _ _ Hm Hm' E. apply row_spec in Hm as (_ & Em & _). apply row_spec in Hm' as (_ & Em' & _). unfold series in E. injection E as _ E.
  rewrite Em, Em' in E. by apply app_inj_tail in E as [-> _].
Qed.

Lemma emitted_spec instance b m : m ∈ emit_block instance b -> mName m ∈ map fst (bNames b) /\ mDeclared m = S (length (bLabels b))
  /\ exists row, row ∈ bRows b /\ mLabels m = row.1 ++ [instance].
Proof.
  intros Hm. apply list_elem_of_In, in_flat_map in Hm as (row & Hr & Hm). apply list_elem_of_In in Hr, Hm. apply (row_spec instance b) in Hm as (H1 & H2 & H3). eauto.
Qed.

(** The names of the descriptors do not depend on the snapshot, and no two loops share one. *)
Definition names : list (list string) := map (fun b => map fst (bNames b)) (blocks (mkSnapshot (fun _ => []) (fun _ => []) [] [] [] 0)).
Lemma names_blocks snap : map (fun b => map fst (bNames b)) (blocks snap) = names.
Proof. reflexivity. Qed.

Lemma names_nodup : NoDup names.
Proof. apply (bool_decide_eq_true_1 _). vm_compute. reflexivity. Qed.
Lemma names_apart : Forall (fun x => Forall (fun y => forall n, n ∈ x -> n ∈ y -> x = y) names) names.
Proof.
  assert (forallb (fun x => forallb (fun y => bool_decide (x = y) || forallb (fun n => negb (bool_decide (n ∈ y))) x) names) names = true) as H
    by (vm_compute; reflexivity).
  apply Forall_forall. intros x Hx. apply Forall_forall. intros y Hy n Hn Hn'. rewrite forallb_forall in H. apply list_elem_of_In in Hx, Hy. specialize (H x Hx).
  rewrite forallb_forall in H. specialize (H y Hy). apply orb_true_iff in H as [H|H]; [by apply bool_decide_eq_true in H|].
  rewrite forallb_forall in H. apply list_elem_of_In in Hn. specialize (H n Hn). apply negb_true_iff, bool_decide_eq_false in H. done.
Qed.

(** What the store promises of a snapshot. *)
Record snapshot_shape (snap : logEventSnapshot) : Prop := {
  ss_counted : forall f, NoDup (map fst (counted snap f)) /\ forall k n, (k, n) ∈ counted snap f -> length k = arity f;
  ss_current : forall g, NoDup (map fst (current snap g)) /\ forall k x, (k, x) ∈ current snap g -> length k = gauge_arity g /\ length x = gauge_width g;
  ss_devices : NoDup (map fst (devices snap)) /\ forall k x, (k, x) ∈ devices snap -> length x = 2%nat;
  ss_domains : NoDup (map fst (filterlogDom snap));
  ss_sat : NoDup (map family (sat snap)) }.

Lemma map_nodup {A B} (f : A -> B) l : (forall x y, f x = f y -> x = y) -> NoDup l -> NoDup (map f l).
Proof. intros Hf Hl. exact (NoDup_fmap_2 (Inj0 := Hf) f l Hl). Qed.

Lemma counter_block_ok snap f : snapshot_shape snap -> block_ok (counter_block snap f).
Proof.
  intros H. destruct (ss_counted _ H f) as [Hn Hl]. split; [repeat constructor; set_solver|]. split.
  - cbn [bRows counter_block]. by rewrite map_map.
  - intros row Hr. apply list_elem_of_fmap in Hr as ([k n] & -> & Hr). cbn [fst bLabels counter_block]. rewrite (Hl k n Hr). by destruct f.
Qed.

Lemma gauge_block_ok snap g : snapshot_shape snap -> block_ok (gauge_block snap g).
Proof.
  intros H. destruct (ss_current _ H g) as [Hn Hl]. split; [|split; [done|]].
  - apply (bool_decide_eq_true_1 _). destruct g; reflexivity.
  - intros [k x] Hr. destruct (Hl k x Hr) as [E _]. cbn [fst]. rewrite E. by destruct g.
Qed.

Lemma blocks_ok snap : snapshot_shape snap -> Forall block_ok (blocks snap).
Proof.
  intros H. unfold blocks. cbv zeta. repeat (apply Forall_cons; split); try (by apply counter_block_ok); try (by apply gauge_block_ok); [..|constructor].
  - split; [apply (bool_decide_eq_true_1 _); reflexivity|]. cbn [bRows sat_block]. split; [|by intros row (f & -> & _)%list_elem_of_fmap].
    rewrite map_map. cbn [fst]. rewrite <- (map_map family (fun n => [n])). apply map_nodup; [by intros ? ? [= ->]|by apply ss_sat].
  - split; [apply (bool_decide_eq_true_1 _); reflexivity|]. split; [apply (bool_decide_eq_true_1 _); reflexivity|]. by intros row ->%list_elem_of_singleton.
  - split; [apply (bool_decide_eq_true_1 _); reflexivity|]. cbn [bRows domain_block]. split; [|by intros row (f & -> & _)%list_elem_of_fmap].
    rewrite map_map. cbn [fst]. rewrite <- (map_map fst (fun n => [n])). apply map_nodup; [by intros ? ? [= ->]|by apply ss_domains].
  - destruct (ss_devices _ H) as [Hn Hl]. split; [apply (bool_decide_eq_true_1 _); reflexivity|]. cbn [bRows device_block]. split.
    + rewrite map_map. cbn [fst]. assert (NoDup (devices snap)) as Hd by (by eapply (NoDup_fmap_1 fst)).
      clear Hl. induction (devices snap) as [|[k x] l IH]; [constructor|]. cbn [map] in Hn |- *. apply NoDup_cons in Hn as [Hk Hn], Hd as [_ Hd]. constructor; [|by apply IH].
      intros ([k' x'] & [= <- _] & Hin)%list_elem_of_fmap. apply Hk. by apply (list_elem_of_fmap_2 fst _ (k, x')).
    + intros row ([k x] & -> & Hr)%list_elem_of_fmap. cbn. by rewrite (Hl k x Hr).
Qed.

Lemma sat_names : NoDup (map (fun x => match x with inl f => counter_name f | inr g => gauge_name g end) sat_order ++ [logFamilyZenarmorDevice]).
Proof. apply (bool_decide_eq_true_1 _). vm_compute. reflexivity. Qed.

Lemma build_shape top l now drops s : families_ok top l s -> snapshot_shape (buildSnapshot now drops s).1.
Proof.
  intros [Hc Hg _ (Hd & _ & Ha) [Ho _]]. unfold buildSnapshot. pose proof (live_spec now (zenDevs s) Hd) as Hl. destruct (live now (zenDevs s)) as [devs inv].
  destruct Hl as (_ & _ & _ & Hn & _ & Hm). split; cbn [fst counted current devices filterlogDom sat].
  - intros f. split; [apply NoDup_fst_map_to_list|]. intros k n Hk. apply elem_of_map_to_list in Hk. apply (co_shape _ _ _ (Hc f)). eauto.
  - intros g. split; [apply NoDup_fst_map_to_list|]. intros k x Hk. apply elem_of_map_to_list in Hk. by apply (go_shape _ _ (Hg g)).
  - split; [done|]. intros k x Hx. apply Hm in Hx as (r & Hr & <- & _). by eapply Ha.
  - apply top_nodup. by destruct Ho as (_ & _ & _ & Ho & _).
  - rewrite map_app, map_map. erewrite map_ext; [exact sat_names|]. by intros [f|g].
Qed.

Lemma calls_spec instance snap m : snapshot_shape snap -> m ∈ calls instance snap ->
  length (mLabels m) = mDeclared m /\ exists b row, b ∈ blocks snap /\ row ∈ bRows b /\ mLabels m = row.1 ++ [instance].
Proof.
  intros H Hm. apply list_elem_of_In, in_flat_map in Hm as (b & Hb & Hm). apply list_elem_of_In in Hb, Hm. destruct (emitted_spec instance b m Hm) as (_ & E & row & Hr & El).
  pose proof (blocks_ok snap H) as Hall. rewrite Forall_forall in Hall. destruct (Hall b Hb) as (_ & _ & Hlen). split; [|eauto 10].
  rewrite El, E, length_app, (Hlen row Hr). cbn. lia.
Qed.

Lemma calls_nodup instance snap : snapshot_shape snap -> NoDup (map series (calls instance snap)).
Proof.
  intros H. pose proof (blocks_ok snap H) as Hall. rewrite Forall_forall in Hall.
  apply (nodup_flat (emit_block instance) series (fun b => map fst (bNames b))); [rewrite names_blocks; apply names_nodup|intros b Hb; by apply emit_nodup, Hall|].
  intros b b' m m' Hb Hb' Hm Hm' E. apply emitted_spec in Hm as (Hm & _). apply emitted_spec in Hm' as (Hm' & _). unfold series in E. injection E as E _. rewrite E in Hm.
  pose proof names_apart as Hap. rewrite Forall_forall in Hap. assert (forall b, b ∈ blocks snap -> map fst (bNames b) ∈ names) as Hin
    by (intros b0 Hb0; rewrite <- (names_blocks snap); by apply (list_elem_of_fmap_2 (fun b => map fst (bNames b)))).
  specialize (Hap _ (Hin b Hb)). rewrite Forall_forall in Hap. exact (Hap _ (Hin b' Hb') _ Hm Hm').
Qed.

Lemma send_spec l : ((send l).2 = true <-> forall m, m ∈ l -> accepts m = true) /\ ((send l).2 = true -> (send l).1 = l).
Proof.
  induction l as [|m l [IH1 IH2]]; [split; [split; [set_solver|done]|done]|]. cbn [send]. destruct (accepts m) eqn:Em.
  - destruct (send l) as [out ok]. cbn [fst snd] in *. split.
    + rewrite IH1. split; [intros H x [->|Hx]%elem_of_cons; auto|intros H x Hx; apply H; by constructor].
    + intros H. by rewrite IH2.
  - split; [|done]. split; [done|]. intros H. rewrite (H m) in Em; [done|constructor].
Qed.

(** The tuples a snapshot turns into labels. *)
Definition tuples (snap : logEventSnapshot) : list (list string) := flat_map (fun b => map fst (bRows b)) (blocks snap).

Definition valid_tuples (snap : logEventSnapshot) : Prop := forall k s, k ∈ tuples snap -> s ∈ k -> ValidString s = true.

Lemma update_completes instance snap : snapshot_shape snap -> ValidString instance = true -> valid_tuples snap -> Update instance snap = (calls instance snap, true).
Proof.
  intros Hs Hi Hv. unfold Update. destruct (send_spec (calls instance snap)) as [H1 H2]. assert ((send (calls instance snap)).2 = true) as Hok.
  { apply H1. intros m Hm. destruct (calls_spec instance snap m Hs Hm) as (Hl & b & row & Hb & Hr & El). unfold accepts. rewrite Hl, Nat.eqb_refl. cbn [andb].
    rewrite El, forallb_app. cbn [forallb]. rewrite Hi, andb_true_r. apply forallb_forall. intros x Hx. apply list_elem_of_In in Hx. apply (Hv row.1 x); [|done].
    apply list_elem_of_In, in_flat_map. exists b. split; [by apply list_elem_of_In|]. apply list_elem_of_In. by apply list_elem_of_fmap_2. }
  specialize (H2 Hok). destruct (send (calls instance snap)) as [out ok]. cbn in *. by subst.
Qed.

Lemma counter_block_listed snap f : counter_block snap f ∈ blocks snap.
Proof. apply list_elem_of_In. unfold blocks. destruct f; cbn; tauto. Qed.

(** A tuple with a label that is not UTF-8 stops the scrape. *)
Lemma update_panics instance snap f k n s : (k, n) ∈ counted snap f -> s ∈ k -> ValidString s = false -> (Update instance snap).2 = false.
Proof.
  intros Hk Hs Hv. destruct (Update instance snap).2 eqn:E; [|done]. unfold Update in E. destruct (send_spec (calls instance snap)) as [[H1 _] _]. specialize (H1 E).
  set (m := mkMetric (counter_desc f).1 (S (length (counter_desc f).2)) CounterValue n (k ++ [instance])).
  assert (m ∈ calls instance snap) as Hm.
  { apply list_elem_of_In, in_flat_map. exists (counter_block snap f). split; [apply list_elem_of_In, counter_block_listed|].
    apply in_flat_map. exists (k, [n]). split; [apply list_elem_of_In; by apply (list_elem_of_fmap_2 (fun p : Key * Z => (p.1, [p.2])) _ (k, n))|by left]. }
  specialize (H1 m Hm). unfold accepts in H1. apply andb_true_iff in H1 as [_ H1]. rewrite forallb_forall in H1. cbn [mLabels m] in H1.
  rewrite (H1 s) in Hv; [done|]. apply list_elem_of_In, elem_of_app. by left.
Qed.

(** ** Theorems *)

(** The store a snapshot of a run was taken from. *)
Lemma run_snapshot cap tr cmd snap tr' s : 0 <= cap -> steps (newLogEventStoreWithCapacity cap) (tr ++ LTake cmd (Some snap) :: tr') s -> zlen (accepted tr) < 2 ^ 53 ->
  exists s1 now, steps (newLogEventStoreWithCapacity cap) tr s1 /\ store_ok defaultMaxLogEventKeys cap tr s1 /\ steps s1 (LTake cmd (Some snap) :: tr') s
    /\ snap = (buildSnapshot now (observationDrops s1) (fams s1)).1.
Proof.
  intros Hcap H Hn. apply steps_app in H as (s1 & H1 & H2). pose proof H2 as H2'. change (LTake cmd (Some snap) :: tr') with ([LTake cmd (Some snap)] ++ tr') in H2.
  apply steps_app in H2 as (s2 & H2 & _). apply steps_one, snapshot_taken in H2 as (q & now & _ & _ & _ & E).
  exists s1, now. split; [done|]. split; [by apply steps_ok|]. done.
Qed.

(** [C23] A scrape is well formed.  In any run, the metrics a delivered snapshot
    turns into carry exactly the labels their descriptors declare, and no two of them
    are the same series; and as long as every label value is UTF-8 the scrape emits
    all of them. *)
Theorem scrape_well_formed cap tr cmd snap tr' s instance : 0 <= cap ->
  steps (newLogEventStoreWithCapacity cap) (tr ++ LTake cmd (Some snap) :: tr') s -> zlen (accepted tr) < 2 ^ 53 -> ValidString instance = true ->
  NoDup (map series (calls instance snap))
  /\ (forall m, m ∈ calls instance snap -> length (mLabels m) = mDeclared m)
  /\ (valid_tuples snap -> Update instance snap = (calls instance snap, true)).
Proof.
  intros Hcap H Hn Hi. destruct (run_snapshot cap tr cmd snap tr' s Hcap H Hn) as (s1 & now & _ & Hok & _ & E).
  assert (snapshot_shape snap) as Hs by (rewrite E; eapply build_shape, so_families, Hok).
  split; [by apply calls_nodup|]. split; [intros m Hm; by apply (calls_spec instance snap)|by apply update_completes].
Qed.


Lemma scrape_well_formed_witness : NoDup (map series (calls "fw" demo_snapshot1)) /\ length (calls "fw" demo_snapshot1) = 54%nat.
Proof. split; [|vm_compute; reflexivity]. exact (proj1 (scrape_well_formed 4 demo_start demo_request demo_snapshot1 _ demo3 "fw" ltac:(done) demo_run eq_refl eq_refl)). Defined.


End Scrape.
