(* ===== verification/EndToEnd.v ===== *)
(** * From a received line to a scrape

    The syslog receiver with the log event store as its metric sink: what a line does to
    the store is a run of the store. *)

From stdpp Require Import base decidable list gmap strings.
From Stdlib Require Import ZArith Lia Ascii.
From S2P Require Import Prelude Netip GoStrings GoTime OtlpSink Enrich LogQueue Envelope Filterlog Registry Derive Receiver Labels Bounded LogEvents Scrape.
Import Queue Envelope Filterlog Registry Derive Receiver LogEvents.

Module EndToEnd.

Section Store.
Context {P : Type} `{!ProgramProcessor P}.
Notation source := (source (S := LogEventStore) (P := P)).

(** A run of observations from one store to another. *)
Definition observes (l : label) : Prop := match l with LObserve _ _ => True | _ => False end.
Definition feeds (s s' : LogEventStore) (tr : list label) : Prop := steps s tr s' /\ Forall observes tr.

Lemma feeds_nil s : feeds s s [].
Proof. split; constructor. Qed.
Lemma feeds_trans s1 s2 s3 tr tr' : feeds s1 s2 tr -> feeds s2 s3 tr' -> feeds s1 s3 (tr ++ tr').
Proof.
  intros [H1 F1] [H2 F2]. split; [|by apply Forall_app]. clear F1 F2. induction H2 as [s|s tr' s1' l s2' Hs IH Hstep]; [by rewrite app_nil_r|].
  rewrite app_assoc. econstructor; [by apply IH|done].
Qed.

Lemma accepted_some tr tr' : accepted tr <> [] \/ accepted tr' <> [] -> accepted (tr ++ tr') <> [].
Proof.
  intros H E. assert (accepted (tr ++ tr') = accepted tr ++ accepted tr') as Ea by apply omap_app. rewrite Ea in E.
  apply app_eq_nil in E as [E1 E2]. by destruct H.
Qed.

(** One call of the sink, with whether it was taken. *)
Lemma sink_feeds o s : exists tr, feeds s (Derive.observe o s).2 tr /\ ((Derive.observe o s).1 = true -> accepted tr <> []).
Proof.
  unfold Derive.observe, LogEventSink. destruct (command_of o) as [cmd|]; [|exists []; split; [apply feeds_nil|done]].
  destruct (stopped s) eqn:Es.
  - exists ([] ++ [LObserve cmd Stopped]). split; [split; [|by repeat constructor]|unfold observe; by rewrite Es].
    econstructor; [constructor|by apply Step_refused].
  - exists ([] ++ [LObserve cmd (outcome_of (observe cmd s).1)]). split; [split; [|by repeat constructor]|by intros ->].
    econstructor; [constructor|by apply Step_observe].
Qed.

Lemma calls_feed l : forall b s, exists tr, feeds s (fold_left call l (b, s)).2 tr /\ ((fold_left call l (b, s)).1 = true -> b = true \/ accepted tr <> []).
Proof.
  induction l as [|o l IH]; intros b s; [exists []; split; [apply feeds_nil|by left]|]. cbn [fold_left]. unfold call at 2 4.
  destruct (sink_feeds o s) as (tr & Hf & Ha). destruct (Derive.observe o s) as [t s1]. cbn [fst snd] in *. destruct (IH (t || b) s1) as (tr' & Hf' & Ha').
  exists (tr ++ tr'). split; [by eapply feeds_trans|]. intros Hc. destruct (Ha' Hc) as [Hb|Hn].
  - apply orb_true_iff in Hb as [->|Hb]; [right|by left]. apply accepted_some. left. by apply Ha.
  - right. apply accepted_some. by right.
Qed.

(** The receiver's effects on the store: a run, that took an observation whenever the
    line was sampled away. *)
Definition fed (s : source) (res : list effect * source) : Prop :=
  exists tr, feeds (sSink s) (sSink res.2) tr /\ (Reject "sampled" ∈ res.1 -> accepted tr <> []).

Lemma derive_fed c now program rec parsed s : fed s (derive_and_emit c now program rec parsed s).
Proof.
  unfold derive_and_emit. match goal with |- context [if parsed && ?b then ?x else ?y] => set (first := if parsed && b then x else y) end.
  assert (exists tr, feeds (sSink s) (sSink first.2) tr) as (tr1 & Hf1).
  { unfold first. destruct (parsed && _); [|exists []; apply feeds_nil]. destruct (enrichFilterlogDomain _ _ _) as [[rec' domain] cache].
    destruct (str_empty domain); [exists []; apply feeds_nil|]. destruct (sink_feeds (ObserveFilterlogDomain domain) (sSink s)) as (tr & Hf & _). by exists tr. }
  clearbody first. destruct first as [rec' s']. cbn [snd] in Hf1. unfold observeDerived.
  destruct (calls_feed (derived_calls program (Attributes rec')) false (sSink s')) as (tr2 & Hf2 & Ha). destruct (fold_left call _ _) as [counted sink]. cbn [fst snd] in *.
  assert (forall out, (Reject "sampled" ∈ out -> counted = true) -> fed s (out, s' <| sSink := sink |>)) as Hfed.
  { intros out Ho. exists (tr1 ++ tr2). split; [by eapply feeds_trans|]. intros Hin. destruct (Ha (Ho Hin)) as [|Hn]; [done|]. apply accepted_some. by right. }
  destruct (cSample c); [|apply Hfed; intros Hin%list_elem_of_singleton; done]. destruct (sampleKeep program rec' counted) eqn:Ek; cbn [negb].
  - destruct (cSampledAttr c && counted); apply Hfed; intros Hin%list_elem_of_singleton; done.
  - apply Hfed. intros _. by apply keep_false in Ek as [-> _].
Qed.

Lemma fed_from s s0 res pre : fed s0 res -> sSink s0 = sSink s -> Reject "sampled" ∉ pre -> fed s (pre ++ res.1, res.2).
Proof.
  intros (tr & Hf & Ha) E Hp. exists tr. rewrite <- E. split; [done|]. cbn [fst]. intros [Hin|Hin]%elem_of_app; [done|by apply Ha].
Qed.

Lemma idle s out : Reject "sampled" ∉ out -> fed s (out, s).
Proof. intros H. exists []. split; [apply feeds_nil|done]. Qed.

Lemma not_in_captures c shape fields : Reject "sampled" ∉ captures c shape fields.
Proof. unfold captures. destruct (cCapture c); [intros ?%list_elem_of_singleton; done|apply not_elem_of_nil]. Qed.

Lemma dispatch_fed c now env line s : fed s (dispatch c now env line s).
Proof.
  unfold dispatch. destruct (filter_Enabled _ && _); [apply idle; intros ?%list_elem_of_singleton; done|].
  destruct (buildRecord _ _ _ _ _) as [[rec parsed] g]. set (s0 := s <| sGlobals := g |>). pose proof (derive_fed c now (Program env) rec parsed s0) as Hd.
  destruct (derive_and_emit c now (Program env) rec parsed s0) as [out s']. cbv zeta. rewrite app_assoc. apply (fed_from s s0 (out, s')); [done|done|].
  intros [Hin|Hin]%elem_of_app.
  - destruct (negb parsed && _); [by apply not_in_captures in Hin|by apply not_elem_of_nil in Hin].
  - destruct (_ && _); [by apply list_elem_of_singleton in Hin|by apply not_elem_of_nil in Hin].
Qed.

Lemma not_in_emits recs : Reject "sampled" ∉ map Emit recs.
Proof. by intros (r & ? & _)%list_elem_of_fmap. Qed.

Lemma process_fed c now peer env line s : fed s (process c now peer env line s).
Proof.
  unfold process. destruct (sProc s) as [p|]; [|apply dispatch_fed]. destruct (Handles p _); [|apply dispatch_fed].
  destruct (Process _ _ _ _) as [[handled recs] p']. destruct handled; [exists []; split; [apply feeds_nil|intros Hin; by apply not_in_emits in Hin]|].
  cbv zeta. set (s0 := s <| sProc := Some p' |>). pose proof (dispatch_fed c now env line s0) as Hd. destruct (dispatch c now env line s0) as [out s'].
  apply (fed_from s s0 (out, s')); [done|done|apply not_in_emits].
Qed.

(** [C21] Sampling never drops a line the totals do not have.  Whatever a source does
    with a line, what it does to the store is a run of non-blocking observations; and
    when the line is sampled away, the store's queue has accepted an observation of it,
    which by the snapshots' theorem every scrape requested later counts. *)
Theorem receiver_feeds_store c now later peer line s :
  exists tr, steps (sSink s) tr (sSink (handle c now later peer line s).2) /\ Forall observes tr
    /\ (Reject "sampled" ∈ (handle c now later peer line s).1 -> accepted tr <> []).
Proof.
  enough (fed s (handle c now later peer line s)) as (tr & [H1 H2] & H3) by eauto. unfold handle. destruct (negb (sRunning s)); [apply idle, not_elem_of_nil|]. cbv zeta.
  assert (forall env l errs, Reject "sampled" ∉ errs -> fed s (let '(env, l) := match sanitizeFreeRADIUS env with Some safe => safe | None => (env, l) end in
    let '(out, s) := process c now peer env l s in (errs ++ out, s))) as Hrun.
  { intros env l errs He. destruct (match sanitizeFreeRADIUS env with Some safe => safe | None => _ end) as [env' l'].
    pose proof (process_fed c now peer env' l' s) as Hp. destruct (process c now peer env' l' s) as [out s']. by apply (fed_from s s (out, s')). }
  destruct (ParseEnvelope _ _ _) as [env|err|]; [apply Hrun, not_elem_of_nil| |apply idle, not_elem_of_nil].
  destruct (sanitizeMalformedFreeRADIUS _ _) as [[env l]|]; [apply Hrun; by intros ?%list_elem_of_singleton|].
  apply idle. intros [Hin|[Hin|Hin]%elem_of_app]%elem_of_app; [by apply list_elem_of_singleton in Hin|by apply not_in_captures in Hin|by apply list_elem_of_singleton in Hin].
Qed.

End Store.

(** ** A line that ends the scrapes *)

Definition store_source : source (S := LogEventStore) (P := unit) :=
  mkSource (mkGlobals (newPIDIfaceMemory 64) (newPIDIfaceMemory 64) []) None newLogEventStore None Enrich.NewCache true.
Definition received (line : string) : LogEventStore :=
  sSink (handle (MetricSink0 := LogEventSink) (ProgramProcessor0 := noProcessor) Labels.full_config demo_now demo_now (Addr4 0) line store_source).2.

(** A packet filter's line whose interface is one byte that is not UTF-8. *)
Definition not_utf8 : string := String (ascii_of_nat 255) "".
Definition hostile_line : string :=
  ("<134>1 2026-07-14T19:50:01Z fw filterlog 77 - - 83,,,02f4bab031b57d1e30553ce08e0ec131," ++ not_utf8
   ++ ",match,block,in,4,0x0,,64,0,0,DF,6,tcp,60,10.0.0.1,10.0.0.2,50000,443,0,S,1,,64240,,mss")%string.

(** The observation is accepted with that byte as a label; the first scrape after the
    owner has applied it fails, and by [Scrape.scrape_persists] so do all that follow. *)
Definition hostile_command : logEventCommand := command (logEventObserve fw) ["block"; not_utf8; "02f4bab031b57d1e30553ce08e0ec131"; ""; ""] [].
Example hostile_accepted : commands (received hostile_line) = [hostile_command].
Proof. vm_compute. reflexivity. Qed.
Example hostile_scrape : (Scrape.Update "fw" (buildSnapshot 2 0 (apply 1 hostile_command newFamilies)).1).2 = false.
Proof. vm_compute. reflexivity. Qed.

End EndToEnd.
