(* ===== verification/PollStore.v ===== *)
(** * What the polls leave behind ([collector/snapshot.go], [status_tracker.go], and the
      serving path of [collector.go])

    The store of the last poll of each collector, the tracker of their run histories,
    the upstream's health, and a scrape that replays them.  A sub-collector's own
    metrics are opaque: a type [M]. *)

From stdpp Require Import base decidable list gmap strings sorting.
From Stdlib Require Import ZArith Lia SpecFloat.
From S2P Require Import Prelude Netip Order Gauges.

Module PollStore.
Import Ratio.

(** ** Floating point *)

Definition fmul (a b : spec_float) : spec_float := SFmul 53 1024 a b.
(** [Duration.Seconds] and [Duration(f)], which cuts towards zero. *)
Definition Seconds (d : Duration) : spec_float :=
  fadd (float64 (Z.quot d Second)) (fdiv (float64 (Z.rem d Second)) (float64 1000000000)).
Definition to_Duration (f : spec_float) : Duration :=
  match f with
  | S754_finite s m e =>
      let n := match e with Z0 => Zpos m | Zpos p => Zpos m * 2 ^ Zpos p | Zneg p => Zpos m / 2 ^ Zpos p end in
      if s then - n else n
  | _ => 0
  end.

Section Store.
Context {M : Type}.

(** ** [snapshotStore] *)

Record collectorSnapshot := mkSnap {
  metrics : list M; lastPoll : Time; snapshotAt : Time; lastSuccess : Time; lastOK : bool; durationMs : spec_float; polled : bool;
  nextDeadline : Time }.
#[export] Instance eta_snap : Eta collectorSnapshot := fun e =>
  mkSnap (metrics e) (lastPoll e) (snapshotAt e) (lastSuccess e) (lastOK e) (durationMs e) (polled e) (nextDeadline e).

Definition zeroSnapshot : collectorSnapshot := mkSnap [] zero_time zero_time zero_time false (S754_zero false) false zero_time.

(** The store is a map of names; [ensure] and [entry] read an absent name as the zero
    snapshot. *)
Definition snapshotStore : Type := gmap string collectorSnapshot.
Definition newSnapshotStore : snapshotStore := ∅.
Definition entry (name : string) (s : snapshotStore) : collectorSnapshot := default zeroSnapshot (s !! name).

Definition put (name : string) (ms : list M) (dur : Duration) (ok : bool) (now : Time) (s : snapshotStore) : snapshotStore :=
  let e := entry name s in
  let e := if ok || (0 <? zlen ms) then e <| metrics := ms |> <| snapshotAt := now |> else e in
  let e := if ok then e <| lastSuccess := now |> else e in
  <[name := e <| lastPoll := now |> <| lastOK := ok |> <| durationMs := fdiv (float64 dur) (float64 Millisecond) |> <| polled := true |>]> s.
Definition setDeadline (name : string) (at_ : Time) (s : snapshotStore) : snapshotStore :=
  <[name := entry name s <| nextDeadline := at_ |>]> s.

(** [view], with the include set of a filtered read. *)
Definition view (include : option (gset string)) (s : snapshotStore) : snapshotStore :=
  match include with None => s | Some inc => filter (fun p => p.1 ∈ inc) s end.
Definition allPolled (names : list string) (s : snapshotStore) : bool := forallb (fun n => polled (entry n s)) names.

End Store.
#[global] Arguments collectorSnapshot : clear implicits.
#[global] Arguments snapshotStore : clear implicits.

(** ** [StatusTracker] *)

Definition StatusRingSize : Z := 40.

Record statEntry := mkStat {
  runs : Z; failures : Z; consecutiveFails : Z; lastStarted : Time; lastFinished : Time; lastDurationMs : spec_float; sLastOK : bool;
  lastError : string; interval : Duration; durations : list spec_float; outcomes : list bool; sSnapshotAt : Time; lastSuccessAt : Time;
  sNextDeadline : Time }.
#[export] Instance eta_stat : Eta statEntry := fun e =>
  mkStat (runs e) (failures e) (consecutiveFails e) (lastStarted e) (lastFinished e) (lastDurationMs e) (sLastOK e) (lastError e) (interval e)
    (durations e) (outcomes e) (sSnapshotAt e) (lastSuccessAt e) (sNextDeadline e).
Definition zeroStat : statEntry :=
  mkStat 0 0 0 zero_time zero_time (S754_zero false) false "" 0 [] [] zero_time zero_time zero_time.

Definition StatusTracker : Type := gmap string statEntry.
Definition NewStatusTracker : StatusTracker := ∅.
Definition stat (name : string) (t : StatusTracker) : statEntry := default zeroStat (t !! name).
Definition on_stat (name : string) (f : statEntry -> statEntry) (t : StatusTracker) : StatusTracker := <[name := f (stat name t)]> t.

(** [copy(ring, ring[1:]); ring[StatusRingSize-1] = v] once the ring is full. *)
Definition appendRing {A} (v : A) (ring : list A) : list A :=
  if zlen ring <? StatusRingSize then ring ++ [v] else tail ring ++ [v].

Definition RecordRun (name : string) (start : Time) (ms : spec_float) (ok : bool) (err : string) : StatusTracker -> StatusTracker :=
  on_stat name (fun e =>
    let e := e <| runs ::= fun n => add64 n 1 |> in
    let e := if ok then e <| consecutiveFails := 0 |>
             else e <| failures ::= fun n => add64 n 1 |> <| consecutiveFails ::= fun n => add64 n 1 |> in
    e <| lastStarted := start |> <| lastFinished := time_Add start (to_Duration (fmul ms (float64 Millisecond))) |> <| lastDurationMs := ms |>
      <| sLastOK := ok |> <| lastError := err |> <| durations ::= appendRing ms |> <| outcomes ::= appendRing ok |>).
Definition RecordClocks (name : string) (snapAt successAt : Time) : StatusTracker -> StatusTracker :=
  on_stat name (fun e => e <| sSnapshotAt := snapAt |> <| lastSuccessAt := successAt |>).
Definition SetNextDeadline (name : string) (at_ : Time) : StatusTracker -> StatusTracker := on_stat name (fun e => e <| sNextDeadline := at_ |>).
Definition SetInterval (name : string) (d : Duration) : StatusTracker -> StatusTracker := on_stat name (fun e => e <| interval := d |>).

(** [Snapshot]: sorted by display name; collectors of one display name keep the order
    of the map, which is what an unstable sort may do. *)
Definition Snapshot (display : string -> string) (t : StatusTracker) : list (string * statEntry) :=
  sort_by (fun a b => str_lt (display a.1) (display b.1)) (map_to_list t).

(** ** A poll *)

Section Poll.
Context {M : Type}.

Record Tables := mkTables { store : snapshotStore M; tracker : option StatusTracker }.
#[export] Instance eta_tables : Eta Tables := fun c => mkTables (store c) (tracker c).

(** The end of [pollOnce]: [begin] and [dur] are the poll's, [now] the store's own
    reading of the clock. *)
Definition record_poll (name : string) (buf : list M) (ok : bool) (err : string) (begin : Time) (dur : Duration) (now : Time) (c : Tables) : Tables :=
  let c := c <| store ::= put name buf dur ok now |> in
  match tracker c with
  | None => c
  | Some t =>
      let t := RecordRun name begin (fmul (Seconds dur) (float64 1000)) ok err t in
      let e := entry name (store c) in
      c <| tracker := Some (RecordClocks name (snapshotAt e) (lastSuccess e) t) |>
  end.
Definition publishDeadline (name : string) (at_ : Time) (c : Tables) : Tables :=
  mkTables (setDeadline name at_ (store c)) (option_map (SetNextDeadline name at_) (tracker c)).

Definition New (t : bool) : Tables := mkTables newSnapshotStore (if t then Some NewStatusTracker else None).

(** What the scheduler does to the tables. *)
Inductive event :=
| EPoll (name : string) (buf : list M) (ok : bool) (err : string) (begin : Time) (dur : Duration) (now : Time)
| EDeadline (name : string) (at_ : Time)
| EInterval (name : string) (d : Duration).
Definition handle_event (c : Tables) (e : event) : Tables :=
  match e with
  | EPoll name buf ok err begin dur now => record_poll name buf ok err begin dur now c
  | EDeadline name at_ => publishDeadline name at_ c
  | EInterval name d => c <| tracker := option_map (SetInterval name d) (tracker c) |>
  end.
Definition history (t : bool) (l : list event) : Tables := fold_left handle_event l (New t).

(** ** The history the tables stand for *)

(** The polls of a collector, latest first. *)
Definition polls_of (name : string) (l : list event) : list (list M * bool * Time) :=
  reverse (omap (fun e => match e with
    | EPoll n buf ok _ _ _ now => if str_eq n name then Some (buf, ok, now) else None
    | _ => None end) l).
Definition deadline_of (name : string) (l : list event) : Time :=
  default zero_time (head (reverse (omap (fun e => match e with EDeadline n at_ => if str_eq n name then Some at_ else None | _ => None end) l))).

(** The latest poll that left data, and the latest that was clean. *)
Definition stored (p : list M * bool * Time) : bool := p.1.2 || (0 <? zlen p.1.1).
Definition latest (f : list M * bool * Time -> bool) (l : list (list M * bool * Time)) : option (list M * bool * Time) := head (List.filter f l).

(** The longest prefix whose elements satisfy [f]. *)
Fixpoint take_while {A} (f : A -> bool) (l : list A) : list A :=
  match l with [] => [] | x :: l => if f x then x :: take_while f l else [] end.

Definition spec_entry (name : string) (l : list event) (e : collectorSnapshot M) : Prop :=
  let ps := polls_of name l in
  polled e = negb (0 =? zlen ps)
  /\ metrics e = (match latest stored ps with Some p => p.1.1 | None => [] end)
  /\ snapshotAt e = (match latest stored ps with Some p => p.2 | None => zero_time end)
  /\ lastSuccess e = (match latest (fun p => p.1.2) ps with Some p => p.2 | None => zero_time end)
  /\ lastPoll e = (match head ps with Some p => p.2 | None => zero_time end)
  /\ lastOK e = (match head ps with Some p => p.1.2 | None => false end)
  /\ nextDeadline e = deadline_of name l.

Lemma polls_snoc name l e : polls_of name (l ++ [e]) =
  match e with EPoll n buf ok _ _ _ now => if str_eq n name then (buf, ok, now) :: polls_of name l else polls_of name l | _ => polls_of name l end.
Proof.
  unfold polls_of. rewrite omap_app, reverse_app. destruct e as [n buf ok err begin dur now|n at_|n d]; try done. cbn. by destruct (str_eq n name).
Qed.
Lemma deadline_snoc name l e : deadline_of name (l ++ [e]) =
  match e with EDeadline n at_ => if str_eq n name then at_ else deadline_of name l | _ => deadline_of name l end.
Proof.
  unfold deadline_of. rewrite omap_app, reverse_app. destruct e as [n buf ok err begin dur now|n at_|n d]; try done. cbn. by destruct (str_eq n name).
Qed.
Lemma history_snoc t l e : history t (l ++ [e]) = handle_event (history t l) e.
Proof. unfold history. by rewrite fold_left_app. Qed.

Lemma str_same s : str_eq s s = true.
Proof. apply String.eqb_refl. Qed.
Lemma entry_insert name n x (s : snapshotStore M) : entry name (<[n := x]> s) = if str_eq n name then x else entry name s.
Proof.
  unfold entry, snapshotStore in *. destruct (str_eq n name) eqn:E; bool_prop; [subst; by rewrite (lookup_insert_eq (M := gmap string))|by rewrite (lookup_insert_ne (M := gmap string))].
Qed.
Lemma entry_put_other name n ms dur ok now (s : snapshotStore M) : str_eq n name = false -> entry name (put n ms dur ok now s) = entry name s.
Proof. intros E. unfold put. by rewrite entry_insert, E. Qed.
Lemma stat_on name n f t : stat name (on_stat n f t) = if str_eq n name then f (stat name t) else stat name t.
Proof.
  unfold stat, on_stat, StatusTracker in *. destruct (str_eq n name) eqn:E; bool_prop; [subst; by rewrite (lookup_insert_eq (M := gmap string))|by rewrite (lookup_insert_ne (M := gmap string))].
Qed.

(** The fields of an entry after a poll of its collector, and of its statistics. *)
Lemma entry_put name ms dur ok now (s : snapshotStore M) (e := entry name s) (e' := entry name (put name ms dur ok now s)) :
  polled e' = true /\ lastPoll e' = now /\ lastOK e' = ok /\ nextDeadline e' = nextDeadline e
  /\ metrics e' = (if ok || (0 <? zlen ms) then ms else metrics e) /\ snapshotAt e' = (if ok || (0 <? zlen ms) then now else snapshotAt e)
  /\ lastSuccess e' = (if ok then now else lastSuccess e).
Proof.
  unfold e', put. rewrite entry_insert, str_same. fold e. clearbody e. destruct ok, (0 <? zlen ms), e; repeat split; reflexivity.
Qed.
Lemma stat_record name begin ms ok err snapAt successAt t (e := stat name t)
    (e' := stat name (RecordClocks name snapAt successAt (RecordRun name begin ms ok err t))) :
  runs e' = add64 (runs e) 1 /\ failures e' = (if ok then failures e else add64 (failures e) 1)
  /\ consecutiveFails e' = (if ok then 0 else add64 (consecutiveFails e) 1) /\ outcomes e' = appendRing ok (outcomes e) /\ sLastOK e' = ok
  /\ sSnapshotAt e' = snapAt /\ lastSuccessAt e' = successAt /\ sNextDeadline e' = sNextDeadline e.
Proof.
  unfold e', RecordClocks, RecordRun. rewrite !stat_on, str_same. fold e. clearbody e. destruct ok, e; repeat split; reflexivity.
Qed.

Lemma store_event e c : store (handle_event c e) = match e with
  | EPoll name buf ok _ _ dur now => put name buf dur ok now (store c) | EDeadline name at_ => setDeadline name at_ (store c) | EInterval _ _ => store c end.
Proof. destruct e; try done. unfold handle_event, record_poll, update. cbn [store tracker]. by destruct (tracker c). Qed.

Lemma store_history t l name : spec_entry name l (entry name (store (history t l))).
Proof.
  induction l as [|e l IH] using rev_ind; [done|]. rewrite history_snoc, store_event. unfold spec_entry in *. cbv zeta in *. rewrite deadline_snoc, polls_snoc.
  destruct e as [n buf ok err begin dur now|n at_|n d]; [| |exact IH].
  - destruct (str_eq n name) eqn:E; [bool_prop; subst n|by rewrite entry_put_other]. destruct IH as (_ & H1 & H2 & H3 & _ & _ & H4).
    destruct (entry_put name buf dur ok now (store (history t l))) as (-> & -> & -> & -> & -> & -> & ->).
    unfold latest, stored. cbn [List.filter fst snd head]. unfold zlen. cbn [length].
    destruct ok; cbn [orb fst snd head]; [by repeat split|]. destruct (0 <? Z.of_nat (length buf)); cbn [head fst snd]; by repeat split.
  - unfold setDeadline. rewrite entry_insert. destruct (str_eq n name) eqn:E; [bool_prop; subst n|exact IH]. by destruct IH as (H0 & H1 & H2 & H3 & H4 & H5 & _).
Qed.

(** What the tracker keeps of the same polls. *)
Definition spec_stat (name : string) (l : list event) (e : collectorSnapshot M) (st : statEntry) : Prop :=
  let ok := map (fun p => p.1.2) (polls_of name l) in
  runs st = u64 (zlen ok) /\ failures st = u64 (zlen (List.filter negb ok))
  /\ consecutiveFails st = u64 (zlen (take_while negb ok))
  /\ outcomes st = reverse (take (Z.to_nat StatusRingSize) ok)
  /\ sLastOK st = lastOK e /\ sSnapshotAt st = snapshotAt e /\ lastSuccessAt st = lastSuccess e /\ sNextDeadline st = nextDeadline e.

Lemma ring_snoc {A} (v : A) l : appendRing v (reverse (take (Z.to_nat StatusRingSize) l)) = reverse (take (Z.to_nat StatusRingSize) (v :: l)).
Proof.
  unfold appendRing, zlen. rewrite length_reverse, length_take. change (Z.to_nat StatusRingSize) with 40%nat. change StatusRingSize with 40.
  change (take 40 (v :: l)) with (v :: take 39 l). rewrite reverse_cons. destruct (Z.of_nat (40 `min` length l) <? 40) eqn:E; bool_prop.
  - by rewrite !take_ge by lia.
  - f_equal. destruct (lookup_lt_is_Some_2 l 39) as [x Hx]; [lia|]. by rewrite (take_S_r _ _ _ Hx), reverse_snoc.
Qed.

Lemma add_u64 n : add64 (u64 n) 1 = u64 (n + 1).
Proof. unfold add64, u64. by rewrite Zplus_mod_idemp_l. Qed.

(** The tracker of a history, when there is one. *)
Definition tracked (t : bool) (l : list event) : StatusTracker := default NewStatusTracker (tracker (history t l)).

Lemma tracker_on l : is_Some (tracker (history true l)).
Proof.
  induction l as [|e l IH] using rev_ind; [by eexists|]. rewrite history_snoc. destruct e as [n buf ok err begin dur now|n at_|n d]; unfold handle_event, publishDeadline, update; cbn [tracker].
  - unfold record_poll, update. cbn [store tracker]. destruct IH as [t Ht]. rewrite Ht. by eexists.
  - destruct IH as [t Ht]. rewrite Ht. by eexists.
  - destruct IH as [t Ht]. rewrite Ht. by eexists.
Qed.

Lemma tracked_snoc l e : tracked true (l ++ [e]) = match e with
  | EPoll name buf ok err begin dur now => let en := entry name (put name buf dur ok now (store (history true l))) in
      RecordClocks name (snapshotAt en) (lastSuccess en) (RecordRun name begin (fmul (Seconds dur) (float64 1000)) ok err (tracked true l))
  | EDeadline name at_ => SetNextDeadline name at_ (tracked true l)
  | EInterval name d => SetInterval name d (tracked true l)
  end.
Proof.
  unfold tracked. rewrite history_snoc. destruct (tracker_on l) as [t Ht]. destruct e as [n buf ok err begin dur now|n at_|n d]; unfold handle_event, record_poll, publishDeadline, update; cbn [store tracker]; by rewrite Ht.
Qed.

Lemma tracker_history l name : spec_stat name l (entry name (store (history true l))) (stat name (tracked true l)).
Proof.
  induction l as [|e l IH] using rev_ind; [done|]. rewrite tracked_snoc, history_snoc, store_event. unfold spec_stat in *. cbv zeta in *. rewrite polls_snoc.
  destruct e as [n buf ok err begin dur now|n at_|n d].
  - destruct (str_eq n name) eqn:E; [bool_prop; subst n|rewrite (entry_put_other _ _ _ _ _ _ _ E); unfold RecordClocks, RecordRun; by rewrite !stat_on, E].
    destruct IH as (H1 & H2 & H3 & H4 & _ & _ & _ & H8).
    match goal with |- context [RecordClocks _ ?a ?b (RecordRun _ ?s ?m _ ?e ?t)] => destruct (stat_record name s m ok e a b t) as (-> & -> & -> & -> & -> & -> & -> & ->) end.
    destruct (entry_put name buf dur ok now (store (history true l))) as (_ & _ & -> & -> & _). cbn [map fst snd]. rewrite H1, H2, H3, H4, !add_u64, ring_snoc.
    unfold zlen. destruct ok; cbn [negb List.filter take_while length]; rewrite ?Nat2Z.inj_succ; by repeat split.
  - unfold SetNextDeadline, setDeadline. rewrite stat_on, entry_insert. destruct (str_eq n name) eqn:E; [bool_prop; subst n|exact IH].
    by destruct IH as (H1 & H2 & H3 & H4 & H5 & H6 & H7 & H8).
  - unfold SetInterval. rewrite stat_on. destruct (str_eq n name); exact IH.
Qed.

(** [C17] The tables are the history.  After any sequence of polls and published
    deadlines: the metrics a collector's scrape replays are those of the latest poll
    that succeeded or emitted anything, and the data's timestamp is that poll's, so a
    poll that failed with nothing changes neither; the last success is the latest clean
    poll; the attempt's clock, its outcome and the deadline are the latest.  The
    tracker's counts are those of all polls, of the failed ones and of the failures
    since the last success, modulo 2^64, its strip is the last forty outcomes in order,
    and its clocks and deadline are the store's. *)
Theorem tables_are_history l name :
  spec_entry name l (entry name (store (history true l))) /\ spec_stat name l (entry name (store (history true l))) (stat name (tracked true l)).
Proof. split; [apply store_history|apply tracker_history]. Qed.

End Poll.

End PollStore.
