(* ===== verification/Scheduler.v ===== *)
(** * The poll scheduler ([collector/scheduler.go], [interval_tiers.go], [poll_lane.go],
      [subcadence.go], and the lanes of [collector.go])

    How often each collector is polled, which export lane carries it, how polls are
    admitted, when the next one is due, and the circuit the health poll opens. *)

From stdpp Require Import base decidable list gmap strings sorting.
From Stdlib Require Import ZArith Lia Ascii SpecFloat.
From S2P Require Import Prelude Netip Order Gauges PollStore.
Import PollStore.

Module Scheduler.

(** ** Intervals *)

Definition IntervalFast : Duration := 15 * Second.
Definition IntervalMedium : Duration := 60 * Second.
Definition IntervalSlow : Duration := 5 * Minute.
Definition IntervalCold : Duration := 15 * Minute.
Definition IntervalFloor : Duration := 5 * Second.
Definition IntervalCeil : Duration := 15 * Minute.

Definition collectorTiers : gmap string Duration := list_to_map (
  map (fun n => (n, IntervalFast)) ["gateways"; "interfaces"; "protocol"; "pf_stats"; "netflow"; "carp"; "cpu"; "log_events"; "flow"]
  ++ map (fun n => (n, IntervalSlow)) ["pftop"; "firewall_rule"; "alias"; "ntp"; "dyndns"; "qfeeds"; "trafficshaper"; "siproxd"; "tor"; "chrony"; "lldp"; "kernel_memory"]
  ++ map (fun n => (n, IntervalCold)) ["gateway_groups"; "firewall_migration"; "firmware"; "certificate"; "acme"; "smart"; "cron"; "snapshots"; "vnstat"; "auth"; "backup"; "clamav"]).

(** A collector: its name and the interval it declares itself, if it does. *)
Record CollectorInstance := mkColl { Name : string; PollInterval : option Duration }.

Definition clampInterval (d : Duration) : Duration :=
  if d <? IntervalFloor then IntervalFloor else if IntervalCeil <? d then IntervalCeil else d.

Definition resolvePollInterval (coll : CollectorInstance) (global : Duration) : Duration :=
  match PollInterval coll with
  | Some d => if 0 <? d then clampInterval d
              else match collectorTiers !! Name coll with Some d => clampInterval d | None => clampInterval global end
  | None => match collectorTiers !! Name coll with Some d => clampInterval d | None => clampInterval global end
  end.

(** The options that govern polling. *)
Record Collector := mkCollector {
  collectors : list CollectorInstance; pollGlobal : Duration; healthPollGlobal : Duration; pollOverrides : gmap string Duration;
  laneBase : Duration; laneFast : Duration; maxScrapeDuration : Duration }.

Definition defaultMaxScrapeDuration : Duration := 50 * Second.
Definition pollTimeout (c : Collector) : Duration := if 0 <? maxScrapeDuration c then maxScrapeDuration c else defaultMaxScrapeDuration.
Definition pollGlobalInterval (c : Collector) : Duration := if 0 <? pollGlobal c then clampInterval (pollGlobal c) else IntervalMedium.
Definition healthPollInterval (c : Collector) : Duration := if 0 <? healthPollGlobal c then clampInterval (healthPollGlobal c) else IntervalMedium.

Definition resolveInterval (c : Collector) (coll : CollectorInstance) : Duration :=
  match pollOverrides c !! Name coll with
  | Some d => clampInterval d
  | None => resolvePollInterval coll (pollGlobalInterval c)
  end.

Definition laneInterval (c : Collector) (coll : CollectorInstance) : Duration :=
  if laneBase c <=? 0 then 0
  else if (0 <? laneFast c) && (resolveInterval c coll <=? IntervalFast) then laneFast c
  else laneBase c.

Definition effectiveInterval (c : Collector) (coll : CollectorInstance) : Duration :=
  let declared := resolveInterval c coll in
  if bool_decide (is_Some (pollOverrides c !! Name coll)) then declared
  else if declared <? laneInterval c coll then clampInterval (laneInterval c coll)
  else declared.

Definition FastCollectorNames (c : Collector) : list string :=
  sort_by str_lt (map Name (List.filter (fun coll => resolveInterval c coll <=? IntervalFast) (collectors c))).

Inductive PollLaneWarning :=
| WarnPollFasterThanLane (coll : string) (poll lane : Duration)
| WarnFastLaneEmpty (lane : Duration).
Definition warned (w : PollLaneWarning) : string := match w with WarnPollFasterThanLane n _ _ => n | WarnFastLaneEmpty _ => "" end.
Definition PollLaneWarnings (c : Collector) : list PollLaneWarning :=
  if laneBase c <=? 0 then []
  else
    sort_by (fun a b => str_lt (warned a) (warned b))
      (omap (fun coll => if effectiveInterval c coll <? laneInterval c coll
                         then Some (WarnPollFasterThanLane (Name coll) (effectiveInterval c coll) (laneInterval c coll)) else None) (collectors c))
    ++ (if (0 <? laneFast c) && (zlen (FastCollectorNames c) =? 0) then [WarnFastLaneEmpty (laneFast c)] else []).

(** *** Facts *)

Lemma clamp_bounds d : IntervalFloor <= clampInterval d <= IntervalCeil.
Proof. unfold clampInterval. destruct (d <? IntervalFloor) eqn:E; [done|]. destruct (IntervalCeil <? d) eqn:E2; [done|]. bool_prop. lia. Qed.
Lemma clamp_max d : IntervalFloor <= d -> clampInterval d = Z.min d IntervalCeil.
Proof. intros H. unfold clampInterval. destruct (d <? IntervalFloor) eqn:E; bool_prop; [lia|]. destruct (IntervalCeil <? d) eqn:E2; bool_prop; lia. Qed.

Lemma resolve_bounds c coll : IntervalFloor <= resolveInterval c coll <= IntervalCeil.
Proof.
  unfold resolveInterval, resolvePollInterval. destruct (pollOverrides c !! Name coll); [apply clamp_bounds|].
  destruct (PollInterval coll) as [d|]; [destruct (0 <? d); [apply clamp_bounds|]|]; destruct (collectorTiers !! Name coll); apply clamp_bounds.
Qed.

(** The cadence of a collector.  It is always between five seconds and fifteen
    minutes, and never faster than what the collector declares.  An operator's override
    is obeyed, within those bounds.  Otherwise it is the slower of the declared interval
    and of the export lane that reads the collector, the lane cut at fifteen minutes; so
    a warning that a collector is polled faster than its lane reads it is given exactly
    for an override and for a lane slower than fifteen minutes. *)
Theorem cadence_exact c coll (lane := laneInterval c coll) (declared := resolveInterval c coll) (effective := effectiveInterval c coll) :
  IntervalFloor <= declared <= effective /\ effective <= IntervalCeil
  /\ (forall d, pollOverrides c !! Name coll = Some d -> effective = clampInterval d)
  /\ (pollOverrides c !! Name coll = None -> effective = Z.max declared (Z.min lane IntervalCeil))
  /\ (effective < lane <-> match pollOverrides c !! Name coll with Some d => clampInterval d < lane | None => IntervalCeil < lane end)
  /\ (forall n p l, WarnPollFasterThanLane n p l ∈ PollLaneWarnings c <->
        0 < laneBase c /\ exists x, x ∈ collectors c /\ Name x = n /\ effectiveInterval c x = p /\ laneInterval c x = l /\ p < l).
Proof.
  pose proof (resolve_bounds c coll) as Hb. fold declared in Hb. assert (effective = match pollOverrides c !! Name coll with
    Some d => clampInterval d | None => Z.max declared (Z.min lane IntervalCeil) end) as He.
  { unfold effective, effectiveInterval. fold declared lane. unfold declared at 1. unfold resolveInterval at 1. destruct (pollOverrides c !! Name coll) as [d|] eqn:Eo.
    - by rewrite bool_decide_eq_true_2.
    - rewrite bool_decide_eq_false_2 by (by intros [? ?]). destruct (Z.ltb_spec declared lane); [rewrite clamp_max by lia; lia|lia]. }
  assert (declared <= effective <= IntervalCeil) as Hd.
  { rewrite He. destruct (pollOverrides c !! Name coll) as [d|] eqn:Eo; [|lia]. assert (declared = clampInterval d) as -> by (unfold declared, resolveInterval; by rewrite Eo).
    pose proof (clamp_bounds d). lia. }
  split; [lia|]. split; [lia|]. split; [intros d Ho; by rewrite He, Ho|]. split; [intros Ho; by rewrite He, Ho|]. split.
  - rewrite He. destruct (pollOverrides c !! Name coll); [done|]. unfold IntervalCeil in *. lia.
  - intros n p l. unfold PollLaneWarnings. destruct (Z.leb_spec (laneBase c) 0) as [Hl|Hl]; [split; [by intros ?%not_elem_of_nil|lia]|].
    rewrite elem_of_app, sort_by_perm, list_elem_of_omap. split.
    + intros [(x & Hx & Hw)|Hw]; [|destruct (_ && _); [by apply list_elem_of_singleton in Hw|by apply not_elem_of_nil in Hw]].
      destruct (Z.ltb_spec (effectiveInterval c x) (laneInterval c x)); [|done]. injection Hw as <- <- <-. split; [done|]. by exists x.
    + intros (_ & x & Hx & <- & <- & <- & Hlt). left. exists x. split; [done|]. by destruct (Z.ltb_spec (effectiveInterval c x) (laneInterval c x)); [|lia].
Qed.

(** A slow export: every collector without an override warns. *)
Example slow_lane_warns (c := mkCollector [mkColl "system" None] 0 0 ∅ (30 * Minute) 0 0) :
  PollLaneWarnings c = [WarnPollFasterThanLane "system" (15 * Minute) (30 * Minute)].
Proof. vm_compute. reflexivity. Qed.

(** ** Deadlines *)

(** The loop of [advanceDeadline], with as many turns as it can take. *)
Fixpoint advance (fuel : nat) (next : Time) (interval : Duration) (now : Time) : option Time :=
  if After next now then Some next
  else match fuel with O => None | S fuel => advance fuel (time_Add next interval) interval now end.
Definition advanceDeadline (next : Time) (interval : Duration) (now : Time) : option Time :=
  if interval <=? 0 then Some next
  else advance (Z.to_nat (Z.max 0 ((now - next) / interval + 1))) next interval now.

Lemma advance_spec fuel : forall next interval now, 0 < interval -> now - next < Z.of_nat fuel * interval ->
  exists k, 0 <= k /\ advance fuel next interval now = Some (next + k * interval) /\ now < next + k * interval
    /\ (0 < k -> next + k * interval <= now + interval).
Proof.
  induction fuel as [|fuel IH]; intros next interval now Hi Hf; cbn [advance]; unfold After.
  - exists 0. destruct (Z.ltb_spec now next); [|lia]. split; [done|]. split; [f_equal; lia|]. lia.
  - destruct (Z.ltb_spec now next); [exists 0; split; [done|]; split; [f_equal; lia|lia]|].
    destruct (IH (time_Add next interval) interval now Hi) as (k & Hk & E & Hlt & Hle); [unfold time_Add; lia|].
    exists (k + 1). rewrite E. unfold time_Add in *. split; [lia|]. split; [f_equal; lia|]. split; [lia|]. intros _. destruct (Z.eq_dec k 0) as [->|]; lia.
Qed.

(** The next deadline.  Advancing it always terminates, and gives the first multiple
    of the interval after the anchor that is in the future: at most one interval away
    unless the anchor itself was further, however many ticks a slow poll has missed. *)
Theorem deadline_advances next interval now : 0 < interval ->
  exists next', advanceDeadline next interval now = Some next' /\ now < next' /\ (next' - next) mod interval = 0
    /\ next <= next' /\ (next' <> next -> next' <= now + interval).
Proof.
  intros Hi. unfold advanceDeadline. destruct (Z.leb_spec interval 0); [lia|].
  destruct (advance_spec (Z.to_nat (Z.max 0 ((now - next) / interval + 1))) next interval now Hi) as (k & Hk & E & Hlt & Hle).
  { pose proof (Z.mod_pos_bound (now - next) interval Hi). pose proof (Z.div_mod (now - next) interval ltac:(lia)). rewrite Z2Nat.id by lia. nia. }
  exists (next + k * interval). split; [done|]. split; [done|]. split; [replace (next + k * interval - next) with (k * interval) by lia; apply Z.mod_mul; lia|].
  split; [nia|]. intros Hne. apply Hle. nia.
Qed.

Lemma deadline_advances_witness : advanceDeadline 10 15 100 = Some 115 /\ exists next', advanceDeadline 10 15 100 = Some next' /\ 100 < next' .
Proof. split; [reflexivity|]. destruct (deadline_advances 10 15 100 ltac:(lia)) as (n & E & H & _). by exists n. Defined.

(** ** Cold start *)

(** FNV-1a over the name's bytes. *)
Fixpoint fnv1a (h : Z) (s : string) : Z :=
  match s with EmptyString => h | String c s => fnv1a (u32 (Z.lxor h (Z.of_nat (nat_of_ascii c)) * 16777619)) s end.
Definition Sum32 (s : string) : Z := fnv1a 2166136261 s.
Definition coldStartJitterCap : Duration := 5 * Second.
(** The wait before the first poll. *)
Definition jitter (name : string) (interval : Duration) : Duration :=
  let span := Z.min interval coldStartJitterCap in
  if span <=? 0 then 0 else Sum32 name mod span.

(** ** A gate inside a poll *)

Record subCadence := mkCadence { cInterval : Duration; cLast : Time }.
Definition newSubCadence (d : Duration) : subCadence := mkCadence d zero_time.
Definition due (now : Time) (s : subCadence) : bool :=
  if cInterval s <=? 0 then true else if IsZero (cLast s) then true else cInterval s <=? time_Sub now (cLast s).
Definition mark (now : Time) (s : subCadence) : subCadence := mkCadence (cInterval s) now.

(** ** Admission *)

Definition maxPollConcurrency : Z := 8.
Definition reservedFastPollConcurrency : Z := 1.
Definition pollConcurrency (gomaxprocs : Z) : Z :=
  if maxPollConcurrency <? gomaxprocs then maxPollConcurrency else if gomaxprocs <? 1 then 1 else gomaxprocs.

(** Where a collector's poller stands in [pollCollector] and [acquirePollSlot]: outside,
    waiting for the general gate, waiting for a slot (holding the general gate or not),
    admitted, polling, or having given its slot back with the general gate still held. *)
Inductive phase := Idle | AtGeneral | AtSem (general : bool) | Holding (general : bool) | Polling (general : bool) | Leaving.
(** The two channels by the number of values in them. *)
Record gate := mkGate { slots : Z; generalUsed : Z; semUsed : Z; phases : gmap string phase; unreachable : bool }.
#[export] Instance eta_gate : Eta gate := fun g => mkGate (slots g) (generalUsed g) (semUsed g) (phases g) (unreachable g).
Definition newGate (slots : Z) : gate := mkGate slots 0 0 ∅ false.

Definition phase_of (p : string) (g : gate) : phase := default Idle (phases g !! p).
Definition move (p : string) (ph : phase) (g : gate) : gate := g <| phases ::= <[p := ph]> |>.
Definition reserved (g : gate) : bool := reservedFastPollConcurrency <? slots g.

Section Admission.
Variable c : Collector.

(** A poll passes the general gate when there is one and its collector is not fast. *)
Definition is_general (g : gate) (coll : CollectorInstance) : bool := reserved g && (IntervalFast <? resolveInterval c coll).

Inductive gstep : gate -> gate -> Prop :=
| G_health g b : gstep g (g <| unreachable := b |>)
| G_start g coll : phase_of (Name coll) g = Idle -> unreachable g = false ->
    gstep g (move (Name coll) (if is_general g coll then AtGeneral else AtSem false) g)
| G_general g p : phase_of p g = AtGeneral -> generalUsed g < slots g - reservedFastPollConcurrency ->
    gstep g (move p (AtSem true) (g <| generalUsed ::= fun n => n + 1 |>))
| G_general_cancelled g p : phase_of p g = AtGeneral -> gstep g (move p Idle g)
| G_sem g p general : phase_of p g = AtSem general -> semUsed g < slots g -> gstep g (move p (Holding general) (g <| semUsed ::= fun n => n + 1 |>))
| G_sem_cancelled g p general : phase_of p g = AtSem general ->
    gstep g (move p Idle (if general : bool then g <| generalUsed ::= fun n => n - 1 |> else g))
| G_poll g p general : phase_of p g = Holding general -> unreachable g = false -> gstep g (move p (Polling general) g)
| G_skip g p general : phase_of p g = Holding general -> unreachable g = true ->
    gstep g (move p (if general : bool then Leaving else Idle) (g <| semUsed ::= fun n => n - 1 |>))
| G_done g p general : phase_of p g = Polling general ->
    gstep g (move p (if general : bool then Leaving else Idle) (g <| semUsed ::= fun n => n - 1 |>))
| G_left g p : phase_of p g = Leaving -> gstep g (move p Idle (g <| generalUsed ::= fun n => n - 1 |>)).

Inductive greachable (n : Z) : gate -> Prop :=
| G_init : greachable n (newGate n)
| G_step g g' : greachable n g -> gstep g g' -> greachable n g'.

(** What a phase holds of each channel. *)
Definition holds_sem (ph : phase) : Z := match ph with Holding _ | Polling _ => 1 | _ => 0 end.
Definition holds_general (ph : phase) : Z := match ph with AtSem true | Holding true | Polling true | Leaving => 1 | _ => 0 end.
Definition fast_slot (ph : phase) : Z := match ph with Holding false | Polling false => 1 | _ => 0 end.
Definition is_polling (ph : phase) : Z := match ph with Polling _ => 1 | _ => 0 end.
Definition total (w : phase -> Z) (g : gate) : Z := msum (fun _ ph => w ph) (phases g).

Lemma total_move w p ph g : w Idle = 0 -> total w (move p ph g) = total w g - w (phase_of p g) + w ph.
Proof.
  intros Hi. unfold total, move, phase_of, update. cbn [phases]. destruct (phases g !! p) as [x|] eqn:E; cbn [default from_option id].
  - rewrite (msum_insert_Some _ _ _ _ _ E). lia.
  - rewrite msum_insert_None by done. lia.
Qed.
Lemma total_le w w' g : (forall ph, w ph <= w' ph) -> total w g <= total w' g.
Proof. intros H. unfold total. rewrite !msum_list. apply lsum_le. intros [k x] _. apply H. Qed.
Lemma total_nonneg w g : (forall ph, 0 <= w ph) -> 0 <= total w g.
Proof. intros H. apply msum_nonneg. auto. Qed.

Record gate_ok (n : Z) (g : gate) : Prop := {
  gt_slots : slots g = n;
  gt_sem : semUsed g = total holds_sem g /\ semUsed g <= n;
  gt_general : generalUsed g = total holds_general g /\ generalUsed g <= Z.max 0 (n - 1) }.

Lemma gate_ok_move n g g1 p ph ph' : gate_ok n g -> phase_of p g = ph' -> phases g1 = phases g -> slots g1 = slots g ->
  semUsed g1 = semUsed g - holds_sem ph' + holds_sem ph -> generalUsed g1 = generalUsed g - holds_general ph' + holds_general ph ->
  semUsed g1 <= n -> generalUsed g1 <= Z.max 0 (n - 1) -> gate_ok n (move p ph g1).
Proof.
  intros [H1 [H2 _] [H4 _]] Hp Ep Es Hs Hg Ls Lg. assert (phase_of p g1 = ph') as Hp1 by (unfold phase_of in *; by rewrite Ep).
  assert (forall w, total w g1 = total w g) as Ht by (intros w; unfold total; by rewrite Ep).
  split; [change (slots (move p ph g1)) with (slots g1); congruence|..];
    (split; [|done]); rewrite total_move by done; rewrite Hp1, Ht; [change (semUsed (move p ph g1)) with (semUsed g1)|change (generalUsed (move p ph g1)) with (generalUsed g1)]; lia.
Qed.

Lemma gate_ok_step n g g' : 0 <= n -> gate_ok n g -> gstep g g' -> gate_ok n g'.
Proof.
  intros Hn Hok Hs. pose proof Hok as [H1 [H2 H3] [H4 H5]].
  destruct Hs as [g b|g coll Hp Hu|g p Hp Hl|g p Hp|g p gen Hp Hl|g p gen Hp|g p gen Hp Hu|g p gen Hp Hu|g p gen Hp|g p Hp]; [by split|..];
    unfold reservedFastPollConcurrency in *;
    try destruct gen; try destruct (is_general g coll);
    (eapply gate_ok_move; [exact Hok|exact Hp|done|done|unfold update; cbn [semUsed generalUsed slots phases holds_sem holds_general]; lia..]).
Qed.

Lemma gate_reachable n g : 0 <= n -> greachable n g -> gate_ok n g.
Proof.
  intros Hn H. induction H as [|g g' H IH Hs]; [|by eapply gate_ok_step]. split; [done|split; [done|cbn; lia]|split; [done|cbn; lia]].
Qed.

(** [C18] Admission.  However polls start, wait, are cancelled, are skipped and end: no
    more of them run than there are slots; with more than one slot the polls of the
    general tiers never hold all of them, so as long as no fast poll holds a slot one is
    free and a fast poll that asks is admitted at once; and when every poller is outside,
    both channels are empty again. *)
Theorem admission_sound n g : 0 < n -> greachable n g ->
  total is_polling g <= semUsed g <= n
  /\ (1 < n -> semUsed g - total fast_slot g <= n - 1)
  /\ (1 < n -> total fast_slot g = 0 -> forall p, phase_of p g = AtSem false -> exists g', gstep g g' /\ phase_of p g' = Holding false)
  /\ ((forall p, phase_of p g = Idle) -> semUsed g = 0 /\ generalUsed g = 0).
Proof.
  intros Hn H. destruct (gate_reachable n g ltac:(lia) H) as [H1 [H2 H3] [H4 H5]].
  assert (1 < n -> semUsed g - total fast_slot g <= n - 1) as Hfast.
  { intros H1n. assert (total holds_sem g <= total (fun ph => holds_general ph + fast_slot ph) g) as Hle by (apply total_le; intros [| |[]|[]|[]|]; cbn; lia).
    assert (total (fun ph => holds_general ph + fast_slot ph) g = total holds_general g + total fast_slot g) as Hadd
      by (unfold total; rewrite !msum_list; induction (map_to_list (phases g)) as [|x l IH]; [done|]; rewrite !lsum_cons; cbn [fst snd] in *; lia). lia. }
  split; [split; [rewrite H2; apply total_le; intros []; cbn; lia|done]|]. split; [done|]. split.
  - intros H1n Hf p Hp. specialize (Hfast H1n). eexists. split; [apply (G_sem g p false Hp); lia|].
    unfold phase_of, move, update. cbn [phases]. by rewrite lookup_insert_eq.
  - intros Hidle. assert (forall w, w Idle = 0 -> total w g = 0) as Hz.
    { intros w Hw. apply msum_zero. intros k ph Hk. specialize (Hidle k). unfold phase_of in Hidle. rewrite Hk in Hidle. cbn in Hidle. by rewrite Hidle. }
    by rewrite H2, H4, !Hz.
Qed.

End Admission.

Definition demo_collector : Collector := mkCollector [mkColl "carp" None; mkColl "system" None] 0 0 ∅ 0 0 0.
Lemma admission_sound_witness (g := move "carp" (AtSem false) (newGate 2)) : phase_of "carp" g = AtSem false
  /\ exists g', gstep demo_collector g g' /\ phase_of "carp" g' = Holding false.
Proof.
  split; [reflexivity|]. refine (proj1 (proj2 (proj2 (admission_sound demo_collector 2 g ltac:(lia) _))) _ _ "carp" eq_refl); [|lia|reflexivity].
  eapply G_step; [apply G_init|]. exact (G_start demo_collector (newGate 2) (mkColl "carp" None) eq_refl eq_refl).
Defined.

End Scheduler.
