(* ===== verification/Serving.v ===== *)
(** * Health and serving ([opnsense/health_check.go], and [pollHealth], [emitHealth],
      [collectLane], the lanes and the observed routes of [internal/collector])

    What a health poll records, what a scrape or an export lane replays, and what the
    collectors' own traffic says about the routes that exist. *)

From stdpp Require Import base decidable list gmap strings sorting.
From Stdlib Require Import ZArith Lia Ascii SpecFloat.
From S2P Require Import Prelude Netip Order GoStrings Geo Gauges OtlpSink PollStore Scheduler.
Import PollStore Scheduler.

Module Serving.

(** ** The health check's response *)

(** A field of type [any] after decoding. *)
Inductive any := AInt (n : Z) | ANumber (f : spec_float) | AString (s : string) | AOther.

Record HealthCheckSubsystem := mkSub { Status : string; StatusCode : Z }.
Record HealthCheckResponse := mkResponse {
  SystemStatus : any; CrashReporterStatus : string; FirewallStatus : any; Subsystems : gmap string HealthCheckSubsystem }.

Definition HealthCheckStatusOK : string := "OK".
Definition HealthCheckStatusOK_v25_1 : Z := 2.

(** Of the characters outside ASCII only the dotless i has an upper case inside it. *)
Fixpoint dotless (s : string) : string :=
  match s with
  | String a rest =>
      match rest with
      | String b s' => if (nat_of_ascii a =? 196)%nat && (nat_of_ascii b =? 177)%nat then String "I" (dotless s') else String a (dotless rest)
      | EmptyString => s
      end
  | EmptyString => s
  end.
Definition systemStatusStringToCode (s : string) : option Z :=
  let s := Geo.ToUpper (dotless (GoStrings.TrimSpace s)) in
  if str_eq s "OK" then Some 2 else if str_eq s "NOTICE" then Some 1 else if str_eq s "WARNING" then Some 0
  else if str_eq s "ERROR" then Some (-1) else None.

Definition isHealthy (s : HealthCheckSubsystem) : bool :=
  if negb (str_empty (Status s)) then str_eq (Status s) HealthCheckStatusOK else StatusCode s =? HealthCheckStatusOK_v25_1.
Definition ResolvedStatusCode (s : HealthCheckSubsystem) : Z := default (StatusCode s) (systemStatusStringToCode (Status s)).

Definition GetMetadataSystemStatus (h : HealthCheckResponse) : Z :=
  match SystemStatus h with
  | AInt n => n
  | ANumber f => to_Duration f
  | AString s => match Otlp.Atoi s with Some n => n | None => default 0 (systemStatusStringToCode s) end
  | AOther => 0
  end.

Definition subsystemHealthy (h : HealthCheckResponse) (name : string) (meta : any) : bool :=
  match Subsystems h !! name with
  | Some e => isHealthy e
  | None => true
  end
  && match meta with
     | AString s => str_empty s || str_eq s HealthCheckStatusOK || match Otlp.Atoi s with Some n => n =? HealthCheckStatusOK_v25_1 | None => false end
     | ANumber f => to_Duration f =? HealthCheckStatusOK_v25_1
     | AInt n => n =? HealthCheckStatusOK_v25_1
     | AOther => true
     end.
Definition CrashReporterIsHealthy (h : HealthCheckResponse) : bool := subsystemHealthy h "crashreporter" (AString (CrashReporterStatus h)).
Definition FirewallIsHealthy (h : HealthCheckResponse) : bool := subsystemHealthy h "firewall" (FirewallStatus h).

(** ** The health poll *)

(** The result of [HealthCheck]: a response, or an error and whether it is an API error
    without a status code, which means that nothing answered. *)
Inductive healthResult := HealthOK (h : HealthCheckResponse) | HealthErr (transport : bool) (msg : string).

Record health := mkHealth {
  isUp : Z; firewallHealthStatus : Z; crashReporterStatus : Z; systemStatusCode : Z; subsystemStatusCode : gmap string Z;
  healthOK : bool; healthPolled : bool; circuit : bool; healthCheckedAt : Time; healthLastError : string }.
#[export] Instance eta_health : Eta health := fun h =>
  mkHealth (isUp h) (firewallHealthStatus h) (crashReporterStatus h) (systemStatusCode h) (subsystemStatusCode h) (healthOK h) (healthPolled h)
    (circuit h) (healthCheckedAt h) (healthLastError h).
Definition newHealth : health := mkHealth 0 0 0 0 ∅ false false false zero_time "".
Definition boolToGauge (b : bool) : Z := if b then 1 else 0.

(** [circuit] is [unreachable]. *)
Definition pollHealth (r : healthResult) (now : Time) (h : health) : health :=
  let h := h <| healthPolled := true |> <| healthCheckedAt := now |> in
  match r with
  | HealthErr transport msg => h <| isUp := 0 |> <| healthOK := false |> <| healthLastError := msg |> <| circuit := transport |>
  | HealthOK s =>
      h <| circuit := false |> <| healthOK := true |> <| healthLastError := "" |> <| isUp := 1 |>
        <| systemStatusCode := GetMetadataSystemStatus s |> <| crashReporterStatus := boolToGauge (CrashReporterIsHealthy s) |>
        <| firewallHealthStatus := boolToGauge (FirewallIsHealthy s) |> <| subsystemStatusCode := ResolvedStatusCode <$> Subsystems s |>
  end.

(** ** Serving *)

Section Lanes.
Context {M : Type}.

(** A metric of a scrape: a gauge of the health, a collector's own, one of the scheduler's
    about a collector, or the exporter's own block. *)
Inductive served :=
| Up (n : Z)
| HealthGauge (name subsystem : string) (n : Z)
| Own (m : M)
| PollIntervalSeconds (name : string) (f : spec_float)
| ScrapeDuration (name : string) (f : spec_float)
| ScrapeSuccess (name : string) (n : Z)
| Timestamp (metric name : string) (unix : Z)
| AlwaysOn.

Definition emitHealth (h : health) : list served :=
  Up (isUp h) ::
  (if healthOK h then
     [HealthGauge "firewall_status" "" (firewallHealthStatus h); HealthGauge "crash_reporter_status" "" (crashReporterStatus h);
      HealthGauge "system_status_code" "" (systemStatusCode h)]
     ++ map (fun p => HealthGauge "system_subsystem_status_code" p.1 p.2) (map_to_list (subsystemStatusCode h))
   else []).

Definition unix (t : Time) : Z := (t - unix_epoch) / Second.
Definition stamp (metric name : string) (t : Time) : list served := if IsZero t then [] else [Timestamp metric name (unix t)].

(** What one collector adds. *)
Definition serve (c : Collector) (s : snapshotStore M) (coll : CollectorInstance) : list served :=
  let e := entry (Name coll) s in
  map Own (metrics e)
  ++ [PollIntervalSeconds (Name coll) (Seconds (effectiveInterval c coll))]
  ++ (if polled e then
        [ScrapeDuration (Name coll) (Ratio.fdiv (durationMs e) (Ratio.float64 1000)); ScrapeSuccess (Name coll) (boolToGauge (lastOK e));
         Timestamp "last_poll" (Name coll) (unix (lastPoll e))]
        ++ stamp "snapshot" (Name coll) (snapshotAt e) ++ stamp "last_success" (Name coll) (lastSuccess e)
      else [])
  ++ stamp "next_poll" (Name coll) (nextDeadline e).

Definition collectLane (c : Collector) (s : snapshotStore M) (h : health) (include : option (gset string)) (alwaysOn : bool) : list served :=
  (if alwaysOn then emitHealth h else [])
  ++ flat_map (fun coll => match include with
                           | Some inc => if bool_decide (Name coll ∈ inc) then serve c s coll else []
                           | None => serve c s coll
                           end) (collectors c)
  ++ (if alwaysOn then [AlwaysOn] else []).

Definition fast_names (c : Collector) : gset string := list_to_set (FastCollectorNames c).
Definition OTLPFastView (c : Collector) (s : snapshotStore M) (h : health) : list served := collectLane c s h (Some (fast_names c)) false.
Definition OTLPBaseView (c : Collector) (s : snapshotStore M) (h : health) : list served :=
  collectLane c s h (Some (list_to_set (map Name (collectors c)) ∖ fast_names c)) true.
Definition SnapshotWarm (c : Collector) (s : snapshotStore M) (h : health) : bool := healthPolled h && allPolled (map Name (collectors c)) s.

(** The two lanes cover the collectors without overlap. *)
Lemma lanes_split c s h : OTLPFastView c s h ++ OTLPBaseView c s h ≡ₚ collectLane c s h None true.
Proof.
  unfold OTLPFastView, OTLPBaseView, collectLane. cbn [app]. rewrite app_nil_r.
  set (f := fun coll => if bool_decide (Name coll ∈ fast_names c) then serve c s coll else []).
  assert (forall l, (forall x, x ∈ l -> x ∈ collectors c) ->
    flat_map f l ++ flat_map (fun coll => if bool_decide (Name coll ∈ (list_to_set (map Name (collectors c)) : gset string) ∖ fast_names c) then serve c s coll else []) l
    ≡ₚ flat_map (serve c s) l) as H.
  { induction l as [|x l IH]; intros Hl; [done|]. cbn [flat_map]. rewrite <- IH by (intros y Hy; apply Hl; by constructor). clear IH.
    assert (Name x ∈ (list_to_set (map Name (collectors c)) : gset string)) as Hx by (apply elem_of_list_to_set, list_elem_of_fmap_2, Hl; constructor).
    unfold f at 1. destruct (bool_decide (Name x ∈ fast_names c)) eqn:E.
    - rewrite (bool_decide_eq_false_2 (Name x ∈ _ ∖ _)) by (apply bool_decide_eq_true in E; set_solver). cbn [app]. by rewrite <- app_assoc.
    - rewrite (bool_decide_eq_true_2 (Name x ∈ _ ∖ _)) by (apply bool_decide_eq_false in E; set_solver). cbn [app]. apply Permutation_app_swap_app. }
  specialize (H (collectors c) (fun x Hx => Hx)). rewrite Permutation_app_swap_app. f_equiv. rewrite app_assoc. f_equiv. exact H.
Qed.

(** After the polls [l], in order. *)
Definition polled_health (l : list (healthResult * Time)) : health := fold_left (fun h p => pollHealth p.1 p.2 h) l newHealth.

Lemma polled_snoc l r now : polled_health (l ++ [(r, now)]) = pollHealth r now (polled_health l).
Proof. unfold polled_health. by rewrite fold_left_app. Qed.

(** What is served.  The two export lanes together carry exactly what the single
    view does, each series once, and a collector is on the fast lane exactly when its
    declared interval is fast, whatever cadence the lane imposes on it.  Of the health,
    a scrape reports the box as up exactly when the last health poll was answered and
    parsed, and then exactly the codes of that answer, with no subsystem of an earlier
    one; otherwise it reports nothing but that it is down; and the collectors pause
    exactly after a poll that nothing answered. *)
Theorem served_exact c (s : snapshotStore M) h l r now (h' := polled_health (l ++ [(r, now)])) :
  OTLPFastView c s h ++ OTLPBaseView c s h ≡ₚ collectLane c s h None true
  /\ (forall coll, coll ∈ collectors c -> (Name coll ∈ fast_names c <-> exists x, x ∈ collectors c /\ Name x = Name coll /\ resolveInterval c x <= IntervalFast))
  /\ circuit h' = (match r with HealthErr transport _ => transport | HealthOK _ => false end)
  /\ emitHealth h' = (match r with
     | HealthErr _ _ => [Up 0]
     | HealthOK x => [Up 1; HealthGauge "firewall_status" "" (boolToGauge (FirewallIsHealthy x));
                      HealthGauge "crash_reporter_status" "" (boolToGauge (CrashReporterIsHealthy x));
                      HealthGauge "system_status_code" "" (GetMetadataSystemStatus x)]
                     ++ map (fun p => HealthGauge "system_subsystem_status_code" p.1 p.2) (map_to_list (ResolvedStatusCode <$> Subsystems x))
     end).
Proof.
  split; [apply lanes_split|]. split; [|subst h'; rewrite polled_snoc; by destruct r].
  intros coll Hc. unfold fast_names, FastCollectorNames. rewrite elem_of_list_to_set, sort_by_perm, list_elem_of_fmap. split.
  - intros (x & E & Hx). exists x. apply list_elem_of_In, filter_In in Hx as [Hx Hi]. bool_prop. apply list_elem_of_In in Hx. done.
  - intros (x & Hx & E & Hi). exists x. split; [done|]. apply list_elem_of_In, filter_In. split; [by apply list_elem_of_In|]. apply Z.leb_le. done.
Qed.

End Lanes.

(** ** Routes *)

Definition CacheHitBody : string := "body".
Definition CacheHitAbsent : string := "absent".

(** What the traffic says of each path: present or absent. *)
Definition routes : Type := gmap string bool.
Definition conclusive (code : Z) : option bool :=
  if code =? 404 then Some false else if (200 <=? code) && (code <? 300) then Some true else None.
Definition noteRouteStatus (path : string) (code : Z) (r : routes) : routes :=
  match conclusive code with Some b => <[path := b]> r | None => r end.
Definition ObserveCacheHit (path kind : string) (r : routes) : routes :=
  if str_eq kind CacheHitAbsent then noteRouteStatus path 404 r
  else if str_eq kind CacheHitBody then noteRouteStatus path 200 r
  else r.
(** [RouteObserved]: [None] for a path never seen. *)
Definition RouteObserved (path : string) (r : routes) : option bool := r !! path.

(** A poll's observer: the calls that failed, plugins that are absent apart. *)
Record APICallError := mkErr { Endpoint : string; eCode : Z }.
Section Observer.
(** The paths of [opnsense.PluginGatedEndpoints]. *)
Variable gated : list string.
Definition isPluginAbsent (endpoint : string) (e : APICallError) : bool :=
  (eCode e =? 404) && str_eq (Endpoint e) endpoint && bool_decide (endpoint ∈ gated).
Definition ObserveAPIRequestResult (endpoint : string) (code : Z) (err : option APICallError) (st : Z * routes) : Z * routes :=
  let r := noteRouteStatus endpoint code st.2 in
  match err with
  | None => (st.1, r)
  | Some e => if isPluginAbsent endpoint e then (st.1, r) else (st.1 + 1, r)
  end.
End Observer.

(** A route's verdict is that of the last answer that says anything: a fault never
    changes it. *)
Lemma route_last path l r : RouteObserved path (fold_left (fun r p => noteRouteStatus p.1 p.2 r) l r)
  = match last (omap (fun p => if str_eq p.1 path then conclusive p.2 else None) l) with Some b => Some b | None => RouteObserved path r end.
Proof.
  induction l as [|[p code] l IH] using rev_ind; [done|]. rewrite fold_left_app, omap_app. cbn [fold_left fst snd omap list_omap]. unfold RouteObserved, noteRouteStatus, routes in *.
  destruct (str_eq p path) eqn:E; destruct (conclusive code) as [b|] eqn:Eb; rewrite ?app_nil_r, ?last_snoc; try done; bool_prop.
  - subst. by rewrite (lookup_insert_eq (M := gmap string)).
  - by rewrite (lookup_insert_ne (M := gmap string)).
Qed.

(** ** One poll *)

(** How a collector's [Update] ends: with an API error (its endpoint and text) or none, or
    in a panic the poller recovers. *)
Inductive ending := Returned (apiErr : option (string * string)) | Panicked (msg : string).
Definition success (e : ending) : bool := match e with Returned None => true | _ => false end.
Definition lastErr (e : ending) : string :=
  match e with Returned None => "" | Returned (Some (_, text)) => text | Panicked msg => "panic: " +:+ msg end.
(** The label the error counter counts a failure under. *)
Definition blamed (name : string) (e : ending) : option string :=
  match e with Returned None => None | Returned (Some (endpoint, _)) => Some endpoint | Panicked _ => Some ("panic:" +:+ name) end.

Record Polled (M : Type) := mkPolled { tables : Tables (M := M); endpointErrors : gmap string Z; partialFetchFailures : gmap string Z; observed : routes }.
#[global] Arguments mkPolled {M} _ _ _ _.
#[global] Arguments tables {M} _.
#[global] Arguments endpointErrors {M} _.
#[global] Arguments partialFetchFailures {M} _.
#[global] Arguments observed {M} _.
Definition add_to (name : string) (n : Z) (m : gmap string Z) : gmap string Z := <[name := default 0 (m !! name) + n]> m.

Section Poll.
Context {M : Type} (gated : list string).

(** A call of the poll as its observer sees it. *)
Definition observation : Type := string * Z * option APICallError.
Definition observe_calls (calls : list observation) (r : routes) : Z * routes :=
  fold_left (fun st o => ObserveAPIRequestResult gated o.1.1 o.1.2 o.2 st) calls (0, r).

(** [buf] is what [Update] sent, up to its end. *)
Definition pollOnce (name : string) (buf : list M) (e : ending) (calls : list observation) (begin : Time) (dur : Duration) (now : Time) (st : Polled M) : Polled M :=
  let '(failures, r) := observe_calls calls (observed st) in
  mkPolled (record_poll name buf (success e) (lastErr e) begin dur now (tables st))
    (match blamed name e with Some l => add_to l 1 (endpointErrors st) | None => endpointErrors st end)
    (if success e && (0 <? failures) then add_to name failures (partialFetchFailures st) else partialFetchFailures st) r.

(** A call that failed, an absent plugin apart. *)
Definition failed (o : observation) : bool := match o.2 with Some e => negb (isPluginAbsent gated o.1.1 e) | None => false end.

Lemma observe_calls_snoc calls o r : observe_calls (calls ++ [o]) r = ObserveAPIRequestResult gated o.1.1 o.1.2 o.2 (observe_calls calls r).
Proof. unfold observe_calls. by rewrite fold_left_app. Qed.
Lemma observe_calls_spec calls r : observe_calls calls r = (zlen (List.filter failed calls), fold_left (fun r p => noteRouteStatus p.1 p.2 r) (map fst calls) r).
Proof.
  induction calls as [|o calls IH] using rev_ind; [done|]. rewrite observe_calls_snoc, IH, map_app, fold_left_app, List.filter_app. cbn [fold_left map List.filter].
  unfold ObserveAPIRequestResult, failed. cbn [fst snd]. destruct o.2 as [e|]; [destruct (isPluginAbsent _ _ _)|]; cbn [negb fst snd]; rewrite ?app_nil_r; try done.
  unfold zlen. rewrite length_app. cbn [length]. do 2 f_equal; lia.
Qed.

Lemma add_to_count name n (m : gmap string Z) k : default 0 (add_to name n m !! k) = default 0 (m !! k) + if decide (name = k) then n else 0.
Proof. unfold add_to. destruct (decide (name = k)) as [->|]; [by rewrite lookup_insert_eq|]. rewrite lookup_insert_ne by done. lia. Qed.

Lemma record_store name (buf : list M) ok err begin dur now c : store (record_poll name buf ok err begin dur now c) = put name buf dur ok now (store c).
Proof. unfold record_poll, update. cbn. by destruct (tracker c). Qed.

(** [C16] One poll.  The collector's snapshot becomes what its update sent, unless the
    update failed without sending anything, when the old one stays; so an update that
    panics or fails half way replaces the whole by its part.  The success flag is the
    update's; every other collector is untouched; exactly the failures of [Update] are
    counted as endpoint errors, and exactly those of a successful update's calls that are
    not an absent plugin's are counted as partial failures; the routes' verdicts are the
    last conclusive answers. *)
Theorem poll_exact name buf e calls begin dur now st (st' := pollOnce name buf e calls begin dur now st)
    (before := entry name (store (tables st))) (after := entry name (store (tables st'))) (count := fun (m : gmap string Z) n => default 0 (m !! n)) :
  metrics after = (if success e || (0 <? zlen buf) then buf else metrics before) /\ lastOK after = success e /\ polled after = true
  /\ (forall n, n <> name -> entry n (store (tables st')) = entry n (store (tables st)))
  /\ (forall l, count (endpointErrors st') l = count (endpointErrors st) l + if decide (blamed name e = Some l) then 1 else 0)
  /\ (forall n, count (partialFetchFailures st') n = count (partialFetchFailures st) n + if success e && str_eq n name then zlen (List.filter failed calls) else 0)
  /\ (forall path, RouteObserved path (observed st')
       = match last (omap (fun p => if str_eq p.1 path then conclusive p.2 else None) (map fst calls)) with Some b => Some b | None => RouteObserved path (observed st) end).
Proof.
  unfold before, after, st', pollOnce. rewrite observe_calls_spec. cbn [tables endpointErrors partialFetchFailures observed]. rewrite record_store.
  destruct (entry_put name buf dur (success e) now (store (tables st))) as (-> & _ & -> & _ & -> & _). split; [done|split; [done|split; [done|split; [|split; [|split]]]]].
  - intros n Hn. apply entry_put_other. by apply String.eqb_neq, not_eq_sym.
  - intros l. unfold count. destruct (blamed name e) as [l0|]; [|destruct (decide (None = Some l)); [done|lia]]. rewrite add_to_count.
    destruct (decide (l0 = l)), (decide (Some l0 = Some l)); congruence || done.
  - intros n. unfold count. destruct (success e); cbn [andb]; [|lia]. set (k := zlen _). assert (0 <= k) by (unfold k, zlen; lia). destruct (Z.ltb_spec 0 k).
    + rewrite add_to_count. unfold str_eq. destruct (decide (name = n)) as [->|Hne]; [by rewrite String.eqb_refl|]. apply not_eq_sym, String.eqb_neq in Hne. by rewrite Hne.
    + replace k with 0 by lia. destruct (str_eq n name); lia.
  - intros path. by rewrite route_last.
Qed.

End Poll.

(** A panic half way: what was sent before it replaces the whole snapshot. *)
Example panic_truncates :
  let poll buf e st := pollOnce [] "logevents" buf e [] zero_time 0 zero_time st in
  let st := poll [1; 2] (Panicked "utf-8") (poll [1; 2; 3] (Returned None) (mkPolled (New false) ∅ ∅ ∅)) in
  metrics (entry "logevents" (store (tables st))) = [1; 2] /\ endpointErrors st !! "panic:logevents" = Some 1.
Proof. split; reflexivity. Qed.

End Serving.
