(* ===== verification/ApiClient.v ===== *)
(** * The API client's response cache and request path ([opnsense/cache.go],
      [opnsense/client.go])

    A byte-bounded cache of successful bodies and of absent routes, least recently used
    first out; and one logical call: a replay from the cache, or up to [maxRetries] round
    trips, what it observes and what it stores. *)

From stdpp Require Import base decidable list gmap strings sorting.
From Stdlib Require Import ZArith Lia Ascii.
From S2P Require Import Prelude Netip Order GoStrings.

Module ApiClient.

(** ** The cache *)

Definition maxResponseCacheEntryBytes : Z := 4 * 2 ^ 20.
Definition maxResponseCacheBytes : Z := 32 * 2 ^ 20.

Definition blen (s : string) : Z := Z.of_nat (String.length s).

(** [elem] is the place of the path in [order], front first. *)
Record cacheEntry := mkEntry { expiresAt : Time; storedAt : Time; cbody : string; cstatus : Z; ccost : Z }.
Record responseCache := mkCache {
  ttls : gmap string Duration; absentTTLs : gmap string Duration; admission : gmap string (string -> bool);
  bodyTTL : gmap string (string -> Duration -> Duration); entries : gmap string cacheEntry; order : list string; bytes : Z }.
#[export] Instance eta_cache : Eta responseCache := fun c =>
  mkCache (ttls c) (absentTTLs c) (admission c) (bodyTTL c) (entries c) (order c) (bytes c).

Definition newResponseCache : responseCache := mkCache ∅ ∅ ∅ ∅ ∅ [] 0.

Definition without (path : string) (l : list string) : list string := List.filter (fun p => negb (str_eq p path)) l.
Definition remove (path : string) (c : responseCache) : responseCache :=
  match entries c !! path with
  | None => c
  | Some e => c <| order ::= without path |> <| bytes := bytes c - ccost e |> <| entries ::= delete path |>
  end.

Definition setTTL (path : string) (ttl : Duration) (c : responseCache) : responseCache :=
  if ttl <=? 0 then remove path (c <| ttls ::= delete path |>) else c <| ttls ::= <[path := ttl]> |>.
Definition setAbsentTTL (path : string) (ttl : Duration) (c : responseCache) : responseCache :=
  if ttl <=? 0 then remove path (c <| absentTTLs ::= delete path |>) else c <| absentTTLs ::= <[path := ttl]> |>.
Definition setAdmission (path : string) (rule : option (string -> bool)) (c : responseCache) : responseCache :=
  c <| admission ::= match rule with Some r => <[path := r]> | None => delete path end |>.
Definition setBodyTTL (path : string) (rule : option (string -> Duration -> Duration)) (c : responseCache) : responseCache :=
  c <| bodyTTL ::= match rule with Some r => <[path := r]> | None => delete path end |>.

Definition get (now : Time) (path : string) (c : responseCache) : option cacheEntry * responseCache :=
  match entries c !! path with
  | None => (None, c)
  | Some e =>
      if negb (Before now (expiresAt e)) then (None, remove path c)
      else (Some e, c <| order ::= fun l => path :: without path l |>)
  end.

Definition success (code : Z) : bool := (200 <=? code) && (code <? 300).
Definition StatusNotFound : Z := 404.

(** The lifetime a response gets, if it may be stored at all. *)
Definition lifetime (path : string) (code : Z) (body : string) (c : responseCache) : option Duration :=
  match (if success code then ttls c !! path else if code =? StatusNotFound then absentTTLs c !! path else None) with
  | None => None
  | Some ttl =>
      if maxResponseCacheEntryBytes <? blen body then None
      else if success code then
        if match admission c !! path with Some rule => negb (rule body) | None => false end then None
        else match bodyTTL c !! path with
             | Some rule => let ttl := Z.min ttl (rule body ttl) in if ttl <=? 0 then None else Some ttl
             | None => Some ttl
             end
      else Some ttl
  end.

(** The eviction loop, from the back; [false] when there is nothing left to evict. *)
Fixpoint evict (fuel : nat) (need : Z) (c : responseCache) : bool * responseCache :=
  if maxResponseCacheBytes <? bytes c + need then
    match last (order c), fuel with
    | Some back, S fuel => evict fuel need (remove back c)
    | _, _ => (false, c)
    end
  else (true, c).

Definition put (now : Time) (path : string) (code : Z) (body : string) (c : responseCache) : bool * responseCache :=
  match lifetime path code body c with
  | None => (false, c)
  | Some ttl =>
      let c := remove path c in
      let '(fits, c) := evict (length (order c)) (blen body) c in
      if negb fits then (false, c)
      else (true, c <| order ::= cons path |> <| entries ::= <[path := mkEntry (time_Add now ttl) now body code (blen body)]> |>
                    <| bytes := bytes c + blen body |>)
  end.

(** *** Invariant *)

Record cache_ok (c : responseCache) : Prop := {
  ca_order : NoDup (order c) /\ forall p, p ∈ order c <-> is_Some (entries c !! p);
  ca_bytes : bytes c = msum (fun _ e => ccost e) (entries c) /\ bytes c <= maxResponseCacheBytes;
  ca_entries : forall p e, entries c !! p = Some e -> ccost e = blen (cbody e) /\ ccost e <= maxResponseCacheEntryBytes
    /\ (success (cstatus e) = true \/ cstatus e = StatusNotFound) /\ storedAt e < expiresAt e;
  ca_ttls : (forall p d, ttls c !! p = Some d -> 0 < d) /\ (forall p d, absentTTLs c !! p = Some d -> 0 < d) }.

Lemma without_in path p l : p ∈ without path l <-> p ∈ l /\ p <> path.
Proof.
  unfold without. rewrite !list_elem_of_In, filter_In, negb_true_iff. unfold str_eq. rewrite String.eqb_neq. done.
Qed.
Lemma without_nodup path l : NoDup l -> NoDup (without path l).
Proof. rewrite !NoDup_ListNoDup. apply List.NoDup_filter. Qed.

Lemma costs_nonneg c : cache_ok c -> forall p e, entries c !! p = Some e -> 0 <= ccost e.
Proof. intros H p e He. destruct (ca_entries c H p e He) as [-> _]. unfold blen. lia. Qed.

Lemma cache_remove_ok path c : cache_ok c -> cache_ok (remove path c).
Proof.
  intros H. pose proof (costs_nonneg c H) as Hnn. destruct H as [[Ho1 Ho2] [Hb1 Hb2] He Ht]. unfold remove. destruct (entries c !! path) as [e|] eqn:E; [|by split].
  pose proof (msum_delete (fun _ e => ccost e) _ _ _ E) as Hd. cbv beta in Hd. specialize (Hnn path e E). split; unfold update; cbn [order entries bytes ttls absentTTLs].
  - split; [by apply without_nodup|]. intros p. rewrite without_in, Ho2. split.
    + intros [[x Hx] Hne]. exists x. by rewrite lookup_delete_ne.
    + intros [x Hx]. apply lookup_delete_Some in Hx as [Hne Hx]. split; [by eexists|congruence].
  - split; lia.
  - intros p x Hx. apply lookup_delete_Some in Hx as [_ Hx]. by eapply He.
  - done.
Qed.

Lemma remove_same path c : order (remove path c) = (if bool_decide (is_Some (entries c !! path)) then without path (order c) else order c)
  /\ entries (remove path c) = delete path (entries c)
  /\ (ttls (remove path c), absentTTLs (remove path c), admission (remove path c), bodyTTL (remove path c)) = (ttls c, absentTTLs c, admission c, bodyTTL c).
Proof.
  unfold remove. destruct (entries c !! path) eqn:E; [done|]. split; [done|]. split; [|done]. symmetry. by apply delete_id.
Qed.

(** The order of a removal, when the order lists the entries. *)
Lemma remove_order path c : cache_ok c -> order (remove path c) = without path (order c).
Proof.
  intros H. destruct (remove_same path c) as [-> _]. case_bool_decide as Hp; [done|]. rewrite <- (proj2 (ca_order c H)) in Hp. symmetry. unfold without.
  apply List.forallb_filter_id, forallb_forall. intros p Hin. apply negb_true_iff, String.eqb_neq. intros ->. by apply Hp, list_elem_of_In.
Qed.

Lemma get_ok now path c : cache_ok c -> cache_ok (get now path c).2.
Proof.
  intros H. unfold get. destruct (entries c !! path) as [e|] eqn:E; [|done]. destruct (negb _); [by apply cache_remove_ok|].
  destruct H as [[Ho1 Ho2] Hb He Ht]. split; try done. unfold update. cbn [snd order entries]. cbv beta. split.
  - apply NoDup_cons. split; [rewrite without_in; naive_solver|by apply without_nodup].
  - intros p. rewrite elem_of_cons, without_in, Ho2. split; [intros [->|[? _]]; [by eexists|done]|]. intros Hp. destruct (decide (p = path)); [by left|by right].
Qed.

Lemma lifetime_spec path code body c ttl : cache_ok c -> lifetime path code body c = Some ttl ->
  0 < ttl /\ blen body <= maxResponseCacheEntryBytes
  /\ (success code = true /\ (exists d, ttls c !! path = Some d /\ ttl <= d) /\ (forall rule, admission c !! path = Some rule -> rule body = true)
      \/ code = StatusNotFound /\ absentTTLs c !! path = Some ttl).
Proof.
  intros H. destruct (ca_ttls c H) as [H1 H2]. unfold lifetime. destruct (success code) eqn:Es.
  - destruct (ttls c !! path) as [d|] eqn:Et; [|done]. destruct (maxResponseCacheEntryBytes <? blen body) eqn:Eb; [done|]. bool_prop.
    destruct (admission c !! path) as [rule|] eqn:Ea; [destruct (rule body) eqn:Er; [|done]|]; cbn [negb];
      (destruct (bodyTTL c !! path) as [brule|]; [destruct (Z.leb_spec (Z.min d (brule body d)) 0); [done|]|]; intros [= <-]); specialize (H1 path d Et);
      (split; [lia|]; split; [done|]; left; split; [done|]; split; [exists d; split; [done|lia]|]; intros rule' [= <-]; done).
  - destruct (Z.eqb_spec code StatusNotFound) as [->|]; [|done]. destruct (absentTTLs c !! path) as [d|] eqn:Et; [|done]. specialize (H2 path d Et).
    destruct (maxResponseCacheEntryBytes <? blen body) eqn:Eb; [done|]. bool_prop. intros [= <-]. split; [done|]. split; [done|]. by right.
Qed.

(** Eviction from the back: a prefix of the order is left, as long as possible. *)
Definition cost_of (c : responseCache) (p : string) : Z := match entries c !! p with Some e => ccost e | None => 0 end.

Lemma without_last (l : list string) p : NoDup (l ++ [p]) -> without p (l ++ [p]) = l.
Proof.
  intros Hn. apply NoDup_app in Hn as (Hn & Hd & _). unfold without. rewrite List.filter_app. cbn. unfold str_eq at 2. rewrite String.eqb_refl. cbn. rewrite app_nil_r.
  apply List.forallb_filter_id, forallb_forall. intros q Hq. apply negb_true_iff, String.eqb_neq. intros ->. apply list_elem_of_In in Hq. apply (Hd p Hq). constructor.
Qed.

Lemma order_nil c : cache_ok c -> order c = [] -> bytes c = 0.
Proof.
  intros Hc Ho. destruct (ca_bytes c Hc) as [-> _]. apply msum_zero. intros p e He. exfalso. destruct (ca_order c Hc) as [_ Hin]. rewrite Ho in Hin.
  apply (not_elem_of_nil p), Hin. by eexists.
Qed.

Lemma evict_spec need : 0 <= need <= maxResponseCacheEntryBytes -> forall fuel c, cache_ok c -> (length (order c) <= fuel)%nat ->
  exists c', evict fuel need c = (true, c') /\ cache_ok c' /\ bytes c' + need <= maxResponseCacheBytes
    /\ order c' `prefix_of` order c /\ (forall p, entries c' !! p = if bool_decide (p ∈ order c') then entries c !! p else None)
    /\ (ttls c', absentTTLs c', admission c', bodyTTL c') = (ttls c, absentTTLs c, admission c, bodyTTL c)
    /\ (forall p, order c' ++ [p] `prefix_of` order c -> maxResponseCacheBytes < bytes c' + cost_of c p + need).
Proof.
  intros Hneed. induction fuel as [|fuel IH]; intros c Hc Hf.
  - assert (order c = []) as Ho by (destruct (order c); [done|cbn in Hf; lia]). assert (bytes c = 0) as Hb.
    { by apply order_nil. }
    cbn [evict]. rewrite Hb. unfold maxResponseCacheEntryBytes, maxResponseCacheBytes in *. destruct (Z.ltb_spec (32 * 2 ^ 20) (0 + need)); [lia|].
    exists c. split; [done|]. split; [done|]. split; [lia|]. split; [by rewrite Ho|]. split; [|split; [done|]].
    + intros p. case_bool_decide as Hp; [done|]. rewrite (proj2 (ca_order c Hc)) in Hp. by apply eq_None_not_Some.
    + intros p Hp. rewrite Ho in Hp. destruct Hp as [k Hk]. done.
  - cbn [evict]. destruct (Z.ltb_spec maxResponseCacheBytes (bytes c + need)) as [Hlt|Hge].
    2: { exists c. split; [done|]. split; [done|]. split; [lia|]. split; [done|]. split; [|split; [done|]].
         - intros p. case_bool_decide as Hp; [done|]. rewrite (proj2 (ca_order c Hc)) in Hp. by apply eq_None_not_Some.
         - intros p Hp. apply prefix_length in Hp. rewrite length_app in Hp. cbn in Hp. lia. }
    destruct (last (order c)) as [back|] eqn:El.
    2: { apply last_None in El. exfalso. pose proof (order_nil c Hc El) as Hz.
         unfold maxResponseCacheEntryBytes, maxResponseCacheBytes in *. lia. }
    apply last_Some in El as [l Hl]. pose proof (proj1 (ca_order c Hc)) as Hnd. rewrite Hl in Hnd. pose proof (cache_remove_ok back c Hc) as Hr.
    pose proof (remove_order back c Hc) as Ho. rewrite Hl, (without_last l back Hnd) in Ho. destruct (remove_same back c) as (_ & Hent & Hset).
    destruct (IH (remove back c) Hr) as (c' & E & Hok & Hle & Hpre & Hen & Hst & Hmax); [rewrite Ho; rewrite Hl, length_app in Hf; cbn in Hf; lia|].
    exists c'. split; [done|]. split; [done|]. split; [done|]. rewrite Ho in Hpre, Hmax. split; [rewrite Hl; by apply prefix_app_r|]. split; [|split].
    + intros p. rewrite Hen, Hent. case_bool_decide as Hp; [|done]. apply lookup_delete_ne. intros ->. apply NoDup_app in Hnd as (_ & Hnd & _).
      eapply (Hnd p); [|constructor]. destruct Hpre as [k ->]. apply elem_of_app. by left.
    + congruence.
    + intros p Hp. rewrite Hl in Hp. destruct (decide (order c' = l)) as [Heq|Hne].
      * rewrite Heq in *. destruct Hp as [k Hk]. rewrite <- app_assoc in Hk. apply app_inv_head in Hk. cbn in Hk. injection Hk as <- _.
        assert (bytes c' = bytes c - cost_of c back) as ->; [|lia]. destruct (ca_bytes c' Hok) as [-> _], (ca_bytes c Hc) as [-> _].
        assert (entries c' = delete back (entries c)) as ->.
        { apply map_eq. intros q. rewrite Hen, <- Hent. case_bool_decide as Hq; [done|]. symmetry. apply eq_None_not_Some. rewrite <- (proj2 (ca_order _ Hr)), Ho. done. }
        unfold cost_of. destruct (entries c !! back) as [e|] eqn:Eb; [pose proof (msum_delete (fun _ e => ccost e) _ _ _ Eb) as Hd; cbv beta in Hd; lia|].
        rewrite delete_id by done. lia.
      * assert (cost_of c p = cost_of (remove back c) p) as ->.
        { unfold cost_of. rewrite Hent, lookup_delete_ne; [done|]. intros ->. apply NoDup_app in Hnd as (_ & Hnd & _). destruct Hp as [k Hk].
          destruct k as [|x k] using rev_ind; [rewrite app_nil_r in Hk; apply app_inj_tail in Hk as [Hk _]; done|].
          rewrite !app_assoc in Hk. apply app_inj_tail in Hk as [Hk _]. apply (Hnd p); [|constructor]. rewrite Hk. set_solver. }
        apply Hmax. destruct Hp as [k Hk]. destruct k as [|x k] using rev_ind; [rewrite app_nil_r in Hk; apply app_inj_tail in Hk as [Hk _]; done|].
        rewrite !app_assoc in Hk. apply app_inj_tail in Hk as [Hk _]. by exists k.
Qed.

(** What storing a response does. *)
Lemma put_stored now path code body c ttl : cache_ok c -> lifetime path code body c = Some ttl -> exists c1,
  put now path code body c = (true, c1) /\ cache_ok c1
  /\ entries c1 !! path = Some (mkEntry (now + ttl) now body code (blen body))
  /\ (forall p, p <> path -> forall e, entries c1 !! p = Some e -> entries c !! p = Some e)
  /\ (exists kept, order c1 = path :: kept /\ kept `prefix_of` without path (order c) /\ (forall p, p ∈ kept -> entries c1 !! p = entries c !! p)
        /\ forall p, kept ++ [p] `prefix_of` without path (order c) -> maxResponseCacheBytes < bytes c1 + cost_of c p).
Proof.
  intros Hc Hl. destruct (lifetime_spec _ _ _ _ _ Hc Hl) as (Hpos & Hlen & Hcode). unfold put. rewrite Hl. cbv zeta.
  pose proof (cache_remove_ok path c Hc) as Hr. pose proof (remove_order path c Hc) as Hro. destruct (remove_same path c) as (_ & Hre & Hrs).
  destruct (evict_spec (blen body) ltac:(unfold blen in *; lia) (length (order (remove path c))) (remove path c) Hr ltac:(done))
    as (c' & -> & Hok & Hle & Hpre & Hen & Hst & Hmax). cbn [negb]. rewrite Hro in Hpre, Hmax. assert (path ∉ order c') as Hnp.
  { intros Hin. destruct Hpre as [k Hk]. assert (path ∈ without path (order c)) as [_ ?]%without_in by (rewrite Hk; apply elem_of_app; by left). done. }
  eexists. split; [done|]. split; [|split; [|split]].
  - destruct Hok as [[Ho1 Ho2] [Hb1 Hb2] Hce Htt]. assert (entries c' !! path = None) as Hnone by (apply eq_None_not_Some; by rewrite <- Ho2).
    split; unfold update; cbn [order entries bytes ttls absentTTLs]; cbv beta.
    + split; [by apply NoDup_cons|]. intros p. rewrite elem_of_cons, Ho2. destruct (decide (p = path)) as [->|Hne].
      * rewrite lookup_insert_eq. split; [by eexists|by left].
      * rewrite lookup_insert_ne by done. naive_solver.
    + rewrite msum_insert_None by done. cbn [ccost]. split; lia.
    + intros p e He. apply lookup_insert_Some in He as [[_ <-]|[_ He]]; [|by eapply Hce]. cbn. unfold time_Add. split; [done|]. split; [done|]. split; [|lia].
      destruct Hcode as [[Hs _]|[-> _]]; [by left|by right].
    + done.
  - unfold update. cbn [entries]. by rewrite lookup_insert_eq.
  - intros p Hp e. unfold update. cbn [entries]. rewrite lookup_insert_ne, Hen, Hre by done. case_bool_decide; [|done]. intros He. by apply lookup_delete_Some in He as [_ He].
  - exists (order c'). unfold update. cbn [order entries bytes]. cbv beta. split; [done|]. split; [done|]. split.
    + intros p Hp. assert (p <> path) by (by intros ->). rewrite lookup_insert_ne, Hen, Hre, bool_decide_eq_true_2, lookup_delete_ne by done. done.
    + intros p Hp. specialize (Hmax p Hp). unfold cost_of in *. rewrite Hre in Hmax. destruct (decide (p = path)) as [->|Hne].
      * destruct Hp as [k Hk]. assert (path ∈ without path (order c)) as [_ ?]%without_in by (rewrite Hk; set_solver). done.
      * rewrite lookup_delete_ne in Hmax by done. lia.
Qed.

Lemma put_ok now path code body c : cache_ok c -> cache_ok (put now path code body c).2.
Proof.
  intros H. destruct (lifetime path code body c) as [ttl|] eqn:E; [|unfold put; by rewrite E].
  by destruct (put_stored now path code body c ttl H E) as (c1 & -> & H1 & _).
Qed.

Lemma cache_set_ok path ttl c : cache_ok c -> cache_ok (setTTL path ttl c) /\ cache_ok (setAbsentTTL path ttl c).
Proof.
  intros [Ho Hb He [Ht1 Ht2]]. unfold setTTL, setAbsentTTL. destruct (Z.leb_spec ttl 0); (split; [|]); try apply cache_remove_ok; (split; [done|done|done|]); (split; [|]); try done;
    unfold update; cbn [ttls absentTTLs]; intros p d Hd.
  - apply lookup_delete_Some in Hd as [_ Hd]. by eapply Ht1.
  - apply lookup_delete_Some in Hd as [_ Hd]. by eapply Ht2.
  - apply lookup_insert_Some in Hd as [[_ <-]|[_ Hd]]; [done|by eapply Ht1].
  - apply lookup_insert_Some in Hd as [[_ <-]|[_ Hd]]; [done|by eapply Ht2].
Qed.

(** *** Histories *)

Inductive op :=
| OTTL (path : string) (ttl : Duration) | OAbsentTTL (path : string) (ttl : Duration)
| OAdmission (path : string) (rule : option (string -> bool)) | OBodyTTL (path : string) (rule : option (string -> Duration -> Duration))
| OGet (now : Time) (path : string) | OPut (now : Time) (path : string) (code : Z) (body : string).
(** The cache after an operation, and what it stored. *)
Definition apply_op (o : op) (c : responseCache) : option (string * (Z * string * Time)) * responseCache :=
  match o with
  | OTTL path ttl => (None, setTTL path ttl c)
  | OAbsentTTL path ttl => (None, setAbsentTTL path ttl c)
  | OAdmission path rule => (None, setAdmission path rule c)
  | OBodyTTL path rule => (None, setBodyTTL path rule c)
  | OGet now path => (None, (get now path c).2)
  | OPut now path code body => let '(b, c) := put now path code body c in ((if b : bool then Some (path, (code, body, now)) else None), c)
  end.
(** The cache after [l] and the last response stored for each path. *)
Definition run (l : list op) : responseCache * gmap string (Z * string * Time) :=
  fold_left (fun st o => let '(x, c) := apply_op o st.1 in (c, match x with Some (p, r) => <[p := r]> st.2 | None => st.2 end)) l (newResponseCache, ∅).

Definition remembers (c : responseCache) (m : gmap string (Z * string * Time)) : Prop :=
  forall p e, entries c !! p = Some e -> m !! p = Some (cstatus e, cbody e, storedAt e).

Lemma apply_op_ok o c m : cache_ok c -> remembers c m -> let '(x, c') := apply_op o c in
  cache_ok c' /\ remembers c' (match x with Some (p, r) => <[p := r]> m | None => m end).
Proof.
  intros Hc Hm. assert (forall path c0, entries c0 = entries c -> remembers (remove path c0) m) as Hrem.
  { intros path c0 E p e. destruct (remove_same path c0) as (_ & -> & _). rewrite E. intros [_ He]%lookup_delete_Some. by apply Hm. }
  destruct o as [path ttl|path ttl|path rule|path rule|now path|now path code body]; cbn [apply_op].
  - split; [by apply cache_set_ok|]. unfold setTTL. destruct (ttl <=? 0); [by apply Hrem|exact Hm].
  - split; [by apply cache_set_ok|]. unfold setAbsentTTL. destruct (ttl <=? 0); [by apply Hrem|exact Hm].
  - split; [by destruct Hc; split|exact Hm].
  - split; [by destruct Hc; split|exact Hm].
  - split; [by apply get_ok|]. unfold get. destruct (entries c !! path); [|exact Hm]. destruct (negb _); [by apply Hrem|exact Hm].
  - destruct (lifetime path code body c) as [ttl|] eqn:E; [|unfold put; rewrite E; done].
    destruct (put_stored now path code body c ttl Hc E) as (c1 & -> & H1 & H2 & H3 & _). split; [done|].
    intros p e He. destruct (decide (p = path)) as [->|Hne].
    + rewrite H2 in He. injection He as <-. by rewrite lookup_insert_eq.
    + rewrite lookup_insert_ne by done. by apply Hm, (H3 p Hne).
Qed.

Lemma new_cache_ok : cache_ok newResponseCache.
Proof.
  split; [split| |intros p e He|split; intros p d Hd].
  - apply NoDup_nil_2.
  - intros p. cbn. rewrite lookup_empty. split; [by intros ?%not_elem_of_nil|by intros [? ?]].
  - done.
  - cbn in He. by apply lookup_empty_Some in He.
  - cbn in Hd. by apply lookup_empty_Some in Hd.
  - cbn in Hd. by apply lookup_empty_Some in Hd.
Qed.

Lemma cache_run_ok l : cache_ok (run l).1 /\ remembers (run l).1 (run l).2.
Proof.
  induction l as [|o l IH] using rev_ind; [split; [apply new_cache_ok|intros p e He; cbn in He; by apply lookup_empty_Some in He]|].
  unfold run in *. rewrite fold_left_app. cbn [fold_left]. set (st := fold_left _ l _) in *. destruct IH as [H1 H2].
  pose proof (apply_op_ok o st.1 st.2 H1 H2) as H. destruct (apply_op o st.1) as [x c]. exact H.
Qed.

(** The response cache.  After any history of settings, reads and writes: a read
    that answers gives the last response stored for the path, a success or a 404, that
    has not yet expired; what is held is at most 32 MiB in bodies of at most 4 MiB; and
    storing a response keeps, besides it, the longest prefix of the other paths in the
    order of their last use that leaves room for it. *)
Theorem cache_exact l now path (c := (run l).1) :
  (forall e c', get now path c = (Some e, c') -> (run l).2 !! path = Some (cstatus e, cbody e, storedAt e) /\ now < expiresAt e
     /\ (success (cstatus e) = true \/ cstatus e = StatusNotFound))
  /\ msum (fun _ e => blen (cbody e)) (entries c) <= maxResponseCacheBytes /\ (forall p e, entries c !! p = Some e -> blen (cbody e) <= maxResponseCacheEntryBytes)
  /\ (forall code body c', put now path code body c = (true, c') -> exists kept, order c' = path :: kept /\ kept `prefix_of` without path (order c)
        /\ (forall p, p ∈ kept -> entries c' !! p = entries c !! p)
        /\ forall p, kept ++ [p] `prefix_of` without path (order c) -> maxResponseCacheBytes < bytes c' + cost_of c p).
Proof.
  destruct (cache_run_ok l) as [Hc Hm]. fold c in Hc, Hm. split; [|split; [|split]].
  - intros e c'. unfold get. destruct (entries c !! path) as [e'|] eqn:E; [|done]. unfold Before. destruct (Z.ltb_spec now (expiresAt e')) as [Hlt|]; cbn [negb]; [|done].
    intros [= -> _]. split; [by apply Hm|]. split; [done|]. by apply (ca_entries c Hc path e).
  - destruct (ca_bytes c Hc) as [Hb1 Hb2]. rewrite (msum_ext _ (fun _ e => ccost e)); [lia|]. intros p e He. symmetry. by apply (ca_entries c Hc p e).
  - intros p e He. destruct (ca_entries c Hc p e He) as (<- & Hle & _). done.
  - intros code body c' Hp. destruct (lifetime path code body c) as [ttl|] eqn:E; [|unfold put in Hp; by rewrite E in Hp].
    destruct (put_stored now path code body c ttl Hc E) as (c1 & E1 & _ & _ & _ & Hk). rewrite E1 in Hp. by injection Hp as <-.
Qed.

(** ** One call *)

Definition MaxRetries : Z := 3.
Definition baseRetryDelay : Duration := 100 * Millisecond.
Definition retryBackoff (attempt : Z) : Duration := s64 (Z.shiftl baseRetryDelay (Z.max attempt 1 - 1)).
Definition retryableStatus (method : string) (code : Z) : bool :=
  str_eq method "GET" && ((code =? 502) || (code =? 503) || (code =? 504)).
Definition maxResponseBodyBytes : Z := 64 * 2 ^ 20.
Definition responseBodyLimit (configured : Z) : Z :=
  if (0 <? configured) && (configured <? maxResponseBodyBytes) then configured else maxResponseBodyBytes.

Section Client.
Context {T : Type}.
(** Decoding a body into the value its path's caller wants: the value, and the error if
    there is one, with whether it is only that types disagree. *)
Variable unmarshal : string -> string -> T * option bool.
(** The bounded and redacted text of an error's body. *)
Variable truncateBody : string -> string.

(** Why a call failed. *)
Inductive reason :=
| Aborted | BadRequest (msg : string) | BadGzip | Unreadable | TooLarge | ErrorBody (body : string) | EmptyNDP | Undecodable (partial : bool) | RetriesExhausted (cause : string).
Record APICallError := mkCallError { Endpoint : string; why : reason; StatusCode : Z }.

(** How reading a response's body ends, and how one attempt at a round trip does: the
    request cannot be made, the context ends while waiting, the transport fails (and perhaps
    because the context has ended), or there is a response. *)
Inductive reading := GzipFails | ReadFails | Read (body : string).
Inductive attempt := Malformed (msg : string) | Cancelled | NetError (cancelled : bool) (msg : string) | Response (code : Z) (r : reading).

Record config := mkClient { maxRetries : nat; maxResponseBody : Z }.
Inductive result := Decoded (v : T) | Failed (v : option T) (e : APICallError).

Definition unmarshalBody (path body : string) (code : Z) : result :=
  match unmarshal path body with
  | (v, None) => Decoded v
  | (v, Some partial) => Failed (Some v) (mkCallError path (Undecodable partial) code)
  end.

Definition ndp_path : string := "api/diagnostics/interface/get_ndp".

(** A cache that may be absent; [true] when the response was stored. *)
Definition store (now : Time) (path : string) (code : Z) (body : string) (c : option responseCache) : bool * option responseCache :=
  match c with None => (false, None) | Some c => let '(b, c) := put now path code body c in (b, Some c) end.

Definition readResponse (k : config) (now : Time) (method path : string) (code : Z) (r : reading) (c : option responseCache)
  : result * bool * option responseCache :=
  let fail w := Failed None (mkCallError path w code) in
  match r with
  | GzipFails => (fail BadGzip, false, c)
  | ReadFails => (fail Unreadable, false, c)
  | Read body =>
      if responseBodyLimit (maxResponseBody k) <? blen body then (fail TooLarge, false, c)
      else if negb (success code) then
        let '(b, c) := store now path code (truncateBody body) c in
        (fail (ErrorBody (truncateBody body)), b, c)
      else if str_eq path ndp_path && str_empty (TrimSpace body) then (fail EmptyNDP, false, c)
      else
        match unmarshalBody path body code with
        | Decoded v =>
            if str_eq method "GET" then let '(b, c) := store now path code body c in (Decoded v, b, c) else (Decoded v, false, c)
        | failed => (failed, false, c)
        end
  end.

Definition httpText (code : Z) : string := "HTTP " +:+ Itoa code.
(** The attempts: how they end, and the number of round trips. *)
Inductive outcome := Final (code : Z) (r : reading) | Stop (w : reason).
Fixpoint attempts (method : string) (world : nat -> attempt) (remaining i : nat) (lastErr : string) : outcome * nat :=
  match remaining with
  | O => (Stop (RetriesExhausted lastErr), O)
  | S remaining =>
      match world i with
      | Malformed msg => (Stop (BadRequest msg), O)
      | Cancelled => (Stop Aborted, O)
      | NetError true _ => (Stop Aborted, 1%nat)
      | NetError false msg => let '(o, n) := attempts method world remaining (S i) msg in (o, S n)
      | Response code r =>
          if retryableStatus method code && negb (remaining =? 0)%nat
          then let '(o, n) := attempts method world remaining (S i) (httpText code) in (o, S n)
          else (Final code r, 1%nat)
      end
  end.

(** What a call does: its result, its round trips, what it tells the request observer
    (the status code), and the cache's observer. *)
Record reply := mkReply { value : result; trips : nat; observedCode : option Z; hit : option string; miss : bool; cacheAfter : option responseCache }.

Definition err_code (r : result) (code : Z) : Z :=
  match r with Failed _ e => if StatusCode e =? 0 then code else StatusCode e | Decoded _ => code end.

(** The part of the call after the cache has nothing to replay. *)
Definition live (k : config) (later : Time) (method path : string) (world : nat -> attempt) (c : option responseCache) : reply :=
  match attempts method world (maxRetries k) 0 "unknown error" with
  | (Stop w, n) => mkReply (Failed None (mkCallError path w 0)) n (Some 0) None false c
  | (Final code r, n) =>
      let '(v, b, c) := readResponse k later method path code r c in
      mkReply v n (Some (err_code v code)) None b c
  end.

Definition lookup (now : Time) (path : string) (c : option responseCache) : option cacheEntry * option responseCache :=
  match c with None => (None, None) | Some c => let '(e, c) := get now path c in (e, Some c) end.

Definition doWithContentType (k : config) (now later : Time) (method path : string) (world : nat -> attempt) (c : option responseCache) : reply :=
  let '(cached, c) := lookup now path c in
  match cached with
  | Some e =>
      if cstatus e =? StatusNotFound then
        mkReply (Failed None (mkCallError path (ErrorBody (cbody e)) (cstatus e))) 0 None (Some "absent") false c
      else if str_eq method "GET" then
        mkReply (unmarshalBody path (cbody e) (cstatus e)) 0 None (Some "body") false c
      else live k later method path world c
  | None => live k later method path world c
  end.

Lemma attempts_trips method world remaining : forall i lastErr, ((attempts method world remaining i lastErr).2 <= remaining)%nat.
Proof.
  induction remaining as [|remaining IH]; intros i lastErr; [done|]. cbn [attempts]. destruct (world i) as [msg| |[] msg|code r]; cbn [snd]; try lia.
  - specialize (IH (S i) msg). destruct (attempts method world remaining (S i) msg). cbn in *. lia.
  - destruct (_ && _); cbn [snd]; [|lia]. specialize (IH (S i) (httpText code)). destruct (attempts method world remaining (S i) (httpText code)). cbn in *. lia.
Qed.

(** The first attempt that is not transient, or the last one, decides. *)
Definition transient (method : string) (a : attempt) : bool :=
  match a with NetError false _ => true | Response code _ => retryableStatus method code | _ => false end.
Definition decided (a : attempt) (j : nat) : outcome * nat :=
  match a with
  | Malformed msg => (Stop (BadRequest msg), j)
  | Cancelled => (Stop Aborted, j)
  | NetError true _ => (Stop Aborted, S j)
  | NetError false msg => (Stop (RetriesExhausted msg), S j)
  | Response code r => (Final code r, S j)
  end.

Lemma attempts_decided method world remaining : forall j i lastErr, (j < remaining)%nat ->
  (forall m, (m < j)%nat -> transient method (world (i + m)%nat) = true) ->
  transient method (world (i + j)%nat) = false \/ S j = remaining ->
  attempts method world remaining i lastErr = decided (world (i + j)%nat) j.
Proof.
  induction remaining as [|remaining IH]; intros j i lastErr Hj Hm Hlast; [lia|]. cbn [attempts]. destruct j as [|j].
  - rewrite Nat.add_0_r in *. destruct (world i) as [msg| |[] msg|code r]; cbn [transient decided] in *; try done.
    + destruct Hlast as [|Hl]; [done|]. by replace remaining with 0%nat by lia.
    + destruct Hlast as [-> | Hl]; [done|]. replace remaining with 0%nat by lia. by rewrite andb_false_r.
  - pose proof (Hm 0%nat ltac:(lia)) as H0. rewrite Nat.add_0_r in H0. replace (i + S j)%nat with (S i + j)%nat in * by lia.
    assert (forall e, attempts method world remaining (S i) e = decided (world (S i + j)%nat) j) as HI.
    { intros e. apply IH; [lia| |destruct Hlast; [by left|right; lia]]. intros m Hmj. replace (S i + m)%nat with (i + S m)%nat by lia. apply Hm. lia. }
    destruct (world i) as [msg| |[] msg|code r]; cbn [transient] in H0; try done.
    + rewrite HI. by destruct (world (S i + j)%nat) as [| |[] ?|].
    + rewrite H0. destruct remaining; [lia|]. cbn [Nat.eqb negb andb]. rewrite HI. by destruct (world (S i + j)%nat) as [| |[] ?|].
Qed.

(** *** Sessions: settings and calls, one after another *)

(** The endpoints' paths, and the rules for successful bodies, by endpoint name. *)
Context (endpoints : gmap string string) (admissionRules : gmap string (string -> bool)) (bodyTTLRules : gmap string (string -> Duration -> Duration)).

Definition SetEndpointCacheTTL (name : string) (ttl : Duration) (c : option responseCache) : option responseCache :=
  match endpoints !! name with
  | None => c
  | Some path => Some (setBodyTTL path (bodyTTLRules !! name) (setAdmission path (admissionRules !! name) (setTTL path ttl (default newResponseCache c))))
  end.
Definition SetEndpointAbsentTTL (name : string) (ttl : Duration) (c : option responseCache) : option responseCache :=
  match endpoints !! name with None => c | Some path => Some (setAbsentTTL path ttl (default newResponseCache c)) end.

Inductive event :=
| CacheTTL (name : string) (ttl : Duration) | AbsentTTL (name : string) (ttl : Duration)
| Call (now later : Time) (method path : string) (world : nat -> attempt).

(** The cache, and the answer of the last call that filled the cache for each path. *)
Definition session : Type := option responseCache * gmap string result.
Definition step (k : config) (s : session) (e : event) : session :=
  match e with
  | CacheTTL name ttl => (SetEndpointCacheTTL name ttl s.1, s.2)
  | AbsentTTL name ttl => (SetEndpointAbsentTTL name ttl s.1, s.2)
  | Call now later method path world =>
      let r := doWithContentType k now later method path world s.1 in
      (cacheAfter r, if miss r then <[path := value r]> s.2 else s.2)
  end.
Definition session_after (k : config) (l : list event) : session := fold_left (step k) l (None, ∅).

(** What a held entry replays. *)
Definition replayed (path : string) (e : cacheEntry) : result :=
  if cstatus e =? StatusNotFound then Failed None (mkCallError path (ErrorBody (cbody e)) (cstatus e)) else unmarshalBody path (cbody e) (cstatus e).
Definition held (m : gmap string result) (p : string) (e : cacheEntry) : Prop :=
  m !! p = Some (replayed p e) /\ (success (cstatus e) = true -> exists v, replayed p e = Decoded v).
Definition faithful (c : option responseCache) (m : gmap string result) : Prop :=
  match c with
  | None => True
  | Some c => cache_ok c /\ forall p e, entries c !! p = Some e -> held m p e
  end.

Lemma remove_faithful path c m : faithful (Some c) m -> faithful (Some (remove path c)) m.
Proof.
  intros [Hc Hm]. split; [by apply cache_remove_ok|]. intros p e. destruct (remove_same path c) as (_ & -> & _). intros [_ He]%lookup_delete_Some. by apply Hm.
Qed.

Lemma default_faithful c m : faithful c m -> faithful (Some (default newResponseCache c)) m.
Proof.
  destruct c; [done|]. intros _. split; [apply new_cache_ok|]. intros p e He. cbn in He. by apply lookup_empty_Some in He.
Qed.

Lemma settings_faithful name ttl c m : faithful c m -> faithful (SetEndpointCacheTTL name ttl c) m /\ faithful (SetEndpointAbsentTTL name ttl c) m.
Proof.
  intros H. unfold SetEndpointCacheTTL, SetEndpointAbsentTTL. destruct (endpoints !! name) as [path|]; [|done]. apply default_faithful in H. set (c0 := default _ c) in *. clearbody c0.
  destruct H as [Hc Hm]. destruct (cache_set_ok path ttl c0 Hc) as [H1 H2]. destruct (remove_same path c0) as (_ & He & _).
  assert (forall c1, entries c1 = entries c0 -> forall p e, entries (remove path c1) !! p = Some e -> held m p e) as Hrem.
  { intros c1 E p e. destruct (remove_same path c1) as (_ & -> & _). rewrite E. intros [_ Hp]%lookup_delete_Some. by apply Hm. }
  split; (split; [by destruct H1, H2; split|]); unfold setTTL, setAbsentTTL; destruct (ttl <=? 0); try exact Hm.
  - by apply (Hrem (c0 <| ttls ::= delete path |>)).
  - by apply (Hrem (c0 <| absentTTLs ::= delete path |>)).
Qed.

Lemma lookup_faithful now path c m : faithful c m -> faithful (lookup now path c).2 m
  /\ forall e, (lookup now path c).1 = Some e -> held m path e /\ (success (cstatus e) = true \/ cstatus e = StatusNotFound).
Proof.
  destruct c as [c|]; [|done]. intros [Hc Hm]. cbn [lookup]. pose proof (get_ok now path c Hc) as Hg. unfold get in *. destruct (entries c !! path) as [e|] eqn:E; [|done].
  destruct (negb _); cbn [fst snd] in *; (split; [|]); try done; [by apply remove_faithful|]. intros e' [= <-]. split; [by apply Hm|by apply (ca_entries c Hc path e)].
Qed.

(** Storing a response keeps the record of answers true, if the answer recorded is what the
    stored response replays. *)
Lemma store_faithful now path code body c m v : faithful c m ->
  (success code = true \/ code = StatusNotFound -> v = replayed path (mkEntry 0 0 body code 0)) -> (success code = true -> exists x, v = Decoded x) ->
  faithful (store now path code body c).2 (if (store now path code body c).1 then <[path := v]> m else m).
Proof.
  destruct c as [c|]; [|done]. intros [Hc Hm] Hv Hd. cbn [store]. destruct (lifetime path code body c) as [ttl|] eqn:E; [|unfold put; rewrite E; done].
  destruct (put_stored now path code body c ttl Hc E) as (c1 & -> & H1 & H2 & H3 & _). cbn [fst snd]. split; [done|].
  destruct (lifetime_spec _ _ _ _ _ Hc E) as (_ & _ & Hcode). intros p e He. destruct (decide (p = path)) as [->|Hne].
  - rewrite H2 in He. injection He as <-. unfold held. rewrite lookup_insert_eq. cbn [cstatus].
    change (replayed path (mkEntry (now + ttl) now body code (blen body))) with (replayed path (mkEntry 0 0 body code 0)). rewrite <- Hv; [done|]. destruct Hcode as [[? _]|[? _]]; auto.
  - unfold held. rewrite lookup_insert_ne by done. by apply Hm, H3.
Qed.

Lemma read_faithful k now method path code r c m : faithful c m ->
  let '(v, b, c') := readResponse k now method path code r c in faithful c' (if b then <[path := v]> m else m).
Proof.
  intros H. unfold readResponse. destruct r as [| |body]; [done|done|]. destruct (_ <? _); [done|]. destruct (success code) eqn:Es; cbn [negb].
  - destruct (_ && _); [done|]. destruct (unmarshalBody path body code) as [v|v e] eqn:Eu; [|done]. destruct (str_eq method "GET"); [|done].
    pose proof (store_faithful now path code body c m (Decoded v) H) as Hs. destruct (store now path code body c) as [b c']. apply Hs; [|by eauto]. intros _.
    unfold replayed. cbn [cstatus cbody]. destruct (Z.eqb_spec code StatusNotFound) as [->|]; done.
  - set (v := Failed _ _). pose proof (store_faithful now path code (truncateBody body) c m v H) as Hs. destruct (store _ _ _ _ c) as [b c']. apply Hs; [|congruence].
    intros [?|Hc]; [congruence|]. unfold replayed. cbn [cstatus cbody]. unfold v. rewrite Hc. done.
Qed.

Lemma live_faithful k later method path world c m : faithful c m ->
  let r := live k later method path world c in faithful (cacheAfter r) (if miss r then <[path := value r]> m else m).
Proof.
  intros H. unfold live. destruct (attempts _ _ _ _ _) as [[code r|w] n]; [|done].
  pose proof (read_faithful k later method path code r c m H) as Hr. by destruct (readResponse k later method path code r c) as [[v b] c'].
Qed.

Lemma live_hit k later method path world c (r := live k later method path world c) :
  hit r = None /\ (trips r <= maxRetries k)%nat /\ is_Some (observedCode r).
Proof.
  unfold r, live. pose proof (attempts_trips method world (maxRetries k) 0 "unknown error") as Ht. destruct (attempts _ _ _ _ _) as [[code rd|w] n]; cbn [snd] in Ht.
  - by destruct (readResponse k later method path code rd c) as [[v b] c'].
  - done.
Qed.

Lemma step_faithful k s e : faithful s.1 s.2 -> faithful (step k s e).1 (step k s e).2.
Proof.
  intros H. destruct e as [name ttl|name ttl|now later method path world]; cbn [step fst snd]; [by apply settings_faithful..|].
  unfold doWithContentType. destruct (lookup_faithful now path s.1 s.2 H) as [Hc _]. destruct (lookup now path s.1) as [[e|] c]; cbn [snd] in Hc; [|by apply live_faithful].
  destruct (_ =? _); [done|]. destruct (str_eq _ _); [done|]. by apply live_faithful.
Qed.

Lemma session_faithful k l : faithful (session_after k l).1 (session_after k l).2.
Proof.
  induction l as [|e l IH] using rev_ind; [done|]. unfold session_after in *. rewrite fold_left_app. cbn [fold_left]. by apply step_faithful.
Qed.

(** [C15] A replay is the answer.  After any session of settings and calls, a call the
    cache answers makes no round trip, is not observed as a request, and returns exactly
    what the call that last filled the cache for its path returned, a decoded body (to a
    GET only) or the same 404 error (to any method); every other call makes at most
    [maxRetries] round trips and is observed exactly once, under the status code of its
    error or response. *)
Theorem replay_exact k l now later method path world (s := session_after k l) (r := doWithContentType k now later method path world s.1) :
  match hit r with
  | Some how => s.2 !! path = Some (value r) /\ trips r = 0%nat /\ observedCode r = None /\ miss r = false
      /\ (how = "absent" /\ (exists b, value r = Failed None (mkCallError path (ErrorBody b) StatusNotFound)) \/ how = "body" /\ method = "GET" /\ exists v, value r = Decoded v)
  | None => (trips r <= maxRetries k)%nat /\ is_Some (observedCode r) /\ r = live k later method path world (lookup now path s.1).2
  end.
Proof.
  destruct (lookup_faithful now path s.1 s.2 (session_faithful k l)) as [_ He]. unfold r, doWithContentType. destruct (lookup now path s.1) as [[e|] c]; cbn [fst snd] in *.
  2: { destruct (live_hit k later method path world c) as (-> & Ht & Ho). done. }
  destruct (He e eq_refl) as [[Hm Hd] Hcode]. unfold replayed in Hm, Hd. destruct (Z.eqb_spec (cstatus e) StatusNotFound) as [Hs|Hs].
  - cbn. rewrite Hs in *. eauto 10.
  - destruct Hcode as [Hcode|]; [|done]. destruct (str_eq method "GET") eqn:Em; [|destruct (live_hit k later method path world c) as (-> & Ht & Ho); done]. apply String.eqb_eq in Em. cbn. eauto 10.
Qed.

Lemma first_decisive (f : nat -> bool) n : exists j, (j <= n)%nat /\ (forall m, (m < j)%nat -> f m = true) /\ (f j = false \/ j = n).
Proof.
  induction n as [|n (j & Hj & Hm & Hl)]; [exists 0%nat; split; [done|]; split; [lia|by right]|]. destruct (f j) eqn:E.
  - destruct Hl as [Hl | ->]; [congruence|]. exists (S n). split; [done|]. split; [|by right]. intros m Hmn. destruct (decide (m = n)) as [->|]; [done|apply Hm; lia].
  - exists j. split; [lia|]. split; [done|by left].
Qed.

Lemma read_code k now method path code r c : err_code (readResponse k now method path code r c).1.1 code = code.
Proof.
  assert (forall v w, err_code (Failed v (mkCallError path w code)) code = code) as Hf by (intros v w; cbn; by destruct (_ =? _)).
  unfold readResponse, unmarshalBody. destruct r as [| |body]; [apply Hf|apply Hf|]. destruct (_ <? _); [apply Hf|]. destruct (negb _).
  - destruct (store _ _ _ _ _). apply Hf.
  - destruct (_ && _); [apply Hf|]. destruct (unmarshal path body) as [v [p|]]; [apply Hf|]. destruct (str_eq _ _); [by destruct (store _ _ _ _ _)|done].
Qed.

(** Retries.  A call the cache does not answer ends with the first attempt that is
    not transient (a transport error, or for a GET a 502, 503 or 504), or with the last of
    its [maxRetries] attempts: its response is read, whatever its status, and observed under
    its own code; an aborted or malformed request and a transport error on the last attempt
    are errors without a code, and the last names its cause. *)
Theorem call_decided k later method path world c (r := live k later method path world c) :
  match maxRetries k with
  | O => trips r = 0%nat /\ value r = Failed None (mkCallError path (RetriesExhausted "unknown error") 0)
  | S n => exists j, (j <= n)%nat /\ (forall m, (m < j)%nat -> transient method (world m) = true) /\ (transient method (world j) = false \/ j = n)
      /\ match world j with
         | Response code rd => (value r, miss r, cacheAfter r) = readResponse k later method path code rd c /\ trips r = S j /\ observedCode r = Some code
         | NetError cancelled msg => value r = Failed None (mkCallError path (if cancelled then Aborted else RetriesExhausted msg) 0) /\ trips r = S j /\ observedCode r = Some 0
         | Cancelled => value r = Failed None (mkCallError path Aborted 0) /\ trips r = j /\ observedCode r = Some 0
         | Malformed msg => value r = Failed None (mkCallError path (BadRequest msg) 0) /\ trips r = j /\ observedCode r = Some 0
         end
  end.
Proof.
  unfold r, live. destruct (maxRetries k) as [|n]; [done|]. destruct (first_decisive (fun m => transient method (world m)) n) as (j & Hj & Hm & Hl).
  exists j. split; [done|]. split; [done|]. split; [done|]. rewrite (attempts_decided method world (S n) j 0 "unknown error"); [|lia|exact Hm|destruct Hl; [by left|right; lia]].
  cbn [Nat.add]. destruct (world j) as [msg| |[] msg|code rd]; try done. cbn [decided]. pose proof (read_code k later method path code rd c) as Hc.
  destruct (readResponse k later method path code rd c) as [[v b] c']. cbn in *. by rewrite Hc.
Qed.

End Client.

(** A 200 that follows a 503 is fetched in two round trips and replayed in none; a POST to
    the same path still goes to the box. *)
Section Demo.
Let endpoints : gmap string string := {["firmware" := "api/core/firmware/status"]}.
Let decoder (path body : string) : string * option bool := (body, None).
Let world (i : nat) : attempt := if (i =? 0)%nat then Response 503 (Read "") else Response 200 (Read "{}").
Let client : config := mkClient 3 0.
Let path : string := "api/core/firmware/status".
Example replays_once :
  let s := session_after decoder id endpoints ∅ ∅ client [CacheTTL "firmware" (5 * Second); Call 0 0 "GET" path world] in
  let call now method := doWithContentType decoder id client now now method path world s.1 in
  let shape r := (trips r, observedCode r, hit r, value r) in
  (shape (call Second "GET"), shape (call Second "POST"), shape (call (5 * Second) "GET"))
  = ((0%nat, None, Some "body", Decoded "{}"),
     (1%nat, Some 503, None, Failed None (mkCallError path (ErrorBody "") 503)),
     (2%nat, Some 200, None, Decoded "{}")).
Proof. reflexivity. Qed.
End Demo.

End ApiClient.
