(* ===== verification/FlowLog.v ===== *)
(** * Flow records as log records ([flow/logemit.go], [logship/flowlog/flowlog.go])

    The attributes and the body of a flow record's log, and the bridge that ships one
    per record, within a budget for each minute. *)

From stdpp Require Import base decidable list gmap strings pretty.
From Stdlib Require Import ZArith Lia Ascii.
From S2P Require Import Prelude Netip Order Record GoStrings LogQueue OtlpSink GoTime Envelope Filterlog Registry.
Import Queue GoTime Registry.

Module FlowLog.

(** ** Rendering *)

Definition when (b : bool) (v : string) : option string := if b then Some v else None.
Definition nonempty (s : string) : option string := when (negb (str_empty s)) s.
Definition flag (b : bool) : option string := when b "true".
Definition nonzero (z : Z) : option string := when (negb (z =? 0)) (Itoa z).

Definition tcpFlagNames : list string := ["FIN"; "SYN"; "RST"; "PSH"; "ACK"; "URG"; "ECE"; "CWR"].
(** The loop over the names; [i] is the bit. *)
Fixpoint flag_names (f : Z) (i : Z) (names : list string) (acc : string) : string :=
  match names with
  | [] => acc
  | name :: names =>
      flag_names f (i + 1) names
        (if Z.land f (Z.shiftl 1 i) =? 0 then acc else (if str_empty acc then acc else acc +:+ ",") +:+ name)
  end.
Definition tcpFlagsString (f : Z) : string := if f =? 0 then "" else flag_names f 0 tcpFlagNames "".

Definition dscpStandardNames : list (Z * string) :=
  [(8, "CS1"); (16, "CS2"); (24, "CS3"); (32, "CS4"); (40, "CS5"); (48, "CS6"); (56, "CS7"); (10, "AF11"); (12, "AF12"); (14, "AF13");
   (18, "AF21"); (20, "AF22"); (22, "AF23"); (26, "AF31"); (28, "AF32"); (30, "AF33"); (34, "AF41"); (36, "AF42"); (38, "AF43"); (46, "EF")].
Definition dscpClass (d : Z) : string := default "" (snd <$> find (fun p => fst p =? d) dscpStandardNames).
Definition ecnStates : list string := [""; "ECT(1)"; "ECT(0)"; "CE"].
Definition ecnState (e : Z) : string := if zlen ecnStates <=? e then "" else nth (Z.to_nat e) ecnStates "".

(** The attributes a record may carry, in the order the code writes them, each written in
    one place. *)
Definition geoAttrs (prefix : string) (g : GeoEndpoint) : list (string * option string) :=
  [ (prefix +:+ ".geo.country", nonempty (Country g));
    (prefix +:+ ".geo.country_source", when (negb (str_empty (Country g))) (CountrySource g));
    (prefix +:+ ".geo.continent", nonempty (Continent g));
    (prefix +:+ ".geo.city", nonempty (City g));
    (prefix +:+ ".geo.region", nonempty (Region g));
    (prefix +:+ ".geo.city_source", when (negb (str_empty (City g)) || negb (str_empty (Region g))) (CitySource g));
    (prefix +:+ ".geo.asn", when (negb (ASN g =? 0)) ("AS" +:+ Itoa (ASN g)));
    (prefix +:+ ".geo.as_org", nonempty (ASOrg g));
    (prefix +:+ ".geo.zen_country", when (negb (str_empty (ZenCountry g)) && negb (str_eq (ZenCountry g) (Country g))) (ZenCountry g)) ].

(** An endpoint without any fact writes nothing, which [geoAttrs] tests first. *)
Lemma geoAttrs_empty prefix : Forall (fun p => snd p = None) (geoAttrs prefix zeroGeoEndpoint).
Proof. repeat constructor. Qed.

Definition endpoint (ip : string) (port : Z) : string := if port =? 0 then ip else ip +:+ ":" +:+ Itoa port.

Definition fields (r : Record_) : list (string * option string) :=
  [ ("src.ip", when (IsValid (SrcAddr r)) (addr_String (SrcAddr r)));
    ("dst.ip", when (IsValid (DstAddr r)) (addr_String (DstAddr r)));
    ("src.port", nonzero (SrcPort r));
    ("dst.port", nonzero (DstPort r));
    ("net.transport", when (negb (str_eq (transportName (Proto r)) "other") || negb (Proto r =? 0)) (transportName (Proto r)));
    ("flow.proto", Some (Itoa (Proto r)));
    ("flow.community_id", nonempty (CommunityIDOf r));
    ("flow.direction", when (negb (str_eq (Direction_String (rDirection r)) "unknown")) (Direction_String (rDirection r)));
    ("flow.interface", nonempty (interfaceLabel r));
    ("flow.in_interface", nonempty (Iface_Label (In r)));
    ("flow.out_interface", nonempty (Iface_Label (Out r)));
    ("flow.in_device", when (Unresolved (In r) && negb (str_empty (Device (In r)))) (Device (In r)));
    ("flow.out_device", when (Unresolved (Out r) && negb (str_empty (Device (Out r)))) (Device (Out r)));
    ("flow.vlan", nonempty (VLANID r));
    ("flow.action", nonempty (Verdict_String (rVerdict r)));
    ("flow.egress_corrected", flag (Corrected (Out r)));
    ("flow.vlan_subnet_attributed", flag (VLANSubnetAttributed (rRepairs r)));
    ("flow.policy_route_corrected", flag (PolicyRouteCorrected (rRepairs r)));
    ("flow.zen_bytes_are_payload", flag (ZenBytesArePayload (rRepairs r)));
    ("flow.window_partial", flag (WindowPartial (rRepairs r)));
    ("flow.fragments", when (1 <? Fragments r) (Itoa (Fragments r)));
    ("netflow.tcp_flags", when (negb (TCPFlags r =? 0)) (tcpFlagsString (TCPFlags r)));
    ("netflow.dscp", nonzero (DSCP r));
    ("netflow.dscp_class", when (negb (DSCP r =? 0) && negb (str_empty (dscpClass (DSCP r)))) (dscpClass (DSCP r)));
    ("netflow.ecn", when (negb (ECN r =? 0)) (ecnState (ECN r)));
    ("netflow.src_mask", when (Present (NF r)) (Itoa (SrcMask r)));
    ("netflow.dst_mask", when (Present (NF r)) (Itoa (DstMask r)));
    ("app.name", nonempty (AppName (rL7 r)));
    ("app.proto", nonempty (AppProto (rL7 r)));
    ("app.category", nonempty (AppCategory (rL7 r)));
    ("app.domain_category", nonempty (DomainCat (rL7 r)));
    ("zenarmor.encryption", nonempty (Encryption (rL7 r)));
    ("src.hostname", nonempty (SrcHostname (Enrich r)));
    ("dst.hostname", nonempty (DstHostname (Enrich r)));
    ("src.scope", nonempty (SrcScope (Enrich r)));
    ("dst.scope", nonempty (DstScope (Enrich r)));
    ("dst.service", nonempty (DstService (Enrich r)));
    ("dst.domain", nonempty (DstDomain (Enrich r))) ]
  ++ geoAttrs "src" (GeoSrc (Geo r)) ++ geoAttrs "dst" (GeoDst (Geo r))
  ++ [ ("flow.nf.bytes", when (Present (NF r)) (Itoa (Counters_Bytes (NF r))));
       ("flow.nf.packets", when (Present (NF r)) (Itoa (Counters_Packets (NF r))));
       ("flow.nf.tx_bytes", when (Present (NF r) && source_eqb (rSource r) SourceMerged) (Itoa (TxBytes (NF r))));
       ("flow.nf.rx_bytes", when (Present (NF r) && source_eqb (rSource r) SourceMerged) (Itoa (RxBytes (NF r))));
       ("flow.nf.tx_packets", when (Present (NF r) && source_eqb (rSource r) SourceMerged) (Itoa (TxPackets (NF r))));
       ("flow.nf.rx_packets", when (Present (NF r) && source_eqb (rSource r) SourceMerged) (Itoa (RxPackets (NF r))));
       ("flow.zen.bytes", when (Present (Zen r)) (Itoa (Counters_Bytes (Zen r))));
       ("flow.zen.packets", when (Present (Zen r)) (Itoa (Counters_Packets (Zen r)))) ].

(** [a[k] = v] for each attribute that is set. *)
Definition put_all (l : list (string * option string)) (a : gmap string string) : gmap string string :=
  fold_left (fun a p => match snd p with Some v => <[fst p := v]> a | None => a end) l a.
Definition LogAttributes (r : Record_) : gmap string string := put_all (fields r) ∅.

Definition LogBody (r : Record_) : string :=
  endpoint (addr_String (SrcAddr r)) (SrcPort r) +:+ " -> " +:+ endpoint (addr_String (DstAddr r)) (DstPort r)
  +:+ " " +:+ transportName (Proto r)
  +:+ (if str_empty (AppName (rL7 r)) then "" else " " +:+ AppName (rL7 r))
  +:+ (if str_empty (Verdict_String (rVerdict r)) then "" else " " +:+ Verdict_String (rVerdict r)).

Definition LogSeverityBlocked (r : Record_) : bool := match rVerdict r with VerdictBlock => true | _ => false end.

(** ** What an attribute says *)

Definition assoc (k : string) (l : list (string * option string)) : option string :=
  match find (fun p => str_eq (fst p) k) l with Some p => snd p | None => None end.

Lemma put_all_lookup l : NoDup (map fst l) -> forall a k, put_all l a !! k = match assoc k l with Some v => Some v | None => a !! k end.
Proof.
  induction l as [|[k' o] l IH]; intros Hn a k; cbn [map fst] in *; [done|]. apply NoDup_cons in Hn as [Hk Hn].
  unfold put_all in *. cbn [fold_left fst snd]. rewrite (IH Hn). unfold assoc. cbn [find fst]. destruct (str_eq k' k) eqn:E; bool_prop.
  - subst k'. assert (find (fun p => str_eq (fst p) k) l = None) as ->.
    { destruct (find _ l) as [p|] eqn:Ef; [|done]. apply find_some in Ef as [Hin He]. bool_prop. destruct Hk. apply list_elem_of_In. rewrite <- He. by apply in_map. }
    destruct o as [v|]; [by rewrite lookup_insert_eq|done].
  - destruct (find _ l) as [[]|]; cbn [snd]; destruct o; by rewrite ?lookup_insert_ne by done.
Qed.

Lemma fields_distinct r : NoDup (map fst (fields r)).
Proof. apply (bool_decide_unpack _). vm_compute. exact I. Qed.

Lemma LogAttributes_lookup r k : LogAttributes r !! k = assoc k (fields r).
Proof.
  unfold LogAttributes. rewrite put_all_lookup by apply fields_distinct. by destruct (assoc k (fields r)).
Qed.

Lemma when_inj b v b' v' : when b v = when b' v' -> b = b' /\ (b = true -> v = v').
Proof. destruct b, b'; cbn; try done. by intros [= ->]. Qed.
Lemma nonempty_inj s s' : nonempty s = nonempty s' -> s = s'.
Proof. destruct s, s'; cbn; congruence. Qed.
Lemma flag_inj b b' : flag b = flag b' -> b = b'.
Proof. by destruct b, b'. Qed.
Lemma Itoa_inj a b : 0 <= a -> 0 <= b -> Itoa a = Itoa b -> a = b.
Proof. intros Ha Hb E. unfold Itoa in E. apply (inj (pretty (A := N))) in E. lia. Qed.
Lemma nonzero_inj a b : 0 <= a -> 0 <= b -> nonzero a = nonzero b -> a = b.
Proof. intros Ha Hb [E Hv]%when_inj. destruct (Z.eqb_spec a 0), (Z.eqb_spec b 0); try done; [congruence|]. by apply Itoa_inj, Hv. Qed.

(** One spelling for each set of flags, and each marking of congestion. *)
Lemma flags_inj a b : 0 <= a < 256 -> 0 <= b < 256 -> when (negb (a =? 0)) (tcpFlagsString a) = when (negb (b =? 0)) (tcpFlagsString b) -> a = b.
Proof.
  intros Ha Hb E. assert (forall x, 0 <= x < 256 -> default "" (when (negb (x =? 0)) (tcpFlagsString x)) = tcpFlagsString x) as Hw.
  { intros x _. unfold tcpFlagsString. by destruct (x =? 0). }
  pose proof (f_equal (default "") E) as E'. rewrite !Hw in E' by done. clear E Hw.
  assert (forallb (fun x => forallb (fun y => implb (str_eq (tcpFlagsString x) (tcpFlagsString y)) (x =? y)) (map Z.of_nat (seq 0 256))) (map Z.of_nat (seq 0 256)) = true) as Hall by (vm_compute; done).
  assert (forall x, 0 <= x < 256 -> List.In x (map Z.of_nat (seq 0 256))) as Hin.
  { intros x Hx. apply in_map_iff. exists (Z.to_nat x). split; [lia|]. apply in_seq. lia. }
  rewrite forallb_forall in Hall. specialize (Hall a (Hin a Ha)). rewrite forallb_forall in Hall. specialize (Hall b (Hin b Hb)).
  rewrite E' in Hall. unfold str_eq in Hall. rewrite String.eqb_refl in Hall. by apply Z.eqb_eq in Hall.
Qed.

(** The value of an attribute, by its key. *)
Ltac attr_eq H k :=
  let E := fresh "E" in
  pose proof (f_equal (fun m => m !! k) H) as E; cbv beta in E; rewrite !LogAttributes_lookup in E;
  cbv [assoc fields geoAttrs app find fst snd str_eq String.eqb Ascii.eqb Bool.eqb String.append] in E.

Record log_ok (r : Record_) : Prop := {
  lo_nums : 0 <= SrcPort r /\ 0 <= DstPort r /\ 0 <= Proto r /\ 0 <= SrcMask r /\ 0 <= DstMask r /\ 0 <= DSCP r;
  lo_small : 0 <= TCPFlags r < 256 /\ 0 <= ECN r < 4;
  lo_counts : forall c, c = NF r \/ c = Zen r -> 0 <= TxBytes c /\ 0 <= RxBytes c /\ 0 <= TxPackets c /\ 0 <= RxPackets c }.

Lemma ecn_inj a b : 0 <= a < 4 -> 0 <= b < 4 -> when (negb (a =? 0)) (ecnState a) = when (negb (b =? 0)) (ecnState b) -> a = b.
Proof.
  intros Ha Hb E. assert (a = 0 \/ a = 1 \/ a = 2 \/ a = 3) as Ca by lia. assert (b = 0 \/ b = 1 \/ b = 2 \/ b = 3) as Cb by lia.
  destruct Ca as [-> | [-> | [-> | ->]]], Cb as [-> | [-> | [-> | ->]]]; done.
Qed.
Lemma present_count c c' (f : Counters -> Z) : when (Present c) (Itoa (f c)) = when (Present c') (Itoa (f c')) ->
  0 <= f c -> 0 <= f c' -> Present c = Present c' /\ (Present c = true -> f c = f c').
Proof. intros [E Hv]%when_inj H1 H2. split; [done|]. intros Hp. by apply Itoa_inj, Hv. Qed.
Lemma direction_inj a b : when (negb (str_eq (Direction_String a) "unknown")) (Direction_String a) = when (negb (str_eq (Direction_String b) "unknown")) (Direction_String b) -> a = b.
Proof. by destruct a, b. Qed.
Lemma verdict_inj a b : nonempty (Verdict_String a) = nonempty (Verdict_String b) -> a = b.
Proof. by destruct a, b. Qed.
Lemma counters_ext c c' : TxBytes c = TxBytes c' -> RxBytes c = RxBytes c' -> TxPackets c = TxPackets c' -> RxPackets c = RxPackets c' -> Present c = Present c' -> c = c'.
Proof. destruct c, c'. cbn. congruence. Qed.
Lemma total_range c : 0 <= Counters_Bytes c /\ 0 <= Counters_Packets c.
Proof. split; apply u64_range. Qed.

(** The conversation a record is about, as far as its log shows it. *)
Definition conversation (r : Record_) :=
  (when (IsValid (SrcAddr r)) (addr_String (SrcAddr r)), when (IsValid (DstAddr r)) (addr_String (DstAddr r)), SrcPort r, DstPort r, Proto r, CommunityIDOf r).
(** What the wire and the firewall said of it. *)
Definition marks (r : Record_) :=
  (rDirection r, rVerdict r, VLANID r, TCPFlags r, DSCP r, ECN r, Iface_Label (In r), Iface_Label (Out r), Corrected (Out r),
   (VLANSubnetAttributed (rRepairs r), PolicyRouteCorrected (rRepairs r), ZenBytesArePayload (rRepairs r), WindowPartial (rRepairs r))).

Lemma conversation_logged r r' : log_ok r -> log_ok r' -> LogAttributes r = LogAttributes r' -> conversation r = conversation r'.
Proof.
  intros [(?&?&?&_) _ _] [(?&?&?&_) _ _] Hlog. unfold conversation.
  attr_eq Hlog "src.ip". attr_eq Hlog "dst.ip". attr_eq Hlog "src.port". attr_eq Hlog "dst.port". attr_eq Hlog "flow.proto". attr_eq Hlog "flow.community_id".
  apply nonzero_inj in E1, E2; [|done..]. injection E3 as E3. apply Itoa_inj in E3; [|done..]. apply nonempty_inj in E4. congruence.
Qed.

Lemma marks_logged r r' : log_ok r -> log_ok r' -> LogAttributes r = LogAttributes r' -> marks r = marks r'.
Proof.
  intros [(_&_&_&_&_&?) [? ?] _] [(_&_&_&_&_&?) [? ?] _] Hlog. unfold marks.
  attr_eq Hlog "flow.direction". apply direction_inj in E as ->. attr_eq Hlog "flow.action". apply verdict_inj in E as ->.
  attr_eq Hlog "flow.vlan". apply nonempty_inj in E as ->. attr_eq Hlog "netflow.tcp_flags". apply flags_inj in E as ->; [|done..].
  attr_eq Hlog "netflow.dscp". apply nonzero_inj in E as ->; [|done..]. attr_eq Hlog "netflow.ecn". apply ecn_inj in E as ->; [|done..].
  attr_eq Hlog "flow.in_interface". apply nonempty_inj in E as ->. attr_eq Hlog "flow.out_interface". apply nonempty_inj in E as ->.
  attr_eq Hlog "flow.egress_corrected". apply flag_inj in E as ->. attr_eq Hlog "flow.vlan_subnet_attributed". apply flag_inj in E as ->.
  attr_eq Hlog "flow.policy_route_corrected". apply flag_inj in E as ->. attr_eq Hlog "flow.zen_bytes_are_payload". apply flag_inj in E as ->.
  attr_eq Hlog "flow.window_partial". apply flag_inj in E as ->. done.
Qed.

Lemma names_logged r r' : LogAttributes r = LogAttributes r' -> rL7 r = rL7 r' /\ Enrich r = Enrich r'.
Proof.
  intros Hlog. attr_eq Hlog "app.name". attr_eq Hlog "app.proto". attr_eq Hlog "app.category". attr_eq Hlog "app.domain_category". attr_eq Hlog "zenarmor.encryption".
  attr_eq Hlog "src.hostname". attr_eq Hlog "dst.hostname". attr_eq Hlog "src.scope". attr_eq Hlog "dst.scope". attr_eq Hlog "dst.service". attr_eq Hlog "dst.domain".
  apply nonempty_inj in E, E0, E1, E2, E3, E4, E5, E6, E7, E8, E9. clear Hlog. destruct (rL7 r), (rL7 r'), (Enrich r), (Enrich r'). cbn in *. by subst.
Qed.

(** Both sources' totals, and on a merged record the two directions. *)
Lemma counts_logged r r' : log_ok r -> log_ok r' -> LogAttributes r = LogAttributes r' ->
  (Present (NF r) = Present (NF r') /\ Present (Zen r) = Present (Zen r'))
  /\ (Present (NF r) = true -> (Counters_Bytes (NF r), Counters_Packets (NF r), SrcMask r, DstMask r)
                              = (Counters_Bytes (NF r'), Counters_Packets (NF r'), SrcMask r', DstMask r'))
  /\ (Present (Zen r) = true -> (Counters_Bytes (Zen r), Counters_Packets (Zen r)) = (Counters_Bytes (Zen r'), Counters_Packets (Zen r')))
  /\ (Present (NF r) = true -> rSource r = SourceMerged -> NF r = NF r').
Proof.
  intros [(_&_&_&?&?&_) _ Hc] [(_&_&_&?&?&_) _ Hc'] Hlog. destruct (Hc _ (or_introl eq_refl)) as (?&?&?&?), (Hc' _ (or_introl eq_refl)) as (?&?&?&?).
  pose proof (total_range (NF r)) as [? ?]. pose proof (total_range (NF r')) as [? ?]. pose proof (total_range (Zen r)) as [? ?]. pose proof (total_range (Zen r')) as [? ?].
  attr_eq Hlog "flow.nf.bytes". apply present_count in E as [Ep E]; [|done..]. attr_eq Hlog "flow.nf.packets". apply present_count in E0 as [_ E0]; [|done..].
  attr_eq Hlog "netflow.src_mask". apply when_inj in E1 as [_ E1]. attr_eq Hlog "netflow.dst_mask". apply when_inj in E2 as [_ E2].
  attr_eq Hlog "flow.zen.bytes". apply present_count in E3 as [Ez E3]; [|done..]. attr_eq Hlog "flow.zen.packets". apply present_count in E4 as [_ E4]; [|done..].
  split; [done|]. split; [|split].
  - intros Hp. specialize (E1 Hp). specialize (E2 Hp). apply Itoa_inj in E1, E2; [|assumption..]. by rewrite (E Hp), (E0 Hp), E1, E2.
  - intros Hp. by rewrite (E3 Hp), (E4 Hp).
  - intros Hp Hs. attr_eq Hlog "flow.nf.tx_bytes". attr_eq Hlog "flow.nf.rx_bytes". attr_eq Hlog "flow.nf.tx_packets". attr_eq Hlog "flow.nf.rx_packets".
    apply when_inj in E5 as [_ E5], E6 as [_ E6], E7 as [_ E7], E8 as [_ E8]. rewrite Hp, Hs in E5, E6, E7, E8. specialize (E5 eq_refl). specialize (E6 eq_refl). specialize (E7 eq_refl).
    specialize (E8 eq_refl). apply Itoa_inj in E5, E6, E7, E8; [|assumption..]. by apply counters_ext.
Qed.

(** A log tells records apart.  Two flow records with fields in range whose
    attributes are the same agree on the conversation (addresses as text, ports, protocol,
    community id), on every mark (direction, verdict, VLAN, TCP flags, DSCP, ECN,
    interfaces, repairs), on the application and enrichment, on which sources counted and
    on their totals, and on a merged record on the volume of each direction. *)
Theorem log_separates r r' : log_ok r -> log_ok r' -> LogAttributes r = LogAttributes r' ->
  conversation r = conversation r' /\ marks r = marks r' /\ (rL7 r = rL7 r' /\ Enrich r = Enrich r')
  /\ (Present (NF r) = Present (NF r') /\ Present (Zen r) = Present (Zen r'))
  /\ (Present (NF r) = true -> (Counters_Bytes (NF r), Counters_Packets (NF r), SrcMask r, DstMask r)
                              = (Counters_Bytes (NF r'), Counters_Packets (NF r'), SrcMask r', DstMask r'))
  /\ (Present (Zen r) = true -> (Counters_Bytes (Zen r), Counters_Packets (Zen r)) = (Counters_Bytes (Zen r'), Counters_Packets (Zen r')))
  /\ (Present (NF r) = true -> rSource r = SourceMerged -> NF r = NF r').
Proof.
  intros H1 H2 H. split; [by apply conversation_logged|]. split; [by apply marks_logged|]. split; [by apply names_logged|]. by apply counts_logged.
Qed.

Definition sample_flow (at_ : Time) : Record_ :=
  mkRecord SourceMerged 1 2 at_ 6 (Addr4 167772161) (Addr4 134744072) 50000 443 "1:x" (mkCounters 10 20 1 2 true) (mkCounters 9 18 1 2 true) 2 18 46 2 24 0
    zeroIface zeroIface DirectionOutbound "" VerdictPass zeroL7 zeroEnrichment zeroRepairs zeroGeoInfo.
Lemma log_separates_witness : LogAttributes (sample_flow 3) = LogAttributes (sample_flow 4) /\ marks (sample_flow 3) = marks (sample_flow 4).
Proof.
  assert (forall t, log_ok (sample_flow t)) as Hok.
  { intros t. split; [cbn; lia|cbn; lia|]. intros c [-> | ->]; cbn; lia. }
  split; [reflexivity|]. apply (log_separates (sample_flow 3) (sample_flow 4) (Hok 3) (Hok 4) eq_refl).
Defined.

(** ** The bridge *)

Definition subsystem : string := "flow".
Definition budgetWindow : Duration := Minute.
(** [--flow.log-mode]: [true] is per flow. *)
Record budget := mkBudget { bmax : Z; window : Duration; curWin : Z; bcount : Z }.
#[export] Instance eta_budget : Eta budget := fun b => mkBudget (bmax b) (window b) (curWin b) (bcount b).
(** [bound] tells whether [emit] is. *)
Record Bridge := mkBridge { mode : bool; bbudget : option budget; bound : bool; emitted : Z; truncated : Z; bdropped : Z }.
#[export] Instance eta_Bridge : Eta Bridge := fun b => mkBridge (mode b) (bbudget b) (bound b) (emitted b) (truncated b) (bdropped b).
Definition New : Bridge := mkBridge false None false 0 0 0.

Definition LogModePerFlow : string := "per_flow".
Definition Configure (m : string) (maxPerWindow : Z) (b : Bridge) : Bridge :=
  b <| mode := str_eq m LogModePerFlow |> <| bbudget := Some (mkBudget maxPerWindow budgetWindow 0 0) |>.
(** [Run], up to its wait, and [Unbind]. *)
Definition Run (b : Bridge) : Bridge := b <| bound := true |>.
Definition Unbind (b : Bridge) : Bridge := b <| bound := false |>.

Definition allow (now : Time) (bu : budget) : bool * budget :=
  if bmax bu <=? 0 then (true, bu)
  else
    let w := Z.quot (UnixNano now) (window bu) in
    let bu := if w =? curWin bu then bu else bu <| curWin := w |> <| bcount := 0 |> in
    if bmax bu <=? bcount bu then (false, bu) else (true, bu <| bcount ::= fun n => n + 1 |>).

Definition flowTimestamp (r : Record_) : Time :=
  if negb (IsZero (End_ r)) then End_ r else if negb (IsZero (Start r)) then Start r else if negb (IsZero (Observed r)) then Observed r else zero_time.

Definition interval (r : Record_) : list (string * option string) :=
  [ ("flow.start_time", when (negb (IsZero (Start r))) (FormatRFC3339Nano (Start r)));
    ("flow.end_time", when (negb (IsZero (End_ r))) (FormatRFC3339Nano (End_ r)));
    ("flow.duration_ms", when (negb (IsZero (Start r)) && negb (IsZero (End_ r)) && (0 <=? time_Sub (End_ r) (Start r)))
                           (FormatInt (Z.quot (time_Sub (End_ r) (Start r)) Millisecond))) ].
Definition addIntervalAttributes (attrs : gmap string string) (r : Record_) : gmap string string := put_all (interval r) attrs.

Definition log_record (r : Record_) : LogRecord :=
  mkLog (flowTimestamp r) (LogBody r) (addIntervalAttributes (<[Otlp.AttrSubsystem := subsystem]> (LogAttributes r)) r)
    (if LogSeverityBlocked r then SeverityWarn else SeverityInfo) (Source_String (rSource r)).

(** What is emitted, if anything. *)
Definition Emit (now : Time) (r : Record_) (b : Bridge) : option LogRecord * Bridge :=
  if negb (mode b) then (None, b)
  else if negb (bound b) then (None, b <| bdropped ::= fun n => add64 n 1 |>)
  else
    let '(ok, bu) := match bbudget b with Some bu => let '(ok, bu) := allow now bu in (ok, Some bu) | None => (true, None) end in
    let b := b <| bbudget := bu |> in
    if negb ok then (None, b <| truncated ::= fun n => add64 n 1 |>)
    else (Some (log_record r), b <| emitted ::= fun n => add64 n 1 |>).

(** *** Histories *)

Inductive bop := BConfigure (m : string) (maxPerWindow : Z) | BRun | BUnbind | BEmit (now : Time) (r : Record_).
(** The bridge after an operation, what it shipped, and the fate of the record. *)
Inductive bfate := Shipped (rec : LogRecord) | Truncated | Dropped | Silent.
Definition bstep (o : bop) (b : Bridge) : option bfate * Bridge :=
  match o with
  | BConfigure m n => (None, Configure m n b)
  | BRun => (None, Run b)
  | BUnbind => (None, Unbind b)
  | BEmit now r =>
      let '(out, b') := Emit now r b in
      (Some (match out with
             | Some rec => Shipped rec
             | None => if negb (mode b) then Silent else if negb (bound b) then Dropped else Truncated
             end), b')
  end.
Fixpoint brun (l : list bop) (b : Bridge) : list bfate * Bridge :=
  match l with
  | [] => ([], b)
  | o :: l => let '(x, b) := bstep o b in let '(xs, b) := brun l b in (option_list x ++ xs, b)
  end.

Definition is_shipped (f : bfate) : bool := match f with Shipped _ => true | _ => false end.
Definition is_truncated (f : bfate) : bool := match f with Truncated => true | _ => false end.
Definition is_dropped (f : bfate) : bool := match f with Dropped => true | _ => false end.
Definition count (p : bfate -> bool) (l : list bfate) : Z := zlen (List.filter p l).

Lemma count_app p a b : count p (a ++ b) = count p a + count p b.
Proof. unfold count, zlen. rewrite List.filter_app, length_app. lia. Qed.
Lemma u64_add a n : add64 (u64 a) n = u64 (a + n).
Proof. unfold add64, u64. by rewrite Zplus_mod_idemp_l. Qed.

(** What one operation does to the counters. *)
Lemma bstep_counts o b : let '(x, b') := bstep o b in
  emitted b' = (if existsb is_shipped (option_list x) then add64 (emitted b) 1 else emitted b)
  /\ truncated b' = (if existsb is_truncated (option_list x) then add64 (truncated b) 1 else truncated b)
  /\ bdropped b' = (if existsb is_dropped (option_list x) then add64 (bdropped b) 1 else bdropped b).
Proof.
  destruct o as [m n| | |now r]; try done. cbn [bstep]. unfold Emit. destruct (mode b) eqn:Em; cbn [negb]; [|done].
  destruct (bound b) eqn:Eb; cbn [negb]; [|done]. destruct (match bbudget b with Some bu => _ | None => _ end) as [[] bu]; by cbn.
Qed.

Lemma brun_counts l : forall b n1 n2 n3, emitted b = u64 n1 -> truncated b = u64 n2 -> bdropped b = u64 n3 -> let '(xs, b') := brun l b in
  emitted b' = u64 (n1 + count is_shipped xs) /\ truncated b' = u64 (n2 + count is_truncated xs) /\ bdropped b' = u64 (n3 + count is_dropped xs).
Proof.
  induction l as [|o l IH]; intros b n1 n2 n3 H1 H2 H3; cbn [brun]; [unfold count; cbn; by rewrite !Z.add_0_r|].
  pose proof (bstep_counts o b) as Hs. destruct (bstep o b) as [x b1]. destruct Hs as (S1 & S2 & S3). rewrite H1, u64_add in S1. rewrite H2, u64_add in S2. rewrite H3, u64_add in S3.
  assert (forall (p : bfate -> bool) n (v : Z), v = (if existsb p (option_list x) then u64 (n + 1) else u64 n) -> v = u64 (n + count p (option_list x))) as Hc.
  { intros p n v ->. destruct x as [f|]; cbn; unfold count; cbn; [destruct (p f)|]; cbn; by rewrite ?Z.add_0_r. }
  apply Hc in S1, S2, S3. pose proof (IH b1 _ _ _ S1 S2 S3) as Hi. destruct (brun l b1) as [xs b2]. rewrite !count_app, !Z.add_assoc. exact Hi.
Qed.

(** The budget's window never changes. *)
Definition windowed (b : Bridge) : Prop := match bbudget b with Some bu => window bu = budgetWindow | None => True end.
Lemma allow_window now bu : window (allow now bu).2 = window bu.
Proof. unfold allow. destruct (_ <=? 0); [done|]. cbv zeta. destruct (Z.quot _ _ =? _); by destruct (_ <=? _). Qed.
Lemma bstep_windowed o b : windowed b -> windowed (bstep o b).2.
Proof.
  destruct o as [m n| | |now r]; try done. cbn [bstep]. unfold Emit, windowed. intros H. destruct (mode b); cbn [negb]; [|done]. destruct (bound b); cbn [negb]; [|done].
  destruct (bbudget b) as [bu|]; [|done]. pose proof (allow_window now bu) as Hw. destruct (allow now bu) as [[] bu']; cbn in *; congruence.
Qed.
Lemma brun_windowed l : forall b, windowed b -> windowed (brun l b).2.
Proof.
  induction l as [|o l IH]; intros b H; [done|]. cbn [brun]. pose proof (bstep_windowed o b H) as H1. destruct (bstep o b) as [x b1]. specialize (IH b1 H1).
  by destruct (brun l b1).
Qed.

(** What a window has room for. *)
Definition room (w : Z) (b : Bridge) (n : nat) : nat :=
  match bbudget b with
  | Some bu => if bmax bu <=? 0 then n else Nat.min n (Z.to_nat (bmax bu - if w =? curWin bu then bcount bu else 0))
  | None => n
  end.
Definition emits (rs : list (Time * Record_)) : list bop := map (fun p => BEmit p.1 p.2) rs.
Definition expected (w : Z) (b : Bridge) (rs : list (Time * Record_)) : list bfate :=
  if negb (mode b) then replicate (length rs) Silent
  else if negb (bound b) then replicate (length rs) Dropped
  else map (fun p => Shipped (log_record p.2)) (take (room w b (length rs)) rs) ++ replicate (length rs - room w b (length rs)) Truncated.

(** One record within the window [w]. *)
Lemma emit_one w now r b n : windowed b -> Z.quot (UnixNano now) budgetWindow = w -> mode b = true -> bound b = true ->
  let '(x, b') := bstep (BEmit now r) b in
  mode b' = true /\ bound b' = true
  /\ match room w b (S n) with O => x = Some Truncated /\ room w b' n = O | S k => x = Some (Shipped (log_record r)) /\ room w b' n = k end.
Proof.
  intros Hw Hq Hm Hb. cbn [bstep]. unfold Emit, windowed, room in *. rewrite Hm, Hb. cbn [negb]. destruct (bbudget b) as [bu|] eqn:Ebu; [|by rewrite ?Hm, ?Hb].
  unfold allow. destruct (Z.leb_spec (bmax bu) 0) as [Hn|Hn].
  { cbn. rewrite Hm, Hb. split; [done|]. split; [done|]. split; [done|]. by destruct (Z.leb_spec (bmax bu) 0); [|lia]. }
  rewrite Hw, Hq. destruct (Z.eqb_spec w (curWin bu)) as [->|Hne]; unfold update; cbn [bmax bcount].
  - destruct (Z.leb_spec (bmax bu) (bcount bu)) as [Hf|Hf].
    + replace (Z.to_nat (bmax bu - bcount bu)) with 0%nat by lia. rewrite Nat.min_0_r. cbn. split; [done|]. split; [done|]. split; [done|].
      destruct (Z.leb_spec (bmax bu) 0); [lia|]. rewrite Z.eqb_refl. lia.
    + replace (Z.to_nat (bmax bu - bcount bu)) with (S (Z.to_nat (bmax bu - bcount bu - 1))) by lia. cbn. split; [done|]. split; [done|]. split; [done|].
      destruct (Z.leb_spec (bmax bu) 0); [lia|]. rewrite Z.eqb_refl. lia.
  - destruct (Z.leb_spec (bmax bu) 0); [lia|]. replace (Z.to_nat (bmax bu - 0)) with (S (Z.to_nat (bmax bu - 1))) by lia. cbn. split; [done|]. split; [done|]. split; [done|].
    destruct (Z.leb_spec (bmax bu) 0); [lia|]. rewrite Z.eqb_refl. lia.
Qed.

Lemma burst w rs : Forall (fun p => Z.quot (UnixNano p.1) budgetWindow = w) rs -> forall b, windowed b -> (brun (emits rs) b).1 = expected w b rs.
Proof.
  induction 1 as [|[now r] rs Hq Hrs IH]; intros b Hb.
  { unfold expected. cbn. destruct (mode b), (bound b); cbn; rewrite ?take_nil; done. }
  cbn [emits map brun fst snd]. pose proof (bstep_windowed (BEmit now r) b Hb) as Hw. unfold expected. destruct (mode b) eqn:Em; cbn [negb].
  2: { cbn [bstep]. unfold Emit. rewrite Em. cbn [negb]. specialize (IH b Hb). fold (emits rs). destruct (brun (emits rs) b) as [xs b']. cbn in *. rewrite IH. unfold expected. by rewrite Em. }
  destruct (bound b) eqn:Eb; cbn [negb].
  2: { cbn [bstep]. unfold Emit. rewrite Em, Eb. cbn [negb]. set (b1 := b <| bdropped ::= _ |>). specialize (IH b1 Hb). fold (emits rs). destruct (brun (emits rs) b1) as [xs b'].
       cbn in *. rewrite IH. unfold expected, b1, update. cbn. by rewrite Em, Eb. }
  cbn [fst] in Hq. pose proof (emit_one w now r b (length rs) Hb Hq Em Eb) as H1. destruct (bstep (BEmit now r) b) as [x b1]. destruct H1 as (Em1 & Eb1 & Hx).
  cbn [snd] in Hw. specialize (IH b1 Hw). fold (emits rs). destruct (brun (emits rs) b1) as [xs b2]. cbn [fst] in *. unfold expected in IH. rewrite Em1, Eb1 in IH. cbn [negb] in IH.
  cbn [length]. destruct (room w b (S (length rs))) as [|k]; destruct Hx as [-> Hk]; rewrite Hk in IH; rewrite IH; [|done]. by rewrite Nat.sub_0_r.
Qed.

(** The flow log bridge.  After any history: each record given to the bridge while
    its mode is on is shipped, truncated or dropped, and the three counters count them
    modulo 2^64; a burst of records within one window is shipped in order until the
    window's budget is used up and only then truncated, none is skipped before. *)
Theorem bridge_exact l (b := (brun l New).2) (fates := (brun l New).1) :
  emitted b = u64 (count is_shipped fates) /\ truncated b = u64 (count is_truncated fates) /\ bdropped b = u64 (count is_dropped fates)
  /\ forall w rs, Forall (fun p => Z.quot (UnixNano p.1) budgetWindow = w) rs -> (brun (emits rs) b).1 = expected w b rs.
Proof.
  pose proof (brun_counts l New 0 0 0 eq_refl eq_refl eq_refl) as Hc. pose proof (brun_windowed l New I) as Hw. unfold b, fates. destruct (brun l New) as [xs b']. cbn [fst snd] in *.
  destruct Hc as (H1 & H2 & H3). split; [done|]. split; [done|]. split; [done|]. intros w rs Hrs. by apply burst.
Qed.

End FlowLog.
