(* ===== verification/Zenarmor.v ===== *)
(** * Zenarmor documents ([logship/zenarmor/parse.go], [flowadapt.go], [derive.go],
      [devicecategory.go], [self.go])

    A document of the reporting stream: its log record, its flow record, what it counts
    as, and whether it is about the stream itself. *)

From stdpp Require Import base decidable list gmap strings.
From Stdlib Require Import ZArith Lia Ascii.
From S2P Require Import Prelude Netip Order Record Geo DnsCache CommunityId GoStrings Enrich LogQueue OtlpSink Envelope Filterlog Registry Parsers.
Import Queue Registry.

Module Zenarmor.

(** ** Documents *)

Record zenGeo := mkZenGeo {
  gTimezone : string; ContinentCode : string; CityName : string; CountryName : string; CountryCode2 : string; CountryCode3 : string;
  RegionName : string; gASN : string }.
Record zenDevice := mkZenDevice { dID : string; dName : string; dCategory : string; dVendor : string; dOS : string; dOSVer : string }.
Record zenAlertInfo := mkAlertInfo { aSignature : string; aCategory : string; aSID : string; aSeverity : string; aAction : string }.
Record zenDoc := mkZenDoc {
  StartTime : Z; EndTime : Z; TransportProto : string; Interface : string; zVLANID : string; zDirection : string; ConnUUID : string;
  zCommunityID : string; zEncryption : string; IsBlocked : option Z;
  SrcIP : string; zSrcPort : Z; zSrcHostname : string; SrcHWAddr : string; SrcUsername : string;
  DstIP : string; zDstPort : Z; zDstHostname : string; DstHWAddr : string; DstUsername : string;
  SrcGeoIP : option zenGeo; DstGeoIP : option zenGeo; zDevice : option zenDevice;
  zAppName : string; zAppProto : string; zAppCategory : string;
  SrcNPackets : Z; SrcNBytes : Z; SrcPBytes : Z; DstNPackets : Z; DstNBytes : Z; DstPBytes : Z;
  Query : string; QType : string; QClass : string; Answers : string; TotalAnswers : Z; RespCode : option Z; DomainCategories : list string;
  ServerName : string; JA3 : string; zCategory : string;
  Method : string; zHost : string; zURI : string; UserAgent : string; zVersion : string; Referrer : string; StatusMsg : string;
  ReqBodyLen : Z; RspBodyLen : Z;
  AlertCategory : string; AlertSeverity : string; AlertInfo : option zenAlertInfo;
  SIPMethod : string; SIPURI : string; SIPStatus : string }.

Definition indexFamilies : gmap string string := list_to_map
  [("conn", "flow"); ("dns", "dns"); ("tls", "tls"); ("http", "web"); ("alert", "ids"); ("sip", "voip")].

Definition zenOther : string := "other".
Definition clampRCode (code : Z) : string :=
  if (0 <=? code) && (code <=? 15) then Itoa code else if code =? -1 then "-1" else zenOther.
Definition clampAlertSeverity (v : string) : string :=
  if str_empty v then "" else if existsb (str_eq v) ["1"; "2"; "3"; "4"] then v else zenOther.
Definition zenDeviceCategories : list string := ["camera"; "iot"; "laptop"; "mobile"; "multimedia"; "network"; "other"; "printer"; "server"].
Definition clampDeviceCategory (v : string) : string :=
  if str_empty v then "" else if existsb (str_eq v) zenDeviceCategories then v else zenOther.

Definition familyFor (index : string) : string :=
  let tok := Parsers.TrimSuffix index "_write" in
  let tok := match LastIndex tok "_" with Some i => str_drop (i + 1) tok | None => tok end in
  let tok := match LastIndex tok "-" with Some (S i) => str_take (S i) tok | _ => tok end in
  default "" (indexFamilies !! tok).

(** [strings.ToLower], as far as a comparison with an ASCII word can tell: besides the
    ASCII capitals, the dotted capital I (bytes C4 B0) and the Kelvin sign (E2 84 AA) have
    an ASCII lower case. *)
Fixpoint ToLower (s : string) : string :=
  match s with
  | String c1 (String c2 ((String c3 r3) as r2) as r1) =>
      if (nat_of_ascii c1 =? 196)%nat && (nat_of_ascii c2 =? 176)%nat then String "i" (ToLower r2)
      else if (nat_of_ascii c1 =? 226)%nat && (nat_of_ascii c2 =? 132)%nat && (nat_of_ascii c3 =? 170)%nat then String "k" (ToLower r3)
      else String (Enrich.lower c1) (ToLower r1)
  | String c1 (String c2 EmptyString as r1) =>
      if (nat_of_ascii c1 =? 196)%nat && (nat_of_ascii c2 =? 176)%nat then "i"
      else String (Enrich.lower c1) (ToLower r1)
  | String c1 EmptyString => String (Enrich.lower c1) ""
  | EmptyString => ""
  end.

(** ** The log record *)

Definition UnixMilli (ms : Z) : Time := unix_epoch + ms * Millisecond.
Definition timestamp (d : zenDoc) : Time :=
  let ms := if EndTime d =? 0 then StartTime d else EndTime d in
  if ms =? 0 then zero_time else UnixMilli ms.

(** [set] writes what is not empty, [setInt] what is not zero. *)
Definition int_ (v : Z) : string := if v =? 0 then "" else FormatInt v.
Definition setGeo (prefix : string) (g : option zenGeo) : list (string * string) :=
  match g with
  | None => []
  | Some g =>
      [(prefix +:+ ".country_code2", CountryCode2 g); (prefix +:+ ".country_code3", CountryCode3 g); (prefix +:+ ".country_name", CountryName g);
       (prefix +:+ ".city_name", CityName g); (prefix +:+ ".continent_code", ContinentCode g); (prefix +:+ ".region_name", RegionName g);
       (prefix +:+ ".timezone", gTimezone g); (prefix +:+ ".asn", if str_eq (gASN g) "0" then "" else gASN g)]
  end.

Definition family_attrs (family : string) (d : zenDoc) : list (string * string) :=
  if str_eq family "flow" then
    [("app_name", zAppName d); ("app_proto", zAppProto d); ("app_category", zAppCategory d);
     ("src_npackets", int_ (SrcNPackets d)); ("src_nbytes", int_ (SrcNBytes d)); ("dst_npackets", int_ (DstNPackets d)); ("dst_nbytes", int_ (DstNBytes d));
     ("src_pbytes", int_ (SrcPBytes d)); ("dst_pbytes", int_ (DstPBytes d))]
  else if str_eq family "dns" then
    [("query", Query d); ("qtype", QType d); ("qclass", QClass d); ("answers", Answers d); ("total_answers", int_ (TotalAnswers d))]
    ++ match RespCode d with Some c => [("rcode", clampRCode c)] | None => [] end
    ++ match DomainCategories d with c :: _ => [("domain_category", c)] | [] => [] end
  else if str_eq family "tls" then [("server_name", ServerName d); ("ja3", JA3 d); ("domain_category", zCategory d)]
  else if str_eq family "web" then
    [("method", Method d); ("host", zHost d); ("uri", zURI d); ("user_agent", UserAgent d); ("http.version", zVersion d); ("referrer", Referrer d);
     ("domain_category", zCategory d); ("http.status_code", StatusMsg d); ("req_body_len", int_ (ReqBodyLen d)); ("rsp_body_len", int_ (RspBodyLen d))]
  else if str_eq family "ids" then
    [("alert_category", AlertCategory d); ("alert_severity", clampAlertSeverity (AlertSeverity d))]
    ++ match AlertInfo d with
       | Some i => [("alertinfo.signature", aSignature i); ("alertinfo.category", aCategory i); ("alertinfo.sid", aSID i);
                    ("alertinfo.severity", aSeverity i); ("alertinfo.action", aAction i)]
       | None => []
       end
  else if str_eq family "voip" then [("sip_method", SIPMethod d); ("sip_uri", SIPURI d); ("sip_status", SIPStatus d)]
  else [].

Definition enrich_attrs (d : zenDoc) (snap : option Enrich.Snapshot) : list (string * string) :=
  match snap with
  | None => []
  | Some snap =>
      match Enrich.InterfaceName snap (Interface d) with Some name => [("interface.name", name); (Otlp.AttrInterface, name)] | None => [] end
      ++ (if str_empty (SrcIP d) then [] else [("src.scope", Enrich.Scope snap (SrcIP d))])
      ++ (if str_empty (DstIP d) then [] else [("dst.scope", Enrich.Scope snap (DstIP d))])
      ++ (if zDstPort d =? 0 then []
          else match Enrich.ServiceName (FormatInt (zDstPort d)) (ToLower (TransportProto d)) with Some svc => [("dst.service", svc)] | None => [] end)
  end.

Definition action_of (d : zenDoc) : string :=
  match IsBlocked d with Some 0 => "pass" | Some 1 => "block" | _ => "" end.

Definition doc_attrs (family : string) (d : zenDoc) (snap : option Enrich.Snapshot) : list (string * string) :=
  [(Otlp.AttrSubsystem, family); (Otlp.AttrAction, action_of d);
   ("transport_proto", TransportProto d); ("interface", Interface d); ("vlanid", zVLANID d); ("direction", zDirection d); ("conn_uuid", ConnUUID d);
   ("community_id", zCommunityID d); ("encryption", zEncryption d);
   ("ip_src_saddr", SrcIP d); ("ip_dst_saddr", DstIP d); ("ip_src_port", int_ (zSrcPort d)); ("ip_dst_port", int_ (zDstPort d));
   ("src_hostname", zSrcHostname d); ("dst_hostname", zDstHostname d); ("src_hwaddr", SrcHWAddr d); ("dst_hwaddr", DstHWAddr d);
   ("src_username", SrcUsername d); ("dst_username", DstUsername d)]
  ++ setGeo "src_geoip" (SrcGeoIP d) ++ setGeo "dst_geoip" (DstGeoIP d)
  ++ match zDevice d with
     | Some v => [("device.id", dID v); ("device.name", dName v); ("device.category", dCategory v);
                  (Otlp.AttrDeviceCategory, clampDeviceCategory (dCategory v)); ("device.vendor", dVendor v); ("device.os", dOS v); ("device.osver", dOSVer v)]
     | None => []
     end
  ++ family_attrs family d ++ enrich_attrs d snap.

Definition put_attrs (l : list (string * string)) : gmap string string := fold_left Filterlog.set l ∅.

Section Parse.
(** The JSON decoder, with the values that are strings or arrays or numbers as text. *)
Variable decode : string -> option zenDoc.

(** The record ships whether or not the document decodes. *)
Definition parseDocFull (family doc : string) (snap : option Enrich.Snapshot) : LogRecord * option zenDoc :=
  match decode doc with
  | None => (mkLog zero_time doc ∅ SeverityInfo "", None)
  | Some d =>
      (mkLog (timestamp d) doc (put_attrs (doc_attrs family d snap))
         (if str_eq (action_of d) "block" || str_eq family "ids" then SeverityWarn else SeverityInfo) "", Some d)
  end.
End Parse.

(** ** The flow record *)

Definition vlanDevice (dev vlanID : string) : string :=
  if str_empty dev || str_empty vlanID || str_eq vlanID "0" then dev else dev +:+ "_vlan" +:+ vlanID.
Definition nonNeg (v : Z) : Z := if v <? 0 then 0 else v.
Definition zenBytes (nbytes pbytes : Z) : Z * bool :=
  if 0 <? nonNeg nbytes then (nonNeg nbytes, false) else if 0 <? nonNeg pbytes then (nonNeg pbytes, true) else (0, false).
Definition clampPort (p : Z) : Z := if (p <? 0) || (65535 <? p) then 0 else p.

Definition directionOf (dst : Addr) (srcScope dstScope zenDirection : string) : Direction :=
  if IsMulticast dst || IsLinkLocalUnicast dst || IsLinkLocalMulticast dst || IsUnspecified dst then DirectionInternal
  else if negb (str_empty srcScope) && negb (str_empty dstScope) && negb (str_eq srcScope "remote") && negb (str_eq dstScope "remote") then DirectionInternal
  else if str_eq (ToLower zenDirection) "in" then DirectionInbound
  else if str_eq (ToLower zenDirection) "out" then DirectionOutbound
  else DirectionUnknown.

Definition protoNumber (s : string) : Z :=
  let s := ToLower s in
  if existsb (str_eq s) ["tcp"; "tcp6"] then 6
  else if existsb (str_eq s) ["udp"; "udp6"] then 17
  else if str_eq s "icmp" then 1
  else if existsb (str_eq s) ["icmp6"; "icmpv6"; "ipv6-icmp"] then 58
  else if str_eq s "gre" then 47
  else if str_eq s "esp" then 50
  else if str_eq s "sctp" then 132
  else 0.

Definition zenGeoInto (dst : GeoEndpoint) (g : option zenGeo) : GeoEndpoint :=
  match g with
  | None => dst
  | Some g => dst <| ZenCountry := CountryCode2 g |> <| ZenContinent := ContinentCode g |> <| ZenCity := CityName g |> <| ZenRegion := RegionName g |>
  end.

(** What the interface table and the scopes add. *)
Definition enrichment (d : zenDoc) (snap : option Enrich.Snapshot) (r : Record_) : Record_ :=
  let cold := negb (str_empty (Device (In r))) && match snap with None => true | Some s => zsize (Enrich.IfaceNames s) =? 0 end in
  let r := if cold then r <| In ::= fun i => i <| Unresolved := true |> |> else r in
  match snap with
  | None => r
  | Some snap =>
      let r := match Enrich.InterfaceName snap (Device (In r)) with
               | Some name => r <| In ::= fun i => i <| Name := name |> <| Unresolved := false |> |>
               | None => r
               end in
      r <| Enrich := mkEnrichment (zSrcHostname d) (zDstHostname d) (Enrich.Scope snap (SrcIP d)) (Enrich.Scope snap (DstIP d))
                       (if zDstPort d =? 0 then DstService (Enrich r)
                        else default (DstService (Enrich r)) (Enrich.ServiceName (FormatInt (zDstPort d)) (ToLower (TransportProto d))))
                       (DstDomain (Enrich r)) |>
  end.

(** [flowFromDoc]; the lookup and the geolocation keep their own counters. *)
Definition flowFromDoc (family : string) (d : option zenDoc) (snap : option Enrich.Snapshot) (cache : option Dns.DNSCache) (geo : option GeoEnricher) (now : Time)
  : option Record_ * option Dns.DNSCache * option GeoEnricher :=
  let none := (None, cache, geo) in
  if negb (str_eq family "flow") then none
  else
    match d with
    | None => none
    | Some d =>
        match ParseAddr (SrcIP d), ParseAddr (DstIP d) with
        | Some src, Some dst =>
            let src := Unmap src in let dst := Unmap dst in
            let '(txBytes, txFell) := zenBytes (SrcNBytes d) (SrcPBytes d) in
            let '(rxBytes, rxFell) := zenBytes (DstNBytes d) (DstPBytes d) in
            let start := if StartTime d =? 0 then zero_time else UnixMilli (StartTime d) in
            let stop := if EndTime d =? 0 then zero_time else UnixMilli (EndTime d) in
            let r := mkRecord SourceZenarmor start (if IsZero stop then start else stop) now (protoNumber (TransportProto d)) src dst
                       (clampPort (zSrcPort d)) (clampPort (zDstPort d)) ""
                       zeroCounters (mkCounters txBytes rxBytes (nonNeg (SrcNPackets d)) (nonNeg (DstNPackets d)) true) 0 0 0 0 0 0
                       (mkIface (vlanDevice (Interface d) (zVLANID d)) "" 0 false false) zeroIface DirectionUnknown (zVLANID d)
                       (match IsBlocked d with Some 0 => VerdictPass | Some 1 => VerdictBlock | _ => VerdictUnknown end)
                       (mkL7 (zAppName d) (zAppProto d) (zAppCategory d) "" (zEncryption d)) zeroEnrichment
                       (mkRepairs (txFell || rxFell) false false false false) zeroGeoInfo in
            let r := r <| CommunityIDOf := Community.CommunityID (CanonicalTuple r) 0 |>
                       <| Geo := mkGeoInfo (zenGeoInto zeroGeoEndpoint (SrcGeoIP d)) (zenGeoInto zeroGeoEndpoint (DstGeoIP d)) |> in
            let r := enrichment d snap r in
            let r := r <| rDirection := directionOf dst (SrcScope (Enrich r)) (DstScope (Enrich r)) (zDirection d) |> in
            let '(r, cache) := match cache with
                               | None => (r, None)
                               | Some c =>
                                   let '(dom, c) := Dns.Lookup src dst now c in
                                   (match dom with Some dom => r <| Enrich ::= fun e => e <| DstDomain := dom |> |> | None => r end, Some c)
                               end in
            let '(r, geo) := Geo_Enrich geo r in
            (Some r, cache, geo)
        | _, _ => none
        end
    end.

(** ** Domains *)

Definition isAnswerSep (c : ascii) : bool := Ascii.eqb c "," || Ascii.eqb c ";" || Ascii.eqb c " " || Ascii.eqb c "009".
(** [strings.FieldsFunc]: the pieces that are not empty. *)
Fixpoint answer_fields (s : string) : string * list string :=
  match s with
  | EmptyString => ("", [])
  | String c s =>
      let '(cur, done) := answer_fields s in
      if isAnswerSep c then ("", if str_empty cur then done else cur :: done) else (String c cur, done)
  end.
Definition FieldsFunc (s : string) : list string := let '(cur, done) := answer_fields s in if str_empty cur then done else cur :: done.

Definition feedDNSCache (d : option zenDoc) (now : Time) (cache : Dns.DNSCache) : Dns.DNSCache :=
  match d with
  | None => cache
  | Some d =>
      if str_empty (Query d) || str_empty (Answers d) then cache
      else match ParseAddr (SrcIP d) with
           | None => cache
           | Some client => fold_left (fun c tok => match ParseAddr tok with Some answer => Dns.Put client answer (Query d) now c | None => c end) (FieldsFunc (Answers d)) cache
           end
  end.

Definition addFlowAttrs (attrs : gmap string string) (fr : Record_) : gmap string string :=
  fold_left Filterlog.set
    [("flow.community_id", CommunityIDOf fr);
     ("flow.direction", if str_eq (Direction_String (rDirection fr)) "unknown" then "" else Direction_String (rDirection fr));
     ("flow.interface", interfaceLabel fr); ("dst.domain", DstDomain (Enrich fr))] attrs.

(** ** Metrics *)

Record ZenarmorObservation := mkObservation {
  oFamily : string; oAction : string; oCategory : string; oInterface : string; oRCode : string; oSeverity : string; oStatusClass : string }.
(** The two methods of the metric sink a document calls. *)
Class ZenSink (S : Type) := {
  ObserveZenarmor : ZenarmorObservation -> S -> bool * S;
  ObserveZenarmorDevice : string -> string -> string -> S -> S }.

Definition attr (attrs : gmap string string) (k : string) : string := default "" (attrs !! k).
Definition statusClass (status : string) : string :=
  if str_empty status then ""
  else match Otlp.Atoi status with
       | Some code => if (code <? 100) || (599 <? code) then "" else Itoa (Z.quot code 100) +:+ "xx"
       | None => ""
       end.
Definition firstNonEmpty (a b : string) : string := if str_empty a then b else a.

Definition observation (family : string) (attrs : gmap string string) : ZenarmorObservation :=
  let iface := firstNonEmpty (attr attrs "interface.name") (attr attrs "interface") in
  let o := mkObservation family (attr attrs Otlp.AttrAction) in
  if str_eq family "flow" then o (attr attrs "app_category") iface "" "" ""
  else if str_eq family "dns" then o (attr attrs "domain_category") iface (attr attrs "rcode") "" ""
  else if str_eq family "tls" then o (attr attrs "domain_category") iface "" "" ""
  else if str_eq family "web" then o "" iface "" "" (statusClass (attr attrs "http.status_code"))
  else if str_eq family "ids" then o (attr attrs "alert_category") iface "" (attr attrs "alert_severity") ""
  else o "" iface "" "" "".

Definition observeDerived {S} `{ZenSink S} (family : string) (attrs : gmap string string) (s : S) : bool * S :=
  let iface := firstNonEmpty (attr attrs "interface.name") (attr attrs "interface") in
  let s := if str_empty (attr attrs "device.name") then s else ObserveZenarmorDevice (attr attrs "device.name") (attr attrs "device.category") iface s in
  ObserveZenarmor (observation family attrs) s.

(** ** Our own stream *)

Definition isSelfTraffic (attrs : gmap string string) (peer : Addr) (listenPorts : list Z) : bool :=
  IsValid peer
  && match Otlp.Atoi (attr attrs "ip_dst_port") with
     | None => false
     | Some dstPort => existsb (fun p => (0 <? p) && (dstPort =? p)) listenPorts
     end
  && match ParseAddr (attr attrs "ip_src_saddr") with
     | None => false
     | Some src => addr_eqb (Unmap src) (Unmap peer)
     end.

(** ** The vocabulary of a record *)

Definition KnownAttributeKeys : list string :=
  ["alertinfo.action"; "alertinfo.category"; "alertinfo.severity"; "alertinfo.sid"; "alertinfo.signature"; "alert_category"; "alert_severity";
   "answers"; "app_category"; "app_name"; "app_proto"; "community_id"; "conn_uuid"; "device.category"; "device.id"; "device.name"; "device.os";
   "device.osver"; "device.vendor"; "direction"; "domain_category"; "dst.scope"; "dst.service"; "dst_hostname"; "dst_hwaddr"; "dst_nbytes";
   "dst_npackets"; "dst_pbytes"; "dst_username"; "encryption"; "host"; "http.status_code"; "http.version"; "interface"; "interface.name";
   "ip_dst_port"; "ip_dst_saddr"; "ip_src_port"; "ip_src_saddr"; "ja3"; "method"; "opnsense.action"; "opnsense.device_category";
   "opnsense.interface"; "opnsense.subsystem"; "qclass"; "qtype"; "query"; "rcode"; "referrer"; "req_body_len"; "rsp_body_len"; "server_name";
   "sip_method"; "sip_status"; "sip_uri"; "src.scope"; "src_hostname"; "src_hwaddr"; "src_nbytes"; "src_npackets"; "src_pbytes"; "src_username";
   "total_answers"; "transport_proto"; "uri"; "user_agent"; "vlanid"].
(** The attributes of the two locations. *)
Definition geo_keys : list string :=
  List.flat_map (fun p => map (fun k => p +:+ k) [".country_code2"; ".country_code3"; ".country_name"; ".city_name"; ".continent_code"; ".region_name"; ".timezone"; ".asn"])
    ["src_geoip"; "dst_geoip"].

Lemma set_lookup l : forall m k v, fold_left Filterlog.set l m !! k = Some v -> (k, v) ∈ l /\ v <> "" \/ m !! k = Some v.
Proof.
  induction l as [|[k' v'] l IH]; intros m k v H; [by right|]. cbn [fold_left] in H. destruct (IH _ _ _ H) as [[Hin Hv]|Hm]; [left; split; [by constructor|done]|].
  unfold Filterlog.set in Hm. cbn [fst snd] in Hm. destruct (str_empty v') eqn:E; [by right|]. apply lookup_insert_Some in Hm as [[<- <-]|[_ Hm]]; [|by right].
  left. split; [by constructor|]. intros ->. done.
Qed.
Lemma put_attrs_in l k v : put_attrs l !! k = Some v -> (k, v) ∈ l /\ v <> "".
Proof. intros H. apply set_lookup in H as [H|H]; [done|]. by apply lookup_empty_Some in H. Qed.

Definition known (p : string * string) : bool := existsb (str_eq p.1) (KnownAttributeKeys ++ geo_keys).
Lemma known_app a b : forallb known (a ++ b) = forallb known a && forallb known b.
Proof. apply forallb_app. Qed.

Lemma geo_known p g : p = "src_geoip" \/ p = "dst_geoip" -> forallb known (setGeo p g) = true.
Proof. intros [-> | ->]; destruct g; reflexivity. Qed.
Lemma family_known family d : forallb known (family_attrs family d) = true.
Proof.
  unfold family_attrs. destruct (str_eq family "flow"); [reflexivity|]. destruct (str_eq family "dns"); [destruct (RespCode d), (DomainCategories d); reflexivity|].
  destruct (str_eq family "tls"); [reflexivity|]. destruct (str_eq family "web"); [reflexivity|]. destruct (str_eq family "ids"); [destruct (AlertInfo d); reflexivity|].
  destruct (str_eq family "voip"); reflexivity.
Qed.
Lemma enrich_known d snap : forallb known (enrich_attrs d snap) = true.
Proof.
  destruct snap as [snap|]; [|done]. unfold enrich_attrs. rewrite !known_app. destruct (Enrich.InterfaceName _ _), (str_empty (SrcIP d)), (str_empty (DstIP d)), (zDstPort d =? 0);
    try reflexivity; by destruct (Enrich.ServiceName _ _).
Qed.
Lemma doc_known family d snap : forallb known (doc_attrs family d snap) = true.
Proof.
  unfold doc_attrs. rewrite !known_app, !geo_known, family_known, enrich_known by auto. destruct (zDevice d); reflexivity.
Qed.

(** A document that states everything, and a snapshot that knows it. *)
Definition full_geo : zenGeo := mkZenGeo "x" "x" "x" "x" "x" "x" "x" "x".
Definition full_doc : zenDoc :=
  mkZenDoc 1 2 "TCP" "ixl0" "10" "out" "x" "x" "x" (Some 1) "10.0.0.1" 50000 "x" "x" "x" "8.8.8.8" 443 "x" "x" "x" (Some full_geo) (Some full_geo)
    (Some (mkZenDevice "x" "x" "x" "x" "x" "x")) "x" "x" "x" 1 1 1 1 1 1 "x" "x" "x" "x" 1 (Some 0) ["x"] "x" "x" "x" "x" "x" "x" "x" "x" "x" "200" 1 1
    "x" "1" (Some (mkAlertInfo "x" "x" "x" "x" "x")) "x" "x" "x".
Definition full_snap : Enrich.Snapshot := Enrich.mkSnapshot ∅ {["ixl0" := "LAN"]} ∅ ∅ [] {[Addr4 1 := true]} ∅ [] [] ∅ ∅ ∅.
Definition zen_families : list string := ["flow"; "dns"; "tls"; "web"; "ids"; "voip"].

Lemma every_key_set k : k ∈ KnownAttributeKeys ++ geo_keys -> exists family, is_Some (put_attrs (doc_attrs family full_doc (Some full_snap)) !! k).
Proof.
  intros Hk. assert (forallb (fun k => existsb (fun f => bool_decide (is_Some (put_attrs (doc_attrs f full_doc (Some full_snap)) !! k))) zen_families) (KnownAttributeKeys ++ geo_keys) = true) as H
    by (vm_compute; reflexivity).
  rewrite forallb_forall in H. specialize (H k (proj1 (list_elem_of_In _ _) Hk)). apply existsb_exists in H as (f & _ & Hf). apply bool_decide_eq_true in Hf. by exists f.
Qed.

(** The attributes a decoded document may carry are exactly the keys an exclusion rule
    may name and the sixteen of the two locations, which a rule may not. *)
Theorem attribute_vocabulary k :
  (exists family d snap, is_Some (put_attrs (doc_attrs family d snap) !! k)) <-> k ∈ KnownAttributeKeys \/ k ∈ geo_keys.
Proof.
  rewrite <- elem_of_app. split.
  - intros (family & d & snap & v & Hv). apply put_attrs_in in Hv as [Hin _]. pose proof (doc_known family d snap) as H. rewrite forallb_forall in H.
    specialize (H _ (proj1 (list_elem_of_In _ _) Hin)). apply existsb_exists in H as (k' & Hk & E). cbn in E. apply String.eqb_eq in E. subst k'. by apply list_elem_of_In.
  - intros Hk. destruct (every_key_set k Hk) as [f Hf]. eauto.
Qed.

(** *** Labels *)

Definition rcodes : list string := ["-1"; "other"; "0"; "1"; "2"; "3"; "4"; "5"; "6"; "7"; "8"; "9"; "10"; "11"; "12"; "13"; "14"; "15"].
Definition severities : list string := ["1"; "2"; "3"; "4"; "other"].
Definition classes : list string := ["1xx"; "2xx"; "3xx"; "4xx"; "5xx"].

Lemma clampRCode_closed c : clampRCode c ∈ rcodes.
Proof.
  unfold clampRCode. destruct ((0 <=? c) && (c <=? 15)) eqn:E; bool_prop; [|destruct (c =? -1); set_solver].
  assert (forallb (fun n => existsb (str_eq (Itoa n)) rcodes) (map Z.of_nat (seq 0 16)) = true) as Hall by reflexivity. rewrite forallb_forall in Hall.
  specialize (Hall c ltac:(apply in_map_iff; exists (Z.to_nat c); split; [lia|apply in_seq; lia])). apply existsb_exists in Hall as (x & Hx & E). apply String.eqb_eq in E. subst x.
  by apply list_elem_of_In.
Qed.
Lemma clampAlertSeverity_closed v : clampAlertSeverity v ∈ "" :: severities.
Proof.
  unfold clampAlertSeverity. destruct (str_empty v); [set_solver|]. destruct (existsb _ _) eqn:E; [|set_solver].
  apply existsb_exists in E as (x & Hx & E). apply String.eqb_eq in E. subst x. apply list_elem_of_In in Hx. set_solver.
Qed.
Lemma clampDeviceCategory_closed v : clampDeviceCategory v ∈ "" :: zenDeviceCategories.
Proof.
  unfold clampDeviceCategory. destruct (str_empty v); [set_solver|]. destruct (existsb _ _) eqn:E; [|set_solver].
  apply existsb_exists in E as (x & Hx & E). apply String.eqb_eq in E. subst x. apply list_elem_of_In in Hx. by right.
Qed.
Lemma zen_statusClass_closed v : statusClass v ∈ "" :: classes.
Proof.
  unfold statusClass. destruct (str_empty v); [set_solver|]. destruct (Otlp.Atoi v) as [c|]; [|set_solver]. destruct (_ || _) eqn:E; [set_solver|]. bool_prop.
  assert (1 <= Z.quot c 100 <= 5) as Hq by (rewrite Z.quot_div_nonneg by lia; split; [apply Z.div_le_lower_bound|apply Z.lt_succ_r, Z.div_lt_upper_bound]; lia).
  assert (forallb (fun n => existsb (str_eq (Itoa n +:+ "xx")) classes) (map Z.of_nat (seq 1 5)) = true) as Hall by (vm_compute; reflexivity). rewrite forallb_forall in Hall.
  specialize (Hall (Z.quot c 100) ltac:(apply in_map_iff; exists (Z.to_nat (Z.quot c 100)); split; [lia|apply in_seq; lia])).
  apply existsb_exists in Hall as (x & Hx & E'). apply String.eqb_eq in E'. rewrite E'. right. by apply list_elem_of_In.
Qed.
Lemma action_closed d : action_of d ∈ [""; "pass"; "block"].
Proof. unfold action_of. destruct (IsBlocked d) as [[|[]|]|]; set_solver. Qed.

(** What is written under the keys of a closed vocabulary. *)
Definition closed (p : string * string) : Prop :=
  if str_eq p.1 "opnsense.action" then p.2 ∈ [""; "pass"; "block"]
  else if str_eq p.1 "rcode" then p.2 ∈ "" :: rcodes
  else if str_eq p.1 "alert_severity" then p.2 ∈ "" :: severities
  else if str_eq p.1 "opnsense.device_category" then p.2 ∈ "" :: zenDeviceCategories
  else True.

Ltac written := repeat (apply Forall_cons; split; [first [exact I | apply action_closed | apply clampAlertSeverity_closed | apply clampDeviceCategory_closed | right; apply clampRCode_closed]|]); try apply Forall_nil_2.
Lemma doc_closed family d snap : Forall closed (doc_attrs family d snap).
Proof.
  unfold doc_attrs. repeat apply Forall_app_2; try (written; fail).
  - destruct (SrcGeoIP d); written.
  - destruct (DstGeoIP d); written.
  - destruct (zDevice d); written.
  - unfold family_attrs. destruct (str_eq family "flow"); [written|]. destruct (str_eq family "dns").
    { repeat apply Forall_app_2; [written|destruct (RespCode d); written|destruct (DomainCategories d); written]. }
    destruct (str_eq family "tls"); [written|]. destruct (str_eq family "web"); [written|]. destruct (str_eq family "ids").
    { apply Forall_app_2; [written|destruct (AlertInfo d); written]. }
    destruct (str_eq family "voip"); written.
  - destruct snap as [snap|]; [|done]. unfold enrich_attrs. repeat apply Forall_app_2.
    + destruct (Enrich.InterfaceName _ _); written.
    + destruct (str_empty _); written.
    + destruct (str_empty _); written.
    + destruct (_ =? 0); [written|]. destruct (Enrich.ServiceName _ _); written.
Qed.

Lemma attr_closed l k : Forall closed l -> closed (k, "") -> closed (k, attr (put_attrs l) k).
Proof.
  intros Hl H0. unfold attr. destruct (put_attrs l !! k) as [v|] eqn:E; [|exact H0]. apply put_attrs_in in E as [Hin _]. rewrite Forall_forall in Hl. by apply Hl.
Qed.

(** The labels a document counts under: its family, an action of two, a response code,
    a severity and a status class of their small vocabularies, and for the index label
    of the device one of nine categories; whatever the sender wrote. *)
Theorem zen_labels_closed family d snap (attrs := put_attrs (doc_attrs family d snap)) (o := observation family attrs) :
  oFamily o = family /\ oAction o ∈ [""; "pass"; "block"] /\ oRCode o ∈ "" :: rcodes /\ oSeverity o ∈ "" :: severities /\ oStatusClass o ∈ "" :: classes
  /\ attr attrs Otlp.AttrDeviceCategory ∈ "" :: zenDeviceCategories.
Proof.
  pose proof (doc_closed family d snap) as Hc. assert (forall k, closed (k, "") -> closed (k, attr attrs k)) as Hk by (intros k; apply attr_closed, Hc). clearbody attrs.
  pose proof (Hk "opnsense.action" ltac:(left)) as H1. pose proof (Hk "rcode" ltac:(left)) as H2.
  pose proof (Hk "alert_severity" ltac:(left)) as H3. pose proof (Hk "opnsense.device_category" ltac:(left)) as H4.
  pose proof (zen_statusClass_closed (attr attrs "http.status_code")) as H5. assert (forall l, "" ∈ "" :: l) as He by (intros; left).
  unfold o, observation. destruct (str_eq family "flow"); [done|]. destruct (str_eq family "dns"); [done|]. destruct (str_eq family "tls"); [done|].
  destruct (str_eq family "web"); [done|]. destruct (str_eq family "ids"); done.
Qed.

(** ** The flow record's theorem *)

(** Everything of a record but its interface's name, its enrichment and its places. *)
Definition core (r : Record_) := (rSource r, Start r, End_ r, Observed r, (Proto r, SrcAddr r, DstAddr r, SrcPort r, DstPort r), CommunityIDOf r, (NF r, Zen r), VLANID r, rVerdict r, rL7 r,
  rRepairs r, (Device (In r), Out r)).

Lemma enrichment_core d snap r : core (enrichment d snap r) = core r /\ DstDomain (Enrich (enrichment d snap r)) = DstDomain (Enrich r).
Proof.
  unfold enrichment. set (cold := negb _ && _). clearbody cold. destruct r. destruct cold, snap as [snap|]; cbn; try done; by destruct (Enrich.InterfaceName _ _).
Qed.
Lemma geo_core geo r : core (Geo_Enrich geo r).1 = core r /\ Enrich (Geo_Enrich geo r).1 = Enrich r /\ rDirection (Geo_Enrich geo r).1 = rDirection r.
Proof.
  unfold Geo_Enrich. destruct geo as [e|]; [|done]. destruct (lk e) as [f|]; [|done]. destruct (endpoint f e _ _) as [[gs e1] h1]. destruct (endpoint f e1 _ _) as [[gd e2] h2].
  by destruct r.
Qed.

(** The volume of one side: what was on the wire, or the payload while nothing was. *)
Definition side (nbytes pbytes : Z) : Z := if 0 <? nbytes then nbytes else Z.max 0 pbytes.
Lemma nonNeg_max v : nonNeg v = Z.max 0 v.
Proof. unfold nonNeg. destruct (Z.ltb_spec v 0); lia. Qed.
Lemma zenBytes_side n p : (zenBytes n p).1 = side n p.
Proof. unfold zenBytes, side. rewrite !nonNeg_max. repeat match goal with |- context [?a <? ?b] => destruct (Z.ltb_spec a b) end; cbn [fst]; lia. Qed.

Lemma core_eq a b : core a = core b -> SrcAddr a = SrcAddr b /\ DstAddr a = DstAddr b /\ (SrcPort a, DstPort a) = (SrcPort b, DstPort b) /\ NF a = NF b /\ Zen a = Zen b
  /\ CommunityIDOf a = CommunityIDOf b /\ CanonicalTuple a = CanonicalTuple b.
Proof. unfold core, CanonicalTuple. destruct a, b. cbn. intros [=]. by subst. Qed.

(** A port the wire could have had, or none. *)
Definition port16 (p : Z) : Z := if bool_decide (0 <= p <= 65535) then p else 0.
Lemma clampPort_16 p : clampPort p = port16 p.
Proof. unfold clampPort, port16. destruct (Z.ltb_spec p 0), (Z.ltb_spec 65535 p), (bool_decide_reflect (0 <= p <= 65535)); cbn; lia. Qed.

(** What the flow record of a document is. *)
Definition flow_record_of (family : string) (d : zenDoc) (cache : option Dns.DNSCache) (now : Time) (o : option Record_) : Prop :=
  match o with
  | None => family <> "flow" \/ ParseAddr (SrcIP d) = None \/ ParseAddr (DstIP d) = None
  | Some r => family = "flow" /\ exists src dst, ParseAddr (SrcIP d) = Some src /\ ParseAddr (DstIP d) = Some dst
      /\ SrcAddr r = Unmap src /\ DstAddr r = Unmap dst
      /\ (SrcPort r, DstPort r) = (port16 (zSrcPort d), port16 (zDstPort d))
      /\ NF r = zeroCounters
      /\ Zen r = mkCounters (side (SrcNBytes d) (SrcPBytes d)) (side (DstNBytes d) (DstPBytes d)) (Z.max 0 (SrcNPackets d)) (Z.max 0 (DstNPackets d)) true
      /\ CommunityIDOf r = Community.CommunityID (CanonicalTuple r) 0
      /\ rDirection r = directionOf (Unmap dst) (SrcScope (Enrich r)) (DstScope (Enrich r)) (zDirection d)
      /\ DstDomain (Enrich r) = match cache with Some c => default "" (Dns.Lookup (Unmap src) (Unmap dst) now c).1 | None => "" end
  end.

Lemma flow_record_spec family d snap cache geo now : flow_record_of family d cache now (flowFromDoc family (Some d) snap cache geo now).1.1.
Proof.
  unfold flow_record_of, flowFromDoc. rewrite <- !clampPort_16. destruct (str_eq family "flow") eqn:Ef; cbn [negb]; [|left; by apply String.eqb_neq]. apply String.eqb_eq in Ef.
  destruct (ParseAddr (SrcIP d)) as [src|] eqn:Es; [|by right; left]. destruct (ParseAddr (DstIP d)) as [dst|] eqn:Ed; [|by right; right].
  pose proof (zenBytes_side (SrcNBytes d) (SrcPBytes d)) as Ht. pose proof (zenBytes_side (DstNBytes d) (DstPBytes d)) as Hr.
  destruct (zenBytes (SrcNBytes d) (SrcPBytes d)) as [tx txF]. destruct (zenBytes (DstNBytes d) (DstPBytes d)) as [rx rxF]. cbn [fst] in Ht, Hr. subst tx rx.
  set (r0 := mkRecord _ _ _ _ _ _ _ _ _ _ _ _ _ _ _ _ _ _ _ _ _ _ _ _ _ _ _). set (r1 := r0 <| CommunityIDOf := _ |> <| Geo := _ |>). cbv zeta.
  destruct (enrichment_core d snap r1) as [Hcore Hdom]. set (r2 := enrichment d snap r1) in *. clearbody r2. change (DstDomain (Enrich r1)) with "" in Hdom.
  set (r3 := r2 <| rDirection := _ |>). set (dom := match cache with Some c => (Dns.Lookup (Unmap src) (Unmap dst) now c).1 | None => None end).
  set (r4 := match dom with Some q => r3 <| Enrich ::= fun e => e <| DstDomain := q |> |> | None => r3 end).
  assert (match cache with
          | Some c => let '(dom, c0) := Dns.Lookup (Unmap src) (Unmap dst) now c in
              (match dom with Some q => r3 <| Enrich ::= fun e => e <| DstDomain := q |> |> | None => r3 end, Some c0)
          | None => (r3, None) end = (r4, match cache with Some c => Some (Dns.Lookup (Unmap src) (Unmap dst) now c).2 | None => None end)) as ->.
  { unfold r4, dom. destruct cache as [c|]; [|done]. by destruct (Dns.Lookup (Unmap src) (Unmap dst) now c). }
  assert (core r4 = core r1 /\ SrcScope (Enrich r4) = SrcScope (Enrich r2) /\ DstScope (Enrich r4) = DstScope (Enrich r2) /\ DstDomain (Enrich r4) = default "" dom
          /\ rDirection r4 = directionOf (Unmap dst) (SrcScope (Enrich r2)) (DstScope (Enrich r2)) (zDirection d)) as (Hc4 & Hs4 & Hd4 & Hq4 & Hr4).
  { rewrite <- Hcore. unfold r4, r3. clearbody dom. clear -Hdom. destruct r2. destruct dom; cbn in *; by rewrite ?Hdom. }
  clearbody r4. destruct (geo_core geo r4) as (Hg & Hge & Hgd). destruct (Geo_Enrich geo r4) as [rf geo']. cbn [fst] in *. split; [done|]. exists src, dst.
  destruct (core_eq rf r1) as (F1 & F2 & F3 & F4 & F5 & F6 & F7); [congruence|]. rewrite F1, F2, F3, F4, F5, F6, F7, Hge, Hgd, Hs4, Hd4, Hq4, Hr4.
  split; [done|]. split; [done|]. split; [done|]. split; [done|]. split; [done|]. split; [done|]. split; [unfold r1, r0; cbn; by rewrite !nonNeg_max|].
  split; [done|]. split; [done|]. unfold dom. by destruct cache.
Qed.

(** The flow record of a document.  There is one exactly for a connection whose two
    addresses parse.  It is a record of Zenarmor alone: its addresses are unmapped, a port
    out of range is zero and never another port, each side's bytes are those on the wire
    or, while there are none, the payload, never negative; its community id is that of its
    canonical tuple, so both directions and a NetFlow record of the conversation share it;
    its direction follows from the destination, the scopes and, only then, the document;
    its domain is the DNS cache's answer for the pair. *)
Theorem flow_from_doc_exact family d snap cache geo now : flow_record_of family d cache now (flowFromDoc family (Some d) snap cache geo now).1.1.
Proof. apply flow_record_spec. Qed.

End Zenarmor.
