(* ===== verification/ZenReceiver.v ===== *)
(** * The Zenarmor receiver ([logship/zenarmor/source.go], [server.go], [exclude.go],
      [syslog.go])

    The server that poses as Elasticsearch and the processor for documents that come by
    syslog: who may send, what a bulk write holds, and what becomes of each document. *)

From stdpp Require Import base decidable list gmap strings.
From Stdlib Require Import ZArith Lia Ascii.
From S2P Require Import Prelude Netip Order Record Geo DnsCache GoStrings Enrich LogQueue OtlpSink Envelope Filterlog Registry Receiver Parsers Zenarmor.
Import Queue Zenarmor.

Module ZenReceiver.

Definition sourceName : string := "zenarmor".
Definition RejectReasons : list string :=
  ["peer"; "auth"; "unhandled_endpoint"; "body"; "overloaded"; "index_limit"; "conn_limit"; "unknown_family"; "filtered"; "self_traffic"; "excluded"].
Definition ParseStages : list string := ["bulk"; "document"].

(** What the receiver causes outside itself; [Excluded] counts the rule and the rejection. *)
Inductive effect :=
| Emit (rec : LogRecord)
| Reject (reason : string)
| Excluded (rule : string)
| ParseError (stage : string)
| Capture (kind : string)
| BulkAccepted (bytes : Z).

(** ** Exclusion *)

Record ExcludeRule := mkRule { Raw : string; Field : string; Re : string -> bool }.
Inductive exclude_error := NotARule (e : string) | EmptyField (e : string) | EmptyRegex (e : string) | UnknownField (f e : string) | BadRegex (e : string).
Definition excludeOp : string := "=~".

Section Excludes.
(** [regexp.Compile], with what a compiled pattern matches. *)
Variable compile : string -> option (string -> bool).
Definition parseExcludeRule (entry : string) : exclude_error + ExcludeRule :=
  match Receiver.Index entry excludeOp with
  | None => inl (NotARule entry)
  | Some i =>
      let field := TrimSpace (str_take i entry) in
      let expr := str_drop (i + String.length excludeOp) entry in
      if str_empty field then inl (EmptyField entry)
      else if str_empty expr then inl (EmptyRegex entry)
      else if negb (existsb (str_eq field) KnownAttributeKeys) then inl (UnknownField field entry)
      else match compile expr with None => inl (BadRegex entry) | Some re => inr (mkRule entry field re) end
  end.
Fixpoint parseExcludeRules (raw : list string) : exclude_error + list ExcludeRule :=
  match raw with
  | [] => inr []
  | entry :: raw =>
      let entry := TrimSpace entry in
      if str_empty entry then parseExcludeRules raw
      else match parseExcludeRule entry with
           | inl e => inl e
           | inr r => match parseExcludeRules raw with inl e => inl e | inr rs => inr (r :: rs) end
           end
  end.
End Excludes.

Definition excludedBy (rules : list ExcludeRule) (attrs : gmap string string) : option ExcludeRule :=
  find (fun r => match attrs !! Field r with Some v => Re r v | None => false end) rules.

(** [familyAllowSet]; [None] is all. *)
Definition familyAllowSet (names : list string) : option (gset string) :=
  let fams := omap (fun n => let n := ToLower (TrimSpace n) in if str_empty n then None else Some (default n (indexFamilies !! n))) names in
  if bool_decide (fams = []) then None else Some (list_to_set fams).

(** ** A document *)

Record config := mkConfig {
  cFamilies : option (gset string); cEnrich : bool; cDropSelf : bool; cExcludes : list ExcludeRule; cCapture : bool;
  cAllowedPeers : list Prefix; cAuthUser : string; cAuthPassword : string; cMaxConcurrent : Z }.

Section Processor.
Context {K F : Type} `{!ZenSink K} `{!Sink F}.
Variable decode : string -> option zenDoc.

Record docProcessor := mkProc { pSink : K; pFlow : option F; pDns : option Dns.DNSCache; pGeo : option GeoEnricher; pCache : Enrich.Cache }.
#[export] Instance eta_proc : Eta docProcessor := fun p => mkProc (pSink p) (pFlow p) (pDns p) (pGeo p) (pCache p).

Definition captured (c : config) (kind : string) : list effect := if cCapture c then [Capture kind] else [].

(** The end of [process]: exclusion or emission. *)
Definition finish (c : config) (rec : LogRecord) (p : docProcessor) : list effect * docProcessor :=
  match excludedBy (cExcludes c) (Attributes rec) with
  | Some rule => ([Excluded (Raw rule)], p)
  | None => ([Emit rec], p)
  end.

(** After the self-traffic filter: metrics, domains, the flow record, exclusion. *)
Definition observe_doc (c : config) (now : Time) (family : string) (rec : LogRecord) (d : option zenDoc) (snap : option Enrich.Snapshot) (p : docProcessor)
  : list effect * docProcessor :=
  let p := p <| pSink ::= fun s => (observeDerived family (Attributes rec) s).2 |> in
  let p := if str_eq family "dns" then p <| pDns ::= option_map (feedDNSCache d now) |> else p in
  let '(rec, p) := match pFlow p with
                   | None => (rec, p)
                   | Some sink =>
                       let '(fr, dns, geo) := flowFromDoc family d snap (pDns p) (pGeo p) now in
                       let p := p <| pDns := dns |> <| pGeo := geo |> in
                       match fr with
                       | None => (rec, p)
                       | Some fr => (rec <| Attributes ::= fun a => addFlowAttrs a fr |>, p <| pFlow := Some (Observe sink fr) |>)
                       end
                   end in
  finish c rec p.

Definition process (c : config) (now : Time) (family doc : string) (peer : Addr) (ports : list Z) (p : docProcessor) : list effect * docProcessor :=
  if match cFamilies c with Some fams => negb (bool_decide (family ∈ fams)) | None => false end then ([Reject "filtered"], p)
  else
    let snap := if cEnrich c then Some (Enrich.Load (pCache p)) else None in
    let '(rec, d) := parseDocFull decode family doc snap in
    let rec := rec <| lSource := sourceName |> in
    let errs := match d with None => ParseError "document" :: captured c "parse_error" | Some _ => [] end in
    if cDropSelf c && isSelfTraffic (Attributes rec) peer ports then (errs ++ [Reject "self_traffic"], p)
    else let '(out, p) := observe_doc c now family rec d snap p in (errs ++ out, p).

(** [handleDoc], once [Run] has set [emit]. *)
Definition handleDoc (c : config) (now : Time) (index doc : string) (peer : Addr) (ports : list Z) (p : docProcessor) : list effect * docProcessor :=
  let family := familyFor index in
  if str_empty family then (Reject "unknown_family" :: captured c "unknown_family", p) else process c now family doc peer ports p.

(** ** A bulk write *)

(** The action of a line: the operation, the index and the id it names. *)
Variable parseAction : string -> option (string * string * string).

Fixpoint take_line (b : string) : string * option string :=
  match b with
  | EmptyString => ("", None)
  | String c b => if Ascii.eqb c "010" then ("", Some b) else let '(l, r) := take_line b in (String c l, r)
  end.
Definition nextLine (b : string) : string * string := let '(l, r) := take_line b in (TrimSpace l, default "" r).

(** A step of the loop over a body: a line that is no action, or an item, with its
    document if it has one. *)
Inductive bulkStep := BadAction | Item (op idx id : string) (doc : option string).
Definition carries (op : string) : bool := str_eq op "index" || str_eq op "create" || str_eq op "update".
Fixpoint bulk_steps (fuel : nat) (defaultIdx : string) (rest : string) : list bulkStep :=
  match fuel with
  | O => []
  | S fuel =>
      if str_empty rest then []
      else
        let '(line, rest) := nextLine rest in
        if str_empty line then bulk_steps fuel defaultIdx rest
        else match parseAction line with
             | None => BadAction :: bulk_steps fuel defaultIdx rest
             | Some (op, idx, id) =>
                 let idx := if str_empty idx then defaultIdx else idx in
                 let '(doc, rest) := if carries op then let '(doc, rest) := nextLine rest in (if str_empty doc then None else Some doc, rest) else (None, rest) in
                 Item op idx (if str_empty id then "0" else id) doc :: bulk_steps fuel defaultIdx rest
             end
  end.

(** [strings.Trim(s, "/")] *)
Fixpoint drop_slashes (s : string) : string :=
  match s with String c r => if Ascii.eqb c "/" then drop_slashes r else s | EmptyString => "" end.
Definition TrimSlashes (s : string) : string := str_rev (drop_slashes (str_rev (drop_slashes s))).
Definition bulkDefaultIndex (path : string) : string :=
  let p := TrimSlashes (Parsers.Parsers.TrimSuffix (TrimSlashes path) "_bulk") in
  (cut "/"%char p).1.

(** The documents of a body, processed in order. *)
Definition run_step (c : config) (now : Time) (peer : Addr) (ports : list Z) (acc : list effect * docProcessor) (x : bulkStep) : list effect * docProcessor :=
  let '(out, p) := acc in
  match x with
  | BadAction => (out ++ [ParseError "bulk"], p)
  | Item _ _ _ None => acc
  | Item _ idx _ (Some doc) => let '(o, p) := handleDoc c now idx doc peer ports p in (out ++ o, p)
  end.

Definition maxBodyBytes : Z := 64 * 2 ^ 20.
Definition maxBulkItems : Z := 100000.
Fixpoint newlines (s : string) : Z :=
  match s with EmptyString => 0 | String c s => (if Ascii.eqb c "010" then 1 else 0) + newlines s end.

(** ** The server *)

(** How reading a request's body ends: an error, or the decompressed bytes. *)
Inductive body := Unreadable | Bytes (b : string).
Definition readBody (b : body) : option string :=
  match b with Unreadable => None | Bytes s => if maxBodyBytes <? slen s then None else Some s end.

(** [rPeer] is the sender's address, unmapped, if the remote address parses. *)
Record request := mkRequest { rPeer : option Addr; rMethod : string; rPath : string; rAuth : option (string * string); rBody : body }.
Inductive answer := Status (code : Z) | Done (items : list (string * string * string)) | Product | NoIndices | Acknowledged | NoAliases | Settings (idx : string) | Found (idx : string) | Permissive.
Definition code_of (a : answer) : Z := match a with Status code => code | _ => 200 end.

(** The registry of indices, and the bulk writes in flight. *)
Record server := mkServer { indices : gset string; indexBytes : Z; inFlight : Z }.
#[export] Instance eta_server : Eta server := fun s => mkServer (indices s) (indexBytes s) (inFlight s).
Definition newServer : server := mkServer ∅ 0 0.
Definition maxIndices : Z := 512.
Definition maxIndexNameBytes : Z := 255.
Definition maxIndexBytes : Z := 64 * 2 ^ 10.

Definition hasIndex (idx : string) (s : server) : bool := bool_decide (idx ∈ indices s).
Definition addIndex (idx : string) (s : server) : bool * server :=
  if hasIndex idx s then (true, s)
  else if (maxIndexNameBytes <? slen idx) || (maxIndices <=? Z.of_nat (size (indices s))) || (maxIndexBytes <? indexBytes s + slen idx) then (false, s)
  else (true, s <| indexBytes := indexBytes s + slen idx |> <| indices ::= fun l => {[idx]} ∪ l |>).
Definition dropIndex (idx : string) (s : server) : server :=
  if hasIndex idx s then s <| indexBytes := indexBytes s - slen idx |> <| indices ::= fun l => l ∖ {[idx]} |> else s.

Definition peerAllowed (c : config) (r : request) : bool :=
  if bool_decide (cAllowedPeers c = []) then true
  else match rPeer r with None => false | Some peer => existsb (fun p => Contains p peer) (cAllowedPeers c) end.
Definition authOK (c : config) (r : request) : bool :=
  if str_empty (cAuthUser c) && str_empty (cAuthPassword c) then true
  else if str_empty (cAuthUser c) || str_empty (cAuthPassword c) then false
  else match rAuth r with None => false | Some (u, p) => str_eq u (cAuthUser c) && str_eq p (cAuthPassword c) end.

Definition isBulkPath (path : string) : bool := str_eq path "/_bulk" || HasSuffix path "/_bulk".
(** [acquireSlot]: whether there is room for one more bulk write. *)
Definition slot (c : config) (s : server) : bool := (cMaxConcurrent c <=? 0) || (inFlight s <? cMaxConcurrent c).

Definition handleBulk (c : config) (now : Time) (ports : list Z) (r : request) (s : server) (p : docProcessor) : list effect * answer * docProcessor :=
  if negb (slot c s) then ([Reject "overloaded"], Status 503, p)
  else
    match readBody (rBody r) with
    | None => ([Reject "body"], Status 400, p)
    | Some b =>
        if maxBulkItems <? newlines b + 1 then ([Reject "body"], Status 400, p)
        else
          let steps := bulk_steps (String.length b) (bulkDefaultIndex (rPath r)) b in
          let '(out, p) := fold_left (run_step c now (default AddrInvalid (rPeer r)) ports) steps ([BulkAccepted (slen b)], p) in
          (out, Done (omap (fun x => match x with Item op idx id _ => Some (op, idx, id) | BadAction => None end) steps), p)
    end.

Definition unhandled (c : config) : list effect * answer := (Reject "unhandled_endpoint" :: captured c "unhandled_endpoint", Permissive).
Definition handleIndex (c : config) (r : request) (s : server) : list effect * answer * server :=
  let idx := TrimSlashes (rPath r) in
  if str_empty idx || HasPrefix idx "_" || bool_decide (is_Some (cut "/"%char idx).2) then (unhandled c, s)
  else if str_eq (rMethod r) "HEAD" || str_eq (rMethod r) "GET" then ([], if hasIndex idx s then Found idx else Status 404, s)
  else if str_eq (rMethod r) "PUT" then
    let '(ok, s) := addIndex idx s in
    if ok : bool then ([], Acknowledged, s) else ([Reject "index_limit"], Status 429, s)
  else if str_eq (rMethod r) "DELETE" then ([], Acknowledged, dropIndex idx s)
  else (unhandled c, s).

Definition ServeHTTP (c : config) (now : Time) (ports : list Z) (r : request) (s : server) (p : docProcessor) : list effect * answer * server * docProcessor :=
  if negb (peerAllowed c r) then ([Reject "peer"], Status 403, s, p)
  else if negb (authOK c r) then ([Reject "auth"], Status 401, s, p)
  else
    let path := rPath r in
    if isBulkPath path then let '(out, a, p) := handleBulk c now ports r s p in (out, a, s, p)
    else if str_eq path "/" then ([], Product, s, p)
    else if HasPrefix path "/_cat/indices" || HasPrefix path "/_cat/aliases" then ([], NoIndices, s, p)
    else if str_eq path "/_aliases" then ([], Acknowledged, s, p)
    else if HasSuffix path "/_alias" then ([], NoAliases, s, p)
    else if HasSuffix path "/_settings" then ([], Settings (TrimSlashes (Parsers.Parsers.TrimSuffix (TrimSlashes path) "/_settings")), s, p)
    else let '(out, a, s) := handleIndex c r s in (out, a, s, p).

(** ** Documents by syslog *)

Definition parseSyslogPayload (msg : string) : option (string * string) :=
  match Receiver.Index msg "index=", Receiver.Index msg "data=" with
  | Some i, Some d =>
      if (d <? i)%nat then None
      else
        let fam := TrimSpace (cut ","%char (str_drop (i + 6) msg)).1 in
        let data := TrimSpace (str_drop (d + 5) msg) in
        if str_empty fam || str_empty data || negb (HasPrefix data "{") then None else Some (fam, data)
  | _, _ => None
  end.

(** Whether it takes the line, and what comes of it. *)
Definition syslogProcess (c : config) (now : Time) (env : Envelope.Envelope) (peer : Addr) (ports : list Z) (p : docProcessor) : bool * list effect * docProcessor :=
  match parseSyslogPayload (Envelope.Message env) with
  | None => (false, [], p)
  | Some (fam, data) =>
      if negb (bool_decide (cAllowedPeers c = [])) && negb (existsb (fun pre => Contains pre (Unmap peer)) (cAllowedPeers c)) then (true, [Reject "peer"], p)
      else match indexFamilies !! fam with
           | None => (true, Reject "unknown_family" :: captured c "unknown_family", p)
           | Some family => let '(out, p) := process c now family data peer ports p in (true, out, p)
           end
  end.

(** ** Every document is accounted for *)

Definition is_final (e : effect) : bool := match e with Emit _ | Reject _ | Excluded _ => true | _ => false end.
Definition finals (l : list effect) : list effect := List.filter is_final l.
Lemma zen_finals_app a b : finals (a ++ b) = finals a ++ finals b.
Proof. apply List.filter_app. Qed.
Lemma finals_captured c k : finals (captured c k) = [].
Proof. unfold captured. by destruct (cCapture c). Qed.

(** How a document may end. *)
Inductive fate (c : config) (family doc : string) (peer : Addr) (ports : list Z) : effect -> Prop :=
| Shipped rec : Body rec = doc -> lSource rec = sourceName -> fate c family doc peer ports (Emit rec)
| Filtered fams : cFamilies c = Some fams -> family ∉ fams -> fate c family doc peer ports (Reject "filtered")
| OwnStream attrs : cDropSelf c = true -> isSelfTraffic attrs peer ports = true -> fate c family doc peer ports (Reject "self_traffic")
| ByRule rule rec v : rule ∈ cExcludes c -> Body rec = doc -> Attributes rec !! Field rule = Some v -> Re rule v = true -> fate c family doc peer ports (Excluded (Raw rule)).

Definition is_reject (e : effect) : bool := match e with Reject _ => true | _ => false end.
Lemma finish_fate c family rec p peer ports doc : Body rec = doc -> lSource rec = sourceName ->
  (finish c rec p).2 = p /\ exists x, (finish c rec p).1 = [x] /\ fate c family doc peer ports x /\ is_reject x = false.
Proof.
  intros Hb Hs. unfold finish. destruct (excludedBy _ _) as [rule|] eqn:E; (split; [done|]); eexists; (split; [done|]); (split; [|done]); [|by constructor].
  unfold excludedBy in E. apply find_some in E as [Hin Hm]. destruct (Attributes rec !! Field rule) as [v|] eqn:Ev; [|done].
  apply (ByRule _ _ _ _ _ rule rec v); [by apply list_elem_of_In|done..].
Qed.

Lemma observe_doc_fate c now family rec d snap p peer ports : lSource rec = sourceName -> let '(out, p') := observe_doc c now family rec d snap p in
  (exists x, out = [x] /\ fate c family (Body rec) peer ports x /\ is_reject x = false) /\ pSink p' = (observeDerived family (Attributes rec) (pSink p)).2
  /\ (pFlow p' = match (flowFromDoc family d snap (if str_eq family "dns" then option_map (feedDNSCache d now) (pDns p) else pDns p) (pGeo p) now).1.1 with
                 | Some fr => (fun s => Observe s fr) <$> pFlow p | None => pFlow p end).
Proof.
  intros Hs. unfold observe_doc. set (p1 := p <| pSink ::= _ |>). set (p2 := if str_eq family "dns" then _ else p1).
  assert (pSink p2 = (observeDerived family (Attributes rec) (pSink p)).2 /\ pFlow p2 = pFlow p /\ pGeo p2 = pGeo p
          /\ pDns p2 = if str_eq family "dns" then option_map (feedDNSCache d now) (pDns p) else pDns p) as (H1 & H2 & H3 & H4) by (unfold p2, p1; destruct (str_eq family "dns"); done).
  clearbody p2. rewrite H2. destruct (pFlow p) as [sink|] eqn:Ef.
  2: { destruct (finish_fate c family rec p2 peer ports (Body rec) eq_refl Hs) as [Hq Hx]. destruct (finish c rec p2) as [out q]. cbn [fst snd] in *. subst q. rewrite H1, H2.
       split; [done|]. split; [done|]. by destruct (flowFromDoc _ _ _ _ _ _) as [[[fr|] dns] geo]. }
  rewrite H3, H4. destruct (flowFromDoc family d snap _ (pGeo p) now) as [[[fr|] dns] geo].
  - set (rec' := rec <| Attributes ::= _ |>). set (q := p2 <| pDns := dns |> <| pGeo := geo |> <| pFlow := _ |>).
    destruct (finish_fate c family rec' q peer ports (Body rec) eq_refl Hs) as [Hq Hx]. destruct (finish c rec' q) as [out q']. cbn [fst snd] in *. subst q'. by split.
  - set (q := p2 <| pDns := dns |> <| pGeo := geo |>). destruct (finish_fate c family rec q peer ports (Body rec) eq_refl Hs) as [Hq Hx].
    destruct (finish c rec q) as [out q']. cbn [fst snd] in *. subst q'. by split.
Qed.

Lemma parsed_body family doc snap rec d : parseDocFull decode family doc snap = (rec, d) -> Body rec = doc.
Proof. unfold parseDocFull. destruct (decode doc); by intros [= <- _]. Qed.

(** What a document did to the metric sink: one observation if it got past the filters. *)
Definition observed_once (family : string) (x : effect) (s s' : K) : Prop :=
  match x with Reject _ => s' = s | _ => exists attrs, s' = (observeDerived family attrs s).2 end.

Lemma document_fate c now family doc peer ports p : let '(out, p') := process c now family doc peer ports p in
  exists x, finals out = [x] /\ fate c family doc peer ports x /\ observed_once family x (pSink p) (pSink p').
Proof.
  unfold process. destruct (match cFamilies c with Some _ => _ | None => _ end) eqn:Ef.
  { destruct (cFamilies c) as [fams|] eqn:E; [|done]. apply negb_true_iff, bool_decide_eq_false in Ef. exists (Reject "filtered"). split; [done|]. split; [|done]. by econstructor. }
  set (snap := if cEnrich c then _ else None). destruct (parseDocFull decode family doc snap) as [rec d] eqn:Ep. apply parsed_body in Ep. set (rec1 := rec <| lSource := sourceName |>).
  set (errs := match d with None => _ | Some _ => [] end). assert (finals errs = []) as He by (unfold errs; destruct d; [done|]; cbn; apply finals_captured).
  destruct (cDropSelf c && isSelfTraffic (Attributes rec1) peer ports) eqn:Es.
  { apply andb_true_iff in Es as [Es1 Es2]. exists (Reject "self_traffic"). rewrite zen_finals_app, He. split; [done|]. split; [|done]. by econstructor. }
  pose proof (observe_doc_fate c now family rec1 d snap p peer ports eq_refl) as Ho. destruct (observe_doc c now family rec1 d snap p) as [out p']. destruct Ho as ((x & -> & Hx & Hr) & Hk & _).
  exists x. rewrite zen_finals_app, He. change (Body rec1) with (Body rec) in Hx. rewrite Ep in Hx. destruct Hx; try done; (split; [done|]); (split; [by econstructor|]); cbn; eauto.
Qed.

Definition doc_fate (c : config) (peer : Addr) (ports : list Z) (x : string * string) (e : effect) : Prop :=
  familyFor x.1 = "" /\ e = Reject "unknown_family" \/ familyFor x.1 <> "" /\ fate c (familyFor x.1) x.2 peer ports e.

Lemma handleDoc_fate c now idx doc peer ports p : exists x, finals (handleDoc c now idx doc peer ports p).1 = [x] /\ doc_fate c peer ports (idx, doc) x.
Proof.
  unfold handleDoc, doc_fate. cbn [fst snd]. destruct (str_empty (familyFor idx)) eqn:E.
  - exists (Reject "unknown_family"). cbn. rewrite finals_captured. split; [done|]. left. split; [|done]. by destruct (familyFor idx).
  - pose proof (document_fate c now (familyFor idx) doc peer ports p) as H. destruct (process _ _ _ _ _ _ _) as [out p']. destruct H as (x & Hx & Hf & _). exists x. split; [done|]. right.
    split; [|done]. intros Hn. rewrite Hn in E. done.
Qed.

(** The documents of a body, with their index. *)
Definition docs (l : list bulkStep) : list (string * string) := omap (fun x => match x with Item _ idx _ (Some doc) => Some (idx, doc) | _ => None end) l.

Lemma run_steps_fate c now peer ports l : forall out p, exists xs, finals (fold_left (run_step c now peer ports) l (out, p)).1 = finals out ++ xs /\ Forall2 (doc_fate c peer ports) (docs l) xs.
Proof.
  induction l as [|x l IH]; intros out p; [exists []; cbn; rewrite app_nil_r; by split|]. cbn [fold_left].
  destruct x as [|op idx id [doc|]]; cbn [run_step].
  - destruct (IH (out ++ [ParseError "bulk"]) p) as (xs & -> & H). exists xs. rewrite zen_finals_app. cbn. by rewrite app_nil_r.
  - destruct (handleDoc_fate c now idx doc peer ports p) as (x & Hx & Hf). destruct (handleDoc c now idx doc peer ports p) as [o p']. cbn [fst] in Hx.
    destruct (IH (out ++ o) p') as (xs & -> & H). exists (x :: xs). rewrite zen_finals_app, Hx, <- app_assoc. split; [done|]. by constructor.
  - apply IH.
Qed.

(** *** Lines *)

Lemma take_line_length b : match (take_line b).2 with Some r => (String.length r < String.length b)%nat | None => True end.
Proof.
  induction b as [|c b IH]; [done|]. cbn [take_line]. destruct (Ascii.eqb c "010"); [cbn; lia|]. destruct (take_line b) as [l [r|]]; cbn in *; [lia|done].
Qed.
Lemma nextLine_shrinks b : b <> "" -> (String.length (nextLine b).2 < String.length b)%nat.
Proof.
  intros Hb. unfold nextLine. pose proof (take_line_length b) as H. destruct (take_line b) as [l [r|]]; cbn in *; [done|]. destruct b; [done|cbn; lia].
Qed.
Lemma nextLine_le b : (String.length (nextLine b).2 <= String.length b)%nat.
Proof. destruct (decide (b = "")) as [->|Hb]; [done|]. pose proof (nextLine_shrinks b Hb). lia. Qed.

(** The body's length is fuel enough: more changes nothing. *)
Lemma bulk_fuel dflt : forall f1 f2 rest, (String.length rest <= f1)%nat -> (String.length rest <= f2)%nat -> bulk_steps f1 dflt rest = bulk_steps f2 dflt rest.
Proof.
  induction f1 as [|f1 IH]; intros f2 rest H1 H2.
  { destruct rest; [|cbn in H1; lia]. by destruct f2. }
  destruct f2 as [|f2]; [destruct rest; [done|cbn in H2; lia]|]. cbn [bulk_steps]. destruct (str_empty rest) eqn:Ee; [done|]. assert (rest <> "") as Hne by (by intros ->).
  pose proof (nextLine_shrinks rest Hne) as Hs. destruct (nextLine rest) as [line rest1]. cbn [snd] in Hs. destruct (str_empty line); [apply IH; lia|].
  destruct (parseAction line) as [[[op idx] id]|]; [|f_equal; apply IH; lia]. destruct (carries op); [|f_equal; apply IH; lia].
  pose proof (nextLine_le rest1) as Hl. destruct (nextLine rest1) as [doc rest2]. cbn [snd] in Hl. f_equal. apply IH; lia.
Qed.

Definition nl : string := String "010" "".
Definition one_line (s : string) : Prop := newlines s = 0 /\ TrimSpace s = s /\ s <> "".
Lemma newlines_nonneg s : 0 <= newlines s.
Proof. induction s as [|c s IH]; cbn [newlines]; [lia|]. destruct (Ascii.eqb c "010"); lia. Qed.
Lemma take_line_app l r : newlines l = 0 -> take_line (l +:+ nl +:+ r) = (l, Some r).
Proof.
  induction l as [|c l IH]; intros H; [done|]. cbn [newlines] in H. pose proof (newlines_nonneg l). rewrite str_app_cons. cbn [take_line].
  destruct (Ascii.eqb c "010"); [lia|]. rewrite IH by lia. done.
Qed.
Lemma nextLine_app l r : one_line l -> nextLine (l +:+ nl +:+ r) = (l, r).
Proof. intros (H & Ht & _). unfold nextLine. rewrite (take_line_app l r H). by rewrite Ht. Qed.

(** A write: its action lines and documents. *)
Definition encode (l : list (string * (string * string * string) * string)) : string :=
  fold_right (fun x acc => x.1.1 +:+ nl +:+ x.2 +:+ nl +:+ acc) "" l.
Definition writable (x : string * (string * string * string) * string) : Prop :=
  one_line x.1.1 /\ one_line x.2 /\ parseAction x.1.1 = Some x.1.2 /\ carries x.1.2.1.1 = true.
Definition item_of (dflt : string) (x : string * (string * string * string) * string) : bulkStep :=
  let '(_, (op, idx, id), doc) := x in Item op (if str_empty idx then dflt else idx) (if str_empty id then "0" else id) (Some doc).

Lemma bulk_steps_encode dflt l : Forall writable l -> forall fuel, (String.length (encode l) <= fuel)%nat -> bulk_steps fuel dflt (encode l) = map (item_of dflt) l.
Proof.
  induction 1 as [|[[line [[op idx] id]] doc] l Hx _ IH]; intros fuel Hf; [by destruct fuel|]. destruct Hx as (Hl & Hd & Ha & Hc). cbn [fst snd] in *.
  assert (encode ((line, (op, idx, id), doc) :: l) = line +:+ nl +:+ (doc +:+ nl +:+ encode l)) as E by done. rewrite E in *.
  assert (line +:+ nl +:+ (doc +:+ nl +:+ encode l) <> "") as Hne by (destruct Hl as (_ & _ & Hl); by destruct line). destruct fuel as [|fuel].
  { exfalso. destruct (line +:+ nl +:+ (doc +:+ nl +:+ encode l)); [done|cbn in Hf; lia]. }
  cbn [bulk_steps]. replace (str_empty (line +:+ nl +:+ (doc +:+ nl +:+ encode l))) with false by (by destruct (line +:+ nl +:+ (doc +:+ nl +:+ encode l))).
  pose proof (nextLine_shrinks _ Hne) as Hs. rewrite (nextLine_app line _ Hl) in *. cbn [snd] in Hs.
  destruct Hl as (_ & _ & Hl). replace (str_empty line) with false by (by destruct line). rewrite Ha, Hc. pose proof (nextLine_le (doc +:+ nl +:+ encode l)) as Hle.
  rewrite (nextLine_app doc _ Hd) in *. cbn [snd] in Hle. destruct Hd as (_ & _ & Hd). replace (str_empty doc) with false by (by destruct doc). cbn [map item_of]. f_equal. apply IH. lia.
Qed.

(** A bulk write is read as it was sent.  A body of action lines that name a write,
    each followed by its document, gives exactly these documents with their indices in
    order, and one item of the answer for each; the path's index stands in where a line
    names none. *)
Theorem bulk_roundtrip c now ports r s (p : docProcessor) l (dflt := bulkDefaultIndex (rPath r)) :
  Forall writable l -> rBody r = Bytes (encode l) -> slen (encode l) <= maxBodyBytes -> 2 * zlen l < maxBulkItems -> slot c s = true ->
  exists out p', handleBulk c now ports r s p = (out, Done (map (fun x => (x.1.2.1.1, (if str_empty x.1.2.1.2 then dflt else x.1.2.1.2), if str_empty x.1.2.2 then "0" else x.1.2.2)) l), p')
    /\ (out, p') = fold_left (run_step c now (default AddrInvalid (rPeer r)) ports) (map (item_of dflt) l) ([BulkAccepted (slen (encode l))], p)
    /\ docs (map (item_of dflt) l) = map (fun x => ((if str_empty x.1.2.1.2 then dflt else x.1.2.1.2), x.2)) l.
Proof.
  intros Hw Hb Hlen Hn Hs. unfold handleBulk. rewrite Hs, Hb. cbn [negb readBody]. destruct (Z.ltb_spec maxBodyBytes (slen (encode l))); [lia|].
  assert (newlines (encode l) = 2 * zlen l) as Hnl.
  { clear -Hw. induction Hw as [|[[line a] doc] l (Hl & Hd & _) _ IH]; [done|]. assert (forall x y, newlines (x +:+ y) = newlines x + newlines y) as Happ.
    { induction x as [|ch x IHx]; intros y; [by rewrite str_app_nil_l|]. rewrite str_app_cons. cbn [newlines]. rewrite IHx. lia. }
    change (encode ((line, a, doc) :: l)) with (line +:+ nl +:+ doc +:+ nl +:+ encode l). rewrite !Happ, IH. destruct Hl as (Hl & _), Hd as (Hd & _). cbn [fst snd] in Hl, Hd. rewrite Hl, Hd.
    unfold zlen. cbn. lia. }
  rewrite Hnl. destruct (Z.ltb_spec maxBulkItems (2 * zlen l + 1)); [lia|]. rewrite (bulk_steps_encode _ l Hw) by lia.
  destruct (fold_left _ _ _) as [out p'] eqn:E. exists out, p'. split; [|split].
  - f_equal. f_equal. f_equal. clear. induction l as [|[[line [[op idx] id]] doc] l IH]; [done|]. cbn. f_equal. exact IH.
  - done.
  - clear. unfold docs. induction l as [|[[line [[op idx] id]] doc] l IH]; [done|]. cbn. f_equal. exact IH.
Qed.

(** [C36] The server's account.  Whatever the request: only a bulk write by an allowed and
    authenticated sender touches the processor or emits a record; then each document of the
    body, in order, ends in exactly one of a shipped record with the document verbatim, a
    counted filter, a counted record about our own stream, a counted rule, or a counted
    unknown family, and every action line has one item in the answer; any other request
    leaves the processor as it was, and its rejections are of the published vocabulary. *)
Theorem zen_accounts c now ports r s p : let '(out, a, s', p') := ServeHTTP c now ports r s p in
  match a with
  | Done items => peerAllowed c r = true /\ authOK c r = true /\ s' = s /\ exists b, readBody (rBody r) = Some b
      /\ (let steps := bulk_steps (String.length b) (bulkDefaultIndex (rPath r)) b in
          Forall2 (doc_fate c (default AddrInvalid (rPeer r)) ports) (docs steps) (finals out)
          /\ items = omap (fun x => match x with Item op idx id _ => Some (op, idx, id) | BadAction => None end) steps)
  | _ => p' = p /\ Forall (fun e => match e with Emit _ => False | Reject reason => reason ∈ RejectReasons | _ => True end) out
  end.
Proof.
  assert (forall c k, Forall (fun e => match e with Emit _ => False | Reject reason => reason ∈ RejectReasons | _ => True end) (captured c k)) as Hcap
    by (intros c0 k; unfold captured; destruct (cCapture c0); repeat constructor).
  assert (forall reason, existsb (str_eq reason) RejectReasons = true -> reason ∈ RejectReasons) as Hin.
  { intros reason H. apply existsb_exists in H as (x & Hx & E). apply String.eqb_eq in E. subst x. by apply list_elem_of_In. }
  unfold ServeHTTP. destruct (peerAllowed c r) eqn:Ep; cbn [negb]; [|split; [done|]; repeat constructor; by apply Hin].
  destruct (authOK c r) eqn:Ea; cbn [negb]; [|split; [done|]; repeat constructor; by apply Hin].
  destruct (isBulkPath (rPath r)).
  { unfold handleBulk. destruct (slot c s); cbn [negb]; [|split; [done|]; repeat constructor; by apply Hin]. destruct (readBody (rBody r)) as [b|] eqn:Eb; [|split; [done|]; repeat constructor; by apply Hin].
    destruct (_ <? _); [split; [done|]; repeat constructor; by apply Hin|]. set (steps := bulk_steps _ _ b).
    pose proof (run_steps_fate c now (default AddrInvalid (rPeer r)) ports steps [BulkAccepted (slen b)] p) as (xs & Hx & Hf). destruct (fold_left _ steps _) as [out p']. cbn [fst] in Hx.
    split; [done|]. split; [done|]. split; [done|]. exists b. split; [done|]. rewrite Hx. by split. }
  destruct (str_eq (rPath r) "/"); [by split|]. destruct (_ || _); [by split|]. destruct (str_eq _ "/_aliases"); [by split|]. destruct (HasSuffix _ "/_alias"); [by split|].
  destruct (HasSuffix _ "/_settings"); [by split|]. unfold handleIndex, unhandled. destruct (_ || _ || _).
  { split; [done|]. constructor; [by apply Hin|apply Hcap]. }
  destruct (_ || _); [destruct (hasIndex _ s); by split|]. destruct (str_eq _ "PUT").
  { destruct (addIndex _ s) as [[] s']; (split; [done|]); repeat constructor; by apply Hin. }
  destruct (str_eq _ "DELETE"); [by split|]. split; [done|]. constructor; [by apply Hin|apply Hcap].
Qed.

(** *** The registry *)

Record registry_ok (s : server) : Prop := {
  ro_bytes : indexBytes s = lsum slen (elements (indices s)) /\ indexBytes s <= maxIndexBytes;
  ro_size : Z.of_nat (size (indices s)) <= maxIndices;
  ro_names : forall idx, idx ∈ indices s -> slen idx <= maxIndexNameBytes }.

Lemma addIndex_ok idx s : registry_ok s -> registry_ok (addIndex idx s).2.
Proof.
  intros H. unfold addIndex, hasIndex. case_bool_decide as Hi; [done|]. destruct (_ || _) eqn:E; [done|]. bool_prop. destruct H as [[Hb1 Hb2] Hs Hn].
  assert (elements ({[idx]} ∪ indices s) ≡ₚ idx :: elements (indices s)) as Hp by (by apply elements_union_singleton).
  split; unfold update; cbn [snd indexBytes indices].
  - split; [|lia]. rewrite (lsum_perm _ _ _ Hp), lsum_cons. lia.
  - rewrite size_union by set_solver. rewrite size_singleton. lia.
  - intros i [->%elem_of_singleton|Hin]%elem_of_union; [lia|by apply Hn].
Qed.
Lemma dropIndex_ok idx s : registry_ok s -> registry_ok (dropIndex idx s).
Proof.
  intros H. unfold dropIndex, hasIndex. case_bool_decide as Hi; [|done]. destruct H as [[Hb1 Hb2] Hs Hn].
  assert (indices s = {[idx]} ∪ (indices s ∖ {[idx]})) as Hset by (apply set_eq; intros x; destruct (decide (x = idx)); set_solver).
  assert (elements (indices s) ≡ₚ idx :: elements (indices s ∖ {[idx]})) as Hp by (rewrite Hset at 1; apply elements_union_singleton; set_solver).
  assert (0 <= slen idx) by (unfold slen; lia). split; unfold update; cbn [indexBytes indices].
  - rewrite Hb1, (lsum_perm _ _ _ Hp), lsum_cons in *. split; lia.
  - rewrite Hset, size_union, size_singleton in Hs by set_solver. lia.
  - intros i Hin. apply Hn. set_solver.
Qed.

(** The registry of indices, whose names a sender chooses, holds at most 512 names of
    at most 255 bytes and 64 KiB together after any sequence of requests, it finds a
    name that was just created and not one just deleted, and a name it holds is always
    accepted again. *)
Theorem registry_bounded reqs (run := fold_left (fun '(s, p) q => let '(c, now, ports, r) := q in let '(_, _, s, p) := ServeHTTP c now ports r s p in (s, p)) reqs) p :
  let s := (run (newServer, p)).1 in
  Z.of_nat (size (indices s)) <= maxIndices /\ lsum slen (elements (indices s)) <= maxIndexBytes /\ (forall idx, idx ∈ indices s -> slen idx <= maxIndexNameBytes)
  /\ (forall idx, hasIndex idx s = true -> addIndex idx s = (true, s)) /\ forall idx, hasIndex idx (dropIndex idx s) = false
  /\ ((addIndex idx s).1 = true -> hasIndex idx (addIndex idx s).2 = true).
Proof.
  assert (forall c now ports r s (q : docProcessor), registry_ok s -> registry_ok (ServeHTTP c now ports r s q).1.2) as Hstep.
  { intros c now ports r s q H. unfold ServeHTTP. destruct (negb _); [done|]. destruct (negb _); [done|]. destruct (isBulkPath _); [by destruct (handleBulk _ _ _ _ _ _) as [[? ?] ?]|].
    destruct (str_eq _ _); [done|]. destruct (_ || _); [done|]. destruct (str_eq _ _); [done|]. destruct (HasSuffix _ _); [done|]. destruct (HasSuffix _ _); [done|].
    unfold handleIndex, unhandled. destruct (_ || _ || _); [done|]. destruct (_ || _); [done|]. destruct (str_eq _ "PUT").
    - pose proof (addIndex_ok (TrimSlashes (rPath r)) s H) as Ha. by destruct (addIndex _ s) as [[] s'].
    - destruct (str_eq _ "DELETE"); [by apply dropIndex_ok|done]. }
  assert (registry_ok newServer) as H0.
  { split; [split; [done|]|done|]; [cbn; unfold maxIndexBytes; lia|]. intros idx Hi. by apply not_elem_of_empty in Hi. }
  assert (forall s q, registry_ok s -> registry_ok (run (s, q)).1) as Hrun.
  { unfold run. induction reqs as [|[[[c now] ports] r] reqs IH]; intros s q H; [done|]. cbn [fold_left]. specialize (Hstep c now ports r s q H).
    destruct (ServeHTTP c now ports r s q) as [[[? ?] s'] q']. by apply IH. }
  cbv zeta. specialize (Hrun newServer p H0). set (s := (run (newServer, p)).1) in *. clearbody s. destruct Hrun as [[Hb1 Hb2] Hs Hn].
  split; [done|]. split; [lia|]. split; [done|]. split; [intros idx Hi; unfold addIndex; by rewrite Hi|]. intros idx. unfold hasIndex, dropIndex, addIndex, hasIndex. split.
  - destruct (bool_decide (idx ∈ indices s)) eqn:E; [|done]. unfold update. cbn [indices]. apply bool_decide_eq_false. set_solver.
  - destruct (bool_decide (idx ∈ indices s)) eqn:E; [done|]. destruct (_ || _); [done|]. intros _. unfold update. cbn [snd indices]. apply bool_decide_eq_true. set_solver.
Qed.

(** *** Domains *)

(** A document asked for a name, and was answered: a DNS document of the client with the
    query and an answer that is the address. *)
Definition asked (family doc : string) (client answer : Addr) (q : string) : Prop :=
  family = "dns" /\ exists d tok, decode doc = Some d /\ Query d = q /\ ParseAddr (SrcIP d) = Some client /\ tok ∈ FieldsFunc (Answers d) /\ ParseAddr tok = Some answer.

Definition from_doc (now : Time) (family doc : string) (o : Dns.dop) : Prop :=
  Dns.dtime o = now /\ match o with Dns.DPut c a q _ => asked family doc c a q | Dns.DLookup _ _ _ => True end.

Lemma feed_ops d doc now c : decode doc = d -> exists ops, feedDNSCache d now c = Dns.drun ops c /\ Forall (from_doc now "dns" doc) ops.
Proof.
  intros Hd. destruct d as [d|]; [|by exists []]. unfold feedDNSCache. destruct (_ || _); [by exists []|]. destruct (ParseAddr (SrcIP d)) as [client|] eqn:Ec; [|by exists []].
  assert (forall l c, (forall tok, tok ∈ l -> tok ∈ FieldsFunc (Answers d)) -> exists ops,
    fold_left (fun c tok => match ParseAddr tok with Some answer => Dns.Put client answer (Query d) now c | None => c end) l c = Dns.drun ops c /\ Forall (from_doc now "dns" doc) ops) as H.
  { induction l as [|tok l IH]; intros c0 Hl; [by exists []|]. cbn [fold_left]. destruct (ParseAddr tok) as [a|] eqn:Ea.
    - destruct (IH (Dns.Put client a (Query d) now c0)) as (ops & -> & Hf); [intros t Ht; apply Hl; by constructor|]. exists (Dns.DPut client a (Query d) now :: ops). split; [done|].
      constructor; [|done]. split; [done|]. split; [done|]. exists d, tok. split; [done|]. split; [done|]. split; [done|]. split; [apply Hl; constructor|done].
    - apply IH. intros t Ht. apply Hl. by constructor. }
  by apply H.
Qed.

Lemma flow_ops family d snap cache geo now : exists ops, (flowFromDoc family d snap cache geo now).1.2 = option_map (Dns.drun ops) cache /\ forall doc, Forall (from_doc now family doc) ops.
Proof.
  assert (exists ops, cache = option_map (Dns.drun ops) cache /\ forall doc, Forall (from_doc now family doc) ops) as H0 by (exists []; split; [by destruct cache|by intros; constructor]).
  unfold flowFromDoc. destruct (negb _); [done|]. destruct d as [d|]; [|done]. destruct (ParseAddr (SrcIP d)) as [src|]; [|done]. destruct (ParseAddr (DstIP d)) as [dst|]; [|done].
  destruct (zenBytes _ _) as [tx txF]. destruct (zenBytes _ _) as [rx rxF]. cbv zeta. destruct cache as [c|].
  - exists [Dns.DLookup (Unmap src) (Unmap dst) now]. split; [|intros; repeat constructor]. destruct (Dns.Lookup (Unmap src) (Unmap dst) now c) as [dom c'] eqn:E.
    set (r := match dom with Some _ => _ | None => _ end). destruct (Geo_Enrich geo r) as [rf geo']. cbn. by rewrite E.
  - set (r := _ <| rDirection := _ |>). destruct (Geo_Enrich geo r) as [rf geo']. exists []. split; [done|]. by intros; constructor.
Qed.

Lemma finish_state c rec p : (finish c rec p).2 = p.
Proof. unfold finish. by destruct (excludedBy _ _). Qed.

Lemma process_ops c now family doc peer ports p : exists ops, pDns (process c now family doc peer ports p).2 = option_map (Dns.drun ops) (pDns p) /\ Forall (from_doc now family doc) ops.
Proof.
  assert (exists ops, pDns p = option_map (Dns.drun ops) (pDns p) /\ Forall (from_doc now family doc) ops) as H0 by (exists []; split; [by destruct (pDns p)|constructor]).
  unfold process. destruct (match cFamilies c with Some _ => _ | None => _ end); [done|]. set (snap := if cEnrich c then _ else None).
  destruct (parseDocFull decode family doc snap) as [rec d] eqn:Ed. assert (decode doc = d) as Hd by (unfold parseDocFull in Ed; destruct (decode doc); by injection Ed).
  set (rec1 := rec <| lSource := sourceName |>). destruct (cDropSelf c && _); [done|].
  assert (exists ops, pDns (observe_doc c now family rec1 d snap p).2 = option_map (Dns.drun ops) (pDns p) /\ Forall (from_doc now family doc) ops) as H1; [|by destruct (observe_doc _ _ _ _ _ _ _)].
  unfold observe_doc. set (p1 := p <| pSink ::= _ |>). set (p2 := if str_eq family "dns" then _ else p1).
  assert (exists ops, pDns p2 = option_map (Dns.drun ops) (pDns p) /\ Forall (from_doc now family doc) ops) as (ops1 & H2 & Hf1).
  { unfold p2. destruct (str_eq family "dns") eqn:E; [|done]. apply String.eqb_eq in E. subst family. unfold p1, update. cbn [pDns]. destruct (pDns p) as [c0|]; [|by exists []; split; [|constructor]].
    cbn [option_map]. destruct (feed_ops d doc now c0 Hd) as (ops & -> & Hf). by exists ops. }
  clearbody p2. destruct (pFlow p2) as [sink|]; [|rewrite finish_state; by exists ops1].
  destruct (flow_ops family d snap (pDns p2) (pGeo p2) now) as (ops2 & H3 & Hf2). destruct (flowFromDoc family d snap (pDns p2) (pGeo p2) now) as [[fr dns] geo]. cbn [fst snd] in H3.
  exists (ops1 ++ ops2). split; [|apply Forall_app; by split]. assert (dns = option_map (Dns.drun (ops1 ++ ops2)) (pDns p)) as Hdns.
  { rewrite H3, H2. destruct (pDns p); [|done]. cbn. f_equal. unfold Dns.drun. by rewrite fold_left_app. }
  destruct fr as [fr|]; rewrite finish_state; exact Hdns.
Qed.

(** A session: documents, by either transport. *)
Record doc_event := mkEvent { ev_config : config; ev_now : Time; ev_family : string; ev_doc : string; ev_peer : Addr; ev_ports : list Z }.
Definition run_doc (p : docProcessor) (e : doc_event) : docProcessor := (process (ev_config e) (ev_now e) (ev_family e) (ev_doc e) (ev_peer e) (ev_ports e) p).2.

Lemma session_ops evs : forall p, exists ops, pDns (fold_left run_doc evs p) = option_map (Dns.drun ops) (pDns p)
  /\ Forall (fun o => exists e, e ∈ evs /\ from_doc (ev_now e) (ev_family e) (ev_doc e) o) ops.
Proof.
  induction evs as [|e evs IH]; intros p; [exists []; split; [cbn; by destruct (pDns p)|constructor]|]. cbn [fold_left]. destruct (IH (run_doc p e)) as (ops2 & H2 & Hf2).
  destruct (process_ops (ev_config e) (ev_now e) (ev_family e) (ev_doc e) (ev_peer e) (ev_ports e) p) as (ops1 & H1 & Hf1). exists (ops1 ++ ops2). split.
  - rewrite H2. unfold run_doc. rewrite H1. destruct (pDns p); [|done]. cbn. f_equal. unfold Dns.drun. by rewrite fold_left_app.
  - apply Forall_app. split; [apply (Forall_impl _ _ _ Hf1); intros o Ho; exists e; split; [constructor|done]|].
    apply (Forall_impl _ _ _ Hf2). intros o (e' & He & Ho). exists e'. split; [by constructor|done].
Qed.

Lemma last_put_in k ops q t : Dns.last_put k ops = Some (q, t) -> exists c a, Dns.DPut c a q t ∈ ops /\ Dns.dns_key c a = k.
Proof.
  induction ops as [|o ops IH] using rev_ind; [done|]. rewrite Dns.last_put_snoc. destruct o as [c a q' t'|c a t'].
  - destruct (decide (Dns.dns_key c a = k)) as [Hk|].
    + intros [= -> ->]. exists c, a. split; [|done]. apply elem_of_app. right. by apply list_elem_of_singleton.
    + intros H. destruct (IH H) as (c' & a' & Hin & Hk). exists c', a'. split; [apply elem_of_app; by left|done].
  - intros H. destruct (IH H) as (c' & a' & Hin & Hk). exists c', a'. split; [apply elem_of_app; by left|done].
Qed.

(** A flow's domain was asked for.  After any session of documents over a new DNS
    cache, a connection's flow record carries a domain only if a DNS document of the
    session, of the same client, asked for it and was answered with the connection's
    destination, at most the cache's lifetime ago. *)
Theorem domain_asked size t evs p d snap geo now r :
  0 < size -> 0 <= t < maxDuration -> Forall (fun e => 0 < ev_now e) evs -> pDns p = Some (Dns.NewDNSCache size t) ->
  (flowFromDoc "flow" (Some d) snap (pDns (fold_left run_doc evs p)) geo now).1.1 = Some r -> DstDomain (Enrich r) <> "" ->
  exists e client answer, e ∈ evs /\ asked (ev_family e) (ev_doc e) client answer (DstDomain (Enrich r))
    /\ Unmap client = SrcAddr r /\ Unmap answer = DstAddr r /\ time_Sub now (ev_now e) <= t.
Proof.
  intros Hs Ht Hev Hp Hr Hq. destruct (session_ops evs p) as (ops & Hdns & Hops). rewrite Hp in Hdns. cbn [option_map] in Hdns. rewrite Hdns in Hr.
  pose proof (flow_record_spec "flow" d snap (Some (Dns.drun ops (Dns.NewDNSCache size t))) geo now) as Hspec. rewrite Hr in Hspec.
  destruct Hspec as (_ & src & dst & _ & _ & Hsrc & Hdst & _ & _ & _ & _ & _ & Hdom). destruct (Dns.Lookup (Unmap src) (Unmap dst) now _).1 as [q|] eqn:Eq; cbn in Hdom; [|done].
  assert (Forall (fun o => 0 < Dns.dtime o) ops) as Htime.
  { apply (Forall_impl _ _ _ Hops). intros o (e & He & Hd & _). rewrite Hd. rewrite Forall_forall in Hev. by apply Hev. }
  destruct (Dns.faithful_Lookup _ _ _ _ _ _ (Dns.faithful_run size t ops Hs Ht Htime) Eq) as (at_ & Hlast & Hage). destruct (Dns.drun_conf ops (Dns.NewDNSCache size t)) as [_ Htt]. cbn in Htt.
  rewrite Htt in Hage. apply last_put_in in Hlast as (c & a & Hin & Hk). rewrite Forall_forall in Hops. destruct (Hops _ Hin) as (e & He & Htime' & Hasked). cbn in Htime'. subst at_.
  exists e, c, a. rewrite Hdom. split; [done|]. split; [exact Hasked|]. unfold Dns.dns_key in Hk. injection Hk as Hk1 Hk2. rewrite Hsrc, Hdst, Hk1, Hk2. rewrite !Unmap_idemp. done.
Qed.

(** Documents by syslog.  A line the processor takes ends in exactly one record, with
    the line's document verbatim, or one counted rejection; a line that is not of its
    shape is left to the generic path untouched. *)
Theorem syslog_documents c now env peer ports p : let '(handled, out, p') := syslogProcess c now env peer ports p in
  match parseSyslogPayload (Envelope.Message env) with
  | None => handled = false /\ out = [] /\ p' = p
  | Some (fam, data) => handled = true /\ exists x, finals out = [x]
      /\ match indexFamilies !! fam with
         | Some family => x = Reject "peer" /\ p' = p \/ fate c family data peer ports x
         | None => (x = Reject "peer" \/ x = Reject "unknown_family") /\ p' = p
         end
  end.
Proof.
  unfold syslogProcess. destruct (parseSyslogPayload _) as [[fam data]|]; [|done]. destruct (negb _ && negb _).
  { split; [done|]. exists (Reject "peer"). split; [done|]. destruct (indexFamilies !! fam); auto. }
  destruct (indexFamilies !! fam) as [family|].
  - pose proof (document_fate c now family data peer ports p) as H. destruct (process c now family data peer ports p) as [out p']. destruct H as (x & Hx & Hf & _). split; [done|]. eauto.
  - split; [done|]. exists (Reject "unknown_family"). cbn. rewrite finals_captured. auto.
Qed.

End Processor.

(** ** Instances *)

(** The processor behind the syslog receiver's interface: what it rejects is kept in a
    log, and the clock is read once for each line. *)
Record zenProgram (K F : Type) := mkProgram { zproc : docProcessor (K := K) (F := F); zlog : list effect; zclock : nat -> Time; zcalls : nat }.
#[global] Arguments mkProgram {K F} _ _ _ _.
#[global] Arguments zproc {K F} _.
#[global] Arguments zlog {K F} _.
#[global] Arguments zclock {K F} _ _.
#[global] Arguments zcalls {K F} _.
Definition records (l : list effect) : list LogRecord := omap (fun e => match e with Emit rec => Some rec | _ => None end) l.
Definition zen_program {K F} `{!ZenSink K} `{!Sink F} (decode : string -> option zenDoc) (c : config) : Receiver.ProgramProcessor (zenProgram K F) := {|
  Receiver.Handles := fun _ program => str_eq program sourceName;
  Receiver.Process := fun env peer ports z =>
    let '(handled, out, p) := syslogProcess decode c (zclock z (zcalls z)) env peer ports (zproc z) in
    (handled, records out, mkProgram p (zlog z ++ out) (zclock z) (S (zcalls z))) |}.

(** Nothing is observed, and flow records are kept. *)
#[export] Instance unit_sink : ZenSink unit := {| ObserveZenarmor := fun _ s => (true, s); ObserveZenarmorDevice := fun _ _ _ s => s |}.
#[export] Instance list_sink : Sink (list Record_) := fun l r => l ++ [r].

Definition demo_conf : config := mkConfig None false false [] false [] "" "" 0.
Definition demo_doc (proto src dst query answers : string) : zenDoc :=
  mkZenDoc 1 2 proto "ixl0" "" "out" "" "" "" None src 50000 "" "" "" dst 443 "" "" "" None None None "" "" "" 1 100 0 1 200 0 query "" "" answers 0 None [] "" "" "" "" "" "" "" "" "" "" 0 0
    "" "" None "" "" "".
Definition demo_decode (s : string) : option zenDoc :=
  if str_eq s "{dns}" then Some (demo_doc "UDP" "10.0.0.1" "10.0.0.254" "example.org" "93.184.216.34") else Some (demo_doc "TCP" "10.0.0.1" "93.184.216.34" "" "").
Definition demo_proc : docProcessor (K := unit) (F := list Record_) := mkProc tt (Some []) (Some (Dns.NewDNSCache 10 (5 * Second))) None Enrich.NewCache.
Definition demo_session : list doc_event := [mkEvent demo_conf 10 "dns" "{dns}" AddrInvalid []].
Definition demo_flow : Record_ := default zeroRecord (flowFromDoc "flow" (demo_decode "{conn}") None (pDns (fold_left (run_doc demo_decode) demo_session demo_proc)) None 20).1.1.

Lemma domain_asked_witness : DstDomain (Enrich demo_flow) = "example.org"
  /\ exists e client answer, e ∈ demo_session /\ asked demo_decode (ev_family e) (ev_doc e) client answer (DstDomain (Enrich demo_flow)) /\ Unmap client = SrcAddr demo_flow
    /\ Unmap answer = DstAddr demo_flow /\ time_Sub 20 (ev_now e) <= 5 * Second.
Proof.
  split; [vm_compute; reflexivity|].
  apply (domain_asked demo_decode 10 (5 * Second) demo_session demo_proc (demo_doc "TCP" "10.0.0.1" "93.184.216.34" "" "") None None 20 demo_flow).
  - lia.
  - vm_compute. split; [discriminate|reflexivity].
  - repeat constructor.
  - reflexivity.
  - vm_compute. reflexivity.
  - vm_compute. discriminate.
Defined.

Definition demo_parse (line : string) : option (string * string * string) := if HasPrefix line "{index" then Some ("index", "zenarmor_conn_write", "") else None.
Lemma bulk_roundtrip_witness : exists out p',
  handleBulk demo_decode demo_parse demo_conf 5 [9200] (mkRequest (Some (Addr4 1)) "POST" "/_bulk" None (Bytes (encode [("{index}", ("index", "zenarmor_conn_write", ""), "{conn}")]))) newServer demo_proc
  = (out, Done [("index", "zenarmor_conn_write", "0")], p') /\ docs [Item "index" "zenarmor_conn_write" "0" (Some "{conn}")] = [("zenarmor_conn_write", "{conn}")].
Proof.
  destruct (bulk_roundtrip demo_decode demo_parse demo_conf 5 [9200] (mkRequest (Some (Addr4 1)) "POST" "/_bulk" None (Bytes (encode [("{index}", ("index", "zenarmor_conn_write", ""), "{conn}")]))) newServer demo_proc
    [("{index}", ("index", "zenarmor_conn_write", ""), "{conn}")]) as (out & p' & E & _ & Hd).
  - repeat constructor; done.
  - reflexivity.
  - vm_compute. discriminate.
  - reflexivity.
  - reflexivity.
  - exists out, p'. split; [exact E|exact Hd].
Defined.

End ZenReceiver.
