(* ===== verification/ZenStore.v ===== *)
(** * From a Zenarmor document to a scrape

    The Zenarmor receiver with the log event store as its metric sink: what a bulk write
    does to the store is a run of the store, with one Zenarmor observation for each
    document that passed the filters. *)

From stdpp Require Import base decidable list gmap strings.
From Stdlib Require Import ZArith Lia Ascii.
From S2P Require Import Prelude Netip Record GoStrings Enrich LogQueue Registry Receiver Bounded LogEvents EndToEnd Zenarmor ZenReceiver.
Import Queue LogEvents EndToEnd Zenarmor ZenReceiver.

Module ZenStore.

#[export] Instance StoreSink : ZenSink LogEventStore := {|
  ObserveZenarmor := fun o => LogEvents.ObserveZenarmor (oFamily o) (oAction o) (oCategory o) (oInterface o) (oRCode o) (oSeverity o) (oStatusClass o);
  ObserveZenarmorDevice := fun name category iface s => (LogEvents.ObserveZenarmorDevice name category iface s).2 |}.

(** The families of the Zenarmor observations a run offered the store, taken or not. *)
Definition zen_offered : list label -> list string :=
  omap (fun l => match l with LObserve cmd _ => if decide (is_observation zen cmd) then Some (valueAt 0 cmd) else None | _ => None end).
Lemma zen_offered_app a b : zen_offered (a ++ b) = zen_offered a ++ zen_offered b.
Proof. apply omap_app. Qed.

(** One call of the store, in a store that runs or has been closed. *)
Lemma observe_feeds cmd s : exists o, feeds s (observe cmd s).2 [LObserve cmd o].
Proof.
  destruct (stopped s) eqn:Es; eexists; (split; [change [?l] with ([] ++ [l])|by repeat constructor]); (econstructor; [constructor|]);
    [by apply Step_refused|by apply Step_observe].
Qed.

Lemma observation_family family attrs : oFamily (observation family attrs) = family.
Proof. unfold observation. by repeat destruct (str_eq family _). Qed.

Lemma derived_feeds family attrs s : exists tr, feeds s (observeDerived family attrs s).2 tr /\ zen_offered tr = [family].
Proof.
  unfold observeDerived. set (iface := firstNonEmpty _ _). set (s1 := if str_empty _ then s else _).
  assert (exists tr, feeds s s1 tr /\ zen_offered tr = []) as (tr1 & F1 & E1).
  { unfold s1. destruct (str_empty _) eqn:En; [exists []; split; [apply feeds_nil|done]|]. cbn. unfold LogEvents.ObserveZenarmorDevice. rewrite En.
    edestruct observe_feeds as [o Ho]. eexists. split; [exact Ho|done]. }
  clearbody s1. cbn. unfold LogEvents.ObserveZenarmor. edestruct observe_feeds as [o Ho]. eexists (tr1 ++ _). split; [eapply feeds_trans; [exact F1|exact Ho]|].
  rewrite zen_offered_app, E1. cbn. by rewrite observation_family.
Qed.

Section Bulk.
Context {F : Type} `{!Sink F}.
Variable decode : string -> option zenDoc.
Variable parseAction : string -> option (string * string * string).
Notation docProcessor := (docProcessor (K := LogEventStore) (F := F)).

(** The families of the documents whose end is no rejection. *)
Fixpoint counted_families (ds : list (string * string)) (xs : list effect) : list string :=
  match ds, xs with
  | d :: ds, x :: xs => (if is_reject x then [] else [familyFor d.1]) ++ counted_families ds xs
  | _, _ => []
  end.

Lemma document_feeds c now idx doc peer ports (p : docProcessor) : let '(out, p') := handleDoc decode c now idx doc peer ports p in
  exists x tr, finals out = [x] /\ doc_fate c peer ports (idx, doc) x /\ feeds (pSink p) (pSink p') tr /\ zen_offered tr = if is_reject x then [] else [familyFor idx].
Proof.
  unfold handleDoc. destruct (str_empty (familyFor idx)) eqn:E.
  - exists (Reject "unknown_family"), []. cbn. rewrite finals_captured. split; [done|]. split; [|split; [apply feeds_nil|done]]. left. cbn. split; [|done]. destruct (familyFor idx); [done|discriminate E].
  - pose proof (document_fate decode c now (familyFor idx) doc peer ports p) as H. destruct (process _ _ _ _ _ _ _ _) as [out p']. destruct H as (x & Hx & Hf & Ho).
    exists x. assert (exists tr, feeds (pSink p) (pSink p') tr /\ zen_offered tr = if is_reject x then [] else [familyFor idx]) as (tr & H1 & H2).
    { destruct x; cbn in Ho |- *; try (destruct Ho as [attrs ->]; apply derived_feeds). rewrite Ho. exists []. split; [apply feeds_nil|done]. }
    exists tr. split; [done|]. split; [|by split]. right. split; [|done]. intros Hn. cbn in Hn. by rewrite Hn in E.
Qed.

Lemma steps_feed c now peer ports l : forall out (p : docProcessor), let '(out', p') := fold_left (run_step decode c now peer ports) l (out, p) in
  exists xs tr, finals out' = finals out ++ xs /\ Forall2 (doc_fate c peer ports) (docs l) xs /\ feeds (pSink p) (pSink p') tr /\ zen_offered tr = counted_families (docs l) xs.
Proof.
  induction l as [|x l IH]; intros out p; cbn [fold_left].
  { exists [], []. rewrite app_nil_r. split; [done|]. split; [constructor|]. split; [apply feeds_nil|done]. }
  destruct x as [|op idx id [doc|]]; cbn [run_step].
  - specialize (IH (out ++ [ParseError "bulk"]) p). rewrite zen_finals_app in IH. cbn in IH. rewrite app_nil_r in IH. exact IH.
  - pose proof (document_feeds c now idx doc peer ports p) as Hd. destruct (handleDoc _ _ _ _ _ _ _ _) as [o p1]. destruct Hd as (x & tr & Hx & Hf & Ht & Ez).
    specialize (IH (out ++ o) p1). destruct (fold_left _ _ _) as [out' p']. destruct IH as (xs & tr' & Hxs & Hfs & Ht' & Ez').
    exists (x :: xs), (tr ++ tr'). rewrite Hxs, zen_finals_app, Hx, <- app_assoc. split; [done|]. split; [by constructor|]. split; [by eapply feeds_trans|].
    rewrite zen_offered_app, Ez, Ez'. done.
  - apply IH.
Qed.

(** The counters see every document an operator keeps and no other.  A bulk write
    does nothing to the log event store but offer it observations, without waiting; a
    refused write offers none; and a write that is taken offers exactly one Zenarmor
    observation for each of its documents that was shipped or excluded by a rule, in the
    order of the documents and under their family, and none for the ones rejected as
    unknown, filtered or the exporter's own stream. *)
Theorem bulk_feeds_store c now ports r s (p : docProcessor) :
  let '(out, a, p') := handleBulk decode parseAction c now ports r s p in
  exists tr, steps (pSink p) tr (pSink p') /\ Forall observes tr
    /\ match a with
       | Done _ => exists b xs, readBody (rBody r) = Some b /\ finals out = xs
            /\ let ds := docs (bulk_steps parseAction (String.length b) (bulkDefaultIndex (rPath r)) b) in
               Forall2 (doc_fate c (default AddrInvalid (rPeer r)) ports) ds xs /\ zen_offered tr = counted_families ds xs
       | _ => tr = []
       end.
Proof.
  assert (forall a, (forall items, a <> Done items) -> exists tr, steps (pSink p) tr (pSink p) /\ Forall observes tr /\ match a with Done _ => False | _ => tr = [] end) as Hrefused.
  { intros a Ha. exists []. split; [constructor|]. split; [constructor|]. destruct a; try done. by destruct (Ha items). }
  unfold handleBulk. destruct (negb (slot c s)); [by apply (Hrefused (Status 503))|]. destruct (readBody (rBody r)) as [b|] eqn:Eb; [|by apply (Hrefused (Status 400))].
  destruct (maxBulkItems <? newlines b + 1); [by apply (Hrefused (Status 400))|]. clear Hrefused.
  pose proof (steps_feed c now (default AddrInvalid (rPeer r)) ports (bulk_steps parseAction (String.length b) (bulkDefaultIndex (rPath r)) b) [BulkAccepted (slen b)] p) as H.
  destruct (fold_left _ _ _) as [out p']. destruct H as (xs & tr & Hx & Hf & [Hs Ho] & Ez). exists tr. split; [done|]. split; [done|]. exists b, xs. by repeat split.
Qed.

End Bulk.
End ZenStore.
