(* ===== verification/GoJson.v ===== *)
(** * [encoding/json] of the standard library

    What the log sources use of it: strings as [Marshal] escapes them, with HTML
    characters, control bytes and bytes that are not UTF-8; compact values; and the
    decoder of a value into the type [any], with numbers kept as they are written. *)

From stdpp Require Import base decidable list gmap strings pretty.
From Stdlib Require Import ZArith Lia Ascii.
From S2P Require Import Prelude Order Netip GoStrings Registry GoRegexp.
Import Regexp.

Module Json.

(** The members of an object keep their order: that of the struct's fields for a value
    to print, sorted for one of the type [map[string]any]. *)
Inductive json :=
| JNull
| JBool (b : bool)
| JNum (lit : string)
| JStr (s : string)
| JArr (l : list json)
| JObj (l : list (string * json)).

Definition JInt (z : Z) : json := JNum (Registry.FormatInt z).

(** ** Strings *)

Definition dq : ascii := "034".
Definition chr (z : Z) : ascii := ascii_of_N (Z.to_N z).
Definition hex2 (z : Z) : string := String (Netip.hex_digit (z / 16 mod 16)) (String (Netip.hex_digit (z mod 16)) "").

Definition quote_ascii (c : ascii) : string :=
  let b := byte_of c in
  if (b =? 34) || (b =? 92) then String "\" (String c "")
  else if b =? 8 then "\b" else if b =? 12 then "\f" else if b =? 10 then "\n" else if b =? 13 then "\r" else if b =? 9 then "\t"
  else if (b <? 32) || (b =? 38) || (b =? 60) || (b =? 62) then "\u00" +:+ hex2 b
  else String c "".

(** A byte that is not UTF-8 reads as U+FFFD; the two line separators are escaped. *)
Definition invalid (t : token) : bool := (t.1 =? RuneError) && (String.length t.2 =? 1)%nat.
Definition quote_rune (t : token) : string :=
  if t.1 <? 128 then match t.2 with String c _ => quote_ascii c | EmptyString => "" end
  else if invalid t then "\ufffd"
  else if (t.1 =? 8232) || (t.1 =? 8233) then "\u202" +:+ String (Netip.hex_digit (t.1 mod 16)) ""
  else t.2.
Definition quote_body (s : string) : string := foldr (fun t acc => quote_rune t +:+ acc) "" (runes s).
Definition quote (s : string) : string := String dq (quote_body s +:+ String dq "").

(** [utf8.AppendRune] *)
Definition encode_rune (r : Z) : string :=
  if r <? 128 then String (chr r) ""
  else if r <? 2048 then String (chr (192 + r / 64)) (String (chr (128 + r mod 64)) "")
  else if ((55296 <=? r) && (r <=? 57343)) || (1114111 <? r) then String (chr 239) (String (chr 191) (String (chr 189) ""))
  else if r <? 65536 then String (chr (224 + r / 4096)) (String (chr (128 + r / 64 mod 64)) (String (chr (128 + r mod 64)) ""))
  else String (chr (240 + r / 262144)) (String (chr (128 + r / 4096 mod 64)) (String (chr (128 + r / 64 mod 64)) (String (chr (128 + r mod 64)) ""))).

Definition hex_value (c : ascii) : option Z :=
  let b := byte_of c in
  if (48 <=? b) && (b <=? 57) then Some (b - 48)
  else if (97 <=? b) && (b <=? 102) then Some (b - 87)
  else if (65 <=? b) && (b <=? 70) then Some (b - 55)
  else None.
Definition hex4 (s : string) : option (Z * string) :=
  match s with
  | String a (String b (String c (String d r))) =>
      match hex_value a, hex_value b, hex_value c, hex_value d with
      | Some a, Some b, Some c, Some d => Some (((a * 16 + b) * 16 + c) * 16 + d, r)
      | _, _, _, _ => None
      end
  | _ => None
  end.
(** [getu4] *)
Definition getu4 (s : string) : option (Z * string) :=
  match s with String a (String b r) => if Ascii.eqb a "\" && Ascii.eqb b "u" then hex4 r else None | _ => None end.

(** One step of reading a string after its opening quote. *)
Inductive chunk := Close (rest : string) | Chunk (bytes rest : string) | Bad.
Definition escaped (s : string) : chunk :=
  match s with
  | EmptyString => Bad
  | String c r =>
      let b := byte_of c in
      if (b =? 34) || (b =? 92) || (b =? 47) then Chunk (String c "") r
      else if b =? 98 then Chunk (String "008" "") r
      else if b =? 102 then Chunk (String "012" "") r
      else if b =? 110 then Chunk (String "010" "") r
      else if b =? 114 then Chunk (String "013" "") r
      else if b =? 116 then Chunk (String "009" "") r
      else if b =? 117 then
        match hex4 r with
        | None => Bad
        | Some (u, r) =>
            if (55296 <=? u) && (u <=? 57343) then
              match getu4 r with
              | Some (u2, r2) =>
                  if (u <? 56320) && (56320 <=? u2) && (u2 <=? 57343)
                  then Chunk (encode_rune (65536 + (u - 55296) * 1024 + (u2 - 56320))) r2
                  else Chunk (encode_rune RuneError) r
              | None => Chunk (encode_rune RuneError) r
              end
            else Chunk (encode_rune u) r
        end
      else Bad
  end.
Definition unquote1 (s : string) : chunk :=
  match s with
  | EmptyString => Bad
  | String c r =>
      if Ascii.eqb c dq then Close r
      else if Ascii.eqb c "\" then escaped r
      else if byte_of c <? 32 then Bad
      else match rune_of s with
           | Some (u, w) => Chunk (if invalid (u, str_take w s) then encode_rune RuneError else str_take w s) (str_drop w s)
           | None => Bad
           end
  end.
Fixpoint unquote_fuel (fuel : nat) (s : string) : option (string * string) :=
  match fuel with
  | O => None
  | S fuel =>
      match unquote1 s with
      | Close r => Some ("", r)
      | Chunk b r => match unquote_fuel fuel r with Some (x, r) => Some (b +:+ x, r) | None => None end
      | Bad => None
      end
  end.
Definition unquote (s : string) : option (string * string) := unquote_fuel (S (String.length s)) s.

(** ** Values *)

Fixpoint print (v : json) : string :=
  match v with
  | JNull => "null"
  | JBool b => if b then "true" else "false"
  | JNum lit => lit
  | JStr s => quote s
  | JArr l =>
      String "[" ((fix elems (l : list json) : string :=
                     match l with
                     | [] => "]"
                     | [v] => print v +:+ "]"
                     | v :: l => print v +:+ String "," (elems l)
                     end) l)
  | JObj l =>
      String "{" ((fix membs (l : list (string * json)) : string :=
                     match l with
                     | [] => "}"
                     | [(k, v)] => quote k +:+ String ":" (print v +:+ "}")
                     | (k, v) :: l => quote k +:+ String ":" (print v +:+ String "," (membs l))
                     end) l)
  end.

Definition isSpace (c : ascii) : bool := let b := byte_of c in (b =? 32) || (b =? 9) || (b =? 13) || (b =? 10).
Fixpoint skip_ws (s : string) : string := match s with String c r => if isSpace c then skip_ws r else s | EmptyString => "" end.

Definition isDigit (c : ascii) : bool := (48 <=? byte_of c) && (byte_of c <=? 57).
Fixpoint span_digits (s : string) : string * string :=
  match s with
  | String c r => if isDigit c then let '(a, b) := span_digits r in (String c a, b) else ("", s)
  | EmptyString => ("", "")
  end.
(** The exponent of a number, if there is one. *)
Definition scan_exp (s : string) : option (string * string) :=
  match s with
  | String c r =>
      if Ascii.eqb c "e" || Ascii.eqb c "E" then
        let '(sign, r) := match r with
                          | String d r' => if Ascii.eqb d "+" || Ascii.eqb d "-" then (String d "", r') else ("", r)
                          | EmptyString => ("", "")
                          end in
        let '(ds, r) := span_digits r in
        if str_empty ds then None else Some (String c (sign +:+ ds), r)
      else Some ("", s)
  | EmptyString => Some ("", "")
  end.
Definition scan_frac (s : string) : option (string * string) :=
  match s with
  | String c r =>
      if Ascii.eqb c "." then let '(ds, r) := span_digits r in if str_empty ds then None else Some (String c ds, r) else Some ("", s)
  | EmptyString => Some ("", "")
  end.
Definition scan_int (s : string) : option (string * string) :=
  match s with
  | String c r => if Ascii.eqb c "0" then Some ("0", r) else if isDigit c then Some (span_digits s) else None
  | EmptyString => None
  end.
Definition scan_number (s : string) : option (string * string) :=
  let '(sign, s) := match s with String c r => if Ascii.eqb c "-" then ("-", r) else ("", s) | EmptyString => ("", s) end in
  '(i, s) ← scan_int s; '(f, s) ← scan_frac s; '(e, s) ← scan_exp s; Some (sign +:+ i +:+ f +:+ e, s).

Definition literal (s : string) : option (json * string) :=
  if HasPrefix s "null" then Some (JNull, str_drop 4 s)
  else if HasPrefix s "true" then Some (JBool true, str_drop 4 s)
  else if HasPrefix s "false" then Some (JBool false, str_drop 5 s)
  else None.

Definition maxNestingDepth : Z := 10000.

(** A value, the members of an object and the elements of an array, each with what
    follows it. *)
Fixpoint parse_value (fuel : nat) (depth : Z) (s : string) : option (json * string) :=
  match fuel with
  | O => None
  | S fuel =>
      match skip_ws s with
      | EmptyString => None
      | String c r as s =>
          if Ascii.eqb c dq then '(x, r) ← unquote r; Some (JStr x, r)
          else if Ascii.eqb c "{" then
            if maxNestingDepth <=? depth then None
            else match skip_ws r with
                 | String "}" r => Some (JObj [], r)
                 | r => '(l, r) ← parse_members fuel (depth + 1) r; Some (JObj l, r)
                 end
          else if Ascii.eqb c "[" then
            if maxNestingDepth <=? depth then None
            else match skip_ws r with
                 | String "]" r => Some (JArr [], r)
                 | r => '(l, r) ← parse_elements fuel (depth + 1) r; Some (JArr l, r)
                 end
          else if Ascii.eqb c "-" || isDigit c then '(lit, r) ← scan_number s; Some (JNum lit, r)
          else literal s
      end
  end
with parse_members (fuel : nat) (depth : Z) (s : string) : option (list (string * json) * string) :=
  match fuel with
  | O => None
  | S fuel =>
      match skip_ws s with
      | String c r =>
          if Ascii.eqb c dq then
            '(k, r) ← unquote r;
            match skip_ws r with
            | String ":" r =>
                '(v, r) ← parse_value fuel depth r;
                match skip_ws r with
                | String "}" r => Some ([(k, v)], r)
                | String "," r => '(l, r) ← parse_members fuel depth r; Some ((k, v) :: l, r)
                | _ => None
                end
            | _ => None
            end
          else None
      | EmptyString => None
      end
  end
with parse_elements (fuel : nat) (depth : Z) (s : string) : option (list json * string) :=
  match fuel with
  | O => None
  | S fuel =>
      '(v, r) ← parse_value fuel depth s;
      match skip_ws r with
      | String "]" r => Some ([v], r)
      | String "," r => '(l, r) ← parse_elements fuel depth r; Some (v :: l, r)
      | _ => None
      end
  end.

(** [Decoder.Decode] reads the first value and ignores what follows it. *)
Definition decode (s : string) : option json := fst <$> parse_value (2 * S (String.length s)) 0 s.

(** ** What is printed reads back *)

(** A string with its invalid bytes replaced. *)
Definition valid_of (t : token) : string := if invalid t then encode_rune RuneError else t.2.
Definition coerce (s : string) : string := foldr (fun t acc => valid_of t +:+ acc) "" (runes s).

Lemma quote_ascii_step c t : byte_of c < 128 -> unquote1 (quote_ascii c +:+ t) = Chunk (String c "") t.
Proof. intros H. destruct c as [[] [] [] [] [] [] [] []]; try (exfalso; vm_compute in H; discriminate); by destruct t. Qed.

(** A valid encoding is read the same whatever follows it. *)
Lemma rune_of_take s r w t : rune_of s = Some (r, w) -> (1 < w)%nat -> rune_of (str_take w s +:+ t) = Some (r, w).
Proof.
  intros H Hw. destruct s as [|c0 s]; [done|]. unfold rune_of in H. cbv zeta in H. destruct (byte_of c0 <? 128) eqn:E0; [injection H as <- <-; lia|].
  destruct s as [|c1 s]; [injection H as <- <-; lia|]. destruct (in_range 194 223 _ && _) eqn:E1.
  { injection H as <- <-. cbn [str_take]. rewrite !str_app_cons. unfold rune_of. cbv zeta. by rewrite E0, E1. }
  destruct s as [|c2 s]; [injection H as <- <-; lia|]. destruct (in_range 224 239 _ && _ && _) eqn:E2.
  { injection H as <- <-. cbn [str_take]. rewrite !str_app_cons. unfold rune_of. cbv zeta. by rewrite E0, E1, E2. }
  destruct s as [|c3 s]; [injection H as <- <-; lia|]. destruct (in_range 240 244 _ && _ && _ && _) eqn:E3; [|injection H as <- <-; lia].
  injection H as <- <-. cbn [str_take]. rewrite !str_app_cons. unfold rune_of. cbv zeta. by rewrite E0, E1, E2, E3.
Qed.

(** The bytes of a rune of the line separators' plane. *)
Lemma rune_of_three s r w : rune_of s = Some (r, w) -> (1 < w)%nat -> 2048 <= r < 65536 -> str_take w s = encode_rune r.
Proof.
  intros H Hw Hr. destruct s as [|c0 s]; [done|]. pose proof (byte_range c0) as B0. unfold rune_of in H. cbv zeta in H. destruct (byte_of c0 <? 128) eqn:E0; [injection H as <- <-; lia|].
  destruct s as [|c1 s]; [injection H as <- <-; lia|]. pose proof (byte_range c1) as B1. pose proof (second_low (byte_of c0)) as Hlow.
  destruct (in_range 194 223 _ && in_range _ _ (byte_of c1)) eqn:E1.
  { injection H as <- <-. unfold in_range in E1. bool_prop. unfold second_range in *. repeat case_match; cbn [fst snd] in *; lia. }
  destruct s as [|c2 s]; [injection H as <- <-; lia|]. pose proof (byte_range c2) as B2. destruct (in_range 224 239 _ && _ && _) eqn:E2.
  { assert (forall c z, byte_of c = z -> chr z = c) as Hchr by (intros c z <-; unfold chr, byte_of; rewrite N2Z.id; apply ascii_N_embedding).
    injection H as <- <-. unfold in_range, cont, in_range in E2. bool_prop. cbn [str_take]. unfold encode_rune.
    assert (55296 <= (byte_of c0 - 224) * 4096 + (byte_of c1 - 128) * 64 + (byte_of c2 - 128) <= 57343 -> False) as Hsur.
    { intros Hs. unfold second_range in *. repeat case_match; bool_prop; cbn [fst snd] in *; lia. }
    assert (128 <= byte_of c1 <= 191) as B1' by (unfold second_range in *; repeat case_match; bool_prop; cbn [fst snd] in *; lia).
    rewrite (proj2 (Z.ltb_ge _ 128)) by lia. rewrite (proj2 (Z.ltb_ge _ 2048)) by lia.
    match goal with |- context [if ?b then String (chr 239) _ else _] => destruct b eqn:Eb end.
    { exfalso. apply orb_true_iff in Eb as [Eb|Eb]; bool_prop; lia. }
    rewrite (proj2 (Z.ltb_lt _ 65536)) by lia. symmetry. rewrite (Hchr c0), (Hchr c1), (Hchr c2); [done|..]; rewrite ?Z.mod_eq by done; Z.to_euclidean_division_equations; lia. }
  destruct s as [|c3 s]; [injection H as <- <-; lia|]. pose proof (byte_range c3) as B3. destruct (in_range 240 244 _ && _ && _ && _) eqn:E3; [|injection H as <- <-; lia].
  injection H as <- <-. unfold in_range, cont, in_range in E3. bool_prop. exfalso. unfold second_range in *. repeat case_match; bool_prop; cbn [fst snd] in *; lia.
Qed.

Lemma take_app w s t : (w <= String.length s)%nat -> str_take w (str_take w s +:+ t) = str_take w s /\ str_drop w (str_take w s +:+ t) = t.
Proof.
  revert s. induction w as [|w IH]; intros s H; [by destruct t|]. destruct s as [|c s]; [cbn in H; lia|]. cbn [str_take]. rewrite str_app_cons. cbn [str_take str_drop].
  destruct (IH s ltac:(cbn in H; lia)) as [-> ->]. done.
Qed.

Lemma invalid_width s r w : rune_of s = Some (r, w) -> (w <= String.length s)%nat -> 128 <= r -> invalid (r, str_take w s) = false -> (1 < w)%nat.
Proof.
  intros H Hl Hr Hi. assert (w = 1%nat -> r = RuneError) as Hone.
  { intros ->. destruct s as [|c s]; [done|]. unfold rune_of in H. cbv zeta in H. destruct (byte_of c <? 128) eqn:E; [injection H as <- ; bool_prop; lia|]. by repeat case_match; simplify_eq. }
  pose proof (rune_of_spec s) as Hs. rewrite H in Hs. destruct Hs as [Hw _]. destruct (decide (w = 1%nat)) as [->|]; [|lia]. exfalso. rewrite (Hone eq_refl) in Hi.
  destruct s as [|c s]; [cbn in Hl; lia|]. unfold invalid in Hi. cbn in Hi. discriminate.
Qed.

Lemma quote_step s r w t : rune_of s = Some (r, w) ->
  unquote1 (quote_rune (r, str_take w s) +:+ t) = Chunk (valid_of (r, str_take w s)) t /\ (1 <= String.length (quote_rune (r, str_take w s)))%nat.
Proof.
  intros H. pose proof (rune_of_spec s) as Hs. rewrite H in Hs. destruct Hs as [Hw [Hr|(c & s' & -> & -> & Hc & ->)]].
  - unfold quote_rune, valid_of. cbn [fst snd]. rewrite (proj2 (Z.ltb_ge r 128)) by lia. destruct (invalid _) eqn:Ei; [split; [reflexivity|vm_compute; lia]|].
    pose proof (invalid_width s r w H ltac:(lia) ltac:(lia) Ei) as H1. destruct ((r =? 8232) || (r =? 8233)) eqn:El.
    { assert (str_take w s = encode_rune r) as -> by (apply rune_of_three; [done|done|apply orb_true_iff in El as [El|El]; bool_prop; lia]).
      apply orb_true_iff in El as [El|El]; bool_prop; subst r; (split; [reflexivity|vm_compute; lia]). }
    assert (String.length (str_take w s) = w) as Hl.
    { clear -Hw. revert w Hw. induction s as [|c s IH]; intros [|w] Hw; cbn in *; try lia. destruct w; [done|]. f_equal. apply IH. lia. }
    split; [|lia]. pose proof (rune_of_take s r w t H H1) as Ht. destruct (take_app w s t ltac:(lia)) as [Ha Hb]. unfold unquote1.
    destruct (str_take w s +:+ t) as [|c u] eqn:E; [done|]. pose proof (rune_of_spec (String c u)) as Hc. rewrite Ht in Hc. destruct Hc as [_ Hc].
    assert (128 <= byte_of c) as Hbig.
    { unfold rune_of in Ht. cbv zeta in Ht. destruct (byte_of c <? 128) eqn:Eb; [injection Ht as <- <-; lia|by bool_prop]. }
    assert (forall d, byte_of d < 128 -> Ascii.eqb c d = false) as Hneq by (intros d Hd; apply Ascii.eqb_neq; intros ->; lia).
    rewrite (Hneq dq), (Hneq "\"%char) by (vm_compute; reflexivity). rewrite (proj2 (Z.ltb_ge (byte_of c) 32)) by lia. rewrite Ht, Ha, Hb, Ei. done.
  - unfold quote_rune, valid_of. cbn [fst snd str_take]. rewrite (proj2 (Z.ltb_lt _ _) Hc).
    unfold invalid. cbn [fst snd]. destruct (byte_of c =? RuneError) eqn:Er; [bool_prop; unfold RuneError in Er; lia|]. cbn [andb]. split; [by apply quote_ascii_step|].
    clear. destruct c as [[] [] [] [] [] [] [] []]; vm_compute; lia.
Qed.

Lemma unquote_body s : forall n rest, (String.length (quote_body s) < n)%nat -> unquote_fuel n (quote_body s +:+ String dq rest) = Some (coerce s, rest).
Proof.
  unfold quote_body, coerce. induction s as [|s r w E IH] using runes_ind; intros n rest Hn; [by destruct n; [cbn in Hn; lia|]|].
  rewrite (runes_eq s), E in Hn |- *. cbn [foldr] in Hn |- *. destruct n as [|n]; [lia|]. rewrite str_app_assoc. cbn [unquote_fuel].
  match goal with |- context [unquote1 (_ +:+ ?t)] => destruct (quote_step s r w t E) as [-> Hl] end. rewrite str_length_app in Hn.
  rewrite IH by lia. done.
Qed.

Lemma unquote_quote s rest : unquote (quote_body s +:+ String dq rest) = Some (coerce s, rest).
Proof. apply unquote_body. rewrite str_length_app. cbn. lia. Qed.

(** Text without invalid bytes is not changed. *)
Lemma coerce_valid s : forallb (fun t => negb (invalid t)) (runes s) = true -> coerce s = s.
Proof.
  intros H. rewrite <- (text_runes s) at 2. unfold coerce, text. induction (runes s) as [|t l IH]; [done|]. cbn in H |- *. apply andb_true_iff in H as [Ht H].
  unfold valid_of. apply negb_true_iff in Ht. rewrite Ht. f_equal. by apply IH.
Qed.

(** *** Numbers *)

Fixpoint digits (s : string) : bool := match s with String c r => isDigit c && digits r | EmptyString => true end.
(** What may follow a value in a printed text. *)
Definition stops (s : string) : Prop := match s with String c _ => c = ","%char \/ c = "]"%char \/ c = "}"%char | EmptyString => True end.

Lemma char_digit x : (x < 10)%N -> isDigit (pretty_N_char x) = true /\ (x <> 0%N -> pretty_N_char x <> "0"%char).
Proof.
  intros H. assert (x ∈ [0; 1; 2; 3; 4; 5; 6; 7; 8; 9]%N) as Hx.
  { rewrite !elem_of_cons, elem_of_nil. lia. }
  rewrite !elem_of_cons, elem_of_nil in Hx. destruct_or?; subst x; by vm_compute.
Qed.

Lemma go_digits (x : N) : forall s, (0 < x)%N -> exists c ds, pretty_N_go x s = String c (ds +:+ s) /\ isDigit c = true /\ digits ds = true /\ c <> "0"%char.
Proof.
  induction (N.lt_wf_0 x) as [x _ IH]. intros s Hx. rewrite pretty_N_go_step by done. pose proof (N.mod_lt x 10 ltac:(done)) as Hm.
  destruct (char_digit (x `mod` 10) Hm) as [Hd Hz]. destruct (decide (x `div` 10 = 0)%N) as [E|E].
  - rewrite E, pretty_N_go_0. exists (pretty_N_char (x `mod` 10)), "". split; [done|]. split; [done|]. split; [done|]. apply Hz.
    pose proof (N.div_mod x 10 ltac:(done)). lia.
  - destruct (IH (x `div` 10)%N ltac:(by apply N.div_lt) (String (pretty_N_char (x `mod` 10)) s) ltac:(by apply N.neq_0_lt_0)) as (c & ds & -> & Hc & Hds & H0).
    exists c, (ds +:+ String (pretty_N_char (x `mod` 10)) ""). split; [by rewrite str_app_assoc|]. split; [done|]. split; [|done].
    clear -Hds Hd. induction ds as [|e ds IH]; [rewrite str_app_nil_l; cbn [digits]; by rewrite Hd|]. rewrite str_app_cons. cbn [digits] in *. apply andb_true_iff in Hds as [-> Hds]. by apply IH.
Qed.

Lemma span_digits_app ds rest : digits ds = true -> stops rest -> span_digits (ds +:+ rest) = (ds, rest).
Proof.
  intros H Hs. induction ds as [|c ds IH]; [|cbn [digits] in H; apply andb_true_iff in H as [Hc H]; rewrite str_app_cons; cbn [span_digits]; rewrite Hc, IH; done].
  rewrite str_app_nil_l. destruct rest as [|c rest]; [done|]. cbn in Hs. destruct Hs as [-> | [-> | ->]]; reflexivity.
Qed.

Lemma scan_rest rest : stops rest -> scan_frac rest = Some ("", rest) /\ scan_exp rest = Some ("", rest).
Proof. destruct rest as [|c rest]; [done|]. intros [-> | [-> | ->]]; done. Qed.

Lemma scan_Itoa z rest : 0 <= z -> stops rest -> scan_int (Itoa z +:+ rest) = Some (Itoa z, rest) /\ exists c r, Itoa z = String c r /\ isDigit c = true.
Proof.
  intros Hz Hs. unfold Itoa, pretty, pretty_N. destruct (decide (Z.to_N z = 0)%N) as [E|E].
  { split; [|by exists "0"%char, ""]. rewrite str_app_cons, str_app_nil_l. done. }
  destruct (go_digits (Z.to_N z) "" ltac:(lia)) as (c & ds & -> & Hc & Hds & H0). rewrite str_app_nil_r. split; [|by exists c, ds].
  rewrite str_app_cons. unfold scan_int. rewrite (proj2 (Ascii.eqb_neq c "0") H0), Hc. f_equal. cbn [span_digits]. by rewrite Hc, span_digits_app.
Qed.

Lemma scan_FormatInt z rest : stops rest -> scan_number (Registry.FormatInt z +:+ rest) = Some (Registry.FormatInt z, rest)
  /\ exists c r, Registry.FormatInt z = String c r /\ (c = "-"%char \/ isDigit c = true).
Proof.
  intros Hs. destruct (scan_rest rest Hs) as [Hf He]. unfold Registry.FormatInt, scan_number. destruct (z <? 0) eqn:E; bool_prop.
  - destruct (scan_Itoa (- z) rest ltac:(lia) Hs) as [Hi (c & r & Hc & Hd)]. split; [|exists "-"%char, (Itoa (- z)); by auto].
    rewrite str_app_assoc. change ("-" +:+ ?x) with (String "-" x). cbn [Ascii.eqb Bool.eqb]. rewrite Hi. cbn. rewrite Hf. cbn. rewrite He. cbn. by rewrite !str_app_nil_r.
  - destruct (scan_Itoa z rest ltac:(lia) Hs) as [Hi (c & r & Hc & Hd)]. split; [|exists c, r; by auto].
    rewrite Hc in Hi |- *. rewrite str_app_cons in Hi |- *. assert (Ascii.eqb c "-" = false) as ->.
    { apply Ascii.eqb_neq. intros ->. discriminate Hd. }
    rewrite Hi. cbn. rewrite Hf. cbn. rewrite He. cbn. by rewrite !str_app_nil_r.
Qed.

(** *** Values *)

Section json_ind.
Variable P : json -> Prop.
Hypotheses (Hnull : P JNull) (Hbool : forall b, P (JBool b)) (Hnum : forall lit, P (JNum lit)) (Hstr : forall s, P (JStr s)).
Hypothesis (Harr : forall l, Forall P l -> P (JArr l)).
Hypothesis (Hobj : forall l, Forall (fun p => P p.2) l -> P (JObj l)).
Fixpoint json_nested_ind (v : json) : P v :=
  match v with
  | JNull => Hnull | JBool b => Hbool b | JNum lit => Hnum lit | JStr s => Hstr s
  | JArr l => Harr l ((fix go l : Forall P l := match l with [] => Forall_nil_2 _ | v :: l => Forall_cons_2 _ _ _ (json_nested_ind v) (go l) end) l)
  | JObj l => Hobj l ((fix go l : Forall (fun p => P p.2) l :=
                         match l with [] => Forall_nil_2 _ | p :: l => Forall_cons_2 (fun p => P p.2) _ _ (json_nested_ind p.2) (go l) end) l)
  end.
End json_ind.

Fixpoint elems (l : list json) : string :=
  match l with [] => "]" | [v] => print v +:+ "]" | v :: l => print v +:+ String "," (elems l) end.
Fixpoint membs (l : list (string * json)) : string :=
  match l with
  | [] => "}"
  | [(k, v)] => quote k +:+ String ":" (print v +:+ "}")
  | (k, v) :: l => quote k +:+ String ":" (print v +:+ String "," (membs l))
  end.
Lemma print_arr l : print (JArr l) = String "[" (elems l).
Proof. done. Qed.
Lemma print_obj l : print (JObj l) = String "{" (membs l).
Proof. done. Qed.

(** Every number is an integer; the nesting; the value with its strings made valid. *)
Fixpoint ints (v : json) : Prop :=
  match v with
  | JNum lit => exists z, lit = Registry.FormatInt z
  | JArr l => foldr (fun v acc => ints v /\ acc) True l
  | JObj l => foldr (fun p acc => ints p.2 /\ acc) True l
  | _ => True
  end.
Fixpoint nesting (v : json) : Z :=
  match v with
  | JArr l => 1 + foldr (fun v acc => Z.max (nesting v) acc) 0 l
  | JObj l => 1 + foldr (fun p acc => Z.max (nesting p.2) acc) 0 l
  | _ => 0
  end.
Fixpoint valid_json (v : json) : json :=
  match v with
  | JStr s => JStr (coerce s)
  | JArr l => JArr (map valid_json l)
  | JObj l => JObj (map (fun p => (coerce p.1, valid_json p.2)) l)
  | v => v
  end.

Definition reads (v : json) : Prop :=
  ints v -> forall n d rest, stops rest -> d + nesting v <= maxNestingDepth -> (2 * String.length (print v) <= n)%nat -> parse_value n d (print v +:+ rest) = Some (valid_json v, rest).

Lemma print_length v : ints v -> (1 <= String.length (print v))%nat.
Proof.
  destruct v as [|[]|lit|s|l|l]; cbn; try lia. intros [z ->]. destruct (scan_FormatInt z "" I) as [_ (c & r & -> & _)]. cbn. lia.
Qed.

(** Punctuation is not skipped. *)
Definition mark (c : ascii) : bool := negb (isSpace c).
Lemma skip_mark c r : mark c = true -> skip_ws (String c r) = String c r.
Proof. unfold mark. cbn. by destruct (isSpace c). Qed.
Ltac skip := rewrite ?skip_mark by reflexivity.

Lemma read_elements l : Forall reads l -> l <> [] -> forall n d rest, foldr (fun v acc => ints v /\ acc) True l -> d + foldr (fun v acc => Z.max (nesting v) acc) 0 l <= maxNestingDepth ->
  (2 * String.length (elems l) <= n)%nat -> parse_elements n d (elems l +:+ rest) = Some (map valid_json l, rest).
Proof.
  induction 1 as [|v l Hv Hl IH]; intros Hne n d rest Hi Hd Hn; [done|]. cbn [foldr] in Hi, Hd. destruct Hi as [Hiv Hil]. pose proof (print_length v Hiv) as Hp.
  destruct l as [|w l].
  - cbn [elems] in *. rewrite str_length_app in Hn. cbn [String.length] in Hn. destruct n as [|n]; [lia|]. cbn [parse_elements]. rewrite str_app_assoc.
    rewrite (Hv Hiv n d) by (first [lia | left; reflexivity | right; left; reflexivity | right; right; reflexivity]). cbn [mbind option_bind]. rewrite str_app_cons. skip. done.
  - change (elems (v :: w :: l)) with (print v +:+ String "," (elems (w :: l))) in *. rewrite str_length_app in Hn. cbn [String.length] in Hn. destruct n as [|n]; [lia|].
    cbn [parse_elements]. rewrite str_app_assoc, str_app_cons. rewrite (Hv Hiv n d) by (first [lia | left; reflexivity | right; left; reflexivity | right; right; reflexivity]). cbn [mbind option_bind]. skip.
    rewrite (IH ltac:(done) n d rest Hil) by lia. done.
Qed.

Lemma quote_app k t : quote k +:+ t = String dq (quote_body k +:+ String dq t).
Proof. unfold quote. rewrite str_app_cons, str_app_assoc. done. Qed.

Lemma read_members l : Forall (fun p => reads p.2) l -> l <> [] -> forall n d rest, foldr (fun p acc => ints p.2 /\ acc) True l ->
  d + foldr (fun p acc => Z.max (nesting p.2) acc) 0 l <= maxNestingDepth -> (2 * String.length (membs l) <= n)%nat ->
  parse_members n d (membs l +:+ rest) = Some (map (fun p => (coerce p.1, valid_json p.2)) l, rest).
Proof.
  induction 1 as [|[k v] l Hv Hl IH]; intros Hne n d rest Hi Hd Hn; [done|]. cbn [foldr snd] in Hi, Hd, Hv. destruct Hi as [Hiv Hil]. pose proof (print_length v Hiv) as Hp.
  destruct l as [|[k' w] l].
  - cbn [membs] in *. rewrite !str_length_app in Hn. cbn [String.length] in Hn. rewrite str_length_app in Hn. destruct n as [|n]; [lia|].
    rewrite str_app_assoc, str_app_cons, str_app_assoc, quote_app. cbn [parse_members]. skip. cbn [Ascii.eqb Bool.eqb dq]. rewrite unquote_quote. cbn [mbind option_bind]. skip.
    rewrite (Hv Hiv n d) by (first [lia | left; reflexivity | right; left; reflexivity | right; right; reflexivity]). cbn [mbind option_bind]. rewrite str_app_cons. skip. done.
  - change (membs ((k, v) :: (k', w) :: l)) with (quote k +:+ String ":" (print v +:+ String "," (membs ((k', w) :: l)))) in *.
    rewrite !str_length_app in Hn. cbn [String.length] in Hn. rewrite str_length_app in Hn. cbn [String.length] in Hn. destruct n as [|n]; [lia|].
    rewrite str_app_assoc, str_app_cons, str_app_assoc, str_app_cons, quote_app. cbn [parse_members]. skip. cbn [Ascii.eqb Bool.eqb dq]. rewrite unquote_quote.
    cbn [mbind option_bind]. skip. rewrite (Hv Hiv n d) by (first [lia | left; reflexivity | right; left; reflexivity | right; right; reflexivity]). cbn [mbind option_bind]. skip.
    rewrite (IH ltac:(done) n d rest Hil) by lia. done.
Qed.

(** A value begins with a byte of its own. *)
Lemma print_head v : ints v -> exists c r, print v = String c r /\ mark c = true /\ c <> "]"%char.
Proof.
  destruct v as [|[]|lit|s|l|l]; try (intros _; do 2 eexists; split; [reflexivity|by split]). intros [z ->]. cbn [print].
  destruct (scan_FormatInt z "" I) as [_ (c & r & -> & Hc)]. exists c, r. split; [done|]. destruct Hc as [-> |Hc]; [done|].
  unfold mark, isSpace. unfold isDigit in Hc. bool_prop. cbv zeta. rewrite !(proj2 (Z.eqb_neq (byte_of c) _)) by lia. split; [done|]. intros ->. vm_compute in H0. by apply H0.
Qed.

Lemma read_value v : reads v.
Proof.
  induction v as [|b|lit|s|l IH|l IH] using json_nested_ind; intros Hi n d rest Hs Hd Hn.
  - destruct n as [|n]; [cbn in Hn; lia|]. by destruct rest.
  - destruct n as [|n]; [destruct b; cbn in Hn; lia|]. by destruct b, rest.
  - destruct Hi as [z ->]. destruct (scan_FormatInt z rest Hs) as [Hscan (c & r & Hc & Hk)]. destruct (print_head (JNum (Registry.FormatInt z))) as (c' & r' & Hc' & Hm & _); [by exists z|].
    cbn [print] in *. rewrite Hc in Hc', Hn. injection Hc' as -> ->. cbn [String.length] in Hn. destruct n as [|n]; [lia|]. cbn [parse_value]. rewrite Hc in Hscan |- *. rewrite str_app_cons in Hscan |- *. rewrite skip_mark by done.
    assert (Ascii.eqb c' dq = false /\ Ascii.eqb c' "{" = false /\ Ascii.eqb c' "[" = false /\ Ascii.eqb c' "-" || isDigit c' = true) as (-> & -> & -> & ->).
    { destruct Hk as [-> |Hk]; [done|]. rewrite Hk, orb_true_r. clear -Hk. unfold isDigit in Hk. bool_prop. repeat split; apply Ascii.eqb_neq; intros ->; vm_compute in H; by apply H || (vm_compute in H0; by apply H0). }
    by rewrite Hscan.
  - destruct n as [|n]; [cbn in Hn; lia|]. cbn [print parse_value]. rewrite quote_app. skip. cbn [Ascii.eqb Bool.eqb dq]. rewrite unquote_quote. done.
  - rewrite print_arr in Hn |- *. cbn [String.length] in Hn. cbn [nesting] in Hd. cbn [ints] in Hi. destruct n as [|n]; [lia|]. rewrite str_app_cons. cbn [parse_value]. skip. cbn [Ascii.eqb Bool.eqb dq].
    assert (0 <= foldr (fun v acc => Z.max (nesting v) acc) 0 l) by (clear; induction l; cbn; lia). destruct (Z.leb_spec maxNestingDepth d); [lia|].
    destruct l as [|v l]; [done|]. cbn [foldr] in Hi. destruct (print_head v (proj1 Hi)) as (c & r & Hc & Hm & Hb).
    assert (exists r', elems (v :: l) +:+ rest = String c r') as [r' Hr'] by (destruct l; cbn [elems]; rewrite Hc, !str_app_assoc, !str_app_cons; eauto).
    pose proof (read_elements (v :: l) IH ltac:(done) n (d + 1) rest Hi ltac:(lia) ltac:(lia)) as He.
    rewrite Hr' in He |- *. rewrite skip_mark by done. clear -He Hb. destruct c as [[] [] [] [] [] [] [] []]; try (by rewrite He). by destruct Hb.
  - rewrite print_obj in Hn |- *. cbn [String.length] in Hn. cbn [nesting] in Hd. cbn [ints] in Hi. destruct n as [|n]; [lia|]. rewrite str_app_cons. cbn [parse_value]. skip. cbn [Ascii.eqb Bool.eqb dq].
    assert (0 <= foldr (fun (p : string * json) acc => Z.max (nesting p.2) acc) 0 l) by (clear; induction l; cbn; lia). destruct (Z.leb_spec maxNestingDepth d); [lia|].
    destruct l as [|[k v] l]; [done|]. assert (exists r', membs ((k, v) :: l) +:+ rest = String dq r') as [r' Hr'] by (destruct l as [|[] ?]; cbn [membs]; rewrite str_app_assoc, quote_app; eauto).
    pose proof (read_members ((k, v) :: l) IH ltac:(done) n (d + 1) rest Hi ltac:(lia) ltac:(lia)) as He. rewrite Hr' in He |- *. skip. unfold dq in *. by rewrite He.
Qed.

(** A printed value is decoded to itself, with its strings made valid UTF-8. *)
Lemma decode_print v : ints v -> nesting v <= maxNestingDepth -> decode (print v) = Some (valid_json v).
Proof.
  intros Hi Hn. unfold decode. rewrite <- (str_app_nil_r (print v)). rewrite (read_value v Hi); [done|exact I|lia|]. rewrite str_app_nil_r. lia.
Qed.
End Json.
