(* ===== verification/Polled.v ===== *)
(** * Polled log sources ([logship/unbound.go], [ids.go], [crowdsec.go])

    Sources that read a bounded window of what the firewall recorded and ship what the
    previous polls have not shipped.  A cursor is the time of the newest row with the
    identities of the rows of that time. *)

From stdpp Require Import base decidable list gmap strings sorting.
From Stdlib Require Import ZArith Lia Ascii.
From S2P Require Import Prelude Order Netip GoStrings GoTime Enrich LogQueue OtlpSink Registry Programs GoJson.
Import Queue Registry Json.

Module Polled.

Definition ActionPass : string := "pass".
Definition ActionBlock : string := "block".
Definition MapUnboundAction (v : string) : string :=
  if str_eq v "Pass" then ActionPass else if str_eq v "Block" || str_eq v "Drop" then ActionBlock else "".

(** [net.ParseIP] takes no zone. *)
Definition ParseIP (s : string) : bool := match ParseAddr s with Some a => str_empty (addr_zone a) | None => false end.

(** Members of a struct with and without [omitempty]. *)
Definition str_field (k v : string) : list (string * json) := [(k, JStr v)].
Definition opt_field (k v : string) : list (string * json) := if str_empty v then [] else [(k, JStr v)].
Definition opt_int (k : string) (n : Z) : list (string * json) := if n =? 0 then [] else [(k, JInt n)].
Definition set_nonempty (k v : string) (a : gmap string string) : gmap string string := if str_empty v then a else <[k := v]> a.

(** ** Unbound's query log *)

Definition unboundSourceName : string := "unbound".
Definition unboundClientLabelAttr : string := "dns.client_label".
Definition UnboundSearchQueriesRowCap : Z := 1000.

Record UnboundSearchQueryRow := mkQuery {
  qUUID : string; qTime : Z; qClient : string; qFamily : string; qType : string; qDomain : string; qAction : string; qSource : string; qBlocklist : string;
  qRCode : string; qResolveTimeMs : Z; qDNSSECStatus : string; qTTL : Z; qPolicy : string; blocklistDisplayValue : bool }.
#[export] Instance query_eq : EqDecision UnboundSearchQueryRow.
Proof. solve_decision. Defined.

Definition short_code_char (c : ascii) : bool := let b := nat_of_ascii c in ((97 <=? b) && (b <=? 122) || (48 <=? b) && (b <=? 57))%nat.
Definition isUnboundBlocklistShortCode (value : string) : bool := negb (str_empty value) && forallb short_code_char (String.list_ascii_of_string value).
Definition BlocklistIdentity (r : UnboundSearchQueryRow) : option string :=
  if blocklistDisplayValue r then None
  else let identity := TrimSpace (qBlocklist r) in if isUnboundBlocklistShortCode identity then Some identity else None.

Definition rowFingerprint (r : UnboundSearchQueryRow) : string :=
  if str_empty (qUUID r) then
    FormatInt (qTime r) +:+ "|" +:+ qClient r +:+ "|" +:+ qDomain r +:+ "|" +:+ qType r +:+ "|" +:+ qAction r +:+ "|" +:+ qSource r +:+ "|" +:+ qRCode r
      +:+ "|" +:+ FormatInt (qResolveTimeMs r)
  else qUUID r.

Definition unboundLogLine (r : UnboundSearchQueryRow) : json := JObj
  ([("time", JInt (qTime r)); ("client", JStr (qClient r))] ++ opt_field "family" (qFamily r)
   ++ [("type", JStr (qType r)); ("domain", JStr (qDomain r)); ("action", JStr (qAction r)); ("source", JStr (qSource r))]
   ++ opt_field "blocklist" (default "" (BlocklistIdentity r)) ++ str_field "rcode" (qRCode r) ++ opt_int "resolve_time_ms" (qResolveTimeMs r)
   ++ opt_field "dnssec_status" (qDNSSECStatus r) ++ opt_int "ttl" (qTTL r) ++ opt_field "policy" (qPolicy r)).

Definition unboundSeverity (action : string) : Severity := if str_eq action "Block" || str_eq action "Drop" then SeverityWarn else SeverityInfo.

Definition setUnboundClient (attrs : gmap string string) (snap : option Enrich.Snapshot) (client : string) : gmap string string :=
  let client := TrimSpace client in
  if str_empty client then attrs
  else
    let attrs := <[unboundClientLabelAttr := client]> attrs in
    if negb (ParseIP client) then attrs
    else
      let attrs := <["src.ip" := client]> attrs in
      match snap with
      | None => attrs
      | Some snap =>
          let attrs := match Enrich.Hostname snap client with Some host => <["src.hostname" := host]> attrs | None => attrs end in
          let attrs := match Enrich.MAC snap client with Some mac => <["src.mac" := mac]> attrs | None => attrs end in
          set_nonempty "src.scope" (Enrich.Scope snap client) attrs
      end.

Definition unboundRecord (snap : option Enrich.Snapshot) (r : UnboundSearchQueryRow) : LogRecord :=
  let attrs := list_to_map [("domain", qDomain r); ("qtype", qType r); ("action", qAction r); ("query_source", qSource r); ("rcode", qRCode r);
                            ("dnssec_status", qDNSSECStatus r)] in
  let attrs := match BlocklistIdentity r with Some b => <["blocklist" := b]> attrs | None => attrs end in
  let attrs := set_nonempty Otlp.AttrAction (MapUnboundAction (qAction r)) attrs in
  mkLog (time_Unix (qTime r) 0) (print (unboundLogLine r)) (setUnboundClient attrs snap (qClient r)) (unboundSeverity (qAction r)) "".

Record unboundSource := mkUnbound { lastTime : Z; seenAtLastTime : gset string }.
Definition newUnboundSource : unboundSource := mkUnbound 0 ∅.

Definition unbound_fresh (s : unboundSource) (row : UnboundSearchQueryRow) : bool :=
  (lastTime s <? qTime row) || ((qTime row =? lastTime s) && negb (bool_decide (rowFingerprint row ∈ seenAtLastTime s))).

(** What a poll that fetched [rows] keeps, newest first, whether it counts a gap, and
    its cursor. *)
Definition unbound_rows (rows : list UnboundSearchQueryRow) (s : unboundSource) : list UnboundSearchQueryRow * bool * unboundSource :=
  match rows, last rows with
  | r0 :: _, Some rn =>
      let newest := qTime r0 in
      let coldStart := lastTime s =? 0 in
      let gap := negb coldStart && (lastTime s <? qTime rn) in
      let kept := if coldStart then [] else filter (fun r => unbound_fresh s r = true) rows in
      (kept, gap, mkUnbound newest (list_to_set (map rowFingerprint (filter (fun r => qTime r = newest) rows))))
  | _, _ => ([], false, s)
  end.

(** [Poll]: an error of the fetch leaves the source as it was. *)
Definition unbound_Poll (snap : option Enrich.Snapshot) (fetched : option (list UnboundSearchQueryRow)) (s : unboundSource)
  : option (list LogRecord) * bool * unboundSource :=
  match fetched with
  | None => (None, false, s)
  | Some rows => let '(kept, gap, s) := unbound_rows rows s in (Some (map (unboundRecord snap) (rev kept)), gap, s)
  end.

(** The state of the state file, as the blob's fields; [None] when it does not decode. *)
Record unboundState := mkUnboundState { uLastTime : Z; uSeen : list string }.
Definition unbound_LoadState (data : option unboundState) (s : unboundSource) : unboundSource :=
  match data with None => s | Some st => mkUnbound (uLastTime st) (list_to_set (uSeen st)) end.
Definition unbound_SaveState (s : unboundSource) : option unboundState :=
  if lastTime s =? 0 then None else Some (mkUnboundState (lastTime s) (sort_by str_lt (elements (seenAtLastTime s)))).

(** ** Suricata's alerts *)

Definition idsSourceName : string := "ids".
Definition IDSAlertRowCap : Z := 500.
Definition idsGapEvent : string := "gap_detected".

(** An instant, and how [RFC3339Nano] shows it in its own location. *)
Record stamp := mkStamp { instant : Time; shown : string }.
Record IDSAlertRecord := mkIDSAlert {
  iTimestamp : stamp; FlowID : Z; AlertSID : Z; AlertAction : string; iSignature : string; iSrcIP : string; iDestIP : string; iInIface : string; iProto : string; iBody : string }.

Definition idsSeverity (action : string) : Severity := if str_eq action "blocked" then SeverityWarn else SeverityInfo.
Definition idsDedupeKey (r : IDSAlertRecord) : string := FormatInt (FlowID r) +:+ ":" +:+ FormatInt (AlertSID r).
Definition idsRecordFromAlert (r : IDSAlertRecord) : LogRecord :=
  let attrs := list_to_map [("alert_sid", FormatInt (AlertSID r)); ("alert_action", AlertAction r); ("src_ip", iSrcIP r); ("dest_ip", iDestIP r); ("in_iface", iInIface r);
                            ("proto", iProto r); ("signature", iSignature r)] in
  mkLog (instant (iTimestamp r)) (iBody r) (set_nonempty Otlp.AttrAction (Programs.MapSuricataAction (AlertAction r)) attrs) (idsSeverity (AlertAction r)) "".

(** A map's members are printed in the order of their keys. *)
Definition gapRecord (from to : stamp) : LogRecord :=
  mkLog (instant to)
    (print (JObj [("event", JStr idsGapEvent); ("gap_end", JStr (shown to)); ("gap_start", JStr (shown from));
                  ("note", JStr ("query_alerts window saturated before reaching the prior cursor; alerts in "
                                 +:+ "this range were not observed (accepted, bounded loss - see docs/log-shipping.md)"));
                  ("row_cap", JInt IDSAlertRowCap)]))
    {["event" := idsGapEvent]} SeverityWarn "".

(** [None] until the first poll. *)
Record idsCursor := mkIdsCursor { lastTimestamp : stamp; dedupe : gset string }.
Definition idsSource : Type := option idsCursor.

Definition ids_fresh (c : idsCursor) (r : IDSAlertRecord) : bool :=
  negb (instant (iTimestamp r) <? instant (lastTimestamp c))
  && negb ((instant (iTimestamp r) =? instant (lastTimestamp c)) && bool_decide (idsDedupeKey r ∈ dedupe c)).

Definition advanceCursor (ordered : list IDSAlertRecord) (s : idsSource) : idsSource :=
  match last ordered with
  | None => s
  | Some newest =>
      Some (mkIdsCursor (iTimestamp newest)
              (list_to_set (map idsDedupeKey (filter (fun r => instant (iTimestamp r) = instant (iTimestamp newest)) ordered))))
  end.

(** What a poll ships of [ordered], the fetched rows as [sort.Slice] left them, and the
    bounds of the gap it reports. *)
Definition ids_rows (ordered : list IDSAlertRecord) (s : idsSource) : option (stamp * stamp) * list IDSAlertRecord * idsSource :=
  match ordered with
  | [] => (None, [], s)
  | r0 :: _ =>
      match s with
      | None => (None, ordered, advanceCursor ordered s)
      | Some c =>
          let gap := if (IDSAlertRowCap <=? zlen ordered) && (instant (lastTimestamp c) <? instant (iTimestamp r0)) then Some (lastTimestamp c, iTimestamp r0) else None in
          (gap, filter (fun r => ids_fresh c r = true) ordered, advanceCursor ordered s)
      end
  end.
Definition ids_Poll (fetched : option (list IDSAlertRecord)) (s : idsSource) : option (list LogRecord) * idsSource :=
  match fetched with
  | None => (None, s)
  | Some ordered =>
      let '(gap, kept, s) := ids_rows ordered s in
      (Some (match gap with Some (from, to) => [gapRecord from to] | None => [] end ++ map idsRecordFromAlert kept), s)
  end.

Record idsCursorState := mkIdsState { iLastTimestamp : stamp; iDedupe : list string }.
Definition ids_LoadState (data : option idsCursorState) (s : idsSource) : idsSource :=
  match data with
  | None => s
  | Some st => if IsZero (instant (iLastTimestamp st)) then s else Some (mkIdsCursor (iLastTimestamp st) (list_to_set (iDedupe st)))
  end.
Definition ids_SaveState (s : idsSource) : option idsCursorState :=
  match s with None => None | Some c => Some (mkIdsState (lastTimestamp c) (sort_by str_lt (elements (dedupe c)))) end.

(** ** CrowdSec's alerts and decisions *)

Record CrowdSecAlert := mkCAlert {
  caID : Z; caScopeValue : string; caScenario : string; caCountry : string; caAS : string; caDecisions : string; caCreatedRaw : string; caCreatedAt : option Time }.
Record CrowdSecDecision := mkCDecision {
  cdID : Z; cdOrigin : string; cdScopeValue : string; cdScenario : string; cdAction : string; cdCountry : string; cdAS : string; cdEventsCount : Z; cdExpiration : string; cdAlertID : Z }.

Definition buildCrowdSecAlertRecord (a : CrowdSecAlert) : LogRecord :=
  let body := JObj ([("kind", JStr "alert"); ("id", JInt (caID a)); ("scope_value", JStr (caScopeValue a)); ("scenario", JStr (caScenario a))]
                    ++ opt_field "country" (caCountry a) ++ opt_field "as" (caAS a) ++ opt_field "decisions" (caDecisions a) ++ opt_field "created" (caCreatedRaw a)) in
  let attrs := <["scenario" := caScenario a]> {["value" := caScopeValue a]} in
  let attrs := set_nonempty "country" (caCountry a) attrs in
  let attrs := set_nonempty "as" (caAS a) attrs in
  let attrs := set_nonempty "decisions" (caDecisions a) attrs in
  mkLog (default zero_time (caCreatedAt a)) (print body) attrs SeverityInfo "".

Definition buildCrowdSecDecisionRecord (d : CrowdSecDecision) : LogRecord :=
  let body := JObj ([("kind", JStr "decision"); ("id", JInt (cdID d)); ("alert_id", JInt (cdAlertID d))] ++ opt_field "origin" (cdOrigin d)
                    ++ [("scope_value", JStr (cdScopeValue d)); ("scenario", JStr (cdScenario d)); ("action", JStr (cdAction d))]
                    ++ opt_field "country" (cdCountry d) ++ opt_field "as" (cdAS d) ++ opt_int "events_count" (cdEventsCount d) ++ opt_field "expiration" (cdExpiration d)) in
  let attrs := <["scenario" := cdScenario d]> (<["value" := cdScopeValue d]> {["decision_type" := cdAction d]}) in
  let attrs := if str_empty (cdAction d) then attrs else <[Otlp.AttrAction := ActionBlock]> attrs in
  let attrs := set_nonempty "country" (cdCountry d) attrs in
  let attrs := set_nonempty "as" (cdAS d) attrs in
  let attrs := set_nonempty "duration" (cdExpiration d) attrs in
  mkLog zero_time (print body) attrs SeverityInfo "".

Record crowdsecSource := mkCrowdSec { lastAlertID : Z; lastDecisionID : Z }.
Definition newCrowdSecSource : crowdsecSource := mkCrowdSec 0 0.
Definition by_id {A : Type} (id : A -> Z) (a b : A) : bool := id a <? id b.

(** What is newer than the cursor, in the order of the ids, and the cursor after it. *)
Definition newer {A : Type} (id : A -> Z) (rows : list A) (cursor : Z) : list A * Z :=
  let sorted := sort_by (by_id id) rows in
  (filter (fun r => cursor < id r) sorted, match last sorted with Some r => if cursor <? id r then id r else cursor | None => cursor end).
(** Both lists are fetched before anything is changed. *)
Definition crowdsec_Poll (alerts : option (list CrowdSecAlert)) (decisions : option (list CrowdSecDecision)) (s : crowdsecSource) : option (list LogRecord) * crowdsecSource :=
  match alerts, decisions with
  | Some alerts, Some decisions =>
      let '(a, lastA) := newer caID alerts (lastAlertID s) in
      let '(d, lastD) := newer cdID decisions (lastDecisionID s) in
      (Some (map buildCrowdSecAlertRecord a ++ map buildCrowdSecDecisionRecord d), mkCrowdSec lastA lastD)
  | _, _ => (None, s)
  end.
Definition crowdsec_SaveState (s : crowdsecSource) : option (Z * Z) := if (lastAlertID s =? 0) && (lastDecisionID s =? 0) then None else Some (lastAlertID s, lastDecisionID s).
Definition crowdsec_LoadState (data : option (Z * Z)) (s : crowdsecSource) : crowdsecSource :=
  match data with None => s | Some (a, d) => mkCrowdSec a d end.

(** ** Windows

    The backend's log grows at its end, in order of time; a page holds its last rows.
    What a source promises to the sessions below: *)

Section window.
Context {R : Type} (time : R -> Z) (key : R -> string).
Definition last_n (n : nat) (l : list R) : list R := drop (length l - n) l.
Definition in_order : list R -> Prop := StronglySorted (fun a b => time a <= time b).
Definition distinct (l : list R) : Prop := NoDup (map (fun r => (time r, key r)) l).
Definition fresh (t : Z) (seen : gset string) (r : R) : Prop := t < time r \/ time r = t /\ key r ∉ seen.
#[export] Instance fresh_dec t seen r : Decision (fresh t seen r).
Proof. unfold fresh. apply _. Defined.
(** The cursor a page gives. *)
Definition cursor_at (page : list R) (t : Z) (seen : gset string) : Prop :=
  (exists r, r ∈ page /\ time r = t) /\ Forall (fun r => time r <= t) page /\ seen = list_to_set (map key (filter (fun r => time r = t) page)).

Lemma last_n_app n a b : last_n n (a ++ b) = last_n (n - length b) a ++ last_n n b.
Proof.
  unfold last_n. rewrite length_app, drop_app. f_equal; [|f_equal; lia]. destruct (decide (n <= length b)%nat); [|f_equal; lia].
  rewrite !drop_ge; [done|lia..].
Qed.
Lemma last_n_all n l : (length l <= n)%nat -> last_n n l = l.
Proof. intros H. unfold last_n. by replace (length l - n)%nat with 0%nat by lia. Qed.
Lemma last_n_split n l : take (length l - n) l ++ last_n n l = l.
Proof. apply take_drop. Qed.
Lemma last_n_in n l r : r ∈ last_n n l -> r ∈ l.
Proof. intros H. rewrite <- (last_n_split n l). apply elem_of_app. by right. Qed.
Lemma last_in n l x : (0 < n)%nat -> last l = Some x -> x ∈ last_n n l.
Proof.
  intros Hn H. apply last_Some in H as [l' ->]. rewrite last_n_app. apply elem_of_app. right. rewrite last_n_all by (cbn; lia). by apply list_elem_of_singleton.
Qed.

Lemma filter_none (P : R -> Prop) `{forall r, Decision (P r)} (l : list R) : (forall r, r ∈ l -> ~ P r) -> filter P l = [].
Proof. induction l as [|r l IH]; intros H'; [done|]. rewrite filter_cons_False by (apply H'; left). apply IH. intros x Hx. apply H'. by right. Qed.
Lemma last_n_mono m n l r : (m <= n)%nat -> r ∈ last_n m l -> r ∈ last_n n l.
Proof.
  intros Hm Hr. unfold last_n in *. replace (length l - m)%nat with ((length l - n) + ((length l - m) - (length l - n)))%nat in Hr by lia.
  rewrite <- drop_drop in Hr. rewrite <- (take_drop ((length l - m) - (length l - n)) (drop (length l - n) l)). apply elem_of_app. by right.
Qed.

Lemma order_app a b : in_order (a ++ b) -> in_order a /\ in_order b /\ forall x y, x ∈ a -> y ∈ b -> time x <= time y.
Proof.
  induction a as [|x a IH]; intros H; [repeat split; [constructor|done|by intros ? ? ?%not_elem_of_nil]|]. inversion H as [|? ? H1 H2]. subst.
  destruct (IH H1) as (Ha & Hb & Hab). rewrite Forall_app in H2. destruct H2 as [H2 H3]. split; [by constructor|]. split; [done|].
  intros u v [->|Hu]%elem_of_cons Hv; [by rewrite Forall_forall in H3; apply H3|by apply Hab].
Qed.
Lemma order_last l x r : in_order l -> last l = Some x -> r ∈ l -> time r <= time x.
Proof.
  intros H [l' ->]%last_Some Hr. apply order_app in H as (_ & _ & H). apply elem_of_app in Hr as [Hr|Hr%list_elem_of_singleton]; [|by subst]. apply H; [done|by apply list_elem_of_singleton].
Qed.

(** The cursor of a log's window is its newest row's. *)
Lemma cursor_last n l x page t seen : (0 < n)%nat -> in_order l -> last l = Some x -> page ≡ₚ last_n n l -> cursor_at page t seen -> t = time x.
Proof.
  intros Hn Ho Hx Hp [(r & Hr & <-) [Hall _]]. rewrite Forall_forall in Hall. apply Z.le_antisymm.
  - apply (order_last l x r Ho Hx), (last_n_in n). by rewrite <- Hp.
  - apply Hall. rewrite Hp. by apply last_in.
Qed.

(** What is fresh in the next window is exactly what was added since and is still there. *)
Lemma fresh_window n L B x page page' t seen : (0 < n)%nat -> in_order (L ++ B) -> distinct (L ++ B) -> last L = Some x -> page ≡ₚ last_n n L -> cursor_at page t seen ->
  page' ≡ₚ last_n n (L ++ B) -> filter (fresh t seen) page' ≡ₚ last_n n B.
Proof.
  intros Hn Ho Hd Hx Hp Hc Hp'. apply order_app in Ho as Hord. destruct Hord as (HoL & HoB & HoLB). pose proof (cursor_last n L x page t seen Hn HoL Hx Hp Hc) as Ht.
  destruct Hc as (_ & Hmax & ->). rewrite Hp', last_n_app, filter_app. assert (x ∈ L) as HxL by (apply last_Some_elem_of in Hx; done).
  assert (forall r, r ∈ B -> fresh t (list_to_set (map key (filter (fun r => time r = t) page))) r) as Hfresh.
  { intros r Hr. pose proof (HoLB x r HxL Hr) as Hle. destruct (decide (time r = t)) as [E|E]; [|left; lia]. right. split; [done|]. intros Hk.
    apply elem_of_list_to_set, list_elem_of_fmap in Hk as (r' & Hk & Hr'). apply list_elem_of_filter in Hr' as [Ht' Hr']. rewrite Hp in Hr'. apply last_n_in in Hr'.
    unfold distinct in Hd. rewrite map_app in Hd. apply NoDup_app in Hd as (_ & Hd & _). apply (Hd (time r, key r)); apply list_elem_of_fmap; [exists r'; by rewrite Hk, Ht', E|by exists r]. }
  rewrite (filter_none _ (last_n (n - length B) L)), (filter_all _ (last_n n B)), app_nil_l; [done| |].
  - apply Forall_forall. intros r Hr. apply Hfresh. by apply last_n_in in Hr.
  - intros r Hr [Hlt|[Heq Hk]].
    + apply last_n_in in Hr. pose proof (order_last L x r HoL Hx Hr). lia.
    + apply Hk. apply elem_of_list_to_set, list_elem_of_fmap. exists r. split; [done|]. apply list_elem_of_filter. split; [done|]. rewrite Hp.
      apply (last_n_mono (n - length B)); [lia|done].
Qed.
End window.

(** What a windowed source promises: a cold source may ship its first page or not; after
    that a poll ships what is fresh, and says nothing of a gap only when a full page
    reaches back to the cursor. *)
Class Windowed (S R : Type) := {
  w_time : R -> Z;
  w_key : R -> string;
  w_cap : nat;
  w_new : S;
  w_cursor : S -> option (Z * gset string);
  w_page : list R -> Prop;
  w_poll : list R -> S -> list R * bool * S;
  w_restart : S -> S }.

Class WindowedLaws (S R : Type) `{Windowed S R} : Prop := {
  w_cap_pos : (0 < w_cap)%nat;
  w_new_cold : w_cursor w_new = None;
  w_restart_cold s : w_cursor s = None -> w_cursor (w_restart s) = None;
  w_restart_keeps s t seen : 0 < t -> w_cursor s = Some (t, seen) -> w_cursor (w_restart s) = Some (t, seen);
  w_poll_nothing s : w_poll [] s = ([], false, s);
  w_poll_moves page s : w_page page -> page <> [] -> Forall (fun r => 0 < w_time r) page ->
    exists t seen, w_cursor (w_poll page s).2 = Some (t, seen) /\ cursor_at w_time w_key page t seen;
  w_poll_cold page s : w_cursor s = None -> (w_poll page s).1.1 ⊆+ page;
  w_poll_fresh page s t seen : w_cursor s = Some (t, seen) -> (w_poll page s).1.1 ≡ₚ filter (fresh w_time w_key t seen) page;
  w_poll_gap page s t seen : w_cursor s = Some (t, seen) -> (w_cap <= length page)%nat -> w_page page -> (w_poll page s).1.2 = false -> exists r, r ∈ page /\ w_time r <= t }.

Section sessions.
Context {S R : Type} `{W : Windowed S R} `{!WindowedLaws S R}.

(** A row the backend may add to its log. *)
Definition fits (log : list R) (r : R) : Prop :=
  0 < w_time r /\ Forall (fun x => w_time x <= w_time r) log /\ (w_time r, w_key r) ∉ map (fun x => (w_time x, w_key x)) log.

(** Sessions: the log at the last poll, the rows added since, the source, the rows it
    shipped, the gaps it counted, and the most rows that were ever pending at a poll. *)
Inductive session : list R -> list R -> S -> list R -> nat -> nat -> Prop :=
| Starts : session [] [] w_new [] 0 0
| Adds L B s out g m r : session L B s out g m -> fits (L ++ B) r -> session L (B ++ [r]) s out g m
| Restarts L B s out g m : session L B s out g m -> session L B (w_restart s) out g m
| Polls L B s out g m page : session L B s out g m -> w_page page -> page ≡ₚ last_n w_cap (L ++ B) ->
    session (L ++ B) [] (w_poll page s).2 (out ++ (w_poll page s).1.1) (g + (if (w_poll page s).1.2 then 1 else 0)) (Nat.max m (if decide (L = []) then 0 else length B)).

(** A row of the same time as the newest row of an earlier poll. *)
Definition late (L : list R) (r : R) : Prop := exists L1 L2 x, L = L1 ++ L2 /\ r ∈ L2 /\ last L1 = Some x /\ w_time x = w_time r.

Record accounted (L B : list R) (s : S) (out : list R) (g m : nat) : Prop := {
  acc_order : in_order w_time (L ++ B);
  acc_distinct : distinct w_time w_key (L ++ B);
  acc_valid : Forall (fun r => 0 < w_time r) (L ++ B);
  acc_cursor : L = [] /\ w_cursor s = None /\ out = [] /\ g = 0%nat
    \/ exists x page t seen, last L = Some x /\ page ≡ₚ last_n w_cap L /\ w_cursor s = Some (t, seen) /\ cursor_at w_time w_key page t seen;
  acc_rows : exists L0 L1 out0 out1 lost, L = L0 ++ L1 /\ out = out0 ++ out1 /\ out0 ⊆+ L0 /\ out1 ++ lost ≡ₚ L1
    /\ ((m <= w_cap)%nat -> lost = []) /\ (g = 0%nat -> Forall (late L) lost) }.

Lemma in_order_snoc l r : in_order w_time l -> Forall (fun x => w_time x <= w_time r) l -> in_order w_time (l ++ [r]).
Proof.
  induction 1 as [|x l Hl IH Hx]; intros Hf; [repeat constructor|]. inversion Hf. subst. cbn. constructor; [by apply IH|]. apply Forall_app. split; [done|]. by repeat constructor.
Qed.

Lemma late_app L B r : late L r -> late (L ++ B) r.
Proof. intros (L1 & L2 & x & -> & Hr & Hx & Ht). exists L1, (L2 ++ B), x. rewrite app_assoc. split; [done|]. split; [apply elem_of_app; by left|done]. Qed.

(** A poll after the first. *)
Lemma poll_accounted L B s out g m page : accounted L B s out g m -> L <> [] -> w_page page -> page ≡ₚ last_n w_cap (L ++ B) ->
  accounted (L ++ B) [] (w_poll page s).2 (out ++ (w_poll page s).1.1) (g + (if (w_poll page s).1.2 then 1 else 0)) (Nat.max m (length B)).
Proof.
  intros [Ho Hd Hv Hc (L0 & L1 & out0 & out1 & lost & EL & Eo & H0 & H1 & Hm & Hg)] HL Hpage Hp.
  destruct Hc as [(? & _)|(x & page0 & t & seen & Hx & Hp0 & Hcur & Hat)]; [done|]. pose proof (fresh_window w_time w_key w_cap L B x page0 page t seen w_cap_pos Ho Hd Hx Hp0 Hat Hp) as Hfresh.
  rewrite <- (w_poll_fresh page s t seen Hcur) in Hfresh. assert (exists y, last (L ++ B) = Some y) as [y Hy].
  { destruct (last (L ++ B)) eqn:E; [eauto|]. apply last_None, app_eq_nil in E as [? _]. done. }
  assert (page <> []) as Hne by (intros ->; apply (last_in w_cap) in Hy; [|apply w_cap_pos]; rewrite <- Hp in Hy; by apply not_elem_of_nil in Hy).
  pose proof (cursor_last w_time w_key w_cap L x page0 t seen w_cap_pos (proj1 (order_app w_time L B Ho)) Hx Hp0 Hat) as Ht. split; [by rewrite app_nil_r..| |].
  - right. destruct (w_poll_moves page s Hpage Hne) as (t' & seen' & Hc' & Hat'); [rewrite Hp; apply Forall_forall; intros r Hr%last_n_in; rewrite Forall_forall in Hv; by apply Hv|].
    by exists y, page, t', seen'.
  - exists L0, (L1 ++ B), out0, (out1 ++ (w_poll page s).1.1), (lost ++ take (length B - w_cap) B). split; [by rewrite EL, app_assoc|]. split; [by rewrite Eo, app_assoc|]. split; [done|].
    split.
    { rewrite Hfresh, <- H1. transitivity ((out1 ++ lost) ++ take (length B - w_cap) B ++ last_n w_cap B); [|by rewrite last_n_split].
      rewrite <- !app_assoc. apply Permutation_app_head. by rewrite (Permutation_app_comm (last_n w_cap B)), <- app_assoc. }
     split.
    + intros Hle. rewrite Hm by lia. by replace (length B - w_cap)%nat with 0%nat by lia.
    + intros Hg0. apply Forall_app. split; [apply (Forall_impl (late L)); [apply Hg; lia|intros r; apply late_app]|]. destruct (w_poll page s).1.2 eqn:Egap; [lia|].
      apply Forall_forall. intros r Hr. exists L, B, x. split; [done|]. assert (r ∈ B) as HrB by (rewrite <- (take_drop (length B - w_cap) B); apply elem_of_app; by left).
      split; [done|]. split; [done|]. destruct (decide (length B <= w_cap)%nat) as [Hs|Hs]; [replace (length B - w_cap)%nat with 0%nat in Hr by lia; by apply not_elem_of_nil in Hr|].
      destruct (order_app w_time L B Ho) as (_ & HoB & HoLB). rewrite <- (last_n_split w_cap B) in HoB. apply order_app in HoB as (_ & _ & HoB).
      assert (last_n w_cap (L ++ B) = last_n w_cap B) as El.
      { rewrite last_n_app. unfold last_n at 1. replace (w_cap - length B)%nat with 0%nat by lia. by rewrite drop_ge by lia. }
      rewrite El in Hp. destruct (w_poll_gap page s t seen Hcur) as (r' & Hr' & Hle); [rewrite Hp; unfold last_n; rewrite length_drop; lia|done|done|].
      rewrite Hp in Hr'. pose proof (HoB r r' Hr Hr'). pose proof (HoLB x r ltac:(by apply last_Some_elem_of) HrB). lia.
Qed.

Lemma session_accounted L B s out g m : session L B s out g m -> accounted L B s out g m.
Proof.
  induction 1 as [|L B s out g m r Hs IH (Hr & Hle & Hk)|L B s out g m Hs IH|L B s out g m page Hs IH Hpage Hp].
  - split; [constructor|constructor|constructor|left; repeat split; apply w_new_cold|]. exists [], [], [], [], []. repeat split; try done; constructor.
  - destruct IH as [Ho Hd Hv Hc Hrows]. split; rewrite ?(app_assoc L B [r]); [by apply in_order_snoc| |by apply Forall_app; repeat constructor|done|done].
    unfold distinct. rewrite map_app. apply NoDup_app. split; [done|]. split; [|apply NoDup_singleton]. intros p Hin Hp%list_elem_of_singleton. by subst p.
  - destruct IH as [Ho Hd Hv Hc Hrows]. split; [done..| |done]. destruct Hc as [(-> & Hc & ? & ?)|(x & page & t & seen & Hx & Hp & Hc & Hat)]; [left; repeat split; try done; by apply w_restart_cold|].
    right. exists x, page, t, seen. split; [done|]. split; [done|]. split; [|done]. apply w_restart_keeps; [|done]. destruct Hat as [(r & Hr & <-) _]. rewrite Hp in Hr. apply last_n_in in Hr.
    rewrite Forall_forall in Hv. apply Hv, elem_of_app. by left.
  - destruct (decide (L = [])) as [-> |HL]; [|by apply poll_accounted]. destruct IH as [Ho Hd Hv Hc Hrows]. rewrite app_nil_l in *.
    destruct Hc as [(_ & Hcold & -> & ->)|(x & ? & ? & ? & ? & _)]; [|done]. destruct page as [|r page].
    { rewrite w_poll_nothing. cbn. assert (B = []) as ->.
      { destruct (last B) as [x|] eqn:E; [|by apply last_None]. apply (last_in w_cap) in E; [|apply w_cap_pos]. rewrite <- Hp in E. by apply not_elem_of_nil in E. }
      split; [done..|by left|]. exists [], [], [], [], []. repeat split; try done; constructor. }
    assert (exists y, last B = Some y) as [y Hy]. { destruct (last B) eqn:E; [eauto|]. apply last_None in E as ->. by apply Permutation_nil_r in Hp. }
    destruct (w_poll_moves (r :: page) s Hpage) as (t & seen & Hc & Hat); [done|rewrite Hp; apply Forall_forall; intros r' Hr'%last_n_in; rewrite Forall_forall in Hv; by apply Hv|].
    split; [by rewrite app_nil_r..|right; by exists y, (r :: page), t, seen|]. pose proof (w_poll_cold (r :: page) s Hcold) as Hsub.
    exists B, [], (w_poll (r :: page) s).1.1, [], []. rewrite !app_nil_r, app_nil_l. split; [done|]. split; [done|]. split; [|by repeat split].
    etransitivity; [exact Hsub|]. rewrite Hp. rewrite <- (last_n_split w_cap B) at 2. by apply submseteq_inserts_l.
Qed.

Lemma windowed_exact L B s out g m : session L B s out g m ->
  exists L0 L1 out0 out1 lost, L = L0 ++ L1 /\ out = out0 ++ out1 /\ out0 ⊆+ L0 /\ out1 ++ lost ≡ₚ L1 /\ ((m <= w_cap)%nat -> lost = []) /\ (g = 0%nat -> Forall (late L) lost).
Proof. intros Hs. apply (acc_rows _ _ _ _ _ _ (session_accounted _ _ _ _ _ _ Hs)). Qed.
End sessions.

(** ** The instances *)

Lemma sorted_set (l : gset string) : list_to_set (sort_by str_lt (elements l)) = l.
Proof. apply set_eq. intros x. by rewrite elem_of_list_to_set, sort_by_perm, elem_of_elements. Qed.

(** A restart loads what was saved into a new source. *)
#[export] Instance unbound_windowed : Windowed unboundSource UnboundSearchQueryRow := {|
  w_time := qTime; w_key := rowFingerprint; w_cap := Z.to_nat UnboundSearchQueriesRowCap; w_new := newUnboundSource;
  w_cursor s := if lastTime s =? 0 then None else Some (lastTime s, seenAtLastTime s);
  w_page := StronglySorted (fun a b => qTime b <= qTime a);
  w_poll := unbound_rows;
  w_restart s := unbound_LoadState (unbound_SaveState s) newUnboundSource |}.

Lemma unbound_newest r0 page : StronglySorted (fun a b => qTime b <= qTime a) (r0 :: page) -> Forall (fun r => qTime r <= qTime r0) (r0 :: page).
Proof. inversion 1. subst. constructor; [lia|done]. Qed.

#[export] Instance unbound_laws : WindowedLaws unboundSource UnboundSearchQueryRow.
Proof.
  split; cbn.
  - vm_compute. lia.
  - done.
  - intros s. unfold unbound_SaveState. by destruct (lastTime s =? 0).
  - intros s t seen Ht. unfold unbound_SaveState. destruct (lastTime s =? 0) eqn:E; [done|]. intros [= <- <-]. cbn. by rewrite E, sorted_set.
  - done.
  - intros [|r0 page] s Hpage Hne Hpos; [done|]. unfold unbound_rows. destruct (last (r0 :: page)) as [rn|] eqn:El; [|by apply last_None in El]. cbn [snd lastTime seenAtLastTime].
    inversion Hpos as [|? ? H0 _]. subst. destruct (Z.eqb_spec (qTime r0) 0) as [E|_]; [lia|]. do 2 eexists. split; [done|]. split; [exists r0; split; [left|done]|].
    split; [by apply unbound_newest|done].
  - intros [|r0 page] s Hc; [done|]. unfold unbound_rows. destruct (last (r0 :: page)) as [rn|]; [|apply submseteq_nil_l]. destruct (lastTime s =? 0); [|done]. apply submseteq_nil_l.
  - intros [|r0 page] s t seen Hc; [done|]. unfold unbound_rows. destruct (last (r0 :: page)) as [rn|] eqn:El; [|by apply last_None in El]. destruct (lastTime s =? 0) eqn:E; [done|].
    injection Hc as <- <-. cbn [fst]. clear. generalize (r0 :: page) as l. intros l. induction l as [|r l IH]; [done|].
    assert (unbound_fresh s r = true <-> fresh qTime rowFingerprint (lastTime s) (seenAtLastTime s) r) as Hiff.
    { unfold unbound_fresh, fresh. rewrite orb_true_iff, andb_true_iff, negb_true_iff, bool_decide_eq_false, Z.ltb_lt, Z.eqb_eq. done. }
    destruct (decide (fresh qTime rowFingerprint (lastTime s) (seenAtLastTime s) r)) as [Hf|Hf].
    + rewrite !filter_cons_True by (done || by apply Hiff). by rewrite IH.
    + rewrite !filter_cons_False by (done || by rewrite Hiff). done.
  - intros [|r0 page] s t seen Hc Hlen Hpage; [vm_compute in Hlen; lia|]. unfold unbound_rows. destruct (last (r0 :: page)) as [rn|] eqn:El; [|by apply last_None in El].
    destruct (lastTime s =? 0); [done|]. injection Hc as <- <-. cbn [fst snd negb andb]. intros Hg. bool_prop. exists rn. split; [by apply last_Some_elem_of|done].
Qed.

#[export] Instance ids_windowed : Windowed idsSource IDSAlertRecord := {|
  w_time r := instant (iTimestamp r); w_key := idsDedupeKey; w_cap := Z.to_nat IDSAlertRowCap; w_new := None;
  w_cursor s := (fun c => (instant (lastTimestamp c), dedupe c)) <$> s;
  w_page := StronglySorted (fun a b => instant (iTimestamp a) <= instant (iTimestamp b));
  w_poll page s := let '(gap, kept, s) := ids_rows page s in (kept, bool_decide (is_Some gap), s);
  w_restart s := ids_LoadState (ids_SaveState s) None |}.

Lemma ids_advance page s : StronglySorted (fun a b => instant (iTimestamp a) <= instant (iTimestamp b)) page -> page <> [] ->
  exists c, advanceCursor page s = Some c /\ cursor_at (fun r => instant (iTimestamp r)) idsDedupeKey page (instant (lastTimestamp c)) (dedupe c).
Proof.
  intros Hs Hne. unfold advanceCursor. destruct (last page) as [newest|] eqn:El; [|by apply last_None in El]. eexists. split; [done|]. cbn.
  split; [exists newest; split; [by apply last_Some_elem_of|done]|]. split; [|done]. apply Forall_forall. intros r Hr. exact (order_last (fun r => instant (iTimestamp r)) page newest r Hs El Hr).
Qed.

#[export] Instance ids_laws : WindowedLaws idsSource IDSAlertRecord.
Proof.
  split; cbn.
  - vm_compute. lia.
  - done.
  - by intros [c|].
  - intros [c|] t seen Ht [= <- <-]. cbn [ids_SaveState ids_LoadState iLastTimestamp iDedupe]. unfold IsZero. destruct (Z.eqb_spec (instant (lastTimestamp c)) 0) as [E|_]; [lia|].
    by rewrite sorted_set.
  - by intros [c|].
  - intros [|r0 page] s Hpage Hne _; [done|]. destruct (ids_advance (r0 :: page) s Hpage Hne) as (c & Hc & Hat).
    exists (instant (lastTimestamp c)), (dedupe c). split; [|done]. unfold ids_rows. destruct s as [c0|]; cbn [snd]; by rewrite Hc.
  - by intros [|r0 page] [c|] Hc.
  - intros [|r0 page] [c|] t seen Hc; try done. injection Hc as <- <-. cbn [ids_rows fst snd]. generalize (r0 :: page) as l. intros l. induction l as [|r l IH]; [done|].
    assert (ids_fresh c r = true <-> fresh (fun r => instant (iTimestamp r)) idsDedupeKey (instant (lastTimestamp c)) (dedupe c) r) as Hiff.
    { unfold ids_fresh, fresh. rewrite andb_true_iff, !negb_true_iff, andb_false_iff, bool_decide_eq_false, Z.ltb_ge, Z.eqb_neq. split.
      - intros [Hle [Hne|Hk]]; [left; lia|]. destruct (decide (instant (iTimestamp r) = instant (lastTimestamp c))); [by right|left; lia].
      - intros [Hlt|[-> Hk]]; (split; [lia|]); [left; lia|by right]. }
    destruct (decide (fresh (fun r => instant (iTimestamp r)) idsDedupeKey (instant (lastTimestamp c)) (dedupe c) r)) as [Hf|Hf].
    + rewrite !filter_cons_True by (done || by apply Hiff). by rewrite IH.
    + rewrite !filter_cons_False by (done || by rewrite Hiff). done.
  - intros [|r0 page] [c|] t seen Hc Hlen Hpage; try done; [vm_compute in Hlen; lia|]. injection Hc as <- <-. cbn [ids_rows fst snd]. intros Hg. exists r0. split; [left|].
    assert (IDSAlertRowCap <=? zlen (r0 :: page) = true) as Ef by (apply Z.leb_le; unfold zlen; cbn [length] in *; change IDSAlertRowCap with (Z.of_nat (Z.to_nat IDSAlertRowCap)); lia).
    rewrite Ef in Hg. cbn [andb] in Hg. destruct (Z.ltb_spec (instant (lastTimestamp c)) (instant (iTimestamp r0))); [by rewrite bool_decide_eq_false in Hg; destruct Hg|done].
Qed.

(** ** Deliveries *)


(** So are Suricata's alerts, of which a page holds five hundred: the first poll ships
    its page, and a gap is a record of its own. *)
Theorem ids_delivery (L B : list IDSAlertRecord) (s : idsSource) out g m : session L B s out g m ->
  exists L0 L1 out0 out1 lost, L = L0 ++ L1 /\ out = out0 ++ out1 /\ out0 ⊆+ L0 /\ out1 ++ lost ≡ₚ L1
    /\ (Z.of_nat m <= IDSAlertRowCap -> lost = []) /\ (g = 0%nat -> Forall (late L) lost).
Proof.
  intros Hs. destruct (windowed_exact _ _ _ _ _ _ Hs) as (L0 & L1 & out0 & out1 & lost & HL & Ho & H0 & H1 & Hm & Hg). exists L0, L1, out0, out1, lost.
  do 4 (split; [done|]). split; [|done]. intros Hle. apply Hm. cbn [w_cap unbound_windowed ids_windowed]. lia.
Qed.

(** Two queries, a poll after each. *)
Definition demo_query (t : Z) (domain : string) : UnboundSearchQueryRow :=
  mkQuery "" t "10.0.0.5" "" "A" domain "Pass" "Recursion" "" "NOERROR" 3 "" 60 "" false.
Definition demo_alert (t : Z) (flow : Z) : IDSAlertRecord := mkIDSAlert (mkStamp t "") flow 2001 "blocked" "ET SCAN" "10.0.0.5" "192.0.2.1" "igb0" "TCP" "{}".


Lemma ids_delivery_witness : exists (L B : list IDSAlertRecord) (s : idsSource) out g m, session L B s out g m /\ out = [demo_alert 7 1; demo_alert 7 2] /\
  exists L0 L1 out0 out1 lost, L = L0 ++ L1 /\ out = out0 ++ out1 /\ out0 ⊆+ L0 /\ out1 ++ lost ≡ₚ L1
    /\ (Z.of_nat m <= IDSAlertRowCap -> lost = []) /\ (g = 0%nat -> Forall (late L) lost).
Proof.
  set (a := demo_alert 7 1). set (b := demo_alert 7 2).
  assert (fits [] a) as Ha by (split; [done|]; split; [constructor|apply not_elem_of_nil]).
  assert (fits [a] b) as Hb by (split; [done|]; split; [by repeat constructor|by intros ?%list_elem_of_singleton]).
  pose proof (Polls [] [a] _ _ _ _ [a] (Adds [] [] _ _ _ _ a Starts Ha) ltac:(by repeat constructor) ltac:(by vm_compute)) as H1.
  pose proof (Polls [a] [b] _ _ _ _ [a; b] (Adds [a] [] _ _ _ _ b (Restarts _ _ _ _ _ _ H1) Hb) ltac:(by repeat constructor) ltac:(by vm_compute)) as H2.
  do 6 eexists. split; [exact H2|]. split; [by vm_compute|]. exact (ids_delivery _ _ _ _ _ _ H2).
Defined.

(** *** CrowdSec *)

#[export] Instance by_id_order {A} (id : A -> Z) : WeakOrder (by_id id).
Proof. split; unfold by_id; intros; repeat match goal with H : _ <? _ = _ |- _ => revert H end; rewrite ?Z.ltb_lt, ?Z.ltb_ge; lia. Qed.

Lemma newer_spec {A} (id : A -> Z) rows c : let '(out, c') := newer id rows c in
  out ≡ₚ filter (fun r => c < id r) rows /\ c <= c' /\ Forall (fun r => id r <= c') rows /\ (c' = c \/ exists r, r ∈ rows /\ id r = c').
Proof.
  unfold newer. pose proof (sort_by_perm (by_id id) rows) as Hp. pose proof (sort_by_sorted (by_id id) rows) as Hs. set (l := sort_by _ rows) in *. clearbody l.
  split; [by rewrite Hp|]. destruct (last l) as [x|] eqn:El.
  - assert (Forall (fun r => id r <= id x) rows) as Hall.
    { rewrite <- Hp. apply last_Some in El as [l' ->]. clear Hp. induction l' as [|y l' IH]; [by repeat constructor|]. inversion Hs as [|? ? Hs' Hy]. subst.
      constructor; [|by apply IH]. apply Forall_app in Hy as [_ Hy]. inversion Hy as [|? ? Hyx _]. subst. unfold not_after, by_id in Hyx. by apply Z.ltb_ge in Hyx. }
    assert (x ∈ rows) as Hx by (rewrite <- Hp; by apply last_Some_elem_of). destruct (Z.ltb_spec c (id x)).
    + split; [lia|]. split; [done|]. right. by exists x.
    + split; [lia|]. split; [|by left]. apply (Forall_impl _ _ _ Hall). lia.
  - apply last_None in El as ->. apply Permutation_nil_l in Hp. subst. split; [lia|]. split; [constructor|by left].
Qed.

(** What a sequence of polls ships of one kind, and the cursor after it. *)
Fixpoint newer_all {A} (id : A -> Z) (polls : list (list A)) (c : Z) : list (list A) * Z :=
  match polls with
  | [] => ([], c)
  | rows :: polls => let '(out, c) := newer id rows c in let '(outs, c) := newer_all id polls c in (out :: outs, c)
  end.

(** Over any sequence of listings a row is shipped by the first poll that lists it, unless
    a higher id was listed before; and nothing is shipped twice. *)
Theorem crowdsec_once {A} (id : A -> Z) polls c :
  Forall2 (fun rows out => out ⊆+ rows) polls (newer_all id polls c).1 /\ Forall (fun r => c < id r <= (newer_all id polls c).2) (concat (newer_all id polls c).1)
  /\ forall before rows after, polls = before ++ rows :: after -> (forall r, r ∈ rows -> c < id r -> Forall (fun b => id b < id r) (concat before) -> r ∈ concat (newer_all id polls c).1).
Proof.
  revert c. induction polls as [|rows polls IH]; intros c; cbn [newer_all]; [split; [constructor|]; split; [constructor|]; by intros [|? ?] ? ? ?|].
  pose proof (newer_spec id rows c) as Hn. destruct (newer id rows c) as [out c1]. destruct Hn as (Ho & Hc & Hall & Hmax). destruct (IH c1) as (H1 & H2 & H3).
  destruct (newer_all id polls c1) as [outs c2] eqn:E. cbn [fst snd concat] in *. assert (c1 <= c2) as Hc2.
  { clear -E. revert c1 outs c2 E. induction polls as [|r polls IH]; intros c1 outs c2 E; cbn [newer_all] in E; [injection E as <- <-; lia|]. pose proof (newer_spec id r c1) as Hn.
    destruct (newer id r c1) as [o c]. destruct Hn as (_ & Hc & _). destruct (newer_all id polls c) as [os c'] eqn:E'. simplify_eq/=. specialize (IH _ _ _ E'). lia. }
  split; [constructor; [rewrite Ho; apply sublist_submseteq, sublist_filter|done]|]. split.
  - apply Forall_app. split; [|apply (Forall_impl _ _ _ H2); lia]. rewrite Ho. apply Forall_forall. intros r [Hlt Hr]%list_elem_of_filter. rewrite Forall_forall in Hall. specialize (Hall r Hr). lia.
  - intros [|b0 before] rows' after Heq r Hr Hlt Hb; cbn in *; injection Heq as -> Hpolls.
    + apply elem_of_app. left. rewrite Ho. by apply list_elem_of_filter.
    + apply elem_of_app. right. apply Forall_app in Hb as [Hb0 Hb]. apply (H3 before rows' after Hpolls r Hr); [|done]. destruct Hmax as [-> |(x & Hx & <-)]; [done|].
      rewrite Forall_forall in Hb0. by apply Hb0.
Qed.
End Polled.
