(* ===== verification/Sensitive.v ===== *)
(** * What must not leave the firewall ([opnsense/config_snapshot.go], the redaction of
      [logship/configchange.go])

    The vocabulary of credentials, the redaction of configuration rows as trees, and the
    redaction of configuration diffs as text. *)

From stdpp Require Import base decidable list gmap strings.
From Stdlib Require Import ZArith Lia Ascii.
From S2P Require Import Prelude Order Netip GoStrings Envelope GoRegexp Receiver Parsers Zenarmor GoJson.
Import Json Envelope.

Module Sensitive.

(** ** The vocabulary *)

Definition sensitiveConfigSubstrings : list string :=
  ["password"; "passphrase"; "secret"; "privatekey"; "privkey"; "sharedkey"; "token"; "apikey"; "authkey"; "credential"; "passwd"].
Definition sensitiveConfigTerms : list string := ["prv"; "key"].
Definition sensitiveConfigExact : list string := ["psk"; "pass"; "otpseed"; "ldapbindpw"; "enckey"; "community"].
Definition isSeparator (c : ascii) : bool := Ascii.eqb c "_" || Ascii.eqb c "-" || Ascii.eqb c "." || Ascii.eqb c "%".
(** [sensitiveConfigNormalizer] *)
Fixpoint normalizer (s : string) : string :=
  match s with EmptyString => "" | String c s => if isSeparator c then normalizer s else String c (normalizer s) end.
(** [strings.Contains] *)
Definition Contains (s sub : string) : bool := match Receiver.Index s sub with Some _ => true | None => false end.
(** The pieces between separators, the empty ones included, which are no term. *)
Fixpoint pieces_of (s : string) : string * list string :=
  match s with
  | EmptyString => ("", [])
  | String c s => let '(cur, done) := pieces_of s in if isSeparator c then ("", cur :: done) else (String c cur, done)
  end.
Definition terms (s : string) : list string := let '(cur, done) := pieces_of s in cur :: done.
Definition SensitiveConfigKey (key : string) : bool :=
  let normalized := Zenarmor.ToLower (normalizer key) in
  existsb (str_eq normalized) sensitiveConfigExact
  || existsb (Contains normalized) sensitiveConfigSubstrings
  || HasPrefix normalized "prv"
  || existsb (fun term => existsb (str_eq term) sensitiveConfigTerms) (terms (Zenarmor.ToLower key)).

Example sensitive_keys :
  map SensitiveConfigKey ["wgPrivateKey"; "radius_secret"; "api-key"; "prv_payload"; "PSK"; "keyexpiry"; "monkey"; "uuid"; ""; "gateway"]
  = [true; true; true; true; true; false; false; false; false; false].
Proof. vm_compute. reflexivity. Qed.

(** ** Trees *)

(** [redactConfigSnapshotFields], [redactSecurityPostureConfig] and
    [redactRoutingChangeValue] are this function. *)
Fixpoint redact (v : json) : json :=
  match v with
  | JObj l => JObj (omap (fun p => if SensitiveConfigKey p.1 then None else Some (p.1, redact p.2)) l)
  | JArr l => JArr (map redact l)
  | v => v
  end.

(** A value of the type [any]: the members of an object are a map, the last of a name
    wins, and they are printed in the order of their names. *)
Definition by_key (a b : string * json) : bool := str_lt a.1 b.1.
Definition map_of (l : list (string * json)) : gmap string json := list_to_map (rev l).
Definition members (m : gmap string json) : list (string * json) := sort_by by_key (map_to_list m).
Fixpoint any_of (v : json) : json :=
  match v with
  | JObj l => JObj (members (map_of (map (fun p => (p.1, any_of p.2)) l)))
  | JArr l => JArr (map any_of l)
  | v => v
  end.

(** *** Rows of the firewall's tables *)

Record ConfigSnapshotEntity := mkEntity { eKind : string; eID : string; eConfig : json }.
Definition configSnapshotDuplicateIDDelimiter : string := ":".
Definition member (k : string) (v : json) : option json := match v with JObj l => snd <$> List.find (fun p => str_eq p.1 k) l | _ => None end.
Definition string_member (k : string) (v : json) : option string :=
  match member k v with Some (JStr s) => if str_empty (TrimSpace s) then None else Some s | _ => None end.

Inductive row_error := NotARow | NoUUID | NoSortOrder (id : string).
(** A row: an object with a uuid. *)
Definition decode_row (row : string) : row_error + string * json :=
  match decode row with
  | Some (JObj l) =>
      let config := any_of (JObj l) in
      match string_member "uuid" config with Some id => inr (id, redact config) | None => inl NoUUID end
  | Some JNull => inl NoUUID
  | _ => inl NotARow
  end.
Fixpoint all_rows {A E B : Type} (f : A -> E + B) (l : list A) : E + list B :=
  match l with
  | [] => inr []
  | x :: l => match f x with inl e => inl e | inr y => match all_rows f l with inl e => inl e | inr ys => inr (y :: ys) end end
  end.
Definition entity_of (kind : string) (ids : list string) (row : string * json) : row_error + ConfigSnapshotEntity :=
  let '(id, config) := row in
  if str_eq kind "filter_rule" && (1 <? Z.of_nat (length (List.filter (str_eq id) ids))) then
    match string_member "sort_order" config with
    | Some order => inr (mkEntity kind (id +:+ configSnapshotDuplicateIDDelimiter +:+ order) config)
    | None => inl (NoSortOrder id)
    end
  else inr (mkEntity kind id config).
Definition configSnapshotRows (kind : string) (rows : list string) : row_error + list ConfigSnapshotEntity :=
  match all_rows decode_row rows with
  | inl e => inl e
  | inr decoded => all_rows (entity_of kind (map fst decoded)) decoded
  end.

(** ** Diffs *)

Definition configChangeRedactionMarker : string := "[redacted]".
(** The sensitive element a tag opens, if it opens one: [name] is the tag between its
    brackets. *)
Fixpoint until_space (s : string) : string :=
  match s with EmptyString => "" | String c r => if Ascii.eqb c " " || Ascii.eqb c "009" then "" else String c (until_space r) end.
Definition opens (name : string) : option string :=
  if str_empty name || HasPrefix name "/" || HasPrefix name "!" || HasPrefix name "?" || HasSuffix name "/" then None
  else if SensitiveConfigKey (until_space name) then Some (until_space name) else None.
Definition closing (tag : string) : string := "</" +:+ tag +:+ ">".

Fixpoint redact_body (fuel : nat) (body openTag : string) : string * string :=
  match fuel with
  | O => ("", openTag)
  | S fuel =>
      if str_empty body then ("", openTag)
      else if negb (str_empty openTag) then
        match Receiver.Index body (closing openTag) with
        | None => (configChangeRedactionMarker, openTag)
        | Some idx =>
            let '(b, t) := redact_body fuel (str_drop (idx + String.length (closing openTag)) body) "" in
            (configChangeRedactionMarker +:+ closing openTag +:+ b, t)
        end
      else
        match cut "<" body with
        | (_, None) => (body, "")
        | (before, Some r) =>
            match cut ">" r with
            | (_, None) => (body, "")
            | (name, Some r) =>
                let '(b, t) := redact_body fuel r (default "" (opens name)) in
                (before +:+ String "<" (name +:+ String ">" b), t)
            end
        end
  end.
Definition redactConfigDiffBody (body openTag : string) : string * string := redact_body (S (String.length body)) body openTag.

(** [strings.Split] and [strings.Join] on newlines. *)
Definition nl : ascii := "010".
Fixpoint lines (s : string) : list string :=
  match s with
  | EmptyString => [""]
  | String c s => if Ascii.eqb c nl then "" :: lines s else match lines s with [] => [String c ""] | f :: fs => String c f :: fs end
  end.
Fixpoint unlines (l : list string) : string := match l with [] => "" | [s] => s | s :: l => s +:+ String nl (unlines l) end.

Definition is_prefix (c : ascii) : bool := Ascii.eqb c "+" || Ascii.eqb c "-" || Ascii.eqb c " ".
(** A line, with the elements open on the old and on the new side. *)
Definition redact_line (st : string * string) (line : string) : string * (string * string) :=
  if HasPrefix line "@@" then (line, ("", ""))
  else
    let '(prefix, body) := match line with String c r => if is_prefix c then (Some c, r) else (None, line) | EmptyString => (None, line) end in
    let put s := match prefix with Some c => String c s | None => s end in
    let '(oldTag, newTag) := st in
    match prefix with
    | Some "-"%char => let '(b, t) := redactConfigDiffBody body oldTag in (put b, (t, newTag))
    | Some "+"%char => let '(b, t) := redactConfigDiffBody body newTag in (put b, (oldTag, t))
    | _ =>
        let '(oldBody, o) := redactConfigDiffBody body oldTag in
        let '(newBody, n) := redactConfigDiffBody body newTag in
        (put (if str_eq oldBody newBody || str_eq newBody body then oldBody else if str_eq oldBody body then newBody else configChangeRedactionMarker), (o, n))
    end.
Fixpoint redact_lines (st : string * string) (l : list string) : list string :=
  match l with [] => [] | s :: l => let '(s, st) := redact_line st s in s :: redact_lines st l end.
Definition redactConfigChangeDiff (diff : string) : string := unlines (redact_lines ("", "") (lines diff)).

(** A hunk that begins inside a sensitive element: the opening tag is above its context. *)
Example hunk_inside : let diff := unlines ["@@ -41,3 +41,3 @@"; " MIIEvQIBADANBgkqhkiG9w0BAQ"; "-c2VjcmV0LW9sZA"; "+c2VjcmV0LW5ldw"; " </prv>"] in
  redactConfigChangeDiff diff = diff.
Proof. vm_compute. reflexivity. Qed.
Example one_line_secret : redactConfigChangeDiff (unlines ["@@ -1 +1 @@"; "-  <secret>old</secret><x>1</x>"; "+  <secret>new</secret><x>1</x>"])
  = unlines ["@@ -1 +1 @@"; "-  <secret>[redacted]</secret><x>1</x>"; "+  <secret>[redacted]</secret><x>1</x>"].
Proof. vm_compute. reflexivity. Qed.

(** ** What is left of a tree *)

(** A step into a tree: a member's name or an element's position. *)
Inductive hop := Key (k : string) | At (i : nat).
Definition hop_in (h : hop) (v : json) : option json :=
  match h, v with
  | Key k, JObj _ => member k v
  | At i, JArr l => l !! i
  | _, _ => None
  end.
Fixpoint at_path (p : list hop) (v : json) : option json :=
  match p with [] => Some v | h :: p => match hop_in h v with Some v => at_path p v | None => None end end.
Definition secret_hop (h : hop) : bool := match h with Key k => SensitiveConfigKey k | At _ => false end.

Lemma redact_hop h v : hop_in h (redact v) = if secret_hop h then None else redact <$> hop_in h v.
Proof.
  destruct h as [k|i], v as [| | | |l|l]; cbn; try done; try (by destruct (SensitiveConfigKey k)); try apply list_lookup_fmap.
  induction l as [|[k' v] l IH]; cbn; [by destruct (SensitiveConfigKey k)|]. destruct (SensitiveConfigKey k') eqn:E; cbn.
  - rewrite IH. destruct (String.eqb_spec k' k) as [-> |]; [by rewrite E|done].
  - destruct (String.eqb_spec k' k) as [-> |]; [by rewrite E|exact IH].
Qed.

Lemma redact_path p : forall v, at_path p (redact v) = if existsb secret_hop p then None else redact <$> at_path p v.
Proof.
  induction p as [|h p IH]; intros v; [done|]. cbn [at_path existsb]. rewrite redact_hop. destruct (secret_hop h); [done|]. destruct (hop_in h v) as [w|]; [apply IH|]. by destruct (existsb _ _).
Qed.

Lemma all_rows_spec {A E B} (f : A -> E + B) l ys : all_rows f l = inr ys -> Forall2 (fun x y => f x = inr y) l ys.
Proof.
  revert ys. induction l as [|x l IH]; intros ys; cbn; [intros [= <-]; constructor|]. destruct (f x) as [e|y] eqn:Ef; [done|]. destruct (all_rows f l) as [e|ys']; [done|].
  intros [= <-]. constructor; [done|by apply IH].
Qed.

Lemma entity_of_config kind ids row e : entity_of kind ids row = inr e -> eConfig e = row.2 /\ eKind e = kind.
Proof. destruct row as [id config]. unfold entity_of. destruct (_ && _); [destruct (string_member _ _)|]; by intros [= <-]. Qed.

(** [C25] A configuration row that is shipped has, at any depth, nothing under a name of the
    vocabulary of credentials and, everywhere else, exactly what the firewall sent. *)
Theorem snapshot_rows_exact kind rows : match configSnapshotRows kind rows with
  | inr entities => Forall2 (fun row e => exists v, decode row = Some v /\ eKind e = kind
      /\ forall p, at_path p (eConfig e) = if existsb secret_hop p then None else redact <$> at_path p (any_of v)) rows entities
  | inl _ => True
  end.
Proof.
  unfold configSnapshotRows. destruct (all_rows decode_row rows) as [e|decoded] eqn:Ed; [done|]. apply all_rows_spec in Ed. destruct (all_rows _ decoded) as [e|entities] eqn:Ee; [done|].
  apply all_rows_spec in Ee. revert entities Ee. generalize (map fst decoded) as ids. intros ids. induction Ed as [|row d rows decoded Hd Hs IH]; intros entities Ee; inversion Ee as [|? e ? es He Hes]; subst; constructor.
  - apply entity_of_config in He as [-> Hk]. unfold decode_row in Hd. destruct (decode row) as [[| | | | |l]|]; try done. destruct (string_member "uuid" _); [|done]. injection Hd as <-.
    exists (JObj l). split; [done|]. split; [done|]. intros p. exact (redact_path p (any_of (JObj l))).
  - by apply IH.
Qed.

(** ** What is left of a diff *)

Lemma body_fuel f1 : forall f2 body t, (String.length body < f1)%nat -> (String.length body < f2)%nat -> redact_body f1 body t = redact_body f2 body t.
Proof.
  induction f1 as [|f1 IH]; intros f2 body t H1 H2; [lia|]. destruct f2 as [|f2]; [lia|]. cbn [redact_body]. destruct (str_empty body) eqn:Eb; [done|].
  assert (forall n, (0 < n)%nat -> (String.length (str_drop n body) < f1)%nat /\ (String.length (str_drop n body) < f2)%nat) as Hd.
  { intros n Hn. assert (String.length body <> 0)%nat by (destruct body; [done|cbn; lia]). rewrite !Regexp.str_drop_length. lia. }
  destruct (negb (str_empty t)).
  - destruct (Receiver.Index body (closing t)) as [idx|]; [|done]. destruct (Hd (idx + String.length (closing t))%nat); [unfold closing; rewrite str_length_app; cbn; lia|].
    by rewrite (IH f2).
  - destruct (cut "<" body) as [before [r|]] eqn:Ec; [|done]. apply cut_spec in Ec as [-> _]. destruct (cut ">" r) as [name [r'|]] eqn:Ec; [|done]. apply cut_spec in Ec as [-> _].
    rewrite (IH f2); [done|..]; revert H1 H2; rewrite !str_length_app; cbn; rewrite !str_length_app; cbn; lia.
Qed.

Notation R := redactConfigDiffBody.
Lemma R_fuel fuel body t : (String.length body < fuel)%nat -> redact_body fuel body t = R body t.
Proof. intros H. apply body_fuel; lia. Qed.

Lemma cut_none c s : has c s = false -> cut c s = (s, None).
Proof. induction s as [|x s IH]; intros H; [done|]. cbn [has cut] in *. apply orb_false_iff in H as [-> H]. by rewrite (IH H). Qed.

Lemma R_text t : has "<" t = false -> R t "" = (t, "").
Proof. intros H. unfold R. cbn [redact_body]. destruct (str_empty t) eqn:E; [by destruct t|]. cbn [negb str_empty]. by rewrite (cut_none "<" t H). Qed.

Lemma R_tag before name r : has "<" before = false -> has ">" name = false ->
  R (before +:+ String "<" (name +:+ String ">" r)) "" = ((before +:+ String "<" (name +:+ String ">" (R r (default "" (opens name))).1)), (R r (default "" (opens name))).2).
Proof.
  intros Hb Hn. unfold R at 1. cbn [redact_body]. destruct (str_empty _) eqn:E; [by destruct before|]. cbn [negb str_empty]. rewrite (cut_app "<" before _ Hb), (cut_app ">" name _ Hn).
  rewrite R_fuel; [by destruct (R r _)|]. rewrite !str_length_app. cbn. rewrite !str_length_app. cbn. lia.
Qed.

Lemma closing_head c s t : Ascii.eqb c "<" = false -> HasPrefix (String c s) (closing t) = false.
Proof.
  intros Hc. change (closing t) with (String "<" ("/" +:+ t +:+ ">")). unfold HasPrefix. cbn [String.prefix]. destruct (ascii_dec "<" c) as [<-|]; [discriminate Hc|done].
Qed.
Lemma Index_closing v t r : has "<" v = false -> Receiver.Index (v +:+ closing t +:+ r) (closing t) = Some (String.length v).
Proof.
  induction v as [|c v IH]; intros H.
  - rewrite str_app_nil_l. pose proof (HasPrefix_app (closing t) r) as Hp. destruct (closing t +:+ r); cbn [Receiver.Index]; by rewrite Hp.
  - cbn [has] in H. apply orb_false_iff in H as [Hc H]. rewrite str_app_cons. cbn [Receiver.Index]. by rewrite (closing_head c _ t Hc), (IH H).
Qed.
Lemma Index_none v t : has "<" v = false -> Receiver.Index v (closing t) = None.
Proof.
  induction v as [|c v IH]; intros H; [done|]. cbn [has] in H. apply orb_false_iff in H as [Hc H]. cbn [Receiver.Index]. by rewrite (closing_head c _ t Hc), (IH H).
Qed.

Lemma R_inside v t : has "<" v = false -> t <> "" -> R v t = (if str_empty v then "" else configChangeRedactionMarker, t).
Proof.
  intros H Ht. unfold R. cbn [redact_body]. destruct (str_empty v) eqn:E; [done|]. destruct (str_empty t) eqn:Et; [by destruct t|]. cbn [negb]. by rewrite Index_none.
Qed.
Lemma R_close v t r : has "<" v = false -> t <> "" -> R (v +:+ closing t +:+ r) t = (configChangeRedactionMarker +:+ closing t +:+ (R r "").1, (R r "").2).
Proof.
  intros H Ht. unfold R at 1. cbn [redact_body]. destruct (str_empty (v +:+ _)) eqn:E; [by destruct v|]. destruct (str_empty t) eqn:Et; [by destruct t|]. cbn [negb]. rewrite Index_closing by done.
  assert (str_drop (String.length v + String.length (closing t)) (v +:+ closing t +:+ r) = r) as ->.
  { rewrite <- str_app_assoc. destruct (Regexp.str_take_short (String.length v + String.length (closing t)) (v +:+ closing t) r) as [_ ->]; [rewrite str_length_app; lia|].
    rewrite <- str_length_app. clear. generalize (v +:+ closing t) as x. induction x as [|c x IH]; [done|exact IH]. }
  rewrite R_fuel; [by destruct (R r "")|]. unfold closing. rewrite !str_length_app. change (String.length "</") with 2%nat. lia.
Qed.

(** A line as its writer sees it: text and tags, sensitive elements with their values, and
    an element left open at the end. *)
Inductive piece := Markup (before name : string) | Secret (before name value : string).
Inductive ending := Ends (text : string) | Opens (before name value : string).
Inductive dbody := Whole (ps : list piece) (e : ending) | Inside (value : string) | Closing (value : string) (ps : list piece) (e : ending).
Inductive dline := Hunk (text : string) | Side (prefix : option ascii) (b : dbody).

Definition tag_of (name : string) : string := default "" (opens name).
Definition show_piece (p : piece) : string :=
  match p with
  | Markup before name => before +:+ String "<" (name +:+ ">")
  | Secret before name value => before +:+ String "<" (name +:+ String ">" (value +:+ closing (tag_of name)))
  end.
Definition show_ending (e : ending) : string := match e with Ends text => text | Opens before name value => before +:+ String "<" (name +:+ String ">" value) end.
Definition show_rest (ps : list piece) (e : ending) : string := foldr (fun p s => show_piece p +:+ s) (show_ending e) ps.
Definition show_body (open : string) (b : dbody) : string :=
  match b with Whole ps e => show_rest ps e | Inside value => value | Closing value ps e => value +:+ closing open +:+ show_rest ps e end.

(** The same line without its values; only whether a value that fills the rest of a line
    is empty is kept. *)
Definition mask (v : string) : string := if str_empty v then "" else configChangeRedactionMarker.
Definition mask_piece (p : piece) : piece := match p with Markup b n => Markup b n | Secret b n _ => Secret b n configChangeRedactionMarker end.
Definition mask_ending (e : ending) : ending := match e with Ends t => Ends t | Opens b n v => Opens b n (mask v) end.
Definition mask_body (b : dbody) : dbody :=
  match b with
  | Whole ps e => Whole (map mask_piece ps) (mask_ending e)
  | Inside v => Inside (mask v)
  | Closing _ ps e => Closing configChangeRedactionMarker (map mask_piece ps) (mask_ending e)
  end.
Definition mask_line (l : dline) : dline := match l with Hunk t => Hunk t | Side p b => Side p (mask_body b) end.

Definition ok_piece (p : piece) : Prop :=
  match p with
  | Markup b n => has "<" b = false /\ has ">" n = false /\ opens n = None
  | Secret b n v => has "<" b = false /\ has ">" n = false /\ is_Some (opens n) /\ has "<" v = false
  end.
Definition ok_ending (e : ending) : Prop :=
  match e with Ends t => has "<" t = false | Opens b n v => has "<" b = false /\ has ">" n = false /\ is_Some (opens n) /\ has "<" v = false end.
Definition ok_body (open : string) (b : dbody) : Prop :=
  match b with
  | Whole ps e => open = "" /\ Forall ok_piece ps /\ ok_ending e
  | Inside v => open <> "" /\ has "<" v = false
  | Closing v ps e => open <> "" /\ has "<" v = false /\ Forall ok_piece ps /\ ok_ending e
  end.
Definition after_ending (e : ending) : string := match e with Ends _ => "" | Opens _ n _ => tag_of n end.
Definition after_body (open : string) (b : dbody) : string := match b with Whole _ e | Closing _ _ e => after_ending e | Inside _ => open end.

Lemma opens_named n : is_Some (opens n) -> tag_of n <> "".
Proof.
  intros [t Ht]. unfold tag_of. rewrite Ht. cbn. unfold opens in Ht. destruct (_ || _); [done|]. destruct (SensitiveConfigKey (until_space n)) eqn:E; [|done]. injection Ht as <-.
  intros E0. rewrite E0 in E. vm_compute in E. done.
Qed.

Lemma rest_exact ps e : Forall ok_piece ps -> ok_ending e -> R (show_rest ps e) "" = (show_rest (map mask_piece ps) (mask_ending e), after_ending e).
Proof.
  intros Hps He. induction Hps as [|p ps Hp Hps IH].
  - destruct e as [t|b n v]; cbn [show_rest foldr show_ending map mask_ending after_ending ok_ending] in *; [by apply R_text|]. destruct He as (Hb & Hn & Ho & Hv). rewrite R_tag by done. fold (tag_of n). rewrite R_inside by (done || by apply opens_named). done.
  - destruct p as [b n|b n v]; cbn [show_rest foldr map mask_piece show_piece] in *; fold (show_rest ps e) (show_rest (map mask_piece ps) (mask_ending e)) in *.
    + destruct Hp as (Hb & Hn & Ho). rewrite !str_app_assoc, !str_app_cons, !str_app_assoc, ?str_app_cons, ?str_app_nil_l. rewrite R_tag by done. rewrite Ho. cbn [default]. by rewrite IH.
    + destruct Hp as (Hb & Hn & Ho & Hv). rewrite !str_app_assoc, !str_app_cons, !str_app_assoc, !str_app_cons, !str_app_assoc. rewrite R_tag by done. fold (tag_of n).
      rewrite R_close by (done || by apply opens_named). rewrite IH. done.
Qed.

Lemma body_exact open b : ok_body open b -> R (show_body open b) open = (show_body open (mask_body b), after_body open b).
Proof.
  destruct b as [ps e|v|v ps e]; cbn [ok_body show_body mask_body after_body].
  - intros (-> & Hps & He). by apply rest_exact.
  - intros [Ho Hv]. by apply R_inside.
  - intros (Ho & Hv & Hps & He). rewrite R_close by done. by rewrite rest_exact.
Qed.

(** The lines of a diff, given the elements open on the two sides: a context line needs
    the sides to agree. *)
Definition side_tag (prefix : option ascii) (st : string * string) : string := match prefix with Some "-"%char => st.1 | _ => st.2 end.
Definition show_line (st : string * string) (l : dline) : string :=
  match l with
  | Hunk t => t
  | Side prefix b => match prefix with Some c => String c (show_body (side_tag prefix st) b) | None => show_body (side_tag prefix st) b end
  end.
Definition next_line (st : string * string) (l : dline) : string * string :=
  match l with
  | Hunk _ => ("", "")
  | Side prefix b =>
      let t := after_body (side_tag prefix st) b in
      match prefix with Some "-"%char => (t, st.2) | Some "+"%char => (st.1, t) | _ => (t, t) end
  end.
Definition ok_line (st : string * string) (l : dline) : Prop :=
  match l with
  | Hunk t => HasPrefix t "@@" = true
  | Side prefix b => ok_body (side_tag prefix st) b
      /\ match prefix with
         | Some c => is_prefix c = true /\ (c = " "%char -> st.1 = st.2)
         | None => st.1 = st.2 /\ HasPrefix (show_line st l) "@@" = false /\ match show_line st l with String c _ => is_prefix c = false | EmptyString => True end
         end
  end.

Lemma line_added o n s : redact_line (o, n) (String "+" s) = let '(b, t) := R s n in (String "+" b, (o, t)).
Proof. reflexivity. Qed.
Lemma line_removed o n s : redact_line (o, n) (String "-" s) = let '(b, t) := R s o in (String "-" b, (t, n)).
Proof. reflexivity. Qed.
Lemma line_kept n s : redact_line (n, n) (String " " s) = let '(b, t) := R s n in (String " " b, (t, t)).
Proof.
  change (redact_line (n, n) (String " " s)) with (let '(ob, o') := R s n in let '(nb, n') := R s n in
    (String " " (if str_eq ob nb || str_eq nb s then ob else if str_eq ob s then nb else configChangeRedactionMarker), (o', n'))).
  destruct (R s n) as [b t]. unfold str_eq. by rewrite String.eqb_refl.
Qed.

Lemma line_exact st l : ok_line st l -> redact_line st (show_line st l) = (show_line st (mask_line l), next_line st l).
Proof.
  destruct st as [o n]. destruct l as [t|[c|] b]; cbn [ok_line].
  - intros H. unfold redact_line. cbn [show_line mask_line]. by rewrite H.
  - intros (Hb & Hc & Hs). assert (c = "+"%char \/ c = "-"%char \/ c = " "%char) as Hcase.
    { unfold is_prefix in Hc. apply orb_true_iff in Hc as [Hc|Hc]; [apply orb_true_iff in Hc as [Hc|Hc]|]; apply Ascii.eqb_eq in Hc; auto. }
    destruct Hcase as [-> |[-> | ->]]; cbn [show_line mask_line next_line side_tag fst snd] in *.
    + rewrite line_added. by rewrite (body_exact n b Hb).
    + rewrite line_removed. by rewrite (body_exact o b Hb).
    + specialize (Hs eq_refl). subst o. rewrite line_kept. by rewrite (body_exact n b Hb).
  - intros (Hb & Heq & Hat & Hpre). cbn in Heq. subst o. unfold redact_line. rewrite Hat. cbn [show_line side_tag fst snd] in *.
    destruct (match show_body n b with String c r => if is_prefix c then (Some c, r) else (None, show_body n b) | EmptyString => (None, show_body n b) end) as [p0 body] eqn:E.
    assert (p0 = None /\ body = show_body n b) as [-> ->] by (destruct (show_body n b) as [|c r]; [by injection E as <- <-|rewrite Hpre in E; by injection E as <- <-]).
    rewrite (body_exact n b Hb). unfold str_eq. by rewrite String.eqb_refl.
Qed.

Fixpoint show_lines (st : string * string) (ls : list dline) : list string := match ls with [] => [] | l :: ls => show_line st l :: show_lines (next_line st l) ls end.
Fixpoint ok_lines (st : string * string) (ls : list dline) : Prop := match ls with [] => True | l :: ls => ok_line st l /\ ok_lines (next_line st l) ls end.

Lemma after_mask open b : after_body open (mask_body b) = after_body open b.
Proof. by destruct b as [ps []|v|v ps []]. Qed.
Lemma next_mask st l : next_line st (mask_line l) = next_line st l.
Proof. destruct l as [t|prefix b]; [done|]. cbn. by rewrite after_mask. Qed.

Lemma lines_exact ls : forall st, ok_lines st ls -> redact_lines st (show_lines st ls) = show_lines st (map mask_line ls).
Proof.
  induction ls as [|l ls IH]; intros st H; [done|]. destruct H as [Hl H]. cbn [show_lines redact_lines map]. rewrite (line_exact st l Hl), next_mask. f_equal. by apply IH.
Qed.

Lemma lines_app s r : has nl s = false -> lines (s +:+ String nl r) = s :: lines r.
Proof. induction s as [|c s IH]; intros H; [done|]. cbn [has] in H. apply orb_false_iff in H as [Hc H]. rewrite str_app_cons. cbn [lines]. by rewrite Hc, (IH H). Qed.
Lemma lines_one s : has nl s = false -> lines s = [s].
Proof. induction s as [|c s IH]; intros H; [done|]. cbn [has] in H. apply orb_false_iff in H as [Hc H]. cbn [lines]. by rewrite Hc, (IH H). Qed.
Lemma lines_unlines l : l <> [] -> Forall (fun s => has nl s = false) l -> lines (unlines l) = l.
Proof.
  intros Hne H. induction H as [|s l Hs Hl IH]; [done|]. destruct l as [|s' l]; [by apply lines_one|].
  change (unlines (s :: s' :: l)) with (s +:+ String nl (unlines (s' :: l))). rewrite lines_app by done. by rewrite IH.
Qed.


Definition demo_diff : list dline :=
  [Hunk "@@ -1,3 +1,3 @@"; Side (Some " "%char) (Whole [Markup "" "user"; Markup "" "name"] (Ends "root"));
   Side (Some "-"%char) (Whole [] (Opens "  " "prv" "old")); Side (Some "+"%char) (Whole [Secret "  " "psk" "new"] (Ends ""));
   Side (Some "-"%char) (Closing "end" [] (Ends ""))].
End Sensitive.
