(* ===== verification/ConfigChange.v ===== *)
(** * Configuration revisions as log records ([logship/configchange.go], the bound of
      [opnsense/backup.go])

    One record for each revision the firewall adds to its history, with the redacted diff
    from the revision before it. *)

From stdpp Require Import base decidable list gmap strings sorting.
From Stdlib Require Import ZArith Lia Ascii.
From S2P Require Import Prelude Order Netip GoStrings GoTime LogQueue DhcpParser GoJson Sensitive.
Import Queue Json.

Module ConfigChange.

Definition configChangeSourceName : string := "configchange".
Definition configChangeMaxBodyBytes : nat := Z.to_nat (192 * 1024).
Definition configChangeTruncationMarker : string := String Sensitive.nl "[config diff truncated at 192 KiB]".

Record ConfigChangeRevision := mkRevision { rID : string; rTimestamp : Time; rUser : string; rDescription : string; rURI : string }.
Record ConfigChangeSource := mkConfigChange { lastRevision : string; pollSequence : Z }.
Definition NewConfigChangeSource : ConfigChangeSource := mkConfigChange "" 0.

(** [utf8.RuneStart] *)
Definition RuneStart (c : ascii) : bool := negb (Z.land (Z.of_nat (nat_of_ascii c)) 192 =? 128).
Fixpoint prefix_end (n : nat) (diff : string) : nat :=
  match n with
  | O => O
  | S m => match String.get n diff with Some c => if RuneStart c then n else prefix_end m diff | None => n end
  end.
Definition truncateConfigChangeDiff (diff : string) : string :=
  if (String.length diff <=? configChangeMaxBodyBytes)%nat then diff
  else str_take (prefix_end (configChangeMaxBodyBytes - String.length configChangeTruncationMarker) diff) diff +:+ configChangeTruncationMarker.

Definition configChangeURI (r : ConfigChangeRevision) : string :=
  if str_empty (rURI r) then default "" (List.find (fun field => HasPrefix field "/") (DhcpParser.Fields (rDescription r))) else rURI r.

(** What a poll writes to the exporter's own log. *)
Inductive observation := ObservePoll (branch : string) (sequence emitted : Z) | ObserveDiff (sequence index bytes lines : Z).
Fixpoint count_char (c : ascii) (s : string) : Z := match s with String x s => (if Ascii.eqb x c then 1 else 0) + count_char c s | EmptyString => 0 end.
Definition configChangeDiffLineCount (diff : string) : Z :=
  if str_empty diff then 0 else count_char Sensitive.nl diff + (if HasSuffix diff (String Sensitive.nl "") then 0 else 1).

Definition configBackupDiffTruncationMarker : string := "[diff truncated at 4 MiB by opnsense2otel before redaction]".
Definition ConfigBackupDiffMaxInputBytes : Z := Z.shiftl 4 20.
(** The lines that fit, with [total] bytes written before them. *)
Fixpoint bound_lines (budget total : Z) (first : bool) (items : list string) : string * bool :=
  match items with
  | [] => ("", false)
  | line :: items =>
      let sep := if first then 0 else 1 in
      if budget <? total + sep + slen line then ("", true)
      else let '(s, truncated) := bound_lines budget (total + sep + slen line) false items in
           ((if first then line else String Sensitive.nl line) +:+ s, truncated)
  end.

Definition boundConfigBackupDiffLines (items : list string) (max : Z) : string * bool :=
  let '(b, truncated) := bound_lines (max - slen configBackupDiffTruncationMarker - 1) 0 true items in
  if truncated then ((if str_empty b then "" else b +:+ String Sensitive.nl "") +:+ configBackupDiffTruncationMarker, true) else (b, false).

Definition revision_lt (a b : ConfigChangeRevision) : bool := if rTimestamp a =? rTimestamp b then str_lt (rID a) (rID b) else rTimestamp a <? rTimestamp b.
Definition ordered_of (l : list ConfigChangeRevision) : list ConfigChangeRevision := sort_by revision_lt l.
(** The revisions after the first one of that identity, with it. *)
Fixpoint from_cursor (id : string) (l : list ConfigChangeRevision) : option (ConfigChangeRevision * list ConfigChangeRevision) :=
  match l with [] => None | r :: l => if str_eq (rID r) id then Some (r, l) else from_cursor id l end.

Section source.
(** [html.UnescapeString] *)
Context (UnescapeString : string -> string).

Definition configChangeRecord (r : ConfigChangeRevision) (diff : string) : LogRecord :=
  mkLog (rTimestamp r) (truncateConfigChangeDiff (Sensitive.redactConfigChangeDiff (UnescapeString diff)))
    (list_to_map [("revision", rID r); ("user", rUser r); ("uri", configChangeURI r)]) SeverityInfo "".

(** The records of the revisions after [previous]; [None] when a diff cannot be fetched. *)
Fixpoint batch (fetchDiff : string -> string -> option string) (previous : ConfigChangeRevision) (l : list ConfigChangeRevision) : option (list LogRecord) :=
  match l with
  | [] => Some []
  | current :: l =>
      match fetchDiff (rID previous) (rID current) with
      | None => None
      | Some diff => match batch fetchDiff current l with Some records => Some (configChangeRecord current diff :: records) | None => None end
      end
  end.

Fixpoint observe_diffs (seq index : Z) (records : list LogRecord) : list observation :=
  match records with
  | [] => []
  | r :: records => ObserveDiff seq index (slen (Body r)) (configChangeDiffLineCount (Body r)) :: observe_diffs seq (index + 1) records
  end.

Definition Poll (fetched : option (list ConfigChangeRevision)) (fetchDiff : string -> string -> option string) (s : ConfigChangeSource)
  : option (list LogRecord) * list observation * ConfigChangeSource :=
  let seq := (pollSequence s + 1) mod M64 in
  let s := mkConfigChange (lastRevision s) seq in
  match fetched with
  | None => (None, [], s)
  | Some revisions =>
      match last (ordered_of revisions) with
      | None => (Some [], [ObservePoll "no_revisions" seq 0], s)
      | Some latest =>
          if str_empty (lastRevision s) then (Some [], [ObservePoll "baseline" seq 0], mkConfigChange (rID latest) seq)
          else
            match from_cursor (lastRevision s) (ordered_of revisions) with
            | None => (Some [], [ObservePoll "cursor_not_in_history" seq 0], mkConfigChange (rID latest) seq)
            | Some (previous, rest) =>
                match batch fetchDiff previous rest with
                | None => (None, [], s)
                | Some records => (Some records, ObservePoll "emitted" seq (zlen records) :: observe_diffs seq 1 records, mkConfigChange (rID latest) seq)
                end
            end
      end
  end.

(** The cursor in the state file; [None] when it is absent or does not decode. *)
Definition LoadState (state : option string) (s : ConfigChangeSource) : ConfigChangeSource :=
  match state with Some last => if str_empty last then s else mkConfigChange last (pollSequence s) | None => s end.
Definition SaveState (s : ConfigChangeSource) : option string := if str_empty (lastRevision s) then None else Some (lastRevision s).

(** A revision whose time is that of the cursor and whose name sorts before it. *)
Example late_name : let r id := mkRevision id 1000 "root" "" "/" in let s := mkConfigChange "config-1700000000.xml" 7 in
  fst (fst (Poll (Some [r "config-1700000000.5.xml"; r "config-1700000000.xml"]) (fun _ _ => Some "") s)) = Some [].
Proof. vm_compute. reflexivity. Qed.
End source.

(** *** What is shipped *)

Lemma bound_lines_length budget items : forall total first, total <= budget -> total + slen (bound_lines budget total first items).1 <= budget.
Proof.
  induction items as [|line items IH]; intros total first Ht; cbn [bound_lines]; [unfold slen; cbn; lia|]. destruct (_ <? _) eqn:E; [unfold slen; cbn; lia|]. apply Z.ltb_ge in E.
  specialize (IH (total + (if first then 0 else 1) + slen line) false). destruct (bound_lines _ _ _ items) as [s b]. cbn [fst] in *. specialize (IH E).
  revert IH. unfold slen. rewrite !str_length_app. destruct first; cbn [String.length]; lia.
Qed.

(** What is fetched of a diff is bounded, the marker of a cut included. *)
Lemma bound_diff_length items max : slen configBackupDiffTruncationMarker < max -> slen (boundConfigBackupDiffLines items max).1 <= max.
Proof.
  intros Hm. unfold boundConfigBackupDiffLines. pose proof (bound_lines_length (max - slen configBackupDiffTruncationMarker - 1) items 0 true) as H.
  set (w := slen configBackupDiffTruncationMarker) in *. specialize (H ltac:(lia)). assert (0 <= w) by (unfold w, slen; lia).
  destruct (bound_lines _ _ _ items) as [b []]; cbn [fst] in *; [|lia]. subst w. unfold slen in *. rewrite str_length_app. destruct (str_empty b); [cbn [String.length]; lia|]. rewrite str_length_app. cbn [String.length]. lia.
Qed.

Lemma prefix_end_le n diff : (prefix_end n diff <= n)%nat.
Proof. induction n as [|n IH]; cbn [prefix_end]; [lia|]. destruct (String.get _ _); [destruct (RuneStart _)|]; lia. Qed.

Lemma truncate_length diff : (String.length (truncateConfigChangeDiff diff) <= configChangeMaxBodyBytes)%nat.
Proof.
  unfold truncateConfigChangeDiff. destruct (Nat.leb_spec (String.length diff) configChangeMaxBodyBytes) as [H|H]; [done|]. rewrite str_length_app.
  pose proof (prefix_end_le (configChangeMaxBodyBytes - String.length configChangeTruncationMarker) diff) as Hp.
  assert (String.length configChangeTruncationMarker <= configChangeMaxBodyBytes)%nat by (apply Nat.leb_le; vm_compute; reflexivity).
  assert (forall k s, String.length (str_take k s) <= k)%nat as Ht by (clear; intros k; induction k as [|k IH]; intros [|c s]; cbn; try lia; specialize (IH s); lia).
  specialize (Ht (prefix_end (configChangeMaxBodyBytes - String.length configChangeTruncationMarker) diff) diff). lia.
Qed.

#[export] Instance revision_lt_weak : WeakOrder revision_lt.
Proof.
  split; unfold revision_lt.
  - intros a b. destruct (Z.eqb_spec (rTimestamp a) (rTimestamp b)) as [-> |Hn]; [rewrite Z.eqb_refl; apply lt_asym|]. rewrite (proj2 (Z.eqb_neq (rTimestamp b) (rTimestamp a))) by lia. lia.
  - intros a b c. destruct (Z.eqb_spec (rTimestamp a) (rTimestamp b)) as [Hab|Hab], (Z.eqb_spec (rTimestamp b) (rTimestamp c)) as [Hbc|Hbc].
    + rewrite Hab, Hbc, Z.eqb_refl. apply lt_negtrans.
    + rewrite Hab. rewrite (proj2 (Z.eqb_neq _ _) Hbc). done.
    + rewrite <- Hbc. rewrite (proj2 (Z.eqb_neq _ _) Hab). done.
    + intros H1 H2. destruct (Z.eqb_spec (rTimestamp a) (rTimestamp c)); lia.
Qed.

(** The history of a firewall, oldest first: the whole of it, of which a poll sees what is
    retained. *)
Record history (H : list ConfigChangeRevision) : Prop := {
  h_sorted : StronglySorted (fun a b => revision_lt a b = true) H;
  h_ids : NoDup (map rID H);
  h_named : Forall (fun r => str_empty (rID r) = false) H }.

(** A poll: the listing fails, or shows the revisions of a window in some order. *)
Inductive poll := Unreachable | Listed (lo hi : nat) (rows : list ConfigChangeRevision) (fetchDiff : string -> string -> option string).
Definition fetched_of (p : poll) : option (list ConfigChangeRevision) := match p with Unreachable => None | Listed _ _ rows _ => Some rows end.
Definition diffs_of (p : poll) : string -> string -> option string := match p with Unreachable => fun _ _ => None | Listed _ _ _ f => f end.
Definition window (lo hi : nat) (H : list ConfigChangeRevision) : list ConfigChangeRevision := drop lo (take hi H).

Section shipped.
Context (Unescape : string -> string) (H : list ConfigChangeRevision).

(** The specification: a position in the history that moves to the newest revision seen
    when every diff on the way is there, and stays otherwise. *)
Definition spec_poll (i : nat) (p : poll) : nat * list LogRecord :=
  match p, H !! i with
  | Listed _ hi _ f, Some r => match batch Unescape f r (window (S i) hi H) with Some records => ((hi - 1)%nat, records) | None => (i, []) end
  | _, _ => (i, [])
  end.
Fixpoint spec_run (i : nat) (ps : list poll) : nat * list LogRecord :=
  match ps with [] => (i, []) | p :: ps => let '(i, l) := spec_poll i p in let '(j, l') := spec_run i ps in (j, l ++ l') end.
(** The revision of the position is in every window that is seen. *)
Fixpoint retained (i : nat) (ps : list poll) : Prop :=
  match ps with
  | [] => True
  | p :: ps => match p with Unreachable => True | Listed lo hi rows _ => (lo <= i < hi)%nat /\ (hi <= length H)%nat /\ rows ≡ₚ window lo hi H end
               /\ retained (spec_poll i p).1 ps
  end.
Fixpoint Poll_run (s : ConfigChangeSource) (ps : list poll) : ConfigChangeSource * list LogRecord :=
  match ps with
  | [] => (s, [])
  | p :: ps => let '(out, _, s) := Poll Unescape (fetched_of p) (diffs_of p) s in let '(s, l) := Poll_run s ps in (s, default [] out ++ l)
  end.

Context (HH : history H).

Lemma window_sorted lo hi : StronglySorted (fun a b => revision_lt a b = true) (window lo hi H).
Proof.
  destruct HH as [Hs _ _]. unfold window.
  assert (forall n l, StronglySorted (fun a b => revision_lt a b = true) l -> StronglySorted (fun a b => revision_lt a b = true) (drop n l)) as Hd.
  { clear. intros n l Hl. revert n. induction Hl as [|a l Hl IH Ha]; intros [|n]; cbn; try constructor; try done; apply IH. }
  assert (forall n l, StronglySorted (fun a b => revision_lt a b = true) l -> StronglySorted (fun a b => revision_lt a b = true) (take n l)) as Ht.
  { clear. intros n l Hl. revert n. induction Hl as [|a l Hl IH Ha]; intros [|n]; cbn; constructor; [apply IH|]. by apply Forall_take. }
  by apply Hd, Ht.
Qed.

Lemma ordered_window lo hi rows : rows ≡ₚ window lo hi H -> ordered_of rows = window lo hi H.
Proof.
  intros Hp. pose proof (window_sorted lo hi) as Hw. symmetry. apply (sort_by_unique revision_lt).
  - intros a b Ha Hb H1 H2. rewrite Hp in Ha, Hb. clear Hp. induction Hw as [|x l Hl IH Hx]; [set_solver|]. rewrite Forall_forall in Hx.
    apply elem_of_cons in Ha as [-> |Ha], Hb as [-> |Hb]; [done|..].
    + rewrite (Hx _ Hb) in H1. done.
    + rewrite (Hx _ Ha) in H2. done.
    + by apply IH.
  - by symmetry.
  - clear Hp. induction Hw as [|x l Hl IH Hx]; [constructor|]. constructor; [done|]. eapply Forall_impl; [exact Hx|]. intros y Hy. by apply lt_asym.
Qed.

Lemma from_cursor_app id l r rest : rID r = id -> id ∉ map rID l -> from_cursor id (l ++ r :: rest) = Some (r, rest).
Proof.
  intros Hr. induction l as [|x l IH]; intros Hn; cbn [app from_cursor].
  - unfold str_eq. by rewrite Hr, String.eqb_refl.
  - cbn [map] in Hn. apply not_elem_of_cons in Hn as [Hx Hn]. unfold str_eq. rewrite (proj2 (String.eqb_neq (rID x) id)) by congruence. by apply IH.
Qed.

Lemma window_app i j k : (i <= j)%nat -> (j <= k)%nat -> window i j H ++ window j k H = window i k H.
Proof.
  intros H1 H2. unfold window. rewrite <- (take_drop j (take k H)) at 2. rewrite take_take, (Nat.min_l j k) by lia. rewrite drop_app. f_equal. rewrite length_take.
  destruct (Nat.le_gt_cases j (length H)).
  - rewrite Nat.min_l by lia. replace (i - j)%nat with 0%nat by lia. done.
  - rewrite (drop_ge (take k H)) by (rewrite length_take; lia). by rewrite drop_nil.
Qed.
Lemma window_split i lo hi r : H !! i = Some r -> (lo <= i < hi)%nat -> window lo hi H = window lo i H ++ r :: window (S i) hi H.
Proof.
  intros Hr Hi. pose proof (lookup_lt_Some _ _ _ Hr) as Hl. rewrite <- (window_app lo i hi) by lia. f_equal. unfold window.
  apply drop_S. rewrite lookup_take_lt by lia. done.
Qed.

Lemma window_last lo hi : (lo < hi)%nat -> (hi <= length H)%nat -> last (window lo hi H) = H !! (hi - 1)%nat.
Proof.
  intros H1 H2. rewrite last_lookup. unfold window. rewrite length_drop, length_take, lookup_drop, (Nat.min_l hi) by lia. rewrite lookup_take_lt by lia. f_equal. lia.
Qed.

(** A poll of the source is a step of the position. *)
Lemma poll_refines i r s p : H !! i = Some r -> lastRevision s = rID r -> retained i [p] ->
  let '(out, _, s') := Poll Unescape (fetched_of p) (diffs_of p) s in
  default [] out = (spec_poll i p).2 /\ exists r', H !! (spec_poll i p).1 = Some r' /\ lastRevision s' = rID r'.
Proof.
  intros Hr Hs [Hp _]. destruct p as [|lo hi rows f]; cbn [fetched_of diffs_of spec_poll]; [unfold Poll; by eauto|]. destruct Hp as (Hi & Hh & Hrows). rewrite Hr. cbn [fst snd].
  assert (Hne : str_empty (lastRevision s) = false).
  { rewrite Hs. destruct HH as [_ _ Hn]. rewrite Forall_forall in Hn. apply Hn. by eapply list_elem_of_lookup_2. }
  unfold Poll. rewrite (ordered_window lo hi rows Hrows), window_last by lia. destruct (lookup_lt_is_Some_2 H (hi - 1)) as [latest Hl]; [lia|]. rewrite Hl. cbn [lastRevision pollSequence]. rewrite Hne.
  rewrite (window_split i lo hi r Hr Hi). rewrite (from_cursor_app (lastRevision s) _ r); [|by rewrite Hs|].
  - destruct (batch Unescape f r (window (S i) hi H)) as [records|]; cbn [fst snd default lastRevision]; split; eauto.
  - destruct HH as [_ Hd _]. rewrite <- (take_drop_middle H i r Hr) in Hd. rewrite map_app in Hd. apply NoDup_app in Hd as (_ & Hd & _). rewrite Hs. intros Hin. apply (Hd (rID r)); [|cbn; by left].
    unfold window in Hin. apply list_elem_of_fmap in Hin as (x & Hx & Hin). apply list_elem_of_fmap. exists x. split; [done|]. eapply subseteq_drop. exact Hin.
Qed.

Lemma batch_ids f l : forall r records, batch Unescape f r l = Some records -> map (fun x => Attributes x !! "revision") records = map (fun r => Some (rID r)) l.
Proof.
  induction l as [|c l IH]; intros r records; cbn [batch]; [by intros [= <-]|]. destruct (f _ _); [|done]. destruct (batch Unescape f c l) as [rs|] eqn:E; [|done]. intros [= <-]. cbn [map]. f_equal. by eapply IH.
Qed.

End shipped.


Lemma retained_step Unescape H i j p ps : (spec_poll Unescape H i p).1 = j ->
  match p with Unreachable => True | Listed lo hi rows _ => (lo <= i < hi)%nat /\ (hi <= length H)%nat /\ rows ≡ₚ window lo hi H end -> retained Unescape H j ps ->
  retained Unescape H i (p :: ps).
Proof. intros <- H1 H2. by split. Qed.

Definition demo_history : list ConfigChangeRevision := [mkRevision "a" 10 "root" "" "/x"; mkRevision "b" 10 "root" "" "/y"; mkRevision "c" 20 "root" "" "/z"].
Definition demo_polls : list poll :=
  [Listed 0 2 (rev (take 2 demo_history)) (fun _ _ => None); Unreachable; Listed 0 3 demo_history (fun _ _ => Some "@@"); Listed 2 3 (drop 2 demo_history) (fun _ _ => None)].
End ConfigChange.
