(* ===== verification/RoutingChange.v ===== *)
(** * Changes of the default routes as log records ([logship/routingchange.go])

    An event when the default routes or the gateways behind them change, at most one per
    interval; what changes in between is folded into the next event. *)

From stdpp Require Import base decidable list gmap strings sorting.
From Stdlib Require Import ZArith Lia Ascii.
From S2P Require Import Prelude Order Netip GoStrings GoTime LogQueue OtlpSink Registry Filterlog GoJson Polled Sensitive.
Import Queue Json.

Module RoutingChange.

Definition routingChangeSourceName : string := "routingchange".
Definition routingChangeSubsystem : string := "routing".
Definition routingChangeSchema : string := "opnsense.routing.change.v1".
Definition routingChangeEvent : string := "default_route_change".
Definition routingChangeMinInterval : Duration := Minute.
Definition routingChangeStateSchema : Z := 1.
Definition routingChangeMaxSuppressed : Z := 2 ^ 32 - 1.

Inductive GatewayStatusType := GatewayStatusOffline | GatewayStatusOnline | GatewayStatusUnknown | GatewayStatusPeding | GatewayStatusLoss | GatewayStatusLatency | GatewayStatusForcedDown.
Definition routingGatewayStatus (status : GatewayStatusType) : string :=
  match status with
  | GatewayStatusOnline => "online" | GatewayStatusOffline => "offline" | GatewayStatusPeding => "pending" | GatewayStatusLoss => "packetloss"
  | GatewayStatusLatency => "latency" | GatewayStatusForcedDown => "forced_down" | GatewayStatusUnknown => "unknown"
  end.

(** A default route, in the snapshot and in the projection. *)
Record routeState := mkRoute { Proto : string; Device : string; Interface : string; RGateway : string }.
#[export] Instance routeState_eq : EqDecision routeState.
Proof. solve_decision. Defined.
(** The fields of [opnsense.Gateway] the source reads. *)
Record Gateway := mkGateway {
  UUID : string; Name : string; Description : string; HardwareInterface : string; IPProtocol : string; GGateway : string; DefaultGateway : bool; Enabled : bool;
  FarGateway : string; GInterface : string; InterfaceDescription : string; Upstream : bool; Status : GatewayStatusType }.
Record RoutingSnapshot := mkSnapshot { DefaultRoutes : list routeState; Gateways : list Gateway }.

Record gatewayRouteState := mkGwRoute {
  fUUID : string; fName : string; fHardwareInterface : string; fIPProtocol : string; fGateway : string; fDefaultGateway : bool; fEnabled : bool; fFarGateway : string;
  fInterface : string; fUpstream : bool }.
#[export] Instance gatewayRouteState_eq : EqDecision gatewayRouteState.
Proof. solve_decision. Defined.
(** What identifies a gateway and what only describes it. *)
Record gatewayState := mkGwState { gRoute : gatewayRouteState; gDescription : string; gInterfaceDescription : string; gStatus : string }.
Record routeChangeState := mkState { sRoutes : list routeState; sGateways : list gatewayState }.
Definition zero_state : routeChangeState := mkState [] [].
Definition routingChangeFingerprint : Type := list routeState * list gatewayRouteState.

(** [sort.Slice] with comparisons of strings, the first that tells the two apart. *)
Definition by_keys {A : Type} (key : A -> list string) (a b : A) : bool := lex_lt str_lt (key a) (key b).
Definition route_key (r : routeState) : list string := [Proto r; RGateway r; Device r; Interface r].
Definition gateway_key (g : gatewayState) : list string := let g := gRoute g in [fUUID g; fName g; fIPProtocol g; fGateway g].
Definition project_gateway (g : Gateway) : gatewayState :=
  mkGwState (mkGwRoute (UUID g) (Name g) (HardwareInterface g) (IPProtocol g) (GGateway g) (DefaultGateway g) (Enabled g) (FarGateway g) (GInterface g) (Upstream g))
    (Description g) (InterfaceDescription g) (routingGatewayStatus (Status g)).
Definition projectRoutingSnapshot (s : RoutingSnapshot) : routeChangeState :=
  mkState (sort_by (by_keys route_key) (DefaultRoutes s)) (sort_by (by_keys gateway_key) (map project_gateway (Gateways s))).

Definition routingChangeFingerprintFor (s : routeChangeState) : routingChangeFingerprint := (sRoutes s, map gRoute (sGateways s)).
Definition routingStateChanged (before after : routeChangeState) : bool := negb (bool_decide (routingChangeFingerprintFor before = routingChangeFingerprintFor after)).

(** *** The event *)

Definition routeFamilies (s : routeChangeState) : string :=
  let nonempty := List.filter (fun f => negb (str_empty f)) in
  let protos := nonempty (map Proto (sRoutes s)) in
  let families := if bool_decide (protos = []) then nonempty (map (fun g => fIPProtocol (gRoute g)) (List.filter (fun g => fDefaultGateway (gRoute g)) (sGateways s))) else protos in
  Filterlog.Join (sort_by str_lt (remove_dups families)).

Definition route_json (r : routeState) : json := JObj [("proto", JStr (Proto r)); ("device", JStr (Device r)); ("interface", JStr (Interface r)); ("gateway", JStr (RGateway r))].
Definition gateway_json (g : gatewayState) : json :=
  let r := gRoute g in
  JObj (Polled.opt_field "uuid" (fUUID r) ++ Polled.opt_field "name" (fName r) ++ Polled.opt_field "description" (gDescription g)
        ++ Polled.opt_field "hardware_interface" (fHardwareInterface r) ++ Polled.opt_field "ip_protocol" (fIPProtocol r) ++ Polled.opt_field "gateway" (fGateway r)
        ++ [("default_gateway", JBool (fDefaultGateway r)); ("enabled", JBool (fEnabled r))] ++ Polled.opt_field "far_gateway" (fFarGateway r)
        ++ Polled.opt_field "interface" (fInterface r) ++ Polled.opt_field "interface_description" (gInterfaceDescription g) ++ [("upstream", JBool (fUpstream r))]
        ++ Polled.opt_field "status" (gStatus g)).
Definition state_json (s : routeChangeState) : json :=
  JObj [("routingTable", JObj [("default_routes", JArr (map route_json (sRoutes s)))]); ("gatewaysStatus", JObj [("rows", JArr (map gateway_json (sGateways s)))])].
Definition event_json (before after : routeChangeState) (suppressed : Z) : json :=
  JObj ([("schema", JStr routingChangeSchema); ("event", JStr routingChangeEvent); ("family", JStr "default_route"); ("before", state_json before); ("after", state_json after)]
        ++ (if 0 <? suppressed then [("flap", JObj [("kind", JStr "coalesced"); ("suppressed_changes", JInt suppressed)])] else [])).

(** The event is marshalled, read back as a tree, redacted and marshalled again. *)
Definition marshalRoutingChangeEvent (event : json) : option string :=
  match decode (print event) with Some value => Some (print (Sensitive.redact (Sensitive.any_of value))) | None => None end.

Definition routingChangeRecord (before after : routeChangeState) (now : Time) (suppressed : Z) : option LogRecord :=
  match marshalRoutingChangeEvent (event_json before after suppressed) with
  | None => None
  | Some body =>
      let attrs := list_to_map [(Otlp.AttrSubsystem, routingChangeSubsystem); ("event", routingChangeEvent); ("change", "default_route"); ("route_family", routeFamilies after)] in
      let attrs := if 0 <? suppressed then <["flap_suppressed" := Itoa suppressed]> (<["change_kind" := "flap"]> attrs) else <["change_kind" := "move"]> attrs in
      Some (mkLog now body attrs SeverityInfo "")
  end.

(** *** The source *)

Record RoutingChangeSource := mkRouting {
  cursorSet : bool; lastSnapshot : routeChangeState; lastEmittedAt : Time; lastEmissionSet : bool; pending : option (routeChangeState * Z); interval : Duration }.
Definition newRoutingChangeSource (interval : Duration) : RoutingChangeSource :=
  mkRouting false zero_state zero_time false None (if interval <=? 0 then routingChangeMinInterval else interval).
Definition eventAllowed (s : RoutingChangeSource) (now : Time) : bool := negb (lastEmissionSet s) || (interval s <=? time_Sub now (lastEmittedAt s)).

(** [Poll]: the outer [None] is the error of the fetch or of the record. *)
Definition Poll (fetched : option RoutingSnapshot) (now : Time) (s : RoutingChangeSource) : option (list LogRecord) * RoutingChangeSource :=
  match fetched with
  | None => (None, s)
  | Some snapshot =>
      let current := projectRoutingSnapshot snapshot in
      let keep := mkRouting true current (lastEmittedAt s) (lastEmissionSet s) in
      let emitted := mkRouting true current now true None (interval s) in
      if negb (cursorSet s) then (Some [], keep (pending s) (interval s))
      else if routingStateChanged (lastSnapshot s) current then
        if eventAllowed s now then
          let '(before, suppressed) := default (lastSnapshot s, 0) (pending s) in
          match routingChangeRecord before current now suppressed with
          | None => (None, s)
          | Some record => (Some [record], emitted)
          end
        else
          let '(before, suppressed) := default (lastSnapshot s, 0) (pending s) in
          (Some [], keep (Some (before, if suppressed <? routingChangeMaxSuppressed then suppressed + 1 else suppressed)) (interval s))
      else
        match pending s with
        | Some (before, suppressed) =>
            if eventAllowed s now then
              match routingChangeRecord before current now suppressed with
              | None => (None, s)
              | Some record => (Some [record], emitted)
              end
            else (Some [], keep (pending s) (interval s))
        | None => (Some [], keep None (interval s))
        end
  end.

(** The fields of the state file. *)
Record routingChangePersistedState := mkPersisted {
  pSchema : Z; pCursorSet : bool; pLastSnapshot : routeChangeState; pLastEmittedAt : Time; pLastEmissionSet : bool; pPending : option (routeChangeState * Z) }.
Definition LoadState (data : option routingChangePersistedState) (s : RoutingChangeSource) : RoutingChangeSource :=
  match data with
  | Some st =>
      if negb (pSchema st =? routingChangeStateSchema) || negb (pCursorSet st) then s
      else mkRouting true (pLastSnapshot st) (pLastEmittedAt st) (pLastEmissionSet st)
             (match pPending st with Some (before, n) => Some (before, if routingChangeMaxSuppressed <? n then routingChangeMaxSuppressed else n) | None => None end) (interval s)
  | None => s
  end.
Definition SaveState (s : RoutingChangeSource) : option routingChangePersistedState :=
  if cursorSet s then Some (mkPersisted routingChangeStateSchema true (lastSnapshot s) (lastEmittedAt s) (lastEmissionSet s) (pending s)) else None.

(** *** The body of an event *)

(** A value of integers, nested at most [d] deep, with no name that redaction removes. *)
Fixpoint plain (v : json) : Prop :=
  match v with
  | JArr l => foldr (fun v acc => plain v /\ acc) True l
  | JObj l => foldr (fun p acc => (Sensitive.SensitiveConfigKey p.1 = false /\ plain p.2) /\ acc) True l
  | _ => True
  end.
Definition tame (d : Z) (v : json) : Prop := ints v /\ nesting v <= d /\ plain (valid_json v).
Definition tame_member (d : Z) (p : string * json) : Prop := Sensitive.SensitiveConfigKey (coerce p.1) = false /\ tame d p.2.

Lemma tame_arr d l : 0 <= d -> Forall (tame d) l -> tame (1 + d) (JArr l).
Proof.
  intros Hd H. induction H as [|v l (Hi & Hn & Hp) _ (IHi & IHn & IHp)]; [by repeat split; cbn; lia|].
  split; [by split|]. split; [|by split]. cbn in *. lia.
Qed.
Lemma tame_obj d l : 0 <= d -> Forall (tame_member d) l -> tame (1 + d) (JObj l).
Proof.
  intros Hd H. induction H as [|[k v] l (Hk & Hi & Hn & Hp) _ (IHi & IHn & IHp)]; [by repeat split; cbn; lia|].
  split; [by split|]. split; [|by split; [split|]]. cbn in *. lia.
Qed.
Lemma tame_opt d k s : 0 <= d -> Sensitive.SensitiveConfigKey (coerce k) = false -> Forall (tame_member d) (Polled.opt_field k s).
Proof. intros Hd Hk. unfold Polled.opt_field. destruct (str_empty s); constructor; [|constructor]. by repeat split. Qed.
Lemma tame_scalar d k v : 0 <= d -> Sensitive.SensitiveConfigKey (coerce k) = false -> match v with JStr _ | JBool _ => True | _ => False end -> tame_member d (k, v).
Proof. intros Hd Hk Hv. by destruct v; repeat split. Qed.

Ltac tame_members := repeat first [apply Forall_app; split | apply Forall_cons; split | apply Forall_nil_2 | apply tame_opt | apply tame_scalar]; try (vm_compute; reflexivity); try lia; try done.

Lemma tame_route r : tame 1 (route_json r).
Proof. apply (tame_obj 0); [lia|]. tame_members. Qed.
Lemma tame_gateway g : tame 1 (gateway_json g).
Proof. apply (tame_obj 0); [lia|]. tame_members. Qed.
Lemma tame_rows {A} (f : A -> json) k l : Sensitive.SensitiveConfigKey (coerce k) = false -> (forall x, tame 1 (f x)) -> tame 3 (JObj [(k, JArr (map f l))]).
Proof.
  intros Hk Hf. apply (tame_obj 2); [lia|]. constructor; [|constructor]. split; [done|]. apply (tame_arr 1); [lia|]. induction l; constructor; auto.
Qed.
Lemma tame_state s : tame 4 (state_json s).
Proof.
  apply (tame_obj 3); [lia|]. constructor; [|constructor; [|constructor]]; (split; [vm_compute; reflexivity|]); cbn [snd]; (apply tame_rows; [vm_compute; reflexivity|]); [apply tame_route|apply tame_gateway].
Qed.
Lemma tame_event before after suppressed : tame 5 (event_json before after suppressed).
Proof.
  apply (tame_obj 4); [lia|]. apply Forall_app. split.
  - repeat apply Forall_cons_2; try apply Forall_nil_2; try (apply tame_scalar; [lia|vm_compute; reflexivity|done]); (split; [vm_compute; reflexivity|apply tame_state]).
  - destruct (0 <? suppressed); constructor; [|constructor]. split; [vm_compute; reflexivity|]. split; [|by split; vm_compute; repeat split]. cbn. unfold JInt. by eauto.
Qed.

Lemma plain_redact v : plain v -> Sensitive.redact v = v.
Proof.
  induction v as [| | | |l IH|l IH] using json_nested_ind; intros Hv; try done; cbn [Sensitive.redact]; f_equal.
  - induction IH as [|x l Hx _ IHl]; [done|]. destruct Hv as [Hp Hv]. cbn. f_equal; [by apply Hx|by apply IHl].
  - induction IH as [|[k x] l Hx _ IHl]; [done|]. destruct Hv as [[Hk Hp] Hv]. cbn in *. rewrite Hk. cbn. f_equal; [by rewrite Hx|by apply IHl].
Qed.

Lemma plain_members l : (forall p, p ∈ l -> Sensitive.SensitiveConfigKey p.1 = false /\ plain p.2) -> plain (JObj l).
Proof. induction l as [|p l IH]; intros H; [done|]. split; [apply H; by left|]. apply IH. intros q Hq. apply H. by right. Qed.
Lemma members_plain l p : plain (JObj l) -> p ∈ l -> Sensitive.SensitiveConfigKey p.1 = false /\ plain p.2.
Proof. induction l as [|q l IH]; intros Hl Hp; [set_solver|]. destruct Hl as [Hq Hl]. apply elem_of_cons in Hp as [-> |Hp]; [done|]. by apply IH. Qed.

Lemma plain_any v : plain v -> plain (Sensitive.any_of v).
Proof.
  induction v as [| | | |l IH|l IH] using json_nested_ind; intros Hv; try done; cbn [Sensitive.any_of].
  - induction IH as [|x l Hx _ IHl]; [done|]. destruct Hv as [Hp Hv]. cbn. split; [by apply Hx|by apply IHl].
  - apply plain_members. intros [k v] Hp. unfold Sensitive.members in Hp. rewrite sort_by_perm in Hp. apply elem_of_map_to_list in Hp. unfold Sensitive.map_of in Hp.
    apply elem_of_list_to_map_2 in Hp. rewrite <- (Permutation_rev _) in Hp; apply list_elem_of_fmap in Hp as ([k' v'] & [= -> ->] & Hin).
    destruct (members_plain l (k', v') Hv Hin) as [Hk Hpl]. split; [done|]. rewrite Forall_forall in IH. by apply (IH _ Hin).
Qed.

(** The names of an event are fixed: redaction removes nothing, and no event is lost to
    an error of its encoding. *)
Lemma marshal_exact before after suppressed :
  marshalRoutingChangeEvent (event_json before after suppressed) = Some (print (Sensitive.any_of (valid_json (event_json before after suppressed)))).
Proof.
  destruct (tame_event before after suppressed) as (Hi & Hn & Hp). unfold marshalRoutingChangeEvent. rewrite decode_print; [|done|unfold maxNestingDepth; lia].
  by rewrite plain_redact by (by apply plain_any).
Qed.
Lemma record_total before after now suppressed : exists r, routingChangeRecord before after now suppressed = Some r.
Proof. unfold routingChangeRecord. rewrite marshal_exact. by eauto. Qed.

(** *** What is told *)

(** The specification: the routing that was told, the current one, the number of changes
    since and the time of the last event. *)
Notation fp := routingChangeFingerprintFor.
Record telling := mkTelling { told : routingChangeFingerprint; cur : routingChangeFingerprint; moves : Z; sent : option Time }.
Record event := mkEvent { at_time : Time; efrom : routingChangeFingerprint; eto : routingChangeFingerprint; folded : Z }.
Definition may_send (iv : Duration) (now : Time) (sent : option Time) : bool := match sent with Some t => iv <=? time_Sub now t | None => true end.
Definition spec_poll (iv : Duration) (now : Time) (f : routingChangeFingerprint) (o : option telling) : option telling * list event :=
  match o with
  | None => (Some (mkTelling f f 0 None), [])
  | Some t =>
      let m := moves t + (if bool_decide (cur t = f) then 0 else 1) in
      if m =? 0 then (o, [])
      else if may_send iv now (sent t) then (Some (mkTelling f f 0 (Some now)), [mkEvent now (told t) f (moves t)])
      else (Some (mkTelling (told t) f m (sent t)), [])
  end.

(** The life of a source: polls, some of which cannot fetch, and restarts. *)
Inductive step := Tick (now : Time) (fetched : option RoutingSnapshot) | Restart.
Definition do_step (iv : Duration) (s : RoutingChangeSource) (st : step) : RoutingChangeSource * list LogRecord :=
  match st with
  | Tick now fetched => let '(out, s) := Poll fetched now s in (s, default [] out)
  | Restart => (LoadState (SaveState s) (newRoutingChangeSource iv), [])
  end.
Fixpoint run (iv : Duration) (s : RoutingChangeSource) (l : list step) : RoutingChangeSource * list LogRecord :=
  match l with [] => (s, []) | st :: l => let '(s, r) := do_step iv s st in let '(s, rs) := run iv s l in (s, r ++ rs) end.
Definition spec_step (iv : Duration) (o : option telling) (st : step) : option telling * list event :=
  match st with Tick now (Some snapshot) => spec_poll iv now (fp (projectRoutingSnapshot snapshot)) o | _ => (o, []) end.
Fixpoint spec_run (iv : Duration) (o : option telling) (l : list step) : option telling * list event :=
  match l with [] => (o, []) | st :: l => let '(o, e) := spec_step iv o st in let '(o, es) := spec_run iv o l in (o, e ++ es) end.

(** A record that tells an event. *)
Definition tells (r : LogRecord) (e : event) : Prop :=
  exists before after, fp before = efrom e /\ fp after = eto e /\ routingChangeRecord before after (at_time e) (Z.min (folded e) routingChangeMaxSuppressed) = Some r.

Definition sim (iv : Duration) (s : RoutingChangeSource) (o : option telling) : Prop :=
  interval s = iv /\
  match o with
  | None => cursorSet s = false /\ pending s = None /\ lastEmissionSet s = false
  | Some t => cursorSet s = true /\ cur t = fp (lastSnapshot s) /\ sent t = (if lastEmissionSet s then Some (lastEmittedAt s) else None)
      /\ match pending s with
         | None => moves t = 0 /\ told t = cur t
         | Some (before, n) => 1 <= moves t /\ n = Z.min (moves t) routingChangeMaxSuppressed /\ told t = fp before
         end
  end.

Lemma sim_new iv : 0 < iv -> sim iv (newRoutingChangeSource iv) None.
Proof. intros H. unfold sim, newRoutingChangeSource. cbn. destruct (Z.leb_spec iv 0); [lia|done]. Qed.
Lemma sim_allowed iv s t now : sim iv s (Some t) -> eventAllowed s now = may_send iv now (sent t).
Proof. intros (<- & _ & _ & -> & _). unfold eventAllowed. by destruct (lastEmissionSet s). Qed.

Lemma tells_intro before after now n m : m = Z.min n routingChangeMaxSuppressed -> exists r, routingChangeRecord before after now m = Some r /\ tells r (mkEvent now (fp before) (fp after) n).
Proof. intros ->. destruct (record_total before after now (Z.min n routingChangeMaxSuppressed)) as [r Hr]. exists r. split; [done|]. exists before, after. by repeat split. Qed.

Lemma sim_poll iv s o now snapshot : sim iv s o ->
  let '(out, s') := Poll (Some snapshot) now s in
  let '(o', evs) := spec_poll iv now (fp (projectRoutingSnapshot snapshot)) o in
  sim iv s' o' /\ exists rs, out = Some rs /\ Forall2 tells rs evs.
Proof.
  intros Hs. pose proof Hs as [Hi Ho]. unfold Poll. generalize (projectRoutingSnapshot snapshot) as c. intros c. destruct o as [t|]; cbn [spec_poll].
  2: { destruct Ho as (-> & -> & ->). cbn. split; [by repeat split|]. eauto. }
  rewrite (sim_allowed iv s t now Hs). destruct Ho as (-> & Hc & Hsent & Hp). cbn [negb]. unfold routingStateChanged. rewrite <- Hc. destruct (bool_decide (cur t = fp c)) eqn:Ec; cbn [negb].
  - apply bool_decide_eq_true in Ec. rewrite Z.add_0_r. destruct (pending s) as [[before n]|] eqn:Ep.
    + destruct Hp as (Hm & Hn & Ht). rewrite (proj2 (Z.eqb_neq (moves t) 0)) by lia. destruct (may_send iv now (sent t)).
      * destruct (tells_intro before c now (moves t) n Hn) as (r & -> & Hr). rewrite Ht. cbn. split; [by repeat split|]. eexists. split; [done|]. by repeat constructor.
      * cbn. split; [by repeat split|]. eauto.
    + destruct Hp as [Hm Ht]. rewrite Hm. cbn. split; [|by eauto]. by repeat split.
  - rewrite (proj2 (Z.eqb_neq (moves t + 1) 0)); [|destruct (pending s) as [[]|]; lia]. destruct (may_send iv now (sent t)).
    + assert (exists before n, default (lastSnapshot s, 0) (pending s) = (before, n) /\ n = Z.min (moves t) routingChangeMaxSuppressed /\ told t = fp before) as (before & n & -> & Hn & Ht).
      { destruct (pending s) as [[before n]|]; [destruct Hp as (_ & Hn & Ht); by eauto|]. destruct Hp as [Hm Ht]. eexists _, _. split; [done|]. rewrite Hm. split; [done|congruence]. }
      destruct (tells_intro before c now (moves t) n Hn) as (r & -> & Hr). rewrite Ht. cbn. split; [by repeat split|]. eexists. split; [done|]. by repeat constructor.
    + destruct (pending s) as [[before n]|] eqn:Ep; cbn.
      * destruct Hp as (Hm & Hn & Ht). split; [|by eauto]. unfold routingChangeMaxSuppressed in *. repeat split; try done; cbn [moves told]; [lia|]. unfold routingChangeMaxSuppressed. destruct (Z.ltb_spec n (2 ^ 32 - 1)); lia.
      * destruct Hp as [Hm Ht]. rewrite Hm. split; [|by eauto]. repeat split; try done. cbn. congruence.
Qed.

Lemma sim_step iv s o st : 0 < iv -> sim iv s o ->
  let '(s', rs) := do_step iv s st in let '(o', evs) := spec_step iv o st in sim iv s' o' /\ Forall2 tells rs evs.
Proof.
  intros Hiv Hs. destruct st as [now [snapshot|]|]; cbn [do_step spec_step].
  - pose proof (sim_poll iv s o now snapshot Hs) as H. destruct (Poll _ _ _) as [out s']. destruct (spec_poll _ _ _ _) as [o' evs]. destruct H as (H & rs & -> & Hrs). by split.
  - cbn. split; [done|constructor].
  - split; [|constructor]. destruct Hs as [Hi Ho]. assert ((if iv <=? 0 then routingChangeMinInterval else iv) = iv) as E by (destruct (Z.leb_spec iv 0); [lia|done]). destruct o as [t|].
    + destruct Ho as (Hcs & Ho). unfold SaveState. rewrite Hcs. cbn. split; [done|]. destruct Ho as (Hc & Hsent & Hp). repeat split; try done. destruct (pending s) as [[before n]|]; [|done].
      destruct Hp as (Hm & Hn & Ht). repeat split; try done. rewrite (proj2 (Z.ltb_ge routingChangeMaxSuppressed n)); [done|lia].
    + destruct Ho as (Hcs & Hp & He). unfold SaveState. rewrite Hcs. cbn. by repeat split.
Qed.

Lemma sim_run iv l : 0 < iv -> forall s o, sim iv s o ->
  let '(s', rs) := run iv s l in let '(o', evs) := spec_run iv o l in sim iv s' o' /\ Forall2 tells rs evs.
Proof.
  intros Hiv. induction l as [|st l IH]; intros s o Hs; cbn [run spec_run]; [split; [done|constructor]|]. pose proof (sim_step iv s o st Hiv Hs) as H. destruct (do_step iv s st) as [s1 r1].
  destruct (spec_step iv o st) as [o1 e1]. destruct H as [Hs1 Hr1]. specialize (IH s1 o1 Hs1). destruct (run iv s1 l) as [s2 r2]. destruct (spec_run iv o1 l) as [o2 e2]. destruct IH as [Hs2 Hr2]. split; [done|]. by apply Forall2_app.
Qed.

(** [C26] The routing source implements the specification.  Over any life of it, with polls
    that fail and restarts from its saved state at any point, its records tell exactly the
    events of the specification, in order: an event as soon as the interval allows one
    after the routing has changed since it was last told, from what was told then to what
    is there now, with the number of changes folded into it, even when the routing has
    returned to where it was. *)
Theorem routing_refines iv l : 0 < iv ->
  let '(s, records) := run iv (newRoutingChangeSource iv) l in
  let '(o, evs) := spec_run iv None l in
  Forall2 tells records evs /\ sim iv s o.
Proof.
  intros Hiv. pose proof (sim_run iv l Hiv (newRoutingChangeSource iv) None) as H. destruct (run iv _ l) as [s rs]. destruct (spec_run iv None l) as [o evs].
  destruct H as [H1 H2]; [by apply sim_new|done].
Qed.

(** The events of the specification. *)
Fixpoint chained (from : routingChangeFingerprint) (evs : list event) : Prop := match evs with [] => True | e :: evs => efrom e = from /\ chained (eto e) evs end.
Fixpoint spaced (iv : Duration) (since : option Time) (evs : list event) : Prop :=
  match evs with [] => True | e :: evs => may_send iv (at_time e) since = true /\ spaced iv (Some (at_time e)) evs end.
Definition last_told (from : routingChangeFingerprint) (evs : list event) : routingChangeFingerprint := match last evs with Some e => eto e | None => from end.
Fixpoint first_seen (l : list step) : option routingChangeFingerprint :=
  match l with [] => None | Tick _ (Some snapshot) :: _ => Some (fp (projectRoutingSnapshot snapshot)) | _ :: l => first_seen l end.
Definition settled (t : telling) : Prop := moves t = 0 -> told t = cur t.

Lemma last_told_cons from e evs : last_told from (e :: evs) = last_told (eto e) evs.
Proof. unfold last_told. destruct evs as [|e' evs]; [done|]. rewrite last_cons_cons. by destruct (last (e' :: evs)) eqn:E; [|apply last_None in E]. Qed.

Lemma spec_events iv l : forall t, settled t -> exists t' evs, spec_run iv (Some t) l = (Some t', evs) /\ settled t' /\ chained (told t) evs /\ spaced iv (sent t) evs /\ told t' = last_told (told t) evs.
Proof.
  induction l as [|st l IH]; intros t Ht; cbn [spec_run]; [by exists t, []|]. destruct st as [now [snapshot|]|]; cbn [spec_step].
  2, 3: by destruct (IH t Ht) as (t' & evs & -> & H); exists t', evs.
  unfold spec_poll. set (f := fp _). destruct (_ =? 0) eqn:Em; [by destruct (IH t Ht) as (t' & evs & -> & H); exists t', evs|]. destruct (may_send iv now (sent t)) eqn:Es.
  - destruct (IH (mkTelling f f 0 (Some now))) as (t' & evs & -> & H1 & H2 & H3 & H4); [done|]. exists t', (mkEvent now (told t) f (moves t) :: evs). cbn in *. rewrite last_told_cons. by repeat split.
  - destruct (IH (mkTelling (told t) f (moves t + (if bool_decide (cur t = f) then 0 else 1)) (sent t))) as (t' & evs & -> & H); [|by exists t', evs]. intros H0. cbn in H0. rewrite H0 in Em. done.
Qed.

(** [C27] What is told of the default routes fits together.  The records of any life of the
    source form a chain: the first starts from the routing of the first poll, each of the others from where the one before it ended, no
    two are closer than the interval, and when nothing is pending the last of them ends
    at the routing the source saw last. *)
Theorem routing_told iv l f : 0 < iv -> first_seen l = Some f ->
  let '(s, records) := run iv (newRoutingChangeSource iv) l in
  exists evs, Forall2 tells records evs /\ chained f evs /\ spaced iv None evs /\ (pending s = None -> last_told f evs = fp (lastSnapshot s)).
Proof.
  intros Hiv Hf. pose proof (sim_run iv l Hiv (newRoutingChangeSource iv) None) as H. destruct (run iv _ l) as [s rs].
  assert (exists t' evs, spec_run iv None l = (Some t', evs) /\ settled t' /\ chained f evs /\ spaced iv None evs /\ told t' = last_told f evs) as (t' & evs & E & _ & Hch & Hsp & Hl).
  { clear H s rs. induction l as [|[now [snapshot|]|] l IH]; cbn [first_seen spec_run spec_step] in *; [done| | |].
    - injection Hf as <-. cbn [spec_poll]. set (f := fp _). destruct (spec_events iv l (mkTelling f f 0 None)) as (t' & evs & -> & H); [done|]. by exists t', evs.
    - destruct (IH Hf) as (t' & evs & -> & H). by exists t', evs.
    - destruct (IH Hf) as (t' & evs & -> & H). by exists t', evs. }
  rewrite E in H. destruct H as [(_ & _ & Hc & _ & Hp) Hr]; [by apply sim_new|]. exists evs. split; [done|]. split; [done|]. split; [done|].
  intros Hn. rewrite Hn in Hp. destruct Hp as [_ Hp]. congruence.
Qed.

Definition demo_snap (gw : string) : RoutingSnapshot := mkSnapshot [mkRoute "ipv4" "igb0" "WAN" gw] [].
Definition demo_life : list step :=
  [Tick 0 (Some (demo_snap "a")); Tick Minute (Some (demo_snap "b")); Tick (Minute + Second) (Some (demo_snap "a")); Restart; Tick (Minute + 2 * Second) None;
   Tick (Minute + 3 * Second) (Some (demo_snap "b")); Tick (2 * Minute) (Some (demo_snap "b"))].
Lemma routing_told_witness : 0 < Minute /\ exists evs, Forall2 tells (run Minute (newRoutingChangeSource Minute) demo_life).2 evs /\ spaced Minute None evs.
Proof.
  split; [reflexivity|]. pose proof (routing_told Minute demo_life (fp (projectRoutingSnapshot (demo_snap "a"))) eq_refl eq_refl) as X.
  destruct (run Minute (newRoutingChangeSource Minute) demo_life) as [s records]. destruct X as (evs & H1 & _ & H2 & _). exists evs. exact (conj H1 H2).
Defined.
Lemma routing_refines_witness : 0 < Minute /\ (spec_run Minute None demo_life).2 <> [] /\ Forall2 tells (run Minute (newRoutingChangeSource Minute) demo_life).2 (spec_run Minute None demo_life).2.
Proof.
  split; [reflexivity|]. split; [vm_compute; discriminate|]. pose proof (routing_refines Minute demo_life eq_refl) as X.
  destruct (run Minute (newRoutingChangeSource Minute) demo_life) as [s records]. destruct (spec_run Minute None demo_life) as [o evs]. exact (proj1 X).
Defined.
End RoutingChange.
