(* ===== verification/Annotations.v ===== *)
(** * Annotations ([internal/annotations/catalog.go], [watcher.go], the answers of
      [writer.go])

    The watcher reads metrics whose value is an instant and writes an annotation into
    Grafana for each new one: at most so many per cycle, none while it backs off from a
    rate limit, and none again for what it has already written. *)

From stdpp Require Import base decidable list gmap strings sorting pretty.
From Stdlib Require Import ZArith Lia Ascii SpecFloat.
From S2P Require Import Prelude Order Netip GoStrings GoTime Gauges Envelope GoRegexp Receiver OtlpSink Registry FlowLog GoJson.
Import Registry Envelope.

Module Annotations.

(** ** The catalogue *)

Record Watch := mkWatch { Metric : string; Kind : string; Text : string; LabelKeys : list string; DefaultOff : bool; UptimeOffsetOf : string; Coalesce : bool }.
Definition BootMetric : string := "opnsense_system_boot_timestamp_seconds".
Definition BaseTag : string := "opnsense2otel".
Definition Watches : list Watch :=
  [mkWatch BootMetric "reboot" "OPNsense rebooted" [] false "" false;
   mkWatch "opnsense_system_config_last_change_timestamp_seconds" "config-change" "OPNsense configuration changed" [] false "" false;
   mkWatch "opnsense_interfaces_attach_or_statistics_reset_uptime_seconds" "interface-reset" "Interface %s attached or its counters were reset" ["interface"] false BootMetric false;
   mkWatch "opnsense_firewall_pf_counters_cleared_timestamp_seconds" "pf-counter-reset" "pf counters cleared on %s (pfctl -z)" ["interface"] false "" false;
   mkWatch "opnsense_snapshots_active_created_timestamp_seconds" "upgrade" "Boot environment created (OPNsense upgrade)" [] false "" false;
   mkWatch "opnsense_acme_certificate_last_update_timestamp_seconds" "certificate-renewal" "ACME certificate %s issued or renewed" ["name"] false "" false;
   mkWatch "opnsense_firewall_geoip_last_update_timestamp_seconds" "geoip-update" "GeoIP database updated" [] false "" false;
   mkWatch "opnsense_nginx_config_load_timestamp_seconds" "nginx-reload" "nginx configuration reloaded" [] false "" false;
   mkWatch "opnsense_dyndns_account_last_update_timestamp_seconds" "public-ip-change" "DynDNS updated the public address via %s" ["service"] false "" false;
   mkWatch "opnsense_ids_ruleset_last_updated_timestamp_seconds" "ids-ruleset-update" "IDS rulesets updated (%d file%s)" ["ruleset"] false "" true;
   mkWatch "opnsense_qfeeds_feed_last_update_timestamp_seconds" "threat-feed-update" "Threat feed %s updated" ["feed"] true "" false].
Definition KnownKinds : list string := map Kind Watches.
Definition DefaultOffKinds : list string := map Kind (List.filter DefaultOff Watches).
Definition DefaultKinds : list string := map Kind (List.filter (fun w => negb (DefaultOff w)) Watches).
Definition enabledKindSet (configured : list string) : gset string := list_to_set (match configured with [] => DefaultKinds | _ => configured end).

(** ** Events *)

Record Event := mkEvent { eKind : string; eText : string; eAt : Time; eTags : list string }.
Record Config := mkConfig { Lookback : Duration; ExtraTags : list string; Kinds : list string; MaxPerCycle : Z }.
Definition instanceLabel : string := "opnsense_instance".
Definition futureTolerance : Duration := 5 * Minute.
Definition UnixMilli (t : Time) : Z := (t - unix_epoch) / Millisecond.

(** [fmt.Sprintf] of a text of the catalogue, whose verbs are [%s] and [%d] and as many as
    its arguments. *)
Fixpoint Sprintf (text : string) (args : list string) : string :=
  match text with
  | String "%"%char (String c rest) =>
      if Ascii.eqb c "s" || Ascii.eqb c "d" then match args with a :: args => a +:+ Sprintf rest args | [] => "%!" +:+ String c ("(MISSING)" +:+ Sprintf rest []) end
      else String "%" (String c (Sprintf rest args))
  | String c rest => String c (Sprintf rest args)
  | EmptyString => ""
  end.
Definition eventText (w : Watch) (detail : list string) : string := match detail with [] => Text w | _ => Sprintf (Text w) detail end.
Definition coalescedText (w : Watch) (count : Z) : string := Sprintf (Text w) [FormatInt count; if count =? 1 then "" else "s"].

Fixpoint Join (sep : string) (l : list string) : string := match l with [] => "" | [s] => s | s :: l => s +:+ sep +:+ Join sep l end.
Definition dedupeKey (kind instance : string) (detail : list string) (atMillis : Z) : string :=
  Join "|" [kind; instance; Join (String "031" "") detail; FormatInt atMillis].

(** A tag of the form [key:value]. *)
Definition tag_value (tag : string) : option string := (cut ":" tag).2.
Definition decode_tag (acc : string * string * list string) (tag : string) : string * string * list string :=
  let '(kind, instance, detail) := acc in
  if str_eq tag BaseTag then acc
  else if HasPrefix tag "instance:" then (kind, str_drop 9 tag, detail)
  else match tag_value tag with
       | Some v => (kind, instance, detail ++ [v])
       | None => if str_empty kind then (tag, instance, detail) else acc
       end.
Definition decodeTags (tags : list string) : string * string * list string :=
  let '(kind, instance, detail) := fold_left decode_tag tags ("", "", []) in (kind, instance, sort_by str_lt detail).

Definition label_tags (keys detail : list string) : list string :=
  omap (fun p : string * string => if str_empty p.2 then None else Some (p.1 +:+ ":" +:+ p.2)) (zip keys detail).
Definition tags (cfg : Config) (w : Watch) (instance : string) (detail : list string) : list string :=
  [BaseTag; Kind w] ++ (if str_empty instance then [] else ["instance:" +:+ instance]) ++ label_tags (LabelKeys w) detail ++ ExtraTags cfg.

(** ** The metrics *)

Record metric := mkMetric { mLabels : list (string * string); mGauge : option spec_float; mUntyped : option spec_float }.
Record family := mkFamily { fName : string; fMetrics : list metric }.
Definition labelMap (m : metric) : gmap string string := list_to_map (rev (mLabels m)).
Definition metricValue (m : metric) : spec_float := match mGauge m, mUntyped m with Some v, _ | None, Some v => v | None, None => S754_zero false end.
Definition positive (v : spec_float) : bool := negb (SFleb v (S754_zero false)).
(** [int64] of a float64; what is out of range becomes the least integer. *)
Definition to_int64 (v : spec_float) : Z :=
  let clip z := if (- 2 ^ 63 <=? z) && (z <? 2 ^ 63) then z else - 2 ^ 63 in
  match v with
  | S754_zero _ => 0
  | S754_finite s m e => clip ((if s then -1 else 1) * Z.shiftl (Zpos m) e)
  | _ => - 2 ^ 63
  end.
Definition instance_of (m : metric) : string := default "" (labelMap m !! instanceLabel).
Definition instantsByInstance (ms : list metric) : gmap string spec_float :=
  fold_left (fun out m => if positive (metricValue m) then <[instance_of m := metricValue m]> out else out) ms ∅.
Definition byName (fs : list family) (name : string) : option (list metric) := (list_to_map (rev (map (fun f => (fName f, fMetrics f)) fs)) : gmap string (list metric)) !! name.
Definition detailValues (w : Watch) (m : metric) : list string := map (fun k => default "" (labelMap m !! k)) (LabelKeys w).

(** The instant of a series, when it has one in the window. *)
Definition instant (offsets : option (gmap string spec_float)) (oldest newest : Time) (m : metric) : option Time :=
  let value := metricValue m in
  if negb (positive value) then None
  else
    match (match offsets with None => Some value | Some o => match o !! instance_of m with Some offset => Some (Ratio.fadd value offset) | None => None end end) with
    | None => None
    | Some value => let at_ := time_Unix (to_int64 value) 0 in if (at_ <? oldest) || (newest <? at_) then None else Some at_
    end.

Definition event_of (cfg : Config) (w : Watch) (m : metric) (at_ : Time) : Event :=
  let detail := detailValues w m in mkEvent (Kind w) (eventText w detail) at_ (tags cfg w (instance_of m) detail).
Definition series_key (w : Watch) (m : metric) (at_ : Time) : string := dedupeKey (Kind w) (instance_of m) (detailValues w m) (UnixMilli at_).
(** A coalesced event for each distinct instant. *)
Definition coalesced (cfg : Config) (w : Watch) (instants : list Time) (millis : Z) : Event :=
  mkEvent (Kind w) (coalescedText w (zlen (List.filter (fun t => UnixMilli t =? millis) instants))) (unix_epoch + millis * Millisecond) (tags cfg w "" []).
Definition coalescedEvents (cfg : Config) (seen : gmap string Z) (w : Watch) (instants : list Time) : list Event :=
  map (coalesced cfg w instants) (List.filter (fun millis => negb (bool_decide (is_Some (seen !! dedupeKey (Kind w) "" [] millis)))) (remove_dups (map UnixMilli instants))).

Definition detect_watch (cfg : Config) (seen : gmap string Z) (fs : list family) (oldest newest : Time) (w : Watch) : list Event :=
  if negb (bool_decide (Kind w ∈ enabledKindSet (Kinds cfg))) then []
  else
    match byName fs (Metric w) with
    | None => []
    | Some ms =>
        let offsets := if str_empty (UptimeOffsetOf w) then None else Some (instantsByInstance (default [] (byName fs (UptimeOffsetOf w)))) in
        if match offsets with Some o => bool_decide (o = ∅) | None => false end then []
        else if Coalesce w then coalescedEvents cfg seen w (omap (instant offsets oldest newest) ms)
        else omap (fun m => match instant offsets oldest newest m with
                            | Some at_ => if bool_decide (is_Some (seen !! series_key w m at_)) then None else Some (event_of cfg w m at_)
                            | None => None
                            end) ms
    end.

(** ** Answers *)

(** [httpError] *)
Record httpError := mkHttpError { StatusCode : Z; RetryAfter : Duration }.
Definition permanent (e : httpError) : bool := (400 <=? StatusCode e) && (StatusCode e <? 500) && negb (StatusCode e =? 429) && negb (StatusCode e =? 408).

Definition backoffBase : Duration := 30 * Second.
Definition backoffCeiling : Duration := 15 * Minute.
Definition backoffJitter : spec_float := Ratio.fconst 2 10.
Definition maxBackoffStreak : Z := 6.
Definition clampRetryAfter (d : Duration) : Duration := if d <=? 0 then 1 else if backoffCeiling <? d then backoffCeiling else d.
(** [ParseTime] is [http.ParseTime]. *)
Definition parseRetryAfter (ParseTime : string -> option Time) (header : string) (now : Time) : Duration :=
  let header := TrimSpace header in
  if str_empty header then 0
  else
    match Otlp.Atoi header with
    | Some seconds => clampRetryAfter (s64 (seconds * Second))
    | None => match ParseTime header with Some t => clampRetryAfter (time_Sub t now) | None => 0 end
    end.

(** What posting an event comes to. *)
Inductive answer := Accepted | Refused (e : httpError) | Unreached.

(** ** The watcher *)

Record Watcher := mkWatcher {
  seen : gmap string Z; reconciled : bool; seeded : bool; backoffUntil : Time; backoffStreak : Z;
  posted : Z; failed : Z; rateLimited : Z; undeliverable : Z; skipped : Z }.
#[export] Instance eta_Watcher : Eta Watcher := fun w =>
  mkWatcher (seen w) (reconciled w) (seeded w) (backoffUntil w) (backoffStreak w) (posted w) (failed w) (rateLimited w) (undeliverable w) (skipped w).
Definition New : Watcher := mkWatcher ∅ false false zero_time 0 0 0 0 0 0.

Definition markSeen (e : Event) (w : Watcher) : Watcher :=
  let '(kind, instance, detail) := decodeTags (eTags e) in w <| seen ::= <[dedupeKey kind instance detail (UnixMilli (eAt e)) := UnixMilli (eAt e)]> |>.
Definition prune (cfg : Config) (now : Time) (w : Watcher) : Watcher :=
  w <| seen ::= filter (fun p => UnixMilli (now - Lookback cfg) <= p.2) |>.

(** The annotations of the lookback window, when they can be read. *)
Definition reconcile (found : option (list (Z * list string))) (w : Watcher) : Watcher :=
  match found with
  | None => w
  | Some found =>
      fold_left (fun w a => let '(kind, instance, detail) := decodeTags a.2 in
                            if str_empty kind then w else w <| seen ::= <[dedupeKey kind instance detail a.1 := a.1]> |>) found w <| reconciled := true |>
  end.

(** [jitter], with the number drawn. *)
Definition jitter (draw : Z) (delay : Duration) : Duration :=
  let spread := to_int64 (SFmul 53 1024 (Ratio.float64 delay) backoffJitter) in
  if spread <=? 0 then delay else delay - spread + draw mod (2 * spread + 1).
Definition armBackoff (draw : Z) (now : Time) (retryAfter : Duration) (w : Watcher) : Watcher :=
  let streak := if backoffStreak w <? maxBackoffStreak then backoffStreak w + 1 else backoffStreak w in
  let delay := if retryAfter <=? 0 then jitter draw (Z.min (backoffBase * 2 ^ (streak - 1)) backoffCeiling) else retryAfter in
  w <| backoffStreak := streak |> <| backoffUntil := now + delay |>.

(** The posts of a cycle: [attempted] so far, of [total] events, with the number of rate
    limits and the first delay a server stated. *)
Definition post_one (e : Event) (a : answer) (limited : Z) (retryAfter : Duration) (w : Watcher) : Watcher * Z * Duration :=
  match a with
  | Accepted => (markSeen e w <| posted ::= Z.succ |> <| backoffStreak := 0 |> <| backoffUntil := zero_time |>, limited, retryAfter)
  | Unreached => (w <| failed ::= Z.succ |>, limited, retryAfter)
  | Refused err =>
      let w := w <| failed ::= Z.succ |> in
      if StatusCode err =? 429 then (w <| rateLimited ::= Z.succ |>, limited + 1, if retryAfter =? 0 then RetryAfter err else retryAfter)
      else if permanent err then (markSeen e (w <| undeliverable ::= Z.succ |>), limited, retryAfter)
      else (w, limited, retryAfter)
  end.
Fixpoint post_all (cfg : Config) (answers : nat -> answer) (attempted : nat) (total : Z) (events : list Event) (limited : Z) (retryAfter : Duration) (w : Watcher)
  : Watcher * Z * Duration * list (Event * answer) :=
  match events with
  | [] => (w, limited, retryAfter, [])
  | e :: events =>
      if MaxPerCycle cfg <=? Z.of_nat attempted then (w <| skipped ::= Z.add (total - Z.of_nat attempted) |>, limited, retryAfter, [])
      else
        let '(w, limited, retryAfter) := post_one e (answers attempted) limited retryAfter w in
        let '(w, limited, retryAfter, l) := post_all cfg answers (S attempted) total events limited retryAfter w in
        (w, limited, retryAfter, (e, answers attempted) :: l)
  end.

Section watcher.
(** [sort.Slice] by time and kind, which leaves the order of equals open. *)
Context (cfg : Config) (arrange : list Event -> list Event).

(** A cycle as the world gives it: the clock at its start, at the detection and at its end,
    the families gathered, [None] when nothing is, the answers and the number drawn. *)
Record cycle := mkCycle { cStart : Time; cDetect : Time; cEnd : Time; cFamilies : option (list family); cAnswers : nat -> answer; cDraw : Z }.

Definition detect (now : Time) (fs : list family) (seen : gmap string Z) : list Event :=
  arrange (Watches ≫= detect_watch cfg seen fs (now - Lookback cfg) (now + futureTolerance)).

Definition tick (c : cycle) (w : Watcher) : Watcher * list (Event * answer) :=
  let w := prune cfg (cStart c) w in
  if cStart c <? backoffUntil w then (w, [])
  else
    match cFamilies c with
    | None => (w, [])
    | Some fs =>
        let events := detect (cDetect c) fs (seen w) in
        let first := negb (seeded w) in
        let w := w <| seeded := true |> in
        if first && negb (reconciled w) then (w, [])
        else
          let '(w, limited, retryAfter, l) := post_all cfg (cAnswers c) 0 (zlen events) events 0 0 w in
          (if 0 <? limited then armBackoff (cDraw c) (cEnd c) retryAfter w else w, l)
    end.
Fixpoint Run (cs : list cycle) (w : Watcher) : Watcher * list (list (Event * answer)) :=
  match cs with [] => (w, []) | c :: cs => let '(w, l) := tick c w in let '(w, ls) := Run cs w in (w, l :: ls) end.
End watcher.

(** ** Written once *)

Definition sorted_events (l : list Event) : list Event := sort_by (fun a b => if eAt a =? eAt b then str_lt (eKind a) (eKind b) else eAt a <? eAt b) l.
Definition key_of (e : Event) : string := let '(kind, instance, detail) := decodeTags (eTags e) in dedupeKey kind instance detail (UnixMilli (eAt e)).

(** The extra tag the help text proposes: the key under which an event is marked has its
    value, the key under which it is looked up has not. *)
Definition demo_config (extra : list string) : Config := mkConfig (24 * 60 * Minute) extra [] 20.
Definition demo_now : Time := time_Unix 1700000000 0.
Definition demo_families : list family := [mkFamily BootMetric [mkMetric [(instanceLabel, "fw1")] (Some (Ratio.float64 1699999000)) None]].
Definition demo_cycle (minutes : Z) : cycle := let t := demo_now + minutes * Minute in mkCycle t t t (Some demo_families) (fun _ => Accepted) 0.
Example extra_tag_reposts : let w := reconcile (Some []) New in
  map (fun cfg => map (fun l => length l) (Run cfg sorted_events [demo_cycle 0; demo_cycle 1; demo_cycle 2] w).2) [demo_config []; demo_config ["prod"]; demo_config ["env:prod"]]
  = [[1; 0; 0]; [1; 0; 0]; [1; 1; 1]]%nat.
Proof. vm_compute. reflexivity. Qed.
(** Tags that come back in another order. *)
Example tag_order_matters : (decodeTags ["opnsense2otel"; "reboot"; "prod"]).1 = ("reboot", "") /\ (decodeTags ["opnsense2otel"; "prod"; "reboot"]).1 = ("prod", "").
Proof. split; vm_compute; reflexivity. Qed.
(** A delay of more seconds than a duration holds. *)
Example retry_after_overflows : parseRetryAfter (fun _ => None) "18446744074" 0 = 290448384.
Proof. vm_compute. reflexivity. Qed.
(** The ceiling bounds the wait before it is spread. *)
Example ceiling_exceeded : backoffUntil (armBackoff 360000000000 0 0 (New <| backoffStreak := 5 |>)) = 18 * Minute.
Proof. vm_compute. reflexivity. Qed.

Lemma prefix_has c s p : has c p = true -> has c s = false -> HasPrefix s p = false.
Proof.
  unfold HasPrefix. revert s. induction p as [|x p IH]; intros s Hp Hs; [done|]. destruct s as [|y s]; [done|]. cbn [String.prefix]. destruct (ascii_dec x y) as [<-|]; [|done].
  cbn [has] in Hp, Hs. apply orb_false_iff in Hs as [Hx Hs]. rewrite Hx in Hp. by apply IH.
Qed.
Lemma cut_without c s : has c s = false -> cut c s = (s, None).
Proof. induction s as [|x s IH]; intros H; [done|]. cbn [has cut] in *. apply orb_false_iff in H as [-> H]. by rewrite (IH H). Qed.

Lemma last_field c a b x y : has c x = false -> has c y = false -> a +:+ String c x = b +:+ String c y -> x = y.
Proof.
  intros Hx Hy. assert (forall s z, has c (s +:+ String c z) = true) as Hh.
  { clear. intros s z. induction s as [|d s IH]; rewrite ?str_app_nil_l, ?str_app_cons; cbn [has]; [|rewrite IH; apply orb_true_r]. by rewrite Ascii.eqb_refl. }
  revert b. induction a as [|d a IH]; intros [|d' b]; rewrite ?str_app_nil_l, ?str_app_cons; intros H; [by injection H|injection H as Hd H..].
  - rewrite H in Hx. by rewrite Hh in Hx.
  - rewrite <- H in Hy. by rewrite Hh in Hy.
  - by eapply IH.
Qed.

Section once.
Context (cfg : Config) (plain_extra : Forall (fun t => has ":" t = false) (ExtraTags cfg)).

Lemma decode_extra kind instance detail l : str_empty kind = false -> Forall (fun t => has ":" t = false) l -> fold_left decode_tag l (kind, instance, detail) = (kind, instance, detail).
Proof.
  intros Hk Hl. induction Hl as [|t l Ht _ IH]; [done|]. cbn [fold_left]. replace (decode_tag (kind, instance, detail) t) with (kind, instance, detail); [done|].
  unfold decode_tag. destruct (str_eq t BaseTag); [done|]. rewrite (prefix_has ":") by done. unfold tag_value. rewrite cut_without by done. cbn. by rewrite Hk.
Qed.

(** The tags of an event give back what it is about. *)
Lemma decode_tags w instance detail : w ∈ Watches -> (detail = [] \/ exists m, detail = detailValues w m) ->
  decodeTags (tags cfg w instance detail) = (Kind w, instance, List.filter (fun v => negb (str_empty v)) detail).
Proof.
  intros Hw Hd. unfold decodeTags, tags. rewrite !fold_left_app.
  assert (exists k v, (detail = [] \/ (LabelKeys w = [k] /\ detail = [v] /\ k ∈ ["interface"; "name"; "service"; "ruleset"; "feed"]))) as (k & v & Hcase).
  { destruct Hd as [-> |[m ->]]; [by exists "", ""; left|]. unfold detailValues. set (f := fun k => default "" (labelMap m !! k)).
    repeat (apply elem_of_cons in Hw as [-> |Hw]); [..|by apply not_elem_of_nil in Hw]; cbn [LabelKeys map]; try (by exists "", ""; left); eexists _, _; right; (split; [reflexivity|split; [reflexivity|set_solver]]). }
  assert (str_empty (Kind w) = false /\ decode_tag (decode_tag ("", "", []) BaseTag) (Kind w) = (Kind w, "", [])) as [Hk Hbase].
  { clear Hd Hcase. repeat (apply elem_of_cons in Hw as [-> |Hw]); [..|by apply not_elem_of_nil in Hw]; (split; vm_compute; reflexivity). }
  cbn [fold_left app]. rewrite Hbase.
  assert (fold_left decode_tag (if str_empty instance then [] else ["instance:" +:+ instance]) (Kind w, "", []) = (Kind w, instance, [])) as ->.
  { destruct (str_empty instance) eqn:E; [by destruct instance|]. cbn [fold_left]. unfold decode_tag. by rewrite HasPrefix_app. }
  assert (fold_left decode_tag (label_tags (LabelKeys w) detail) (Kind w, instance, []) = (Kind w, instance, List.filter (fun v => negb (str_empty v)) detail)) as ->.
  { destruct Hcase as [-> |(-> & -> & Hkey)]; [by destruct (LabelKeys w)|]. cbn [label_tags zip_with omap list_omap fst snd List.filter]. destruct (str_empty v) eqn:E; cbn [negb]; [done|].
    repeat (apply elem_of_cons in Hkey as [-> |Hkey]); [..|by apply not_elem_of_nil in Hkey]; reflexivity. }
  rewrite decode_extra by done. f_equal. destruct Hcase as [-> |(_ & -> & _)]; [done|]. cbn. by destruct (negb (str_empty v)).
Qed.

Lemma dedupe_nonempty kind instance detail m : (length detail <= 1)%nat -> dedupeKey kind instance (List.filter (fun v => negb (str_empty v)) detail) m = dedupeKey kind instance detail m.
Proof. destruct detail as [|v [|? ?]]; cbn; try lia; [done|]. intros _. destruct (str_empty v) eqn:E; [|done]. by destruct v. Qed.
Lemma watch_labels w : w ∈ Watches -> (length (LabelKeys w) <= 1)%nat.
Proof. intros Hw. repeat (apply elem_of_cons in Hw as [-> |Hw]); [..|by apply not_elem_of_nil in Hw]; cbn; lia. Qed.

Lemma key_series w m at_ : w ∈ Watches -> key_of (event_of cfg w m at_) = series_key w m at_.
Proof.
  intros Hw. unfold key_of, event_of, series_key. cbn [eTags eAt]. rewrite decode_tags by (by eauto). apply dedupe_nonempty. unfold detailValues. rewrite length_map. by apply watch_labels.
Qed.
Lemma milli_of m : UnixMilli (unix_epoch + m * Millisecond) = m.
Proof. unfold UnixMilli. replace (unix_epoch + m * Millisecond - unix_epoch) with (m * Millisecond) by lia. by apply Z.div_mul. Qed.
Lemma key_coalesced w instants millis : w ∈ Watches -> key_of (coalesced cfg w instants millis) = dedupeKey (Kind w) "" [] millis.
Proof. intros Hw. unfold key_of, coalesced. cbn [eTags eAt]. rewrite decode_tags by (by auto). by rewrite milli_of. Qed.
Lemma UnixMilli_mono a b : a <= b -> UnixMilli a <= UnixMilli b.
Proof. intros H. unfold UnixMilli. apply Z.div_le_mono; [done|lia]. Qed.

Lemma instant_window o oldest newest m t : instant o oldest newest m = Some t -> oldest <= t <= newest.
Proof.
  unfold instant. destruct (negb _); [done|]. destruct (match o with None => _ | Some _ => _ end); [|done]. destruct (_ || _) eqn:E; [done|]. intros [= <-]. apply orb_false_iff in E as [E1 E2]. apply Z.ltb_ge in E1, E2. lia.
Qed.

(** What a cycle proposes is not marked, and lies in the window. *)
Lemma detect_new s fs oldest newest w e : w ∈ Watches -> e ∈ detect_watch cfg s fs oldest newest w -> s !! key_of e = None /\ UnixMilli oldest <= UnixMilli (eAt e).
Proof.
  intros Hw. unfold detect_watch. destruct (negb _); [intros H; by apply not_elem_of_nil in H|]. destruct (byName fs (Metric w)) as [ms|]; [|intros H; by apply not_elem_of_nil in H].
  set (o := if str_empty (UptimeOffsetOf w) then _ else _). clearbody o. destruct (match o with Some _ => _ | None => _ end); [intros H; by apply not_elem_of_nil in H|]. destruct (Coalesce w).
  - unfold coalescedEvents. intros H. apply list_elem_of_fmap in H as (millis & -> & H). apply list_elem_of_In, filter_In in H as [H Hs]. apply negb_true_iff, bool_decide_eq_false, eq_None_not_Some in Hs.
    apply list_elem_of_In, elem_of_remove_dups, list_elem_of_fmap in H as (t & -> & Ht). apply list_elem_of_omap in Ht as (m & _ & Ht). apply instant_window in Ht. rewrite key_coalesced by done. split; [done|].
    cbn [coalesced eAt]. rewrite milli_of. apply UnixMilli_mono. lia.
  - intros H. apply list_elem_of_omap in H as (m & _ & H). destruct (instant o oldest newest m) as [t|] eqn:Et; [|done]. destruct (bool_decide _) eqn:Es; [done|]. injection H as <-.
    apply bool_decide_eq_false, eq_None_not_Some in Es. rewrite key_series by done. split; [done|]. apply instant_window in Et. apply UnixMilli_mono. cbn. lia.
Qed.

(** The number of a key is its last field. *)
Lemma Itoa_text z : 0 <= z -> exists c ds, Itoa z = String c ds /\ Json.isDigit c = true /\ Json.digits ds = true.
Proof.
  intros Hz. unfold Itoa, pretty, pretty_N. destruct (decide (Z.to_N z = 0%N)) as [E|E]; [by exists "0"%char, ""|]. destruct (Json.go_digits (Z.to_N z) "" ltac:(lia)) as (c & ds & -> & Hc & Hds & _).
  exists c, ds. by rewrite str_app_nil_r.
Qed.
Lemma digits_has ds : Json.digits ds = true -> has "|" ds = false.
Proof.
  induction ds as [|c ds IH]; [done|]. cbn [Json.digits has]. intros H. apply andb_true_iff in H as [Hc H]. rewrite (IH H), orb_false_r. apply Ascii.eqb_neq. intros ->. discriminate Hc.
Qed.
Lemma Itoa_bar z : 0 <= z -> has "|" (Itoa z) = false.
Proof. intros Hz. destruct (Itoa_text z Hz) as (c & ds & -> & Hc & Hds). apply (digits_has (String c ds)). cbn [Json.digits]. by rewrite Hc, Hds. Qed.
Lemma FormatInt_bar z : has "|" (FormatInt z) = false.
Proof. unfold FormatInt. destruct (Z.ltb_spec z 0); [|by apply Itoa_bar]. cbn [has String.append]. apply Itoa_bar. lia. Qed.
Lemma Itoa_sign a b : 0 <= a -> Itoa a <> "-" +:+ b.
Proof. intros Ha H. destruct (Itoa_text a Ha) as (c & ds & E & Hc & _). rewrite E in H. injection H as -> _. discriminate Hc. Qed.
Lemma FormatInt_inj a b : FormatInt a = FormatInt b -> a = b.
Proof.
  unfold FormatInt. destruct (Z.ltb_spec a 0), (Z.ltb_spec b 0); intros E.
  - injection E as E. apply FlowLog.Itoa_inj in E; lia.
  - exfalso. by eapply (Itoa_sign b); [|symmetry; exact E].
  - exfalso. by eapply (Itoa_sign a); [|exact E].
  - by apply FlowLog.Itoa_inj in E.
Qed.
Lemma dedupe_millis a b c m a' b' c' m' : dedupeKey a b c m = dedupeKey a' b' c' m' -> m = m'.
Proof.
  unfold dedupeKey. cbn [Join]. generalize (Join (String "031" "") c) as d, (Join (String "031" "") c') as d'. intros d d' E. apply FormatInt_inj.
  apply (last_field "|" (a +:+ "|" +:+ b +:+ "|" +:+ d) (a' +:+ "|" +:+ b' +:+ "|" +:+ d')); [apply FormatInt_bar..|]. rewrite !str_app_assoc. exact E.
Qed.

(** What is known to be written, or will never be: it is marked, or it has left the window. *)
Definition entry_ok (T : Time) (w : Watcher) (p : string * Z) : Prop :=
  (exists a b c, p.1 = dedupeKey a b c p.2) /\ (seen w !! p.1 = Some p.2 \/ p.2 < UnixMilli (T - Lookback cfg)).
Notation known_ok T w := (Forall (entry_ok T w)).
Definition settles (a : answer) : bool := match a with Accepted => true | Refused e => permanent e | Unreached => false end.
Definition entry_of (e : Event) : string * Z := (key_of e, UnixMilli (eAt e)).

Lemma entry_form e : exists a b c, key_of e = dedupeKey a b c (UnixMilli (eAt e)).
Proof. unfold key_of. destruct (decodeTags (eTags e)) as [[a b] c]. by eauto. Qed.
Lemma markSeen_seen e w : seen (markSeen e w) = <[key_of e := UnixMilli (eAt e)]> (seen w).
Proof. unfold markSeen, key_of. by destruct (decodeTags (eTags e)) as [[a b] c]. Qed.

Lemma marked_ok T (w w' : Watcher) k m S : (exists a b c, k = dedupeKey a b c m) -> seen w' = <[k := m]> (seen w) -> known_ok T w S -> known_ok T w' ((k, m) :: S).
Proof.
  intros Hk Hs H. constructor.
  - split; [done|]. left. cbn. by rewrite Hs, lookup_insert_eq.
  - eapply Forall_impl; [exact H|]. intros [k' m'] [Hf Hor]. split; [done|]. destruct Hor as [Hor|Hor]; [|by right]. left. cbn in *. rewrite Hs.
    destruct (decide (k' = k)) as [-> |Hn]; [|by rewrite lookup_insert_ne]. rewrite lookup_insert_eq. f_equal. destruct Hk as (a & b & c & ->), Hf as (a' & b' & c' & E). by apply dedupe_millis in E.
Qed.
Lemma same_seen T (w w' : Watcher) S : seen w' = seen w -> known_ok T w S -> known_ok T w' S.
Proof. intros Hs H. eapply Forall_impl; [exact H|]. intros p Hp. unfold entry_ok in *. by rewrite Hs. Qed.
Lemma prune_ok T now w S : T <= now -> known_ok T w S -> known_ok now (prune cfg now w) S.
Proof.
  intros HT H. eapply Forall_impl; [exact H|]. intros [k m] [Hf Hor]. split; [done|]. cbn in *. destruct (Z.lt_ge_cases m (UnixMilli (now - Lookback cfg))) as [|Hge]; [by right|]. left.
  destruct Hor as [Hor|Hor]; [|pose proof (UnixMilli_mono (T - Lookback cfg) (now - Lookback cfg)); lia]. apply map_lookup_filter_Some. by split.
Qed.
Lemma later_ok T T' w S : T <= T' -> known_ok T w S -> known_ok T' w S.
Proof.
  intros HT H. eapply Forall_impl; [exact H|]. intros [k m] [Hf [Hor|Hor]]; (split; [done|]); [by left|right]. cbn in *. pose proof (UnixMilli_mono (T - Lookback cfg) (T' - Lookback cfg)). lia.
Qed.

Lemma post_one_ok T e a limited ra w S : known_ok T w S ->
  known_ok T (post_one e a limited ra w).1.1 (if settles a then entry_of e :: S else S).
Proof.
  intros H. destruct a as [|err|]; cbn [post_one settles fst].
  - apply (marked_ok T w); [apply entry_form| |done]. cbn. apply markSeen_seen.
  - destruct (StatusCode err =? 429) eqn:E4; cbn [fst].
    + assert (permanent err = false) as -> by (unfold permanent; rewrite E4; cbn; by rewrite andb_false_r). by apply (same_seen T w).
    + destruct (permanent err); cbn [fst]; [|by apply (same_seen T w)]. apply (marked_ok T w); [apply entry_form| |done]. rewrite markSeen_seen. done.
  - by apply (same_seen T w).
Qed.

Definition settled_of (l : list (Event * answer)) : list (string * Z) := map (fun p => entry_of p.1) (List.filter (fun p => settles p.2) l).
Lemma post_all_ok T answers total events : forall i limited ra w S, known_ok T w S ->
  let '(w', _, _, l) := post_all cfg answers i total events limited ra w in known_ok T w' (rev (settled_of l) ++ S) /\ (forall e a, (e, a) ∈ l -> e ∈ events).
Proof.
  induction events as [|e events IH]; intros i limited ra w S H; cbn [post_all]; [split; [done|set_solver]|]. destruct (_ <=? _); [split; [by apply (same_seen T w)|set_solver]|].
  pose proof (post_one_ok T e (answers i) limited ra w S H) as H1. destruct (post_one e (answers i) limited ra w) as [[w1 limited1] ra1]. cbn [fst] in H1.
  specialize (IH (Datatypes.S i) limited1 ra1 w1 _ H1). destruct (post_all cfg answers (Datatypes.S i) total events limited1 ra1 w1) as [[[w2 l2] r2] l]. destruct IH as [IH1 IH2]. split.
  - unfold settled_of in *. cbn [List.filter snd]. destruct (settles (answers i)); [|done]. cbn [map rev]. by rewrite <- app_assoc.
  - intros e' a He. apply elem_of_cons in He as [[= -> ->]|He]; [by left|]. right. by eapply IH2.
Qed.

Context (arrange : list Event -> list Event) (arrange_perm : forall l, arrange l ≡ₚ l).

Lemma tick_ok T c w S : T <= cStart c -> cStart c <= cDetect c -> known_ok T w S ->
  let '(w', l) := tick cfg arrange c w in known_ok (cDetect c) w' (rev (settled_of l) ++ S) /\ forall e a, (e, a) ∈ l -> key_of e ∉ map fst S.
Proof.
  intros HT Hd H. unfold tick. pose proof (prune_ok T (cStart c) w S HT H) as Hp. set (w0 := prune cfg (cStart c) w) in *.
  assert (forall w1, seen w1 = seen w0 -> known_ok (cDetect c) w1 S) as Hquiet by (intros w1 E; eapply same_seen; [exact E|]; by eapply later_ok).
  destruct (cStart c <? backoffUntil w0); [split; [by apply Hquiet|set_solver]|]. destruct (cFamilies c) as [fs|]; [|split; [by apply Hquiet|set_solver]].
  destruct (negb (seeded w0) && _); [split; [by apply Hquiet|set_solver]|].
  set (events := detect cfg arrange (cDetect c) fs (seen w0)).
  assert (known_ok (cDetect c) (w0 <| seeded := true |>) S) as Hq by (by apply Hquiet).
  pose proof (post_all_ok (cDetect c) (cAnswers c) (zlen events) events 0 0 0 (w0 <| seeded := true |>) S Hq) as Ha. destruct (post_all _ _ _ _ _ _ _ _) as [[[w1 limited] ra] l].
  destruct Ha as [Ha Hl]. split; [destruct (0 <? limited); [by apply (same_seen _ w1)|done]|].
  intros e a He Hin. specialize (Hl e a He). unfold events, detect in Hl. rewrite arrange_perm in Hl. apply list_elem_of_bind in Hl as (v & Hl & Hv). apply (detect_new) in Hl as [Hnone Hwin]; [|done].
  apply list_elem_of_fmap in Hin as ([k m] & Hk & Hin). rewrite Forall_forall in Hp. destruct (Hp _ Hin) as [(x & y & z & Hf) Hor]. cbn [fst snd] in Hf, Hor, Hk.
  destruct (entry_form e) as (x' & y' & z' & He'). assert (m = UnixMilli (eAt e)) as -> by (eapply (dedupe_millis x y z _ x' y' z'); congruence).
  destruct Hor as [Hor|Hor]; [congruence|]. pose proof (UnixMilli_mono (cStart c - Lookback cfg) (cDetect c - Lookback cfg)). lia.
Qed.

Fixpoint in_time (T : Time) (cs : list cycle) : Prop := match cs with [] => True | c :: cs => T <= cStart c /\ cStart c <= cDetect c /\ in_time (cDetect c) cs end.

Lemma cycles_ok cs : forall T w S, in_time T cs -> known_ok T w S ->
  let '(_, ls) := Run cfg arrange cs w in
  (forall l e a, l ∈ ls -> (e, a) ∈ l -> key_of e ∉ map fst S)
  /\ forall i j li lj e a e' a', (i < j)%nat -> ls !! i = Some li -> ls !! j = Some lj -> (e, a) ∈ li -> settles a = true -> (e', a') ∈ lj -> key_of e <> key_of e'.
Proof.
  induction cs as [|c cs IH]; intros T w S Ht H; cbn [Run]; [split; set_solver|]. destruct Ht as (H1 & H2 & Ht). pose proof (tick_ok T c w S H1 H2 H) as Hk. destruct (tick cfg arrange c w) as [w1 l1].
  destruct Hk as [Hk Hl1]. specialize (IH (cDetect c) w1 _ Ht Hk). destruct (Run cfg arrange cs w1) as [w2 ls]. destruct IH as [IH1 IH2]. split.
  - intros l e a Hl He. apply elem_of_cons in Hl as [-> |Hl]; [by eapply Hl1|]. intros Hin. eapply IH1; [done..|]. rewrite map_app. apply elem_of_app. by right.
  - intros [|i] [|j] li lj e a e' a' Hij Hi Hj He Ha He'; cbn in Hi, Hj; [lia| |lia|eapply (IH2 i j); eauto; lia].
    injection Hi as <-. intros Heq. apply list_elem_of_lookup_2 in Hj. eapply (IH1 lj e' a'); [done..|]. rewrite map_app. apply elem_of_app. left. apply list_elem_of_fmap. exists (entry_of e). split; [by symmetry|].
    rewrite <- Permutation_rev. unfold settled_of. apply list_elem_of_fmap. exists (e, a). split; [done|]. apply list_elem_of_In, filter_In. split; [by apply list_elem_of_In|done].
Qed.

(** What was read back from Grafana at the start. *)
Definition found_keys (found : list (Z * list string)) : list (string * Z) :=
  omap (fun a => let '(kind, instance, detail) := decodeTags a.2 in if str_empty kind then None else Some (dedupeKey kind instance detail a.1, a.1)) found.
Lemma reconcile_ok T found : known_ok T (reconcile (Some found) New) (rev (found_keys found)).
Proof.
  unfold reconcile. apply (same_seen T (fold_left (fun w a => let '(kind, instance, detail) := decodeTags a.2 in
    if str_empty kind then w else w <| seen ::= <[dedupeKey kind instance detail a.1 := a.1]> |>) found New)); [done|].
  assert (forall w S, known_ok T w S -> known_ok T (fold_left (fun w a => let '(kind, instance, detail) := decodeTags a.2 in
    if str_empty kind then w else w <| seen ::= <[dedupeKey kind instance detail a.1 := a.1]> |>) found w) (rev (found_keys found) ++ S)) as Hgen.
  { induction found as [|[m tags] found IH]; intros w S H; [done|]. unfold found_keys. cbn [fold_left omap list_omap fst snd]. destruct (decodeTags tags) as [[kind instance] detail]. destruct (str_empty kind); [by apply IH|].
    cbn [rev]. rewrite <- app_assoc. apply IH. apply (marked_ok T w); [by eauto|done|done]. }
  specialize (Hgen New [] (Forall_nil_2 _)). by rewrite app_nil_r in Hgen.
Qed.
End once.


(** A cycle that may send sends the first of what it detected, up to the cap. *)
Lemma post_all_sends cfg answers total events : 0 <= MaxPerCycle cfg -> forall i limited ra w, let '(_, _, _, l) := post_all cfg answers i total events limited ra w in
  map fst l = take (Z.to_nat (MaxPerCycle cfg) - i) events.
Proof.
  intros Hm. induction events as [|e events IH]; intros i limited ra w; cbn [post_all]; [by rewrite take_nil|]. destruct (Z.leb_spec (MaxPerCycle cfg) (Z.of_nat i)).
  - by replace (Z.to_nat (MaxPerCycle cfg) - i)%nat with 0%nat by lia.
  - destruct (post_one e (answers i) limited ra w) as [[w1 l1] r1]. specialize (IH (S i) l1 r1 w1). destruct (post_all cfg answers (S i) total events l1 r1 w1) as [[[w2 l2] r2] l].
    replace (Z.to_nat (MaxPerCycle cfg) - i)%nat with (S (Z.to_nat (MaxPerCycle cfg) - S i)) by lia. cbn [map take fst]. by rewrite IH.
Qed.

(** ** Waiting *)

(** The wait after a rate limit is between a nanosecond and eighteen minutes: the ceiling and
    the spread. *)
Lemma jitter_bounds draw d : d ∈ [30; 60; 120; 240; 480; 900] -> 8 * (d * Second) <= 10 * jitter draw (d * Second) <= 12 * (d * Second).
Proof.
  intros H. unfold jitter.
  assert (to_int64 (SFmul 53 1024 (Ratio.float64 (d * Second)) backoffJitter) = d * Second / 5) as -> by (repeat (apply elem_of_cons in H as [-> |H]); [vm_compute; reflexivity..|by apply not_elem_of_nil in H]).
  assert (0 < d) by (repeat (apply elem_of_cons in H as [-> |H]); [lia..|by apply not_elem_of_nil in H]). assert (d * Second / 5 = d * 200000000) as -> by (symmetry; apply Z.div_unique_exact; unfold Second, Millisecond; lia).
  destruct (Z.leb_spec (d * 200000000) 0); [lia|]. pose proof (Z.mod_pos_bound draw (2 * (d * 200000000) + 1)). unfold Second, Millisecond. lia.
Qed.
Lemma ladder n : 1 <= n <= 6 -> exists d, Z.min (backoffBase * 2 ^ (n - 1)) backoffCeiling = d * Second /\ d ∈ [30; 60; 120; 240; 480; 900].
Proof.
  intros H. assert (n = 1 \/ n = 2 \/ n = 3 \/ n = 4 \/ n = 5 \/ n = 6) as Hn by lia.
  destruct Hn as [-> |[-> |[-> |[-> |[-> | ->]]]]]; [exists 30|exists 60|exists 120|exists 240|exists 480|exists 900]; (split; [vm_compute; reflexivity|set_solver]).
Qed.
Lemma parse_bounds ParseTime h now : 0 <= parseRetryAfter ParseTime h now <= backoffCeiling.
Proof.
  assert (forall d, 0 <= clampRetryAfter d <= backoffCeiling) as Hc by (intros d; unfold clampRetryAfter; destruct (Z.leb_spec d 0); [vm_compute; split; discriminate|]; unfold backoffCeiling, Minute, Second, Millisecond; destruct (Z.ltb_spec (15 * (60 * (1000 * 1000000))) d); lia).
  unfold parseRetryAfter. destruct (str_empty _); [vm_compute; split; discriminate|]. destruct (Otlp.Atoi _); [apply Hc|]. destruct (ParseTime _); [apply Hc|vm_compute; split; discriminate].
Qed.
Lemma wait_bounds draw now ra w : 0 <= backoffStreak w <= maxBackoffStreak -> 0 <= ra <= backoffCeiling -> now < backoffUntil (armBackoff draw now ra w) <= now + 18 * Minute.
Proof.
  intros Hs Hr. unfold armBackoff. cbn [backoffUntil]. unfold maxBackoffStreak in *. set (n := if backoffStreak w <? 6 then backoffStreak w + 1 else backoffStreak w).
  assert (1 <= n <= 6) as Hn by (unfold n; destruct (Z.ltb_spec (backoffStreak w) 6); lia). destruct (ladder n Hn) as (d & E & Hd). pose proof (jitter_bounds draw d Hd).
  assert (30 <= d <= 900) by (repeat (apply elem_of_cons in Hd as [-> |Hd]); [lia..|by apply not_elem_of_nil in Hd]).
  change (now < now + (if ra <=? 0 then jitter draw (Z.min (backoffBase * 2 ^ (n - 1)) backoffCeiling) else ra) <= now + 18 * Minute). rewrite E. clear E. unfold backoffCeiling, Minute, Second, Millisecond in *.
  destruct (Z.leb_spec ra 0); lia.
Qed.
End Annotations.
