(* ===== verification/ConfigState.v ===== *)
(** * Configuration snapshots ([logship/configsnapshot/source.go], [factory.go])

    Families of configuration entities, each shipped whole when its digest differs from the
    one last shipped, and again after a heartbeat.  SHA-256 is modelled as [crypto/sha256]
    computes it. *)

From stdpp Require Import base decidable list gmap strings sorting pretty.
From Stdlib Require Import ZArith Lia Ascii.
From S2P Require Import Prelude Order Netip GoStrings Envelope GoTime LogQueue OtlpSink Registry CommunityId FlowLog GoJson Sensitive Annotations.
Import Envelope Queue Json.

Module ConfigState.

(** ** SHA-256 *)

Definition rotr (n x : Z) : Z := Community.rotl (32 - n) x.
Definition primes (n : nat) : list Z :=
  take n (List.filter (fun p => forallb (fun d => negb (p mod Z.of_nat d =? 0)) (seq 2 (Z.to_nat p - 2))) (map Z.of_nat (seq 2 310))).
(** The integer cube root, from its highest bit. *)
Definition cube_root (n : Z) : Z :=
  fold_left (fun r i => let c := r + 2 ^ Z.of_nat i in if c * c * c <=? n then c else r) (rev (seq 0 36)) 0.
(** The first 32 bits of the fractions of the cube roots of the first primes, and of the
    square roots of the first of them. *)
Definition sha256_k : list Z := Eval vm_compute in map (fun p => u32 (cube_root (p * 2 ^ 96))) (primes 64).
Definition sha256_init : list Z := Eval vm_compute in map (fun p => u32 (Z.sqrt (p * 2 ^ 64))) (primes 8).
(** The message schedule, newest word first. *)
Fixpoint schedule256 (n : nat) (ws : list Z) : list Z :=
  match n with
  | O => ws
  | S n =>
      let at_ i := nth i ws 0 in
      let x := at_ 14%nat in
      let y := at_ 1%nat in
      let s0 := Z.lxor (Z.lxor (rotr 7 x) (rotr 18 x)) (Z.shiftr x 3) in
      let s1 := Z.lxor (Z.lxor (rotr 17 y) (rotr 19 y)) (Z.shiftr y 10) in
      schedule256 n (u32 (at_ 15%nat + s0 + at_ 6%nat + s1) :: ws)
  end.
Definition sha256_round (st : list Z) (wk : Z * Z) : list Z :=
  match st with
  | [a; b; c; d; e; f; g; h] =>
      let s1 := Z.lxor (Z.lxor (rotr 6 e) (rotr 11 e)) (rotr 25 e) in
      let ch := Z.lxor (Z.land e f) (Z.land (Z.lxor e 0xFFFFFFFF) g) in
      let t1 := u32 (h + s1 + ch + wk.2 + wk.1) in
      let s0 := Z.lxor (Z.lxor (rotr 2 a) (rotr 13 a)) (rotr 22 a) in
      let maj := Z.lxor (Z.lxor (Z.land a b) (Z.land a c)) (Z.land b c) in
      [u32 (t1 + (s0 + maj)); a; b; c; u32 (d + t1); e; f; g]
  | _ => st
  end.
Definition sha256_block (h : list Z) (block : list Z) : list Z :=
  zip_with (fun x y => u32 (x + y)) h (fold_left sha256_round (zip (rev (schedule256 48 (rev (Community.words block)))) sha256_k) h).
Fixpoint sha256_blocks (n : nat) (h m : list Z) : list Z := match n with O => h | S n => sha256_blocks n (sha256_block h (take 64 m)) (drop 64 m) end.
Definition Sum256 (m : list Z) : list Z :=
  let p := Community.sha_pad m in
  sha256_blocks (length p / 64) sha256_init p ≫= be_bytes 4.
Definition hex_byte (b : Z) : string := String (Netip.hex_digit (b / 16)) (String (Netip.hex_digit (b mod 16)) "").
(** [hex.EncodeToString(sha256.Sum256(s))] *)
Definition digest (s : string) : string := foldr (fun b acc => hex_byte b +:+ acc) "" (Sum256 (map (fun c => Z.of_nat (nat_of_ascii c)) (String.list_ascii_of_string s))).
Example digest_abc : digest "abc" = "ba7816bf8f01cfea414140de5dae2223b00361a396177a9cb410ff61f20015ad".
Proof. vm_compute. reflexivity. Qed.
Example digest_empty : digest "" = "e3b0c44298fc1c149afbf4c8996fb92427ae41e4649b934ca495991b7852b855".
Proof. vm_compute. reflexivity. Qed.

(** ** Families *)

Definition sourceName : string := "configstate".
Definition subsystem : string := "config".
Definition schema : string := "opnsense.config.snapshot.v1".
Definition heartbeat : Duration := 6 * (60 * Minute).
Definition maxBodyBytes : Z := 196608.
Definition stateSchema : Z := 1.

(** An entity with the value that is shipped and the one that is compared, which differ
    only for a value with [snapshotCanonicalValue]. *)
Record Entity := mkEntity { eID : string; eValue : json; eCanonical : json }.
Record familyState := mkFamilyState { Hash : string; LastEmittedAt : Time }.
Definition source : Type := gmap string familyState.
Definition newSource : source := ∅.

(** A provider at a poll: its family, its heartbeat when it has its own, and what its
    snapshot comes to. *)
Record provider := mkProvider { pFamily : string; pHeartbeat : option Duration; pSnapshot : option (list Entity) }.
Definition providerHeartbeat (p : provider) : Duration := match pHeartbeat p with Some d => if 0 <? d then d else heartbeat | None => heartbeat end.

Definition envelope (family id : string) (value : json) : json :=
  JObj [("schema", JStr schema); ("family", JStr family); ("entity_id", JStr id); ("entity", value); ("truncated", JBool false)].
Definition normalBody (family id : string) (value : json) : string := print (envelope family id value).
Definition recordBody (family : string) (e : Entity) : string * bool :=
  let body := normalBody family (eID e) (eValue e) in
  if slen body <=? maxBodyBytes then (body, false)
  else (print (JObj [("schema", JStr schema); ("family", JStr family); ("entity_id", JStr (eID e)); ("entity", JNull); ("truncated", JBool true);
                     ("original_bytes", JInt (slen body)); ("content_sha256", JStr (digest body))]), true).

(** The length, a colon and the body of each. *)
Definition delimited (body : string) : string := Itoa (slen body) +:+ String ":" body.
Definition stream (family : string) (l : list Entity) : string := foldr (fun e acc => delimited (normalBody family (eID e) (eCanonical e)) +:+ acc) "" l.
Fixpoint repeats (l : list Entity) : bool := match l with a :: (b :: _) as l => str_eq (eID a) (eID b) || repeats l | _ => false end.
Definition by_id (a b : Entity) : bool := str_lt (eID a) (eID b).
(** [canonicalEntities]; [None] when an identity is there twice. *)
Definition canonicalEntities (family : string) (l : list Entity) : option (list Entity * string) :=
  let ordered := sort_by by_id l in if repeats ordered then None else Some (ordered, stream family ordered).

(** ** The source *)

Record batch := mkBatch { bID : string; bFamily : string; bReason : string; bAt : Time; bEntities : list Entity }.
Definition batch_record (b : batch) (i : nat) (e : Entity) : LogRecord :=
  let '(body, truncated) := recordBody (bFamily b) e in
  let attrs := list_to_map [(Otlp.AttrSubsystem, subsystem); ("snapshot.id", bID b); ("snapshot.seq", Itoa (Z.of_nat i + 1)); ("snapshot.total", Itoa (zlen (bEntities b)));
                            ("snapshot.family", bFamily b); ("snapshot.reason", bReason b); ("snapshot.entity_id", eID e)] in
  mkLog zero_time body (if truncated then <["snapshot.truncated" := "true"]> attrs else attrs) SeverityInfo "".
Definition batch_records (b : batch) : list LogRecord := imap (batch_record b) (bEntities b).

Section poll.
(** The identities drawn for batches. *)
Context (newID : nat -> string) (now : Time).

(** One provider: [None] is an error. *)
Definition poll_provider (p : provider) (s : source) (n : nat) : option (list batch * source) :=
  match pSnapshot p with
  | None => None
  | Some entities =>
      match canonicalEntities (pFamily p) entities with
      | None => None
      | Some (ordered, canonical) =>
          let hash := digest canonical in
          let emit reason := Some ([mkBatch (newID n) (pFamily p) reason now ordered], <[pFamily p := mkFamilyState hash now]> s) in
          match s !! pFamily p with
          | Some previous =>
              if str_eq (Hash previous) hash then if time_Sub now (LastEmittedAt previous) <? providerHeartbeat p then Some ([], s) else emit "heartbeat"
              else emit "change"
          | None => emit "change"
          end
      end
  end.
Fixpoint poll_providers (ps : list provider) (s : source) (n : nat) : option (list batch * source) :=
  match ps with
  | [] => Some ([], s)
  | p :: ps =>
      match poll_provider p s n with
      | None => None
      | Some (b, s) => match poll_providers ps s (n + length b) with None => None | Some (bs, s) => Some (b ++ bs, s) end
      end
  end.
(** Nothing is kept of a poll that fails. *)
Definition Poll (ps : list provider) (s : source) : option (list LogRecord) * source :=
  match poll_providers ps s 0 with None => (None, s) | Some (bs, s) => (Some (bs ≫= batch_records), s) end.
End poll.

(** The state file: the families, and the blobs of the providers that keep their own. *)
Record persistedState := mkPersisted { pSchema : Z; pFamilies : option (gmap string familyState); pProviders : option (gmap string string) }.
Definition Valid (s : string) : bool := match parse_value (2 * S (String.length s)) 0 s with Some (_, rest) => str_empty (skip_ws rest) | None => false end.
Definition LoadState (data : option persistedState) (s : source) : source :=
  match data with Some st => if pSchema st =? stateSchema then default s (pFamilies st) else s | None => s end.
(** The blob a provider of a family is given back. *)
Definition loadProviderState (data : option persistedState) (family : string) : option string :=
  match data with
  | Some st => if (pSchema st =? stateSchema) && bool_decide (is_Some (pFamilies st)) then match pProviders st with Some m => m !! family | None => None end else None
  | None => None
  end.
Definition SaveState (blobs : list (string * option string)) (s : source) : option persistedState :=
  if bool_decide (s = ∅) then None
  else if negb (forallb (fun p => match p.2 with Some b => Valid b | None => true end) blobs) then None
  else
    let m : gmap string string := list_to_map (rev (omap (fun p => match p.2 with Some b => Some (p.1, b) | None => None end) blobs)) in
    Some (mkPersisted stateSchema (Some s) (if bool_decide (m = ∅) then None else Some m)).

(** ** The firewall's rules as a family *)

Definition firewall_kinds : list string := ["filter_rule"; "source_nat"; "d_nat"; "one_to_one"; "npt"].
(** [FetchFirewallConfigSnapshots], with the rows each endpoint answers, [None] being a
    call that failed. *)
Definition FetchFirewallConfigSnapshots (rows : string -> option (list string)) : option (list Sensitive.ConfigSnapshotEntity) :=
  foldr (fun kind acc =>
    match rows kind with
    | None => None
    | Some l => match Sensitive.configSnapshotRows kind l with inl _ => None | inr es => option_map (app es) acc end
    end) (Some []) firewall_kinds.
Definition firewall_entity (e : Sensitive.ConfigSnapshotEntity) : Entity :=
  let value := JObj [("config", Sensitive.eConfig e); ("kind", JStr (Sensitive.eKind e))] in mkEntity (Sensitive.eKind e +:+ ":" +:+ Sensitive.eID e) value value.
Definition firewallProvider (rows : string -> option (list string)) : provider :=
  mkProvider "firewall" None (option_map (map firewall_entity) (FetchFirewallConfigSnapshots rows)).

Example repeated_ids : map (fun ids => bool_decide (is_Some (canonicalEntities "f" (map (fun i => mkEntity i JNull JNull) ids)))) [["b"; "a"; "c"]; ["b"; "a"; "b"]; []] = [true; false; true].
Proof. vm_compute. reflexivity. Qed.

(** ** The stream tells its entities apart *)

Lemma Itoa_colon z : 0 <= z -> has ":" (Itoa z) = false.
Proof.
  intros Hz. destruct (Annotations.Itoa_text z Hz) as (c & ds & -> & Hc & Hds).
  assert (forall s, digits s = true -> has ":" s = false) as H.
  { clear. induction s as [|x s IH]; [done|]. cbn [digits has]. intros H. apply andb_true_iff in H as [Hx H]. rewrite (IH H), orb_false_r. apply Ascii.eqb_neq. intros ->. discriminate Hx. }
  apply H. cbn [digits]. by rewrite Hc, Hds.
Qed.
Lemma app_same_length a b x y : String.length a = String.length b -> a +:+ x = b +:+ y -> a = b /\ x = y.
Proof.
  revert b. induction a as [|c a IH]; intros [|d b] Hl; cbn in Hl; try discriminate; [done|]. rewrite !str_app_cons. intros [= -> H]. destruct (IH b) as [-> ->]; [by injection Hl|done..].
Qed.
Lemma slen_pos s : 0 <= slen s.
Proof. unfold slen. lia. Qed.
Lemma delimited_inj a b x y : delimited a +:+ x = delimited b +:+ y -> a = b /\ x = y.
Proof.
  unfold delimited. rewrite !str_app_assoc, !str_app_cons. intros E. pose proof (cut_app ":" (Itoa (slen a)) (a +:+ x) (Itoa_colon _ (slen_pos a))) as H1.
  pose proof (cut_app ":" (Itoa (slen b)) (b +:+ y) (Itoa_colon _ (slen_pos b))) as H2. rewrite E, H2 in H1. injection H1 as Hn Hr. apply FlowLog.Itoa_inj in Hn; [|apply slen_pos..].
  apply app_same_length in Hr as [-> ->]; [done|]. unfold slen in Hn. lia.
Qed.

(** Numbers are integers, and the nesting is within what the decoder takes. *)
Definition ok_entity (e : Entity) : Prop := ints (eCanonical e) /\ 1 + nesting (eCanonical e) <= maxNestingDepth.
Definition content (e : Entity) : string * json := (coerce (eID e), valid_json (eCanonical e)).

Lemma nesting_pos v : 0 <= nesting v.
Proof. destruct v as [| | | |l|l]; cbn [nesting]; try lia; induction l as [|x l IH]; cbn [foldr] in *; lia. Qed.
Lemma body_inj family e e' : ok_entity e -> ok_entity e' -> normalBody family (eID e) (eCanonical e) = normalBody family (eID e') (eCanonical e') -> content e = content e'.
Proof.
  assert (forall e, ok_entity e -> decode (normalBody family (eID e) (eCanonical e)) = Some (valid_json (envelope family (eID e) (eCanonical e)))) as Hd.
  { clear. intros e [Hi Hn]. apply decode_print; [by repeat split|]. cbn [envelope nesting foldr snd]. pose proof (nesting_pos (eCanonical e)). lia. }
  intros H1 H2 E. apply Hd in H1, H2. rewrite E, H2 in H1. unfold content. cbn in H1. injection H1 as H3 H4. by rewrite H3, H4.
Qed.
Lemma stream_inj family l : forall l', Forall ok_entity l -> Forall ok_entity l' -> stream family l = stream family l' -> map content l = map content l'.
Proof.
  assert (forall e (l : list Entity), stream family (e :: l) <> "") as Hne.
  { clear. intros e l H. cbn [stream foldr] in H. unfold delimited in H. rewrite str_app_assoc in H. destruct (Itoa (slen (normalBody family (eID e) (eCanonical e)))); discriminate H. }
  induction l as [|e l IH]; intros [|e' l'] Hl Hl' E; [done|by symmetry in E; apply Hne in E|by apply Hne in E|]. inversion_clear Hl as [|? ? He Hl0]. inversion_clear Hl' as [|? ? He' Hl0'].
  cbn [stream foldr] in E. apply delimited_inj in E as [E1 E2]. cbn [map]. f_equal; [by apply (body_inj family)|by apply IH].
Qed.

(** ** What was shipped last is what is there *)

Inductive step := PollAt (now : Time) (newID : nat -> string) (ps : list provider) | Restart (blobs : list (string * option string)).
Definition batches_of (st : step) (s : source) : list batch := match st with PollAt now newID ps => match poll_providers newID now ps s 0 with Some (bs, _) => bs | None => [] end | Restart _ => [] end.
Definition do_step (st : step) (s : source) : list LogRecord * source :=
  match st with PollAt now newID ps => let '(out, s) := Poll newID now ps s in (default [] out, s) | Restart blobs => ([], LoadState (SaveState blobs s) newSource) end.
Fixpoint run (l : list step) (s : source) : list LogRecord * source :=
  match l with [] => ([], s) | st :: l => let '(r, s) := do_step st s in let '(rs, s) := run l s in (r ++ rs, s) end.
Definition last_of (f : string) (log : list batch) : option batch := last (List.filter (fun b => str_eq (bFamily b) f) log).

(** The cursor of a family describes its last batch. *)
Definition told (log : list batch) (s : source) : Prop :=
  forall f st, s !! f = Some st -> exists b, last_of f log = Some b /\ digest (stream f (bEntities b)) = Hash st /\ bAt b = LastEmittedAt st /\ Forall ok_entity (bEntities b).

Lemma cursor_eq (s : source) f st : <[f := st]> s !! f = Some st.
Proof. exact (lookup_insert_eq (M := gmap string) s f st). Qed.
Lemma cursor_ne (s : source) f f' st : f' <> f -> <[f := st]> s !! f' = s !! f'.
Proof. intros H. exact (lookup_insert_ne (M := gmap string) s f f' st (not_eq_sym H)). Qed.
Lemma last_of_snoc f log b : last_of f (log ++ [b]) = if str_eq (bFamily b) f then Some b else last_of f log.
Proof. unfold last_of. rewrite List.filter_app. cbn [List.filter]. destruct (str_eq (bFamily b) f); [by rewrite last_snoc|by rewrite app_nil_r]. Qed.

Definition ok_provider (p : provider) : Prop := match pSnapshot p with Some l => Forall ok_entity l | None => True end.

Lemma canonical_spec f l ordered c : canonicalEntities f l = Some (ordered, c) -> c = stream f ordered /\ ordered ≡ₚ l.
Proof. unfold canonicalEntities. destruct (repeats _); [done|]. intros [= <- <-]. split; [done|apply sort_by_perm]. Qed.

Lemma heartbeat_pos p : 0 < providerHeartbeat p.
Proof. unfold providerHeartbeat. destruct (pHeartbeat p) as [d|]; [destruct (Z.ltb_spec 0 d); [done|]|]; vm_compute; reflexivity. Qed.

(** A provider's family after its turn: its last batch has the digest of what is there and
    is not older than its heartbeat. *)
Definition fresh_at (now : Time) (log : list batch) (p : provider) : Prop :=
  exists entities ordered c b, pSnapshot p = Some entities /\ canonicalEntities (pFamily p) entities = Some (ordered, c)
    /\ last_of (pFamily p) log = Some b /\ digest (stream (pFamily p) (bEntities b)) = digest c /\ time_Sub now (bAt b) < providerHeartbeat p /\ Forall ok_entity (bEntities b).

Lemma provider_step newID now p s n log : told log s -> ok_provider p ->
  match poll_provider newID now p s n with
  | Some (bs, s') => told (log ++ bs) s' /\ fresh_at now (log ++ bs) p /\ Forall (fun b => bFamily b = pFamily p) bs
  | None => True
  end.
Proof.
  intros Ht Hp. unfold poll_provider. unfold ok_provider in Hp. destruct (pSnapshot p) as [entities|] eqn:Es; [|done]. destruct (canonicalEntities (pFamily p) entities) as [[ordered c]|] eqn:Ec; [|done].
  destruct (canonical_spec _ _ _ _ Ec) as [Hc Hperm]. assert (Forall ok_entity ordered) as Hord by (by rewrite Hperm).
  assert (forall reason, told (log ++ [mkBatch (newID n) (pFamily p) reason now ordered]) (<[pFamily p := mkFamilyState (digest c) now]> s)
     /\ fresh_at now (log ++ [mkBatch (newID n) (pFamily p) reason now ordered]) p /\ Forall (fun b => bFamily b = pFamily p) [mkBatch (newID n) (pFamily p) reason now ordered]) as Hemit.
  { intros reason. set (b := mkBatch _ _ _ _ _). assert (last_of (pFamily p) (log ++ [b]) = Some b) as Hl by (rewrite last_of_snoc; cbn; unfold str_eq; by rewrite String.eqb_refl). split; [|split].
    - intros f st Hf. destruct (decide (f = pFamily p)) as [-> |Hn].
      + rewrite cursor_eq in Hf. injection Hf as <-. exists b. cbn. by rewrite Hc.
      + rewrite cursor_ne in Hf by done. rewrite last_of_snoc. unfold str_eq. cbn [bFamily b]. rewrite (proj2 (String.eqb_neq (pFamily p) f)) by done. by apply Ht.
    - exists entities, ordered, c, b. do 3 (split; [done|]). cbn. rewrite Hc. split; [done|]. split; [|done]. unfold time_Sub. rewrite Z.sub_diag. exact (heartbeat_pos p).
    - by repeat constructor. }
  destruct (s !! pFamily p) as [previous|] eqn:Ep; [|apply Hemit]. destruct (str_eq (Hash previous) (digest c)) eqn:Eh; [|apply Hemit]. destruct (Z.ltb_spec (time_Sub now (LastEmittedAt previous)) (providerHeartbeat p)); [|apply Hemit].
  rewrite app_nil_r. split; [done|]. split; [|constructor]. destruct (Ht _ _ Ep) as (b & Hb & Hd & Hat & Hok). exists entities, ordered, c, b. do 3 (split; [done|]). apply String.eqb_eq in Eh. rewrite Hd, Hat. done.
Qed.

Lemma last_of_other f log bs : Forall (fun b => bFamily b <> f) bs -> last_of f (log ++ bs) = last_of f log.
Proof.
  intros H. unfold last_of. rewrite List.filter_app. assert (List.filter (fun b => str_eq (bFamily b) f) bs = []) as -> by (induction H as [|b bs Hb _ IH]; [done|]; cbn; unfold str_eq in *; by rewrite (proj2 (String.eqb_neq _ _) Hb)).
  by rewrite app_nil_r.
Qed.

Lemma providers_step newID now ps : forall s n log, told log s -> Forall ok_provider ps ->
  match poll_providers newID now ps s n with
  | Some (bs, s') => told (log ++ bs) s' /\ (NoDup (map pFamily ps) -> Forall (fresh_at now (log ++ bs)) ps) /\ Forall (fun b => bFamily b ∈ map pFamily ps) bs
  | None => True
  end.
Proof.
  induction ps as [|p ps IH]; intros s n log Ht Hok; cbn [poll_providers]; [by rewrite app_nil_r|]. inversion_clear Hok as [|? ? Hp Hps]. pose proof (provider_step newID now p s n log Ht Hp) as H1.
  destruct (poll_provider newID now p s n) as [[b s1]|]; [|done]. destruct H1 as (Ht1 & Hf1 & Hb1). specialize (IH s1 (n + length b)%nat (log ++ b) Ht1 Hps).
  destruct (poll_providers newID now ps s1 (n + length b)) as [[bs s2]|]; [|done]. destruct IH as (Ht2 & Hf2 & Hb2). rewrite <- app_assoc in *. split; [done|]. split.
  - intros Hd. cbn [map] in Hd. apply NoDup_cons in Hd as [Hn Hd]. constructor; [|by apply Hf2]. destruct Hf1 as (entities & ordered & c & bb & H1 & H2 & H3 & H4). exists entities, ordered, c, bb. do 2 (split; [done|]). split; [|done].
    rewrite app_assoc, last_of_other; [done|]. eapply Forall_impl; [exact Hb2|]. intros x Hx Heq. apply Hn. rewrite <- Heq. exact Hx.
  - apply Forall_app. split; (eapply Forall_impl; [eassumption|]); cbn [map]; intros x Hx; cbv beta in Hx; [rewrite Hx; by left|by right].
Qed.

Definition ok_step (st : step) : Prop := match st with PollAt _ _ ps => Forall ok_provider ps | Restart _ => True end.
Lemma restart_told log blobs s : told log s -> told log (LoadState (SaveState blobs s) newSource).
Proof. intros H. unfold SaveState. destruct (bool_decide _); [done|]. destruct (negb _); [done|]. exact H. Qed.
Lemma run_told l : forall log s, Forall ok_step l -> told log s -> exists new, (run l s).1 = new ≫= batch_records /\ told (log ++ new) (run l s).2.
Proof.
  induction l as [|st l IH]; intros log s Hok Ht; [exists []; by rewrite app_nil_r|]. inversion_clear Hok as [|? ? Hst Hl]. destruct st as [now newID ps|blobs]; cbn [run do_step].
  - unfold Poll. pose proof (providers_step newID now ps s 0 log Ht Hst) as H. destruct (poll_providers newID now ps s 0) as [[bs s1]|].
    + destruct H as (Ht1 & _). destruct (IH _ s1 Hl Ht1) as (new & Hr & Hn). destruct (run l s1) as [rs s2]. cbn [fst snd default] in *. exists (bs ++ new). rewrite Hr, bind_app. by rewrite app_assoc.
    + destruct (IH _ s Hl Ht) as (new & Hr & Hn). destruct (run l s) as [rs s2]. cbn [fst snd default app] in *. by exists new.
  - destruct (IH _ _ Hl (restart_told log blobs s Ht)) as (new & Hr & Hn). destruct (run l _) as [rs s2]. cbn [fst snd app] in *. by exists new.
Qed.

Definition collision (a b : string) : Prop := a <> b /\ digest a = digest b.


Definition demo_provider (descr : string) : provider := mkProvider "firewall" None (Some [mkEntity "filter_rule:1" (JStr descr) (JStr descr)]).
Definition demo_life : list step := [PollAt 0 (fun _ => "a") [demo_provider "x"]; Restart []; PollAt Minute (fun _ => "b") [mkProvider "firewall" None None]; PollAt (2 * Minute) (fun _ => "c") [demo_provider "y"]].

(** Nothing of the firewall's rules that is shipped lies under a name of the vocabulary. *)
Lemma firewall_clean rows es e p : FetchFirewallConfigSnapshots rows = Some es -> e ∈ es -> existsb Sensitive.secret_hop p = true ->
  Sensitive.at_path p (eValue (firewall_entity e)) = None.
Proof.
  intros Hf He Hp. assert (exists v, Sensitive.eConfig e = Sensitive.redact v) as [v Hv].
  { revert es Hf He. unfold FetchFirewallConfigSnapshots. induction firewall_kinds as [|k ks IH]; cbn [foldr]; intros es Hf He; [injection Hf as <-; by apply not_elem_of_nil in He|].
    destruct (rows k) as [l|]; [|done]. destruct (Sensitive.configSnapshotRows k l) as [err|es1] eqn:Er; [done|]. destruct (foldr _ (Some []) ks) as [es2|]; [|done]. injection Hf as <-.
    apply elem_of_app in He as [He|He]; [|by apply (IH es2)]. unfold Sensitive.configSnapshotRows in Er. destruct (Sensitive.all_rows Sensitive.decode_row l) as [|decoded] eqn:Ed; [done|].
    apply Sensitive.all_rows_spec in Ed, Er. apply list_elem_of_lookup in He as [i Hi]. destruct (Forall2_lookup_r _ _ _ _ _ Er Hi) as (d & Hd & He). apply Sensitive.entity_of_config in He as [-> _].
    destruct (Forall2_lookup_r _ _ _ _ _ Ed Hd) as (row & _ & Hrow). unfold Sensitive.decode_row in Hrow. destruct (decode row) as [[| | | | |m]|]; try done. destruct (Sensitive.string_member _ _); [|done]. injection Hrow as <-. exists (Sensitive.any_of (JObj m)). reflexivity. }
  destruct p as [|h p]; [done|]. cbn [Sensitive.at_path firewall_entity eValue]. rewrite Hv. destruct h as [k|i]; [|done]. cbn [Sensitive.hop_in Sensitive.member List.find fst snd].
  cbn [existsb Sensitive.secret_hop] in Hp. destruct (str_eq "config" k) eqn:Ek.
  - apply String.eqb_eq in Ek. subst k. cbn [fmap option_fmap option_map snd]. rewrite Sensitive.redact_path. replace (Sensitive.SensitiveConfigKey "config") with false in Hp by (vm_compute; reflexivity). cbn [orb] in Hp. by rewrite Hp.
  - destruct (str_eq "kind" k) eqn:Ek'; [|done]. apply String.eqb_eq in Ek'. subst k. cbn [fmap option_fmap option_map snd]. replace (Sensitive.SensitiveConfigKey "kind") with false in Hp by (vm_compute; reflexivity).
    cbn [orb] in Hp. destruct p as [|h p]; [done|]. by destruct h.
Qed.
End ConfigState.
