(* ===== verification/DeviceInventory.v ===== *)
(** * The device inventory ([logship/configsnapshot/device_inventory.go])

    Rows of the neighbour tables, of the DHCP servers, of host discovery and of LLDP are
    fused into devices: by MAC, else by chassis identity, else by an address that only one
    device has.  The provider marks the devices it has not committed before. *)

From stdpp Require Import base decidable list gmap strings sorting.
From Stdlib Require Import ZArith Lia Ascii.
From S2P Require Import Prelude Order Netip GoStrings GoTime GoJson Sensitive ConfigState.
Import Json.

Module DeviceInventory.

(** ** Observations *)

Record DeviceInventoryObservation := mkObservation {
  Source : string; Identity : string; MAC : string; IP : string; Hostname : string; Interface : string; FirstSeen : string; LastSeen : string; Vendor : string }.
Record normalizedObservation := mkNormalized {
  nSource : string; nIdentity : string; nMac : string; nIp : string; nHostname : string; nInterface : string; nFirst : option Time; nLast : option Time; nVendor : string }.

(** [net.ParseMAC] for addresses of six bytes: pairs separated by colons or by dashes, or
    groups of four separated by dots. *)
Fixpoint hex_pairs (sep : ascii) (s : string) : option (list Z) :=
  match s with
  | String a (String b rest) =>
      match hex_value a, hex_value b with
      | Some x, Some y =>
          match rest with
          | EmptyString => Some [16 * x + y]
          | String c rest => if Ascii.eqb c sep then option_map (cons (16 * x + y)) (hex_pairs sep rest) else None
          end
      | _, _ => None
      end
  | _ => None
  end.
Fixpoint undot (s : string) : option string :=
  match s with
  | String a (String b (String c (String d rest))) =>
      let here := fun t => String a (String b (String ":" (String c (String d t)))) in
      match rest with
      | EmptyString => Some (here "")
      | String "."%char rest => option_map (fun t => here (String ":" t)) (undot rest)
      | _ => None
      end
  | _ => None
  end.
Definition ParseMAC6 (s : string) : option (list Z) :=
  match String.get 2 s, String.get 4 s with
  | Some c, Some c' =>
      if Ascii.eqb c ":" || Ascii.eqb c "-" then if (String.length s =? 17)%nat then hex_pairs c s else None
      else if Ascii.eqb c' "." then if (String.length s =? 14)%nat then match undot s with Some t => hex_pairs ":" t | None => None end else None
      else None
  | _, _ => None
  end.
Fixpoint mac_String (l : list Z) : string :=
  match l with [] => "" | [b] => ConfigState.hex_byte b | b :: l => ConfigState.hex_byte b +:+ ":" +:+ mac_String l end.
Example mac_forms : map (fun s => option_map mac_String (ParseMAC6 s)) ["00:1A:2b:3c:4d:5e"; "00-1a-2b-3c-4d-5e"; "001a.2b3c.4d5e"; "00:1a:2b:3c:4d"; "(incomplete)"; "00:1a-2b:3c:4d:5e"; "001a.2b3c.4d5g"]
  = [Some "00:1a:2b:3c:4d:5e"; Some "00:1a:2b:3c:4d:5e"; Some "00:1a:2b:3c:4d:5e"; None; None; None; None].
Proof. vm_compute. reflexivity. Qed.

Section fusion.
(** [strings.ToLower] *)
Context (ToLower : string -> string).

Definition normalizeIdentity (value : string) : string := ToLower (TrimSpace value).
Definition normalizeMAC (value : string) : string :=
  let value := TrimSpace value in if str_empty value then "" else match ParseMAC6 value with Some mac => mac_String mac | None => "" end.
Definition without_zone (a : Addr) : Addr := match a with Addr6 v _ => Addr6 v "" | a => a end.
Definition normalizeIP (value : string) : string := match ParseAddr (TrimSpace value) with Some a => addr_String (without_zone (Unmap a)) | None => "" end.
Definition parseInventoryTimestamp (value : string) : option Time := let value := TrimSpace value in if str_empty value then None else GoTime.ParseRFC3339 value.
Definition normalizeObservation (o : DeviceInventoryObservation) : option normalizedObservation :=
  let n := mkNormalized (ToLower (TrimSpace (Source o))) (normalizeIdentity (Identity o)) (normalizeMAC (MAC o)) (normalizeIP (IP o)) (TrimSpace (Hostname o)) (TrimSpace (Interface o))
             (parseInventoryTimestamp (FirstSeen o)) (parseInventoryTimestamp (LastSeen o)) (TrimSpace (Vendor o)) in
  if str_empty (nMac n) && str_empty (nIp n) && str_empty (nIdentity n) then None else Some n.

Definition sourcePriority (source : string) : Z :=
  if str_eq source "arp" then 10 else if str_eq source "ndp" then 20
  else if existsb (str_eq source) ["kea4"; "kea6"; "dnsmasq"; "dhcpv4"; "dhcpv6"] then 30
  else if str_eq source "hostdiscovery" then 40 else if str_eq source "lldp" then 50 else 100.

(** ** Devices *)

Record preferredString := mkPreferred { value : string; priority : Z }.
Definition set (v : string) (p : Z) (cur : preferredString) : preferredString :=
  let v := TrimSpace v in
  if str_empty v then cur
  else if str_empty (value cur) || (p <? priority cur) || ((p =? priority cur) && str_lt v (value cur)) then mkPreferred v p else cur.
Definition choosePreferred (left right : preferredString) : preferredString :=
  if str_empty (value left) then right
  else if str_empty (value right) then left
  else if (priority right <? priority left) || ((priority right =? priority left) && str_lt (value right) (value left)) then right else left.

Record fusedDevice := mkDevice {
  mac : string; ips : gset string; identities : gset string; interfaces : gset string; hostname : preferredString; vendor : preferredString; firstSeen : option Time; lastSeen : option Time }.
Definition emptyDevice : fusedDevice := mkDevice "" ∅ ∅ ∅ (mkPreferred "" 0) (mkPreferred "" 0) None None.
Definition earliest (a b : option Time) : option Time := match a, b with Some x, Some y => Some (if y <? x then y else x) | None, b => b | a, None => a end.
Definition latest (a b : option Time) : option Time := match a, b with Some x, Some y => Some (if x <? y then y else x) | None, b => b | a, None => a end.
Definition add_nonempty (s : string) (l : gset string) : gset string := if str_empty s then l else {[s]} ∪ l.

(** [absorb] and [merge] on the devices they change. *)
Definition absorb_device (o : normalizedObservation) (d : fusedDevice) : fusedDevice :=
  let p := sourcePriority (nSource o) in
  mkDevice (if negb (str_empty (nMac o)) && str_empty (mac d) then nMac o else mac d) (add_nonempty (nIp o) (ips d)) (add_nonempty (nIdentity o) (identities d))
    (add_nonempty (nInterface o) (interfaces d)) (set (nHostname o) p (hostname d)) (set (nVendor o) p (vendor d)) (earliest (firstSeen d) (nFirst o)) (latest (lastSeen d) (nLast o)).
Definition merge_device (left right : fusedDevice) : fusedDevice :=
  mkDevice (if str_empty (mac left) then mac right else mac left) (ips right ∪ ips left) (identities right ∪ identities left) (interfaces right ∪ interfaces left)
    (choosePreferred (hostname left) (hostname right)) (choosePreferred (vendor left) (vendor right)) (earliest (firstSeen left) (firstSeen right)) (latest (lastSeen left) (lastSeen right)).

(** ** The builder

    Slots of devices, emptied by a merge.  The indices are what [reindex], which ends every
    change, makes of the slots: of several devices of a key, the last. *)
Notation slots := (list (option fusedDevice)).
Definition holds (P : fusedDevice -> bool) (b : slots) (i : nat) : bool := match b !! i with Some (Some d) => P d | _ => false end.
Definition where_ (P : fusedDevice -> bool) (b : slots) : list nat := List.filter (holds P b) (seq 0 (length b)).
Definition mac_index (b : slots) (m : string) : option nat := last (where_ (fun d => str_eq (mac d) m) b).
Definition identity_index (b : slots) (id : string) : option nat := last (where_ (fun d => bool_decide (id ∈ identities d)) b).
Definition ipCandidates (b : slots) (ip : string) : list nat := where_ (fun d => bool_decide (ip ∈ ips d)) b.
Definition mac_at (b : slots) (i : nat) : string := match b !! i with Some (Some d) => mac d | _ => "" end.

Definition joinable (b : slots) (o : normalizedObservation) (i : nat) : bool := str_empty (nMac o) || str_empty (mac_at b i) || str_eq (mac_at b i) (nMac o).
Definition by_ip (b : slots) (o : normalizedObservation) : list nat :=
  if str_empty (nIp o) then [] else match ipCandidates b (nIp o) with [i] => if joinable b o i then [i] else [] | _ => [] end.
Definition by_identity (b : slots) (o : normalizedObservation) : list nat :=
  if str_empty (nIdentity o) then by_ip b o
  else match identity_index b (nIdentity o) with Some i => if joinable b o i then [i] else by_ip b o | None => by_ip b o end.
Definition matches (b : slots) (o : normalizedObservation) : list nat :=
  if str_empty (nMac o) then by_identity b o
  else match mac_index b (nMac o) with
       | Some i => i :: List.filter (fun c => negb (c =? i)%nat && str_empty (mac_at b c)) (ipCandidates b (nIp o))
       | None => by_identity b o
       end.

Definition merge (b : slots) (first second : nat) : slots * nat :=
  if (first =? second)%nat then (b, first)
  else
    let '(first, second) := if (second <? first)%nat then (second, first) else (first, second) in
    match b !! second, b !! first with
    | Some (Some r), Some (Some l) => (<[second := None]> (<[first := Some (merge_device l r)]> b), first)
    | _, _ => (b, first)
    end.
Definition merge_all (b : slots) (index : nat) (others : list nat) : slots * nat :=
  fold_left (fun acc other => let '(b, i) := acc in if (other =? i)%nat then acc else merge b i other) others (b, index).
Definition absorb (b : slots) (i : nat) (o : normalizedObservation) : slots := match b !! i with Some (Some d) => <[i := Some (absorb_device o d)]> b | _ => b end.
Definition add (b : slots) (o : normalizedObservation) : slots :=
  match matches b o with
  | [] => b ++ [Some (absorb_device o emptyDevice)]
  | i :: others => let '(b, i) := merge_all b i others in absorb b i o
  end.

(** ** The inventory *)

Record DeviceInventoryRecord := mkRecord {
  rMAC : string; rIPs : list string; rHostname : string; rInterface : string; rFirstSeen : string; rLastSeen : string; rVendor : string; rNewDevice : bool }.
(** [MarshalJSON]: a map, in the order of its names. *)
Definition record_json (r : DeviceInventoryRecord) : json :=
  let fields := [("first_seen", JStr (rFirstSeen r)); ("hostname", JStr (rHostname r)); ("interface", JStr (rInterface r)); ("ips", JArr (map JStr (rIPs r))); ("last_seen", JStr (rLastSeen r));
                 ("mac", JStr (rMAC r)); ("new_device", JBool (rNewDevice r)); ("vendor", JStr (rVendor r))] in
  JObj (List.filter (fun p => negb (Sensitive.SensitiveConfigKey p.1)) fields).

Definition iface_lt (a b : string) : bool := if str_eq a "unknown" then false else if str_eq b "unknown" then true else str_lt a b.
Definition sorted_set (l : gset string) : list string := sort_by str_lt (elements l).
Definition device_id (d : fusedDevice) : string :=
  if negb (str_empty (mac d)) then "mac:" +:+ mac d
  else match sorted_set (ips d), sorted_set (identities d) with
       | ip :: _, _ => "ip:" +:+ ip
       | [], id :: _ => "identity:" +:+ id
       | [], [] => ""
       end.
Definition device_record (d : fusedDevice) : DeviceInventoryRecord :=
  mkRecord (mac d) (sorted_set (ips d)) (value (hostname d)) (default "" (head (sort_by iface_lt (elements (interfaces d))))) (match firstSeen d with Some t => GoTime.FormatRFC3339Nano t | None => "" end)
    (match lastSeen d with Some t => GoTime.FormatRFC3339Nano t | None => "" end) (value (vendor d)) false.
Definition result (b : slots) : list (string * DeviceInventoryRecord) :=
  sort_by (fun x y => str_lt x.1 y.1) (omap (fun s => match s with Some d => if str_empty (device_id d) then None else Some (device_id d, device_record d) | None => None end) b).
Definition build (l : list normalizedObservation) : slots := fold_left add l [].
Definition fuseDeviceInventory (l : list DeviceInventoryObservation) : list (string * DeviceInventoryRecord) := result (build (omap normalizeObservation l)).
End fusion.
Notation slots := (list (option fusedDevice)).

(** ** The provider *)

Definition deviceInventoryFamily : string := "device_inventory".
Record deviceInventoryProvider := mkProvider { seen : gset string; pending : gset string }.
Definition newDeviceInventoryProvider : deviceInventoryProvider := mkProvider ∅ ∅.
Definition device_entity (seen : gset string) (d : string * DeviceInventoryRecord) : ConfigState.Entity :=
  let r := d.2 in
  let with_flag new := record_json (mkRecord (rMAC r) (rIPs r) (rHostname r) (rInterface r) (rFirstSeen r) (rLastSeen r) (rVendor r) new) in
  ConfigState.mkEntity d.1 (with_flag (negb (bool_decide (d.1 ∈ seen)))) (with_flag false).
(** [Snapshot]: [None] when the rows could not be fetched. *)
Definition Snapshot (ToLower : string -> string) (fetched : option (list DeviceInventoryObservation)) (p : deviceInventoryProvider) : option (list ConfigState.Entity) * deviceInventoryProvider :=
  match fetched with
  | None => (None, p)
  | Some l => let fused := fuseDeviceInventory ToLower l in (Some (map (device_entity (seen p)) fused), mkProvider (seen p) (list_to_set (map fst fused)))
  end.
Definition CommitSnapshot (p : deviceInventoryProvider) : deviceInventoryProvider := mkProvider (pending p ∪ seen p) ∅.
(** The identities of the state file; [None] when they do not decode. *)
Definition LoadState (data : option (list string)) (p : deviceInventoryProvider) : deviceInventoryProvider :=
  match data with Some ids => if existsb str_empty ids then p else mkProvider (list_to_set ids) ∅ | None => p end.
Definition SaveState (p : deviceInventoryProvider) : option (list string) := if bool_decide (seen p = ∅) then None else Some (sort_by str_lt (elements (seen p))).

(** ** The rows *)

(** An answer of the API: rows, or the status of its error. *)
Inductive api (A : Type) := Rows (l : list A) | Failed (status : Z).
Arguments Rows {A} l.
Arguments Failed {A} status.
Record neighborRow := mkNeighbor { nbMac : string; nbIP : string; nbHostname : string; nbIntfDescription : string; nbDevice : string; nbManufacturer : string }.
Record leaseRow := mkLease { lsHWAddr : string; lsAddress : string; lsHostname : string; lsIfDescr : string; lsVendor : string }.
Record hostRow := mkHost { hsMAC : string; hsIP : string; hsInterface : string; hsFirstSeen : string; hsLastSeen : string; hsVendor : string }.
Record lldpRow := mkLldp { ChassisMAC : string; ChassisName : string; LInterface : string; PortID : string; PortDescr : string; MgmtIPs : list string }.
Record inventoryAPI := mkAPI {
  FetchArpTable : api neighborRow; FetchNDPTable : api neighborRow; FetchKeaLeases4 : api leaseRow; FetchKeaLeases6 : api leaseRow; FetchDnsmasqLeases : api leaseRow;
  FetchDHCPv4Leases : api leaseRow; dhcp4Present : bool; FetchDHCPv6Leases : api leaseRow; FetchHostDiscovery : list hostRow * option Z; FetchLLDPNeighbors : api lldpRow }.

Definition firstNonEmptyInventory (values : list string) : string := default "" (List.find (fun v => negb (str_empty v)) (map TrimSpace values)).
Definition isOptionalInventory404 (status : Z) : bool := status =? 404.
Definition required {A B} (r : api A) (f : A -> list B) : option (list B) := match r with Rows l => Some (l ≫= f) | Failed _ => None end.
Definition optional {A B} (r : api A) (f : A -> list B) : option (list B) := match r with Rows l => Some (l ≫= f) | Failed s => if isOptionalInventory404 s then Some [] else None end.
Definition neighbor_obs (source : string) (row : neighborRow) : DeviceInventoryObservation :=
  mkObservation source "" (nbMac row) (nbIP row) (if str_eq source "arp" then nbHostname row else "") (firstNonEmptyInventory [nbIntfDescription row; nbDevice row]) "" "" (nbManufacturer row).
Definition lease_obs (source : string) (row : leaseRow) : DeviceInventoryObservation := mkObservation source "" (lsHWAddr row) (lsAddress row) (lsHostname row) (lsIfDescr row) "" "" (lsVendor row).
Definition dhcp4_obs (row : leaseRow) : DeviceInventoryObservation := mkObservation "dhcpv4" "" (lsHWAddr row) (lsAddress row) (lsHostname row) (lsIfDescr row) "" "" "".
Definition dhcp6_obs (row : leaseRow) : DeviceInventoryObservation := mkObservation "dhcpv6" "" (lsHWAddr row) (lsAddress row) "" (lsIfDescr row) "" "" "".
Definition host_obs (row : hostRow) : DeviceInventoryObservation := mkObservation "hostdiscovery" "" (hsMAC row) (hsIP row) "" (hsInterface row) (hsFirstSeen row) (hsLastSeen row) (hsVendor row).
Section collect.
Context (ToLower : string -> string).
Definition lldpIdentity (n : lldpRow) : string :=
  let mac := normalizeMAC (ChassisMAC n) in
  let name := ToLower (TrimSpace (ChassisName n)) in
  if negb (str_empty mac) then "lldp:mac:" +:+ mac
  else if negb (str_empty name) then "lldp:name:" +:+ name
  else "lldp:interface:" +:+ ToLower (TrimSpace (LInterface n)) +:+ ":port:" +:+ ToLower (TrimSpace (PortID n)) +:+ ":description:" +:+ ToLower (TrimSpace (PortDescr n)).
Definition lldp_obs (row : lldpRow) : list DeviceInventoryObservation :=
  let obs ip := mkObservation "lldp" (lldpIdentity row) (ChassisMAC row) ip (ChassisName row) (LInterface row) "" "" "" in
  match MgmtIPs row with [] => [obs ""] | ips => map obs ips end.
Definition collectDeviceInventory (a : inventoryAPI) : option (list DeviceInventoryObservation) :=
  arps ← required (FetchArpTable a) (fun r => [neighbor_obs "arp" r]);
  ndp ← required (FetchNDPTable a) (fun r => [neighbor_obs "ndp" r]);
  kea4 ← optional (FetchKeaLeases4 a) (fun r => [lease_obs "kea4" r]);
  kea6 ← optional (FetchKeaLeases6 a) (fun r => [lease_obs "kea6" r]);
  dnsmasq ← optional (FetchDnsmasqLeases a) (fun r => [lease_obs "dnsmasq" r]);
  dhcp4 ← optional (FetchDHCPv4Leases a) (fun r => if dhcp4Present a then [dhcp4_obs r] else []);
  dhcp6 ← optional (FetchDHCPv6Leases a) (fun r => [dhcp6_obs r]);
  hosts ← (match (FetchHostDiscovery a).2 with Some s => if isOptionalInventory404 s then Some (map host_obs (FetchHostDiscovery a).1) else None | None => Some (map host_obs (FetchHostDiscovery a).1) end);
  lldp ← optional (FetchLLDPNeighbors a) lldp_obs;
  Some (arps ++ ndp ++ kea4 ++ kea6 ++ dnsmasq ++ dhcp4 ++ dhcp6 ++ hosts ++ lldp).
End collect.

(** An address two neighbours claim, with two rows that have no MAC: the rows without a MAC
    join neither a claimant nor each other, and two devices get the identity of the
    address, which the source refuses. *)
Definition shared_address : inventoryAPI :=
  mkAPI (Rows [mkNeighbor "00:00:00:00:00:01" "10.0.0.9" "" "lan" "" ""; mkNeighbor "00:00:00:00:00:02" "10.0.0.9" "" "lan" "" ""]) (Rows [])
    (Rows [mkLease "" "10.0.0.9" "a" "lan" ""]) (Failed 404) (Rows [mkLease "" "10.0.0.9" "b" "lan" ""]) (Failed 404) false (Failed 404) ([], Some 404) (Failed 404).
Example shared_address_ids : option_map (fun l => map fst (fuseDeviceInventory id l)) (collectDeviceInventory id shared_address)
  = Some ["ip:10.0.0.9"; "ip:10.0.0.9"; "mac:00:00:00:00:00:01"; "mac:00:00:00:00:00:02"].
Proof. vm_compute. reflexivity. Qed.
Example shared_address_stalls : let '(entities, _) := Snapshot id (collectDeviceInventory id shared_address) newDeviceInventoryProvider in
  ConfigState.Poll (fun _ => "") 0 [ConfigState.mkProvider "firewall" None (Some []); ConfigState.mkProvider deviceInventoryFamily None entities] ConfigState.newSource = (None, ConfigState.newSource).
Proof. vm_compute. reflexivity. Qed.

(** ** What a device is

    A device describes a group of observations: their one MAC, their addresses, identities
    and interfaces, the preferred name and vendor, the earliest and the latest time. *)

Definition better (p q : preferredString) : bool := (priority p <? priority q) || ((priority p =? priority q) && str_lt (value p) (value q)).
Definition candidates (f : normalizedObservation -> string) (g : list normalizedObservation) : list preferredString :=
  omap (fun o => let v := TrimSpace (f o) in if str_empty v then None else Some (mkPreferred v (sourcePriority (nSource o)))) g.
(** The best of some candidates, or nothing. *)
Definition best (cur : preferredString) (l : list preferredString) : Prop :=
  (str_empty (value cur) = true /\ l = []) \/ (str_empty (value cur) = false /\ cur ∈ l /\ Forall (fun q => better q cur = false) l).
Definition texts (f : normalizedObservation -> string) (g : list normalizedObservation) (l : gset string) : Prop := forall x, x ∈ l <-> x <> "" /\ x ∈ map f g.
Definition extreme (lt : Time -> Time -> bool) (cur : option Time) (l : list Time) : Prop :=
  match cur with None => l = [] | Some t => t ∈ l /\ Forall (fun u => lt u t = false) l end.
Record describes (d : fusedDevice) (g : list normalizedObservation) : Prop := {
  d_mac : Forall (fun o => nMac o = "" \/ nMac o = mac d) g;
  d_mac_from : mac d = "" \/ mac d ∈ map nMac g;
  d_ips : texts nIp g (ips d);
  d_identities : texts nIdentity g (identities d);
  d_interfaces : texts nInterface g (interfaces d);
  d_hostname : best (hostname d) (candidates nHostname g);
  d_vendor : best (vendor d) (candidates nVendor g);
  d_first : extreme Z.ltb (firstSeen d) (omap nFirst g);
  d_last : extreme (fun a b => b <? a) (lastSeen d) (omap nLast g) }.

Lemma better_trans p q r : better q p = false -> better r q = false -> better r p = false.
Proof.
  unfold better. rewrite !orb_false_iff, !andb_false_iff, !Z.ltb_ge, !Z.eqb_neq. intros [H1 H2] [H3 H4]. split; [lia|].
  destruct (Z.eq_dec (priority r) (priority p)); [|by left]. destruct H2 as [H2|H2]; [lia|]. destruct H4 as [H4|H4]; [lia|]. right. eapply (lt_negtrans (lt := str_lt)); eauto.
Qed.
Lemma better_asym p q : better p q = true -> better q p = false.
Proof.
  unfold better. rewrite orb_true_iff, orb_false_iff, andb_true_iff, andb_false_iff, Z.ltb_lt, Z.ltb_ge, Z.eqb_eq, Z.eqb_neq. intros [H|[H1 H2]]; [split; [lia|left; lia]|]. split; [lia|]. right. by apply (lt_asym (lt := str_lt)).
Qed.
Lemma better_irrefl p : better p p = false.
Proof. destruct (better p p) eqn:E; [|done]. apply better_asym in E as E'. congruence. Qed.

Lemma choose_best a b l l' : best a l -> best b l' -> best (choosePreferred a b) (l ++ l').
Proof.
  unfold choosePreferred. intros [[Ha ->]|(Ha & Hin & Hall)] Hb; rewrite Ha; [done|].
  destruct Hb as [[Hb ->]|(Hb & Hin' & Hall')]; rewrite Hb; [rewrite app_nil_r; by right|]. right. fold (better b a). destruct (better b a) eqn:E.
  - split; [done|]. split; [apply elem_of_app; by right|]. apply Forall_app. split; [|done]. eapply Forall_impl; [exact Hall|]. intros q Hq. eapply better_trans; [by apply better_asym|done].
  - split; [done|]. split; [apply elem_of_app; by left|]. apply Forall_app. split; [done|]. eapply Forall_impl; [exact Hall'|]. intros q Hq. by eapply better_trans.
Qed.
Lemma set_best cur l v p : best cur l -> best (set v p cur) ((if str_empty (TrimSpace v) then [] else [mkPreferred (TrimSpace v) p]) ++ l).
Proof.
  intros H. unfold set. destruct (str_empty (TrimSpace v)) eqn:Ev; [done|].
  assert (best (mkPreferred (TrimSpace v) p) [mkPreferred (TrimSpace v) p]) as Hn by (right; split; [done|]; split; [left|]; repeat constructor; apply better_irrefl).
  pose proof (choose_best cur (mkPreferred (TrimSpace v) p) l [_] H Hn) as Hc. assert (l ++ [mkPreferred (TrimSpace v) p] ≡ₚ [mkPreferred (TrimSpace v) p] ++ l) as Hperm by apply Permutation_app_comm.
  assert (forall c, best c (l ++ [mkPreferred (TrimSpace v) p]) -> best c ([mkPreferred (TrimSpace v) p] ++ l)) as Hmove.
  { intros c [[_ Hnil]|(H1 & H2 & H3)]; [by destruct l|]. right. split; [done|]. by rewrite <- Hperm. }
  apply Hmove. unfold choosePreferred in Hc. destruct (str_empty (value cur)) eqn:Ec; cbn [orb]; [done|]. cbn [value] in Hc. rewrite Ev in Hc. exact Hc.
Qed.

Lemma texts_add f o g l : texts f g l -> texts f (o :: g) (add_nonempty (f o) l).
Proof.
  intros H x. unfold add_nonempty. destruct (str_empty (f o)) eqn:E.
  - assert (f o = "") by (by destruct (f o)). rewrite (H x). cbn [map]. set_solver.
  - assert (f o <> "") by (by destruct (f o)). rewrite elem_of_union, (H x). cbn [map]. set_solver.
Qed.
Lemma texts_union f g g' l l' : texts f g l -> texts f g' l' -> texts f (g ++ g') (l' ∪ l).
Proof. intros H H' x. rewrite elem_of_union, (H x), (H' x), map_app, elem_of_app. tauto. Qed.

Lemma earliest_extreme a b l l' : extreme Z.ltb a l -> extreme Z.ltb b l' -> extreme Z.ltb (earliest a b) (l ++ l').
Proof.
  destruct a as [x|], b as [y|]; cbn; [|intros H ->; by rewrite app_nil_r|intros ->; done|intros -> ->; done]. intros [Hx Hl] [Hy Hl']. rewrite Forall_forall in Hl, Hl'.
  destruct (Z.ltb_spec y x); (split; [apply elem_of_app; auto|]); apply Forall_forall; intros u Hu; apply Z.ltb_ge; apply elem_of_app in Hu as [Hu|Hu]; [apply Hl in Hu|apply Hl' in Hu|apply Hl in Hu|apply Hl' in Hu]; apply Z.ltb_ge in Hu; lia.
Qed.
Lemma latest_extreme a b l l' : extreme (fun a b => b <? a) a l -> extreme (fun a b => b <? a) b l' -> extreme (fun a b => b <? a) (latest a b) (l ++ l').
Proof.
  destruct a as [x|], b as [y|]; cbn; [|intros H ->; by rewrite app_nil_r|intros ->; done|intros -> ->; done]. intros [Hx Hl] [Hy Hl']. rewrite Forall_forall in Hl, Hl'.
  destruct (Z.ltb_spec x y); (split; [apply elem_of_app; auto|]); apply Forall_forall; intros u Hu; apply Z.ltb_ge; apply elem_of_app in Hu as [Hu|Hu]; [apply Hl in Hu|apply Hl' in Hu|apply Hl in Hu|apply Hl' in Hu]; apply Z.ltb_ge in Hu; lia.
Qed.
Lemma extreme_perm lt cur l l' : l ≡ₚ l' -> extreme lt cur l -> extreme lt cur l'.
Proof. destruct cur as [t|]; cbn; [intros Hp [H1 H2]; split; by rewrite <- Hp|]. intros Hp ->. by apply Permutation_nil. Qed.

Lemma str_empty_iff s : str_empty s = true <-> s = "".
Proof. by destruct s. Qed.
Lemma str_empty_false s : str_empty s = false <-> s <> "".
Proof. by destruct s. Qed.

Lemma describes_empty : describes emptyDevice [].
Proof. split; cbn; auto; try (intros x; set_solver); by left. Qed.

Lemma absorb_describes o d g : describes d g -> nMac o = "" \/ mac d = "" \/ mac d = nMac o -> describes (absorb_device o d) (o :: g).
Proof.
  intros [H1 H2 H3 H4 H5 H6 H7 H8 H9] Hc. split; cbn [absorb_device mac ips identities interfaces hostname vendor firstSeen lastSeen]; try by apply texts_add.
  - set (m := if negb (str_empty (nMac o)) && str_empty (mac d) then nMac o else mac d). assert (m = mac d \/ (mac d = "" /\ m = nMac o)) as Hm.
    { unfold m. destruct (str_empty (nMac o)) eqn:E1; cbn; [by left|]. destruct (str_empty (mac d)) eqn:E2; [right|by left]. by apply str_empty_iff in E2. }
    assert (nMac o <> "" -> m = nMac o) as Hom.
    { intros Hne. unfold m. rewrite (proj2 (str_empty_false _) Hne). cbn. destruct (str_empty (mac d)) eqn:E2; [done|]. apply str_empty_false in E2. destruct Hc as [Hc|[Hc|Hc]]; congruence. }
    constructor; [destruct (decide (nMac o = "")); [by left|right; symmetry; by apply Hom]|]. eapply Forall_impl; [exact H1|]. intros o' [Ho|Ho]; [by left|]. destruct Hm as [-> |[Hm ->]]; [by right|left; congruence].
  - destruct (negb (str_empty (nMac o)) && str_empty (mac d)); [right; cbn; left|]. destruct H2 as [H2|H2]; [by left|right; cbn; by right].
  - assert (candidates nHostname (o :: g) = (if str_empty (TrimSpace (nHostname o)) then [] else [mkPreferred (TrimSpace (nHostname o)) (sourcePriority (nSource o))]) ++ candidates nHostname g) as ->
      by (unfold candidates; cbn; by destruct (str_empty _)). by apply set_best.
  - assert (candidates nVendor (o :: g) = (if str_empty (TrimSpace (nVendor o)) then [] else [mkPreferred (TrimSpace (nVendor o)) (sourcePriority (nSource o))]) ++ candidates nVendor g) as ->
      by (unfold candidates; cbn; by destruct (str_empty _)). by apply set_best.
  - apply (extreme_perm _ _ (omap nFirst g ++ omap nFirst [o])); [rewrite Permutation_app_comm; cbn; by destruct (nFirst o)|]. apply earliest_extreme; [done|]. cbn. destruct (nFirst o); cbn; [|done]. split; [left|]. repeat constructor. apply Z.ltb_irrefl.
  - apply (extreme_perm _ _ (omap nLast g ++ omap nLast [o])); [rewrite Permutation_app_comm; cbn; by destruct (nLast o)|]. apply latest_extreme; [done|]. cbn. destruct (nLast o); cbn; [|done]. split; [left|]. repeat constructor. apply Z.ltb_irrefl.
Qed.

Lemma merge_describes d d' g g' : describes d g -> describes d' g' -> mac d = "" \/ mac d' = "" -> describes (merge_device d d') (g ++ g').
Proof.
  intros [H1 H2 H3 H4 H5 H6 H7 H8 H9] [K1 K2 K3 K4 K5 K6 K7 K8 K9] Hm. split; cbn [merge_device mac ips identities interfaces hostname vendor firstSeen lastSeen]; try by apply texts_union.
  - apply Forall_app. split; [eapply Forall_impl; [exact H1|]|eapply Forall_impl; [exact K1|]]; intros o [Ho|Ho]; try (by left); destruct (str_empty (mac d)) eqn:E; try (by right); [apply str_empty_iff in E; left; congruence|].
    apply str_empty_false in E. left. destruct Hm; congruence.
  - rewrite map_app. destruct (str_empty (mac d)); [destruct K2 as [K2|K2]; [by left|right; apply elem_of_app; by right]|destruct H2 as [H2|H2]; [by left|right; apply elem_of_app; by left]].
  - unfold candidates. rewrite omap_app. by apply choose_best.
  - unfold candidates. rewrite omap_app. by apply choose_best.
  - rewrite omap_app. by apply earliest_extreme.
  - rewrite omap_app. by apply latest_extreme.
Qed.

Lemma describes_perm d g g' : g ≡ₚ g' -> describes d g -> describes d g'.
Proof.
  intros Hp [H1 H2 H3 H4 H5 H6 H7 H8 H9].
  assert (forall f l, texts f g l -> texts f g' l) as Ht by (intros f l H x; rewrite (H x); by rewrite Hp).
  assert (forall f c, best c (candidates f g) -> best c (candidates f g')) as Hb.
  { intros f c. assert (candidates f g ≡ₚ candidates f g') as Hc by (unfold candidates; by rewrite Hp). intros [[H Hn]|(H & Hin & Hall)]; [left|right; by rewrite <- Hc]. split; [done|]. rewrite Hn in Hc. by apply Permutation_nil. }
  split; auto; [by rewrite <- Hp|by rewrite <- Hp|eapply extreme_perm; [|done]; by rewrite Hp..].
Qed.

(** ** The groups *)

Notation group := (list normalizedObservation).
Definition slot_ok (s : option fusedDevice) (g : group) : Prop := match s with None => g = [] | Some d => describes d g /\ g <> [] end.
Definition separate (b : slots) : Prop := forall i j d d', b !! i = Some (Some d) -> b !! j = Some (Some d') -> mac d = mac d' -> mac d <> "" -> i = j.
(** The slots fuse the observations [l]: they are dealt into groups, one for each device,
    and no two devices have one MAC. *)
Definition fused (b : slots) (l : group) : Prop := separate b /\ exists gs : list group, Forall2 slot_ok b gs /\ concat gs ≡ₚ l.

Lemma concat_hole {A} (gs : list (list A)) i g : gs !! i = Some g -> concat gs ≡ₚ g ++ concat (<[i := []]> gs).
Proof.
  revert i. induction gs as [|g' gs IH]; intros [|i] H; [done..| |]; cbn in *; [by injection H as ->|]. rewrite (IH _ H), !app_assoc. apply Permutation_app_tail, Permutation_app_comm.
Qed.
Lemma concat_insert {A} (gs : list (list A)) i g : (i < length gs)%nat -> concat (<[i := g]> gs) ≡ₚ g ++ concat (<[i := []]> gs).
Proof. intros H. rewrite (concat_hole (<[i := g]> gs) i g) by (by apply list_lookup_insert_eq). by rewrite list_insert_insert_eq. Qed.

Lemma where_spec P b i : i ∈ where_ P b <-> exists d, b !! i = Some (Some d) /\ P d = true.
Proof.
  unfold where_, holds. rewrite list_elem_of_In, filter_In, <- list_elem_of_In, elem_of_seq. split.
  - intros [_ H]. destruct (b !! i) as [[d|]|]; [by exists d|done..].
  - intros (d & Hd & HP). rewrite Hd. split; [|done]. apply lookup_lt_Some in Hd. lia.
Qed.
Lemma where_nodup P b : NoDup (where_ P b).
Proof. unfold where_. apply NoDup_ListNoDup, List.NoDup_filter, NoDup_ListNoDup, NoDup_seq. Qed.
Lemma last_found {A} (l : list A) x : last l = Some x -> x ∈ l.
Proof. apply last_Some_elem_of. Qed.
Lemma mac_index_some b m i : mac_index b m = Some i -> exists d, b !! i = Some (Some d) /\ mac d = m.
Proof. intros H. apply last_found, where_spec in H as (d & Hd & E). exists d. split; [done|]. by apply String.eqb_eq. Qed.
Lemma mac_index_none b m i d : mac_index b m = None -> b !! i = Some (Some d) -> mac d <> m.
Proof.
  intros H Hd E. apply last_None in H. assert (i ∈ where_ (fun d => str_eq (mac d) m) b) as Hin by (apply where_spec; exists d; split; [done|by apply String.eqb_eq]). rewrite H in Hin. by apply not_elem_of_nil in Hin.
Qed.

Definition lacks (b : slots) (m : string) : Prop := forall j d, b !! j = Some (Some d) -> m <> "" -> mac d <> m.
Definition match_ok (b : slots) (o : normalizedObservation) (l : list nat) : Prop :=
  match l with
  | [] => lacks b (nMac o)
  | i :: others => exists d, b !! i = Some (Some d) /\ (mac d = nMac o \/ (others = [] /\ (nMac o = "" \/ mac d = "") /\ lacks b (nMac o)))
      /\ NoDup (i :: others) /\ Forall (fun j => exists dj, b !! j = Some (Some dj) /\ mac dj = "") others
  end.

Lemma joinable_ok b o i d : lacks b (nMac o) -> b !! i = Some (Some d) -> joinable b o i = true -> match_ok b o [i].
Proof.
  intros Hl Hd Hj. exists d. split; [done|]. split; [|split; [apply NoDup_singleton|constructor]]. unfold joinable, mac_at in Hj. rewrite Hd in Hj.
  apply orb_true_iff in Hj as [Hj|Hj]; [apply orb_true_iff in Hj as [Hj|Hj]; apply str_empty_iff in Hj; right; auto|]. left. by apply String.eqb_eq in Hj.
Qed.
Lemma by_ip_ok b o : lacks b (nMac o) -> match_ok b o (by_ip b o).
Proof.
  intros Hl. unfold by_ip. destruct (str_empty (nIp o)); [done|]. destruct (ipCandidates b (nIp o)) as [|i [|? ?]] eqn:E; try done. destruct (joinable b o i) eqn:Ej; [|done].
  assert (i ∈ ipCandidates b (nIp o)) as Hi by (rewrite E; left). apply where_spec in Hi as (d & Hd & _). by eapply joinable_ok.
Qed.
Lemma by_identity_ok b o : lacks b (nMac o) -> match_ok b o (by_identity b o).
Proof.
  intros Hl. unfold by_identity. destruct (str_empty (nIdentity o)); [by apply by_ip_ok|]. destruct (identity_index b (nIdentity o)) as [i|] eqn:E; [|by apply by_ip_ok]. destruct (joinable b o i) eqn:Ej; [|by apply by_ip_ok].
  apply last_found, where_spec in E as (d & Hd & _). by eapply joinable_ok.
Qed.
Lemma matches_ok b o : match_ok b o (matches b o).
Proof.
  unfold matches. destruct (str_empty (nMac o)) eqn:Em; [apply by_identity_ok; apply str_empty_iff in Em; intros j d _ Hne; congruence|]. apply str_empty_false in Em.
  destruct (mac_index b (nMac o)) as [i|] eqn:Ei; [|apply by_identity_ok; intros j d Hd _; by eapply mac_index_none]. apply mac_index_some in Ei as (d & Hd & Hm). exists d. split; [done|]. split; [by left|].
  set (P := fun c => negb (c =? i)%nat && str_empty (mac_at b c)).
  assert (forall j, j ∈ List.filter P (ipCandidates b (nIp o)) -> j <> i /\ exists dj, b !! j = Some (Some dj) /\ mac dj = "") as Hin.
  { intros j Hj. apply list_elem_of_In, filter_In in Hj as [Hj HP]. apply list_elem_of_In, where_spec in Hj as (dj & Hdj & _). unfold P in HP. apply andb_true_iff in HP as [Hne Hmac]. split; [intros ->; by rewrite Nat.eqb_refl in Hne|].
    exists dj. split; [done|]. unfold mac_at in Hmac. rewrite Hdj in Hmac. by apply str_empty_iff. }
  split; [|apply Forall_forall; intros j Hj; by apply Hin]. apply NoDup_cons. split; [intros Hi; by apply Hin in Hi as [? _]|]. apply NoDup_ListNoDup, List.NoDup_filter, NoDup_ListNoDup, where_nodup.
Qed.

(** Two slots into one. *)
Lemma merge_fused b l f s left right : fused b l -> f <> s -> b !! f = Some (Some left) -> b !! s = Some (Some right) -> mac left = "" \/ mac right = "" ->
  fused (<[s := None]> (<[f := Some (merge_device left right)]> b)) l.
Proof.
  intros [Hsep (gs & Hgs & Hperm)] Hne Hf Hs Hm. pose proof (lookup_lt_Some _ _ _ Hf) as Hlf. pose proof (lookup_lt_Some _ _ _ Hs) as Hls. pose proof (Forall2_length _ _ _ Hgs) as Hlen. split.
  - assert (forall k d, <[s := None]> (<[f := Some (merge_device left right)]> b) !! k = Some (Some d) ->
      (k = f /\ d = merge_device left right) \/ (k <> f /\ k <> s /\ b !! k = Some (Some d))) as Hk.
    { intros k d Hk. destruct (decide (k = s)) as [-> |Hks]; [rewrite list_lookup_insert_eq in Hk by (by rewrite length_insert); done|]. rewrite list_lookup_insert_ne in Hk by done.
      destruct (decide (k = f)) as [-> |Hkf]; [rewrite list_lookup_insert_eq in Hk by done; left; split; [done|congruence]|]. rewrite list_lookup_insert_ne in Hk by done. by right. }
    assert (forall k d, k <> f -> k <> s -> b !! k = Some (Some d) -> mac d = mac (merge_device left right) -> mac d = "") as Hother.
    { intros k d Hkf Hks Hd E. destruct (decide (mac d = "")) as [|Hn]; [done|]. cbn in E. destruct (str_empty (mac left)); [destruct (Hsep k s d right Hd Hs E Hn)|destruct (Hsep k f d left Hd Hf E Hn)]; done. }
    intros i j d d' Hi Hj E Hn. destruct (Hk _ _ Hi) as [[-> ->]|(Hi1 & Hi2 & Hi3)], (Hk _ _ Hj) as [[-> ->]|(Hj1 & Hj2 & Hj3)]; [done|..].
    + pose proof (Hother j d' Hj1 Hj2 Hj3 (eq_sym E)). congruence.
    + pose proof (Hother i d Hi1 Hi2 Hi3 E). congruence.
    + by eapply Hsep.
  - destruct (Forall2_lookup_l _ _ _ _ _ Hgs Hf) as (gf & Hgf & [Hdf Hnf]). destruct (Forall2_lookup_l _ _ _ _ _ Hgs Hs) as (g' & Hg' & [Hd' Hn']).
    exists (<[s := []]> (<[f := gf ++ g']> gs)). split.
    + apply Forall2_insert; [|done]. apply Forall2_insert; [done|]. split; [by apply merge_describes|]. by destruct gf.
    + rewrite <- Hperm. rewrite (concat_hole gs s g' Hg'). rewrite list_insert_insert_ne by done. rewrite (concat_insert (<[s := []]> gs) f) by (rewrite length_insert; lia).
      rewrite <- app_assoc, (Permutation_app_comm gf), <- app_assoc. apply Permutation_app_head. rewrite (concat_hole (<[s := []]> gs) f gf) by (by rewrite list_lookup_insert_ne). apply Permutation_app_comm.
Qed.

Lemma merge_step b l i j di dj : fused b l -> i <> j -> b !! i = Some (Some di) -> b !! j = Some (Some dj) -> mac dj = "" ->
  let '(b', i') := merge b i j in fused b' l /\ (i' = i \/ i' = j) /\ (exists d', b' !! i' = Some (Some d') /\ mac d' = mac di) /\ forall k, k <> i -> k <> j -> b' !! k = b !! k.
Proof.
  intros Hb Hne Hi Hj Hm. unfold merge. rewrite (proj2 (Nat.eqb_neq i j) Hne). pose proof (lookup_lt_Some _ _ _ Hi) as Hli. pose proof (lookup_lt_Some _ _ _ Hj) as Hlj. destruct (Nat.ltb_spec j i).
  - rewrite Hi, Hj. split; [apply merge_fused; auto|]. split; [by right|]. split.
    + eexists. rewrite list_lookup_insert_ne by lia. rewrite list_lookup_insert_eq by done. split; [done|]. cbn. by rewrite Hm.
    + intros k Hk1 Hk2. by rewrite !list_lookup_insert_ne by done.
  - rewrite Hj, Hi. split; [apply merge_fused; auto|]. split; [by left|]. split.
    + eexists. rewrite list_lookup_insert_ne by lia. rewrite list_lookup_insert_eq by done. split; [done|]. cbn. destruct (str_empty (mac di)) eqn:E; [|done]. apply str_empty_iff in E. congruence.
    + intros k Hk1 Hk2. by rewrite !list_lookup_insert_ne by done.
Qed.

Lemma merge_all_fused others : forall b i d l, fused b l -> b !! i = Some (Some d) -> NoDup (i :: others) -> Forall (fun j => exists dj, b !! j = Some (Some dj) /\ mac dj = "") others ->
  let '(b', i') := merge_all b i others in fused b' l /\ exists d', b' !! i' = Some (Some d') /\ mac d' = mac d.
Proof.
  induction others as [|j others IH]; intros b i d l Hb Hd Hn Ho; [cbn; split; [done|by eauto]|]. apply NoDup_cons in Hn as [Hi Hn]. apply not_elem_of_cons in Hi as [Hij Hi]. inversion_clear Ho as [|? ? (dj & Hj & Hmj) Ho'].
  unfold merge_all. cbn [fold_left]. rewrite (proj2 (Nat.eqb_neq j i)) by done. pose proof (merge_step b l i j d dj Hb Hij Hd Hj Hmj) as Hm. destruct (merge b i j) as [b1 i1].
  destruct Hm as (Hb1 & Hi1 & (d1 & Hd1 & Hm1) & Hk). apply NoDup_cons in Hn as [Hj1 Hn]. specialize (IH b1 i1 d1 l Hb1 Hd1). unfold merge_all in IH. destruct (fold_left _ others (b1, i1)) as [b2 i2].
  destruct IH as (Hb2 & d2 & Hd2 & Hm2).
  - apply NoDup_cons. split; [by destruct Hi1 as [-> | ->]|done].
  - rewrite Forall_forall in Ho' |- *. intros k Hin. destruct (Ho' k Hin) as (dk & Hdk & Hmk). exists dk. rewrite Hk; [done|..]; by intros ->.
  - split; [done|]. exists d2. split; [done|congruence].
Qed.

Lemma absorb_fused b l i d o : fused b l -> b !! i = Some (Some d) -> mac d = nMac o \/ ((nMac o = "" \/ mac d = "") /\ lacks b (nMac o)) -> fused (absorb b i o) (o :: l).
Proof.
  intros [Hsep (gs & Hgs & Hperm)] Hd Hm. unfold absorb. rewrite Hd. pose proof (lookup_lt_Some _ _ _ Hd) as Hli. pose proof (Forall2_length _ _ _ Hgs) as Hlen. split.
  - assert (mac (absorb_device o d) = mac d \/ (mac (absorb_device o d) = nMac o /\ nMac o <> "" /\ lacks b (nMac o))) as Hcase.
    { cbn. destruct (str_empty (nMac o)) eqn:E1; cbn; [by left|]. destruct (str_empty (mac d)) eqn:E2; [|by left]. apply str_empty_false in E1. apply str_empty_iff in E2. right. split; [done|]. split; [done|]. destruct Hm as [Hm|[_ Hm]]; [congruence|done]. }
    assert (forall k dk, k <> i -> b !! k = Some (Some dk) -> mac dk = mac (absorb_device o d) -> mac dk = "") as Hother.
    { intros k dk Hk Hdk E. destruct (decide (mac dk = "")) as [|Hn]; [done|]. destruct Hcase as [Hc|(Hc & Hne & Hl)]; [destruct Hk; eapply Hsep; eauto; congruence|]. destruct (Hl k dk Hdk Hne). congruence. }
    intros j k dj dk Hj Hk E Hn. destruct (decide (j = i)) as [-> |Hji], (decide (k = i)) as [-> |Hki]; [done|..].
    + rewrite list_lookup_insert_eq in Hj by done. injection Hj as <-. rewrite list_lookup_insert_ne in Hk by done. pose proof (Hother k dk Hki Hk (eq_sym E)). congruence.
    + rewrite list_lookup_insert_eq in Hk by done. injection Hk as <-. rewrite list_lookup_insert_ne in Hj by done. pose proof (Hother j dj Hji Hj E). congruence.
    + rewrite list_lookup_insert_ne in Hj, Hk by done. by eapply Hsep.
  - destruct (Forall2_lookup_l _ _ _ _ _ Hgs Hd) as (g & Hg & [Hdg Hng]). exists (<[i := o :: g]> gs). split.
    + apply Forall2_insert; [done|]. split; [|done]. apply absorb_describes; [done|]. destruct Hm as [Hm|[[Hm|Hm] _]]; auto.
    + rewrite concat_insert by lia. cbn [app]. apply Permutation_skip. by rewrite <- (concat_hole gs i g Hg).
Qed.

Lemma new_fused b l o : fused b l -> lacks b (nMac o) -> fused (b ++ [Some (absorb_device o emptyDevice)]) (o :: l).
Proof.
  intros [Hsep (gs & Hgs & Hperm)] Hl. assert (mac (absorb_device o emptyDevice) = nMac o) as Hm by (cbn; destruct (str_empty (nMac o)) eqn:E; [apply str_empty_iff in E; by rewrite E|done]). split.
  - assert (forall k dk, (b ++ [Some (absorb_device o emptyDevice)]) !! k = Some (Some dk) -> b !! k = Some (Some dk) \/ (k = length b /\ dk = absorb_device o emptyDevice)) as Hk.
    { intros k dk Hk. apply lookup_app_Some in Hk as [Hk|[Hk1 Hk2]]; [by left|]. apply list_lookup_singleton_Some in Hk2 as [Hk2 [= ->]]. right. split; [lia|done]. }
    intros i j di dj Hi Hj E Hn. destruct (Hk _ _ Hi) as [Hi'|[-> ->]], (Hk _ _ Hj) as [Hj'|[-> ->]]; [by eapply Hsep| | |done].
    + destruct (Hl i di Hi'); congruence.
    + destruct (Hl j dj Hj'); congruence.
  - exists (gs ++ [[o]]). split.
    + apply Forall2_app; [done|]. constructor; [|constructor]. split; [|done]. apply (absorb_describes o emptyDevice []); [apply describes_empty|]. right. by left.
    + rewrite concat_app, Hperm. apply Permutation_app_comm.
Qed.

Lemma add_fused b l o : fused b l -> fused (add b o) (o :: l).
Proof.
  intros Hb. unfold add. pose proof (matches_ok b o) as Hm. destruct (matches b o) as [|i others]; [by apply new_fused|]. destruct Hm as (d & Hd & Hmac & Hnd & Ho).
  pose proof (merge_all_fused others b i d l Hb Hd Hnd Ho) as H. destruct (merge_all b i others) as [b1 i1] eqn:E. destruct H as (Hb1 & d1 & Hd1 & Hm1). apply (absorb_fused b1 l i1 d1); [done..|]. rewrite Hm1.
  destruct Hmac as [Hmac|(-> & Hmac & Hl)]; [by left|]. right. injection E as <- <-. done.
Qed.
Lemma build_fused l : forall b l0, fused b l0 -> fused (fold_left add l b) (rev l ++ l0).
Proof. induction l as [|o l IH]; intros b l0 Hb; [done|]. cbn [fold_left rev]. rewrite <- app_assoc. by apply IH, add_fused. Qed.

(** ** The inventory is a partition of what was seen *)

Definition keyed (o : normalizedObservation) : Prop := nMac o <> "" \/ nIp o <> "" \/ nIdentity o <> "".
Lemma normalize_keyed ToLower o n : normalizeObservation ToLower o = Some n -> keyed n.
Proof.
  unfold normalizeObservation. set (n0 := mkNormalized _ _ _ _ _ _ _ _ _). destruct (str_empty (nMac n0)) eqn:E1; cbn [andb]; [|intros [= <-]; left; by apply str_empty_false].
  destruct (str_empty (nIp n0)) eqn:E2; cbn [andb]; [|intros [= <-]; right; left; by apply str_empty_false]. destruct (str_empty (nIdentity n0)) eqn:E3; [done|]. intros [= <-]. right. right. by apply str_empty_false.
Qed.
Lemma sorted_set_nil l : sorted_set l = [] -> l = ∅.
Proof. unfold sorted_set. intros H. assert (elements l ≡ₚ []) as Hp by (rewrite <- H; symmetry; apply sort_by_perm). symmetry in Hp; apply Permutation_nil in Hp. apply leibniz_equiv, elements_empty_inv. by rewrite Hp. Qed.
Lemma id_nonempty d g : describes d g -> g <> [] -> Forall keyed g -> str_empty (device_id d) = false.
Proof.
  intros [H1 _ H3 H4 _ _ _ _ _] Hg Hk. unfold device_id. destruct (str_empty (mac d)) eqn:Em; cbn [negb]; [|done]. apply str_empty_iff in Em. destruct g as [|o g]; [done|]. inversion_clear Hk as [|? ? Ho _]. inversion_clear H1 as [|? ? Hmo _].
  destruct Ho as [Ho|[Ho|Ho]]; [destruct Hmo; congruence|..].
  - destruct (sorted_set (ips d)) as [|x t] eqn:E; [|done]. apply sorted_set_nil in E. assert (nIp o ∈ ips d) as Hin by (apply H3; split; [done|left]). rewrite E in Hin. set_solver.
  - destruct (sorted_set (ips d)) as [|x t]; [|done]. destruct (sorted_set (identities d)) as [|x t] eqn:E; [|done]. apply sorted_set_nil in E. assert (nIdentity o ∈ identities d) as Hin by (apply H4; split; [done|left]). rewrite E in Hin. set_solver.
Qed.

Lemma slots_groups b gs : Forall2 slot_ok b gs -> exists gs', Forall2 (fun d g => describes d g /\ g <> []) (omap id b) gs' /\ concat gs' = concat gs.
Proof.
  induction 1 as [|s g b gs Hs _ (gs' & IH1 & IH2)]; [exists []; by split; [constructor|]|]. destruct s as [d|]; cbn in Hs.
  - exists (g :: gs'). split; [by constructor|]. cbn. by rewrite IH2.
  - subst g. by exists gs'.
Qed.
Lemma separate_macs b : separate b -> NoDup (List.filter (fun m => negb (str_empty m)) (map mac (omap id b))).
Proof.
  induction b as [|s b IH]; intros Hs; [constructor|]. assert (separate b) as Hs' by (intros i j d d' Hi Hj E Hn; assert (S i = S j) as [= ->] by (by eapply Hs); done). destruct s as [d|]; [|by apply IH]. cbn.
  destruct (str_empty (mac d)) eqn:E; cbn; [by apply IH|]. apply NoDup_cons. split; [|by apply IH]. intros Hin. apply list_elem_of_In, filter_In in Hin as [Hin _]. apply list_elem_of_In, list_elem_of_fmap in Hin as (d' & Hm & Hd').
  apply list_elem_of_omap in Hd' as (s & Hs1 & Hs2). apply list_elem_of_lookup in Hs1 as [j Hj]. cbn in Hs2. subst s. assert (0%nat = S j) by (eapply (Hs 0%nat (S j) d d'); [done..|by apply str_empty_false]). done.
Qed.

(** [C31] The inventory is a partition of what was seen.  Whatever rows come, in whatever
    order: the usable rows are dealt into groups, each once, and the devices of the
    inventory describe the groups one by one.  A device has the one MAC its rows have,
    exactly their addresses, identities and interfaces, the name and the vendor of its
    most trusted row and the earliest and latest times; and no two devices have one MAC. *)
Theorem inventory_partition ToLower l : exists ds gs,
  fuseDeviceInventory ToLower l = sort_by (fun x y => str_lt x.1 y.1) (map (fun d => (device_id d, device_record d)) ds)
  /\ Forall2 (fun d g => describes d g /\ g <> []) ds gs /\ concat gs ≡ₚ omap (normalizeObservation ToLower) l
  /\ NoDup (List.filter (fun m => negb (str_empty m)) (map mac ds)).
Proof.
  set (n := omap (normalizeObservation ToLower) l). assert (fused (build n) (rev n ++ [])) as Hf.
  { apply build_fused. split; [intros i j d d' Hi; done|]. exists []. by split; [constructor|]. }
  rewrite app_nil_r in Hf. destruct Hf as [Hsep (gs & Hgs & Hperm)]. destruct (slots_groups _ _ Hgs) as (gs' & Hgs' & Hc). exists (omap id (build n)), gs'.
  assert (concat gs' ≡ₚ n) as Hn by (rewrite Hc, Hperm; symmetry; apply Permutation_rev). split; [|split; [done|split; [done|by apply separate_macs]]].
  assert (Forall keyed (concat gs')) as Hk by (rewrite Hn; apply Forall_forall; intros x Hx; apply list_elem_of_omap in Hx as (o & _ & Ho); by eapply normalize_keyed).
  unfold fuseDeviceInventory, result. fold n. f_equal. clear Hsep Hgs Hperm Hc Hn. revert gs' Hgs' Hk. induction (build n) as [|[d|] b IH]; intros gs' Hgs' Hk; [done| |by apply (IH gs')].
  cbn in Hgs' |- *. inversion Hgs' as [|? g ? gs1 [Hd Hne] Hrest]; subst. cbn [concat] in Hk. apply Forall_app in Hk as [Hkg Hk]. rewrite (id_nonempty d g) by done. f_equal. by apply (IH gs1).
Qed.

(** ** New devices *)

Inductive life := Polled (fetched : option (list DeviceInventoryObservation)) (committed : bool) | Restarted.
(** The identities of committed polls so far. *)
Fixpoint committed_ids (ToLower : string -> string) (l : list life) : gset string :=
  match l with
  | [] => ∅
  | Polled (Some rows) true :: l => list_to_set (map fst (fuseDeviceInventory ToLower rows)) ∪ committed_ids ToLower l
  | _ :: l => committed_ids ToLower l
  end.
Definition live (ToLower : string -> string) (p : deviceInventoryProvider) (x : life) : deviceInventoryProvider :=
  match x with
  | Polled fetched committed => let '(out, p) := Snapshot ToLower fetched p in match out with Some _ => if committed then CommitSnapshot p else p | None => p end
  | Restarted => LoadState (SaveState p) newDeviceInventoryProvider
  end.

Lemma saved p : "" ∉ seen p -> seen (LoadState (SaveState p) newDeviceInventoryProvider) = seen p.
Proof.
  intros Hn. unfold SaveState. destruct (bool_decide (seen p = ∅)) eqn:E; [by apply bool_decide_eq_true in E|]. unfold LoadState.
  destruct (existsb str_empty (sort_by str_lt (elements (seen p)))) eqn:Ex.
  - apply existsb_exists in Ex as (x & Hx & Hxe). apply list_elem_of_In in Hx. rewrite sort_by_perm in Hx. apply elem_of_elements in Hx. apply str_empty_iff in Hxe. by subst.
  - cbn. apply leibniz_equiv. intros x. rewrite elem_of_list_to_set, sort_by_perm. apply elem_of_elements.
Qed.

Lemma fused_ids ToLower l : "" ∉ map fst (fuseDeviceInventory ToLower l).
Proof.
  unfold fuseDeviceInventory, result. rewrite sort_by_perm. intros H. apply list_elem_of_fmap in H as (x & Hx & Hin). apply list_elem_of_omap in Hin as ([d|] & _ & E); [|done]. destruct (str_empty (device_id d)) eqn:Ed; [done|]. injection E as <-. cbn in Hx. by rewrite <- Hx in Ed.
Qed.

Lemma seen_committed ToLower l : let p := fold_left (live ToLower) l newDeviceInventoryProvider in seen p = committed_ids ToLower l /\ "" ∉ seen p.
Proof.
  cbn zeta. assert (forall p, "" ∉ seen p -> seen (fold_left (live ToLower) l p) = committed_ids ToLower l ∪ seen p /\ "" ∉ seen (fold_left (live ToLower) l p)) as H.
  { induction l as [|x l IH]; intros p Hp; cbn [fold_left committed_ids]; [split; [set_solver|done]|]. destruct x as [[rows|] [|]|]; cbn [live Snapshot].
    - assert ("" ∉ seen (CommitSnapshot (mkProvider (seen p) (list_to_set (map fst (fuseDeviceInventory ToLower rows)))))) as Hc by (cbn; pose proof (fused_ids ToLower rows); rewrite elem_of_union, elem_of_list_to_set; tauto).
      destruct (IH _ Hc) as [-> Hn]. split; [cbn; set_solver|done].
    - destruct (IH (mkProvider (seen p) (list_to_set (map fst (fuseDeviceInventory ToLower rows)))) Hp) as [-> Hn]. by split.
    - by apply IH.
    - by apply IH.
    - assert ("" ∉ seen (LoadState (SaveState p) newDeviceInventoryProvider)) as Hs by (by rewrite saved). destruct (IH _ Hs) as [-> Hn]. rewrite saved in Hn |- * by done. split; [done|]. exact Hn. }
  destruct (H newDeviceInventoryProvider) as [-> Hn]; [set_solver|]. split; [cbn; set_solver|done].
Qed.

Lemma record_flag r : Sensitive.member "new_device" (record_json r) = Some (JBool (rNewDevice r)).
Proof. destruct r. vm_compute. reflexivity. Qed.

(** [C32] A device is announced as new until a poll that shows it is committed, and never
    again.  After any life of the provider, with polls that fail, polls that are not
    committed because another family failed, and restarts from its saved state, the
    snapshot has one entity per device, flagged as new exactly when no committed poll
    showed it; what is compared between polls does not have the flag. *)
Theorem new_devices_exact ToLower l rows : let p := fold_left (live ToLower) l newDeviceInventoryProvider in
  exists entities, (Snapshot ToLower (Some rows) p).1 = Some entities /\ map ConfigState.eID entities = map fst (fuseDeviceInventory ToLower rows)
    /\ Forall (fun e => Sensitive.member "new_device" (ConfigState.eValue e) = Some (JBool (negb (bool_decide (ConfigState.eID e ∈ committed_ids ToLower l))))
         /\ Sensitive.member "new_device" (ConfigState.eCanonical e) = Some (JBool false)) entities.
Proof.
  cbn zeta. destruct (seen_committed ToLower l) as [Hs _]. set (p := fold_left _ _ _) in *. eexists. split; [reflexivity|]. split; [by rewrite map_map|]. apply Forall_forall. intros e He.
  apply list_elem_of_fmap in He as (d & -> & _). cbn [device_entity ConfigState.eID ConfigState.eValue ConfigState.eCanonical]. by rewrite !record_flag, Hs.
Qed.
End DeviceInventory.
