(* ===== verification/GoFloat.v ===== *)
(** * [float64] and [strconv.ParseFloat] of the standard library

    A [float64] is a [spec_float] of precision 53, whose operations round to nearest even.
    The lemmas are those a counter of floating-point values needs: the operations on
    non-negative values give non-negative values, a sum is never below its terms, and
    values of a bounded size do not overflow. *)

From stdpp Require Import base decidable list gmap strings.
From Stdlib Require Import ZArith Lia Ascii SpecFloat.
From S2P Require Import Prelude GoStrings Registry GoRegexp Gauges GoJson.
Import Regexp Ratio Json.

Module Float.

Definition fmul (a b : spec_float) : spec_float := SFmul 53 1024 a b.
Definition fzero : spec_float := S754_zero false.

(** ** Literals *)

Definition digits_value (s : string) : Z := fold_left (fun n c => n * 10 + (byte_of c - 48)) (String.list_ascii_of_string s) 0.
(** The exponent is read until it has five digits. *)
Definition exponent_value (s : string) : Z :=
  fold_left (fun e c => if e <? 10000 then e * 10 + (byte_of c - 48) else e) (String.list_ascii_of_string s) 0.

(** The exact value [m * 10 ^ e] rounded. *)
Definition decimal (sign : bool) (m e : Z) : spec_float :=
  if m =? 0 then S754_zero sign
  else if 0 <=? e then binary_normalize 53 1024 (if sign then - (m * 10 ^ e) else m * 10 ^ e) 0 sign
  else let '(q, e', l) := SFdiv_core_binary 53 1024 m 0 (10 ^ (- e)) 0 in binary_round_aux 53 1024 sign q e' l.

(** [ParseFloat(s, 64)] of a number as JSON writes it: [None] when it is out of range. *)
Definition ParseFloat (s : string) : option spec_float :=
  let '(sign, s) := match s with String c r => if Ascii.eqb c "-" then (true, r) else (false, s) | EmptyString => (false, s) end in
  let '(i, s) := span_digits s in
  let '(f, s) := match s with String c r => if Ascii.eqb c "." then span_digits r else ("", s) | EmptyString => ("", s) end in
  let e := match s with
           | String _ r =>
               match r with
               | String c r' => if Ascii.eqb c "-" then - exponent_value r' else if Ascii.eqb c "+" then exponent_value r' else exponent_value r
               | EmptyString => 0
               end
           | EmptyString => 0
           end in
  match decimal sign (digits_value (i +:+ f)) (e - Z.of_nat (String.length f)) with
  | S754_infinity _ => None
  | x => Some x
  end.

Example parse_float_half : ParseFloat "12.5" = Some (fconst 25 2). Proof. vm_compute. reflexivity. Qed.
Example parse_float_tenth : ParseFloat "1e-1" = Some (fconst 1 10). Proof. vm_compute. reflexivity. Qed.
Example parse_float_range : ParseFloat "1e309" = None. Proof. vm_compute. reflexivity. Qed.

(** ** Sizes *)

Notation dig m := (Z.pos (digits2_pos m)).
Notation fexp64 := (fexp 53 1024).

Lemma digits_spec m : 2 ^ (dig m - 1) <= Z.pos m < 2 ^ dig m.
Proof.
  assert (forall p, 0 < dig p) as Hpos by lia.
  induction m as [m IH|m IH|]; cbn [digits2_pos]; [| |by vm_compute]; rewrite Pos2Z.inj_succ; specialize (Hpos m);
    replace (Z.succ (dig m) - 1) with (Z.succ (dig m - 1)) by lia; rewrite !Z.pow_succ_r by lia; lia.
Qed.

Lemma Zdigits_spec m : 0 <= m -> 0 <= Zdigits2 m /\ m < 2 ^ Zdigits2 m /\ (0 < m -> 2 ^ (Zdigits2 m - 1) <= m) /\ (0 < Zdigits2 m -> 0 < m).
Proof. destruct m as [|m|m]; intros H; [done| |lia]. cbn [Zdigits2]. pose proof (digits_spec m). lia. Qed.

(** The number of digits from bounds. *)
Lemma Zdigits_le m k : 0 <= m < 2 ^ k -> 0 <= k -> Zdigits2 m <= k.
Proof.
  intros H Hk. destruct (Zdigits_spec m ltac:(lia)) as (H0 & H1 & H2 & H3). destruct (decide (Zdigits2 m = 0)); [lia|].
  assert (2 ^ (Zdigits2 m - 1) < 2 ^ k) as Hp by (specialize (H2 (H3 ltac:(lia))); lia). apply Z.pow_lt_mono_r_iff in Hp; lia.
Qed.
Lemma Zdigits_ge m k : 2 ^ (k - 1) <= m -> 0 < m -> k <= Zdigits2 m.
Proof.
  intros H Hm. destruct (Zdigits_spec m ltac:(lia)) as (H0 & H1 & _). destruct (decide (k <= 0)); [lia|].
  assert (2 ^ (k - 1) < 2 ^ Zdigits2 m) as Hp by lia. apply Z.pow_lt_mono_r_iff in Hp; lia.
Qed.

(** ** Shifts *)

Lemma shr_1_m mrs : 0 <= shr_m mrs -> shr_m (shr_1 mrs) = shr_m mrs / 2.
Proof.
  destruct mrs as [[|[p|p|]|p] r s]; cbn [shr_m shr_1]; intros H; try done; try lia.
  - apply (Z.div_unique _ _ _ 1); lia.
  - apply (Z.div_unique _ _ _ 0); lia.
Qed.

Lemma iter_shr p : forall mrs, 0 <= shr_m mrs -> shr_m (iter_pos shr_1 p mrs) = shr_m mrs / 2 ^ Z.pos p.
Proof.
  assert (forall mrs n, 0 <= shr_m mrs -> 0 <= shr_m mrs / 2 ^ Z.pos n) as Hpos by (intros; apply Z.div_pos; lia).
  induction p as [p IH|p IH|]; intros mrs H; cbn [iter_pos].
  - assert (0 <= shr_m (shr_1 mrs)) as H1 by (rewrite shr_1_m by done; apply Z.div_pos; lia).
    rewrite !IH by (rewrite ?IH by done; auto). rewrite shr_1_m, !Z.div_div by lia.
    f_equal. replace (Z.pos p~1) with (1 + (Z.pos p + Z.pos p)) by lia. rewrite !Z.pow_add_r by lia. lia.
  - rewrite !IH by (rewrite ?IH by done; auto). rewrite Z.div_div by lia. f_equal. rewrite <- Z.pow_add_r by lia. f_equal. lia.
  - by rewrite shr_1_m.
Qed.

Lemma shr_of_loc m l : shr_m (shr_record_of_loc m l) = m.
Proof. by destruct l as [|[]]. Qed.

Lemma shr_fexp_spec m e l : 0 <= m -> exists mrs, shr_fexp 53 1024 m e l = (mrs, Z.max e (fexp64 (Zdigits2 m + e)))
  /\ shr_m mrs = m / 2 ^ (Z.max e (fexp64 (Zdigits2 m + e)) - e).
Proof.
  intros Hm. unfold shr_fexp. set (n := fexp64 (Zdigits2 m + e) - e). replace (Z.max e (fexp64 (Zdigits2 m + e))) with (e + Z.max 0 n) by lia.
  unfold shr. destruct n as [|p|p] eqn:E.
  - exists (shr_record_of_loc m l). cbn [Z.max Z.compare]. rewrite Z.add_0_r, Z.sub_diag, Z.div_1_r. by rewrite shr_of_loc.
  - exists (iter_pos shr_1 p (shr_record_of_loc m l)). rewrite (Z.max_r 0) by lia. split; [done|]. rewrite iter_shr; rewrite shr_of_loc; [|done]. f_equal. f_equal. lia.
  - exists (shr_record_of_loc m l). cbn [Z.max Z.compare]. rewrite Z.add_0_r, Z.sub_diag, Z.div_1_r. by rewrite shr_of_loc.
Qed.

Lemma nearest_step m l : round_nearest_even m l = m \/ round_nearest_even m l = m + 1.
Proof. destruct l as [|[]]; cbn; auto. destruct (Z.even m); auto. Qed.

(** ** Rounding *)

Lemma fexp_eq x : fexp64 x = Z.max (x - 53) (-1074).
Proof. done. Qed.

(** A pair that is a float64 as it is. *)
Definition canon (m : positive) (e : Z) : Prop := fexp64 (dig m + e) = e.
Definition rounded (s : bool) (m e : Z) : spec_float :=
  match m with
  | Z0 => S754_zero s
  | Zpos p => if e <=? 971 then S754_finite s p e else S754_infinity s
  | Zneg _ => S754_nan
  end.

(** The first cut leaves at most 53 digits, and 53 unless the exponent is the least. *)
Lemma cut_digits mx ex e1 : 0 <= mx -> ex <= e1 -> e1 = fexp64 (Zdigits2 mx + ex) ->
  0 <= mx / 2 ^ (e1 - ex) < 2 ^ 53 /\ (e1 = -1074 \/ 2 ^ 52 <= mx / 2 ^ (e1 - ex)).
Proof.
  intros Hm Hle He. destruct (Zdigits_spec mx Hm) as (Hd0 & Hd1 & Hd2 & Hd3). rewrite fexp_eq in He.
  assert (0 < 2 ^ (e1 - ex)) as Hp by lia. split.
  - split; [by apply Z.div_pos|]. apply Z.div_lt_upper_bound; [done|]. rewrite <- Z.pow_add_r by lia. eapply Z.lt_le_trans; [exact Hd1|]. apply Z.pow_le_mono_r; lia.
  - destruct (decide (e1 = -1074)) as [|Hne]; [by left|right]. assert (Zdigits2 mx = 53 + (e1 - ex)) as Hd by lia.
    apply Z.div_le_lower_bound; [done|]. rewrite <- Z.pow_add_r by lia. rewrite Hd in Hd2. specialize (Hd2 (Hd3 ltac:(lia))).
    etransitivity; [|exact Hd2]. apply Z.eq_le_incl. f_equal. lia.
Qed.

(** Rounding the cut value up may give it a digit more, which is zero. *)
Lemma carry_spec m1 m e1 : m = m1 \/ m = m1 + 1 -> 0 <= m1 < 2 ^ 53 -> -1074 <= e1 -> (e1 = -1074 \/ 2 ^ 52 <= m1) ->
  let e := Z.max e1 (fexp64 (Zdigits2 m + e1)) in
  e1 <= e <= e1 + 1 /\ m1 <= m / 2 ^ (e - e1) * 2 ^ (e - e1) /\ (e = e1 -> m / 2 ^ (e - e1) = m) /\ (0 < m -> 0 < m / 2 ^ (e - e1))
  /\ forall p, m / 2 ^ (e - e1) = Zpos p -> canon p e.
Proof.
  intros Hm H1 He H2 e. assert (0 <= m <= 2 ^ 53) as Hb by lia. destruct (decide (m = 2 ^ 53)) as [E53|Hne].
  - assert (e = e1 + 1) as Ee by (unfold e; rewrite E53; change (Zdigits2 (2 ^ 53)) with 54; rewrite fexp_eq; lia).
    rewrite Ee. replace (e1 + 1 - e1) with 1 by lia. rewrite E53. change (2 ^ 53 / 2 ^ 1) with (2 ^ 52). change (2 ^ 52 * 2 ^ 1) with (2 ^ 53).
    split; [lia|]. split; [lia|]. split; [lia|]. split; [done|]. intros p Hp. assert (dig p = 53) as Hd by (vm_compute in Hp; injection Hp as <-; reflexivity).
    unfold canon. rewrite fexp_eq, Hd. lia.
  - assert (Zdigits2 m <= 53) as Hd by (apply Zdigits_le; lia).
    assert (e = e1) as Ee by (unfold e; rewrite fexp_eq; lia). rewrite Ee, Z.sub_diag, Z.pow_0_r, Z.div_1_r. split; [lia|]. split; [lia|]. split; [done|]. split; [done|].
    intros p Hp. unfold canon. rewrite fexp_eq. destruct H2 as [-> | H2]; [rewrite Hp in Hd; cbn [Zdigits2] in Hd; lia|].
    assert (53 <= Zdigits2 m) as Hg by (apply Zdigits_ge; lia). rewrite Hp in Hd, Hg. cbn [Zdigits2] in Hd, Hg. lia.
Qed.

Lemma round_aux_spec s mx ex l : 0 <= mx -> ex <= fexp64 (Zdigits2 mx + ex) ->
  exists m e, binary_round_aux 53 1024 s mx ex l = rounded s m e /\ 0 <= m /\ (forall p, m = Zpos p -> canon p e)
    /\ e <= Z.max (Zdigits2 mx + ex - 52) (-1073)
    /\ forall m0 e0, canon m0 e0 -> ex <= e0 -> Zpos m0 * 2 ^ (e0 - ex) <= mx -> 0 < m /\ (e0 < e \/ e0 = e /\ Zpos m0 <= m).
Proof.
  intros Hm Hle. unfold binary_round_aux. destruct (shr_fexp_spec mx ex l Hm) as (mrs & -> & Hs). rewrite (Z.max_r ex) in Hs |- * by done.
  set (e1 := fexp64 (Zdigits2 mx + ex)) in *. destruct (cut_digits mx ex e1 Hm Hle eq_refl) as [Hb Hc]. rewrite <- Hs in Hb, Hc.
  set (m1' := round_nearest_even (shr_m mrs) (loc_of_shr_record mrs)). pose proof (nearest_step (shr_m mrs) (loc_of_shr_record mrs)) as Hr. fold m1' in Hr.
  assert (-1074 <= e1) as He1 by (unfold e1; rewrite fexp_eq; lia).
  destruct (shr_fexp_spec m1' e1 loc_Exact ltac:(lia)) as (mrs2 & -> & Hs2).
  destruct (carry_spec (shr_m mrs) m1' e1 Hr Hb He1 Hc) as (He2 & Hlow & Hsame & Hpos & Hcan).
  set (e2 := Z.max e1 (fexp64 (Zdigits2 m1' + e1))) in *. exists (shr_m mrs2), e2. rewrite Hs2. split; [done|]. split; [apply Z.div_pos; lia|]. split; [exact Hcan|].
  split; [unfold e1 in He2; rewrite fexp_eq in He2; lia|]. intros m0 e0 H0 Hx Hv.
  assert (e0 <= e1) as He0.
  { rewrite <- H0. unfold e1. rewrite !fexp_eq. pose proof (digits_spec m0) as [Hd0 _].
    assert (dig m0 + (e0 - ex) <= Zdigits2 mx); [|lia]. apply Zdigits_ge; [|nia]. replace (dig m0 + (e0 - ex) - 1) with (dig m0 - 1 + (e0 - ex)) by lia.
    rewrite Z.pow_add_r by lia. nia. }
  destruct (decide (e0 = e1)) as [->|Hne].
  - assert (Zpos m0 <= shr_m mrs) as Hlow0 by (rewrite Hs; apply Z.div_le_lower_bound; lia). split; [apply Hpos; lia|].
    destruct (decide (e2 = e1)) as [Ee|]; [right; split; [done|]; rewrite Hsame by done; lia|left; lia].
  - assert (2 ^ 52 <= shr_m mrs) as Hbig.
    { destruct Hc as [->|]; [|done]. rewrite <- H0, fexp_eq in Hne, He0. lia. }
    split; [apply Hpos; lia|left; lia].
Qed.

(** ** Operations *)

(** A float64 that is not below zero and not a NaN; one that is below [2 ^ k] besides. *)
Definition nonneg (x : spec_float) : Prop :=
  match x with S754_zero _ => True | S754_infinity s => s = false | S754_finite s m e => s = false /\ canon m e | S754_nan => False end.
Definition small (k : Z) (x : spec_float) : Prop :=
  match x with S754_zero _ => True | S754_finite s m e => s = false /\ canon m e /\ dig m + e <= k | _ => False end.

Lemma small_nonneg k x : small k x -> nonneg x.
Proof. destruct x; cbn; tauto. Qed.
Lemma small_weaken j k x : j <= k -> small j x -> small k x.
Proof. destruct x; cbn; auto. intros H (-> & Hc & Hd). split; [done|]. split; [done|lia]. Qed.

Lemma canon_digits m e : canon m e -> dig m <= 53.
Proof. unfold canon. rewrite fexp_eq. lia. Qed.

Lemma rounded_nonneg m e : 0 <= m -> (forall p, m = Zpos p -> canon p e) -> nonneg (rounded false m e).
Proof. destruct m as [|p|p]; intros Hm Hc; [done| |lia]. cbn. destruct (e <=? 971); [|done]. split; [done|by apply Hc]. Qed.

Lemma rounded_small k m e : 0 <= m -> (forall p, m = Zpos p -> canon p e) -> e <= k - 53 -> k <= 1024 -> small k (rounded false m e).
Proof.
  destruct m as [|p|p]; intros Hm Hc He Hk; [done| |lia]. cbn. rewrite (proj2 (Z.leb_le e 971)) by lia. specialize (Hc p eq_refl). split; [done|].
  split; [done|]. pose proof (canon_digits _ _ Hc). lia.
Qed.

Lemma iter_xO m d : Zpos (Pos.iter xO m d) = Zpos m * 2 ^ Zpos d.
Proof.
  induction d as [|d IH] using Pos.peano_ind; [change (Z.pos m~0 = Z.pos m * 2); lia|]. rewrite Pos.iter_succ, Pos2Z.inj_xO, IH, Pos2Z.inj_succ, Z.pow_succ_r by lia. lia.
Qed.

Lemma align_spec m e e' : exists mz, shl_align m e e' = (mz, Z.min e e') /\ Zpos mz = Zpos m * 2 ^ (e - Z.min e e') /\ dig mz + Z.min e e' = dig m + e.
Proof.
  unfold shl_align. destruct (e' - e) as [|d|d] eqn:E.
  1, 2: exists m; replace (Z.min e e') with e by lia; rewrite Z.sub_diag; split; [done|split; [lia|done]].
  exists (Pos.iter xO m d). replace (Z.min e e') with e' by lia. replace (e - e') with (Zpos d) by lia. split; [done|]. split; [apply iter_xO|].
  pose proof (digits_spec m) as Hm. pose proof (iter_xO m d) as Hi. assert (Zdigits2 (Zpos (Pos.iter xO m d)) = dig m + Zpos d); [|cbn [Zdigits2] in *; lia].
  apply Z.le_antisymm.
  - apply Zdigits_le; [|lia]. split; [lia|]. rewrite Hi, Z.pow_add_r by lia. nia.
  - apply Zdigits_ge; [|lia]. rewrite Hi. replace (dig m + Zpos d - 1) with (dig m - 1 + Zpos d) by lia. rewrite Z.pow_add_r by lia. nia.
Qed.

Lemma binary_round_spec s mx ex : exists m e, binary_round 53 1024 s mx ex = rounded s m e /\ 0 <= m /\ (forall p, m = Zpos p -> canon p e)
  /\ e <= Z.max (dig mx + ex - 52) (-1073)
  /\ forall m0 e0, canon m0 e0 -> ex <= e0 -> Zpos m0 * 2 ^ (e0 - ex) <= Zpos mx -> 0 < m /\ (e0 < e \/ e0 = e /\ Zpos m0 <= m).
Proof.
  unfold binary_round. destruct (align_spec mx ex (fexp64 (dig mx + ex))) as (mz & -> & Hv & Hd). set (ez := Z.min ex _) in *.
  destruct (round_aux_spec s (Zpos mz) ez loc_Exact ltac:(lia)) as (m & e & H1 & H2 & H3 & H4 & H5).
  { cbn [Zdigits2]. rewrite Hd. unfold ez. lia. }
  exists m, e. split; [done|]. split; [done|]. split; [done|]. split; [cbn [Zdigits2] in H4; by rewrite Hd in H4|].
  intros m0 e0 H0 Hle Hm0. apply H5; [done|unfold ez; lia|]. rewrite Hv. replace (e0 - ez) with (e0 - ex + (ex - ez)) by lia. rewrite Z.pow_add_r by (unfold ez; lia). nia.
Qed.

(** Addition: no term is above the sum. *)
Lemma add_finite mx ex my ey : canon mx ex -> canon my ey -> exists m e,
  fadd (S754_finite false mx ex) (S754_finite false my ey) = rounded false m e /\ 0 <= m /\ (forall p, m = Zpos p -> canon p e)
  /\ e <= Z.max (Z.max (dig mx + ex) (dig my + ey) - 51) (-1073) /\ 0 < m /\ (ex < e \/ ex = e /\ Zpos mx <= m).
Proof.
  intros Hx Hy. unfold fadd, SFadd. cbn [cond_Zopp]. set (ez := Z.min ex ey).
  destruct (align_spec mx ex ez) as (ax & -> & Hax & Hdx). destruct (align_spec my ey ez) as (ay & -> & Hay & Hdy).
  replace (Z.min ex ez) with ez in * by lia. replace (Z.min ey ez) with ez in * by lia. cbn [fst]. rewrite <- Pos2Z.inj_add. cbn [binary_normalize].
  destruct (binary_round_spec false (ax + ay) ez) as (m & e & H1 & H2 & H3 & H4 & H5). exists m, e. split; [done|]. split; [done|]. split; [done|]. split.
  - assert (dig (ax + ay) <= Z.max (dig ax) (dig ay) + 1); [|lia]. change (dig (ax + ay)) with (Zdigits2 (Zpos (ax + ay))). apply Zdigits_le; [|lia].
    pose proof (digits_spec ax) as [_ ?]. pose proof (digits_spec ay) as [_ ?]. rewrite Z.pow_add_r by lia.
    assert (2 ^ dig ax <= 2 ^ Z.max (dig ax) (dig ay)) by (apply Z.pow_le_mono_r; lia). assert (2 ^ dig ay <= 2 ^ Z.max (dig ax) (dig ay)) by (apply Z.pow_le_mono_r; lia). lia.
  - apply H5; [done|unfold ez; lia|]. rewrite <- Hax. lia.
Qed.

Lemma fadd_nonneg x y : nonneg x -> nonneg y -> nonneg (fadd x y).
Proof.
  destruct x as [sx|sx| |sx mx ex], y as [sy|sy| |sy my ey]; cbn [nonneg]; try tauto.
  - intros _ _. by destruct sx, sy.
  - by intros _ [-> Hy].
  - by intros -> ->.
  - by intros [-> Hx] _.
  - intros [-> Hx] [-> Hy]. destruct (add_finite mx ex my ey Hx Hy) as (m & e & -> & H2 & H3 & _). by apply rounded_nonneg.
Qed.

Lemma fadd_small k x y : -1000 <= k <= 1022 -> small k x -> small k y -> small (k + 2) (fadd x y).
Proof.
  intros Hk. destruct x as [sx|sx| |sx mx ex], y as [sy|sy| |sy my ey]; cbn [small]; try tauto.
  - intros _ _. by destruct sx, sy.
  - intros _ (-> & Hy & Hd). cbn. split; [done|]. split; [done|lia].
  - intros (-> & Hx & Hd) _. cbn. split; [done|]. split; [done|lia].
  - intros (-> & Hx & Hdx) (-> & Hy & Hdy). destruct (add_finite mx ex my ey Hx Hy) as (m & e & -> & H2 & H3 & H4 & _). apply rounded_small; auto; lia.
Qed.

Lemma compare_le m1 e1 m2 e2 : e1 < e2 \/ e1 = e2 /\ Zpos m1 <= Zpos m2 -> SFleb (S754_finite false m1 e1) (S754_finite false m2 e2) = true.
Proof.
  unfold SFleb, SFcompare. intros [H|[-> H]]; [by rewrite (proj2 (Z.compare_lt_iff e1 e2) H)|]. rewrite Z.compare_refl. change (Pos.compare_cont Eq m1 m2) with (m1 ?= m2)%positive.
  destruct (m1 ?= m2)%positive eqn:E; [done|done|]. apply Pos.compare_gt_iff in E. lia.
Qed.

Lemma fadd_ge x y : nonneg x -> nonneg y -> SFleb x (fadd x y) = true.
Proof.
  destruct x as [sx|sx| |sx mx ex], y as [sy|sy| |sy my ey]; cbn [nonneg]; try tauto.
  - intros _ _. by destruct sx, sy.
  - by intros _ ->.
  - by intros _ [-> _].
  - by intros -> _.
  - by intros -> ->.
  - by intros -> [-> _].
  - intros [-> Hx] _. apply compare_le. right. split; [done|lia].
  - by intros [-> _] ->.
  - intros [-> Hx] [-> Hy]. destruct (add_finite mx ex my ey Hx Hy) as (m & e & -> & H2 & H3 & _ & Hp & H5). destruct m as [|p|p]; [lia| |lia]. cbn [rounded].
    destruct (e <=? 971); [by apply compare_le|done].
Qed.

(** The order of finite positive values. *)
Lemma leb_finite m1 e1 m2 e2 : SFleb (S754_finite false m1 e1) (S754_finite false m2 e2) = true <-> e1 < e2 \/ e1 = e2 /\ Zpos m1 <= Zpos m2.
Proof.
  split; [|apply compare_le]. unfold SFleb, SFcompare. destruct (Z.compare_spec e1 e2) as [->|H|H]; [|by left|done].
  change (Pos.compare_cont Eq m1 m2) with (m1 ?= m2)%positive. destruct (Pos.compare_spec m1 m2) as [->|H|H]; intros E; try done; right; split; done || lia.
Qed.

Lemma leb_trans x y z : nonneg x -> nonneg y -> nonneg z -> SFleb x y = true -> SFleb y z = true -> SFleb x z = true.
Proof.
  destruct x as [sx|sx| |sx mx ex], y as [sy|sy| |sy my ey], z as [sz|sz| |sz mz ez]; cbn [nonneg]; intros Hx Hy Hz; destruct_and?; subst; try done.
  rewrite !leb_finite. lia.
Qed.

Lemma leb_refl x : nonneg x -> SFleb x x = true.
Proof. destruct x as [s|s| |s m e]; cbn [nonneg]; try done; [by intros ->|]. intros [-> _]. apply compare_le. right. split; [done|lia]. Qed.

(** A value at most one below [2 ^ k] is below it. *)
Lemma small_le x m e : nonneg x -> SFleb x (S754_finite false m e) = true -> small (53 + e) x.
Proof.
  destruct x as [s|s| |s mx ex]; cbn [nonneg small]; try done; [by intros ->|]. intros [-> Hc] H. split; [done|]. split; [done|].
  pose proof (canon_digits _ _ Hc). assert (ex <= e); [|lia]. unfold SFleb, SFcompare in H. destruct (Z.compare_spec ex e); [lia|lia|done].
Qed.

Lemma float64_small k z : 0 <= z < 2 ^ k -> 0 <= k <= 1022 -> small (k + 1) (float64 z).
Proof.
  intros Hz Hk. unfold float64. destruct z as [|p|p]; [done| |lia]. cbn [binary_normalize]. destruct (binary_round_spec false p 0) as (m & e & -> & H1 & H2 & H3 & _).
  pose proof (Zdigits_le (Zpos p) k ltac:(lia) ltac:(lia)) as Hd. cbn [Zdigits2] in Hd. apply rounded_small; auto; lia.
Qed.

Lemma mul_exp mx ex my ey : canon mx ex -> canon my ey -> ex + ey <= fexp64 (Zdigits2 (Zpos (mx * my)) + (ex + ey)) /\ Zdigits2 (Zpos (mx * my)) <= dig mx + dig my.
Proof.
  intros Hx Hy. pose proof (digits_spec mx) as [Hx1 Hx2]. pose proof (digits_spec my) as [Hy1 Hy2]. split.
  - assert (dig mx + dig my - 1 <= Zdigits2 (Zpos (mx * my))) as Hd.
    { apply Zdigits_ge; [|lia]. replace (dig mx + dig my - 1 - 1) with (dig mx - 1 + (dig my - 1)) by lia. rewrite Z.pow_add_r by lia. nia. }
    unfold canon in *. rewrite fexp_eq in *. lia.
  - apply Zdigits_le; [|lia]. split; [lia|]. rewrite Z.pow_add_r by lia. nia.
Qed.

Lemma fmul_small j k x y : -1000 <= j + k <= 1023 -> small j x -> small k y -> small (j + k + 1) (fmul x y).
Proof.
  intros Hk. destruct x as [sx|sx| |sx mx ex], y as [sy|sy| |sy my ey]; cbn [small]; try tauto. intros (-> & Hx & Hdx) (-> & Hy & Hdy).
  unfold fmul, SFmul. cbn [xorb]. destruct (mul_exp mx ex my ey Hx Hy) as [He Hd].
  destruct (round_aux_spec false (Zpos (mx * my)) (ex + ey) loc_Exact ltac:(lia) He) as (m & e & -> & H1 & H2 & H3 & _). apply rounded_small; auto; lia.
Qed.

(** The quotient of integers has as many digits as it should. *)
Lemma div_core m1 e1 m2 e2 : exists q e l, SFdiv_core_binary 53 1024 (Zpos m1) e1 (Zpos m2) e2 = (q, e, l)
  /\ 0 <= q /\ e <= fexp64 (Zdigits2 q + e) /\ Zdigits2 q + e <= Z.max (dig m1 + e1 - (dig m2 + e2) + 1) e /\ e <= fexp64 (dig m1 + e1 - (dig m2 + e2)).
Proof.
  unfold SFdiv_core_binary. cbn [Zdigits2]. set (e' := Z.min (fexp64 (dig m1 + e1 - (dig m2 + e2))) (e1 - e2)). set (s := e1 - e2 - e').
  assert (0 <= s) as Hs by (unfold s, e'; lia). set (m' := match s with Z0 => _ | Zpos _ => _ | Zneg _ => _ end).
  assert (m' = Zpos m1 * 2 ^ s) as Hm' by (unfold m'; destruct s; [lia|by rewrite Z.shiftl_mul_pow2|lia]). clearbody m'.
  pose proof (Z_div_mod m' (Zpos m2) ltac:(lia)) as Hq. destruct (Z.div_eucl m' (Zpos m2)) as [q r]. destruct Hq as [Hq Hr].
  exists q, e', (new_location (Zpos m2) r). split; [done|]. pose proof (digits_spec m1) as [Ha Hb]. pose proof (digits_spec m2) as [Hc Hd].
  assert (0 < 2 ^ s) as H2s by lia. assert (0 <= q) as Hq0 by nia. split; [done|].
  assert (dig m1 + s - dig m2 <= Zdigits2 q) as Hge.
  { destruct (decide (dig m1 + s - dig m2 <= 0)) as [H|H]; [destruct (Zdigits_spec q Hq0); lia|].
    assert (2 ^ (dig m1 + s - dig m2 - 1) <= q) as Hp; [|apply Zdigits_ge; [done|]; pose proof (Z.pow_pos_nonneg 2 (dig m1 + s - dig m2 - 1) ltac:(lia) ltac:(lia)); lia].
    apply Z.lt_succ_r. apply (Z.mul_lt_mono_pos_l (Zpos m2)); [lia|]. apply Z.le_lt_trans with m'; [|lia]. rewrite Hm'.
    apply Z.le_trans with (2 ^ (dig m1 - 1) * 2 ^ s); [|nia]. rewrite <- Z.pow_add_r by lia. replace (dig m1 - 1 + s) with (dig m2 + (dig m1 + s - dig m2 - 1)) by lia.
    rewrite Z.pow_add_r by lia. apply Z.mul_le_mono_nonneg_r; [|lia]. apply Z.pow_nonneg; lia. }
  split; [|split]; [rewrite fexp_eq; unfold s, e' in *; rewrite fexp_eq in *; lia| |unfold e'; lia].
  assert (Zdigits2 q <= Z.max (dig m1 + s - dig m2 + 1) 0) as Hle.
  { apply Zdigits_le; [|lia]. split; [done|]. destruct (decide (0 <= dig m1 + s - dig m2 + 1)) as [H|H].
    - rewrite Z.max_l by lia. remember (dig m1 + s - dig m2 + 1) as t eqn:Et. apply (Z.mul_lt_mono_pos_l (Zpos m2)); [lia|]. apply Z.le_lt_trans with m'; [lia|]. rewrite Hm'.
      apply Z.lt_le_trans with (2 ^ dig m1 * 2 ^ s); [nia|]. rewrite <- Z.pow_add_r by lia. replace (dig m1 + s) with (dig m2 - 1 + t) by lia.
      rewrite Z.pow_add_r by lia. apply Z.mul_le_mono_nonneg_r; [apply Z.pow_nonneg; lia|done].
    - rewrite Z.max_r by lia. cbn. assert (m' < Zpos m2); [|nia]. rewrite Hm'. apply Z.lt_le_trans with (2 ^ dig m1 * 2 ^ s); [nia|]. rewrite <- Z.pow_add_r by lia.
      apply Z.le_trans with (2 ^ (dig m2 - 1)); [apply Z.pow_le_mono_r; lia|done]. }
  unfold s in *. lia.
Qed.

Lemma fdiv_small k x mc ec : -1000 <= k - (dig mc + ec) <= 1000 -> small k x -> small (k - (dig mc + ec) + 2) (fdiv x (S754_finite false mc ec)).
Proof.
  intros Hk. destruct x as [sx|sx| |sx mx ex]; cbn [small]; try done. intros (-> & Hx & Hd). unfold fdiv, SFdiv. cbn [xorb].
  destruct (div_core mx ex mc ec) as (q & e' & l & -> & Hq & He & Hle & He').
  destruct (round_aux_spec false q e' l Hq He) as (m & e & -> & H1 & H2 & H3 & _). rewrite fexp_eq in He'. apply rounded_small; auto; lia.
Qed.

(** ** What [ParseFloat] returns *)

Lemma digits_nonneg s : digits s = true -> forall n, 0 <= n -> 0 <= fold_left (fun n c => n * 10 + (byte_of c - 48)) (String.list_ascii_of_string s) n.
Proof.
  induction s as [|c s IH]; intros H n Hn; [done|]. cbn [digits] in H. apply andb_true_iff in H as [Hc H]. unfold isDigit in Hc. cbn. apply IH; [done|].
  apply andb_true_iff in Hc as [Hc _]. apply Z.leb_le in Hc. lia.
Qed.
Lemma span_digits_all s : digits (span_digits s).1 = true.
Proof. induction s as [|c s IH]; [done|]. cbn [span_digits]. destruct (isDigit c) eqn:E; [|done]. destruct (span_digits s) as [a b]. cbn [fst digits] in *. by rewrite E. Qed.
Lemma digits_app a b : digits a = true -> digits b = true -> digits (a +:+ b) = true.
Proof. induction a as [|c a IH]; [done|]. cbn [digits]. rewrite str_app_cons. cbn [digits]. intros H Hb. apply andb_true_iff in H as [-> H]. by apply IH. Qed.

Lemma rounded_not_below s m e : 0 <= m -> (forall p, m = Zpos p -> canon p e) -> (forall s', rounded s m e <> S754_infinity s') -> SFltb (rounded s m e) fzero = false -> nonneg (rounded s m e).
Proof. destruct m as [|p|p]; intros Hm Hc Hi; [done| |lia]. cbn [rounded] in *. destruct (e <=? 971); [|by destruct (Hi s)]. destruct s; [done|]. intros _. split; [done|by apply Hc]. Qed.

Lemma decimal_nonneg s m e x : 0 <= m -> decimal s m e = x -> (forall s', x <> S754_infinity s') -> SFltb x fzero = false -> nonneg x.
Proof.
  intros Hm <-. unfold decimal. destruct (m =? 0) eqn:E0; [done|]. apply Z.eqb_neq in E0. destruct (0 <=? e) eqn:Ee; [apply Z.leb_le in Ee|apply Z.leb_gt in Ee].
  - assert (0 < m * 10 ^ e) as Hp by (pose proof (Z.pow_pos_nonneg 10 e ltac:(lia) Ee); nia). destruct (m * 10 ^ e) as [|p|p]; [lia| |lia].
    destruct s; change (- Z.pos p) with (Z.neg p); unfold binary_normalize; [destruct (binary_round_spec true p 0) as (m' & e' & -> & H1 & H2 & _)|destruct (binary_round_spec false p 0) as (m' & e' & -> & H1 & H2 & _)]; by apply rounded_not_below.
  - destruct m as [|p|p]; [lia| |lia]. pose proof (Z.pow_pos_nonneg 10 (- e) ltac:(lia) ltac:(lia)) as Hp. destruct (10 ^ - e) as [|d|d]; [lia| |lia].
    destruct (div_core p 0 d 0) as (q & e' & l & -> & Hq & He & _). destruct (round_aux_spec s q e' l Hq He) as (m' & e2 & -> & H1 & H2 & _). by apply rounded_not_below.
Qed.

Lemma ParseFloat_nonneg s x : ParseFloat s = Some x -> SFltb x fzero = false -> nonneg x.
Proof.
  unfold ParseFloat. destruct (match s with EmptyString => _ | String c r => _ end) as [sign s1]. pose proof (span_digits_all s1) as Hi. destruct (span_digits s1) as [i s2].
  assert (digits (match s2 with String c r => if Ascii.eqb c "." then span_digits r else ("", s2) | EmptyString => ("", s2) end).1 = true) as Hf.
  { destruct s2 as [|c r]; [done|]. destruct (Ascii.eqb c "."); [apply span_digits_all|done]. }
  destruct (match s2 with EmptyString => ("", s2) | String c r => _ end) as [f s3]. cbn [fst] in *. set (e := match s3 with EmptyString => 0 | String _ r => _ end - _).
  pose proof (digits_nonneg (i +:+ f) (digits_app _ _ Hi Hf) 0 ltac:(lia)) as Hm. destruct (decimal sign _ e) eqn:E; intros [= <-]; revert E; intros E; apply (decimal_nonneg _ _ _ _ Hm E); done.
Qed.

End Float.
