(* ===== verification/CpuStream.v ===== *)
(** * The CPU stream ([internal/cpustream], [collector/cpu.go])

    One connection that the firewall holds open and writes a line of CPU percentages to
    each second.  The stream cuts the bytes into events, folds the percentages into
    cumulative seconds, and dials again when the connection ends or falls silent; the
    collector publishes what a snapshot says.

    A [float64] operation rounds once: the fusing of a product with a sum, which Go allows
    on some machines, is not modelled.  A reader returns its error by a call of its own,
    after all its bytes. *)

From stdpp Require Import base decidable list gmap strings.
From Stdlib Require Import ZArith Lia Ascii SpecFloat.
From S2P Require Import Prelude GoStrings Geo Registry GoRegexp Gauges GoJson GoFloat Scrape.
Import Ratio Json Float.

Module CpuStream.

Notation bytes := (list ascii).

(** ** A frame *)

Definition ModeUser : string := "user".
Definition ModeNice : string := "nice".
Definition ModeSystem : string := "system".
Definition ModeInterrupt : string := "interrupt".
Definition ModeIdle : string := "idle".
Definition Modes : list string := [ModeUser; ModeNice; ModeSystem; ModeInterrupt; ModeIdle].

Record frame := mkFrame { User : option spec_float; Nice : option spec_float; Sys : option spec_float; Intr : option spec_float; Idle : option spec_float }.
#[export] Instance eta_frame : Eta frame := fun f => mkFrame (User f) (Nice f) (Sys f) (Intr f) (Idle f).

(** [Unmarshal] takes one value with nothing but white space after it. *)
Definition Unmarshal (s : string) : option json :=
  match parse_value (2 * S (String.length s)) 0 s with
  | Some (v, r) => if str_empty (skip_ws r) then Some v else None
  | None => None
  end.

(** A key names a field up to case; of the characters outside ASCII the long s folds to a
    letter of these names. *)
Fixpoint foldName (s : string) : string :=
  match s with
  | String a rest =>
      match rest with
      | String b s' => if (nat_of_ascii a =? 197)%nat && (nat_of_ascii b =? 191)%nat then String "S" (foldName s') else String (Geo.upper_char a) (foldName rest)
      | EmptyString => String (Geo.upper_char a) ""
      end
  | EmptyString => ""
  end.

(** A pointer to a [float64]: [None] is a type or range error. *)
Definition float_field (v : json) : option (option spec_float) :=
  match v with
  | JNull => Some None
  | JNum lit => match ParseFloat lit with Some x => Some (Some x) | None => None end
  | _ => None
  end.

Definition decode_member (f : frame) (m : string * json) : option frame :=
  let key := foldName m.1 in
  if str_eq key "USER" then (fun v => f <| User := v |>) <$> float_field m.2
  else if str_eq key "NICE" then (fun v => f <| Nice := v |>) <$> float_field m.2
  else if str_eq key "SYS" then (fun v => f <| Sys := v |>) <$> float_field m.2
  else if str_eq key "INTR" then (fun v => f <| Intr := v |>) <$> float_field m.2
  else if str_eq key "IDLE" then (fun v => f <| Idle := v |>) <$> float_field m.2
  else Some f.
Definition no_frame : frame := mkFrame None None None None None.
Definition decode_frame (v : json) : option frame :=
  match v with
  | JNull => Some no_frame
  | JObj l => fold_left (fun acc m => acc ≫= fun f => decode_member f m) l (Some no_frame)
  | _ => None
  end.

Definition hundred_one : spec_float := float64 101.
Definition percentage (v : option spec_float) : option spec_float :=
  match v with Some x => if SFltb x fzero || SFltb hundred_one x then None else Some x | None => None end.

Definition parseFrame (b : bytes) : option (gmap string spec_float) :=
  v ← Unmarshal (String.string_of_list_ascii b);
  f ← decode_frame v;
  foldr (fun p acc => x ← percentage p.2; m ← acc; Some (<[p.1 := x]> m)) (Some ∅)
    [(ModeUser, User f); (ModeNice, Nice f); (ModeSystem, Sys f); (ModeInterrupt, Intr f); (ModeIdle, Idle f)].

(** ** The accumulator *)

Record accumulator := mkAcc { total : gmap string spec_float; acc_last : Time; maxGap : Duration }.
#[export] Instance eta_accumulator : Eta accumulator := fun a => mkAcc (total a) (acc_last a) (maxGap a).

Definition newAccumulator (maxGap : Duration) : accumulator := mkAcc ∅ zero_time maxGap.
Definition acc_beginConnection (a : accumulator) : accumulator := a <| acc_last := zero_time |>.

(** [Duration.Seconds] *)
Definition Seconds (d : Duration) : spec_float := fadd (float64 (Z.quot d Second)) (fdiv (float64 (Z.rem d Second)) (float64 1000000000)).

Definition share (pct : gmap string spec_float) (secs : spec_float) (mode : string) : spec_float :=
  fmul (fdiv (default fzero (pct !! mode)) (float64 100)) secs.
Definition acc_observe (pct : gmap string spec_float) (at_ : Time) (a : accumulator) : accumulator :=
  let prev := acc_last a in
  let a := a <| acc_last := at_ |> in
  if IsZero prev then a
  else
    let elapsed := time_Sub at_ prev in
    if (elapsed <=? 0) || (maxGap a <? elapsed) then a
    else
      let secs := Seconds elapsed in
      a <| total ::= fun t => fold_left (fun t mode => <[mode := fadd (default fzero (t !! mode)) (share pct secs mode)]> t) Modes t |>.
Definition acc_seconds (a : accumulator) : gmap string spec_float :=
  foldr (fun mode out => <[mode := default fzero (total a !! mode)]> out) ∅ Modes.

(** ** Reading events *)

Definition NL : ascii := "010".
Definition CR : ascii := "013".
Definition maxFrameBytes : Z := 64 * 1024.
Definition bufSize : nat := Z.to_nat 4096.

Inductive readError := EOF | LineTooLong | FrameTooLong | ReadFailed.

Fixpoint cut_at (c : ascii) (l : bytes) : option (bytes * bytes) :=
  match l with
  | [] => None
  | d :: l => if Ascii.eqb d c then Some ([], l) else match cut_at c l with Some (a, b) => Some (d :: a, b) | None => None end
  end.
Definition ends_CR (l : bytes) : bool := match last l with Some c => Ascii.eqb c CR | None => false end.
Definition dropCR (l : bytes) : bytes := if ends_CR l then removelast l else l.

(** [bufio.Reader.ReadLine] over the bytes still to come, then [e] for ever.  A line that
    does not fit the buffer comes in parts, and no part ends between a CR and a LF. *)
Definition ReadLine (r : bytes) (e : readError) : bytes * bool * option readError * bytes :=
  match cut_at NL (take bufSize r) with
  | Some (line, _) => (dropCR line, false, None, drop (S (length line)) r)
  | None =>
      if (bufSize <=? length r)%nat then
        if ends_CR (take bufSize r) then (take (bufSize - 1) r, true, None, drop (bufSize - 1) r) else (take bufSize r, true, None, drop bufSize r)
      else match r with [] => ([], false, Some e, []) | _ => (r, false, None, []) end
  end.

Fixpoint readLine_fuel (fuel : nat) (out r : bytes) (e : readError) : option (bytes * option readError * bytes) :=
  match fuel with
  | O => None
  | S fuel =>
      let '(chunk, more, err, r) := ReadLine r e in
      let out := out ++ chunk in
      if maxFrameBytes <? zlen out then Some (out, Some LineTooLong, r)
      else match err with
           | Some x => Some (out, Some x, r)
           | None => if more then readLine_fuel fuel out r e else Some (out, None, r)
           end
  end.
Definition readLine (r : bytes) (e : readError) : option (bytes * option readError * bytes) := readLine_fuel (S (length r)) [] r e.

Definition data_name : bytes := String.list_ascii_of_string "data".
Definition trim_space (v : bytes) : bytes := match v with c :: v' => if Ascii.eqb c " " then v' else v | [] => v end.

(** What one line does to the pending data, and the frame it completes. *)
Definition take_line (data line : bytes) : bytes * list (gmap string spec_float) :=
  match line with
  | [] => match data with [] => (data, []) | _ => ([], match parseFrame data with Some pct => [pct] | None => [] end) end
  | c :: _ =>
      if Ascii.eqb c ":" then (data, [])
      else match cut_at ":" line with
           | Some (field, value) => if decide (field = data_name) then (data ++ trim_space value, []) else (data, [])
           | None => (data, [])
           end
  end.

Fixpoint readFrames_fuel (fuel : nat) (data r : bytes) (e : readError) : option (list (gmap string spec_float) * readError) :=
  match fuel with
  | O => None
  | S fuel =>
      '(line, err, r) ← readLine r e;
      let '(data, out) := if (0 <? zlen line) || (match err with None => true | Some _ => false end) then take_line data line else (data, []) in
      match err with
      | Some x => Some (out, x)
      | None =>
          if maxFrameBytes <? zlen data then Some (out, FrameTooLong)
          else '(outs, x) ← readFrames_fuel fuel data r e; Some (out ++ outs, x)
      end
  end.
(** The frames [onFrame] is called with, in order, and the error. *)
Definition readFrames (r : bytes) (e : readError) : option (list (gmap string spec_float) * readError) := readFrames_fuel (S (S (length r))) [] r e.

Definition text (s : string) : bytes := String.list_ascii_of_string s.
Definition sample_payload : bytes :=
  text "{" ++ [dq] ++ text "total" ++ [dq] ++ text ": 9, " ++ [dq] ++ text "user" ++ [dq] ++ text ": 4, " ++ [dq] ++ text "nice" ++ [dq] ++ text ": 0, "
  ++ [dq] ++ text "sys" ++ [dq] ++ text ": 5, " ++ [dq] ++ text "intr" ++ [dq] ++ text ": 0, " ++ [dq] ++ text "idle" ++ [dq] ++ text ": 91}".
Definition sample_pct : gmap string spec_float :=
  list_to_map [(ModeUser, float64 4); (ModeNice, float64 0); (ModeSystem, float64 5); (ModeInterrupt, float64 0); (ModeIdle, float64 91)].
Example sample_frame : parseFrame sample_payload = Some sample_pct.
Proof. vm_compute. reflexivity. Qed.
Example sample_body : readFrames (text ": hi" ++ [NL] ++ text "event: message" ++ [CR; NL] ++ text "data: " ++ sample_payload ++ [NL; NL] ++ text "data: x" ++ [NL; NL] ++ text "data: 1") EOF = Some ([sample_pct], EOF).
Proof. vm_compute. reflexivity. Qed.

(** *** A line is what stands before a LF, without the CR before it *)

Lemma bufSize_two : (2 <= bufSize)%nat.
Proof. unfold bufSize. lia. Qed.

Lemma cut_at_Some c l a b : cut_at c l = Some (a, b) <-> l = a ++ c :: b /\ c ∉ a.
Proof.
  revert a. induction l as [|d l IH]; intros a; cbn [cut_at].
  { split; [done|]. intros [H _]. by destruct a. }
  destruct (Ascii.eqb_spec d c) as [->|Hd].
  - split; [intros [= <- <-]; split; [done|apply not_elem_of_nil]|]. intros [H Ha]. destruct a as [|x a]; [by injection H as ->|]. injection H as -> ->. by destruct Ha; left.
  - destruct (cut_at c l) as [[x y]|] eqn:E.
    + split.
      * intros [= <- <-]. destruct (IH x) as [H _]. destruct (H eq_refl) as [-> Hx]. split; [done|]. rewrite elem_of_cons. by intros [->|].
      * intros [H Ha]. destruct a as [|z a]; [by injection H as ->|]. injection H as -> ->. rewrite elem_of_cons in Ha. destruct (IH a) as [_ H]. specialize (H ltac:(by split; auto)). by injection H as -> ->.
    + split; [done|]. intros [H Ha]. destruct a as [|z a]; [by injection H as ->|]. injection H as -> ->. rewrite elem_of_cons in Ha. destruct (IH a) as [_ H]. by specialize (H ltac:(by split; auto)).
Qed.

Lemma cut_at_None c l : cut_at c l = None <-> c ∉ l.
Proof.
  induction l as [|d l IH]; cbn [cut_at]; [split; [intros _; apply not_elem_of_nil|done]|]. rewrite elem_of_cons. destruct (Ascii.eqb_spec d c) as [->|Hd]; [split; [done|]; intros H; by destruct H; left|].
  destruct (cut_at c l) as [[a b]|]; [split; [done|]; intros H; exfalso; apply H; right; destruct (decide (c ∈ l)) as [Hc|Hc]; [done|by apply IH in Hc]|].
  split; [|done]. intros _ [->|H]; [done|]. by apply IH.
Qed.

Lemma ends_CR_app a b : b <> [] -> ends_CR (a ++ b) = ends_CR b.
Proof. intros Hb. unfold ends_CR. destruct b as [|x b] using rev_ind; [done|]. by rewrite app_assoc, !last_snoc. Qed.
Lemma dropCR_app a b : b <> [] -> dropCR (a ++ b) = a ++ dropCR b.
Proof. intros Hb. unfold dropCR. rewrite ends_CR_app by done. destruct (ends_CR b); [by rewrite removelast_app|done]. Qed.
Lemma dropCR_length l : (length (dropCR l) <= length l)%nat.
Proof. unfold dropCR. destruct (ends_CR l); [|done]. destruct l as [|x l] using rev_ind; [done|]. rewrite removelast_last, length_app. cbn. lia. Qed.

(** A part of a line that does not fit the buffer. *)
Lemma ReadLine_part r e : NL ∉ take bufSize r -> (bufSize <= length r)%nat ->
  exists k, (0 < k)%nat /\ (k <= length r)%nat /\ ReadLine r e = (take k r, true, None, drop k r) /\ NL ∉ take k r /\ (k = length r -> ends_CR r = false)
    /\ (k <= bufSize)%nat /\ (k = bufSize -> ends_CR (take bufSize r) = false).
Proof.
  intros Hn Hl. pose proof bufSize_two. unfold ReadLine. rewrite (proj2 (cut_at_None _ _) Hn), (proj2 (Nat.leb_le _ _) Hl).
  destruct (ends_CR (take bufSize r)) eqn:E.
  - exists (bufSize - 1)%nat. split; [lia|]. split; [lia|]. split; [done|]. split; [|split; [lia|split; lia]].
    intros H'. apply Hn. apply elem_of_take in H' as (i & Hi & Hlt). apply elem_of_take. exists i. split; [done|lia].
  - exists bufSize. split; [lia|]. split; [done|]. split; [done|]. split; [done|]. split; [|done]. intros Heq. rewrite take_ge in E by lia. done.
Qed.

Lemma take_before {A} (raw rest : list A) (x : A) n : (n <= length raw)%nat -> take n (raw ++ x :: rest) = take n raw /\ drop n (raw ++ x :: rest) = drop n raw ++ x :: rest.
Proof. intros H. split; [by rewrite take_app_le|]. rewrite drop_app. replace (n - length raw)%nat with 0%nat by lia. done. Qed.

Lemma readLine_line e raw rest : NL ∉ raw -> forall fuel out, (length raw < fuel)%nat -> zlen out <= maxFrameBytes ->
  if maxFrameBytes <? zlen (out ++ dropCR raw)
  then exists o r, readLine_fuel fuel out (raw ++ NL :: rest) e = Some (o, Some LineTooLong, r) /\ o <> []
  else readLine_fuel fuel out (raw ++ NL :: rest) e = Some (out ++ dropCR raw, None, rest).
Proof.
  intros Hnl fuel. revert raw Hnl. induction fuel as [|fuel IH]; intros raw Hnl out Hf Ho; [lia|]. cbn [readLine_fuel].
  assert (forall (o : bytes), maxFrameBytes <? zlen o = true -> o <> []) as Hne by (intros [|? ?] H; [vm_compute in H; discriminate|done]).
  destruct (decide (NL ∈ take bufSize (raw ++ NL :: rest))) as [Hin|Hin].
  - assert (length raw < bufSize)%nat as Hlen.
    { destruct (decide (length raw < bufSize)%nat); [done|]. exfalso. destruct (take_before raw rest NL bufSize ltac:(lia)) as [Ht _]. rewrite Ht in Hin. apply Hnl.
      apply elem_of_take in Hin as (i & Hi & _). by apply list_elem_of_lookup_2 in Hi. }
    assert (ReadLine (raw ++ NL :: rest) e = (dropCR raw, false, None, rest)) as ->.
    { unfold ReadLine. assert (exists b, cut_at NL (take bufSize (raw ++ NL :: rest)) = Some (raw, b)) as [b ->].
      { exists (take (bufSize - length raw - 1) rest). apply cut_at_Some. split; [|done]. rewrite take_app_ge by lia. f_equal. destruct (bufSize - length raw)%nat as [|k] eqn:Ek; [lia|].
        cbn [take]. f_equal. f_equal. lia. }
      f_equal. change (S (length raw)) with (1 + length raw)%nat. rewrite Nat.add_comm, <- drop_drop, drop_app_length. done. }
    destruct (maxFrameBytes <? zlen (out ++ dropCR raw)) eqn:E; [|done]. exists (out ++ dropCR raw), rest. split; [done|by apply Hne].
  - assert (bufSize <= length raw)%nat as Hlen.
    { destruct (decide (bufSize <= length raw)%nat); [done|]. exfalso. apply Hin. rewrite take_app_ge by lia. apply elem_of_app. right. destruct (bufSize - length raw)%nat as [|k] eqn:Ek; [lia|]. by left. }
    destruct (ReadLine_part (raw ++ NL :: rest) e Hin) as (k & Hk0 & _ & -> & _ & _ & Hkb & Hcr); [rewrite length_app; cbn; lia|].
    destruct (take_before raw rest NL k ltac:(lia)) as [-> ->].
    assert (dropCR raw = take k raw ++ dropCR (drop k raw)) as Hd.
    { rewrite <- (take_drop k raw) at 1. destruct (drop k raw) as [|c l] eqn:Ed; [|by rewrite dropCR_app]. assert (length (drop k raw) = 0%nat) as Hz by by rewrite Ed.
      rewrite length_drop in Hz. assert (k = bufSize) as -> by lia. rewrite app_nil_r. change (dropCR []) with (@nil ascii). rewrite app_nil_r. unfold dropCR.
      destruct (take_before raw rest NL bufSize Hlen) as [Ht _]. rewrite Ht in Hcr. by rewrite Hcr. }
    rewrite Hd, app_assoc. destruct (maxFrameBytes <? zlen (out ++ take k raw)) eqn:E1.
    + assert (maxFrameBytes <? zlen ((out ++ take k raw) ++ dropCR (drop k raw)) = true) as ->; [|by eexists _, _; split; [done|apply Hne]].
      apply Z.ltb_lt in E1. apply Z.ltb_lt. unfold zlen in *. rewrite length_app. lia.
    + apply IH; [|rewrite length_drop; lia|by apply Z.ltb_ge in E1]. intros H. apply Hnl. apply list_elem_of_lookup in H as [i Hi]. rewrite lookup_drop in Hi. by apply list_elem_of_lookup_2 in Hi.
Qed.

(** What is left without a LF: a line and the error, or the error with it. *)
Lemma readLine_tail e r : NL ∉ r -> forall fuel out, (length r < fuel)%nat -> zlen (out ++ r) <= maxFrameBytes ->
  exists x, readLine_fuel fuel out r e = Some (out ++ r, x, []) /\ (x = None \/ x = Some e) /\ (r = [] -> x = Some e).
Proof.
  intros Hnl fuel. revert r Hnl. induction fuel as [|fuel IH]; intros r Hnl out Hf Ho; [lia|]. cbn [readLine_fuel].
  assert (forall n, NL ∉ take n r) as Htake by (intros n H; apply Hnl; apply elem_of_take in H as (i & Hi & _); by apply list_elem_of_lookup_2 in Hi).
  assert (forall n, NL ∉ drop n r) as Hdrop by (intros n H; apply Hnl; apply list_elem_of_lookup in H as [i Hi]; rewrite lookup_drop in Hi; by apply list_elem_of_lookup_2 in Hi).
  destruct (decide (bufSize <= length r)%nat) as [Hl|Hl].
  - destruct (ReadLine_part r e (Htake _) Hl) as (k & Hk0 & Hkl & -> & _). rewrite (proj2 (Z.ltb_ge _ _)).
    + destruct (IH (drop k r) (Hdrop k) (out ++ take k r)) as (x & Hx & Hx1 & _); [rewrite length_drop; lia|by rewrite <- app_assoc, take_drop|].
      exists x. rewrite Hx, <- app_assoc, take_drop. split; [done|]. split; [done|]. intros ->. cbn in Hkl. lia.
    + unfold zlen in *. rewrite length_app in Ho |- *. rewrite length_take. lia.
  - unfold ReadLine. rewrite (proj2 (cut_at_None _ _) (Htake _)), (proj2 (Nat.leb_gt _ _)) by lia. destruct r as [|c r].
    + rewrite (proj2 (Z.ltb_ge _ _)) by done. exists (Some e). split; [done|]. auto.
    + rewrite (proj2 (Z.ltb_ge _ _)) by done. exists None. split; [done|]. split; [by left|done].
Qed.

(** *** Events as they are written *)

Inductive item := IComment (t : bytes) | IField (name value : bytes) | IData (v : bytes) | IBlank.
Definition item_line (it : item) : bytes :=
  match it with
  | IComment t => ":"%char :: t
  | IField n v => n ++ ":"%char :: v
  | IData v => data_name ++ ":"%char :: " "%char :: v
  | IBlank => []
  end.
(** A line ends in LF or in CR LF. *)
Definition render (items : list (item * bool)) : bytes := concat (map (fun p => item_line p.1 ++ (if p.2 : bool then [CR; NL] else [NL])) items).
Definition item_ok (p : item * bool) : Prop :=
  NL ∉ item_line p.1 /\ zlen (item_line p.1) <= maxFrameBytes /\ (p.2 = false -> ends_CR (item_line p.1) = false)
  /\ match p.1 with IField n _ => n <> [] /\ n <> data_name /\ ":"%char ∉ n | _ => True end.

(** The payloads the blank lines complete, and the data after the last. *)
Fixpoint payloads (cur : bytes) (items : list (item * bool)) : list bytes * bytes :=
  match items with
  | [] => ([], cur)
  | (it, _) :: items =>
      match it with
      | IData v => payloads (cur ++ v) items
      | IBlank => match cur with [] => payloads [] items | _ => let '(ps, rest) := payloads [] items in (cur :: ps, rest) end
      | _ => payloads cur items
      end
  end.

Lemma payloads_bound items : forall cur, Forall (fun p => zlen p <= maxFrameBytes) (payloads cur items).1 -> zlen (payloads cur items).2 <= maxFrameBytes -> zlen cur <= maxFrameBytes.
Proof.
  induction items as [|[it crlf] items IH]; intros cur H1 H2; [done|]. cbn [payloads] in H1, H2. destruct it as [t|n v|v|]; [eauto|eauto| |].
  - specialize (IH _ H1 H2). unfold zlen in *. rewrite length_app in IH. lia.
  - destruct cur as [|c cur]; [done|]. destruct (payloads [] items) as [ps rest]. by inversion H1.
Qed.

Lemma take_item data it crlf : item_ok (it, crlf) ->
  take_line data (item_line it) = match it with
                                  | IData v => (data ++ v, [])
                                  | IBlank => match data with [] => ([], []) | _ => ([], option_list (parseFrame data)) end
                                  | _ => (data, [])
                                  end.
Proof.
  intros (Hn & _ & _ & Hf). destruct it as [t|n v|v|]; cbn [fst item_line] in *.
  - done.
  - destruct Hf as (Hne & Hd & Hc). assert (cut_at ":" (n ++ ":"%char :: v) = Some (n, v)) as Hcut by by apply cut_at_Some. unfold take_line. rewrite Hcut.
    destruct n as [|c n]; [done|]. cbn [app]. destruct (Ascii.eqb_spec c ":") as [->|]; [by destruct Hc; left|]. by rewrite decide_False.
  - reflexivity.
  - cbn. destruct data; [done|]. by destruct (parseFrame _).
Qed.

Lemma take_line_len data line : zlen (take_line data line).1 <= zlen data + zlen line /\ (line <> [] -> (take_line data line).2 = []).
Proof.
  pose proof (fun l : bytes => Nat2Z.is_nonneg (length l)) as Hp. destruct line as [|c line]; cbn [take_line].
  { split; [|done]. destruct data; unfold zlen in *; cbn; lia. }
  destruct (Ascii.eqb c ":"); [split; [unfold zlen in *; cbn; lia|done]|]. destruct (cut_at ":" (c :: line)) as [[f v]|] eqn:E; [|split; [unfold zlen in *; cbn; lia|done]].
  apply cut_at_Some in E as [E _]. rewrite E. destruct (decide (f = data_name)); (split; [|done]); unfold zlen; cbn; rewrite ?length_app; cbn; [|lia].
  assert (length (trim_space v) <= length v)%nat; [|lia]. destruct v as [|d v]; cbn; [lia|]. destruct (Ascii.eqb d " "); cbn; lia.
Qed.

Lemma readFrames_tail data tail e fuel : NL ∉ tail -> zlen data + zlen tail <= maxFrameBytes -> readFrames_fuel (S (S fuel)) data tail e = Some ([], e).
Proof.
  intros Hn Hl. assert (zlen tail <= maxFrameBytes) as Ht by (unfold zlen in *; lia).
  destruct (readLine_tail e tail Hn (S (length tail)) [] ltac:(lia) Ht) as (x & Hx & Hc & Hnil). cbn [readFrames_fuel]. change (readLine tail e) with (readLine_fuel (S (length tail)) [] tail e). rewrite Hx. cbn [mbind option_bind app].
  destruct (take_line_len data tail) as [Hlen Hno]. destruct Hc as [-> | ->].
  - destruct tail as [|c tail]; [specialize (Hnil eq_refl); discriminate|]. rewrite orb_true_r. specialize (Hno ltac:(done)). destruct (take_line data (c :: tail)) as [d out]. cbn in Hno. subst out.
    rewrite (proj2 (Z.ltb_ge _ _)) by (cbn [fst] in Hlen; lia). reflexivity.
  - destruct (0 <? zlen tail) eqn:E; [|done]. cbn [orb]. destruct tail as [|c tail]; [done|]. specialize (Hno ltac:(done)). destruct (take_line data (c :: tail)) as [d out]. cbn in Hno. by subst out.
Qed.

Lemma readFrames_items items tail e : Forall item_ok items -> NL ∉ tail -> forall cur fuel,
  Forall (fun p => zlen p <= maxFrameBytes) (payloads cur items).1 -> zlen (payloads cur items).2 + zlen tail <= maxFrameBytes ->
  (length items + 2 <= fuel)%nat -> readFrames_fuel fuel cur (render items ++ tail) e = Some (omap parseFrame (payloads cur items).1, e).
Proof.
  intros Hok Hn. induction Hok as [|[it crlf] items Hit Hok IH]; intros cur fuel Hp Ht Hf.
  { destruct fuel as [|[|fuel]]; cbn in Hf; [lia..|]. by apply readFrames_tail. }
  destruct fuel as [|fuel]; [lia|]. cbn [length] in Hf. pose proof (payloads_bound items) as Hb.
  assert (0 <= zlen tail) as Htail by (unfold zlen; lia). pose proof (take_item cur it crlf Hit) as Htake. destruct Hit as (Hnl & Hlen & Hcr & _). cbn [fst snd] in *.
  set (raw := item_line it ++ (if crlf then [CR] else [])). assert (NL ∉ raw) as Hraw.
  { unfold raw. rewrite elem_of_app. intros [H|H]; [done|]. destruct crlf; [|by apply elem_of_nil in H]. apply list_elem_of_singleton in H. discriminate. }
  assert (dropCR raw = item_line it) as Hdrop.
  { unfold raw. destruct crlf; [by rewrite dropCR_app, app_nil_r|]. rewrite app_nil_r. unfold dropCR. by rewrite (Hcr eq_refl). }
  assert (render ((it, crlf) :: items) ++ tail = raw ++ NL :: (render items ++ tail)) as Hr.
  { unfold render, raw. cbn [map concat fst snd]. rewrite <- !app_assoc. f_equal. by destruct crlf. }
  rewrite Hr. cbn [readFrames_fuel]. change (readLine ?r e) with (readLine_fuel (S (length r)) [] r e).
  pose proof (readLine_line e raw (render items ++ tail) Hraw (S (length (raw ++ NL :: render items ++ tail))) []) as Hline. rewrite Hdrop in Hline. cbn [app] in Hline.
  rewrite (proj2 (Z.ltb_ge _ _) Hlen) in Hline. rewrite Hline; [|rewrite length_app; cbn; lia|vm_compute; discriminate]. cbn [mbind option_bind]. rewrite orb_true_r, Htake. clear Htake Hline Hr.
  destruct it as [t|n v|v|]; cbn [payloads] in Hp, Ht |- *.
  - rewrite (proj2 (Z.ltb_ge _ _)) by (apply Hb; [done|lia]). rewrite IH by (done || lia). done.
  - rewrite (proj2 (Z.ltb_ge _ _)) by (apply Hb; [done|lia]). rewrite IH by (done || lia). done.
  - rewrite (proj2 (Z.ltb_ge _ _)) by (apply Hb; [done|lia]). rewrite IH by (done || lia). done.
  - destruct cur as [|c cur].
    + change (maxFrameBytes <? zlen []) with false. cbn [orb]. rewrite IH by (done || lia). done.
    + change (maxFrameBytes <? zlen []) with false. destruct (payloads [] items) as [ps rest] eqn:Eps. cbn [fst snd] in Hp, Ht |- *. rewrite IH; rewrite ?Eps; [|by inversion Hp|done|lia].
      cbn [mbind option_bind fst omap list_omap]. by destruct (parseFrame (c :: cur)).
Qed.

(** *** Every body is read to its end *)

Lemma ReadLine_progress r e : let '(chunk, more, err, r') := ReadLine r e in
  match err with Some _ => r = [] /\ more = false | None => (length r' < length r)%nat end.
Proof.
  pose proof bufSize_two. unfold ReadLine. destruct (cut_at NL (take bufSize r)) as [[line rest]|] eqn:E.
  - apply cut_at_Some in E as [E _]. rewrite length_drop. assert (length (take bufSize r) = length line + S (length rest))%nat as Hl by (rewrite E, length_app; done). rewrite length_take in Hl. lia.
  - destruct (bufSize <=? length r)%nat eqn:El.
    + apply Nat.leb_le in El. destruct (ends_CR _); rewrite length_drop; lia.
    + destruct r; cbn; [done|lia].
Qed.

Lemma readLine_total e : forall fuel out r, (length r < fuel)%nat -> exists o err r', readLine_fuel fuel out r e = Some (o, err, r') /\ (err = None -> (length r' < length r)%nat).
Proof.
  induction fuel as [|fuel IH]; intros out r Hf; [lia|]. cbn [readLine_fuel]. pose proof (ReadLine_progress r e) as Hp. destruct (ReadLine r e) as [[[chunk more] err] r'].
  destruct (maxFrameBytes <? zlen (out ++ chunk)); [by eexists _, _, _|]. destruct err as [x|]; [by eexists _, _, _|]. destruct more; [|by eexists _, _, _].
  destruct (IH (out ++ chunk) r' ltac:(lia)) as (o & err & r2 & -> & H). exists o, err, r2. split; [done|]. intros He. specialize (H He). lia.
Qed.

Lemma readFrames_total e : forall fuel data r, (length r < fuel)%nat -> is_Some (readFrames_fuel fuel data r e).
Proof.
  induction fuel as [|fuel IH]; intros data r Hf; [lia|]. cbn [readFrames_fuel]. destruct (readLine_total e (S (length r)) [] r ltac:(lia)) as (o & err & r' & Hr & Hp).
  change (readLine r e) with (readLine_fuel (S (length r)) [] r e). rewrite Hr. cbn [mbind option_bind]. destruct (if _ || _ then take_line data o else _) as [d out].
  destruct err as [x|]; [done|]. destruct (maxFrameBytes <? zlen d); [done|]. destruct (IH d r') as [[outs x] ->]; [specialize (Hp eq_refl); lia|done].
Qed.

Lemma render_length items : (length items <= length (render items))%nat.
Proof. induction items as [|[it crlf] items IH]; [done|]. unfold render in *. cbn [map concat]. rewrite !length_app. destruct crlf; cbn in *; lia. Qed.

(** [C34] Any body is read to its end.  One written as lines of comments, other fields, data
    and blank lines, each ended by LF or by CR LF, within the size bounds and whatever
    incomplete line follows, gives exactly the frames of its payloads in order, and then
    the reader's own error. *)
Theorem sse_exact items tail e : Forall item_ok items -> NL ∉ tail -> Forall (fun p => zlen p <= maxFrameBytes) (payloads [] items).1 ->
  zlen (payloads [] items).2 + zlen tail <= maxFrameBytes ->
  readFrames (render items ++ tail) e = Some (omap parseFrame (payloads [] items).1, e) /\ forall body, is_Some (readFrames body e).
Proof.
  intros Hok Hn Hp Ht. split; [|intros body; apply readFrames_total; lia]. apply readFrames_items; try done. rewrite length_app. pose proof (render_length items). lia.
Qed.

Definition sample_items : list (item * bool) :=
  [(IComment (text " keepalive"), false); (IField (text "event") (text " message"), true); (IData sample_payload, true); (IBlank, true); (IBlank, false); (IData (text "{}"), false); (IBlank, false)].

Lemma sse_exact_witness : readFrames (render sample_items ++ text "data: 1") ReadFailed = Some ([sample_pct], ReadFailed) /\ forall body, is_Some (readFrames body ReadFailed).
Proof.
  assert (omap parseFrame (payloads [] sample_items).1 = [sample_pct]) as <- by (vm_compute; reflexivity). apply (sse_exact sample_items (text "data: 1") ReadFailed).
  - repeat constructor; cbn [fst snd]; try (vm_compute; (discriminate || reflexivity || (intros; discriminate)));
      try (apply (bool_decide_unpack _); vm_compute; exact I).
  - apply (bool_decide_unpack _). vm_compute. exact I.
  - apply (bool_decide_unpack _). vm_compute. exact I.
  - vm_compute. discriminate.
Defined.

(** ** The stream *)

Record Config := mkConfig { StallAfter : Duration; GracePeriod : Duration; MaxFrameGap : Duration; MinBackoff : Duration; MaxBackoff : Duration }.
#[export] Instance eta_Config : Eta Config := fun c => mkConfig (StallAfter c) (GracePeriod c) (MaxFrameGap c) (MinBackoff c) (MaxBackoff c).

Definition defaultStallAfter : Duration := 10 * Second.
Definition DefaultGracePeriod : Duration := 60 * Second.
Definition defaultMaxFrameGap : Duration := 5 * Second.
Definition defaultMinBackoff : Duration := 1 * Second.
Definition defaultMaxBackoff : Duration := 60 * Second.

Definition withDefaults (c : Config) : Config :=
  let c := if StallAfter c <=? 0 then c <| StallAfter := defaultStallAfter |> else c in
  let c := if GracePeriod c <=? 0 then c <| GracePeriod := DefaultGracePeriod |> else c in
  let c := if MaxFrameGap c <=? 0 then c <| MaxFrameGap := defaultMaxFrameGap |> else c in
  let c := if MinBackoff c <=? 0 then c <| MinBackoff := defaultMinBackoff |> else c in
  let c := if MaxBackoff c <? MinBackoff c then c <| MaxBackoff := defaultMaxBackoff |> else c in
  if MaxBackoff c <? MinBackoff c then c <| MaxBackoff := MinBackoff c |> else c.

Record Stream := mkStream { scfg : Config; acc : accumulator; lastFrame : Time; connected : bool; reconnects : Z; frames : Z }.
#[export] Instance eta_Stream : Eta Stream := fun s => mkStream (scfg s) (acc s) (lastFrame s) (connected s) (reconnects s) (frames s).

Definition New (cfg : Config) : Stream :=
  let cfg := withDefaults cfg in mkStream cfg (newAccumulator (MaxFrameGap cfg)) zero_time false 0 0.

Definition redial (s : Stream) : Stream := s <| reconnects ::= incr |>.
Definition beginConnection (s : Stream) : Stream := s <| connected := true |> <| acc ::= acc_beginConnection |>.
Definition endConnection (s : Stream) : Stream := s <| connected := false |>.
Definition observe (pct : gmap string spec_float) (now : Time) (s : Stream) : Stream :=
  s <| acc ::= acc_observe pct now |> <| lastFrame := now |> <| frames ::= incr |>.

Record Snapshot_ := mkSnapshot { Connected : bool; HaveFrame : bool; LastFrameAge : Duration; Reconnects : Z; Frames : Z; Fresh : bool; SecondsOf : gmap string spec_float }.

Definition Snapshot (now : Time) (s : Stream) : Snapshot_ :=
  let have := negb (IsZero (lastFrame s)) in
  let age := if have then time_Sub now (lastFrame s) else 0 in
  mkSnapshot (connected s) have age (reconnects s) (frames s) (have && (age <=? GracePeriod (scfg s))) (acc_seconds (acc s)).

(** The critical sections of the goroutine of [run], in the order it enters them; a
    snapshot is taken between two of them. *)
Inductive event := Redial | Begin | Frame (pct : gmap string spec_float) (now : Time) | End_.
Definition step (s : Stream) (e : event) : Stream :=
  match e with Redial => redial s | Begin => beginConnection s | Frame pct now => observe pct now s | End_ => endConnection s end.
Definition exec (s : Stream) (evs : list event) : Stream := fold_left step evs s.

(** What a dial meets: an error, or a body with its end and the clock at each frame. *)
Inductive dial := Refused | Opened (body : bytes) (ending : readError) (clock : nat -> Time).
Definition connectOnce (d : dial) : list event * bool :=
  match d with
  | Refused => ([], false)
  | Opened body ending clock =>
      let pcts := match readFrames body ending with Some (pcts, _) => pcts | None => [] end in
      (Begin :: imap (fun i pct => Frame pct (clock i)) pcts ++ [End_], match pcts with [] => false | _ => true end)
  end.

(** A round of [run]: the dial, whether the context was cancelled when the connection
    ended, and whether the sleep ran out.  No more rounds: cancelled at the loop's head. *)
Record round := mkRound { rDial : dial; rCancelled : bool; rWoke : bool }.
Fixpoint run_from (cfg : Config) (first : bool) (backoff : Duration) (rounds : list round) : list event * list Duration :=
  match rounds with
  | [] => ([], [])
  | r :: rounds =>
      let dialled := if first then [] else [Redial] in
      let '(evs, delivered) := connectOnce (rDial r) in
      if rCancelled r then (dialled ++ evs, [])
      else
        let backoff := if delivered : bool then MinBackoff cfg else backoff in
        if negb (rWoke r) then (dialled ++ evs, [backoff])
        else
          let next := s64 (backoff * 2) in
          let next := if MaxBackoff cfg <? next then MaxBackoff cfg else next in
          let '(more, sleeps) := run_from cfg false next rounds in
          (dialled ++ evs ++ more, backoff :: sleeps)
  end.
Definition run (cfg : Config) (rounds : list round) : list event * list Duration :=
  let cfg := withDefaults cfg in run_from cfg true (MinBackoff cfg) rounds.

(** A tick of the watchdog: whether it cancels the connection. *)
Definition watchdog_tick (cfg : Config) (started last now : Time) : bool :=
  let last := if Before last started then started else last in
  StallAfter cfg <? time_Sub now last.

(** ** The collector *)

Record CpuMetric := mkCpuMetric { cName : string; cType : Scrape.ValueType; cValue : spec_float; cLabels : list string }.
Definition zero_snapshot : Snapshot_ := mkSnapshot false false 0 0 0 false ∅.
Definition holder_snapshot (src : option Snapshot_) : Snapshot_ := default zero_snapshot src.

Definition cpu_update (instance : string) (src : option Snapshot_) : list CpuMetric :=
  let snap := holder_snapshot src in
  [mkCpuMetric "stream_up" Scrape.GaugeValue (if Connected snap then float64 1 else fzero) [instance];
   mkCpuMetric "stream_counters_published" Scrape.GaugeValue (if Fresh snap then float64 1 else fzero) [instance];
   mkCpuMetric "stream_reconnects_total" Scrape.CounterValue (float64 (Reconnects snap)) [instance];
   mkCpuMetric "stream_frames_total" Scrape.CounterValue (float64 (Frames snap)) [instance]]
  ++ (if HaveFrame snap then [mkCpuMetric "stream_last_frame_age_seconds" Scrape.GaugeValue (Seconds (LastFrameAge snap)) [instance]] else [])
  ++ (if negb (Fresh snap) then []
      else map (fun mode => mkCpuMetric "seconds_total" Scrape.CounterValue (default fzero (SecondsOf snap !! mode)) [mode; instance]) Modes).

(** ** Frames hold percentages *)

Definition parsed (v : option spec_float) : Prop := match v with Some x => exists lit, ParseFloat lit = Some x | None => True end.
Definition frame_ok (f : frame) : Prop := parsed (User f) /\ parsed (Nice f) /\ parsed (Sys f) /\ parsed (Intr f) /\ parsed (Idle f).

Lemma float_field_parsed v x : float_field v = Some x -> parsed x.
Proof. destruct v; cbn; try done; [by intros [= <-]|]. destruct (ParseFloat lit) eqn:E; [|done]. intros [= <-]. by exists lit. Qed.

Lemma decode_member_ok f m f' : frame_ok f -> decode_member f m = Some f' -> frame_ok f'.
Proof.
  intros (H1 & H2 & H3 & H4 & H5). unfold decode_member.
  repeat (match goal with |- (if ?b then _ else _) = _ -> _ => destruct b end;
    [destruct (float_field m.2) as [x|] eqn:E; [|done]; apply float_field_parsed in E; intros [= <-]; repeat split; done|]).
  intros [= <-]. by repeat split.
Qed.

Lemma decode_frame_ok v f : decode_frame v = Some f -> frame_ok f.
Proof.
  destruct v as [| | | | |l]; try done; [by intros [= <-]|]. cbn [decode_frame].
  assert (forall o, (forall g, o = Some g -> frame_ok g) -> forall g, fold_left (fun acc m => acc ≫= fun f => decode_member f m) l o = Some g -> frame_ok g) as H; [|apply H; intros g [= <-]; done].
  induction l as [|m l IH]; intros o Ho g; [apply Ho|]. cbn [fold_left]. apply IH. intros h. destruct o as [f'|]; [|done]. cbn. apply decode_member_ok, Ho. done.
Qed.

Lemma ltb_leb a b : nonneg a -> nonneg b -> SFltb b a = false -> SFleb a b = true.
Proof.
  destruct a as [sa|sa| |sa ma ea], b as [sb|sb| |sb mb eb]; cbn [nonneg]; intros Ha Hb; destruct_and?; subst; try done.
  intros H. apply leb_finite. unfold SFltb, SFcompare in H. destruct (Z.compare_spec eb ea) as [->|He|He]; [|done|by left].
  change (Pos.compare_cont Eq mb ma) with (mb ?= ma)%positive in H. destruct (Pos.compare_spec mb ma); [right; split; [done|lia]|done|right; split; [done|lia]].
Qed.

Lemma percentage_small v x : parsed v -> percentage v = Some x -> small 7 x.
Proof.
  destruct v as [y|]; [|done]. intros [lit Hp]. cbn [percentage]. destruct (SFltb y fzero) eqn:E1; [done|]. destruct (SFltb hundred_one y) eqn:E2; [done|]. intros [= <-].
  pose proof (ParseFloat_nonneg lit y Hp E1) as Hn. pose proof (float64_small 7 101 ltac:(lia) ltac:(lia)) as Hh. fold hundred_one in Hh. apply small_nonneg in Hh.
  pose proof (ltb_leb _ _ Hn Hh E2) as Hle. assert (hundred_one = S754_finite false 7107243161944064 (-46)) as Eh by (vm_compute; reflexivity). rewrite Eh in Hle. exact (small_le _ _ _ Hn Hle).
Qed.

Definition pct_ok (pct : gmap string spec_float) : Prop := forall mode, small 7 (default fzero (pct !! mode)).

Lemma parseFrame_ok b pct : parseFrame b = Some pct -> pct_ok pct.
Proof.
  unfold parseFrame. destruct (Unmarshal _) as [v|]; [|done]. cbn [mbind option_bind]. destruct (decode_frame v) as [f|] eqn:Ef; [|done]. cbn [mbind option_bind].
  apply decode_frame_ok in Ef as (H1 & H2 & H3 & H4 & H5).
  assert (forall l, Forall (fun p : string * option spec_float => parsed p.2) l -> forall m, foldr (fun p acc => x ← percentage p.2; m ← acc; Some (<[p.1 := x]> m)) (Some ∅) l = Some m -> pct_ok m) as H.
  { intros l Hl. induction Hl as [|[k v'] l Hv Hl IH]; intros m; [intros [= <-] mode; rewrite lookup_empty; done|]. cbn [foldr fst snd].
    destruct (percentage v') as [x|] eqn:E; [|done]. cbn [mbind option_bind]. destruct (foldr _ _ l) as [m'|]; [|done]. intros [= <-] mode. destruct (decide (k = mode)) as [->|Hk].
    - rewrite lookup_insert_eq. exact (percentage_small _ _ Hv E).
    - rewrite lookup_insert_ne by done. by apply IH. }
  apply H. by repeat constructor.
Qed.

(** ** Seconds *)

Lemma quot_seconds d : 0 < d <= maxDuration -> 0 <= Z.quot d Second < 2 ^ 34 /\ 0 <= Z.rem d Second < 2 ^ 30.
Proof.
  intros H. unfold maxDuration in H. change Second with 1000000000. rewrite Z.quot_div_nonneg, Z.rem_mod_nonneg by lia.
  pose proof (Z.mod_pos_bound d 1000000000 ltac:(lia)). split; [|lia]. split; [apply Z.div_pos; lia|apply Z.div_lt_upper_bound; lia].
Qed.

Lemma Seconds_small d : 0 < d <= maxDuration -> small 37 (Seconds d).
Proof.
  intros H. destruct (quot_seconds d H) as [Hq Hr]. unfold Seconds. apply (fadd_small 35); [lia|exact (float64_small 34 _ Hq ltac:(lia))|].
  assert (float64 1000000000 = S754_finite false 8388608000000000 (-23)) as -> by (vm_compute; reflexivity). pose proof (float64_small 30 _ Hr ltac:(lia)) as Hs.
  eapply small_weaken; [|apply (fdiv_small 31); [|exact Hs]]; vm_compute; (discriminate || (split; discriminate)).
Qed.

Lemma share_nonneg pct d mode : pct_ok pct -> 0 < d <= maxDuration -> nonneg (share pct (Seconds d) mode).
Proof.
  intros Hp Hd. unfold share. assert (float64 100 = S754_finite false 7036874417766400 (-46)) as -> by (vm_compute; reflexivity).
  apply (small_nonneg 40). apply (fmul_small 2 37); [lia| |by apply Seconds_small].
  eapply small_weaken; [|apply (fdiv_small 7); [|apply Hp]]; vm_compute; (discriminate || (split; discriminate)).
Qed.

(** ** What a history of the stream determines *)

Definition frame_time (e : event) : option Time := match e with Frame _ t => Some t | _ => None end.
(** The frame before, on the same connection. *)
Definition mark (e : event) : option (option Time) := match e with Begin => Some None | Frame _ t => Some (Some t) | _ => None end.
Definition predecessor (before : list event) : option Time := mjoin (last (omap mark before)).
(** The time a frame accounts for. *)
Definition credit (gap : Duration) (before : list event) (e : event) : option (gmap string spec_float * Duration) :=
  match e, predecessor before with
  | Frame pct t, Some t0 => if (0 <? time_Sub t t0) && (time_Sub t t0 <=? gap) then Some (pct, time_Sub t t0) else None
  | _, _ => None
  end.
Definition credited (gap : Duration) (evs : list event) : list (gmap string spec_float * Duration) :=
  omap (fun i => e ← evs !! i; credit gap (take i evs) e) (seq 0 (length evs)).
Definition seconds_of (gap : Duration) (evs : list event) (mode : string) : spec_float :=
  fold_left fadd (map (fun c => share c.1 (Seconds c.2) mode) (credited gap evs)) fzero.

Definition is_frame (e : event) : bool := match e with Frame _ _ => true | _ => false end.
Definition is_redial (e : event) : bool := match e with Redial => true | _ => false end.
Definition up_down (e : event) : option bool := match e with Begin => Some true | End_ => Some false | _ => None end.
Definition how_many (f : event -> bool) (evs : list event) : Z := zlen (List.filter f evs).

Definition ev_ok (e : event) : Prop := match e with Frame pct t => pct_ok pct /\ t <> 0 | _ => True end.

Lemma omap_ext_in {A B} (f g : A -> option B) (l : list A) : (forall x, x ∈ l -> f x = g x) -> omap f l = omap g l.
Proof. induction l as [|x l IH]; intros H; [done|]. cbn [omap list_omap]. rewrite (H x) by by left. rewrite (IH ltac:(intros y Hy; apply H; by right)). done. Qed.

Lemma credited_snoc gap evs e : credited gap (evs ++ [e]) = credited gap evs ++ option_list (credit gap evs e).
Proof.
  unfold credited. rewrite length_app, Nat.add_1_r, seq_S, omap_app. f_equal.
  - apply omap_ext_in. intros i Hi. apply elem_of_seq in Hi. rewrite lookup_app_l, take_app_le by lia. done.
  - cbn [omap list_omap Nat.add]. rewrite lookup_app_r, Nat.sub_diag by lia. cbn [mbind option_bind lookup list_lookup]. rewrite take_app_length. by destruct (credit gap evs e).
Qed.

Lemma seconds_snoc gap evs e mode : seconds_of gap (evs ++ [e]) mode
  = match credit gap evs e with Some c => fadd (seconds_of gap evs mode) (share c.1 (Seconds c.2) mode) | None => seconds_of gap evs mode end.
Proof. unfold seconds_of. rewrite credited_snoc, map_app, fold_left_app. by destruct (credit gap evs e). Qed.

Lemma predecessor_snoc evs e : predecessor (evs ++ [e]) = match mark e with Some m => m | None => predecessor evs end.
Proof. unfold predecessor. rewrite omap_app. cbn [omap list_omap]. destruct (mark e); [by rewrite last_snoc|by rewrite app_nil_r]. Qed.

(** The update of one map by all modes. *)
Lemma fold_modes (f : string -> spec_float) : forall (l : list string) (t : gmap string spec_float) mode, NoDup l ->
  default fzero (fold_left (fun t m => <[m := fadd (default fzero (t !! m)) (f m)]> t) l t !! mode)
  = if decide (mode ∈ l) then fadd (default fzero (t !! mode)) (f mode) else default fzero (t !! mode).
Proof.
  induction l as [|m l IH]; intros t mode Hnd; [done|]. apply NoDup_cons in Hnd as [Hm Hnd]. cbn [fold_left]. rewrite IH by done. destruct (decide (mode = m)) as [->|Hne].
  - rewrite lookup_insert_eq. destruct (decide (m ∈ l)); [done|]. destruct (decide (m ∈ m :: l)) as [_|H]; [done|by destruct H; left].
  - rewrite lookup_insert_ne by done. destruct (decide (mode ∈ l)) as [H|H], (decide (mode ∈ m :: l)) as [H'|H']; rewrite elem_of_cons in H'; try done; [by destruct H'; right|by destruct H'].
Qed.

Lemma Modes_NoDup : NoDup Modes.
Proof. apply (bool_decide_unpack _). vm_compute. exact I. Qed.

Record tells (cfg : Config) (evs : list event) (s : Stream) : Prop := {
  t_cfg : scfg s = withDefaults cfg;
  t_gap : maxGap (acc s) = MaxFrameGap (withDefaults cfg);
  t_total : forall mode, mode ∈ Modes -> default fzero (total (acc s) !! mode) = seconds_of (MaxFrameGap (withDefaults cfg)) evs mode;
  t_prev : acc_last (acc s) = default zero_time (predecessor evs);
  t_last : lastFrame s = default zero_time (last (omap frame_time evs));
  t_conn : connected s = default false (last (omap up_down evs));
  t_reconnects : reconnects s = u64 (how_many is_redial evs);
  t_frames : frames s = u64 (how_many is_frame evs) }.

Lemma how_many_snoc f evs e : how_many f (evs ++ [e]) = how_many f evs + (if f e then 1 else 0).
Proof. unfold how_many, zlen. rewrite List.filter_app, length_app. cbn. destruct (f e); cbn; lia. Qed.
Lemma incr_u64 n : incr (u64 n) = u64 (n + 1).
Proof. unfold incr, add64, u64. by rewrite Zplus_mod_idemp_l. Qed.

Lemma predecessor_ok evs t : Forall ev_ok evs -> predecessor evs = Some t -> t <> 0.
Proof.
  intros H. induction evs as [|e evs IH] using rev_ind; [done|]. apply Forall_app in H as [H He]. inversion He as [|? ? Hok _]; subst. rewrite predecessor_snoc.
  destruct e as [| |pct u|]; cbn [mark]; [by apply IH|done|intros [= <-]; apply Hok|by apply IH].
Qed.

Lemma tells_exec cfg evs : Forall ev_ok evs -> tells cfg evs (exec (New cfg) evs).
Proof.
  intros H. induction evs as [|e evs IH] using rev_ind; [by split|]. apply Forall_app in H as [H He]. inversion He as [|? ? Hok _]; subst. specialize (IH H).
  unfold exec in *. rewrite fold_left_app. cbn [fold_left]. set (s := fold_left step evs (New cfg)) in *. destruct IH as [I1 I2 I3 I4 I5 I6 I7 I8].
  destruct e as [| |pct t|]; cbn [step]; (split; rewrite ?predecessor_snoc, ?omap_app, ?how_many_snoc; cbn [mark omap list_omap frame_time up_down is_redial is_frame]; rewrite ?app_nil_r, ?Z.add_0_r, ?last_snoc).
  all: try done.
  - intros mode Hm. rewrite seconds_snoc. by apply I3.
  - cbn. rewrite I7. apply incr_u64.
  - intros mode Hm. rewrite seconds_snoc. by apply I3.
  - cbn. unfold acc_observe. destruct (IsZero _); [done|]. destruct (_ || _); done.
  - intros mode Hm. rewrite seconds_snoc. cbn [credit]. change (acc (observe pct t s)) with (acc_observe pct t (acc s)). unfold acc_observe. rewrite I4.
    destruct (predecessor evs) as [t0|] eqn:Ep; cbn [default from_option id]; [|by apply I3]. pose proof (predecessor_ok _ _ H Ep) as Hz.
    unfold IsZero. rewrite (proj2 (Z.eqb_neq t0 0) Hz). change (maxGap (acc s <| acc_last := t |>)) with (maxGap (acc s)). rewrite I2.
    destruct (0 <? time_Sub t t0) eqn:E1; [apply Z.ltb_lt in E1|apply Z.ltb_ge in E1].
    2: { rewrite (proj2 (Z.leb_le _ 0)) by done. by apply I3. }
    rewrite (proj2 (Z.leb_gt _ 0)) by done. cbn [orb andb]. destruct (time_Sub t t0 <=? _) eqn:E2; [apply Z.leb_le in E2|apply Z.leb_gt in E2].
    2: { rewrite (proj2 (Z.ltb_lt _ _)) by done. by apply I3. }
    rewrite (proj2 (Z.ltb_ge _ _)) by done. cbn [fst snd]. rewrite <- (I3 mode Hm).
    pose proof (fold_modes (share pct (Seconds (time_Sub t t0))) Modes (total (acc s)) mode Modes_NoDup) as Hf. rewrite decide_True in Hf by done. exact Hf.
  - cbn. unfold acc_observe. destruct (IsZero _); [done|]. destruct (_ || _); done.
  - cbn. rewrite I8. apply incr_u64.
  - intros mode Hm. rewrite seconds_snoc. by apply I3.
Qed.

(** The goroutine observes only what [parseFrame] accepted. *)
Definition clock_ok (r : round) : Prop := match rDial r with Opened _ _ clock => forall i, clock i <> 0 | Refused => True end.

Lemma readFrames_ok e : forall fuel data r out x, readFrames_fuel fuel data r e = Some (out, x) -> Forall pct_ok out.
Proof.
  assert (forall data line, Forall pct_ok (take_line data line).2) as Ht.
  { intros data line. destruct line as [|c line]; cbn [take_line].
    - destruct data; [done|]. destruct (parseFrame _) eqn:E; [|done]. constructor; [by apply parseFrame_ok in E|done].
    - destruct (Ascii.eqb c ":"); [done|]. destruct (cut_at _ _) as [[f v]|]; [|done]. by destruct (decide _). }
  induction fuel as [|fuel IH]; intros data r out x; [done|]. cbn [readFrames_fuel]. destruct (readLine r e) as [[[line err] r']|]; [|done]. cbn [mbind option_bind].
  set (res := if _ || _ then take_line data line else _). assert (Forall pct_ok res.2) as Hr by (unfold res; destruct (_ || _); [apply Ht|done]). destruct res as [d o]. cbn [snd] in Hr.
  destruct err as [y|]; [by intros [= <- <-]|]. destruct (maxFrameBytes <? zlen d); [by intros [= <- <-]|].
  destruct (readFrames_fuel fuel d r' e) as [[outs y]|] eqn:E; [|done]. cbn [mbind option_bind]. intros [= <- <-]. apply Forall_app. split; [done|by eapply IH].
Qed.

Lemma connectOnce_ok r : clock_ok r -> Forall ev_ok (connectOnce (rDial r)).1.
Proof.
  unfold clock_ok, connectOnce. destruct (rDial r) as [|body ending clock]; [done|]. intros Hc. destruct (readFrames body ending) as [[pcts x]|] eqn:E; cbn [fst].
  - apply readFrames_ok in E. constructor; [done|]. apply Forall_app. split; [|by repeat constructor]. apply Forall_lookup. intros i ev. rewrite list_lookup_imap.
    destruct (pcts !! i) as [pct|] eqn:Ei; [|done]. intros [= <-]. split; [|apply Hc]. rewrite Forall_lookup in E. by eapply E.
  - by repeat constructor.
Qed.

Lemma stream_run_ok cfg rounds : Forall clock_ok rounds -> forall first backoff, Forall ev_ok (run_from cfg first backoff rounds).1.
Proof.
  induction 1 as [|r rounds Hr _ IH]; intros first backoff; [done|]. cbn [run_from]. pose proof (connectOnce_ok r Hr) as Hc. destruct (connectOnce (rDial r)) as [evs delivered]. cbn [fst] in Hc.
  assert (Forall ev_ok (if first then [] else [Redial])) as Hd by (destruct first; by repeat constructor).
  destruct (rCancelled r); [by apply Forall_app|]. destruct (rWoke r); cbn [negb]; [|by apply Forall_app]. set (next := if _ <? _ then _ else _).
  specialize (IH false next). destruct (run_from cfg false next rounds) as [more sleeps]. cbn [fst] in *. by rewrite !Forall_app.
Qed.

(** *** The counters only grow *)

Lemma credit_sound gap before e c : ev_ok e -> credit gap before e = Some c -> pct_ok c.1 /\ 0 < c.2 <= maxDuration /\ c.2 <= gap.
Proof.
  intros He. unfold credit. destruct e as [| |pct t|]; try done. destruct (predecessor before) as [t0|]; [|done]. destruct (_ && _) eqn:E; [|done]. intros [= <-].
  apply andb_true_iff in E as [E1 E2]. apply Z.ltb_lt in E1. apply Z.leb_le in E2. cbn [fst snd]. split; [apply He|]. split; [|done]. split; [done|]. unfold time_Sub, minDuration, maxDuration. lia.
Qed.

Lemma seconds_grow gap evs more mode : Forall ev_ok (evs ++ more) -> nonneg (seconds_of gap (evs ++ more) mode) /\ SFleb (seconds_of gap evs mode) (seconds_of gap (evs ++ more) mode) = true.
Proof.
  assert (forall l, Forall ev_ok l -> nonneg (seconds_of gap l mode)) as Hn.
  { intros l. induction l as [|e l IH] using rev_ind; intros H; [done|]. apply Forall_app in H as [H He]. inversion He as [|? ? Hok _]; subst. rewrite seconds_snoc.
    destruct (credit gap l e) as [c|] eqn:E; [|by apply IH]. destruct (credit_sound _ _ _ _ Hok E) as (Hp & Hd & _). apply fadd_nonneg; [by apply IH|by apply share_nonneg]. }
  intros H. split; [by apply Hn|]. induction more as [|e more IH] using rev_ind; [rewrite app_nil_r; apply leb_refl, Hn; by rewrite app_nil_r in H|].
  rewrite app_assoc in H |- *. pose proof H as H'. apply Forall_app in H' as [H' He]. inversion He as [|? ? Hok _]; subst. specialize (IH H').
  apply leb_trans with (seconds_of gap (evs ++ more) mode); [apply Hn; by apply Forall_app in H' as [? _]|by apply Hn|by apply Hn|done|].
  rewrite seconds_snoc. destruct (credit gap (evs ++ more) e) as [c|] eqn:E; [|apply leb_refl; by apply Hn]. destruct (credit_sound _ _ _ _ Hok E) as (Hp & Hd & _).
  apply fadd_ge; [by apply Hn|by apply share_nonneg].
Qed.

Lemma acc_seconds_lookup a mode : mode ∈ Modes -> acc_seconds a !! mode = Some (default fzero (total a !! mode)).
Proof.
  unfold acc_seconds. generalize Modes. intros l. induction l as [|m l IH]; intros H; [by apply elem_of_nil in H|]. cbn [foldr]. destruct (decide (m = mode)) as [->|Hne]; [by rewrite lookup_insert_eq|].
  rewrite lookup_insert_ne by done. apply IH. apply elem_of_cons in H as [->|H]; done.
Qed.

Lemma seconds_series (f : string -> spec_float) instance l (g := fun mode => mkCpuMetric "seconds_total" Scrape.CounterValue (f mode) [mode; instance]) :
  filter (fun m => cName m = "seconds_total") (map g l) = map g l.
Proof. induction l as [|m l IH]; [done|]. cbn [map filter list_filter]. rewrite decide_True by done. f_equal. exact IH. Qed.

(** [C33] Between any two critical sections of the stream's goroutine, whatever the dials
    meet: the seconds of a mode are the sum of the shares of exactly the frames that follow
    another on their connection by more than nothing and at most the gap; a later value is
    never below an earlier one and no value is negative or a NaN; the counts of frames and
    of redials, the connection and the freshness are those of the history; and the collector
    publishes the seconds exactly while the last frame is within the grace period. *)
Theorem cpu_seconds_exact cfg rounds early later rest now instance : Forall clock_ok rounds -> (run cfg rounds).1 = early ++ later ++ rest ->
  let evs := early ++ later in
  let gap := MaxFrameGap (withDefaults cfg) in
  let snap := Snapshot now (exec (New cfg) evs) in
  let fresh := match last (omap frame_time evs) with Some t => time_Sub now t <=? GracePeriod (withDefaults cfg) | None => false end in
  (forall mode, mode ∈ Modes -> SecondsOf snap !! mode = Some (seconds_of gap evs mode) /\ nonneg (seconds_of gap evs mode)
     /\ SFleb (seconds_of gap early mode) (seconds_of gap evs mode) = true)
  /\ Frames snap = u64 (how_many is_frame evs) /\ Reconnects snap = u64 (how_many is_redial evs)
  /\ Connected snap = default false (last (omap up_down evs)) /\ Fresh snap = fresh
  /\ filter (fun m => cName m = "seconds_total") (cpu_update instance (Some snap))
     = if fresh then map (fun mode => mkCpuMetric "seconds_total" Scrape.CounterValue (seconds_of gap evs mode) [mode; instance]) Modes else [].
Proof.
  intros Hc Hrun evs gap snap fresh. assert (Forall ev_ok evs) as Hev.
  { pose proof (stream_run_ok (withDefaults cfg) rounds Hc true (MinBackoff (withDefaults cfg))) as H. unfold run in Hrun. rewrite Hrun, app_assoc in H. by apply Forall_app in H as [H _]. }
  destruct (tells_exec cfg evs Hev) as [I1 I2 I3 I4 I5 I6 I7 I8]. assert (forall mode, mode ∈ Modes -> SecondsOf snap !! mode = Some (seconds_of gap evs mode)) as Hs.
  { intros mode Hm. unfold snap, Snapshot. cbn [SecondsOf]. rewrite acc_seconds_lookup by done. by rewrite I3. }
  assert (Fresh snap = fresh) as Hfresh.
  { unfold snap, Snapshot, fresh. cbn [Fresh]. rewrite I5, I1. assert (forall t, last (omap frame_time evs) = Some t -> t <> 0) as Hz.
    { intros t Ht. assert (t ∈ omap frame_time evs) as Hin by (rewrite last_lookup in Ht; by apply list_elem_of_lookup_2 in Ht). apply list_elem_of_omap in Hin as (e & He & Hte).
      rewrite Forall_forall in Hev. specialize (Hev e He). destruct e; try done. injection Hte as <-. apply Hev. }
    destruct (last (omap frame_time evs)) as [t|] eqn:El; [|done]. specialize (Hz t El). cbn [default from_option id]. unfold IsZero. by rewrite (proj2 (Z.eqb_neq t 0) Hz). }
  split; [intros mode Hm; split; [by apply Hs|by apply seconds_grow]|]. split; [exact I8|]. split; [exact I7|]. split; [exact I6|]. split; [done|].
  unfold cpu_update, holder_snapshot. cbn [default from_option id]. rewrite Hfresh. rewrite !filter_app. cbn [filter list_filter cName]. rewrite !decide_False by done. cbn [app].
  assert (forall l : list CpuMetric, filter (fun m => cName m = "seconds_total") (if HaveFrame snap then [mkCpuMetric "stream_last_frame_age_seconds" Scrape.GaugeValue (Seconds (LastFrameAge snap)) [instance]] else []) ++ l = l) as ->
    by (intros l; destruct (HaveFrame snap); done).
  destruct fresh; [|done]. cbn [negb]. rewrite seconds_series. apply map_ext_in. intros mode Hm. apply list_elem_of_In in Hm. by rewrite (Hs mode Hm).
Qed.

Definition sample_config : Config := mkConfig 0 0 0 0 0.
Definition sample_rounds : list round :=
  [mkRound Refused false true;
   mkRound (Opened (text "data: " ++ sample_payload ++ [NL; NL] ++ text "data: " ++ sample_payload ++ [NL; NL]) EOF (fun i => unix_epoch + Z.of_nat i * Second)) false true].

Lemma cpu_seconds_exact_witness :
  let evs := [Redial; Begin; Frame sample_pct unix_epoch] ++ [Frame sample_pct (unix_epoch + Second)] in
  seconds_of (5 * Second) evs ModeIdle = fconst 91 100
  /\ SecondsOf (Snapshot (unix_epoch + 61 * Second) (exec (New sample_config) evs)) !! ModeIdle = Some (seconds_of (5 * Second) evs ModeIdle)
  /\ Fresh (Snapshot (unix_epoch + 61 * Second) (exec (New sample_config) evs)) = true.
Proof.
  intros evs. split; [vm_compute; reflexivity|].
  destruct (cpu_seconds_exact sample_config sample_rounds [Redial; Begin; Frame sample_pct unix_epoch] [Frame sample_pct (unix_epoch + Second)] [End_] (unix_epoch + 61 * Second) "fw")
    as (Hs & _ & _ & _ & Hf & _).
  - constructor; [exact I|]. constructor; [|constructor]. intros i. unfold unix_epoch, Second, Millisecond. lia.
  - vm_compute. reflexivity.
  - destruct (Hs ModeIdle) as [H _]; [do 4 apply list_elem_of_further; apply list_elem_of_here|]. split; [exact H|exact Hf].
Defined.

(** ** The watchdog and the backoff *)

Lemma withDefaults_eq a b c d e (d' := if d <=? 0 then defaultMinBackoff else d) (e' := if e <? d' then defaultMaxBackoff else e) :
  withDefaults (mkConfig a b c d e)
  = mkConfig (if a <=? 0 then defaultStallAfter else a) (if b <=? 0 then DefaultGracePeriod else b) (if c <=? 0 then defaultMaxFrameGap else c) d' (if e' <? d' then d' else e').
Proof.
  unfold withDefaults. change (StallAfter (mkConfig a b c d e)) with a. unfold e', d'. destruct (a <=? 0); cbv zeta.
  all: match goal with |- context [if GracePeriod ?x <=? 0 then _ else _] => change (GracePeriod x) with b end; destruct (b <=? 0).
  all: match goal with |- context [if MaxFrameGap ?x <=? 0 then _ else _] => change (MaxFrameGap x) with c end; destruct (c <=? 0).
  all: match goal with |- context [if MinBackoff ?x <=? 0 then _ else _] => change (MinBackoff x) with d end; destruct (d <=? 0).
  all: match goal with |- context [if ?x <? ?y then _ else _] => lazymatch y with MinBackoff _ => destruct (x <? y) eqn:E1 end end.
  all: match goal with |- context [if ?x <? ?y then _ else _] => lazymatch y with MinBackoff _ => destruct (x <? y) eqn:E2 end end.
  all: cbn [MaxBackoff MinBackoff update] in E1, E2; first [exfalso; congruence | rewrite ?E1, ?E2, ?E1; reflexivity].
Qed.

Lemma defaults_positive cfg : 0 < StallAfter (withDefaults cfg) /\ 0 < GracePeriod (withDefaults cfg) /\ 0 < MaxFrameGap (withDefaults cfg)
  /\ 0 < MinBackoff (withDefaults cfg) <= MaxBackoff (withDefaults cfg).
Proof.
  destruct cfg as [a b c d e]. rewrite withDefaults_eq. set (d' := if d <=? 0 then _ else d). set (e' := if e <? d' then _ else e). cbn [StallAfter GracePeriod MaxFrameGap MinBackoff MaxBackoff].
  assert (0 < defaultStallAfter /\ 0 < DefaultGracePeriod /\ 0 < defaultMaxFrameGap /\ 0 < defaultMinBackoff) as (H1 & H2 & H3 & H4) by by vm_compute.
  assert (0 < d') by (unfold d'; destruct (Z.leb_spec d 0); lia).
  destruct (Z.leb_spec a 0), (Z.leb_spec b 0), (Z.leb_spec c 0), (Z.ltb_spec e' d'); lia.
Qed.

(** A connection without a frame for longer than [StallAfter] is cancelled by a tick at most
    half of it later, and none that had a frame in that time is. *)
Lemma stall_detected cfg started last (since := Z.max last started) (p := Z.quot (StallAfter cfg) 2) : 2 <= StallAfter cfg < maxDuration ->
  (exists k, 0 <= k /\ watchdog_tick cfg started last (started + (k + 1) * p) = true /\ started + (k + 1) * p <= since + StallAfter cfg + p)
  /\ forall now, watchdog_tick cfg started last now = true <-> since + StallAfter cfg < now.
Proof.
  intros H. assert (forall now, watchdog_tick cfg started last now = true <-> since + StallAfter cfg < now) as Ht.
  { intros now. unfold watchdog_tick, since, Before. rewrite Z.ltb_lt. destruct (Z.ltb_spec last started); rewrite time_Sub_gt by (unfold minDuration; lia); lia. }
  split; [|exact Ht]. assert (0 < p) as Hp by (unfold p; rewrite Z.quot_div_nonneg by lia; apply Z.div_str_pos; lia).
  exists ((since + StallAfter cfg - started) / p). pose proof (Z.div_mod (since + StallAfter cfg - started) p ltac:(lia)) as Hd. pose proof (Z.mod_pos_bound (since + StallAfter cfg - started) p Hp) as Hm.
  set (k := (since + StallAfter cfg - started) / p) in *. split; [apply Z.div_pos; [unfold since; lia|done]|]. rewrite Ht. lia.
Qed.

(** The sleeps stay between the two bounds. *)
Lemma sleeps_bounded cfg rounds : MaxBackoff (withDefaults cfg) < 2 ^ 62 -> Forall (fun d => MinBackoff (withDefaults cfg) <= d <= MaxBackoff (withDefaults cfg)) (run cfg rounds).2.
Proof.
  unfold run. destruct (defaults_positive cfg) as (_ & _ & _ & Hmin). set (c := withDefaults cfg) in *. intros Hmax.
  assert (forall first backoff, MinBackoff c <= backoff <= MaxBackoff c -> Forall (fun d => MinBackoff c <= d <= MaxBackoff c) (run_from c first backoff rounds).2) as H; [|apply H; lia].
  induction rounds as [|r rounds IH]; intros first backoff Hb; [constructor|]. cbn [run_from]. destruct (connectOnce (rDial r)) as [evs delivered]. destruct (rCancelled r); [constructor|].
  set (b := if delivered then _ else _). assert (MinBackoff c <= b <= MaxBackoff c) as Hb' by (unfold b; destruct delivered; lia). destruct (rWoke r); cbn [negb]; [|constructor; [exact Hb'|constructor]].
  set (next := if _ <? _ then _ else _). assert (MinBackoff c <= next <= MaxBackoff c) as Hn.
  { unfold next. assert (s64 (b * 2) = b * 2) as -> by (unfold s64, M64; rewrite Z.mod_small by lia; rewrite (proj2 (Z.ltb_lt _ _)) by lia; done). destruct (Z.ltb_spec (MaxBackoff c) (b * 2)); lia. }
  specialize (IH false next Hn). destruct (run_from c false next rounds) as [more sleeps]. by constructor.
Qed.

End CpuStream.
